(* ===== verification/_CoqProject ===== *)
-Q . S2P
Prelude.v
ArraySubset.v
Linear.v
Iterators.v
ChunkGrid.v
RegularGrid.v
RectilinearGrid.v
RepeatGrid.v
ByteRange.v
StoreKey.v
ChunkKey.v
Storage.v
MemoryStore.v
StorageAdapter.v
ArrayBytes.v
Elements.v
Regions.v
StoreProgram.v
DecodeInto.v
GridRegions.v
Concurrency.v
Codec.v
BytesCodec.v
ArrayOps.v
ArraySpec.v
StoreRegion.v
RetrieveRegion.v
ArrayTheorems.v
BytesToBytes.v
Checksums.v
Fletcher.v
Shuffle.v
Compressors.v
ArrayToArray.v
CodecChain.v
CodecChainSpec.v
ChainTheorems.v
Sharding.v
ShardPlacement.v
ShardEncode.v
ShardSpec.v
ShardingPartial.v
ShardPartialSpec.v
ShardReads.v
ShardingEncoder.v
ShardingBind.v
ShardTheorems.v
Vlen.v
VlenLaws.v
VlenIndexed.v
VlenTheorems.v
PackBits.v
PackBitsSpec.v
PackBitsTheorems.v
Transpose.v
TransposeLaws.v
TransposeTheorems.v
OptionalCodec.v
OptionalLaws.v
OptionalTheorems.v
ChunkCache.v
ChunkCacheSpec.v
ArrayCached.v
ArrayCachedSpec.v
CachedRegions.v
CachedTheorems.v
ChunkEdges.v
Subchunking.v
SubchunkLaws.v
SubchunkCodecs.v
SubchunkTheorems.v
Reshape.v
ReshapeGrids.v
ReshapePartitions.v
ReshapeTheorems.v
Bitround.v
BitroundTheorems.v
Hierarchy.v
HierarchySpec.v
HierarchyTheorems.v
