(* ===== verification/Prelude.v ===== *)
(** * Verification of the core of zarrs

    zarrs stores multidimensional arrays in a key-value store.  An array is cut into chunks by a
    chunk grid; a chunk is encoded to bytes by a codec and kept at a key made by a chunk key encoding.
    This development models the part of the library that turns requests on regions of an array
    into reads and writes of chunks, and proves that the array read back is the array written.

    ** Parts, and the code they model

    - [Prelude]: machine integers, outcomes, and lemmas on lists that the other files share.
    - [ArraySubset], [Linear], [Iterators]: boxes of indices, C-order linear indices, and the
      iterators over them ([zarrs_chunk_grid/src/array_subset.rs], [lib.rs], [indexer.rs] and
      [iterators/]).
    - [ChunkGrid]: the trait [ChunkGridTraits] as a class of operations and [LawfulChunkGrid], what
      a grid promises: chunks that tile the array along every axis.  [RegularGrid], [RectilinearGrid] and
      [RepeatGrid] discharge it for the grids of [zarrs/src/array/chunk_grid].  [GridRegions] says which chunks
      a region meets, and how the parts in them make up the region.
    - [ByteRange], [StoreKey], [ChunkKey]: byte ranges ([zarrs_storage/src/byte_range.rs]), keys, prefixes
      and node paths ([store_key.rs], [store_prefix.rs], [zarrs/src/node]), and the
      encodings of chunk indices as keys.  [LawfulChunkKeyEncoding] promises that different chunks have
      different keys.
    - [Storage]: the storage traits ([zarrs_storage/src/storage_sync.rs]) and [LawfulStorage], what
      a store promises: it refines a finite map.  [MemoryStore] and [StorageAdapter] are the in-memory
      store and the performance metrics adapter.
    - [ArrayBytes]: the bytes of a region, fixed-length, variable-length or with optional masks
      ([zarrs_codec/src/array_bytes.rs]).  [Elements] and [Regions] give their meaning: lists of
      elements, and functions of the index on a box.
    - [StoreProgram]: operations as programs of store calls, serial runs and interleavings.
    - [DecodeInto], [Concurrency]: decoding into shared memory and merging chunks
      ([array_bytes_internal.rs]), options and concurrency limits ([options.rs], [concurrency.rs]).
    - [Codec]: the codec traits ([zarrs_codec/src/codec_traits]), the partial decoders a codec inherits
      ([codec_partial_default.rs]) and [LawfulArrayToBytesCodec], what a codec promises: decoding gives back the
      elements, and a partial decoder reads a region of them.  [BytesCodec] discharges it for the
      [bytes] codec.
    - [BytesToBytes], [ArrayToArray]: the traits of the codecs around an array to bytes codec, with the partial
      codecs they inherit and their laws.  [Checksums], [Fletcher], [Shuffle] and [Compressors] discharge
      them for the codecs of [zarrs/src/array/codec/bytes_to_bytes], [ArrayToArray] for [squeeze], [TransposeLaws] for [transpose].
    - [CodecChain], [CodecChainSpec], [ChainTheorems]: the chain of codecs
      ([array_to_bytes/codec_chain.rs]) with its caches; a chain of lawful codecs is a lawful array to bytes
      codec, so that the arrays below can be built from it.
    - The sharding codec ([array_to_bytes/sharding]), a chunk cut into subchunks with an index of where each
      lies.  Definitions: [Sharding] (the index, encoding and decoding), [ShardingPartial] (the partial decoder and the
      decoder of a byte interval), [ShardingEncoder] (the partial encoder and the codec), [ShardingBind]
      (the unbound codec, its checks and the builder).  Proofs: [ShardPlacement]
      (the grid of the subchunks, the index, the memory they are put in), [ShardEncode], [ShardSpec] (decoding and compacting),
      [ShardPartialSpec] and [ShardReads] (what is read from a shard), [ShardingBind] (the codec is also a lawful
      array to bytes codec), [ShardTheorems].  The class [Sharding.RunTime] holds what the run of the program
      decides: the order in which parallel tasks act, and the contents of memory that is not written.
    - The variable-length codecs ([array_to_bytes/vlen*]).  Definitions: [Vlen] ([vlen_v2] and its wrappers
      [vlen-utf8], [vlen-bytes] and [vlen-array]) and [VlenIndexed] ([vlen], whose index has a codec chain of its own).
      Proofs: [VlenLaws] ([vlen_v2] and its wrappers are lawful codecs), [VlenTheorems].
    - The [packbits] codec.  Definitions: [PackBits]; proofs: [PackBitsSpec] (which bits survive, and what the
      partial decoder reads), [PackBitsTheorems].
    - The [optional] codec ([array_to_bytes/optional]): a mask and the elements that are there, each with codecs of its own.
      Definitions: [OptionalCodec]; proofs: [OptionalLaws] (lawful inner codecs make a lawful codec),
      [OptionalTheorems].
    - The [transpose] codec ([array_to_array/transpose]).  Definitions: [Transpose], over the library ndarray as a class with
      laws; proofs: [TransposeLaws] (it is a lawful array to array codec), [TransposeTheorems].
    - The [reshape] codec ([array_to_array/reshape]).  Definitions: [Reshape] (the configuration, the encoded shape, the indices
      of a partial read, the grids); proofs: [ReshapeGrids] (edges as intervals of the elements in row-major order, one
      chunk, repeated chunks), [ReshapePartitions] (groups of dimensions that are flattened, and the subchunks split back),
      [ReshapeTheorems].
    - The [bitround] codec ([array_to_array/bitround]).  Definitions: [Bitround] (rounding as operations on bits, the codec and
      its partial codecs); proofs: [BitroundTheorems].  It loses bits, so it is no instance of the class of lawful codecs.
    - Grids of subchunks ([array_to_array.rs], [array_to_bytes.rs] and [lib.rs] of [zarrs_codec/src], and the codecs).  [ChunkEdges]:
      any lawful grid as its edge lengths along each dimension.  [Subchunking]: the grid of an array through the codecs of a
      chain, and the grids of subchunks back, for transpose, squeeze and sharding.  [SubchunkLaws]: the class
      [LawfulSubchunking], which [SubchunkCodecs] discharges for transpose and squeeze and [ReshapeTheorems] for reshape.
      [SubchunkTheorems]: sharding and chains.
    - [ArrayOps]: the operations of an array ([zarrs/src/array/array_ops]) as programs.  [ArraySpec],
      [StoreRegion] and [RetrieveRegion] say what they do to the elements of the array, and
      [ArrayTheorems] puts them on a store.
    - The chunk caches and cached arrays ([zarrs/src/array/chunk_cache.rs], [chunk_cache_lru_moka.rs], [array_cached.rs]).
      Definitions: [ChunkCache], the trait of a cache, its promise [LawfulChunkCache], and the thread-local caches with a limit on the
      chunks or on their size, over the crate lru as a class with laws; and [ArrayCached], the array with a cache of decoded or
      encoded chunks.  [ChunkCacheSpec]: the thread-local caches keep the promise, and their limits;
      [ArrayCachedSpec]: coherence of a cache with the store; [CachedRegions] and [CachedTheorems]: the
      operations of a cached array are those of the array.  The shared caches over the crate moka are a parameter that keeps
      the promise of a cache.

    - Nodes, groups and hierarchies ([zarrs/src/node.rs], [node/node_sync.rs], [hierarchy.rs], [group.rs]).  Definitions: [Hierarchy],
      over the documents of nodes as a class of types and the functions of serde on them.  [HierarchySpec]: the tree of nodes that a
      store holds, and that the code reads it; [HierarchyTheorems]: consolidated metadata, groups, and the theorems.

    ** How the parts meet

    [ArrayOps.Array] is built from any lawful grid, key encoding and codec; its programs run on any
    lawful store.  [ArraySpec.array_holds] is the abstraction: an array holds a function from
    indices to elements when the value at the key of every chunk decodes to the elements
    of the chunk, or is absent and they are fill values.  The operations of the code are compared with
    reading and overwriting this function.

    ** What the theorems show

    - Arrays: writing a region has exactly the effect of overwriting it, for any order of the store
      calls of the chunk tasks; reading returns the elements of the region; what is read is valid data whatever
      the store holds; invalid requests make no call.
    - Grids and regions: chunks partition the array, regions meet the chunks the grid says, unions, iteration
      and run lengths; the iterators enumerate a region once and in order, from both ends and in
      parallel.
    - Bytes: extraction, update and fill value recognition on the elements they represent.
    - Codecs: chains round-trip and their partial decoders read regions; the place of the cache; checksums
      detect errors and fletcher32 is the textbook checksum; shuffling; the size bounds of compressors.
    - Shards: an encoded shard decodes to its elements for any order of the tasks, in the copying and the in-place decoders;
      the partial decoder reads regions and never outside them; compaction keeps the content and leaves no gaps; what
      a decoder of a byte interval reads.  A shard of lawful codecs is a lawful codec, so arrays of shards,
      shards of shards and chains around shards have the theorems on arrays and chains.
    - Variable-length codecs: what [vlen_v2] accepts, and what it then returns; [vlen] keeps the elements for any lawful
      chains of its index and data.  [vlen] keeps even the bytes that belong to no element, so it is no instance of the
      class of lawful codecs, which promises packed bytes.
    - Optional elements: encoding and decoding keeps the elements and the mask, for any lawful codecs of both.
    - Transposing and reshaping: where elements go, and back; the partial decoder of a transposed chunk; the shape of a
      reshaped chunk and the indices a partial read asks for.
    - Subchunks: two elements share a subchunk of the grid that a chain reports exactly when they share a chunk and their images
      share an encoded subchunk; sharding cuts a grid exactly when its chunks are whole numbers of subchunks; an array
      whose chunks reach a subchunk or more past it is refused when its chunks are transposed and sharded.
    - Bit rounding: to the nearest multiple of a power of two, ties to even, downwards at the end of the range; the signs and
      infinities of floats are kept and rounding their bits rounds the floats; a chunk is rounded element by element, once, and
      region by region.
    - Cached arrays: reads through a coherent cache are reads of the array, writes keep it coherent; a write that fails
      leaves the cache stale; a nested optional chunk panics; the sizes a cache accounts for.
    - Packed bits: the bits from [first_bit] to [last_bit] of every element survive and signed elements are
      extended; what the partial decoder reads instead, which for signed data or a first bit is not that.
    - Hierarchies: every node below a group is found once; consolidated metadata stands for the listing of the store; the metadata of a
      group is read back, but for the old attributes that a version 2 group without attributes leaves; a directory whose name is
      no node name stops the listing.
    - Stores and keys: stores refine maps, directories are listed as a partition, keys are
      valid and injective.

    ** Conventions and bounds

    The 64-bit integers of the code are [Z]; arithmetic that wraps in a release build is written with
    [wrap64], checked arithmetic with an option, on a target whose [usize] has 64 bits.  An operation returns
    an [outcome]: a value, an error of the code's error type, or [Panic].  Loops over iterators are run
    with [drain], whose fuel is one more than the number of elements of the region; that this is enough is part of the
    theorems on the iterators.  The recursive functions on hierarchies have fuel that is more than the lengths of the keys below
    the group, each level taking two characters of them at least.  Exhaustion of memory is not modelled; vectors have the capacity
    they ask for.  Memory that is not written yet is an argument of the operations that allocate it.

    A mutable view into shared memory carries the memory; a decoding step returns it changed.  A
    store operation is atomic, as the mutex of the in-memory store makes it.  A parallel iterator is
    written as its serial loop; [StoreProgram] shows that the order of the calls does not matter for tasks on keys
    of their own, and [ArrayTheorems] has this for the chunk tasks of a write.

    ** Not modelled

    Asynchronous operations repeat the synchronous ones.  JSON documents enter as types with the functions that read and write them;
    the metadata of arrays, its conversion between versions and the plugin registries are documents and names on top
    of what is modelled.  The compression and CRC libraries,
    the filesystem and object stores are external; the compressors enter with the bounds of their format as a
    law ([Compressors.LawfulCompression]).  Data types enter by their size and their nesting of
    optionals; the conversions to the types of the host language are left out.  Of the
    sharding codec, indexers other than array subsets are left out, and its partial encoder is a definition without a
    theorem.  The partial codecs of [reshape] pass lists of indices to the handle they wrap; the handles of the model
    take array subsets.  Of the
    chunk caches, several threads on one cache and the caches of partial decoders are left out, and of cached arrays the
    reading of single subchunks and retrieving into a target.  The codecs
    that compute with floating-point numbers ([fixedscaleoffset], the float kernels of [cast_value]) and those that wrap
    external libraries ([pcodec], [zfp]) are left out. *)

From Stdlib Require Export ZArith Lia.
From stdpp Require Export prelude list list_numbers gmap strings.

#[export] Set Default Goal Selector "!".

Open Scope Z_scope.

(** Settle a closed decidable proposition by evaluation. *)
Ltac by_decision := apply (bool_decide_unpack _); vm_compute; exact I.

#[global] Arguments Z.eqb : simpl never.
#[global] Arguments Z.ltb : simpl never.
#[global] Arguments Z.leb : simpl never.
#[global] Arguments Z.modulo : simpl never.
#[global] Arguments Z.div : simpl never.
#[global] Arguments Z.mul : simpl never.

(** * Machine integers *)

(** The modulus of [u64].  The targets considered are the 64-bit ones, where
    [usize] has the same range. *)
Definition u64_modulus : Z := 2 ^ 64.

(** [u64::MAX]. *)
Definition u64_max : Z := u64_modulus - 1.

(** [z] is the value of a [u64]. *)
Definition is_u64 (z : Z) : Prop := 0 <= z < u64_modulus.

(** The wrap-around of unchecked [u64] arithmetic. *)
Definition wrap64 (z : Z) : Z := z mod u64_modulus.

Declare Scope u64_scope.
Delimit Scope u64_scope with u64.
Notation "a '+w' b" := (wrap64 (a + b)) (at level 50, left associativity) : u64_scope.
Notation "a '-w' b" := (wrap64 (a - b)) (at level 50, left associativity) : u64_scope.
Notation "a '*w' b" := (wrap64 (a * b)) (at level 40, left associativity) : u64_scope.
Open Scope u64_scope.

(** [u64::saturating_sub], [checked_mul], [checked_add], [checked_sub] and
    [div_ceil]. *)
Definition saturating_sub (a b : Z) : Z := Z.max 0 (a - b).
Definition checked_mul (a b : Z) : option Z :=
  if a * b <? u64_modulus then Some (a * b) else None.
Definition checked_add (a b : Z) : option Z :=
  if a + b <? u64_modulus then Some (a + b) else None.
Definition checked_sub (a b : Z) : option Z :=
  if b <=? a then Some (a - b) else None.
Definition div_ceil (a b : Z) : Z :=
  let d := a / b in if 0 <? a mod b then d + 1 else d.

(** [Iterator::product] and [Iterator::sum] over [u64]. *)
Definition product64 (l : list Z) : Z := fold_left (fun acc d => acc *w d) l 1.
Definition sum64 (l : list Z) : Z := fold_left (fun acc d => acc +w d) l 0.

(** [try_fold] of [checked_mul] and [checked_add]. *)
Definition checked_product (l : list Z) : option Z :=
  fold_left (fun acc d => a ← acc; checked_mul a d) l (Some 1).
Definition checked_sum (l : list Z) : option Z :=
  fold_left (fun acc d => a ← acc; checked_add a d) l (Some 0).

(** The mathematical product and sum. *)
Definition Zprod (l : list Z) : Z := foldr Z.mul 1 l.
Definition Zsum (l : list Z) : Z := foldr Z.add 0 l.
#[global] Arguments Zprod : simpl never.
#[global] Arguments Zsum : simpl never.

(** The length of a list as a machine integer. *)
Abbreviation zlen l := (Z.of_nat (length l)).

Ltac unfold_u64 := unfold is_u64, u64_max, u64_modulus in *.

Lemma wrap64_small z : is_u64 z → wrap64 z = z.
Proof. intros H. apply Z.mod_small. exact H. Qed.

Lemma wrap64_range z : is_u64 (wrap64 z).
Proof. apply Z.mod_pos_bound. reflexivity. Qed.

Lemma wrap64_shift k z : wrap64 (z + k * u64_modulus) = wrap64 z.
Proof. unfold wrap64. apply Z_mod_plus_full. Qed.

Lemma wrap64_mul_l a b : wrap64 (wrap64 a * b) = wrap64 (a * b).
Proof. unfold wrap64. by rewrite Z.mul_mod_idemp_l. Qed.

Lemma wrap64_add_l a b : wrap64 (wrap64 a + b) = wrap64 (a + b).
Proof. unfold wrap64. by rewrite Z.add_mod_idemp_l. Qed.

Lemma wrap64_add_r a b : wrap64 (a + wrap64 b) = wrap64 (a + b).
Proof. unfold wrap64. by rewrite Z.add_mod_idemp_r. Qed.

Lemma wrap64_wrap64 a : wrap64 (wrap64 a) = wrap64 a.
Proof. unfold wrap64. by rewrite Z.mod_mod. Qed.

Lemma div_ceil_spec a b : 0 <= a → 0 < b → b * (div_ceil a b - 1) < a <= b * div_ceil a b ∨ (a = 0 ∧ div_ceil a b = 0).
Proof.
  intros Ha Hb. unfold div_ceil.
  pose proof (Z.div_mod a b ltac:(lia)). pose proof (Z.mod_pos_bound a b Hb).
  destruct (Z.ltb_spec 0 (a mod b)); [left; nia|].
  destruct (decide (a = 0)) as [->|]; [right; split; [done|]; apply Z.div_0_l; lia|left; nia].
Qed.

(** A quotient is below the ceiling exactly when the dividend is in range. *)
Lemma div_lt_div_ceil a i b : 0 <= i < a → 0 < b → 0 <= i / b < div_ceil a b.
Proof.
  intros Hi Hb. split; [apply Z.div_pos; lia|].
  destruct (div_ceil_spec a b ltac:(lia) Hb) as [H|[-> _]]; [|lia].
  apply Z.div_lt_upper_bound; lia.
Qed.

Lemma div_ceil_nonneg a b : 0 <= a → 0 < b → 0 <= div_ceil a b.
Proof. intros. destruct (div_ceil_spec a b); nia. Qed.

Lemma div_ceil_le a b : 0 <= a → 0 < b → div_ceil a b <= a.
Proof. intros. destruct (div_ceil_spec a b); nia. Qed.

Lemma checked_mul_Some a b m : checked_mul a b = Some m ↔ m = a * b ∧ a * b < u64_modulus.
Proof. unfold checked_mul. destruct (Z.ltb_spec (a * b) u64_modulus); split; [intros [= <-]|intros [-> _]|done|intros [_ ?]]; done || lia. Qed.

Lemma checked_add_Some a b m : checked_add a b = Some m ↔ m = a + b ∧ a + b < u64_modulus.
Proof. unfold checked_add. destruct (Z.ltb_spec (a + b) u64_modulus); split; [intros [= <-]|intros [-> _]|done|intros [_ ?]]; done || lia. Qed.

Lemma div_mod_unique_pos b q r a :
  0 <= r < b → a = b * q + r → a / b = q ∧ a mod b = r.
Proof.
  intros Hr ->. split.
  - symmetry. apply Z.div_unique_pos with r; lia.
  - symmetry. apply Z.mod_unique_pos with q; lia.
Qed.

(** Sums. *)
Lemma Zsum_cons a l : Zsum (a :: l) = a + Zsum l.
Proof. done. Qed.

Lemma Zsum_app l k : Zsum (l ++ k) = Zsum l + Zsum k.
Proof. induction l as [|a l IH]; [done|]. simpl. rewrite !Zsum_cons, IH. lia. Qed.

(** Addition modulo 2^64 wraps once. *)
Lemma sum64_wrap l : sum64 l = wrap64 (Zsum l).
Proof.
  unfold sum64. assert (∀ a, fold_left (λ acc d, acc +w d) l (wrap64 a) = wrap64 (a + Zsum l)) as H; [|apply (H 0)].
  induction l as [|d l IH]; intros a; simpl; [by rewrite Z.add_0_r|].
  rewrite wrap64_add_l, IH, Zsum_cons. f_equal. lia.
Qed.

Lemma Zsum_Permutation l k : l ≡ₚ k → Zsum l = Zsum k.
Proof. induction 1 as [|x l k _ IH|x y l|l k m _ IH1 _ IH2]; rewrite ?Zsum_cons; lia. Qed.

Lemma Zsum_nonneg l : Forall (λ s, 0 <= s) l → 0 <= Zsum l.
Proof. induction 1; rewrite ?Zsum_cons; [done|lia]. Qed.

Lemma checked_sum_None l : fold_left (fun acc d => a ← acc; checked_add a d) l None = None.
Proof. by induction l. Qed.

Lemma checked_sum_from a l : Forall (λ d, 0 <= d) l →
  fold_left (fun acc d => a ← acc; checked_add a d) l (Some a) =
  if (a + Zsum l <? u64_modulus) || bool_decide (l = []) then Some (a + Zsum l) else None.
Proof.
  intros Hl. revert a. induction Hl as [|d l Hd Hl IH]; intros a.
  { rewrite orb_true_r. simpl. f_equal. unfold Zsum. simpl. lia. }
  rewrite Zsum_cons. simpl. unfold checked_add. pose proof (Zsum_nonneg _ Hl).
  rewrite orb_false_r. destruct (Z.ltb_spec (a + d) u64_modulus).
  - rewrite IH. rewrite Z.add_assoc. destruct (Z.ltb_spec (a + d + Zsum l) u64_modulus); [done|].
    destruct (decide (l = [])) as [->|]; [unfold Zsum in *; simpl in *; lia|by rewrite bool_decide_eq_false_2].
  - rewrite checked_sum_None. destruct (Z.ltb_spec (a + (d + Zsum l)) u64_modulus); [lia|done].
Qed.

(** A checked sum of [u64]s is the sum, when it fits. *)
Lemma checked_sum_spec l : Forall (λ d, 0 <= d) l →
  checked_sum l = if Zsum l <? u64_modulus then Some (Zsum l) else None.
Proof.
  intros Hl. unfold checked_sum. rewrite checked_sum_from, Z.add_0_l by done.
  destruct (Z.ltb_spec (Zsum l) u64_modulus); [done|]. rewrite bool_decide_eq_false_2; [done|].
  intros Hnil. subst l. unfold Zsum, u64_modulus in *. simpl in *. lia.
Qed.

(** * Outcomes

    A fallible operation returns its value, returns an error value, or panics
    (an out-of-bounds slice, a failed [unwrap] or [expect]). *)

Inductive outcome (E A : Type) : Type :=
| Ok (a : A)
| Err (e : E)
| Panic.
Arguments Ok {E A} _.
Arguments Err {E A} _.
Arguments Panic {E A}.

Definition obind {E A B} (x : outcome E A) (f : A → outcome E B) : outcome E B :=
  match x with Ok a => f a | Err e => Err e | Panic => Panic end.

Definition omap_ok {E A B} (f : A → B) (x : outcome E A) : outcome E B :=
  obind x (fun a => Ok (f a)).

Definition is_Ok {E A} (x : outcome E A) : Prop := ∃ a, x = Ok a.

(** [Result::map_err]. *)
Definition map_err {E F A} (f : E → F) (x : outcome E A) : outcome F A :=
  match x with Ok a => Ok a | Err e => Err (f e) | Panic => Panic end.

(** [Option::expect] and [Option::unwrap]. *)
Definition expect {E A} (x : option A) : outcome E A :=
  match x with Some a => Ok a | None => Panic end.

(** [Option::ok_or]. *)
Definition ok_or {E A} (e : E) (x : option A) : outcome E A :=
  match x with Some a => Ok a | None => Err e end.

Notation "'let?' x := m 'in' k" := (obind m (fun x => k))
  (at level 10, x pattern, m at level 100, k at level 200).

(** [Iterator::collect] into an [Option] or a [Result] of a vector: the first
    [None] or [Err] stops the iteration. *)
Fixpoint collect_opt {A} (l : list (option A)) : option (list A) :=
  match l with
  | [] => Some []
  | x :: l => a ← x; r ← collect_opt l; Some (a :: r)
  end.

Fixpoint collect_res {E A} (l : list (outcome E A)) : outcome E (list A) :=
  match l with
  | [] => Ok []
  | x :: l => let? a := x in let? r := collect_res l in Ok (a :: r)
  end.

(** * Zipped iteration *)

Fixpoint zip_with3 {A B C D} (f : A → B → C → D)
    (l : list A) (k : list B) (m : list C) : list D :=
  match l, k, m with
  | a :: l, b :: k, c :: m => f a b c :: zip_with3 f l k m
  | _, _, _ => []
  end.

Fixpoint zip_with4 {A B C D E} (f : A → B → C → D → E)
    (l : list A) (k : list B) (m : list C) (n : list D) : list E :=
  match l, k, m, n with
  | a :: l, b :: k, c :: m, d :: n => f a b c d :: zip_with4 f l k m n
  | _, _, _, _ => []
  end.

(** [Iterator::any] and [Iterator::all] over zipped iterators. *)
Definition zip_any {A B} (p : A → B → bool) l k : bool := existsb id (zip_with p l k).
Definition zip_all {A B} (p : A → B → bool) l k : bool := forallb id (zip_with p l k).
Definition zip_all3 {A B C} (p : A → B → C → bool) l k m : bool :=
  forallb id (zip_with3 p l k m).
Definition zip_all4 {A B C D} (p : A → B → C → D → bool) l k m n : bool :=
  forallb id (zip_with4 p l k m n).

(** [slice::contains] for a shape. *)
Definition contains_zero (l : list Z) : bool := existsb (Z.eqb 0) l.

(** [bytes[start..end]]: a slice that panics out of bounds. *)
Definition slice {E A} (l : list A) (start end_ : Z) : outcome E (list A) :=
  if (start <=? end_) && (end_ <=? zlen l) && (0 <=? start)
  then Ok (take (Z.to_nat (end_ - start)) (drop (Z.to_nat start) l))
  else Panic.

(** [l[i]]. *)
Definition index {E A} (l : list A) (i : Z) : outcome E A :=
  if 0 <=? i then expect (l !! Z.to_nat i) else Panic.

(** * Pointwise reasoning

    The per-dimension code zips vectors of equal length.  Its theorems are
    proved pointwise: a list is determined by its length and its entries
    [l !!! j], and the entry of a zipped list is the function of the entries. *)

Create HintDb zarrs.

Section pointwise.
Context {A B C D E : Type} `{!Inhabited A, !Inhabited B, !Inhabited C, !Inhabited D, !Inhabited E}.

Lemma list_eq_total (l k : list A) :
  length l = length k → (∀ j, (j < length l)%nat → l !!! j = k !!! j) → l = k.
Proof.
  intros Hlen H. apply list_eq_same_length with (length k); [done|lia|].
  intros i x y Hi Hl Hk. specialize (H i ltac:(lia)).
  by rewrite (list_lookup_total_correct _ _ _ Hl), (list_lookup_total_correct _ _ _ Hk) in H.
Qed.

Lemma zip_with_total (f : A → B → C) l k j :
  (j < length l)%nat → (j < length k)%nat →
  zip_with f l k !!! j = f (l !!! j) (k !!! j).
Proof.
  intros Hl Hk. apply list_lookup_total_correct. rewrite lookup_zip_with.
  by rewrite (list_lookup_lookup_total_lt l), (list_lookup_lookup_total_lt k) by lia.
Qed.

Lemma fmap_total (f : A → B) l j :
  (j < length l)%nat → (f <$> l) !!! j = f (l !!! j).
Proof.
  intros Hl. apply list_lookup_total_correct. rewrite list_lookup_fmap.
  by rewrite (list_lookup_lookup_total_lt l) by lia.
Qed.

Lemma length_zip_with3 (f : A → B → C → D) l k m :
  length k = length l → length m = length l → length (zip_with3 f l k m) = length l.
Proof.
  revert k m. induction l as [|a l IH]; intros [|b k] [|c m] Hk Hm; simpl in *; try lia.
  rewrite IH; lia.
Qed.

Lemma zip_with3_total (f : A → B → C → D) l k m j :
  (j < length l)%nat → (j < length k)%nat → (j < length m)%nat →
  zip_with3 f l k m !!! j = f (l !!! j) (k !!! j) (m !!! j).
Proof.
  revert k m j. induction l as [|a l IH]; intros [|b k] [|c m] [|j] Hl Hk Hm;
    simpl in *; try lia; [done|]. apply IH; lia.
Qed.

Lemma forallb_total (p : A → bool) l :
  forallb p l = true ↔ ∀ j, (j < length l)%nat → p (l !!! j) = true.
Proof.
  rewrite forallb_forall. split.
  - intros H j Hj. apply H, list_elem_of_In, list_elem_of_lookup_total_2. lia.
  - intros H x Hx. apply list_elem_of_In, list_elem_of_lookup_total in Hx as (j & Hj & <-).
    by apply H.
Qed.

Lemma existsb_total_false (p : A → bool) l :
  existsb p l = false ↔ ∀ j, (j < length l)%nat → p (l !!! j) = false.
Proof.
  induction l as [|a l IH]; simpl; [naive_solver lia|].
  rewrite orb_false_iff, IH. split.
  - intros [Ha H] [|j] Hj; [done|]. apply H. lia.
  - intros H. split; [apply (H 0%nat); lia|]. intros j Hj. apply (H (S j)). lia.
Qed.

Lemma Forall_total (P : A → Prop) l :
  Forall P l ↔ ∀ j, (j < length l)%nat → P (l !!! j).
Proof.
  rewrite Forall_lookup. split.
  - intros H j Hj. apply (H j). by apply list_lookup_lookup_total_lt.
  - intros H j x Hx. rewrite <-(list_lookup_total_correct _ _ _ Hx).
    apply H. by apply lookup_lt_is_Some_1; eexists.
Qed.

Lemma Forall2_total (P : A → B → Prop) l k :
  Forall2 P l k ↔ length l = length k ∧ ∀ j, (j < length l)%nat → P (l !!! j) (k !!! j).
Proof.
  split.
  - intros H. split; [by eapply Forall2_length|]. induction H; simpl; [lia|].
    intros [|j] Hj; [done|]. apply IHForall2. lia.
  - revert k. induction l as [|a l IH]; intros [|b k] [Hlen H]; simpl in *; try lia; [constructor|].
    constructor; [apply (H 0%nat); lia|]. apply IH. split; [lia|].
    intros j Hj. apply (H (S j)). lia.
Qed.

Lemma collect_opt_Some (l : list (option A)) v :
  collect_opt l = Some v ↔ length l = length v ∧ ∀ j, (j < length l)%nat → l !!! j = Some (v !!! j).
Proof.
  revert v. induction l as [|x l IH]; intros v; simpl.
  { split; [intros [= <-]; simpl; split; [done|lia]|]. intros [H _]. destruct v; [done|simpl in H; lia]. }
  destruct x as [a|]; simpl; last first.
  { split; [done|]. intros [_ H]. specialize (H 0%nat ltac:(lia)). done. }
  destruct (collect_opt l) as [r|] eqn:Hr; simpl.
  - destruct (proj1 (IH r) eq_refl) as [Hlen Hr']. clear Hr; rename Hr' into Hr. split.
    + intros [= <-]. simpl. split; [lia|]. intros [|j] Hj; [done|]. apply Hr. lia.
    + intros [Hv H]. destruct v as [|b v]; [done|]. simpl in *. f_equal.
      pose proof (H 0%nat ltac:(lia)) as H0. simpl in H0. injection H0 as ->. f_equal.
      apply list_eq_total; [lia|]. intros j Hj.
      pose proof (H (S j) ltac:(lia)) as HS. simpl in HS. rewrite Hr in HS by lia. congruence.
  - split; [done|]. intros [Hv H]. destruct v as [|b v]; [done|]. simpl in *.
    assert (None = Some v) as [=]. apply IH. split; [lia|].
    intros j Hj. apply (H (S j)). lia.
Qed.

(** A collection of options succeeds exactly when every entry does. *)
Lemma collect_opt_is_Some (l : list (option A)) :
  is_Some (collect_opt l) ↔ ∀ j, (j < length l)%nat → is_Some (l !!! j).
Proof.
  split.
  - intros [v Hv] j Hj. apply collect_opt_Some in Hv as [_ Hv]. rewrite Hv by done. eauto.
  - induction l as [|x l IH]; intros H; simpl; [eauto|].
    destruct (H 0%nat ltac:(simpl; lia)) as [a Ha]. simpl in Ha. subst x. simpl.
    destruct IH as [r ->]; [|simpl; eauto]. intros j Hj. apply (H (S j)). simpl. lia.
Qed.
End pointwise.

Section zip_preds.
Context {A B C D : Type} `{!Inhabited A, !Inhabited B, !Inhabited C, !Inhabited D}.

Lemma zip_all_true (p : A → B → bool) l k :
  length k = length l →
  zip_all p l k = true ↔ ∀ j, (j < length l)%nat → p (l !!! j) (k !!! j) = true.
Proof.
  intros Hlen. unfold zip_all. rewrite forallb_total, length_zip_with, Hlen, Nat.min_id.
  split; intros H j Hj; specialize (H j Hj); revert H; rewrite zip_with_total by lia; auto.
Qed.

Lemma zip_any_false (p : A → B → bool) l k :
  length k = length l →
  zip_any p l k = false ↔ ∀ j, (j < length l)%nat → p (l !!! j) (k !!! j) = false.
Proof.
  intros Hlen. unfold zip_any. rewrite existsb_total_false, length_zip_with, Hlen, Nat.min_id.
  split; intros H j Hj; specialize (H j Hj); revert H; rewrite zip_with_total by lia; auto.
Qed.

Lemma zip_all3_true (p : A → B → C → bool) l k m :
  length k = length l → length m = length l →
  zip_all3 p l k m = true ↔
  ∀ j, (j < length l)%nat → p (l !!! j) (k !!! j) (m !!! j) = true.
Proof.
  intros Hk Hm. unfold zip_all3. rewrite forallb_total, length_zip_with3 by done.
  split; intros H j Hj; specialize (H j Hj); revert H; rewrite zip_with3_total by lia; auto.
Qed.

Lemma zip_all4_true (p : A → B → C → D → bool) l k m n :
  length k = length l → length m = length l → length n = length l →
  zip_all4 p l k m n = true ↔
  ∀ j, (j < length l)%nat → p (l !!! j) (k !!! j) (m !!! j) (n !!! j) = true.
Proof.
  revert k m n. induction l as [|a l IH]; intros [|b k] [|c m] [|d n] Hk Hm Hn; simpl in *; try lia.
  { unfold zip_all4. simpl. naive_solver lia. }
  unfold zip_all4 in *. simpl. rewrite andb_true_iff, IH by lia. split.
  - intros [H0 H] [|j] Hj; [done|]. apply H. lia.
  - intros H. split; [apply (H 0%nat); lia|]. intros j Hj. apply (H (S j)). lia.
Qed.
End zip_preds.

Lemma length_zip_with4 {A B C D E} (f : A → B → C → D → E) l k m n :
  length k = length l → length m = length l → length n = length l →
  length (zip_with4 f l k m n) = length l.
Proof.
  revert k m n. induction l as [|a l IH]; intros [|b k] [|c m] [|d n] Hk Hm Hn; simpl in *; try lia.
  rewrite IH; lia.
Qed.

Lemma zip_with4_total {A B C D E} `{!Inhabited A, !Inhabited B, !Inhabited C, !Inhabited D, !Inhabited E}
    (f : A → B → C → D → E) l k m n j :
  (j < length l)%nat → (j < length k)%nat → (j < length m)%nat → (j < length n)%nat →
  zip_with4 f l k m n !!! j = f (l !!! j) (k !!! j) (m !!! j) (n !!! j).
Proof.
  revert k m n j. induction l as [|a l IH]; intros [|b k] [|c m] [|d n] [|j] Hl Hk Hm Hn;
    simpl in *; try lia; [done|]. apply IH; lia.
Qed.

Lemma contains_zero_false l : contains_zero l = false ↔ ∀ j, (j < length l)%nat → l !!! j ≠ 0.
Proof.
  unfold contains_zero. rewrite existsb_total_false.
  split; intros H j Hj; specialize (H j Hj); revert H; rewrite Z.eqb_neq; lia.
Qed.

Lemma collect_res_Ok {E A} (l : list A) : collect_res (Ok <$> l) = Ok (E:=E) l.
Proof. induction l as [|a l IH]; [done|]. rewrite fmap_cons. simpl. by rewrite IH. Qed.

Lemma collect_res_app {E A} (l k : list (outcome E A)) :
  collect_res (l ++ k) = let? a := collect_res l in let? b := collect_res k in Ok (a ++ b).
Proof.
  induction l as [|x l IH]; simpl.
  { by destruct (collect_res k). }
  destruct x; simpl; [|done..]. rewrite IH.
  destruct (collect_res l), (collect_res k); done.
Qed.

(** Finite choice, for vectors chosen one dimension at a time. *)
Lemma choose_list {A} `{!Inhabited A} (n : nat) (P : nat → A → Prop) :
  (∀ j, (j < n)%nat → ∃ z, P j z) → ∃ l, length l = n ∧ ∀ j, (j < n)%nat → P j (l !!! j).
Proof.
  revert P. induction n as [|n IH]; intros P H.
  { exists []. split; [done|lia]. }
  destruct (H 0%nat ltac:(lia)) as [z Hz]. destruct (IH (λ j, P (S j))) as (l & Hl & HP).
  { intros j Hj. apply H. lia. }
  exists (z :: l). split; [simpl; lia|]. intros [|j] Hj; [done|]. apply HP. lia.
Qed.

(** The first error of a collection is its result. *)
Lemma collect_res_first_err {E A B} pre x post (f : A → outcome E B) (g : A → B) e :
  (∀ y, y ∈ pre → f y = Ok (g y)) → f x = Err e → collect_res (f <$> pre ++ x :: post) = Err e.
Proof.
  intros Hp Hx. induction pre as [|y pre IH]; cbn [app]; rewrite fmap_cons; cbn [collect_res]; [by rewrite Hx|].
  rewrite Hp by apply list_elem_of_here. cbn [obind]. rewrite IH; [done|].
  intros z Hz. apply Hp. by apply list_elem_of_further.
Qed.

Lemma first_or_all {A} (l : list A) (P : A → Prop) `{!∀ x, Decision (P x)} :
  Forall P l ∨ ∃ pre x post, l = pre ++ x :: post ∧ Forall P pre ∧ ¬ P x.
Proof.
  induction l as [|x l IH]; [by left|]. destruct (decide (P x)) as [Hx|Hx].
  - destruct IH as [IH|(pre & y & post & -> & Hp & Hy)]; [left; by constructor|].
    right. exists (x :: pre), y, post. split_and!; [done|by constructor|done].
  - right. by exists [], x, l.
Qed.

(** Normalise lengths and entries of zipped lists; close arithmetic. *)
Ltac len := autorewrite with zlen in *; rewrite ?length_zip_with, ?length_fmap in *; simpl in *; lia.

Create Rewrite HintDb pw.
Create Rewrite HintDb zlen.
#[export] Hint Rewrite @zip_with_total @fmap_total @zip_with3_total @zip_with4_total using (autorewrite with zlen; lia) : pw.
#[export] Hint Rewrite @length_zip_with @length_fmap @length_replicate @length_seqZ @Nat.min_id : zlen.
#[export] Hint Rewrite @length_zip_with3 @length_zip_with4 using lia : zlen.
#[export] Hint Resolve wrap64_range div_ceil_nonneg : zarrs.

(** * Enumerations *)

Section list_bind.
Context {A B C : Type}.

Lemma list_bind_ext_in (f g : A → list B) l :
  (∀ x, x ∈ l → f x = g x) → l ≫= f = l ≫= g.
Proof.
  induction l as [|a l IH]; intros H; [done|]. rewrite !bind_cons, (H a) by set_solver.
  f_equal. apply IH. set_solver.
Qed.

Lemma list_fmap_of_bind (g : B → C) (f : A → list B) l :
  g <$> (l ≫= f) = l ≫= λ x, g <$> f x.
Proof.
  induction l as [|a l IH]; [done|]. by rewrite !bind_cons, fmap_app, IH.
Qed.

Lemma list_bind_assoc (g : B → list C) (f : A → list B) l :
  (l ≫= f) ≫= g = l ≫= λ x, f x ≫= g.
Proof.
  induction l as [|a l IH]; [done|]. by rewrite !bind_cons, bind_app, IH.
Qed.

Lemma list_bind_singleton (f : A → B) (l : list A) : (l ≫= λ x, [f x]) = f <$> l.
Proof. induction l as [|a l IH]; [done|]. by rewrite bind_cons, fmap_cons, IH. Qed.

Lemma list_fmap_fmap (g : B → C) (f : A → B) (l : list A) : g <$> (f <$> l) = (λ x, g (f x)) <$> l.
Proof. induction l as [|a l IH]; [done|]. by rewrite !fmap_cons, IH. Qed.

Lemma list_fmap_ext_in (f g : A → B) (l : list A) : (∀ x, x ∈ l → f x = g x) → f <$> l = g <$> l.
Proof. intros H. apply list_fmap_ext. intros i x Hx. apply H. by eapply list_elem_of_lookup_2. Qed.
End list_bind.

Lemma fmap_zip_with_eq {A B C D} (f : C → D) (g : A → B → C) l k :
  f <$> zip_with g l k = zip_with (λ a b, f (g a b)) l k.
Proof. revert k. induction l as [|a l IH]; intros [|b k]; [done..|]. simpl. by rewrite <-IH. Qed.

Lemma seqZ_offset o l : seqZ o l = Z.add o <$> seqZ 0 l.
Proof. by rewrite fmap_add_seqZ, Z.add_0_r. Qed.

(** A range of [n * p] numbers is [n] consecutive ranges of [p]. *)
Lemma seqZ_mul n p : 0 <= n → 0 <= p → seqZ 0 (n * p) = seqZ 0 n ≫= λ i, seqZ (i * p) p.
Proof.
  intros Hn Hp. rewrite <-(Z2Nat.id n Hn). induction (Z.to_nat n) as [|m IH]; [done|].
  rewrite (seqZ_S 0 m), bind_app, <-IH, Nat2Z.inj_succ, Z.mul_succ_l, seqZ_app by lia.
  f_equal. rewrite bind_cons, !Z.add_0_l. simpl. by rewrite app_nil_r.
Qed.

Lemma seqZ_mul_offset o n p : 0 <= n → 0 <= p →
  seqZ (o * p) (n * p) = seqZ o n ≫= λ i, seqZ (i * p) p.
Proof.
  intros Hn Hp. rewrite (seqZ_offset (o * p)), seqZ_mul, (seqZ_offset o n), list_fmap_bind by done.
  rewrite list_fmap_of_bind. apply list_bind_ext_in. intros i _. simpl.
  rewrite fmap_add_seqZ. f_equal. lia.
Qed.

Lemma bind_concat {A B} (f : A → list B) l : l ≫= f = concat (f <$> l).
Proof. induction l as [|a l IH]; [done|]. rewrite bind_cons, fmap_cons, IH. done. Qed.

Lemma NoDup_concat_fmap {A B} (f : A → list B) l : NoDup l → (∀ x, x ∈ l → NoDup (f x)) →
  (∀ x y z, x ∈ l → y ∈ l → z ∈ f x → z ∈ f y → x = y) → NoDup (concat (f <$> l)).
Proof. intros Hl Hf Hd. rewrite <-bind_concat. apply NoDup_bind; [|done|done]. intros x y z Hx Hy Hzx Hzy. by apply (Hd x y z). Qed.

Lemma replicate_fmap_seqZ {A} (x : A) a n : replicate (Z.to_nat n) x = (λ _, x) <$> seqZ a n.
Proof. by rewrite (const_fmap _ _ x), length_seqZ. Qed.

(** * Consuming an iterator

    [Iterator::collect] on an iterator given by its [next] function; [None] when
    the fuel does not reach the end of the iteration. *)
Fixpoint iter_collect {S A E} (next : S → outcome E (option A * S)) (fuel : nat) (s : S)
    : option (outcome E (list A)) :=
  match fuel with
  | O => None
  | S fuel =>
      match next s with
      | Ok (None, _) => Some (Ok [])
      | Ok (Some a, s) => omap_ok (cons a) <$> iter_collect next fuel s
      | Err e => Some (Err e)
      | Panic => Some Panic
      end
  end.

(** An iterator whose states are described by the elements they still produce. *)
Lemma iter_collect_spec {S A E} (next : S → outcome E (option A * S)) (elems : S → list A)
    (inv : S → Prop)
    (Hnext : ∀ s, inv s →
       match elems s with
       | [] => ∃ s', next s = Ok (None, s')
       | a :: l => ∃ s', next s = Ok (Some a, s') ∧ elems s' = l ∧ inv s'
       end) s fuel :
  inv s → (length (elems s) < fuel)%nat → iter_collect next fuel s = Some (Ok (elems s)).
Proof.
  revert s. induction fuel as [|fuel IH]; intros s Hs Hf; [lia|]. simpl.
  specialize (Hnext s Hs). destruct (elems s) as [|a l].
  - destruct Hnext as [s' ->]. done.
  - destruct Hnext as (s' & -> & <- & Hs'). simpl in Hf. rewrite IH by (done || lia). done.
Qed.
