(* ===== verification/ArraySubset.v ===== *)
(** Array subsets: [zarrs_chunk_grid/src/array_subset.rs] and the methods of
    [ArraySubsetTraits] in [zarrs_chunk_grid/src/array_subset_traits.rs]. *)

From S2P Require Import Prelude.

(** [Range<u64>]. *)
Record range := mk_range { r_start : Z; r_end : Z }.
#[export] Instance range_inhabited : Inhabited range := populate (mk_range 0 0).

(** [ArraySubset]. *)
Record ArraySubset := mk_subset { start : list Z; shape : list Z }.

#[export] Instance ArraySubset_eq_dec : EqDecision ArraySubset.
Proof. solve_decision. Defined.

(** [ArraySubsetError]. *)
Inductive ArraySubsetError :=
| IncompatibleDimensionality (got expected : nat)
| IncompatibleStartShape (start shape : list Z)
| IncompatibleStartEnd (start end_ : list Z) (inclusive : bool)
| IncompatibleOffset (start offset : list Z).

(** ** Constructors *)

Definition new_empty (dimensionality : nat) : ArraySubset :=
  mk_subset (replicate dimensionality 0) (replicate dimensionality 0).

Definition new_with_ranges (ranges : list range) : ArraySubset :=
  mk_subset (r_start <$> ranges)
            ((fun r => saturating_sub (r_end r) (r_start r)) <$> ranges).

(** [impl From<T: IntoIterator<Item = Range<u64>>> for ArraySubset]. *)
Definition from_ranges (ranges : list range) : ArraySubset :=
  mk_subset (r_start <$> ranges)
            ((fun r => saturating_sub (r_end r) (r_start r)) <$> ranges).

Definition new_with_shape (shape : list Z) : ArraySubset :=
  mk_subset (replicate (length shape) 0) shape.

Definition new_with_start_shape (start shape : list Z) : outcome ArraySubsetError ArraySubset :=
  if (length start =? length shape)%nat then Ok (mk_subset start shape)
  else Err (IncompatibleStartShape start shape).

Definition new_with_start_end_inc (start end_ : list Z) : outcome ArraySubsetError ArraySubset :=
  if negb (length start =? length end_)%nat || zip_any (fun s e => e <? s) start end_
  then Err (IncompatibleStartEnd start end_ true)
  else Ok (mk_subset start (zip_with (fun s e => saturating_sub e s +w 1) start end_)).

Definition new_with_start_end_exc (start end_ : list Z) : outcome ArraySubsetError ArraySubset :=
  if negb (length start =? length end_)%nat || zip_any (fun s e => e <? s) start end_
  then Err (IncompatibleStartEnd start end_ false)
  else Ok (mk_subset start (zip_with (fun s e => saturating_sub e s) start end_)).

(** [ArraySubset::bound]. *)
Definition bound (self : ArraySubset) (end_ : list Z) : outcome ArraySubsetError ArraySubset :=
  if (length end_ =? length (start self))%nat then
    let start' := zip_with Z.min (start self) end_ in
    let end_exc := zip_with (fun s l => s +w l) (start self) (shape self) in
    let end' := zip_with Z.min end_exc end_ in
    new_with_start_end_exc start' end'
  else Err (IncompatibleStartEnd (start self) end_ false).

(** ** Accessors and queries *)

(** [ArraySubset::chunk_shape]: the shape when it has no zero. *)
Definition chunk_shape_opt (self : ArraySubset) : option (list Z) :=
  collect_opt ((fun s => if s =? 0 then None else Some s) <$> shape self).

Definition is_empty (self : ArraySubset) : bool := existsb (fun i => i =? 0) (shape self).
Definition dimensionality (self : ArraySubset) : nat := length (start self).
Definition num_elements (self : ArraySubset) : Z := product64 (shape self).
Definition num_elements_usize (self : ArraySubset) : Z := num_elements self.

Definition end_exc (self : ArraySubset) : list Z :=
  zip_with (fun s l => s +w l) (start self) (shape self).

Definition end_inc (self : ArraySubset) : option (list Z) :=
  if contains_zero (shape self) then None
  else Some (zip_with (fun s l => s +w l -w 1) (start self) (shape self)).

Definition to_ranges (self : ArraySubset) : list range :=
  zip_with (fun s size => mk_range s (s +w size)) (start self) (shape self).

Definition contains (self : ArraySubset) (indices : list Z) : bool :=
  zip_all3 (fun i o s => (o <=? i) && (i <? o +w s)) indices (start self) (shape self).

Definition inbounds_shape (self : ArraySubset) (array_shape : list Z) : bool :=
  if negb (length (start self) =? length array_shape)%nat
     || negb (length (shape self) =? length array_shape)%nat then false
  else zip_all3 (fun s size bound => s +w size <=? bound) (start self) (shape self) array_shape.

Definition inbounds (self other : ArraySubset) : bool :=
  if negb (length (start self) =? length (start other))%nat
     || negb (length (shape self) =? length (shape other))%nat then false
  else zip_all4 (fun s ss o os => (o <=? s) && (s +w ss <=? o +w os))
         (start self) (shape self) (start other) (shape other).

(** ** Operations *)

Definition overlap (self other : ArraySubset) : outcome ArraySubsetError ArraySubset :=
  if (length (start other) =? length (start self))%nat
     && (length (shape other) =? length (shape self))%nat then
    Ok (from_ranges
      (zip_with4 (fun s size os osize =>
         let overlap_start := Z.max s os in
         let overlap_end := Z.min (s +w size) (os +w osize) in
         mk_range overlap_start overlap_end)
       (start self) (shape self) (start other) (shape other)))
  else Err (IncompatibleDimensionality (length (start other)) (length (start self))).

Definition relative_to (self : ArraySubset) (offset : list Z) : outcome ArraySubsetError ArraySubset :=
  if negb (length offset =? length (start self))%nat
     || zip_any (fun s o => s <? o) (start self) offset
  then Err (IncompatibleOffset (start self) offset)
  else new_with_start_shape (zip_with (fun s o => s -w o) (start self) offset) (shape self).

Definition offset (self : ArraySubset) (offset : list Z) : outcome ArraySubsetError ArraySubset :=
  if (length offset =? length (start self))%nat
  then new_with_start_shape (zip_with (fun s o => s +w o) (start self) offset) (shape self)
  else Err (IncompatibleOffset (start self) offset).

(** ** Well-formedness

    A subset whose start and shape have one length and whose exclusive end is a
    [u64] in every dimension: the operations above do not overflow on it. *)
Definition subset_wf (s : ArraySubset) : Prop :=
  length (shape s) = length (start s) ∧
  ∀ j, (j < length (start s))%nat →
    0 <= start s !!! j ∧ 0 <= shape s !!! j ∧ start s !!! j + shape s !!! j < u64_modulus.

(** The region a subset denotes. *)
Definition in_subset (s : ArraySubset) (ix : list Z) : Prop :=
  length ix = length (start s) ∧
  ∀ j, (j < length (start s))%nat → start s !!! j <= ix !!! j < start s !!! j + shape s !!! j.

(** ** Lemmas *)

Section lemmas.
Implicit Types a b : ArraySubset.

Lemma subset_wf_wrap (s : ArraySubset) j :
  subset_wf s → (j < length (start s))%nat →
  start s !!! j +w shape s !!! j = start s !!! j + shape s !!! j.
Proof. intros [_ H] Hj. specialize (H j Hj). apply wrap64_small. unfold is_u64. lia. Qed.

Lemma contains_iff (s : ArraySubset) ix :
  subset_wf s → length ix = length (start s) →
  contains s ix = true ↔ in_subset s ix.
Proof.
  intros Hwf Hlen. pose proof (proj1 Hwf) as Hsh. unfold contains, in_subset.
  rewrite zip_all3_true by lia. rewrite Hlen.
  split; [intros H; split; [done|]|intros [_ H]]; intros j Hj; specialize (H j Hj);
    revert H; rewrite andb_true_iff, Z.leb_le, Z.ltb_lt, subset_wf_wrap by done; auto.
Qed.

Lemma in_subset_nonempty_iff (s : ArraySubset) :
  subset_wf s → is_empty s = false ↔ ∃ ix, in_subset s ix.
Proof.
  intros [Hlen Hwf]. unfold is_empty. rewrite existsb_total_false, Hlen. split.
  - intros H. exists (start s). split; [done|]. intros j Hj.
    specialize (H j Hj). specialize (Hwf j Hj). apply Z.eqb_neq in H. lia.
  - intros (ix & _ & H) j Hj. specialize (H j Hj). apply Z.eqb_neq. lia.
Qed.

Lemma from_ranges_wf rs :
  (∀ j, (j < length rs)%nat → 0 <= r_start (rs !!! j) < u64_modulus ∧ 0 <= r_end (rs !!! j) < u64_modulus) →
  subset_wf (from_ranges rs).
Proof.
  intros H. split; simpl; rewrite !length_fmap; [done|]. intros j Hj.
  rewrite !fmap_total by done. specialize (H j Hj). unfold saturating_sub. lia.
Qed.

Lemma in_from_ranges rs ix :
  in_subset (from_ranges rs) ix ↔
  length ix = length rs ∧
  ∀ j, (j < length rs)%nat → r_start (rs !!! j) <= ix !!! j < r_end (rs !!! j).
Proof.
  unfold in_subset. simpl. rewrite length_fmap.
  split; intros [Hl H]; (split; [done|]); intros j Hj; specialize (H j Hj);
    revert H; rewrite ?fmap_total by done; unfold saturating_sub; lia.
Qed.

(** The subset [new_with_start_end_exc] builds is the half-open box. *)
Lemma new_with_start_end_exc_Ok st en :
  length st = length en →
  (∀ j, (j < length st)%nat → 0 <= st !!! j <= en !!! j ∧ en !!! j < u64_modulus) →
  ∃ s, new_with_start_end_exc st en = Ok s ∧ subset_wf s ∧ start s = st ∧ end_exc s = en.
Proof.
  intros Hlen H. unfold new_with_start_end_exc.
  rewrite (proj2 (Nat.eqb_eq _ _) Hlen). simpl.
  rewrite (proj2 (zip_any_false _ st en ltac:(lia))); last first.
  { intros j Hj. specialize (H j Hj). apply Z.ltb_ge. lia. }
  eexists. split; [done|].
  assert (subset_wf (mk_subset st (zip_with (λ x e, saturating_sub e x) st en))) as Hwf.
  { split; simpl; [rewrite length_zip_with; lia|]. intros j Hj.
    rewrite zip_with_total by lia. specialize (H j Hj). unfold saturating_sub. lia. }
  split; [done|]. split; [done|].
  apply list_eq_total; unfold end_exc; simpl; rewrite !length_zip_with; [lia|].
  intros j Hj. rewrite zip_with_total by (rewrite ?length_zip_with; lia).
  pose proof (subset_wf_wrap _ j Hwf ltac:(simpl; lia)) as Hw. simpl in Hw. rewrite Hw.
  rewrite zip_with_total by lia. specialize (H j ltac:(lia)). unfold saturating_sub. lia.
Qed.

Lemma overlap_Ok a b :
  length (start b) = length (start a) → length (shape b) = length (shape a) →
  overlap a b = Ok (from_ranges
    (zip_with4 (fun s size os osize =>
       mk_range (Z.max s os) (Z.min (s +w size) (os +w osize)))
     (start a) (shape a) (start b) (shape b))).
Proof.
  intros H1 H2. unfold overlap. by rewrite (proj2 (Nat.eqb_eq _ _) H1), (proj2 (Nat.eqb_eq _ _) H2).
Qed.
End lemmas.

(** The overlap of subsets of one dimensionality is the intersection of their regions. *)
Lemma overlap_region (a b : ArraySubset) : subset_wf a → subset_wf b → length (start b) = length (start a) →
  ∃ o, overlap a b = Ok o ∧ subset_wf o ∧ ∀ ix, in_subset o ix ↔ in_subset a ix ∧ in_subset b ix.
Proof.
  intros Ha Hb Hd. pose proof (proj1 Ha) as Ha1. pose proof (proj1 Hb) as Hb1.
  rewrite overlap_Ok by lia. eexists. split; [done|].
  set (rs := zip_with4 _ _ _ _ _).
  assert (length rs = length (start a)) as Hrs by (apply length_zip_with4; lia).
  assert (∀ j, (j < length (start a))%nat → rs !!! j =
    mk_range (Z.max (start a !!! j) (start b !!! j))
             (Z.min (start a !!! j + shape a !!! j) (start b !!! j + shape b !!! j))) as Hj.
  { intros j Hj. unfold rs. rewrite zip_with4_total by lia.
    by rewrite !subset_wf_wrap by (done || lia). }
  split.
  - apply from_ranges_wf. rewrite Hrs. intros j Hlt. rewrite Hj by done. simpl.
    pose proof (proj2 Ha j Hlt). pose proof (proj2 Hb j ltac:(lia)). lia.
  - intros ix. rewrite in_from_ranges, Hrs. unfold in_subset. rewrite Hd. split.
    + intros [Hl H]. split; (split; [done|]); intros j Hlt; specialize (H j Hlt);
        rewrite Hj in H by done; simpl in H; lia.
    + intros [[Hl H1] [_ H2]]. split; [done|]. intros j Hlt.
      specialize (H1 j Hlt). specialize (H2 j Hlt). rewrite Hj by done. simpl. lia.
Qed.

#[export] Hint Resolve from_ranges_wf : zarrs.

(** ** Properties *)

(** The overlap of two well-formed subsets of one dimensionality succeeds,
    is well formed, and denotes exactly the intersection of their regions;
    subsets of different dimensionality give an error naming both. *)
Theorem overlap_spec (a b : ArraySubset) (Ha : subset_wf a) (Hb : subset_wf b) :
  if (length (start b) =? length (start a))%nat then
    ∃ o, overlap a b = Ok o ∧ subset_wf o ∧
         ∀ ix, in_subset o ix ↔ in_subset a ix ∧ in_subset b ix
  else overlap a b = Err (IncompatibleDimensionality (length (start b)) (length (start a))).
Proof.
  destruct (Nat.eqb_spec (length (start b)) (length (start a))) as [Hd|Hd]; last first.
  { unfold overlap. by rewrite (proj2 (Nat.eqb_neq _ _) Hd). }
  by apply overlap_region.
Qed.

Lemma overlap_spec_witness :
  ∃ o, overlap (mk_subset [1; 2] [4; 4]) (mk_subset [3; 4] [3; 3]) = Ok o ∧ subset_wf o ∧
       ∀ ix, in_subset o ix ↔
             in_subset (mk_subset [1; 2] [4; 4]) ix ∧ in_subset (mk_subset [3; 4] [3; 3]) ix.
Proof.
  apply (overlap_spec (mk_subset [1; 2] [4; 4]) (mk_subset [3; 4] [3; 3]));
    (split; [reflexivity|]); intros [|[|j]] Hj; unfold u64_modulus; simpl in *; lia.
Defined.

(** [relative_to] succeeds exactly when the offset has the subset's
    dimensionality and does not exceed its start; its result is the region
    translated by the offset, and [offset] by the same vector undoes it. *)
Theorem relative_to_offset_roundtrip (s : ArraySubset) (o : list Z)
    (Hs : subset_wf s) (Ho : Forall (λ x, 0 <= x) o) :
  (length o = length (start s) ∧ (∀ j, (j < length o)%nat → o !!! j <= start s !!! j) →
   ∃ r, relative_to s o = Ok r ∧ subset_wf r ∧ offset r o = Ok s ∧
        ∀ ix, length ix = length o → in_subset r ix ↔ in_subset s (zip_with Z.add ix o)) ∧
  (¬ (length o = length (start s) ∧ ∀ j, (j < length o)%nat → o !!! j <= start s !!! j) →
   relative_to s o = Err (IncompatibleOffset (start s) o)).
Proof.
  destruct Hs as [Hlen Hs]. split.
  - intros [Hd Hle]. rewrite Forall_total in Ho.
    assert (zip_with (λ x y, x -w y) (start s) o = zip_with Z.sub (start s) o) as Hsub.
    { apply list_eq_total; rewrite !length_zip_with; [done|]. intros j Hj.
      rewrite !zip_with_total by lia. apply wrap64_small. unfold is_u64.
      specialize (Hs j ltac:(lia)). specialize (Hle j ltac:(lia)). specialize (Ho j ltac:(lia)). lia. }
    exists (mk_subset (zip_with Z.sub (start s) o) (shape s)).
    unfold relative_to, new_with_start_shape. rewrite (proj2 (Nat.eqb_eq _ _) Hd). simpl.
    rewrite (proj2 (zip_any_false _ (start s) o ltac:(lia))) by
      (intros j Hj; apply Z.ltb_ge, Hle; lia).
    rewrite Hsub, (proj2 (Nat.eqb_eq _ _)) by (rewrite length_zip_with; lia).
    split_and!; [done|..].
    + split; simpl; rewrite length_zip_with; [lia|]. intros j Hj.
      rewrite zip_with_total by lia. specialize (Hs j ltac:(lia)).
      specialize (Hle j ltac:(lia)). specialize (Ho j ltac:(lia)). lia.
    + unfold offset, new_with_start_shape. simpl.
      rewrite !(proj2 (Nat.eqb_eq _ _)) by (rewrite ?length_zip_with; lia).
      f_equal. destruct s as [st sh]; simpl in *. f_equal.
      apply list_eq_total; rewrite !length_zip_with; [lia|]. intros j Hj.
      rewrite !zip_with_total by (rewrite ?length_zip_with; lia).
      rewrite wrap64_small; [lia|]. unfold is_u64. specialize (Hs j ltac:(lia)). lia.
    + intros ix Hix. unfold in_subset. simpl. rewrite !length_zip_with.
      split; intros [_ H]; (split; [lia|]); intros j Hj; specialize (H j ltac:(lia));
        revert H; rewrite !zip_with_total by lia; lia.
  - intros Hn. unfold relative_to.
    destruct (Nat.eqb_spec (length o) (length (start s))) as [Hd|]; [simpl|done].
    destruct (zip_any _ (start s) o) eqn:Hany; [done|]. exfalso. apply Hn. split; [done|].
    intros j Hj. pose proof (proj1 (zip_any_false _ (start s) o ltac:(lia)) Hany j ltac:(lia)) as H.
    by apply Z.ltb_ge in H.
Qed.

Lemma relative_to_offset_roundtrip_witness :
  relative_to (mk_subset [1; 2] [4; 4]) [1; 1] = Ok (mk_subset [0; 1] [4; 4]) ∧
  ∃ r, relative_to (mk_subset [1; 2] [4; 4]) [1; 1] = Ok r ∧
       offset r [1; 1] = Ok (mk_subset [1; 2] [4; 4]).
Proof.
  split; [reflexivity|].
  destruct (relative_to_offset_roundtrip (mk_subset [1; 2] [4; 4]) [1; 1]) as [H _].
  - split; [reflexivity|]. intros [|[|j]] Hj; unfold u64_modulus; simpl in *; lia.
  - repeat constructor; lia.
  - destruct H as (r & H1 & _ & H2 & _); [|by exists r].
    split; [reflexivity|]. intros [|[|j]] Hj; simpl in *; lia.
Defined.

(** [bound] by an end of the right dimensionality succeeds, is well formed,
    and denotes exactly the indices of the region below the end in every
    dimension. *)
Theorem bound_spec (s : ArraySubset) (en : list Z)
    (Hs : subset_wf s) (Hen : Forall is_u64 en) (Hd : length en = length (start s)) :
  ∃ b, bound s en = Ok b ∧ subset_wf b ∧
       ∀ ix, in_subset b ix ↔
         in_subset s ix ∧ ∀ j, (j < length ix)%nat → ix !!! j < en !!! j.
Proof.
  pose proof (proj1 Hs) as Hlen. rewrite Forall_total in Hen.
  unfold bound. rewrite (proj2 (Nat.eqb_eq _ _) Hd).
  set (st := zip_with Z.min (start s) en). set (e := zip_with Z.min _ en).
  assert (∀ j, (j < length en)%nat → st !!! j = Z.min (start s !!! j) (en !!! j)) as Hst.
  { intros j Hj. unfold st. rewrite zip_with_total by lia. done. }
  assert (∀ j, (j < length en)%nat → e !!! j = Z.min (start s !!! j + shape s !!! j) (en !!! j)) as He.
  { intros j Hj. unfold e. rewrite !zip_with_total by (rewrite ?length_zip_with; lia).
    by rewrite subset_wf_wrap by (done || lia). }
  assert (length st = length en ∧ length e = length en) as [Hlst Hle].
  { unfold st, e. rewrite !length_zip_with. lia. }
  destruct (new_with_start_end_exc_Ok st e) as (b & Hb & Hwf & Hbs & Hbe); [lia| |].
  { intros j Hj. rewrite Hst, He by lia. pose proof (proj2 Hs j ltac:(lia)).
    specialize (Hen j ltac:(lia)). unfold is_u64 in Hen. lia. }
  exists b. split; [done|]. split; [done|]. intros ix. unfold in_subset. rewrite Hbs, Hlst, Hd.
  assert (∀ j, (j < length en)%nat → start b !!! j + shape b !!! j = e !!! j) as Hend.
  { intros j Hj. rewrite <-Hbe. unfold end_exc. pose proof (proj1 Hwf).
    rewrite zip_with_total by (rewrite ?Hbs in *; lia). symmetry. apply subset_wf_wrap; [done|].
    rewrite Hbs. lia. }
  split.
  - intros [Hix H]. split; [split; [done|]|]; intros j Hj; specialize (H j ltac:(lia));
      specialize (Hend j ltac:(lia)); rewrite <-Hbs, Hend, He, Hbs, Hst in H by lia; lia.
  - intros [[Hix H1] H2]. split; [done|]. intros j Hj. specialize (H1 j Hj).
    specialize (H2 j ltac:(lia)). specialize (Hend j ltac:(lia)).
    rewrite <-Hbs, Hend, He, Hbs, Hst by lia. lia.
Qed.

Lemma bound_spec_witness :
  bound (mk_subset [0; 0] [10; 10]) [5; 5] = Ok (mk_subset [0; 0] [5; 5]) ∧
  ∃ b, bound (mk_subset [0; 0] [10; 10]) [5; 5] = Ok b ∧ subset_wf b.
Proof.
  split; [reflexivity|].
  destruct (bound_spec (mk_subset [0; 0] [10; 10]) [5; 5]) as (b & H1 & H2 & _);
    [|repeat constructor; unfold u64_modulus; lia|reflexivity|by exists b].
  split; [reflexivity|]. intros [|[|j]] Hj; unfold u64_modulus; simpl in *; lia.
Defined.
