(* ===== verification/Linear.v ===== *)
(** Linearised indices: [ravel_indices] and [unravel_index] of
    [zarrs_chunk_grid/src/lib.rs], and the C-order enumeration of a region that
    the iterators are checked against. *)

From S2P Require Import Prelude ArraySubset.

(** ** The code *)

(** The loop of [ravel_indices], over the reversed zip. *)
Fixpoint ravel_loop (l : list (Z * Z)) (index count : Z) : option Z :=
  match l with
  | [] => Some index
  | (i, s) :: l =>
      if s <=? i then None
      else ravel_loop l (index +w i *w count) (count *w s)
  end.

Definition ravel_indices (indices shape : list Z) : option Z :=
  ravel_loop (rev (zip indices shape)) 0 1.

(** The loop of the general case of [unravel_index], [for i in (0..len).rev()]:
    it fills [indices] from the last entry; the list is the reversed shape. *)
Fixpoint unravel_loop (index : Z) (rshape indices : list Z) : list Z :=
  match rshape with
  | [] => indices
  | s :: rshape => unravel_loop (index / s) rshape (index mod s :: indices)
  end.

Definition unravel_index (index : Z) (shape : list Z) : option (list Z) :=
  match checked_product shape with
  | None => None
  | Some total_size =>
    if total_size <=? index then None else
    match shape with
    | [] => Some []
    | [s0] => Some [index mod s0]
    | [s0; s1] =>
        let i1 := index mod s1 in let index := index / s1 in
        let i0 := index mod s0 in
        Some [i0; i1]
    | [s0; s1; s2] =>
        let i2 := index mod s2 in let index := index / s2 in
        let i1 := index mod s1 in let index := index / s1 in
        let i0 := index mod s0 in
        Some [i0; i1; i2]
    | [s0; s1; s2; s3] =>
        let i3 := index mod s3 in let index := index / s3 in
        let i2 := index mod s2 in let index := index / s2 in
        let i1 := index mod s1 in let index := index / s1 in
        let i0 := index mod s0 in
        Some [i0; i1; i2; i3]
    | _ => Some (unravel_loop index (rev shape) [])
    end
  end.

(** The second [unravel_index], of [zarrs/src/array.rs]: it does not compute the
    product, divides by every extent (a zero extent panics), and reports an
    out-of-range index from what is left of it. *)
Fixpoint array_unravel_loop (index : Z) (rshape indices : list Z) : outcome unit (option (list Z)) :=
  match rshape with
  | [] => Ok (if index =? 0 then Some indices else None)
  | dim :: rshape =>
      if dim =? 0 then Panic
      else array_unravel_loop (index / dim) rshape (index mod dim :: indices)
  end.

Definition array_unravel_index (index : Z) (shape : list Z) : outcome unit (option (list Z)) :=
  array_unravel_loop index (rev shape) [].

(** ** Mathematical reference

    A shape is valid when its extents are non-negative and their product is a
    [u64]; [lin] and [delin] are the mixed-radix value and digits, read from the
    first (slowest) dimension. *)

Definition shape_wf (sh : list Z) : Prop := Forall (λ d, 0 <= d) sh ∧ Zprod sh < u64_modulus.

Fixpoint lin (ix sh : list Z) : Z :=
  match ix, sh with
  | i :: ix, _ :: sh => i * Zprod sh + lin ix sh
  | _, _ => 0
  end.

Fixpoint delin (k : Z) (sh : list Z) : list Z :=
  match sh with
  | [] => []
  | _ :: sh => k / Zprod sh :: delin (k mod Zprod sh) sh
  end.

Definition index_in (ix sh : list Z) : Prop := Forall2 (λ i d, 0 <= i < d) ix sh.

(** The elements of a box in C order: the last dimension varies fastest. *)
Fixpoint box (st sh : list Z) : list (list Z) :=
  match st, sh with
  | o :: st, l :: sh => i ← seqZ o l; cons i <$> box st sh
  | _, _ => [[]]
  end.

(** ** Lemmas *)

Lemma Zprod_app l k : Zprod (l ++ k) = Zprod l * Zprod k.
Proof.
  induction l as [|d l IH]; [change (Zprod k = 1 * Zprod k); lia|].
  change (d * Zprod (l ++ k) = d * Zprod l * Zprod k). rewrite IH. lia.
Qed.

Lemma Zprod_nil : Zprod [] = 1.
Proof. done. Qed.

Lemma Zprod_cons d l : Zprod (d :: l) = d * Zprod l.
Proof. done. Qed.

Lemma Zprod_rev l : Zprod (rev l) = Zprod l.
Proof. induction l as [|d l IH]; [done|]. cbn [rev]. rewrite Zprod_app, IH. change (Zprod [d]) with (d * 1). rewrite Zprod_cons. lia. Qed.

Lemma Zprod_nonneg l : Forall (λ d, 0 <= d) l → 0 <= Zprod l.
Proof. induction 1; rewrite ?Zprod_cons; [rewrite ?Zprod_nil; lia|nia]. Qed.

Lemma index_in_pos ix sh : index_in ix sh → Forall (λ d, 0 < d) sh.
Proof. induction 1; constructor; [lia|done]. Qed.

Lemma Zprod_pos l : Forall (λ d, 0 < d) l → 0 < Zprod l.
Proof. induction 1; rewrite ?Zprod_cons; [rewrite ?Zprod_nil; lia|by apply Z.mul_pos_pos]. Qed.

Lemma Zprod_pos_Forall l : Forall (λ d, 0 <= d) l → 0 < Zprod l → Forall (λ d, 0 < d) l.
Proof.
  induction 1 as [|d l Hd Hl IH]; [constructor|]. rewrite Zprod_cons. intros H.
  pose proof (Zprod_nonneg l Hl). constructor; [nia|apply IH; nia].
Qed.

Lemma Zprod_zero l : existsb (Z.eqb 0) l = true → Zprod l = 0.
Proof.
  induction l as [|d l IH]; [done|]. rewrite Zprod_cons. simpl.
  intros [H%Z.eqb_eq|H]%orb_true_iff; [lia|]. rewrite IH by done. lia.
Qed.

Lemma lin_bound ix sh : index_in ix sh → 0 <= lin ix sh < Zprod sh.
Proof.
  induction 1 as [|i d ix sh Hi H IH]; simpl; [rewrite ?Zprod_nil; lia|].
  rewrite Zprod_cons. nia.
Qed.

Lemma delin_in k sh : Forall (λ d, 0 < d) sh → 0 <= k < Zprod sh → index_in (delin k sh) sh.
Proof.
  intros H. revert k. induction H as [|d sh Hd H IH]; intros k Hk; simpl; [constructor|].
  rewrite Zprod_cons in Hk. pose proof (Zprod_pos sh H).
  constructor; [|apply IH, Z.mod_pos_bound; done].
  split; [apply Z.div_pos; lia|]. apply Z.div_lt_upper_bound; lia.
Qed.

Lemma lin_delin k sh : Forall (λ d, 0 < d) sh → 0 <= k < Zprod sh → lin (delin k sh) sh = k.
Proof.
  intros H. revert k. induction H as [|d sh Hd H IH]; intros k Hk; simpl; [rewrite Zprod_nil in Hk; lia|].
  pose proof (Zprod_pos sh H). rewrite IH by (by apply Z.mod_pos_bound).
  pose proof (Z.div_mod k (Zprod sh)). lia.
Qed.

Lemma delin_lin ix sh : index_in ix sh → delin (lin ix sh) sh = ix.
Proof.
  induction 1 as [|i d ix sh Hi H IH]; simpl; [done|].
  pose proof (lin_bound ix sh H) as Hb.
  destruct (div_mod_unique_pos (Zprod sh) i (lin ix sh) (i * Zprod sh + lin ix sh)) as [-> ->];
    [lia|lia|]. by rewrite IH.
Qed.

Lemma length_delin k sh : length (delin k sh) = length sh.
Proof. revert k. induction sh as [|d sh IH]; intros k; simpl; [done|]. by rewrite IH. Qed.

(** *** The code against the reference *)

Lemma checked_product_aux (l : list Z) :
  fold_left (fun acc d => a ← acc; checked_mul a d) l None = None.
Proof. by induction l. Qed.

(** The product of a prefix may overflow before a zero extent is met. *)
Lemma checked_product_Some l p : Forall (λ d, 0 <= d) l → checked_product l = Some p → p = Zprod l ∧ p < u64_modulus.
Proof.
  unfold checked_product.
  assert (∀ a, 0 <= a < u64_modulus → Forall (λ d, 0 <= d) l →
    fold_left (fun acc d => x ← acc; checked_mul x d) l (Some a) = Some p →
    p = a * Zprod l ∧ p < u64_modulus) as H.
  { induction l as [|d l IH]; intros a Ha Hl; simpl.
    { intros [= <-]. change (Zprod []) with 1. lia. }
    inversion Hl; subst. destruct (checked_mul a d) as [m|] eqn:Hm; simpl; [|by rewrite checked_product_aux].
    apply checked_mul_Some in Hm as [-> Hm]. intros Hp. apply IH in Hp as [-> ?]; [|nia|done]. rewrite Zprod_cons in *. split; [lia|nia]. }
  intros Hl Hp. apply H in Hp; [lia|done..].
Qed.

Lemma checked_product_pos l : Forall (λ d, 0 < d) l → Zprod l < u64_modulus → checked_product l = Some (Zprod l).
Proof.
  unfold checked_product.
  assert (∀ a, 0 < a → Forall (λ d, 0 < d) l → a * Zprod l < u64_modulus →
    fold_left (fun acc d => x ← acc; checked_mul x d) l (Some a) = Some (a * Zprod l)) as H.
  { induction l as [|d l IH]; intros a Ha Hl Hp; simpl; [change (Zprod []) with 1; f_equal; lia|].
    inversion Hl; subst. pose proof (Zprod_pos l ltac:(done)). rewrite Zprod_cons in *.
    rewrite (proj2 (checked_mul_Some a d (a * d))) by (split; [done|nia]).
    rewrite IH by (done || nia). f_equal. lia. }
  intros Hl Hp. rewrite H by (done || lia). f_equal. lia.
Qed.

Lemma product64_Zprod l : product64 l = wrap64 (Zprod l).
Proof.
  unfold product64.
  assert (∀ a, fold_left (fun acc d => acc *w d) l (wrap64 a) = wrap64 (a * Zprod l)) as H.
  { induction l as [|d l IH]; intros a; simpl; [f_equal; change (Zprod []) with 1; lia|].
    rewrite wrap64_mul_l.
    rewrite IH, Zprod_cons. f_equal. lia. }
  change 1 with (wrap64 1). rewrite H. f_equal. lia.
Qed.

Lemma product64_wf l : shape_wf l → product64 l = Zprod l.
Proof.
  intros [H1 H2]. rewrite product64_Zprod. apply wrap64_small.
  pose proof (Zprod_nonneg _ H1). unfold is_u64. lia.
Qed.

(** Dropping the last dimension of the mixed-radix digits. *)
Lemma delin_snoc k sh d : 0 < d → Forall (λ d, 0 < d) sh → 0 <= k < Zprod (sh ++ [d]) →
  delin k (sh ++ [d]) = delin (k / d) sh ++ [k mod d].
Proof.
  intros Hd Hsh. revert k. induction Hsh as [|e sh He Hsh IH]; intros k Hk.
  { simpl. change (Zprod []) with 1. change (Zprod ([] ++ [d])) with (d * 1) in Hk.
    by rewrite Z.div_1_r, Z.mod_small by lia. }
  simpl. pose proof (Zprod_pos sh Hsh) as HP.
  rewrite !Zprod_app. change (Zprod [d]) with (d * 1). rewrite Z.mul_1_r.
  assert (k mod (Zprod sh * d) = k mod d + d * ((k / d) mod Zprod sh)) as Hm.
  { rewrite (Z.mul_comm (Zprod sh) d). apply Z.rem_mul_r; lia. }
  pose proof (Z.mod_pos_bound k d Hd). pose proof (Z.mod_pos_bound (k / d) (Zprod sh) HP).
  destruct (div_mod_unique_pos d ((k / d) mod Zprod sh) (k mod d) (k mod (Zprod sh * d))) as [Hq Hr];
    [lia|lia|].
  rewrite IH, Hq, Hr.
  - f_equal. rewrite (Z.mul_comm (Zprod sh) d). symmetry. apply Z.div_div; lia.
  - rewrite Zprod_app. change (Zprod [d]) with (d * 1). rewrite Z.mul_1_r.
    apply Z.mod_pos_bound. lia.
Qed.

Lemma unravel_loop_delin k sh acc : Forall (λ d, 0 < d) sh → 0 <= k < Zprod sh →
  unravel_loop k (rev sh) acc = delin k sh ++ acc.
Proof.
  intros Hsh. revert k acc. induction sh as [|d sh IH] using rev_ind; intros k acc Hk; [done|].
  apply Forall_app in Hsh as [Hsh Hd]. inversion Hd; subst.
  rewrite rev_app_distr, delin_snoc by done. simpl.
  rewrite Zprod_app in Hk. change (Zprod [d]) with (d * 1) in Hk.
  rewrite IH, <-app_assoc; [done|done|].
  split; [apply Z.div_pos; lia|]. apply Z.div_lt_upper_bound; lia.
Qed.

Lemma unravel_index_delin k sh :
  Forall (λ d, 0 < d) sh → Zprod sh < u64_modulus → 0 <= k < Zprod sh →
  unravel_index k sh = Some (delin k sh).
Proof.
  intros Hsh Hp Hk. unfold unravel_index. rewrite checked_product_pos by done.
  rewrite (proj2 (Z.leb_gt _ _)) by lia.
  pose proof (unravel_loop_delin k sh [] Hsh Hk) as H. rewrite app_nil_r in H.
  rewrite <-H. do 5 (destruct sh as [|? sh]; [done|]). done.
Qed.

Lemma unravel_index_None k sh :
  Forall (λ d, 0 <= d) sh → Zprod sh <= k → unravel_index k sh = None.
Proof.
  intros Hsh Hk. unfold unravel_index. destruct (checked_product sh) as [p|] eqn:Hp; [|done].
  apply checked_product_Some in Hp as [-> _]; [|done]. by rewrite (proj2 (Z.leb_le _ _)) by lia.
Qed.

Lemma lin_snoc ix i sh d : length ix = length sh → lin (ix ++ [i]) (sh ++ [d]) = i + d * lin ix sh.
Proof.
  revert sh. induction ix as [|j ix IH]; intros [|e sh] Hlen; simpl in *; try lia.
  { change (Zprod []) with 1. lia. }
  rewrite IH, Zprod_app by lia. change (Zprod [d]) with (d * 1). lia.
Qed.

Lemma zip_snoc {A B} (l : list A) (k : list B) a b :
  length l = length k → zip (l ++ [a]) (k ++ [b]) = zip l k ++ [(a, b)].
Proof. intros H. by rewrite zip_with_app by done. Qed.

(** The loop keeps the value of the processed suffix below its product. *)
Lemma ravel_loop_lin ix sh n c : index_in ix sh → 0 <= n < c → c * Zprod sh < u64_modulus →
  ravel_loop (rev (zip ix sh)) n c = Some (n + c * lin ix sh).
Proof.
  intros H. revert n c. induction sh as [|d sh IH] using rev_ind in ix, H |- *; intros n c Hn Hp.
  { inversion H; subst. simpl. f_equal. lia. }
  apply Forall2_app_inv_r in H as (ix' & l & H & Hl & ->).
  apply Forall2_cons_inv_r in Hl as (i & l' & Hi & Hl' & ->).
  inversion Hl'; subst. pose proof (Forall2_length _ _ _ H) as Hlen.
  rewrite zip_snoc, rev_app_distr, lin_snoc by done. simpl.
  rewrite (proj2 (Z.leb_gt _ _)) by lia.
  rewrite Zprod_app in Hp. change (Zprod [d]) with (d * 1) in Hp.
  pose proof (Zprod_pos sh (index_in_pos _ _ H)) as HP.
  assert (0 <= i * c <= (d - 1) * c) by nia.
  assert (0 < c * d) by (apply Z.mul_pos_pos; lia).
  pose proof (Z.mul_le_mono_nonneg_l 1 (Zprod sh) (c * d) ltac:(lia) ltac:(lia)).
  assert (n + i * c < c * d) by lia. rewrite Z.mul_1_r, (Z.mul_comm (Zprod sh)), Z.mul_assoc in Hp.
  assert (c * d < u64_modulus) by lia.
  rewrite !wrap64_small by (unfold is_u64; rewrite ?wrap64_small by (unfold is_u64; lia); lia).
  rewrite IH; [f_equal; lia|done|lia|lia].
Qed.

Lemma ravel_indices_lin ix sh : index_in ix sh → Zprod sh < u64_modulus →
  ravel_indices ix sh = Some (lin ix sh).
Proof. intros H Hp. unfold ravel_indices. rewrite ravel_loop_lin; [f_equal; lia|done|lia|lia]. Qed.

(** Out-of-bounds indices are refused whatever the counters hold. *)
Lemma ravel_loop_None l n c : Exists (λ p, p.2 <= p.1) l → ravel_loop l n c = None.
Proof.
  intros H. revert n c. induction H as [[i s] l H|[i s] l H IH]; intros n c; simpl in *.
  - by rewrite (proj2 (Z.leb_le _ _)).
  - destruct (s <=? i); [done|]. apply IH.
Qed.

Lemma ravel_indices_None ix sh j :
  (j < length ix)%nat → (j < length sh)%nat → sh !!! j <= ix !!! j → ravel_indices ix sh = None.
Proof.
  intros H1 H2 H. apply ravel_loop_None. rewrite Exists_exists. exists (ix !!! j, sh !!! j).
  split; [|done]. rewrite list_elem_of_In, <-in_rev, <-list_elem_of_In, list_elem_of_lookup.
  exists j. rewrite lookup_zip_with.
  by rewrite (list_lookup_lookup_total_lt ix), (list_lookup_lookup_total_lt sh) by done.
Qed.

Lemma array_unravel_loop_delin k sh acc : Forall (λ d, 0 < d) sh → 0 <= k < Zprod sh →
  array_unravel_loop k (rev sh) acc = Ok (Some (delin k sh ++ acc)).
Proof.
  intros Hsh. revert k acc. induction sh as [|d sh IH] using rev_ind; intros k acc Hk.
  { change (Zprod []) with 1 in Hk. simpl. by rewrite (proj2 (Z.eqb_eq _ _)) by lia. }
  pose proof Hk as Hk'. apply Forall_app in Hsh as [Hsh Hd]. inversion Hd; subst.
  rewrite rev_app_distr, delin_snoc by done. simpl. rewrite (proj2 (Z.eqb_neq _ _)) by lia.
  rewrite Zprod_app in Hk. change (Zprod [d]) with (d * 1) in Hk.
  rewrite IH, <-app_assoc; [done|done|].
  split; [apply Z.div_pos; lia|]. apply Z.div_lt_upper_bound; lia.
Qed.

Lemma array_unravel_loop_None k sh acc : Forall (λ d, 0 < d) sh → Zprod sh <= k →
  array_unravel_loop k (rev sh) acc = Ok None.
Proof.
  intros Hsh. revert k acc. induction sh as [|d sh IH] using rev_ind; intros k acc Hk.
  { change (Zprod []) with 1 in Hk. simpl. by rewrite (proj2 (Z.eqb_neq _ _)) by lia. }
  apply Forall_app in Hsh as [Hsh Hd]. inversion Hd; subst.
  rewrite rev_app_distr. simpl. rewrite (proj2 (Z.eqb_neq _ _)) by lia.
  rewrite Zprod_app in Hk. change (Zprod [d]) with (d * 1) in Hk.
  apply IH; [done|]. apply Z.div_le_lower_bound; lia.
Qed.

(** *** The C-order enumeration *)

Lemma box_delin st sh : length st = length sh → Forall (λ d, 0 <= d) sh →
  box st sh = (λ k, zip_with Z.add (delin k sh) st) <$> seqZ 0 (Zprod sh).
Proof.
  revert st. induction sh as [|d sh IH]; intros [|o st] Hlen Hsh; simpl in *; try lia; [done|].
  inversion Hsh as [|? ? Hd Hsh']; subst. pose proof (Zprod_nonneg sh Hsh') as HP.
  rewrite Zprod_cons, seqZ_mul, list_fmap_of_bind by done.
  rewrite (seqZ_offset o), list_fmap_bind. apply list_bind_ext_in. intros i Hi.
  rewrite elem_of_seqZ in Hi. simpl.
  rewrite IH by (done || lia). rewrite (seqZ_offset (i * Zprod sh)). rewrite !list_fmap_fmap.
  apply list_fmap_ext_in. intros r Hr. rewrite elem_of_seqZ in Hr. simpl.
  destruct (div_mod_unique_pos (Zprod sh) i r (i * Zprod sh + r)) as [-> ->]; [lia|lia|].
  f_equal. lia.
Qed.

Lemma elem_of_box st sh ix : length st = length sh →
  ix ∈ box st sh ↔ in_subset (mk_subset st sh) ix.
Proof.
  unfold in_subset. simpl.
  revert st ix. induction sh as [|d sh IH]; intros [|o st] ix Hlen; simpl in *; try lia.
  { rewrite list_elem_of_singleton. split; [intros ->; split; [done|]; simpl; lia|].
    intros [H _]. by destruct ix. }
  rewrite list_elem_of_bind. split.
  - intros (i & (ix' & -> & Hix)%list_elem_of_fmap & Hi%elem_of_seqZ). apply IH in Hix as [Hl Hix]; [|lia].
    simpl. split; [lia|]. intros [|j] Hj; simpl; [lia|]. apply Hix. lia.
  - intros [Hl H]. destruct ix as [|i ix]; [done|]. simpl in *. exists i. split.
    + apply list_elem_of_fmap. exists ix. split; [done|]. apply IH; [lia|]. split; [lia|].
      intros j Hj. apply (H (S j)). lia.
    + apply elem_of_seqZ. specialize (H 0%nat ltac:(lia)). simpl in H. lia.
Qed.

Lemma NoDup_box st sh : NoDup (box st sh).
Proof.
  revert st. induction sh as [|d sh IH]; intros [|o st]; simpl; try apply NoDup_singleton.
  apply NoDup_bind.
  - intros x1 x2 y _ _ (? & -> & _)%list_elem_of_fmap (? & [= ->] & _)%list_elem_of_fmap. done.
  - intros x _. apply NoDup_fmap; [by intros ?? [= ->]|]. apply IH.
  - apply NoDup_seqZ.
Qed.

Lemma length_box st sh : length st = length sh → Forall (λ d, 0 <= d) sh →
  zlen (box st sh) = Zprod sh.
Proof.
  intros H1 H2. rewrite box_delin, length_fmap, length_seqZ by done.
  apply Z2Nat.id, Zprod_nonneg, H2.
Qed.

(** ** Properties *)

(** On a shape whose element count is a [u64], [unravel_index] and
    [ravel_indices] are inverse bijections between the linear indices below the
    count and the in-bounds index vectors, and both refuse everything else. *)
Theorem ravel_unravel_roundtrip (sh : list Z) (Hsh : shape_wf sh) :
  (∀ k, 0 <= k < Zprod sh →
     ∃ ix, unravel_index k sh = Some ix ∧ index_in ix sh ∧ ravel_indices ix sh = Some k) ∧
  (∀ ix, index_in ix sh →
     ∃ k, ravel_indices ix sh = Some k ∧ 0 <= k < Zprod sh ∧ unravel_index k sh = Some ix) ∧
  (∀ k, Zprod sh <= k → unravel_index k sh = None) ∧
  (∀ ix j, length ix = length sh → (j < length sh)%nat → sh !!! j <= ix !!! j →
     ravel_indices ix sh = None).
Proof.
  destruct Hsh as [Hnn Hp]. split_and!.
  - intros k Hk. assert (Forall (λ d, 0 < d) sh) as Hpos by (apply Zprod_pos_Forall; [done|lia]).
    pose proof (delin_in k sh Hpos Hk). exists (delin k sh).
    split; [by apply unravel_index_delin|]. split; [done|].
    rewrite ravel_indices_lin by done. by rewrite lin_delin.
  - intros ix Hix. pose proof (index_in_pos _ _ Hix). pose proof (lin_bound _ _ Hix).
    exists (lin ix sh). split; [by apply ravel_indices_lin|]. split; [done|].
    rewrite unravel_index_delin by done. by rewrite delin_lin.
  - intros k Hk. by apply unravel_index_None.
  - intros ix j Hlen Hj Hge. apply ravel_indices_None with j; lia.
Qed.

Lemma ravel_unravel_roundtrip_witness :
  unravel_index 17 [2; 3; 4] = Some [1; 1; 1] ∧ ravel_indices [1; 1; 1] [2; 3; 4] = Some 17 ∧
  ∃ ix, unravel_index 17 [2; 3; 4] = Some ix ∧ index_in ix [2; 3; 4] ∧
        ravel_indices ix [2; 3; 4] = Some 17.
Proof.
  split; [reflexivity|]. split; [reflexivity|].
  apply (ravel_unravel_roundtrip [2; 3; 4]); [|unfold Zprod; simpl; lia].
  split; [repeat constructor; lia|reflexivity].
Defined.

(** The two implementations of [unravel_index] agree on every shape without
    a zero extent whose element count is a [u64]: the one that multiplies the
    extents out first and unrolls up to four dimensions, and the one that divides
    and inspects the remaining quotient.  The second one panics when it reaches a
    zero extent, where the first one returns [None]. *)
Theorem unravel_index_implementations_agree (sh : list Z) (k : Z)
    (Hsh : shape_wf sh) (Hk : 0 <= k) :
  (Forall (λ d, 0 < d) sh → array_unravel_index k sh = Ok (unravel_index k sh)) ∧
  (contains_zero sh = true → unravel_index k sh = None ∧ array_unravel_index k sh = Panic).
Proof.
  destruct Hsh as [Hnn Hp]. split.
  - intros Hpos. unfold array_unravel_index. destruct (Z.lt_ge_cases k (Zprod sh)).
    + rewrite unravel_index_delin, array_unravel_loop_delin by (done || lia). by rewrite app_nil_r.
    + rewrite unravel_index_None, array_unravel_loop_None by (done || lia). done.
  - intros Hz. split.
    + apply unravel_index_None; [done|]. rewrite Zprod_zero by done. lia.
    + unfold array_unravel_index. generalize (@nil Z) as acc.
      assert (existsb (Z.eqb 0) (rev sh) = true) as Hz'.
      { apply existsb_exists in Hz as (d & Hd & Hd0). apply existsb_exists. exists d.
        by rewrite <-in_rev. }
      clear -Hz'. revert k Hz'.
      induction (rev sh) as [|d l IH]; intros k Hz acc; [done|].
      cbn [existsb array_unravel_loop] in *. destruct (Z.eqb_spec d 0) as [->|Hd]; [done|].
      apply IH. rewrite (proj2 (Z.eqb_neq 0 d)) in Hz by lia. done.
Qed.

Lemma unravel_index_implementations_agree_witness :
  array_unravel_index 5 [2; 3] = Ok (Some [1; 2]) ∧
  array_unravel_index 5 [2; 3] = Ok (unravel_index 5 [2; 3]).
Proof.
  split; [reflexivity|]. apply unravel_index_implementations_agree; [|lia|repeat constructor; lia].
  split; [repeat constructor; lia|reflexivity].
Defined.
