(* ===== verification/Iterators.v ===== *)
(** The iterators over an array subset: [zarrs_chunk_grid/src/iterators/*.rs].

    The borrowing and owning variants of each iterator ([...Iterator<'a>] and
    [...IntoIterator]) and the parallel producers have the same fields and are
    generated by one macro; they are one record here. *)

From S2P Require Import Prelude ArraySubset Linear.

(** [IndexerError]. *)
Inductive IndexerError :=
| IdxIncompatibleDimensionality (got expected : nat)
| OutOfBounds (indices shape : list Z)
| IncompatibleLength (got expected : Z).

(** ** [Indices] *)

(** [Indices], and the iterators made from it: a subset and the range of linear
    indices still to produce. *)
Record Indices := mk_indices { it_subset : ArraySubset; it_range : range }.

(** [std::ops::Bound<usize>]. *)
Inductive Bound := Included (b : Z) | Excluded (b : Z) | Unbounded.

Definition Indices_new (subset : ArraySubset) : Indices :=
  let length := num_elements_usize subset in
  mk_indices subset (mk_range 0 length).

(** [usize::saturating_add]. *)
Definition saturating_add (a b : Z) : Z := Z.min u64_max (a + b).

Definition Indices_new_with_start_end (subset : ArraySubset) (start_bound end_bound : Bound) : Indices :=
  let length := num_elements_usize subset in
  let start := match start_bound with
    | Included start => start
    | Excluded start => saturating_add start 1
    | Unbounded => 0
    end in
  let end_ := match end_bound with
    | Excluded end_ => Z.min end_ length
    | Included end_ => Z.min (saturating_add end_ 1) length
    | Unbounded => length
    end in
  mk_indices subset (mk_range start end_).

Definition Indices_len (self : Indices) : Z :=
  saturating_sub (r_end (it_range self)) (r_start (it_range self)).

Definition Indices_is_empty (self : Indices) : bool := Indices_len self =? 0.

Definition unravel_index_1d (index : Z) (shape start : list Z) : list Z :=
  [start !!! 0%nat +w index mod (shape !!! 0%nat)].

Definition unravel_index_2d (index : Z) (shape start : list Z) : list Z :=
  let i1 := start !!! 1%nat +w index mod (shape !!! 1%nat) in
  let index := index / (shape !!! 1%nat) in
  let i0 := start !!! 0%nat +w index mod (shape !!! 0%nat) in
  [i0; i1].

Definition unravel_index_3d (index : Z) (shape start : list Z) : list Z :=
  let i2 := start !!! 2%nat +w index mod (shape !!! 2%nat) in
  let index := index / (shape !!! 2%nat) in
  let i1 := start !!! 1%nat +w index mod (shape !!! 1%nat) in
  let index := index / (shape !!! 1%nat) in
  let i0 := start !!! 0%nat +w index mod (shape !!! 0%nat) in
  [i0; i1; i2].

Definition unravel_index_4d (index : Z) (shape start : list Z) : list Z :=
  let i3 := start !!! 3%nat +w index mod (shape !!! 3%nat) in
  let index := index / (shape !!! 3%nat) in
  let i2 := start !!! 2%nat +w index mod (shape !!! 2%nat) in
  let index := index / (shape !!! 2%nat) in
  let i1 := start !!! 1%nat +w index mod (shape !!! 1%nat) in
  let index := index / (shape !!! 1%nat) in
  let i0 := start !!! 0%nat +w index mod (shape !!! 0%nat) in
  [i0; i1; i2; i3].

Definition unravel_index_nd (index : Z) (shape start : list Z) : option (list Z) :=
  indices ← unravel_index index shape;
  Some (zip_with (fun idx st => idx +w st) indices start).

(** The match on the dimensionality shared by [next] and [next_back]. *)
Definition indices_item (subset : ArraySubset) (index : Z) : option (list Z) :=
  let shape := shape subset in
  let start := start subset in
  match length shape with
  | 0%nat => Some []
  | 1%nat => Some (unravel_index_1d index shape start)
  | 2%nat => Some (unravel_index_2d index shape start)
  | 3%nat => Some (unravel_index_3d index shape start)
  | 4%nat => Some (unravel_index_4d index shape start)
  | _ => unravel_index_nd index shape start
  end.

Definition Indices_next (self : Indices) : option (list Z) * Indices :=
  let r := it_range self in
  if r_end r <=? r_start r then (None, self)
  else
    let index := r_start r in
    (indices_item (it_subset self) index,
     mk_indices (it_subset self) (mk_range (r_start r +w 1) (r_end r))).

Definition Indices_next_back (self : Indices) : option (list Z) * Indices :=
  let r := it_range self in
  if r_start r <? r_end r then
    let end_ := r_end r -w 1 in
    (indices_item (it_subset self) end_, mk_indices (it_subset self) (mk_range (r_start r) end_))
  else (None, self).

Definition Indices_size_hint (self : Indices) : Z * option Z :=
  let length := saturating_sub (r_end (it_range self)) (r_start (it_range self)) in
  (length, Some length).

(** [Producer::split_at] of the parallel iterators. *)
Definition Indices_split_at (self : Indices) (index : Z) : Indices * Indices :=
  let r := it_range self in
  (mk_indices (it_subset self) (mk_range (r_start r) (r_start r +w index)),
   mk_indices (it_subset self) (mk_range (r_start r +w index) (r_end r))).

(** ** [LinearisedIndices] *)

Record LinearisedIndices := mk_linearised { li_subset : ArraySubset; li_array_shape : list Z }.

Definition LinearisedIndices_new (subset : ArraySubset) (array_shape : list Z)
    : outcome IndexerError LinearisedIndices :=
  if negb (dimensionality subset =? length array_shape)%nat then
    Err (IdxIncompatibleDimensionality (dimensionality subset) (length array_shape))
  else if zip_any (fun e s => s <? e) (end_exc subset) array_shape then
    Err (OutOfBounds (end_exc subset) array_shape)
  else Ok (mk_linearised subset array_shape).

Definition LinearisedIndices_len (self : LinearisedIndices) : Z :=
  num_elements_usize (li_subset self).

(** [LinearisedIndicesIterator]. *)
Record LinearisedIndicesIterator := mk_linearised_iter { lii_inner : Indices; lii_array_shape : list Z }.

Definition LinearisedIndices_into_iter (self : LinearisedIndices) : LinearisedIndicesIterator :=
  let num_elements := num_elements_usize (li_subset self) in
  mk_linearised_iter (mk_indices (li_subset self) (mk_range 0 num_elements)) (li_array_shape self).

Definition LinearisedIndices_next (self : LinearisedIndicesIterator)
    : outcome IndexerError (option Z * LinearisedIndicesIterator) :=
  let '(item, inner) := Indices_next (lii_inner self) in
  let self' := mk_linearised_iter inner (lii_array_shape self) in
  match item with
  | None => Ok (None, self')
  | Some indices =>
      let? index := expect (ravel_indices indices (lii_array_shape self)) in
      Ok (Some index, self')
  end.

Definition LinearisedIndices_next_back (self : LinearisedIndicesIterator)
    : outcome IndexerError (option Z * LinearisedIndicesIterator) :=
  let '(item, inner) := Indices_next_back (lii_inner self) in
  let self' := mk_linearised_iter inner (lii_array_shape self) in
  match item with
  | None => Ok (None, self')
  | Some indices =>
      let? index := expect (ravel_indices indices (lii_array_shape self)) in
      Ok (Some index, self')
  end.

(** ** [ContiguousIndices] *)

Record ContiguousIndices := mk_contiguous {
  subset_contiguous_start : ArraySubset;
  contiguous_elements : Z }.

(** The loop of [ContiguousIndices::new] over the reversed zip of the subset's
    start and shape and the array shape.  [shape_out] is filled from its last
    entry; its spare capacity is the array dimensionality. *)
Fixpoint contiguous_loop (l : list (Z * Z * Z)) (contiguous : bool) (elements : Z)
    (shape_out : list Z) : Z * list Z :=
  match l with
  | [] => (elements, shape_out)
  | (subset_start, subset_size, array_size) :: l =>
      if contiguous
      then contiguous_loop l ((subset_start =? 0) && (subset_size =? array_size))
             (elements *w subset_size) (1 :: shape_out)
      else contiguous_loop l false elements (subset_size :: shape_out)
  end.

Definition ContiguousIndices_new (subset : ArraySubset) (array_shape : list Z)
    : outcome IndexerError ContiguousIndices :=
  if negb (dimensionality subset =? length array_shape)%nat then
    Err (IdxIncompatibleDimensionality (dimensionality subset) (length array_shape))
  else if zip_any (fun e s => s <? e) (end_exc subset) array_shape then
    Err (OutOfBounds (end_exc subset) array_shape)
  else if is_empty subset then
    if zip_any (fun st sh => sh <=? st) (start subset) array_shape
    then Err (OutOfBounds (start subset) array_shape)
    else Ok (mk_contiguous subset 0)
  else
    let '(elements, shape_out) :=
      contiguous_loop (rev (zip_with3 (fun a b c => (a, b, c)) (start subset) (shape subset) array_shape))
        true 1 [] in
    let ranges := zip_with (fun st sh => mk_range st (st +w sh)) (start subset) shape_out in
    Ok (mk_contiguous (from_ranges ranges) elements).

Definition ContiguousIndices_len (self : ContiguousIndices) : Z :=
  num_elements_usize (subset_contiguous_start self).

(** [ContiguousIndicesIterator]. *)
Record ContiguousIndicesIterator := mk_contiguous_iter { ci_inner : Indices; ci_elements : Z }.

Definition ContiguousIndices_into_iter (self : ContiguousIndices) : ContiguousIndicesIterator :=
  let n_elements := num_elements_usize (subset_contiguous_start self) in
  mk_contiguous_iter (mk_indices (subset_contiguous_start self) (mk_range 0 n_elements))
    (contiguous_elements self).

Definition ContiguousIndices_next (self : ContiguousIndicesIterator)
    : option (list Z * Z) * ContiguousIndicesIterator :=
  let '(item, inner) := Indices_next (ci_inner self) in
  ((fun i => (i, ci_elements self)) <$> item, mk_contiguous_iter inner (ci_elements self)).

Definition ContiguousIndices_next_back (self : ContiguousIndicesIterator)
    : option (list Z * Z) * ContiguousIndicesIterator :=
  let '(item, inner) := Indices_next_back (ci_inner self) in
  ((fun i => (i, ci_elements self)) <$> item, mk_contiguous_iter inner (ci_elements self)).

(** ** [ContiguousLinearisedIndices] *)

Record ContiguousLinearisedIndices := mk_contiguous_linearised {
  cli_inner : ContiguousIndices; cli_array_shape : list Z }.

Definition ContiguousLinearisedIndices_new (subset : ArraySubset) (array_shape : list Z)
    : outcome IndexerError ContiguousLinearisedIndices :=
  let? inner := ContiguousIndices_new subset array_shape in
  Ok (mk_contiguous_linearised inner array_shape).

(** [ContiguousLinearisedIndicesIterator]. *)
Record ContiguousLinearisedIndicesIterator := mk_cli_iter {
  clii_inner : ContiguousIndicesIterator; clii_array_shape : list Z }.

Definition ContiguousLinearisedIndices_into_iter (self : ContiguousLinearisedIndices)
    : ContiguousLinearisedIndicesIterator :=
  mk_cli_iter (ContiguousIndices_into_iter (cli_inner self)) (cli_array_shape self).

Definition ContiguousLinearisedIndices_next (self : ContiguousLinearisedIndicesIterator)
    : outcome IndexerError (option (Z * Z) * ContiguousLinearisedIndicesIterator) :=
  let '(item, inner) := ContiguousIndices_next (clii_inner self) in
  let self' := mk_cli_iter inner (clii_array_shape self) in
  match item with
  | None => Ok (None, self')
  | Some (indices, n) =>
      let? index := expect (ravel_indices indices (clii_array_shape self)) in
      Ok (Some (index, n), self')
  end.

(** ** [Indexer::iter_contiguous_byte_ranges] *)

Definition byte_range_of (element_size : Z) (item : Z * Z) : range :=
  let '(array_index, contiguous_elements) := item in
  let byte_index := array_index *w element_size in
  mk_range byte_index (byte_index +w contiguous_elements *w element_size).

Definition ContiguousByteRanges_next (element_size : Z) (self : ContiguousLinearisedIndicesIterator)
    : outcome IndexerError (option range * ContiguousLinearisedIndicesIterator) :=
  let? (item, self) := ContiguousLinearisedIndices_next self in
  Ok (byte_range_of element_size <$> item, self).

(** ** Correctness of [Indices] *)

(** The elements an iterator still has to produce. *)
Definition element (s : ArraySubset) (k : Z) : list Z := zip_with Z.add (delin k (shape s)) (start s).
Definition elements (it : Indices) : list (list Z) :=
  element (it_subset it) <$> seqZ (r_start (it_range it)) (r_end (it_range it) - r_start (it_range it)).

(** A subset the iterators are used on: its end and its element count are [u64]s. *)
Definition region_wf (s : ArraySubset) : Prop := subset_wf s ∧ shape_wf (shape s).

Definition indices_inv (it : Indices) : Prop :=
  region_wf (it_subset it) ∧
  0 <= r_start (it_range it) <= r_end (it_range it) ∧
  r_end (it_range it) <= Zprod (shape (it_subset it)).

Lemma element_wrap s k : region_wf s → 0 <= k < Zprod (shape s) →
  zip_with (fun idx st => st +w idx) (delin k (shape s)) (start s) = element s k.
Proof.
  intros [[Hlen Hwf] [Hnn Hp]] Hk.
  assert (Forall (λ d, 0 < d) (shape s)) as Hpos by (apply Zprod_pos_Forall; [done|lia]).
  pose proof (delin_in k _ Hpos Hk) as Hin. apply Forall2_total in Hin as [Hl Hin].
  unfold element. apply list_eq_total; rewrite !length_zip_with; [done|]. intros j Hj.
  rewrite !zip_with_total by lia. specialize (Hin j ltac:(lia)). specialize (Hwf j ltac:(lia)).
  rewrite wrap64_small; [lia|]. unfold is_u64. lia.
Qed.

Lemma indices_item_element s k : region_wf s → 0 <= k < Zprod (shape s) →
  indices_item s k = Some (element s k).
Proof.
  intros Hs Hk. pose proof (element_wrap s k Hs Hk) as He.
  destruct Hs as [[Hlen Hwf] [Hnn Hp]].
  assert (Forall (λ d, 0 < d) (shape s)) as Hpos by (apply Zprod_pos_Forall; [done|lia]).
  pose proof (unravel_loop_delin k _ [] Hpos Hk) as Hd. rewrite app_nil_r in Hd.
  pose proof (unravel_index_delin k _ Hpos Hp Hk) as Hu.
  unfold indices_item. rewrite <-He. destruct s as [st sh]; cbn [start shape] in *.
  do 5 (destruct sh as [|? sh];
    [repeat (destruct st as [|? st]; simpl in Hlen; try lia);
     rewrite <-Hd; reflexivity|]).
  cbn [length]. unfold unravel_index_nd. rewrite Hu. cbn [mbind option_bind]. f_equal.
  apply zip_with_ext; [|done..]. intros. f_equal. lia.
Qed.

Lemma Indices_new_spec s : region_wf s →
  indices_inv (Indices_new s) ∧ elements (Indices_new s) = box (start s) (shape s).
Proof.
  intros Hs. pose proof Hs as [[Hlen _] [Hnn Hp]]. pose proof (Zprod_nonneg _ Hnn).
  unfold Indices_new, num_elements_usize, num_elements. rewrite product64_wf by apply Hs.
  split; [split; [done|]; simpl; lia|].
  unfold elements. simpl. rewrite Z.sub_0_r. symmetry. apply box_delin; [lia|done].
Qed.

Lemma Indices_next_spec it : indices_inv it →
  match elements it with
  | [] => Indices_next it = (None, it)
  | a :: l => ∃ it', Indices_next it = (Some a, it') ∧ elements it' = l ∧ indices_inv it' ∧
                     it_subset it' = it_subset it
  end.
Proof.
  intros (Hs & Hr & Hp). unfold elements, Indices_next.
  destruct it as [s [a b]]; simpl in *. destruct (Z.leb_spec b a).
  - by rewrite seqZ_nil by lia.
  - pose proof Hs as [_ [_ Hlt]]. rewrite seqZ_cons, fmap_cons by lia.
    rewrite indices_item_element by (done || lia).
    rewrite wrap64_small by (unfold is_u64; lia). eexists. split; [done|]. simpl.
    split; [|split; [|done]]; [do 2 f_equal; lia|]. split; [done|]. simpl. lia.
Qed.

Lemma Indices_next_back_spec it : indices_inv it →
  elements it = [] ∧ Indices_next_back it = (None, it) ∨
  ∃ a l it', elements it = l ++ [a] ∧ Indices_next_back it = (Some a, it') ∧ elements it' = l ∧
             indices_inv it'.
Proof.
  intros (Hs & Hr & Hp). unfold elements, Indices_next_back.
  destruct it as [s [a b]]; simpl in *. destruct (Z.ltb_spec a b); [right|left].
  - pose proof Hs as [_ [_ Hlt]].
    rewrite (wrap64_small (b - 1)) by (unfold is_u64; lia).
    rewrite indices_item_element by (done || lia).
    exists (element s (b - 1)), (element s <$> seqZ a (b - 1 - a)), (mk_indices s (mk_range a (b - 1))).
    split_and!; [|done|done|split; [done|simpl; lia]].
    replace (b - a) with (Z.of_nat (S (Z.to_nat (b - 1 - a)))) by lia.
    rewrite seqZ_S, fmap_app, Z2Nat.id by lia. simpl. do 3 f_equal. lia.
  - by rewrite seqZ_nil by lia.
Qed.

(** ** Regions inside an array *)

Definition in_array (s : ArraySubset) (ash : list Z) : Prop :=
  length ash = length (start s) ∧
  ∀ j, (j < length ash)%nat → start s !!! j + shape s !!! j <= ash !!! j.

Definition lin_elements (st sh ash : list Z) : list Z := (λ ix, lin ix ash) <$> box st sh.

Lemma end_exc_check s ash : subset_wf s → length ash = length (start s) →
  zip_any (fun e s => s <? e) (end_exc s) ash = false ↔ in_array s ash.
Proof.
  intros Hs Hlen. pose proof (proj1 Hs) as Hsh. unfold end_exc, in_array.
  rewrite zip_any_false by (rewrite length_zip_with; lia). rewrite length_zip_with, Hsh, Nat.min_id, Hlen.
  split; [intros H; split; [done|]|intros [_ H]]; intros j Hj; specialize (H j Hj);
    revert H; rewrite zip_with_total, subset_wf_wrap, Z.ltb_ge by (done || lia); done.
Qed.

Lemma in_array_index_in s ash ix : subset_wf s → in_array s ash → in_subset s ix → index_in ix ash.
Proof.
  intros [_ Hwf] [Hl H] [Hix Hin]. apply Forall2_total. split; [lia|].
  intros j Hj. specialize (Hwf j ltac:(lia)). specialize (H j ltac:(lia)). specialize (Hin j ltac:(lia)). lia.
Qed.

Lemma box_index_in s ash ix : region_wf s → in_array s ash →
  ix ∈ box (start s) (shape s) → index_in ix ash.
Proof.
  intros [Hs _] Ha Hix. apply elem_of_box in Hix; [|pose proof (proj1 Hs); lia].
  eapply in_array_index_in; [|done|]; [done|]. by destruct s.
Qed.

Lemma elements_in_array it ash ix : indices_inv it → in_array (it_subset it) ash →
  ix ∈ elements it → index_in ix ash.
Proof.
  intros (Hs & Hr & Hp) Ha. unfold elements.
  intros (k & -> & Hk%elem_of_seqZ)%list_elem_of_fmap.
  apply (box_index_in (it_subset it)); [done..|].
  rewrite box_delin by (first [apply Hs | symmetry; apply Hs]).
  apply list_elem_of_fmap. exists k. split; [done|]. apply elem_of_seqZ. lia.
Qed.

(** The derived iterators step an inner [Indices] and map its items by a function
    that is defined on them. *)
Lemma derived_iter_collect {S A E} (nxt : S → outcome E (option A * S)) (inner : S → Indices)
    (f : list Z → A) (P : list Z → Prop) (Inv : S → Prop)
    (Hnone : ∀ s, Inv s → Indices_next (inner s) = (None, inner s) → ∃ s', nxt s = Ok (None, s'))
    (Hsome : ∀ s ix it', Inv s → P ix → Indices_next (inner s) = (Some ix, it') →
       ∃ s', nxt s = Ok (Some (f ix), s') ∧ inner s' = it' ∧ Inv s') s fuel :
  Inv s → indices_inv (inner s) → (∀ ix, ix ∈ elements (inner s) → P ix) →
  (length (elements (inner s)) < fuel)%nat →
  iter_collect nxt fuel s = Some (Ok (f <$> elements (inner s))).
Proof.
  intros Hs Hi HP Hf.
  apply (iter_collect_spec nxt (λ s, f <$> elements (inner s))
    (λ s, Inv s ∧ indices_inv (inner s) ∧ ∀ ix, ix ∈ elements (inner s) → P ix));
    [|done|by rewrite length_fmap].
  clear -Hnone Hsome. intros s (Hs & Hi & HP). pose proof (Indices_next_spec _ Hi) as Hn.
  destruct (elements (inner s)) as [|ix l] eqn:He; simpl; [by apply Hnone|].
  destruct Hn as (it' & Hn & Hl & Hi' & _).
  destruct (Hsome _ _ _ Hs (HP ix (list_elem_of_here _ _)) Hn) as (s' & Hnx & <- & Hs').
  exists s'. rewrite Hl. split_and!; [done..|]. intros ix' Hix'. apply HP. by apply list_elem_of_further.
Qed.

Lemma linearised_collect li_it fuel :
  indices_inv (lii_inner li_it) → in_array (it_subset (lii_inner li_it)) (lii_array_shape li_it) →
  Zprod (lii_array_shape li_it) < u64_modulus →
  (length (elements (lii_inner li_it)) < fuel)%nat →
  iter_collect LinearisedIndices_next fuel li_it =
    Some (Ok ((λ ix, lin ix (lii_array_shape li_it)) <$> elements (lii_inner li_it))).
Proof.
  intros Hi Ha Hp Hf. set (ash := lii_array_shape li_it) in *.
  apply (derived_iter_collect LinearisedIndices_next lii_inner (λ ix, lin ix ash)
    (λ ix, index_in ix ash) (λ s, lii_array_shape s = ash)); [..|done|done| |done].
  - intros s <- Hn. unfold LinearisedIndices_next. rewrite Hn. eauto.
  - intros s ix it' Hs Hix Hn. unfold LinearisedIndices_next. rewrite Hn, Hs.
    rewrite ravel_indices_lin by done. simpl. eauto.
  - intros ix Hix. by eapply elements_in_array.
Qed.

Lemma contiguous_linearised_collect it fuel (ash := clii_array_shape it) (ci := clii_inner it) :
  indices_inv (ci_inner ci) → in_array (it_subset (ci_inner ci)) ash → Zprod ash < u64_modulus →
  (length (elements (ci_inner ci)) < fuel)%nat →
  iter_collect ContiguousLinearisedIndices_next fuel it =
    Some (Ok ((λ ix, (lin ix ash, ci_elements ci)) <$> elements (ci_inner ci))).
Proof.
  intros Hi Ha Hp Hf.
  apply (derived_iter_collect ContiguousLinearisedIndices_next (λ s, ci_inner (clii_inner s))
    (λ ix, (lin ix ash, ci_elements ci)) (λ ix, index_in ix ash)
    (λ s, clii_array_shape s = ash ∧ ci_elements (clii_inner s) = ci_elements ci));
    [..|done|done| |done].
  - intros s _ Hn. unfold ContiguousLinearisedIndices_next, ContiguousIndices_next. rewrite Hn. eauto.
  - intros s ix it' [Hs1 Hs2] Hix Hn.
    unfold ContiguousLinearisedIndices_next, ContiguousIndices_next. rewrite Hn, Hs1, Hs2. simpl.
    rewrite ravel_indices_lin by done. simpl. eauto.
  - intros ix Hix. by eapply elements_in_array.
Qed.

(** ** The contiguous decomposition *)

Definition contiguous_step (st : bool * Z * list Z) (x : Z * Z * Z) : bool * Z * list Z :=
  let '(contiguous, n, out) := st in
  let '(subset_start, subset_size, array_size) := x in
  if contiguous
  then ((subset_start =? 0) && (subset_size =? array_size), n *w subset_size, 1 :: out)
  else (false, n, subset_size :: out).

Lemma contiguous_loop_fold l c n out :
  contiguous_loop l c n out =
  let '(_, n, out) := fold_left contiguous_step l (c, n, out) in (n, out).
Proof.
  revert c n out. induction l as [|[[a b] d] l IH]; intros c n out; [done|].
  simpl. destruct c; apply IH.
Qed.

Lemma lin_elements_cons o l d st sh ash :
  lin_elements (o :: st) (l :: sh) (d :: ash) =
  seqZ o l ≫= λ i, Z.add (i * Zprod ash) <$> lin_elements st sh ash.
Proof.
  unfold lin_elements. simpl. rewrite list_fmap_of_bind. apply list_bind_ext_in.
  intros i _. by rewrite !list_fmap_fmap.
Qed.

(** What the loop has established after the trailing dimensions [st], [sh],
    [ash]: the runs of [n] indices from the reduced region are the region. *)
Record contiguous_inv (st sh ash : list Z) (res : bool * Z * list Z) : Prop := {
  cinv_len : length res.2 = length sh;
  cinv_out : ∀ j, (j < length sh)%nat → res.2 !!! j = 1 ∨ res.2 !!! j = sh !!! j;
  cinv_n : res.1.2 * Zprod res.2 = Zprod sh ∧ 0 < res.1.2;
  cinv_runs : (lin_elements st res.2 ash ≫= λ x, seqZ x res.1.2) = lin_elements st sh ash;
  cinv_full : res.1.1 = true → res.1.2 = Zprod ash ∧ lin_elements st res.2 ash = [0] }.

Lemma contiguous_inv_fold st sh ash :
  length sh = length st → length ash = length st →
  Forall (λ d, 0 < d) sh → Zprod sh < u64_modulus →
  contiguous_inv st sh ash
    (fold_left contiguous_step (rev (zip_with3 (fun a b c => (a, b, c)) st sh ash)) (true, 1, [])).
Proof.
  revert sh ash. induction st as [|o st IH]; intros [|l sh] [|d ash] H1 H2 Hpos Hp; simpl in *; try lia.
  { split; simpl; try done; lia. }
  rewrite fold_left_app. inversion Hpos as [|? ? Hl Hpos']; subst. rewrite Zprod_cons in Hp.
  pose proof (Zprod_pos sh Hpos') as HP.
  specialize (IH sh ash ltac:(lia) ltac:(lia) Hpos' ltac:(nia)).
  destruct (fold_left _ _ _) as [[c n] out]. destruct IH as [Hlen Hout [Hn Hn0] Hruns Hfull]; simpl in *.
  assert (Forall (λ d, 0 < d) out) as Hop.
  { apply Forall_total. intros j Hj. apply (proj1 (Forall_total _ _)) with (j:=j) in Hpos'; [|lia].
    destruct (Hout j ltac:(lia)) as [->| ->]; lia. }
  pose proof (Zprod_pos out Hop).
  destruct c; simpl.
  - destruct (Hfull eq_refl) as [-> Hzero]. rewrite Hzero in Hruns.
    rewrite wrap64_small by (unfold is_u64; nia).
    split; simpl; [lia|intros [|j] Hj; [by left|apply Hout; lia]|rewrite !Zprod_cons; nia|..].
    + rewrite !lin_elements_cons, Hzero, <-Hruns, (Z.mul_comm _ l). simpl.
      rewrite !app_nil_r, Z.add_0_r, (seqZ_mul_offset o l) by lia.
      apply list_bind_ext_in. intros i _. by rewrite fmap_add_seqZ, Z.add_0_r.
    + intros [Ho%Z.eqb_eq Hl'%Z.eqb_eq]%andb_true_iff. subst. rewrite Zprod_cons. split; [lia|].
      by rewrite lin_elements_cons, Hzero.
  - split; simpl; [lia|intros [|j] Hj; [by right|apply Hout; lia]|rewrite !Zprod_cons; nia| |done].
    rewrite !lin_elements_cons, list_bind_assoc. apply list_bind_ext_in. intros i _.
    rewrite <-Hruns, list_fmap_bind, list_fmap_of_bind. apply list_bind_ext_in. intros x _.
    simpl. by rewrite fmap_add_seqZ.
Qed.

(** The reduced region of [ContiguousIndices::new] is again a well-formed region
    of the array. *)
Lemma ContiguousIndices_new_Ok s ash :
  region_wf s → in_array s ash → is_empty s = false →
  ∃ ci, ContiguousIndices_new s ash = Ok ci ∧
    region_wf (subset_contiguous_start ci) ∧ in_array (subset_contiguous_start ci) ash ∧
    0 < contiguous_elements ci ∧
    contiguous_elements ci * Zprod (shape (subset_contiguous_start ci)) = Zprod (shape s) ∧
    (lin_elements (start (subset_contiguous_start ci)) (shape (subset_contiguous_start ci)) ash
       ≫= λ x, seqZ x (contiguous_elements ci)) = lin_elements (start s) (shape s) ash.
Proof.
  intros Hs Ha Hne. pose proof Hs as [[Hsh Hwf] [Hnn Hp]]. pose proof Ha as [Hal Hin].
  assert (Forall (λ d, 0 < d) (shape s)) as Hpos.
  { apply Forall_total. intros j Hj. unfold is_empty in Hne.
    rewrite existsb_total_false in Hne. specialize (Hne j Hj). apply Z.eqb_neq in Hne.
    specialize (Hwf j ltac:(lia)). lia. }
  unfold ContiguousIndices_new, dimensionality. rewrite (proj2 (Nat.eqb_eq _ _)) by lia. simpl.
  rewrite (proj2 (end_exc_check s ash (proj1 Hs) Hal) Ha), Hne, contiguous_loop_fold.
  pose proof (contiguous_inv_fold (start s) (shape s) ash ltac:(lia) ltac:(lia) Hpos Hp) as Hc.
  destruct (fold_left _ _ _) as [[c n] out]. destruct Hc as [Hlen Hout [Hn Hn0] Hruns _]; simpl in *.
  set (rs := zip_with _ _ out).
  assert (from_ranges rs = mk_subset (start s) out) as Hrs.
  { assert (∀ j, (j < length (start s))%nat → rs !!! j = mk_range (start s !!! j) (start s !!! j + out !!! j)) as Hj.
    { intros j Hj. unfold rs. rewrite zip_with_total by lia.
      rewrite wrap64_small; [done|]. unfold is_u64. specialize (Hwf j Hj).
      apply (proj1 (Forall_total _ _)) with (j:=j) in Hpos; [|lia].
      destruct (Hout j ltac:(lia)) as [->| ->]; lia. }
    assert (length rs = length (start s)) as Hl by (unfold rs; rewrite length_zip_with; lia).
    unfold from_ranges. f_equal; apply list_eq_total; rewrite length_fmap, ?Hl; try lia;
      intros j Hlt; rewrite fmap_total, Hj by lia; simpl; [done|].
    unfold saturating_sub. apply (proj1 (Forall_total _ _)) with (j:=j) in Hpos; [|lia].
    destruct (Hout j ltac:(lia)) as [->| ->]; lia. }
  assert (∀ j, (j < length (start s))%nat → 1 <= out !!! j <= shape s !!! j) as Hoj.
  { intros j Hj. apply (proj1 (Forall_total _ _)) with (j:=j) in Hpos; [|lia].
    destruct (Hout j ltac:(lia)) as [->| ->]; lia. }
  assert (Forall (λ d, 0 < d) out) as Hop.
  { apply Forall_total. intros j Hj. specialize (Hoj j ltac:(lia)). lia. }
  pose proof (Zprod_pos out Hop).
  eexists. split; [done|]. cbn [subset_contiguous_start contiguous_elements].
  rewrite Hrs. cbn [start shape]. split; [|split; [split; [done|]|done]].
  - split; split; cbn [start shape]; [lia| | |nia].
    + intros j Hj. specialize (Hoj j Hj). specialize (Hwf j Hj). lia.
    + eapply Forall_impl; [exact Hop|]. simpl. lia.
  - intros j Hj. cbn [start shape]. specialize (Hoj j ltac:(lia)). specialize (Hin j Hj). lia.
Qed.

(** ** Properties *)

Inductive direction := Front | Back.

(** A caller of the double-ended iterator: the items taken from the front and
    from the back, each in the order taken. *)
Fixpoint take_from (ds : list direction) (it : Indices)
    : list (option (list Z)) * list (option (list Z)) * Indices :=
  match ds with
  | [] => ([], [], it)
  | Front :: ds =>
      let '(item, it) := Indices_next it in
      let '(fs, bs, it) := take_from ds it in (item :: fs, bs, it)
  | Back :: ds =>
      let '(item, it) := Indices_next_back it in
      let '(fs, bs, it) := take_from ds it in (fs, item :: bs, it)
  end.

Lemma take_from_spec ds it fs bs it' :
  indices_inv it → take_from ds it = (fs, bs, it') →
  indices_inv it' ∧ elements it = omap id fs ++ elements it' ++ rev (omap id bs).
Proof.
  revert it fs bs. induction ds as [|[] ds IH]; intros it fs bs Hi H; simpl in H.
  { injection H as <- <- <-. simpl. by rewrite app_nil_r. }
  - pose proof (Indices_next_spec it Hi) as Hn. destruct (elements it) as [|a l] eqn:He.
    + rewrite Hn in H. destruct (take_from ds it) as [[fs' bs'] it2] eqn:Ht.
      injection H as <- <- <-. destruct (IH _ _ _ Hi Ht) as [? Heq]. rewrite He in Heq. by split.
    + destruct Hn as (it1 & Hn & <- & Hi1 & _). rewrite Hn in H.
      destruct (take_from ds it1) as [[fs' bs'] it2] eqn:Ht. injection H as <- <- <-.
      destruct (IH _ _ _ Hi1 Ht) as [? Heq]. split; [done|]. simpl. by rewrite Heq.
  - destruct (Indices_next_back_spec it Hi) as [[He Hn]|(a & l & it1 & He & Hn & Hl & Hi1)];
      rewrite Hn in H.
    + destruct (take_from ds it) as [[fs' bs'] it2] eqn:Ht. injection H as <- <- <-. destruct (IH _ _ _ Hi Ht). by split.
    + destruct (take_from ds it1) as [[fs' bs'] it2] eqn:Ht. injection H as <- <- <-.
      destruct (IH _ _ _ Hi1 Ht) as [? Heq]. split; [done|]. rewrite He, <-Hl, Heq. simpl.
      by rewrite !app_assoc.
Qed.

(** Whatever the order in which a caller takes items from the front and from
    the back, the items taken from the front, the items left, and the items taken
    from the back in reverse are together the elements of the subset in C order,
    each exactly once; and the items left are what [size_hint] announces. *)
Theorem indices_interleaved (s : ArraySubset) (Hs : region_wf s) (ds : list direction)
    fs bs it' (Hrun : take_from ds (Indices_new s) = (fs, bs, it')) :
  omap id fs ++ elements it' ++ rev (omap id bs) = box (start s) (shape s) ∧
  NoDup (box (start s) (shape s)) ∧
  (∀ ix, ix ∈ box (start s) (shape s) ↔ in_subset s ix) ∧
  iter_collect (λ it, Ok (E:=unit) (Indices_next it)) (S (length (elements it'))) it' = Some (Ok (elements it')) ∧
  Indices_size_hint it' = (zlen (elements it'), Some (zlen (elements it'))).
Proof.
  destruct (Indices_new_spec s Hs) as [Hi He].
  destruct (take_from_spec _ _ _ _ _ Hi Hrun) as [Hi' Heq].
  split_and!.
  - by rewrite <-Heq.
  - apply NoDup_box.
  - intros ix. rewrite elem_of_box; [by destruct s|]. pose proof (proj1 (proj1 Hs)). lia.
  - apply (iter_collect_spec _ elements indices_inv); [|done|lia].
    intros it Hit. pose proof (Indices_next_spec it Hit) as Hn.
    destruct (elements it); [rewrite Hn; eauto|]. destruct Hn as (it2 & -> & ? & ? & _). eauto.
  - destruct Hi' as (_ & Hr & _). unfold elements, Indices_size_hint, saturating_sub.
    rewrite length_fmap, length_seqZ. replace (Z.max _ _) with (Z.of_nat (Z.to_nat (r_end (it_range it') - r_start (it_range it')))) by lia. done.
Qed.

Lemma indices_interleaved_witness :
  let '(fs, bs, it') := take_from [Front; Back; Front] (Indices_new (mk_subset [1; 5] [2; 2])) in
  fs = [Some [1; 5]; Some [1; 6]] ∧ bs = [Some [2; 6]] ∧
  omap id fs ++ elements it' ++ rev (omap id bs) = box [1; 5] [2; 2].
Proof.
  destruct (take_from _ _) as [[fs bs] it'] eqn:Hrun. split_and!.
  - revert Hrun. vm_compute. by intros [= <- <- <-].
  - revert Hrun. vm_compute. by intros [= <- <- <-].
  - apply (indices_interleaved (mk_subset [1; 5] [2; 2])) in Hrun; [apply Hrun|].
    split; [split; [done|]|split; [repeat constructor; lia|reflexivity]].
    intros [|[|j]] Hj; unfold u64_modulus; simpl in *; lia.
Defined.

(** A rayon work split: where each producer is split, down to the leaves that are
    iterated serially. *)
Inductive split_tree := Leaf | Split (index : Z) (lhs rhs : split_tree).

Fixpoint par_collect (t : split_tree) (it : Indices) : option (list (list Z)) :=
  match t with
  | Leaf =>
      match iter_collect (λ it, Ok (E:=unit) (Indices_next it)) (S (Z.to_nat (Indices_len it))) it with
      | Some (Ok l) => Some l
      | _ => None
      end
  | Split index lhs rhs =>
      if (0 <=? index) && (index <=? Indices_len it) then
        let '(l, r) := Indices_split_at it index in
        a ← par_collect lhs l; b ← par_collect rhs r; Some (a ++ b)
      else None
  end.

(** The splits of a tree are within the producers they split, as rayon calls
    [split_at]. *)
Fixpoint splits_ok (t : split_tree) (len : Z) : Prop :=
  match t with
  | Leaf => True
  | Split index lhs rhs => 0 <= index <= len ∧ splits_ok lhs index ∧ splits_ok rhs (len - index)
  end.

(** The parallel iterator produces the elements of the subset in C order
    under every way of splitting the work. *)
Theorem parallel_indices_equal_serial (s : ArraySubset) (Hs : region_wf s) (t : split_tree)
    (Ht : splits_ok t (Zprod (shape s))) :
  par_collect t (Indices_new s) = Some (box (start s) (shape s)).
Proof.
  destruct (Indices_new_spec s Hs) as [Hi <-].
  assert (Zprod (shape s) = r_end (it_range (Indices_new s)) - r_start (it_range (Indices_new s))) as Hlen.
  { simpl. unfold num_elements_usize, num_elements. rewrite product64_wf by apply Hs. lia. }
  rewrite Hlen in Ht. clear Hlen. revert Hi Ht. generalize (Indices_new s) as it.
  induction t as [|index l IHl r IHr]; intros it Hi Ht; pose proof Hi as (Hs' & Hr & Hp).
  - cbn [par_collect]. rewrite (iter_collect_spec _ elements indices_inv); [done| |done|].
    + intros it' Hit. pose proof (Indices_next_spec it' Hit) as Hn.
      destruct (elements it'); [rewrite Hn; eauto|]. destruct Hn as (it2 & -> & ? & ? & _). eauto.
    + unfold elements, Indices_len, saturating_sub. rewrite length_fmap, length_seqZ. lia.
  - simpl in *. destruct Ht as (Hix & Hl & Hr'). unfold Indices_len, saturating_sub.
    rewrite (proj2 (Z.leb_le 0 index)), (proj2 (Z.leb_le index _)) by lia. simpl.
    destruct Hs' as [_ [_ Hlt]].
    rewrite (wrap64_small (r_start (it_range it) + index)) by (unfold is_u64; lia).
    rewrite IHl, IHr; simpl.
    + f_equal. unfold elements. simpl. rewrite <-fmap_app. f_equal.
      replace (r_start (it_range it) + index - r_start (it_range it)) with index by lia.
      rewrite <-seqZ_app by lia. f_equal. lia.
    + split; [apply Hi|]. simpl. lia.
    + by replace (r_end (it_range it) - (r_start (it_range it) + index))
        with (r_end (it_range it) - r_start (it_range it) - index) by lia.
    + split; [apply Hi|]. simpl. lia.
    + by replace (r_start (it_range it) + index - r_start (it_range it)) with index by lia.
Qed.

Lemma parallel_indices_equal_serial_witness :
  par_collect (Split 3 (Split 1 Leaf Leaf) Leaf) (Indices_new (mk_subset [1; 5] [2; 2])) =
    Some [[1; 5]; [1; 6]; [2; 5]; [2; 6]].
Proof.
  refine (parallel_indices_equal_serial (mk_subset [1; 5] [2; 2]) _ (Split 3 (Split 1 Leaf Leaf) Leaf) _).
  - split; [split; [done|]|split; [repeat constructor; lia|reflexivity]].
    intros [|[|j]] Hj; unfold u64_modulus; simpl in *; lia.
  - change (Zprod (shape (mk_subset [1; 5] [2; 2]))) with 4. simpl. lia.
Defined.

(** An element count at most the array's. *)
Lemma iter_region s : region_wf s →
  indices_inv (mk_indices s (mk_range 0 (num_elements_usize s))) ∧
  elements (mk_indices s (mk_range 0 (num_elements_usize s))) = box (start s) (shape s).
Proof. apply Indices_new_spec. Qed.

Lemma length_region s : region_wf s → zlen (box (start s) (shape s)) = Zprod (shape s).
Proof. intros [[Hl _] [Hnn _]]. apply length_box; [done|done]. Qed.

(** The runs of a region, collected. *)
Lemma contiguous_runs_collect (s : ArraySubset) (ash : list Z) (Hs : region_wf s)
    (Ha : in_array s ash) (Hne : is_empty s = false) (Hash : Zprod ash < u64_modulus) :
  ∃ ci li runs idxs,
    ContiguousLinearisedIndices_new s ash = Ok ci ∧ LinearisedIndices_new s ash = Ok li ∧
    (∀ fuel, Zprod (shape s) < Z.of_nat fuel →
      iter_collect ContiguousLinearisedIndices_next fuel (ContiguousLinearisedIndices_into_iter ci)
        = Some (Ok runs) ∧
      iter_collect LinearisedIndices_next fuel (LinearisedIndices_into_iter li) = Some (Ok idxs)) ∧
    Forall (λ run, run.2 = contiguous_elements (cli_inner ci)) runs ∧
    0 < contiguous_elements (cli_inner ci) ∧
    (runs ≫= λ run, seqZ run.1 run.2) = idxs ∧
    zlen runs = ContiguousIndices_len (cli_inner ci) ∧
    idxs = lin_elements (start s) (shape s) ash.
Proof.
  destruct (ContiguousIndices_new_Ok s ash Hs Ha Hne) as (ci & Hci & Hr & Hin & Hpos & Hn & Hruns).
  set (c := contiguous_elements ci) in *. set (r := subset_contiguous_start ci) in *.
  destruct (iter_region r Hr) as [Hri Hre]. destruct (iter_region s Hs) as [Hsi Hse].
  pose proof (length_region r Hr) as Hrl. pose proof (length_region s Hs) as Hsl.
  pose proof Hs as [[Hsh Hwf] [Hnn Hp]]. pose proof (Zprod_nonneg _ (proj1 (proj2 Hr))) as Hrnn.
  exists (mk_contiguous_linearised ci ash), (mk_linearised s ash),
    ((λ ix, (lin ix ash, c)) <$> box (start r) (shape r)), (lin_elements (start s) (shape s) ash).
  split_and!.
  - unfold ContiguousLinearisedIndices_new. by rewrite Hci.
  - unfold LinearisedIndices_new, dimensionality. destruct Ha as [Hal ?].
    rewrite (proj2 (Nat.eqb_eq _ _)) by lia. simpl.
    by rewrite (proj2 (end_exc_check s ash (proj1 Hs) Hal)).
  - intros fuel Hf. split.
    + rewrite contiguous_linearised_collect; simpl; fold r; [by rewrite Hre|done|done|done|].
      rewrite Hre. nia.
    + rewrite linearised_collect; simpl; [by rewrite Hse|done|done|done|]. rewrite Hse. lia.
  - apply Forall_fmap, Forall_true. done.
  - done.
  - rewrite <-Hruns. unfold lin_elements. by rewrite !list_fmap_bind.
  - simpl. rewrite length_fmap, Hrl. unfold ContiguousIndices_len, num_elements_usize, num_elements.
    by rewrite product64_wf by apply Hr.
  - done.
Qed.

(** The contiguous iterator is the element iterator with adjacent elements
    merged: on a non-empty region inside an array, both constructors succeed,
    neither iterator panics, every run has the announced length, and expanding
    the runs gives the linearised indices of the elements, in the same order. *)
Theorem contiguous_runs_expand (s : ArraySubset) (ash : list Z) (Hs : region_wf s)
    (Ha : in_array s ash) (Hne : is_empty s = false) (Hash : Zprod ash < u64_modulus) :
  ∃ ci li runs idxs,
    ContiguousLinearisedIndices_new s ash = Ok ci ∧ LinearisedIndices_new s ash = Ok li ∧
    (∀ fuel, Zprod (shape s) < Z.of_nat fuel →
      iter_collect ContiguousLinearisedIndices_next fuel (ContiguousLinearisedIndices_into_iter ci)
        = Some (Ok runs) ∧
      iter_collect LinearisedIndices_next fuel (LinearisedIndices_into_iter li) = Some (Ok idxs)) ∧
    Forall (λ run, run.2 = contiguous_elements (cli_inner ci)) runs ∧
    0 < contiguous_elements (cli_inner ci) ∧
    (runs ≫= λ run, seqZ run.1 run.2) = idxs ∧
    zlen runs = ContiguousIndices_len (cli_inner ci) ∧
    idxs = lin_elements (start s) (shape s) ash.
Proof. by apply contiguous_runs_collect. Qed.

Lemma contiguous_runs_expand_witness :
  in_array (mk_subset [1; 0] [2; 3]) [4; 3] ∧
  iter_collect ContiguousLinearisedIndices_next 7
    (ContiguousLinearisedIndices_into_iter
       (mk_contiguous_linearised (mk_contiguous (mk_subset [1; 0] [1; 1]) 6) [4; 3])) = Some (Ok [(3, 6)]).
Proof.
  assert (in_array (mk_subset [1; 0] [2; 3]) [4; 3]) as Ha.
  { split; [done|]. intros [|[|j]] Hj; simpl in *; lia. }
  split; [done|].
  destruct (contiguous_runs_expand (mk_subset [1; 0] [2; 3]) [4; 3]) as (ci & li & runs & idxs & Hci & _ & Hf & _).
  - split; [split; [done|]|split; [repeat constructor; lia|reflexivity]].
    intros [|[|j]] Hj; unfold u64_modulus; simpl in *; lia.
  - done.
  - reflexivity.
  - reflexivity.
  - vm_compute in Hci. injection Hci as <-. destruct (Hf 7%nat eq_refl) as [-> _].
    destruct (Hf 7%nat eq_refl) as [H _]. vm_compute in H. injection H as <-. reflexivity.
Defined.

(** The byte ranges of a region, collected. *)
Lemma byte_ranges_collect (s : ArraySubset) (ash : list Z) (element_size : Z) (Hs : region_wf s)
    (Ha : in_array s ash) (Hne : is_empty s = false) (Hsize : 0 < element_size)
    (Hash : Zprod ash * element_size < u64_modulus) :
  ∃ ci ranges, ContiguousLinearisedIndices_new s ash = Ok ci ∧
    (∀ fuel, Zprod (shape s) < Z.of_nat fuel →
      iter_collect (ContiguousByteRanges_next element_size) fuel
        (ContiguousLinearisedIndices_into_iter ci) = Some (Ok ranges)) ∧
    (ranges ≫= λ r, seqZ (r_start r) (r_end r - r_start r)) =
    (lin_elements (start s) (shape s) ash ≫= λ i, seqZ (i * element_size) element_size) ∧
    Forall (λ r, 0 <= r_start r < r_end r ∧ r_end r <= Zprod ash * element_size) ranges.
Proof.
  destruct (ContiguousIndices_new_Ok s ash Hs Ha Hne) as (ci & Hci & Hr & Hin & Hpos & Hn & Hruns).
  set (c := contiguous_elements ci) in *. set (r := subset_contiguous_start ci) in *.
  destruct (iter_region r Hr) as [Hri Hre]. pose proof (length_region r Hr) as Hrl.
  pose proof Hs as [[Hsh Hwf] [Hnn Hp]]. pose proof (Zprod_nonneg _ (proj1 (proj2 Hr))) as Hrnn.
  assert (∀ ix, ix ∈ box (start r) (shape r) → 0 <= lin ix ash ∧ lin ix ash + c <= Zprod ash) as Hb.
  { intros ix Hix. assert (lin ix ash + c - 1 ∈ lin_elements (start s) (shape s) ash) as Hlast.
    { rewrite <-Hruns. apply list_elem_of_bind. exists (lin ix ash).
      split; [apply elem_of_seqZ; lia|]. apply list_elem_of_fmap. eauto. }
    unfold lin_elements in Hlast. apply list_elem_of_fmap in Hlast as (ix' & Hix' & Hel).
    pose proof (lin_bound ix' ash (box_index_in s ash ix' Hs Ha Hel)).
    pose proof (lin_bound ix ash (box_index_in r ash ix Hr Hin Hix)). lia. }
  assert (∀ ix, ix ∈ box (start r) (shape r) → byte_range_of element_size (lin ix ash, c) =
    mk_range (lin ix ash * element_size) ((lin ix ash + c) * element_size)) as Hbr.
  { intros ix Hix. destruct (Hb ix Hix). unfold byte_range_of.
    rewrite (wrap64_small (lin ix ash * _)) by (unfold is_u64; nia).
    rewrite (wrap64_small (c * _)) by (unfold is_u64; nia).
    rewrite wrap64_small by (unfold is_u64; nia). f_equal. lia. }
  exists (mk_contiguous_linearised ci ash),
    ((λ ix, byte_range_of element_size (lin ix ash, c)) <$> box (start r) (shape r)).
  split_and!.
  - unfold ContiguousLinearisedIndices_new. by rewrite Hci.
  - intros fuel Hf.
    rewrite (derived_iter_collect (ContiguousByteRanges_next element_size) (λ s, ci_inner (clii_inner s))
      (λ ix, byte_range_of element_size (lin ix ash, c)) (λ ix, index_in ix ash)
      (λ s, clii_array_shape s = ash ∧ ci_elements (clii_inner s) = c)).
    + simpl. fold r. by rewrite Hre.
    + intros s' _ Hnx. unfold ContiguousByteRanges_next, ContiguousLinearisedIndices_next, ContiguousIndices_next.
      rewrite Hnx. simpl. eauto.
    + intros s' ix it' [Hs1 Hs2] Hix Hnx.
      unfold ContiguousByteRanges_next, ContiguousLinearisedIndices_next, ContiguousIndices_next.
      rewrite Hnx, Hs1, Hs2. simpl. rewrite ravel_indices_lin by (done || nia). simpl. eauto.
    + done.
    + simpl. apply Hri.
    + simpl. fold r. rewrite Hre. intros ix Hix. by apply (box_index_in r).
    + simpl. fold r. rewrite Hre. nia.
  - rewrite <-Hruns. unfold lin_elements. rewrite !list_fmap_bind, list_bind_assoc.
    apply list_bind_ext_in. intros ix Hix. unfold compose; cbn beta. rewrite (Hbr ix Hix). simpl.
    rewrite <-Z.mul_sub_distr_r. replace (lin ix ash + c - lin ix ash) with c by lia.
    rewrite seqZ_mul_offset by lia. done.
  - apply Forall_fmap, Forall_forall. intros ix Hix. unfold compose; cbn beta. rewrite (Hbr ix Hix). simpl.
    destruct (Hb ix Hix). nia.
Qed.

(** The byte ranges of a region cover exactly the bytes of its elements, in
    order: concatenated, they are the [element_size] bytes of every element. *)
Theorem byte_ranges_cover (s : ArraySubset) (ash : list Z) (element_size : Z) (Hs : region_wf s)
    (Ha : in_array s ash) (Hne : is_empty s = false) (Hsize : 0 < element_size)
    (Hash : Zprod ash * element_size < u64_modulus) :
  ∃ ci ranges, ContiguousLinearisedIndices_new s ash = Ok ci ∧
    (∀ fuel, Zprod (shape s) < Z.of_nat fuel →
      iter_collect (ContiguousByteRanges_next element_size) fuel
        (ContiguousLinearisedIndices_into_iter ci) = Some (Ok ranges)) ∧
    (ranges ≫= λ r, seqZ (r_start r) (r_end r - r_start r)) =
    (lin_elements (start s) (shape s) ash ≫= λ i, seqZ (i * element_size) element_size) ∧
    Forall (λ r, 0 <= r_start r < r_end r ∧ r_end r <= Zprod ash * element_size) ranges.
Proof. by apply byte_ranges_collect. Qed.

Lemma byte_ranges_cover_witness :
  ∃ ranges, iter_collect (ContiguousByteRanges_next 4) 5
    (ContiguousLinearisedIndices_into_iter
       (mk_contiguous_linearised (mk_contiguous (mk_subset [1; 1] [2; 1]) 2) [4; 3])) = Some (Ok ranges) ∧
    ranges = [mk_range 16 24; mk_range 28 36].
Proof.
  destruct (byte_ranges_cover (mk_subset [1; 1] [2; 2]) [4; 3] 4) as (ci & ranges & Hci & Hf & _).
  - split; [split; [done|]|split; [repeat constructor; lia|reflexivity]].
    intros [|[|j]] Hj; unfold u64_modulus; simpl in *; lia.
  - split; [done|]. intros [|[|j]] Hj; simpl in *; lia.
  - reflexivity.
  - lia.
  - reflexivity.
  - vm_compute in Hci. injection Hci as <-. exists ranges. rewrite (Hf 5%nat eq_refl). split; [done|].
    specialize (Hf 5%nat eq_refl). vm_compute in Hf. by injection Hf as <-.
Defined.
