(* ===== verification/ChunkGrid.v ===== *)
(** Chunk grids: the trait [ChunkGridTraits] of [zarrs_chunk_grid/src/lib.rs].

    [ChunkGridTraits] is a class of operations; the methods a grid inherits from
    the trait are the [default_...] definitions, which the instances name, and the
    methods no grid overrides are defined over the class.  [LawfulChunkGrid] is
    the contract: along each dimension the grid is an [axis], a row of adjacent
    non-empty chunks that covers the array.  The theorems of this file hold for
    every lawful grid; the grids of [zarrs/src/array/chunk_grid] discharge the
    contract in files of their own. *)

From S2P Require Import Prelude ArraySubset Linear Iterators.

(** [IncompatibleDimensionalityError], [IncompatibleDimensionError] and the
    remaining creation errors. *)
Inductive GridError :=
| IncompatibleDimensionalityError (got expected : nat)
| IncompatibleDimensionError (got expected : nat)
| GridCreateOther.

Definition grid_result (A : Type) : Type := outcome GridError (option A).

Class ChunkGridTraits (G : Type) := {
  grid_dimensionality : G → nat;
  array_shape : G → list Z;
  grid_shape : G → list Z;
  chunk_edge_lengths : G → nat → outcome GridError (list Z);
  chunk_shape : G → list Z → grid_result (list Z);
  chunk_shape_u64 : G → list Z → grid_result (list Z);
  chunk_origin : G → list Z → grid_result (list Z);
  chunk_subset : G → list Z → grid_result ArraySubset;
  chunk_indices : G → list Z → grid_result (list Z);
  chunk_element_indices : G → list Z → grid_result (list Z);
  array_indices_inbounds : G → list Z → bool }.

(** The default [subset] and [array_indices_inbounds]. *)
Definition default_subset {G} (chunk_origin chunk_shape : G → list Z → grid_result (list Z))
    (self : G) (chunk_indices : list Z) : grid_result ArraySubset :=
  let? chunk_origin := chunk_origin self chunk_indices in
  let? chunk_shape := chunk_shape self chunk_indices in
  match chunk_origin, chunk_shape with
  | Some chunk_origin, Some chunk_shape =>
      Ok (Some (from_ranges (zip_with (fun o s => mk_range o (o +w s)) chunk_origin chunk_shape)))
  | _, _ => Ok None
  end.

Definition default_array_indices_inbounds (dimensionality : nat) (array_shape array_indices : list Z) : bool :=
  (length array_indices =? dimensionality)%nat &&
  zip_all (fun index shape => index <? shape) array_indices array_shape.

Section provided.
Context {G : Type} `{!ChunkGridTraits G}.

Definition chunks_subset (self : G) (chunks : ArraySubset) : grid_result ArraySubset :=
  if negb (dimensionality chunks =? grid_dimensionality self)%nat then
    Err (IncompatibleDimensionalityError (dimensionality chunks) (grid_dimensionality self))
  else match end_inc chunks with
  | Some end_ =>
      let? chunk0 := chunk_subset self (start chunks) in
      let? chunk1 := chunk_subset self end_ in
      match chunk0, chunk1 with
      | Some chunk0, Some chunk1 =>
          let ranges := zip_with (fun s e => mk_range s e) (start chunk0) (end_exc chunk1) in
          Ok (Some (new_with_ranges ranges))
      | _, _ => Ok None
      end
  | None => Ok (Some (new_empty (dimensionality chunks)))
  end.

Definition chunk_indices_inbounds (self : G) (chunk_indices : list Z) : bool :=
  (length chunk_indices =? grid_dimensionality self)%nat &&
  zip_all (fun index shape => index <? shape) chunk_indices (grid_shape self).

Definition chunks_in_array_subset (self : G) (region : ArraySubset) : grid_result ArraySubset :=
  match end_inc region with
  | Some end_ =>
      let? chunks_start := chunk_indices self (start region) in
      let? chunks_end := chunk_indices self end_ in
      match chunks_start, chunks_end with
      | Some chunks_start, Some chunks_end =>
          let ranges := zip_with (fun s e => mk_range s (e +w 1)) chunks_start chunks_end in
          Ok (Some (new_with_ranges ranges))
      | _, _ => Ok None
      end
  | None => Ok (Some (new_empty (grid_dimensionality self)))
  end.

Definition iter_chunk_indices (self : G) : Indices :=
  let shape := grid_shape self in
  let n_chunks := product64 shape in
  mk_indices (new_with_shape shape) (mk_range 0 n_chunks).

(** [next] of the iterator of [iter_chunk_indices_and_subsets]. *)
Definition chunk_indices_and_subsets_next (self : G) (it : Indices)
    : outcome GridError (option (list Z * ArraySubset) * Indices) :=
  let '(item, it) := Indices_next it in
  match item with
  | None => Ok (None, it)
  | Some chunk_indices =>
      match chunk_subset self chunk_indices with
      | Ok (Some chunk_subset) => Ok (Some (chunk_indices, chunk_subset), it)
      | _ => Panic
      end
  end.
End provided.

(** ** Axes *)

(** One dimension of a grid: the array size, the number of chunks, and the origin
    and size of each chunk. *)
Record axis := mk_axis { ax_len : Z; ax_n : Z; ax_origin : Z → Z; ax_size : Z → Z }.

#[export] Instance axis_inhabited : Inhabited axis := populate (mk_axis 0 0 id id).

(** The end of the last chunk. *)
Definition ax_end (a : axis) : Z :=
  if ax_n a =? 0 then 0 else ax_origin a (ax_n a - 1) + ax_size a (ax_n a - 1).

Record axis_ok (a : axis) : Prop := {
  ax_n_nonneg : 0 <= ax_n a < u64_modulus;
  ax_len_nonneg : 0 <= ax_len a;
  ax_origin_0 : 0 < ax_n a → ax_origin a 0 = 0;
  ax_size_pos c : 0 <= c < ax_n a → 0 < ax_size a c;
  ax_adjacent c : 0 <= c → c + 1 < ax_n a → ax_origin a (c + 1) = ax_origin a c + ax_size a c;
  ax_covers : ax_len a <= ax_end a;
  ax_fits : ax_end a < u64_modulus }.

(** Chunk [c] of the axis holds the element [i]. *)
Definition ax_holds (a : axis) (c i : Z) : Prop :=
  0 <= c < ax_n a ∧ ax_origin a c <= i < ax_origin a c + ax_size a c.

Lemma ax_monotone a c d : axis_ok a → 0 <= c → c < d → d < ax_n a →
  ax_origin a c + ax_size a c <= ax_origin a d.
Proof.
  intros Ha Hc Hcd. pattern d. apply Zlt_lower_bound_ind with (c + 1); [|lia]. clear d Hcd.
  intros d IH Hcd Hn. destruct (decide (d = c + 1)) as [->|].
  - rewrite (ax_adjacent a Ha) by lia. lia.
  - specialize (IH (d - 1) ltac:(lia) ltac:(lia)). pose proof (ax_adjacent a Ha (d - 1)) as Hadj.
    replace (d - 1 + 1) with d in Hadj by lia. pose proof (ax_size_pos a Ha (d - 1)). lia.
Qed.

Lemma ax_origin_nonneg a c : axis_ok a → 0 <= c < ax_n a → 0 <= ax_origin a c.
Proof.
  intros Ha Hc. destruct (decide (c = 0)) as [->|]; [rewrite (ax_origin_0 a Ha); lia|].
  pose proof (ax_monotone a 0 c Ha). pose proof (ax_size_pos a Ha 0). rewrite (ax_origin_0 a Ha) in *; lia.
Qed.

Lemma ax_end_bound a c : axis_ok a → 0 <= c < ax_n a → ax_origin a c + ax_size a c <= ax_end a.
Proof.
  intros Ha Hc. unfold ax_end. destruct (Z.eqb_spec (ax_n a) 0); [lia|].
  destruct (decide (c = ax_n a - 1)) as [->|]; [lia|].
  pose proof (ax_monotone a c (ax_n a - 1) Ha). pose proof (ax_size_pos a Ha (ax_n a - 1)). lia.
Qed.

Lemma ax_holds_unique a c d i : axis_ok a → ax_holds a c i → ax_holds a d i → c = d.
Proof.
  intros Ha [Hc Hci] [Hd Hdi]. destruct (Z.lt_trichotomy c d) as [H|[H|H]]; [|done|].
  - pose proof (ax_monotone a c d Ha). lia.
  - pose proof (ax_monotone a d c Ha). lia.
Qed.

(** Later elements are in later chunks. *)
Lemma ax_holds_mono a c d i j : axis_ok a → ax_holds a c i → ax_holds a d j → i <= j → c <= d.
Proof.
  intros Ha [Hc Hci] [Hd Hdj] Hij. destruct (Z.le_gt_cases c d) as [H|H]; [done|].
  pose proof (ax_monotone a d c Ha). lia.
Qed.

Lemma ax_between a b e i : axis_ok a → 0 <= b → b <= e → e < ax_n a →
  ax_origin a b <= i < ax_origin a e + ax_size a e → ∃ c, b <= c <= e ∧ ax_holds a c i.
Proof.
  intros Ha Hb Hbe. pattern e. apply Zlt_lower_bound_ind with b; [|lia]. clear e Hbe.
  intros e IH Hbe Hn Hi. destruct (Z.le_gt_cases (ax_origin a e) i) as [H|H].
  { exists e. split; [lia|split; lia]. }
  destruct (decide (e = b)) as [->|]; [lia|].
  destruct (IH (e - 1)) as (c & Hc & Hh); [lia..| |exists c; split; [lia|done]].
  pose proof (ax_adjacent a Ha (e - 1)) as Hadj. replace (e - 1 + 1) with e in Hadj by lia. lia.
Qed.

(** Every chunk between those of two elements holds an element between them. *)
Lemma ax_meets a b c d s e : axis_ok a → ax_holds a b s → ax_holds a d e → s <= e → b <= c <= d →
  ∃ i, ax_holds a c i ∧ s <= i <= e.
Proof.
  intros Ha [Hb Hbs] [Hd Hde] Hse Hc. exists (Z.max s (ax_origin a c)).
  pose proof (ax_size_pos a Ha c ltac:(lia)).
  assert (c = b ∨ ax_origin a b + ax_size a b <= ax_origin a c) as Hl.
  { destruct (decide (c = b)); [by left|right; apply ax_monotone; (done || lia)]. }
  assert (c = d ∨ ax_origin a c + ax_size a c <= ax_origin a d) as Hr.
  { destruct (decide (c = d)); [by left|right; apply ax_monotone; (done || lia)]. }
  unfold ax_holds. destruct Hl as [->|], Hr as [?|?]; subst; lia.
Qed.

Lemma ax_span a b c d i : axis_ok a → 0 <= b → b <= c <= d → d < ax_n a → ax_holds a c i →
  ax_origin a b <= i < ax_origin a d + ax_size a d.
Proof.
  intros Ha Hb Hc Hd [_ Hi]. pose proof (ax_size_pos a Ha b). pose proof (ax_size_pos a Ha d). split.
  - destruct (decide (b = c)) as [->|]; [lia|]. pose proof (ax_monotone a b c Ha). lia.
  - destruct (decide (c = d)) as [->|]; [lia|]. pose proof (ax_monotone a c d Ha). lia.
Qed.

(** ** The contract *)

(** The chunk indices of a grid over an array with elements. *)
Definition in_grid {G} `{!ChunkGridTraits G} (g : G) (c : list Z) : Prop :=
  index_in c (grid_shape g) ∧ contains_zero (array_shape g) = false.

(** The chunks along every axis. *)
Definition axes_origin (axes : list axis) (c : list Z) : list Z := zip_with ax_origin axes c.
Definition axes_size (axes : list axis) (c : list Z) : list Z := zip_with ax_size axes c.
Definition axes_hold (axes : list axis) (c i : list Z) : Prop :=
  length c = length axes ∧ length i = length axes ∧
  ∀ j, (j < length axes)%nat → ax_holds (axes !!! j) (c !!! j) (i !!! j).

(** [grid_wf] is the invariant of the grid's constructor; each law is one method
    of the trait. *)
Class LawfulChunkGrid (G : Type) `{!ChunkGridTraits G} := {
  grid_wf : G → Prop;
  grid_axes : G → list axis;
  grid_axes_ok g : grid_wf g → Forall axis_ok (grid_axes g);
  grid_dimensionality_law g : grid_wf g → grid_dimensionality g = length (grid_axes g);
  array_shape_law g : grid_wf g → array_shape g = ax_len <$> grid_axes g;
  grid_shape_law g : grid_wf g → grid_shape g = ax_n <$> grid_axes g;
  chunk_edge_lengths_law g j : grid_wf g → (j < length (grid_axes g))%nat →
    chunk_edge_lengths g j =
    Ok (if ax_len (grid_axes g !!! j) =? 0 then []
        else ax_size (grid_axes g !!! j) <$> seqZ 0 (ax_n (grid_axes g !!! j)));
  chunk_edge_lengths_error g j : grid_wf g → (length (grid_axes g) <= j)%nat →
    chunk_edge_lengths g j = Err (IncompatibleDimensionError j (grid_dimensionality g));
  chunk_shape_law g c : grid_wf g → in_grid g c →
    chunk_shape g c = Ok (Some (axes_size (grid_axes g) c));
  chunk_shape_u64_law g c : grid_wf g → in_grid g c →
    chunk_shape_u64 g c = Ok (Some (axes_size (grid_axes g) c));
  chunk_origin_law g c : grid_wf g → in_grid g c →
    chunk_origin g c = Ok (Some (axes_origin (grid_axes g) c));
  chunk_subset_law g c : grid_wf g → in_grid g c →
    chunk_subset g c = Ok (Some (mk_subset (axes_origin (grid_axes g) c) (axes_size (grid_axes g) c)));
  chunk_indices_law g i : grid_wf g → index_in i (array_shape g) →
    ∃ c, chunk_indices g i = Ok (Some c) ∧ axes_hold (grid_axes g) c i ∧
         chunk_element_indices g i = Ok (Some (zip_with Z.sub i (axes_origin (grid_axes g) c)));
  array_indices_inbounds_law g i : grid_wf g → Forall is_u64 i →
    array_indices_inbounds g i = true ↔ index_in i (array_shape g);
  grid_dimensionality_errors g ix : grid_wf g → length ix ≠ grid_dimensionality g →
    contains_zero (array_shape g) = false →
    let err := IncompatibleDimensionalityError (length ix) (grid_dimensionality g) in
    chunk_shape g ix = Err err ∧ chunk_origin g ix = Err err ∧ chunk_subset g ix = Err err ∧
    chunk_indices g ix = Err err ∧ chunk_element_indices g ix = Err err }.

(** The default bounds check decides membership in the array. *)
Lemma default_inbounds_index_in n ash i : length ash = n → Forall is_u64 i →
  default_array_indices_inbounds n ash i = true ↔ index_in i ash.
Proof.
  intros Hn Hi. unfold default_array_indices_inbounds, index_in.
  rewrite Forall2_total, andb_true_iff, Nat.eqb_eq.
  split; intros [Hl H]; (split; [lia|]).
  - rewrite zip_all_true in H by lia. intros j Hj. specialize (H j Hj). apply Z.ltb_lt in H.
    apply (proj1 (Forall_total _ _)) with (j:=j) in Hi; [|done]. unfold is_u64 in Hi. lia.
  - apply zip_all_true; [lia|]. intros j Hj. specialize (H j Hj). lia.
Qed.

(** ** Grids made dimension by dimension

    The axes of a grid whose dimensions have parameters [bs]: [mk] makes the axis
    of an array size and a parameter, [nf] counts its chunks and [ok] is the
    validity of the parameter. *)

Definition grid_dims_ok {B} `{!Inhabited B} (nf : Z → B → Z) (ok : Z → B → Prop)
    (ash gsh : list Z) (bs : list B) : Prop :=
  length ash = length bs ∧ gsh = zip_with nf ash bs ∧
  ∀ j, (j < length bs)%nat → ok (ash !!! j) (bs !!! j).

Section axes_of.
Context {B : Type} `{!Inhabited B} (mk : Z → B → axis) {nf : Z → B → Z} {ok : Z → B → Prop}.
Context (Hlen : ∀ len s, ax_len (mk len s) = len) (Hn : ∀ len s, ax_n (mk len s) = nf len s)
  (Hok : ∀ len s, ok len s → axis_ok (mk len s)).
Context (ash gsh : list Z) (bs : list B) (Hd : grid_dims_ok nf ok ash gsh bs).

#[local] Abbreviation axes := (zip_with mk ash bs).

Lemma length_axes_of : length axes = length bs.
Proof. destruct Hd as [Hl _]. rewrite length_zip_with. lia. Qed.

Lemma axes_of_total j : (j < length bs)%nat → axes !!! j = mk (ash !!! j) (bs !!! j).
Proof. destruct Hd as [Hl _]. intros Hj. by rewrite zip_with_total by lia. Qed.

Lemma axes_of_ok : Forall axis_ok axes.
Proof.
  apply Forall_total. rewrite length_axes_of. intros j Hj. rewrite axes_of_total by done.
  apply Hok. by apply Hd.
Qed.

Lemma axes_of_len : ash = ax_len <$> axes.
Proof.
  destruct Hd as [Hl _]. apply list_eq_total; [by rewrite length_fmap, length_axes_of|].
  intros j Hj. by rewrite fmap_total, axes_of_total, Hlen by (rewrite ?length_axes_of; lia).
Qed.

Lemma axes_of_n : gsh = ax_n <$> axes.
Proof.
  pose proof Hd as (Hl & Hg & _). rewrite Hg. apply list_eq_total; rewrite ?length_fmap, !length_zip_with; [lia|].
  intros j Hj. rewrite fmap_total by (rewrite length_axes_of; lia).
  rewrite axes_of_total, Hn by lia. rewrite zip_with_total by lia. done.
Qed.

Lemma in_grid_of c : index_in c gsh → contains_zero ash = false →
  length c = length bs ∧ ∀ j, (j < length bs)%nat →
    0 <= c !!! j < nf (ash !!! j) (bs !!! j) ∧ 0 < ash !!! j ∧ ok (ash !!! j) (bs !!! j).
Proof.
  intros [Hl Hc]%Forall2_total Hz. destruct Hd as (Hla & -> & Hdj). rewrite length_zip_with in *.
  split; [lia|]. intros j Hj. specialize (Hc j ltac:(lia)). rewrite zip_with_total in Hc by lia.
  split; [done|]. split; [|by apply Hdj].
  pose proof (proj1 (contains_zero_false _) Hz j ltac:(lia)).
  pose proof (ax_len_nonneg _ (Hok _ _ (Hdj j Hj))) as H0. rewrite Hlen in H0. lia.
Qed.

Lemma length_axes_origin_of c : length c = length bs → length (axes_origin axes c) = length bs.
Proof. intros Hl. unfold axes_origin. rewrite length_zip_with, length_axes_of. lia. Qed.

Lemma length_axes_size_of c : length c = length bs → length (axes_size axes c) = length bs.
Proof. intros Hl. unfold axes_size. rewrite length_zip_with, length_axes_of. lia. Qed.

Lemma axes_origin_of c j : length c = length bs → (j < length bs)%nat →
  axes_origin axes c !!! j = ax_origin (mk (ash !!! j) (bs !!! j)) (c !!! j).
Proof.
  intros Hl Hj. unfold axes_origin. rewrite zip_with_total by (rewrite ?length_axes_of; lia).
  by rewrite axes_of_total.
Qed.

Lemma axes_size_of c j : length c = length bs → (j < length bs)%nat →
  axes_size axes c !!! j = ax_size (mk (ash !!! j) (bs !!! j)) (c !!! j).
Proof.
  intros Hl Hj. unfold axes_size. rewrite zip_with_total by (rewrite ?length_axes_of; lia).
  by rewrite axes_of_total.
Qed.
(** A vector of chunk indices that hold an element dimension by dimension. *)
Lemma axes_hold_of_dims c i : length c = length bs → length i = length bs →
  (∀ j, (j < length bs)%nat → ax_holds (mk (ash !!! j) (bs !!! j)) (c !!! j) (i !!! j)) →
  axes_hold axes c i.
Proof.
  intros Hc Hi H. unfold axes_hold. rewrite length_axes_of. split_and!; [done..|].
  intros j Hj. rewrite axes_of_total by done. by apply H.
Qed.
End axes_of.

(** A vector of ranges that is the subset of a chunk. *)
Lemma from_ranges_eq rs st sh : length st = length rs → length sh = length rs →
  (∀ j, (j < length rs)%nat → r_start (rs !!! j) = st !!! j ∧
     saturating_sub (r_end (rs !!! j)) (r_start (rs !!! j)) = sh !!! j) →
  from_ranges rs = mk_subset st sh.
Proof.
  intros Hst Hsh H. unfold from_ranges. f_equal; apply list_eq_total; rewrite length_fmap; try lia;
    intros j Hj; rewrite fmap_total by done; by destruct (H j Hj).
Qed.

(** The default [subset] of a chunk. *)
Lemma default_subset_law {G} (og sg : G → list Z → grid_result (list Z)) (g : G) c o sz :
  og g c = Ok (Some o) → sg g c = Ok (Some sz) → length sz = length o →
  (∀ j, (j < length o)%nat → 0 <= sz !!! j ∧ is_u64 (o !!! j + sz !!! j)) →
  default_subset og sg g c = Ok (Some (mk_subset o sz)).
Proof.
  intros Ho Hs Hl Hb. unfold default_subset. rewrite Ho, Hs. simpl. do 2 f_equal.
  apply from_ranges_eq; rewrite length_zip_with; [lia..|]. intros j Hj. rewrite zip_with_total by lia.
  destruct (Hb j ltac:(lia)). simpl. rewrite wrap64_small by done. split; [done|]. unfold saturating_sub. lia.
Qed.

(** The position of an element in its chunk does not underflow. *)
Lemma element_indices_wrap axes c i : Forall axis_ok axes → axes_hold axes c i →
  zip_with (fun i s => i -w s) i (axes_origin axes c) = zip_with Z.sub i (axes_origin axes c).
Proof.
  intros Ha (Hl & Hi & Hh). unfold axes_origin. apply list_eq_total; rewrite !length_zip_with; [done|].
  intros j Hj. rewrite !zip_with_total by len. destruct (Hh j ltac:(lia)) as [Hc Hin].
  apply (proj1 (Forall_total _ _)) with (j:=j) in Ha; [|lia].
  pose proof (ax_origin_nonneg _ _ Ha Hc). pose proof (ax_covers _ Ha). pose proof (ax_fits _ Ha).
  pose proof (ax_end_bound _ _ Ha Hc). apply wrap64_small. unfold is_u64. lia.
Qed.

(** ** Every lawful grid *)

(** The last index of a non-empty region. *)
Definition last_of (r : ArraySubset) : list Z := zip_with (λ s l, s + l - 1) (start r) (shape r).

Section regions.
Implicit Types r : ArraySubset.

Lemma is_empty_false r : subset_wf r → is_empty r = false ↔
  ∀ j, (j < length (start r))%nat → 0 < shape r !!! j.
Proof.
  intros [Hl Hr]. unfold is_empty. rewrite existsb_total_false, Hl.
  split; intros Hne j Hj; specialize (Hne j Hj); specialize (Hr j Hj);
    [apply Z.eqb_neq in Hne; lia|apply Z.eqb_neq; lia].
Qed.

Lemma end_inc_last r : subset_wf r → is_empty r = false → end_inc r = Some (last_of r).
Proof.
  intros Hr Hne. pose proof (proj1 Hr) as Hl. pose proof (proj1 (is_empty_false r Hr) Hne) as Hp.
  unfold end_inc. assert (contains_zero (shape r) = false) as ->.
  { apply contains_zero_false. intros j Hj. specialize (Hp j ltac:(lia)). lia. }
  f_equal. unfold last_of. apply list_eq_total; rewrite !length_zip_with; [done|]. intros j Hj.
  rewrite !zip_with_total by lia. rewrite (subset_wf_wrap r) by (done || lia).
  specialize (Hp j ltac:(lia)). pose proof (proj2 Hr j ltac:(lia)).
  rewrite wrap64_small; [done|]. unfold is_u64. lia.
Qed.

Lemma length_last r : subset_wf r → length (last_of r) = length (start r).
Proof. intros [Hl _]. unfold last_of. rewrite length_zip_with. lia. Qed.

Lemma last_total r j : subset_wf r → (j < length (start r))%nat →
  last_of r !!! j = start r !!! j + shape r !!! j - 1.
Proof. intros [Hl _] Hj. unfold last_of. by rewrite zip_with_total by lia. Qed.

Lemma region_in_array r ash : subset_wf r → is_empty r = false → in_array r ash →
  index_in (start r) ash ∧ index_in (last_of r) ash.
Proof.
  intros Hr Hne [Hl Hin]. pose proof (proj1 (is_empty_false r Hr) Hne) as Hp.
  unfold index_in. rewrite !Forall2_total, (length_last r Hr).
  split; (split; [done|]); intros j Hj; rewrite ?last_total by done; specialize (Hp j Hj);
    specialize (Hin j ltac:(lia)); pose proof (proj2 Hr j Hj); lia.
Qed.

(** The subset of the indices between [a] and [b], inclusive. *)
Lemma inclusive_box a b (cs := new_with_ranges (zip_with (fun s e => mk_range s (e +w 1)) a b)) :
  length b = length a →
  (∀ j, (j < length a)%nat → 0 <= a !!! j <= b !!! j ∧ b !!! j + 1 < u64_modulus) →
  subset_wf cs ∧ is_empty cs = false ∧
  ∀ c, in_subset cs c ↔ length c = length a ∧ ∀ j, (j < length a)%nat → a !!! j <= c !!! j <= b !!! j.
Proof.
  intros Hl Hab.
  assert (cs = mk_subset a (zip_with (λ s e, e + 1 - s) a b)) as ->.
  { unfold cs, new_with_ranges. f_equal; apply list_eq_total; rewrite ?length_fmap, ?length_zip_with; try lia;
      intros j Hj; rewrite fmap_total, ?zip_with_total by len; simpl; [done|].
    specialize (Hab j ltac:(lia)). rewrite wrap64_small by (unfold is_u64; lia). unfold saturating_sub. lia. }
  assert (subset_wf (mk_subset a (zip_with (λ s e, e + 1 - s) a b))) as Hwf.
  { split; simpl; [rewrite length_zip_with; lia|]. intros j Hj. rewrite zip_with_total by lia.
    specialize (Hab j Hj). lia. }
  split_and!; [done| |].
  - apply is_empty_false; [done|]. simpl. intros j Hj. rewrite zip_with_total by lia.
    specialize (Hab j Hj). lia.
  - intros c. unfold in_subset. simpl. split; intros [Hc H]; (split; [done|]); intros j Hj;
      specialize (H j Hj); revert H; rewrite zip_with_total by lia; lia.
Qed.
End regions.

Lemma index_in_nonneg c sh : index_in c sh → Forall (λ z, 0 <= z) c.
Proof. induction 1; constructor; [lia|done]. Qed.

Section lawful.
Context {G : Type} `{LawfulChunkGrid G} (g : G) (Hg : grid_wf g).

#[local] Abbreviation axes := (grid_axes g).

Lemma axes_ok j : (j < length axes)%nat → axis_ok (axes !!! j).
Proof. apply (proj1 (Forall_total _ _)). by apply grid_axes_ok. Qed.

Lemma length_array_shape : length (array_shape g) = length axes.
Proof. by rewrite array_shape_law, length_fmap. Qed.

Lemma length_grid_shape : length (grid_shape g) = length axes.
Proof. by rewrite grid_shape_law, length_fmap. Qed.

Lemma index_in_array i : index_in i (array_shape g) ↔
  length i = length axes ∧ ∀ j, (j < length axes)%nat → 0 <= i !!! j < ax_len (axes !!! j).
Proof.
  unfold index_in. rewrite Forall2_total, array_shape_law, length_fmap by done.
  split; intros [Hl Hi]; (split; [done|]); intros j Hj; specialize (Hi j ltac:(lia)); revert Hi;
    rewrite fmap_total by lia; auto.
Qed.

Lemma index_in_grid c : index_in c (grid_shape g) ↔
  length c = length axes ∧ ∀ j, (j < length axes)%nat → 0 <= c !!! j < ax_n (axes !!! j).
Proof.
  unfold index_in. rewrite Forall2_total, grid_shape_law, length_fmap by done.
  split; intros [Hl Hi]; (split; [done|]); intros j Hj; specialize (Hi j ltac:(lia)); revert Hi;
    rewrite fmap_total by lia; auto.
Qed.

Lemma index_in_nonzero i sh : index_in i sh → contains_zero sh = false.
Proof.
  intros [Hl Hi]%Forall2_total. apply contains_zero_false. intros j Hj.
  specialize (Hi j ltac:(lia)). lia.
Qed.

(** The subset of a chunk. *)
Definition subset_of (c : list Z) : ArraySubset := mk_subset (axes_origin axes c) (axes_size axes c).

Lemma subset_of_wf c : index_in c (grid_shape g) → subset_wf (subset_of c).
Proof.
  intros [Hl Hc]%index_in_grid. unfold subset_of, axes_origin, axes_size. split; simpl.
  { by rewrite !length_zip_with. }
  rewrite length_zip_with, Hl, Nat.min_id. intros j Hj. rewrite !zip_with_total by lia.
  pose proof (axes_ok j Hj) as Ha. specialize (Hc j Hj).
  pose proof (ax_origin_nonneg _ _ Ha Hc). pose proof (ax_size_pos _ Ha _ Hc).
  pose proof (ax_end_bound _ _ Ha Hc). pose proof (ax_fits _ Ha). lia.
Qed.

Lemma in_subset_of c i : index_in c (grid_shape g) →
  in_subset (subset_of c) i ↔ axes_hold axes c i.
Proof.
  intros [Hl Hc]%index_in_grid. unfold in_subset, axes_hold, subset_of, axes_origin, axes_size. simpl.
  rewrite length_zip_with, Hl, Nat.min_id.
  split; [intros [Hi Hin]|intros (_ & Hi & Hin)]; split_and!; try done; intros j Hj; specialize (Hin j Hj);
    revert Hin; rewrite !zip_with_total by lia; [split; [by apply Hc|done]|by intros [_ ?]].
Qed.

Lemma axes_hold_grid c i : axes_hold axes c i → index_in c (grid_shape g).
Proof. intros (Hl & _ & Hh). apply index_in_grid. split; [done|]. intros j Hj. apply (Hh j Hj). Qed.

Lemma axes_hold_unique c d i : axes_hold axes c i → axes_hold axes d i → c = d.
Proof.
  intros (Hl & _ & Hc) (Hl' & _ & Hd). apply list_eq_total; [lia|]. intros j Hj.
  eapply (ax_holds_unique (axes !!! j)); [apply axes_ok; lia|apply Hc; lia|apply Hd; lia].
Qed.

Lemma subset_law c : in_grid g c → chunk_subset g c = Ok (Some (subset_of c)).
Proof. apply chunk_subset_law. done. Qed.

(** The chunk subsets lie inside the array's grid; those of a chunk that holds an
    element of the array exist. *)
Lemma locate i : index_in i (array_shape g) →
  ∃ c, chunk_indices g i = Ok (Some c) ∧ axes_hold axes c i ∧ in_grid g c ∧
       chunk_element_indices g i = Ok (Some (zip_with Z.sub i (axes_origin axes c))).
Proof.
  intros Hi. destruct (chunk_indices_law g i Hg Hi) as (c & Hc & Hh & He).
  exists c. split_and!; [done..| |done]. split; [by eapply axes_hold_grid|by eapply index_in_nonzero].
Qed.

Lemma inbounds_index_in c : Forall (λ z, 0 <= z) c →
  chunk_indices_inbounds g c = true ↔ index_in c (grid_shape g).
Proof.
  intros Hnn. unfold chunk_indices_inbounds, index_in.
  rewrite Forall2_total, andb_true_iff, Nat.eqb_eq, grid_dimensionality_law, length_grid_shape by done.
  split; intros [Hl Hc]; (split; [done|]).
  - rewrite zip_all_true in Hc by (rewrite length_grid_shape; lia). intros j Hj. specialize (Hc j Hj).
    apply Z.ltb_lt in Hc. apply (proj1 (Forall_total _ _)) with (j:=j) in Hnn; [lia|done].
  - apply zip_all_true; [rewrite length_grid_shape; lia|]. intros j Hj. specialize (Hc j Hj). lia.
Qed.

(** The ranges [chunks_subset] makes of the first and last chunk. *)
Definition corner_ranges (a b : list Z) : list range :=
  zip_with (fun s e => mk_range s e) (start (subset_of a)) (end_exc (subset_of b)).

Lemma length_corner_ranges a b : length a = length axes → index_in b (grid_shape g) →
  length (corner_ranges a b) = length axes.
Proof.
  intros Ha [Hb _]%index_in_grid. unfold corner_ranges, end_exc, subset_of, axes_origin, axes_size.
  simpl. rewrite !length_zip_with. lia.
Qed.

Lemma corner_ranges_total a b j : length a = length axes → index_in b (grid_shape g) →
  (j < length axes)%nat →
  corner_ranges a b !!! j =
    mk_range (ax_origin (axes !!! j) (a !!! j)) (ax_origin (axes !!! j) (b !!! j) + ax_size (axes !!! j) (b !!! j)).
Proof.
  intros Ha Hb Hj. pose proof (subset_of_wf b Hb) as Hw. apply index_in_grid in Hb as [Hl _].
  assert (length (start (subset_of b)) = length axes) as Hl1.
  { unfold subset_of, axes_origin. simpl. rewrite length_zip_with. lia. }
  unfold corner_ranges, end_exc. rewrite zip_with_total.
  - rewrite zip_with_total by (rewrite ?(proj1 Hw); lia). rewrite (subset_wf_wrap (subset_of b)) by (done || lia).
    unfold subset_of, axes_origin, axes_size. simpl. by rewrite !zip_with_total by lia.
  - unfold subset_of, axes_origin. simpl. rewrite length_zip_with. lia.
  - rewrite length_zip_with, (proj1 Hw). lia.
Qed.

(** The chunks between those of the corners of a region, and the region. *)
Lemma chunk_meets_region r a b c : subset_wf r → is_empty r = false →
  axes_hold axes a (start r) → axes_hold axes b (last_of r) →
  length c = length axes → (∀ j, (j < length axes)%nat → a !!! j <= c !!! j <= b !!! j) →
  ∃ i, axes_hold axes c i ∧ in_subset r i.
Proof.
  intros Hr Hne (Ha & Hl & Hha) (_ & _ & Hhb) Hc Hcj. pose proof (proj1 (is_empty_false r Hr) Hne) as Hp.
  destruct (choose_list (length axes) (λ j z, ax_holds (axes !!! j) (c !!! j) z ∧
    start r !!! j <= z <= last_of r !!! j)) as (i & Hi & Hij).
  { intros j Hj. apply (ax_meets _ (a !!! j) _ (b !!! j)); [by apply axes_ok|by apply Hha|by apply Hhb| |by apply Hcj].
    rewrite last_total by (done || lia). specialize (Hp j ltac:(lia)). lia. }
  exists i. split; [split_and!; try done; intros j Hj; apply Hij; done|].
  split; [lia|]. intros j Hj. destruct (Hij j ltac:(lia)) as [_ H1]. rewrite last_total in H1 by done. lia.
Qed.

Lemma axes_hold_between r a b c i : subset_wf r →
  axes_hold axes a (start r) → axes_hold axes b (last_of r) → axes_hold axes c i → in_subset r i →
  ∀ j, (j < length axes)%nat → a !!! j <= c !!! j <= b !!! j.
Proof.
  intros Hr (_ & Hl & Ha) (_ & _ & Hb) (_ & _ & Hc) [_ Hi] j Hj. pose proof (axes_ok j Hj) as Hok.
  specialize (Hi j ltac:(lia)). split.
  - eapply ax_holds_mono; [done|by apply Ha|by apply Hc|lia].
  - eapply ax_holds_mono; [done|by apply Hc|by apply Hb|]. rewrite last_total by (done || lia). lia.
Qed.

(** The chunks of the grid, as the iterator enumerates them. *)
Lemma grid_shape_nonneg : Forall (λ d, 0 <= d) (grid_shape g).
Proof.
  apply Forall_total. rewrite length_grid_shape. intros j Hj.
  rewrite grid_shape_law, fmap_total by done. pose proof (ax_n_nonneg _ (axes_ok j Hj)). lia.
Qed.

Lemma elem_of_grid_box c :
  c ∈ box (replicate (length (grid_shape g)) 0) (grid_shape g) ↔ index_in c (grid_shape g).
Proof.
  rewrite elem_of_box by (by rewrite length_replicate). unfold in_subset, index_in.
  rewrite Forall2_total. simpl. rewrite length_replicate.
  split; intros [Hl Hc]; (split; [done|]); intros j Hj; specialize (Hc j ltac:(lia)); revert Hc;
    rewrite lookup_total_replicate_2 by lia; lia.
Qed.

Lemma length_grid_box :
  zlen (box (replicate (length (grid_shape g)) 0) (grid_shape g)) = Zprod (grid_shape g).
Proof. apply length_box; [by rewrite length_replicate|apply grid_shape_nonneg]. Qed.

Lemma iter_chunk_indices_spec : Zprod (grid_shape g) < u64_modulus →
  indices_inv (iter_chunk_indices g) ∧
  elements (iter_chunk_indices g) = box (replicate (length (grid_shape g)) 0) (grid_shape g).
Proof.
  intros Hn. apply (Indices_new_spec (new_with_shape (grid_shape g))).
  split; [|split; [apply grid_shape_nonneg|done]]. split; simpl; rewrite length_replicate; [done|].
  intros j Hj. rewrite lookup_total_replicate_2 by done. rewrite length_grid_shape in Hj.
  rewrite grid_shape_law, fmap_total by done. pose proof (ax_n_nonneg _ (axes_ok j Hj)). lia.
Qed.
End lawful.

(** C35: the chunks of a lawful grid partition the array.  Every element of the
    array is held by the chunk [chunk_indices] names, which is a chunk of the grid
    whose subset contains the element at [chunk_element_indices] from its origin,
    and no other chunk of the grid contains it. *)
Theorem chunk_partition {G} `{LawfulChunkGrid G} (g : G) (Hg : grid_wf g) (i : list Z)
    (Hi : index_in i (array_shape g)) :
  ∃ c sub, chunk_indices g i = Ok (Some c) ∧ chunk_subset g c = Ok (Some sub) ∧
    chunk_indices_inbounds g c = true ∧ subset_wf sub ∧ in_subset sub i ∧
    chunk_origin g c = Ok (Some (start sub)) ∧ chunk_shape g c = Ok (Some (shape sub)) ∧
    chunk_element_indices g i = Ok (Some (zip_with Z.sub i (start sub))) ∧
    ∀ c' sub', chunk_indices_inbounds g c' = true → Forall (λ z, 0 <= z) c' →
      chunk_subset g c' = Ok (Some sub') → in_subset sub' i → c' = c.
Proof.
  destruct (locate g Hg i Hi) as (c & Hc & Hh & Hin & He).
  exists c, (subset_of g c). split_and!.
  - done.
  - by apply subset_law.
  - apply (inbounds_index_in g Hg); [by apply (index_in_nonneg c (grid_shape g)), Hin|apply Hin].
  - apply subset_of_wf; [done|apply Hin].
  - apply in_subset_of; [done|apply Hin|done].
  - by apply chunk_origin_law.
  - by apply chunk_shape_law.
  - done.
  - intros c' sub' Hc' Hnn Hs' Hi'. apply (inbounds_index_in g Hg) in Hc'; [|done].
    rewrite (subset_law g Hg c') in Hs' by (split; [done|by eapply index_in_nonzero]).
    injection Hs' as <-. apply in_subset_of in Hi'; [|done..]. by eapply axes_hold_unique.
Qed.

(** The chunks of a region. *)
Lemma chunks_of_region {G} `{LawfulChunkGrid G} (g : G) (Hg : grid_wf g)
    (region : ArraySubset) (Hr : subset_wf region) (Hne : is_empty region = false)
    (Hin : in_array region (array_shape g)) :
  ∃ chunks, chunks_in_array_subset g region = Ok (Some chunks) ∧ subset_wf chunks ∧
    is_empty chunks = false ∧
    ∀ c, in_subset chunks c ↔
      index_in c (grid_shape g) ∧
      ∃ sub i, chunk_subset g c = Ok (Some sub) ∧ in_subset sub i ∧ in_subset region i.
Proof.
  destruct (region_in_array _ _ Hr Hne Hin) as [Hs He].
  destruct (locate g Hg _ Hs) as (a & Ha & Hha & [Hag Hnz] & _).
  destruct (locate g Hg _ He) as (b & Hb & Hhb & _ & _).
  pose proof Hha as (Hla & Hls & Haj). pose proof Hhb as (Hlb & _ & Hbj).
  destruct (inclusive_box a b) as (Hwf & Hbne & Hbox); [lia| |].
  { intros j Hj. pose proof (is_empty_false region Hr) as [Hp _]. specialize (Hp Hne j ltac:(lia)).
    destruct (Haj j ltac:(lia)), (Hbj j ltac:(lia)). split; [split; [lia|]|].
    - eapply ax_holds_mono; [apply (axes_ok g Hg j); lia|apply Haj; lia|apply Hbj; lia|].
      rewrite last_total by (done || lia). lia.
    - pose proof (ax_n_nonneg _ (axes_ok g Hg j ltac:(lia))). lia. }
  exists (new_with_ranges (zip_with (fun s e => mk_range s (e +w 1)) a b)). split_and!; [|done..|].
  { unfold chunks_in_array_subset. by rewrite end_inc_last, Ha, Hb. }
  intros c. rewrite Hbox, Hla. split.
  - intros [Hl Hc]. destruct (chunk_meets_region g Hg region a b c) as (i & Hi & Hir); [done..|].
    pose proof (axes_hold_grid g Hg c i Hi) as Hcg. split; [done|].
    exists (subset_of g c), i. split_and!; [by apply subset_law|by apply in_subset_of|done].
  - intros (Hcg & sub & i & Hsub & Hi & Hir).
    rewrite subset_law in Hsub by done. injection Hsub as <-. apply in_subset_of in Hi; [|done..].
    split; [apply Hi|]. by apply (axes_hold_between g Hg region a b c i).
Qed.

(** C36: the chunks of a non-empty region inside the array are exactly the chunks
    of the grid that share an element with it. *)
Theorem chunks_in_array_subset_spec {G} `{LawfulChunkGrid G} (g : G) (Hg : grid_wf g)
    (region : ArraySubset) (Hr : subset_wf region) (Hne : is_empty region = false)
    (Hin : in_array region (array_shape g)) :
  ∃ chunks, chunks_in_array_subset g region = Ok (Some chunks) ∧ subset_wf chunks ∧
    is_empty chunks = false ∧
    ∀ c, in_subset chunks c ↔
      index_in c (grid_shape g) ∧
      ∃ sub i, chunk_subset g c = Ok (Some sub) ∧ in_subset sub i ∧ in_subset region i.
Proof. by apply chunks_of_region. Qed.

(** The subset of a non-empty box of chunks of the grid is exactly the union of
    the chunks' subsets; so the chunks of a region cover it. *)
Theorem chunks_subset_union {G} `{LawfulChunkGrid G} (g : G) (Hg : grid_wf g)
    (chunks : ArraySubset) (Hc : subset_wf chunks) (Hne : is_empty chunks = false)
    (Hin : in_array chunks (grid_shape g)) (Hnz : contains_zero (array_shape g) = false) :
  ∃ region, chunks_subset g chunks = Ok (Some region) ∧ subset_wf region ∧
    ∀ i, in_subset region i ↔
      ∃ c sub, in_subset chunks c ∧ chunk_subset g c = Ok (Some sub) ∧ in_subset sub i.
Proof.
  destruct (region_in_array _ _ Hc Hne Hin) as [Hs He].
  pose proof (proj1 (index_in_grid g Hg _) Hs) as [Hls Hsj].
  pose proof (proj1 (index_in_grid g Hg _) He) as [Hle Hej].
  pose proof (length_corner_ranges g Hg _ _ Hls He) as Hlr.
  pose proof (λ j, corner_ranges_total g Hg _ _ j Hls He) as Hrs.
  assert (∀ j, (j < length (grid_axes g))%nat → last_of chunks !!! j = start chunks !!! j + shape chunks !!! j - 1) as Hla.
  { intros j Hj. apply last_total; [done|lia]. }
  pose proof (proj1 (is_empty_false chunks Hc) Hne) as Hp.
  exists (from_ranges (corner_ranges g (start chunks) (last_of chunks))). split_and!.
  - unfold chunks_subset, dimensionality. rewrite (proj2 (Nat.eqb_eq _ _)) by (rewrite grid_dimensionality_law; done). simpl.
    rewrite end_inc_last by done. rewrite !(subset_law g Hg) by (split; done). done.
  - apply from_ranges_wf. intros j Hj. rewrite Hrs by lia. simpl.
    pose proof (axes_ok g Hg j ltac:(lia)) as Hok. specialize (Hsj j ltac:(lia)). specialize (Hej j ltac:(lia)).
    pose proof (ax_fits _ Hok). pose proof (ax_origin_nonneg _ _ Hok Hsj). pose proof (ax_origin_nonneg _ _ Hok Hej).
    pose proof (ax_end_bound _ _ Hok Hsj). pose proof (ax_size_pos _ Hok _ Hsj).
    pose proof (ax_end_bound _ _ Hok Hej). pose proof (ax_size_pos _ Hok _ Hej). lia.
  - intros i. rewrite in_from_ranges, Hlr. split.
    + intros [Hi Hij].
      destruct (choose_list (length (grid_axes g)) (λ j z, start chunks !!! j <= z <= last_of chunks !!! j ∧
        ax_holds (grid_axes g !!! j) z (i !!! j))) as (c & Hlc & Hcj).
      { intros j Hj. specialize (Hij j Hj). rewrite Hrs in Hij by done. specialize (Hp j ltac:(lia)).
        apply ax_between; [by apply axes_ok|apply Hsj; lia|rewrite Hla by done; lia|apply Hej; lia|done]. }
      assert (axes_hold (grid_axes g) c i) as Hh by (split_and!; try done; intros j Hj; by apply Hcj).
      pose proof (axes_hold_grid g Hg c i Hh) as Hcg.
      exists c, (subset_of g c). split_and!; [|by apply subset_law|by apply in_subset_of].
      split; [lia|]. intros j Hj. destruct (Hcj j ltac:(lia)) as [H1 _]. rewrite Hla in H1 by lia. lia.
    + intros (c & sub & [Hlc Hcj] & Hsub & Hi).
      assert (index_in c (grid_shape g)) as Hcg.
      { apply index_in_grid; [done|]. split; [lia|]. intros j Hj. specialize (Hcj j ltac:(lia)).
        specialize (Hsj j Hj). specialize (Hej j Hj). rewrite Hla in Hej by done. lia. }
      rewrite (subset_law g Hg) in Hsub by (split; done). injection Hsub as <-.
      apply in_subset_of in Hi; [|done..]. destruct Hi as (_ & Hli & Hi). split; [done|].
      intros j Hj. rewrite Hrs by done. cbn [r_start r_end]. specialize (Hcj j ltac:(lia)).
      apply (ax_span _ _ (c !!! j)); [by apply axes_ok|by apply Hsj|rewrite Hla by done; lia|by apply Hej|by apply Hi].
Qed.

(** The iterator over the chunks of a grid yields every chunk once, in C order,
    with its subset; it does not panic, and the subsets are pairwise disjoint and
    cover the array. *)
Theorem chunk_iteration_covers {G} `{LawfulChunkGrid G} (g : G) (Hg : grid_wf g)
    (Hnz : contains_zero (array_shape g) = false) (Hn : Zprod (grid_shape g) < u64_modulus) :
  ∃ items,
    (∀ fuel, Zprod (grid_shape g) < Z.of_nat fuel →
      iter_collect (chunk_indices_and_subsets_next g) fuel (iter_chunk_indices g) = Some (Ok items)) ∧
    items.*1 = box (replicate (length (grid_shape g)) 0) (grid_shape g) ∧
    (∀ k l a b i, items !! k = Some a → items !! l = Some b → in_subset a.2 i → in_subset b.2 i → k = l) ∧
    (∀ i, index_in i (array_shape g) → ∃ k a, items !! k = Some a ∧ in_subset a.2 i).
Proof.
  destruct (iter_chunk_indices_spec g Hg Hn) as [Hinv Hel].
  set (l := box _ _) in Hel.
  assert (∀ c, c ∈ l → index_in c (grid_shape g)) as Hlc by (intros c; by apply elem_of_grid_box).
  exists ((λ c, (c, subset_of g c)) <$> l). split_and!.
  - intros fuel Hf.
    rewrite (derived_iter_collect (chunk_indices_and_subsets_next g) id (λ c, (c, subset_of g c))
      (λ c, index_in c (grid_shape g)) (λ _, True)); simpl; [by rewrite Hel|..|done|done| |].
    + intros it _ Hnx. unfold chunk_indices_and_subsets_next. rewrite Hnx. eauto.
    + intros it c it' _ Hc Hnx. unfold chunk_indices_and_subsets_next. rewrite Hnx, (subset_law g Hg); [eauto|done].
    + rewrite Hel. done.
    + rewrite Hel. unfold l. pose proof (length_grid_box g Hg). lia.
  - rewrite <-list_fmap_compose. apply list_fmap_id.
  - intros k k' a b i Ha Hb Hia Hib. rewrite list_lookup_fmap in Ha, Hb.
    destruct (l !! k) as [c|] eqn:Hk, (l !! k') as [d|] eqn:Hk'; simpl in *; simplify_eq.
    apply in_subset_of in Hia, Hib; try done; try (apply Hlc; by eapply list_elem_of_lookup_2).
    pose proof (axes_hold_unique g Hg _ _ _ Hia Hib) as ->.
    eapply NoDup_lookup; [apply (NoDup_box (replicate (length (grid_shape g)) 0) (grid_shape g))|done|done].
  - intros i Hi. destruct (locate g Hg i Hi) as (c & _ & Hh & [Hc _] & _).
    apply (elem_of_grid_box g) in Hc as Hcl. apply list_elem_of_lookup in Hcl as [k Hk].
    exists k, (c, subset_of g c). rewrite list_lookup_fmap. fold l in Hk. rewrite Hk. split; [done|].
    by apply in_subset_of.
Qed.
