(* ===== verification/RegularGrid.v ===== *)
(** The [regular] and [regular_bounded] chunk grids:
    [zarrs/src/array/chunk_grid/regular.rs] and [regular_bounded.rs].

    Both are instances of [ChunkGridTraits] and lawful: all chunks have the
    configured shape, save that the bounded grid truncates the chunks at the edge
    of the array. *)

From S2P Require Import Prelude ArraySubset Linear Iterators ChunkGrid.

(** [NonZeroU64::new]. *)
Definition NonZeroU64_new (z : Z) : option Z := if z =? 0 then None else Some z.

(** ** [RegularChunkGrid] *)

Record RegularChunkGrid := mk_regular {
  rg_array_shape : list Z;
  rg_grid_shape : list Z;
  rg_chunk_shape : list Z }.

Definition RegularChunkGrid_new (array_shape chunk_shape : list Z) : outcome GridError RegularChunkGrid :=
  if negb (length array_shape =? length chunk_shape)%nat then
    Err (IncompatibleDimensionalityError (length chunk_shape) (length array_shape))
  else
    let grid_shape := zip_with (fun a s => div_ceil a s) array_shape chunk_shape in
    Ok (mk_regular array_shape grid_shape chunk_shape).

Section regular_methods.
Variable self : RegularChunkGrid.

Definition regular_dimensionality : nat := length (rg_chunk_shape self).

Definition regular_chunk_edge_lengths (dimension : nat) : outcome GridError (list Z) :=
  if (regular_dimensionality <=? dimension)%nat then
    Err (IncompatibleDimensionError dimension regular_dimensionality)
  else
    let? size := expect (rg_array_shape self !! dimension) in
    if size =? 0 then Ok []
    else
      let? edge_length := expect (rg_chunk_shape self !! dimension) in
      let? n := expect (rg_grid_shape self !! dimension) in
      Ok (replicate (Z.to_nat n) edge_length).

Definition regular_subset (chunk_indices : list Z) : grid_result ArraySubset :=
  if contains_zero (rg_array_shape self) then Ok None
  else if (length chunk_indices =? regular_dimensionality)%nat then
    let ranges := zip_with (fun i s =>
      let start := i *w s in mk_range start (start +w s)) chunk_indices (rg_chunk_shape self) in
    Ok (Some (from_ranges ranges))
  else Err (IncompatibleDimensionalityError (length chunk_indices) regular_dimensionality).

Definition regular_chunk_shape (chunk_indices : list Z) : grid_result (list Z) :=
  if (length chunk_indices =? regular_dimensionality)%nat then
    if contains_zero (rg_array_shape self) then Ok None
    else Ok (Some (rg_chunk_shape self))
  else Err (IncompatibleDimensionalityError (length chunk_indices) regular_dimensionality).

(** The inherent [chunk_shape_u64]: the chunk shape without its non-zero type. *)
Definition regular_shape_u64 : list Z := rg_chunk_shape self.

Definition regular_chunk_shape_u64 (chunk_indices : list Z) : grid_result (list Z) :=
  if (length chunk_indices =? regular_dimensionality)%nat then
    if contains_zero (rg_array_shape self) then Ok None
    else Ok (Some regular_shape_u64)
  else Err (IncompatibleDimensionalityError (length chunk_indices) regular_dimensionality).

Definition regular_chunk_origin (chunk_indices : list Z) : grid_result (list Z) :=
  if contains_zero (rg_array_shape self) then Ok None
  else if (length chunk_indices =? regular_dimensionality)%nat then
    Ok (Some (zip_with (fun i s => i *w s) chunk_indices (rg_chunk_shape self)))
  else Err (IncompatibleDimensionalityError (length chunk_indices) regular_dimensionality).

Definition regular_chunk_indices (array_indices : list Z) : grid_result (list Z) :=
  if contains_zero (rg_array_shape self) then Ok None
  else if (length array_indices =? regular_dimensionality)%nat then
    Ok (Some (zip_with (fun i s => i / s) array_indices (rg_chunk_shape self)))
  else Err (IncompatibleDimensionalityError (length array_indices) regular_dimensionality).

Definition regular_chunk_element_indices (array_indices : list Z) : grid_result (list Z) :=
  if (length array_indices =? regular_dimensionality)%nat then
    if contains_zero (rg_array_shape self) then Ok None
    else Ok (Some (zip_with (fun i s => i mod s) array_indices (rg_chunk_shape self)))
  else Err (IncompatibleDimensionalityError (length array_indices) regular_dimensionality).
End regular_methods.

#[export] Instance regular_grid : ChunkGridTraits RegularChunkGrid := {
  grid_dimensionality := regular_dimensionality;
  array_shape := rg_array_shape;
  grid_shape := rg_grid_shape;
  chunk_edge_lengths := regular_chunk_edge_lengths;
  chunk_shape := regular_chunk_shape;
  chunk_shape_u64 := regular_chunk_shape_u64;
  chunk_origin := regular_chunk_origin;
  chunk_subset := regular_subset;
  chunk_indices := regular_chunk_indices;
  chunk_element_indices := regular_chunk_element_indices;
  array_indices_inbounds g := default_array_indices_inbounds (regular_dimensionality g) (rg_array_shape g) }.

(** ** [RegularBoundedChunkGrid] *)

Record RegularBoundedChunkGrid := mk_bounded {
  rb_array_shape : list Z;
  rb_grid_shape : list Z;
  rb_chunk_shape : list Z }.

Definition RegularBoundedChunkGrid_new (array_shape chunk_shape : list Z)
    : outcome GridError RegularBoundedChunkGrid :=
  if negb (length array_shape =? length chunk_shape)%nat then
    Err (IncompatibleDimensionalityError (length chunk_shape) (length array_shape))
  else
    let grid_shape := zip_with (fun a s => div_ceil a s) array_shape chunk_shape in
    Ok (mk_bounded array_shape grid_shape chunk_shape).

Section bounded_methods.
Variable self : RegularBoundedChunkGrid.

Definition bounded_dimensionality : nat := length (rb_chunk_shape self).

Definition bounded_chunk_edge_lengths (dimension : nat) : outcome GridError (list Z) :=
  if (bounded_dimensionality <=? dimension)%nat then
    Err (IncompatibleDimensionError dimension bounded_dimensionality)
  else
    let? size := expect (rb_array_shape self !! dimension) in
    if size =? 0 then Ok []
    else
      let? chunk_size := expect (rb_chunk_shape self !! dimension) in
      let? n_chunks := expect (rb_grid_shape self !! dimension) in
      let result := replicate (Z.to_nat (n_chunks -w 1)) chunk_size in
      let last_edge := size -w (n_chunks -w 1) *w chunk_size in
      Ok (result ++ [last_edge]).

Definition bounded_chunk_shape (chunk_indices : list Z) : grid_result (list Z) :=
  if (length chunk_indices =? bounded_dimensionality)%nat then
    Ok (collect_opt (zip_with3 (fun chunk_shape array_shape chunk_indices =>
      let start := Z.min (chunk_indices *w chunk_shape) array_shape in
      let end_ := Z.min (start +w chunk_shape) array_shape in
      NonZeroU64_new (saturating_sub end_ start))
      (rb_chunk_shape self) (rb_array_shape self) chunk_indices))
  else Err (IncompatibleDimensionalityError (length chunk_indices) bounded_dimensionality).

Definition bounded_chunk_shape_u64 (chunk_indices : list Z) : grid_result (list Z) :=
  if (length chunk_indices =? bounded_dimensionality)%nat then
    Ok (collect_opt (zip_with3 (fun chunk_shape array_shape chunk_indices =>
      let start := Z.min (chunk_indices *w chunk_shape) array_shape in
      let end_ := Z.min (start +w chunk_shape) array_shape in
      if start <? end_ then Some (end_ -w start) else None)
      (rb_chunk_shape self) (rb_array_shape self) chunk_indices))
  else Err (IncompatibleDimensionalityError (length chunk_indices) bounded_dimensionality).

Definition bounded_chunk_origin (chunk_indices : list Z) : grid_result (list Z) :=
  if (length chunk_indices =? bounded_dimensionality)%nat then
    Ok (collect_opt (zip_with3 (fun chunk_index chunk_shape array_shape =>
      let start := chunk_index *w chunk_shape in
      if start <? array_shape then Some start else None)
      chunk_indices (rb_chunk_shape self) (rb_array_shape self)))
  else Err (IncompatibleDimensionalityError (length chunk_indices) bounded_dimensionality).

Definition bounded_chunk_indices (array_indices : list Z) : grid_result (list Z) :=
  if (length array_indices =? bounded_dimensionality)%nat then
    Ok (collect_opt (zip_with3 (fun array_index chunk_shape array_shape =>
      if array_index <? array_shape then Some (array_index / chunk_shape) else None)
      array_indices (rb_chunk_shape self) (rb_array_shape self)))
  else Err (IncompatibleDimensionalityError (length array_indices) bounded_dimensionality).

Definition bounded_chunk_element_indices (array_indices : list Z) : grid_result (list Z) :=
  if (length array_indices =? bounded_dimensionality)%nat then
    Ok (collect_opt (zip_with3 (fun array_index chunk_shape array_shape =>
      if array_index <? array_shape then Some (array_index mod chunk_shape) else None)
      array_indices (rb_chunk_shape self) (rb_array_shape self)))
  else Err (IncompatibleDimensionalityError (length array_indices) bounded_dimensionality).

Definition bounded_subset (chunk_indices : list Z) : grid_result ArraySubset :=
  if (length chunk_indices =? bounded_dimensionality)%nat then
    let ranges := collect_opt (zip_with3 (fun chunk_shape array_shape chunk_indices =>
      let start := Z.min (chunk_indices *w chunk_shape) array_shape in
      let end_ := Z.min (start +w chunk_shape) array_shape in
      if start <? end_ then Some (mk_range start end_) else None)
      (rb_chunk_shape self) (rb_array_shape self) chunk_indices) in
    match ranges with
    | Some ranges => Ok (Some (new_with_ranges ranges))
    | None => Ok None
    end
  else Err (IncompatibleDimensionalityError (length chunk_indices) bounded_dimensionality).
End bounded_methods.

#[export] Instance bounded_grid : ChunkGridTraits RegularBoundedChunkGrid := {
  grid_dimensionality := bounded_dimensionality;
  array_shape := rb_array_shape;
  grid_shape := rb_grid_shape;
  chunk_edge_lengths := bounded_chunk_edge_lengths;
  chunk_shape := bounded_chunk_shape;
  chunk_shape_u64 := bounded_chunk_shape_u64;
  chunk_origin := bounded_chunk_origin;
  chunk_subset := bounded_subset;
  chunk_indices := bounded_chunk_indices;
  chunk_element_indices := bounded_chunk_element_indices;
  array_indices_inbounds g := default_array_indices_inbounds (bounded_dimensionality g) (rb_array_shape g) }.

(** ** The contract *)

(** The array size and chunk size of a dimension: the last chunk ends in a [u64]. *)
Definition dim_ok (len s : Z) : Prop := 0 <= len ∧ 0 < s ∧ div_ceil len s * s < u64_modulus.

Definition regular_axis (len s : Z) : axis := mk_axis len (div_ceil len s) (λ c, c * s) (λ _, s).

(** The chunk of a bounded axis ends at the array. *)
Definition bounded_axis (len s : Z) : axis :=
  mk_axis len (div_ceil len s) (λ c, c * s) (λ c, Z.min s (len - c * s)).

Lemma div_ceil_bounds len s : dim_ok len s →
  0 <= div_ceil len s < u64_modulus ∧ len <= div_ceil len s * s ∧
  (0 < div_ceil len s → (div_ceil len s - 1) * s < len).
Proof.
  intros (Hl & Hs & Hf). pose proof (div_ceil_nonneg len s Hl Hs).
  destruct (div_ceil_spec len s Hl Hs) as [?|[-> ->]]; [|unfold u64_modulus; lia]. nia.
Qed.

Lemma regular_axis_ok len s : dim_ok len s → axis_ok (regular_axis len s).
Proof.
  intros Hd. destruct (div_ceil_bounds len s Hd) as (Hn & Hc & Hl). destruct Hd as (H0 & Hs & Hf).
  split; unfold ax_end; simpl; [lia|lia|lia|intros; nia|intros; nia|..];
    destruct (Z.eqb_spec (div_ceil len s) 0); unfold u64_modulus in *; nia.
Qed.

Lemma bounded_axis_ok len s : dim_ok len s → axis_ok (bounded_axis len s).
Proof.
  intros Hd. destruct (div_ceil_bounds len s Hd) as (Hn & Hc & Hl). destruct Hd as (H0 & Hs & Hf).
  split; unfold ax_end; simpl; [lia|lia|lia|intros; nia|intros; nia|..];
    destruct (Z.eqb_spec (div_ceil len s) 0); unfold u64_modulus in *; nia.
Qed.

(** The chunk and the position of an element. *)
Lemma dim_locate len s i : dim_ok len s → 0 <= i < len →
  0 <= i / s < div_ceil len s ∧ i / s * s <= i < i / s * s + s ∧ i mod s = i - i / s * s.
Proof.
  intros (H0 & Hs & Hf) Hi. pose proof (div_lt_div_ceil len i s Hi Hs).
  pose proof (Z.div_mod i s). pose proof (Z.mod_pos_bound i s Hs). lia.
Qed.

(** ** [RegularChunkGrid] is lawful *)

Definition regular_wf (g : RegularChunkGrid) : Prop :=
  grid_dims_ok div_ceil dim_ok (rg_array_shape g) (rg_grid_shape g) (rg_chunk_shape g).

Definition regular_axes (g : RegularChunkGrid) : list axis :=
  zip_with regular_axis (rg_array_shape g) (rg_chunk_shape g).

Section regular_laws.
Context (g : RegularChunkGrid) (Hg : regular_wf g).

#[local] Abbreviation axes := (regular_axes g).
#[local] Abbreviation csh := (rg_chunk_shape g).

Lemma regular_in_grid c : in_grid g c → contains_zero (rg_array_shape g) = false ∧
  length c = length csh ∧ ∀ j, (j < length csh)%nat →
    0 <= c !!! j ∧ 0 < csh !!! j ∧ (c !!! j + 1) * csh !!! j < u64_modulus.
Proof.
  intros [Hc Hz]. split; [done|]. destruct (in_grid_of regular_axis (λ _ _, eq_refl) regular_axis_ok _ _ _ Hg c Hc Hz) as [Hl Hj].
  split; [done|]. intros j Hlt. destruct (Hj j Hlt) as (Hcj & _ & (? & ? & ?)). nia.
Qed.

Lemma regular_chunk_origin_law c : in_grid g c → chunk_origin g c = Ok (Some (axes_origin axes c)).
Proof.
  intros (Hz & Hl & Hc)%regular_in_grid. simpl. unfold regular_chunk_origin, regular_dimensionality.
  rewrite Hz, (proj2 (Nat.eqb_eq _ _) Hl). do 2 f_equal.
  pose proof (length_axes_origin_of regular_axis _ _ _ Hg c Hl) as Hlo.
  apply list_eq_total; unfold regular_axes; rewrite length_zip_with; [lia|].
  intros j Hj. rewrite zip_with_total by lia. rewrite (axes_origin_of _ _ _ _ Hg) by lia. simpl.
  destruct (Hc j ltac:(lia)) as (? & ? & ?). rewrite wrap64_small; [done|]. unfold is_u64. nia.
Qed.

Lemma regular_chunk_shape_law c : in_grid g c →
  Ok (E:=GridError) (Some csh) = Ok (Some (axes_size axes c)).
Proof.
  intros (_ & Hl & _)%regular_in_grid. do 2 f_equal.
  pose proof (length_axes_size_of regular_axis _ _ _ Hg c Hl) as Hlo.
  apply list_eq_total; [done|]. intros j Hj. unfold regular_axes. by rewrite (axes_size_of _ _ _ _ Hg) by lia.
Qed.

Lemma regular_subset_law c : in_grid g c →
  chunk_subset g c = Ok (Some (mk_subset (axes_origin axes c) (axes_size axes c))).
Proof.
  intros (Hz & Hl & Hc)%regular_in_grid. simpl. unfold regular_subset, regular_dimensionality.
  rewrite Hz, (proj2 (Nat.eqb_eq _ _) Hl). do 2 f_equal.
  pose proof (length_axes_origin_of regular_axis _ _ _ Hg c Hl) as Hlo.
  pose proof (length_axes_size_of regular_axis _ _ _ Hg c Hl) as Hls.
  apply from_ranges_eq; rewrite length_zip_with; [unfold regular_axes; lia..|].
  intros j Hj. rewrite zip_with_total by lia. unfold regular_axes.
  rewrite (axes_origin_of _ _ _ _ Hg), (axes_size_of _ _ _ _ Hg) by lia. simpl.
  destruct (Hc j ltac:(lia)) as (? & ? & ?). rewrite !wrap64_small by (unfold is_u64; try rewrite wrap64_small; unfold is_u64; nia).
  split; [done|]. unfold saturating_sub. lia.
Qed.

Lemma regular_chunk_indices_law i : index_in i (array_shape g) →
  ∃ c, chunk_indices g i = Ok (Some c) ∧ axes_hold axes c i ∧
       chunk_element_indices g i = Ok (Some (zip_with Z.sub i (axes_origin axes c))).
Proof.
  intros Hi. pose proof (index_in_nonzero _ _ Hi) as Hz. simpl in Hi, Hz.
  apply Forall2_total in Hi as [Hl Hi]. pose proof Hg as (Hla & _ & Hd).
  assert (∀ j, (j < length csh)%nat → 0 <= i !!! j < rg_array_shape g !!! j) as Hij by (intros j Hj; apply Hi; lia).
  pose proof (λ j Hj, dim_locate _ _ _ (Hd j Hj) (Hij j Hj)) as Hloc.
  exists (zip_with (fun i s => i / s) i csh). simpl.
  unfold regular_chunk_indices, regular_chunk_element_indices, regular_dimensionality.
  rewrite Hz, (proj2 (Nat.eqb_eq (length i) _)) by lia.
  assert (length (zip_with (λ i s, i / s) i csh) = length csh) as Hlc by (rewrite length_zip_with; lia).
  split_and!; [done| |].
  - apply (axes_hold_of_dims regular_axis _ _ _ Hg); [done|lia|]. intros j Hj. rewrite zip_with_total by lia.
    destruct (Hloc j Hj) as (? & ? & ?). split; simpl; lia.
  - do 2 f_equal. pose proof (length_axes_origin_of regular_axis _ _ _ Hg _ Hlc) as Hlo.
    fold axes in Hlo. apply list_eq_total; rewrite !length_zip_with; [lia|].
    intros j Hj. rewrite !zip_with_total by lia. unfold regular_axes.
    rewrite (axes_origin_of _ _ _ _ Hg), zip_with_total by lia. by destruct (Hloc j ltac:(lia)) as (? & ? & ?).
Qed.

Lemma regular_edge_lengths_law j : (j < length axes)%nat →
  chunk_edge_lengths g j =
  Ok (if ax_len (axes !!! j) =? 0 then [] else ax_size (axes !!! j) <$> seqZ 0 (ax_n (axes !!! j))).
Proof.
  unfold regular_axes. rewrite (length_axes_of regular_axis _ _ _ Hg). intros Hj.
  pose proof Hg as (Hla & Hgs & Hd). simpl. unfold regular_chunk_edge_lengths, regular_dimensionality.
  rewrite (proj2 (Nat.leb_gt _ _)) by done. rewrite (axes_of_total _ _ _ _ Hg) by done. simpl.
  rewrite (list_lookup_lookup_total_lt (rg_array_shape g)) by lia. simpl.
  destruct (_ =? 0); [done|]. rewrite (list_lookup_lookup_total_lt csh) by done. simpl.
  rewrite Hgs, lookup_zip_with, !list_lookup_lookup_total_lt by lia. simpl. f_equal.
  apply replicate_fmap_seqZ.
Qed.
End regular_laws.

#[export] Instance regular_lawful : LawfulChunkGrid RegularChunkGrid.
Proof.
  refine {| grid_wf := regular_wf; grid_axes := regular_axes |}; intros g.
  - intros Hg. apply (axes_of_ok regular_axis regular_axis_ok _ _ _ Hg).
  - intros Hg. symmetry. apply (length_axes_of regular_axis _ _ _ Hg).
  - intros Hg. by apply (axes_of_len regular_axis (λ _ _, eq_refl) _ _ _ Hg).
  - intros Hg. by apply (axes_of_n regular_axis (λ _ _, eq_refl) _ _ _ Hg).
  - intros j Hg. by apply regular_edge_lengths_law.
  - intros j Hg Hj. simpl. unfold regular_axes in Hj. rewrite (length_axes_of regular_axis _ _ _ Hg) in Hj.
    unfold regular_chunk_edge_lengths, regular_dimensionality. by rewrite (proj2 (Nat.leb_le _ _)).
  - intros c Hg Hc. rewrite <-regular_chunk_shape_law by done. destruct (regular_in_grid g Hg c Hc) as (Hz & Hl & _).
    simpl. unfold regular_chunk_shape, regular_dimensionality. by rewrite Hz, (proj2 (Nat.eqb_eq _ _) Hl).
  - intros c Hg Hc. rewrite <-regular_chunk_shape_law by done. destruct (regular_in_grid g Hg c Hc) as (Hz & Hl & _).
    simpl. unfold regular_chunk_shape_u64, regular_dimensionality. by rewrite Hz, (proj2 (Nat.eqb_eq _ _) Hl).
  - intros c Hg. by apply regular_chunk_origin_law.
  - intros c Hg. by apply regular_subset_law.
  - intros i Hg. by apply regular_chunk_indices_law.
  - intros i Hg Hi. apply default_inbounds_index_in; [apply Hg|done].
  - intros ix Hg Hl Hz. simpl in *.
    unfold regular_chunk_shape, regular_chunk_origin, regular_subset, regular_chunk_indices, regular_chunk_element_indices.
    by rewrite Hz, (proj2 (Nat.eqb_neq _ _) Hl).
Defined.

(** ** [RegularBoundedChunkGrid] is lawful *)

Definition bounded_wf (g : RegularBoundedChunkGrid) : Prop :=
  grid_dims_ok div_ceil dim_ok (rb_array_shape g) (rb_grid_shape g) (rb_chunk_shape g).

Definition bounded_axes (g : RegularBoundedChunkGrid) : list axis :=
  zip_with bounded_axis (rb_array_shape g) (rb_chunk_shape g).

Section bounded_laws.
Context (g : RegularBoundedChunkGrid) (Hg : bounded_wf g).

#[local] Abbreviation axes := (bounded_axes g).
#[local] Abbreviation csh := (rb_chunk_shape g).
#[local] Abbreviation ash := (rb_array_shape g).

Lemma bounded_in_grid c : in_grid g c → length c = length csh ∧ ∀ j, (j < length csh)%nat →
  let start := Z.min (c !!! j *w csh !!! j) (ash !!! j) in
  c !!! j *w csh !!! j = c !!! j * csh !!! j ∧ c !!! j * csh !!! j < ash !!! j ∧
  start = c !!! j * csh !!! j ∧
  Z.min (start +w csh !!! j) (ash !!! j) = start + Z.min (csh !!! j) (ash !!! j - c !!! j * csh !!! j) ∧
  is_u64 (Z.min (csh !!! j) (ash !!! j - c !!! j * csh !!! j)) ∧
  0 < Z.min (csh !!! j) (ash !!! j - c !!! j * csh !!! j).
Proof.
  intros [Hc Hz]. destruct (in_grid_of bounded_axis (λ _ _, eq_refl) bounded_axis_ok _ _ _ Hg c Hc Hz) as [Hl Hj].
  split; [done|]. intros j Hlt. cbv zeta. destruct (Hj j Hlt) as (Hcj & Hpos & Hd).
  destruct (div_ceil_bounds _ _ Hd) as (_ & _ & Hlast). destruct Hd as (H0 & Hs & Hf).
  assert (c !!! j * csh !!! j < ash !!! j) by nia.
  rewrite (wrap64_small (c !!! j * csh !!! j)) by (unfold is_u64; nia).
  rewrite Z.min_l by lia. rewrite wrap64_small by (unfold is_u64; nia).
  unfold is_u64. split_and!; nia.
Qed.

Lemma bounded_chunk_origin_law c : in_grid g c → chunk_origin g c = Ok (Some (axes_origin axes c)).
Proof.
  intros (Hl & Hc)%bounded_in_grid. simpl. unfold bounded_chunk_origin, bounded_dimensionality.
  rewrite (proj2 (Nat.eqb_eq _ _) Hl). f_equal.
  pose proof (length_axes_origin_of bounded_axis _ _ _ Hg c Hl) as Hlo. pose proof (proj1 Hg) as Hla.
  apply collect_opt_Some. unfold bounded_axes. rewrite length_zip_with3 by lia. split; [lia|].
  intros j Hj. rewrite zip_with3_total, (axes_origin_of _ _ _ _ Hg) by lia. simpl.
  destruct (Hc j ltac:(lia)) as (-> & ? & _). by rewrite (proj2 (Z.ltb_lt _ _)).
Qed.

Lemma bounded_chunk_shape_law c : in_grid g c →
  chunk_shape g c = Ok (Some (axes_size axes c)) ∧ chunk_shape_u64 g c = Ok (Some (axes_size axes c)).
Proof.
  intros (Hl & Hc)%bounded_in_grid. simpl.
  unfold bounded_chunk_shape, bounded_chunk_shape_u64, bounded_dimensionality.
  rewrite (proj2 (Nat.eqb_eq _ _) Hl).
  pose proof (length_axes_size_of bounded_axis _ _ _ Hg c Hl) as Hls. pose proof (proj1 Hg) as Hla.
  unfold bounded_axes. split; f_equal; apply collect_opt_Some; rewrite length_zip_with3 by lia;
    (split; [lia|]); intros j Hj; rewrite zip_with3_total, (axes_size_of _ _ _ _ Hg) by lia; simpl;
    destruct (Hc j ltac:(lia)) as (? & ? & -> & -> & Hu & Hp).
  - unfold saturating_sub, NonZeroU64_new. rewrite Z.max_r by lia.
    replace (_ + _ - _) with (Z.min (csh !!! j) (ash !!! j - c !!! j * csh !!! j)) by lia.
    by rewrite (proj2 (Z.eqb_neq _ _)) by lia.
  - rewrite (proj2 (Z.ltb_lt _ _)) by lia.
    replace (_ + _ - _) with (Z.min (csh !!! j) (ash !!! j - c !!! j * csh !!! j)) by lia.
    by rewrite wrap64_small.
Qed.

Lemma bounded_subset_law c : in_grid g c →
  chunk_subset g c = Ok (Some (mk_subset (axes_origin axes c) (axes_size axes c))).
Proof.
  intros (Hl & Hc)%bounded_in_grid. simpl. unfold bounded_subset, bounded_dimensionality.
  rewrite (proj2 (Nat.eqb_eq _ _) Hl).
  pose proof (length_axes_origin_of bounded_axis _ _ _ Hg c Hl) as Hlo.
  pose proof (length_axes_size_of bounded_axis _ _ _ Hg c Hl) as Hls. pose proof (proj1 Hg) as Hla.
  fold axes in Hlo, Hls.
  set (rs := zip_with (λ o s, mk_range o (o + s)) (axes_origin axes c) (axes_size axes c)).
  assert (length rs = length csh) as Hlr by (unfold rs; rewrite length_zip_with; lia).
  rewrite (proj2 (collect_opt_Some _ rs)).
  - do 2 f_equal. apply from_ranges_eq; [lia..|]. intros j Hj. unfold rs.
    rewrite zip_with_total by lia. simpl. split; [done|]. unfold saturating_sub, bounded_axes.
    rewrite (axes_origin_of _ _ _ _ Hg), (axes_size_of _ _ _ _ Hg) by lia. simpl.
    destruct (Hc j ltac:(lia)) as (_ & _ & _ & _ & _ & ?). lia.
  - rewrite length_zip_with3 by lia. split; [lia|]. intros j Hj. unfold rs, bounded_axes.
    rewrite zip_with3_total by lia. rewrite zip_with_total by (unfold bounded_axes in *; lia).
    rewrite (axes_origin_of _ _ _ _ Hg), (axes_size_of _ _ _ _ Hg) by lia. simpl.
    destruct (Hc j ltac:(lia)) as (? & ? & -> & -> & Hu & Hp). by rewrite (proj2 (Z.ltb_lt _ _)) by lia.
Qed.

Lemma bounded_chunk_indices_law i : index_in i (array_shape g) →
  ∃ c, chunk_indices g i = Ok (Some c) ∧ axes_hold axes c i ∧
       chunk_element_indices g i = Ok (Some (zip_with Z.sub i (axes_origin axes c))).
Proof.
  intros [Hl Hi]%Forall2_total. simpl in Hl, Hi. pose proof Hg as (Hla & _ & Hd).
  assert (∀ j, (j < length csh)%nat → 0 <= i !!! j < ash !!! j) as Hij by (intros j Hj; apply Hi; lia).
  pose proof (λ j Hj, dim_locate _ _ _ (Hd j Hj) (Hij j Hj)) as Hloc.
  exists (zip_with (fun i s => i / s) i csh). simpl.
  unfold bounded_chunk_indices, bounded_chunk_element_indices, bounded_dimensionality.
  rewrite (proj2 (Nat.eqb_eq (length i) _)) by lia.
  assert (length (zip_with (λ i s, i / s) i csh) = length csh) as Hlc by (rewrite length_zip_with; lia).
  pose proof (length_axes_origin_of bounded_axis _ _ _ Hg _ Hlc) as Hlo. fold axes in Hlo.
  split_and!.
  - f_equal. apply collect_opt_Some. rewrite length_zip_with3 by lia. split; [lia|]. intros j Hj.
    rewrite zip_with3_total, zip_with_total by lia. by rewrite (proj2 (Z.ltb_lt _ _)) by (apply Hij; lia).
  - apply (axes_hold_of_dims bounded_axis _ _ _ Hg); [done|lia|]. intros j Hj. rewrite zip_with_total by lia.
    destruct (Hloc j Hj) as (? & ? & ?). specialize (Hij j Hj). split; simpl; lia.
  - f_equal. apply collect_opt_Some. rewrite length_zip_with3, length_zip_with by lia. split; [lia|].
    intros j Hj. rewrite zip_with3_total, zip_with_total by lia. unfold bounded_axes.
    rewrite (axes_origin_of _ _ _ _ Hg), zip_with_total by lia.
    rewrite (proj2 (Z.ltb_lt _ _)) by (apply Hij; lia). f_equal. by destruct (Hloc j ltac:(lia)) as (? & ? & ?).
Qed.

Lemma bounded_edge_lengths_law j : (j < length axes)%nat →
  chunk_edge_lengths g j =
  Ok (if ax_len (axes !!! j) =? 0 then [] else ax_size (axes !!! j) <$> seqZ 0 (ax_n (axes !!! j))).
Proof.
  unfold bounded_axes. rewrite (length_axes_of bounded_axis _ _ _ Hg). intros Hj.
  pose proof Hg as (Hla & Hgs & Hd). simpl. unfold bounded_chunk_edge_lengths, bounded_dimensionality.
  rewrite (proj2 (Nat.leb_gt _ _)) by done. rewrite (axes_of_total _ _ _ _ Hg) by done. simpl.
  rewrite (list_lookup_lookup_total_lt ash) by lia. simpl.
  destruct (Z.eqb_spec (ash !!! j) 0) as [|Hnz]; [done|]. rewrite (list_lookup_lookup_total_lt csh) by done. simpl.
  rewrite Hgs, lookup_zip_with, !list_lookup_lookup_total_lt by lia. simpl. f_equal.
  specialize (Hd j Hj). destruct (div_ceil_bounds _ _ Hd) as (Hn & Hcov & Hlast). destruct Hd as (H0 & Hs & Hf).
  set (n := div_ceil _ _) in *. set (s := csh !!! j) in *. set (len := ash !!! j) in *.
  assert (0 < n) as Hn0 by nia. specialize (Hlast Hn0).
  rewrite (wrap64_small (n - 1)), (wrap64_small ((n - 1) * s)), wrap64_small by (unfold is_u64 in *; nia).
  replace n with (Z.of_nat (S (Z.to_nat (n - 1)))) at 3 by lia. rewrite seqZ_S, fmap_app. f_equal.
  - rewrite Z2Nat.id, (replicate_fmap_seqZ s 0) by lia. apply list_fmap_ext_in.
    intros c Hc%elem_of_seqZ. nia.
  - simpl. rewrite Z2Nat.id by lia. f_equal. nia.
Qed.
End bounded_laws.

#[export] Instance bounded_lawful : LawfulChunkGrid RegularBoundedChunkGrid.
Proof.
  refine {| grid_wf := bounded_wf; grid_axes := bounded_axes |}; intros g.
  - intros Hg. apply (axes_of_ok bounded_axis bounded_axis_ok _ _ _ Hg).
  - intros Hg. symmetry. apply (length_axes_of bounded_axis _ _ _ Hg).
  - intros Hg. by apply (axes_of_len bounded_axis (λ _ _, eq_refl) _ _ _ Hg).
  - intros Hg. by apply (axes_of_n bounded_axis (λ _ _, eq_refl) _ _ _ Hg).
  - intros j Hg. by apply bounded_edge_lengths_law.
  - intros j Hg Hj. simpl. unfold bounded_axes in Hj. rewrite (length_axes_of bounded_axis _ _ _ Hg) in Hj.
    unfold bounded_chunk_edge_lengths, bounded_dimensionality. by rewrite (proj2 (Nat.leb_le _ _)).
  - intros c Hg Hc. by apply bounded_chunk_shape_law.
  - intros c Hg Hc. by apply bounded_chunk_shape_law.
  - intros c Hg. by apply bounded_chunk_origin_law.
  - intros c Hg. by apply bounded_subset_law.
  - intros i Hg. by apply bounded_chunk_indices_law.
  - intros i Hg Hi. apply default_inbounds_index_in; [apply Hg|done].
  - intros ix Hg Hl Hz. simpl in *.
    unfold bounded_chunk_shape, bounded_chunk_origin, bounded_subset, bounded_chunk_indices, bounded_chunk_element_indices.
    by rewrite (proj2 (Nat.eqb_neq _ _) Hl).
Defined.

(** ** Properties *)

Lemma axes_hold_of mk1 mk2 ash gsh csh c i : grid_dims_ok div_ceil dim_ok ash gsh csh →
  (∀ len s c i, dim_ok len s → 0 <= i < len → ax_holds (mk1 len s) c i → ax_holds (mk2 len s) c i) →
  index_in i ash →
  axes_hold (zip_with mk1 ash csh) c i → axes_hold (zip_with mk2 ash csh) c i.
Proof.
  intros Hd H [_ Hi]%Forall2_total (Hl & Hli & Hh).
  rewrite (length_axes_of mk1 _ _ _ Hd) in *. unfold axes_hold. rewrite (length_axes_of mk2 _ _ _ Hd).
  split_and!; [done..|]. intros j Hj. rewrite (axes_of_total mk2 _ _ _ Hd) by done.
  apply H; [by apply Hd|apply Hi; lia|]. specialize (Hh j Hj). by rewrite (axes_of_total mk1 _ _ _ Hd) in Hh.
Qed.

Lemma regular_bounded_holds len s c i : 0 <= i < len →
  ax_holds (regular_axis len s) c i ↔ ax_holds (bounded_axis len s) c i.
Proof. unfold ax_holds. simpl. lia. Qed.

(** Built from one array shape and chunk shape, the regular and the bounded
    grid have the same chunks, put every element of the array in the same chunk at
    the same position, and the subset of a bounded chunk is the part of the regular
    chunk inside the array.  Both constructors refuse exactly the shapes of
    different dimensionality. *)
Theorem bounded_grid_truncates_regular (ash csh : list Z) :
  (length ash ≠ length csh →
     RegularChunkGrid_new ash csh = Err (IncompatibleDimensionalityError (length csh) (length ash)) ∧
     RegularBoundedChunkGrid_new ash csh = Err (IncompatibleDimensionalityError (length csh) (length ash))) ∧
  (length ash = length csh → (∀ j, (j < length csh)%nat → dim_ok (ash !!! j) (csh !!! j)) →
   ∃ r b, RegularChunkGrid_new ash csh = Ok r ∧ RegularBoundedChunkGrid_new ash csh = Ok b ∧
     grid_wf r ∧ grid_wf b ∧ array_shape r = ash ∧ array_shape b = ash ∧ grid_shape r = grid_shape b ∧
     (∀ i, index_in i ash → chunk_indices r i = chunk_indices b i ∧
        chunk_element_indices r i = chunk_element_indices b i) ∧
     (∀ c, in_grid r c → ∃ sr sb, chunk_subset r c = Ok (Some sr) ∧ chunk_subset b c = Ok (Some sb) ∧
        ∀ i, in_subset sb i ↔ in_subset sr i ∧ index_in i ash)).
Proof.
  unfold RegularChunkGrid_new, RegularBoundedChunkGrid_new. split.
  { intros Hl. by rewrite (proj2 (Nat.eqb_neq _ _) Hl). }
  intros Hl Hd. rewrite (proj2 (Nat.eqb_eq _ _) Hl). simpl.
  set (gsh := zip_with _ _ _). set (r := mk_regular ash gsh csh). set (b := mk_bounded ash gsh csh).
  assert (grid_dims_ok div_ceil dim_ok ash gsh csh) as Hok by done.
  assert (grid_wf r) as Hr by exact Hok. assert (grid_wf b) as Hb by exact Hok.
  exists r, b. split_and!; try done.
  - intros i Hi. destruct (regular_chunk_indices_law r Hok i Hi) as (c & Hc & Hh & He).
    destruct (bounded_chunk_indices_law b Hok i Hi) as (d & Hd' & Hh' & He').
    assert (c = d) as <-.
    { eapply (axes_hold_unique r Hr); [exact Hh|]. eapply axes_hold_of; [done| |done|exact Hh'].
      intros. by apply regular_bounded_holds. }
    simpl in Hc, Hd', He, He'. split; [by rewrite Hc, Hd'|]. rewrite He, He'. do 3 f_equal.
    destruct Hh as (Hlc & _). unfold regular_axes in Hlc. rewrite (length_axes_of _ _ _ _ Hok) in Hlc.
    pose proof (length_axes_origin_of regular_axis _ _ _ Hok c Hlc).
    pose proof (length_axes_origin_of bounded_axis _ _ _ Hok c Hlc).
    unfold regular_axes, bounded_axes. apply list_eq_total; simpl in *; [lia|].
    intros j Hj. by rewrite !(axes_origin_of _ _ _ _ Hok) by lia.
  - intros c Hc. exists (subset_of r c), (subset_of b c). split_and!; [by apply (subset_law r Hr)|by apply (subset_law b Hb)|].
    intros i. rewrite (in_subset_of r Hr), (in_subset_of b Hb) by apply Hc. split.
    + intros Hh. assert (index_in i ash) as Hi.
      { destruct Hh as (_ & Hli & Hh). simpl in Hli, Hh. unfold bounded_axes in Hli, Hh. simpl in Hli, Hh.
        rewrite (length_axes_of bounded_axis _ _ _ Hok) in *. apply Forall2_total. split; [lia|].
        intros j Hj. destruct (Hh j ltac:(lia)) as [? Hij]. rewrite (axes_of_total bounded_axis _ _ _ Hok) in * by lia.
        simpl in *. specialize (Hd j ltac:(lia)) as (? & ? & ?). nia. }
      split; [|done]. eapply axes_hold_of; [done| |done|exact Hh]. intros. by apply regular_bounded_holds.
    + intros [Hh Hi]. eapply axes_hold_of; [done| |done|exact Hh]. intros. by apply regular_bounded_holds.
Qed.

(** A small grid, for the witnesses. *)
Definition example_grid : RegularChunkGrid := mk_regular [5; 4] [3; 2] [2; 3].

Lemma example_grid_wf : grid_wf example_grid.
Proof.
  split; [done|split; [reflexivity|]]. intros [|[|j]] Hj; simpl in *; [..|lia];
    split_and!; try lia; reflexivity.
Qed.

Lemma chunk_partition_witness :
  chunk_indices example_grid [4; 3] = Ok (Some [2; 1]) ∧
  ∃ sub, chunk_subset example_grid [2; 1] = Ok (Some sub) ∧ in_subset sub [4; 3].
Proof.
  split; [reflexivity|].
  destruct (chunk_partition example_grid example_grid_wf [4; 3]) as (c & sub & Hc & Hs & _ & _ & Hi & _).
  - repeat constructor; lia.
  - vm_compute in Hc. injection Hc as <-. by exists sub.
Defined.

Lemma chunks_in_array_subset_spec_witness :
  chunks_in_array_subset example_grid (mk_subset [1; 1] [2; 3]) = Ok (Some (mk_subset [0; 0] [2; 2])).
Proof.
  destruct (chunks_in_array_subset_spec example_grid example_grid_wf (mk_subset [1; 1] [2; 3]))
    as (chunks & Hc & _).
  - split; [done|]. intros [|[|j]] Hj; unfold u64_modulus; simpl in *; lia.
  - reflexivity.
  - split; [done|]. intros [|[|j]] Hj; simpl in *; lia.
  - vm_compute in Hc. injection Hc as <-. reflexivity.
Defined.

Lemma chunks_subset_union_witness :
  chunks_subset example_grid (mk_subset [1; 0] [2; 2]) = Ok (Some (mk_subset [2; 0] [4; 6])).
Proof.
  destruct (chunks_subset_union example_grid example_grid_wf (mk_subset [1; 0] [2; 2])) as (region & Hc & _).
  - split; [done|]. intros [|[|j]] Hj; unfold u64_modulus; simpl in *; lia.
  - reflexivity.
  - split; [done|]. intros [|[|j]] Hj; simpl in *; lia.
  - reflexivity.
  - vm_compute in Hc. injection Hc as <-. reflexivity.
Defined.

Lemma chunk_iteration_covers_witness :
  ∃ items, iter_collect (chunk_indices_and_subsets_next example_grid) 7 (iter_chunk_indices example_grid)
    = Some (Ok items) ∧ items !! 1%nat = Some ([0; 1], mk_subset [0; 3] [2; 3]).
Proof.
  destruct (chunk_iteration_covers example_grid example_grid_wf) as (items & Hf & _).
  - reflexivity.
  - reflexivity.
  - exists items. specialize (Hf 7%nat eq_refl). rewrite Hf. split; [done|].
    vm_compute in Hf. by injection Hf as <-.
Defined.

Lemma bounded_grid_truncates_regular_witness :
  ∃ r b, RegularChunkGrid_new [5; 4] [2; 3] = Ok r ∧ RegularBoundedChunkGrid_new [5; 4] [2; 3] = Ok b ∧
    grid_shape r = grid_shape b ∧ chunk_subset r [2; 1] = Ok (Some (mk_subset [4; 3] [2; 3])) ∧
    chunk_subset b [2; 1] = Ok (Some (mk_subset [4; 3] [1; 1])).
Proof.
  destruct (bounded_grid_truncates_regular [5; 4] [2; 3]) as [_ H].
  destruct H as (r & b & Hr & Hb & _ & _ & _ & _ & Hs & _); [done| |].
  - intros [|[|j]] Hj; simpl in *; [..|lia]; split_and!; try lia; reflexivity.
  - exists r, b. split_and!; [done..| |]; vm_compute in Hr, Hb; injection Hr as <-; injection Hb as <-; reflexivity.
Defined.
