(* ===== verification/RectilinearGrid.v ===== *)
(** The [rectangular] and [rectilinear] chunk grids:
    [zarrs/src/array/chunk_grid/rectangular.rs] and [rectilinear.rs], and the
    run-length encoding of chunk edge lengths of
    [zarrs_metadata_ext/src/chunk_grid/rectilinear.rs].

    A dimension of both grids is either fixed (chunks of one size) or varying (a
    table of chunk offsets and sizes).  The code of the methods that the two files
    repeat is one definition on the dimensions here. *)

From S2P Require Import Prelude ArraySubset Linear Iterators ChunkGrid RegularGrid.

Record OffsetSize := mk_os { os_offset : Z; os_size : Z }.

#[export] Instance offset_size_inhabited : Inhabited OffsetSize := populate (mk_os 0 1).

(** [RectangularChunkGridDimension] and [RectilinearChunkGridDimension]. *)
Inductive grid_dim := Fixed (size : Z) | Varying (offsets_sizes : list OffsetSize).

#[export] Instance grid_dim_inhabited : Inhabited grid_dim := populate (Fixed 1).

(** The [scan] that accumulates the offsets of the chunks. *)
Fixpoint scan_offsets (offset : Z) (sizes : list Z) : list OffsetSize :=
  match sizes with
  | [] => []
  | size :: sizes => mk_os offset size :: scan_offsets (offset +w size) sizes
  end.

(** [slice::partition_point] of a slice partitioned by the predicate. *)
Fixpoint partition_point {A} (p : A → bool) (l : list A) : nat :=
  match l with
  | [] => 0
  | x :: l => if p x then S (partition_point p l) else 0
  end.

Definition last_end (os : OffsetSize) : Z := os_offset os +w os_size os.

(** ** Run-length encoded edge lengths *)

Inductive RunLengthElement := Repeated (value count : Z) | Single (value : Z).

Inductive ChunkEdgeLengths := EdgeScalar (size : Z) | EdgeVarying (elements : list RunLengthElement).

#[export] Instance edge_lengths_inhabited : Inhabited ChunkEdgeLengths := populate (EdgeScalar 1).

Fixpoint decode (elements : list RunLengthElement) : list Z :=
  match elements with
  | [] => []
  | Single value :: elements => value :: decode elements
  | Repeated value count :: elements => replicate (Z.to_nat count) value ++ decode elements
  end.

(** [NonZeroU64::new(count).unwrap()] panics on a zero count. *)
Definition push_run_length (result : list RunLengthElement) (value count : Z)
    : outcome unit (list RunLengthElement) :=
  if count =? 1 then Ok (result ++ [Single value])
  else
    let? count := expect (NonZeroU64_new count) in
    Ok (result ++ [Repeated value count]).

Fixpoint compress_loop (sizes : list Z) (result : list RunLengthElement) (current count : Z)
    : outcome unit (list RunLengthElement) :=
  match sizes with
  | [] => push_run_length result current count
  | size :: sizes =>
      if size =? current then compress_loop sizes result current (count +w 1)
      else
        let? result := push_run_length result current count in
        compress_loop sizes result size 1
  end.

Definition compress_run_length (sizes : list Z) : outcome unit (list RunLengthElement) :=
  match head sizes with
  | None => Ok []
  | Some current => compress_loop sizes [] current 0
  end.

Definition encode (edge_lengths : list Z) : outcome unit ChunkEdgeLengths :=
  match head edge_lengths with
  | Some first =>
      if forallb (fun edge_length => edge_length =? first) edge_lengths then Ok (EdgeScalar first)
      else let? elements := compress_run_length edge_lengths in Ok (EdgeVarying elements)
  | None => let? elements := compress_run_length edge_lengths in Ok (EdgeVarying elements)
  end.

(** ** The methods of both grids, on their dimensions *)

Section dims_methods.
Context (array_shape : list Z) (chunks : list grid_dim) (grid_shape : list Z).

Definition dims_dimensionality : nat := length chunks.

Definition dims_chunk_edge_lengths (dimension : nat) : outcome GridError (list Z) :=
  if (dims_dimensionality <=? dimension)%nat then
    Err (IncompatibleDimensionError dimension dims_dimensionality)
  else
    let? size := expect (array_shape !! dimension) in
    if size =? 0 then Ok []
    else
      let? chunk_dim := expect (chunks !! dimension) in
      match chunk_dim with
      | Fixed size => let? n := expect (grid_shape !! dimension) in Ok (replicate (Z.to_nat n) size)
      | Varying offsets_sizes => Ok (os_size <$> offsets_sizes)
      end.

Definition dim_chunk_size (chunk_index : Z) (chunk_dim : grid_dim) : option Z :=
  match chunk_dim with
  | Fixed chunk_size => Some chunk_size
  | Varying offsets_sizes =>
      if chunk_index <? zlen offsets_sizes
      then os_size <$> offsets_sizes !! Z.to_nat chunk_index else None
  end.

Definition dim_chunk_origin (chunk_index : Z) (chunk_dim : grid_dim) : option Z :=
  match chunk_dim with
  | Fixed chunk_size => Some (chunk_index *w chunk_size)
  | Varying offsets_sizes =>
      if chunk_index <? zlen offsets_sizes
      then os_offset <$> offsets_sizes !! Z.to_nat chunk_index else None
  end.

Definition dims_chunk_shape (chunk_indices : list Z) : grid_result (list Z) :=
  if (length chunk_indices =? dims_dimensionality)%nat then
    if contains_zero array_shape then Ok None
    else Ok (collect_opt (zip_with dim_chunk_size chunk_indices chunks))
  else Err (IncompatibleDimensionalityError (length chunk_indices) dims_dimensionality).

Definition dims_chunk_origin (chunk_indices : list Z) : grid_result (list Z) :=
  if (length chunk_indices =? dims_dimensionality)%nat then
    if contains_zero array_shape then Ok None
    else Ok (collect_opt (zip_with dim_chunk_origin chunk_indices chunks))
  else Err (IncompatibleDimensionalityError (length chunk_indices) dims_dimensionality).

Definition dims_array_indices_inbounds (array_indices : list Z) : bool :=
  (length array_indices =? dims_dimensionality)%nat &&
  zip_all3 (fun array_index array_size chunk_dim =>
    (array_index <? array_size) &&
    match chunk_dim with
    | Fixed _ => true
    | Varying offsets_sizes =>
        match last offsets_sizes with Some last => array_index <? last_end last | None => false end
    end) array_indices array_shape chunks.
End dims_methods.

(** ** [RectangularChunkGrid] *)

Record RectangularChunkGrid := mk_rectangular {
  rc_array_shape : list Z;
  rc_chunks : list grid_dim;
  rc_grid_shape : list Z }.

(** [RectangularChunkGridDimensionConfiguration]. *)
Inductive RectangularDimConfiguration := RectFixed (size : Z) | RectVarying (chunk_sizes : list Z).

Definition rectangular_dim (s : RectangularDimConfiguration) : grid_dim :=
  match s with
  | RectFixed f => Fixed f
  | RectVarying chunk_sizes => Varying (scan_offsets 0 chunk_sizes)
  end.

Definition last_default : OffsetSize := mk_os 0 1.

Definition rectangular_dim_grid_size (array_shape : Z) (chunks : grid_dim) : option Z :=
  match chunks with
  | Fixed s => Some (div_ceil array_shape s)
  | Varying s =>
      if array_shape =? last_end (default last_default (last s)) then Some (zlen s) else None
  end.

Definition RectangularChunkGrid_new (array_shape : list Z) (chunk_shapes : list RectangularDimConfiguration)
    : outcome GridError RectangularChunkGrid :=
  if negb (length array_shape =? length chunk_shapes)%nat then Err GridCreateOther
  else
    let chunks := rectangular_dim <$> chunk_shapes in
    let? grid_shape := ok_or GridCreateOther
      (collect_opt (zip_with rectangular_dim_grid_size array_shape chunks)) in
    Ok (mk_rectangular array_shape chunks grid_shape).

Definition rectangular_configuration (self : RectangularChunkGrid) : list RectangularDimConfiguration :=
  (fun chunk_dim => match chunk_dim with
    | Fixed size => RectFixed size
    | Varying offsets_sizes => RectVarying (os_size <$> offsets_sizes)
    end) <$> rc_chunks self.

Section rectangular_methods.
Variable self : RectangularChunkGrid.

Definition rectangular_dimensionality : nat := length (rc_chunks self).

Definition rectangular_chunk_edge_lengths (dimension : nat) : outcome GridError (list Z) :=
  dims_chunk_edge_lengths (rc_array_shape self) (rc_chunks self) (rc_grid_shape self) dimension.

Definition rectangular_chunk_shape (chunk_indices : list Z) : grid_result (list Z) :=
  dims_chunk_shape (rc_array_shape self) (rc_chunks self) chunk_indices.

Definition rectangular_chunk_shape_u64 (chunk_indices : list Z) : grid_result (list Z) :=
  dims_chunk_shape (rc_array_shape self) (rc_chunks self) chunk_indices.

Definition rectangular_chunk_origin (chunk_indices : list Z) : grid_result (list Z) :=
  dims_chunk_origin (rc_array_shape self) (rc_chunks self) chunk_indices.

Definition rectangular_dim_chunk_index (index : Z) (chunks : grid_dim) : option Z :=
  match chunks with
  | Fixed size => Some (index / size)
  | Varying offsets_sizes =>
      let last := default last_default (last offsets_sizes) in
      if index <? last_end last then
        let partition := partition_point (fun offset_size => os_offset offset_size <=? index) offsets_sizes in
        if (partition <=? length offsets_sizes)%nat
        then Some (Z.max (Z.of_nat partition) 1 - 1) else None
      else None
  end.

Definition rectangular_chunk_indices (array_indices : list Z) : grid_result (list Z) :=
  if (length array_indices =? rectangular_dimensionality)%nat then
    if contains_zero (rc_array_shape self) then Ok None
    else Ok (collect_opt (zip_with rectangular_dim_chunk_index array_indices (rc_chunks self)))
  else Err (IncompatibleDimensionalityError (length array_indices) rectangular_dimensionality).

Definition rectangular_chunk_element_indices (array_indices : list Z) : grid_result (list Z) :=
  let? chunk_indices := rectangular_chunk_indices array_indices in
  match chunk_indices with
  | None => Ok None
  | Some chunk_indices =>
      match rectangular_chunk_origin chunk_indices with
      | Ok chunk_origin =>
          Ok ((fun chunk_start => zip_with (fun i s => i -w s) array_indices chunk_start) <$> chunk_origin)
      | _ => Panic
      end
  end.

Definition rectangular_array_indices_inbounds (array_indices : list Z) : bool :=
  dims_array_indices_inbounds (rc_array_shape self) (rc_chunks self) array_indices.
End rectangular_methods.

#[export] Instance rectangular_grid : ChunkGridTraits RectangularChunkGrid := {
  grid_dimensionality := rectangular_dimensionality;
  array_shape := rc_array_shape;
  grid_shape := rc_grid_shape;
  chunk_edge_lengths := rectangular_chunk_edge_lengths;
  chunk_shape := rectangular_chunk_shape;
  chunk_shape_u64 := rectangular_chunk_shape_u64;
  chunk_origin := rectangular_chunk_origin;
  chunk_subset := default_subset rectangular_chunk_origin rectangular_chunk_shape;
  chunk_indices := rectangular_chunk_indices;
  chunk_element_indices := rectangular_chunk_element_indices;
  array_indices_inbounds := rectangular_array_indices_inbounds }.

(** ** [RectilinearChunkGrid] *)

Record RectilinearChunkGrid := mk_rectilinear {
  rl_array_shape : list Z;
  rl_chunks : list grid_dim;
  rl_grid_shape : list Z }.

Definition rectilinear_dim (chunk_shape : ChunkEdgeLengths) : grid_dim :=
  match chunk_shape with
  | EdgeScalar chunk_size => Fixed chunk_size
  | EdgeVarying elements => Varying (scan_offsets 0 (decode elements))
  end.

Definition rectilinear_dim_grid_size (array_size : Z) (chunk_dim : grid_dim) : option Z :=
  match chunk_dim with
  | Fixed chunk_size => if array_size =? 0 then Some 0 else Some (div_ceil array_size chunk_size)
  | Varying chunks =>
      last ← last chunks;
      if array_size <=? last_end last then Some (zlen chunks) else None
  end.

Definition RectilinearChunkGrid_new (array_shape : list Z) (chunk_shapes : list ChunkEdgeLengths)
    : outcome GridError RectilinearChunkGrid :=
  if negb (length array_shape =? length chunk_shapes)%nat then Err GridCreateOther
  else
    let chunks := rectilinear_dim <$> chunk_shapes in
    let? grid_shape := ok_or GridCreateOther
      (collect_opt (zip_with rectilinear_dim_grid_size array_shape chunks)) in
    Ok (mk_rectilinear array_shape chunks grid_shape).

Definition rectilinear_dim_configuration (chunk_dim : grid_dim) : outcome unit ChunkEdgeLengths :=
  match chunk_dim with
  | Fixed size => Ok (EdgeScalar size)
  | Varying offsets_sizes => let sizes := os_size <$> offsets_sizes in encode sizes
  end.

Definition rectilinear_configuration (self : RectilinearChunkGrid) : outcome unit (list ChunkEdgeLengths) :=
  collect_res (rectilinear_dim_configuration <$> rl_chunks self).

Section rectilinear_methods.
Variable self : RectilinearChunkGrid.

Definition rectilinear_dimensionality : nat := length (rl_chunks self).

Definition rectilinear_chunk_edge_lengths (dimension : nat) : outcome GridError (list Z) :=
  dims_chunk_edge_lengths (rl_array_shape self) (rl_chunks self) (rl_grid_shape self) dimension.

Definition rectilinear_chunk_shape (chunk_indices : list Z) : grid_result (list Z) :=
  dims_chunk_shape (rl_array_shape self) (rl_chunks self) chunk_indices.

Definition rectilinear_chunk_shape_u64 (chunk_indices : list Z) : grid_result (list Z) :=
  dims_chunk_shape (rl_array_shape self) (rl_chunks self) chunk_indices.

Definition rectilinear_chunk_origin (chunk_indices : list Z) : grid_result (list Z) :=
  dims_chunk_origin (rl_array_shape self) (rl_chunks self) chunk_indices.

(** [usize::checked_sub(1)]. *)
Definition checked_pred (n : nat) : option nat := match n with O => None | S n => Some n end.

Definition rectilinear_dim_chunk_index (index : Z) (chunk_dim : grid_dim) : option Z :=
  match chunk_dim with
  | Fixed size => Some (index / size)
  | Varying offsets_sizes =>
      last ← last offsets_sizes;
      if index <? last_end last then
        let partition := partition_point (fun offset_size => os_offset offset_size <=? index) offsets_sizes in
        Z.of_nat <$> checked_pred partition
      else None
  end.

Definition rectilinear_chunk_indices (array_indices : list Z) : grid_result (list Z) :=
  if negb (length array_indices =? rectilinear_dimensionality)%nat then
    Err (IncompatibleDimensionalityError (length array_indices) rectilinear_dimensionality)
  else if contains_zero (rl_array_shape self) then Ok None
  else Ok (collect_opt (zip_with rectilinear_dim_chunk_index array_indices (rl_chunks self))).

Definition rectilinear_dim_element_index (index : Z) (chunk_dim : grid_dim) : option Z :=
  match chunk_dim with
  | Fixed size =>
      let chunk_offset := (index / size) *w size in
      Some (index -w chunk_offset)
  | Varying offsets_sizes =>
      last ← last offsets_sizes;
      if index <? last_end last then
        let partition := partition_point (fun offset_size => os_offset offset_size <=? index) offsets_sizes in
        chunk_index ← checked_pred partition;
        chunk ← offsets_sizes !! chunk_index;
        Some (index -w os_offset chunk)
      else None
  end.

Definition rectilinear_chunk_element_indices (array_indices : list Z) : grid_result (list Z) :=
  if negb (length array_indices =? rectilinear_dimensionality)%nat then
    Err (IncompatibleDimensionalityError (length array_indices) rectilinear_dimensionality)
  else if contains_zero (rl_array_shape self) then Ok None
  else Ok (collect_opt (zip_with rectilinear_dim_element_index array_indices (rl_chunks self))).

Definition rectilinear_array_indices_inbounds (array_indices : list Z) : bool :=
  dims_array_indices_inbounds (rl_array_shape self) (rl_chunks self) array_indices.
End rectilinear_methods.

#[export] Instance rectilinear_grid : ChunkGridTraits RectilinearChunkGrid := {
  grid_dimensionality := rectilinear_dimensionality;
  array_shape := rl_array_shape;
  grid_shape := rl_grid_shape;
  chunk_edge_lengths := rectilinear_chunk_edge_lengths;
  chunk_shape := rectilinear_chunk_shape;
  chunk_shape_u64 := rectilinear_chunk_shape_u64;
  chunk_origin := rectilinear_chunk_origin;
  chunk_subset := default_subset rectilinear_chunk_origin rectilinear_chunk_shape;
  chunk_indices := rectilinear_chunk_indices;
  chunk_element_indices := rectilinear_chunk_element_indices;
  array_indices_inbounds := rectilinear_array_indices_inbounds }.

(** ** Tables of offsets *)

Section offsets.
Implicit Types sizes : list Z.

Lemma length_scan_offsets o sizes : length (scan_offsets o sizes) = length sizes.
Proof. revert o. induction sizes; intros; simpl; auto. Qed.

Lemma Zsum_pos_nonneg sizes : Forall (λ s, 0 < s) sizes → 0 <= Zsum sizes.
Proof. induction 1; rewrite ?Zsum_cons; [done|lia]. Qed.

Lemma scan_offsets_sizes o sizes : os_size <$> scan_offsets o sizes = sizes.
Proof. revert o. induction sizes; intros; [done|]. simpl. by f_equal. Qed.

(** The offset of a chunk is the sum of the sizes before it. *)
Lemma scan_offsets_lookup o sizes c : Forall (λ s, 0 < s) sizes → 0 <= o → o + Zsum sizes < u64_modulus →
  (c < length sizes)%nat →
  scan_offsets o sizes !! c = Some (mk_os (o + Zsum (take c sizes)) (sizes !!! c)).
Proof.
  intros Hp. revert o c. induction Hp as [|s sizes Hs Hp IH]; intros o c Ho Hf Hc; simpl in *; [lia|].
  rewrite Zsum_cons in Hf. pose proof (Zsum_pos_nonneg _ Hp). destruct c as [|c]; simpl.
  { by rewrite Z.add_0_r. }
  rewrite wrap64_small by (unfold is_u64; lia). rewrite IH by lia. rewrite Zsum_cons. do 2 f_equal. lia.
Qed.

Lemma scan_offsets_last o sizes : Forall (λ s, 0 < s) sizes → 0 <= o → o + Zsum sizes < u64_modulus →
  sizes ≠ [] → ∃ l, last (scan_offsets o sizes) = Some l ∧ last_end l = o + Zsum sizes.
Proof.
  intros Hp. revert o. induction Hp as [|s sizes Hs Hp IH]; intros o Ho Hf Hne; [done|].
  rewrite Zsum_cons in *. pose proof (Zsum_pos_nonneg _ Hp). destruct sizes as [|s' sizes].
  - exists (mk_os o s). split; [done|]. unfold last_end. simpl. unfold Zsum in *. simpl in *.
    rewrite wrap64_small; [lia|]. unfold is_u64. lia.
  - simpl. rewrite wrap64_small by (unfold is_u64; lia).
    destruct (IH (o + s) ltac:(lia) ltac:(lia) ltac:(done)) as (l & Hl & He).
    exists l. split; [exact Hl|lia].
Qed.

(** The search finds the chunk that holds an element. *)
Lemma partition_point_scan o sizes i : Forall (λ s, 0 < s) sizes → 0 <= o → o + Zsum sizes < u64_modulus →
  o <= i < o + Zsum sizes →
  ∃ c, partition_point (fun x => os_offset x <=? i) (scan_offsets o sizes) = S c ∧ (c < length sizes)%nat ∧
    o + Zsum (take c sizes) <= i < o + Zsum (take c sizes) + sizes !!! c.
Proof.
  intros Hp. revert o. induction Hp as [|s sizes Hs Hp IH]; intros o Ho Hf Hi; [unfold Zsum in Hi; simpl in Hi; lia|].
  rewrite Zsum_cons in *. pose proof (Zsum_pos_nonneg _ Hp). simpl.
  rewrite (proj2 (Z.leb_le _ _)) by lia. rewrite wrap64_small by (unfold is_u64; lia).
  destruct (Z.lt_ge_cases i (o + s)) as [Hlt|Hge].
  - exists 0%nat. simpl. split_and!; [|lia|unfold Zsum; simpl; lia..]. f_equal.
    destruct sizes; [done|]. simpl. by rewrite (proj2 (Z.leb_gt _ _)) by lia.
  - destruct (IH (o + s)) as (c & Hc & Hlen & Hin); [lia..|]. exists (S c). rewrite Hc. simpl.
    rewrite Zsum_cons. split_and!; [done|lia..].
Qed.

Lemma Zsum_take_S sizes c : (c < length sizes)%nat → Zsum (take (S c) sizes) = Zsum (take c sizes) + sizes !!! c.
Proof.
  intros Hc. rewrite (take_S_r _ _ (sizes !!! c)) by (by apply list_lookup_lookup_total_lt).
  rewrite Zsum_app. unfold Zsum. simpl. lia.
Qed.

Lemma length_le_Zsum sizes : Forall (λ s, 0 < s) sizes → zlen sizes <= Zsum sizes.
Proof. induction 1; [done|]. rewrite Zsum_cons. simpl. lia. Qed.
End offsets.

(** ** The contract *)

(** The number of chunks of a dimension. *)
Definition dim_chunks (len : Z) (d : grid_dim) : Z :=
  match d with Fixed s => div_ceil len s | Varying os => zlen os end.

(** A valid dimension: a varying one is the table of the chunks' sizes, which
    cover the array. *)
Definition rect_dim_ok (len : Z) (d : grid_dim) : Prop :=
  match d with
  | Fixed s => dim_ok len s
  | Varying os => ∃ sizes, os = scan_offsets 0 sizes ∧ sizes ≠ [] ∧ Forall (λ s, 0 < s) sizes ∧
      0 <= len <= Zsum sizes ∧ Zsum sizes < u64_modulus
  end.

Definition rect_axis (len : Z) (d : grid_dim) : axis :=
  match d with
  | Fixed s => regular_axis len s
  | Varying os => mk_axis len (zlen os) (λ c, os_offset (os !!! Z.to_nat c)) (λ c, os_size (os !!! Z.to_nat c))
  end.

Lemma rect_axis_len len d : ax_len (rect_axis len d) = len.
Proof. by destruct d. Qed.

Lemma rect_axis_n len d : ax_n (rect_axis len d) = dim_chunks len d.
Proof. by destruct d. Qed.

Lemma rect_axis_ok len d : rect_dim_ok len d → axis_ok (rect_axis len d).
Proof.
  destruct d as [s|os]; [apply regular_axis_ok|]. intros (sizes & -> & Hne & Hp & Hl & Hf).
  assert (∀ c, 0 <= c < zlen sizes → scan_offsets 0 sizes !!! Z.to_nat c =
    mk_os (Zsum (take (Z.to_nat c) sizes)) (sizes !!! Z.to_nat c)) as Hc.
  { intros c Hc. apply list_lookup_total_correct. rewrite scan_offsets_lookup by (done || lia). done. }
  pose proof (length_le_Zsum _ Hp). assert (0 < zlen sizes) by (destruct sizes; [done|simpl; lia]).
  assert (∀ c, 0 <= c < zlen sizes → 0 < sizes !!! Z.to_nat c) as Hpc.
  { intros c Hcl. apply (proj1 (Forall_total _ _) Hp). lia. }
  split; unfold ax_end; simpl; rewrite ?length_scan_offsets; try lia.
  - intros _. rewrite Hc by lia. done.
  - intros c Hcl. rewrite Hc by done. by apply Hpc.
  - intros c Hc0 Hcl. rewrite !Hc by lia. simpl. replace (Z.to_nat (c + 1)) with (S (Z.to_nat c)) by lia.
    apply Zsum_take_S. lia.
  - destruct (Z.eqb_spec (zlen sizes) 0); [lia|]. rewrite Hc by lia. simpl.
    rewrite <-Zsum_take_S, take_ge by lia. lia.
  - destruct (Z.eqb_spec (zlen sizes) 0); [lia|]. rewrite Hc by lia. simpl.
    rewrite <-Zsum_take_S, take_ge by lia. done.
Qed.

(** What each method computes along a valid dimension. *)
Lemma dim_chunk_law len d c : rect_dim_ok len d → 0 < len → 0 <= c < dim_chunks len d →
  dim_chunk_size c d = Some (ax_size (rect_axis len d) c) ∧
  dim_chunk_origin c d = Some (ax_origin (rect_axis len d) c).
Proof.
  destruct d as [s|os]; simpl.
  - intros (H0 & Hs & Hf) Hl Hc. rewrite wrap64_small by (unfold is_u64; nia). done.
  - intros _ _ Hc. rewrite (proj2 (Z.ltb_lt _ _)) by lia.
    rewrite (list_lookup_lookup_total_lt os) by lia. done.
Qed.

Lemma dim_varying_locate len os i : rect_dim_ok len (Varying os) → 0 <= i < len →
  ∃ l c, last os = Some l ∧ i < last_end l ∧
    partition_point (fun x => os_offset x <=? i) os = S c ∧ (c < length os)%nat ∧
    ax_holds (rect_axis len (Varying os)) (Z.of_nat c) i.
Proof.
  intros (sizes & -> & Hne & Hp & Hl & Hf) Hi.
  destruct (scan_offsets_last 0 sizes) as (l & Hla & He); [done..|].
  destruct (partition_point_scan 0 sizes i) as (c & Hc & Hcl & Hin); [done..|lia|].
  exists l, c. rewrite length_scan_offsets. split_and!; [done|lia|done|done|].
  unfold ax_holds. simpl. rewrite Nat2Z.id, length_scan_offsets. split; [lia|].
  rewrite (list_lookup_total_correct _ _ _ (scan_offsets_lookup 0 sizes c Hp ltac:(lia) Hf Hcl)). simpl. lia.
Qed.

Lemma dim_chunk_indices_law len d i : rect_dim_ok len d → 0 <= i < len →
  ∃ c, rectangular_dim_chunk_index i d = Some c ∧ rectilinear_dim_chunk_index i d = Some c ∧
    ax_holds (rect_axis len d) c i ∧
    rectilinear_dim_element_index i d = Some (i - ax_origin (rect_axis len d) c).
Proof.
  intros Hd Hi. pose proof (rect_axis_ok _ _ Hd) as Hok. destruct d as [s|os].
  - destruct (dim_locate len s i Hd Hi) as (Hn & Hin & Hm). destruct Hd as (H0 & Hs & Hf).
    exists (i / s). split_and!; try done. simpl.
    rewrite (wrap64_small (i / s * s)) by (unfold is_u64; nia). by rewrite wrap64_small by (unfold is_u64; nia).
  - destruct (dim_varying_locate len os i Hd Hi) as (l & c & Hl & He & Hp & Hc & Hh).
    exists (Z.of_nat c). unfold rectangular_dim_chunk_index, rectilinear_dim_chunk_index, rectilinear_dim_element_index.
    rewrite Hl. cbn [default from_option mbind option_bind id]. rewrite (proj2 (Z.ltb_lt _ _) He), Hp. cbv zeta.
    rewrite (proj2 (Nat.leb_le (S c) _)) by lia. cbn [checked_pred mbind option_bind fmap option_fmap option_map].
    split_and!; [f_equal; lia|done|done|].
    rewrite (list_lookup_lookup_total_lt os) by lia. simpl. rewrite Nat2Z.id. f_equal.
    destruct Hh as [_ Hh]. simpl in Hh. rewrite Nat2Z.id in Hh.
    pose proof (ax_origin_nonneg _ (Z.of_nat c) Hok) as Hnn. simpl in Hnn. rewrite Nat2Z.id in Hnn.
    destruct Hd as (sizes & -> & _ & _ & Hle & Hf). apply wrap64_small. unfold is_u64. lia.
Qed.

Section dims_laws.
Context (ash gsh : list Z) (chunks : list grid_dim) (Hd : grid_dims_ok dim_chunks rect_dim_ok ash gsh chunks).

#[local] Abbreviation axes := (zip_with rect_axis ash chunks).

Definition dims_in_grid (c : list Z) : Prop := index_in c gsh ∧ contains_zero ash = false.

Lemma dims_laws c : dims_in_grid c →
  dims_chunk_shape ash chunks c = Ok (Some (axes_size axes c)) ∧
  dims_chunk_origin ash chunks c = Ok (Some (axes_origin axes c)).
Proof.
  intros [Hc Hz]. destruct (in_grid_of rect_axis rect_axis_len rect_axis_ok _ _ _ Hd c Hc Hz) as [Hl Hj].
  unfold dims_chunk_shape, dims_chunk_origin, dims_dimensionality.
  rewrite (proj2 (Nat.eqb_eq _ _) Hl), Hz.
  pose proof (length_axes_origin_of rect_axis _ _ _ Hd c Hl). pose proof (length_axes_size_of rect_axis _ _ _ Hd c Hl).
  split; f_equal; apply collect_opt_Some; rewrite length_zip_with; (split; [lia|]); intros j Hlt;
    rewrite zip_with_total by lia; destruct (Hj j ltac:(lia)) as (Hcj & Hpos & Hok);
    destruct (dim_chunk_law _ _ _ Hok Hpos Hcj) as [Hcs Hco]; rewrite ?Hcs, ?Hco; f_equal;
    [rewrite (axes_size_of _ _ _ _ Hd) by lia|rewrite (axes_origin_of _ _ _ _ Hd) by lia]; done.
Qed.

Lemma dims_subset_law {G} (og sg : G → list Z → grid_result (list Z)) (g : G) c :
  og g c = dims_chunk_origin ash chunks c → sg g c = dims_chunk_shape ash chunks c → dims_in_grid c →
  default_subset og sg g c = Ok (Some (mk_subset (axes_origin axes c) (axes_size axes c))).
Proof.
  intros Ho Hs Hc. destruct (dims_laws c Hc) as [Hss Hoo]. destruct Hc as [Hc Hz].
  destruct (in_grid_of rect_axis rect_axis_len rect_axis_ok _ _ _ Hd c Hc Hz) as [Hl Hj].
  pose proof (length_axes_origin_of rect_axis _ _ _ Hd c Hl) as Hlo.
  pose proof (length_axes_size_of rect_axis _ _ _ Hd c Hl) as Hls.
  apply default_subset_law; [by rewrite Ho|by rewrite Hs|lia|]. intros j Hlt.
  rewrite (axes_origin_of _ _ _ _ Hd), (axes_size_of _ _ _ _ Hd) by lia.
  destruct (Hj j ltac:(lia)) as (Hcj & _ & Hok). apply rect_axis_ok in Hok.
  rewrite <-(rect_axis_n (ash !!! j) (chunks !!! j)) in Hcj.
  pose proof (ax_origin_nonneg _ _ Hok Hcj). pose proof (ax_size_pos _ Hok _ Hcj).
  pose proof (ax_end_bound _ _ Hok Hcj). pose proof (ax_fits _ Hok). unfold is_u64. lia.
Qed.

(** The vector of chunk indices of an element, for either grid's search. *)
Lemma dims_chunk_indices_law i : index_in i ash →
  ∃ c, collect_opt (zip_with rectangular_dim_chunk_index i chunks) = Some c ∧
    collect_opt (zip_with rectilinear_dim_chunk_index i chunks) = Some c ∧ axes_hold axes c i ∧
    dims_in_grid c ∧ length i = length chunks ∧
    collect_opt (zip_with rectilinear_dim_element_index i chunks) = Some (zip_with Z.sub i (axes_origin axes c)).
Proof.
  intros Hi. pose proof (index_in_nonzero _ _ Hi) as Hz. apply Forall2_total in Hi as [Hl Hi].
  pose proof Hd as (Hla & Hgs & Hdj).
  destruct (choose_list (length chunks) (λ j c, rectangular_dim_chunk_index (i !!! j) (chunks !!! j) = Some c ∧
    rectilinear_dim_chunk_index (i !!! j) (chunks !!! j) = Some c ∧
    ax_holds (rect_axis (ash !!! j) (chunks !!! j)) c (i !!! j) ∧
    rectilinear_dim_element_index (i !!! j) (chunks !!! j) =
      Some (i !!! j - ax_origin (rect_axis (ash !!! j) (chunks !!! j)) c))) as (c & Hc & Hcj).
  { intros j Hj. apply dim_chunk_indices_law; [by apply Hdj|apply Hi; lia]. }
  assert (axes_hold axes c i) as Hh.
  { apply (axes_hold_of_dims rect_axis _ _ _ Hd); [done|lia|]. intros j Hj. by apply Hcj. }
  pose proof (length_axes_origin_of rect_axis _ _ _ Hd c Hc) as Hlo.
  exists c. split_and!; [| |done| |lia|].
  - apply collect_opt_Some. rewrite length_zip_with. split; [lia|]. intros j Hj.
    rewrite zip_with_total by lia. apply Hcj. lia.
  - apply collect_opt_Some. rewrite length_zip_with. split; [lia|]. intros j Hj.
    rewrite zip_with_total by lia. apply Hcj. lia.
  - split; [|done]. apply Forall2_total. rewrite Hgs, length_zip_with. split; [lia|]. intros j Hj.
    rewrite zip_with_total by lia. destruct (Hcj j ltac:(lia)) as (_ & _ & [Hn _] & _). by rewrite rect_axis_n in Hn.
  - apply collect_opt_Some. rewrite !length_zip_with. split; [lia|]. intros j Hj.
    rewrite !zip_with_total by lia. rewrite (axes_origin_of _ _ _ _ Hd) by lia. apply Hcj. lia.
Qed.

Lemma dims_edge_lengths_law j : (j < length axes)%nat →
  dims_chunk_edge_lengths ash chunks gsh j =
  Ok (if ax_len (axes !!! j) =? 0 then [] else ax_size (axes !!! j) <$> seqZ 0 (ax_n (axes !!! j))).
Proof.
  rewrite (length_axes_of rect_axis _ _ _ Hd). intros Hj. pose proof Hd as (Hla & Hgs & Hdj).
  unfold dims_chunk_edge_lengths, dims_dimensionality. rewrite (proj2 (Nat.leb_gt _ _)) by done.
  rewrite (axes_of_total _ _ _ _ Hd), rect_axis_len by done.
  rewrite (list_lookup_lookup_total_lt ash) by lia. cbn [obind expect].
  destruct (_ =? 0); [done|]. rewrite (list_lookup_lookup_total_lt chunks) by done. cbn [obind expect].
  rewrite rect_axis_n. destruct (chunks !!! j) as [s|os] eqn:Hdim.
  - rewrite Hgs, lookup_zip_with, !list_lookup_lookup_total_lt by lia. simpl. rewrite Hdim. simpl. f_equal.
    apply replicate_fmap_seqZ.
  - simpl. f_equal. apply list_eq_total; rewrite !length_fmap; [rewrite length_seqZ; lia|]. intros k Hk.
    rewrite !fmap_total by (rewrite ?length_seqZ; lia). do 2 f_equal.
    rewrite lookup_total_seqZ_lt by lia. lia.
Qed.

Lemma dims_inbounds_law i : Forall is_u64 i →
  dims_array_indices_inbounds ash chunks i = true ↔ index_in i ash.
Proof.
  intros Hu. pose proof Hd as (Hla & Hgs & Hdj). unfold dims_array_indices_inbounds, index_in, dims_dimensionality.
  rewrite Forall2_total, andb_true_iff, Nat.eqb_eq.
  split; intros [Hl H]; (split; [lia|]).
  - rewrite zip_all3_true in H by lia. intros j Hj. specialize (H j Hj). apply andb_true_iff in H as [H _].
    apply Z.ltb_lt in H. apply (proj1 (Forall_total _ _)) with (j:=j) in Hu; [|done]. unfold is_u64 in Hu. lia.
  - apply zip_all3_true; [lia..|]. intros j Hj. specialize (H j ltac:(lia)). apply andb_true_iff.
    split; [lia|]. specialize (Hdj j ltac:(lia)). destruct (chunks !!! j) as [s|os]; [done|].
    destruct (dim_varying_locate _ _ _ Hdj H) as (l & _ & -> & Hlt & _). lia.
Qed.
End dims_laws.

Definition rectangular_wf (g : RectangularChunkGrid) : Prop :=
  grid_dims_ok dim_chunks rect_dim_ok (rc_array_shape g) (rc_grid_shape g) (rc_chunks g).
Definition rectangular_axes (g : RectangularChunkGrid) : list axis :=
  zip_with rect_axis (rc_array_shape g) (rc_chunks g).

#[export] Instance rectangular_lawful : LawfulChunkGrid RectangularChunkGrid.
Proof.
  refine {| grid_wf := rectangular_wf; grid_axes := rectangular_axes |}; intros g.
  - intros Hg. apply (axes_of_ok rect_axis rect_axis_ok _ _ _ Hg).
  - intros Hg. symmetry. apply (length_axes_of rect_axis _ _ _ Hg).
  - intros Hg. apply (axes_of_len rect_axis rect_axis_len _ _ _ Hg).
  - intros Hg. apply (axes_of_n rect_axis rect_axis_n _ _ _ Hg).
  - intros j Hg Hj. by apply dims_edge_lengths_law.
  - intros j Hg Hj. unfold rectangular_axes in Hj. rewrite (length_axes_of rect_axis _ _ _ Hg) in Hj.
    simpl. unfold rectangular_chunk_edge_lengths, dims_chunk_edge_lengths. by rewrite (proj2 (Nat.leb_le _ _)).
  - intros c Hg Hc. by eapply dims_laws.
  - intros c Hg Hc. by eapply dims_laws.
  - intros c Hg Hc. by eapply dims_laws.
  - intros c Hg Hc. by eapply dims_subset_law.
  - intros i Hg Hi. destruct (dims_chunk_indices_law _ _ _ Hg i Hi) as (c & Hc & _ & Hh & Hgr & Hl & _).
    exists c. simpl. unfold rectangular_chunk_element_indices, rectangular_chunk_indices, rectangular_dimensionality.
    pose proof (index_in_nonzero _ _ Hi) as Hz. simpl in Hz. rewrite (proj2 (Nat.eqb_eq _ _) Hl), Hz, Hc. simpl.
    unfold rectangular_chunk_origin. rewrite (proj2 (dims_laws _ _ _ Hg c Hgr)). simpl.
    split_and!; [done..|]. do 2 f_equal. apply (element_indices_wrap (rectangular_axes g)); [|done..].
    apply (axes_of_ok rect_axis rect_axis_ok _ _ _ Hg).
  - intros i Hg Hi. by eapply dims_inbounds_law.
  - intros ix Hg Hl Hz. simpl in *. unfold default_subset, rectangular_chunk_shape, rectangular_chunk_origin,
      rectangular_chunk_element_indices, rectangular_chunk_indices, dims_chunk_shape, dims_chunk_origin,
      dims_dimensionality, rectangular_dimensionality in *.
    by rewrite (proj2 (Nat.eqb_neq _ _) Hl).
Defined.

Definition rectilinear_wf (g : RectilinearChunkGrid) : Prop :=
  grid_dims_ok dim_chunks rect_dim_ok (rl_array_shape g) (rl_grid_shape g) (rl_chunks g).
Definition rectilinear_axes (g : RectilinearChunkGrid) : list axis :=
  zip_with rect_axis (rl_array_shape g) (rl_chunks g).

#[export] Instance rectilinear_lawful : LawfulChunkGrid RectilinearChunkGrid.
Proof.
  refine {| grid_wf := rectilinear_wf; grid_axes := rectilinear_axes |}; intros g.
  - intros Hg. apply (axes_of_ok rect_axis rect_axis_ok _ _ _ Hg).
  - intros Hg. symmetry. apply (length_axes_of rect_axis _ _ _ Hg).
  - intros Hg. apply (axes_of_len rect_axis rect_axis_len _ _ _ Hg).
  - intros Hg. apply (axes_of_n rect_axis rect_axis_n _ _ _ Hg).
  - intros j Hg Hj. by apply dims_edge_lengths_law.
  - intros j Hg Hj. unfold rectilinear_axes in Hj. rewrite (length_axes_of rect_axis _ _ _ Hg) in Hj.
    simpl. unfold rectilinear_chunk_edge_lengths, dims_chunk_edge_lengths. by rewrite (proj2 (Nat.leb_le _ _)).
  - intros c Hg Hc. by eapply dims_laws.
  - intros c Hg Hc. by eapply dims_laws.
  - intros c Hg Hc. by eapply dims_laws.
  - intros c Hg Hc. by eapply dims_subset_law.
  - intros i Hg Hi. destruct (dims_chunk_indices_law _ _ _ Hg i Hi) as (c & _ & Hc & Hh & Hgr & Hl & He).
    exists c. simpl. unfold rectilinear_chunk_element_indices, rectilinear_chunk_indices, rectilinear_dimensionality.
    pose proof (index_in_nonzero _ _ Hi) as Hz. simpl in Hz. rewrite (proj2 (Nat.eqb_eq _ _) Hl), Hz, Hc, He. done.
  - intros i Hg Hi. by eapply dims_inbounds_law.
  - intros ix Hg Hl Hz. simpl in *. unfold default_subset, rectilinear_chunk_shape, rectilinear_chunk_origin,
      rectilinear_chunk_element_indices, rectilinear_chunk_indices, dims_chunk_shape, dims_chunk_origin,
      dims_dimensionality, rectilinear_dimensionality in *.
    by rewrite (proj2 (Nat.eqb_neq _ _) Hl).
Defined.

(** ** Construction *)

(** The configuration of a dimension is made of non-zero [u64]s. *)
Definition run_ok (e : RunLengthElement) : Prop :=
  match e with Repeated value count => 0 < value ∧ 0 < count | Single value => 0 < value end.

Definition edges_ok (len : Z) (e : ChunkEdgeLengths) : Prop :=
  0 <= len ∧
  match e with
  | EdgeScalar s => dim_ok len s
  | EdgeVarying el => Forall run_ok el ∧ Zsum (decode el) < u64_modulus
  end.

(** The chunks of a dimension cover the array. *)
Definition edges_cover (len : Z) (e : ChunkEdgeLengths) : Prop :=
  match e with EdgeScalar _ => True | EdgeVarying el => decode el ≠ [] ∧ len <= Zsum (decode el) end.

Lemma decode_pos el : Forall run_ok el → Forall (λ s, 0 < s) (decode el).
Proof.
  induction 1 as [|[v c|v] el He _ IH]; simpl in *; [done| |by constructor].
  apply Forall_app. split; [|done]. apply Forall_replicate. lia.
Qed.

Lemma rectilinear_dim_grid_size_spec len e : edges_ok len e →
  rectilinear_dim_grid_size len (rectilinear_dim e) = Some (dim_chunks len (rectilinear_dim e)) ∧
    rect_dim_ok len (rectilinear_dim e) ∧ edges_cover len e ∨
  rectilinear_dim_grid_size len (rectilinear_dim e) = None ∧ ¬ edges_cover len e.
Proof.
  destruct e as [s|el]; simpl; intros [Hl He].
  - left. split_and!; [|done..]. destruct (Z.eqb_spec len 0) as [->|]; [|done].
    assert (0 < s) as Hs by apply He. unfold div_ceil. by rewrite Z.div_0_l, Z.mod_0_l by lia.
  - destruct He as [Hr Hf]. apply decode_pos in Hr. destruct (decide (decode el = [])) as [Hnil|Hne].
    { right. rewrite Hnil. simpl. split; [done|]. by intros [? ?]. }
    destruct (scan_offsets_last 0 (decode el)) as (l & Hla & Hle); [done..|]. rewrite Hla. simpl. rewrite Hle, Z.add_0_l.
    destruct (Z.leb_spec len (Zsum (decode el))); [left|right; split; [done|]; intros [_ ?]; lia].
    split_and!; [done| |done..]. exists (decode el). split_and!; done || lia.
Qed.

(** A rectilinear grid is created exactly from configurations of the array's
    dimensionality whose chunk edges cover the array; the grid is lawful, keeps the
    array shape, and reports the decoded edges.  Every other configuration is an
    error. *)
Theorem rectilinear_new_spec (ash : list Z) (edges : list ChunkEdgeLengths) :
  (length ash ≠ length edges → RectilinearChunkGrid_new ash edges = Err GridCreateOther) ∧
  (Forall2 edges_ok ash edges →
    (¬ Forall2 edges_cover ash edges → RectilinearChunkGrid_new ash edges = Err GridCreateOther) ∧
    (Forall2 edges_cover ash edges → ∃ g, RectilinearChunkGrid_new ash edges = Ok g ∧ grid_wf g ∧
       array_shape g = ash ∧
       ∀ j el, edges !! j = Some (EdgeVarying el) → ash !!! j ≠ 0 →
         chunk_edge_lengths g j = Ok (decode el))).
Proof.
  unfold RectilinearChunkGrid_new. split.
  { intros Hl. by rewrite (proj2 (Nat.eqb_neq _ _) Hl). }
  intros [Hl Hok]%Forall2_total. rewrite (proj2 (Nat.eqb_eq _ _) Hl). simpl.
  pose proof (λ j Hj, rectilinear_dim_grid_size_spec _ _ (Hok j Hj)) as Hs. split.
  - intros Hn. destruct (collect_opt _) as [gs|] eqn:Hg; [|done]. exfalso. apply Hn, Forall2_total.
    split; [done|]. intros j Hj. apply collect_opt_Some in Hg as [_ Hg].
    rewrite length_zip_with, length_fmap in Hg. specialize (Hg j ltac:(lia)).
    rewrite zip_with_total, fmap_total in Hg by (rewrite ?length_fmap; lia).
    destruct (Hs j Hj) as [(_ & _ & ?)|[Hno _]]; [done|congruence].
  - intros [_ Hc]%Forall2_total.
    set (dims := rectilinear_dim <$> edges). assert (length dims = length edges) as Hld by apply length_fmap.
    set (gs := zip_with dim_chunks ash dims).
    assert (grid_dims_ok dim_chunks rect_dim_ok ash gs dims) as Hwf.
    { split_and!; [lia|done|]. intros j Hj. unfold dims. rewrite fmap_total by lia.
      destruct (Hs j ltac:(lia)) as [(_ & ? & _)|[_ Hno]]; [done|]. destruct Hno. apply Hc. lia. }
    rewrite (proj2 (collect_opt_Some _ gs)).
    + exists (mk_rectilinear ash dims gs). split_and!; [done..|]. intros j el Hj Hnz.
      pose proof (lookup_lt_Some _ _ _ Hj) as Hlt. simpl. unfold rectilinear_chunk_edge_lengths, dims_chunk_edge_lengths. simpl.
      unfold dims_dimensionality. rewrite (proj2 (Nat.leb_gt _ _)) by lia.
      rewrite (list_lookup_lookup_total_lt ash) by lia. simpl. rewrite (proj2 (Z.eqb_neq _ _) Hnz).
      unfold dims. rewrite list_lookup_fmap, Hj. simpl. by rewrite scan_offsets_sizes.
    + unfold gs. rewrite !length_zip_with. split; [lia|]. intros j Hj. rewrite !zip_with_total by lia.
      unfold dims. rewrite !fmap_total by lia.
      destruct (Hs j ltac:(lia)) as [(? & _ & _)|[_ Hno]]; [done|]. destruct Hno. apply Hc. lia.
Qed.

Lemma rectilinear_new_spec_witness :
  ∃ g, RectilinearChunkGrid_new [10; 6] [EdgeVarying [Repeated 3 2; Single 4]; EdgeScalar 4] = Ok g ∧
    chunk_edge_lengths g 0 = Ok [3; 3; 4].
Proof.
  destruct (rectilinear_new_spec [10; 6] [EdgeVarying [Repeated 3 2; Single 4]; EdgeScalar 4]) as [_ H].
  destruct H as [_ H].
  - repeat constructor; vm_compute; intuition congruence.
  - destruct H as (g & Hg & _ & _ & He).
    + repeat constructor; vm_compute; intuition congruence.
    + exists g. split; [done|]. exact (He 0%nat _ eq_refl ltac:(done)).
Defined.

(** ** The run-length encoding *)

(** Runs are maximal: adjacent elements have different values, and a run of one is
    not written as a repetition. *)
Definition run_value (e : RunLengthElement) : Z := match e with Repeated v _ => v | Single v => v end.
Definition run_canonical (e : RunLengthElement) : Prop :=
  match e with Repeated _ c => 2 <= c | Single _ => True end.

Fixpoint runs_maximal (el : list RunLengthElement) : Prop :=
  match el with
  | e :: ((e' :: _) as el') => run_value e ≠ run_value e' ∧ runs_maximal el'
  | _ => True
  end.

Lemma decode_app el el' : decode (el ++ el') = decode el ++ decode el'.
Proof. induction el as [|[v c|v] el IH]; simpl; [done| |]; rewrite IH; [by rewrite app_assoc|done]. Qed.

Lemma push_run_length_spec result v count : 0 < count →
  ∃ e, push_run_length result v count = Ok (result ++ [e]) ∧ run_value e = v ∧ run_canonical e ∧
    decode [e] = replicate (Z.to_nat count) v.
Proof.
  intros Hc. unfold push_run_length. destruct (Z.eqb_spec count 1) as [->|Hne].
  - by exists (Single v).
  - unfold NonZeroU64_new. rewrite (proj2 (Z.eqb_neq _ _)) by lia. exists (Repeated v count). simpl.
    rewrite app_nil_r. split_and!; [done..|lia|done].
Qed.

Lemma runs_maximal_snoc el e : runs_maximal el → (∀ e', last el = Some e' → run_value e' ≠ run_value e) →
  runs_maximal (el ++ [e]).
Proof.
  induction el as [|a [|b el] IH]; intros H Hl; [done| |].
  - simpl. split; [by apply Hl|done].
  - destruct H as [Hab H]. split; [done|]. apply IH; [done|]. intros e' He'. by apply Hl.
Qed.

(** The loop extends a maximal encoding by the runs of the remaining sizes. *)
Lemma compress_loop_spec sizes result cur count :
  0 < count → count + zlen sizes < u64_modulus →
  runs_maximal result → Forall run_canonical result → (∀ e, last result = Some e → run_value e ≠ cur) →
  ∃ el, compress_loop sizes result cur count = Ok el ∧ runs_maximal el ∧ Forall run_canonical el ∧
    decode el = decode result ++ replicate (Z.to_nat count) cur ++ sizes.
Proof.
  revert result cur count. induction sizes as [|s sizes IH]; intros result cur count Hc Hf Hm Hr Hl; simpl.
  - destruct (push_run_length_spec result cur count Hc) as (e & -> & Hv & He & Hd).
    eexists. split_and!; [done|apply runs_maximal_snoc; [done|by rewrite Hv]|by apply Forall_app_2; [|constructor]|].
    by rewrite decode_app, Hd, app_nil_r.
  - simpl in Hf. destruct (Z.eqb_spec s cur) as [->|Hne].
    + rewrite wrap64_small by (unfold is_u64; lia).
      destruct (IH result cur (count + 1)) as (el & -> & ? & ? & Hd); [lia|lia|done..|].
      exists el. split_and!; try done. rewrite Hd. f_equal.
      replace (Z.to_nat (count + 1)) with (Z.to_nat count + 1)%nat by lia.
      by rewrite replicate_add, <-app_assoc.
    + destruct (push_run_length_spec result cur count Hc) as (e & -> & Hv & He & Hd). simpl.
      destruct (IH (result ++ [e]) s 1) as (el & -> & ? & ? & Hd'); [lia|lia|..].
      * apply runs_maximal_snoc; [done|by rewrite Hv].
      * by apply Forall_app_2; [|constructor].
      * intros e'. rewrite last_snoc. intros [= <-]. rewrite Hv. auto.
      * exists el. split_and!; try done. rewrite Hd', decode_app, Hd, <-app_assoc. done.
Qed.

Lemma encode_spec sizes : zlen sizes < u64_modulus →
  (∃ s, encode sizes = Ok (EdgeScalar s) ∧ sizes ≠ [] ∧ sizes = replicate (length sizes) s) ∨
  (∃ el, encode sizes = Ok (EdgeVarying el) ∧ decode el = sizes ∧ runs_maximal el ∧ Forall run_canonical el ∧
    ∀ s, sizes = replicate (length sizes) s → sizes = []).
Proof.
  intros Hl. unfold encode. destruct sizes as [|first sizes].
  { right. by exists []. }
  change (head (first :: sizes)) with (Some first). cbv iota beta.
  destruct (forallb (λ e, e =? first) (first :: sizes)) eqn:Hall.
  - left. exists first. split_and!; [done..|]. symmetry. apply replicate_as_elem_of. split; [done|].
    intros y Hy. rewrite forallb_forall in Hall. apply list_elem_of_In, Hall, Z.eqb_eq in Hy. done.
  - right. unfold compress_run_length. change (head (first :: sizes)) with (Some first). simpl. rewrite Z.eqb_refl, Z.add_0_l. change (wrap64 1) with 1.
    destruct (compress_loop_spec sizes [] first 1) as (el & -> & Hm & Hc & Hd); [lia| |done..|].
    { simpl in Hl. lia. }
    exists el. split_and!; try done. intros s Hs. exfalso. apply Bool.not_true_iff_false in Hall. apply Hall.
    apply forallb_forall. intros y Hy%list_elem_of_In. apply Z.eqb_eq.
    destruct (proj1 (replicate_as_elem_of s (length (first :: sizes)) _) (eq_sym Hs)) as [_ Hs']. rewrite (Hs' y Hy), (Hs' first); [done|]. apply list_elem_of_here.
Qed.

(** Encoding chunk edge lengths never panics and loses nothing: equal edges
    become a scalar, and any others a run-length encoding that decodes to the edges
    and whose runs are maximal. *)
Theorem edge_lengths_roundtrip (sizes : list Z) (Hl : zlen sizes < u64_modulus) :
  ∃ e, encode sizes = Ok e ∧
    match e with
    | EdgeScalar s => sizes ≠ [] ∧ sizes = replicate (length sizes) s
    | EdgeVarying el => decode el = sizes ∧ runs_maximal el ∧ Forall run_canonical el ∧
        ∀ s, sizes = replicate (length sizes) s → sizes = []
    end.
Proof. destruct (encode_spec sizes Hl) as [(s & He & H)|(el & He & H)]; eauto. Qed.

Lemma edge_lengths_roundtrip_witness :
  zlen [5; 5; 15; 20] < u64_modulus ∧ encode [5; 5; 15; 20] = Ok (EdgeVarying [Repeated 5 2; Single 15; Single 20]).
Proof.
  split; [reflexivity|].
  destruct (edge_lengths_roundtrip [5; 5; 15; 20] eq_refl) as (e & He & _).
  rewrite He. vm_compute in He. by injection He as <-.
Defined.

(** ** The configuration of a grid *)

(** No chunk of the dimension lies wholly past the array. *)
Definition tail_inside (len : Z) (d : grid_dim) : Prop :=
  match d with Fixed _ => True | Varying os => ∀ l, last os = Some l → os_offset l < len end.

Lemma Zsum_replicate n s : Zsum (replicate n s) = Z.of_nat n * s.
Proof. induction n as [|n IH]; [done|]. simpl. rewrite Zsum_cons, IH. lia. Qed.

(** Equal edges are the chunks of a fixed dimension. *)
Lemma fixed_of_equal_edges len n s : (0 < n)%nat → 0 < s → Z.of_nat n * s < u64_modulus →
  (Z.of_nat n - 1) * s < len <= Z.of_nat n * s →
  dim_ok len s ∧ div_ceil len s = Z.of_nat n ∧
  ∀ c, 0 <= c < Z.of_nat n →
    scan_offsets 0 (replicate n s) !!! Z.to_nat c = mk_os (c * s) s.
Proof.
  intros Hn Hs Hf Hlen. assert (div_ceil len s = Z.of_nat n) as Hd.
  { destruct (div_ceil_spec len s) as [?|[? _]]; nia. }
  split_and!; [unfold dim_ok; rewrite Hd; nia|done|]. intros c Hc.
  apply list_lookup_total_correct. rewrite scan_offsets_lookup.
  - rewrite take_replicate, Nat.min_l by lia. rewrite Zsum_replicate, lookup_total_replicate_2 by lia.
    do 2 f_equal. lia.
  - apply Forall_replicate. done.
  - lia.
  - rewrite Zsum_replicate. lia.
  - rewrite length_replicate. lia.
Qed.

Lemma dim_configuration_roundtrip len d : rect_dim_ok len d → 0 < len → tail_inside len d →
  ∃ e, rectilinear_dim_configuration d = Ok e ∧ rect_dim_ok len (rectilinear_dim e) ∧
    rectilinear_dim_grid_size len (rectilinear_dim e) = Some (dim_chunks len d) ∧
    dim_chunks len (rectilinear_dim e) = dim_chunks len d ∧
    ∀ c, 0 <= c < dim_chunks len d →
      ax_origin (rect_axis len (rectilinear_dim e)) c = ax_origin (rect_axis len d) c ∧
      ax_size (rect_axis len (rectilinear_dim e)) c = ax_size (rect_axis len d) c.
Proof.
  intros Hd Hl Ht. destruct d as [s|os].
  { exists (EdgeScalar s). simpl. by rewrite (proj2 (Z.eqb_neq len 0)) by lia. }
  destruct Hd as (sizes & -> & Hne & Hp & Hc & Hf). pose proof (length_le_Zsum _ Hp).
  simpl. rewrite scan_offsets_sizes.
  destruct (encode_spec sizes ltac:(lia)) as [(s & -> & _ & Hs)|(el & -> & Hel & _)].
  - set (n := length sizes) in *. assert (0 < n)%nat as Hn by (destruct sizes; [done|simpl in n; lia]).
    rewrite Hs in *. rewrite Zsum_replicate in *.
    assert (0 < s) as Hs0.
    { rewrite Forall_lookup in Hp. apply (Hp 0%nat). by apply lookup_replicate_2. }
    destruct (fixed_of_equal_edges len n s Hn Hs0 Hf) as (Hok & Hdiv & Hsc).
    { split; [|lia]. replace ((Z.of_nat n - 1) * s) with (os_offset (mk_os (0 + Zsum (take (pred n) (replicate n s))) s)).
      - apply Ht. rewrite last_lookup, length_scan_offsets, length_replicate, scan_offsets_lookup;
          rewrite ?length_replicate, ?Zsum_replicate; [|done|lia..].
        by rewrite lookup_total_replicate_2 by lia.
      - simpl. rewrite take_replicate, Zsum_replicate, Nat.min_l by lia.
        replace (Z.of_nat (pred n)) with (Z.of_nat n - 1) by lia. lia. }
    exists (EdgeScalar s). simpl. rewrite (proj2 (Z.eqb_neq len 0)) by lia.
    rewrite length_scan_offsets, length_replicate, Hdiv. split_and!; [done..|].
    intros c Hcn. by rewrite Hsc.
  - exists (EdgeVarying el). simpl. rewrite Hel. split_and!; [done|by exists sizes| |done|done].
    destruct (scan_offsets_last 0 sizes) as (l & -> & He); [done..|]. simpl.
    by rewrite He, (proj2 (Z.leb_le _ _)) by lia.
Qed.

(** Creating a rectilinear grid from the configuration another one reports
    gives a lawful grid with the same number of chunks and the same chunk subsets,
    provided no chunk lies wholly past the array.  Without the proviso the grid
    shape can change: equal edges are reported as a scalar, which drops the chunks
    past the array. *)
Theorem rectilinear_configuration_roundtrip (g : RectilinearChunkGrid) (Hg : grid_wf g)
    (Hnz : contains_zero (array_shape g) = false)
    (Ht : Forall2 tail_inside (rl_array_shape g) (rl_chunks g)) :
  (∃ cfg g', rectilinear_configuration g = Ok cfg ∧
     RectilinearChunkGrid_new (array_shape g) cfg = Ok g' ∧ grid_wf g' ∧
     array_shape g' = array_shape g ∧ grid_shape g' = grid_shape g ∧
     ∀ c, in_grid g c → chunk_subset g' c = chunk_subset g c) ∧
  (∃ g1 cfg g2, RectilinearChunkGrid_new [7] [EdgeVarying [Repeated 5 3]] = Ok g1 ∧
     rectilinear_configuration g1 = Ok cfg ∧ RectilinearChunkGrid_new [7] cfg = Ok g2 ∧
     grid_shape g1 = [3] ∧ grid_shape g2 = [2]).
Proof.
  split; [|by do 3 eexists; repeat split].
  apply Forall2_total in Ht as [_ Ht]. pose proof Hg as (Hl & Hgs & Hd).
  destruct g as [ash chunks gsh]. cbn [rl_array_shape rl_chunks rl_grid_shape array_shape grid_shape rectilinear_grid] in *.
  destruct (choose_list (length chunks) (λ j e, rectilinear_dim_configuration (chunks !!! j) = Ok e ∧
    rect_dim_ok (ash !!! j) (rectilinear_dim e) ∧
    rectilinear_dim_grid_size (ash !!! j) (rectilinear_dim e) = Some (dim_chunks (ash !!! j) (chunks !!! j)) ∧
    dim_chunks (ash !!! j) (rectilinear_dim e) = dim_chunks (ash !!! j) (chunks !!! j) ∧
    ∀ c, 0 <= c < dim_chunks (ash !!! j) (chunks !!! j) →
      ax_origin (rect_axis (ash !!! j) (rectilinear_dim e)) c = ax_origin (rect_axis (ash !!! j) (chunks !!! j)) c ∧
      ax_size (rect_axis (ash !!! j) (rectilinear_dim e)) c = ax_size (rect_axis (ash !!! j) (chunks !!! j)) c))
    as (cfg & Hlc & Hcfg).
  { intros j Hj. apply dim_configuration_roundtrip; [by apply Hd| |by apply Ht; lia].
    pose proof (ax_len_nonneg _ (rect_axis_ok _ _ (Hd j Hj))) as H0. rewrite rect_axis_len in H0.
    pose proof (proj1 (contains_zero_false _) Hnz j ltac:(lia)). lia. }
  set (chunks' := rectilinear_dim <$> cfg). assert (length chunks' = length chunks) as Hlc' by (unfold chunks'; by rewrite length_fmap).
  assert (∀ j, (j < length chunks)%nat → chunks' !!! j = rectilinear_dim (cfg !!! j)) as Hc'.
  { intros j Hj. unfold chunks'. by rewrite fmap_total by lia. }
  assert (grid_dims_ok dim_chunks rect_dim_ok ash gsh chunks') as Hwf'.
  { split_and!; [lia| |].
    - rewrite Hgs. apply list_eq_total; rewrite !length_zip_with; [lia|]. intros j Hj.
      rewrite !zip_with_total, Hc' by lia. symmetry. by apply Hcfg; lia.
    - intros j Hj. rewrite Hc' by lia. by apply Hcfg; lia. }
  exists cfg, (mk_rectilinear ash chunks' gsh). split_and!; [| |done..|].
  - unfold rectilinear_configuration. cbn [rl_chunks].
    replace (rectilinear_dim_configuration <$> chunks) with (Ok (E:=unit) <$> cfg); [by rewrite collect_res_Ok|].
    apply list_eq_same_length with (length chunks); rewrite ?length_fmap; [done|done|].
    intros j x y Hj. rewrite !list_lookup_fmap, !list_lookup_lookup_total_lt by lia. simpl.
    destruct (Hcfg j Hj) as [-> _]. congruence.
  - unfold RectilinearChunkGrid_new. rewrite (proj2 (Nat.eqb_eq _ _)) by lia. simpl. fold chunks'.
    rewrite (proj2 (collect_opt_Some _ gsh)); [done|]. rewrite Hgs, !length_zip_with. split; [lia|].
    intros j Hj. rewrite !zip_with_total, Hc' by lia. by apply Hcfg; lia.
  - intros c Hc. set (g := mk_rectilinear ash chunks gsh) in *. set (g' := mk_rectilinear ash chunks' gsh).
    assert (grid_wf g') as Hg' by exact Hwf'.
    rewrite (chunk_subset_law g c Hg Hc), (chunk_subset_law g' c Hg' Hc). do 2 f_equal.
    destruct Hc as [Hc Hz]. assert (grid_dims_ok dim_chunks rect_dim_ok ash gsh chunks) as Hd0 by exact Hg.
    destruct (in_grid_of rect_axis rect_axis_len rect_axis_ok ash gsh chunks Hd0 c Hc Hz) as [Hlcc Hcj].
    change (mk_subset (axes_origin (zip_with rect_axis ash chunks') c) (axes_size (zip_with rect_axis ash chunks') c) =
      mk_subset (axes_origin (zip_with rect_axis ash chunks) c) (axes_size (zip_with rect_axis ash chunks) c)).
    assert (length c = length chunks') as Hlc2 by lia.
    f_equal; apply list_eq_total;
      rewrite ?(length_axes_origin_of rect_axis _ _ _ Hwf' c Hlc2), ?(length_axes_size_of rect_axis _ _ _ Hwf' c Hlc2),
        ?(length_axes_origin_of rect_axis _ _ _ Hd0 c Hlcc), ?(length_axes_size_of rect_axis _ _ _ Hd0 c Hlcc); try lia;
      intros j Hj; rewrite ?(axes_origin_of rect_axis _ _ _ Hwf'), ?(axes_origin_of rect_axis _ _ _ Hd0),
        ?(axes_size_of rect_axis _ _ _ Hwf'), ?(axes_size_of rect_axis _ _ _ Hd0), Hc' by lia;
      apply Hcfg; [lia|apply Hcj; lia|lia|apply Hcj; lia].
Qed.

Lemma rectilinear_configuration_roundtrip_witness :
  ∃ cfg, rectilinear_configuration (mk_rectilinear [7; 6] [Varying [mk_os 0 5; mk_os 5 5]; Fixed 2] [2; 3]) = Ok cfg ∧
    cfg = [EdgeScalar 5; EdgeScalar 2].
Proof.
  destruct (rectilinear_configuration_roundtrip (mk_rectilinear [7; 6] [Varying [mk_os 0 5; mk_os 5 5]; Fixed 2] [2; 3]))
    as [(cfg & g' & Hc & _) _].
  - split; [done|split; [reflexivity|]]. intros [|[|j]] Hj; simpl in *; [| |lia].
    + exists [5; 5]. repeat split; try done. by repeat constructor.
    + by repeat split.
  - reflexivity.
  - repeat constructor; intros l [= <-]; reflexivity.
  - exists cfg. split; [done|]. vm_compute in Hc. by injection Hc as <-.
Defined.

(** ** The rectangular grid *)

Definition edges_of (s : RectangularDimConfiguration) : ChunkEdgeLengths :=
  match s with RectFixed f => EdgeScalar f | RectVarying sizes => EdgeVarying (Single <$> sizes) end.

(** The chunks of a rectangular dimension end at the array. *)
Definition rect_covers (len : Z) (s : RectangularDimConfiguration) : Prop :=
  match s with RectFixed _ => True | RectVarying sizes => len = Zsum sizes end.

Definition rect_nonempty (s : RectangularDimConfiguration) : Prop :=
  match s with RectFixed _ => True | RectVarying sizes => sizes ≠ [] end.

#[export] Instance rect_configuration_inhabited : Inhabited RectangularDimConfiguration := populate (RectFixed 1).

Lemma decode_single sizes : decode (Single <$> sizes) = sizes.
Proof. induction sizes as [|s sizes IH]; [done|]. simpl. by f_equal. Qed.

Lemma rectangular_dim_edges s : rectilinear_dim (edges_of s) = rectangular_dim s.
Proof. destruct s as [f|sizes]; [done|]. simpl. by rewrite decode_single. Qed.

Lemma rectangular_dim_grid_size_spec len s : edges_ok len (edges_of s) → rect_nonempty s →
  rectangular_dim_grid_size len (rectangular_dim s) = Some (dim_chunks len (rectangular_dim s)) ∧
    rect_dim_ok len (rectangular_dim s) ∧ rect_covers len s ∧ edges_cover len (edges_of s) ∨
  rectangular_dim_grid_size len (rectangular_dim s) = None ∧ ¬ rect_covers len s.
Proof.
  destruct s as [f|sizes]; simpl; [by intros [_ ?]; left|]. rewrite decode_single. intros (Hl & Hr & Hf) Hne.
  apply decode_pos in Hr. rewrite decode_single in Hr, Hf.
  destruct (scan_offsets_last 0 sizes) as (l & -> & Hle); [done..|]. simpl. rewrite Hle, Z.add_0_l.
  destruct (Z.eqb_spec len (Zsum sizes)); [left|by right]. split_and!; try done; [|lia].
  exists sizes. split_and!; done || lia.
Qed.

(** A rectangular grid whose varying dimensions list at least one chunk is
    created exactly when the listed chunks end at the array.  It then is lawful,
    reports its configuration back, and has the same chunks as the rectilinear grid
    of the same edges, which locates every element of the array identically. *)
Theorem rectangular_agrees_with_rectilinear (ash : list Z) (shapes : list RectangularDimConfiguration)
    (Hok : Forall2 edges_ok ash (edges_of <$> shapes)) (Hne : Forall rect_nonempty shapes) :
  (¬ Forall2 rect_covers ash shapes → RectangularChunkGrid_new ash shapes = Err GridCreateOther) ∧
  (Forall2 rect_covers ash shapes → ∃ g g',
     RectangularChunkGrid_new ash shapes = Ok g ∧ grid_wf g ∧ array_shape g = ash ∧
     rectangular_configuration g = shapes ∧
     RectilinearChunkGrid_new ash (edges_of <$> shapes) = Ok g' ∧ grid_shape g' = grid_shape g ∧
     (∀ i, index_in i ash → chunk_indices g' i = chunk_indices g i ∧
        chunk_element_indices g' i = chunk_element_indices g i) ∧
     (∀ c, in_grid g c → chunk_subset g' c = chunk_subset g c)).
Proof.
  apply Forall2_total in Hok as [Hl Hok]. rewrite length_fmap in Hl.
  assert (∀ j, (j < length shapes)%nat → edges_ok (ash !!! j) (edges_of (shapes !!! j))) as Hok'.
  { intros j Hj. specialize (Hok j ltac:(lia)). by rewrite fmap_total in Hok by done. }
  pose proof (λ j Hj, rectangular_dim_grid_size_spec _ _ (Hok' j Hj) (proj1 (Forall_total _ _) Hne j Hj)) as Hs.
  unfold RectangularChunkGrid_new, RectilinearChunkGrid_new. rewrite length_fmap, (proj2 (Nat.eqb_eq _ _) Hl). simpl. split.
  - intros Hn. destruct (collect_opt _) as [gs|] eqn:Hg; [|done]. exfalso. apply Hn, Forall2_total.
    split; [done|]. intros j Hj. apply collect_opt_Some in Hg as [_ Hg].
    rewrite length_zip_with, length_fmap in Hg. specialize (Hg j ltac:(lia)).
    rewrite zip_with_total, fmap_total in Hg by (rewrite ?length_fmap; lia).
    destruct (Hs j ltac:(lia)) as [(_ & _ & ? & _)|[Hno _]]; [done|congruence].
  - intros [_ Hc]%Forall2_total.
    assert (rectilinear_dim <$> (edges_of <$> shapes) = rectangular_dim <$> shapes) as ->.
    { rewrite list_fmap_fmap. apply list_fmap_ext_in. intros s _. apply rectangular_dim_edges. }
    set (dims := rectangular_dim <$> shapes). assert (length dims = length shapes) as Hld by apply length_fmap.
    set (gs := zip_with dim_chunks ash dims).
    assert (∀ j, (j < length shapes)%nat → dims !!! j = rectangular_dim (shapes !!! j)) as Hdims.
    { intros j Hj. unfold dims. by rewrite fmap_total. }
    assert (∀ j, (j < length shapes)%nat →
      rectangular_dim_grid_size (ash !!! j) (dims !!! j) = Some (dim_chunks (ash !!! j) (dims !!! j)) ∧
      rectilinear_dim_grid_size (ash !!! j) (dims !!! j) = Some (dim_chunks (ash !!! j) (dims !!! j)) ∧
      rect_dim_ok (ash !!! j) (dims !!! j)) as Hj.
    { intros j Hj. rewrite Hdims by done. destruct (Hs j Hj) as [(? & ? & _ & ?)|[_ Hno]]; [|destruct Hno; apply Hc; lia].
      destruct (rectilinear_dim_grid_size_spec _ _ (Hok' j Hj)) as [(Hg1 & _)|[_ Hno]]; [|done].
      by rewrite rectangular_dim_edges in Hg1. }
    assert (grid_dims_ok dim_chunks rect_dim_ok ash gs dims) as Hwf.
    { split_and!; [lia|done|]. intros j Hlt. apply Hj. lia. }
    exists (mk_rectangular ash dims gs), (mk_rectilinear ash dims gs).
    split_and!; [|done|done| | |done| |].
    + rewrite (proj2 (collect_opt_Some _ gs)); [done|]. unfold gs. rewrite !length_zip_with. split; [done|].
      intros j Hlt. rewrite !zip_with_total by lia. apply Hj. lia.
    + unfold rectangular_configuration. simpl. unfold dims. rewrite list_fmap_fmap.
      rewrite <-(list_fmap_id shapes) at 2. apply list_fmap_ext_in. intros [f|sizes] _; [done|].
      simpl. by rewrite scan_offsets_sizes.
    + rewrite (proj2 (collect_opt_Some _ gs)); [done|]. unfold gs. rewrite !length_zip_with. split; [done|].
      intros j Hlt. rewrite !zip_with_total by lia. apply Hj. lia.
    + intros i Hi. simpl. destruct (dims_chunk_indices_law _ _ _ Hwf i Hi) as (c & Hc1 & Hc2 & Hh & Hgr & Hli & He).
      unfold rectilinear_chunk_indices, rectilinear_chunk_element_indices, rectangular_chunk_element_indices,
        rectangular_chunk_indices, rectangular_dimensionality, rectilinear_dimensionality, rectangular_chunk_origin. simpl.
      rewrite (proj2 (Nat.eqb_eq _ _) Hli), (index_in_nonzero _ _ Hi), Hc1, Hc2, He. simpl.
      rewrite (proj2 (dims_laws _ _ _ Hwf c Hgr)). simpl. split; [done|]. do 2 f_equal.
      symmetry. apply (element_indices_wrap (zip_with rect_axis ash dims)); [|done..].
      apply (axes_of_ok rect_axis rect_axis_ok _ _ _ Hwf).
    + done.
Qed.

Lemma rectangular_agrees_with_rectilinear_witness :
  ∃ g, RectangularChunkGrid_new [10; 7] [RectVarying [4; 6]; RectFixed 3] = Ok g ∧
    chunk_indices g [4; 6] = Ok (Some [1; 2]).
Proof.
  destruct (rectangular_agrees_with_rectilinear [10; 7] [RectVarying [4; 6]; RectFixed 3]) as [_ H].
  - repeat constructor; vm_compute; intuition congruence.
  - by repeat constructor.
  - destruct H as (g & g' & Hg & _).
    + repeat constructor; vm_compute; intuition congruence.
    + exists g. split; [done|]. vm_compute in Hg. injection Hg as <-. reflexivity.
Defined.
