(* ===== verification/RepeatGrid.v ===== *)
(** The repeating chunk grid: [zarrs/src/array/chunk_grid/repeat.rs].

    A [RepeatChunkGrid] tiles an array with copies of the array of an inner grid;
    the sharding codec uses it for the grid of subchunks.  The inner grid is any
    instance of [ChunkGridTraits]; when it is lawful, so is the repeated grid. *)

From S2P Require Import Prelude ArraySubset Linear Iterators ChunkGrid RegularGrid.

Inductive RepeatChunkGridCreateError :=
| RepeatIncompatibleDimensionality (got expected : nat)
| ZeroRepeat (dimension : nat)
| ShapeOverflow
| InnerChunkEdgeLengthsMismatch (dimension : nat)
    (edge_count edge_sum expected_edge_count expected_edge_sum : Z)
| RepeatIncompatibleDimension (got expected : nat).

(** [Iterator::position]. *)
Fixpoint position {A} (p : A → bool) (l : list A) : option nat :=
  match l with
  | [] => None
  | x :: l => if p x then Some 0%nat else S <$> position p l
  end.

Section repeat.
Context {G : Type} `{!ChunkGridTraits G}.

Record RepeatChunkGrid := mk_repeat {
  rp_shape : list Z;
  rp_repeats : list Z;
  rp_array_shape : list Z;
  rp_grid_shape : list Z;
  rp_inner : G }.

(** The loop over the dimensions in [new]: the inner grid's edge lengths are as
    many as its chunks and sum to its array. *)
Fixpoint repeat_check_edges (shape : list Z) (inner : G) (dims : list nat)
    : outcome RepeatChunkGridCreateError unit :=
  match dims with
  | [] => Ok tt
  | dimension :: dims =>
      let? inner_edge_lengths :=
        map_err (fun _ => RepeatIncompatibleDimension dimension (length shape)) (chunk_edge_lengths inner dimension) in
      let inner_edge_length_count := zlen inner_edge_lengths in
      let? inner_edge_length_sum := ok_or ShapeOverflow (checked_sum inner_edge_lengths) in
      let? grid := expect (grid_shape inner !! dimension) in
      let? size := expect (shape !! dimension) in
      if negb (inner_edge_length_count =? grid) || negb (inner_edge_length_sum =? size) then
        Err (InnerChunkEdgeLengthsMismatch dimension inner_edge_length_count inner_edge_length_sum grid size)
      else repeat_check_edges shape inner dims
  end.

Definition RepeatChunkGrid_new (repeats : list Z) (inner_chunk_grid : G)
    : outcome RepeatChunkGridCreateError RepeatChunkGrid :=
  let shape := array_shape inner_chunk_grid in
  if negb (grid_dimensionality inner_chunk_grid =? length shape)%nat then
    Err (RepeatIncompatibleDimensionality (grid_dimensionality inner_chunk_grid) (length shape))
  else if negb (length shape =? length repeats)%nat then
    Err (RepeatIncompatibleDimensionality (length repeats) (length shape))
  else match position (fun repeat => repeat =? 0) repeats with
  | Some dimension => Err (ZeroRepeat dimension)
  | None =>
      let? array_shape := ok_or ShapeOverflow
        (collect_opt (zip_with (fun shape repeats => checked_mul shape repeats) shape repeats)) in
      let? grid_shape := ok_or ShapeOverflow
        (collect_opt (zip_with (fun inner_grid_shape repeats => checked_mul inner_grid_shape repeats)
           (grid_shape inner_chunk_grid) repeats)) in
      let? _ := repeat_check_edges shape inner_chunk_grid (seq 0 (length shape)) in
      Ok (mk_repeat shape repeats array_shape grid_shape inner_chunk_grid)
  end.

Definition repeat_dimensionality (self : RepeatChunkGrid) : nat := length (rp_shape self).

Definition check_dimensionality (self : RepeatChunkGrid) (dimensionality : nat) : outcome GridError unit :=
  if (dimensionality =? repeat_dimensionality self)%nat then Ok tt
  else Err (IncompatibleDimensionalityError dimensionality (repeat_dimensionality self)).

Definition has_zero_sized_dimension (self : RepeatChunkGrid) : bool := contains_zero (rp_array_shape self).

(** [array_indices_inbounds] and [chunk_indices_inbounds] of the trait. *)
Definition repeat_inbounds (self : RepeatChunkGrid) (shape indices : list Z) : bool :=
  (length indices =? repeat_dimensionality self)%nat &&
  zip_all (fun index shape => index <? shape) indices shape.

Definition repeat_div_mod (index size : Z) : option (Z * Z) :=
  if size =? 0 then None else Some (index / size, index mod size).

Definition unzip_pairs (l : list (Z * Z)) : list Z * list Z := (fst <$> l, snd <$> l).

Definition repeat_inner_chunk_indices (self : RepeatChunkGrid) (chunk_indices : list Z)
    : option (list Z * list Z) :=
  if has_zero_sized_dimension self || negb (repeat_inbounds self (rp_grid_shape self) chunk_indices) then None
  else unzip_pairs <$> collect_opt (zip_with repeat_div_mod chunk_indices (grid_shape (rp_inner self))).

Definition local_array_indices (self : RepeatChunkGrid) (array_indices : list Z) : option (list Z * list Z) :=
  if has_zero_sized_dimension self || negb (repeat_inbounds self (rp_array_shape self) array_indices) then None
  else unzip_pairs <$> collect_opt (zip_with repeat_div_mod array_indices (rp_shape self)).

Definition offset_origin (self : RepeatChunkGrid) (repeat_indices inner_origin : list Z) : list Z :=
  zip_with3 (fun repeat_index shape inner_origin => repeat_index *w shape +w inner_origin)
    repeat_indices (rp_shape self) inner_origin.

Definition repeat_chunk_edge_lengths (self : RepeatChunkGrid) (dimension : nat) : outcome GridError (list Z) :=
  if (repeat_dimensionality self <=? dimension)%nat then
    Err (IncompatibleDimensionError dimension (repeat_dimensionality self))
  else
    let? inner_edge_lengths := chunk_edge_lengths (rp_inner self) dimension in
    let? repeats := expect (rp_repeats self !! dimension) in
    Ok (seq 0 (Z.to_nat repeats) ≫= fun _ => inner_edge_lengths).

Definition repeat_chunk_shape (self : RepeatChunkGrid) (chunk_indices : list Z) : grid_result (list Z) :=
  let? _ := check_dimensionality self (length chunk_indices) in
  match repeat_inner_chunk_indices self chunk_indices with
  | None => Ok None
  | Some (_, inner_chunk_indices) => chunk_shape (rp_inner self) inner_chunk_indices
  end.

Definition repeat_chunk_shape_u64 (self : RepeatChunkGrid) (chunk_indices : list Z) : grid_result (list Z) :=
  let? _ := check_dimensionality self (length chunk_indices) in
  match repeat_inner_chunk_indices self chunk_indices with
  | None => Ok None
  | Some (_, inner_chunk_indices) => chunk_shape_u64 (rp_inner self) inner_chunk_indices
  end.

Definition repeat_chunk_origin (self : RepeatChunkGrid) (chunk_indices : list Z) : grid_result (list Z) :=
  let? _ := check_dimensionality self (length chunk_indices) in
  match repeat_inner_chunk_indices self chunk_indices with
  | None => Ok None
  | Some (repeat_indices, inner_chunk_indices) =>
      let? inner_origin := chunk_origin (rp_inner self) inner_chunk_indices in
      Ok (offset_origin self repeat_indices <$> inner_origin)
  end.

Definition repeat_chunk_indices (self : RepeatChunkGrid) (array_indices : list Z) : grid_result (list Z) :=
  let? _ := check_dimensionality self (length array_indices) in
  match local_array_indices self array_indices with
  | None => Ok None
  | Some (repeat_indices, local_array_indices) =>
      let? inner := chunk_indices (rp_inner self) local_array_indices in
      match inner with
      | None => Ok None
      | Some inner_chunk_indices =>
          Ok (Some (zip_with3 (fun repeat_index inner_chunk_index inner_grid_shape =>
            repeat_index *w inner_grid_shape +w inner_chunk_index)
            repeat_indices inner_chunk_indices (grid_shape (rp_inner self))))
      end
  end.

Definition repeat_chunk_element_indices (self : RepeatChunkGrid) (array_indices : list Z) : grid_result (list Z) :=
  let? _ := check_dimensionality self (length array_indices) in
  match local_array_indices self array_indices with
  | None => Ok None
  | Some (_, local_array_indices) => chunk_element_indices (rp_inner self) local_array_indices
  end.
End repeat.
Arguments RepeatChunkGrid : clear implicits.

#[export] Instance repeat_grid {G} `{!ChunkGridTraits G} : ChunkGridTraits (RepeatChunkGrid G) := {
  grid_dimensionality := repeat_dimensionality;
  array_shape := rp_array_shape;
  grid_shape := rp_grid_shape;
  chunk_edge_lengths := repeat_chunk_edge_lengths;
  chunk_shape := repeat_chunk_shape;
  chunk_shape_u64 := repeat_chunk_shape_u64;
  chunk_origin := repeat_chunk_origin;
  chunk_subset := default_subset repeat_chunk_origin repeat_chunk_shape;
  chunk_indices := repeat_chunk_indices;
  chunk_element_indices := repeat_chunk_element_indices;
  array_indices_inbounds g := default_array_indices_inbounds (repeat_dimensionality g) (rp_array_shape g) }.

(** ** Repeated axes *)

(** The axis of an array size from the inner axis and the number of copies. *)
Definition repeat_axis (len : Z) (d : axis * Z) : axis :=
  let '(a, r) := d in
  mk_axis len (ax_n a * r) (λ c, c / ax_n a * ax_len a + ax_origin a (c mod ax_n a)) (λ c, ax_size a (c mod ax_n a)).

Definition repeat_chunks (len : Z) (d : axis * Z) : Z := let '(a, r) := d in ax_n a * r.

(** A valid dimension: the chunks of the inner axis end at its array, and the
    repeated sizes do not overflow. *)
Definition repeat_dim_ok (len : Z) (d : axis * Z) : Prop :=
  let '(a, r) := d in
  axis_ok a ∧ 0 < r ∧ len = ax_len a * r ∧ ax_end a = ax_len a ∧ len < u64_modulus ∧ ax_n a * r < u64_modulus.

Lemma repeat_axis_len len d : ax_len (repeat_axis len d) = len.
Proof. by destruct d. Qed.

Lemma repeat_axis_n len d : ax_n (repeat_axis len d) = repeat_chunks len d.
Proof. by destruct d. Qed.

Lemma div_mod_step n c : 0 < n →
  ((c + 1) / n = c / n ∧ (c + 1) mod n = c mod n + 1 ∧ c mod n + 1 < n) ∨
  ((c + 1) / n = c / n + 1 ∧ (c + 1) mod n = 0 ∧ c mod n = n - 1).
Proof.
  intros Hn. pose proof (Z.div_mod c n). pose proof (Z.mod_pos_bound c n Hn).
  destruct (decide (c mod n + 1 < n)); [left|right].
  - destruct (div_mod_unique_pos n (c / n) (c mod n + 1) (c + 1)); lia.
  - destruct (div_mod_unique_pos n (c / n + 1) 0 (c + 1)); lia.
Qed.

Lemma repeat_axis_ok len d : repeat_dim_ok len d → axis_ok (repeat_axis len d).
Proof.
  destruct d as [a r]. intros (Ha & Hr & -> & He & Hl & Hn). pose proof (ax_n_nonneg a Ha).
  pose proof (ax_len_nonneg a Ha). assert (ax_n a = 0 ∨ 0 < ax_n a) as [Hz|Hp] by lia.
  { assert (ax_len a = 0) as Hz' by (rewrite <-He; unfold ax_end; by rewrite Hz).
    split; unfold ax_end; simpl; rewrite ?Hz', ?Hz; try (intros; lia); done. }
  assert (ax_end (repeat_axis (ax_len a * r) (a, r)) = ax_len a * r) as Hend.
  { unfold ax_end at 1. simpl. rewrite (proj2 (Z.eqb_neq _ _)) by nia.
    destruct (div_mod_unique_pos (ax_n a) (r - 1) (ax_n a - 1) (ax_n a * r - 1)) as [-> ->]; [lia|lia|].
    unfold ax_end in He. rewrite (proj2 (Z.eqb_neq _ _)) in He by lia. lia. }
  split; rewrite ?Hend; simpl; [nia|nia| | | |lia|lia].
  - intros _. rewrite Z.div_0_l, Z.mod_0_l, (ax_origin_0 a Ha) by lia. done.
  - intros c Hc. apply (ax_size_pos a Ha). by apply Z.mod_pos_bound.
  - intros c Hc0 Hc. pose proof (Z.mod_pos_bound c (ax_n a) Hp).
    destruct (div_mod_step (ax_n a) c Hp) as [(-> & -> & ?)|(-> & -> & Hm)].
    + rewrite (ax_adjacent a Ha) by lia. lia.
    + rewrite (ax_origin_0 a Ha), Hm by lia. unfold ax_end in He. rewrite (proj2 (Z.eqb_neq _ _)) in He by lia. nia.
Qed.

(** A chunk of a copy is a chunk of the inner axis, moved by whole arrays. *)
Lemma repeat_axis_holds len a r q m x : repeat_dim_ok len (a, r) → 0 <= q < r → ax_holds a m x →
  ax_holds (repeat_axis len (a, r)) (q * ax_n a + m) (q * ax_len a + x).
Proof.
  intros (Ha & Hr & -> & He & Hl & Hn) Hq [Hm Hx]. split; simpl; [nia|].
  destruct (div_mod_unique_pos (ax_n a) q m (q * ax_n a + m)) as [-> ->]; lia.
Qed.

(** [r] copies of a list are the lists of [r] equal blocks. *)
Lemma repeat_bind_seqZ {A} (l : list A) (f : Z → list A) r :
  (∀ k, 0 <= k < r → f k = l) → (seq 0 (Z.to_nat r) ≫= λ _, l) = (seqZ 0 r ≫= f).
Proof.
  intros H. unfold seqZ. rewrite list_fmap_bind. apply list_bind_ext_in.
  intros k Hk%elem_of_seq. unfold compose. symmetry. apply H. lia.
Qed.

Section repeat_laws.
Context {G : Type} `{LawfulChunkGrid G}.

Definition repeat_dims (g : RepeatChunkGrid G) : list (axis * Z) := zip (grid_axes (rp_inner g)) (rp_repeats g).

Definition repeat_wf (g : RepeatChunkGrid G) : Prop :=
  grid_wf (rp_inner g) ∧ rp_shape g = array_shape (rp_inner g) ∧
  length (rp_repeats g) = length (grid_axes (rp_inner g)) ∧
  grid_dims_ok repeat_chunks repeat_dim_ok (rp_array_shape g) (rp_grid_shape g) (repeat_dims g).

Definition repeat_axes (g : RepeatChunkGrid G) : list axis := zip_with repeat_axis (rp_array_shape g) (repeat_dims g).

Context (g : RepeatChunkGrid G) (Hg : repeat_wf g).

#[local] Abbreviation axes := (repeat_axes g).
#[local] Abbreviation inner := (grid_axes (rp_inner g)).
#[local] Abbreviation n := (length (grid_axes (rp_inner g))).

Lemma repeat_lengths : length (repeat_dims g) = n ∧ length (rp_shape g) = n ∧
  length (rp_array_shape g) = n ∧ length (rp_grid_shape g) = n ∧ length (grid_shape (rp_inner g)) = n.
Proof.
  destruct Hg as (Hw & Hs & Hr & Hl & Hgs & _). unfold repeat_dims in *. rewrite length_zip_with in Hl.
  rewrite Hgs, Hs, !length_zip_with, length_array_shape, length_grid_shape by done. lia.
Qed.

Lemma repeat_dims_total j : (j < n)%nat → repeat_dims g !!! j = (inner !!! j, rp_repeats g !!! j).
Proof. destruct Hg as (_ & _ & Hr & _). intros Hj. unfold repeat_dims. by rewrite zip_with_total by lia. Qed.

Lemma repeat_dim j : (j < n)%nat → repeat_dim_ok (rp_array_shape g !!! j) (inner !!! j, rp_repeats g !!! j) ∧
  rp_shape g !!! j = ax_len (inner !!! j) ∧ grid_shape (rp_inner g) !!! j = ax_n (inner !!! j) ∧
  rp_grid_shape g !!! j = ax_n (inner !!! j) * rp_repeats g !!! j.
Proof.
  intros Hj. pose proof repeat_lengths as (Hl1 & Hl2 & Hl3 & Hl4 & Hl5).
  destruct Hg as (Hw & Hs & Hr & _ & Hgs & Hd). rewrite <-repeat_dims_total by done.
  split_and!; [apply Hd; lia|..].
  - by rewrite Hs, array_shape_law, fmap_total by done.
  - by rewrite grid_shape_law, fmap_total by done.
  - rewrite Hgs, zip_with_total, repeat_dims_total by lia. done.
Qed.

Lemma repeat_nonzero : contains_zero (rp_array_shape g) = false → contains_zero (array_shape (rp_inner g)) = false.
Proof.
  pose proof repeat_lengths as (Hl1 & Hl2 & Hl3 & Hl4 & Hl5). destruct Hg as (Hw & Hs & _).
  rewrite !contains_zero_false, <-Hs. intros Hz j Hj. specialize (Hz j ltac:(lia)).
  destruct (repeat_dim j ltac:(lia)) as ((_ & _ & He & _) & -> & _). nia.
Qed.

Lemma repeat_inbounds_true sh ix : length sh = n → index_in ix sh → repeat_inbounds g sh ix = true.
Proof.
  intros Hsh [Hl Hi]%Forall2_total. pose proof repeat_lengths as (_ & Hl2 & _). unfold repeat_inbounds, repeat_dimensionality.
  apply andb_true_iff. split; [apply Nat.eqb_eq; lia|]. apply zip_all_true; [lia|]. intros j Hj. specialize (Hi j Hj). lia.
Qed.

Lemma div_mod_pairs ix sh : length ix = length sh → (∀ j, (j < length sh)%nat → sh !!! j ≠ 0) →
  unzip_pairs <$> collect_opt (zip_with repeat_div_mod ix sh) =
  Some (zip_with (λ i s, i / s) ix sh, zip_with (λ i s, i mod s) ix sh).
Proof.
  intros Hl Hz. rewrite (proj2 (collect_opt_Some _ (zip_with (λ i s, (i / s, i mod s)) ix sh))).
  - simpl. unfold unzip_pairs. f_equal. by rewrite !fmap_zip_with_eq.
  - rewrite !length_zip_with. split; [done|]. intros j Hj. rewrite !zip_with_total by lia.
    unfold repeat_div_mod. by rewrite (proj2 (Z.eqb_neq _ _)) by (apply Hz; lia).
Qed.

(** The copy and the inner chunk of a chunk of the grid. *)
Lemma repeat_inner_law c (q := zip_with (λ i s, i / s) c (grid_shape (rp_inner g)))
    (m := zip_with (λ i s, i mod s) c (grid_shape (rp_inner g))) :
  in_grid g c →
  repeat_inner_chunk_indices g c = Some (q, m) ∧ length c = n ∧ length q = n ∧ length m = n ∧
  check_dimensionality g (length c) = Ok tt ∧ in_grid (rp_inner g) m ∧
  ∀ j, (j < n)%nat → q !!! j = c !!! j / ax_n (inner !!! j) ∧ m !!! j = c !!! j mod ax_n (inner !!! j) ∧
    0 <= q !!! j < rp_repeats g !!! j ∧ 0 < ax_n (inner !!! j) ∧ 0 <= c !!! j < ax_n (inner !!! j) * rp_repeats g !!! j.
Proof.
  intros [Hc Hz]. simpl in Hc, Hz. pose proof repeat_lengths as (Hl1 & Hl2 & Hl3 & Hl4 & Hl5).
  pose proof (repeat_inbounds_true _ _ Hl4 Hc) as Hin. apply Forall2_total in Hc as [Hlc Hc].
  assert (∀ j, (j < n)%nat → 0 < ax_n (inner !!! j) ∧ 0 <= c !!! j < ax_n (inner !!! j) * rp_repeats g !!! j) as Hcj.
  { intros j Hj. specialize (Hc j ltac:(lia)). destruct (repeat_dim j Hj) as ((Hax & Hr & _) & _ & _ & Hgj).
    rewrite Hgj in Hc. pose proof (ax_n_nonneg _ Hax). split; [nia|lia]. }
  assert (∀ j, (j < n)%nat → grid_shape (rp_inner g) !!! j = ax_n (inner !!! j)) as Hgs by (intros j Hj; by apply repeat_dim).
  assert (length q = n ∧ length m = n) as [Hlq Hlm] by (unfold q, m; rewrite !length_zip_with; lia).
  split_and!; [|lia|done|done| | |].
  - unfold repeat_inner_chunk_indices, has_zero_sized_dimension. rewrite Hz, Hin. simpl.
    apply div_mod_pairs; [lia|]. intros j Hj. rewrite Hgs by lia. destruct (Hcj j ltac:(lia)). lia.
  - unfold check_dimensionality, repeat_dimensionality. by rewrite (proj2 (Nat.eqb_eq _ _)) by lia.
  - split; [|by apply repeat_nonzero]. apply Forall2_total. split; [lia|]. intros j Hj.
    unfold m. rewrite zip_with_total, Hgs by lia. apply Z.mod_pos_bound. apply Hcj. lia.
  - intros j Hj. destruct (Hcj j Hj) as [Hp Hb]. unfold q, m. rewrite !zip_with_total, Hgs by lia.
    split_and!; [done..| | |done|lia|lia]; [apply Z.div_pos; lia|apply Z.div_lt_upper_bound; lia].
Qed.

Lemma repeat_dims_of : grid_dims_ok repeat_chunks repeat_dim_ok (rp_array_shape g) (rp_grid_shape g) (repeat_dims g).
Proof. apply Hg. Qed.

Lemma repeat_axes_total j : (j < n)%nat →
  axes !!! j = repeat_axis (rp_array_shape g !!! j) (inner !!! j, rp_repeats g !!! j).
Proof.
  intros Hj. pose proof repeat_lengths as (Hl1 & _). unfold repeat_axes.
  rewrite (axes_of_total _ _ _ _ repeat_dims_of) by lia. by rewrite repeat_dims_total.
Qed.

Lemma length_repeat_axes : length axes = n.
Proof.
  pose proof repeat_lengths as (Hl1 & _). unfold repeat_axes. by rewrite (length_axes_of _ _ _ _ repeat_dims_of).
Qed.

Lemma repeat_chunk_shape_laws c : in_grid g c →
  chunk_shape g c = Ok (Some (axes_size axes c)) ∧ chunk_shape_u64 g c = Ok (Some (axes_size axes c)).
Proof.
  intros Hc. destruct (repeat_inner_law c Hc) as (Hi & Hlc & Hlq & Hlm & Hd & Hm & Hj). simpl.
  unfold repeat_chunk_shape, repeat_chunk_shape_u64. rewrite Hd, Hi. simpl. destruct Hg as (Hw & _).
  rewrite chunk_shape_law, chunk_shape_u64_law by done. pose proof length_repeat_axes.
  pose proof repeat_lengths as (Hl1 & Hl2 & Hl3 & Hl4 & Hl5).
  assert (axes_size inner (zip_with (λ i s, i mod s) c (grid_shape (rp_inner g))) = axes_size axes c) as ->; [|done].
  unfold axes_size. apply list_eq_total; rewrite !length_zip_with; [lia|]. intros j Hlt.
  rewrite zip_with_total by lia. destruct (Hj j ltac:(lia)) as (_ & -> & _).
  rewrite zip_with_total by lia. by rewrite repeat_axes_total by lia.
Qed.

Lemma repeat_chunk_origin_law c : in_grid g c → chunk_origin g c = Ok (Some (axes_origin axes c)).
Proof.
  intros Hc. destruct (repeat_inner_law c Hc) as (Hi & Hlc & Hlq & Hlm & Hd & Hm & Hj). simpl.
  unfold repeat_chunk_origin. rewrite Hd, Hi. simpl. pose proof Hg as (Hw & _).
  rewrite chunk_origin_law by done. simpl. do 2 f_equal. pose proof length_repeat_axes.
  pose proof repeat_lengths as (Hl1 & Hl2 & Hl3 & Hl4 & Hl5).
  set (q := zip_with (λ i s, i / s) c (grid_shape (rp_inner g))) in *.
  set (m := zip_with (λ i s, i mod s) c (grid_shape (rp_inner g))) in *.
  assert (length (axes_origin inner m) = n) as Hlo by (unfold axes_origin; rewrite length_zip_with; lia).
  assert (length (axes_origin axes c) = n) as Hlo' by (unfold axes_origin; rewrite length_zip_with; lia).
  unfold offset_origin. apply list_eq_total; rewrite length_zip_with3 by lia; [lia|]. intros j Hlt.
  rewrite zip_with3_total by lia. destruct (Hj j ltac:(lia)) as (Hq & Hmj & Hqr & Hnp & Hcj).
  destruct (repeat_dim j ltac:(lia)) as ((Hax & Hr & Hlen & He & Hu & _) & -> & _).
  unfold axes_origin. rewrite !zip_with_total by lia. rewrite repeat_axes_total by lia. simpl.
  rewrite Hmj, <-Hq. pose proof (Z.mod_pos_bound (c !!! j) _ Hnp) as Hmb.
  pose proof (ax_origin_nonneg _ _ Hax Hmb). pose proof (ax_end_bound _ _ Hax Hmb).
  pose proof (ax_size_pos _ Hax _ Hmb). pose proof (ax_len_nonneg _ Hax).
  assert (q !!! j * ax_len (inner !!! j) + ax_len (inner !!! j) <= rp_array_shape g !!! j) by nia.
  rewrite (wrap64_small (_ * _)) by (unfold is_u64; nia). apply wrap64_small. unfold is_u64. nia.
Qed.

Lemma repeat_subset_law c : in_grid g c →
  chunk_subset g c = Ok (Some (mk_subset (axes_origin axes c) (axes_size axes c))).
Proof.
  intros Hc. destruct (repeat_inner_law c Hc) as (_ & Hlc & _). pose proof length_repeat_axes as Hla.
  apply default_subset_law; [by apply repeat_chunk_origin_law|by apply repeat_chunk_shape_laws|..];
    unfold axes_origin, axes_size; rewrite !length_zip_with; [done|].
  intros j Hj. rewrite !zip_with_total by lia.
  pose proof (axes_of_ok repeat_axis repeat_axis_ok _ _ _ repeat_dims_of) as Hok.
  apply (proj1 (Forall_total _ _)) with (j:=j) in Hok; [|unfold repeat_axes in *; lia].
  assert (0 <= c !!! j < ax_n (axes !!! j)) as Hcj.
  { rewrite repeat_axes_total, repeat_axis_n by lia. destruct (repeat_inner_law c Hc) as (_ & _ & _ & _ & _ & _ & Hj').
    apply Hj'. lia. }
  pose proof (ax_origin_nonneg _ _ Hok Hcj). pose proof (ax_size_pos _ Hok _ Hcj).
  pose proof (ax_end_bound _ _ Hok Hcj). pose proof (ax_fits _ Hok). unfold is_u64.
  unfold repeat_axes in *. lia.
Qed.

Lemma repeat_chunk_indices_law i : index_in i (array_shape g) →
  ∃ c, chunk_indices g i = Ok (Some c) ∧ axes_hold axes c i ∧
       chunk_element_indices g i = Ok (Some (zip_with Z.sub i (axes_origin axes c))).
Proof.
  intros Hi. pose proof (index_in_nonzero _ _ Hi) as Hz. simpl in Hi, Hz.
  pose proof repeat_lengths as (Hl1 & Hl2 & Hl3 & Hl4 & Hl5). pose proof length_repeat_axes as Hla.
  pose proof (repeat_inbounds_true _ _ Hl3 Hi) as Hin. apply Forall2_total in Hi as [Hl Hi].
  pose proof Hg as (Hw & Hs & _).
  set (q := zip_with (λ i s, i / s) i (rp_shape g)). set (x := zip_with (λ i s, i mod s) i (rp_shape g)).
  assert (length q = n ∧ length x = n) as [Hlq Hlx] by (unfold q, x; rewrite !length_zip_with; lia).
  assert (∀ j, (j < n)%nat → 0 < ax_len (inner !!! j) ∧ 0 <= q !!! j < rp_repeats g !!! j ∧
    0 <= x !!! j < ax_len (inner !!! j) ∧ i !!! j = q !!! j * ax_len (inner !!! j) + x !!! j) as Hj.
  { intros j Hlt. destruct (repeat_dim j Hlt) as ((Hax & Hr & Hlen & _) & Hsj & _). specialize (Hi j ltac:(lia)).
    unfold q, x. rewrite !zip_with_total, Hsj by lia. pose proof (ax_len_nonneg _ Hax).
    assert (0 < ax_len (inner !!! j)) as Hp by nia. pose proof (Z.mod_pos_bound (i !!! j) _ Hp).
    pose proof (Z_div_mod_eq_full (i !!! j) (ax_len (inner !!! j))).
    split_and!; try lia; [apply Z.div_pos; lia|apply Z.div_lt_upper_bound; lia]. }
  assert (index_in x (array_shape (rp_inner g))) as Hx.
  { apply (index_in_array (rp_inner g) Hw). split; [done|]. intros j Hlt. by apply Hj. }
  destruct (locate (rp_inner g) Hw x Hx) as (m & Hm & Hh & _ & He). pose proof Hh as (Hlm & _ & Hhj).
  assert (local_array_indices g i = Some (q, x)) as Hloc.
  { unfold local_array_indices, has_zero_sized_dimension. rewrite Hz, Hin. simpl.
    apply div_mod_pairs; [lia|]. intros j Hlt. destruct (repeat_dim j ltac:(lia)) as (_ & -> & _).
    destruct (Hj j ltac:(lia)). lia. }
  assert (check_dimensionality g (length i) = Ok tt) as Hcd.
  { unfold check_dimensionality, repeat_dimensionality. by rewrite (proj2 (Nat.eqb_eq _ _)) by lia. }
  set (c := zip_with3 (fun r i s => r *w s +w i) q m (grid_shape (rp_inner g))).
  assert (length c = n) as Hlc by (unfold c; rewrite length_zip_with3; lia).
  assert (∀ j, (j < n)%nat → c !!! j = q !!! j * ax_n (inner !!! j) + m !!! j) as Hcj.
  { intros j Hlt. unfold c. rewrite zip_with3_total by lia.
    destruct (repeat_dim j Hlt) as ((Hax & Hr & Hlen & _ & _ & Hu) & _ & -> & _).
    destruct (Hj j Hlt) as (_ & Hq & _). destruct (Hhj j Hlt) as [Hmj _].
    rewrite (wrap64_small (q !!! j * _)) by (unfold is_u64; nia). apply wrap64_small. unfold is_u64. nia. }
  exists c. simpl. unfold repeat_chunk_indices, repeat_chunk_element_indices. rewrite Hcd, Hloc. simpl.
  rewrite Hm, He. simpl. split_and!; [done| |].
  - split_and!; [lia..|]. intros j Hlt. rewrite repeat_axes_total, Hcj by lia.
    destruct (repeat_dim j ltac:(lia)) as (Hd & _). destruct (Hj j ltac:(lia)) as (_ & Hq & _ & ->).
    apply repeat_axis_holds; [done|done|apply Hhj; lia].
  - do 2 f_equal. unfold axes_origin. apply list_eq_total; rewrite !length_zip_with; [lia|].
    intros j Hlt. rewrite !zip_with_total by (rewrite ?length_zip_with; lia).
    rewrite repeat_axes_total, Hcj by lia. destruct (Hj j ltac:(lia)) as (_ & Hq & _ & ->).
    destruct (Hhj j ltac:(lia)) as [Hmj _]. simpl.
    destruct (div_mod_unique_pos (ax_n (inner !!! j)) (q !!! j) (m !!! j) (q !!! j * ax_n (inner !!! j) + m !!! j)) as [-> ->]; lia.
Qed.

Lemma repeat_edge_lengths_law j : (j < length axes)%nat →
  chunk_edge_lengths g j =
  Ok (if ax_len (axes !!! j) =? 0 then [] else ax_size (axes !!! j) <$> seqZ 0 (ax_n (axes !!! j))).
Proof.
  rewrite length_repeat_axes. intros Hj. pose proof repeat_lengths as (Hl1 & Hl2 & Hl3 & Hl4 & Hl5).
  pose proof Hg as (Hw & Hs & Hr & _). simpl. unfold repeat_chunk_edge_lengths, repeat_dimensionality.
  rewrite (proj2 (Nat.leb_gt _ _)) by lia. rewrite chunk_edge_lengths_law by done. simpl.
  rewrite (list_lookup_lookup_total_lt (rp_repeats g)) by lia. simpl. f_equal.
  rewrite repeat_axes_total by done. destruct (repeat_dim j Hj) as ((Hax & Hrj & Hlen & _) & _). simpl.
  rewrite Hlen. destruct (Z.eqb_spec (ax_len (inner !!! j)) 0) as [->|Hne].
  { rewrite Z.mul_0_l, Z.eqb_refl. induction (seq _ _); [done|]. by rewrite bind_cons. }
  rewrite (proj2 (Z.eqb_neq _ _)) by nia. set (r := rp_repeats g !!! j) in *. set (a := inner !!! j) in *.
  pose proof (ax_n_nonneg _ Hax). rewrite (Z.mul_comm (ax_n a)), seqZ_mul, list_fmap_of_bind by lia.
  apply repeat_bind_seqZ. intros k Hk. rewrite (seqZ_offset (k * _)), list_fmap_fmap.
  apply list_fmap_ext_in. intros c Hc%elem_of_seqZ.
  by destruct (div_mod_unique_pos (ax_n a) k c (k * ax_n a + c)) as [_ ->]; [lia|lia|].
Qed.

(** A chunk of a copy is the inner chunk, moved. *)
Lemma repeat_copy_subset q m : index_in q (rp_repeats g) → in_grid (rp_inner g) m →
  chunk_subset g (zip_with3 (λ q n m, q * n + m) q (grid_shape (rp_inner g)) m) =
  Ok (Some (mk_subset (zip_with3 (λ q l o, q * l + o) q (array_shape (rp_inner g)) (axes_origin inner m))
                      (axes_size inner m))).
Proof.
  pose proof repeat_lengths as (Hl1 & Hl2 & Hl3 & Hl4 & Hl5). pose proof length_repeat_axes as Hla.
  pose proof Hg as (Hw & Hs & Hr & _).
  intros [Hlq Hq]%Forall2_total [Hm Hz]. apply (index_in_grid _ Hw) in Hm as [Hlm Hm].
  set (c := zip_with3 _ q _ m). assert (length c = n) as Hlc by (unfold c; rewrite length_zip_with3; lia).
  assert (∀ j, (j < n)%nat → c !!! j = q !!! j * ax_n (inner !!! j) + m !!! j ∧ 0 <= q !!! j < rp_repeats g !!! j) as Hc.
  { intros j Hj. unfold c. rewrite zip_with3_total by lia. destruct (repeat_dim j Hj) as (_ & _ & -> & _).
    split; [done|]. apply Hq. lia. }
  assert (in_grid g c) as Hcg.
  { split; simpl.
    - apply Forall2_total. split; [lia|]. intros j Hj. destruct (Hc j ltac:(lia)) as [-> Hqj].
      destruct (repeat_dim j ltac:(lia)) as (_ & _ & _ & ->). specialize (Hm j ltac:(lia)). nia.
    - apply contains_zero_false. intros j Hj. destruct (repeat_dim j ltac:(lia)) as ((_ & Hrj & -> & _) & Hsj & _).
      pose proof (proj1 (contains_zero_false _) Hz j) as Hnz. rewrite <-Hs in Hnz. specialize (Hnz ltac:(lia)). nia. }
  rewrite repeat_subset_law by done. rewrite <-Hs.
  assert (length (axes_origin inner m) = n ∧ length (axes_size inner m) = n) as [Ho Hsz].
  { unfold axes_origin, axes_size. rewrite !length_zip_with. lia. }
  assert (length (axes_origin axes c) = n ∧ length (axes_size axes c) = n) as [Ho' Hsz'].
  { unfold axes_origin, axes_size. rewrite !length_zip_with. lia. }
  assert (∀ j, (j < n)%nat → c !!! j / ax_n (inner !!! j) = q !!! j ∧ c !!! j mod ax_n (inner !!! j) = m !!! j) as Hdm.
  { intros j Hj. destruct (Hc j Hj) as [-> _]. apply div_mod_unique_pos; [by apply Hm|lia]. }
  do 3 f_equal; apply list_eq_total; rewrite ?length_zip_with3 by lia; try lia; intros j Hj;
    unfold axes_origin, axes_size; rewrite ?zip_with3_total, !zip_with_total by (fold (axes_origin inner m); lia);
    rewrite repeat_axes_total by lia; simpl; destruct (Hdm j ltac:(lia)) as [Hd1 Hd2].
  - rewrite Hd1, Hd2. by destruct (repeat_dim j ltac:(lia)) as (_ & -> & _).
  - by rewrite Hd2.
Qed.
End repeat_laws.

#[export] Instance repeat_lawful {G} `{LawfulChunkGrid G} : LawfulChunkGrid (RepeatChunkGrid G).
Proof.
  refine {| grid_wf := repeat_wf; grid_axes := repeat_axes |}; intros g.
  - intros Hg. apply (axes_of_ok repeat_axis repeat_axis_ok _ _ _ (repeat_dims_of g Hg)).
  - intros Hg. rewrite length_repeat_axes by done. by apply repeat_lengths.
  - intros Hg. apply (axes_of_len repeat_axis repeat_axis_len _ _ _ (repeat_dims_of g Hg)).
  - intros Hg. apply (axes_of_n repeat_axis repeat_axis_n _ _ _ (repeat_dims_of g Hg)).
  - intros j Hg. by apply repeat_edge_lengths_law.
  - intros j Hg Hj. rewrite length_repeat_axes in Hj by done. simpl.
    unfold repeat_chunk_edge_lengths, repeat_dimensionality.
    rewrite (proj1 (proj2 (repeat_lengths g Hg))). by rewrite (proj2 (Nat.leb_le _ _)).
  - intros c Hg Hc. by apply repeat_chunk_shape_laws.
  - intros c Hg Hc. by apply repeat_chunk_shape_laws.
  - intros c Hg. by apply repeat_chunk_origin_law.
  - intros c Hg. by apply repeat_subset_law.
  - intros i Hg. by apply repeat_chunk_indices_law.
  - intros i Hg Hi. apply default_inbounds_index_in; [|done].
    destruct (repeat_lengths g Hg) as (_ & Hl2 & Hl3 & _). unfold repeat_dimensionality. by rewrite Hl2.
  - intros ix Hg Hl Hz. simpl in *. unfold default_subset, repeat_chunk_shape, repeat_chunk_origin,
      repeat_chunk_indices, repeat_chunk_element_indices, check_dimensionality in *.
    by rewrite (proj2 (Nat.eqb_neq _ _) Hl).
Defined.

(** ** Construction *)

(** The edges of an axis sum to its end. *)
Lemma ax_end_sum a : axis_ok a → Zsum (ax_size a <$> seqZ 0 (ax_n a)) = ax_end a.
Proof.
  intros Ha. assert (∀ k : nat, Z.of_nat k < ax_n a →
    Zsum (ax_size a <$> seqZ 0 (Z.of_nat (S k))) = ax_origin a (Z.of_nat k) + ax_size a (Z.of_nat k)) as Hk.
  { induction k as [|k IH]; intros Hk.
    - change (Z.of_nat 0) with 0 in *. rewrite (ax_origin_0 a Ha) by lia. change (seqZ 0 (Z.of_nat 1)) with [0].
      simpl. rewrite Zsum_cons. unfold Zsum. simpl. lia.
    - rewrite seqZ_S, fmap_app, Zsum_app, IH, Z.add_0_l by lia.
      replace (Z.of_nat (S k)) with (Z.of_nat k + 1) in * by lia.
      rewrite list_fmap_singleton, Zsum_cons, (ax_adjacent a Ha) by lia. unfold Zsum. simpl. lia. }
  pose proof (ax_n_nonneg a Ha). unfold ax_end. destruct (Z.eqb_spec (ax_n a) 0) as [->|]; [done|].
  specialize (Hk (Z.to_nat (ax_n a - 1)) ltac:(lia)).
  rewrite Z2Nat.id in Hk by lia. rewrite <-Hk. do 3 f_equal. lia.
Qed.

(** The edges the inner grid reports are as many as its chunks and sum to its
    array. *)
Definition edges_fit (a : axis) : Prop := if ax_len a =? 0 then ax_n a = 0 else ax_end a = ax_len a.

#[export] Instance edges_fit_dec a : Decision (edges_fit a).
Proof. unfold edges_fit. destruct (ax_len a =? 0); apply _. Defined.

Lemma repeat_check_edges_spec {G} `{LawfulChunkGrid G} (inner : G) dims : grid_wf inner →
  (∀ j, j ∈ dims → (j < length (grid_axes inner))%nat) →
  (repeat_check_edges (array_shape inner) inner dims = Ok tt ∧ (∀ j, j ∈ dims → edges_fit (grid_axes inner !!! j))) ∨
  ((∃ e, repeat_check_edges (array_shape inner) inner dims = Err e) ∧ ∃ j, j ∈ dims ∧ ¬ edges_fit (grid_axes inner !!! j)).
Proof.
  intros Hw. induction dims as [|j dims IH]; intros Hd; simpl.
  { left. split; [done|]. set_solver. }
  pose proof (Hd j (list_elem_of_here _ _)) as Hj. pose proof (axes_ok inner Hw j Hj) as Hax.
  rewrite chunk_edge_lengths_law by done. simpl. set (a := grid_axes inner !!! j) in *.
  pose proof (ax_n_nonneg a Hax). pose proof (ax_len_nonneg a Hax). pose proof (ax_covers a Hax). pose proof (ax_fits a Hax).
  set (edges := if ax_len a =? 0 then [] else _).
  assert (Zsum edges = if ax_len a =? 0 then 0 else ax_end a) as Hsum.
  { unfold edges. destruct (ax_len a =? 0); [done|by apply ax_end_sum]. }
  assert (zlen edges = if ax_len a =? 0 then 0 else ax_n a) as Hcount.
  { unfold edges. destruct (ax_len a =? 0); [done|]. rewrite length_fmap, length_seqZ. lia. }
  rewrite checked_sum_spec, Hsum.
  2:{ apply Forall_forall. unfold edges. destruct (ax_len a =? 0); [set_solver|].
      intros s (c & -> & Hc%elem_of_seqZ)%list_elem_of_fmap. pose proof (ax_size_pos a Hax c). lia. }
  rewrite (proj2 (Z.ltb_lt _ _)) by (destruct (_ =? 0); unfold u64_modulus in *; lia). simpl.
  rewrite (list_lookup_lookup_total_lt (grid_shape inner)) by (by rewrite length_grid_shape). simpl.
  rewrite (list_lookup_lookup_total_lt (array_shape inner)) by (by rewrite length_array_shape). simpl.
  rewrite grid_shape_law, array_shape_law, !fmap_total by done. fold a.
  rewrite array_shape_law in IH by done. rewrite Hcount.
  assert ((negb ((if ax_len a =? 0 then 0 else ax_n a) =? ax_n a)
    || negb ((if ax_len a =? 0 then 0 else ax_end a) =? ax_len a)) = negb (bool_decide (edges_fit a))) as ->.
  { destruct (bool_decide_reflect (edges_fit a)) as [Hf|Hf]; unfold edges_fit in Hf;
      destruct (Z.eqb_spec (ax_len a) 0); simpl; lia. }
  destruct (bool_decide_reflect (edges_fit a)) as [Hf|Hf]; simpl.
  - destruct IH as [[-> IH]|[[e ->] (k & Hk & Hkf)]].
    + intros k Hk. apply Hd. by apply list_elem_of_further.
    + left. split; [done|]. intros k [->|Hk]%elem_of_cons; [done|by apply IH].
    + right. split; [by eexists|]. exists k. split; [by apply list_elem_of_further|done].
  - right. split; [by eexists|]. exists j. split; [apply list_elem_of_here|done].
Qed.

(** What the constructor needs of the repeat counts and the inner grid. *)
Definition repeats_fit {G} `{LawfulChunkGrid G} (inner : G) (repeats : list Z) : Prop :=
  length repeats = length (grid_axes inner) ∧
  ∀ j, (j < length repeats)%nat → let a := grid_axes inner !!! j in
    0 < repeats !!! j ∧ ax_len a * repeats !!! j < u64_modulus ∧ ax_n a * repeats !!! j < u64_modulus ∧ edges_fit a.

Lemma position_None {A} (p : A → bool) l : position p l = None ↔ Forall (λ x, p x = false) l.
Proof.
  induction l as [|x l IH]; simpl; [by split|]. destruct (p x) eqn:Hp.
  - split; [done|]. intros H. inversion H. congruence.
  - rewrite fmap_None, IH. split; [by constructor|by inversion 1].
Qed.

Lemma repeat_new_wf {G} `{LawfulChunkGrid G} (inner : G) repeats : grid_wf inner →
  Forall (λ r, 0 <= r) repeats → repeats_fit inner repeats →
  ∃ g, RepeatChunkGrid_new repeats inner = Ok g ∧ repeat_wf g ∧ rp_inner g = inner ∧ rp_repeats g = repeats ∧
    rp_array_shape g = zip_with Z.mul (array_shape inner) repeats ∧
    rp_grid_shape g = zip_with Z.mul (grid_shape inner) repeats.
Proof.
  intros Hw Hnn [Hl Hf]. pose proof (length_array_shape inner Hw) as Hla. pose proof (length_grid_shape inner Hw) as Hlg.
  set (ash := zip_with Z.mul (array_shape inner) repeats). set (gsh := zip_with Z.mul (grid_shape inner) repeats).
  assert (∀ j, (j < length repeats)%nat → array_shape inner !!! j = ax_len (grid_axes inner !!! j) ∧
    grid_shape inner !!! j = ax_n (grid_axes inner !!! j)) as Hj.
  { intros j Hj. rewrite array_shape_law, grid_shape_law, !fmap_total by (done || lia). done. }
  exists (mk_repeat (array_shape inner) repeats ash gsh inner). split_and!; [|split_and!|done..]; try done.
  - unfold RepeatChunkGrid_new. rewrite grid_dimensionality_law, Hla, Nat.eqb_refl by done. simpl.
    rewrite (proj2 (Nat.eqb_eq _ _)) by done. simpl.
    rewrite (proj2 (position_None _ _)) by (apply Forall_total; intros j Hlt; apply Z.eqb_neq; destruct (Hf j Hlt); lia).
    rewrite (proj2 (collect_opt_Some _ ash)); simpl.
    2:{ unfold ash. rewrite !length_zip_with. split; [done|]. intros j Hlt. rewrite !zip_with_total by lia.
        destruct (Hj j ltac:(lia)) as [-> _]. apply checked_mul_Some. split; [done|]. apply Hf. lia. }
    rewrite (proj2 (collect_opt_Some _ gsh)); simpl.
    2:{ unfold gsh. rewrite !length_zip_with. split; [done|]. intros j Hlt. rewrite !zip_with_total by lia.
        destruct (Hj j ltac:(lia)) as [_ ->]. apply checked_mul_Some. split; [done|]. apply Hf. lia. }
    destruct (repeat_check_edges_spec inner (seq 0 (length (grid_axes inner))) Hw) as [[-> _]|[_ (j & Hlt%elem_of_seq & Hn)]].
    + intros j Hlt%elem_of_seq. lia.
    + done.
    + destruct Hn. apply Hf. lia.
  - unfold repeat_dims. simpl. assert (length (zip (grid_axes inner) repeats) = length repeats) as Hlz by (rewrite length_zip_with; lia).
    split_and!; [unfold ash; rewrite length_zip_with; lia| |].
    + apply list_eq_total; unfold gsh; rewrite !length_zip_with; [unfold ash; rewrite length_zip_with; lia|].
      intros j Hlt. rewrite !zip_with_total by (unfold ash; rewrite ?length_zip_with; lia).
      destruct (Hj j ltac:(lia)) as [_ ->]. done.
    + intros j Hlt. rewrite Hlz in Hlt. rewrite zip_with_total by lia. unfold ash. rewrite zip_with_total by lia.
      destruct (Hj j ltac:(lia)) as [-> _]. destruct (Hf j Hlt) as (Hr & Hu & Hn & He).
      pose proof (axes_ok inner Hw j ltac:(lia)) as Hax. split_and!; [done..| |done|done].
      unfold edges_fit in He. destruct (Z.eqb_spec (ax_len (grid_axes inner !!! j)) 0) as [->|]; [|done].
      unfold ax_end. by rewrite He.
Qed.

Lemma repeat_new_Ok_inv {G} `{LawfulChunkGrid G} (inner : G) repeats g : grid_wf inner →
  Forall (λ r, 0 <= r) repeats → RepeatChunkGrid_new repeats inner = Ok g → repeats_fit inner repeats.
Proof.
  intros Hw Hnn. pose proof (length_array_shape inner Hw) as Hla. pose proof (length_grid_shape inner Hw) as Hlg.
  unfold RepeatChunkGrid_new. rewrite grid_dimensionality_law, Hla, Nat.eqb_refl by done. simpl.
  destruct (Nat.eqb_spec (length (grid_axes inner)) (length repeats)) as [Hl|]; [|done]. simpl.
  destruct (position _ _) eqn:Hp; [done|]. apply position_None in Hp.
  destruct (collect_opt _) as [ash|] eqn:Ha; [|done]. simpl. destruct (collect_opt (zip_with _ (grid_shape inner) _)) as [gsh|] eqn:Hg; [|done].
  simpl. destruct (repeat_check_edges_spec inner (seq 0 (length (grid_axes inner))) Hw) as [[_ Hf]|[[e ->] _]]; [|  |done].
  { intros j Hlt%elem_of_seq. lia. }
  intros _. split; [done|]. intros j Hj a. apply collect_opt_Some in Ha as [_ Ha], Hg as [_ Hg].
  rewrite length_zip_with in Ha, Hg. specialize (Ha j ltac:(lia)). specialize (Hg j ltac:(lia)).
  rewrite zip_with_total in Ha, Hg by lia. apply checked_mul_Some in Ha as [_ Ha], Hg as [_ Hg].
  rewrite array_shape_law, fmap_total in Ha by (done || lia). rewrite grid_shape_law, fmap_total in Hg by (done || lia).
  apply (proj1 (Forall_total _ _)) with (j:=j) in Hp, Hnn; [|done..]. apply Z.eqb_neq in Hp.
  split_and!; [lia|done|done|]. apply Hf, elem_of_seq. lia.
Qed.

(** A repeated grid is created exactly when the repeat counts match the inner
    grid's dimensionality, none is zero, the repeated shapes are [u64]s, and the
    inner chunks end at the inner array.  It is then lawful, and its chunks are the
    inner chunks, one copy per repeat index, moved by whole inner arrays. *)
Theorem repeat_grid_tiles {G} `{LawfulChunkGrid G} (inner : G) (repeats : list Z) (Hw : grid_wf inner)
    (Hnn : Forall (λ r, 0 <= r) repeats) :
  ((∃ g, RepeatChunkGrid_new repeats inner = Ok g) ↔ repeats_fit inner repeats) ∧
  ∀ g, RepeatChunkGrid_new repeats inner = Ok g →
    grid_wf g ∧ array_shape g = zip_with Z.mul (array_shape inner) repeats ∧
    grid_shape g = zip_with Z.mul (grid_shape inner) repeats ∧
    ∀ q m sub, index_in q repeats → in_grid inner m → chunk_subset inner m = Ok (Some sub) →
      chunk_subset g (zip_with3 (λ q n m, q * n + m) q (grid_shape inner) m) =
      Ok (Some (mk_subset (zip_with3 (λ q l o, q * l + o) q (array_shape inner) (start sub)) (shape sub))).
Proof.
  split.
  { split; [intros [g Hg]; by eapply repeat_new_Ok_inv|]. intros Hf.
    destruct (repeat_new_wf inner repeats Hw Hnn Hf) as (g & Hg & _). by exists g. }
  intros g Hg. pose proof (repeat_new_Ok_inv inner repeats g Hw Hnn Hg) as Hf.
  destruct (repeat_new_wf inner repeats Hw Hnn Hf) as (g' & Hg' & Hwf & Hi & Hr & Ha & Hgr).
  rewrite Hg in Hg'. injection Hg' as <-. split_and!; [done..|].
  intros q m sub Hq Hm Hs. rewrite subset_law in Hs by done. injection Hs as <-.
  rewrite <-Hr in Hq. rewrite <-Hi in Hm |- *. by apply repeat_copy_subset.
Qed.

Lemma repeat_grid_tiles_witness :
  ∃ g, RepeatChunkGrid_new [2; 3] (mk_bounded [5; 4] [3; 2] [2; 3]) = Ok g ∧ grid_wf g ∧
    chunk_subset g [5; 3] = Ok (Some (mk_subset [9; 7] [1; 1])).
Proof.
  assert (grid_wf (mk_bounded [5; 4] [3; 2] [2; 3])) as Hw.
  { split; [done|split; [reflexivity|]]. intros [|[|j]] Hj; simpl in *; [..|lia]; split_and!; try lia; reflexivity. }
  destruct (repeat_grid_tiles (mk_bounded [5; 4] [3; 2] [2; 3]) [2; 3] Hw) as [Hx Hg].
  { repeat constructor; lia. }
  destruct (proj2 Hx) as [g Hn].
  { split; [done|]. intros [|[|j]] Hj; simpl in *; [..|lia]; split_and!; reflexivity. }
  exists g. split; [done|]. split; [by apply Hg|]. vm_compute in Hn. injection Hn as <-. reflexivity.
Defined.
