(* ===== verification/ByteRange.v ===== *)
(** Byte ranges: [zarrs_storage/src/byte_range.rs].

    Bytes are lists of integers; the operations of this file do not look at them. *)

From S2P Require Import Prelude Iterators.

(** [Vec<u8>], [Bytes] and byte slices. *)
Abbreviation bytes := (list Z).

Inductive ByteRange := FromStart (offset : Z) (length : option Z) | Suffix (length : Z).

#[export] Instance byte_range_eq_dec : EqDecision ByteRange.
Proof. solve_decision. Defined.

(** [ByteRange::new] on the bounds of a range. *)
Definition ByteRange_new (start_bound end_bound : Bound) : ByteRange :=
  match start_bound, end_bound with
  | Included start, Included end_ => FromStart start (Some (end_ -w start +w 1))
  | Included start, Excluded end_ => FromStart start (Some (end_ -w start))
  | Included start, Unbounded => FromStart start None
  | Excluded start, Included end_ => FromStart (start +w 1) (Some (end_ -w start))
  | Excluded start, Excluded end_ => FromStart (start +w 1) (Some (end_ -w start -w 1))
  | Excluded start, Unbounded => FromStart (start +w 1) None
  | Unbounded, Included length => FromStart 0 (Some (length +w 1))
  | Unbounded, Excluded length => FromStart 0 (Some length)
  | Unbounded, Unbounded => FromStart 0 None
  end.

Definition br_start (self : ByteRange) (size : Z) : Z :=
  match self with FromStart offset _ => offset | Suffix length => size -w length end.

Definition br_end (self : ByteRange) (size : Z) : Z :=
  match self with
  | FromStart offset length => match length with Some length => offset +w length | None => size end
  | Suffix _ => size
  end.

Definition br_length (self : ByteRange) (size : Z) : Z :=
  match self with
  | FromStart offset None => size -w offset
  | FromStart _ (Some length) | Suffix length => length
  end.

Definition br_to_range (self : ByteRange) (size : Z) : ArraySubset.range :=
  ArraySubset.mk_range (br_start self size) (br_end self size).

Inductive InvalidByteRangeError := mk_invalid_byte_range (byte_range : ByteRange) (bytes_len : Z).

Definition is_valid (byte_range : ByteRange) (bytes_len : Z) : bool :=
  match byte_range with
  | FromStart offset length => offset +w default 0 length <=? bytes_len
  | Suffix length => length <=? bytes_len
  end.

Definition extract_byte_range (bytes : bytes) (byte_range : ByteRange) : outcome InvalidByteRangeError (list Z) :=
  let bytes_len := zlen bytes in
  if negb (is_valid byte_range bytes_len) then Err (mk_invalid_byte_range byte_range bytes_len)
  else slice bytes (br_start byte_range bytes_len) (br_end byte_range bytes_len).

Definition extract_byte_ranges (bytes : bytes) (byte_ranges : list ByteRange)
    : outcome InvalidByteRangeError (list (list Z)) :=
  collect_res (extract_byte_range bytes <$> byte_ranges).

(** The copy loop of [extract_byte_ranges_concat]: the destination slices follow
    one another from the start of the output. *)
Fixpoint concat_loop (bytes : bytes) (lengths_and_starts : list (Z * Z)) (out : list Z)
    : outcome InvalidByteRangeError (list Z) :=
  match lengths_and_starts with
  | [] => Ok out
  | (length, start) :: l =>
      let? part := slice bytes start (start +w length) in
      concat_loop bytes l (out ++ part)
  end.

Definition extract_byte_ranges_concat (bytes : bytes) (byte_ranges : list ByteRange)
    : outcome InvalidByteRangeError (list Z) :=
  let bytes_len := zlen bytes in
  let? lengths_and_starts := collect_res ((fun byte_range =>
    if negb (is_valid byte_range bytes_len) then Err (mk_invalid_byte_range byte_range bytes_len)
    else Ok (br_length byte_range bytes_len, br_start byte_range bytes_len)) <$> byte_ranges) in
  let out_size := sum64 (fst <$> lengths_and_starts) in
  if out_size =? 0 then Ok []
  else concat_loop bytes lengths_and_starts [].

(** [data[start..end].copy_from_slice(value)]. *)
Definition copy_from_slice {E} (data : bytes) (start end_ : Z) (value : bytes) : outcome E bytes :=
  if (start <=? end_) && (end_ <=? zlen data) && (end_ - start =? zlen value)
  then Ok (take (Z.to_nat start) data ++ value ++ drop (Z.to_nat end_) data)
  else Panic.

(** ** Reading from a seekable source

    A file-like source.  A [seek] to before the start is an error, and so is a
    read past the end; the distance of a seek from the end is an [i64]. *)
Inductive io_error := InvalidInput | UnexpectedEof.

Definition read_exact (content : bytes) (pos length : Z) : outcome io_error (list Z) :=
  if pos + length <=? zlen content
  then Ok (take (Z.to_nat length) (drop (Z.to_nat pos) content)) else if length =? 0 then Ok [] else Err UnexpectedEof.

Definition read_seek_range (content : bytes) (len : Z) (byte_range : ByteRange) : outcome io_error (list Z) :=
  match byte_range with
  | FromStart offset None => read_exact content offset len
  | FromStart offset (Some length) => read_exact content offset length
  | Suffix length =>
      if 2 ^ 63 <=? length then Panic
      else if zlen content <? length then Err InvalidInput
      else read_exact content (zlen content - length) length
  end.

Definition extract_byte_ranges_read_seek (content : bytes) (byte_ranges : list ByteRange)
    : outcome io_error (list (list Z)) :=
  let len := zlen content in
  collect_res (read_seek_range content len <$> byte_ranges).

(** ** Properties *)

(** The fields of a range are [u64]s whose sum is one. *)
Definition byte_range_ok (r : ByteRange) : Prop :=
  match r with
  | FromStart o (Some l) => 0 <= o ∧ 0 <= l ∧ o + l < u64_modulus
  | FromStart o None => 0 <= o < u64_modulus
  | Suffix l => 0 <= l < u64_modulus
  end.

(** The bytes a range denotes, when it is inside. *)
Definition range_within (r : ByteRange) (size : Z) : Prop :=
  match r with FromStart o (Some l) => o + l <= size | FromStart o None => o <= size | Suffix l => l <= size end.
Definition range_bytes (b : bytes) (r : ByteRange) : list Z :=
  match r with
  | FromStart o (Some l) => take (Z.to_nat l) (drop (Z.to_nat o) b)
  | FromStart o None => drop (Z.to_nat o) b
  | Suffix l => drop (length b - Z.to_nat l) b
  end.

#[export] Instance byte_range_ok_dec r : Decision (byte_range_ok r).
Proof. unfold byte_range_ok. destruct r as [o [l|]|l]; apply _. Defined.

#[export] Instance range_within_dec r size : Decision (range_within r size).
Proof. unfold range_within. destruct r as [o [l|]|l]; apply _. Defined.

Lemma is_valid_within r size : byte_range_ok r → is_valid r size = bool_decide (range_within r size).
Proof.
  intros H. apply eq_true_iff_eq. rewrite bool_decide_eq_true. destruct r as [o [l|]|l]; simpl in *; rewrite Z.leb_le; [| |done].
  - by rewrite wrap64_small by (unfold is_u64; lia).
  - by rewrite Z.add_0_r, wrap64_small.
Qed.

(** The start, end and length of a range inside [size] bytes. *)
Lemma within_fields r size : byte_range_ok r → range_within r size → 0 <= size < u64_modulus →
  0 <= br_start r size <= br_end r size ∧ br_end r size <= size ∧
  br_start r size +w br_length r size = br_end r size ∧
  br_length r size = br_end r size - br_start r size.
Proof.
  destruct r as [o [l|]|l]; simpl; intros Ho Hw Hs.
  - rewrite !wrap64_small by (unfold is_u64; lia). lia.
  - rewrite (wrap64_small (size - o)) by (unfold is_u64; lia). rewrite wrap64_small by (unfold is_u64; lia). lia.
  - rewrite (wrap64_small (size - l)) by (unfold is_u64; lia). rewrite wrap64_small by (unfold is_u64; lia). lia.
Qed.

Lemma slice_within (b : bytes) r : zlen b < u64_modulus → byte_range_ok r → range_within r (zlen b) →
  slice (E:=InvalidByteRangeError) b (br_start r (zlen b)) (br_end r (zlen b)) = Ok (range_bytes b r).
Proof.
  intros Hb Ho Hw. destruct (within_fields r (zlen b) Ho Hw ltac:(lia)) as (H1 & H2 & _ & _).
  unfold slice. rewrite !(proj2 (Z.leb_le _ _)) by lia. simpl. f_equal.
  destruct r as [o [l|]|l]; simpl in *.
  - rewrite wrap64_small in * by (unfold is_u64; lia). do 2 f_equal. lia.
  - apply take_ge. rewrite length_drop. lia.
  - rewrite wrap64_small in * by (unfold is_u64; lia). rewrite take_ge by (rewrite length_drop; lia). f_equal. lia.
Qed.

Lemma extract_byte_range_spec (b : bytes) r : zlen b < u64_modulus → byte_range_ok r →
  extract_byte_range b r =
  if decide (range_within r (zlen b)) then Ok (range_bytes b r) else Err (mk_invalid_byte_range r (zlen b)).
Proof.
  intros Hb Ho. unfold extract_byte_range. rewrite is_valid_within by done.
  destruct (decide (range_within r (zlen b))) as [Hw|Hw].
  - rewrite bool_decide_eq_true_2 by done. by apply slice_within.
  - by rewrite bool_decide_eq_false_2.
Qed.

Definition total_length (b : bytes) (rs : list ByteRange) : Z := Zsum ((λ r, zlen (range_bytes b r)) <$> rs).

Lemma total_length_zero (b : bytes) rs : total_length b rs = 0 → concat (range_bytes b <$> rs) = [].
Proof.
  unfold total_length. induction rs as [|r rs IH]; [done|]. rewrite !fmap_cons, Zsum_cons. intros H.
  assert (0 <= Zsum ((λ r, zlen (range_bytes b r)) <$> rs)).
  { apply Zsum_nonneg, Forall_fmap, Forall_true. simpl. lia. }
  simpl. rewrite IH by lia. destruct (range_bytes b r); [done|]. simpl in H. lia.
Qed.

Lemma concat_loop_within (b : bytes) rs out : zlen b < u64_modulus → Forall byte_range_ok rs →
  Forall (λ r, range_within r (zlen b)) rs →
  concat_loop b ((λ r, (br_length r (zlen b), br_start r (zlen b))) <$> rs) out =
  Ok (out ++ concat (range_bytes b <$> rs)).
Proof.
  intros Hb Ho Hw. revert out. induction rs as [|r rs IH]; intros out; simpl; [by rewrite app_nil_r|].
  inversion_clear Ho. inversion_clear Hw. destruct (within_fields r (zlen b)) as (_ & _ & -> & _); [done..|lia|].
  rewrite slice_within by done. simpl. rewrite IH by done. by rewrite <-app_assoc.
Qed.

Lemma sum64_small l : Forall (λ z, 0 <= z) l → Zsum l < u64_modulus → sum64 l = Zsum l.
Proof.
  intros Hl. unfold sum64. assert (∀ a, 0 <= a → a + Zsum l < u64_modulus →
    fold_left (λ acc d, acc +w d) l a = a + Zsum l) as H.
  { induction Hl as [|d l Hd Hl IH]; intros a Ha Hf; [unfold Zsum; simpl; lia|]. rewrite Zsum_cons in *.
    pose proof (Zsum_nonneg _ Hl). simpl. rewrite wrap64_small by (unfold is_u64; lia). rewrite IH; lia. }
  intros Hf. rewrite H; lia.
Qed.

Lemma length_range_bytes (b : bytes) r : zlen b < u64_modulus → byte_range_ok r → range_within r (zlen b) →
  zlen (range_bytes b r) = br_length r (zlen b).
Proof.
  intros Hb Ho Hw. destruct (within_fields r (zlen b) Ho Hw ltac:(lia)) as (H1 & H2 & _ & ->).
  pose proof (slice_within b r Hb Ho Hw) as Hs. unfold slice in Hs.
  rewrite !(proj2 (Z.leb_le _ _)) in Hs by lia. simpl in Hs. injection Hs as <-.
  rewrite length_take, length_drop. lia.
Qed.

(** Concatenating ranges inside the bytes. *)
Lemma extract_byte_ranges_concat_within (b : bytes) (rs : list ByteRange) : zlen b < u64_modulus →
  Forall byte_range_ok rs → total_length b rs < u64_modulus → Forall (λ r, range_within r (zlen b)) rs →
  extract_byte_ranges_concat b rs = Ok (concat (range_bytes b <$> rs)).
Proof.
  intros Hb Ho Hsum Hw. unfold extract_byte_ranges_concat.
  rewrite (list_fmap_ext_in _ (λ r, Ok (br_length r (zlen b), br_start r (zlen b)))).
  2:{ intros r Hr. rewrite is_valid_within by (by eapply Forall_forall in Ho).
      by rewrite bool_decide_eq_true_2 by (by eapply Forall_forall in Hw). }
  rewrite <-(list_fmap_fmap Ok), collect_res_Ok. simpl. rewrite list_fmap_fmap.
  rewrite (list_fmap_ext_in _ (λ r, zlen (range_bytes b r))).
  2:{ intros r Hr. rewrite length_range_bytes; [done|done|by eapply Forall_forall in Ho|by eapply Forall_forall in Hw]. }
  rewrite sum64_small; [|apply Forall_fmap, Forall_true; simpl; lia|done].
  fold (total_length b rs). destruct (Z.eqb_spec (total_length b rs) 0) as [Hz|].
  - f_equal. symmetry. by apply total_length_zero.
  - by rewrite concat_loop_within.
Qed.

Lemma extract_byte_ranges_within (b : bytes) (rs : list ByteRange) : zlen b < u64_modulus → Forall byte_range_ok rs →
  Forall (λ r, range_within r (zlen b)) rs → extract_byte_ranges b rs = Ok (range_bytes b <$> rs).
Proof.
  intros Hb Ho. induction Ho as [|r rs Hr Ho IH]; intros Hw; [done|]. inversion_clear Hw.
  unfold extract_byte_ranges in *. rewrite fmap_cons. cbn [collect_res].
  rewrite extract_byte_range_spec, decide_True by done. cbn [obind]. by rewrite IH.
Qed.

(** Extraction of byte ranges.  When every range is inside the bytes the result
    is their contents, in order; otherwise it is the error of the first range that
    is not.  It never panics, and the concatenating variant returns the
    concatenation of the same pieces, or the same error. *)
Theorem extract_byte_ranges_spec (b : bytes) (rs : list ByteRange) (Hb : zlen b < u64_modulus)
    (Ho : Forall byte_range_ok rs) (Hsum : total_length b rs < u64_modulus) :
  (Forall (λ r, range_within r (zlen b)) rs → extract_byte_ranges b rs = Ok (range_bytes b <$> rs)) ∧
  (∀ pre r post, rs = pre ++ r :: post → Forall (λ r, range_within r (zlen b)) pre → ¬ range_within r (zlen b) →
     extract_byte_ranges b rs = Err (mk_invalid_byte_range r (zlen b))) ∧
  extract_byte_ranges_concat b rs = omap_ok (concat (A:=Z)) (extract_byte_ranges b rs).
Proof.
  pose proof (extract_byte_ranges_within b rs Hb Ho) as Hok.
  assert (∀ pre r post, rs = pre ++ r :: post → Forall (λ r, range_within r (zlen b)) pre → ¬ range_within r (zlen b) →
     extract_byte_ranges b rs = Err (mk_invalid_byte_range r (zlen b))) as Herr.
  { clear Hsum Hok. intros pre r post -> Hw Hn. rewrite Forall_app, Forall_cons in Ho. destruct Ho as (Hop & Hor & _).
    apply (collect_res_first_err pre r post _ (range_bytes b)).
    - intros y Hy. rewrite extract_byte_range_spec, decide_True; [done| |done|]; by eapply Forall_forall in Hop, Hw.
    - by rewrite extract_byte_range_spec, decide_False. }
  split_and!; [done..|].
  destruct (first_or_all rs (λ r, range_within r (zlen b))) as [Hw|(pre & r & post & -> & Hw & Hn)].
  - rewrite Hok by done. simpl. by apply extract_byte_ranges_concat_within.
  - rewrite (Herr pre r post) by done. unfold extract_byte_ranges_concat. simpl.
    rewrite (collect_res_first_err pre r post _ (λ r, (br_length r (zlen b), br_start r (zlen b))) (mk_invalid_byte_range r (zlen b))); [done|..].
    + intros r' Hr'. rewrite is_valid_within by (eapply Forall_forall in Ho; [done|set_solver]).
      by rewrite bool_decide_eq_true_2 by (by eapply Forall_forall in Hw).
    + rewrite is_valid_within by (eapply Forall_forall in Ho; [done|set_solver]). by rewrite bool_decide_eq_false_2.
Qed.

Lemma extract_byte_ranges_spec_witness :
  extract_byte_ranges [1; 2; 3; 4; 5] [FromStart 1 (Some 2); Suffix 2; FromStart 3 None] = Ok [[2; 3]; [4; 5]; [4; 5]] ∧
  extract_byte_ranges_concat [1; 2; 3; 4; 5] [FromStart 1 (Some 2); Suffix 2] = Ok [2; 3; 4; 5].
Proof.
  split.
  - apply (extract_byte_ranges_spec [1; 2; 3; 4; 5] [FromStart 1 (Some 2); Suffix 2; FromStart 3 None]);
      [reflexivity|repeat constructor; vm_compute; congruence|reflexivity|repeat constructor; vm_compute; congruence].
  - destruct (extract_byte_ranges_spec [1; 2; 3; 4; 5] [FromStart 1 (Some 2); Suffix 2]) as (_ & _ & ->);
      [reflexivity|repeat constructor; vm_compute; congruence|reflexivity|reflexivity].
Defined.

(** Extraction from a seekable source agrees with extraction from its bytes
    for every range inside them except an open-ended range from a non-zero offset:
    that one asks for as many bytes as the whole source holds, and fails. *)
Theorem read_seek_agrees (b : bytes) (rs : list ByteRange) (Hb : zlen b < 2 ^ 63)
    (Ho : Forall byte_range_ok rs) (Hw : Forall (λ r, range_within r (zlen b)) rs) :
  (Forall (λ r, match r with FromStart o None => o = 0 | _ => True end) rs →
     extract_byte_ranges_read_seek b rs = Ok (range_bytes b <$> rs)) ∧
  (∀ pre o post, rs = pre ++ FromStart o None :: post →
     Forall (λ r, match r with FromStart o None => o = 0 | _ => True end) pre → 0 < o →
     extract_byte_ranges_read_seek b rs = Err UnexpectedEof ∧
     range_bytes b (FromStart o None) = drop (Z.to_nat o) b).
Proof.
  assert (∀ r, byte_range_ok r → range_within r (zlen b) →
    match r with FromStart o None => o = 0 | _ => True end → read_seek_range b (zlen b) r = Ok (range_bytes b r)) as Hr.
  { intros [o [l|]|l] Hok Hin Hz; simpl in *; unfold read_exact.
    - by rewrite (proj2 (Z.leb_le _ _)) by lia.
    - subst o. rewrite (proj2 (Z.leb_le _ _)) by lia. simpl. by rewrite drop_0, take_ge by lia.
    - rewrite (proj2 (Z.leb_gt _ _)) by lia. rewrite (proj2 (Z.ltb_ge _ _)) by lia.
      rewrite (proj2 (Z.leb_le _ _)) by lia. f_equal.
      rewrite take_ge by (rewrite length_drop; lia). f_equal. lia. }
  unfold extract_byte_ranges_read_seek. split.
  - intros Hz. rewrite (list_fmap_ext_in _ (λ r, Ok (range_bytes b r))).
    + by rewrite <-(list_fmap_fmap Ok), collect_res_Ok.
    + intros r Hin. apply Hr; by eapply Forall_forall in Ho, Hw, Hz.
  - intros pre o post -> Hz Hpos. split; [|done].
    rewrite Forall_app, Forall_cons in Ho, Hw. destruct Ho as (Hop & Hoo & _), Hw as (Hwp & Hwo & _).
    apply (collect_res_first_err pre (FromStart o None) post _ (range_bytes b)).
    + intros r Hin. apply Hr; by eapply Forall_forall in Hop, Hwp, Hz.
    + simpl in *. unfold read_exact. rewrite (proj2 (Z.leb_gt _ _)) by lia.
      by rewrite (proj2 (Z.eqb_neq _ _)) by lia.
Qed.

Lemma read_seek_agrees_witness :
  extract_byte_ranges_read_seek [1; 2; 3] [Suffix 1; FromStart 1 None] = Err UnexpectedEof.
Proof.
  destruct (read_seek_agrees [1; 2; 3] [Suffix 1; FromStart 1 None]) as [_ H];
    [reflexivity|repeat constructor; vm_compute; congruence|repeat constructor; vm_compute; congruence|].
  apply (H [Suffix 1] 1 [] eq_refl); [by repeat constructor|reflexivity].
Defined.
