(* ===== verification/StoreKey.v ===== *)
(** Store keys, store prefixes, node names and node paths:
    [zarrs_storage/src/store_key.rs], [store_prefix.rs],
    [zarrs/src/node/node_name.rs], [node_path.rs] and [key.rs].

    Strings are lists of characters.  A node path, a key and a prefix are the same
    list of path components written in three ways; the theorems are stated through
    the components. *)

From Stdlib Require Export Ascii.
From S2P Require Import Prelude.

(** [String] and [str]. *)
Definition str : Type := list ascii.

#[export] Instance ascii_inhabited : Inhabited ascii := populate zero.

(** A string literal. *)
Definition lit (s : string) : str := String.list_ascii_of_string s.

Definition slash : ascii := "/"%char.

(** ** The string operations of the standard library that the code uses *)

Definition starts_with (s p : str) : bool := bool_decide (p `prefix_of` s).
Definition ends_with (s p : str) : bool := bool_decide (p `suffix_of` s).

Fixpoint contains_str (s p : str) : bool :=
  starts_with s p || match s with [] => false | _ :: s => contains_str s p end.

(** [str::split] on a character. *)
Fixpoint split (c : ascii) (s : str) : list str :=
  match s with
  | [] => [[]]
  | x :: s =>
      if decide (x = c) then [] :: split c s
      else match split c s with [] => [[x]] | p :: l => (x :: p) :: l end
  end.

(** [join] of strings with a separator. *)
Fixpoint join (sep : str) (l : list str) : str :=
  match l with
  | [] => []
  | [s] => s
  | s :: l => s ++ sep ++ join sep l
  end.

Definition strip_prefix (s p : str) : option str :=
  if starts_with s p then Some (drop (length p) s) else None.
Definition strip_suffix (s p : str) : option str :=
  if ends_with s p then Some (take (length s - length p) s) else None.

(** [str::rsplit_once]. *)
Fixpoint rsplit_once (c : ascii) (s : str) : option (str * str) :=
  match s with
  | [] => None
  | x :: s =>
      match rsplit_once c s with
      | Some (a, b) => Some (x :: a, b)
      | None => if decide (x = c) then Some ([], s) else None
      end
  end.

(** ** [StoreKey] and [StorePrefix] *)

Definition StoreKey : Type := str.
Definition StorePrefix : Type := str.

Definition StoreKey_validate (key : str) : bool :=
  negb (starts_with key [slash]) && negb (ends_with key [slash]) && negb (contains_str key [slash; slash]).

Definition StoreKey_new (key : str) : outcome str StoreKey :=
  if StoreKey_validate key then Ok key else Err key.

Definition StorePrefix_validate (prefix : str) : bool :=
  bool_decide (prefix = []) || (ends_with prefix [slash] && negb (starts_with prefix [slash])).

Definition StorePrefix_new (prefix : str) : outcome str StorePrefix :=
  if StorePrefix_validate prefix then Ok prefix else Err prefix.

Definition has_prefix (self : StoreKey) (prefix : StorePrefix) : bool := starts_with self prefix.

Definition to_prefix (self : StoreKey) : StorePrefix :=
  if decide (self = []) then [] else self ++ [slash].

Definition StoreKey_parent (self : StoreKey) : StorePrefix :=
  let key_split := split slash self in
  let parent := join [slash] (take (length key_split - 1) key_split) in
  if decide (parent = []) then parent else parent ++ [slash].

(** [From<&StorePrefix> for StoreKey]. *)
Definition StoreKey_from_prefix (prefix : StorePrefix) : StoreKey :=
  default prefix (strip_suffix prefix [slash]).

(** ** [NodeName] and [NodePath] *)

Definition NodeName_validate (node_name : str) : bool :=
  bool_decide (node_name = []) ||
  (negb (contains_str node_name [slash]) && negb (starts_with node_name (lit "__")) &&
   negb (bool_decide (filter (fun c => c ≠ "."%char) node_name = []))).

Definition NodeName_new (name : str) : outcome str str :=
  if NodeName_validate name then Ok name else Err name.

Definition NodePath : Type := str.

Definition NodePath_validate (path : str) : bool :=
  if decide (path = [slash]) then true
  else if negb (starts_with path [slash]) || ends_with path [slash] then false
  else forallb (fun component => negb (bool_decide (component = [])) && NodeName_validate component)
         (split slash (drop 1 path)).

Definition NodePath_new (path : str) : outcome str NodePath :=
  if NodePath_validate path then Ok path else Err path.

Definition NodePath_root : NodePath := [slash].

Definition NodePath_is_root (self : NodePath) : bool := bool_decide (self = [slash]).

Definition NodePath_parent (self : NodePath) : option NodePath :=
  '(parent, child) ← rsplit_once slash self;
  if decide (child = []) then None
  else if decide (parent = []) then Some NodePath_root
  else match NodePath_new parent with Ok p => Some p | _ => None end.

Definition NodePath_join (self : NodePath) (relative : str) : outcome str NodePath :=
  let relative := default relative (strip_prefix relative [slash]) in
  if decide (relative = []) then Ok self
  else if forallb (fun component => negb (bool_decide (component = [])) && NodeName_validate component)
            (split slash relative)
  then
    let joined := if NodePath_is_root self then [slash] ++ relative else self ++ [slash] ++ relative in
    NodePath_new joined
  else Err relative.

(** [TryFrom<&StorePrefix> for NodePath]: the [unwrap] panics on the root prefix. *)
Definition NodePath_from_prefix (prefix : StorePrefix) : outcome str NodePath :=
  let? stripped := expect (strip_suffix prefix [slash]) in
  NodePath_new ([slash] ++ stripped).

(** [TryInto<StorePrefix> for &NodePath]. *)
Definition NodePath_to_prefix (self : NodePath) : outcome str StorePrefix :=
  if decide (self = [slash]) then StorePrefix_new []
  else StorePrefix_new (default self (strip_prefix self [slash]) ++ [slash]).

(** ** Keys of a node *)

Definition meta_key_any (path : NodePath) (metadata_file_name : str) : StoreKey :=
  if decide (path = [slash]) then metadata_file_name
  else default path (strip_prefix path [slash]) ++ [slash] ++ metadata_file_name.

Definition meta_key_v3 (path : NodePath) : StoreKey := meta_key_any path (lit "zarr.json").
Definition meta_key (path : NodePath) : StoreKey := meta_key_v3 path.
Definition meta_key_v2_array (path : NodePath) : StoreKey := meta_key_any path (lit ".zarray").
Definition meta_key_v2_group (path : NodePath) : StoreKey := meta_key_any path (lit ".zgroup").
Definition meta_key_v2_attributes (path : NodePath) : StoreKey := meta_key_any path (lit ".zattrs").

Definition data_key (path : NodePath) (chunk_key : StoreKey) : StoreKey :=
  let path := default path (strip_prefix path [slash]) in
  if decide (path = []) then chunk_key else path ++ [slash] ++ chunk_key.

(** ** Lemmas on strings *)

Lemma starts_with_spec s p : starts_with s p = true ↔ p `prefix_of` s.
Proof. apply bool_decide_eq_true. Qed.

Lemma ends_with_spec s p : ends_with s p = true ↔ p `suffix_of` s.
Proof. apply bool_decide_eq_true. Qed.

Lemma contains_str_spec s p : contains_str s p = true ↔ ∃ a b, s = a ++ p ++ b.
Proof.
  induction s as [|x s IH]; simpl; rewrite orb_true_iff, starts_with_spec.
  - split; [intros [[b Hb]|]; [by exists [], b|done]|].
    intros (a & b & H). left. symmetry in H. apply app_nil in H as [-> H]. by exists b.
  - rewrite IH. split.
    + intros [[b Hb]|(a & b & ->)]; [by exists [], b|by exists (x :: a), b].
    + intros ([|y a] & b & H); [left; by exists b|]. right. injection H as _ ->. by exists a, b.
Qed.

Lemma contains_char s c : contains_str s [c] = true ↔ c ∈ s.
Proof. rewrite contains_str_spec. split; [intros (a & b & ->); set_solver|]. apply list_elem_of_split. Qed.

Lemma split_ne c s : split c s ≠ [].
Proof. destruct s as [|x s]; simpl; [done|]. destruct (decide _); [done|]. by destruct (split c s). Qed.

Lemma split_no_sep c s : c ∉ s → split c s = [s].
Proof.
  induction s as [|x s IH]; intros H; [done|]. simpl. rewrite decide_False by set_solver.
  by rewrite IH by set_solver.
Qed.

Lemma split_app c a b : c ∉ a → split c (a ++ c :: b) = a :: split c b.
Proof.
  induction a as [|x a IH]; intros H; simpl; [by rewrite decide_True|].
  rewrite decide_False by set_solver. by rewrite IH by set_solver.
Qed.

Lemma join_cons sep s l : l ≠ [] → join sep (s :: l) = s ++ sep ++ join sep l.
Proof. by destruct l. Qed.

Lemma split_join c l : l ≠ [] → Forall (λ s, c ∉ s) l → split c (join [c] l) = l.
Proof.
  intros Hne H. induction H as [|s l Hs H IH]; [done|]. destruct l as [|s' l]; [by apply split_no_sep|].
  rewrite join_cons by done. simpl. rewrite split_app by done. f_equal. by apply IH.
Qed.

Lemma join_split c s : join [c] (split c s) = s.
Proof.
  induction s as [|x s IH]; [done|]. simpl. destruct (decide (x = c)) as [->|Hx].
  - rewrite join_cons by apply split_ne. simpl. by rewrite IH.
  - pose proof (split_ne c s). destruct (split c s) as [|p [|q l]]; [done|simpl in *; by f_equal|].
    simpl in *. by f_equal.
Qed.

Lemma split_no_sep_in c s p : p ∈ split c s → c ∉ p.
Proof.
  revert p. induction s as [|x s IH]; intros p; simpl.
  { intros ->%list_elem_of_singleton. apply not_elem_of_nil. }
  destruct (decide (x = c)) as [->|Hx].
  { intros [->|Hp]%elem_of_cons; [apply not_elem_of_nil|by apply IH]. }
  pose proof (split_ne c s). destruct (split c s) as [|q l]; [done|]. intros [->|Hp]%elem_of_cons.
  - intros [->|Hc]%elem_of_cons; [done|]. apply (IH q); [apply list_elem_of_here|done].
  - apply IH. by apply list_elem_of_further.
Qed.

Lemma join_inj c l k : l ≠ [] → k ≠ [] → Forall (λ s, c ∉ s) l → Forall (λ s, c ∉ s) k →
  join [c] l = join [c] k → l = k.
Proof. intros Hl Hk Fl Fk H. by rewrite <-(split_join c l), H, split_join. Qed.

Lemma join_app sep l k : l ≠ [] → k ≠ [] → join sep (l ++ k) = join sep l ++ sep ++ join sep k.
Proof.
  intros Hl Hk. induction l as [|s l IH]; [done|]. destruct l as [|s' l].
  - simpl. by destruct k.
  - change ((s :: s' :: l) ++ k) with (s :: ((s' :: l) ++ k)).
    rewrite !join_cons by (done || by destruct l). rewrite IH by done. by rewrite <-!app_assoc.
Qed.

Lemma rsplit_once_none c s : c ∉ s → rsplit_once c s = None.
Proof.
  induction s as [|x s IH]; intros H; [done|]. simpl. rewrite IH by set_solver.
  rewrite decide_False by set_solver. done.
Qed.

Lemma rsplit_once_app c a b : c ∉ b → rsplit_once c (a ++ c :: b) = Some (a, b).
Proof.
  intros Hb. induction a as [|x a IH]; simpl.
  - by rewrite rsplit_once_none, decide_True.
  - by rewrite IH.
Qed.

Lemma strip_prefix_cons c s : strip_prefix (c :: s) [c] = Some s.
Proof. unfold strip_prefix. rewrite (proj2 (starts_with_spec _ _)) by by exists s. done. Qed.

Lemma strip_prefix_none s c : starts_with s [c] = false → strip_prefix s [c] = None.
Proof. unfold strip_prefix. by intros ->. Qed.

Lemma strip_suffix_snoc c s : strip_suffix (s ++ [c]) [c] = Some s.
Proof.
  unfold strip_suffix. rewrite (proj2 (ends_with_spec _ _)) by by exists s. f_equal.
  rewrite length_app. simpl. rewrite Nat.add_sub. apply take_app_length.
Qed.

Lemma starts_with_char c s : starts_with s [c] = true ↔ ∃ s', s = c :: s'.
Proof. rewrite starts_with_spec. split; intros [s' ->]; by exists s'. Qed.

Lemma ends_with_char c s : ends_with s [c] = true ↔ ∃ s', s = s' ++ [c].
Proof. apply ends_with_spec. Qed.

Lemma split_app_sep c a b : split c (a ++ c :: b) = split c a ++ split c b.
Proof.
  induction a as [|x a IH]; simpl; [by rewrite decide_True|]. rewrite IH.
  destruct (decide (x = c)); [done|]. pose proof (split_ne c a). by destruct (split c a).
Qed.

Lemma join_eq_nil c l : join [c] l = [] → l = [] ∨ l = [[]].
Proof. destruct l as [|s [|s' l]]; simpl; [by left|intros ->; by right|]. by destruct s. Qed.

(** The strings with an empty component are those [StoreKey::validate] refuses, and the
    empty string. *)
Lemma empty_component s :
  [] ∈ split slash s ↔ s = [] ∨ StoreKey_validate s = false.
Proof.
  unfold StoreKey_validate. rewrite !andb_false_iff, !negb_false_iff, starts_with_char, ends_with_char, contains_str_spec.
  split.
  - intros (l1 & l2 & Hs)%list_elem_of_split. pose proof (join_split slash s) as Hj. rewrite Hs in Hj.
    destruct l1 as [|x1 l1]; destruct l2 as [|x2 l2].
    + left. by rewrite <-Hj.
    + right. left. left. exists (join [slash] (x2 :: l2)). by rewrite <-Hj.
    + right. left. right. exists (join [slash] (x1 :: l1)). by rewrite <-Hj, join_app by done.
    + right. right. exists (join [slash] (x1 :: l1)), (join [slash] (x2 :: l2)).
      by rewrite <-Hj, join_app by done.
  - intros [->|[[[s' ->]|[s' ->]]|(a & b & ->)]].
    + apply list_elem_of_here.
    + simpl. apply list_elem_of_here.
    + rewrite split_app_sep. apply elem_of_app. right. apply list_elem_of_here.
    + change (a ++ [slash; slash] ++ b) with (a ++ slash :: slash :: b). rewrite split_app_sep.
      apply elem_of_app. right. apply list_elem_of_here.
Qed.

Lemma StoreKey_validate_split s :
  s ≠ [] → StoreKey_validate s = true ↔ Forall (λ c, c ≠ []) (split slash s).
Proof.
  intros Hs. rewrite <-not_false_iff_true, Forall_forall. pose proof (empty_component s). split.
  - intros Hv c Hc ->. tauto.
  - intros Hf Hv. apply (Hf []); tauto.
Qed.

(** ** Components of a path *)

(** A component of a node path: a node name that is not the root's. *)
Definition component_ok (c : str) : bool := negb (bool_decide (c = [])) && NodeName_validate c.

(** The path of a list of components. *)
Definition path_of (comps : list str) : NodePath := slash :: join [slash] comps.

Lemma component_ok_ne c : component_ok c → c ≠ [].
Proof. unfold component_ok. case_bool_decide; [done|]. done. Qed.

Lemma component_ok_slash c : component_ok c → slash ∉ c.
Proof.
  unfold component_ok, NodeName_validate. case_bool_decide as H1; [done|]. simpl.
  rewrite <-contains_char. intros [[H2%negb_prop_elim _]%andb_True _]%andb_True.
  by apply not_true_iff_false in H2 || (intros Hc; by rewrite Hc in H2).
Qed.

Lemma components_ok_slash l : Forall component_ok l → Forall (λ s, slash ∉ s) l.
Proof. intros H. eapply Forall_impl; [done|]. apply component_ok_slash. Qed.

Lemma components_ok_ne l : Forall component_ok l → Forall (λ s, s ≠ []) l.
Proof. intros H. eapply Forall_impl; [done|]. apply component_ok_ne. Qed.

Lemma join_ne l : l ≠ [] → Forall (λ s, s ≠ []) l → join [slash] l ≠ [].
Proof. intros Hl Hf [?| ->]%join_eq_nil; [done|]. by inversion Hf. Qed.

Lemma join_valid l : Forall (λ s, s ≠ []) l → Forall (λ s, slash ∉ s) l → StoreKey_validate (join [slash] l) = true.
Proof.
  intros Hn Hs. destruct (decide (l = [])) as [->|Hl]; [done|].
  apply StoreKey_validate_split; [by apply join_ne|]. by rewrite split_join.
Qed.

Lemma join_not_starts l : Forall (λ s, s ≠ []) l → Forall (λ s, slash ∉ s) l →
  starts_with (join [slash] l) [slash] = false.
Proof.
  intros Hn Hs. pose proof (join_valid l Hn Hs) as H. unfold StoreKey_validate in H.
  destruct (starts_with _ _); [done|done].
Qed.

Lemma path_of_root l : Forall component_ok l → path_of l = [slash] ↔ l = [].
Proof.
  intros H. unfold path_of. split; [|by intros ->]. intros [= Hj].
  destruct (decide (l = [])) as [|Hl]; [done|]. apply join_ne in Hj; [done|done|]. by apply components_ok_ne.
Qed.

Lemma path_of_inj l k : Forall component_ok l → Forall component_ok k → path_of l = path_of k → l = k.
Proof.
  intros Hl Hk H. destruct (decide (l = [])) as [->|Nl].
  { symmetry in H. by apply path_of_root in H. }
  destruct (decide (k = [])) as [->|Nk].
  { by apply path_of_root in H. }
  injection H as H. by apply join_inj in H; try apply components_ok_slash.
Qed.

Lemma forallb_component l : 
  forallb (fun component => negb (bool_decide (component = [])) && NodeName_validate component) l = true
  ↔ Forall component_ok l.
Proof.
  by rewrite <-(Is_true_true (forallb _ _)), forallb_True.
Qed.

Lemma path_of_ends l : Forall component_ok l → l ≠ [] → ends_with (path_of l) [slash] = false.
Proof.
  intros Hl Hn. apply not_true_iff_false. rewrite ends_with_char. intros [s' Hs].
  pose proof (join_valid l (components_ok_ne l Hl) (components_ok_slash l Hl)) as Hv.
  assert (ends_with (join [slash] l) [slash] = true) as He.
  { apply ends_with_char. unfold path_of in Hs. destruct s' as [|x s']; injection Hs as Hs.
    - apply join_ne in Hs; [done|done|]. by apply components_ok_ne.
    - by exists s'. }
  unfold StoreKey_validate in Hv. rewrite He, andb_false_r in Hv. done.
Qed.

Lemma NodePath_validate_spec p :
  NodePath_validate p = true ↔ ∃ l, Forall component_ok l ∧ p = path_of l.
Proof.
  unfold NodePath_validate. destruct (decide (p = [slash])) as [->|Hp].
  { split; [|done]. intros _. by exists []. }
  split.
  - destruct (negb (starts_with p [slash]) || ends_with p [slash]) eqn:E; [done|].
    apply orb_false_iff in E as [[s ->]%negb_false_iff%starts_with_char _].
    intros H%forallb_component. simpl in H. exists (split slash s). split; [done|].
    unfold path_of. by rewrite join_split.
  - intros (l & Hl & ->). assert (l ≠ []) as Hn by by intros ->.
    rewrite (proj2 (starts_with_char _ _)) by by eexists. rewrite path_of_ends by done. simpl.
    apply forallb_component. rewrite drop_0, split_join; [done|done|by apply components_ok_slash].
Qed.

Lemma NodePath_new_path l : Forall component_ok l → NodePath_new (path_of l) = Ok (path_of l).
Proof. intros H. unfold NodePath_new. rewrite (proj2 (NodePath_validate_spec _)); [done|by exists l]. Qed.

Lemma NodePath_is_root_path l : Forall component_ok l → NodePath_is_root (path_of l) = bool_decide (l = []).
Proof. intros H. unfold NodePath_is_root. apply bool_decide_ext. by apply path_of_root. Qed.

Lemma path_of_snoc l c : l ≠ [] → path_of (l ++ [c]) = path_of l ++ slash :: c.
Proof. intros Hl. unfold path_of. by rewrite join_app. Qed.

Lemma path_of_app l k : l ≠ [] → k ≠ [] → path_of (l ++ k) = path_of l ++ [slash] ++ join [slash] k.
Proof. intros Hl Hk. unfold path_of. by rewrite join_app. Qed.

Lemma NodePath_parent_snoc l c : Forall component_ok l → component_ok c →
  NodePath_parent (path_of (l ++ [c])) = Some (path_of l).
Proof.
  intros Hl Hc. unfold NodePath_parent. destruct (decide (l = [])) as [->|Hn].
  - change (path_of ([] ++ [c])) with ([] ++ slash :: c).
    rewrite rsplit_once_app by by apply component_ok_slash. simpl.
    rewrite decide_False by by apply component_ok_ne. done.
  - rewrite path_of_snoc, rsplit_once_app by (done || by apply component_ok_slash). cbn [mbind option_bind].
    rewrite decide_False by by apply component_ok_ne. rewrite decide_False by done.
    by rewrite NodePath_new_path.
Qed.

Lemma strip_slash_join l : Forall component_ok l →
  default (join [slash] l) (strip_prefix (join [slash] l) [slash]) = join [slash] l.
Proof.
  intros H. rewrite strip_prefix_none; [done|]. 
  apply join_not_starts; [by apply components_ok_ne|by apply components_ok_slash].
Qed.

Lemma strip_slash_path l : strip_prefix (path_of l) [slash] = Some (join [slash] l).
Proof. apply strip_prefix_cons. Qed.

Lemma NodePath_join_spec l rel : Forall component_ok l →
  NodePath_join (path_of l) rel =
    let rel := default rel (strip_prefix rel [slash]) in
    if decide (rel = []) then Ok (path_of l)
    else if decide (Forall component_ok (split slash rel)) then Ok (path_of (l ++ split slash rel))
    else Err rel.
Proof.
  intros Hl. unfold NodePath_join. set (r := default rel _). destruct (decide (r = [])) as [|Hr]; [done|].
  cbv zeta. destruct (decide (Forall component_ok (split slash r))) as [Hf|Hf].
  - rewrite (proj2 (forallb_component _)) by done. rewrite NodePath_is_root_path by done.
    pose proof (split_ne slash r) as Hs. pose proof (join_split slash r) as Hj.
    rewrite <-(NodePath_new_path (l ++ split slash r)) by by apply Forall_app. f_equal.
    case_bool_decide as El; [subst; unfold path_of; simpl; by rewrite Hj|].
    by rewrite path_of_app, Hj.
  - destruct (forallb _ _) eqn:E; [|done]. by apply forallb_component in E.
Qed.

(** The valid node paths are the paths of lists of valid node names; the components
    of a path are unique; the root has no parent and the parent of a node drops its last component; and
    [join] appends the components of the relative path, with or without a leading [/]:
    it fails exactly when one of them is not a valid name, and never returns an invalid path. *)
Theorem node_path_algebra l :
  Forall component_ok l →
  (∀ p, NodePath_validate p = true ↔
     ∃ k, Forall component_ok k ∧ p = path_of k ∧ ∀ k', Forall component_ok k' → p = path_of k' → k' = k) ∧
  NodePath_parent (path_of []) = None ∧
  (∀ c, component_ok c → NodePath_parent (path_of (l ++ [c])) = Some (path_of l)) ∧
  (∀ k, Forall component_ok k →
     NodePath_join (path_of l) (join [slash] k) = Ok (path_of (l ++ k)) ∧
     NodePath_join (path_of l) (path_of k) = Ok (path_of (l ++ k))) ∧
  (∀ rel, (∃ q, NodePath_join (path_of l) rel = Ok q ∧ NodePath_validate q = true) ∨
     (NodePath_join (path_of l) rel = Err (default rel (strip_prefix rel [slash])) ∧
      ∀ k, Forall component_ok k → rel ≠ join [slash] k ∧ rel ≠ path_of k)).
Proof.
  intros Hl. assert (∀ k, Forall component_ok k →
    NodePath_join (path_of l) (join [slash] k) = Ok (path_of (l ++ k)) ∧
    NodePath_join (path_of l) (path_of k) = Ok (path_of (l ++ k))) as Hjoin.
  { intros k Hk. rewrite !NodePath_join_spec by done. cbv zeta. rewrite strip_slash_join by done.
    rewrite strip_slash_path. cbn [default from_option id].
    destruct (decide (k = [])) as [->|Hn]; [by rewrite app_nil_r|].
    assert (split slash (join [slash] k) = k) as -> by (apply split_join; [done|by apply components_ok_slash]).
    destruct (decide (join [slash] k = [])) as [Hj|_].
    { exfalso. revert Hj. apply join_ne; [done|by apply components_ok_ne]. }
    by rewrite decide_True. }
  split_and!; [| done | intros c; by apply NodePath_parent_snoc | done |].
  - intros p. rewrite NodePath_validate_spec. split.
    + intros (k & Hk & ->). exists k. split_and!; [done..|]. intros k' Hk' He. by apply path_of_inj.
    + intros (k & Hk & -> & _). by exists k.
  - intros rel. pose proof (NodePath_join_spec l rel Hl) as Hs. cbv zeta in Hs.
    destruct (decide (default rel _ = [])); [left; eexists; split; [done|]; apply NodePath_validate_spec; by exists l|].
    destruct (decide (Forall _ _)); [left; eexists; split; [done|]|].
    + apply NodePath_validate_spec. eexists. split; [|done]. by apply Forall_app.
    + right. split; [done|]. intros k Hk. destruct (Hjoin k Hk) as [H1 H2].
      split; intros ->; congruence.
Qed.

Lemma node_path_algebra_witness :
  NodePath_join (path_of [lit "a"]) (lit "b/c") = Ok (path_of [lit "a"; lit "b"; lit "c"]) ∧
  NodePath_parent (path_of [lit "a"; lit "b"]) = Some (path_of [lit "a"]).
Proof.
  destruct (node_path_algebra [lit "a"]) as (_ & _ & H1 & H2 & _); [by repeat constructor|].
  split; [|by apply (H1 (lit "b"))]. apply (H2 [lit "b"; lit "c"]). by repeat constructor.
Defined.

(** ** Prefixes and keys of a node *)

(** The components of a path, each followed by a slash: the prefix of the node. *)
Definition node_prefix (l : list str) : StorePrefix := concat (map (λ c, c ++ [slash]) l).

Lemma node_prefix_join l s : l ≠ [] → node_prefix l ++ s = join [slash] l ++ slash :: s.
Proof.
  intros Hl. induction l as [|c [|c' l] IH]; [done|unfold node_prefix; simpl; by rewrite app_nil_r, <-app_assoc|].
  rewrite join_cons by done. change (node_prefix (c :: c' :: l)) with ((c ++ [slash]) ++ node_prefix (c' :: l)).
  rewrite <-!app_assoc, IH by done. done.
Qed.

Lemma split_node_prefix l s : Forall (λ c, slash ∉ c) l → split slash (node_prefix l ++ s) = l ++ split slash s.
Proof.
  intros H. induction H as [|c l Hc H IH]; [done|].
  change (node_prefix (c :: l)) with ((c ++ [slash]) ++ node_prefix l).
  rewrite <-!app_assoc. change ([slash] ++ ?x) with (slash :: x). simpl. rewrite split_app by done. by rewrite IH.
Qed.

Lemma slash_free_split a b x y : slash ∉ a → slash ∉ b → a ++ slash :: x = b ++ slash :: y → a = b ∧ x = y.
Proof.
  intros Ha Hb H. apply (f_equal (split slash)) in H as Hs. rewrite !split_app in Hs by done.
  injection Hs as <- _. split; [done|]. by apply app_inv_head in H; injection H.
Qed.

(** One prefix is a prefix of a string under another exactly when the nodes are nested. *)
Lemma node_prefix_prefix l k s : Forall (λ c, slash ∉ c) l → Forall (λ c, slash ∉ c) k → slash ∉ s →
  node_prefix l `prefix_of` node_prefix k ++ s ↔ l `prefix_of` k.
Proof.
  intros Hl Hk Hs. split.
  - revert k Hk. induction Hl as [|c l Hc Hl IH]; intros k Hk; [intros; apply prefix_nil|].
    change (node_prefix (c :: l)) with ((c ++ [slash]) ++ node_prefix l). rewrite <-!app_assoc. simpl.
    intros [r Hr]. rewrite <-app_assoc in Hr. simpl in Hr. destruct Hk as [|d k Hd Hk].
    + exfalso. apply Hs. simpl in Hr. rewrite Hr. set_solver.
    + change (node_prefix (d :: k)) with ((d ++ [slash]) ++ node_prefix k) in Hr. rewrite <-!app_assoc in Hr.
      simpl in Hr. apply slash_free_split in Hr as [-> Hr]; [|done|done].
      apply prefix_cons, IH; [done|]. by exists r.
  - intros [r ->]. exists (node_prefix r ++ s). unfold node_prefix. by rewrite map_app, concat_app, app_assoc.
Qed.

Lemma node_prefix_inj l k s t : Forall (λ c, slash ∉ c) l → Forall (λ c, slash ∉ c) k → slash ∉ s → slash ∉ t →
  node_prefix l ++ s = node_prefix k ++ t → l = k ∧ s = t.
Proof.
  intros Hl Hk Hs Ht H. apply (f_equal (split slash)) in H as H'. rewrite !split_node_prefix in H' by done.
  rewrite !split_no_sep in H' by done. by apply app_inj_2 in H' as [-> [= ->]].
Qed.

Lemma NodePath_to_prefix_path l : Forall component_ok l → NodePath_to_prefix (path_of l) = Ok (node_prefix l).
Proof.
  intros Hl. unfold NodePath_to_prefix. destruct (decide (path_of l = [slash])) as [He|He].
  - apply path_of_root in He as ->; done.
  - assert (l ≠ []) as Hn by by intros ->. rewrite strip_slash_path. cbn [default from_option id].
    pose proof (node_prefix_join l [] Hn) as Hj. rewrite app_nil_r in Hj.
    rewrite <-Hj. unfold StorePrefix_new, StorePrefix_validate.
    case_bool_decide; [done|]. rewrite (proj2 (ends_with_char slash (node_prefix l))) by (rewrite Hj; by eexists).
    assert (starts_with (node_prefix l) [slash] = false) as ->; [|done].
    rewrite Hj. apply not_true_iff_false. intros [s' Hs]%starts_with_char.
    assert (join [slash] l ≠ []) as Hne by (apply join_ne; [done|by apply components_ok_ne]).
    destruct (join [slash] l) as [|x j] eqn:Ej; [done|]. injection Hs as -> _.
    pose proof (join_not_starts l (components_ok_ne l Hl) (components_ok_slash l Hl)) as Hf. rewrite Ej in Hf.
    rewrite (proj2 (starts_with_char _ _)) in Hf; [done|by eexists].
Qed.

Lemma NodePath_from_prefix_node l : Forall component_ok l → l ≠ [] →
  NodePath_from_prefix (node_prefix l) = Ok (path_of l).
Proof.
  intros Hl Hn. pose proof (node_prefix_join l [] Hn) as Hj. rewrite app_nil_r in Hj.
  unfold NodePath_from_prefix. rewrite Hj, strip_suffix_snoc. simpl. by apply NodePath_new_path.
Qed.

Lemma meta_key_any_prefix l name : Forall component_ok l → meta_key_any (path_of l) name = node_prefix l ++ name.
Proof.
  intros Hl. unfold meta_key_any. destruct (decide (path_of l = [slash])) as [He|He].
  - apply path_of_root in He as ->; done.
  - assert (l ≠ []) as Hn by by intros ->. rewrite strip_slash_path. by rewrite node_prefix_join.
Qed.

Lemma data_key_prefix l key : Forall component_ok l → data_key (path_of l) key = node_prefix l ++ key.
Proof.
  intros Hl. unfold data_key. rewrite strip_slash_path. cbn [default from_option id].
  destruct (decide (l = [])) as [->|Hn]; [done|].
  rewrite decide_False; [|apply join_ne; [done|by apply components_ok_ne]]. by rewrite node_prefix_join.
Qed.

Lemma node_key_split l key : Forall component_ok l →
  StoreKey_validate key = true → key ≠ [] →
  StoreKey_validate (node_prefix l ++ key) = true.
Proof.
  intros Hl Hv Hk. apply StoreKey_validate_split; [by destruct (node_prefix l)|].
  rewrite split_node_prefix by by apply components_ok_slash. apply Forall_app. split; [by apply components_ok_ne|].
  by apply StoreKey_validate_split.
Qed.

Lemma StoreKey_parent_node l name : Forall component_ok l → slash ∉ name →
  StoreKey_parent (node_prefix l ++ name) = node_prefix l.
Proof.
  intros Hl Hs. unfold StoreKey_parent. rewrite split_node_prefix by by apply components_ok_slash.
  rewrite split_no_sep by done. rewrite length_app, Nat.add_sub, take_app_length.
  destruct (decide (l = [])) as [->|Hn]; [done|].
  rewrite decide_False; [|apply join_ne; [done|by apply components_ok_ne]].
  rewrite <-(app_nil_r (node_prefix l)). by rewrite node_prefix_join.
Qed.

(** The keys and the prefix of a node.  The prefix of a valid path is a valid
    prefix and gives the path back (the root's prefix is the exception: converting it to a path
    panics); one prefix extends another exactly when its node is a descendant (or the same); the
    metadata key of a node is a valid key, its parent is the node's prefix, it lies below a prefix exactly
    when the node does, and distinct nodes or distinct metadata file names never
    share a key. *)
Theorem node_keys_spec l k name name' :
  Forall component_ok l → Forall component_ok k →
  name ≠ [] → slash ∉ name → name' ≠ [] → slash ∉ name' →
  ∃ q q', NodePath_to_prefix (path_of l) = Ok q ∧ NodePath_to_prefix (path_of k) = Ok q' ∧
    StorePrefix_validate q = true ∧
    NodePath_from_prefix q = (if decide (l = []) then Panic else Ok (path_of l)) ∧
    (starts_with q' q = true ↔ l `prefix_of` k) ∧
    (q = q' ↔ l = k) ∧
    StoreKey_validate (meta_key_any (path_of l) name) = true ∧
    StoreKey_parent (meta_key_any (path_of l) name) = q ∧
    (has_prefix (meta_key_any (path_of k) name) q = true ↔ l `prefix_of` k) ∧
    (meta_key_any (path_of l) name = meta_key_any (path_of k) name' → l = k ∧ name = name').
Proof.
  intros Hl Hk Hn Hs Hn' Hs'. exists (node_prefix l), (node_prefix k).
  pose proof (components_ok_slash l Hl) as Sl. pose proof (components_ok_slash k Hk) as Sk.
  assert (NodePath_to_prefix (path_of l) = Ok (node_prefix l)) as Ht by by apply NodePath_to_prefix_path.
  split_and!; [done|by apply NodePath_to_prefix_path|..].
  - revert Ht. unfold NodePath_to_prefix, StorePrefix_new. destruct (decide _); [by intros [= <-]|].
    destruct (StorePrefix_validate _) eqn:E; [by intros [= <-]|done].
  - destruct (decide (l = [])) as [->|]; [done|]. by apply NodePath_from_prefix_node.
  - rewrite starts_with_spec, <-(node_prefix_prefix l k [] Sl Sk (not_elem_of_nil _)). by rewrite app_nil_r.
  - split; [|by intros ->]. intros H.
    apply (node_prefix_inj l k [] [] Sl Sk (not_elem_of_nil _) (not_elem_of_nil _)). by rewrite !app_nil_r.
  - rewrite meta_key_any_prefix by done. apply node_key_split; [done| |done].
    apply StoreKey_validate_split; [done|]. rewrite split_no_sep by done. by repeat constructor.
  - rewrite meta_key_any_prefix by done. by apply StoreKey_parent_node.
  - rewrite meta_key_any_prefix by done. unfold has_prefix. rewrite starts_with_spec. by apply node_prefix_prefix.
  - rewrite !meta_key_any_prefix by done. by apply node_prefix_inj.
Qed.

Lemma node_keys_spec_witness :
  NodePath_to_prefix (path_of [lit "a"; lit "b"]) = Ok (lit "a/b/") ∧
  has_prefix (meta_key_v3 (path_of [lit "a"])) (lit "a/b/") = false.
Proof.
  destruct (node_keys_spec [lit "a"; lit "b"] [lit "a"] (lit "zarr.json") (lit ".zarray"))
    as (q & q' & H1 & _ & _ & _ & _ & _ & _ & _ & H2 & _);
    [by repeat constructor..|done|by_decision|done|by_decision|].
  assert (q = lit "a/b/") as -> by (vm_compute in H1; by injection H1).
  split; [done|]. apply not_true_iff_false. intros H%H2%prefix_length. simpl in H. lia.
Defined.
