(* ===== verification/ChunkKey.v ===== *)
(** Chunk key encodings and the keys of the chunks of an array:
    [zarrs/src/array/chunk_key_encoding/default.rs], [v2.rs], [default_suffix.rs],
    [zarrs_metadata/src/array/chunk_key_separator.rs] and the trait of
    [zarrs_chunk_key_encoding/src/lib.rs].

    The decimal formatting of an integer is the [itoa] crate's: it is a parameter, of
    which only that numbers are written with digits, and differently, is used. *)

From Stdlib Require Import DecimalPos DecimalN DecimalString.
From S2P Require Import Prelude StoreKey.

(** [ChunkKeySeparator]. *)
Inductive ChunkKeySeparator := Slash | Dot.

#[export] Instance separator_eq_dec : EqDecision ChunkKeySeparator.
Proof. solve_decision. Defined.

(** [From<ChunkKeySeparator> for char]. *)
Definition separator_char (value : ChunkKeySeparator) : ascii :=
  match value with Slash => "/"%char | Dot => "."%char end.

(** [TryFrom<char> for ChunkKeySeparator]. *)
Definition separator_of_char (separator : ascii) : outcome ascii ChunkKeySeparator :=
  if decide (separator = "/"%char) then Ok Slash
  else if decide (separator = "."%char) then Ok Dot
  else Err separator.

(** The decimal digits. *)
Definition is_digit (c : ascii) : Prop := 48 <= Z.of_N (N_of_ascii c) <= 57.

#[export] Instance is_digit_dec c : Decision (is_digit c).
Proof. unfold is_digit. apply _. Defined.

(** [ChunkKeyEncodingTraits]. *)
Class ChunkKeyEncodingTraits (E : Type) := { encode : E → list Z → StoreKey }.

(** What an array relies on: chunks of one array have different keys. *)
Class LawfulChunkKeyEncoding (E : Type) `{!ChunkKeyEncodingTraits E} := {
  encode_inj e i j : Forall is_u64 i → Forall is_u64 j → length i = length j → encode e i = encode e j → i = j;
}.

Record DefaultChunkKeyEncoding := { default_separator : ChunkKeySeparator }.
Record DefaultSuffixChunkKeyEncoding := { suffix_separator : ChunkKeySeparator; suffix : str }.
Record V2ChunkKeyEncoding := { v2_separator : ChunkKeySeparator }.

Definition DefaultChunkKeyEncoding_new (separator : ChunkKeySeparator) : DefaultChunkKeyEncoding :=
  {| default_separator := separator |}.
Definition DefaultSuffixChunkKeyEncoding_new (separator : ChunkKeySeparator) (suffix : str) :
    DefaultSuffixChunkKeyEncoding := {| suffix_separator := separator; suffix := suffix |}.
Definition V2ChunkKeyEncoding_new (separator : ChunkKeySeparator) : V2ChunkKeyEncoding :=
  {| v2_separator := separator |}.

Section encodings.
(** [itoa::Buffer::format] of a [u64]. *)
Context (itoa : Z → str).

Definition default_encode (self : DefaultChunkKeyEncoding) (chunk_grid_indices : list Z) : StoreKey :=
  if decide (chunk_grid_indices = []) then lit "c"
  else join [separator_char (default_separator self)] (lit "c" :: map itoa chunk_grid_indices).

Definition default_suffix_encode (self : DefaultSuffixChunkKeyEncoding) (chunk_grid_indices : list Z) : StoreKey :=
  if decide (chunk_grid_indices = []) then lit "c" ++ suffix self
  else join [separator_char (suffix_separator self)] (lit "c" :: map itoa chunk_grid_indices) ++ suffix self.

Definition v2_encode (self : V2ChunkKeyEncoding) (chunk_grid_indices : list Z) : StoreKey :=
  if decide (chunk_grid_indices = []) then lit "0"
  else join [separator_char (v2_separator self)] (map itoa chunk_grid_indices).

#[local] Instance default_traits : ChunkKeyEncodingTraits DefaultChunkKeyEncoding := {| encode := default_encode |}.
#[local] Instance default_suffix_traits : ChunkKeyEncodingTraits DefaultSuffixChunkKeyEncoding :=
  {| encode := default_suffix_encode |}.
#[local] Instance v2_traits : ChunkKeyEncodingTraits V2ChunkKeyEncoding := {| encode := v2_encode |}.

(** [Array::chunk_key]. *)
Definition chunk_key {E} `{ChunkKeyEncodingTraits E} (path : NodePath) (encoding : E) (chunk_indices : list Z) : StoreKey :=
  data_key path (encode encoding chunk_indices).

(** ** What is used of [itoa] *)

Context (itoa_digits : ∀ n, is_u64 n → itoa n ≠ [] ∧ Forall is_digit (itoa n)).
Context (itoa_inj : ∀ n m, is_u64 n → is_u64 m → itoa n = itoa m → n = m).

Lemma digit_not c : is_digit c → c ≠ slash ∧ c ≠ "."%char ∧ c ≠ "c"%char ∧ c ≠ "z"%char.
Proof. intros H. split_and!; intros ->; unfold is_digit in H; simpl in H; lia. Qed.

Lemma digits_no_sep s sep : Forall is_digit s → separator_char sep ∉ s.
Proof.
  rewrite Forall_forall. intros H Hi. specialize (H _ Hi). pose proof (digit_not _ H) as (? & ? & _).
  by destruct sep.
Qed.

Lemma itoa_no_sep n sep : is_u64 n → separator_char sep ∉ itoa n.
Proof. intros H. by apply digits_no_sep, itoa_digits. Qed.

Lemma itoa_map_inj i j : Forall is_u64 i → Forall is_u64 j → map itoa i = map itoa j → i = j.
Proof.
  intros Hi. revert j. induction Hi as [|n i Hn Hi IH]; intros [|m j] Hj; simpl; try done.
  inversion Hj; subst. intros [= Ha Hb]. f_equal; [by apply itoa_inj|by apply IH].
Qed.

(** The components of the key of a chunk before they are joined. *)
Lemma key_parts_no_sep sep i : Forall is_u64 i → Forall (λ s, separator_char sep ∉ s) (map itoa i).
Proof. intros H. apply Forall_fmap. eapply Forall_impl; [done|]. intros n Hn. by apply itoa_no_sep. Qed.

Lemma prefix_no_sep sep : separator_char sep ∉ lit "c".
Proof. destruct sep; by_decision. Qed.

Lemma key_parts_default_no_sep sep i : Forall is_u64 i →
  Forall (λ s, separator_char sep ∉ s) (lit "c" :: map itoa i).
Proof. intros H. constructor; [apply prefix_no_sep|by apply key_parts_no_sep]. Qed.

Lemma default_encode_join e i :
  default_encode e i = join [separator_char (default_separator e)] (lit "c" :: map itoa i).
Proof. unfold default_encode. by destruct (decide (i = [])) as [->|]. Qed.

Lemma default_encode_inj e i j : Forall is_u64 i → Forall is_u64 j →
  default_encode e i = default_encode e j → i = j.
Proof.
  intros Hi Hj H. rewrite !default_encode_join in H.
  apply join_inj in H; [|done..|by apply key_parts_default_no_sep|by apply key_parts_default_no_sep].
  injection H as H. by apply itoa_map_inj.
Qed.

Lemma v2_encode_inj e i j : Forall is_u64 i → Forall is_u64 j → length i = length j →
  v2_encode e i = v2_encode e j → i = j.
Proof.
  intros Hi Hj Hl. unfold v2_encode. destruct (decide (i = [])) as [->|Ni]; [by destruct j|].
  rewrite decide_False by (intros ->; by destruct i). intros H.
  apply join_inj in H; [by apply itoa_map_inj|by destruct i|by destruct i, j|by apply key_parts_no_sep..].
Qed.

(** The encodings keep the promise. *)
#[local] Instance default_lawful : LawfulChunkKeyEncoding DefaultChunkKeyEncoding.
Proof. constructor. intros e i j Hi Hj _. by apply default_encode_inj. Qed.

#[local] Instance default_suffix_lawful : LawfulChunkKeyEncoding DefaultSuffixChunkKeyEncoding.
Proof.
  constructor. intros e i j Hi Hj _. simpl.
  assert (∀ k, default_suffix_encode e k = default_encode (DefaultChunkKeyEncoding_new (suffix_separator e)) k ++ suffix e) as Hs.
  { intros k. unfold default_suffix_encode, default_encode. by destruct (decide _). }
  rewrite !Hs. intros H%app_inv_tail. by apply default_encode_inj in H.
Qed.

#[local] Instance v2_lawful : LawfulChunkKeyEncoding V2ChunkKeyEncoding.
Proof. constructor. intros e i j. apply v2_encode_inj. Qed.


(** The first component of the second of two appended strings is the end of the last
    component of the first. *)
Lemma split_app_last c a t : ∃ l p q m,
  split c a = l ++ [p] ∧ split c t = q :: m ∧ split c (a ++ t) = l ++ (p ++ q) :: m.
Proof.
  induction a as [|x a (l & p & q & m & H1 & H2 & H3)]; simpl.
  - pose proof (split_ne c t). destruct (split c t) as [|q m]; [done|]. by exists [], [], q, m.
  - rewrite H1, H3. destruct (decide (x = c)); [by exists ([] :: l), p, q, m|].
    destruct l as [|y l]; simpl; [by exists [], (x :: p), q, m|by exists ((x :: y) :: l), p, q, m].
Qed.

Lemma split_tail a t : Forall (λ c, c ≠ []) (split slash a) →
  Forall (λ c, c ≠ []) (split slash (a ++ t)) ↔ Forall (λ c, c ≠ []) (tail (split slash t)).
Proof.
  destruct (split_app_last slash a t) as (l & p & q & m & -> & -> & ->).
  rewrite !Forall_app, !Forall_cons. simpl. intros (Hl & Hp & _). assert (p ++ q ≠ []) by by destruct p.
  tauto.
Qed.

(** A string with a non-empty first part has empty components exactly where the rest has. *)
Lemma valid_app a s : a ≠ [] → StoreKey_validate a = true →
  StoreKey_validate (a ++ s) = negb (ends_with s [slash]) && negb (contains_str s [slash; slash]).
Proof.
  intros Ha Hv. assert (Forall (λ c, c ≠ []) (split slash a)) as Hc by by apply StoreKey_validate_split.
  assert (∀ t, StoreKey_validate (a ++ t) = true ↔ Forall (λ c, c ≠ []) (tail (split slash t))) as Hat.
  { intros t. rewrite StoreKey_validate_split by by destruct a. by apply split_tail. }
  assert (∀ t, StoreKey_validate (["c"%char] ++ t) = true ↔ Forall (λ c, c ≠ []) (tail (split slash t))) as Hct.
  { intros t. rewrite StoreKey_validate_split by done. apply split_tail. by repeat constructor. }
  transitivity (StoreKey_validate (["c"%char] ++ s)); [apply eq_true_iff_eq; by rewrite Hat, Hct|].
  assert (∀ t, starts_with ("c"%char :: t) [slash] = false) as Hst.
  { intros t. apply not_true_iff_false. by intros [? ?]%starts_with_char. }
  unfold StoreKey_validate. cbn [app]. rewrite Hst. cbn [negb andb]. f_equal; f_equal.
  apply eq_true_iff_eq. rewrite !ends_with_char. split; intros [t Ht].
  - destruct t as [|y t]; [done|]. injection Ht as <- ->. by exists t.
  - exists ("c"%char :: t). by rewrite Ht.
Qed.

Lemma join_dot_free l : Forall (λ s, slash ∉ s) l → slash ∉ join ["."%char] l.
Proof.
  induction 1 as [|s l Hs Hl IH]; [apply not_elem_of_nil|]. destruct l as [|s' l]; [done|].
  rewrite join_cons by done. rewrite !elem_of_app. intros [?|[Hd%list_elem_of_singleton|?]]; done.
Qed.

(** Digit strings, possibly after the letter of the encoding. *)
Definition key_part (s : str) : Prop := s ≠ [] ∧ slash ∉ s.

Lemma key_part_join sep l : l ≠ [] → Forall key_part l →
  join [separator_char sep] l ≠ [] ∧ StoreKey_validate (join [separator_char sep] l) = true.
Proof.
  intros Hl Hp. assert (join [separator_char sep] l ≠ []) as Hne.
  { intros [?|Hj]%join_eq_nil; [done|]. rewrite Hj in Hp. by apply Forall_singleton in Hp as [? _]. }
  split; [done|]. destruct sep; simpl in *.
  - apply join_valid; eapply Forall_impl; try done; by intros ? [??].
  - apply StoreKey_validate_split; [done|]. rewrite split_no_sep; [by constructor|].
    apply join_dot_free. eapply Forall_impl; [done|]. by intros ? [??].
Qed.

Lemma itoa_key_part n : is_u64 n → key_part (itoa n).
Proof. intros H. split; [by apply itoa_digits|]. by apply (itoa_no_sep n Slash). Qed.

Lemma itoa_key_parts i : Forall is_u64 i → Forall key_part (map itoa i).
Proof. intros H. apply Forall_fmap. eapply Forall_impl; [done|]. intros n Hn. by apply itoa_key_part. Qed.

Lemma default_key_parts i : Forall is_u64 i → Forall key_part (lit "c" :: map itoa i).
Proof. intros H. constructor; [split; by_decision|by apply itoa_key_parts]. Qed.

(** The chunk key encodings.  [default] and [v2] keys are valid, non-empty store keys;
    a [default_suffix] key is valid exactly when its suffix neither ends with [/] nor contains
    [//].  [default] and [default_suffix] keys determine the chunk indices,
    whatever their number; [v2] keys determine them among indices of one dimensionality (the keys of
    the chunk of a zero-dimensional array and of chunk 0 of a one-dimensional one are the same). *)
Theorem chunk_keys_valid_and_injective sep suf i j :
  Forall is_u64 i → Forall is_u64 j →
  let d := DefaultChunkKeyEncoding_new sep in
  let s := DefaultSuffixChunkKeyEncoding_new sep suf in
  let v := V2ChunkKeyEncoding_new sep in
  (encode d i ≠ [] ∧ StoreKey_validate (encode d i) = true) ∧
  (encode v i ≠ [] ∧ StoreKey_validate (encode v i) = true) ∧
  (StoreKey_validate (encode s i) = true ↔
     ends_with suf [slash] = false ∧ contains_str suf [slash; slash] = false) ∧
  (encode d i = encode d j ↔ i = j) ∧
  (encode s i = encode s j ↔ i = j) ∧
  (length i = length j → (encode v i = encode v j ↔ i = j)) ∧
  encode v [] = lit "0" ∧ (itoa 0 = lit "0" → encode v [] = encode v [0]).
Proof.
  intros Hi Hj d s v. simpl.
  assert (encode d i ≠ [] ∧ StoreKey_validate (encode d i) = true) as Hd.
  { simpl. rewrite default_encode_join. apply key_part_join; [done|]. by apply default_key_parts. }
  assert (∀ k, default_suffix_encode s k = default_encode d k ++ suf) as Hs.
  { intros k. unfold default_suffix_encode, default_encode. by destruct (decide _). }
  split_and!; try apply Hd.
  - unfold v2_encode. destruct (decide _); [done|]. apply key_part_join; [by destruct i|by apply itoa_key_parts].
  - unfold v2_encode. destruct (decide _); [done|]. apply key_part_join; [by destruct i|by apply itoa_key_parts].
  - rewrite Hs, valid_app by apply Hd. by rewrite andb_true_iff, !negb_true_iff.
  - split; [by apply default_encode_inj|by intros ->].
  - rewrite !Hs. split; [|by intros ->]. intros H%app_inv_tail. by apply default_encode_inj in H.
  - intros Hl. split; [by apply v2_encode_inj|by intros ->].
  - done.
  - intros H0. unfold v2_encode. simpl. by rewrite H0.
Qed.

(** The components of the key of a chunk in the [default] encoding. *)
Definition default_components (sep : ChunkKeySeparator) (i : list Z) : list str :=
  match sep with
  | Slash => lit "c" :: map itoa i
  | Dot => [join ["."%char] (lit "c" :: map itoa i)]
  end.

Lemma split_default e i : Forall is_u64 i →
  split slash (default_encode e i) = default_components (default_separator e) i.
Proof.
  intros Hi. rewrite default_encode_join. destruct (default_separator e).
  - by apply (split_join slash); [|apply (key_parts_default_no_sep Slash)].
  - apply split_no_sep, join_dot_free. by apply (key_parts_default_no_sep Slash).
Qed.

(** The components of a path that are digit strings end a key; the one before them starts
    with the letter [c]. *)
Lemma digits_suffix_inj l k c d i j :
  ¬ Forall is_digit c → ¬ Forall is_digit d → Forall (Forall is_digit) i → Forall (Forall is_digit) j →
  l ++ c :: i = k ++ d :: j → l = k ∧ c = d ∧ i = j.
Proof.
  intros Hc Hd Hi. revert k d j Hd. induction l as [|x l IH]; intros [|y k] d j Hd Hj; simpl.
  - intros [= -> ->]. done.
  - intros [= -> ->]. rewrite Forall_app, Forall_cons in Hi. tauto.
  - intros [= -> <-]. rewrite Forall_app, Forall_cons in Hj. tauto.
  - intros [= -> H]. by destruct (IH _ _ _ Hd Hj H) as (-> & -> & ->).
Qed.

Lemma default_components_shape sep i : Forall is_u64 i → ∃ c r,
  default_components sep i = (lit "c" ++ c) :: r ∧ Forall (Forall is_digit) r.
Proof.
  intros Hi. destruct sep.
  - exists [], (map itoa i). split; [done|]. apply Forall_fmap. eapply Forall_impl; [done|].
    intros n Hn. by apply itoa_digits.
  - simpl. destruct (map itoa i) as [|s l]; [by exists [], []|]. by exists ("."%char :: join ["."%char] (s :: l)), [].
Qed.

Lemma letter_not_digits c : ¬ Forall is_digit (lit "c" ++ c).
Proof. intros [H _]%Forall_cons. by apply digit_not in H as (_ & _ & ? & _). Qed.

(** The keys that hold the metadata of a node. *)
Definition metadata_names : list str := [lit "zarr.json"; lit ".zarray"; lit ".zgroup"; lit ".zattrs"].

Lemma metadata_name_shape name c : name ∈ metadata_names → name ≠ lit "c" ++ c ∧ ¬ Forall is_digit name.
Proof.
  intros Hn. assert (∃ x n, name = x :: n ∧ (x = "z"%char ∨ x = "."%char)) as (x & n & -> & Hx).
  { unfold metadata_names in Hn. rewrite !elem_of_cons in Hn.
    destruct Hn as [->|[->|[->|[->|?%elem_of_nil]]]]; [..|done]; simpl; eauto. }
  split; [intros [= -> _]; by destruct Hx|].
  intros [H _]%Forall_cons. apply digit_not in H as (? & ? & ? & ?). by destruct Hx.
Qed.

Lemma chunk_key_components l e i : Forall component_ok l → Forall is_u64 i →
  split slash (chunk_key (path_of l) e i) = l ++ default_components (default_separator e) i.
Proof.
  intros Hl Hi. unfold chunk_key. rewrite data_key_prefix by done.
  rewrite split_node_prefix by by apply components_ok_slash. simpl. by rewrite split_default.
Qed.

(** C40: the keys of the chunks of the arrays of a hierarchy, in the [default]
    encoding.  Two arrays share a chunk key only if they are the same array and the chunks the
    same, whatever their separators; no chunk key is the metadata key of a node, of any node and in either
    Zarr version; and a chunk key is a valid key that lies under the prefix of its array. *)
Theorem chunk_keys_disjoint l k sep sep' i j name :
  Forall component_ok l → Forall component_ok k → Forall is_u64 i → Forall is_u64 j →
  name ∈ metadata_names →
  let key := chunk_key (path_of l) (DefaultChunkKeyEncoding_new sep) i in
  (key = chunk_key (path_of k) (DefaultChunkKeyEncoding_new sep') j → l = k ∧ i = j) ∧
  key ≠ meta_key_any (path_of k) name ∧
  StoreKey_validate key = true ∧
  (∃ prefix, NodePath_to_prefix (path_of l) = Ok prefix ∧ has_prefix key prefix = true).
Proof.
  intros Hl Hk Hi Hj Hname key. split_and!.
  - intros H. apply (f_equal (split slash)) in H. unfold key in H. rewrite !chunk_key_components in H by done.
    destruct (default_components_shape sep i Hi) as (c & r & E & Hr).
    destruct (default_components_shape sep' j Hj) as (c' & r' & E' & Hr').
    cbn [default_separator DefaultChunkKeyEncoding_new] in H. rewrite E, E' in H.
    apply digits_suffix_inj in H as (-> & Hc & ->); [|apply letter_not_digits..|done|done].
    split; [done|]. rewrite Hc, <-E' in E. clear key.
    destruct sep, sep'; cbn [default_components] in E.
    + injection E as E. by apply itoa_map_inj.
    + destruct (map itoa j) as [|s m] eqn:Ej; [|done]. destruct i, j; done.
    + destruct (map itoa i) as [|s m] eqn:Ei; [|done]. destruct i, j; done.
    + apply (f_equal (default [] ∘ head)) in E. apply (join_inj "."%char (lit "c" :: _) (lit "c" :: _)) in E; [|done|done|by apply (key_parts_default_no_sep Dot)..].
      injection E as E. by apply itoa_map_inj.
  - unfold key. intros H. apply (f_equal (split slash)) in H. rewrite chunk_key_components in H by done.
    rewrite meta_key_any_prefix, split_node_prefix in H by (done || by apply components_ok_slash).
    assert (slash ∉ name) as Hs.
    { unfold metadata_names in Hname. rewrite !elem_of_cons in Hname.
      destruct Hname as [->|[->|[->|[->|?%elem_of_nil]]]]; [by_decision..|done]. }
    rewrite (split_no_sep _ name) in H by done.
    destruct (default_components_shape sep i Hi) as (c & r & E & Hr).
    cbn [default_separator DefaultChunkKeyEncoding_new] in H. rewrite E in H.
    destruct (metadata_name_shape name c Hname) as [Hn1 Hn2].
    apply digits_suffix_inj in H as (_ & Hc & _); [by symmetry in Hc|apply letter_not_digits|done|done|done].
  - unfold key, chunk_key. rewrite data_key_prefix by done. simpl. rewrite default_encode_join.
    destruct (key_part_join sep (lit "c" :: map itoa i)) as [Hne Hv]; [done|by apply default_key_parts|].
    by apply node_key_split.
  - exists (node_prefix l). split; [by apply NodePath_to_prefix_path|].
    unfold key, chunk_key, has_prefix. rewrite data_key_prefix, starts_with_spec by done. by eexists.
Qed.
End encodings.

Lemma chunk_key_inj {E} `{LawfulChunkKeyEncoding E} path (e : E) i j : Forall is_u64 i → Forall is_u64 j →
  length i = length j → chunk_key path e i = chunk_key path e j → i = j.
Proof.
  intros Hi Hj Hl. unfold chunk_key, data_key. destruct (decide _).
  - by apply encode_inj.
  - intros Heq. do 2 apply app_inv_head in Heq. by apply (encode_inj e).
Qed.

(** ** Decimal formatting satisfies what is used of [itoa] *)

Definition decimal (n : Z) : str := lit (NilEmpty.string_of_uint (N.to_uint (Z.to_N n))).

Lemma decimal_digits n : decimal n ≠ [] ∧ Forall is_digit (decimal n).
Proof.
  unfold decimal. split.
  - destruct (Z.to_N n) as [|p]; [done|]. simpl.
    pose proof (DecimalPos.Unsigned.to_uint_nonnil p). by destruct (Pos.to_uint p).
  - induction (N.to_uint (Z.to_N n)); simpl; constructor; try done; by_decision.
Qed.

Lemma decimal_inj n m : is_u64 n → is_u64 m → decimal n = decimal m → n = m.
Proof.
  unfold decimal, is_u64. intros Hn Hm H. apply (f_equal String.string_of_list_ascii) in H.
  unfold lit in H. rewrite !String.string_of_list_ascii_of_string in H.
  apply (f_equal NilEmpty.uint_of_string) in H. rewrite !NilEmpty.usu in H.
  injection H as H. apply DecimalN.Unsigned.to_uint_inj in H. lia.
Qed.

Lemma chunk_keys_valid_and_injective_witness :
  decimal 0 = lit "0" ∧
  default_encode decimal (DefaultChunkKeyEncoding_new Slash) [1; 23] = lit "c/1/23" ∧
  v2_encode decimal (V2ChunkKeyEncoding_new Dot) [1; 23] = lit "1.23" ∧
  StoreKey_validate (default_encode decimal (DefaultChunkKeyEncoding_new Slash) [1; 23]) = true ∧
  default_encode decimal (DefaultChunkKeyEncoding_new Slash) [1; 23]
    ≠ default_encode decimal (DefaultChunkKeyEncoding_new Slash) [12; 3].
Proof.
  destruct (chunk_keys_valid_and_injective decimal (λ n _, decimal_digits n) decimal_inj Slash (lit ".png") [1; 23] [12; 3])
    as (H1 & _ & _ & H2 & _); [by repeat constructor..|].
  split_and!; [reflexivity..|apply H1|]. intros H%H2. discriminate H.
Defined.

Lemma chunk_keys_disjoint_witness :
  @chunk_key _ (default_traits decimal) (path_of [lit "a"]) (DefaultChunkKeyEncoding_new Slash) [4] = lit "a/c/4" ∧
  @chunk_key _ (default_traits decimal) (path_of [lit "a"]) (DefaultChunkKeyEncoding_new Slash) [4]
    ≠ @chunk_key _ (default_traits decimal) (path_of [lit "a"; lit "c"]) (DefaultChunkKeyEncoding_new Dot) [4].
Proof.
  destruct (chunk_keys_disjoint decimal (λ n _, decimal_digits n) decimal_inj [lit "a"] [lit "a"; lit "c"]
    Slash Dot [4] [4] (lit "zarr.json")) as (H1 & _); [by repeat constructor..|by_decision|].
  split; [reflexivity|]. intros [H _]%H1. discriminate H.
Defined.
