(* ===== verification/Storage.v ===== *)
(** The storage traits and what a store promises: [zarrs_storage/src/storage_sync.rs] and
    the error type of [zarrs_storage/src/lib.rs].

    A store operation is a function from the state of the store to the next state and
    an outcome, so that the effects of an operation that fails are kept.  Reading
    operations take part in it too: the adapters count them. *)

From stdpp Require Import sorting.
From S2P Require Import Prelude ByteRange StoreKey.

(** [StorageError], without the payloads that are texts. *)
Inductive StorageError :=
  | ReadOnly
  | IOError
  | InvalidMetadata (key : StoreKey)
  | MissingMetadata (prefix : StorePrefix)
  | StorePrefixError (prefix : str)
  | InvalidStoreKey (key : str)
  | StorageInvalidByteRange (error : InvalidByteRangeError)
  | Unsupported
  | UnknownKeySize (key : StoreKey)
  | StorageOther.

(** The effect monad of the storage traits. *)
Definition store_op (S A : Type) : Type := S → S * outcome StorageError A.

Definition op_ret {S A} (a : A) : store_op S A := λ s, (s, Ok a).
Definition op_lift {S A} (x : outcome StorageError A) : store_op S A := λ s, (s, x).
Definition op_bind {S A B} (m : store_op S A) (f : A → store_op S B) : store_op S B := λ s,
  match m s with
  | (s, Ok a) => f a s
  | (s, Err e) => (s, Err e)
  | (s, Panic) => (s, Panic)
  end.

Notation "'let!' x ':=' m 'in' k" := (op_bind m (λ x, k)) (at level 10, x pattern, m at level 100, k at level 200).

(** [StoreKeysPrefixes]. *)
Record StoreKeysPrefixes := { skp_keys : list StoreKey; skp_prefixes : list StorePrefix }.

(** ** The traits

    The items of a byte range read are produced lazily: each has its own outcome. *)
Class ReadableStorageTraits (S : Type) := {
  get : StoreKey → store_op S (option bytes);
  get_partial_many : StoreKey → list ByteRange → store_op S (option (list (outcome StorageError bytes)));
  size_key : StoreKey → store_op S (option Z);
}.

Class WritableStorageTraits (S : Type) := {
  set_ : StoreKey → bytes → store_op S unit;
  set_partial_many : StoreKey → list (Z * bytes) → store_op S unit;
  erase : StoreKey → store_op S unit;
  erase_many : list StoreKey → store_op S unit;
  erase_prefix : StorePrefix → store_op S unit;
}.

Class ListableStorageTraits (S : Type) := {
  list_ : store_op S (list StoreKey);
  list_prefix : StorePrefix → store_op S (list StoreKey);
  list_dir : StorePrefix → store_op S StoreKeysPrefixes;
  size_prefix : StorePrefix → store_op S Z;
}.

(** ** Provided methods *)

(** The single-range read over a [get_partial_many]. *)
Definition get_partial_of {S} (gpm : StoreKey → list ByteRange → store_op S (option (list (outcome StorageError bytes))))
    (key : StoreKey) (byte_range : ByteRange) : store_op S (option bytes) :=
  let! bytes := gpm key [byte_range] in
  match bytes with
  | Some bytes =>
      let! next := op_lift (expect (head bytes)) in
      let! output := op_lift next in
      op_ret (Some output)
  | None => op_ret None
  end.

Definition get_partial {S} `{ReadableStorageTraits S} (key : StoreKey) (byte_range : ByteRange) : store_op S (option bytes) :=
  get_partial_of get_partial_many key byte_range.

(** The default [get]. *)
Definition default_get {S} (gpm : StoreKey → list ByteRange → store_op S (option (list (outcome StorageError bytes))))
    (key : StoreKey) : store_op S (option bytes) :=
  get_partial_of gpm key (FromStart 0 None).

Definition set_partial {S} `{WritableStorageTraits S} (key : StoreKey) (offset : Z) (value : bytes) : store_op S unit :=
  set_partial_many key [(offset, value)].

(** The default [erase_many]. *)
Fixpoint default_erase_many {S} (erase : StoreKey → store_op S unit) (keys : list StoreKey) : store_op S unit :=
  match keys with
  | [] => op_ret tt
  | key :: keys => let! _ := erase key in default_erase_many erase keys
  end.

Definition storage_size {S} `{ListableStorageTraits S} : store_op S Z := size_prefix [].

(** The update loop of [store_set_partial_many]. *)
Fixpoint update_loop {E} (bytes_out : bytes) (offset_values : list (Z * bytes)) : outcome E bytes :=
  match offset_values with
  | [] => Ok bytes_out
  | (offset, value) :: l =>
      let end_ := offset +w zlen value in
      let bytes_out := if zlen bytes_out <? end_ then resize (Z.to_nat end_) 0 bytes_out else bytes_out in
      let? bytes_out := copy_from_slice bytes_out offset end_ value in
      update_loop bytes_out l
  end.

Definition store_set_partial_many {S} `{ReadableStorageTraits S, WritableStorageTraits S}
    (key : StoreKey) (offset_values : list (Z * bytes)) : store_op S unit :=
  let! bytes_out := get key in
  let! bytes_out := op_lift (update_loop (default [] bytes_out) offset_values) in
  set_ key bytes_out.

Definition discover_children {S} `{ListableStorageTraits S} (prefix : StorePrefix) : store_op S (list StorePrefix) :=
  let! children := list_dir prefix in
  op_lift (collect_res ((λ v, match StorePrefix_new v with Ok v => Ok v | Err e => Err (StorePrefixError e) | Panic => Panic end)
    <$> filter (λ v, starts_with v (lit "__") = false) (skp_prefixes children))).

(** ** The order of keys: the byte-wise lexicographic order of strings *)

Fixpoint str_leb (a b : str) : bool :=
  match a, b with
  | [], _ => true
  | _ :: _, [] => false
  | x :: a, y :: b =>
      (N_of_ascii x <? N_of_ascii y)%N || ((N_of_ascii x =? N_of_ascii y)%N && str_leb a b)
  end.
Definition str_le (a b : str) : Prop := str_leb a b = true.

#[export] Instance str_le_dec : RelDecision str_le.
Proof. unfold str_le. intros a b. apply _. Defined.

Lemma str_le_cons x a y b : str_le (x :: a) (y :: b) ↔
  (N_of_ascii x < N_of_ascii y)%N ∨ (x = y ∧ str_le a b).
Proof.
  unfold str_le. simpl. rewrite orb_true_iff, andb_true_iff, N.ltb_lt, N.eqb_eq. split.
  - intros [?|[H ?]]; [by left|right]. split; [|done]. 
    rewrite <-(ascii_N_embedding x), <-(ascii_N_embedding y). by f_equal.
  - intros [?|[-> ?]]; [by left|by right].
Qed.

#[export] Instance str_le_total : Total str_le.
Proof.
  intros a. induction a as [|x a IH]; intros [|y b]; [by left|by left|by right|].
  rewrite !str_le_cons. destruct (N.lt_total (N_of_ascii x) (N_of_ascii y)) as [?|[H|?]]; [by left; left| |by right; left].
  assert (x = y) as -> by (rewrite <-(ascii_N_embedding x), <-(ascii_N_embedding y); by f_equal).
  destruct (IH b); [left|right]; by right.
Qed.

#[export] Instance str_le_po : PartialOrder str_le.
Proof.
  split; [split|].
  - intros a. induction a as [|x a IH]; [done|]. apply str_le_cons. by right.
  - intros a. induction a as [|x a IH]; intros [|y b] [|z c]; try done. rewrite !str_le_cons.
    intros [?|[-> ?]] [?|[-> ?]]; [left; lia|by left|by left|right]. split; [done|]. by eapply IH.
  - intros a. induction a as [|x a IH]; intros [|y b]; try done. rewrite !str_le_cons.
    intros [?|[-> ?]] [?|[? ?]]; subst; try lia. f_equal. by apply IH.
Qed.

(** The elements of a [BTreeSet] and the keys of a [BTreeMap], in order. *)
Definition sorted_elements (X : gset str) : list str := merge_sort str_le (elements X).
Definition sorted_keys (M : gmap str bytes) : list StoreKey := sorted_elements (dom M).

Lemma elem_of_sorted X x : x ∈ sorted_elements X ↔ x ∈ X.
Proof. unfold sorted_elements. rewrite merge_sort_Permutation. apply elem_of_elements. Qed.

Lemma elem_of_sorted_keys M k : k ∈ sorted_keys M ↔ is_Some (M !! k).
Proof. unfold sorted_keys. rewrite elem_of_sorted. apply elem_of_dom. Qed.

Lemma NoDup_sorted X : NoDup (sorted_elements X).
Proof. unfold sorted_elements. rewrite merge_sort_Permutation. apply NoDup_elements. Qed.

Lemma Sorted_sorted X : Sorted str_le (sorted_elements X).
Proof. apply Sorted_merge_sort, _. Qed.

(** Two sorted lists without duplicates and with the same elements are equal. *)
Lemma sorted_elements_unique X l : Sorted str_le l → NoDup l → (∀ x, x ∈ l ↔ x ∈ X) → l = sorted_elements X.
Proof.
  intros Hs Hn He. apply (Sorted_unique str_le); [done|apply Sorted_sorted|].
  apply NoDup_Permutation; [done|apply NoDup_sorted|]. intros x. by rewrite elem_of_sorted.
Qed.

(** ** Writing at an offset *)

(** A byte string written at an offset: the gap before it is filled with zeros, and what
    is past it stays. *)
Definition write_at (b : bytes) (ov : Z * bytes) : bytes :=
  let '(o, v) := ov in
  let b' := resize (max (length b) (Z.to_nat o + length v)) 0 b in
  take (Z.to_nat o) b' ++ v ++ drop (Z.to_nat o + length v) b'.

(** The offsets and sizes are those of a slice of memory. *)
Definition offset_value_ok (ov : Z * bytes) : Prop := 0 <= ov.1 ∧ ov.1 + zlen ov.2 < u64_modulus.

#[export] Instance offset_value_ok_dec ov : Decision (offset_value_ok ov).
Proof. unfold offset_value_ok. apply _. Defined.

Lemma length_write_at b o v : 0 <= o → zlen (write_at b (o, v)) = Z.max (zlen b) (o + zlen v).
Proof. intros Ho. unfold write_at. rewrite !length_app, length_take, length_drop, length_resize. lia. Qed.

(** What [write_at] leaves at each position. *)
Lemma lookup_write_at b o v i : 0 <= o →
  write_at b (o, v) !! i =
    if decide (o <= Z.of_nat i < o + zlen v) then v !! (i - Z.to_nat o)%nat
    else if decide (i < length b)%nat then b !! i
    else if decide (Z.of_nat i < o) then Some 0 else None.
Proof.
  intros Ho. unfold write_at. set (n := max _ _).
  assert (length (resize n 0 b) = n) as Hn by apply length_resize.
  destruct (decide (o <= Z.of_nat i < o + zlen v)) as [Hi|Hi].
  { rewrite lookup_app_r by (rewrite length_take; lia). rewrite lookup_app_l by (rewrite length_take; lia).
    f_equal. rewrite length_take. lia. }
  assert ((take (Z.to_nat o) (resize n 0 b) ++ v ++ drop (Z.to_nat o + length v) (resize n 0 b)) !! i = resize n 0 b !! i) as ->.
  { destruct (decide (Z.of_nat i < o)).
    - rewrite lookup_app_l by (rewrite length_take; lia). rewrite lookup_take_lt by lia. done.
    - rewrite lookup_app_r, lookup_app_r by (rewrite length_take; lia). rewrite lookup_drop, length_take. f_equal. lia. }
  destruct (decide (i < length b)%nat); [by apply lookup_resize; lia|].
  destruct (decide (Z.of_nat i < o)); [by apply lookup_resize_new; lia|]. apply lookup_resize_old. lia.
Qed.

(** The step of the update loop is [write_at]. *)
Lemma write_at_step {E} b o v : offset_value_ok (o, v) →
  let end_ := o +w zlen v in
  copy_from_slice (E:=E) (if zlen b <? end_ then resize (Z.to_nat end_) 0 b else b) o end_ v = Ok (write_at b (o, v)).
Proof.
  intros [Ho Hv]. simpl in *. rewrite wrap64_small by (unfold is_u64; lia). unfold copy_from_slice, write_at.
  assert ((if zlen b <? o + zlen v then resize (Z.to_nat (o + zlen v)) 0 b else b)
    = resize (max (length b) (Z.to_nat o + length v)) 0 b) as ->.
  { destruct (Z.ltb_spec (zlen b) (o + zlen v)); [f_equal; lia|]. rewrite Nat.max_l by lia. by rewrite resize_all. }
  rewrite length_resize. rewrite !(proj2 (Z.leb_le _ _)) by lia. rewrite (proj2 (Z.eqb_eq _ _)) by lia. simpl.
  do 3 f_equal. f_equal. lia.
Qed.

Lemma update_loop_spec {E} b ovs : Forall offset_value_ok ovs → update_loop (E:=E) b ovs = Ok (fold_left write_at ovs b).
Proof.
  intros H. revert b. induction H as [|[o v] ovs Hov H IH]; intros b; [done|]. cbn [update_loop].
  rewrite write_at_step by done. cbn [obind]. apply IH.
Qed.

(** ** What a store promises

    The specification of the operations, on a finite map from keys to values. *)

(** The first directory under [prefix] on the way to [key]. *)
Definition child_prefix (prefix : StorePrefix) (key : StoreKey) : option StorePrefix :=
  rest ← strip_prefix key prefix;
  match split slash rest with
  | c :: _ :: _ => Some (prefix ++ c ++ [slash])
  | _ => None
  end.

Definition spec_list_prefix (M : gmap str bytes) (prefix : StorePrefix) : list StoreKey :=
  filter (λ k, starts_with k prefix = true) (sorted_keys M).

Definition spec_list_dir (M : gmap str bytes) (prefix : StorePrefix) : StoreKeysPrefixes :=
  {| skp_keys := filter (λ k, StoreKey_parent k = prefix) (sorted_keys M);
     skp_prefixes := sorted_elements (list_to_set (omap (child_prefix prefix) (sorted_keys M))) |}.

Definition spec_set_partial (M : gmap str bytes) (key : StoreKey) (ovs : list (Z * bytes)) : gmap str bytes :=
  if decide (ovs = []) then M else <[key := fold_left write_at ovs (default [] (M !! key))]> M.

Definition spec_erase_many (M : gmap str bytes) (ks : list StoreKey) : gmap str bytes :=
  foldl (λ M k, delete k M) M ks.

Definition spec_erase_prefix (M : gmap str bytes) (prefix : StorePrefix) : gmap str bytes :=
  filter (λ kv, starts_with kv.1 prefix = false) M.

Definition spec_size_prefix (M : gmap str bytes) (prefix : StorePrefix) : Z :=
  sum64 ((λ k, zlen (default [] (M !! k))) <$> spec_list_prefix M prefix).

Definition valid_keys (M : gmap str bytes) : Prop := map_Forall (λ k _, StoreKey_validate k = true) M.
Definition sized_values (M : gmap str bytes) : Prop := map_Forall (λ _ v, zlen v < u64_modulus) M.

(** A store implements the traits over an abstract map: reads change no value, writes
    change it as the specification does. *)
Section lawful.
Context {S : Type} (abs : S → gmap str bytes).

Definition returns {A} (m : store_op S A) (s : S) (a : A) (M : gmap str bytes) : Prop :=
  ∃ s', m s = (s', Ok a) ∧ abs s' = M.

Class LawfulStorage `{ReadableStorageTraits S, WritableStorageTraits S, ListableStorageTraits S} := {
  law_get s k : returns (get k) s (abs s !! k) (abs s);
  law_get_partial_many s k rs :
    (∀ v, abs s !! k = Some v → zlen v < u64_modulus ∧ Forall byte_range_ok rs ∧ Forall (λ r, range_within r (zlen v)) rs) →
    returns (get_partial_many k rs) s ((λ v, (λ r, Ok (range_bytes v r)) <$> rs) <$> abs s !! k) (abs s);
  law_size_key s k : returns (size_key k) s ((λ v, zlen v) <$> abs s !! k) (abs s);
  law_set s k v : zlen v < u64_modulus → returns (set_ k v) s tt (<[k := v]> (abs s));
  law_set_partial_many s k ovs :
    Forall offset_value_ok ovs → returns (set_partial_many k ovs) s tt (spec_set_partial (abs s) k ovs);
  law_erase s k : returns (erase k) s tt (delete k (abs s));
  law_erase_many s ks : returns (erase_many ks) s tt (spec_erase_many (abs s) ks);
  law_erase_prefix s p : returns (erase_prefix p) s tt (spec_erase_prefix (abs s) p);
  law_list s : returns list_ s (sorted_keys (abs s)) (abs s);
  law_list_prefix s p : returns (list_prefix p) s (spec_list_prefix (abs s) p) (abs s);
  law_list_dir s p : valid_keys (abs s) → StorePrefix_validate p = true →
    returns (list_dir p) s (spec_list_dir (abs s) p) (abs s);
  law_size_prefix s p : returns (size_prefix p) s (spec_size_prefix (abs s) p) (abs s);
}.

Lemma returns_ret {A} s (a : A) : returns (op_ret a) s a (abs s).
Proof. by exists s. Qed.

Lemma returns_bind {A B} (m : store_op S A) (f : A → store_op S B) s a b M M' :
  returns m s a M → (∀ s', abs s' = M → returns (f a) s' b M') → returns (op_bind m f) s b M'.
Proof.
  intros (s1 & H1 & HM) Hf. destruct (Hf s1 HM) as (s2 & H2 & HM'). exists s2. unfold op_bind. by rewrite H1.
Qed.
End lawful.

(** ** Keys below a prefix *)

Lemma StorePrefix_validate_spec p : StorePrefix_validate p = true ↔
  p = [] ∨ (starts_with p [slash] = false ∧ ∃ q, p = q ++ [slash]).
Proof.
  unfold StorePrefix_validate. rewrite orb_true_iff, bool_decide_eq_true, andb_true_iff, negb_true_iff, ends_with_char.
  tauto.
Qed.

Lemma strip_prefix_spec s p r : strip_prefix s p = Some r ↔ s = p ++ r.
Proof.
  unfold strip_prefix. destruct (starts_with s p) eqn:E.
  - apply starts_with_spec in E as [r' ->]. rewrite drop_app_length. split; [by intros [= ->]|].
    by intros ->%app_inv_head.
  - split; [done|]. intros ->. exfalso. apply not_true_iff_false in E. apply E, starts_with_spec. by exists r.
Qed.

(** The components of a valid key below a valid prefix. *)
Lemma key_below p r : StorePrefix_validate p = true → StoreKey_validate (p ++ r) = true →
  Forall (λ c, c ≠ []) (split slash r) ∨ (p = [] ∧ r = []).
Proof.
  intros [->|[_ [q ->]]]%StorePrefix_validate_spec Hv.
  - destruct (decide (r = [])) as [->|Hr]; [by right|left]. by apply StoreKey_validate_split.
  - left. rewrite <-app_assoc in Hv. simpl in Hv. apply StoreKey_validate_split in Hv; [|by destruct q].
    rewrite split_app_sep in Hv. by apply Forall_app in Hv as [_ ?].
Qed.

Lemma key_below_parent p r : StorePrefix_validate p = true → StoreKey_validate (p ++ r) = true →
  slash ∉ r → StoreKey_parent (p ++ r) = p.
Proof.
  intros Hp Hv Hr. unfold StoreKey_parent. apply StorePrefix_validate_spec in Hp as [->|[Hst [q ->]]].
  { simpl. by rewrite split_no_sep. }
  rewrite <-app_assoc. simpl. rewrite split_app_sep, (split_no_sep _ r) by done.
  rewrite length_app, Nat.add_sub, take_app_length, join_split.
  rewrite decide_False; [done|]. intros ->. rewrite (proj2 (starts_with_char _ _)) in Hst; [done|by exists []].
Qed.

Lemma parent_prefix k : StoreKey_validate k = true → ∃ r, k = StoreKey_parent k ++ r ∧ slash ∉ r.
Proof.
  intros Hv. unfold StoreKey_parent. pose proof (join_split slash k) as Hj.
  destruct (exists_last (split_ne slash k)) as (l & r & Hl).
  rewrite Hl in *. rewrite length_app, Nat.add_sub, take_app_length.
  assert (slash ∉ r) as Hr by (apply (split_no_sep_in slash k); rewrite Hl; set_solver).
  exists r. split; [|done]. destruct (decide (l = [])) as [->|Hn]; [by simpl in *|].
  rewrite join_app in Hj by done. destruct (decide (join [slash] l = [])) as [Hj'|].
  - exfalso. rewrite Hj' in Hj. rewrite <-Hj in Hv. unfold StoreKey_validate in Hv.
    rewrite (proj2 (starts_with_char _ _)) in Hv; [done|by eexists].
  - rewrite <-Hj at 1. by rewrite <-app_assoc.
Qed.

(** The directory of a key, when it is not directly in the prefix. *)
Lemma child_prefix_spec p k q : child_prefix p k = Some q ↔
  ∃ c r, k = q ++ r ∧ q = p ++ c ++ [slash] ∧ slash ∉ c.
Proof.
  unfold child_prefix. split.
  - destruct (strip_prefix k p) as [r|] eqn:E; [|done]. apply strip_prefix_spec in E as ->. simpl.
    pose proof (join_split slash r) as Hj. destruct (split slash r) as [|c [|d l]] eqn:Es; [done|done|].
    intros [= <-]. exists c, (join [slash] (d :: l)). split_and!; [|done|].
    + rewrite <-Hj, join_cons by done. by rewrite !app_assoc.
    + apply (split_no_sep_in slash r). rewrite Es. set_solver.
  - intros (c & r & -> & -> & Hc). rewrite (proj2 (strip_prefix_spec _ _ (c ++ slash :: r))).
    + simpl. rewrite split_app by done. pose proof (split_ne slash r). by destruct (split slash r).
    + by rewrite <-!app_assoc.
Qed.

Lemma child_prefix_none p k : StorePrefix_validate p = true → StoreKey_validate k = true →
  starts_with k p = true → child_prefix p k = None ↔ StoreKey_parent k = p.
Proof.
  intros Hp Hk [r ->]%starts_with_spec. unfold child_prefix. rewrite (proj2 (strip_prefix_spec _ _ r)) by done.
  simpl. split.
  - intros Hn. apply key_below_parent; [done|done|]. pose proof (join_split slash r) as Hj.
    destruct (split slash r) as [|c [|d l]] eqn:Es; [by destruct (split_ne slash r)| |done].
    simpl in Hj. subst. apply (split_no_sep_in slash r). rewrite Es. set_solver.
  - intros Hpar. destruct (parent_prefix _ Hk) as (r' & Hr' & Hs). rewrite Hpar in Hr'.
    apply app_inv_head in Hr' as ->. by rewrite split_no_sep.
Qed.

Lemma parent_starts k p : StoreKey_validate k = true → StoreKey_parent k = p → starts_with k p = true.
Proof. intros Hk <-. destruct (parent_prefix k Hk) as (r & Hr & _). apply starts_with_spec. by exists r. Qed.

Lemma child_prefix_valid p k q : StorePrefix_validate p = true → StoreKey_validate k = true →
  child_prefix p k = Some q → StorePrefix_validate q = true.
Proof.
  intros Hp Hk (c & r & -> & -> & Hc)%child_prefix_spec. apply StorePrefix_validate_spec. right.
  split; [|exists (p ++ c); by rewrite <-app_assoc].
  apply not_true_iff_false. intros [s Hs]%starts_with_char. unfold StoreKey_validate in Hk.
  rewrite Hs in Hk. rewrite (proj2 (starts_with_char _ _)) in Hk; [done|by eexists].
Qed.

(** A key under the directory of another key has that directory. *)
Lemma child_prefix_under p k' k q : child_prefix p k' = Some q → has_prefix k q = true → child_prefix p k = Some q.
Proof.
  intros (c & r & -> & -> & Hc)%child_prefix_spec [r' ->]%starts_with_spec. apply child_prefix_spec. by exists c, r'.
Qed.

Lemma child_prefix_unique p k' k q' q : child_prefix p k' = Some q' → has_prefix k q' = true →
  child_prefix p k = Some q → q' = q.
Proof. intros H1 H2 H3. pose proof (child_prefix_under p k' k q' H1 H2). congruence. Qed.

Lemma valid_keys_lookup M k : valid_keys M → is_Some (M !! k) → StoreKey_validate k = true.
Proof. intros HM [v Hv]. by apply (HM k v). Qed.

Lemma Sorted_filter_sorted (P : str → Prop) `{∀ x, Decision (P x)} X : Sorted str_le (filter P (sorted_elements X)).
Proof.
  apply StronglySorted_Sorted. pose proof (Sorted_StronglySorted str_le _ (Sorted_sorted X)) as Hs.
  induction Hs as [|x l Hs IH Hf]; [constructor|]. rewrite filter_cons. destruct (decide (P x)); [|done].
  constructor; [done|]. rewrite Forall_forall in Hf |- *. intros y [_ Hy]%list_elem_of_filter. by apply Hf.
Qed.

Lemma elem_of_dir_children M p q : q ∈ skp_prefixes (spec_list_dir M p) ↔
  ∃ k, is_Some (M !! k) ∧ child_prefix p k = Some q.
Proof.
  simpl. rewrite elem_of_sorted, elem_of_list_to_set, list_elem_of_omap. by setoid_rewrite elem_of_sorted_keys.
Qed.

Lemma elem_of_dir_prefixes M p q : valid_keys M → StorePrefix_validate p = true →
  q ∈ skp_prefixes (spec_list_dir M p) ↔
  ∃ c r, q = p ++ c ++ [slash] ∧ c ≠ [] ∧ (slash ∉ c) ∧ is_Some (M !! (q ++ r)).
Proof.
  intros HM Hp. rewrite elem_of_dir_children. setoid_rewrite child_prefix_spec. split.
  - intros (k & Hk & c & r & -> & -> & Hc). exists c, r. split_and!; [done| |done|done]. intros ->.
    pose proof (valid_keys_lookup _ _ HM Hk) as Hv. simpl in Hv. rewrite <-app_assoc in Hv.
    destruct (key_below p ([slash] ++ r) Hp Hv) as [Hf|[_ ?]]; [|done]. simpl in Hf. by inversion Hf.
  - intros (c & r & -> & Hne & Hc & Hk). by exists ((p ++ c ++ [slash]) ++ r); split; [|exists c, r].
Qed.

Lemma elem_of_dir_keys M p k : valid_keys M → StorePrefix_validate p = true →
  k ∈ skp_keys (spec_list_dir M p) ↔ is_Some (M !! k) ∧ (∃ r, k = p ++ r ∧ slash ∉ r).
Proof.
  intros HM Hp. simpl. rewrite list_elem_of_filter, elem_of_sorted_keys. split.
  - intros [<- Hk]. split; [done|]. by apply parent_prefix, (valid_keys_lookup M).
  - intros [Hk (r & -> & Hr)]. split; [|done]. apply key_below_parent; [done| |done]. by apply (valid_keys_lookup M).
Qed.

(** ** Programs over a store *)

Inductive StoreOp :=
  | OGet (k : StoreKey) | OGetPartial (k : StoreKey) (r : ByteRange) | OSizeKey (k : StoreKey)
  | OSet (k : StoreKey) (v : bytes) | OSetPartialMany (k : StoreKey) (ovs : list (Z * bytes))
  | OStoreSetPartialMany (k : StoreKey) (ovs : list (Z * bytes))
  | OErase (k : StoreKey) | OEraseMany (ks : list StoreKey) | OErasePrefix (p : StorePrefix)
  | OList | OListPrefix (p : StorePrefix) | OListDir (p : StorePrefix) | OSizePrefix (p : StorePrefix).

Inductive StoreResult :=
  | RUnit | RBytes (b : option bytes) | RSize (z : option Z) | RKeys (ks : list StoreKey) | RDir (d : StoreKeysPrefixes).

Definition exec_op {S} `{ReadableStorageTraits S, WritableStorageTraits S, ListableStorageTraits S}
    (o : StoreOp) : store_op S StoreResult :=
  match o with
  | OGet k => let! b := get k in op_ret (RBytes b)
  | OGetPartial k r => let! b := get_partial k r in op_ret (RBytes b)
  | OSizeKey k => let! z := size_key k in op_ret (RSize z)
  | OSet k v => let! _ := set_ k v in op_ret RUnit
  | OSetPartialMany k ovs => let! _ := set_partial_many k ovs in op_ret RUnit
  | OStoreSetPartialMany k ovs => let! _ := store_set_partial_many k ovs in op_ret RUnit
  | OErase k => let! _ := erase k in op_ret RUnit
  | OEraseMany ks => let! _ := erase_many ks in op_ret RUnit
  | OErasePrefix p => let! _ := erase_prefix p in op_ret RUnit
  | OList => let! ks := list_ in op_ret (RKeys ks)
  | OListPrefix p => let! ks := list_prefix p in op_ret (RKeys ks)
  | OListDir p => let! d := list_dir p in op_ret (RDir d)
  | OSizePrefix p => let! z := size_prefix p in op_ret (RSize (Some z))
  end.

Fixpoint exec_ops {S} `{ReadableStorageTraits S, WritableStorageTraits S, ListableStorageTraits S}
    (os : list StoreOp) : store_op S (list StoreResult) :=
  match os with
  | [] => op_ret []
  | o :: os => let! r := exec_op o in let! rs := exec_ops os in op_ret (r :: rs)
  end.

(** The same on the abstract map. *)
Definition spec_op (M : gmap str bytes) (o : StoreOp) : StoreResult * gmap str bytes :=
  match o with
  | OGet k => (RBytes (M !! k), M)
  | OGetPartial k r => (RBytes ((λ v, range_bytes v r) <$> M !! k), M)
  | OSizeKey k => (RSize ((λ v, zlen v) <$> M !! k), M)
  | OSet k v => (RUnit, <[k := v]> M)
  | OSetPartialMany k ovs => (RUnit, spec_set_partial M k ovs)
  | OStoreSetPartialMany k ovs => (RUnit, <[k := fold_left write_at ovs (default [] (M !! k))]> M)
  | OErase k => (RUnit, delete k M)
  | OEraseMany ks => (RUnit, spec_erase_many M ks)
  | OErasePrefix p => (RUnit, spec_erase_prefix M p)
  | OList => (RKeys (sorted_keys M), M)
  | OListPrefix p => (RKeys (spec_list_prefix M p), M)
  | OListDir p => (RDir (spec_list_dir M p), M)
  | OSizePrefix p => (RSize (Some (spec_size_prefix M p)), M)
  end.

Fixpoint spec_ops (M : gmap str bytes) (os : list StoreOp) : list StoreResult * gmap str bytes :=
  match os with
  | [] => ([], M)
  | o :: os => let '(r, M) := spec_op M o in let '(rs, M) := spec_ops M os in (r :: rs, M)
  end.

(** The arguments are what the types of the code make them: valid keys and prefixes, byte
    strings that fit in memory; and partial reads are inside the value. *)
Definition store_op_ok (M : gmap str bytes) (o : StoreOp) : Prop :=
  match o with
  | OGetPartial k r => byte_range_ok r ∧
      match M !! k with Some v => zlen v < u64_modulus ∧ range_within r (zlen v) | None => True end
  | OSet k v => StoreKey_validate k = true ∧ zlen v < u64_modulus
  | OSetPartialMany k ovs => StoreKey_validate k = true ∧ Forall offset_value_ok ovs
  | OStoreSetPartialMany k ovs => StoreKey_validate k = true ∧ Forall offset_value_ok ovs ∧
      match M !! k with Some v => zlen v < u64_modulus | None => True end
  | OListDir p => StorePrefix_validate p = true
  | _ => True
  end.

#[export] Instance store_op_ok_dec M o : Decision (store_op_ok M o).
Proof. destruct o; simpl; try destruct (M !! k); apply _. Defined.

Fixpoint store_ops_ok (M : gmap str bytes) (os : list StoreOp) : Prop :=
  match os with [] => True | o :: os => store_op_ok M o ∧ store_ops_ok (spec_op M o).2 os end.

#[export] Instance store_ops_ok_dec M os : Decision (store_ops_ok M os).
Proof. revert M. induction os as [|o os IH]; intros M; simpl; apply _. Defined.

Lemma valid_keys_insert M k v : StoreKey_validate k = true → valid_keys M → valid_keys (<[k := v]> M).
Proof. intros Hk HM. by apply map_Forall_insert_2. Qed.

Lemma valid_keys_subset M M' : M' ⊆ M → valid_keys M → valid_keys M'.
Proof. intros Hs HM k v Hv. apply (HM k v). by eapply lookup_weaken. Qed.

Lemma spec_erase_many_subseteq ks M : spec_erase_many M ks ⊆ M.
Proof. revert M. induction ks as [|k ks IH]; intros M; [done|]. simpl. etrans; [apply IH|apply delete_subseteq]. Qed.

Lemma spec_op_valid M o : store_op_ok M o → valid_keys M → valid_keys (spec_op M o).2.
Proof.
  intros Ho HM. destruct o; simpl in *; try done.
  - apply valid_keys_insert; tauto.
  - unfold spec_set_partial. destruct (decide _); [done|]. apply valid_keys_insert; tauto.
  - apply valid_keys_insert; tauto.
  - by eapply valid_keys_subset, HM; apply delete_subseteq.
  - by eapply valid_keys_subset, HM; apply spec_erase_many_subseteq.
  - eapply valid_keys_subset, HM. apply map_filter_subseteq.
Qed.

Lemma size_write_at_fold b ovs : zlen b < u64_modulus → Forall offset_value_ok ovs →
  zlen (fold_left write_at ovs b) < u64_modulus.
Proof.
  intros Hb H. revert b Hb. induction H as [|[o v] ovs [Ho Hv] H IH]; intros b Hb; [done|].
  cbn [fold_left]. apply IH. rewrite length_write_at by done. simpl in *. lia.
Qed.

Section clients.
Context {S : Type} (abs : S → gmap str bytes) `{HL : LawfulStorage S abs}.
#[local] Abbreviation returns := (returns abs).

(** An operation followed by the packing of its result. *)
Ltac by_law L := eapply returns_bind; [apply L; try tauto|intros s' <-; apply returns_ret].

Lemma get_partial_lawful s k r :
  byte_range_ok r →
  (∀ v, abs s !! k = Some v → zlen v < u64_modulus ∧ range_within r (zlen v)) →
  returns (get_partial k r) s ((λ v, range_bytes v r) <$> abs s !! k) (abs s).
Proof.
  intros Hr Hv. unfold get_partial, get_partial_of. eapply returns_bind.
  { apply HL.(law_get_partial_many abs). intros v E. destruct (Hv v E). split_and!; [done|by repeat constructor..]. }
  intros s' <-. destruct (abs s' !! k) as [v|]; [|apply returns_ret]. by exists s'.
Qed.

Lemma store_set_partial_many_lawful s k ovs : Forall offset_value_ok ovs →
  (∀ v, abs s !! k = Some v → zlen v < u64_modulus) →
  returns (store_set_partial_many k ovs) s tt (<[k := fold_left write_at ovs (default [] (abs s !! k))]> (abs s)).
Proof.
  intros Ho Hv. unfold store_set_partial_many. eapply returns_bind; [apply HL.(law_get abs)|]. intros s1 Hs1. cbn beta.
  eapply (returns_bind _ _ _ _ (fold_left write_at ovs (default [] (abs s !! k))) _ (abs s)).
  { exists s1. split; [|done]. unfold op_lift. by rewrite update_loop_spec. }
  intros s2 Hs2. rewrite <-Hs2 at 3. apply HL.(law_set abs). apply size_write_at_fold; [|done].
  destruct (abs s !! k) as [v|]; [by apply Hv|done].
Qed.

Lemma exec_op_spec s o : valid_keys (abs s) → store_op_ok (abs s) o →
  returns (exec_op o) s (spec_op (abs s) o).1 (spec_op (abs s) o).2.
Proof.
  intros Hk Ho. destruct o; simpl in *.
  - by_law HL.(law_get abs).
  - by_law get_partial_lawful. intros v E. rewrite E in Ho. tauto.
  - by_law HL.(law_size_key abs).
  - by_law HL.(law_set abs).
  - by_law HL.(law_set_partial_many abs).
  - by_law store_set_partial_many_lawful. intros v E. rewrite E in Ho. tauto.
  - by_law HL.(law_erase abs).
  - by_law HL.(law_erase_many abs).
  - by_law HL.(law_erase_prefix abs).
  - by_law HL.(law_list abs).
  - by_law HL.(law_list_prefix abs).
  - by_law HL.(law_list_dir abs).
  - by_law HL.(law_size_prefix abs).
Qed.

Lemma exec_ops_spec s os : valid_keys (abs s) → store_ops_ok (abs s) os →
  returns (exec_ops os) s (spec_ops (abs s) os).1 (spec_ops (abs s) os).2.
Proof.
  revert s. induction os as [|o os IH]; intros s Hk Ho; simpl in *; [apply returns_ret|]. destruct Ho as [Ho Hos].
  pose proof (spec_op_valid _ _ Ho Hk) as Hk'.
  pose proof (exec_op_spec s o Hk Ho) as Hx. destruct (spec_op (abs s) o) as [r M]. simpl in *.
  eapply returns_bind; [done|]. intros s1 <-. specialize (IH s1 Hk' Hos).
  destruct (spec_ops (abs s1) os) as [rs M']. simpl in *.
  eapply returns_bind; [done|]. intros s2 <-. apply returns_ret.
Qed.


(** Listing a directory.  The keys and prefixes that [list_dir] returns are listed once, in
    order; a key is returned when it lies directly in the prefix; a returned prefix is a valid
    prefix one component longer, with a key under it; and every key under the prefix is
    either returned or under exactly one of the returned prefixes.
    [discover_children] returns the prefixes that do not start with two underscores; it tests the
    start of the whole prefix, not of its last component. *)
Theorem list_dir_partition s p :
  valid_keys (abs s) → StorePrefix_validate p = true →
  ∃ s' d, list_dir p s = (s', Ok d) ∧ abs s' = abs s ∧
    Sorted str_le (skp_keys d) ∧ NoDup (skp_keys d) ∧
    Sorted str_le (skp_prefixes d) ∧ NoDup (skp_prefixes d) ∧
    (∀ k, k ∈ skp_keys d ↔ is_Some (abs s !! k) ∧ (∃ r, k = p ++ r ∧ slash ∉ r)) ∧
    (∀ q, q ∈ skp_prefixes d ↔
       ∃ c r, q = p ++ c ++ [slash] ∧ c ≠ [] ∧ (slash ∉ c) ∧ is_Some (abs s !! (q ++ r))) ∧
    (∀ q, q ∈ skp_prefixes d → StorePrefix_validate q = true) ∧
    (∀ k, is_Some (abs s !! k) → starts_with k p = true →
       k ∈ skp_keys d ∨ (∃ q, q ∈ skp_prefixes d ∧ has_prefix k q = true ∧
         ∀ q', q' ∈ skp_prefixes d → has_prefix k q' = true → q' = q)) ∧
    (∀ k q, k ∈ skp_keys d → q ∈ skp_prefixes d → has_prefix k q = false) ∧
    (∃ s'', discover_children p s = (s'', Ok (filter (λ q, starts_with q (lit "__") = false) (skp_prefixes d)))).
Proof.
  intros Hk Hp. destruct (HL.(law_list_dir abs) s p Hk Hp) as (s' & Hd & Habs).
  exists s', (spec_list_dir (abs s) p). split_and!; [done|done|..].
  - apply Sorted_filter_sorted.
  - apply NoDup_filter, NoDup_sorted.
  - apply Sorted_sorted.
  - apply NoDup_sorted.
  - intros k. by apply elem_of_dir_keys.
  - intros q. by apply elem_of_dir_prefixes.
  - intros q (k & Hkq & Hc)%elem_of_dir_children. eapply child_prefix_valid, Hc; [done|]. by apply (valid_keys_lookup (abs s)).
  - intros k Hkm Hs. pose proof (valid_keys_lookup _ _ Hk Hkm) as Hv.
    destruct (child_prefix p k) as [q|] eqn:E.
    + right. exists q. split_and!.
      * apply elem_of_dir_children. by exists k.
      * apply child_prefix_spec in E as (c & r & -> & _). apply starts_with_spec. by exists r.
      * intros q' (k' & _ & Hc')%elem_of_dir_children Hpre. by apply (child_prefix_unique p k' k q' q).
    + left. apply list_elem_of_filter. split; [|by apply elem_of_sorted_keys]. by apply child_prefix_none.
  - intros k q [Hpar Hin]%list_elem_of_filter (k' & _ & Hc')%elem_of_dir_children.
    apply not_true_iff_false. intros Hpre. apply elem_of_sorted_keys in Hin.
    pose proof (valid_keys_lookup _ _ Hk Hin) as Hv.
    assert (child_prefix p k = None) as Hn by (apply child_prefix_none; [done|done|by apply parent_starts|done]).
    rewrite (child_prefix_under p k' k q Hc' Hpre) in Hn. done.
  - exists s'. unfold discover_children, op_bind. rewrite Hd. cbn. unfold op_lift. f_equal.
    rewrite (list_fmap_ext_in _ Ok); [by rewrite collect_res_Ok|].
    intros q [_ Hq]%list_elem_of_filter. unfold StorePrefix_new.
    apply elem_of_dir_children in Hq as (k & Hkq & Hc).
    by rewrite (child_prefix_valid p k q Hp (valid_keys_lookup _ _ Hk Hkq) Hc).
Qed.
End clients.
