(* ===== verification/MemoryStore.v ===== *)
(** The in-memory store: [zarrs_storage/src/store/memory_store.rs].

    The [BTreeMap] is a finite map whose keys are enumerated in order.  An operation
    holds the mutex from start to end, so its effect is one step of the map. *)

From S2P Require Import Prelude ByteRange StoreKey Storage.

(** [MemoryStore]: the [data_map]. *)
Abbreviation MemoryStore := (gmap str bytes).

Definition MemoryStore_new : MemoryStore := ∅.

(** [MemoryStore::set_impl].  The entry is left empty when the copy panics. *)
Definition set_impl (key : StoreKey) (value : bytes) (offset : Z) (truncate : bool) : store_op MemoryStore unit :=
  λ data_map,
  let entry := default [] (data_map !! key) in
  if (offset =? 0) && bool_decide (entry = []) then (<[key := value]> data_map, Ok tt)
  else
    let length := offset +w zlen value in
    let data := if zlen entry <? length then resize (Z.to_nat length) 0 entry
                else if truncate then take (Z.to_nat length) entry else entry in
    match copy_from_slice data offset (offset +w zlen value) value with
    | Ok data => (<[key := data]> data_map, Ok tt)
    | Err e => (<[key := []]> data_map, Err e)
    | Panic => (<[key := []]> data_map, Panic)
    end.

Definition memory_get (key : StoreKey) : store_op MemoryStore (option bytes) := λ data_map,
  (data_map, Ok (data_map !! key)).

(** One item of the iterator of [get_partial_many]. *)
Definition memory_get_range (data : bytes) (byte_range : ByteRange) : outcome StorageError bytes :=
  let start := br_start byte_range (zlen data) in
  let end_ := br_end byte_range (zlen data) in
  if zlen data <? end_ then Err (StorageInvalidByteRange (mk_invalid_byte_range byte_range (zlen data)))
  else slice data start end_.

Definition memory_get_partial_many (key : StoreKey) (byte_ranges : list ByteRange)
    : store_op MemoryStore (option (list (outcome StorageError bytes))) := λ data_map,
  (data_map, Ok ((λ data, memory_get_range data <$> byte_ranges) <$> data_map !! key)).

Definition memory_size_key (key : StoreKey) : store_op MemoryStore (option Z) := λ data_map,
  (data_map, Ok ((λ entry, zlen entry) <$> data_map !! key)).

Definition memory_set (key : StoreKey) (value : bytes) : store_op MemoryStore unit := set_impl key value 0 true.

Fixpoint memory_set_partial_many (key : StoreKey) (offset_values : list (Z * bytes)) : store_op MemoryStore unit :=
  match offset_values with
  | [] => op_ret tt
  | (offset, value) :: l => let! _ := set_impl key value offset false in memory_set_partial_many key l
  end.

Definition memory_erase (key : StoreKey) : store_op MemoryStore unit := λ data_map, (delete key data_map, Ok tt).

(** The removal loop of [erase_prefix] over the keys collected first. *)
Fixpoint erase_loop (keys : list StoreKey) (prefix : StorePrefix) (data_map : MemoryStore) : MemoryStore :=
  match keys with
  | [] => data_map
  | key :: keys => erase_loop keys prefix (if has_prefix key prefix then delete key data_map else data_map)
  end.

Definition memory_erase_prefix (prefix : StorePrefix) : store_op MemoryStore unit := λ data_map,
  (erase_loop (sorted_keys data_map) prefix data_map, Ok tt).

Definition memory_list : store_op MemoryStore (list StoreKey) := λ data_map, (data_map, Ok (sorted_keys data_map)).

Definition memory_list_prefix (prefix : StorePrefix) : store_op MemoryStore (list StoreKey) := λ data_map,
  (data_map, Ok (filter (λ key, has_prefix key prefix = true) (sorted_keys data_map))).

(** The loop of [list_dir], with the keys and prefixes found so far. *)
Fixpoint list_dir_loop (prefix : StorePrefix) (data_keys : list StoreKey) (keys : list StoreKey) (prefixes : gset str)
    : outcome StorageError (list StoreKey * gset str) :=
  match data_keys with
  | [] => Ok (keys, prefixes)
  | key :: l =>
      if has_prefix key prefix then
        let? key_strip := expect (strip_prefix key prefix) in
        let key_strip := default key_strip (strip_prefix key_strip [slash]) in
        match split slash key_strip with
        | c :: _ :: _ =>
            match StorePrefix_new (prefix ++ c ++ [slash]) with
            | Ok q => list_dir_loop prefix l keys ({[q]} ∪ prefixes)
            | Err e => Err (StorePrefixError e)
            | Panic => Panic
            end
        | _ => list_dir_loop prefix l (if decide (StoreKey_parent key = prefix) then keys ++ [key] else keys) prefixes
        end
      else list_dir_loop prefix l keys prefixes
  end.

Definition memory_list_dir (prefix : StorePrefix) : store_op MemoryStore StoreKeysPrefixes := λ data_map,
  (data_map, let? found := list_dir_loop prefix (sorted_keys data_map) [] ∅ in
             let '(keys, prefixes) := found in
             Ok {| skp_keys := keys; skp_prefixes := sorted_elements prefixes |}).

(** The accumulation loop of [size_prefix]. *)
Fixpoint size_loop (keys : list StoreKey) (size : Z) : store_op MemoryStore Z :=
  match keys with
  | [] => op_ret size
  | key :: keys =>
      let! s := memory_size_key key in
      size_loop keys (match s with Some size_key => size +w size_key | None => size end)
  end.

Definition memory_size_prefix (prefix : StorePrefix) : store_op MemoryStore Z :=
  let! keys := memory_list_prefix prefix in size_loop keys 0.

#[export] Instance memory_readable : ReadableStorageTraits MemoryStore :=
  {| get := memory_get; get_partial_many := memory_get_partial_many; size_key := memory_size_key |}.

#[export] Instance memory_writable : WritableStorageTraits MemoryStore :=
  {| set_ := memory_set; set_partial_many := memory_set_partial_many; erase := memory_erase;
     erase_many := default_erase_many memory_erase; erase_prefix := memory_erase_prefix |}.

#[export] Instance memory_listable : ListableStorageTraits MemoryStore :=
  {| list_ := memory_list; list_prefix := memory_list_prefix; list_dir := memory_list_dir;
     size_prefix := memory_size_prefix |}.

(** The abstract map of a memory store. *)
Definition memory_abs (m : MemoryStore) : gmap str bytes := m.

(** ** Its operations keep the promises of a store *)

Lemma set_impl_partial m k o v : offset_value_ok (o, v) →
  set_impl k v o false m = (<[k := write_at (default [] (m !! k)) (o, v)]> m, Ok tt).
Proof.
  intros Hov. unfold set_impl. set (e := default [] (m !! k)).
  destruct ((o =? 0) && bool_decide (e = [])) eqn:E.
  - apply andb_true_iff in E as [->%Z.eqb_eq ->%bool_decide_eq_true]. do 2 f_equal. unfold write_at. simpl.
    rewrite drop_ge; [by rewrite app_nil_r|]. rewrite length_resize. lia.
  - rewrite write_at_step by done. done.
Qed.

Lemma set_impl_truncate m k v : zlen v < u64_modulus → set_impl k v 0 true m = (<[k := v]> m, Ok tt).
Proof.
  intros Hv. unfold set_impl. set (e := default [] (m !! k)). simpl. case_bool_decide; [done|].
  rewrite !Z.add_0_l, wrap64_small by (unfold is_u64; lia). unfold copy_from_slice.
  assert (∀ d : bytes, zlen d = zlen v → (0 <=? zlen v) && (zlen v <=? zlen d) && (zlen v - 0 =? zlen v) = true) as Hc.
  { intros d Hd. rewrite !(proj2 (Z.leb_le _ _)), (proj2 (Z.eqb_eq _ _)) by lia. done. }
  destruct (Z.ltb_spec (zlen e) (zlen v)).
  - rewrite Hc by (rewrite length_resize; lia). simpl. rewrite drop_ge by (rewrite length_resize; lia). by rewrite app_nil_r.
  - rewrite Hc by (rewrite length_take; lia). simpl. rewrite drop_ge by (rewrite length_take; lia). by rewrite app_nil_r.
Qed.

Lemma memory_set_partial_many_spec m k ovs : Forall offset_value_ok ovs →
  memory_set_partial_many k ovs m = (spec_set_partial m k ovs, Ok tt).
Proof.
  intros H. revert m. induction H as [|[o v] ovs Hov H IH]; intros m; [done|]. cbn [memory_set_partial_many].
  unfold op_bind. rewrite set_impl_partial by done. rewrite IH. f_equal.
  unfold spec_set_partial. destruct (decide (ovs = [])) as [->|Hn]; simpl; [done|].
  by rewrite lookup_insert, decide_True, insert_insert, decide_True by done.
Qed.

Lemma lookup_erase_loop (ks : list StoreKey) (p : StorePrefix) (m : MemoryStore) (k : StoreKey) :
  erase_loop ks p m !! k = if decide (k ∈ ks ∧ starts_with k p = true) then None else m !! k.
Proof.
  revert m. induction ks as [|k' ks IH]; intros m; cbn [erase_loop].
  { rewrite decide_False; [done|]. by intros [?%elem_of_nil _]. }
  rewrite IH. unfold has_prefix. destruct (decide (k ∈ ks ∧ _)) as [[Hk Hs]|Hn].
  { rewrite decide_True; [done|]. split; [by apply list_elem_of_further|done]. }
  destruct (starts_with k' p) eqn:Es.
  - destruct (decide (k = k')) as [->|Hne].
    + rewrite lookup_delete, !decide_True; [done| |done]. split; [apply list_elem_of_here|done].
    + rewrite lookup_delete_ne by done. rewrite decide_False; [done|]. rewrite elem_of_cons. tauto.
  - rewrite decide_False; [done|]. rewrite elem_of_cons. intros [[->|?] ?]; [congruence|tauto].
Qed.

Lemma memory_erase_prefix_spec (m : MemoryStore) (p : StorePrefix) : erase_loop (sorted_keys m) p m = spec_erase_prefix m p.
Proof.
  apply map_eq. intros k. rewrite lookup_erase_loop. unfold spec_erase_prefix. rewrite map_lookup_filter.
  destruct (m !! k) as [v|] eqn:E; simpl; [|by destruct (decide _)].
  assert (k ∈ sorted_keys m) as Hk by (apply elem_of_sorted_keys; by exists v).
  destruct (starts_with k p) eqn:Es.
  - rewrite decide_True by done. by rewrite option_guard_False.
  - rewrite decide_False by (intros [_ ?]; congruence). by rewrite option_guard_True.
Qed.

Lemma memory_erase_many_spec (m : MemoryStore) (ks : list StoreKey) :
  default_erase_many memory_erase ks m = (spec_erase_many m ks, Ok tt).
Proof. revert m. induction ks as [|k ks IH]; intros m; [done|]. simpl. unfold op_bind. simpl. apply IH. Qed.

Lemma size_loop_spec (m : MemoryStore) (ks : list StoreKey) z : (∀ k, k ∈ ks → is_Some (m !! k)) →
  size_loop ks z m = (m, Ok (fold_left (λ acc d, acc +w d) ((λ k, zlen (default [] (m !! k))) <$> ks) z)).
Proof.
  revert z. induction ks as [|k ks IH]; intros z Hk; [done|]. cbn [size_loop]. unfold op_bind, memory_size_key.
  destruct (Hk k (list_elem_of_here _ _)) as [v Hv]. rewrite fmap_cons. cbn [fold_left]. rewrite Hv. simpl.
  apply IH. intros k' ?. apply Hk. by apply list_elem_of_further.
Qed.

(** What is left of a key after the prefix is not changed by the second strip. *)
Lemma strip_below p r : StorePrefix_validate p = true → StoreKey_validate (p ++ r) = true →
  default r (strip_prefix r [slash]) = r.
Proof.
  intros Hp Hv. rewrite strip_prefix_none; [done|]. apply not_true_iff_false. intros [r' ->]%starts_with_char.
  destruct (key_below p _ Hp Hv) as [Hf|[_ ?]]; [|done]. simpl in Hf. by apply Forall_cons in Hf as [? _].
Qed.

Lemma list_dir_loop_spec p l ks X : StorePrefix_validate p = true → Forall (λ k, StoreKey_validate k = true) l →
  list_dir_loop p l ks X =
  Ok (ks ++ filter (λ k, StoreKey_parent k = p) l, list_to_set (omap (child_prefix p) l) ∪ X).
Proof.
  intros Hp Hl. revert ks X. induction Hl as [|k l Hk Hl IH]; intros ks X.
  { simpl. by rewrite app_nil_r, (left_id_L ∅ (∪)). }
  cbn [list_dir_loop omap list_omap]. rewrite filter_cons. unfold has_prefix. destruct (starts_with k p) eqn:Es.
  - pose proof (child_prefix_none p k Hp Hk Es) as Hn. pose proof (λ q, child_prefix_valid p k q Hp Hk) as Hq.
    apply starts_with_spec in Es as [r ->]. unfold child_prefix in Hn, Hq |- *.
    rewrite (proj2 (strip_prefix_spec _ _ r)) in Hn, Hq |- * by done. cbn [mbind option_bind expect obind] in Hn, Hq |- *.
    rewrite strip_below with (p := p) by done.
    destruct (split slash r) as [|c [|d m]].
    + rewrite IH, decide_True by tauto. rewrite decide_True by tauto. by rewrite <-app_assoc.
    + rewrite IH, decide_True by tauto. rewrite decide_True by tauto. by rewrite <-app_assoc.
    + unfold StorePrefix_new. rewrite (Hq _ eq_refl). rewrite IH, decide_False by (intros E; by apply Hn in E).
      cbn [list_to_set foldr]. do 2 f_equal. by rewrite (assoc_L (∪)), (comm_L (∪) _ {[_]}).
  - rewrite IH, decide_False.
    + unfold child_prefix, strip_prefix at 2. by rewrite Es.
    + intros Hpar. by rewrite (parent_starts k p Hk Hpar) in Es.
Qed.

#[export] Instance memory_lawful : LawfulStorage memory_abs.
Proof.
  split; unfold returns, memory_abs.
  - by eexists.
  - intros s k rs Hrs. exists s. split; [|done]. cbn. unfold memory_get_partial_many. do 2 f_equal.
    destruct (s !! k) as [v|]; [|done]. simpl. f_equal. destruct (Hrs v eq_refl) as (Hv & Hok & Hw).
    apply list_fmap_ext_in. intros r Hr. rewrite Forall_forall in Hok, Hw.
    destruct (within_fields r (zlen v) (Hok r Hr) (Hw r Hr)) as (H1 & H2 & _); [lia|].
    unfold memory_get_range. rewrite (proj2 (Z.ltb_ge _ _)) by lia. 
    pose proof (slice_within v r Hv (Hok r Hr) (Hw r Hr)) as Hs. unfold slice in *.
    by destruct (_ && _ && _); [injection Hs as ->|].
  - by eexists.
  - intros s k v Hv. eexists. split; [by apply set_impl_truncate|done].
  - intros s k ovs Ho. eexists. split; [by apply memory_set_partial_many_spec|done].
  - by eexists.
  - intros s ks. eexists. split; [by apply memory_erase_many_spec|done].
  - intros s p. eexists. split; [done|]. apply memory_erase_prefix_spec.
  - by eexists.
  - by eexists.
  - intros s p Hs Hp. exists s. split; [|done]. cbn. unfold memory_list_dir. f_equal.
    rewrite list_dir_loop_spec; [|done|].
    + cbn. by rewrite (right_id_L ∅ (∪)).
    + apply Forall_forall. intros k Hk%elem_of_sorted_keys. by apply (valid_keys_lookup s).
  - intros s p. exists s. split; [|done]. cbn. unfold memory_size_prefix, op_bind. cbn. apply size_loop_spec.
    intros k [_ Hk]%list_elem_of_filter. by apply elem_of_sorted_keys.
Qed.

(** ** Properties *)

Lemma memory_get_range_spec v r : zlen v < u64_modulus → byte_range_ok r →
  memory_get_range v r =
    if decide (range_within r (zlen v)) then Ok (range_bytes v r)
    else match r with
         | FromStart _ (Some _) => Err (StorageInvalidByteRange (mk_invalid_byte_range r (zlen v)))
         | _ => Panic
         end.
Proof.
  intros Hv Ho. unfold memory_get_range. destruct (decide _) as [Hw|Hw].
  - destruct (within_fields r (zlen v) Ho Hw) as (H1 & H2 & _); [lia|]. rewrite (proj2 (Z.ltb_ge _ _)) by lia.
    pose proof (slice_within v r Hv Ho Hw) as Hs. unfold slice in *. by destruct (_ && _ && _); [injection Hs as ->|].
  - destruct r as [o [l|]|l]; simpl in *.
    + rewrite wrap64_small by (unfold is_u64; lia). by rewrite (proj2 (Z.ltb_lt _ _)) by lia.
    + rewrite (proj2 (Z.ltb_ge _ _)) by lia. unfold slice. by rewrite (proj2 (Z.leb_gt o _)) by lia.
    + rewrite (proj2 (Z.ltb_ge _ _)) by lia. unfold slice.
      rewrite <-(wrap64_shift 1), wrap64_small by (unfold is_u64, u64_modulus in *; lia).
      rewrite (proj2 (Z.leb_gt _ (zlen v))); [done|]. unfold u64_modulus in *. lia.
Qed.

(** Partial reads and writes of the memory store at their bounds.  A range inside
    the value gives its bytes; a bounded range outside gives the invalid byte range error, but
    an open-ended range from past the end and a suffix longer than the value panic.  A partial write
    keeps the bytes outside it, fills the gap before it with zeros and makes the
    value as long as it needs; one that would end past the address space panics, and empties
    the value. *)
Theorem memory_partial_bounds (m : MemoryStore) k v r o w i :
  m !! k = Some v → zlen v < u64_modulus → byte_range_ok r → 0 <= o < u64_modulus → zlen w < u64_modulus →
  (range_within r (zlen v) → get_partial k r m = (m, Ok (Some (range_bytes v r)))) ∧
  (¬ range_within r (zlen v) →
     get_partial k r m = (m, match r with
       | FromStart _ (Some _) => Err (StorageInvalidByteRange (mk_invalid_byte_range r (zlen v)))
       | _ => Panic end)) ∧
  (o + zlen w < u64_modulus → ∃ v', set_partial k o w m = (<[k := v']> m, Ok tt) ∧
     zlen v' = Z.max (zlen v) (o + zlen w) ∧
     v' !! i = if decide (o <= Z.of_nat i < o + zlen w) then w !! (i - Z.to_nat o)%nat
               else if decide (i < length v)%nat then v !! i
               else if decide (Z.of_nat i < o) then Some 0 else None) ∧
  (u64_modulus <= o + zlen w → set_partial k o w m = (<[k := []]> m, Panic)).
Proof.
  intros Hk Hv Hr Ho Hw. split_and!.
  - intros Hin. unfold get_partial, get_partial_of, op_bind. cbn. rewrite Hk. cbn.
    unfold op_lift, op_ret. by rewrite memory_get_range_spec, decide_True.
  - intros Hout. unfold get_partial, get_partial_of, op_bind. cbn. rewrite Hk. cbn.
    unfold op_lift, op_ret. rewrite memory_get_range_spec, decide_False by done. by destruct r as [? [?|]|?].
  - intros Hb. exists (write_at v (o, w)). split_and!; [|apply length_write_at; lia|apply lookup_write_at; lia].
    unfold set_partial. cbn. unfold op_bind. rewrite set_impl_partial by (split; simpl; lia). by rewrite Hk.
  - intros Hb. unfold set_partial. cbn. unfold op_bind, set_impl. rewrite Hk. cbn [default from_option id].
    rewrite (proj2 (Z.eqb_neq _ _)) by lia. simpl. unfold copy_from_slice.
    rewrite <-(wrap64_shift (-1)), wrap64_small by (unfold is_u64, u64_modulus in *; lia).
    by rewrite (proj2 (Z.leb_gt o _)) by lia.
Qed.

Lemma memory_partial_bounds_witness :
  let m := <[lit "a" := [1; 2; 3]]> (∅ : MemoryStore) in
  get_partial (lit "a") (FromStart 1 (Some 2)) m = (m, Ok (Some [2; 3])) ∧
  get_partial (lit "a") (FromStart 5 None) m = (m, Panic).
Proof.
  intros m. split.
  - apply (memory_partial_bounds m (lit "a") [1; 2; 3] (FromStart 1 (Some 2)) 0 [] 0); by_decision.
  - apply (memory_partial_bounds m (lit "a") [1; 2; 3] (FromStart 5 None) 0 [] 0); by_decision.
Defined.

(** A program over an empty store. *)
Definition example_program : list StoreOp :=
  [OSet (lit "a/zarr.json") [1; 2]; OSetPartialMany (lit "a/c/0") [(2, [7]); (0, [5])];
   OGet (lit "a/c/0"); OListDir (lit "a/"); OErasePrefix (lit "a/c/"); OList].


Lemma list_dir_partition_witness :
  let m := <[lit "a/x" := []]> (<[lit "a/b/y" := []]> (∅ : MemoryStore)) in
  ∃ d, memory_list_dir (lit "a/") m = (m, Ok d) ∧ skp_keys d = [lit "a/x"] ∧ skp_prefixes d = [lit "a/b/"] ∧
    NoDup (skp_prefixes d).
Proof.
  intros m. destruct (list_dir_partition memory_abs m (lit "a/")) as (s' & d & H & E & _ & _ & _ & Hn & _).
  - apply (bool_decide_unpack (map_Forall (λ k _, StoreKey_validate k = true) m)). vm_compute. exact I.
  - reflexivity.
  - exists d. unfold memory_abs in E. subst s'. split; [exact H|]. vm_compute in H. injection H as <-. split_and!; done.
Defined.
