(* ===== verification/StorageAdapter.v ===== *)
(** The performance metrics storage adapter:
    [zarrs_storage/src/storage_adapter/performance_metrics.rs] (its synchronous
    implementation).

    The counters are atomic: [fetch_add] is one addition modulo 2^64. *)

From S2P Require Import Prelude ByteRange StoreKey Storage MemoryStore.

(** [PerformanceMetricsStorageAdapter]. *)
Record PerformanceMetrics (S : Type) := mk_metrics {
  storage : S;
  bytes_read : Z;
  bytes_written : Z;
  reads : Z;
  writes : Z;
  keys_erased : Z;
}.
Arguments mk_metrics {S}.
Arguments storage {S}.
Arguments bytes_read {S}.
Arguments bytes_written {S}.
Arguments reads {S}.
Arguments writes {S}.
Arguments keys_erased {S}.

Definition metrics_new {S} (s : S) : PerformanceMetrics S := mk_metrics s 0 0 0 0 0.

Definition reset {S} (self : PerformanceMetrics S) : PerformanceMetrics S :=
  mk_metrics (storage self) 0 0 0 0 (keys_erased self).

(** The amounts an operation adds to the counters. *)
Record delta := mk_delta { d_bytes_read : Z; d_bytes_written : Z; d_reads : Z; d_writes : Z; d_keys_erased : Z }.

Definition delta_add (a b : delta) : delta :=
  mk_delta (d_bytes_read a + d_bytes_read b) (d_bytes_written a + d_bytes_written b) (d_reads a + d_reads b)
    (d_writes a + d_writes b) (d_keys_erased a + d_keys_erased b).

Definition no_delta : delta := mk_delta 0 0 0 0 0.

Section adapter.
Context {S : Type} `{ReadableStorageTraits S, WritableStorageTraits S, ListableStorageTraits S}.

#[local] Abbreviation op := (store_op (PerformanceMetrics S)).

(** The counters after [fetch_add]s. *)
Definition count (self : PerformanceMetrics S) (d : delta) : PerformanceMetrics S :=
  mk_metrics (storage self) (bytes_read self +w d_bytes_read d) (bytes_written self +w d_bytes_written d)
    (reads self +w d_reads d) (writes self +w d_writes d) (keys_erased self +w d_keys_erased d).

(** An operation of the storage behind the adapter. *)
Definition on_storage {A} (m : store_op S A) : op A := λ self,
  let '(s, r) := m (storage self) in
  (mk_metrics s (bytes_read self) (bytes_written self) (reads self) (writes self) (keys_erased self), r).

Definition metrics_get (key : StoreKey) : op (option bytes) := λ self,
  let '(self, value) := on_storage (get key) self in
  let read := match value with Ok (Some v) => zlen v | _ => 0 end in
  (count self (mk_delta read 0 1 0 0), value).

(** Whether collecting the items of an iterator panics. *)
Definition has_panic {E A} (l : list (outcome E A)) : bool :=
  existsb (fun x => match x with Panic => true | _ => false end) l.

Definition metrics_get_partial_many (key : StoreKey) (byte_ranges : list ByteRange)
    : op (option (list (outcome StorageError bytes))) := λ self,
  let size_hint_lower_bound := zlen byte_ranges in
  match on_storage (get_partial_many key byte_ranges) self with
  | (self, Ok (Some values)) =>
      if has_panic values then (self, Panic)
      else
        let read := sum64 ((fun b => match b with Ok b => zlen b | _ => 0 end) <$> values) in
        (count self (mk_delta read 0 (zlen values) 0 0), Ok (Some values))
  | (self, Ok None) => (if 0 <? size_hint_lower_bound then count self (mk_delta 0 0 1 0 0) else self, Ok None)
  | (self, r) => (self, r)
  end.

Definition metrics_size_key (key : StoreKey) : op (option Z) := on_storage (size_key key).

Definition metrics_set (key : StoreKey) (value : bytes) : op unit := λ self,
  on_storage (set_ key value) (count self (mk_delta 0 (zlen value) 0 1 0)).

Definition metrics_set_partial_many (key : StoreKey) (offset_values : list (Z * bytes)) : op unit := λ self,
  let written := sum64 ((fun ov => zlen (snd ov)) <$> offset_values) in
  on_storage (set_partial_many key offset_values) (count self (mk_delta 0 written 0 (zlen offset_values) 0)).

Definition metrics_erase (key : StoreKey) : op unit := λ self, on_storage (erase key) (count self (mk_delta 0 0 0 0 1)).

Definition metrics_erase_many (keys : list StoreKey) : op unit := λ self,
  on_storage (erase_many keys) (count self (mk_delta 0 0 0 0 (zlen keys))).

Definition metrics_erase_prefix (prefix : StorePrefix) : op unit := on_storage (erase_prefix prefix).

#[export] Instance metrics_readable : ReadableStorageTraits (PerformanceMetrics S) :=
  {| get := metrics_get; get_partial_many := metrics_get_partial_many; size_key := metrics_size_key |}.

#[export] Instance metrics_writable : WritableStorageTraits (PerformanceMetrics S) :=
  {| set_ := metrics_set; set_partial_many := metrics_set_partial_many; erase := metrics_erase;
     erase_many := metrics_erase_many; erase_prefix := metrics_erase_prefix |}.

#[export] Instance metrics_listable : ListableStorageTraits (PerformanceMetrics S) :=
  {| list_ := on_storage list_; list_prefix := λ p, on_storage (list_prefix p);
     list_dir := λ p, on_storage (list_dir p); size_prefix := λ p, on_storage (size_prefix p) |}.

(** ** The adapter over a store that keeps its promises *)

Context (abs : S → gmap str bytes) {HL : LawfulStorage abs}.

Definition metrics_abs (self : PerformanceMetrics S) : gmap str bytes := abs (storage self).

(** An operation returns a value, ends in a map, and moves the counters by given amounts. *)
Definition counts {A} (m : op A) (self : PerformanceMetrics S) (a : A) (M : gmap str bytes) (d : delta) : Prop :=
  ∃ s', m self = (count (mk_metrics s' (bytes_read self) (bytes_written self) (reads self) (writes self)
      (keys_erased self)) d, Ok a) ∧ abs s' = M.

(** The counters are [usize]s. *)
Definition metrics_ok (self : PerformanceMetrics S) : Prop :=
  is_u64 (bytes_read self) ∧ is_u64 (bytes_written self) ∧ is_u64 (reads self) ∧ is_u64 (writes self) ∧
  is_u64 (keys_erased self).

Lemma count_ok self d : metrics_ok (count self d).
Proof. unfold metrics_ok. simpl. split_and!; apply wrap64_range. Qed.

Lemma count_0 self : metrics_ok self → count self no_delta = self.
Proof.
  intros (Ha & Hb & Hc & Hd & He). unfold count. simpl. rewrite !Z.add_0_r, !wrap64_small by done. by destruct self.
Qed.

Lemma counts_returns {A} (m : op A) self a M d :
  counts m self a M d → returns metrics_abs m self a M.
Proof. intros (s' & Hm & HM). eexists. split; [exact Hm|]. exact HM. Qed.

Lemma counts_on_storage {A} (m : store_op S A) self a M : metrics_ok self →
  returns abs m (storage self) a M → counts (on_storage m) self a M no_delta.
Proof.
  intros Hok (s' & Hm & HM). exists s'. split; [|done]. unfold on_storage. rewrite Hm. by rewrite count_0.
Qed.

(** An operation counted before it is passed on. *)
Lemma counts_before {A} (m : store_op S A) self a M d :
  returns abs m (storage self) a M →
  counts (λ self, on_storage m (count self d)) self a M d.
Proof. intros (s' & Hm & HM). exists s'. split; [|done]. unfold on_storage. simpl. by rewrite Hm. Qed.

Lemma has_panic_Ok {E A} (l : list A) : has_panic (E:=E) (Ok <$> l) = false.
Proof. by induction l. Qed.

Lemma metrics_get_counts self k : 
  counts (metrics_get k) self (metrics_abs self !! k) (metrics_abs self)
    (mk_delta (match metrics_abs self !! k with Some v => zlen v | None => 0 end) 0 1 0 0).
Proof.
  destruct (HL.(law_get abs) (storage self) k) as (s' & Hg & Ha). exists s'. split; [|done].
  unfold metrics_get, on_storage. rewrite Hg. reflexivity.
Qed.

Lemma metrics_get_partial_many_counts self k rs : metrics_ok self →
  (∀ v, metrics_abs self !! k = Some v →
     zlen v < u64_modulus ∧ Forall byte_range_ok rs ∧ Forall (λ r, range_within r (zlen v)) rs) →
  counts (metrics_get_partial_many k rs) self
    ((λ v, (λ r, Ok (range_bytes v r)) <$> rs) <$> metrics_abs self !! k) (metrics_abs self)
    (mk_delta (match metrics_abs self !! k with Some v => sum64 ((λ r, zlen (range_bytes v r)) <$> rs) | None => 0 end) 0
      (match metrics_abs self !! k with Some v => zlen rs | None => if 0 <? zlen rs then 1 else 0 end) 0 0).
Proof.
  intros Hok Hrs. destruct (HL.(law_get_partial_many abs) (storage self) k rs Hrs) as (s' & Hg & Ha).
  exists s'. split; [|done]. unfold metrics_get_partial_many, on_storage. rewrite Hg.
  unfold metrics_abs. destruct (abs (storage self) !! k) as [v|]; simpl.
  - rewrite <-(list_fmap_fmap Ok), has_panic_Ok, !length_fmap, !list_fmap_fmap. done.
  - destruct (0 <? zlen rs); [done|]. by rewrite count_0.
Qed.

Lemma count_count self d d' : count (count self d) d' = count self (delta_add d d').
Proof. unfold count. simpl. by rewrite !wrap64_add_l, !Z.add_assoc. Qed.

Lemma counts_bind {A B} (m : op A) (f : A → op B) self a b M M' d d' :
  counts m self a M d →
  (∀ self', metrics_ok self' → metrics_abs self' = M → counts (f a) self' b M' d') →
  counts (op_bind m f) self b M' (delta_add d d').
Proof.
  intros (s1 & Hm & HM) Hf. unfold op_bind, counts. rewrite Hm.
  destruct (Hf (count (mk_metrics s1 (bytes_read self) (bytes_written self) (reads self) (writes self) (keys_erased self)) d))
    as (s2 & Hm2 & HM2); [apply count_ok|exact HM|].
  exists s2. rewrite Hm2. split; [|done]. f_equal. rewrite <-count_count. done.
Qed.

Lemma counts_ret {A} self (a : A) : metrics_ok self → counts (op_ret a) self a (metrics_abs self) no_delta.
Proof. intros Hok. exists (storage self). split; [|done]. rewrite count_0 by done. by destruct self. Qed.

Lemma delta_add_0_r d : delta_add d no_delta = d.
Proof. unfold delta_add. simpl. rewrite !Z.add_0_r. by destruct d. Qed.

Lemma counts_then_ret {A B} (m : op A) (f : A → B) self a M d :
  counts m self a M d → counts (let! x := m in op_ret (f x)) self (f a) M d.
Proof.
  intros Hm. rewrite <-(delta_add_0_r d). eapply counts_bind; [done|]. intros self' Hok <-. by apply counts_ret.
Qed.

Lemma returns_on_storage {A} (m : store_op S A) self d a M :
  returns abs m (storage self) a M → returns metrics_abs (λ self, on_storage m (count self d)) self a M.
Proof. intros Hm. by eapply counts_returns, counts_before. Qed.

Lemma returns_on_storage_0 {A} (m : store_op S A) self a M :
  returns abs m (storage self) a M → returns metrics_abs (on_storage m) self a M.
Proof.
  intros (s' & Hm & HM). unfold returns, on_storage. rewrite Hm. by eexists.
Qed.

#[export] Instance metrics_lawful : LawfulStorage metrics_abs.
Proof.
  split; intros s; try (by intros; apply returns_on_storage_0; apply HL).
  - intros k. eapply counts_returns, metrics_get_counts.
  - intros k rs Hrs. destruct (HL.(law_get_partial_many abs) (storage s) k rs Hrs) as (s' & Hg & Ha).
    unfold returns. cbn. unfold metrics_get_partial_many, on_storage. rewrite Hg.
    unfold metrics_abs. destruct (abs (storage s) !! k) as [v|]; simpl.
    + rewrite <-(list_fmap_fmap Ok), has_panic_Ok. by eexists.
    + by destruct (0 <? zlen rs); eexists.
Qed.

(** ** What the counters count *)

(** The bytes and requests of an operation on the contents of the store. *)
Definition op_delta (M : gmap str bytes) (o : StoreOp) : delta :=
  let size k := match M !! k with Some v => zlen v | None => 0 end in
  match o with
  | OGet k => mk_delta (size k) 0 1 0 0
  | OGetPartial k r => mk_delta (match M !! k with Some v => zlen (range_bytes v r) | None => 0 end) 0 1 0 0
  | OSet k v => mk_delta 0 (zlen v) 0 1 0
  | OSetPartialMany k ovs => mk_delta 0 (Zsum ((λ ov, zlen ov.2) <$> ovs)) 0 (zlen ovs) 0
  | OStoreSetPartialMany k ovs =>
      mk_delta (size k) (zlen (fold_left write_at ovs (default [] (M !! k)))) 1 1 0
  | OErase k => mk_delta 0 0 0 0 1
  | OEraseMany ks => mk_delta 0 0 0 0 (zlen ks)
  | _ => no_delta
  end.

Fixpoint ops_delta (M : gmap str bytes) (os : list StoreOp) : delta :=
  match os with
  | [] => no_delta
  | o :: os => delta_add (op_delta M o) (ops_delta (spec_op M o).2 os)
  end.

Lemma count_wrap self d d' :
  wrap64 (d_bytes_read d) = wrap64 (d_bytes_read d') → wrap64 (d_bytes_written d) = wrap64 (d_bytes_written d') →
  d_reads d = d_reads d' → d_writes d = d_writes d' → d_keys_erased d = d_keys_erased d' →
  count self d = count self d'.
Proof.
  intros E1 E2 E3 E4 E5. unfold count. rewrite E3, E4, E5.
  by rewrite <-(wrap64_add_r (bytes_read self)), E1, wrap64_add_r, <-(wrap64_add_r (bytes_written self)), E2, wrap64_add_r.
Qed.

Lemma counts_wrap {A} (m : op A) self a M d d' :
  counts m self a M d → (∀ s, count s d = count s d') → counts m self a M d'.
Proof. intros (s' & Hm & HM) Hd. exists s'. by rewrite <-Hd. Qed.

Lemma get_partial_counts self k r : metrics_ok self → byte_range_ok r →
  (∀ v, metrics_abs self !! k = Some v → zlen v < u64_modulus ∧ range_within r (zlen v)) →
  counts (get_partial k r) self ((λ v, range_bytes v r) <$> metrics_abs self !! k) (metrics_abs self)
    (op_delta (metrics_abs self) (OGetPartial k r)).
Proof.
  intros Hok Hr Hv. unfold get_partial, get_partial_of.
  assert (∀ v, metrics_abs self !! k = Some v →
     zlen v < u64_modulus ∧ Forall byte_range_ok [r] ∧ Forall (λ r, range_within r (zlen v)) [r]) as Hrs.
  { intros v E. destruct (Hv v E). split_and!; [done|by repeat constructor..]. }
  destruct (metrics_get_partial_many_counts self k [r] Hok Hrs) as (s' & Hm & HM).
  eapply (counts_wrap _ _ _ _ (delta_add _ no_delta)).
  - eapply counts_bind; [exists s'; split; [exact Hm|exact HM]|]. intros self' Hok' HM'.
    rewrite <-HM'. destruct (metrics_abs self' !! k) as [v|].
    + by apply counts_ret.
    + by apply counts_ret.
  - intros self'. rewrite delta_add_0_r. simpl. destruct (metrics_abs self !! k); [|done]. apply count_wrap; try done.
    simpl. rewrite sum64_wrap, wrap64_wrap64. unfold Zsum. simpl. f_equal. lia.
Qed.

Lemma store_set_partial_many_counts self k ovs : metrics_ok self →
  StoreKey_validate k = true ∧ Forall offset_value_ok ovs ∧
    match metrics_abs self !! k with Some v => zlen v < u64_modulus | None => True end →
  counts (store_set_partial_many k ovs) self tt
    (<[k := fold_left write_at ovs (default [] (metrics_abs self !! k))]> (metrics_abs self))
    (op_delta (metrics_abs self) (OStoreSetPartialMany k ovs)).
Proof.
  intros Hok (_ & Ho & Hv). unfold store_set_partial_many.
  eapply (counts_wrap _ _ _ _
    (delta_add _ (mk_delta 0 (zlen (fold_left write_at ovs (default [] (metrics_abs self !! k)))) 0 1 0))); [eapply counts_bind; [apply metrics_get_counts|]|].
  - intros self1 Hok1 HM1. unfold op_lift, op_bind. rewrite update_loop_spec by done. rewrite <-HM1.
    apply counts_before. apply HL. rewrite HM1. apply size_write_at_fold; [|done].
    by destruct (metrics_abs self !! k).
  - intros s. unfold delta_add. simpl. by rewrite Z.add_0_r.
Qed.

Lemma exec_op_counts self o : metrics_ok self → valid_keys (metrics_abs self) → store_op_ok (metrics_abs self) o →
  counts (exec_op o) self (spec_op (metrics_abs self) o).1 (spec_op (metrics_abs self) o).2
    (op_delta (metrics_abs self) o).
Proof.
  intros Hok Hk Ho. pose (unit_result := λ _ : unit, RUnit).
  destruct o; simpl in Ho |- *; try (apply counts_then_ret, counts_on_storage; [done|by apply HL]).
  - apply (counts_then_ret _ RBytes), metrics_get_counts.
  - apply (counts_then_ret _ RBytes), get_partial_counts; [done|tauto|]. intros v E. rewrite E in Ho. tauto.
  - apply (counts_then_ret _ unit_result _ tt), counts_before. apply HL; tauto.
  - apply (counts_then_ret _ unit_result _ tt). eapply counts_wrap; [apply counts_before; apply HL; tauto|].
    intros s. apply count_wrap; try done. simpl. by rewrite sum64_wrap, wrap64_wrap64.
  - apply (counts_then_ret _ unit_result _ tt). by apply store_set_partial_many_counts.
  - apply (counts_then_ret _ unit_result _ tt), counts_before. apply HL.
  - apply (counts_then_ret _ unit_result _ tt), counts_before. apply HL.
  - apply (counts_then_ret _ unit_result _ tt), counts_on_storage; [done|]. apply HL.
  - apply (counts_then_ret _ (λ z, RSize (Some z))), counts_on_storage; [done|]. apply HL.
Qed.

Lemma counts_ok {A} (m : op A) self a M d : counts m self a M d →
  ∃ self', m self = (self', Ok a) ∧ metrics_ok self' ∧ metrics_abs self' = M ∧
    self' = count (mk_metrics (storage self') (bytes_read self) (bytes_written self) (reads self) (writes self) (keys_erased self)) d.
Proof. intros (s' & Hm & HM). eexists. split_and!; [exact Hm|apply count_ok|exact HM|done]. Qed.

Lemma exec_ops_counts self os : metrics_ok self → valid_keys (metrics_abs self) → store_ops_ok (metrics_abs self) os →
  counts (exec_ops os) self (spec_ops (metrics_abs self) os).1 (spec_ops (metrics_abs self) os).2
    (ops_delta (metrics_abs self) os).
Proof.
  revert self. induction os as [|o os IH]; intros self Hok Hk Ho; [by apply counts_ret|]. simpl in *.
  destruct Ho as [Ho Hos]. pose proof (spec_op_valid _ _ Ho Hk) as Hk'.
  pose proof (exec_op_counts self o Hok Hk Ho) as Hx. destruct (spec_op (metrics_abs self) o) as [r M]. simpl in *.
  assert (∀ self1, metrics_ok self1 → metrics_abs self1 = M →
    counts (let! rs := exec_ops os in op_ret (r :: rs)) self1 (r :: (spec_ops M os).1) (spec_ops M os).2 (ops_delta M os)) as Hrest.
  { intros self1 Hok1 <-. apply (counts_then_ret _ (cons r)). by apply IH. }
  destruct (spec_ops M os) as [rs M']. by eapply counts_bind.
Qed.

(** The performance metrics adapter changes nothing and counts everything.  Over a store
    that keeps its promises, a program has the results and the final contents it has on
    the finite map; each counter goes up, modulo 2^64, by the bytes and requests of the
    operations (a read of an absent key is a request of no bytes; listing and erasing a prefix are not counted); and
    [reset] clears every counter but that of the erased keys. *)
Theorem metrics_adapter_spec s os :
  valid_keys (abs s) → store_ops_ok (abs s) os →
  ∃ self', exec_ops os (metrics_new s) = (self', Ok (spec_ops (abs s) os).1) ∧
    abs (storage self') = (spec_ops (abs s) os).2 ∧
    (let d := ops_delta (abs s) os in
     bytes_read self' = wrap64 (d_bytes_read d) ∧ bytes_written self' = wrap64 (d_bytes_written d) ∧
     reads self' = wrap64 (d_reads d) ∧ writes self' = wrap64 (d_writes d) ∧
     keys_erased self' = wrap64 (d_keys_erased d)) ∧
    (let r := reset self' in
     storage r = storage self' ∧ bytes_read r = 0 ∧ bytes_written r = 0 ∧ reads r = 0 ∧ writes r = 0 ∧
     keys_erased r = keys_erased self').
Proof.
  intros Hk Ho.
  assert (metrics_ok (metrics_new s)) as Hok by (unfold metrics_ok, is_u64, u64_modulus; simpl; lia).
  destruct (exec_ops_counts (metrics_new s) os Hok Hk Ho) as (s' & Hm & HM).
  eexists. split; [exact Hm|]. split; [exact HM|]. split; [|done]. simpl. by rewrite !Z.add_0_l.
Qed.
End adapter.

Lemma metrics_adapter_spec_witness :
  ∃ self, exec_ops example_program (metrics_new MemoryStore_new) = (self, Ok (spec_ops (memory_abs MemoryStore_new) example_program).1) ∧
    bytes_written self = 4 ∧ bytes_read self = 3 ∧ reads self = 1 ∧ writes self = 3.
Proof.
  destruct (metrics_adapter_spec memory_abs MemoryStore_new example_program) as (self & H & _ & (H1 & H2 & H3 & H4 & _) & _).
  - intros k v Hl. discriminate Hl.
  - by_decision.
  - exists self. rewrite H1, H2, H3, H4. split; [exact H|]. split_and!; vm_compute; reflexivity.
Defined.
