(* ===== verification/ArrayBytes.v ===== *)
(** The bytes of an array: [zarrs_codec/src/array_bytes.rs] with its submodules,
    [array_bytes_fixed_disjoint_view.rs], and what they use of the data type and of
    the fill value ([zarrs_data_type/src/fill_value.rs], [optional.rs]).

    The theorems see the bytes of an array as the list of its elements: reading a region
    selects elements, writing one replaces them. *)

From S2P Require Import Prelude ArraySubset Linear Iterators ByteRange Storage.

(** ** Data types and fill values

    Of a data type the code asks for its size and whether it is an optional type. *)

Inductive DataTypeSize := FixedSize (size : Z) | VariableSize.

Inductive DataType := PlainType (size : DataTypeSize) | OptionalType (inner : DataType).

(** The size of an optional type is the one of its inner type. *)
Fixpoint data_type_size (self : DataType) : DataTypeSize :=
  match self with PlainType size => size | OptionalType inner => data_type_size inner end.

Definition fixed_size (self : DataType) : option Z :=
  match data_type_size self with FixedSize size => Some size | VariableSize => None end.

Definition FillValue : Type := bytes.

(** [slice::chunks_exact]. *)
Definition chunks_exact (n : nat) (b : bytes) : list bytes :=
  (λ i, take n (drop (i * n) b)) <$> seq 0 (length b / n).

(** [num::Integer::is_multiple_of]. *)
Definition is_multiple_of (a b : Z) : bool := if b =? 0 then a =? 0 else a mod b =? 0.

(** [FillValue::equals_all]; the sizes with a 128-bit fast path compare the same chunks. *)
Definition equals_all (self : FillValue) (b : bytes) : bool :=
  if negb (is_multiple_of (zlen b) (zlen self)) || (zlen b <? zlen self) then false
  else if decide (self = []) then bool_decide (b = [])
  else forallb (fun element => bool_decide (element = self)) (chunks_exact (length self) b).

Definition is_fill_value_null (fill_value : FillValue) : bool := bool_decide (last fill_value = Some 0).

Definition fill_value_inner_bytes (fill_value : FillValue) : bytes :=
  if decide (fill_value = []) then [] else take (length fill_value - 1) fill_value.

(** ** Array bytes *)

Record ArrayBytesVariableLength := mk_vlen { vl_bytes : bytes; vl_offsets : list Z }.

Inductive ArrayBytes :=
  | FixedBytes (b : bytes)
  | VariableBytes (v : ArrayBytesVariableLength)
  | OptionalBytes (data : ArrayBytes) (mask : bytes).

(** The errors of this file; [CodecError] without the payloads that are texts. *)
Inductive CodecError :=
  | CodecInvalidByteRange (e : InvalidByteRangeError)
  | IncompatibleIndexer (e : IndexerError)
  | UnexpectedChunkDecodedSize (len expected_len : Z)
  | InvalidChecksum
  | CodecStorageError (e : StorageError)
  | InvalidNumberOfElements (len expected : Z)
  | UnsupportedDataType
  | InvalidOffsets
  | CodecOther
  | InvalidVariableSizedArrayOffsets
  | ExpectedFixedLengthBytes
  | ExpectedVariableLengthBytes
  | ExpectedOptionalBytes
  | SubsetOutOfBounds (subset bounding_subset : ArraySubset)
  | RawBytesOffsetsOutOfBounds (offset len : Z)
  | OffsetsZeroLength
  | OffsetsNotMonotonicallyIncreasing
  | CodecFillValueError
  | CodecArraySubsetError (e : ArraySubsetError)
  | CodecIncompatibleDimensionality (got expected : nat)
  | CodecIOError.

(** [ArrayBytesOffsets::new]. *)
Fixpoint monotone_windows (l : list Z) : bool :=
  match l with
  | a :: ((b :: _) as l) => (a <=? b) && monotone_windows l
  | _ => true
  end.

Definition offsets_new (offsets : list Z) : outcome CodecError (list Z) :=
  if decide (offsets = []) then Err OffsetsZeroLength
  else if monotone_windows offsets then Ok offsets
  else Err OffsetsNotMonotonicallyIncreasing.

(** [ArrayBytesVariableLength::new]; [last] of the offsets, which are not empty. *)
Definition new_vlen (b : bytes) (offsets : list Z) : outcome CodecError ArrayBytesVariableLength :=
  if default 0 (last offsets) <=? zlen b then Ok (mk_vlen b offsets)
  else Err (RawBytesOffsetsOutOfBounds (default 0 (last offsets)) (zlen b)).

(** [[T]::repeat]. *)
Definition repeat_bytes (b : bytes) (n : Z) : bytes := concat (replicate (Z.to_nat n) b).

Fixpoint new_fill_value (data_type : DataType) (num_elements : Z) (fill_value : FillValue)
    : outcome CodecError ArrayBytes :=
  match data_type with
  | OptionalType inner =>
      if is_fill_value_null fill_value then
        let inner_fill_value : FillValue := match fixed_size inner with Some n => replicate (Z.to_nat n) 0 | None => [] end in
        let? data := new_fill_value inner num_elements inner_fill_value in
        Ok (OptionalBytes data (replicate (Z.to_nat num_elements) 0))
      else
        let? data := new_fill_value inner num_elements (fill_value_inner_bytes fill_value) in
        Ok (OptionalBytes data (replicate (Z.to_nat num_elements) 1))
  | PlainType (FixedSize size) =>
      if zlen fill_value =? size then Ok (FixedBytes (repeat_bytes fill_value num_elements))
      else Err CodecFillValueError
  | PlainType VariableSize =>
      Ok (VariableBytes (mk_vlen (repeat_bytes fill_value num_elements)
        ((λ i, i *w zlen fill_value) <$> seqZ 0 (num_elements + 1))))
  end.

Fixpoint is_fill_value (self : ArrayBytes) (fill_value : FillValue) : bool :=
  match self with
  | FixedBytes b => equals_all fill_value b
  | VariableBytes v => equals_all fill_value (vl_bytes v)
  | OptionalBytes data mask =>
      if is_fill_value_null fill_value then forallb (fun b => b =? 0) mask
      else forallb (fun b => b =? 1) mask && is_fill_value data (fill_value_inner_bytes fill_value)
  end.

Definition into_fixed (self : ArrayBytes) : outcome CodecError bytes :=
  match self with FixedBytes b => Ok b | _ => Err ExpectedFixedLengthBytes end.
Definition into_variable (self : ArrayBytes) : outcome CodecError ArrayBytesVariableLength :=
  match self with VariableBytes v => Ok v | _ => Err ExpectedVariableLengthBytes end.
Definition into_optional (self : ArrayBytes) : outcome CodecError (ArrayBytes * bytes) :=
  match self with OptionalBytes data mask => Ok (data, mask) | _ => Err ExpectedOptionalBytes end.

(** [ArrayBytes::size]. *)
Fixpoint array_bytes_size (self : ArrayBytes) : Z :=
  match self with
  | FixedBytes b => zlen b
  | VariableBytes v => zlen (vl_bytes v)
  | OptionalBytes data _ => array_bytes_size data
  end.

(** ** Validation *)

Definition validate_bytes_flen (b : bytes) (array_size : Z) : outcome CodecError unit :=
  if zlen b =? array_size then Ok tt else Err (UnexpectedChunkDecodedSize (zlen b) array_size).

Fixpoint validate_offsets_loop (offsets : list Z) (len offset_last : Z) : outcome CodecError Z :=
  match offsets with
  | [] => Ok offset_last
  | offset :: l =>
      if (offset <? offset_last) || (len <? offset) then Err InvalidVariableSizedArrayOffsets
      else validate_offsets_loop l len offset
  end.

Definition validate_bytes_vlen (b : bytes) (offsets : list Z) (num_elements : Z) : outcome CodecError unit :=
  if negb (zlen offsets =? num_elements +w 1) then Err InvalidVariableSizedArrayOffsets
  else
    let? offset_last := validate_offsets_loop offsets (zlen b) 0 in
    if offset_last =? zlen b then Ok tt else Err InvalidVariableSizedArrayOffsets.

Fixpoint validate_bytes (b : ArrayBytes) (num_elements : Z) (data_type : DataType) : outcome CodecError unit :=
  match b, data_type with
  | FixedBytes _, OptionalType _ => Err CodecOther
  | FixedBytes b, PlainType (FixedSize size) => validate_bytes_flen b (num_elements *w size)
  | FixedBytes _, PlainType VariableSize => Err CodecOther
  | VariableBytes _, OptionalType _ => Err CodecOther
  | VariableBytes v, PlainType VariableSize => validate_bytes_vlen (vl_bytes v) (vl_offsets v) num_elements
  | VariableBytes _, PlainType (FixedSize _) => Err CodecOther
  | OptionalBytes _ _, PlainType _ => Err CodecOther
  | OptionalBytes data _, OptionalType inner => validate_bytes data num_elements inner
  end.

(** ** Reading a region

    The iterators of a region are drained with one step more than it has elements. *)
Definition drain {T A} (next : T → outcome IndexerError (option A * T)) (s : T) (n : Z) : outcome IndexerError (list A) :=
  match iter_collect next (S (Z.to_nat n)) s with Some r => r | None => Panic end.

Definition contiguous_byte_ranges (subset : ArraySubset) (array_shape : list Z) (size : Z)
    : outcome IndexerError (list range) :=
  let? ci := ContiguousLinearisedIndices_new subset array_shape in
  drain (ContiguousByteRanges_next size) (ContiguousLinearisedIndices_into_iter ci) (Zprod (shape subset)).

Definition contiguous_linearised_indices (subset : ArraySubset) (array_shape : list Z)
    : outcome IndexerError (list (Z * Z)) :=
  let? ci := ContiguousLinearisedIndices_new subset array_shape in
  drain ContiguousLinearisedIndices_next (ContiguousLinearisedIndices_into_iter ci) (Zprod (shape subset)).

Definition linearised_indices (subset : ArraySubset) (array_shape : list Z) : outcome IndexerError (list Z) :=
  let? li := LinearisedIndices_new subset array_shape in
  drain LinearisedIndices_next (LinearisedIndices_into_iter li) (Zprod (shape subset)).

Definition range_to_byte_range (r : range) : ByteRange := ByteRange_new (Included (r_start r)) (Excluded (r_end r)).

Definition extract_fixed (b : bytes) (subset : ArraySubset) (array_shape : list Z) (size : Z) : outcome CodecError bytes :=
  let? byte_ranges := map_err IncompatibleIndexer (contiguous_byte_ranges subset array_shape size) in
  map_err CodecInvalidByteRange (extract_byte_ranges_concat b (range_to_byte_range <$> byte_ranges)).

(** The copy loop of the variable-length case, with the bytes and the offsets pushed so far. *)
Fixpoint extract_vlen_loop (b : bytes) (offsets indices : list Z) (ss_bytes : bytes) (ss_offsets : list Z)
    : outcome CodecError ArrayBytesVariableLength :=
  match indices with
  | [] => Ok (mk_vlen ss_bytes (ss_offsets ++ [zlen ss_bytes]))
  | i :: indices =>
      let? curr := index offsets i in
      let? next := index offsets (i +w 1) in
      let? part := slice b curr next in
      extract_vlen_loop b offsets indices (ss_bytes ++ part) (ss_offsets ++ [zlen ss_bytes])
  end.

Fixpoint extract_array_subset (self : ArrayBytes) (subset : ArraySubset) (array_shape : list Z) (data_type : DataType)
    : outcome CodecError ArrayBytes :=
  match self with
  | VariableBytes v =>
      let? indices := map_err IncompatibleIndexer (linearised_indices subset array_shape) in
      let? v := extract_vlen_loop (vl_bytes v) (vl_offsets v) indices [] [] in
      Ok (VariableBytes v)
  | FixedBytes b =>
      let? size := expect (fixed_size data_type) in
      let? b := extract_fixed b subset array_shape size in
      Ok (FixedBytes b)
  | OptionalBytes data mask =>
      match data_type with
      | PlainType _ => Err CodecOther
      | OptionalType inner =>
          let? data := extract_array_subset data subset array_shape inner in
          let? mask := extract_fixed mask subset array_shape 1 in
          Ok (OptionalBytes data mask)
      end
  end.

(** ** Writing a region: the disjoint view of fixed-length bytes *)

Record ArrayBytesFixedDisjointView := mk_view {
  view_data_type_size : Z;
  view_shape : list Z;
  view_subset : ArraySubset;
  bytes_in_subset_len : Z;
  view_contiguous_elements : Z;
  view_runs : list (Z * Z);
}.

(** [ArrayBytesFixedDisjointView::new].  The view borrows the bytes: its operations take
    them and return them. *)
Definition view_new (b : bytes) (data_type_size : Z) (shape : list Z) (subset : ArraySubset)
    : outcome CodecError ArrayBytesFixedDisjointView :=
  if negb (inbounds_shape subset shape) then Err (SubsetOutOfBounds subset (new_with_shape shape))
  else
    let bytes_in_array_len := product64 shape *w data_type_size in
    if negb (zlen b =? bytes_in_array_len) then Err (UnexpectedChunkDecodedSize (zlen b) bytes_in_array_len)
    else
      let bytes_in_subset_len := num_elements_usize subset *w data_type_size in
      let? contiguous_indices := map_err IncompatibleIndexer (ContiguousIndices_new subset shape) in
      let? runs := map_err IncompatibleIndexer (contiguous_linearised_indices subset shape) in
      Ok (mk_view data_type_size shape subset bytes_in_subset_len (contiguous_elements contiguous_indices) runs).

Definition subdivide (self : ArrayBytesFixedDisjointView) (b : bytes) (subset : ArraySubset)
    : outcome CodecError ArrayBytesFixedDisjointView :=
  if negb (inbounds subset (view_subset self)) then Err (SubsetOutOfBounds subset (view_subset self))
  else view_new b (view_data_type_size self) (view_shape self) subset.

(** The loop of [fill]. *)
Fixpoint fill_runs (runs : list (Z * Z)) (size : Z) (fill_value_contiguous : bytes) (b : bytes) : outcome CodecError bytes :=
  match runs with
  | [] => Ok b
  | (i, _) :: runs =>
      let offset := i *w size in
      let? b := copy_from_slice b offset (offset +w zlen fill_value_contiguous) fill_value_contiguous in
      fill_runs runs size fill_value_contiguous b
  end.

Definition view_fill (self : ArrayBytesFixedDisjointView) (b : bytes) (fill_value : bytes) : outcome CodecError bytes :=
  if negb (zlen fill_value =? view_data_type_size self)
  then Err (UnexpectedChunkDecodedSize (zlen fill_value) (view_data_type_size self))
  else fill_runs (view_runs self) (view_data_type_size self) (repeat_bytes fill_value (view_contiguous_elements self)) b.

(** The fold of [copy_from_slice] over the runs, with the offset in the source. *)
Fixpoint copy_runs (runs : list (Z * Z)) (size : Z) (subset_bytes : bytes) (subset_offset : Z) (b : bytes)
    : outcome CodecError bytes :=
  match runs with
  | [] => Ok b
  | (i, n) :: runs =>
      let output_offset := i *w size in
      let length := n *w size in
      let subset_offset_end := subset_offset +w length in
      let? part := slice subset_bytes subset_offset subset_offset_end in
      let? b := copy_from_slice b output_offset (output_offset +w length) part in
      copy_runs runs size subset_bytes subset_offset_end b
  end.

Definition view_copy_from_slice (self : ArrayBytesFixedDisjointView) (b : bytes) (subset_bytes : bytes)
    : outcome CodecError bytes :=
  if negb (zlen subset_bytes =? bytes_in_subset_len self)
  then Err (UnexpectedChunkDecodedSize (zlen subset_bytes) (bytes_in_subset_len self))
  else copy_runs (view_runs self) (view_data_type_size self) subset_bytes 0 b.

(** ** [update_array_bytes] with an array subset *)

(** The loop over all elements of the array, with the bytes and the offsets pushed so far. *)
Fixpoint update_vlen_loop (input update : ArrayBytesVariableLength) (subset : ArraySubset) (chunk_index : Z)
    (all_indices : list (list Z)) (bytes_new : bytes) (offsets_new : list Z)
    : outcome IndexerError ArrayBytesVariableLength :=
  match all_indices with
  | [] => Ok (mk_vlen bytes_new (offsets_new ++ [zlen bytes_new]))
  | indices :: all_indices =>
      let offsets_new := offsets_new ++ [zlen bytes_new] in
      let? part :=
        if contains subset indices then
          let subset_indices := zip_with (fun i s => i -w s) indices (start subset) in
          let? subset_index := expect (ravel_indices subset_indices (shape subset)) in
          let? start := index (vl_offsets update) subset_index in
          let? end_ := index (vl_offsets update) (subset_index +w 1) in
          slice (vl_bytes update) start end_
        else
          let? start := index (vl_offsets input) chunk_index in
          let? end_ := index (vl_offsets input) (chunk_index +w 1) in
          slice (vl_bytes input) start end_ in
      update_vlen_loop input update subset (chunk_index +w 1) all_indices (bytes_new ++ part) offsets_new
  end.

(** The sizes of the elements at given indices. *)
Definition element_sizes (offsets indices : list Z) : outcome IndexerError (list Z) :=
  collect_res ((λ i, let? next := index offsets (i +w 1) in let? curr := index offsets i in Ok (next -w curr)) <$> indices).

Definition update_bytes_vlen_array_subset (input : ArrayBytesVariableLength) (input_shape : list Z)
    (update : ArrayBytesVariableLength) (update_subset : ArraySubset) : outcome IndexerError ArrayBytesVariableLength :=
  if negb (inbounds_shape update_subset input_shape) then Err (OutOfBounds (end_exc update_subset) input_shape)
  else
    let size_subset_new := sum64 (zip_with (fun curr next => next -w curr) (vl_offsets update) (drop 1 (vl_offsets update))) in
    let? chunk_indices :=
      match linearised_indices update_subset input_shape with Ok l => Ok l | _ => Panic end in
    let? sizes := element_sizes (vl_offsets input) chunk_indices in
    let size_subset_old := sum64 sizes in
    let? _ := expect (checked_sub (zlen (vl_bytes input) +w size_subset_new) size_subset_old) in
    let whole := new_with_shape input_shape in
    let? all_indices := drain (λ it, Ok (Indices_next it)) (Indices_new whole) (Zprod input_shape) in
    update_vlen_loop input update update_subset 0 all_indices [] [].

Definition update_fixed (b : bytes) (shape : list Z) (update_subset : ArraySubset) (update_bytes : bytes) (size : Z)
    : outcome CodecError bytes :=
  let? output_view := view_new b size shape update_subset in
  view_copy_from_slice output_view b update_bytes.

Fixpoint update_array_bytes_array_subset (b : ArrayBytes) (shape : list Z) (update_subset : ArraySubset)
    (update_bytes : ArrayBytes) (data_type_size : DataTypeSize) : outcome CodecError ArrayBytes :=
  match b, update_bytes, data_type_size with
  | VariableBytes v, VariableBytes update, VariableSize =>
      let? v := map_err IncompatibleIndexer (update_bytes_vlen_array_subset v shape update update_subset) in
      Ok (VariableBytes v)
  | FixedBytes b, FixedBytes update_bytes, FixedSize size =>
      let? b := update_fixed b shape update_subset update_bytes size in
      Ok (FixedBytes b)
  | OptionalBytes data mask, OptionalBytes update_data update_mask, data_type_size =>
      let? data := update_array_bytes_array_subset data shape update_subset update_data data_type_size in
      let? mask := update_fixed mask shape update_subset update_mask 1 in
      Ok (OptionalBytes data mask)
  | _, _, VariableSize => Err ExpectedVariableLengthBytes
  | _, _, FixedSize _ => Err ExpectedFixedLengthBytes
  end.

(** [update_array_bytes] for an indexer that is an array subset. *)
Definition update_array_bytes := update_array_bytes_array_subset.

(** ** Elements

    Fixed-length bytes are the concatenation of elements of one size. *)

Section elements.
Context {A : Type}.

Lemma length_concat_const (d : nat) (L : list (list A)) : Forall (λ e, length e = d) L →
  length (concat L) = (length L * d)%nat.
Proof. induction 1 as [|e L He HL IH]; [done|]. simpl. rewrite length_app, He, IH. lia. Qed.

Lemma take_concat_const (d : nat) (L : list (list A)) k : Forall (λ e, length e = d) L →
  take (k * d) (concat L) = concat (take k L).
Proof.
  intros H. revert k. induction H as [|e L He HL IH]; intros [|k]; simpl; try done; [by rewrite take_nil|].
  rewrite take_app_ge by lia. rewrite He. f_equal. rewrite <-IH. f_equal. lia.
Qed.

Lemma drop_concat_const (d : nat) (L : list (list A)) k : Forall (λ e, length e = d) L →
  drop (k * d) (concat L) = concat (drop k L).
Proof.
  intros H. revert k. induction H as [|e L He HL IH]; intros [|k]; simpl; try done; [by rewrite drop_nil|].
  rewrite drop_app_ge by lia. rewrite He. rewrite <-IH. f_equal. lia.
Qed.

Lemma take_lookup_total `{!Inhabited A} (l : list A) s n : (s + n <= length l)%nat →
  take n (drop s l) = (λ k, l !!! k) <$> seq s n.
Proof.
  intros Hn. apply list_eq_same_length with (n := n).
  - by rewrite length_fmap, length_seq.
  - rewrite length_take, length_drop. lia.
  - intros i x y Hi Hx Hy. rewrite lookup_take_lt, lookup_drop in Hx by done.
    rewrite list_lookup_fmap, lookup_seq_lt in Hy by done. simpl in Hy. injection Hy as <-.
    by rewrite (list_lookup_total_correct _ _ _ Hx).
Qed.

(** Writing elements at given positions. *)
Definition scatter (E : list A) (idxs : list Z) (U : list A) : list A :=
  fold_left (λ E p, <[Z.to_nat p.1 := p.2]> E) (zip idxs U) E.

Lemma length_scatter E idxs U : length (scatter E idxs U) = length E.
Proof.
  unfold scatter. generalize (zip idxs U) as l. intros l. revert E.
  induction l as [|p l IH]; intros E; [done|]. simpl. by rewrite IH, length_insert.
Qed.

Lemma scatter_cons E i idxs u U : scatter E (i :: idxs) (u :: U) = scatter (<[Z.to_nat i := u]> E) idxs U.
Proof. done. Qed.

Lemma scatter_app E i1 i2 U1 U2 : length i1 = length U1 →
  scatter E (i1 ++ i2) (U1 ++ U2) = scatter (scatter E i1 U1) i2 U2.
Proof. intros H. unfold scatter. by rewrite zip_with_app, fold_left_app. Qed.

Lemma lookup_scatter_ne E idxs U j : Forall (λ i, 0 <= i) idxs → Z.of_nat j ∉ idxs →
  scatter E idxs U !! j = E !! j.
Proof.
  intros H. revert E U. induction H as [|i idxs Hi H IH]; intros E [|u U] Hj; try done.
  apply not_elem_of_cons in Hj as [Hij Hj]. rewrite scatter_cons, IH by done. apply list_lookup_insert_ne. lia.
Qed.

Lemma lookup_scatter E idxs U k i u : Forall (λ i, 0 <= i < Z.of_nat (length E)) idxs → NoDup idxs →
  idxs !! k = Some i → U !! k = Some u → scatter E idxs U !! Z.to_nat i = Some u.
Proof.
  revert E U k. induction idxs as [|i' idxs IH]; intros E [|u' U] k Hr Hn Hi Hu; try done.
  apply Forall_cons in Hr as [Hi' Hr]. apply NoDup_cons in Hn as [Hni Hn]. rewrite scatter_cons.
  destruct k as [|k].
  - injection Hi as ->. injection Hu as ->. rewrite lookup_scatter_ne.
    + apply list_lookup_insert_eq. lia.
    + eapply Forall_impl; [exact Hr|]. simpl. lia.
    + by rewrite Z2Nat.id by lia.
  - apply (IH _ _ k); [|done|done|done]. by rewrite length_insert.
Qed.

(** Writing a run of adjacent elements. *)
Lemma scatter_seqZ E i n U : 0 <= i → length U = n → (Z.to_nat i + n <= length E)%nat →
  scatter E (seqZ i (Z.of_nat n)) U = take (Z.to_nat i) E ++ U ++ drop (Z.to_nat i + n) E.
Proof.
  intros Hi Hn. revert E i U Hi Hn. induction n as [|n IH]; intros E i U Hi Hn HE.
  { destruct U; [|done]. rewrite Nat.add_0_r. unfold scatter. simpl. by rewrite take_drop. }
  destruct U as [|u U]; [done|]. injection Hn as Hn. rewrite seqZ_cons by lia.
  replace (Z.pred (Z.of_nat (S n))) with (Z.of_nat n) by lia. rewrite scatter_cons, IH.
  - replace (Z.to_nat (Z.succ i)) with (S (Z.to_nat i)) by lia.
    rewrite (take_S_r _ _ u) by (apply list_lookup_insert_eq; lia).
    rewrite take_insert_ge by lia. rewrite drop_insert_lt by lia.
    rewrite <-!app_assoc. simpl. do 4 f_equal. lia.
  - lia.
  - done.
  - rewrite length_insert. lia.
Qed.
End elements.

(** *** Regions *)

(** The product of the extents of a region is at most the one of its array. *)
Lemma Zprod_le sh ash : length sh = length ash → (∀ j, (j < length sh)%nat → 0 <= sh !!! j <= ash !!! j) →
  0 <= Zprod sh <= Zprod ash.
Proof.
  revert ash. induction sh as [|d sh IH]; intros [|e ash] Hl H; simpl in Hl; try lia; [change (Zprod []) with 1; lia|].
  rewrite !Zprod_cons. pose proof (H 0%nat ltac:(simpl; lia)) as H0. simpl in H0.
  destruct (IH ash) as [? ?]; [lia| |nia]. intros j Hj. apply (H (S j)). simpl. lia.
Qed.

Lemma region_product s ash : region_wf s → in_array s ash → 0 <= Zprod (shape s) <= Zprod ash.
Proof.
  intros [[Hl Hwf] [Hnn _]] [Ha Hin]. apply Zprod_le; [lia|]. intros j Hj.
  pose proof (proj1 (Forall_total _ _) Hnn j Hj) as Hd. specialize (Hin j ltac:(lia)). 
  specialize (Hwf j ltac:(lia)). lia.
Qed.

(** The positions of a region, in order. *)
Definition positions (s : ArraySubset) (ash : list Z) : list Z := lin_elements (start s) (shape s) ash.

Lemma length_positions s ash : region_wf s → zlen (positions s ash) = Zprod (shape s).
Proof. intros Hs. unfold positions, lin_elements. rewrite length_fmap. by apply length_region. Qed.

Lemma positions_bound s ash : region_wf s → in_array s ash → Forall (λ i, 0 <= i < Zprod ash) (positions s ash).
Proof.
  intros Hs Ha. apply Forall_fmap, Forall_forall. intros ix Hix. simpl. apply lin_bound. by apply (box_index_in s).
Qed.

Lemma lin_inj ix jx sh : index_in ix sh → index_in jx sh → lin ix sh = lin jx sh → ix = jx.
Proof. intros Hi Hj H. by rewrite <-(delin_lin ix sh Hi), H, delin_lin. Qed.

Lemma NoDup_positions s ash : region_wf s → in_array s ash → NoDup (positions s ash).
Proof.
  intros Hs Ha. unfold positions, lin_elements. apply NoDup_fmap_2_strong; [|apply NoDup_box].
  intros ix jx Hi Hj. apply lin_inj; by apply (box_index_in s).
Qed.

(** A region the code accepts. *)
Definition region_ok (s : ArraySubset) (ash : list Z) : Prop :=
  region_wf s ∧ in_array s ash ∧ is_empty s = false ∧ shape_wf ash.

Lemma linearised_indices_ok s ash : region_ok s ash → linearised_indices s ash = Ok (positions s ash).
Proof.
  intros (Hs & Ha & Hne & Hash). unfold linearised_indices.
  destruct (contiguous_runs_collect s ash Hs Ha Hne (proj2 Hash)) as (ci & li & runs & idxs & _ & Hli & Hf & _ & _ & _ & _ & ->).
  rewrite Hli. simpl. unfold drain. by rewrite (proj2 (Hf (S (Z.to_nat (Zprod (shape s)))) ltac:(lia))).
Qed.

Lemma contiguous_linearised_indices_ok s ash : region_ok s ash →
  ∃ ci runs, ContiguousIndices_new s ash = Ok ci ∧ contiguous_linearised_indices s ash = Ok runs ∧
    Forall (λ run, run.2 = contiguous_elements ci) runs ∧ 0 < contiguous_elements ci ∧ (runs ≫= λ run, seqZ run.1 run.2) = positions s ash.
Proof.
  intros (Hs & Ha & Hne & Hash). unfold contiguous_linearised_indices.
  destruct (contiguous_runs_collect s ash Hs Ha Hne (proj2 Hash)) as (ci & li & runs & idxs & Hci & _ & Hf & Hc & Hpos & Hr & _ & ->).
  unfold ContiguousLinearisedIndices_new in *. destruct (ContiguousIndices_new s ash) as [c| |]; [|done|done].
  simpl in *. injection Hci as <-. exists c, runs. unfold drain. 
  by rewrite (proj1 (Hf (S (Z.to_nat (Zprod (shape s)))) ltac:(lia))).
Qed.

(** *** Reading fixed-length elements *)

(** The elements at given positions. *)
Definition select {A} `{!Inhabited A} (E : list A) (idxs : list Z) : list A := (λ i, E !!! Z.to_nat i) <$> idxs.

Definition fixed_elements (d : Z) (L : list bytes) : Prop := 0 < d ∧ Forall (λ e, length e = Z.to_nat d) L.

Lemma fixed_elements_length d L : fixed_elements d L → zlen (concat L) = zlen L * d.
Proof. intros [Hd H]. rewrite (length_concat_const (Z.to_nat d)) by done. lia. Qed.

Lemma fixed_element_bytes d L i : fixed_elements d L → (i < length L)%nat →
  L !!! i = (λ z, concat L !!! Z.to_nat z) <$> seqZ (Z.of_nat i * d) d.
Proof.
  intros [Hd H] Hi. pose proof (length_concat_const _ L H) as Hlen.
  assert (take (Z.to_nat d) (drop (i * Z.to_nat d) (concat L)) = L !!! i) as <-.
  { rewrite (drop_concat_const (Z.to_nat d)) by done.
    destruct (lookup_lt_is_Some_2 L i Hi) as [e He]. rewrite (drop_S _ _ _ He). simpl.
    rewrite take_app_length' by (by eapply Forall_lookup_1 in H). symmetry. by apply list_lookup_total_correct. }
  rewrite take_lookup_total by nia. unfold seqZ. rewrite <-list_fmap_compose.
  replace (i * Z.to_nat d)%nat with (i * Z.to_nat d + 0)%nat by lia. rewrite <-fmap_add_seq, <-list_fmap_compose.
  apply list_fmap_ext_in. intros k _. simpl. f_equal. lia.
Qed.

Lemma select_bytes d L idxs : fixed_elements d L → Forall (λ i, 0 <= i < zlen L) idxs →
  concat (select L idxs) = (λ z, concat L !!! Z.to_nat z) <$> (idxs ≫= λ i, seqZ (i * d) d).
Proof.
  intros HL H. induction H as [|i idxs Hi H IH]; [done|]. cbn [select fmap list_fmap concat].
  rewrite bind_cons, fmap_app. f_equal; [|exact IH]. rewrite (fixed_element_bytes d) by (done || lia). by rewrite Z2Nat.id by lia.
Qed.

(** The byte ranges of a region hold its elements. *)
Lemma contiguous_byte_ranges_ok d L s ash : region_ok s ash → fixed_elements d L → zlen L = Zprod ash →
  Zprod ash * d < u64_modulus →
  ∃ ranges, contiguous_byte_ranges s ash d = Ok ranges ∧
    Forall (λ r, 0 <= r_start r < r_end r ∧ r_end r <= zlen L * d) ranges ∧
    range_to_byte_range <$> ranges = (λ r, FromStart (r_start r) (Some (r_end r - r_start r))) <$> ranges ∧
    concat (range_bytes (concat L) <$> (range_to_byte_range <$> ranges)) = concat (select L (positions s ash)).
Proof.
  intros (Hs & Ha & Hne & Hash) HL Hlen Hb. pose proof (proj1 HL) as Hd. unfold contiguous_byte_ranges.
  pose proof (fixed_elements_length d L HL) as Hcl. rewrite Hlen in Hcl.
  destruct (byte_ranges_collect s ash d Hs Ha Hne Hd Hb) as (ci & ranges & Hci & Hf & Hcov & Hrs).
  rewrite Hci. simpl. unfold drain. rewrite (Hf (S (Z.to_nat (Zprod (shape s)))) ltac:(lia)).
  assert (range_to_byte_range <$> ranges = (λ r, FromStart (r_start r) (Some (r_end r - r_start r))) <$> ranges) as Hbr.
  { apply list_fmap_ext_in. intros r Hr. rewrite Forall_forall in Hrs. specialize (Hrs r Hr). unfold range_to_byte_range, ByteRange_new.
    rewrite wrap64_small by (unfold is_u64; lia). done. }
  exists ranges. split_and!; [done| |done|].
  { eapply Forall_impl; [exact Hrs|]. simpl. intros r Hr. rewrite Hlen. lia. }
  rewrite Hbr, (select_bytes d) by (done || (rewrite Hlen; by apply positions_bound)).
  unfold positions. rewrite <-Hcov. rewrite list_fmap_fmap. clear Hf Hcov Hbr. induction Hrs as [|r ranges Hr Hrs IH]; [done|].
  rewrite bind_cons, fmap_app, <-IH. rewrite fmap_cons. cbn [concat]. f_equal. simpl.
  rewrite take_lookup_total by lia. unfold seqZ. rewrite <-list_fmap_compose.
  replace (Z.to_nat (r_start r)) with (Z.to_nat (r_start r) + 0)%nat by lia. rewrite <-fmap_add_seq, <-list_fmap_compose.
  apply list_fmap_ext_in. intros k _. simpl. f_equal. lia.
Qed.

Lemma extract_fixed_ok d L s ash : region_ok s ash → fixed_elements d L → zlen L = Zprod ash →
  Zprod ash * d < u64_modulus →
  extract_fixed (concat L) s ash d = Ok (concat (select L (positions s ash))).
Proof.
  intros Hok HL Hlen Hb. destruct (contiguous_byte_ranges_ok d L s ash Hok HL Hlen Hb) as (ranges & Hr & Hrs & Hbr & Hcat).
  pose proof Hok as (Hs & Ha & Hne & Hash). pose proof (fixed_elements_length d L HL) as Hcl.
  unfold extract_fixed. rewrite Hr. cbn [map_err obind]. rewrite extract_byte_ranges_concat_within; [by rewrite Hcat|lia| | |].
  - rewrite Hbr. apply Forall_fmap. eapply Forall_impl; [exact Hrs|]. simpl. lia.
  - assert (∀ rs, total_length (concat L) rs = zlen (concat (range_bytes (concat L) <$> rs))) as ->.
    { intros rs. unfold total_length. induction rs as [|r rs IH]; [done|].
      rewrite !fmap_cons, Zsum_cons, IH. cbn [concat]. rewrite length_app. lia. }
    rewrite Hcat. pose proof (positions_bound s ash Hs Ha) as Hpb. rewrite <-Hlen in Hpb.
    assert (zlen (concat (select L (positions s ash))) = zlen (select L (positions s ash)) * d) as ->.
    { destruct HL as [Hd HL]. rewrite (length_concat_const (Z.to_nat d)); [lia|]. apply Forall_fmap. eapply Forall_impl; [exact Hpb|]. simpl. intros i Hi.
      destruct (lookup_lt_is_Some_2 L (Z.to_nat i) ltac:(lia)) as [e He].
      rewrite (list_lookup_total_correct _ _ _ He). by eapply Forall_lookup_1 in He; [|exact HL]. }
    unfold select. rewrite length_fmap, length_positions by done. pose proof (region_product s ash Hs Ha). destruct HL. nia.
  - rewrite Hbr. apply Forall_fmap. eapply Forall_impl; [exact Hrs|]. simpl. intros r Hri. rewrite Hcl. lia.
Qed.

Lemma fixed_select d L idxs : fixed_elements d L → Forall (λ i, 0 <= i < zlen L) idxs → fixed_elements d (select L idxs).
Proof.
  intros [Hd HL] Hi. split; [done|]. apply Forall_fmap. eapply Forall_impl; [exact Hi|]. simpl. intros i Hr.
  destruct (lookup_lt_is_Some_2 L (Z.to_nat i) ltac:(lia)) as [e He].
  rewrite (list_lookup_total_correct _ _ _ He). exact (Forall_lookup_1 _ _ _ _ HL He).
Qed.

(** *** Variable-length elements *)

(** The bytes between two offsets are the elements. *)
Definition vlen_elements (v : ArrayBytesVariableLength) (L : list bytes) : Prop :=
  length (vl_offsets v) = S (length L) ∧
  ∀ k e, L !! k = Some e → ∃ a b, vl_offsets v !! k = Some a ∧ vl_offsets v !! S k = Some b ∧
    ∀ E, slice (E:=E) (vl_bytes v) a b = Ok e.

(** Elements one after the other. *)
Definition offset_of (L : list bytes) (k : nat) : Z := zlen (concat (take k L)).
Definition pack (L : list bytes) : ArrayBytesVariableLength :=
  mk_vlen (concat L) (offset_of L <$> seq 0 (S (length L))).

Lemma offset_of_S L k e : L !! k = Some e → offset_of L (S k) = offset_of L k + zlen e.
Proof. intros H. unfold offset_of. rewrite (take_S_r _ _ _ H), concat_app, length_app. simpl. rewrite app_nil_r. lia. Qed.

Lemma offset_of_app L K k : (k <= length L)%nat → offset_of (L ++ K) k = offset_of L k.
Proof. intros H. unfold offset_of. by rewrite take_app_le by done. Qed.

Lemma offset_of_all L : offset_of L (length L) = zlen (concat L).
Proof. unfold offset_of. by rewrite firstn_all. Qed.

Lemma concat_split {A} (L : list (list A)) k e : L !! k = Some e →
  concat L = concat (take k L) ++ e ++ concat (drop (S k) L).
Proof.
  intros H. rewrite <-(take_drop_middle _ _ _ H) at 1. rewrite concat_app. simpl. done.
Qed.

Lemma slice_concat {E} (L : list bytes) k e : L !! k = Some e →
  slice (E:=E) (concat L) (offset_of L k) (offset_of L (S k)) = Ok e.
Proof.
  intros H. pose proof (concat_split L k e H) as Hc. rewrite (offset_of_S L k e H). unfold slice.
  assert (zlen (concat L) = offset_of L k + zlen e + zlen (concat (drop (S k) L))) as Hl.
  { rewrite Hc, !length_app. unfold offset_of. lia. }
  rewrite !(proj2 (Z.leb_le _ _)) by (rewrite ?Hl; unfold offset_of; lia). simpl. f_equal. rewrite Hc.
  rewrite drop_app_length' by (unfold offset_of; lia). rewrite take_app_length' by lia. done.
Qed.

Lemma pack_elements L : vlen_elements (pack L) L.
Proof.
  split; [simpl; by rewrite length_fmap, length_seq|]. intros k e He. pose proof (lookup_lt_Some _ _ _ He) as Hk.
  exists (offset_of L k), (offset_of L (S k)). split_and!.
  - unfold pack; cbn [vl_offsets]. rewrite list_lookup_fmap, lookup_seq_lt by lia. done.
  - unfold pack; cbn [vl_offsets]. rewrite list_lookup_fmap, lookup_seq_lt by lia. done.
  - intros E. by apply slice_concat.
Qed.

(** Pushing an element. *)
Lemma offsets_snoc P e : (offset_of P <$> seq 0 (length P)) ++ [zlen (concat P)] = offset_of (P ++ [e]) <$> seq 0 (length (P ++ [e])).
Proof.
  rewrite length_app. cbn [length]. rewrite seq_app, fmap_app. f_equal.
  - apply list_fmap_ext_in. intros k Hk%elem_of_seq. symmetry. apply offset_of_app. lia.
  - simpl. f_equal. rewrite offset_of_app by lia. symmetry. apply offset_of_all.
Qed.

Lemma pack_snoc_offsets P : pack P = mk_vlen (concat P) ((offset_of P <$> seq 0 (length P)) ++ [zlen (concat P)]).
Proof. unfold pack. f_equal. rewrite seq_S, fmap_app. simpl. by rewrite offset_of_all. Qed.

(** The element at a position, as the loops read it. *)
Lemma vlen_element_at {E} v L i : vlen_elements v L → 0 <= i < zlen L → zlen L < u64_modulus →
  ∃ a b, index (E:=E) (vl_offsets v) i = Ok a ∧ index (E:=E) (vl_offsets v) (i +w 1) = Ok b ∧
    slice (E:=E) (vl_bytes v) a b = Ok (L !!! Z.to_nat i) ∧ 0 <= a <= b.
Proof.
  intros [Hl Hv] Hi Hb. destruct (lookup_lt_is_Some_2 L (Z.to_nat i) ltac:(lia)) as [e He].
  destruct (Hv _ _ He) as (a & b & Ha & Hb' & Hs). exists a, b. rewrite (list_lookup_total_correct _ _ _ He).
  rewrite wrap64_small by (unfold is_u64; lia). unfold index. rewrite !(proj2 (Z.leb_le _ _)) by lia.
  replace (Z.to_nat (i + 1)) with (S (Z.to_nat i)) by lia. rewrite Ha, Hb'. split_and!; [done|done|apply Hs|..].
  - specialize (Hs unit). unfold slice in Hs. destruct (a <=? b) eqn:?, (b <=? zlen (vl_bytes v)), (0 <=? a) eqn:?; try done. lia.
  - specialize (Hs unit). unfold slice in Hs. destruct (a <=? b) eqn:?, (b <=? zlen (vl_bytes v)), (0 <=? a) eqn:?; try done. lia.
Qed.

Lemma extract_vlen_loop_ok v L idxs P : vlen_elements v L → zlen L < u64_modulus → Forall (λ i, 0 <= i < zlen L) idxs →
  extract_vlen_loop (vl_bytes v) (vl_offsets v) idxs (concat P) (offset_of P <$> seq 0 (length P)) =
  Ok (pack (P ++ select L idxs)).
Proof.
  intros Hv Hb Hi. revert P. induction Hi as [|i idxs Hi Hr IH]; intros P; cbn [extract_vlen_loop].
  { change (select L []) with (@nil bytes). by rewrite app_nil_r, pack_snoc_offsets. }
  destruct (vlen_element_at (E:=CodecError) v L i Hv Hi Hb) as (a & b & -> & -> & Hs & _). cbn [obind]. rewrite Hs. cbn [obind].
  rewrite (offsets_snoc P (L !!! Z.to_nat i)).
  replace (concat P ++ L !!! Z.to_nat i) with (concat (P ++ [L !!! Z.to_nat i])) by (rewrite concat_app; simpl; by rewrite app_nil_r).
  rewrite IH. by rewrite <-app_assoc.
Qed.

(** *** Writing fixed-length elements *)

Lemma copy_element_run {E} d L U i : fixed_elements d L → fixed_elements d U → 0 <= i → i + zlen U <= zlen L →
  copy_from_slice (E:=E) (concat L) (i * d) (i * d + zlen (concat U)) (concat U) =
  Ok (concat (scatter L (seqZ i (zlen U)) U)).
Proof.
  intros HL HU Hi Hle. pose proof (proj1 HL) as Hd. pose proof (fixed_elements_length d U HU) as Hlu.
  pose proof (fixed_elements_length d L HL) as Hll. unfold copy_from_slice.
  rewrite !(proj2 (Z.leb_le _ _)), (proj2 (Z.eqb_eq _ _)) by nia. simpl. f_equal.
  rewrite scatter_seqZ by (done || lia). rewrite !concat_app. f_equal; [|f_equal].
  - rewrite <-(take_concat_const (Z.to_nat d)) by apply HL. f_equal. lia.
  - rewrite <-(drop_concat_const (Z.to_nat d)) by apply HL. f_equal. nia.
Qed.

Lemma fixed_scatter d L idxs U : fixed_elements d L → fixed_elements d U → Forall (λ i, 0 <= i) idxs →
  fixed_elements d (scatter L idxs U).
Proof.
  intros [Hd HL] [_ HU] _. split; [done|]. revert L U HL HU. induction idxs as [|i idxs IH]; intros L [|u U] HL HU; try done.
  apply Forall_cons in HU as [Hu HU]. rewrite scatter_cons. apply IH; [|done]. by apply Forall_insert.
Qed.

Lemma fixed_app d L K : fixed_elements d (L ++ K) ↔ fixed_elements d L ∧ fixed_elements d K.
Proof. unfold fixed_elements. rewrite Forall_app. tauto. Qed.

(** The runs of a region, for the loops of the view. *)
Definition runs_ok (runs : list (Z * Z)) (n : Z) : Prop := Forall (λ run, 0 <= run.1 ∧ 0 <= run.2 ∧ run.1 + run.2 <= n) runs.
Definition expand_runs (runs : list (Z * Z)) : list Z := runs ≫= λ run, seqZ run.1 run.2.

Lemma length_expand_cons i n runs : 0 <= n → zlen (expand_runs ((i, n) :: runs)) = n + zlen (expand_runs runs).
Proof. intros Hn. unfold expand_runs. rewrite bind_cons, length_app, length_seqZ. simpl. lia. Qed.

Lemma copy_runs_ok d runs L P U : fixed_elements d L → fixed_elements d (P ++ U) → runs_ok runs (zlen L) →
  zlen (expand_runs runs) = zlen U → zlen L * d < u64_modulus → zlen (P ++ U) * d < u64_modulus →
  copy_runs runs d (concat (P ++ U)) (zlen (concat P)) (concat L) = Ok (concat (scatter L (expand_runs runs) U)).
Proof.
  intros HL HPU Hr. revert L P U HL HPU Hr. induction runs as [|[i n] runs IH]; intros L P U HL HPU Hr HU HbL HbU.
  { destruct U; [|done]. done. }
  apply Forall_cons in Hr as [(Hi & Hn & Hin) Hr]. simpl in Hi, Hn, Hin.
  rewrite length_expand_cons in HU by done. pose proof (proj1 HL) as Hd.
  set (U1 := take (Z.to_nat n) U). set (U2 := drop (Z.to_nat n) U).
  assert (U = U1 ++ U2) as HUs by (symmetry; apply take_drop).
  assert (zlen U1 = n) as Hl1 by (unfold U1; rewrite length_take; lia).
  assert (zlen (P ++ U) = zlen P + n + zlen U2) as HlPU by (rewrite HUs, !length_app; lia).
  rewrite HUs in HPU |- *. clearbody U1 U2. pose proof HPU as (HP & HU12)%fixed_app. pose proof HU12 as (HU1 & HU2)%fixed_app.
  pose proof (fixed_elements_length d P HP) as HlP. pose proof (fixed_elements_length d U1 HU1) as HlU1.
  assert (zlen (concat P) + n * d < u64_modulus) as Hb1 by nia.
  assert (i * d + n * d < u64_modulus) as Hb2 by nia.
  cbn [copy_runs]. rewrite (wrap64_small (n * d)) by (unfold is_u64; nia).
  rewrite (wrap64_small (i * d)) by (unfold is_u64; nia). rewrite !(wrap64_small (_ + _)) by (unfold is_u64; nia).
  assert (slice (E:=CodecError) (concat (P ++ U1 ++ U2)) (zlen (concat P)) (zlen (concat P) + n * d) = Ok (concat U1)) as ->.
  { unfold slice. rewrite !concat_app, !length_app. rewrite !(proj2 (Z.leb_le _ _)) by lia. simpl. f_equal.
    rewrite drop_app_length' by lia. by rewrite take_app_length' by lia. }
  cbn [obind]. replace (i * d + n * d) with (i * d + zlen (concat U1)) by lia.
  rewrite copy_element_run by (done || lia). cbn [obind].
  replace (zlen (concat P) + n * d) with (zlen (concat (P ++ U1))) by (rewrite concat_app, length_app; lia).
  rewrite app_assoc in HPU |- *. rewrite IH.
  - f_equal. f_equal. unfold expand_runs at 2. rewrite bind_cons. cbn [fst snd]. rewrite scatter_app; [by rewrite Hl1|].
    rewrite length_seqZ. lia.
  - apply fixed_scatter; [done|done|]. apply Forall_forall. intros z Hz%elem_of_seqZ. lia.
  - done.
  - by rewrite length_scatter.
  - rewrite HUs, length_app in HU. lia.
  - by rewrite length_scatter.
  - rewrite <-app_assoc, <-HUs. done.
Qed.

Lemma fill_runs_ok d runs L fv c : fixed_elements d L → fixed_elements d [fv] → runs_ok runs (zlen L) →
  Forall (λ run, run.2 = c) runs → zlen L * d < u64_modulus →
  fill_runs runs d (repeat_bytes fv c) (concat L) = Ok (concat (scatter L (expand_runs runs) (replicate (length (expand_runs runs)) fv))).
Proof.
  intros HL Hf Hr Hc HbL. revert L HL Hr HbL. induction Hc as [|[i n] runs Hn Hc IH]; intros L HL Hr HbL; [done|].
  simpl in Hn. subst n. apply Forall_cons in Hr as [(Hi & Hn & Hin) Hr]. simpl in Hi, Hn, Hin. pose proof (proj1 HL) as Hd.
  assert (fixed_elements d (replicate (Z.to_nat c) fv)) as HU.
  { split; [done|]. destruct Hf as [_ Hf]. rewrite Forall_singleton in Hf. by apply Forall_replicate. }
  pose proof (fixed_elements_length d _ HU) as HlU. rewrite length_replicate in HlU.
  cbn [fill_runs]. unfold repeat_bytes at 1 2. rewrite (wrap64_small (i * d)) by (unfold is_u64; nia).
  rewrite wrap64_small by (unfold is_u64; nia).
  rewrite copy_element_run by (done || rewrite ?length_replicate; lia). cbn [obind]. rewrite length_replicate, Z2Nat.id by lia.
  rewrite IH.
  - do 2 f_equal. unfold expand_runs at 3 4. rewrite !bind_cons. cbn [fst snd]. rewrite length_app, replicate_add, scatter_app.
    + unfold expand_runs. rewrite length_seqZ. done.
    + by rewrite length_replicate.
  - apply fixed_scatter; [done|done|]. apply Forall_forall. intros z Hz%elem_of_seqZ. lia.
  - by rewrite length_scatter.
  - by rewrite length_scatter.
Qed.

Lemma inbounds_shape_ok s ash : region_wf s → in_array s ash → inbounds_shape s ash = true.
Proof.
  intros [[Hl Hwf] _] [Ha Hin]. unfold inbounds_shape. rewrite !(proj2 (Nat.eqb_eq _ _)) by lia. simpl.
  apply zip_all3_true; [lia|lia|]. intros j Hj. specialize (Hin j ltac:(lia)).
  rewrite (subset_wf_wrap s) by (done || lia). apply Z.leb_le. lia.
Qed.

(** A view of an accepted region. *)
Lemma view_new_ok d L s ash : region_ok s ash → fixed_elements d L → zlen L = Zprod ash → Zprod ash * d < u64_modulus →
  ∃ view, view_new (concat L) d ash s = Ok view ∧ view_data_type_size view = d ∧ view_shape view = ash ∧ view_subset view = s ∧
    bytes_in_subset_len view = Zprod (shape s) * d ∧ runs_ok (view_runs view) (Zprod ash) ∧
    Forall (λ run, run.2 = view_contiguous_elements view) (view_runs view) ∧ expand_runs (view_runs view) = positions s ash.
Proof.
  intros Hok HL Hlen Hb. pose proof Hok as (Hs & Ha & Hne & Hash). pose proof (proj1 HL) as Hd.
  destruct (contiguous_linearised_indices_ok s ash Hok) as (ci & runs & Hci & Hruns & Hc & Hpos & Hexp).
  pose proof (fixed_elements_length d L HL) as Hcl. pose proof (region_product s ash Hs Ha) as Hp.
  unfold view_new. rewrite inbounds_shape_ok by done. simpl. rewrite product64_wf by done.
  pose proof (Zprod_nonneg _ (proj1 Hash)). rewrite (wrap64_small (Zprod ash * d)) by (unfold is_u64; nia).
  rewrite (proj2 (Z.eqb_eq _ _)) by lia. simpl. rewrite Hci. simpl. rewrite Hruns. simpl.
  eexists. split; [done|]. simpl. split_and!; try done.
  - unfold num_elements_usize, num_elements. rewrite product64_wf by apply Hs. apply wrap64_small. unfold is_u64. nia.
  - pose proof (positions_bound s ash Hs Ha) as Hpb. rewrite <-Hexp in Hpb. rewrite Forall_forall in Hpb.
    rewrite Forall_forall in Hc. apply Forall_forall. intros [i n] Hin. specialize (Hc _ Hin). simpl in Hc |- *. subst n.
    assert (∀ z, i <= z < i + contiguous_elements ci → 0 <= z < Zprod ash) as Hz.
    { intros z Hz. apply Hpb. apply list_elem_of_bind. exists (i, contiguous_elements ci).
      split; [|done]. simpl. apply elem_of_seqZ. lia. }
    pose proof (Hz i ltac:(lia)). pose proof (Hz (i + contiguous_elements ci - 1) ltac:(lia)). lia.
Qed.

Lemma update_fixed_ok d L U s ash : region_ok s ash → fixed_elements d L → fixed_elements d U → zlen L = Zprod ash →
  zlen U = Zprod (shape s) → Zprod ash * d < u64_modulus →
  update_fixed (concat L) ash s (concat U) d = Ok (concat (scatter L (positions s ash) U)).
Proof.
  intros Hok HL HU HlL HlU Hb. destruct (view_new_ok d L s ash Hok HL HlL Hb) as (view & Hv & Hd & _ & _ & Hbs & Hr & _ & Hexp).
  pose proof (fixed_elements_length d U HU) as Hcu. pose proof (region_product s ash (proj1 Hok) (proj1 (proj2 Hok))) as Hp.
  pose proof (proj1 HL). unfold update_fixed, view_copy_from_slice. rewrite Hv. simpl. rewrite Hbs, Hd.
  rewrite (proj2 (Z.eqb_eq _ _)) by lia. simpl.
  rewrite <-Hexp. apply (copy_runs_ok d (view_runs view) L [] U); [done|done|by rewrite HlL| |lia|simpl; nia].
  rewrite Hexp, length_positions; [done|]. apply Hok.
Qed.

Lemma view_fill_ok d L fv s ash : region_ok s ash → fixed_elements d L → zlen fv = d → zlen L = Zprod ash →
  Zprod ash * d < u64_modulus →
  (let? view := view_new (concat L) d ash s in view_fill view (concat L) fv) =
  Ok (concat (scatter L (positions s ash) (replicate (length (positions s ash)) fv))).
Proof.
  intros Hok HL Hfv HlL Hb. destruct (view_new_ok d L s ash Hok HL HlL Hb) as (view & Hv & Hd & _ & _ & _ & Hr & Hc & Hexp).
  pose proof (proj1 HL). rewrite Hv. simpl. unfold view_fill. rewrite Hd. rewrite (proj2 (Z.eqb_eq _ _)) by done. simpl.
  rewrite fill_runs_ok; [by rewrite Hexp|done| |by rewrite HlL|done|lia].
  split; [done|]. constructor; [lia|constructor].
Qed.

(** *** Writing variable-length elements *)

(** The value of a position after a region has been written. *)
Lemma lookup_positions s ash ix : region_ok s ash → in_subset s ix →
  let r := lin (zip_with Z.sub ix (start s)) (shape s) in
  index_in (zip_with Z.sub ix (start s)) (shape s) ∧ positions s ash !! Z.to_nat r = Some (lin ix ash).
Proof.
  intros (Hs & Ha & Hne & Hash) Hin. pose proof Hs as [[Hl Hwf] [Hnn Hp]]. destruct Hin as [Hlen Hin].
  assert (index_in (zip_with Z.sub ix (start s)) (shape s)) as Hr.
  { apply Forall2_total; rewrite length_zip_with; split; [lia|]. intros j Hj. rewrite zip_with_total by lia.
    specialize (Hin j ltac:(lia)). lia. }
  split; [done|]. pose proof (lin_bound _ _ Hr) as Hb. unfold positions, lin_elements. rewrite box_delin by (done || lia).
  rewrite list_fmap_fmap, list_lookup_fmap. unfold seqZ at 1. rewrite list_lookup_fmap, lookup_seq_lt by lia. simpl.
  rewrite Z.add_0_r, Z2Nat.id, delin_lin by (done || lia). do 2 f_equal.
  apply list_eq_total; rewrite !length_zip_with; [lia|]. intros j Hj.
  rewrite !zip_with_total by (rewrite ?length_zip_with; lia). lia.
Qed.

Lemma scatter_position {A} `{!Inhabited A} s ash (L U : list A) k : region_ok s ash → zlen L = Zprod ash → zlen U = Zprod (shape s) →
  0 <= k < Zprod ash → length ash = length (start s) →
  scatter L (positions s ash) U !!! Z.to_nat k =
    if contains s (delin k ash) then U !!! Z.to_nat (lin (zip_with Z.sub (delin k ash) (start s)) (shape s))
    else L !!! Z.to_nat k.
Proof.
  intros Hok HL HU Hk Hlen. pose proof Hok as (Hs & Ha & Hne & Hash).
  assert (Forall (λ d, 0 < d) ash) as Hpos by (apply Zprod_pos_Forall; [apply Hash|lia]).
  assert (length (delin k ash) = length (start s)) as Hdl by (rewrite length_delin; lia).
  pose proof (positions_bound s ash Hs Ha) as Hpb.
  destruct (contains s (delin k ash)) eqn:Ec.
  - apply contains_iff in Ec; [|apply Hs|done]. destruct (lookup_positions s ash _ Hok Ec) as [Hr Hpk].
    rewrite lin_delin in Hpk by done. pose proof (lin_bound _ _ Hr) as Hb.
    destruct (lookup_lt_is_Some_2 U (Z.to_nat (lin (zip_with Z.sub (delin k ash) (start s)) (shape s))) ltac:(lia)) as [u Hu].
    rewrite (list_lookup_total_correct _ _ _ Hu). apply list_lookup_total_correct.
    eapply lookup_scatter; [|by apply NoDup_positions|exact Hpk|done]. by rewrite HL.
  - rewrite !list_lookup_total_alt. f_equal. apply lookup_scatter_ne.
    + eapply Forall_impl; [exact Hpb|]. simpl. lia.
    + rewrite Z2Nat.id by lia. unfold positions, lin_elements. intros (ix & Hlin & Hix)%list_elem_of_fmap.
      assert (delin k ash = ix) as Heq by (rewrite Hlin; apply delin_lin; by apply (box_index_in s)).
      apply elem_of_box in Hix; [|pose proof (proj1 (proj1 Hs)); lia].
      assert (contains s (delin k ash) = true) as Hct; [|congruence].
      apply contains_iff; [apply Hs|done|]. rewrite Heq. by destruct s.
Qed.

Lemma update_vlen_loop_ok vL vU L U s ash a m P : region_ok s ash → vlen_elements vL L → vlen_elements vU U →
  zlen L = Zprod ash → zlen U = Zprod (shape s) → 0 <= a → 0 <= m → a + m <= Zprod ash → length ash = length (start s) →
  update_vlen_loop vL vU s a ((λ k, delin k ash) <$> seqZ a m) (concat P) (offset_of P <$> seq 0 (length P)) =
  Ok (pack (P ++ ((λ k, scatter L (positions s ash) U !!! Z.to_nat k) <$> seqZ a m))).
Proof.
  intros Hok HvL HvU HL HU Ha Hm Ham Hlen. pose proof Hok as (Hs & Hin & Hne & Hash).
  pose proof (region_product s ash Hs Hin) as Hrp. remember (Z.to_nat m) as n eqn:En.
  revert a m P En Ha Hm Ham. induction n as [|n IH]; intros a m P En Ha Hm Ham.
  { assert (m = 0) as -> by lia. simpl. by rewrite app_nil_r, pack_snoc_offsets. }
  rewrite seqZ_cons by lia. rewrite !fmap_cons. cbn [update_vlen_loop].
  rewrite (scatter_position s ash L U a) by (done || lia).
  assert (∀ e, update_vlen_loop vL vU s (a +w 1) ((λ k, delin k ash) <$> seqZ (Z.succ a) (Z.pred m)) (concat P ++ e)
      ((offset_of P <$> seq 0 (length P)) ++ [zlen (concat P)]) =
    Ok (pack (P ++ e :: ((λ k, scatter L (positions s ash) U !!! Z.to_nat k) <$> seqZ (Z.succ a) (Z.pred m))))) as Hstep.
  { intros e. rewrite wrap64_small by (unfold is_u64; pose proof (proj2 Hash); lia). rewrite (offsets_snoc P e).
    replace (concat P ++ e) with (concat (P ++ [e])) by (rewrite concat_app; simpl; by rewrite app_nil_r).
    replace (a + 1) with (Z.succ a) by lia. rewrite IH by lia. by rewrite <-app_assoc. }
  destruct (contains s (delin a ash)) eqn:Ec.
  - apply contains_iff in Ec; [|apply Hs|rewrite length_delin; lia].
    destruct (lookup_positions s ash _ Hok Ec) as [Hr _]. pose proof (lin_bound _ _ Hr) as Hb.
    assert (zip_with (λ i s, i -w s) (delin a ash) (start s) = zip_with Z.sub (delin a ash) (start s)) as ->.
    { destruct Ec as [Hl Hi]. destruct (proj1 Hs) as [Hsl Hwf]. apply list_eq_total; rewrite !length_zip_with; [done|]. intros j Hj.
      rewrite !zip_with_total by lia. specialize (Hi j ltac:(lia)). specialize (Hwf j ltac:(lia)).
      apply wrap64_small. unfold is_u64. lia. }
    rewrite ravel_indices_lin; [|done|apply Hs]. cbn [expect obind].
    destruct (vlen_element_at (E:=IndexerError) vU U _ HvU ltac:(rewrite HU; exact Hb)) as (x & y & -> & -> & Hsl & _).
    { pose proof (proj2 Hash). lia. }
    cbn [obind]. rewrite Hsl. cbn [obind]. apply Hstep.
  - destruct (vlen_element_at (E:=IndexerError) vL L a HvL) as (x & y & -> & -> & Hsl & _); [lia|pose proof (proj2 Hash); lia|].
    cbn [obind]. rewrite Hsl. cbn [obind]. apply Hstep.
Qed.

(** The whole array as a region. *)
Lemma whole_region ash : shape_wf ash → 0 < Zprod ash → region_wf (new_with_shape ash).
Proof.
  intros [Hnn Hp] Hpos. pose proof (Zprod_pos_Forall ash Hnn Hpos) as Hd.
  assert (∀ j, (j < length ash)%nat → ash !!! j <= Zprod ash) as Hle.
  { clear Hnn Hp Hpos. induction Hd as [|d ash Hd0 Hd IH]; intros j Hj; simpl in Hj; [lia|]. rewrite Zprod_cons.
    pose proof (Zprod_pos ash Hd). destruct j as [|j]; simpl; [nia|]. specialize (IH j ltac:(lia)). nia. }
  split; [split|split; [exact Hnn|exact Hp]]; simpl.
  - by rewrite length_replicate.
  - rewrite length_replicate. intros j Hj. rewrite lookup_total_replicate_2 by done.
    pose proof (proj1 (Forall_total _ _) Hnn j Hj) as H0. specialize (Hle j Hj). simpl in H0. lia.
Qed.

(** Draining the iterator of a subset enumerates it. *)
Lemma drain_indices s : region_wf s →
  drain (λ it, Ok (Indices_next it)) (Indices_new s) (Zprod (shape s)) = Ok (box (start s) (shape s)).
Proof.
  intros Hs. destruct (Indices_new_spec _ Hs) as [Hi He].
  unfold drain. rewrite (iter_collect_spec _ elements indices_inv); [by rewrite He| |done|].
  - intros it Hit. pose proof (Indices_next_spec it Hit) as Hn.
    destruct (elements it); [rewrite Hn; eauto|]. destruct Hn as (it2 & -> & ? & ? & _). eauto.
  - rewrite He. pose proof (length_region _ Hs). lia.
Qed.

Lemma all_indices_ok ash : shape_wf ash → 0 < Zprod ash →
  drain (λ it, Ok (Indices_next it)) (Indices_new (new_with_shape ash)) (Zprod ash) =
  Ok ((λ k, delin k ash) <$> seqZ 0 (Zprod ash)).
Proof.
  intros Hash Hpos. pose proof (drain_indices _ (whole_region ash Hash Hpos)) as Hd. cbn [shape new_with_shape] in Hd.
  rewrite Hd. cbn [start new_with_shape]. f_equal. rewrite box_delin by (apply length_replicate || apply Hash).
  apply list_fmap_ext_in. intros k _. apply list_eq_total; rewrite length_zip_with, length_delin, length_replicate; [lia|].
  intros j Hj. rewrite zip_with_total by (rewrite ?length_delin, ?length_replicate; lia).
  rewrite lookup_total_replicate_2 by lia. lia.
Qed.

Lemma Zsum_submseteq l k : l ⊆+ k → Forall (λ z, 0 <= z) k → Zsum l <= Zsum k.
Proof.
  intros (m & Hm)%submseteq_Permutation Hk.
  assert (∀ a b, a ≡ₚ b → Zsum a = Zsum b) as HP.
  { induction 1; rewrite ?Zsum_cons in *; try lia. }
  rewrite (HP _ _ Hm), Zsum_app. pose proof (Zsum_nonneg m) as Hn. rewrite Hm, Forall_app in Hk. specialize (Hn (proj2 Hk)). lia.
Qed.

Lemma Zsum_lengths {A} (L : list (list A)) : Zsum ((λ e, zlen e) <$> L) = zlen (concat L).
Proof. induction L as [|e L IH]; [done|]. rewrite fmap_cons, Zsum_cons, IH. simpl. rewrite length_app. lia. Qed.

Lemma slice_Ok {E A} (b : list A) x y e : slice (E:=E) b x y = Ok e → 0 <= x <= y ∧ y <= zlen b ∧ zlen e = y - x.
Proof.
  unfold slice. destruct (Z.leb_spec x y), (Z.leb_spec y (zlen b)), (Z.leb_spec 0 x); try done.
  intros [= <-]. rewrite length_take, length_drop. lia.
Qed.

(** The elements fit in the bytes. *)
Lemma vlen_total v L : vlen_elements v L → zlen (concat L) <= zlen (vl_bytes v).
Proof.
  intros [Hl Hv]. assert (∀ k, (k <= length L)%nat → ∃ x y, vl_offsets v !! 0%nat = Some x ∧ vl_offsets v !! k = Some y ∧
    zlen (concat (take k L)) = y - x ∧ (k = 0%nat ∨ (0 <= x ∧ y <= zlen (vl_bytes v)))) as H.
  { induction k as [|k IH]; intros Hk.
    - destruct (lookup_lt_is_Some_2 (vl_offsets v) 0) as [x Hx]; [lia|]. exists x, x. split_and!; [done|done|simpl; lia|by left].
    - destruct IH as (x & y & Hx & Hy & Ht & Hb); [lia|]. destruct (lookup_lt_is_Some_2 L k) as [e He]; [lia|].
      destruct (Hv k e He) as (y' & z & Hy' & Hz & Hs). assert (y' = y) as -> by congruence.
      specialize (Hs unit). apply slice_Ok in Hs.
      exists x, z. split_and!; [done|done| |].
      + rewrite (take_S_r _ _ _ He), concat_app, length_app. simpl. rewrite app_nil_r. lia.
      + right. assert (0 <= x); [|lia]. destruct Hb as [->|[? _]]; [|done]. assert (x = y) as -> by congruence. lia. }
  destruct (H (length L) ltac:(lia)) as (x & y & Hx & Hy & Ht & Hb). rewrite firstn_all in Ht.
  destruct Hb as [Hz|Hb]; [|lia]. destruct L; [|done]. simpl. lia.
Qed.

Lemma element_sizes_ok v L idxs : vlen_elements v L → zlen L < u64_modulus → zlen (vl_bytes v) < u64_modulus →
  Forall (λ i, 0 <= i < zlen L) idxs →
  element_sizes (vl_offsets v) idxs = Ok ((λ e, zlen e) <$> select L idxs).
Proof.
  intros Hv HL Hb Hi. unfold element_sizes. rewrite (list_fmap_ext_in _ (λ i, Ok (zlen (L !!! Z.to_nat i)))).
  - rewrite <-(list_fmap_fmap Ok), collect_res_Ok. unfold select. by rewrite list_fmap_fmap.
  - intros i Hin. rewrite Forall_forall in Hi. specialize (Hi i Hin).
    destruct (vlen_element_at (E:=IndexerError) v L i Hv Hi HL) as (x & y & -> & -> & Hs & _). cbn [obind].
    apply slice_Ok in Hs as (? & ? & Hz). rewrite wrap64_small by (unfold is_u64; lia). by rewrite Hz.
Qed.

Lemma window_sizes_ok v L : vlen_elements v L → zlen (vl_bytes v) < u64_modulus →
  zip_with (λ curr next, next -w curr) (vl_offsets v) (drop 1 (vl_offsets v)) = (λ e, zlen e) <$> L.
Proof.
  intros [Hl Hv] Hb. apply list_eq. intros k. rewrite lookup_zip_with, list_lookup_fmap, lookup_drop. simpl.
  destruct (L !! k) as [e|] eqn:He; simpl.
  - destruct (Hv k e He) as (x & y & -> & -> & Hs). simpl. specialize (Hs unit). apply slice_Ok in Hs.
    rewrite wrap64_small by (unfold is_u64; lia). f_equal. lia.
  - apply lookup_ge_None in He. rewrite (lookup_ge_None_2 (vl_offsets v) (S k)) by lia. by destruct (vl_offsets v !! k).
Qed.

Lemma select_submseteq {A} `{!Inhabited A} (L : list A) idxs : NoDup idxs → Forall (λ i, 0 <= i < zlen L) idxs → select L idxs ⊆+ L.
Proof.
  intros Hn Hi. assert (L = select L (seqZ 0 (zlen L))) as Heq.
  { unfold select. apply list_eq_total; [rewrite length_fmap, length_seqZ; lia|]. intros j Hj. symmetry.
    rewrite fmap_total by (rewrite length_seqZ; lia). f_equal.
    rewrite (list_lookup_total_correct _ _ (Z.of_nat j)); [lia|]. rewrite lookup_seqZ. lia. }
  rewrite Heq at 2. unfold select. apply fmap_submseteq, NoDup_submseteq; [done|]. intros i Hin.
  rewrite Forall_forall in Hi. apply elem_of_seqZ. specialize (Hi i Hin). lia.
Qed.

Lemma concat_insert_le {A} (L : list (list A)) k e : zlen (concat (<[k := e]> L)) <= zlen (concat L) + zlen e.
Proof.
  revert k. induction L as [|x L IH]; intros [|k]; simpl; rewrite ?length_app; [lia|lia|lia|].
  specialize (IH k). lia.
Qed.

(** Writing adds at most what is written. *)
Lemma concat_scatter_le {A} (L : list (list A)) idxs U : zlen (concat (scatter L idxs U)) <= zlen (concat L) + zlen (concat U).
Proof.
  revert L U. induction idxs as [|i idxs IH]; intros L [|u U]; try (unfold scatter; simpl; lia).
  rewrite scatter_cons. specialize (IH (<[Z.to_nat i:=u]> L) U). pose proof (concat_insert_le L (Z.to_nat i) u).
  simpl. rewrite length_app. lia.
Qed.

Lemma update_vlen_ok vL vU L U s ash : region_ok s ash → vlen_elements vL L → vlen_elements vU U →
  zlen L = Zprod ash → zlen U = Zprod (shape s) → zlen (vl_bytes vL) + zlen (vl_bytes vU) < u64_modulus →
  update_bytes_vlen_array_subset vL ash vU s = Ok (pack (scatter L (positions s ash) U)).
Proof.
  intros Hok HvL HvU HL HU Hb. pose proof Hok as (Hs & Ha & Hne & Hash).
  pose proof (region_product s ash Hs Ha) as Hrp. pose proof (proj2 Hash) as Hbash.
  pose proof (positions_bound s ash Hs Ha) as Hpb. rewrite <-HL in Hpb.
  assert (length ash = length (start s)) as Hlen by apply Ha.
  assert (0 < Zprod ash) as Hpos.
  { destruct (proj1 (in_subset_nonempty_iff s (proj1 Hs)) Hne) as [ix Hix].
    pose proof (lin_bound ix ash (in_array_index_in s ash ix (proj1 Hs) Ha Hix)). lia. }
  unfold update_bytes_vlen_array_subset. rewrite inbounds_shape_ok by done. simpl.
  rewrite window_sizes_ok with (L := U) by (done || lia). rewrite linearised_indices_ok by done. simpl.
  rewrite element_sizes_ok with (L := L) by (done || lia). simpl.
  pose proof (vlen_total vL L HvL) as HtL. pose proof (vlen_total vU U HvU) as HtU.
  assert (0 <= Zsum ((λ e, zlen e) <$> select L (positions s ash)) <= zlen (concat L)) as Hold.
  { split; [apply Zsum_nonneg, Forall_fmap, Forall_true; simpl; lia|]. rewrite <-Zsum_lengths.
    apply Zsum_submseteq; [|apply Forall_fmap, Forall_true; simpl; lia].
    apply fmap_submseteq, select_submseteq; [by apply NoDup_positions|done]. }
  rewrite !sum64_wrap, Zsum_lengths. rewrite (wrap64_small (zlen (concat U))) by (unfold is_u64; lia).
  rewrite (wrap64_small (Zsum _)) by (unfold is_u64; lia). rewrite wrap64_small by (unfold is_u64; lia).
  unfold checked_sub. rewrite (proj2 (Z.leb_le _ _)) by lia. simpl.
  rewrite all_indices_ok by done. cbn [obind].
  pose proof (update_vlen_loop_ok vL vU L U s ash 0 (Zprod ash) [] Hok HvL HvU HL HU) as Hloop. simpl in Hloop.
  rewrite Hloop by (done || lia). do 2 f_equal.
  apply list_eq_total; rewrite length_fmap, length_seqZ, ?length_scatter; [lia|]. intros j Hj.
  rewrite fmap_total by (rewrite length_seqZ; lia). f_equal.
  rewrite (list_lookup_total_correct _ _ (Z.of_nat j)); [lia|]. rewrite lookup_seqZ. lia.
Qed.

(** ** Properties

    The elements of an array: byte strings, with a mask byte for each optional layer. *)
Inductive cell := Cell (value : bytes) | Masked (inner : cell) (mask : Z).

#[export] Instance cell_inhabited : Inhabited cell := populate (Cell []).

(** Some array bytes hold given elements of a data type, and fit in memory. *)
Fixpoint represents (b : ArrayBytes) (data_type : DataType) (E : list cell) : Prop :=
  match b, data_type with
  | FixedBytes b, PlainType (FixedSize d) => ∃ L, E = Cell <$> L ∧ b = concat L ∧ fixed_elements d L ∧ zlen L * d < 2 ^ 63
  | VariableBytes v, PlainType VariableSize => ∃ L, E = Cell <$> L ∧ vlen_elements v L ∧ zlen L < 2 ^ 63 ∧ zlen (vl_bytes v) < 2 ^ 63
  | OptionalBytes data mask, OptionalType inner =>
      ∃ D, represents data inner D ∧ E = zip_with Masked D mask ∧ length mask = length D ∧ zlen mask < 2 ^ 63
  | _, _ => False
  end.

Lemma select_fmap {A B} `{!Inhabited A, !Inhabited B} (f : A → B) L idxs : Forall (λ i, 0 <= i < zlen L) idxs →
  select (f <$> L) idxs = f <$> select L idxs.
Proof.
  intros H. unfold select. rewrite list_fmap_fmap. apply list_fmap_ext_in. intros i Hi. rewrite Forall_forall in H.
  specialize (H i Hi). by rewrite fmap_total by lia.
Qed.

Lemma select_zip {A B C} `{!Inhabited A, !Inhabited B, !Inhabited C} (f : A → B → C) L K idxs : length K = length L →
  Forall (λ i, 0 <= i < zlen L) idxs → select (zip_with f L K) idxs = zip_with f (select L idxs) (select K idxs).
Proof.
  intros Hl H. unfold select. rewrite zip_with_fmap_l, zip_with_fmap_r, zip_with_diag.
  apply list_fmap_ext_in. intros i Hi. rewrite Forall_forall in H. specialize (H i Hi). by rewrite zip_with_total by lia.
Qed.

Lemma length_select {A} `{!Inhabited A} (L : list A) idxs : length (select L idxs) = length idxs.
Proof. apply length_fmap. Qed.

Lemma scatter_fmap {A B} (f : A → B) L idxs U : scatter (f <$> L) idxs (f <$> U) = f <$> scatter L idxs U.
Proof.
  revert L U. induction idxs as [|i idxs IH]; intros L [|u U]; try done. rewrite fmap_cons, !scatter_cons, <-IH.
  by rewrite list_fmap_insert.
Qed.

Lemma scatter_zip {A B C} (f : A → B → C) L K idxs U V : length K = length L → length U = length V →
  scatter (zip_with f L K) idxs (zip_with f U V) = zip_with f (scatter L idxs U) (scatter K idxs V).
Proof.
  revert L K U V. induction idxs as [|i idxs IH]; intros L K [|u U] [|v V] Hl Hu; simpl in Hu; try done.
  simpl. rewrite !scatter_cons, <-IH; [|by rewrite !length_insert|lia]. f_equal.
  by rewrite insert_zip_with.
Qed.

(** Bytes as elements of one byte: the masks. *)
Definition singletons (b : bytes) : list bytes := (λ z, [z]) <$> b.

Lemma concat_singletons b : concat (singletons b) = b.
Proof. induction b as [|z b IH]; [done|]. unfold singletons in *. rewrite fmap_cons. simpl. by rewrite IH. Qed.

Lemma fixed_singletons b : fixed_elements 1 (singletons b).
Proof. split; [lia|]. apply Forall_fmap, Forall_true. done. Qed.

(** Variable-length bytes without gaps. *)
Fixpoint packed (b : ArrayBytes) : Prop :=
  match b with
  | FixedBytes _ => True
  | VariableBytes v => ∃ L, v = pack L
  | OptionalBytes data _ => packed data
  end.

Lemma represents_length b dt E : represents b dt E → zlen E < 2 ^ 63.
Proof.
  revert dt E. induction b as [b|v|data IH mask]; intros [[d|]|inner] E; simpl; try done.
  - intros (L & -> & _ & [Hd _] & Hb). rewrite length_fmap. nia.
  - intros (L & -> & _ & Hb & _). by rewrite length_fmap.
  - intros (D & HD & -> & Hl & Hb). rewrite length_zip_with. lia.
Qed.

Lemma extract_represents b dt E s ash : region_ok s ash → represents b dt E → zlen E = Zprod ash →
  ∃ out, extract_array_subset b s ash dt = Ok out ∧ represents out dt (select E (positions s ash)) ∧ packed out ∧
    array_bytes_size out <= array_bytes_size b.
Proof.
  intros Hok. pose proof Hok as (Hs & Ha & _ & Hash). pose proof (region_product s ash Hs Ha) as Hrp.
  pose proof (positions_bound s ash Hs Ha) as Hpb. pose proof (length_positions s ash Hs) as Hpl.
  revert dt E. induction b as [b|v|data IH mask]; intros [[d|]|inner] E; cbn [represents]; try done.
  - intros (L & -> & -> & HL & Hb) HE. rewrite length_fmap in HE. rewrite <-HE in Hpb. cbn [extract_array_subset fixed_size data_type_size expect obind].
    unfold fixed_size. simpl. rewrite extract_fixed_ok by (done || (unfold u64_modulus; nia)). simpl. eexists. split; [done|]. split.
    + exists (select L (positions s ash)). split_and!; [by rewrite select_fmap|done|by apply fixed_select|].
      rewrite length_select, Hpl. destruct HL. nia.
    + split; [done|]. simpl. rewrite !(fixed_elements_length d) by (done || by apply fixed_select). rewrite length_select, Hpl. destruct HL. nia.
  - intros (L & -> & Hv & Hb1 & Hb2) HE. rewrite length_fmap in HE. rewrite <-HE in Hpb. cbn [extract_array_subset].
    rewrite linearised_indices_ok by done. simpl.
    pose proof (extract_vlen_loop_ok v L (positions s ash) [] Hv) as Hx. simpl in Hx.
    rewrite Hx by (done || (unfold u64_modulus; lia)). simpl.
    assert (zlen (concat (select L (positions s ash))) <= zlen (vl_bytes v)) as Hsz.
    { etrans; [|by apply (vlen_total v L)]. rewrite <-!Zsum_lengths.
      apply Zsum_submseteq; [|apply Forall_fmap, Forall_true; simpl; lia].
      apply fmap_submseteq, select_submseteq; [by apply NoDup_positions|done]. }
    eexists. split; [done|]. split; [|split; [by eexists|done]]. exists (select L (positions s ash)).
    split_and!; [by rewrite select_fmap|apply pack_elements|rewrite length_select; lia|simpl; lia].
  - intros (D & HD & -> & Hl & Hm) HE. rewrite length_zip_with in HE.
    destruct (IH inner D HD) as (out & Hout & Hr & Hpk & Hsz); [lia|]. cbn [extract_array_subset]. rewrite Hout. cbn [obind].
    pose proof (extract_fixed_ok 1 (singletons mask) s ash Hok (fixed_singletons mask)) as Hx.
    rewrite concat_singletons in Hx. rewrite Hx by (unfold singletons; rewrite ?length_fmap; pose proof (proj2 Hash); lia). cbn [obind].
    assert (Forall (λ i, 0 <= i < zlen mask) (positions s ash)) as Hpm by (eapply Forall_impl; [exact Hpb|]; simpl; lia).
    assert (Forall (λ i, 0 <= i < zlen D) (positions s ash)) as Hpd by (by rewrite <-Hl).
    eexists. split; [done|]. split; [|done]. exists (select D (positions s ash)). unfold singletons.
    rewrite select_fmap, concat_singletons by done. split_and!; [done|by rewrite select_zip|by rewrite !length_select|].
    rewrite length_select. lia.
Qed.

Lemma update_represents b u dt E U s ash : region_ok s ash → represents b dt E → represents u dt U →
  zlen E = Zprod ash → zlen U = Zprod (shape s) → array_bytes_size b + array_bytes_size u < 2 ^ 63 →
  ∃ out, update_array_bytes b ash s u (data_type_size dt) = Ok out ∧ represents out dt (scatter E (positions s ash) U) ∧ packed out ∧
    array_bytes_size out <= array_bytes_size b + array_bytes_size u.
Proof.
  intros Hok. pose proof Hok as (Hs & Ha & _ & Hash). pose proof (region_product s ash Hs Ha) as Hrp.
  pose proof (positions_bound s ash Hs Ha) as Hpb. pose proof (proj2 Hash) as Hb64.
  assert (Forall (λ i, 0 <= i) (positions s ash)) as Hnn by (eapply Forall_impl; [exact Hpb|]; simpl; lia).
  unfold update_array_bytes. revert u dt E U.
  induction b as [b|v|data IH mask]; intros [b'|v'|data' mask'] [[d|]|inner] E U; cbn [represents]; try done.
  - intros (L & -> & -> & HL & Hb) (K & -> & -> & HK & HbK) HE HU _. rewrite length_fmap in HE, HU. pose proof (proj1 HL).
    cbn [update_array_bytes_array_subset data_type_size]. rewrite update_fixed_ok by (done || (unfold u64_modulus; nia)). simpl.
    eexists. split; [done|]. split.
    { exists (scatter L (positions s ash) K).
      split_and!; [by rewrite scatter_fmap|done|by apply fixed_scatter|by rewrite length_scatter]. }
    split; [done|]. simpl. rewrite !(fixed_elements_length d) by (done || by apply fixed_scatter). rewrite length_scatter. lia.
  - intros (L & -> & Hv & Hb1 & Hb2) (K & -> & HvK & Hb1K & Hb2K) HE HU Hsz. rewrite length_fmap in HE, HU. simpl in Hsz.
    cbn [update_array_bytes_array_subset data_type_size]. rewrite (update_vlen_ok v v' L K) by (done || (unfold u64_modulus; lia)). simpl.
    pose proof (vlen_total v L Hv). pose proof (vlen_total v' K HvK).
    pose proof (concat_scatter_le L (positions s ash) K).
    eexists. split; [done|]. split; [|split; [by eexists|simpl; lia]]. exists (scatter L (positions s ash) K).
    split_and!; [by rewrite scatter_fmap|apply pack_elements|by rewrite length_scatter|simpl; lia].
  - intros (D & HD & -> & Hl & Hm) (D' & HD' & -> & Hl' & Hm') HE HU Hsz. rewrite length_zip_with in HE, HU. simpl in Hsz.
    destruct (IH data' inner D D' HD HD') as (out & Hout & Hr & Hpk & Hle); [lia|lia|done|].
    cbn [update_array_bytes_array_subset data_type_size]. rewrite Hout. cbn [obind].
    pose proof (update_fixed_ok 1 (singletons mask) (singletons mask') s ash Hok (fixed_singletons _) (fixed_singletons _)) as Hx.
    rewrite !concat_singletons in Hx. rewrite Hx by (unfold singletons; rewrite ?length_fmap; lia). cbn [obind].
    unfold singletons. rewrite scatter_fmap. fold (singletons (scatter mask (positions s ash) mask')). rewrite concat_singletons.
    eexists. split; [done|]. split; [|done]. exists (scatter D (positions s ash) D').
    split_and!; [done|by apply scatter_zip|by rewrite !length_scatter|by rewrite length_scatter].
Qed.

Lemma select_scatter {A} `{!Inhabited A} (E : list A) idxs U : NoDup idxs → Forall (λ i, 0 <= i < zlen E) idxs →
  length U = length idxs → select (scatter E idxs U) idxs = U.
Proof.
  intros Hn Hi Hl. apply list_eq_total; [by rewrite length_select|]. rewrite length_select. intros k Hk.
  unfold select. rewrite fmap_total by done.
  destruct (lookup_lt_is_Some_2 idxs k Hk) as [i Hik]. destruct (lookup_lt_is_Some_2 U k ltac:(lia)) as [u Huk].
  rewrite (list_lookup_total_correct _ _ _ Hik), (list_lookup_total_correct _ _ _ Huk).
  apply list_lookup_total_correct. by eapply lookup_scatter.
Qed.

Lemma lookup_select {A} `{!Inhabited A} (E : list A) idxs k i : Forall (λ i, 0 <= i < zlen E) idxs →
  idxs !! k = Some i → select E idxs !! k = E !! Z.to_nat i.
Proof.
  intros Hi Hk. unfold select. rewrite list_lookup_fmap, Hk. simpl.
  pose proof (Forall_lookup_1 _ _ _ _ Hi Hk) as Hb. simpl in Hb. symmetry. apply list_lookup_lookup_total_lt. lia.
Qed.

(** Reading a region of array bytes.  For array bytes of any layout (fixed-length,
    variable-length or optional, nested to any depth) and any non-empty region inside the array, the
    read succeeds and returns array bytes of the same data type whose elements are those of the
    region, in C order; nothing is out of bounds and the result is no larger than the input. *)
Theorem extract_array_subset_spec b dt E s ash : region_ok s ash → represents b dt E → zlen E = Zprod ash →
  ∃ out E', extract_array_subset b s ash dt = Ok out ∧ represents out dt E' ∧ zlen E' = Zprod (shape s) ∧
    (∀ k ix, box (start s) (shape s) !! k = Some ix → E' !! k = E !! Z.to_nat (lin ix ash)) ∧
    array_bytes_size out <= array_bytes_size b.
Proof.
  intros Hok Hr HE. destruct (extract_represents b dt E s ash Hok Hr HE) as (out & Hout & Hro & _ & Hsz).
  pose proof Hok as (Hs & Ha & _). pose proof (positions_bound s ash Hs Ha) as Hpb. rewrite <-HE in Hpb.
  exists out, (select E (positions s ash)). split_and!; [done|done| | |done].
  - rewrite length_select. by apply length_positions.
  - intros k ix Hk. apply lookup_select; [done|]. unfold positions, lin_elements. by rewrite list_lookup_fmap, Hk.
Qed.

(** C37: writing a region of array bytes.  For array bytes of any layout the
    write succeeds, gives the elements of the region their new values and keeps every other
    element, and reading the region back returns the elements written. *)
Theorem update_array_bytes_spec b u dt E U s ash : region_ok s ash → represents b dt E → represents u dt U →
  zlen E = Zprod ash → zlen U = Zprod (shape s) → array_bytes_size b + array_bytes_size u < 2 ^ 63 →
  ∃ out E', update_array_bytes b ash s u (data_type_size dt) = Ok out ∧ represents out dt E' ∧ length E' = length E ∧
    (∀ k ix, box (start s) (shape s) !! k = Some ix → E' !! Z.to_nat (lin ix ash) = U !! k) ∧
    (∀ ix, index_in ix ash → ¬ in_subset s ix → E' !! Z.to_nat (lin ix ash) = E !! Z.to_nat (lin ix ash)) ∧
    (∃ back, extract_array_subset out s ash dt = Ok back ∧ represents back dt U).
Proof.
  intros Hok Hb Hu HE HU Hsz. destruct (update_represents b u dt E U s ash Hok Hb Hu HE HU Hsz) as (out & Hout & Hro & _).
  pose proof Hok as (Hs & Ha & _ & Hash). pose proof (positions_bound s ash Hs Ha) as Hpb.
  pose proof (length_positions s ash Hs) as Hpl. pose proof (proj1 (proj1 Hs)) as Hsl.
  assert (Forall (λ i, 0 <= i < zlen E) (positions s ash)) as HpE by by rewrite HE.
  exists out, (scatter E (positions s ash) U). split_and!; [done|done|by rewrite length_scatter|..].
  - intros k ix Hk. assert (positions s ash !! k = Some (lin ix ash)) as Hpk.
    { unfold positions, lin_elements. by rewrite list_lookup_fmap, Hk. }
    pose proof (lookup_lt_Some _ _ _ Hpk) as Hlt.
    destruct (lookup_lt_is_Some_2 U k ltac:(lia)) as [x Hx]. rewrite Hx.
    eapply lookup_scatter; [done|by apply NoDup_positions|done|done].
  - intros ix Hix Hn. pose proof (lin_bound ix ash Hix). apply lookup_scatter_ne.
    + eapply Forall_impl; [exact Hpb|]. simpl. lia.
    + rewrite Z2Nat.id by lia. unfold positions, lin_elements. intros (jx & Hl & Hj)%list_elem_of_fmap.
      assert (ix = jx) as <- by (eapply lin_inj; [done|by apply (box_index_in s)|done]).
      apply Hn. apply elem_of_box in Hj; [by destruct s|lia].
  - destruct (extract_represents out dt _ s ash Hok Hro) as (back & Hback & Hr & _); [by rewrite length_scatter|].
    exists back. split; [done|]. rewrite select_scatter in Hr; [done|by apply NoDup_positions|done|lia].
Qed.

(** ** Fill values *)

Lemma chunks_exact_concat d L : (0 < d)%nat → Forall (λ e, length e = d) L → chunks_exact d (concat L) = L.
Proof.
  intros Hd HL. unfold chunks_exact. rewrite (length_concat_const d) by done. rewrite Nat.div_mul by lia.
  apply list_eq_total; [by rewrite length_fmap, length_seq|]. rewrite length_fmap, length_seq. intros i Hi.
  rewrite fmap_total by (rewrite length_seq; lia). rewrite (drop_concat_const d) by done.
  rewrite (list_lookup_total_correct _ _ i) by (rewrite lookup_seq_lt by lia; done).
  destruct (lookup_lt_is_Some_2 L i Hi) as [e He]. rewrite (drop_S _ _ _ He). simpl.
  rewrite take_app_length' by (symmetry; exact (Forall_lookup_1 _ _ _ _ HL He)). symmetry. by apply list_lookup_total_correct.
Qed.

Lemma concat_chunks_exact d b : (0 < d)%nat → (length b mod d = 0)%nat → concat (chunks_exact d b) = b ∧
  Forall (λ e, length e = d) (chunks_exact d b) ∧ length (chunks_exact d b) = (length b / d)%nat.
Proof.
  intros Hd Hm. unfold chunks_exact. assert (length b = d * (length b / d))%nat as Hlen.
  { pose proof (Nat.div_mod_eq (length b) d). lia. }
  remember (length b / d)%nat as n eqn:En. clear En Hm. split_and!; [..|by rewrite length_fmap, length_seq].
  - revert b Hlen. induction n as [|n IH]; intros b Hlen; [destruct b; [done|simpl in Hlen; lia]|].
    cbn [seq fmap list_fmap concat]. rewrite Nat.mul_0_l, drop_0, <-fmap_S_seq, <-list_fmap_compose.
    transitivity (take d b ++ drop d b); [f_equal|apply take_drop].
    etrans; [|apply IH; rewrite length_drop; lia]. f_equal.
    apply list_fmap_ext_in. intros i _. simpl. by rewrite drop_drop.
  - apply Forall_fmap, Forall_forall. intros i Hi%elem_of_seq. simpl. rewrite length_take, length_drop. nia.
Qed.

(** Bytes equal to a fill value are a positive number of its copies. *)
Lemma equals_all_spec fv b : fv ≠ [] → equals_all fv b = true ↔ ∃ n, (0 < n)%nat ∧ b = concat (replicate n fv).
Proof.
  intros Hne. assert (0 < length fv)%nat as Hd by (destruct fv; simpl; [done|lia]). unfold equals_all, is_multiple_of.
  rewrite (proj2 (Z.eqb_neq (zlen fv) 0)) by lia. rewrite decide_False by done. split.
  - destruct (negb _ || _) eqn:E; [done|]. apply orb_false_iff in E as [Em%negb_false_iff%Z.eqb_eq El%Z.ltb_ge].
    rewrite <-Nat2Z.inj_mod in Em. destruct (concat_chunks_exact (length fv) b Hd) as (Hc & _ & Hl); [lia|].
    intros Hall. rewrite <-Is_true_true, forallb_True in Hall.
    exists (length (chunks_exact (length fv) b)). split.
    + rewrite Hl. apply Nat.div_str_pos. lia.
    + rewrite <-Hc at 1. f_equal. symmetry. apply replicate_as_elem_of. split; [done|]. intros x Hx.
      rewrite Forall_forall in Hall. specialize (Hall x Hx). by apply bool_decide_unpack in Hall.
  - intros (n & Hn & ->). assert (Forall (λ e, length e = length fv) (replicate n fv)) as HF by by apply Forall_replicate.
    rewrite (length_concat_const (length fv)), length_replicate by done.
    rewrite Nat2Z.inj_mul, Z.mod_mul by lia. rewrite (proj2 (Z.ltb_ge _ _)) by nia. simpl.
    rewrite chunks_exact_concat by done. apply Is_true_true, forallb_True, Forall_replicate. by apply bool_decide_pack.
Qed.

(** Fill values.  New array bytes of a fill value hold that many copies of it and are
    recognised as the fill value (when there is at least one).  Fixed-length array bytes are
    recognised exactly when every element is the fill value.  Variable-length array bytes are recognised when
    their bytes, not their elements, are copies of the fill value: every array of
    fill values is, but so is one whose elements only concatenate to it. *)
Theorem is_fill_value_spec fv n :
  fv ≠ [] → 0 < n → n * zlen fv < 2 ^ 63 →
  (∃ b, new_fill_value (PlainType (FixedSize (zlen fv))) n fv = Ok b ∧ is_fill_value b fv = true ∧
     represents b (PlainType (FixedSize (zlen fv))) (replicate (Z.to_nat n) (Cell fv))) ∧
  (∃ b, new_fill_value (PlainType VariableSize) n fv = Ok b ∧ is_fill_value b fv = true ∧
     represents b (PlainType VariableSize) (replicate (Z.to_nat n) (Cell fv))) ∧
  (∀ b E, represents b (PlainType (FixedSize (zlen fv))) E → E ≠ [] →
     is_fill_value b fv = true ↔ Forall (λ e, e = Cell fv) E) ∧
  (∀ L, L ≠ [] → Forall (λ e, e = fv) L → is_fill_value (VariableBytes (pack L)) fv = true) ∧
  (is_fill_value (VariableBytes (pack [fv ++ fv; []])) fv = true ∧
     represents (VariableBytes (pack [[97; 97]; []])) (PlainType VariableSize) [Cell [97; 97]; Cell []]).
Proof.
  intros Hne Hn Hb. assert (0 < zlen fv) as Hd by (destruct fv; simpl; [done|lia]).
  assert (Forall (λ e, length e = Z.to_nat (zlen fv)) (replicate (Z.to_nat n) fv)) as HF by (apply Forall_replicate; lia).
  assert (∀ L, L ≠ [] → Forall (λ e, e = fv) L → equals_all fv (concat L) = true) as Hall.
  { intros L HL Hf. apply equals_all_spec; [done|]. exists (length L). split; [destruct L; simpl; [done|lia]|].
    f_equal. symmetry. apply replicate_as_Forall. split; [done|]. eapply Forall_impl; [exact Hf|]. by intros x ->. }
  assert (replicate (Z.to_nat n) fv ≠ []) as Hrn.
  { intros H%(f_equal length). rewrite length_replicate in H. simpl in H. lia. }
  split_and!.
  - eexists. cbn [new_fill_value]. rewrite Z.eqb_refl. split; [done|]. split.
    + apply Hall; [done|]. by apply Forall_replicate.
    + exists (replicate (Z.to_nat n) fv). rewrite fmap_replicate. split_and!; [done|done|done|].
      rewrite length_replicate. lia.
  - eexists. split; [done|]. split; [apply Hall; [done|by apply Forall_replicate]|].
    exists (replicate (Z.to_nat n) fv). rewrite fmap_replicate.
    pose proof (length_concat_const _ _ HF) as Hl. rewrite length_replicate in Hl.
    split_and!; [done| |rewrite length_replicate; nia|simpl; unfold repeat_bytes; lia].
    assert (mk_vlen (repeat_bytes fv n) ((λ i, i *w zlen fv) <$> seqZ 0 (n + 1)) = pack (replicate (Z.to_nat n) fv)) as ->;
      [|apply pack_elements].
    unfold pack, repeat_bytes. f_equal. unfold seqZ. rewrite <-list_fmap_compose, length_replicate.
    replace (Z.to_nat (n + 1)) with (S (Z.to_nat n)) by lia. apply list_fmap_ext_in. intros k Hk%elem_of_seq.
    simpl. rewrite wrap64_small by (unfold is_u64, u64_modulus; nia). unfold offset_of. rewrite take_replicate, Nat.min_l by lia.
    rewrite (length_concat_const (length fv)), length_replicate by (apply Forall_replicate; lia). lia.
  - intros b E. destruct b as [b|v|]; cbn [represents]; [|done|done]. intros (L & -> & -> & [_ HL] & _) HE. cbn [is_fill_value].
    rewrite Forall_fmap. split.
    + intros (m & Hm & Hc)%equals_all_spec; [|done].
      assert (L = replicate m fv) as ->; [|by apply Forall_replicate].
      rewrite <-(chunks_exact_concat (Z.to_nat (zlen fv)) L) by (done || lia). rewrite Hc. apply chunks_exact_concat; [lia|].
      apply Forall_replicate. lia.
    + intros Hf. apply Hall; [by intros ->|]. eapply Forall_impl; [exact Hf|]. simpl. by intros e [= ->].
  - intros L HL Hf. by apply Hall.
  - cbn [is_fill_value pack vl_bytes]. apply equals_all_spec; [done|]. exists 2%nat. split; [lia|]. simpl. by rewrite !app_nil_r.
  - exists [[97; 97]; []]. split_and!; [done|apply pack_elements|by vm_compute|by vm_compute].
Qed.

(** A region of an example array. *)
Lemma example_region_ok : region_ok (mk_subset [0; 1] [2; 2]) [2; 3].
Proof.
  split_and!; [..|done|split; [repeat constructor; lia|reflexivity]].
  - split; [split; [done|]|split; [repeat constructor; lia|reflexivity]].
    intros [|[|j]] Hj; unfold u64_modulus; simpl in *; lia.
  - split; [done|]. intros [|[|j]] Hj; simpl in *; lia.
Qed.

Definition example_strings : list bytes := [[1]; []; [2; 3]; [4]; [5; 6]; []].

Definition example_array : ArrayBytes := OptionalBytes (VariableBytes (pack example_strings)) [1; 0; 1; 1; 1; 0].

Definition example_type : DataType := OptionalType (PlainType VariableSize).

Lemma example_represents L mask : length mask = length L → zlen L < 2 ^ 63 → zlen (concat L) < 2 ^ 63 →
  represents (OptionalBytes (VariableBytes (pack L)) mask) example_type (zip_with Masked (Cell <$> L) mask).
Proof.
  intros Hl Hb Hc. exists (Cell <$> L). rewrite length_fmap. split_and!; [|done|done|lia].
  exists L. split_and!; [done|apply pack_elements|done|done].
Qed.

Lemma extract_array_subset_spec_witness :
  extract_array_subset example_array (mk_subset [0; 1] [2; 2]) [2; 3] example_type =
    Ok (OptionalBytes (VariableBytes (pack [[]; [2; 3]; [5; 6]; []])) [0; 1; 1; 0]) ∧
  ∃ out E', extract_array_subset example_array (mk_subset [0; 1] [2; 2]) [2; 3] example_type = Ok out ∧
    represents out example_type E' ∧ E' !! 1%nat = Some (Masked (Cell [2; 3]) 1).
Proof.
  split; [vm_compute; reflexivity|].
  destruct (extract_array_subset_spec example_array example_type
    (zip_with Masked (Cell <$> example_strings) [1; 0; 1; 1; 1; 0]) _ _ example_region_ok) as (out & E' & H1 & H2 & _ & H3 & _);
    [by apply example_represents|reflexivity|].
  exists out, E'. split_and!; [exact H1|exact H2|]. rewrite (H3 1%nat [0; 2]) by reflexivity. reflexivity.
Defined.

Lemma update_array_bytes_spec_witness :
  let update := OptionalBytes (VariableBytes (pack [[7]; []; [8; 8; 8]; [9]])) [1; 1; 0; 1] in
  ∃ out E', update_array_bytes example_array [2; 3] (mk_subset [0; 1] [2; 2]) update VariableSize = Ok out ∧
    represents out example_type E' ∧ E' !! 5%nat = Some (Masked (Cell [9]) 1).
Proof.
  intros update.
  destruct (update_array_bytes_spec example_array update example_type
    (zip_with Masked (Cell <$> example_strings) [1; 0; 1; 1; 1; 0])
    (zip_with Masked (Cell <$> [[7]; []; [8; 8; 8]; [9]]) [1; 1; 0; 1]) _ _ example_region_ok)
    as (out & E' & H1 & H2 & _ & H3 & _); [by apply example_represents..|reflexivity|reflexivity|reflexivity|].
  exists out, E'. split_and!; [exact H1|exact H2|]. apply (H3 3%nat [1; 2]). reflexivity.
Defined.

Lemma is_fill_value_spec_witness :
  is_fill_value (FixedBytes [0; 7; 0; 7]) [0; 7] = true ∧
  is_fill_value (VariableBytes (pack [[97; 97]; []])) [97] = true.
Proof.
  split.
  - destruct (is_fill_value_spec [0; 7] 2) as ((b & H1 & H2 & _) & _); [done|lia|reflexivity|].
    vm_compute in H1. injection H1 as <-. exact H2.
  - destruct (is_fill_value_spec [97] 1) as (_ & _ & _ & _ & H & _); [done|lia|reflexivity|]. exact H.
Defined.
