(* ===== verification/Elements.v ===== *)
(** What array bytes mean: the list of their elements.

    [ArrayBytes.represents] sees array bytes as cells, byte strings under mask bytes.
    Here a cell becomes an element, where an element masked out is null whatever its
    bytes are, as the documentation of [ArrayBytesOptional] has it.  The operations
    of [zarrs_codec/src/array_bytes.rs] are restated on lists of elements; the rest of the
    development uses them in that form. *)

From stdpp Require Import sorting.
From S2P Require Import Prelude ArraySubset Linear Iterators ByteRange ArrayBytes.

(** ** Elements *)

Inductive element := Value (b : bytes) | Null | Valid (e : element).

#[export] Instance element_eq_dec : EqDecision element.
Proof. solve_decision. Defined.
#[export] Instance element_inhabited : Inhabited element := populate Null.

Fixpoint cell_element (c : cell) : element :=
  match c with
  | Cell b => Value b
  | Masked inner mask => if mask =? 0 then Null else Valid (cell_element inner)
  end.

(** Array bytes, valid for the data type, that hold given elements. *)
Definition holds (b : ArrayBytes) (data_type : DataType) (V : list element) : Prop :=
  (∃ E, represents b data_type E ∧ cell_element <$> E = V) ∧ validate_bytes b (zlen V) data_type = Ok tt.

(** The element that a fill value stands for. *)
Fixpoint fill_element (data_type : DataType) (fill_value : FillValue) : element :=
  match data_type with
  | PlainType _ => Value fill_value
  | OptionalType inner =>
      if is_fill_value_null fill_value then Null else Valid (fill_element inner (fill_value_inner_bytes fill_value))
  end.

(** The fill value of the innermost type, and the fill values the code accepts. *)
Definition inner_fill (inner : DataType) (fill_value : FillValue) : FillValue :=
  if is_fill_value_null fill_value
  then match fixed_size inner with Some n => replicate (Z.to_nat n) 0 | None => [] end
  else fill_value_inner_bytes fill_value.

Fixpoint base_fill (data_type : DataType) (fill_value : FillValue) : FillValue :=
  match data_type with
  | PlainType _ => fill_value
  | OptionalType inner => base_fill inner (inner_fill inner fill_value)
  end.

Definition fill_ok (data_type : DataType) (fill_value : FillValue) : Prop :=
  match data_type_size data_type with
  | FixedSize d => 0 < d ∧ zlen (base_fill data_type fill_value) = d
  | VariableSize => True
  end.

#[export] Instance fill_ok_dec dt fv : Decision (fill_ok dt fv).
Proof. unfold fill_ok. destruct (data_type_size dt); apply _. Defined.

(** The fill values that array bytes are compared with exactly: on variable-length data only
    the empty one (see [ArrayBytes.is_fill_value_spec]). *)
Fixpoint fill_exact (data_type : DataType) (fill_value : FillValue) : Prop :=
  match data_type with
  | PlainType (FixedSize d) => zlen fill_value = d
  | PlainType VariableSize => fill_value = []
  | OptionalType inner => is_fill_value_null fill_value = true ∨ fill_exact inner (fill_value_inner_bytes fill_value)
  end.

#[export] Instance fill_exact_dec dt fv : Decision (fill_exact dt fv).
Proof. revert fv. induction dt as [[d|]|inner IH]; intros fv; simpl; apply _. Defined.

(** ** Validity *)

Lemma validate_offsets_monotone l len o0 : Sorted Z.le (o0 :: l) → Forall (λ o, o <= len) l →
  validate_offsets_loop l len o0 = Ok (default o0 (last l)).
Proof.
  revert o0. induction l as [|o l IH]; intros o0 Hs Hl; [done|].
  apply Sorted_inv in Hs as [Hs Hh]. apply HdRel_inv in Hh. apply Forall_cons in Hl as [Ho Hl].
  cbn [validate_offsets_loop]. rewrite (proj2 (Z.ltb_ge _ _)), (proj2 (Z.ltb_ge _ _)) by lia. simpl.
  rewrite IH by done. rewrite last_cons. by destruct (last l).
Qed.

Lemma offset_of_le L k k' : (k <= k')%nat → offset_of L k <= offset_of L k'.
Proof.
  intros Hk. unfold offset_of. replace (take k L) with (take k (take k' L)) by (rewrite take_take; f_equal; lia).
  rewrite <-(take_drop k (take k' L)) at 2. rewrite concat_app, length_app. lia.
Qed.

Lemma pack_offsets_sorted L : Sorted Z.le (0 :: (offset_of L <$> seq 0 (S (length L)))).
Proof.
  constructor; [|simpl; constructor; unfold offset_of; simpl; lia].
  generalize (S (length L)) as n, 0%nat as i. intros n. induction n as [|n IH]; intros i; simpl; [constructor|].
  constructor; [apply IH|]. destruct n; simpl; constructor. apply offset_of_le. lia.
Qed.

Lemma validate_pack L : zlen L < 2 ^ 63 →
  validate_bytes_vlen (vl_bytes (pack L)) (vl_offsets (pack L)) (zlen L) = Ok tt.
Proof.
  intros Hb. unfold validate_bytes_vlen. cbn [vl_offsets vl_bytes pack].
  rewrite length_fmap, length_seq, wrap64_small by (unfold is_u64, u64_modulus; lia).
  rewrite (proj2 (Z.eqb_eq _ _)) by lia. simpl negb. cbn iota.
  rewrite validate_offsets_monotone.
  - cbn [obind]. rewrite seq_S, fmap_app. cbn [fmap list_fmap]. rewrite last_snoc. simpl. unfold offset_of. rewrite take_ge by done.
    by rewrite Z.eqb_refl.
  - apply pack_offsets_sorted.
  - apply Forall_fmap, Forall_forall. intros k Hk%elem_of_seq. simpl. rewrite <-offset_of_all. apply offset_of_le. lia.
Qed.

Lemma validate_packed b dt E : represents b dt E → packed b → validate_bytes b (zlen E) dt = Ok tt.
Proof.
  revert dt E. induction b as [b|v|data IH mask]; intros [[d|]|inner] E; cbn [represents packed]; try done.
  - intros (L & -> & -> & HL & Hb) _. cbn [validate_bytes]. unfold validate_bytes_flen. rewrite length_fmap.
    rewrite (fixed_elements_length d) by done. destruct HL as [Hd _].
    rewrite wrap64_small by (unfold is_u64, u64_modulus; nia). by rewrite Z.eqb_refl.
  - intros (L & -> & [Hv _] & Hb & _) [K ->]. cbn [validate_bytes]. rewrite length_fmap.
    assert (length L = length K) as Hl.
    { cbn [pack vl_offsets] in Hv. rewrite length_fmap, length_seq in Hv. lia. }
    rewrite Hl. apply validate_pack. lia.
  - intros (D & HD & -> & Hl & _) Hp. cbn [validate_bytes]. rewrite length_zip_with, Hl, Nat.min_id. by apply IH.
Qed.

Lemma packed_holds b dt E : represents b dt E → packed b → holds b dt (cell_element <$> E).
Proof. intros Hr Hp. split; [by exists E|]. rewrite length_fmap. by apply validate_packed. Qed.

Lemma holds_length b dt V : holds b dt V → zlen V < 2 ^ 63.
Proof. intros [(E & HE & <-) _]. rewrite length_fmap. by apply represents_length in HE. Qed.

Lemma holds_valid b dt V : holds b dt V → validate_bytes b (zlen V) dt = Ok tt.
Proof. by intros [_ ?]. Qed.

(** Fixed-length elements take as many bytes as the data type says. *)
Lemma represents_size b dt E d : represents b dt E → data_type_size dt = FixedSize d → array_bytes_size b = zlen E * d.
Proof.
  revert dt E. induction b as [b|v|data IH mask]; intros [[d'|]|inner] E; cbn [represents array_bytes_size data_type_size]; try done.
  - intros (L & -> & -> & HL & _) [= ->]. rewrite length_fmap. by apply fixed_elements_length.
  - intros (D & HD & -> & Hl & _) Hd. rewrite (IH inner D HD Hd), length_zip_with. lia.
Qed.

Lemma holds_size b dt V d : holds b dt V → data_type_size dt = FixedSize d → array_bytes_size b = zlen V * d.
Proof. intros [(E & HE & <-) _] Hd. rewrite length_fmap. by apply (represents_size b dt). Qed.

(** Elements of a fixed-length type, as array bytes. *)
Lemma holds_fixed b d V : holds b (PlainType (FixedSize d)) V ↔
  ∃ L, b = FixedBytes (concat L) ∧ V = Value <$> L ∧ fixed_elements d L ∧ zlen L * d < 2 ^ 63.
Proof.
  split.
  - intros [(E & HE & <-) _]. destruct b as [b|v|b m]; cbn [represents] in HE; try done. destruct HE as (L & -> & -> & HL & Hb).
    exists L. by rewrite list_fmap_fmap.
  - intros (L & -> & -> & HL & Hb). replace (Value <$> L) with (cell_element <$> (Cell <$> L)) by (by rewrite list_fmap_fmap).
    apply packed_holds; [by exists L|done].
Qed.

Lemma holds_fixed_inj b b' d V : holds b (PlainType (FixedSize d)) V → holds b' (PlainType (FixedSize d)) V → b = b'.
Proof.
  intros (L & -> & -> & _)%holds_fixed (L' & -> & HL & _)%holds_fixed. do 2 f_equal.
  assert (Inj (=) (=) Value) by (by intros ?? [= ->]). by apply (inj (fmap Value)) in HL.
Qed.

Lemma vlen_elements_inj v L K : vlen_elements v L → vlen_elements v K → L = K.
Proof.
  intros [Hl HL] [Hk HK]. apply list_eq_same_length with (n := length L); [lia|done|]. intros i x y _ Hx Hy.
  destruct (HL i x Hx) as (a & b & Ha & Hb & Hs). destruct (HK i y Hy) as (a' & b' & Ha' & Hb' & Hs').
  rewrite Ha in Ha'. rewrite Hb in Hb'. injection Ha' as <-. injection Hb' as <-. specialize (Hs unit). rewrite Hs' in Hs. by injection Hs.
Qed.

(** Elements of a variable-length type, as array bytes. *)
Lemma holds_variable b U : holds b (PlainType VariableSize) U →
  ∃ v L, b = VariableBytes v ∧ U = Value <$> L ∧ vlen_elements v L ∧ zlen L < 2 ^ 63 ∧ zlen (vl_bytes v) < 2 ^ 63.
Proof.
  intros [(E & HE & <-) _]. destruct b as [|v|]; [done| |done]. destruct HE as (L & -> & ? & ? & ?). exists v, L. by rewrite list_fmap_fmap.
Qed.

Lemma holds_pack L : zlen L < 2 ^ 63 → zlen (concat L) < 2 ^ 63 → holds (VariableBytes (pack L)) (PlainType VariableSize) (Value <$> L).
Proof.
  intros HL Hc. replace (Value <$> L) with (cell_element <$> (Cell <$> L)) by (by rewrite list_fmap_fmap).
  apply packed_holds; [|by eexists]. exists L. split_and!; [done|apply pack_elements|done|done].
Qed.

(** The elements in packed bytes. *)
Lemma packed_bytes b size V : holds b (PlainType size) V → ∃ b', holds b' (PlainType size) V ∧ packed b' ∧ array_bytes_size b' <= array_bytes_size b.
Proof.
  intros Hb. destruct size as [d|].
  - exists b. split; [done|]. by apply holds_fixed in Hb as (L & -> & _).
  - apply holds_variable in Hb as (v & L & -> & -> & Hv & Hl & Hs). pose proof (vlen_total v L Hv) as Ht. exists (VariableBytes (pack L)).
    split_and!; [apply holds_pack; lia|by eexists|done].
Qed.

(** ** The operations on elements *)

Lemma extract_holds b dt V s ash : region_ok s ash → holds b dt V → zlen V = Zprod ash →
  ∃ out, extract_array_subset b s ash dt = Ok out ∧ holds out dt (select V (positions s ash)) ∧
    packed out ∧ array_bytes_size out <= array_bytes_size b.
Proof.
  intros Hok [(E & HE & <-) _] HV. rewrite length_fmap in HV.
  destruct (extract_represents b dt E s ash Hok HE HV) as (out & Hout & Hr & Hp & Hs).
  exists out. split_and!; [done| |done|done]. rewrite select_fmap; [by apply packed_holds|].
  rewrite HV. apply positions_bound; apply Hok.
Qed.

Lemma update_holds b u dt V U s ash : region_ok s ash → holds b dt V → holds u dt U →
  zlen V = Zprod ash → zlen U = Zprod (shape s) → array_bytes_size b + array_bytes_size u < 2 ^ 63 →
  ∃ out, update_array_bytes b ash s u (data_type_size dt) = Ok out ∧ holds out dt (scatter V (positions s ash) U) ∧
    array_bytes_size out <= array_bytes_size b + array_bytes_size u.
Proof.
  intros Hok [(E & HE & <-) _] [(D & HD & <-) _] HV HU Hs. rewrite length_fmap in HV, HU.
  destruct (update_represents b u dt E D s ash Hok HE HD HV HU Hs) as (out & Hout & Hr & Hp & Hle).
  exists out. split_and!; [done| |done]. rewrite scatter_fmap. by apply packed_holds.
Qed.

(** The bytes of a fill value. *)
Lemma new_fill_represents dt n fv : fill_ok dt fv → 0 <= n → n * Z.max 1 (zlen (base_fill dt fv)) < 2 ^ 63 →
  ∃ b E, new_fill_value dt n fv = Ok b ∧ represents b dt E ∧ packed b ∧
    cell_element <$> E = replicate (Z.to_nat n) (fill_element dt fv) ∧
    array_bytes_size b = n * zlen (base_fill dt fv).
Proof.
  revert fv. induction dt as [[d|]|inner IH]; intros fv Hok Hn Hb; unfold fill_ok in Hok; cbn [data_type_size base_fill fill_element] in *.
  - destruct Hok as [Hd Hl]. cbn [new_fill_value]. rewrite Hl, Z.eqb_refl. eexists _, (Cell <$> replicate (Z.to_nat n) fv). split; [done|].
    assert (Forall (λ e, length e = length fv) (replicate (Z.to_nat n) fv)) as HF by by apply Forall_replicate.
    split_and!; [|done|by rewrite !fmap_replicate|].
    + exists (replicate (Z.to_nat n) fv). rewrite length_replicate. split_and!; [done|done| |nia].
      split; [done|]. eapply Forall_impl; [exact HF|]. simpl. lia.
    + cbn [array_bytes_size]. unfold repeat_bytes. rewrite (length_concat_const (length fv)) by done. rewrite length_replicate. lia.
  - cbn [new_fill_value].
    assert (mk_vlen (repeat_bytes fv n) ((λ i, i *w zlen fv) <$> seqZ 0 (n + 1)) = pack (replicate (Z.to_nat n) fv)) as ->.
    { unfold pack, repeat_bytes. f_equal. unfold seqZ. rewrite <-list_fmap_compose, length_replicate.
      replace (Z.to_nat (n + 1)) with (S (Z.to_nat n)) by lia. apply list_fmap_ext_in. intros k Hk%elem_of_seq.
      simpl. rewrite wrap64_small by (unfold is_u64, u64_modulus; nia). unfold offset_of. rewrite take_replicate, Nat.min_l by lia.
      rewrite (length_concat_const (length fv)), length_replicate by (by apply Forall_replicate). lia. }
    assert (zlen (concat (replicate (Z.to_nat n) fv)) = n * zlen fv) as Hc.
    { rewrite (length_concat_const (length fv)), length_replicate by (by apply Forall_replicate). lia. }
    eexists _, (Cell <$> replicate (Z.to_nat n) fv). split; [done|]. split_and!; [|by eexists|by rewrite !fmap_replicate|].
    + exists (replicate (Z.to_nat n) fv). rewrite length_replicate.
      split_and!; [done|apply pack_elements|lia|]. cbn [pack vl_bytes]. nia.
    + cbn [array_bytes_size pack vl_bytes]. done.
  - destruct (IH (inner_fill inner fv) Hok Hn Hb) as (b & E & Hnew & Hr & Hp & HE & Hs).
    cbn [new_fill_value]. unfold inner_fill in *.
    pose proof (f_equal length HE) as Hl. rewrite length_fmap, length_replicate in Hl.
    destruct (is_fill_value_null fv) eqn:Hnull; cbn zeta; rewrite Hnew; cbn [obind].
    + eexists _, (zip_with Masked E (replicate (Z.to_nat n) 0)). split; [done|]. split_and!; [|done| |done].
      * exists E. rewrite length_replicate. split_and!; [done|done|lia|lia].
      * rewrite <-Hl. clear. induction E as [|e E IH]; simpl; [done|]. by f_equal.
    + eexists _, (zip_with Masked E (replicate (Z.to_nat n) 1)). split; [done|]. split_and!; [|done| |done].
      * exists E. rewrite length_replicate. split_and!; [done|done|lia|lia].
      * rewrite <-Hl in HE |- *. revert HE. clear. intros HE.
        assert (∀ e, e ∈ E → cell_element e = fill_element inner (fill_value_inner_bytes fv)) as He.
        { intros e He. apply (list_elem_of_fmap_2 cell_element) in He. rewrite HE in He. by apply elem_of_replicate in He as [-> _]. }
        clear HE. induction E as [|e E IH]; simpl; [done|]. f_equal; [change (1 =? 0) with false; cbn iota; by rewrite (He e) by apply list_elem_of_here|].
        apply IH. intros e' He'. apply He. by apply list_elem_of_further.
Qed.

Lemma new_fill_holds dt n fv : fill_ok dt fv → 0 <= n → n * Z.max 1 (zlen (base_fill dt fv)) < 2 ^ 63 →
  ∃ b, new_fill_value dt n fv = Ok b ∧ holds b dt (replicate (Z.to_nat n) (fill_element dt fv)) ∧
    packed b ∧ array_bytes_size b = n * zlen (base_fill dt fv).
Proof.
  intros Hok Hn Hb. destruct (new_fill_represents dt n fv Hok Hn Hb) as (b & E & Hnew & Hr & Hp & HE & Hs).
  exists b. split_and!; [done| |done|done]. rewrite <-HE. by apply packed_holds.
Qed.

(** ** Recognising the fill value *)

Lemma all_equal_replicate {A} (l : list A) x : (∀ y, y ∈ l → y = x) → l = replicate (length l) x.
Proof. intros H. symmetry. by apply replicate_as_elem_of. Qed.

Lemma equals_all_fixed d L fv : fixed_elements d L → zlen fv = d → equals_all fv (concat L) = true → ∀ e, e ∈ L → e = fv.
Proof.
  intros [Hd HL] Hl (m & Hm & Hc)%equals_all_spec e He; [|intros ->; simpl in Hl; lia].
  assert (L = replicate m fv) as ->; [|by apply elem_of_replicate in He as [-> _]].
  rewrite <-(chunks_exact_concat (Z.to_nat d) L) by (done || lia). rewrite Hc. apply chunks_exact_concat; [lia|].
  apply Forall_replicate. lia.
Qed.

Lemma equals_all_nil v L : vlen_elements v L → equals_all [] (vl_bytes v) = true → ∀ e, e ∈ L → e = [].
Proof.
  intros [_ Hv] Hall e He. assert (vl_bytes v = []) as Hn.
  { unfold equals_all in Hall. destruct (negb _ || _); [done|]. by apply bool_decide_eq_true in Hall. }
  apply list_elem_of_lookup in He as [k Hk]. destruct (Hv k e Hk) as (a & c & _ & _ & Hs).
  specialize (Hs unit). rewrite Hn in Hs. apply slice_Ok in Hs as (Ha & Hc & He). simpl in Hc.
  destruct e; [done|]. simpl in He. lia.
Qed.

Lemma zip_masked_elements D mask (m : Z) (x : element) (f : element → element) :
  length mask = length D → (∀ y, y ∈ mask → y = m) → (∀ c, cell_element (Masked c m) = f (cell_element c)) →
  (∀ c, c ∈ D → f (cell_element c) = x) → cell_element <$> zip_with Masked D mask = replicate (length D) x.
Proof.
  intros Hl Hm Hf. revert mask Hl Hm. induction D as [|c D IH]; intros [|y mask] Hl Hm HD; try done.
  cbn [zip_with fmap list_fmap length]. rewrite (Hm y), Hf by apply list_elem_of_here. simpl. f_equal.
  - apply HD, list_elem_of_here.
  - apply IH; [by injection Hl| |]; intros z Hz; [apply Hm|apply HD]; by apply list_elem_of_further.
Qed.

Lemma is_fill_represents b dt E fv : fill_exact dt fv → represents b dt E → is_fill_value b fv = true →
  cell_element <$> E = replicate (length E) (fill_element dt fv).
Proof.
  revert dt E fv. induction b as [b|v|data IH mask]; intros [[d|]|inner] E fv; cbn [fill_exact represents is_fill_value fill_element]; try done.
  - intros Hl (L & -> & -> & HL & _) Hall. pose proof (equals_all_fixed d L fv HL Hl Hall) as He.
    rewrite (all_equal_replicate L fv He) at 1. by rewrite !fmap_replicate, length_fmap.
  - intros -> (L & -> & Hv & _) Hall. pose proof (equals_all_nil v L Hv Hall) as He.
    rewrite (all_equal_replicate L [] He) at 1. by rewrite !fmap_replicate, length_fmap.
  - intros Hx (D & HD & -> & Hl & _) Hall. rewrite length_zip_with, Hl, Nat.min_id.
    destruct (is_fill_value_null fv) eqn:Hnull.
    + apply (zip_masked_elements _ _ 0 Null (λ _, Null)); [done| |done|done].
      intros y Hy. rewrite <-Is_true_true, forallb_True, Forall_forall in Hall. specialize (Hall y Hy).
      apply Is_true_true, Z.eqb_eq in Hall. done.
    + apply andb_true_iff in Hall as [Hm Hd]. destruct Hx as [?|Hx]; [done|].
      apply (zip_masked_elements _ _ 1 (Valid (fill_element inner (fill_value_inner_bytes fv))) Valid); [done| |done|].
      * intros y Hy. rewrite <-Is_true_true, forallb_True, Forall_forall in Hm. specialize (Hm y Hy).
        apply Is_true_true, Z.eqb_eq in Hm. done.
      * intros c Hc. f_equal. specialize (IH inner D _ Hx HD Hd).
        apply (list_elem_of_fmap_2 cell_element) in Hc. rewrite IH in Hc. by apply elem_of_replicate in Hc as [-> _].
Qed.

(** Bytes recognised as the fill value hold it, when the comparison is exact. *)
Lemma is_fill_holds b dt V fv : fill_exact dt fv → holds b dt V → is_fill_value b fv = true →
  V = replicate (length V) (fill_element dt fv).
Proof.
  intros Hx [(E & HE & <-) _] Hall. rewrite length_fmap. by eapply is_fill_represents.
Qed.
