(* ===== verification/Regions.v ===== *)
(** Regions of an array and the elements they hold.

    An array is a function [f] from indices to elements; [contents f s] are the elements
    of a subset [s] in C order, which is how array bytes hold them.  Extracting,
    updating and assembling the bytes of subsets become operations on [contents], where a
    subset of a subset is placed by [within]. *)

From S2P Require Import Prelude ArraySubset Linear Iterators ChunkGrid ArrayBytes.

(** [o] lies in [s]. *)
Definition covers (s o : ArraySubset) : Prop :=
  length (start o) = length (start s) ∧
  ∀ j, (j < length (start s))%nat → start s !!! j <= start o !!! j ∧
    start o !!! j + shape o !!! j <= start s !!! j + shape s !!! j.

(** The place of [o] in [s]. *)
Definition within (o s : ArraySubset) : ArraySubset := mk_subset (zip_with Z.sub (start o) (start s)) (shape o).

Definition contents {A} (f : list Z → A) (s : ArraySubset) : list A := f <$> box (start s) (shape s).

(** The array with the elements [g] on the region [o]. *)
Definition overwrite {A} (f g : list Z → A) (o : ArraySubset) : list Z → A := λ ix, if contains o ix then g ix else f ix.

(** ** Subsets *)

Section subsets.
Implicit Types s o r : ArraySubset.

Lemma subset_shape_nonneg s : subset_wf s → Forall (λ d, 0 <= d) (shape s).
Proof. intros [Hl H]. apply Forall_total. rewrite Hl. intros j Hj. specialize (H j Hj). lia. Qed.

Lemma contents_length {A} (f : list Z → A) s : subset_wf s → zlen (contents f s) = Zprod (shape s).
Proof.
  intros Hs. unfold contents. rewrite length_fmap. apply length_box; [by rewrite (proj1 Hs)|by apply subset_shape_nonneg].
Qed.

Lemma elem_of_contents s ix : subset_wf s → ix ∈ box (start s) (shape s) ↔ in_subset s ix.
Proof. intros [Hl _]. rewrite elem_of_box by lia. by destruct s. Qed.

Lemma contents_ext {A} (f g : list Z → A) s : subset_wf s → (∀ ix, in_subset s ix → f ix = g ix) → contents f s = contents g s.
Proof. intros Hs H. apply list_fmap_ext_in. intros ix Hix. apply H. by apply elem_of_contents. Qed.

Lemma covers_shape s o : subset_wf s → subset_wf o → covers s o → is_empty o = false →
  ∀ j, (j < length (start s))%nat → 0 < shape o !!! j <= shape s !!! j.
Proof.
  intros Hs Ho [Hl H] Hne j Hj. pose proof (proj1 (is_empty_false o Ho) Hne j ltac:(lia)). specialize (H j Hj). lia.
Qed.

(** A non-empty subset whose elements are in [s] lies in [s]. *)
Lemma subset_covers s o : subset_wf s → subset_wf o → is_empty o = false →
  (∀ ix, in_subset o ix → in_subset s ix) → covers s o.
Proof.
  intros Hs Ho Hne Hin. pose proof (proj1 (is_empty_false o Ho) Hne) as Hp. pose proof (proj1 Ho) as Hl.
  assert (in_subset s (start o)) as [Hls H1].
  { apply Hin. split; [done|]. intros j Hj. specialize (Hp j Hj). lia. }
  assert (in_subset s (last_of o)) as [Hls' H2].
  { apply Hin. split; [by apply length_last|]. intros j Hj. rewrite last_total by done. specialize (Hp j Hj). lia. }
  split; [done|]. intros j Hj. specialize (H1 j Hj). specialize (H2 j Hj). rewrite last_total in H2 by (done || lia). lia.
Qed.

Lemma covers_in s o ix : subset_wf s → covers s o → in_subset o ix → in_subset s ix.
Proof. intros Hs [Hl H] [Hi Hin]. split; [lia|]. intros j Hj. specialize (H j Hj). specialize (Hin j ltac:(lia)). lia. Qed.

Lemma in_subset_ne s ix : subset_wf s → in_subset s ix → is_empty s = false.
Proof. intros Hs Hi. apply in_subset_nonempty_iff; [done|by exists ix]. Qed.

(** [relative_to] places a subset. *)
Lemma relative_to_within s o : subset_wf s → subset_wf o → covers s o → is_empty o = false →
  relative_to o (start s) = Ok (within o s) ∧ subset_wf (within o s) ∧ in_array (within o s) (shape s) ∧ is_empty (within o s) = false.
Proof.
  intros Hs Ho Hc Hne. pose proof Hc as [Hl H]. pose proof (proj1 Hs) as Hls. pose proof (proj1 Ho) as Hlo.
  pose proof (covers_shape s o Hs Ho Hc Hne) as Hsh.
  assert (zip_with (λ x y, x -w y) (start o) (start s) = zip_with Z.sub (start o) (start s)) as Hsub.
  { apply list_eq_total; rewrite !length_zip_with; [done|]. intros j Hj.
    rewrite !zip_with_total by lia. apply wrap64_small. unfold is_u64.
    pose proof (proj2 Ho j ltac:(lia)). pose proof (proj2 Hs j ltac:(lia)). specialize (H j ltac:(lia)). lia. }
  split_and!.
  - unfold relative_to, new_with_start_shape. rewrite (proj2 (Nat.eqb_eq _ _)) by lia. simpl.
    rewrite (proj2 (zip_any_false _ (start o) (start s) ltac:(lia))) by (intros j Hj; specialize (H j ltac:(lia)); apply Z.ltb_ge; lia).
    rewrite Hsub, (proj2 (Nat.eqb_eq _ _)) by (rewrite length_zip_with; lia). done.
  - split; simpl; rewrite length_zip_with; [lia|]. intros j Hj. rewrite zip_with_total by lia.
    pose proof (proj2 Ho j ltac:(lia)). pose proof (proj2 Hs j ltac:(lia)). specialize (H j ltac:(lia)). lia.
  - split; simpl; rewrite ?length_zip_with; [lia|]. intros j Hj. rewrite zip_with_total by lia. specialize (H j ltac:(lia)). lia.
  - unfold is_empty in *. done.
Qed.

Lemma within_region_ok s o : subset_wf s → subset_wf o → covers s o → is_empty o = false → Zprod (shape s) < u64_modulus →
  region_ok (within o s) (shape s).
Proof.
  intros Hs Ho Hc Hne Hp. destruct (relative_to_within s o Hs Ho Hc Hne) as (_ & Hw & Ha & He).
  pose proof (subset_shape_nonneg s Hs) as Hnn. split_and!; [|done|done|done].
  split; [done|]. split; [by apply (subset_shape_nonneg o)|].
  destruct (Zprod_le (shape (within o s)) (shape s)) as [_ Hle].
  - rewrite (proj1 Hs). simpl. rewrite (proj1 Ho). apply Hc.
  - simpl. rewrite (proj1 Ho). intros j Hj. pose proof (covers_shape s o Hs Ho Hc Hne j). destruct Hc as [Hl _].
    specialize (H ltac:(lia)). lia.
  - simpl in Hle |- *. lia.
Qed.

Lemma box_shift st sh off : length st = length sh → length off = length sh → Forall (λ d, 0 <= d) sh →
  box (zip_with Z.sub st off) sh = (λ ix, zip_with Z.sub ix off) <$> box st sh.
Proof.
  intros H1 H2 Hsh. rewrite !box_delin by (rewrite ?length_zip_with; (done || lia)). rewrite list_fmap_fmap.
  apply list_fmap_ext_in. intros k _. simpl. pose proof (length_delin k sh).
  apply list_eq_total; rewrite !length_zip_with; [lia|]. intros j Hj.
  rewrite !zip_with_total by (rewrite ?length_zip_with; lia). lia.
Qed.

Lemma positions_within s o : subset_wf s → subset_wf o → covers s o →
  positions (within o s) (shape s) = (λ ix, lin (zip_with Z.sub ix (start s)) (shape s)) <$> box (start o) (shape o).
Proof.
  intros Hs Ho [Hl _]. unfold positions, lin_elements, within. simpl.
  rewrite box_shift by (rewrite ?(proj1 Ho); (lia || by apply subset_shape_nonneg)). by rewrite list_fmap_fmap.
Qed.

(** The position of an element in a subset. *)
Definition position (s : ArraySubset) (ix : list Z) : Z := lin (zip_with Z.sub ix (start s)) (shape s).

Lemma position_index_in s ix : subset_wf s → in_subset s ix → index_in (zip_with Z.sub ix (start s)) (shape s).
Proof.
  intros [Hl Hs] [Hi Hin]. apply Forall2_total. rewrite length_zip_with. split; [lia|]. intros j Hj.
  rewrite zip_with_total by lia. specialize (Hin j ltac:(lia)). lia.
Qed.

Lemma position_bound s ix : subset_wf s → in_subset s ix → 0 <= position s ix < Zprod (shape s).
Proof. intros Hs Hi. by apply lin_bound, position_index_in. Qed.

Lemma position_inj s ix jx : subset_wf s → in_subset s ix → in_subset s jx → position s ix = position s jx → ix = jx.
Proof.
  intros Hs Hi Hj H. apply lin_inj in H; [|by apply position_index_in..]. destruct Hi as [Hi _], Hj as [Hj _].
  apply list_eq_total; [lia|]. intros j Hlt. apply (f_equal (λ l, l !!! j)) in H. rewrite !zip_with_total in H by lia. lia.
Qed.

Lemma lookup_contents {A} (f : list Z → A) s ix : subset_wf s → in_subset s ix →
  contents f s !! Z.to_nat (position s ix) = Some (f ix).
Proof.
  intros Hs Hi. pose proof (position_bound s ix Hs Hi) as Hb. pose proof Hs as [Hl _].
  unfold contents. rewrite box_delin by (done || by apply subset_shape_nonneg). rewrite list_fmap_fmap, list_lookup_fmap.
  unfold seqZ. rewrite list_lookup_fmap, lookup_seq_lt by lia. simpl. f_equal. f_equal.
  rewrite Z.add_0_r, Z2Nat.id by lia. unfold position. rewrite delin_lin by by apply position_index_in.
  destruct Hi as [Hi _]. apply list_eq_total; rewrite !length_zip_with; [lia|]. intros j Hj.
  rewrite !zip_with_total by (rewrite ?length_zip_with; lia). lia.
Qed.

(** Every position of a subset is that of an element. *)
Lemma position_surj s k : subset_wf s → 0 <= k < Zprod (shape s) → ∃ ix, in_subset s ix ∧ position s ix = k.
Proof.
  intros Hs Hk. pose proof Hs as [Hl _]. pose proof (Zprod_pos_Forall _ (subset_shape_nonneg s Hs) ltac:(lia)) as Hpos.
  pose proof (delin_in k (shape s) Hpos Hk) as Hd. exists (zip_with Z.add (delin k (shape s)) (start s)). split.
  - apply Forall2_total in Hd as [Hdl Hd]. split; [rewrite length_zip_with; lia|]. intros j Hj. rewrite zip_with_total by lia.
    specialize (Hd j ltac:(lia)). lia.
  - unfold position. pose proof (length_delin k (shape s)).
    replace (zip_with Z.sub (zip_with Z.add (delin k (shape s)) (start s)) (start s)) with (delin k (shape s)).
    + by apply lin_delin.
    + apply list_eq_total; rewrite ?length_zip_with; [lia|]. intros j Hj. rewrite !zip_with_total by (rewrite ?length_zip_with; lia). lia.
Qed.

Lemma elem_of_positions s o k : subset_wf s → subset_wf o → covers s o →
  k ∈ positions (within o s) (shape s) ↔ ∃ ix, in_subset o ix ∧ position s ix = k.
Proof.
  intros Hs Ho Hc. rewrite positions_within, list_elem_of_fmap by done. setoid_rewrite elem_of_contents; [|done].
  split; intros (ix & H1 & H2); exists ix; (split; [|done || by symmetry]); done.
Qed.

(** ** Reading and writing a region *)

Lemma select_contents {A} `{!Inhabited A} (f : list Z → A) s o : subset_wf s → subset_wf o → covers s o →
  select (contents f s) (positions (within o s) (shape s)) = contents f o.
Proof.
  intros Hs Ho Hc. rewrite positions_within by done. unfold select, contents. rewrite list_fmap_fmap. apply list_fmap_ext_in.
  intros ix Hix. apply list_lookup_total_correct. apply (lookup_contents f s); [done|]. eapply covers_in; [done..|].
  by apply elem_of_contents.
Qed.

Lemma scatter_contents {A} `{!Inhabited A} (f g : list Z → A) s o : subset_wf s → subset_wf o → covers s o → is_empty o = false →
  Zprod (shape s) < u64_modulus →
  scatter (contents f s) (positions (within o s) (shape s)) (contents g o) = contents (overwrite f g o) s.
Proof.
  intros Hs Ho Hc Hne Hp. pose proof (contents_length f s Hs) as Hlf. pose proof (contents_length (overwrite f g o) s Hs) as Hlh.
  pose proof (within_region_ok s o Hs Ho Hc Hne Hp) as (Hw & Ha & _ & _). pose proof (positions_bound _ _ Hw Ha) as Hpb.
  apply list_eq_same_length with (n := length (contents f s)); [lia|by rewrite length_scatter|].
  intros k x y Hk Hx Hy. destruct (position_surj s (Z.of_nat k) Hs) as (ix & Hix & Hpos); [lia|].
  pose proof (lookup_contents (overwrite f g o) s ix Hs Hix) as Hh. rewrite Hpos, Nat2Z.id, Hy in Hh. injection Hh as ->.
  unfold overwrite. pose proof (proj1 Hix) as Hl. pose proof Hc as [Hlo _]. destruct (contains o ix) eqn:Ec.
  - apply contains_iff in Ec; [|done|lia].
    assert (scatter (contents f s) (positions (within o s) (shape s)) (contents g o) !! Z.to_nat (position s ix) = Some (g ix)) as Hsc.
    { eapply lookup_scatter with (k := Z.to_nat (position o ix)); [by rewrite Hlf|by apply NoDup_positions| |by apply lookup_contents].
      rewrite positions_within by done. apply (lookup_contents (position s) o ix Ho Ec). }
    rewrite Hpos, Nat2Z.id, Hx in Hsc. by injection Hsc.
  - assert (scatter (contents f s) (positions (within o s) (shape s)) (contents g o) !! k = contents f s !! k) as Hsc.
    { apply lookup_scatter_ne; [eapply Forall_impl; [exact Hpb|]; simpl; lia|].
      rewrite elem_of_positions by done. intros (jx & Hjx & Hjp). rewrite <-Hpos in Hjp.
      apply position_inj in Hjp; [|done|by eapply covers_in|done]. subst jx.
      assert (contains o ix = true) as Hct by (by apply contains_iff; [|lia|]). congruence. }
    rewrite Hx in Hsc. pose proof (lookup_contents f s ix Hs Hix) as Hf. rewrite Hpos, Nat2Z.id, <-Hsc in Hf. by injection Hf.
Qed.

Lemma overwrite_in {A} (f g : list Z → A) o ix : subset_wf o → in_subset o ix → overwrite f g o ix = g ix.
Proof. intros Ho Hi. unfold overwrite. by rewrite (proj2 (contains_iff o ix Ho (proj1 Hi)) Hi). Qed.

Lemma overwrite_out {A} (f g : list Z → A) o ix : subset_wf o → length ix = length (start o) → ¬ in_subset o ix → overwrite f g o ix = f ix.
Proof.
  intros Ho Hl Hi. unfold overwrite. destruct (contains o ix) eqn:E; [|done]. by apply contains_iff in E.
Qed.

(** ** Overlaps *)

Lemma overlap_covers s r : subset_wf s → subset_wf r → (∃ ix, in_subset s ix ∧ in_subset r ix) →
  ∃ o, overlap s r = Ok o ∧ subset_wf o ∧ is_empty o = false ∧ covers s o ∧ covers r o ∧
    ∀ ix, in_subset o ix ↔ in_subset s ix ∧ in_subset r ix.
Proof.
  intros Hs Hr (ix & Hi1 & Hi2). destruct (overlap_region s r Hs Hr) as (o & Ho & Hwf & Hin).
  { destruct Hi1, Hi2. lia. }
  assert (is_empty o = false) as Hne by (eapply in_subset_ne; [done|]; by apply Hin).
  exists o. split_and!; [done..| | |done]; apply subset_covers; try done; intros jx Hj; by apply Hin.
Qed.

(** A subset of the shape of [s] at its start is [s]. *)
Lemma covers_whole s o : subset_wf s → length (start o) = length (start s) →
  forallb (λ x, x =? 0) (start (within o s)) = true → shape o = shape s → o = s.
Proof.
  intros [Hl Hs] Hlo Hz Hsh. destruct o as [st sh], s as [st' sh']. simpl in *. subst sh'. f_equal.
  apply list_eq_total; [done|]. intros j Hj. rewrite forallb_total in Hz. specialize (Hz j). rewrite length_zip_with in Hz.
  specialize (Hz ltac:(lia)). rewrite zip_with_total in Hz by lia. apply Z.eqb_eq in Hz. lia.
Qed.

Lemma within_self s : subset_wf s → within s s = new_with_shape (shape s).
Proof.
  intros [Hl _]. unfold within, new_with_shape. f_equal. apply list_eq_total; rewrite !length_zip_with; [rewrite length_replicate; lia|].
  intros j Hj. rewrite zip_with_total, lookup_total_replicate_2 by lia. lia.
Qed.

Lemma covers_refl s : covers s s.
Proof. split; [done|]. intros; lia. Qed.
End subsets.

(** A list of the right length is the contents of a function. *)
Definition element_at {A} `{!Inhabited A} (L : list A) (s : ArraySubset) : list Z → A := λ ix, L !!! Z.to_nat (position s ix).

Lemma contents_element_at {A} `{!Inhabited A} (L : list A) s : subset_wf s → zlen L = Zprod (shape s) →
  contents (element_at L s) s = L.
Proof.
  intros Hs HL. pose proof (contents_length (element_at L s) s Hs) as Hlc. apply list_eq_total; [lia|]. intros k Hk.
  destruct (position_surj s (Z.of_nat k) Hs) as (ix & Hix & Hp); [lia|].
  pose proof (lookup_contents (element_at L s) s ix Hs Hix) as Hc. rewrite Hp, Nat2Z.id in Hc.
  rewrite (list_lookup_total_correct _ _ _ Hc). unfold element_at. by rewrite Hp, Nat2Z.id.
Qed.

Lemma contents_intro {A} (V : list A) f s : subset_wf s → zlen V = Zprod (shape s) →
  (∀ ix, in_subset s ix → V !! Z.to_nat (position s ix) = Some (f ix)) → V = contents f s.
Proof.
  intros Hs HV Hix. pose proof (contents_length f s Hs) as Hl. apply list_eq_same_length with (n := length V); [lia|done|].
  intros k x y Hk Hx Hy. destruct (position_surj s (Z.of_nat k) Hs) as (ix & Hin & Hp); [lia|].
  pose proof (Hix ix Hin) as H1. pose proof (lookup_contents f s ix Hs Hin) as H2. rewrite Hp, Nat2Z.id in H1, H2. congruence.
Qed.
