(* ===== verification/StoreProgram.v ===== *)
(** Programs over a store.

    The operations of an array are sequences of calls to a store, which may be shared
    with other threads.  A program is the tree of the calls an operation makes: it runs on
    every store ([run]), and the calls of several programs can be interleaved
    ([pool_step]), as the parallel iterators of [zarrs/src/lib.rs]
    ([iter_concurrent_limit]) do with the tasks of the chunks.

    A program that calls the store on one key only is a function of the value at that key
    ([runs_at]); such programs on different keys do not see each other, in whatever
    order their calls are made. *)

From S2P Require Import Prelude ByteRange StoreKey Storage MemoryStore.

(** ** Calls and programs *)

(** The calls made on behalf of a chunk, with the type of their answer. *)
Inductive store_call : Type → Type :=
  | CallGet (key : StoreKey) : store_call (option bytes)
  | CallGetPartialMany (key : StoreKey) (byte_ranges : list ByteRange) : store_call (option (list (outcome StorageError bytes)))
  | CallSizeKey (key : StoreKey) : store_call (option Z)
  | CallSet (key : StoreKey) (value : bytes) : store_call unit
  | CallSetPartialMany (key : StoreKey) (offset_values : list (Z * bytes)) : store_call unit
  | CallErase (key : StoreKey) : store_call unit.

Definition call_key {X} (c : store_call X) : StoreKey :=
  match c with
  | CallGet k | CallGetPartialMany k _ | CallSizeKey k | CallSet k _ | CallSetPartialMany k _ | CallErase k => k
  end.

(** A call that fails ends the program with the error it converts to. *)
Inductive prog (E A : Type) : Type :=
  | Done (x : outcome E A)
  | Call {X : Type} (c : store_call X) (on_err : StorageError → E) (k : X → prog E A).
#[global] Arguments Done {E A} _.
#[global] Arguments Call {E A X} _ _ _.

Fixpoint pbind {E A B} (p : prog E A) (f : A → prog E B) : prog E B :=
  match p with
  | Done (Ok a) => f a
  | Done (Err e) => Done (Err e)
  | Done Panic => Done Panic
  | Call c on_err k => Call c on_err (λ x, pbind (k x) f)
  end.

Notation "'let*' x ':=' m 'in' k" := (pbind m (λ x, k)) (at level 10, x pattern, m at level 100, k at level 200).

Definition preturn {E A} (a : A) : prog E A := Done (Ok a).
Definition plift {E A} (x : outcome E A) : prog E A := Done x.
Definition pcall {E A} (c : store_call A) (on_err : StorageError → E) : prog E A := Call c on_err preturn.

(** The [?] operator on an error of another type. *)
Fixpoint pmap_err {E F A} (f : E → F) (p : prog E A) : prog F A :=
  match p with
  | Done x => Done (map_err f x)
  | Call c on_err k => Call c (λ e, f (on_err e)) (λ x, pmap_err f (k x))
  end.

(** [try_for_each] of the standard library over a serial iterator: the first error ends it. *)
Fixpoint try_for_each {E A} (f : A → prog E unit) (l : list A) : prog E unit :=
  match l with
  | [] => preturn tt
  | a :: l => let* _ := f a in try_for_each f l
  end.

(** [try_for_each] where the steps write to the memory [s]. *)
Fixpoint try_fold {E T A} (f : T → A → prog E T) (s : T) (l : list A) : prog E T :=
  match l with
  | [] => preturn s
  | a :: l => let* s := f s a in try_fold f s l
  end.

(** [map] and [collect] into a [Result]. *)
Fixpoint try_map {E A B} (f : A → prog E B) (l : list A) : prog E (list B) :=
  match l with
  | [] => preturn []
  | a :: l => let* b := f a in let* bs := try_map f l in preturn (b :: bs)
  end.

(** ** Running a program *)

Section stores.
Context {S : Type} `{!ReadableStorageTraits S, !WritableStorageTraits S}.

Definition exec_call {X} (c : store_call X) : store_op S X :=
  match c with
  | CallGet k => get k
  | CallGetPartialMany k rs => get_partial_many k rs
  | CallSizeKey k => size_key k
  | CallSet k v => set_ k v
  | CallSetPartialMany k ovs => set_partial_many k ovs
  | CallErase k => erase k
  end.

Fixpoint run {E A} (p : prog E A) (s : S) : S * outcome E A :=
  match p with
  | Done x => (s, x)
  | Call c on_err k =>
      match exec_call c s with
      | (s, Ok a) => run (k a) s
      | (s, Err e) => (s, Err (on_err e))
      | (s, Panic) => (s, Panic)
      end
  end.

(** The rest of a program after the answer to its call. *)
Definition resume {E A X} (on_err : StorageError → E) (k : X → prog E A) (r : outcome StorageError X) : prog E A :=
  match r with Ok a => k a | Err e => Done (Err (on_err e)) | Panic => Done Panic end.

(** One call of one of the programs of a pool; the store makes it atomically. *)
Inductive pool_step {E A : Type} : list (prog E A) * S → list (prog E A) * S → Prop :=
  | pool_call (i : nat) (X : Type) (c : store_call X) on_err (k : X → prog E A) ps s s' r :
      ps !! i = Some (Call c on_err k) →
      exec_call c s = (s', r) →
      pool_step (ps, s) (<[i := resume on_err k r]> ps, s').
End stores.

(** ** The calls on the value at a key *)

(** What a call answers and leaves at its key.  A partial read is inside the value. *)
Definition call_at {X} (c : store_call X) : option bytes → X → option bytes → Prop :=
  match c in store_call X return option bytes → X → option bytes → Prop with
  | CallGet _ => λ v a v', a = v ∧ v' = v
  | CallGetPartialMany _ rs => λ v a v',
      (∀ b, v = Some b → zlen b < u64_modulus ∧ Forall byte_range_ok rs ∧ Forall (λ r, range_within r (zlen b)) rs) ∧
      a = (λ b, (λ r, Ok (range_bytes b r)) <$> rs) <$> v ∧ v' = v
  | CallSizeKey _ => λ v a v', a = (λ b, zlen b) <$> v ∧ v' = v
  | CallSet _ b => λ _ _ v', zlen b < u64_modulus ∧ v' = Some b
  | CallSetPartialMany _ ovs => λ v _ v', Forall offset_value_ok ovs ∧
      v' = (if decide (ovs = []) then v else Some (fold_left write_at ovs (default [] v)))
  | CallErase _ => λ _ _ v', v' = None
  end.

(** The program ends with the outcome [x] and leaves [v'], from the value [v]. *)
Fixpoint runs_at {E A} (p : prog E A) (v : option bytes) (x : outcome E A) (v' : option bytes) : Prop :=
  match p with
  | Done y => y = x ∧ v = v'
  | Call c _ k => ∃ a v1, call_at c v a v1 ∧ runs_at (k a) v1 x v'
  end.

(** All the calls of the program are on the key. *)
Fixpoint confined {E A} (key : StoreKey) (p : prog E A) : Prop :=
  match p with
  | Done _ => True
  | Call c _ k => call_key c = key ∧ ∀ a, confined key (k a)
  end.

Definition put (key : StoreKey) (v : option bytes) (M : gmap str bytes) : gmap str bytes := partial_alter (λ _, v) key M.

(** The program takes the map [M] to [M']. *)
Fixpoint runs {E A} (p : prog E A) (M : gmap str bytes) (x : outcome E A) (M' : gmap str bytes) : Prop :=
  match p with
  | Done y => y = x ∧ M = M'
  | Call c _ k => ∃ a v1, call_at c (M !! call_key c) a v1 ∧ runs (k a) (put (call_key c) v1 M) x M'
  end.

(** Evaluation of programs, up to the next call. *)
Ltac prog := cbn [plift pcall preturn pbind pmap_err map_err obind runs_at confined call_key].

(** ** Composition *)

Lemma runs_bind {E A B} (p : prog E A) (f : A → prog E B) M a M1 x M2 :
  runs p M (Ok a) M1 → runs (f a) M1 x M2 → runs (pbind p f) M x M2.
Proof.
  revert M. induction p as [y|X c on_err k IH]; intros M; simpl.
  - intros [-> ->] Hf. done.
  - intros (b & v1 & Hc & Hk) Hf. exists b, v1. split; [done|]. by apply IH.
Qed.

Lemma runs_bind_ret {E} (p : prog E unit) M x M' : runs (let* _ := p in preturn tt) M x M' → runs p M x M'.
Proof.
  revert M. induction p as [[[]|e|]|X c on_err k IH]; intros M; simpl; [done..|].
  intros (b & v1 & Hc & Hk). exists b, v1. split; [done|]. by apply IH.
Qed.

Lemma runs_at_bind {E A B} (p : prog E A) (f : A → prog E B) v a v1 x v2 :
  runs_at p v (Ok a) v1 → runs_at (f a) v1 x v2 → runs_at (pbind p f) v x v2.
Proof.
  revert v. induction p as [y|X c on_err k IH]; intros v; simpl.
  - intros [-> ->] Hf. done.
  - intros (b & w & Hc & Hk) Hf. exists b, w. split; [done|]. by apply IH.
Qed.

Lemma runs_at_bind_inv {E A B} (p : prog E A) (f : A → prog E B) v b v2 :
  runs_at (pbind p f) v (Ok b) v2 → ∃ a v1, runs_at p v (Ok a) v1 ∧ runs_at (f a) v1 (Ok b) v2.
Proof.
  revert v. induction p as [[a|e|]|X c on_err k IH]; intros v; simpl; [|by intros [? _]..|].
  - intros Hf. by exists a, v.
  - intros (x & w & Hc & Hk). destruct (IH x w Hk) as (a & v1 & Ha & Hf). exists a, v1. split; [|done]. by exists x, w.
Qed.

Lemma runs_at_map_err {E F A} (g : E → F) (p : prog E A) v x v' :
  runs_at p v x v' → runs_at (pmap_err g p) v (map_err g x) v'.
Proof.
  revert v. induction p as [y|X c on_err k IH]; intros v; simpl.
  - by intros [-> ->].
  - intros (b & w & Hc & Hk). exists b, w. split; [done|]. by apply IH.
Qed.

Lemma confined_bind {E A B} key (p : prog E A) (f : A → prog E B) :
  confined key p → (∀ a, confined key (f a)) → confined key (pbind p f).
Proof. induction p as [[a|e|]|X c on_err k IH]; simpl; [by auto|done..|]. intros [Hc Hk] Hf. auto. Qed.

Lemma confined_map_err {E F A} key (g : E → F) (p : prog E A) : confined key p → confined key (pmap_err g p).
Proof. induction p as [y|X c on_err k IH]; simpl; [done|]. intros [Hc Hk]. auto. Qed.

Lemma put_lookup k v M : put k v M !! k = v.
Proof. apply lookup_partial_alter_eq. Qed.

Lemma put_lookup_ne k k' v M : k' ≠ k → put k v M !! k' = M !! k'.
Proof. intros H. by apply lookup_partial_alter_ne. Qed.

Lemma put_put k v w M : put k v (put k w M) = put k v M.
Proof.
  apply map_eq. intros k'. destruct (decide (k' = k)) as [->|]; [by rewrite !put_lookup|by rewrite !put_lookup_ne].
Qed.

Lemma put_id k M : put k (M !! k) M = M.
Proof.
  apply map_eq. intros k'. destruct (decide (k' = k)) as [->|]; [by rewrite put_lookup|by rewrite put_lookup_ne].
Qed.

Lemma put_comm k k' v w M : k ≠ k' → put k v (put k' w M) = put k' w (put k v M).
Proof.
  intros H. apply map_eq. intros j.
  destruct (decide (j = k)) as [->|Hj]; [by rewrite put_lookup, put_lookup_ne, put_lookup|].
  destruct (decide (j = k')) as [->|Hj']; [by rewrite put_lookup_ne, !put_lookup|by rewrite !put_lookup_ne].
Qed.

(** A program confined to a key runs on the map as it does on the value. *)
Lemma runs_confined {E A} key (p : prog E A) M x v' :
  confined key p → runs_at p (M !! key) x v' → runs p M x (put key v' M).
Proof.
  revert M. induction p as [y|X c on_err k IH]; intros M; simpl.
  - intros _ [-> <-]. by rewrite put_id.
  - intros [<- Hk] (a & v1 & Hc & Hr). exists a, v1. split; [done|].
    rewrite <-(put_put _ v' v1 M). apply IH; [done|]. by rewrite put_lookup.
Qed.

Lemma runs_map_err {E F A} (g : E → F) (p : prog E A) M x M' : runs p M x M' → runs (pmap_err g p) M (map_err g x) M'.
Proof.
  revert M. induction p as [y|X c on_err k IH]; intros M; simpl.
  - by intros [-> ->].
  - intros (b & w & Hc & Hk). exists b, w. split; [done|]. by apply IH.
Qed.

(** Loops keep an invariant of the map. *)
Lemma runs_for_each {E A} (f : A → prog E unit) (l : list A) (I : list A → gmap str bytes → Prop) (M : gmap str bytes) :
  (∀ (done_ : list A) a rest M, l = done_ ++ a :: rest → I done_ M → ∃ M', runs (f a) M (Ok tt) M' ∧ I (done_ ++ [a]) M') →
  I [] M → ∃ M', runs (try_for_each f l) M (Ok tt) M' ∧ I l M'.
Proof.
  intros Hf HI. assert (∀ rest done_ M, l = done_ ++ rest → I done_ M → ∃ M', runs (try_for_each f rest) M (Ok tt) M' ∧ I l M') as H.
  { intros rest. induction rest as [|a rest IH]; intros done_ M1 Hl HM1.
    - exists M1. rewrite app_nil_r in Hl. subst. by split.
    - destruct (Hf done_ a rest M1 Hl HM1) as (M2 & Hr & HM2).
      destruct (IH (done_ ++ [a]) M2) as (M3 & Hr3 & HI3); [by rewrite <-app_assoc|done|].
      exists M3. split; [|done]. simpl. eapply runs_bind; [exact Hr|done]. }
  by apply (H l []).
Qed.

Lemma runs_fold {E T A} (f : T → A → prog E T) (l : list A) M (I : list A → T → Prop) (s : T) :
  (∀ (done_ : list A) a rest s, l = done_ ++ a :: rest → I done_ s → ∃ s', runs (f s a) M (Ok s') M ∧ I (done_ ++ [a]) s') →
  I [] s → ∃ s', runs (try_fold f s l) M (Ok s') M ∧ I l s'.
Proof.
  intros Hf HI. assert (∀ rest done_ s, l = done_ ++ rest → I done_ s → ∃ s', runs (try_fold f s rest) M (Ok s') M ∧ I l s') as H.
  { intros rest. induction rest as [|a rest IH]; intros done_ s1 Hl Hs1.
    - exists s1. rewrite app_nil_r in Hl. subst. by split.
    - destruct (Hf done_ a rest s1 Hl Hs1) as (s2 & Hr & Hs2).
      destruct (IH (done_ ++ [a]) s2) as (s3 & Hr3 & HI3); [by rewrite <-app_assoc|done|].
      exists s3. split; [|done]. simpl. by eapply runs_bind. }
  by apply (H l []).
Qed.

Lemma runs_map {E A B} (f : A → prog E B) (l : list A) (bs : list B) M :
  Forall2 (λ a b, runs (f a) M (Ok b) M) l bs → runs (try_map f l) M (Ok bs) M.
Proof. induction 1 as [|a b l bs Hr H IH]; [done|]. simpl. eapply runs_bind; [exact Hr|]. by eapply runs_bind. Qed.

(** A program that leaves the value at its key leaves the map. *)
Lemma runs_read {E A} key (p : prog E A) M x : confined key p → runs_at p (M !! key) x (M !! key) → runs p M x M.
Proof. intros Hc Hr. rewrite <-(put_id key M) at 2. by apply runs_confined. Qed.

(** All the calls are on the key, and what the program returns satisfies [P]. *)
Fixpoint confines {E A} (key : StoreKey) (p : prog E A) (P : A → Prop) : Prop :=
  match p with
  | Done (Ok a) => P a
  | Done _ => True
  | Call c _ k => call_key c = key ∧ ∀ x, confines key (k x) P
  end.

Lemma confines_bind {E A B} key (p : prog E A) (f : A → prog E B) P Q :
  confines key p P → (∀ a, P a → confines key (f a) Q) → confines key (pbind p f) Q.
Proof. induction p as [[a|e|]|X c on_err k IH]; simpl; [by auto|done..|]. intros [Hc Hk] Hf. split; [done|]. intros x. by apply IH. Qed.

Lemma confines_confined {E A} key (p : prog E A) P : confines key p P → confined key p.
Proof. induction p as [y|X c on_err k IH]; simpl; [done|]. intros [Hc Hk]. split; [done|]. intros x. by apply IH. Qed.

Lemma confined_confines {E A} key (p : prog E A) : confined key p → confines key p (λ _, True).
Proof. induction p as [[a|e|]|X c on_err k IH]; simpl; [done..|]. intros [Hc Hk]. split; [done|]. intros x. by apply IH. Qed.

Lemma confines_then {E A B} key (p : prog E A) (f : A → prog E B) P :
  confines key p P → (∀ a, P a → confined key (f a)) → confined key (pbind p f).
Proof. intros Hp Hf. eapply confines_confined, confines_bind; [exact Hp|]. intros a Ha. by apply confined_confines, Hf. Qed.

Lemma confines_runs_at {E A} key (p : prog E A) P v a v' : confines key p P → runs_at p v (Ok a) v' → P a.
Proof.
  revert v. induction p as [[b|e|]|X c on_err k IH]; intros v; simpl; [by intros ? [[= ->] _]|by intros _ [? _]..|].
  intros [_ Hk] (x & w & _ & Hr). by eapply IH.
Qed.

(** Whatever the store answers, what the program returns satisfies [P]. *)
Fixpoint yields {E A} (p : prog E A) (P : A → Prop) : Prop :=
  match p with
  | Done (Ok a) => P a
  | Done _ => True
  | Call c _ k => ∀ x, yields (k x) P
  end.

Lemma yields_bind {E A B} (p : prog E A) (f : A → prog E B) P Q : yields p P → (∀ a, P a → yields (f a) Q) → yields (pbind p f) Q.
Proof. induction p as [[a|e|]|X c on_err k IH]; simpl; [by auto|done..|]. intros Hp Hf x. by apply IH. Qed.

Lemma yields_true {E A} (p : prog E A) : yields p (λ _, True).
Proof. induction p as [[a|e|]|X c on_err k IH]; simpl; auto. Qed.

Lemma yields_run {S} `{!ReadableStorageTraits S, !WritableStorageTraits S} {E A} (p : prog E A) P (s s' : S) a :
  yields p P → run p s = (s', Ok a) → P a.
Proof.
  revert s. induction p as [[b|e|]|X c on_err k IH]; intros s; simpl; try done; [by intros Hb [= _ <-]|].
  intros Hp. destruct (exec_call c s) as [s1 [x|e|]]; [by apply IH|done..].
Qed.

(** ** Programs on a lawful store *)

Section lawful.
Context {S : Type} (abs : S → gmap str bytes) `{HL : LawfulStorage S abs}.

Lemma exec_call_at {X} (c : store_call X) s a v' : call_at c (abs s !! call_key c) a v' →
  ∃ s', exec_call c s = (s', Ok a) ∧ abs s' = put (call_key c) v' (abs s).
Proof.
  destruct c as [k|k rs|k|k b|k ovs|k]; cbn [call_at call_key exec_call].
  - intros [-> ->]. rewrite put_id. apply HL.(law_get abs).
  - intros (Hok & -> & ->). rewrite put_id. by apply HL.(law_get_partial_many abs).
  - intros [-> ->]. rewrite put_id. apply HL.(law_size_key abs).
  - intros [Hb ->]. destruct a. by apply HL.(law_set abs).
  - intros [Ho ->]. destruct a. destruct (HL.(law_set_partial_many abs) s k ovs Ho) as (s' & Hs & Ha).
    exists s'. split; [done|]. rewrite Ha. unfold spec_set_partial. destruct (decide (ovs = [])); [by rewrite put_id|done].
  - intros ->. destruct a. apply HL.(law_erase abs).
Qed.

(** What a program does to the map, it does on the store. *)
Lemma run_runs {E A} (p : prog E A) s x M' : runs p (abs s) x M' → ∃ s', run p s = (s', x) ∧ abs s' = M'.
Proof.
  revert s. induction p as [y|X c on_err k IH]; intros s; simpl.
  - intros [-> <-]. by exists s.
  - intros (a & v1 & Hc & Hk). destruct (exec_call_at c s a v1 Hc) as (s1 & Hs1 & Ha). rewrite Hs1.
    apply IH. by rewrite Ha.
Qed.

(** ** Interleaving

    A task: the key its program is confined to, and the outcome and the value the
    program ends with when it runs alone. *)
Context {E A : Type}.
Record task := mk_task { task_key : StoreKey; task_outcome : outcome E A; task_value : option bytes }.

Definition task_ok (s : S) (p : prog E A) (t : task) : Prop :=
  confined (task_key t) p ∧ runs_at p (abs s !! task_key t) (task_outcome t) (task_value t).

Definition tasks_result (tasks : list task) (M : gmap str bytes) : gmap str bytes :=
  foldr (λ t M, put (task_key t) (task_value t) M) M tasks.

(** The pool has run some of the calls of its tasks, from the map [M]. *)
Definition pool_inv (tasks : list task) (M : gmap str bytes) (pool : list (prog E A) * S) : Prop :=
  Forall2 (task_ok pool.2) pool.1 tasks ∧ NoDup (task_key <$> tasks) ∧
  ∀ k, k ∉ task_key <$> tasks → abs pool.2 !! k = M !! k.

Lemma call_at_step {X} (c : store_call X) on_err (k : X → prog E A) s t :
  task_ok s (Call c on_err k) t →
  ∃ s' r, exec_call c s = (s', r) ∧ task_ok s' (resume on_err k r) t ∧
    ∀ k', k' ≠ task_key t → abs s' !! k' = abs s !! k'.
Proof.
  intros [[Hk Hc] (a & v1 & Ha & Hr)]. rewrite <-Hk in Ha.
  destruct (exec_call_at c s a v1 Ha) as (s' & Hs' & Habs). exists s', (Ok a). split_and!; [done| |].
  - split; [apply Hc|]. simpl. rewrite Habs, Hk, put_lookup. done.
  - intros k' Hne. rewrite Habs, Hk. by apply put_lookup_ne.
Qed.

Lemma pool_inv_step tasks M pool pool' : pool_inv tasks M pool → pool_step pool pool' → pool_inv tasks M pool'.
Proof.
  intros (Hok & Hnd & Hfr) Hst. destruct Hst as [i X c on_err k ps s s' r Hi Hex]. simpl in *.
  destruct (Forall2_lookup_l _ _ _ _ _ Hok Hi) as (t & Ht & Htok).
  destruct (call_at_step c on_err k s t Htok) as (s1 & r1 & Hex1 & Htok1 & Hne).
  rewrite Hex in Hex1. injection Hex1 as <- <-. unfold pool_inv. cbn [fst snd]. split_and!; [|done|].
  - apply Forall2_same_length_lookup. pose proof (Forall2_length _ _ _ Hok) as Hl. split; [by rewrite length_insert|].
    intros j q u Hj Hu. destruct (decide (j = i)) as [->|Hji].
    + rewrite Ht in Hu. injection Hu as <-. rewrite list_lookup_insert_eq in Hj by (by eapply lookup_lt_Some).
      by injection Hj as <-.
    + rewrite list_lookup_insert_ne in Hj by done.
      destruct (Forall2_lookup_lr _ _ _ _ _ _ Hok Hj Hu) as [Hc Hr]. split; [done|]. rewrite Hne; [done|].
      intros Heq. apply Hji. eapply (NoDup_lookup (task_key <$> tasks)); [done|by rewrite list_lookup_fmap, Hu|].
      by rewrite list_lookup_fmap, Ht, Heq.
  - intros k' Hk'. rewrite Hne; [by apply Hfr|]. intros ->. apply Hk'. apply list_elem_of_fmap_2.
    by eapply list_elem_of_lookup_2.
Qed.

Lemma tasks_result_lookup tasks M M' : NoDup (task_key <$> tasks) →
  (∀ t, t ∈ tasks → M' !! task_key t = task_value t) → (∀ k, k ∉ task_key <$> tasks → M' !! k = M !! k) →
  M' = tasks_result tasks M.
Proof.
  intros Hnd Hin Hout. apply map_eq. intros k. destruct (decide (k ∈ task_key <$> tasks)) as [Hk|Hk].
  - clear Hout. induction tasks as [|t tasks IH]; [by apply not_elem_of_nil in Hk|]. simpl.
    apply NoDup_cons in Hnd as [Hn Hnd]. apply elem_of_cons in Hk as [->|Hk].
    + rewrite put_lookup. apply Hin, list_elem_of_here.
    + rewrite put_lookup_ne by (intros ->; done). apply IH; [done| |done]. intros u Hu. by apply Hin, list_elem_of_further.
  - rewrite Hout by done. clear -Hk. induction tasks as [|t tasks IH]; [done|]. simpl.
    rewrite fmap_cons in Hk. apply not_elem_of_cons in Hk as [Hne Hk]. rewrite put_lookup_ne by done. by apply IH.
Qed.

(** What the tasks leave. *)
Lemma tasks_result_in tasks M t : NoDup (task_key <$> tasks) → t ∈ tasks → tasks_result tasks M !! task_key t = task_value t.
Proof.
  induction tasks as [|u tasks IH]; [by intros _ ?%not_elem_of_nil|]. rewrite fmap_cons. intros [Hn Hnd]%NoDup_cons Ht. simpl.
  apply elem_of_cons in Ht as [->|Ht]; [by rewrite put_lookup|]. rewrite put_lookup_ne; [by apply IH|].
  intros Heq. apply Hn. rewrite <-Heq. by apply list_elem_of_fmap_2.
Qed.

Lemma tasks_result_out tasks M k : k ∉ task_key <$> tasks → tasks_result tasks M !! k = M !! k.
Proof.
  induction tasks as [|u tasks IH]; [done|]. rewrite fmap_cons. intros [Hne Hk]%not_elem_of_cons. simpl.
  rewrite put_lookup_ne by done. by apply IH.
Qed.
End lawful.

Lemma try_for_each_fmap {E A} (f : A → prog E unit) (l : list A) : try_for_each id (f <$> l) = try_for_each f l.
Proof. induction l as [|a l IH]; [done|]. rewrite fmap_cons. cbn [try_for_each]. by rewrite IH. Qed.

(** *** Every schedule ends *)

(** [q] is what is left of [p] after one call. *)
Definition after_call {E A} (q p : prog E A) : Prop :=
  match p with Done _ => False | Call c on_err k => ∃ r, q = resume on_err k r end.

Lemma after_call_wf {E A} (p : prog E A) : Acc after_call p.
Proof.
  induction p as [y|X c on_err k IH]; constructor; intros q Hq; simpl in Hq; [done|].
  destruct Hq as [[a|e|] ->]; simpl; [apply IH|..]; by constructor.
Qed.

Definition pool_after {E A} (qs ps : list (prog E A)) : Prop :=
  ∃ (i : nat) p q, ps !! i = Some p ∧ after_call q p ∧ qs = <[i := q]> ps.

Lemma pool_after_wf {E A} (ps : list (prog E A)) : Acc pool_after ps.
Proof.
  induction ps as [|p ps IHps]; [by constructor; intros qs (i & p & q & Hi & _)|].
  revert p. induction IHps as [ps _ IHps]. intros p. induction (after_call_wf p) as [p _ IHp].
  constructor. intros qs ([|i] & p' & q & Hi & Hq & ->); simpl in *.
  - injection Hi as <-. by apply IHp.
  - apply IHps. by exists i, p', q.
Qed.

Lemma pool_step_after {S E A} `{!ReadableStorageTraits S, !WritableStorageTraits S} (pool pool' : list (prog E A) * S) :
  pool_step pool pool' → pool_after pool'.1 pool.1.
Proof.
  intros [i X c on_err k ps s s' r Hi _]. exists i, (Call c on_err k), (resume on_err k r). split_and!; [done| |done].
  by exists r.
Qed.

Lemma pool_step_wf {S E A} `{!ReadableStorageTraits S, !WritableStorageTraits S} (ps : list (prog E A)) (s : S) :
  Acc (λ y x, pool_step x y) (ps, s).
Proof.
  revert s. induction (pool_after_wf ps) as [ps _ IH]. intros s. constructor. intros [qs s'] Hst. apply IH.
  by apply pool_step_after in Hst.
Qed.

Definition is_done {E A} (p : prog E A) : Prop := match p with Done _ => True | Call _ _ _ => False end.

#[export] Instance is_done_dec {E A} (p : prog E A) : Decision (is_done p).
Proof. destruct p; apply _. Defined.

Section schedules.
Context {S : Type} (abs : S → gmap str bytes) `{HL : LawfulStorage S abs} {E A : Type}.

(** A pool that cannot make a call is done. *)
Lemma pool_progress (tasks : list (task (E:=E) (A:=A))) M ps s : pool_inv abs tasks M (ps, s) →
  (∃ pool, pool_step (ps, s) pool) ∨
  (ps = (λ t, Done (task_outcome t)) <$> tasks ∧ abs s = tasks_result tasks M).
Proof.
  intros (Hok & Hnd & Hfr). cbn [fst snd] in *.
  destruct (first_or_all ps is_done) as [Hall|(pre & p & post & -> & _ & Hp)].
  - right. split.
    + clear Hnd Hfr. induction Hok as [|p t ps tasks [_ Hr] Hok IH]; [done|].
      apply Forall_cons in Hall as [Hp Hall]. rewrite fmap_cons, <-IH by done.
      destruct p as [y|]; [|done]. by destruct Hr as [-> _].
    + apply tasks_result_lookup; [done| |done]. intros t [i Ht]%list_elem_of_lookup.
      destruct (Forall2_lookup_r _ _ _ _ _ Hok Ht) as (p & Hp & _ & Hr).
      pose proof (Forall_lookup_1 _ _ _ _ Hall Hp) as Hd. destruct p as [y|]; [|done]. by destruct Hr as [_ ->].
  - left. destruct p as [y|X c on_err k]; [by exfalso; apply Hp|].
    destruct (exec_call c s) as [s' r] eqn:He. eexists. eapply (pool_call (length pre)); [|done].
    rewrite lookup_app_r, Nat.sub_diag by lia. done.
Qed.

(** Every schedule ends, where the tasks are done. *)
Lemma schedules_end (tasks : list (task (E:=E) (A:=A))) ps s : Forall2 (task_ok abs s) ps tasks → NoDup (task_key <$> tasks) →
  Acc (λ y x, pool_step x y) (ps, s) ∧
  ∀ pool, rtc pool_step (ps, s) pool →
    (∃ pool', pool_step pool pool') ∨
    (pool.1 = (λ t, Done (task_outcome t)) <$> tasks ∧ abs pool.2 = tasks_result tasks (abs s)).
Proof.
  intros Hok Hnd. split; [apply pool_step_wf|]. intros pool Hr.
  assert (pool_inv abs tasks (abs s) pool) as Hinv.
  { assert (pool_inv abs tasks (abs s) (ps, s)) as Hinit by done. revert Hinit. clear Hok.
    induction Hr as [|p1 p2 p3 Hst _ IH]; [done|]. intros Hi. apply IH. by eapply pool_inv_step. }
  destruct pool as [ps' s']. by apply (pool_progress tasks (abs s) ps' s').
Qed.

Lemma serial_runs (tasks : list (task (E:=E) (A:=unit))) M ps :
  Forall2 (λ p t, confined (task_key t) p ∧ runs_at p (M !! task_key t) (task_outcome t) (task_value t)) ps tasks →
  NoDup (task_key <$> tasks) → Forall (λ t, task_outcome t = Ok tt) tasks →
  ∃ M', runs (try_for_each id ps) M (Ok tt) M' ∧ M' = tasks_result tasks M.
Proof.
  intros Hok Hnd Hout.
  assert (∃ M', runs (try_for_each id ps) M (Ok tt) M' ∧
    (∀ t, t ∈ tasks → M' !! task_key t = task_value t) ∧ (∀ k, k ∉ task_key <$> tasks → M' !! k = M !! k)) as (M' & Hr & Hin & Hfr);
    [|exists M'; split; [done|by apply tasks_result_lookup]].
  revert M Hok. induction tasks as [|t tasks IH] in ps, Hnd, Hout |- *; intros M Hok.
  { apply Forall2_nil_inv_r in Hok as ->. exists M. split_and!; [done| |done]. by intros t ?%not_elem_of_nil. }
  apply Forall2_cons_inv_r in Hok as (p & ps' & [Hc Hr] & Hok & ->).
  apply NoDup_cons in Hnd as [Hn Hnd]. apply Forall_cons in Hout as [Ho Hout].
  rewrite Ho in Hr. pose proof (runs_confined _ _ _ _ _ Hc Hr) as Hr1.
  destruct (IH ps' Hnd Hout (put (task_key t) (task_value t) M)) as (M2 & Hr2 & Hin & Hfr).
  { apply Forall2_same_length_lookup. apply Forall2_same_length_lookup in Hok as [Hl Hok]. split; [done|].
    intros i q u Hq Hu. destruct (Hok i q u Hq Hu) as [Hcq Hrq]. split; [done|].
    rewrite put_lookup_ne; [done|]. intros Heq. apply Hn. rewrite <-Heq. apply list_elem_of_fmap_2.
    by eapply list_elem_of_lookup_2. }
  exists M2. split_and!.
  - simpl. by eapply runs_bind.
  - intros u [->|Hu]%elem_of_cons; [|by apply Hin]. by rewrite Hfr, put_lookup.
  - intros k. rewrite fmap_cons. intros [Hne Hk]%not_elem_of_cons. by rewrite Hfr, put_lookup_ne.
Qed.

End schedules.
