(* ===== verification/DecodeInto.v ===== *)
(** Assembling the bytes of a region from those of the chunks: the decode targets of
    [zarrs_codec/src/lib.rs] and [array_bytes.rs], and the helpers of
    [zarrs/src/array/array_bytes_internal.rs].

    Fixed-length chunks are decoded in place: each chunk writes a view of the memory of
    the region.  Variable-length chunks are merged once all are decoded.  Either
    way the elements of the region end up those of the chunks. *)

From S2P Require Import Prelude ArraySubset Linear Iterators ByteRange ArrayBytes Elements.

(** ** Targets *)

Definition view_num_elements (self : ArrayBytesFixedDisjointView) : Z := num_elements (view_subset self).

(** A view mutably borrows memory, which the target carries: its operations return the
    target with the memory they leave. *)
Inductive ArrayBytesDecodeIntoTarget :=
  | TargetFixed (data : ArrayBytesFixedDisjointView) (memory : bytes)
  | TargetOptional (data : ArrayBytesDecodeIntoTarget) (mask : ArrayBytesFixedDisjointView) (memory : bytes).

Fixpoint target_num_elements (self : ArrayBytesDecodeIntoTarget) : Z :=
  match self with
  | TargetFixed data _ => view_num_elements data
  | TargetOptional data _ _ => target_num_elements data
  end.

Fixpoint decode_into_array_bytes_target (b : ArrayBytes) (target : ArrayBytesDecodeIntoTarget)
    : outcome CodecError ArrayBytesDecodeIntoTarget :=
  match b, target with
  | FixedBytes data_bytes, TargetFixed data memory =>
      let? memory := view_copy_from_slice data memory data_bytes in
      Ok (TargetFixed data memory)
  | OptionalBytes data_bytes mask_bytes, TargetOptional data mask memory =>
      let? data := decode_into_array_bytes_target data_bytes data in
      let? memory := view_copy_from_slice mask memory mask_bytes in
      Ok (TargetOptional data mask memory)
  | VariableBytes _, _ => Err ExpectedFixedLengthBytes
  | FixedBytes _, TargetOptional _ _ _ => Err ExpectedOptionalBytes
  | OptionalBytes _ _, TargetFixed _ _ => Err ExpectedFixedLengthBytes
  end.

Definition copy_fill_value_into (data_type : DataType) (fill_value : FillValue) (target : ArrayBytesDecodeIntoTarget)
    : outcome CodecError ArrayBytesDecodeIntoTarget :=
  let num_elements := target_num_elements target in
  let? fill_value_bytes := new_fill_value data_type num_elements fill_value in
  decode_into_array_bytes_target fill_value_bytes target.

Fixpoint optional_nesting_depth (data_type : DataType) : nat :=
  match data_type with OptionalType inner => S (optional_nesting_depth inner) | PlainType _ => 0 end.

(** The mask views are ordered from the outermost to the innermost mask. *)
Fixpoint build_nested_optional_target (data_view : ArrayBytesFixedDisjointView * bytes)
    (mask_views : list (ArrayBytesFixedDisjointView * bytes)) : ArrayBytesDecodeIntoTarget :=
  match mask_views with
  | first_mask :: rest_masks =>
      TargetOptional (build_nested_optional_target data_view rest_masks) first_mask.1 first_mask.2
  | [] => TargetFixed data_view.1 data_view.2
  end.

Fixpoint extract_target_views (target : ArrayBytesDecodeIntoTarget)
    : (ArrayBytesFixedDisjointView * bytes) * list (ArrayBytesFixedDisjointView * bytes) :=
  match target with
  | TargetFixed view memory => ((view, memory), [])
  | TargetOptional inner mask_view memory =>
      let '(data_view, mask_views) := extract_target_views inner in (data_view, (mask_view, memory) :: mask_views)
  end.

(** ** Merging variable-length chunks *)

(** [l[i] = x]. *)
Definition index_set {E A} (l : list A) (i : Z) (x : A) : outcome E (list A) :=
  if (0 <=? i) && (i <? zlen l) then Ok (<[Z.to_nat i := x]> l) else Panic.

(** The loop over [indices.iter().zip_eq(offsets.tuple_windows())], which panics when one
    ends before the other. *)
Fixpoint zip_eq_windows {E S} (step : S → Z → Z → Z → outcome E S) (s : S) (indices offsets : list Z) : outcome E S :=
  match indices, offsets with
  | [], [] | [], [_] => Ok s
  | i :: indices, curr :: ((next :: _) as offsets) =>
      let? s := step s i curr next in zip_eq_windows step s indices offsets
  | _, _ => Panic
  end.

Definition size_step {E} (element_sizes : list Z) (subset_idx curr next : Z) : outcome E (list Z) :=
  index_set element_sizes subset_idx (next -w curr).

Definition bytes_step {E} (offsets : list Z) (chunk_bytes : bytes) (b : bytes) (subset_idx chunk_curr chunk_next : Z)
    : outcome E bytes :=
  let? subset_curr := index offsets subset_idx in
  let? subset_next := index offsets (subset_idx +w 1) in
  let? part := slice chunk_bytes chunk_curr chunk_next in
  copy_from_slice b subset_curr subset_next part.

Definition unwrap {E F A} (x : outcome E A) : outcome F A := match x with Ok a => Ok a | _ => Panic end.

(** The items of an iterator over a subset, as [into_iter] enumerates them. *)
Definition indices {E} (chunks : ArraySubset) : outcome E (list (list Z)) :=
  unwrap (drain (λ it, Ok (Indices_next it)) (Indices_new chunks) (Zprod (shape chunks))).

Fixpoint fold_outcome {E S A} (f : S → A → outcome E S) (s : S) (l : list A) : outcome E S :=
  match l with [] => Ok s | a :: l => let? s := f s a in fold_outcome f s l end.

(** The cumulative sum. *)
Fixpoint scan_sum (acc : Z) (sizes : list Z) : list Z :=
  match sizes with [] => [] | sz :: sizes => let acc := acc +w sz in acc :: scan_sum acc sizes end.

Definition merge_chunks_vlen {E} (chunk_bytes_and_subsets : list (ArrayBytesVariableLength * ArraySubset))
    (array_shape : list Z) : outcome E ArrayBytesVariableLength :=
  let num_elements := product64 array_shape in
  let? element_sizes := fold_outcome (λ element_sizes '(chunk_bytes, chunk_subset),
      let? indices := unwrap (linearised_indices chunk_subset array_shape) in
      zip_eq_windows size_step element_sizes indices (vl_offsets chunk_bytes))
    (replicate (Z.to_nat num_elements) 0) chunk_bytes_and_subsets in
  let offsets := 0 :: scan_sum 0 element_sizes in
  let? b := fold_outcome (λ b '(chunk_bytes, chunk_subset),
      let? indices := unwrap (linearised_indices chunk_subset array_shape) in
      zip_eq_windows (bytes_step offsets (vl_bytes chunk_bytes)) b indices (vl_offsets chunk_bytes))
    (replicate (Z.to_nat (default 0 (last offsets))) 0) chunk_bytes_and_subsets in
  Ok (mk_vlen b offsets).

(** The optional layers of a chunk, the outermost mask first. *)
Fixpoint unwrap_masks (nesting_depth : nat) (current : ArrayBytes) : outcome CodecError (list bytes * ArrayBytes) :=
  match nesting_depth with
  | O => Ok ([], current)
  | S nesting_depth =>
      let? (data, mask) := into_optional current in
      let? (masks, current) := unwrap_masks nesting_depth data in
      Ok (mask :: masks, current)
  end.

(** The copy of a chunk's mask: [merged_mask[array_idx] = chunk_mask[chunk_idx]]. *)
Fixpoint mask_loop (merged_mask chunk_mask : bytes) (chunk_idx : Z) (indices : list Z) : outcome CodecError bytes :=
  match indices with
  | [] => Ok merged_mask
  | array_idx :: indices =>
      let? m := index chunk_mask chunk_idx in
      let? merged_mask := index_set merged_mask array_idx m in
      mask_loop merged_mask chunk_mask (chunk_idx + 1) indices
  end.

Fixpoint masks_loop (merged_masks chunk_masks : list bytes) (indices : list Z) : outcome CodecError (list bytes) :=
  match merged_masks, chunk_masks with
  | merged_mask :: merged_masks, chunk_mask :: chunk_masks =>
      let? merged_mask := mask_loop merged_mask chunk_mask 0 indices in
      let? merged_masks := masks_loop merged_masks chunk_masks indices in
      Ok (merged_mask :: merged_masks)
  | _, _ => Ok merged_masks
  end.

Definition with_masks (data : ArrayBytes) (masks : list bytes) : ArrayBytes := foldr (λ mask b, OptionalBytes b mask) data masks.

(** The loop body: the chunk's masks are copied, its variable-length bytes collected. *)
Definition merge_optional_step (array_shape : list Z) (nesting_depth : nat)
    (state : list bytes * list (ArrayBytesVariableLength * ArraySubset)) (chunk : ArrayBytes * ArraySubset)
    : outcome CodecError (list bytes * list (ArrayBytesVariableLength * ArraySubset)) :=
  let (merged_masks, inner_bytes_and_subsets) := state in
  let (chunk_bytes, chunk_subset) := chunk in
  let? (chunk_masks, current) := unwrap_masks nesting_depth chunk_bytes in
  let? indices := unwrap (linearised_indices chunk_subset array_shape) in
  let? merged_masks := masks_loop merged_masks chunk_masks indices in
  let? v := into_variable current in
  Ok (merged_masks, inner_bytes_and_subsets ++ [(v, chunk_subset)]).

Definition merge_chunks_vlen_optional (chunk_bytes_and_subsets : list (ArrayBytes * ArraySubset)) (array_shape : list Z)
    (nesting_depth : nat) : outcome CodecError ArrayBytes :=
  let num_elements := product64 array_shape in
  let merged_masks := replicate nesting_depth (replicate (Z.to_nat num_elements) 0) in
  let? (merged_masks, inner_bytes_and_subsets) :=
    fold_outcome (merge_optional_step array_shape nesting_depth) (merged_masks, []) chunk_bytes_and_subsets in
  let? merged_vlen := merge_chunks_vlen inner_bytes_and_subsets array_shape in
  let result := with_masks (VariableBytes merged_vlen) merged_masks in
  let? _ := into_optional result in
  Ok result.

(** ** The merge of variable-length chunks

    Every chunk holds the elements [T] has at its positions, and every position is one of a
    chunk: the merge is [T]. *)

(** The loop visits all positions; [R] holds of the positions visited so far. *)
Lemma zip_eq_windows_visits {E St} (step : St → Z → Z → Z → outcome E St) (R : (Z → Prop) → St → Prop) T v idxs (Vis : Z → Prop) s :
  (∀ P Q t, (∀ i, P i ↔ Q i) → R P t → R Q t) →
  (∀ P t i a b, R P t → 0 <= i < zlen T → (∀ E, slice (E:=E) (vl_bytes v) a b = Ok (T !!! Z.to_nat i)) →
     ∃ t', step t i a b = Ok t' ∧ R (λ j, P j ∨ j = i) t') →
  Forall (λ i, 0 <= i < zlen T) idxs → vlen_elements v (select T idxs) → R Vis s →
  ∃ s', zip_eq_windows step s idxs (vl_offsets v) = Ok s' ∧ R (λ j, Vis j ∨ j ∈ idxs) s'.
Proof.
  intros Hiff Hstep Hi [Hl Hv]. rewrite length_select in Hl. generalize dependent (vl_offsets v). intros offs Hl Hv.
  revert offs Hl Hv Vis s. induction Hi as [|i idxs Hi Hidxs IH]; intros offs Hl Hv Vis s HR.
  - destruct offs as [|o [|o' offs]]; try done. exists s. split; [done|]. eapply Hiff; [|exact HR].
    intros j. rewrite elem_of_nil. tauto.
  - destruct offs as [|a [|b offs]]; try done. destruct (Hv 0%nat (T !!! Z.to_nat i)) as (a' & b' & [= <-] & [= <-] & Hs); [done|].
    destruct (Hstep Vis s i a b HR Hi Hs) as (s1 & Hs1 & HR1). cbn [zip_eq_windows]. rewrite Hs1. cbn [obind].
    destruct (IH (b :: offs)) with (Vis := λ j, Vis j ∨ j = i) (s := s1) as (s2 & Hs2 & HR2).
    + simpl in Hl |- *. lia.
    + intros k e Hk. apply (Hv (S k) e). done.
    + done.
    + exists s2. split; [done|]. eapply Hiff; [|exact HR2]. intros j. rewrite elem_of_cons. tauto.
Qed.

(** The same over the chunks. *)
Lemma chunks_visit {E St} (step : ArrayBytesVariableLength → St → Z → Z → Z → outcome E St) (R : (Z → Prop) → St → Prop)
    T sh parts (Vis : Z → Prop) s :
  (∀ P Q t, (∀ i, P i ↔ Q i) → R P t → R Q t) →
  (∀ v P t i a b, R P t → 0 <= i < zlen T → (∀ E, slice (E:=E) (vl_bytes v) a b = Ok (T !!! Z.to_nat i)) →
     ∃ t', step v t i a b = Ok t' ∧ R (λ j, P j ∨ j = i) t') →
  zlen T = Zprod sh → Forall (λ p, region_ok p.2 sh ∧ vlen_elements p.1 (select T (positions p.2 sh))) parts → R Vis s →
  ∃ s', fold_outcome (λ s '(chunk_bytes, chunk_subset),
      let? indices := unwrap (linearised_indices chunk_subset sh) in
      zip_eq_windows (step chunk_bytes) s indices (vl_offsets chunk_bytes)) s parts = Ok s' ∧
    R (λ j, Vis j ∨ ∃ p, p ∈ parts ∧ j ∈ positions p.2 sh) s'.
Proof.
  intros Hiff Hstep HT Hp. revert Vis s. induction Hp as [|[v sub] parts [Hok Hv] Hp IH]; intros Vis s HR.
  - exists s. split; [done|]. eapply Hiff; [|exact HR]. intros j. split; [by left|].
    by intros [?|(p & ?%not_elem_of_nil & _)].
  - simpl in Hok, Hv. cbn [fold_outcome]. rewrite linearised_indices_ok by done. cbn [unwrap obind].
    destruct (zip_eq_windows_visits (step v) R T v (positions sub sh) Vis s Hiff (Hstep v)) as (s1 & Hs1 & HR1); [|done..|].
    { rewrite HT. apply positions_bound; apply Hok. }
    rewrite Hs1. cbn [obind]. destruct (IH _ _ HR1) as (s2 & Hs2 & HR2). exists s2. split; [done|].
    eapply Hiff; [|exact HR2]. intros j. split.
    + intros [[?|?]|(p & Hp1 & Hj)]; [by left|right|right].
      * exists (v, sub). split; [apply list_elem_of_here|done].
      * exists p. split; [by apply list_elem_of_further|done].
    + intros [?|(p & Hp1 & Hj)]; [by left; left|].
      apply elem_of_cons in Hp1 as [->|Hp1]; [by left; right|right]. by exists p.
Qed.

Lemma scan_sum_offsets T : zlen (concat T) < u64_modulus →
  0 :: scan_sum 0 ((λ e, zlen e) <$> T) = offset_of T <$> seq 0 (S (length T)).
Proof.
  intros Hb. assert (∀ K P, T = P ++ K → scan_sum (zlen (concat P)) ((λ e, zlen e) <$> K) =
    (λ k, offset_of T (length P + k)%nat) <$> seq 1 (length K)) as H.
  { intros K. induction K as [|e K IH]; intros P HT; [done|]. cbn [fmap list_fmap scan_sum length seq].
    assert (zlen (concat P) + zlen e = zlen (concat (P ++ [e]))) as Hadd by (rewrite concat_app, length_app; simpl; rewrite app_nil_r; lia).
    rewrite wrap64_small; [|unfold is_u64; rewrite HT, concat_app, !length_app in Hb; cbn [concat] in Hb; rewrite length_app in Hb; lia].
    rewrite Hadd. f_equal.
    - unfold offset_of. rewrite HT. replace (P ++ e :: K) with ((P ++ [e]) ++ K) by (by rewrite <-app_assoc).
      rewrite take_app_length'; [done|]. rewrite length_app. simpl. lia.
    - rewrite IH by (by rewrite <-app_assoc). rewrite <-(fmap_S_seq 1), <-list_fmap_compose.
      apply list_fmap_ext_in. intros k _. simpl. f_equal. rewrite length_app. simpl. lia. }
  specialize (H T [] eq_refl). cbn [concat length] in H. change (Z.of_nat 0) with 0 in H. rewrite H. cbn [seq fmap list_fmap].
  f_equal.
Qed.

Lemma copy_at_element {E} X i e : (i < length X)%nat → length e = length (X !!! i) →
  copy_from_slice (E:=E) (concat X) (offset_of X i) (offset_of X (S i)) e = Ok (concat (<[i := e]> X)).
Proof.
  intros Hi He. destruct (lookup_lt_is_Some_2 X i Hi) as [x Hx]. rewrite (list_lookup_total_correct _ _ _ Hx) in He.
  pose proof (concat_split X i x Hx) as Hc. rewrite (offset_of_S X i x Hx). unfold copy_from_slice.
  assert (zlen (concat X) = offset_of X i + zlen x + zlen (concat (drop (S i) X))) as Hl.
  { rewrite Hc, !length_app. unfold offset_of. lia. }
  rewrite !(proj2 (Z.leb_le _ _)), (proj2 (Z.eqb_eq _ _)) by (rewrite ?Hl; unfold offset_of; lia). simpl. f_equal.
  rewrite (concat_split (<[i := e]> X) i e) by (by apply list_lookup_insert_eq).
  rewrite take_insert_ge, drop_insert_lt by lia. rewrite Hc. f_equal; [|f_equal].
  - rewrite take_app_length' by (unfold offset_of; lia). done.
  - rewrite app_assoc. rewrite drop_app_length' by (rewrite length_app; unfold offset_of; lia). done.
Qed.

Definition lens (X : list bytes) : list Z := (λ e, zlen e) <$> X.

Lemma offset_of_lens X T k : lens X = lens T → offset_of X k = offset_of T k.
Proof.
  intros H. unfold offset_of. rewrite <-!Zsum_lengths, !fmap_take. unfold lens in H. by rewrite H.
Qed.

Lemma lens_insert X (i : nat) e : lens (<[i := e]> X) = <[i := zlen e]> (lens X).
Proof. unfold lens. by rewrite list_fmap_insert. Qed.

Lemma concat_zeros T : concat ((λ e : bytes, replicate (length e) 0) <$> T) = replicate (length (concat T)) 0.
Proof. induction T as [|e T IH]; [done|]. cbn [fmap list_fmap concat]. by rewrite length_app, replicate_add, <-IH. Qed.

Lemma size_step_ok {E} T P (t : list Z) i a b v :
  zlen (concat T) < u64_modulus → (length t = length T ∧ ∀ j, P j → 0 <= j < zlen T → t !! Z.to_nat j = Some (zlen (T !!! Z.to_nat j))) →
  0 <= i < zlen T → (∀ E, slice (E:=E) (vl_bytes v) a b = Ok (T !!! Z.to_nat i)) →
  ∃ t', size_step (E:=E) t i a b = Ok t' ∧
    (length t' = length T ∧ ∀ j, (P j ∨ j = i) → 0 <= j < zlen T → t' !! Z.to_nat j = Some (zlen (T !!! Z.to_nat j))).
Proof.
  intros Hb [Hl Ht] Hi Hs. specialize (Hs unit). apply slice_Ok in Hs as (Hab & _ & He).
  destruct (lookup_lt_is_Some_2 T (Z.to_nat i) ltac:(lia)) as [e Hte]. rewrite (list_lookup_total_correct _ _ _ Hte) in He.
  assert (zlen e <= zlen (concat T)) as Hle by (rewrite (concat_split T _ _ Hte), !length_app; lia).
  unfold size_step, index_set. rewrite (proj2 (Z.leb_le _ _)), (proj2 (Z.ltb_lt _ _)) by lia. simpl.
  rewrite wrap64_small by (unfold is_u64; lia). eexists. split; [done|]. split; [by rewrite length_insert|].
  intros j Hj Hjr. destruct (decide (j = i)) as [->|Hji].
  - rewrite list_lookup_insert_eq by lia. f_equal. rewrite (list_lookup_total_correct _ _ _ Hte). lia.
  - rewrite list_lookup_insert_ne by lia. apply Ht; [tauto|done].
Qed.

Definition bytes_inv (T : list bytes) (P : Z → Prop) (b : bytes) : Prop :=
  ∃ X, b = concat X ∧ lens X = lens T ∧ ∀ j, P j → 0 <= j < zlen T → X !! Z.to_nat j = T !! Z.to_nat j.

Lemma bytes_step_ok {E} T P b i x y v : zlen T < u64_modulus → bytes_inv T P b →
  0 <= i < zlen T → (∀ E, slice (E:=E) (vl_bytes v) x y = Ok (T !!! Z.to_nat i)) →
  ∃ b', bytes_step (E:=E) (offset_of T <$> seq 0 (S (length T))) (vl_bytes v) b i x y = Ok b' ∧
    bytes_inv T (λ j, P j ∨ j = i) b'.
Proof.
  intros Hb (X & -> & HX & HP) Hi Hs. unfold bytes_step, index.
  assert (length X = length T) as Hl by (pose proof (f_equal length HX) as H; unfold lens in H; by rewrite !length_fmap in H).
  rewrite (wrap64_small (i + 1)) by (unfold is_u64; lia). rewrite !(proj2 (Z.leb_le 0 _)) by lia.
  rewrite !list_lookup_fmap, !lookup_seq_lt by lia. simpl. rewrite Hs. simpl.
  replace (Z.to_nat (i + 1)) with (S (Z.to_nat i)) by lia.
  destruct (lookup_lt_is_Some_2 T (Z.to_nat i) ltac:(lia)) as [e He]. rewrite (list_lookup_total_correct _ _ _ He).
  destruct (lookup_lt_is_Some_2 X (Z.to_nat i) ltac:(lia)) as [x' Hx'].
  assert (zlen x' = zlen e) as Hlen.
  { pose proof (f_equal (lookup (Z.to_nat i)) HX) as H. unfold lens in H. rewrite !list_lookup_fmap, Hx', He in H. by injection H. }
  rewrite <-!(offset_of_lens X T) by done. rewrite copy_at_element; [|lia|].
  - eexists. split; [done|]. exists (<[Z.to_nat i := e]> X). split_and!; [done| |].
    + rewrite lens_insert, HX. apply list_insert_id. unfold lens. by rewrite list_lookup_fmap, He.
    + intros j Hj Hjr. destruct (decide (j = i)) as [->|Hji]; [by rewrite list_lookup_insert_eq by lia|].
      rewrite list_lookup_insert_ne by lia. apply HP; [tauto|done].
  - rewrite (list_lookup_total_correct _ _ _ Hx'). lia.
Qed.

(** The chunks are parts of [T] and cover it. *)
Definition parts_of (T : list bytes) (sh : list Z) (parts : list (ArrayBytesVariableLength * ArraySubset)) : Prop :=
  Forall (λ p, region_ok p.2 sh ∧ vlen_elements p.1 (select T (positions p.2 sh))) parts ∧
  ∀ j, 0 <= j < zlen T → ∃ p, p ∈ parts ∧ j ∈ positions p.2 sh.

Lemma merge_chunks_vlen_ok {E} T parts sh : shape_wf sh → zlen T = Zprod sh → zlen (concat T) < u64_modulus →
  parts_of T sh parts → merge_chunks_vlen (E:=E) parts sh = Ok (pack T).
Proof.
  intros Hsh HT Hb [Hp Hcov]. unfold merge_chunks_vlen. rewrite product64_wf by done.
  destruct (chunks_visit (E:=E) (λ _, size_step)
    (λ P t, length t = length T ∧ ∀ j, P j → 0 <= j < zlen T → t !! Z.to_nat j = Some (zlen (T !!! Z.to_nat j)))
    T sh parts (λ _, False) (replicate (Z.to_nat (Zprod sh)) 0)) as (sizes & -> & Hsl & Hsz).
  { intros P Q t HPQ [Hl H]. split; [done|]. intros j Hj. apply H, HPQ, Hj. }
  { intros v P t i a b. by apply (size_step_ok T P t i a b v). }
  { done. }
  { done. }
  { rewrite length_replicate. split; [lia|done]. }
  cbn [obind]. assert (sizes = (λ e : bytes, zlen e) <$> T) as ->.
  { apply list_eq_total; [by rewrite length_fmap|]. intros k Hk.
    assert (0 <= Z.of_nat k < zlen T) as Hkr by lia. pose proof (Hsz (Z.of_nat k)) as Hs. rewrite Nat2Z.id in Hs.
    specialize (Hs (or_intror (Hcov _ Hkr)) Hkr). rewrite (list_lookup_total_correct _ _ _ Hs).
    symmetry. apply list_lookup_total_correct. destruct (lookup_lt_is_Some_2 T k ltac:(lia)) as [e He].
    by rewrite list_lookup_fmap, He, (list_lookup_total_correct _ _ _ He). }
  rewrite scan_sum_offsets by done.
  assert (default 0 (last (offset_of T <$> seq 0 (S (length T)))) = zlen (concat T)) as ->.
  { rewrite seq_S, fmap_app. cbn [fmap list_fmap]. rewrite last_snoc. simpl. apply offset_of_all. }
  rewrite Nat2Z.id.
  destruct (chunks_visit (E:=E) (λ v, bytes_step (offset_of T <$> seq 0 (S (length T))) (vl_bytes v)) (bytes_inv T)
    T sh parts (λ _, False) (replicate (length (concat T)) 0)) as (b & -> & X & -> & HX & HXT).
  { intros P Q t HPQ (X & -> & HX & H). exists X. split_and!; [done|done|]. intros j Hj. apply H, HPQ, Hj. }
  { intros v P t i x y. apply (bytes_step_ok T P t i x y v). pose proof (proj2 Hsh). lia. }
  { done. }
  { done. }
  { exists ((λ e : bytes, replicate (length e) 0) <$> T). split_and!; [by rewrite concat_zeros| |done].
    unfold lens. rewrite list_fmap_fmap. apply list_fmap_ext_in. intros e _. by rewrite length_replicate. }
  cbn [obind]. unfold pack. do 2 f_equal. f_equal. apply list_eq. intros k.
  assert (length X = length T) as Hl by (pose proof (f_equal length HX) as H; unfold lens in H; by rewrite !length_fmap in H).
  destruct (decide (k < length T)%nat) as [Hk|Hk]; [|rewrite !lookup_ge_None_2 by lia; done].
  rewrite <-(Nat2Z.id k). apply HXT; [right; apply Hcov|]; lia.
Qed.

(** ** The merge of optional variable-length chunks *)

Definition top_mask (c : cell) : Z := match c with Cell _ => 0 | Masked _ m => m end.
Definition top_inner (c : cell) : cell := match c with Cell _ => c | Masked c _ => c end.
Definition cell_bytes (c : cell) : bytes := match c with Cell b => b | Masked _ _ => [] end.

(** The masks of the cells, the outermost first, and the bytes below them. *)
Fixpoint layers (n : nat) (F : list cell) : list bytes :=
  match n with O => [] | S n => (top_mask <$> F) :: layers n (top_inner <$> F) end.
Fixpoint bases (n : nat) (F : list cell) : list bytes :=
  match n with O => cell_bytes <$> F | S n => bases n (top_inner <$> F) end.

Lemma layers_select n F idxs : Forall (λ i, 0 <= i < zlen F) idxs →
  layers n (select F idxs) = (λ M, select M idxs) <$> layers n F.
Proof.
  revert F. induction n as [|n IH]; intros F Hi; [done|]. cbn [layers fmap list_fmap].
  rewrite <-!select_fmap by done. f_equal. apply IH. by rewrite length_fmap.
Qed.

Lemma bases_select n F idxs : Forall (λ i, 0 <= i < zlen F) idxs → bases n (select F idxs) = select (bases n F) idxs.
Proof.
  revert F. induction n as [|n IH]; intros F Hi; cbn [bases]; [by rewrite select_fmap|].
  rewrite <-select_fmap by done. apply IH. by rewrite length_fmap.
Qed.

Lemma length_bases n F : length (bases n F) = length F.
Proof. revert F. induction n as [|n IH]; intros F; cbn [bases]; [by rewrite length_fmap|]. by rewrite IH, length_fmap. Qed.

Lemma length_layer n F : Forall (λ M, length M = length F) (layers n F).
Proof.
  revert F. induction n as [|n IH]; intros F; cbn [layers]; constructor; [by rewrite length_fmap|].
  eapply Forall_impl; [apply IH|]. simpl. intros M ->. by rewrite length_fmap.
Qed.

Lemma top_zip D mask : length mask = length D →
  top_mask <$> zip_with Masked D mask = mask ∧ top_inner <$> zip_with Masked D mask = D.
Proof.
  revert mask. induction D as [|c D IH]; intros [|m mask] Hl; try done. injection Hl as Hl.
  destruct (IH mask Hl) as [H1 H2]. cbn [zip_with]. by rewrite !fmap_cons, H1, H2.
Qed.

(** A chunk of an optional variable-length type, taken apart. *)
Lemma unwrap_represents b dt F : represents b dt F → data_type_size dt = VariableSize →
  ∃ v, unwrap_masks (optional_nesting_depth dt) b = Ok (layers (optional_nesting_depth dt) F, VariableBytes v) ∧
    vlen_elements v (bases (optional_nesting_depth dt) F).
Proof.
  revert dt F. induction b as [b|v|data IH mask]; intros [[d|]|inner] F; cbn [represents data_type_size]; try done.
  - intros (L & -> & Hv & _) _. exists v. split; [done|]. cbn [optional_nesting_depth bases].
    rewrite list_fmap_fmap. simpl. by rewrite list_fmap_id.
  - intros (D & HD & -> & Hl & _) Hs. destruct (IH inner D HD Hs) as (v & Hu & Hv). exists v.
    cbn [optional_nesting_depth unwrap_masks into_optional obind layers bases]. destruct (top_zip D mask Hl) as [H1 H2].
    by rewrite Hu, H1, H2.
Qed.

(** The masks and the variable-length bytes put together. *)
Lemma with_masks_represents n v dt F : optional_nesting_depth dt = n → data_type_size dt = VariableSize →
  vlen_elements v (bases n F) → zlen F < 2 ^ 63 → zlen (vl_bytes v) < 2 ^ 63 →
  Forall (λ c, ∃ b0 D, represents b0 dt D ∧ c ∈ D) F →
  represents (with_masks (VariableBytes v) (layers n F)) dt F.
Proof.
  revert dt F. induction n as [|n IH]; intros [[d|]|inner] F Hn Hs Hv HF Hb Hc; try done.
  - cbn [layers with_masks foldr represents]. exists (bases 0 F). rewrite length_bases. split_and!; [|done|done|done].
    cbn [bases]. rewrite list_fmap_fmap. symmetry. rewrite <-(list_fmap_id F) at 2. apply list_fmap_ext_in. intros c Hin.
    rewrite Forall_forall in Hc. destruct (Hc c Hin) as (b0 & D & Hr & HcD).
    destruct b0; cbn [represents] in Hr; try done. destruct Hr as (L & -> & _).
    apply list_elem_of_fmap in HcD as (x & -> & _). done.
  - injection Hn as Hn. cbn [layers with_masks foldr represents]. exists (top_inner <$> F). rewrite !length_fmap.
    split_and!; [|clear -Hc|done|done].
    + apply IH; [done|done|done|by rewrite length_fmap|done|].
      apply Forall_fmap. eapply Forall_impl; [exact Hc|]. intros c (b0 & D & Hr & HcD).
      destruct b0 as [|?|b0 mask]; cbn [represents] in Hr; try done. destruct Hr as (D' & HD' & -> & Hl & _).
      exists b0, D'. split; [done|]. apply (list_elem_of_fmap_2 top_inner) in HcD. by rewrite (proj2 (top_zip D' mask Hl)) in HcD.
    + induction Hc as [|c F Hcc Hc IHF]; [done|]. cbn [fmap list_fmap zip_with]. rewrite <-IHF. f_equal.
      destruct Hcc as (b0 & D & Hr & HcD). destruct b0 as [|?|b0 mask]; cbn [represents] in Hr; try done.
      destruct Hr as (D' & HD' & -> & Hl & _). apply elem_of_lookup_zip_with in HcD as (k & x & m & -> & _). done.
Qed.

(** *** The copy of the masks *)

Definition visited (M : bytes) (P : Z → Prop) (t : bytes) : Prop :=
  length t = length M ∧ ∀ j, P j → 0 <= j < zlen M → t !! Z.to_nat j = M !! Z.to_nat j.

Lemma visited_all M P t : visited M P t → (∀ j, 0 <= j < zlen M → P j) → t = M.
Proof.
  intros [Hl H] HP. apply list_eq. intros k. destruct (decide (k < length M)%nat) as [Hk|Hk].
  - rewrite <-(Nat2Z.id k). apply H; [apply HP|]; lia.
  - rewrite !lookup_ge_None_2 by lia. done.
Qed.

Lemma mask_loop_ok M idxs P t pre : Forall (λ i, 0 <= i < zlen M) idxs → visited M P t →
  ∃ t', mask_loop t (pre ++ select M idxs) (zlen pre) idxs = Ok t' ∧ visited M (λ j, P j ∨ j ∈ idxs) t'.
Proof.
  intros Hi. revert P t pre. induction Hi as [|i idxs Hi Hidxs IH]; intros P t pre [Hl HP].
  { exists t. split; [done|]. split; [done|]. intros j Hj. rewrite elem_of_nil in Hj. apply HP. tauto. }
  cbn [mask_loop]. unfold index at 1. rewrite (proj2 (Z.leb_le _ _)) by lia. rewrite Nat2Z.id.
  rewrite lookup_app_r, Nat.sub_diag by lia. change (select M (i :: idxs)) with ((M !!! Z.to_nat i) :: select M idxs).
  cbn [lookup list_lookup obind]. unfold index_set. rewrite (proj2 (Z.leb_le _ _)), (proj2 (Z.ltb_lt _ _)) by lia. cbn [andb obind].
  destruct (IH (λ j, P j ∨ j = i) (<[Z.to_nat i := M !!! Z.to_nat i]> t) (pre ++ [M !!! Z.to_nat i])) as (t' & Ht' & Hv).
  { split; [by rewrite length_insert|]. intros j Hj Hjr. destruct (decide (j = i)) as [->|Hji].
    + rewrite list_lookup_insert_eq by lia. symmetry. apply list_lookup_lookup_total_lt. lia.
    + rewrite list_lookup_insert_ne by lia. apply HP; [tauto|done]. }
  exists t'. split.
    + rewrite <-Ht', <-app_assoc. cbn [app expect obind]. f_equal. rewrite length_app. simpl. lia.
    + destruct Hv as [Hl' Hv]. split; [done|]. intros j Hj Hjr. apply Hv; [|done]. rewrite elem_of_cons in Hj. tauto.
Qed.

Lemma masks_loop_ok Ms idxs P ts n : Forall (λ M, length M = n) Ms → Forall (λ i, 0 <= i < Z.of_nat n) idxs →
  Forall2 (λ M t, visited M P t) Ms ts →
  ∃ ts', masks_loop ts ((λ M, select M idxs) <$> Ms) idxs = Ok ts' ∧ Forall2 (λ M t, visited M (λ j, P j ∨ j ∈ idxs) t) Ms ts'.
Proof.
  intros Hn Hi H. induction H as [|M t Ms ts Hv H IH]; [by exists []|]. apply Forall_cons in Hn as [HM Hn].
  destruct (mask_loop_ok M idxs P t []) as (t' & Ht' & Hv'); [by rewrite HM|done|].
  destruct (IH Hn) as (ts' & Hts' & Hvs). exists (t' :: ts'). split; [|by constructor].
  cbn [fmap list_fmap masks_loop]. change (Z.of_nat (length (A:=Z) [])) with 0 in Ht'. cbn [app] in Ht'. by rewrite Ht', Hts'.
Qed.

(** The chunks, as the elements of [E] at their positions. *)
Definition cell_parts (dt : DataType) (E : list cell) (sh : list Z) (parts : list (ArrayBytes * ArraySubset)) : Prop :=
  Forall (λ p, region_ok p.2 sh ∧ represents p.1 dt (select E (positions p.2 sh))) parts ∧
  ∀ j, 0 <= j < zlen E → ∃ p, p ∈ parts ∧ j ∈ positions p.2 sh.

Lemma parts_cells dt E sh parts : zlen E = Zprod sh → cell_parts dt E sh parts →
  Forall (λ c, ∃ b0 D, represents b0 dt D ∧ c ∈ D) E.
Proof.
  intros HE [Hp Hcov]. apply Forall_forall. intros c [k Hk]%list_elem_of_lookup.
  pose proof (lookup_lt_Some _ _ _ Hk). destruct (Hcov (Z.of_nat k)) as (p & Hin & Hj); [lia|].
  rewrite Forall_forall in Hp. destruct (Hp p Hin) as [_ Hr]. exists p.1, (select E (positions p.2 sh)). split; [done|].
  apply list_elem_of_fmap. exists (Z.of_nat k). split; [|done]. rewrite Nat2Z.id. symmetry. by apply list_lookup_total_correct.
Qed.

Lemma merge_chunks_vlen_optional_ok dt E parts sh : shape_wf sh → zlen E = Zprod sh → zlen E < 2 ^ 63 →
  data_type_size dt = VariableSize → (0 < optional_nesting_depth dt)%nat →
  zlen (concat (bases (optional_nesting_depth dt) E)) < 2 ^ 63 → cell_parts dt E sh parts →
  ∃ b, merge_chunks_vlen_optional parts sh (optional_nesting_depth dt) = Ok b ∧ represents b dt E ∧ packed b.
Proof.
  intros Hsh HE HE63 Hs Hn Hb Hparts. pose proof Hparts as [Hp Hcov].
  set (n := optional_nesting_depth dt) in *. set (Ms := layers n E).
  assert (Forall (λ M, length M = length E) Ms) as HMl by apply length_layer.
  unfold merge_chunks_vlen_optional. rewrite product64_wf by done. fold n.
  set (f := merge_optional_step sh n).
  assert (∀ ps P ts inner, Forall (λ p, region_ok p.2 sh ∧ represents p.1 dt (select E (positions p.2 sh))) ps →
    Forall2 (λ M t, visited M P t) Ms ts →
    ∃ ts' vs, fold_outcome f (ts, inner) ps = Ok (ts', inner ++ zip vs ps.*2) ∧ length vs = length ps ∧
      Forall2 (λ M t, visited M (λ j, P j ∨ ∃ p, p ∈ ps ∧ j ∈ positions p.2 sh) t) Ms ts' ∧
      Forall2 (λ v p, vlen_elements v (select (bases n E) (positions p.2 sh))) vs ps) as Hloop.
  { intros ps. induction ps as [|[b s] ps IH]; intros P ts inner Hps Hv.
    - exists ts, []. rewrite app_nil_r. split_and!; [done|done| |done]. eapply Forall2_impl; [exact Hv|].
      intros M t [Hl H]. split; [done|]. intros j [Hj|(p & ?%not_elem_of_nil & _)]; [by apply H|done].
    - apply Forall_cons in Hps as [[Hok Hr] Hps]. simpl in Hok, Hr.
      pose proof (positions_bound s sh (proj1 Hok) (proj1 (proj2 Hok))) as Hpos. rewrite <-HE in Hpos.
      destruct (unwrap_represents b dt _ Hr Hs) as (v & Hu & Hve). fold n in Hu, Hve.
      rewrite layers_select in Hu by done. rewrite bases_select in Hve by done.
      destruct (masks_loop_ok Ms (positions s sh) P ts (length E)) as (ts1 & Hts1 & Hv1); [done|done|done|].
      destruct (IH (λ j, P j ∨ j ∈ positions s sh) ts1 (inner ++ [(v, s)]) Hps Hv1) as (ts' & vs & Hf & Hlv & Hv' & Hvs).
      exists ts', (v :: vs). split_and!; [|simpl; lia| |by constructor].
      + cbn [fold_outcome]. unfold f at 1, merge_optional_step. rewrite Hu. cbn [obind]. rewrite linearised_indices_ok by done. cbn [unwrap obind].
        fold Ms. rewrite Hts1. cbn [obind into_variable]. rewrite Hf. by rewrite <-app_assoc.
      + eapply Forall2_impl; [exact Hv'|]. intros M t [Hl H]. split; [done|]. intros j Hj. apply H.
        destruct Hj as [?|(p & Hpin & Hj)]; [by left; left|].
        apply elem_of_cons in Hpin as [->|Hpin]; [by left; right|right]. by exists p. }
  destruct (Hloop parts (λ _, False) (replicate n (replicate (Z.to_nat (Zprod sh)) 0)) [] Hp) as (ts' & vs & Hf & Hlv & Hv & Hvs).
  { assert (length Ms = n) as Hln by (unfold Ms; generalize E; clear; induction n; intros E; simpl; [done|by f_equal]).
    rewrite <-Hln. revert HMl. clear -HE. induction Ms as [|M Ms IH]; intros HMl; [constructor|].
    apply Forall_cons in HMl as [HM HMl]. simpl. constructor; [|by apply IH]. split; [rewrite length_replicate; lia|done]. }
  rewrite Hf. cbn [obind app].
  assert (ts' = Ms) as ->.
  { symmetry. revert Hv HMl Hcov. clear -HE. induction 1 as [|M t Ms ts HMt H IH]; intros HMl Hcov; [done|].
    apply Forall_cons in HMl as [HM HMl]. f_equal; [|by apply IH].
    symmetry. eapply visited_all; [exact HMt|]. intros j Hj. right. apply Hcov. lia. }
  rewrite (merge_chunks_vlen_ok (bases n E)); [|done|by rewrite length_bases|unfold u64_modulus; lia|].
  - cbn [obind].
    assert (represents (with_masks (VariableBytes (pack (bases n E))) Ms) dt E) as Hr.
    { apply with_masks_represents; [done|done|apply pack_elements|done|done|by eapply parts_cells]. }
    exists (with_masks (VariableBytes (pack (bases n E))) Ms). split_and!; [|done|].
    + unfold Ms. destruct n; [lia|]. done.
    + clear. induction Ms as [|M Ms IH]; simpl; [by eexists|done].
  - split.
    + apply Forall_forall. intros [v s] Hin. apply list_elem_of_lookup in Hin as [k Hk].
      apply lookup_zip_with_Some in Hk as (v' & s' & [= <- <-] & Hvk & Hsk).
      rewrite list_lookup_fmap in Hsk. destruct (parts !! k) as [p|] eqn:Hpk; [|done]. injection Hsk as <-.
      split; [by apply (Forall_lookup_1 _ _ _ _ Hp Hpk)|]. apply (Forall2_lookup_lr _ _ _ _ _ _ Hvs Hvk Hpk).
    + rewrite length_bases. intros j Hj. destruct (Hcov j Hj) as (p & [k Hk]%list_elem_of_lookup & Hjp).
      destruct (lookup_lt_is_Some_2 vs k) as [v Hvk]; [rewrite Hlv; by eapply lookup_lt_Some|].
      exists (v, p.2). split; [|done]. apply (list_elem_of_lookup_2 _ k).
      apply lookup_zip_with_Some. exists v, p.2. by rewrite list_lookup_fmap, Hk.
Qed.

(** ** Decoding in place

    A target over the memory [m], laid out as array bytes. *)
Fixpoint target_over (data_view mask_view : ArrayBytesFixedDisjointView) (m : ArrayBytes) : ArrayBytesDecodeIntoTarget :=
  match m with
  | OptionalBytes m mask => TargetOptional (target_over data_view mask_view m) mask_view mask
  | FixedBytes b => TargetFixed data_view b
  | VariableBytes v => TargetFixed data_view (vl_bytes v)
  end.

Fixpoint views_over (data_view mask_view : ArrayBytesFixedDisjointView) (m : ArrayBytes) (d : Z) (sh : list Z) (s : ArraySubset) : Prop :=
  match m with
  | OptionalBytes m mask => view_new mask 1 sh s = Ok mask_view ∧ views_over data_view mask_view m d sh s
  | FixedBytes b => view_new b d sh s = Ok data_view
  | VariableBytes _ => False
  end.

Lemma decode_into_ok data_view mask_view d b m dt E F s sh : region_ok s sh → data_type_size dt = FixedSize d →
  views_over data_view mask_view m d sh s → represents b dt E → represents m dt F →
  zlen F = Zprod sh → zlen E = Zprod (shape s) →
  ∃ m', decode_into_array_bytes_target b (target_over data_view mask_view m) = Ok (target_over data_view mask_view m') ∧
    represents m' dt (scatter F (positions s sh) E).
Proof.
  intros Hok. pose proof Hok as (Hs & Ha & _ & Hash). pose proof (positions_bound s sh Hs Ha) as Hpb.
  assert (Forall (λ i, 0 <= i) (positions s sh)) as Hnn by (eapply Forall_impl; [exact Hpb|]; simpl; lia).
  revert m dt E F. induction b as [b|v|data IH mask]; intros [m|m|m mm] [[d'|]|inner] E F;
    cbn [represents data_type_size target_over views_over]; try done.
  - intros [= ->] Hv (K & -> & -> & HK & HbK) (L & -> & -> & HL & HbL) HF HE. rewrite length_fmap in HE, HF.
    cbn [decode_into_array_bytes_target].
    pose proof (update_fixed_ok d L K s sh Hok HL HK HF HE) as Hup. unfold update_fixed in Hup. rewrite Hv in Hup. cbn [obind] in Hup.
    rewrite Hup by (unfold u64_modulus; nia). cbn [obind]. eexists (FixedBytes _). split; [done|].
    exists (scatter L (positions s sh) K).
    split_and!; [by rewrite scatter_fmap|done|by apply fixed_scatter|by rewrite length_scatter].
  - intros Hd [Hvm Hvd] (K & HK & -> & HlK & HbK) (L & HL & -> & HlL & HbL) HF HE. rewrite length_zip_with in HE, HF.
    destruct (IH m inner K L Hd Hvd HK HL) as (m' & Hm' & Hr); [lia|lia|].
    cbn [decode_into_array_bytes_target]. rewrite Hm'. cbn [obind].
    pose proof (update_fixed_ok 1 (singletons mm) (singletons mask) s sh Hok (fixed_singletons _) (fixed_singletons _)) as Hup.
    rewrite !concat_singletons in Hup. unfold update_fixed in Hup. rewrite Hvm in Hup. cbn [obind] in Hup.
    pose proof (proj2 Hash). rewrite Hup by (unfold singletons; rewrite ?length_fmap; lia). cbn [obind].
    unfold singletons. rewrite scatter_fmap. fold (singletons (scatter mm (positions s sh) mask)). rewrite concat_singletons.
    eexists (OptionalBytes _ _). split; [done|]. exists (scatter L (positions s sh) K).
    split_and!; [done|by apply scatter_zip|by rewrite !length_scatter|by rewrite length_scatter].
Qed.

(** The views of an accepted region over memory of the right size. *)
Lemma views_over_ok d m dt F s sh : region_ok s sh → data_type_size dt = FixedSize d → represents m dt F → zlen F = Zprod sh →
  0 < zlen F * d < u64_modulus →
  ∃ data_view mask_view, views_over data_view mask_view m d sh s ∧
    (∀ b, zlen b = Zprod sh * d → view_new b d sh s = Ok data_view) ∧
    (∀ b, zlen b = Zprod sh → view_new b 1 sh s = Ok mask_view) ∧
    view_num_elements data_view = Zprod (shape s) ∧ 0 < d.
Proof.
  intros Hok Hd Hr HF Hb. pose proof Hok as (Hs & Ha & _ & Hash). pose proof (Zprod_nonneg _ (proj1 Hash)).
  assert (0 < d) as Hdp by nia.
  assert (∀ e, 0 < e → Zprod sh * e < u64_modulus →
    ∃ v, (∀ b, zlen b = Zprod sh * e → view_new b e sh s = Ok v) ∧ view_num_elements v = Zprod (shape s)) as Hview.
  { intros e He Hbe. set (L := replicate (Z.to_nat (Zprod sh)) (replicate (Z.to_nat e) 0)).
    assert (fixed_elements e L) as HL by (split; [done|]; apply Forall_replicate; by rewrite length_replicate).
    assert (zlen L = Zprod sh) as HlL by (unfold L; rewrite length_replicate; lia).
    destruct (view_new_ok e L s sh Hok HL HlL Hbe) as (v & Hv & _ & _ & Hsub & _).
    exists v. split.
    - intros b Hlb. rewrite <-Hv. unfold view_new. rewrite (fixed_elements_length e L HL), HlL. by rewrite Hlb.
    - unfold view_num_elements, num_elements. rewrite Hsub. by rewrite product64_wf by apply Hs. }
  destruct (Hview d Hdp) as (dv & Hdv & Hnum); [nia|]. destruct (Hview 1) as (mv & Hmv & _); [lia|nia|].
  rewrite Z.mul_1_r in Hmv. exists dv, mv. split_and!; [|done|done|done|done].
  revert dt F Hd Hr HF Hb. clear -Hdv Hmv. induction m as [m|v|m IH mask]; intros [[d'|]|inner] F; cbn [represents data_type_size views_over]; try done.
  - intros [= ->] (L & -> & -> & HL & _) HF _. rewrite length_fmap in HF. apply Hdv. rewrite (fixed_elements_length d L HL). lia.
  - intros Hd (L & HL & -> & Hl & _) HF Hb. rewrite length_zip_with in HF, Hb. split; [apply Hmv; lia|].
    apply (IH inner L Hd HL); [lia|]. replace (zlen L) with (Z.of_nat (length L `min` length mask)) by lia. done.
Qed.

(** A view of a region of the shape [sh], over memory of the right size. *)
Definition view_fits (view : ArrayBytesFixedDisjointView) (memory : bytes) (sh : list Z) : Prop :=
  ∃ d msh s, view_new memory d msh s = Ok view ∧ region_ok s msh ∧ shape s = sh ∧ 0 < d ∧ zlen memory = Zprod msh * d ∧ Zprod msh * d < 2 ^ 63.

Fixpoint target_fits (t : ArrayBytesDecodeIntoTarget) (sh : list Z) : Prop :=
  match t with
  | TargetFixed data memory => view_fits data memory sh
  | TargetOptional data mask memory => target_fits data sh ∧ view_fits mask memory sh
  end.

Lemma view_new_subset b d msh s view : view_new b d msh s = Ok view → view_subset view = s.
Proof.
  unfold view_new. destruct (negb _); [done|]. destruct (negb _); [done|]. destruct (ContiguousIndices_new s msh); [|done..]. cbn [map_err obind].
  destruct (contiguous_linearised_indices s msh); [|done..]. by intros [= <-].
Qed.

Lemma target_fits_num_elements t sh : target_fits t sh → target_num_elements t = Zprod sh.
Proof.
  induction t as [view m|t IH mask m]; [|by intros [? _]; apply IH]. intros (d & msh & s & Hv & (Hs & Ha & _ & Hwf) & <- & _).
  cbn [target_num_elements]. unfold view_num_elements, num_elements. rewrite (view_new_subset _ _ _ _ _ Hv). apply product64_wf, Hs.
Qed.

Lemma views_over_fits d data_view mask_view m dt F s sh : region_ok s sh → data_type_size dt = FixedSize d → 0 < d → represents m dt F →
  zlen F = Zprod sh → Zprod sh * d < 2 ^ 63 → views_over data_view mask_view m d sh s → target_fits (target_over data_view mask_view m) (shape s).
Proof.
  intros Hok Hd Hdp Hr HF Hb. revert dt F Hd Hr HF.
  induction m as [m|v|m IH mask]; intros [[d'|]|inner] F; cbn [represents data_type_size views_over target_over target_fits]; try done.
  - intros [= ->] (L & -> & -> & HL & _) HF Hv. rewrite length_fmap in HF. exists d, sh, s.
    split_and!; [done..|by rewrite (fixed_elements_length d L HL), HF|done].
  - intros Hd (L & HL & -> & Hl & _) HF [Hm Hv]. rewrite length_zip_with in HF. split; [by apply (IH inner L Hd HL); [lia|]|].
    exists 1, sh, s. split_and!; [done..|lia|]. pose proof (Zprod_nonneg _ (proj1 (proj2 (proj2 (proj2 Hok))))). nia.
Qed.

(** The memory behind a target. *)
Lemma extract_target_over data_view mask_view m dt F : represents m dt F → data_type_size dt ≠ VariableSize →
  ∃ data masks, extract_target_views (target_over data_view mask_view m) = ((data_view, data), (λ mask, (mask_view, mask)) <$> masks) ∧
    with_masks (FixedBytes data) masks = m ∧ length masks = optional_nesting_depth dt.
Proof.
  revert dt F. induction m as [m|v|m IH mask]; intros [[d|]|inner] F; cbn [represents data_type_size target_over extract_target_views]; try done.
  - intros _ _. by exists m, [].
  - intros (L & HL & _) Hd. destruct (IH inner L HL Hd) as (data & masks & He & Hm & Hl).
    exists data, (mask :: masks). rewrite He. cbn [with_masks foldr optional_nesting_depth length].
    split_and!; [done|f_equal; exact Hm|by rewrite Hl].
Qed.

Lemma build_target_over data_view mask_view data masks :
  build_nested_optional_target (data_view, data) ((λ mask, (mask_view, mask)) <$> masks) =
  target_over data_view mask_view (with_masks (FixedBytes data) masks).
Proof. induction masks as [|mask masks IH]; [done|]. cbn [fmap list_fmap build_nested_optional_target with_masks foldr target_over fst snd]. by rewrite IH. Qed.

Lemma represents_sizes data masks dt F d : represents (with_masks (FixedBytes data) masks) dt F → data_type_size dt = FixedSize d →
  zlen data = zlen F * d ∧ Forall (λ mask, length mask = length F) masks.
Proof.
  revert dt F. induction masks as [|mask masks IH]; intros [[d'|]|inner] F; cbn [with_masks foldr represents data_type_size]; try done.
  - intros (L & -> & -> & HL & _) [= ->]. rewrite length_fmap. split; [by apply fixed_elements_length|constructor].
  - intros (D & HD & -> & Hl & _) Hs. destruct (IH inner D HD Hs) as [Hd Hm]. rewrite length_zip_with, Hl, Nat.min_id. by split; [|constructor].
Qed.

(** Any memory of the right size represents some cells. *)
Lemma memory_represents dt d n data masks : data_type_size dt = FixedSize d → 0 < d → zlen data = Z.of_nat n * d →
  Forall (λ mask, length mask = n) masks → length masks = optional_nesting_depth dt → Z.of_nat n * d < 2 ^ 63 →
  ∃ F, represents (with_masks (FixedBytes data) masks) dt F ∧ length F = n.
Proof.
  intros Hs Hd Hdata Hm Hl Hb. revert masks Hs Hm Hl. induction dt as [[d'|]|inner IH]; intros masks Hs Hm Hl; try done.
  - injection Hs as ->. destruct masks; [|done]. cbn [with_masks foldr represents].
    assert (length data = Z.to_nat d * n)%nat as Hld by nia.
    destruct (concat_chunks_exact (Z.to_nat d) data) as (Hc & HF & Hlc); [lia|by rewrite Hld, Nat.mul_comm, Nat.Div0.mod_mul|].
    rewrite Hld, (Nat.mul_comm (Z.to_nat d)), Nat.div_mul in Hlc by lia.
    exists (Cell <$> chunks_exact (Z.to_nat d) data). rewrite length_fmap. split; [|done].
    exists (chunks_exact (Z.to_nat d) data). split_and!; [done|done|done|rewrite Hlc; lia].
  - destruct masks as [|mask masks]; [done|]. apply Forall_cons in Hm as [Hmask Hm]. injection Hl as Hl.
    destruct (IH masks Hs Hm Hl) as (F & HF & HlF). exists (zip_with Masked F mask).
    cbn [with_masks foldr represents]. split; [|rewrite length_zip_with; lia]. exists F. split_and!; [done|done|lia|nia].
Qed.

Lemma target_num_elements_over data_view mask_view m dt F : represents m dt F → data_type_size dt ≠ VariableSize →
  target_num_elements (target_over data_view mask_view m) = view_num_elements data_view.
Proof.
  revert dt F. induction m as [m|v|m IH mask]; intros [[d|]|inner] F; cbn [represents data_type_size target_over target_num_elements]; try done.
  intros (L & HL & _) Hd. by apply (IH inner L).
Qed.

(** The bytes of variable-length elements. *)
Lemma bases_size b dt E : represents b dt E → data_type_size dt = VariableSize →
  zlen (concat (bases (optional_nesting_depth dt) E)) <= array_bytes_size b.
Proof.
  revert dt E. induction b as [b|v|data IH mask]; intros [[d|]|inner] E; cbn [represents data_type_size optional_nesting_depth array_bytes_size]; try done.
  - intros (L & -> & Hv & _) _. cbn [bases]. rewrite list_fmap_fmap. simpl. rewrite list_fmap_id. by apply vlen_total.
  - intros (D & HD & -> & Hl & _) Hs. cbn [bases]. replace (top_inner <$> zip_with Masked D mask) with D; [by apply IH|].
    clear -Hl. revert mask Hl. induction D as [|c D IH]; intros [|m mask] Hl; try done. cbn [zip_with fmap list_fmap top_inner]. f_equal.
    apply IH. by injection Hl.
Qed.

(** ** Assembling lists *)

(** Disjoint parts have a common list. *)
Lemma select_parts {A} `{!Inhabited A} (n : Z) (ps : list (list Z * list A)) : 0 <= n → NoDup (concat ps.*1) →
  Forall (λ p, length p.1 = length p.2 ∧ Forall (λ i, 0 <= i < n) p.1) ps →
  ∃ T, zlen T = n ∧ Forall (λ p, select T p.1 = p.2) ps.
Proof.
  intros Hn Hnd Hp. set (T := scatter (replicate (Z.to_nat n) inhabitant) (concat ps.*1) (concat ps.*2)).
  assert (zlen T = n) as HT by (unfold T; rewrite length_scatter, length_replicate; lia).
  assert (length (concat ps.*2) = length (concat ps.*1)) as Hl.
  { clear -Hp. induction Hp as [|p ps [Hl _] Hp IH]; [done|]. cbn [fmap list_fmap concat]. rewrite !length_app. lia. }
  assert (select T (concat ps.*1) = concat ps.*2) as Hsel.
  { apply select_scatter; [done| |done]. rewrite length_replicate. clear -Hp Hn. induction Hp as [|p ps [_ Hi] Hp IH]; [constructor|].
    cbn [fmap list_fmap concat]. apply Forall_app. split; [|done]. eapply Forall_impl; [exact Hi|]. simpl. lia. }
  exists T. split; [done|]. clearbody T. clear Hnd Hl HT. induction Hp as [|p ps [Hl _] Hp IH]; [constructor|].
  cbn [fmap list_fmap concat] in Hsel. unfold select in Hsel. rewrite fmap_app in Hsel.
  apply app_inj_1 in Hsel as [H1 H2]; [|by rewrite length_fmap]. constructor; [done|by apply IH].
Qed.

(** Writing parts of [W] brings a list closer to it. *)
Lemma scatter_visits {A} `{!Inhabited A} (V W : list A) idxs (P : Z → Prop) : length V = length W →
  Forall (λ i, 0 <= i < zlen W) idxs → NoDup idxs → (∀ j, 0 <= j → P j → V !! Z.to_nat j = W !! Z.to_nat j) →
  ∀ j, 0 <= j → P j ∨ j ∈ idxs → scatter V idxs (select W idxs) !! Z.to_nat j = W !! Z.to_nat j.
Proof.
  intros Hl Hi Hnd HP j Hj0 Hj. destruct (decide (j ∈ idxs)) as [Hin|Hin].
  - apply list_elem_of_lookup in Hin as [k Hk]. pose proof (Forall_lookup_1 _ _ _ _ Hi Hk) as Hr. simpl in Hr.
    destruct (lookup_lt_is_Some_2 W (Z.to_nat j) ltac:(lia)) as [w Hw]. rewrite Hw.
    eapply lookup_scatter; [by rewrite Hl|done|exact Hk|]. by rewrite (lookup_select W idxs k j).
  - rewrite lookup_scatter_ne; [apply HP; [done|tauto]| |by rewrite Z2Nat.id].
    eapply Forall_impl; [exact Hi|]. simpl. lia.
Qed.
