(* ===== verification/GridRegions.v ===== *)
(** The chunks that a region of an array meets.

    For any lawful grid: [chunks_in_array_subset] ([zarrs_chunk_grid/src/chunk_grid_traits.rs]) enumerates
    the chunks with an element in the region, each element of the region is in one of them, and the overlap of
    a chunk with the region has a place in both. *)

From S2P Require Import Prelude ArraySubset Linear Iterators ChunkGrid ArrayBytes Regions DecodeInto.

Section grid.
Context {G : Type} `{LawfulChunkGrid G} (g : G) (Hg : grid_wf g).

#[local] Abbreviation sub := (subset_of g).

(** A non-empty region of the array. *)
Definition region_of_grid (r : ArraySubset) : Prop := subset_wf r ∧ is_empty r = false ∧ in_array r (array_shape g).

Definition chunk_meets (r : ArraySubset) (c : list Z) : Prop := ∃ ix, in_subset (sub c) ix ∧ in_subset r ix.

Lemma in_array_shape r ash : subset_wf r → in_array r ash → 0 <= Zprod (shape r) <= Zprod ash.
Proof.
  intros [Hl Hwf] [Ha' Hin]. apply Zprod_le; [lia|]. intros j Hj. specialize (Hwf j ltac:(lia)). specialize (Hin j ltac:(lia)). lia.
Qed.

Lemma region_index_in r ix : region_of_grid r → in_subset r ix → index_in ix (array_shape g).
Proof.
  intros (Hr & _ & [Hla Hin]) [Hl Hix]. apply Forall2_total. split; [lia|]. intros j Hj. specialize (Hix j ltac:(lia)).
  specialize (Hin j ltac:(lia)). pose proof (proj2 Hr j ltac:(lia)). lia.
Qed.

(** Every element of the region is in a chunk that meets it. *)
Lemma element_chunk r ix : region_of_grid r → in_subset r ix → ∃ c, in_grid g c ∧ chunk_meets r c ∧ in_subset (sub c) ix.
Proof.
  intros Hr Hix. destruct (locate g Hg ix (region_index_in r ix Hr Hix)) as (c & _ & Hh & Hc & _).
  apply in_subset_of in Hh; [|done|apply Hc]. exists c. split_and!; [done| |done]. by exists ix.
Qed.

Lemma chunks_disjoint c d ix : in_grid g c → in_grid g d → in_subset (sub c) ix → in_subset (sub d) ix → c = d.
Proof. intros [Hc _] [Hd _] Hx%in_subset_of Hy%in_subset_of; [|done..]. by eapply axes_hold_unique. Qed.

Lemma chunks_of_region_ok r : Zprod (grid_shape g) < u64_modulus → region_of_grid r → ∃ chunks l,
  chunks_in_array_subset g r = Ok (Some chunks) ∧ (∀ E, indices (E:=E) chunks = Ok l) ∧ NoDup l ∧
  num_elements_usize chunks = zlen l ∧ start chunks ∈ l ∧ (∀ c, c ∈ l ↔ in_grid g c ∧ chunk_meets r c) ∧
  l = box (start chunks) (shape chunks).
Proof.
  intros Hn (Hr & Hne & Hin). destruct (chunks_of_region g Hg r Hr Hne Hin) as (chunks & Hc & Hwf & Hcne & Hmem).
  assert (∀ c, c ∈ box (start chunks) (shape chunks) ↔ in_grid g c ∧ chunk_meets r c) as Hl.
  { intros c. rewrite elem_of_contents by done. rewrite Hmem. split.
    - intros (Hgc & s & ix & Hs & Hx & Hy). assert (in_grid g c) as Hgr.
      { split; [done|]. apply (index_in_nonzero (start r)). by apply (region_in_array r (array_shape g)). }
      split; [done|]. rewrite subset_law in Hs by done. injection Hs as <-. by exists ix.
    - intros (Hgc & ix & Hx & Hy). split; [apply Hgc|]. exists (sub c), ix. split_and!; [|done..]. by apply subset_law. }
  assert (start chunks ∈ box (start chunks) (shape chunks)) as Hst.
  { apply elem_of_contents; [done|]. split; [done|]. intros j Hj. pose proof (proj1 (is_empty_false chunks Hwf) Hcne j Hj). lia. }
  assert (in_array chunks (grid_shape g)) as Hig.
  { assert (covers (new_with_shape (grid_shape g)) chunks) as [Hlc Hcov].
    { apply subset_covers; [|done|done|].
      - split; simpl; rewrite length_replicate; [done|]. intros j Hj. rewrite lookup_total_replicate_2 by lia.
        rewrite (length_grid_shape g Hg) in Hj. rewrite grid_shape_law, fmap_total by done.
        pose proof (ax_n_nonneg _ (axes_ok g Hg j Hj)). lia.
      - intros c Hcs. apply Hmem in Hcs as [Hgc _]. apply Forall2_total in Hgc as [Hlc Hgc]. split; simpl; rewrite length_replicate; [done|].
        intros j Hj. rewrite lookup_total_replicate_2 by lia. specialize (Hgc j ltac:(lia)). lia. }
    simpl in Hlc, Hcov. rewrite length_replicate in Hlc, Hcov. split; [lia|]. intros j Hj. specialize (Hcov j Hj).
    rewrite lookup_total_replicate_2 in Hcov by lia. lia. }
  assert (region_wf chunks) as Hrw.
  { split; [done|]. split; [by apply subset_shape_nonneg|]. pose proof (in_array_shape chunks _ Hwf Hig). lia. }
  exists chunks, (box (start chunks) (shape chunks)). split_and!; [done| |apply NoDup_box| |done|done|done].
  - intros E. unfold indices. by rewrite drain_indices.
  - unfold num_elements_usize, num_elements. rewrite product64_wf by apply Hrw. by rewrite length_region.
Qed.

Lemma overlap_comm s r o : length (start r) = length (start s) → length (shape r) = length (shape s) →
  overlap s r = Ok o → overlap r s = Ok o.
Proof.
  intros H1 H2 Ho. rewrite overlap_Ok in Ho |- * by lia. rewrite <-Ho. do 2 f_equal.
  clear. generalize (start s) (shape s) (start r) (shape r). intros s1. induction s1 as [|x s1 IH]; intros [|? ?] [|? ?] [|? ?]; try done.
  cbn [zip_with4]. by rewrite IH, Z.max_comm, Z.min_comm.
Qed.

(** The overlap of a chunk and a region it meets. *)
Lemma overlap_chunk r c : subset_wf r → Zprod (shape r) < u64_modulus → in_grid g c → chunk_meets r c →
  ∃ o, overlap (sub c) r = Ok o ∧ overlap r (sub c) = Ok o ∧ subset_wf o ∧ is_empty o = false ∧ covers (sub c) o ∧ covers r o ∧
    (∀ ix, in_subset o ix ↔ in_subset (sub c) ix ∧ in_subset r ix) ∧
    relative_to o (start (sub c)) = Ok (within o (sub c)) ∧ relative_to o (start r) = Ok (within o r) ∧
    region_ok (within o r) (shape r).
Proof.
  intros Hr Hp Hc Hm. pose proof (subset_of_wf g Hg c (proj1 Hc)) as Hs.
  destruct (overlap_covers (sub c) r Hs Hr Hm) as (o & Ho & Hwf & Hno & Hc1 & Hc2 & Hix).
  exists o. split_and!; try done.
  - apply overlap_comm; [destruct Hs, Hr, Hc1, Hc2; lia..|done].
  - by apply relative_to_within.
  - by apply relative_to_within.
  - by apply within_region_ok.
Qed.
End grid.

(** ** The whole array as a region *)

Lemma within_origin o sh : subset_wf o → length (start o) = length sh → within o (new_with_shape sh) = o.
Proof.
  intros Ho Hl. unfold within. destruct o as [st os]. cbn [start shape new_with_shape] in *. f_equal.
  apply list_eq_total; rewrite length_zip_with, length_replicate; [lia|]. intros j Hj.
  rewrite zip_with_total by (rewrite ?length_replicate; lia). rewrite lookup_total_replicate_2 by lia. lia.
Qed.

Lemma covers_origin o sh : subset_wf o → in_array o sh → covers (new_with_shape sh) o.
Proof.
  intros [Hlo Ho] [Hl Hin]. split; cbn [start shape new_with_shape]; [by rewrite length_replicate|]. rewrite length_replicate.
  intros j Hj. rewrite lookup_total_replicate_2 by lia. specialize (Ho j ltac:(lia)). specialize (Hin j ltac:(lia)). lia.
Qed.

(** Reading and writing a region of a whole array. *)
Lemma select_contents_origin {A} `{!Inhabited A} (f : list Z → A) o sh : subset_wf (new_with_shape sh) → subset_wf o → in_array o sh →
  select (contents f (new_with_shape sh)) (positions o sh) = contents f o.
Proof.
  intros Hw Ho Hin. rewrite <-(within_origin o sh) at 1 by (done || destruct Hin; lia). apply select_contents; [done..|by apply covers_origin].
Qed.

Lemma scatter_contents_origin {A} `{!Inhabited A} (f h : list Z → A) o sh : subset_wf (new_with_shape sh) → subset_wf o → in_array o sh →
  is_empty o = false → Zprod sh < u64_modulus →
  scatter (contents f (new_with_shape sh)) (positions o sh) (contents h o) = contents (overwrite f h o) (new_with_shape sh).
Proof.
  intros Hw Ho Hin Hne Hp. rewrite <-(within_origin o sh) at 1 by (done || destruct Hin; lia). apply scatter_contents; try done. by apply covers_origin.
Qed.

(** ** Regions of a region elsewhere

    The region [o] of [sub], in the region [O] that has the shape of [sub]. *)
Definition moved (o sub O : ArraySubset) : ArraySubset := mk_subset (zip_with Z.add (start (within o sub)) (start O)) (shape o).

(** The index in [sub] of an index in [O]. *)
Definition moved_back (sub O : ArraySubset) (ix : list Z) : list Z := zip_with Z.add (zip_with Z.sub ix (start O)) (start sub).

Section moved.
Context (sub O : ArraySubset) (Hsub : subset_wf sub) (HO : subset_wf O) (Hshape : shape O = shape sub).

Lemma moved_lengths : length (start O) = length (start sub).
Proof. pose proof (proj1 Hsub). pose proof (proj1 HO) as Hl. rewrite Hshape in Hl. lia. Qed.

Section region.
Context (o : ArraySubset) (Ho : subset_wf o) (Hcov : covers sub o) (Hne : is_empty o = false).

Lemma moved_start j : (j < length (start O))%nat →
  start (moved o sub O) !!! j = start o !!! j - start sub !!! j + start O !!! j ∧ length (start (moved o sub O)) = length (start O) ∧
  start sub !!! j <= start o !!! j ∧ start o !!! j + shape o !!! j <= start sub !!! j + shape sub !!! j ∧ 0 < shape o !!! j.
Proof.
  intros Hj. pose proof moved_lengths as Hl. destruct Hcov as [Hlo Hc]. cbn [start moved within]. rewrite !length_zip_with.
  rewrite !zip_with_total by (rewrite ?length_zip_with; lia). specialize (Hc j ltac:(lia)). split_and!; [done|lia|lia|lia|].
  by apply (is_empty_false o Ho); [|lia].
Qed.

Lemma length_moved : length (start (moved o sub O)) = length (start O).
Proof. pose proof moved_lengths. pose proof (proj1 Hcov). cbn [start moved within]. rewrite !length_zip_with. lia. Qed.

Lemma moved_wf : subset_wf (moved o sub O) ∧ is_empty (moved o sub O) = false ∧ covers O (moved o sub O) ∧ within (moved o sub O) O = within o sub.
Proof.
  pose proof moved_lengths as Hl. pose proof length_moved as Hlm. pose proof (proj1 Ho) as Hlo. pose proof (proj1 Hcov) as Hlc. split_and!.
  - split; [cbn [shape moved]; lia|]. intros j Hj. rewrite Hlm in Hj. destruct (moved_start j Hj) as (-> & _ & ? & ? & ?).
    pose proof (proj2 HO j Hj) as Hb. rewrite Hshape in Hb. cbn [shape moved]. lia.
  - done.
  - split; [done|]. intros j Hj. destruct (moved_start j Hj) as (-> & _ & ? & ? & ?). rewrite Hshape. cbn [shape moved]. lia.
  - unfold within at 1. cbn [shape moved]. change (mk_subset (zip_with Z.sub (start (moved o sub O)) (start O)) (shape o) = mk_subset (zip_with Z.sub (start o) (start sub)) (shape o)).
    f_equal. apply list_eq_total; rewrite !length_zip_with, Hlm; [lia|]. intros j Hj.
    rewrite !zip_with_total by lia. destruct (moved_start j ltac:(lia)) as (-> & _). lia.
Qed.

Lemma offset_moved : offset (within o sub) (start O) = Ok (moved o sub O).
Proof.
  pose proof moved_lengths as Hl. pose proof length_moved as Hlm. pose proof (proj1 Ho) as Hlo. pose proof (proj1 Hcov) as Hlc.
  assert (length (start (within o sub)) = length (start O)) as Hlw by (cbn [start within]; rewrite length_zip_with; lia).
  unfold offset. rewrite (proj2 (Nat.eqb_eq _ _)) by lia. unfold new_with_start_shape. cbn [shape within].
  rewrite (proj2 (Nat.eqb_eq _ _)) by (rewrite length_zip_with; lia). unfold moved. do 2 f_equal.
  apply list_eq_total; rewrite !length_zip_with; [done|]. intros j Hj. rewrite !zip_with_total by lia. apply wrap64_small.
  destruct (moved_start j ltac:(lia)) as (He & _ & ? & ? & ?). cbn [start moved] in He. rewrite zip_with_total in He by lia. rewrite He.
  pose proof (proj2 HO j ltac:(lia)) as Hb. rewrite Hshape in Hb. unfold_u64. lia.
Qed.

Lemma moved_in ix : length ix = length (start O) → in_subset (moved o sub O) ix ↔ in_subset o (moved_back sub O ix).
Proof.
  intros Hix. pose proof moved_lengths as Hl. pose proof length_moved as Hlm. pose proof (proj1 Hcov) as Hlc. unfold in_subset, moved_back. rewrite Hlm, !length_zip_with.
  assert (∀ j, (j < length (start O))%nat → zip_with Z.add (zip_with Z.sub ix (start O)) (start sub) !!! j = ix !!! j - start O !!! j + start sub !!! j) as Hj.
  { intros j Hj. rewrite !zip_with_total by (rewrite ?length_zip_with; lia). done. }
  split; (intros [_ Hin]; split; [lia|]); intros j Hjl; specialize (Hin j ltac:(lia)); destruct (moved_start j ltac:(lia)) as (He & _);
    cbn [shape moved] in *; rewrite ?Hj, ?He in * by lia; lia.
Qed.

(** The elements are the same. *)
Lemma moved_contents {A} `{!Inhabited A} (f : list Z → A) : contents (element_at (contents f sub) O) (moved o sub O) = contents f o.
Proof.
  destruct moved_wf as (Hw & _ & Hc & Hwithin). rewrite <-(select_contents _ O) by done. rewrite Hwithin.
  rewrite contents_element_at; [|done|by rewrite contents_length, Hshape]. rewrite Hshape. by apply select_contents.
Qed.
End region.

Lemma moved_back_in ix : in_subset O ix → in_subset sub (moved_back sub O ix).
Proof.
  pose proof moved_lengths as Hl. intros [Hix Hin]. unfold moved_back, in_subset. rewrite !length_zip_with. split; [lia|]. intros j Hj.
  rewrite !zip_with_total by (rewrite ?length_zip_with; lia). specialize (Hin j ltac:(lia)). rewrite Hshape in Hin. lia.
Qed.
End moved.
