(* ===== verification/Concurrency.v ===== *)
(** Codec options and the split of a concurrency target between the chunks of an
    operation and the codec of each chunk: [zarrs_codec/src/options.rs],
    [zarrs_codec/src/recommended_concurrency.rs] and [zarrs/src/array/concurrency.rs]. *)

From S2P Require Import Prelude ArraySubset Linear Iterators.

(** ** Options *)

Record CodecOptions := mk_options {
  validate_checksums : bool;
  store_empty_chunks : bool;
  concurrent_target : Z;
  chunk_concurrent_minimum : Z;
  experimental_partial_encoding : bool;
}.

Definition with_validate_checksums (self : CodecOptions) (validate_checksums : bool) : CodecOptions :=
  mk_options validate_checksums (store_empty_chunks self) (concurrent_target self) (chunk_concurrent_minimum self)
    (experimental_partial_encoding self).

Definition with_store_empty_chunks (self : CodecOptions) (store_empty_chunks : bool) : CodecOptions :=
  mk_options (validate_checksums self) store_empty_chunks (concurrent_target self) (chunk_concurrent_minimum self)
    (experimental_partial_encoding self).

Definition with_concurrent_target (self : CodecOptions) (concurrent_target : Z) : CodecOptions :=
  mk_options (validate_checksums self) (store_empty_chunks self) concurrent_target (chunk_concurrent_minimum self)
    (experimental_partial_encoding self).

(** The default, on [current_num_threads] threads. *)
Definition CodecOptions_default (current_num_threads : Z) : CodecOptions :=
  {| validate_checksums := true; store_empty_chunks := false; concurrent_target := current_num_threads;
     chunk_concurrent_minimum := 4; experimental_partial_encoding := false |}.

(** ** Recommended concurrency *)

Record RecommendedConcurrency := mk_concurrency { rc_range : range }.

Definition RecommendedConcurrency_new (start_bound end_bound : Bound) : RecommendedConcurrency :=
  let start := match start_bound with
    | Included start => start
    | Excluded start => saturating_add start 1
    | Unbounded => 0
    end in
  let end_ := match end_bound with
    | Excluded end_ => end_
    | Included end_ => saturating_add end_ 1
    | Unbounded => u64_max
    end in
  mk_concurrency (mk_range (Z.max start 1) (Z.max end_ 1)).

Definition new_minimum (minimum : Z) : RecommendedConcurrency := RecommendedConcurrency_new (Included minimum) Unbounded.
Definition new_maximum (maximum : Z) : RecommendedConcurrency := RecommendedConcurrency_new Unbounded (Excluded maximum).
Definition rc_min (self : RecommendedConcurrency) : Z := r_start (rc_range self).
Definition rc_max (self : RecommendedConcurrency) : Z := r_end (rc_range self).

(** ** The limits of an operation

    [div_ceil] of zero panics; a recommendation is never zero. *)
Definition calc_concurrency_outer_inner (concurrency_target : Z)
    (recommended_concurrency_outer recommended_concurrency_inner : RecommendedConcurrency) : Z * Z :=
  let concurrency_inner := rc_min recommended_concurrency_inner in
  let concurrency_outer := rc_min recommended_concurrency_outer in
  let concurrency_inner :=
    if concurrency_inner *w concurrency_outer <? concurrency_target
    then Z.min (div_ceil concurrency_target concurrency_outer) (rc_max recommended_concurrency_inner)
    else concurrency_inner in
  let concurrency_outer :=
    if concurrency_inner *w concurrency_outer <? concurrency_target
    then Z.min (div_ceil concurrency_target concurrency_inner) (rc_max recommended_concurrency_outer)
    else concurrency_outer in
  (concurrency_outer, concurrency_inner).

Definition concurrency_chunks_and_codec (concurrency_target num_chunks : Z) (codec_options : CodecOptions)
    (codec_concurrency : RecommendedConcurrency) : Z * CodecOptions :=
  let chunk_concurrent_minimum := chunk_concurrent_minimum codec_options in
  let min_concurrent_chunks := Z.min chunk_concurrent_minimum num_chunks in
  let max_concurrent_chunks := Z.max chunk_concurrent_minimum num_chunks in
  let (self_concurrent_limit, codec_concurrent_limit) :=
    calc_concurrency_outer_inner concurrency_target
      (RecommendedConcurrency_new (Included min_concurrent_chunks) (Excluded max_concurrent_chunks))
      codec_concurrency in
  let codec_options := with_concurrent_target codec_options codec_concurrent_limit in
  (self_concurrent_limit, codec_options).

(** ** Properties *)

(** A recommendation whose bounds are in order. *)
Definition rc_ok (r : RecommendedConcurrency) : Prop := 1 <= rc_min r <= rc_max r.

Lemma ceiling_bounds a b : 0 < a → 0 < b → b * (div_ceil a b - 1) < a <= b * div_ceil a b ∧ 1 <= div_ceil a b.
Proof. intros Ha Hb. destruct (div_ceil_spec a b) as [H|[H _]]; [lia|lia| |lia]. split; [done|nia]. Qed.

(** The concurrency limits respect the recommendations and the target.  Each limit lies
    between the minimum and the maximum recommended; the limits together reach the target unless
    both are maximal; and a limit is raised above its minimum no further than the target
    asks for. *)
Theorem concurrency_limits target outer inner :
  rc_ok outer → rc_ok inner → 0 <= target < 2 ^ 62 → rc_min outer * rc_min inner < u64_modulus → rc_min outer < 2 ^ 63 →
  let '(o, i) := calc_concurrency_outer_inner target outer inner in
  rc_min outer <= o <= rc_max outer ∧ rc_min inner <= i <= rc_max inner ∧
  (target <= o * i ∨ (o = rc_max outer ∧ i = rc_max inner)) ∧
  (rc_min inner < i → rc_min outer * (i - 1) < target) ∧
  (rc_min outer < o → (o - 1) * i < target).
Proof.
  unfold rc_ok. intros [Ho1 Ho2] [Hi1 Hi2] Ht Hmul Ho63. unfold calc_concurrency_outer_inner.
  set (o := rc_min outer) in *. set (i := rc_min inner) in *. set (O := rc_max outer) in *. set (I := rc_max inner) in *.
  cbv zeta. assert (i *w o = i * o) as -> by (apply wrap64_small; unfold is_u64; nia).
  destruct (Z.ltb_spec (i * o) target) as [Hlt|Hge].
  - destruct (ceiling_bounds target o) as [[Hc1 Hc2] Hc3]; [lia..|]. set (d := div_ceil target o) in *.
    assert (i < d) as Hid by nia.
    assert (Z.min d I *w o = Z.min d I * o) as ->.
    { apply wrap64_small. unfold is_u64, u64_modulus. split; [nia|]. assert (Z.min d I * o <= d * o) by nia. nia. }
    destruct (Z.ltb_spec (Z.min d I * o) target) as [Hlt'|Hge'].
    + assert (I < d) by nia. rewrite (Z.min_r d I) in * by lia.
      destruct (ceiling_bounds target I) as [[He1 He2] He3]; [lia..|]. set (e := div_ceil target I) in *.
      assert (o < e) by nia. destruct (Z.le_gt_cases e O).
      * rewrite (Z.min_l e O) by lia. split_and!; [lia..| | |]; [left; nia|nia|nia].
      * rewrite (Z.min_r e O) by lia. split_and!; [lia..| | |]; [right; lia|nia|nia].
    + assert (i <= Z.min d I <= d ∧ Z.min d I <= I) as Hm by lia. generalize dependent (Z.min d I). intros m Hge' Hm.
      assert (o * (m - 1) <= o * (d - 1)) by (apply Z.mul_le_mono_nonneg_l; lia).
      split_and!; [lia..| | |]; [left; lia|lia|lia].
  - assert (i *w o = i * o) as -> by (apply wrap64_small; unfold is_u64; nia).
    destruct (Z.ltb_spec (i * o) target); [lia|]. split_and!; [lia..| | |]; [left; lia|lia|lia].
Qed.

Lemma concurrency_limits_witness :
  calc_concurrency_outer_inner 32 (new_maximum 5) (RecommendedConcurrency_new (Included 7) (Excluded 12)) = (3, 12) ∧
  32 <= 3 * 12.
Proof.
  split; [reflexivity|].
  pose proof (concurrency_limits 32 (new_maximum 5) (RecommendedConcurrency_new (Included 7) (Excluded 12))) as H.
  vm_compute calc_concurrency_outer_inner in H.
  destruct H as (_ & _ & [H|[H _]] & _); [by_decision..|done|discriminate H].
Defined.

(** The options an operation gives to the codecs differ in the concurrency target only. *)
Lemma concurrency_options target n options c : 
  ∃ t, (concurrency_chunks_and_codec target n options c).2 = with_concurrent_target options t.
Proof. unfold concurrency_chunks_and_codec. destruct (calc_concurrency_outer_inner _ _ _). by eexists. Qed.
