(* ===== verification/Codec.v ===== *)
(** The codec traits of [zarrs_codec/src/codec_traits] and the partial decoders and
    encoders that codecs inherit ([codec_partial_default.rs]).

    A codec that turns arrays into bytes is seen by the rest of the library through
    [ArrayToBytesCodecTraits]; [LawfulArrayToBytesCodec] is what it promises: decoding
    gives back the elements, and a partial decoder reads the region of what a whole decode
    would give.  Partial decoders read through handles, whose operations are programs over
    a store. *)

From S2P Require Import Prelude ArraySubset Linear Iterators ByteRange StoreKey Storage ArrayBytes.
From S2P Require Import Elements StoreProgram DecodeInto Concurrency.

(** ** Representations *)

Inductive BytesRepresentation := BytesFixedSize (size : Z) | BytesBoundedSize (size : Z) | BytesUnboundedSize.

Definition representation_size (self : BytesRepresentation) : option Z :=
  match self with BytesFixedSize size | BytesBoundedSize size => Some size | BytesUnboundedSize => None end.

(** ** Handles

    [BytesPartialDecoderTraits] and [BytesPartialEncoderTraits]. *)
Record BytesHandle := {
  bytes_exists : prog StorageError bool;
  bytes_partial_decode_many : list ByteRange → prog CodecError (option (list bytes));
}.

Record BytesEncodeHandle := {
  bytes_decoder :> BytesHandle;
  bytes_erase : prog CodecError unit;
  bytes_partial_encode_many : list (Z * bytes) → prog CodecError unit;
}.

Definition bytes_partial_decode (self : BytesHandle) (decoded_region : ByteRange) : prog CodecError (option bytes) :=
  let* v := bytes_partial_decode_many self [decoded_region] in
  match v with
  | Some v => let* b := plift (expect (last v)) in preturn (Some b)
  | None => preturn None
  end.

Definition bytes_decode (self : BytesHandle) : prog CodecError (option bytes) :=
  bytes_partial_decode self (FromStart 0 None).

Definition bytes_partial_encode (self : BytesEncodeHandle) (offset : Z) (b : bytes) : prog CodecError unit :=
  bytes_partial_encode_many self [(offset, b)].

(** A key of a store: [(TStorage, StoreKey)]. *)
Definition store_handle (key : StoreKey) : BytesEncodeHandle := {|
  bytes_decoder := {|
    bytes_exists := let* size := pcall (CallSizeKey key) id in preturn (bool_decide (is_Some size));
    bytes_partial_decode_many := λ decoded_regions,
      let* results := pcall (CallGetPartialMany key decoded_regions) CodecStorageError in
      match results with
      | Some results => let* v := plift (map_err CodecStorageError (collect_res results)) in preturn (Some v)
      | None => preturn None
      end |};
  bytes_erase := pcall (CallErase key) CodecStorageError;
  bytes_partial_encode_many := λ offset_values, pcall (CallSetPartialMany key offset_values) CodecStorageError;
|}.

(** Bytes in memory: [Vec<u8>] and [Cow<[u8]>]. *)
Definition memory_handle (self : bytes) : BytesHandle := {|
  bytes_exists := preturn true;
  bytes_partial_decode_many := λ decoded_regions,
    let* v := plift (map_err CodecInvalidByteRange (extract_byte_ranges self decoded_regions)) in preturn (Some v) |}.

(** [ArrayPartialDecoderTraits] and [ArrayPartialEncoderTraits], on array subsets. *)
Record ArrayHandle := {
  partial_decode : ArraySubset → prog CodecError ArrayBytes;
  partial_decode_into : ArraySubset → ArrayBytesDecodeIntoTarget → prog CodecError ArrayBytesDecodeIntoTarget;
}.

Record ArrayEncodeHandle := {
  array_decoder :> ArrayHandle;
  array_erase : prog CodecError unit;
  partial_encode : ArraySubset → ArrayBytes → prog CodecError unit;
}.

(** The provided [partial_decode_into]. *)
Definition default_partial_decode_into (partial_decode : ArraySubset → prog CodecError ArrayBytes)
    (indexer : ArraySubset) (output_target : ArrayBytesDecodeIntoTarget) : prog CodecError ArrayBytesDecodeIntoTarget :=
  if negb (num_elements indexer =? target_num_elements output_target)
  then Done (Err (InvalidNumberOfElements (num_elements indexer) (target_num_elements output_target)))
  else
    let* decoded_value := partial_decode indexer in
    plift (decode_into_array_bytes_target decoded_value output_target).

(** What a codec says of its partial decoder. *)
Record PartialDecoderCapability := { partial_read : bool; can_partial_decode : bool }.

(** ** Array to bytes codecs *)

Class ArrayToBytesCodecTraits (C : Type) := {
  a2b_data_type : C → DataType;
  a2b_fill_value : C → FillValue;
  a2b_recommended_concurrency : C → list Z → outcome CodecError RecommendedConcurrency;
  a2b_partial_decoder_capability : C → PartialDecoderCapability;
  a2b_partial_encode_capability : C → bool;
  a2b_encoded_representation : C → list Z → outcome CodecError BytesRepresentation;
  a2b_encode : C → ArrayBytes → list Z → CodecOptions → outcome CodecError bytes;
  a2b_decode : C → bytes → list Z → CodecOptions → outcome CodecError ArrayBytes;
  a2b_compact : C → bytes → list Z → CodecOptions → outcome CodecError (option bytes);
  a2b_decode_into : C → bytes → list Z → ArrayBytesDecodeIntoTarget → CodecOptions → outcome CodecError ArrayBytesDecodeIntoTarget;
  a2b_partial_decoder : C → BytesHandle → list Z → CodecOptions → prog CodecError ArrayHandle;
  a2b_partial_encoder : C → BytesEncodeHandle → list Z → CodecOptions → prog CodecError ArrayEncodeHandle;
}.

(** What a codec inherits, from its own [encode] and [decode]. *)
Section defaults.
Context (data_type : DataType) (fill_value : FillValue).
Context (encode : ArrayBytes → list Z → CodecOptions → outcome CodecError bytes).
Context (decode : bytes → list Z → CodecOptions → outcome CodecError ArrayBytes).

Definition default_decode_into (b : bytes) (shape : list Z) (output_target : ArrayBytesDecodeIntoTarget) (options : CodecOptions)
    : outcome CodecError ArrayBytesDecodeIntoTarget :=
  let? b := decode b shape options in
  decode_into_array_bytes_target b output_target.

(** [partial_decode] of [ArrayToBytesCodecPartialDefault]. *)
Definition default_partial_decode (input_handle : BytesHandle) (shape : list Z) (options : CodecOptions) (indexer : ArraySubset)
    : prog CodecError ArrayBytes :=
  let* bytes_enc := bytes_decode input_handle in
  match bytes_enc with
  | Some bytes_enc =>
      let* bytes_dec := plift (decode bytes_enc shape options) in
      plift (extract_array_subset bytes_dec indexer shape data_type)
  | None => plift (new_fill_value data_type (num_elements indexer) fill_value)
  end.

Definition default_partial_decoder (input_handle : BytesHandle) (shape : list Z) (options : CodecOptions) : prog CodecError ArrayHandle :=
  preturn {|
    partial_decode := default_partial_decode input_handle shape options;
    partial_decode_into := default_partial_decode_into (default_partial_decode input_handle shape options) |}.

(** [partial_encode] of [ArrayToBytesCodecPartialDefault]. *)
Definition default_partial_encode (input_output_handle : BytesEncodeHandle) (shape : list Z) (options : CodecOptions)
    (indexer : ArraySubset) (b : ArrayBytes) : prog CodecError unit :=
  let num_chunk_elements := product64 shape in
  let* chunk_bytes := bytes_decode input_output_handle in
  let* chunk_bytes :=
    match chunk_bytes with
    | Some chunk_bytes => plift (decode chunk_bytes shape options)
    | None => plift (new_fill_value data_type num_chunk_elements fill_value)
    end in
  let* _ := plift (validate_bytes chunk_bytes num_chunk_elements data_type) in
  let* _ := plift (validate_bytes b (num_elements indexer) data_type) in
  let* chunk_bytes := plift (update_array_bytes chunk_bytes shape indexer b (data_type_size data_type)) in
  let* _ := bytes_erase input_output_handle in
  if negb (store_empty_chunks options) && is_fill_value chunk_bytes fill_value then preturn tt
  else
    let* chunk_bytes := plift (encode chunk_bytes shape options) in
    bytes_partial_encode input_output_handle 0 chunk_bytes.

Definition default_partial_encoder (input_output_handle : BytesEncodeHandle) (shape : list Z) (options : CodecOptions)
    : prog CodecError ArrayEncodeHandle :=
  preturn {|
    array_decoder := {|
      partial_decode := default_partial_decode input_output_handle shape options;
      partial_decode_into := default_partial_decode_into (default_partial_decode input_output_handle shape options) |};
    array_erase := bytes_erase input_output_handle;
    partial_encode := default_partial_encode input_output_handle shape options |}.
End defaults.

(** ** What a codec promises *)

(** The ranges to the end of a value start at [n] or before. *)
Definition opens_within (n : Z) (r : ByteRange) : Prop := match r with FromStart o None => o <= n | _ => True end.

(** The handle reads [w] when the value at its key is [v]. *)
Definition handle_reads (n : Z) (h : BytesHandle) (key : StoreKey) (v w : option bytes) : Prop :=
  (∀ rs, confined key (bytes_partial_decode_many h rs)) ∧
  ∀ rs, Forall (opens_within n) rs → (∀ b, w = Some b → zlen b < u64_modulus ∧ Forall byte_range_ok rs ∧ Forall (λ r, range_within r (zlen b)) rs) →
    runs_at (bytes_partial_decode_many h rs) v (Ok ((λ b, range_bytes b <$> rs) <$> w)) v.

(** The value is read from an offset up to [n] to its end. *)
Definition tail_ok (n : Z) (w : option bytes) (o : Z) : Prop :=
  0 <= o <= n ∧ match w with Some b => zlen b < u64_modulus ∧ o <= zlen b | None => True end.

Definition handle_tails (n : Z) (h : BytesHandle) (key : StoreKey) (v w : option bytes) : Prop :=
  (∀ rs, confined key (bytes_partial_decode_many h rs)) ∧
  ∀ o, tail_ok n w o → runs_at (bytes_partial_decode h (FromStart o None)) v (Ok (drop (Z.to_nat o) <$> w)) v.

Definition array_confined (key : StoreKey) (ah : ArrayHandle) : Prop :=
  ∀ sub, confined key (partial_decode ah sub) ∧ ∀ t, confined key (partial_decode_into ah sub t).

(** The handle reads every region of the elements [V], in at most [limit] bytes. *)
Definition array_reads (ah : ArrayHandle) (v : option bytes) (dt : DataType) (sh : list Z) (V : list element) (limit : Z) : Prop :=
  ∀ sub, region_ok sub sh → ∃ out, runs_at (partial_decode ah sub) v (Ok out) v ∧
    holds out dt (select V (positions sub sh)) ∧ array_bytes_size out <= limit ∧
    ∀ t t', target_fits t (shape sub) → decode_into_array_bytes_target out t = Ok t' →
      runs_at (partial_decode_into ah sub t) v (Ok t') v.

(** A partial decoder that does not support partial decoding reads the whole value. *)
Definition handle_serves (capability : PartialDecoderCapability) (n : Z) (h : BytesHandle) (key : StoreKey) (v w : option bytes) : Prop :=
  if can_partial_decode capability then handle_reads n h key v w else handle_tails n h key v w.

(** The shape of a chunk is made of non-zero sizes. *)
Definition chunk_shape_ok (sh : list Z) : Prop := Forall (λ d, 1 <= d) sh ∧ Zprod sh < 2 ^ 63.

(** A representation gives the size of the bytes. *)
Definition rep_admits (rep : BytesRepresentation) (size : Z) : Prop :=
  match rep with BytesFixedSize n => size = n | BytesBoundedSize n => size <= n | BytesUnboundedSize => True end.

(** The array bytes, and the elements, of a chunk stored as [w]; a chunk that is not stored is
    full of the fill value.  [encodes] says which bytes are an encoding of which elements. *)
Definition content_of (encodes : bytes → ArrayBytes → list element → Prop) (dt : DataType) (fv : FillValue) (sh : list Z)
    (w : option bytes) (b : ArrayBytes) (V : list element) : Prop :=
  holds b dt V ∧ zlen V = Zprod sh ∧ packed b ∧
  match w with
  | Some enc => zlen enc < u64_modulus ∧ encodes enc b V
  | None => new_fill_value dt (Zprod sh) fv = Ok b ∧ V = replicate (Z.to_nat (Zprod sh)) (fill_element dt fv)
  end.

Class LawfulArrayToBytesCodec (C : Type) `{!ArrayToBytesCodecTraits C} := {
  a2b_wf : C → Prop;
  a2b_shape_ok : C → list Z → Prop;
  (** the size of the bytes that a chunk may have, and that its encoding then has *)
  a2b_limit : C → list Z → Z;
  a2b_encoded_limit : C → list Z → Z;
  (** the offset from which a value is read to its end at most *)
  a2b_offset_limit : C → Z;
  (** the encodings of a chunk *)
  a2b_encodes : C → list Z → bytes → ArrayBytes → list element → Prop;
  a2b_fill_law c : a2b_wf c → fill_ok (a2b_data_type c) (a2b_fill_value c);
  a2b_offset_law c : a2b_wf c → 0 <= a2b_offset_limit c <= 2 ^ 62;
  a2b_shape_law c sh : a2b_wf c → a2b_shape_ok c sh →
    chunk_shape_ok sh ∧ a2b_limit c sh <= 2 ^ 63 ∧ a2b_encoded_limit c sh < u64_modulus ∧
    Zprod sh * Z.max 1 (zlen (base_fill (a2b_data_type c) (a2b_fill_value c))) < a2b_limit c sh;
  a2b_concurrency_law c sh : a2b_wf c → a2b_shape_ok c sh → is_Ok (a2b_recommended_concurrency c sh);
  a2b_decode_law c sh options enc b V : a2b_wf c → a2b_shape_ok c sh → a2b_encodes c sh enc b V →
    zlen enc < u64_modulus → holds b (a2b_data_type c) V → zlen V = Zprod sh → a2b_decode c enc sh options = Ok b;
  a2b_roundtrip c sh options b V : a2b_wf c → a2b_shape_ok c sh →
    holds b (a2b_data_type c) V → zlen V = Zprod sh → array_bytes_size b < a2b_limit c sh →
    ∃ enc b' rep, a2b_encode c b sh options = Ok enc ∧ zlen enc <= a2b_encoded_limit c sh ∧
      a2b_encoded_representation c sh = Ok rep ∧ rep_admits rep (zlen enc) ∧
      a2b_encodes c sh enc b' V ∧ holds b' (a2b_data_type c) V ∧ packed b' ∧ array_bytes_size b' <= array_bytes_size b;
  a2b_decode_into_law c sh options enc b V t t' : a2b_wf c → a2b_shape_ok c sh →
    content_of (a2b_encodes c sh) (a2b_data_type c) (a2b_fill_value c) sh (Some enc) b V → target_fits t sh → decode_into_array_bytes_target b t = Ok t' →
    a2b_decode_into c enc sh t options = Ok t';
  a2b_partial_law c sh options h key v w b V : a2b_wf c → a2b_shape_ok c sh →
    handle_serves (a2b_partial_decoder_capability c) (a2b_offset_limit c) h key v w →
    content_of (a2b_encodes c sh) (a2b_data_type c) (a2b_fill_value c) sh w b V →
    ∃ ah, runs_at (a2b_partial_decoder c h sh options) v (Ok ah) v ∧
      array_reads ah v (a2b_data_type c) sh V (array_bytes_size b);
  a2b_partial_confined c sh options h key : (∀ rs, confined key (bytes_partial_decode_many h rs)) →
    confines key (a2b_partial_decoder c h sh options) (array_confined key);
}.

(** A codec that validates what it decodes, whatever the bytes. *)
Class ValidatingArrayToBytesCodec (C : Type) `{LawfulArrayToBytesCodec C} :=
  a2b_decode_valid c sh options enc b : a2b_wf c → a2b_shape_ok c sh → a2b_decode c enc sh options = Ok b →
    validate_bytes b (product64 sh) (a2b_data_type c) = Ok tt.

Definition chunk_content {C : Type} `{LawfulArrayToBytesCodec C} (c : C) (sh : list Z) : option bytes → ArrayBytes → list element → Prop :=
  content_of (a2b_encodes c sh) (a2b_data_type c) (a2b_fill_value c) sh.

Lemma chunk_decodes {C : Type} `{LawfulArrayToBytesCodec C} (c : C) sh enc b V options : a2b_wf c → a2b_shape_ok c sh →
  chunk_content c sh (Some enc) b V → a2b_decode c enc sh options = Ok b.
Proof. intros Hc Hsh (Hh & HV & _ & He & Henc). by eapply a2b_decode_law. Qed.

(** ** The inherited partial decoder keeps the promise *)

Lemma range_bytes_all b : range_bytes b (FromStart 0 None) = b.
Proof. done. Qed.

Lemma handle_reads_tails n h key v w : n < u64_modulus → handle_reads n h key v w → handle_tails n h key v w.
Proof.
  intros Hn [Hc Hr]. split; [done|]. intros o [Ho Hw]. unfold bytes_partial_decode. eapply runs_at_bind.
  { apply Hr; [by repeat constructor; simpl; lia|]. intros b Hb. rewrite Hb in Hw. split_and!; [apply Hw|repeat constructor..]; simpl; lia. }
  destruct w as [b|]; done.
Qed.

Lemma tails_decode n h key v w : 0 <= n → handle_tails n h key v w → (∀ b, w = Some b → zlen b < u64_modulus) →
  runs_at (bytes_decode h) v (Ok w) v.
Proof.
  intros Hn [_ Hr] Hw. replace w with (drop (Z.to_nat 0) <$> w) by (destruct w as [b|]; simpl; [by rewrite drop_0|done]). apply Hr.
  split; [done|]. destruct w as [b|]; [|done]. split; [by apply Hw|lia].
Qed.

Lemma bytes_decode_reads h key v w : handle_reads 0 h key v w → (∀ b, w = Some b → zlen b < u64_modulus) →
  runs_at (bytes_decode h) v (Ok w) v.
Proof. intros Hr Hw. eapply (tails_decode 0); [done|by apply handle_reads_tails|done]. Qed.

Lemma bytes_decode_confined h key : (∀ rs, confined key (bytes_partial_decode_many h rs)) → confined key (bytes_decode h).
Proof. intros Hc. apply confined_bind; [apply Hc|]. intros [v|]; simpl; [|done]. by destruct (last v). Qed.

Lemma store_handle_reads n key v : handle_reads n (store_handle key) key v v.
Proof.
  split.
  - intros rs. simpl. split; [done|]. intros [l|]; simpl; [|done]. by destruct (collect_res l).
  - intros rs _ Hrs. simpl. exists ((λ b, (λ r, Ok (range_bytes b r)) <$> rs) <$> v), v. split; [done|].
    destruct v as [b|]; simpl; [|done].
    replace ((λ r, Ok (range_bytes b r)) <$> rs) with (Ok (E:=StorageError) <$> (range_bytes b <$> rs))
      by (by rewrite list_fmap_fmap). by rewrite collect_res_Ok.
Qed.

Lemma handle_reads_serves capability n h key v w : n <= 2 ^ 62 → handle_reads n h key v w → handle_serves capability n h key v w.
Proof.
  intros Hn Hr. unfold handle_serves. destruct (can_partial_decode capability); [done|].
  apply handle_reads_tails; [unfold u64_modulus; lia|done].
Qed.

Lemma select_all {A} `{!Inhabited A} (T : list A) : select T (seqZ 0 (zlen T)) = T.
Proof.
  unfold select. apply list_eq_total; [rewrite length_fmap, length_seqZ; lia|]. rewrite length_fmap, length_seqZ. intros j Hj.
  rewrite fmap_total by (rewrite length_seqZ; lia). unfold seqZ. rewrite fmap_total by (rewrite length_seq; lia).
  f_equal. rewrite (list_lookup_total_correct _ _ (0 + j)%nat) by (by apply lookup_seq_lt). lia.
Qed.

Lemma chunk_shape_product sh : chunk_shape_ok sh → product64 sh = Zprod sh ∧ 0 < Zprod sh.
Proof.
  intros [Hsh Hp]. split; [|apply Zprod_pos; eapply Forall_impl; [exact Hsh|]; simpl; lia].
  apply product64_wf. split; [|unfold u64_modulus; lia]. eapply Forall_impl; [exact Hsh|]. simpl. lia.
Qed.

(** The region of the whole array. *)
Lemma region_whole sh : chunk_shape_ok sh → region_ok (new_with_shape sh) sh ∧ positions (new_with_shape sh) sh = seqZ 0 (Zprod sh).
Proof.
  intros [Hsh Hp]. assert (Forall (λ d, 0 < d) sh) as Hpos by (eapply Forall_impl; [exact Hsh|]; simpl; lia).
  assert (shape_wf sh) as Hwf by (split; [eapply Forall_impl; [exact Hpos|]; simpl; lia|unfold u64_modulus; lia]).
  pose proof (Zprod_pos sh Hpos) as Hz. pose proof (whole_region sh Hwf Hz) as Hr. split; [split_and!; [done| | |done]|].
  - split; [by cbn; rewrite length_replicate|]. intros j Hj. cbn [start shape new_with_shape]. rewrite lookup_total_replicate_2 by done. lia.
  - unfold is_empty. cbn [shape new_with_shape]. clear -Hpos. induction Hpos as [|d sh Hd Hsh IH]; [done|]. cbn [existsb].
    rewrite IH, orb_false_r. apply Z.eqb_neq. lia.
  - unfold positions, lin_elements. cbn [start shape new_with_shape]. rewrite box_delin by (apply length_replicate || apply Hwf).
    rewrite list_fmap_fmap. replace (seqZ 0 (Zprod sh)) with (id <$> seqZ 0 (Zprod sh)) at 2 by apply list_fmap_id.
    apply list_fmap_ext_in. intros k Hk%elem_of_seqZ. replace (zip_with Z.add (delin k sh) (replicate (length sh) 0)) with (delin k sh).
    + change (id k) with k. apply lin_delin; [done|lia].
    + apply list_eq_total; rewrite ?length_zip_with, ?length_delin, ?length_replicate; [lia|]. intros j Hj.
      rewrite zip_with_total by (rewrite ?length_delin, ?length_replicate; lia). rewrite lookup_total_replicate_2 by lia. lia.
Qed.

Section default_laws.
Context (dt : DataType) (fv : FillValue).
Context (decode : bytes → list Z → CodecOptions → outcome CodecError ArrayBytes).

Lemma region_num_elements sub sh : region_ok sub sh → num_elements sub = Zprod (shape sub) ∧ 0 <= Zprod (shape sub) <= Zprod sh.
Proof.
  intros (Hs & Ha & _ & _). unfold num_elements. rewrite product64_wf by apply Hs. split; [done|]. by apply region_product.
Qed.

Lemma select_replicate {A} `{!Inhabited A} (x : A) n idxs : Forall (λ i, 0 <= i < Z.of_nat n) idxs →
  select (replicate n x) idxs = replicate (length idxs) x.
Proof.
  induction 1 as [|i idxs Hi Hidxs IH]; [done|]. unfold select in *. rewrite fmap_cons. cbn [length replicate]. rewrite IH.
  f_equal. apply lookup_total_replicate_2. lia.
Qed.

(** The elements of a region: extracted from what is decoded, or the fill value. *)
Lemma region_content sh w b V sub : fill_ok dt fv → Zprod sh * Z.max 1 (zlen (base_fill dt fv)) < 2 ^ 63 →
  holds b dt V → zlen V = Zprod sh →
  (w = None → new_fill_value dt (Zprod sh) fv = Ok b ∧ V = replicate (Z.to_nat (Zprod sh)) (fill_element dt fv)) → region_ok sub sh →
  ∃ out, match w : option bytes with
    | Some _ => extract_array_subset b sub sh dt
    | None => new_fill_value dt (num_elements sub) fv
    end = Ok out ∧ holds out dt (select V (positions sub sh)) ∧ array_bytes_size out <= array_bytes_size b.
Proof.
  intros Hf Hb Hh HV Hw Hsub. destruct (region_num_elements sub sh Hsub) as [Hn Hp].
  pose proof Hsub as (Hs & Ha & _ & Hash). pose proof (positions_bound sub sh Hs Ha) as Hpb.
  pose proof (length_positions sub sh Hs) as Hpl. destruct w as [enc|].
  - destruct (extract_holds b dt V sub sh Hsub Hh HV) as (out & Hout & Hho & _ & Hsz). by exists out.
  - destruct (Hw eq_refl) as [Hnew ->].
    destruct (new_fill_holds dt (Zprod sh) fv Hf) as (b' & Hb' & _ & _ & Hsz'); [lia..|]. rewrite Hnew in Hb'. injection Hb' as <-.
    destruct (new_fill_holds dt (Zprod (shape sub)) fv Hf) as (out & Hout & Hho & _ & Hsz); [lia|nia|].
    exists out. split_and!; [by rewrite Hn| |rewrite Hsz, Hsz'; nia].
    rewrite select_replicate by (eapply Forall_impl; [exact Hpb|]; simpl; lia).
    replace (length (positions sub sh)) with (Z.to_nat (Zprod (shape sub))) by lia. done.
Qed.

Lemma default_partial_ok sh options h key v w b V sub : fill_ok dt fv → 
  Zprod sh * Z.max 1 (zlen (base_fill dt fv)) < 2 ^ 63 → handle_tails 0 h key v w →
  holds b dt V → zlen V = Zprod sh → 
  match w with
  | Some enc => zlen enc < u64_modulus ∧ decode enc sh options = Ok b
  | None => new_fill_value dt (Zprod sh) fv = Ok b ∧ V = replicate (Z.to_nat (Zprod sh)) (fill_element dt fv)
  end → region_ok sub sh →
  ∃ out, runs_at (default_partial_decode dt fv decode h sh options sub) v (Ok out) v ∧
    holds out dt (select V (positions sub sh)) ∧ array_bytes_size out <= array_bytes_size b.
Proof.
  intros Hf Hb Hr Hh HV Hw Hsub. destruct (region_content sh w b V sub) as (out & Hout & Hho & Hsz); [done|done|done|done|by intros ->|done|].
  exists out. split_and!; [|done|done]. unfold default_partial_decode.
  eapply runs_at_bind; [eapply (tails_decode 0); [done|exact Hr|by intros ? ->; destruct Hw]|].
  destruct w as [enc|]; simpl; [|by rewrite Hout]. destruct Hw as [_ ->]. simpl. by rewrite Hout.
Qed.

Lemma default_partial_confined sh options h key sub : (∀ rs, confined key (bytes_partial_decode_many h rs)) →
  confined key (default_partial_decode dt fv decode h sh options sub).
Proof.
  intros H. apply confined_bind; [by apply bytes_decode_confined|]. intros [enc|]; simpl; [|done]. by destruct (decode enc sh options).
Qed.
End default_laws.

(** ** The inherited operations on targets *)

Lemma default_decode_into_ok decode enc sh options b t t' : decode enc sh options = Ok b →
  decode_into_array_bytes_target b t = Ok t' → default_decode_into decode enc sh t options = Ok t'.
Proof. intros Hd Ht. unfold default_decode_into. by rewrite Hd. Qed.

Lemma default_partial_decode_into_ok pd sub sh v out t t' : runs_at (pd sub) v (Ok out) v → region_ok sub sh → target_fits t (shape sub) →
  decode_into_array_bytes_target out t = Ok t' → runs_at (default_partial_decode_into pd sub t) v (Ok t') v.
Proof.
  intros Hr Hs Hf Ht. unfold default_partial_decode_into. rewrite (target_fits_num_elements _ _ Hf), (proj1 (region_num_elements _ _ Hs)), Z.eqb_refl. cbn [negb]. eapply runs_at_bind; [exact Hr|]. prog. by rewrite Ht.
Qed.

Lemma default_partial_decode_into_confined key pd sub t : confined key (pd sub) → confined key (default_partial_decode_into pd sub t).
Proof. intros Hp. unfold default_partial_decode_into. destruct (negb _); [done|]. by apply confined_bind. Qed.
