(* ===== verification/BytesCodec.v ===== *)
(** The [bytes] codec: [zarrs/src/array/codec/array_to_bytes/bytes] and
    [zarrs_data_type/src/codec_traits/bytes.rs].

    Fixed-length elements are stored one after the other, their components in the byte order
    of the codec.  The partial decoder reads the byte ranges of a region; the partial encoder
    writes them in place. *)

From S2P Require Import Prelude ArraySubset Linear Iterators ByteRange StoreKey Storage ArrayBytes.
From S2P Require Import Elements StoreProgram DecodeInto Concurrency Codec.

Inductive Endianness := Little | Big.

#[export] Instance Endianness_eq_dec : EqDecision Endianness.
Proof. solve_decision. Defined.

(** [NATIVE_ENDIAN] of the target. *)
Class Target := native : Endianness.

(** [as_chunks_mut::<N>().0], reversed in place; the remainder stays. *)
Definition reverse_components (size : nat) (b : bytes) : bytes :=
  concat (reverse <$> chunks_exact size b) ++ drop (size * (length b / size)) b.

(** [BytesDataTypeTraits] as [impl_bytes_data_type_traits!] implements it for a data type whose
    components have [component_size] bytes.  [decode] is [encode]. *)
Definition data_type_encode `{Target} (component_size : Z) (b : bytes) (endianness : option Endianness) : outcome CodecError bytes :=
  if component_size =? 1 then Ok b
  else
    let? endianness := ok_or CodecOther endianness in
    if decide (endianness = native) then Ok b else Ok (reverse_components (Z.to_nat component_size) b).

Definition data_type_decode `{Target} (component_size : Z) (b : bytes) (endianness : option Endianness) : outcome CodecError bytes :=
  data_type_encode component_size b endianness.

(** [component_size] is that of the [BytesDataTypeTraits] of the data type. *)
Record BytesCodecBound := mk_bytes_codec {
  endian : option Endianness;
  bc_data_type : DataType;
  bc_fill_value : FillValue;
  bc_component_size : Z;
}.

Definition is_optional (self : DataType) : bool := match self with OptionalType _ => true | PlainType _ => false end.

(** [with_context]; [codec_bytes] finds the [BytesDataTypeTraits] of a data type. *)
Definition bytes_with_context (codec_bytes : DataType → option Z) (endian : option Endianness) (data_type : DataType)
    (fill_value : FillValue) : outcome CodecError BytesCodecBound :=
  if is_optional data_type then Err UnsupportedDataType
  else
    let? component_size := ok_or UnsupportedDataType (codec_bytes data_type) in
    Ok (mk_bytes_codec endian data_type fill_value component_size).

Section codec.
Context `{Target}.

Definition bytes_encode (self : BytesCodecBound) (b : ArrayBytes) (shape : list Z) (options : CodecOptions) : outcome CodecError bytes :=
  let num_elements := product64 shape in
  let? _ := validate_bytes b num_elements (bc_data_type self) in
  let? b := into_fixed b in
  data_type_encode (bc_component_size self) b (endian self).

Definition bytes_decode_ (self : BytesCodecBound) (b : bytes) (shape : list Z) (options : CodecOptions) : outcome CodecError ArrayBytes :=
  let? b := data_type_decode (bc_component_size self) b (endian self) in
  let bytes_decoded := FixedBytes b in
  let num_elements := product64 shape in
  let? _ := validate_bytes bytes_decoded num_elements (bc_data_type self) in
  Ok bytes_decoded.

Definition bytes_encoded_representation (self : BytesCodecBound) (shape : list Z) : outcome CodecError BytesRepresentation :=
  match data_type_size (bc_data_type self) with
  | VariableSize => Err UnsupportedDataType
  | FixedSize data_type_size => Ok (BytesFixedSize (product64 shape *w data_type_size))
  end.

Definition bytes_recommended_concurrency (self : BytesCodecBound) (shape : list Z) : outcome CodecError RecommendedConcurrency :=
  Ok (new_maximum 1).

(** [BytesCodecPartial]. *)
Definition bytes_codec_partial_decode (self : BytesCodecBound) (input_output_handle : BytesHandle) (shape : list Z)
    (indexer : ArraySubset) : prog CodecError ArrayBytes :=
  match fixed_size (bc_data_type self) with
  | None => Done (Err UnsupportedDataType)
  | Some data_type_size =>
      if negb (dimensionality indexer =? length shape)%nat
      then Done (Err (IncompatibleIndexer (IdxIncompatibleDimensionality (dimensionality indexer) (length shape))))
      else
        let* byte_ranges := plift (map_err IncompatibleIndexer (contiguous_byte_ranges indexer shape data_type_size)) in
        let* decoded := bytes_partial_decode_many input_output_handle (range_to_byte_range <$> byte_ranges) in
        match decoded with
        | Some decoded =>
            let* b := plift (data_type_decode (bc_component_size self) (concat decoded) (endian self)) in
            preturn (FixedBytes b)
        | None => plift (new_fill_value (bc_data_type self) (num_elements indexer) (bc_fill_value self))
        end
  end.

(** The [scan] that pairs the byte ranges with the bytes to write in them. *)
Fixpoint split_ranges (bytes_to_encode : bytes) (offset_in : Z) (byte_ranges : list range) : outcome CodecError (list (Z * bytes)) :=
  match byte_ranges with
  | [] => Ok []
  | range_out :: byte_ranges =>
      let len := r_end range_out -w r_start range_out in
      let? part := slice bytes_to_encode offset_in (offset_in +w len) in
      let? rest := split_ranges bytes_to_encode (offset_in +w len) byte_ranges in
      Ok ((r_start range_out, part) :: rest)
  end.

Definition bytes_codec_partial_encode (self : BytesCodecBound) (input_output_handle : BytesEncodeHandle) (shape : list Z)
    (indexer : ArraySubset) (b : ArrayBytes) : prog CodecError unit :=
  match fixed_size (bc_data_type self) with
  | None => Done (Err UnsupportedDataType)
  | Some size =>
      if negb (dimensionality indexer =? length shape)%nat
      then Done (Err (IncompatibleIndexer (IdxIncompatibleDimensionality (dimensionality indexer) (length shape))))
      else
        let* exists_ := pmap_err CodecStorageError (bytes_exists input_output_handle) in
        if exists_ : bool then
          let* byte_ranges := plift (map_err IncompatibleIndexer (contiguous_byte_ranges indexer shape size)) in
          let* b := plift (into_fixed b) in
          let* bytes_to_encode := plift (data_type_encode (bc_component_size self) b (endian self)) in
          let* offset_bytes := plift (split_ranges bytes_to_encode 0 byte_ranges) in
          bytes_partial_encode_many input_output_handle offset_bytes
        else
          let num_elements := product64 shape in
          let* chunk_bytes := plift (new_fill_value (bc_data_type self) num_elements (bc_fill_value self)) in
          let* chunk_bytes := plift (update_array_bytes chunk_bytes shape indexer b (data_type_size (bc_data_type self))) in
          let* chunk_bytes := plift (unwrap (into_fixed chunk_bytes)) in
          let* chunk_bytes := plift (data_type_encode (bc_component_size self) chunk_bytes (endian self)) in
          bytes_partial_encode input_output_handle 0 chunk_bytes
  end.

Definition bytes_partial_decoder (self : BytesCodecBound) (input_handle : BytesHandle) (shape : list Z) (options : CodecOptions)
    : prog CodecError ArrayHandle :=
  preturn {|
    partial_decode := bytes_codec_partial_decode self input_handle shape;
    partial_decode_into := default_partial_decode_into (bytes_codec_partial_decode self input_handle shape) |}.

Definition bytes_partial_encoder (self : BytesCodecBound) (input_output_handle : BytesEncodeHandle) (shape : list Z) (options : CodecOptions)
    : prog CodecError ArrayEncodeHandle :=
  preturn {|
    array_decoder := {|
      partial_decode := bytes_codec_partial_decode self input_output_handle shape;
      partial_decode_into := default_partial_decode_into (bytes_codec_partial_decode self input_output_handle shape) |};
    array_erase := bytes_erase input_output_handle;
    partial_encode := bytes_codec_partial_encode self input_output_handle shape |}.

#[export] Instance bytes_codec_traits : ArrayToBytesCodecTraits BytesCodecBound := {|
  a2b_data_type := bc_data_type;
  a2b_fill_value := bc_fill_value;
  a2b_recommended_concurrency := bytes_recommended_concurrency;
  a2b_partial_decoder_capability _ := {| partial_read := true; can_partial_decode := true |};
  a2b_partial_encode_capability _ := true;
  a2b_encoded_representation := bytes_encoded_representation;
  a2b_encode := bytes_encode;
  a2b_decode := bytes_decode_;
  a2b_compact _ _ _ _ := Ok None;
  a2b_decode_into self := default_decode_into (bytes_decode_ self);
  a2b_partial_decoder := bytes_partial_decoder;
  a2b_partial_encoder := bytes_partial_encoder;
|}.

(** ** The byte order *)

(** The component of every element is reversed. *)
Definition swap_element (n : nat) (e : bytes) : bytes := concat (reverse <$> chunks_exact n e).

Lemma reverse_components_concat n L : (0 < n)%nat → Forall (λ e, length e = n) L →
  reverse_components n (concat L) = concat (reverse <$> L).
Proof.
  intros Hn HL. unfold reverse_components. rewrite chunks_exact_concat by done. rewrite (length_concat_const n) by done.
  rewrite Nat.div_mul, Nat.mul_comm by lia. rewrite drop_ge by (by rewrite (length_concat_const n)). by rewrite app_nil_r.
Qed.

Lemma reverse_components_involutive n b : (0 < n)%nat → (length b mod n = 0)%nat → reverse_components n (reverse_components n b) = b.
Proof.
  intros Hn Hm. destruct (concat_chunks_exact n b Hn Hm) as (Hc & HF & _). rewrite <-Hc at 1.
  rewrite reverse_components_concat by done. rewrite reverse_components_concat; [|done|].
  - rewrite list_fmap_fmap. rewrite (list_fmap_ext_in _ id) by (intros x _; apply reverse_involutive). by rewrite list_fmap_id.
  - apply Forall_fmap. eapply Forall_impl; [exact HF|]. simpl. intros e <-. apply length_reverse.
Qed.

Lemma length_swap n e : (0 < n)%nat → (length e mod n = 0)%nat → length (swap_element n e) = length e.
Proof.
  intros Hn Hm. destruct (concat_chunks_exact n e Hn Hm) as (Hc & HF & _). unfold swap_element. rewrite <-Hc at 2. clear Hc.
  induction HF as [|x l Hx HF IH]; [done|]. rewrite fmap_cons. cbn [concat]. by rewrite !length_app, length_reverse, IH.
Qed.

(** On elements of a multiple of [n] bytes, the components of each are reversed. *)
Lemma reverse_components_elements n d L : (0 < n)%nat → (d mod n = 0)%nat → Forall (λ e, length e = d) L →
  reverse_components n (concat L) = concat (swap_element n <$> L).
Proof.
  intros Hn Hd HL. assert (concat L = concat (concat (chunks_exact n <$> L))) as ->.
  { induction HL as [|e L He HL IH]; [done|]. rewrite fmap_cons. cbn [concat]. rewrite concat_app, <-IH. f_equal. symmetry.
    apply concat_chunks_exact; [done|]. by rewrite He. }
  rewrite reverse_components_concat; [|done|].
  - clear HL. induction L as [|e L IH]; [done|]. rewrite !fmap_cons. cbn [concat]. by rewrite fmap_app, concat_app, IH.
  - induction HL as [|e L He HL IH]; [constructor|]. rewrite fmap_cons. cbn [concat]. apply Forall_app. split; [|done].
    apply concat_chunks_exact; [done|]. by rewrite He.
Qed.

(** A codec for a fixed-length data type, whose elements are made of components. *)
Record bytes_codec_wf (c : BytesCodecBound) (d : Z) : Prop := {
  wf_size : bc_data_type c = PlainType (FixedSize d);
  wf_positive : 0 < d;
  wf_component : 0 < bc_component_size c ∧ d mod bc_component_size c = 0;
  wf_endian : bc_component_size c = 1 ∨ is_Some (endian c);
  wf_fill : zlen (bc_fill_value c) = d;
}.

(** The encoding of an element. *)
Definition encoded_element (c : BytesCodecBound) (e : bytes) : bytes :=
  if (bc_component_size c =? 1) || bool_decide (endian c = Some native) then e else swap_element (Z.to_nat (bc_component_size c)) e.

Lemma fixed_valid d L sh : fixed_elements d L → zlen L = Zprod sh → chunk_shape_ok sh → Zprod sh * d < 2 ^ 63 →
  validate_bytes (FixedBytes (concat L)) (product64 sh) (PlainType (FixedSize d)) = Ok tt.
Proof.
  intros HL Hlen [Hp Hb] Hd. assert (holds (FixedBytes (concat L)) (PlainType (FixedSize d)) (Value <$> L)) as Hh.
  { apply holds_fixed. exists L. split_and!; [done..|]. by rewrite Hlen. }
  pose proof (holds_valid _ _ _ Hh) as Hv. rewrite length_fmap, Hlen in Hv. rewrite product64_wf; [done|].
  split; [|unfold u64_modulus; lia]. eapply Forall_impl; [exact Hp|]. simpl. lia.
Qed.

Lemma reverse_components_length n b : (0 < n)%nat → length (reverse_components n b) = length b.
Proof.
  intros Hn. unfold reverse_components. rewrite length_app, length_drop. rewrite (length_concat_const n).
  - unfold chunks_exact. rewrite !length_fmap, length_seq. pose proof (Nat.div_mod_eq (length b) n). nia.
  - apply Forall_fmap, Forall_fmap, Forall_forall. intros i Hi%elem_of_seq. simpl. rewrite length_reverse, length_take, length_drop.
    pose proof (Nat.div_mod_eq (length b) n). nia.
Qed.

Lemma data_type_encode_length component_size b endianness b' : 0 < component_size →
  data_type_encode component_size b endianness = Ok b' → length b' = length b.
Proof.
  intros Hp. unfold data_type_encode. destruct (component_size =? 1); [by intros [= ->]|]. destruct endianness as [en|]; [|done]. cbn [ok_or obind].
  destruct (decide _); intros [= <-]; [done|]. apply reverse_components_length. lia.
Qed.

Section laws.
Context (c : BytesCodecBound) (d : Z) (Hc : bytes_codec_wf c d).

Lemma component_divides (e : bytes) : length e = Z.to_nat d → (length e mod Z.to_nat (bc_component_size c) = 0)%nat.
Proof.
  destruct (wf_component c d Hc) as [Hp Hm]. pose proof (wf_positive c d Hc). intros ->.
  rewrite <-Z2Nat.inj_mod by lia. by rewrite Hm.
Qed.

Lemma encode_elements L : fixed_elements d L →
  data_type_encode (bc_component_size c) (concat L) (endian c) = Ok (concat (encoded_element c <$> L)).
Proof.
  intros [_ HL]. unfold data_type_encode, encoded_element. destruct (wf_component c d Hc) as [Hp Hm]. pose proof (wf_positive c d Hc).
  destruct (Z.eqb_spec (bc_component_size c) 1) as [|Hn]; simpl.
  - by rewrite list_fmap_id.
  - destruct (wf_endian c d Hc) as [?|[en Hen]]; [done|]. rewrite Hen. simpl. destruct (decide (en = native)) as [->|Hne].
    + rewrite bool_decide_true by done. by rewrite list_fmap_id.
    + rewrite bool_decide_false by congruence. f_equal. apply (reverse_components_elements _ (Z.to_nat d)); [lia| |done].
      rewrite <-Z2Nat.inj_mod by lia. by rewrite Hm.
Qed.

Lemma encoded_fixed L : fixed_elements d L → fixed_elements d (encoded_element c <$> L).
Proof.
  intros [Hd HL]. split; [done|]. apply Forall_fmap. eapply Forall_impl; [exact HL|]. simpl. intros e He. unfold encoded_element.
  destruct (_ || _); [done|]. rewrite length_swap; [done|destruct (wf_component c d Hc); lia|by apply component_divides].
Qed.

Lemma encoded_involutive (e : bytes) : length e = Z.to_nat d → encoded_element c (encoded_element c e) = e.
Proof.
  intros He. unfold encoded_element. destruct (_ || _); [done|]. pose proof (component_divides e He) as Hm. destruct (wf_component c d Hc) as [Hp _].
  set (n := Z.to_nat (bc_component_size c)) in *. assert (0 < n)%nat as Hn by lia.
  pose proof (reverse_components_involutive n e Hn Hm) as Hi.
  assert (∀ x, (length x mod n = 0)%nat → reverse_components n x = swap_element n x) as Hr.
  { intros x Hx. destruct (concat_chunks_exact n x Hn Hx) as (Hcx & HF & _). rewrite <-Hcx at 1. by rewrite reverse_components_concat. }
  by rewrite !Hr in Hi by (rewrite ?Hr, ?length_swap; done).
Qed.

Lemma encoded_elements_involutive L : fixed_elements d L → encoded_element c <$> (encoded_element c <$> L) = L.
Proof.
  intros [_ HL]. rewrite list_fmap_fmap. rewrite (list_fmap_ext_in _ id); [by rewrite list_fmap_id|]. intros e He.
  apply encoded_involutive. rewrite Forall_forall in HL. by apply HL.
Qed.

(** ** Encoding and decoding *)

Lemma encode_ok L sh options : fixed_elements d L → zlen L = Zprod sh → chunk_shape_ok sh → Zprod sh * d < 2 ^ 63 →
  bytes_encode c (FixedBytes (concat L)) sh options = Ok (concat (encoded_element c <$> L)).
Proof.
  intros HL Hlen [Hp Hb] Hd. unfold bytes_encode. rewrite (wf_size c d Hc). rewrite fixed_valid; [|done..].
  cbn [obind into_fixed]. by apply encode_elements.
Qed.

Lemma decode_ok L sh options : fixed_elements d L → zlen L = Zprod sh → chunk_shape_ok sh → Zprod sh * d < 2 ^ 63 →
  bytes_decode_ c (concat (encoded_element c <$> L)) sh options = Ok (FixedBytes (concat L)).
Proof.
  intros HL Hlen Hsh Hd. unfold bytes_decode_, data_type_decode. rewrite encode_elements by by apply encoded_fixed.
  cbn [obind]. rewrite (wf_size c d Hc), encoded_elements_involutive, fixed_valid by done. done.
Qed.

(** What the codec decodes is the encoding of the elements. *)
Lemma decode_inv enc sh options L : bytes_decode_ c enc sh options = Ok (FixedBytes (concat L)) → fixed_elements d L →
  enc = concat (encoded_element c <$> L).
Proof.
  unfold bytes_decode_, data_type_decode. intros Hdec HL. pose proof (wf_positive c d Hc).
  destruct (data_type_encode _ enc _) as [b| |] eqn:Henc; [|done..]. cbn [obind] in Hdec.
  destruct (validate_bytes _ _ _); [|done..]. injection Hdec as ->.
  pose proof (data_type_encode_length _ _ _ _ (proj1 (wf_component c d Hc)) Henc) as Hlen. pose proof (fixed_elements_length d L HL) as HlL.
  destruct (concat_chunks_exact (Z.to_nat d) enc) as (Hcat & HF & _); [lia| |].
  { apply (inj Z.of_nat). rewrite Nat2Z.inj_mod, Z2Nat.id by lia. replace (zlen enc) with (zlen L * d) by lia. by rewrite Z.mod_mul by lia. }
  assert (fixed_elements d (chunks_exact (Z.to_nat d) enc)) as Hfe by (split; [lia|done]). rewrite <-Hcat in Henc |- *.
  rewrite encode_elements in Henc by done. injection Henc as Henc.
  rewrite <-(chunks_exact_concat (Z.to_nat d) L), <-Henc by (lia || apply HL).
  rewrite (chunks_exact_concat (Z.to_nat d) (encoded_element c <$> _)); [by rewrite encoded_elements_involutive|lia|].
  by apply encoded_fixed.
Qed.

(** ** The partial decoder *)

Lemma select_encoded L idxs : Forall (λ i, 0 <= i < zlen L) idxs →
  select (encoded_element c <$> L) idxs = encoded_element c <$> select L idxs.
Proof. apply select_fmap. Qed.

Lemma partial_decode_ok sh h key v w b V sub : Zprod sh * d < 2 ^ 63 → handle_reads 0 h key v w →
  content_of (λ enc b V, ∀ options, bytes_decode_ c enc sh options = Ok b) (bc_data_type c) (bc_fill_value c) sh w b V → region_ok sub sh →
  ∃ out, runs_at (bytes_codec_partial_decode c h sh sub) v (Ok out) v ∧
    holds out (bc_data_type c) (select V (positions sub sh)) ∧ array_bytes_size out <= array_bytes_size b.
Proof.
  intros Hd [_ Hr] (Hh & HV & _ & Hw) Hsub.
  pose proof Hsub as (Hs & Ha & _ & Hash). destruct (region_num_elements sub sh Hsub) as [Hn Hp].
  pose proof (positions_bound sub sh Hs Ha) as Hpb. pose proof (length_positions sub sh Hs) as Hpl.
  rewrite (wf_size c d Hc) in Hh |- *. apply holds_fixed in Hh as (L & -> & -> & HL & HLb). rewrite length_fmap in HV. rewrite <-HV in Hpb.
  assert (fixed_elements d (encoded_element c <$> L)) as HE by by apply encoded_fixed.
  destruct (contiguous_byte_ranges_ok d (encoded_element c <$> L) sub sh Hsub HE) as (ranges & Hcr & Hrs & Hbr & Hcat);
    [by rewrite length_fmap|unfold u64_modulus; lia|].
  unfold bytes_codec_partial_decode. rewrite (wf_size c d Hc). cbn [fixed_size data_type_size]. unfold dimensionality.
  rewrite (proj2 (Nat.eqb_eq _ _)) by (destruct Ha; lia). cbn [negb]. rewrite Hcr. prog.
  assert (∀ e, w = Some e → e = concat (encoded_element c <$> L)) as Hwe.
  { intros e ->. destruct Hw as [_ Hw]. by apply (decode_inv _ sh (CodecOptions_default 0)). }
  assert (∀ V', fixed_elements d V' → zlen V' = Zprod (shape sub) → 
    holds (FixedBytes (concat V')) (PlainType (FixedSize d)) (Value <$> V') ∧ array_bytes_size (FixedBytes (concat V')) <= zlen L * d) as Hout.
  { intros V' HV' Hl. destruct HV' as [Hd0 HV']. split; [apply holds_fixed; exists V'; split_and!; [done..|nia]|].
    simpl. rewrite (fixed_elements_length d) by done. nia. }
  cbn [array_bytes_size]. rewrite (fixed_elements_length d L HL).
  destruct w as [e|].
  - pose proof (Hwe e eq_refl) as ->. pose proof (fixed_select d L _ HL Hpb) as Hfs. pose proof (length_select L (positions sub sh)) as Hls.
    destruct (Hout (select L (positions sub sh)) Hfs) as [Hho Hsz]; [lia|].
    exists (FixedBytes (concat (select L (positions sub sh)))). split_and!; [|by rewrite select_fmap|done].
    eapply runs_at_bind; [apply Hr|].
    + rewrite Forall_fmap. apply Forall_true. by intros [].
    + intros b' [= <-]. destruct Hw as [Hwl _]. split; [done|]. rewrite Hbr, !Forall_fmap.
      rewrite (fixed_elements_length d) by done. split; (eapply Forall_impl; [exact Hrs|]); simpl; intros r Hri; [|lia].
      rewrite length_fmap in Hri. unfold u64_modulus. lia.
    + prog. unfold data_type_decode. cbn [fmap option_fmap option_map]. prog. rewrite Hcat, select_encoded by done.
      rewrite encode_elements by by apply encoded_fixed. prog. by rewrite encoded_elements_involutive.
  - destruct Hw as [Hnew HVr]. pose proof (wf_positive c d Hc). pose proof (wf_fill c d Hc) as Hfl.
    assert (fixed_elements d (replicate (Z.to_nat (Zprod (shape sub))) (bc_fill_value c))) as Hfe.
    { split; [lia|]. apply Forall_replicate. lia. }
    destruct (Hout _ Hfe) as [Hho Hsz]; [rewrite length_replicate; lia|].
    eexists. split_and!; [|clear Hout|].
    + eapply runs_at_bind; [apply Hr; [|by intros ? [=]]; rewrite Forall_fmap; apply Forall_true; by intros []|]. prog. cbn [new_fill_value].
      rewrite Hfl, Z.eqb_refl, Hn. done.
    + rewrite HVr, select_replicate.
      * replace (length (positions sub sh)) with (Z.to_nat (Zprod (shape sub))) by lia. rewrite (wf_size c d Hc). cbn [fill_element].
        rewrite <-fmap_replicate. exact Hho.
      * eapply Forall_impl; [exact Hpb|]. simpl. lia.
    + exact Hsz.
Qed.
End laws.

Lemma partial_decode_confined (c : BytesCodecBound) sh h key sub : (∀ rs, confined key (bytes_partial_decode_many h rs)) →
  confined key (bytes_codec_partial_decode c h sh sub).
Proof.
  intros Hr. unfold bytes_codec_partial_decode. destruct (fixed_size _) as [d|]; [|done]. destruct (negb _); [done|].
  destruct (contiguous_byte_ranges sub sh d) as [ranges| |]; [|done..]. prog. apply confined_bind; [apply Hr|].
  intros [l|]; prog; [|done]. by destruct (data_type_decode _ _ _).
Qed.

(** The codec keeps the promises of an array to bytes codec. *)
#[export] Program Instance bytes_codec_lawful : LawfulArrayToBytesCodec BytesCodecBound := {|
  a2b_wf c := ∃ d, bytes_codec_wf c d;
  a2b_shape_ok c sh := chunk_shape_ok sh ∧ match fixed_size (bc_data_type c) with Some d => Zprod sh * d < 2 ^ 63 | None => False end;
  a2b_limit _ _ := 2 ^ 63;
  a2b_encoded_limit c sh := Zprod sh * default 0 (fixed_size (bc_data_type c));
  a2b_offset_limit _ := 0;
  a2b_encodes c sh enc b V := ∀ options, bytes_decode_ c enc sh options = Ok b;
|}.
Next Obligation.
  intros c [d Hc]. pose proof (wf_positive c d Hc). pose proof (wf_fill c d Hc). simpl. unfold fill_ok. by rewrite (wf_size c d Hc).
Qed.
Next Obligation. done. Qed.
Next Obligation.
  intros c sh [d Hc] [Hsh Hb]. pose proof (wf_positive c d Hc). pose proof (wf_fill c d Hc) as Hf. simpl in *. rewrite (wf_size c d Hc) in Hb |- *.
  cbn [fixed_size data_type_size] in Hb. unfold u64_modulus. cbn [base_fill fixed_size data_type_size default]. rewrite Hf, Z.max_r by lia.
  split_and!; [done|lia|simpl; lia|done].
Qed.
Next Obligation. intros c sh _ _. by eexists. Qed.
Next Obligation. intros c sh options enc b V _ _ Hd _ _ _. apply Hd. Qed.
Next Obligation.
  intros c sh options b V [d Hc] [Hsh Hb] Hh HV _. simpl in *. rewrite (wf_size c d Hc) in Hb, Hh |- *. cbn [fixed_size data_type_size] in Hb.
  pose proof Hh as (L & -> & -> & HL & HLb)%holds_fixed. rewrite length_fmap in HV.
  pose proof (fixed_elements_length d _ (encoded_fixed c d Hc L HL)) as Hlen. rewrite length_fmap in Hlen.
  exists (concat (encoded_element c <$> L)), (FixedBytes (concat L)), (BytesFixedSize (product64 sh *w d)).
  split_and!; [by apply (encode_ok c d Hc)|rewrite Hlen; simpl; lia| | | |done|done|done].
  - unfold bytes_encoded_representation. by rewrite (wf_size c d Hc).
  - destruct Hsh as [Hp _]. pose proof (wf_positive c d Hc). cbn [rep_admits]. rewrite product64_wf.
    + rewrite wrap64_small; [lia|unfold is_u64, u64_modulus; lia].
    + split; [eapply Forall_impl; [exact Hp|]; simpl; lia|unfold u64_modulus; nia].
  - intros o. by apply (decode_ok c d Hc).
Qed.
Next Obligation.
  intros c sh options enc b V t t' _ _ (_ & _ & _ & _ & Hdec) _ Ht. by eapply default_decode_into_ok.
Qed.
Next Obligation.
  intros c sh options h key v w b V [d Hc] [Hsh Hb] Hr Hcc. rewrite (wf_size c d Hc) in Hb.
  eexists. split; [done|]. intros sub Hsub.
  destruct (partial_decode_ok c d Hc sh h key v w b V sub Hb Hr Hcc Hsub) as (out & Hrun & Hho & Hsz).
  exists out. split_and!; [exact Hrun|done|done|]. intros t t' Ht Hd. by eapply default_partial_decode_into_ok.
Qed.
Next Obligation.
  intros c sh options h key Hr sub. split; [by apply partial_decode_confined|]. intros t.
  by apply default_partial_decode_into_confined, partial_decode_confined.
Qed.

#[export] Instance bytes_codec_validates : ValidatingArrayToBytesCodec BytesCodecBound.
Proof.
  intros c sh options enc b _ _ Hd. simpl in *. unfold bytes_decode_ in Hd. destruct (data_type_decode _ enc _) as [b'| |]; [|done..].
  cbn [obind] in Hd. destruct (validate_bytes _ _ _) as [[]| |] eqn:Hv; [|done..]. by injection Hd as <-.
Qed.
End codec.
