(* ===== verification/ArrayOps.v ===== *)
(** The operations of an array: [Array] and the traits [ArrayOps], [ArrayReadOps],
    [ArrayWriteOps] and [ArrayUpdateOps] of [zarrs/src/array/array_ops].

    An operation is a program over the store ([StoreProgram.prog]).  The array is
    made of a chunk grid, a chunk key encoding and an array to bytes codec, which are seen through
    their traits; elements are exchanged as [ArrayBytes], of which the other input and
    output types are conversions. *)

From S2P Require Import Prelude ArraySubset Linear Iterators ChunkGrid ByteRange StoreKey ChunkKey.
From S2P Require Import Storage ArrayBytes Elements StoreProgram DecodeInto Concurrency Codec.

(** [ArrayError], as far as the operations below give it. *)
Inductive ArrayError :=
  | ArrayViewCreateError (e : CodecError)
  | ArrayStorageError (e : StorageError)
  | ArrayCodecError (e : CodecError)
  | InvalidChunkGridIndicesError (indices : list Z)
  | ArrayIncompatibleDimensionality (e : GridError)
  | ArrayArraySubsetError (e : ArraySubsetError)
  | InvalidArraySubset (subset : ArraySubset) (array_shape : list Z)
  | InvalidChunkSubset (subset : ArraySubset) (indices chunk_shape : list Z).

(** The fields of [Array] that the operations on chunks use.  Storage transformers are part of
    the storage; [storage_supports_set_partial] is the storage's [supports_set_partial]. *)
Record Array (G K C : Type) := mk_array {
  path : NodePath;
  data_type : DataType;
  fill_value : FillValue;
  chunk_grid : G;
  chunk_key_encoding : K;
  codecs_bound : C;
  storage_supports_set_partial : bool;
}.
#[global] Arguments path {G K C} _.
#[global] Arguments data_type {G K C} _.
#[global] Arguments fill_value {G K C} _.
#[global] Arguments chunk_grid {G K C} _.
#[global] Arguments chunk_key_encoding {G K C} _.
#[global] Arguments codecs_bound {G K C} _.
#[global] Arguments storage_supports_set_partial {G K C} _.

Section ops.
Context {G K C : Type} `{!ChunkGridTraits G, !ChunkKeyEncodingTraits K, !ArrayToBytesCodecTraits C}.

(** ** [ArrayOps] *)

Definition shape_ (self : Array G K C) : list Z := array_shape (chunk_grid self).
Definition dimensionality_ (self : Array G K C) : nat := length (shape_ self).
Definition chunk_grid_shape (self : Array G K C) : list Z := grid_shape (chunk_grid self).

Definition array_chunk_key (self : Array G K C) (chunk_indices : list Z) : StoreKey :=
  chunk_key (path self) (chunk_key_encoding self) chunk_indices.

(** [map_err(|_| InvalidChunkGridIndicesError)?.ok_or_else(|| InvalidChunkGridIndicesError)]. *)
Definition grid_option {A} (chunk_indices : list Z) (x : grid_result A) : outcome ArrayError A :=
  let? x := map_err (λ _, InvalidChunkGridIndicesError chunk_indices) x in
  ok_or (InvalidChunkGridIndicesError chunk_indices) x.

Definition array_chunk_origin (self : Array G K C) (chunk_indices : list Z) : outcome ArrayError (list Z) :=
  grid_option chunk_indices (chunk_origin (chunk_grid self) chunk_indices).

Definition array_chunk_shape (self : Array G K C) (chunk_indices : list Z) : outcome ArrayError (list Z) :=
  grid_option chunk_indices (chunk_shape (chunk_grid self) chunk_indices).

Definition subset_all (self : Array G K C) : ArraySubset := new_with_shape (shape_ self).

Definition array_chunk_subset (self : Array G K C) (chunk_indices : list Z) : outcome ArrayError ArraySubset :=
  grid_option chunk_indices (chunk_subset (chunk_grid self) chunk_indices).

Definition chunk_subset_bounded (self : Array G K C) (chunk_indices : list Z) : outcome ArrayError ArraySubset :=
  let? chunk_subset := array_chunk_subset self chunk_indices in
  map_err ArrayArraySubsetError (bound chunk_subset (shape_ self)).

Definition array_chunks_subset (self : Array G K C) (chunks : ArraySubset) : outcome ArrayError ArraySubset :=
  match end_inc chunks with
  | Some end_ =>
      let? chunk0 := array_chunk_subset self (start chunks) in
      let? chunk1 := array_chunk_subset self end_ in
      let start := start chunk0 in
      let end_ := end_exc chunk1 in
      map_err ArrayArraySubsetError (new_with_start_end_exc start end_)
  | None => Ok (new_empty (dimensionality chunks))
  end.

Definition chunks_subset_bounded (self : Array G K C) (chunks : ArraySubset) : outcome ArrayError ArraySubset :=
  let? chunks_subset := array_chunks_subset self chunks in
  map_err ArrayArraySubsetError (bound chunks_subset (shape_ self)).

Definition array_chunks_in_array_subset (self : Array G K C) (array_subset : ArraySubset) : grid_result ArraySubset :=
  chunks_in_array_subset (chunk_grid self) array_subset.

Definition recommended_codec_concurrency (self : Array G K C) (chunk_shape : list Z) : outcome ArrayError RecommendedConcurrency :=
  map_err ArrayCodecError (a2b_recommended_concurrency (codecs_bound self) chunk_shape).

(** ** Reading chunks *)

Definition retrieve_encoded_chunk_opt (self : Array G K C) (chunk_indices : list Z) : prog StorageError (option bytes) :=
  pcall (CallGet (array_chunk_key self chunk_indices)) id.

Definition retrieve_encoded_chunks_opt (self : Array G K C) (chunks : ArraySubset) : prog StorageError (list (option bytes)) :=
  let* indices := plift (indices chunks) in
  try_map (retrieve_encoded_chunk_opt self) indices.

Definition retrieve_chunk_if_exists_opt (self : Array G K C) (chunk_indices : list Z) (options : CodecOptions)
    : prog ArrayError (option ArrayBytes) :=
  if negb (length chunk_indices =? dimensionality_ self)%nat then Done (Err (InvalidChunkGridIndicesError chunk_indices))
  else
    let* chunk_encoded := pcall (CallGet (array_chunk_key self chunk_indices)) ArrayStorageError in
    match chunk_encoded with
    | Some chunk_encoded =>
        let* chunk_shape := plift (array_chunk_shape self chunk_indices) in
        let* bytes := plift (map_err ArrayCodecError (a2b_decode (codecs_bound self) chunk_encoded chunk_shape options)) in
        preturn (Some bytes)
    | None => preturn None
    end.

Definition retrieve_chunk_opt (self : Array G K C) (chunk_indices : list Z) (options : CodecOptions) : prog ArrayError ArrayBytes :=
  let* chunk := retrieve_chunk_if_exists_opt self chunk_indices options in
  match chunk with
  | Some chunk => preturn chunk
  | None =>
      let* chunk_shape := plift (array_chunk_shape self chunk_indices) in
      plift (map_err ArrayCodecError (new_fill_value (data_type self) (product64 chunk_shape) (fill_value self)))
  end.

Definition retrieve_chunk_into (self : Array G K C) (chunk_indices : list Z) (output_target : ArrayBytesDecodeIntoTarget)
    (options : CodecOptions) : prog ArrayError ArrayBytesDecodeIntoTarget :=
  if negb (length chunk_indices =? dimensionality_ self)%nat then Done (Err (InvalidChunkGridIndicesError chunk_indices))
  else
    let* chunk_encoded := pcall (CallGet (array_chunk_key self chunk_indices)) ArrayStorageError in
    match chunk_encoded with
    | Some chunk_encoded =>
        let* chunk_shape := plift (array_chunk_shape self chunk_indices) in
        plift (map_err ArrayCodecError (a2b_decode_into (codecs_bound self) chunk_encoded chunk_shape output_target options))
    | None => plift (map_err ArrayCodecError (copy_fill_value_into (data_type self) (fill_value self) output_target))
    end.

Definition partial_decoder_opt (self : Array G K C) (chunk_indices : list Z) (options : CodecOptions) : prog ArrayError ArrayHandle :=
  let input_handle := store_handle (array_chunk_key self chunk_indices) in
  let* chunk_shape := plift (array_chunk_shape self chunk_indices) in
  pmap_err ArrayCodecError (a2b_partial_decoder (codecs_bound self) input_handle chunk_shape options).

Definition all_zero (start : list Z) : bool := forallb (λ x, x =? 0) start.

Definition retrieve_chunk_subset_opt (self : Array G K C) (chunk_indices : list Z) (chunk_subset : ArraySubset)
    (options : CodecOptions) : prog ArrayError ArrayBytes :=
  let* chunk_shape := plift (array_chunk_shape self chunk_indices) in
  if negb (inbounds_shape chunk_subset chunk_shape) then Done (Err (InvalidArraySubset chunk_subset (shape_ self)))
  else if all_zero (start chunk_subset) && bool_decide (shape chunk_subset = chunk_shape)
  then retrieve_chunk_opt self chunk_indices options
  else
    let input_handle := store_handle (array_chunk_key self chunk_indices) in
    let* bytes := pmap_err ArrayCodecError
      (let* decoder := a2b_partial_decoder (codecs_bound self) input_handle chunk_shape options in
       partial_decode decoder chunk_subset) in
    let* _ := plift (map_err ArrayCodecError (validate_bytes bytes (num_elements chunk_subset) (data_type self))) in
    preturn bytes.

Definition retrieve_chunk_subset_into (self : Array G K C) (chunk_indices : list Z) (chunk_subset : ArraySubset)
    (output_target : ArrayBytesDecodeIntoTarget) (options : CodecOptions) : prog ArrayError ArrayBytesDecodeIntoTarget :=
  let* chunk_shape := plift (array_chunk_shape self chunk_indices) in
  if negb (inbounds_shape chunk_subset chunk_shape) then Done (Err (InvalidArraySubset chunk_subset (shape_ self)))
  else if all_zero (start chunk_subset) && bool_decide (shape chunk_subset = chunk_shape)
  then retrieve_chunk_into self chunk_indices output_target options
  else
    let input_handle := store_handle (array_chunk_key self chunk_indices) in
    pmap_err ArrayCodecError
      (let* decoder := a2b_partial_decoder (codecs_bound self) input_handle chunk_shape options in
       partial_decode_into decoder chunk_subset output_target).

(** ** Reading regions *)

(** One chunk of [retrieve_multi_chunk_variable]: the closures of its two branches. *)
Definition retrieve_chunk_optional (self : Array G K C) (array_subset : ArraySubset) (options : CodecOptions)
    (chunk_indices : list Z) : prog ArrayError (ArrayBytes * ArraySubset) :=
  let* chunk_subset := plift (array_chunk_subset self chunk_indices) in
  let* chunk_subset_overlap := plift (map_err ArrayArraySubsetError (overlap chunk_subset array_subset)) in
  let* in_chunk := plift (map_err ArrayArraySubsetError (relative_to chunk_subset_overlap (start chunk_subset))) in
  let* bytes := retrieve_chunk_subset_opt self chunk_indices in_chunk options in
  let* (data, mask) := plift (map_err ArrayCodecError (into_optional bytes)) in
  let* in_array := plift (map_err ArrayArraySubsetError (relative_to chunk_subset_overlap (start array_subset))) in
  preturn (OptionalBytes data mask, in_array).

Definition retrieve_chunk_variable (self : Array G K C) (array_subset : ArraySubset) (options : CodecOptions)
    (chunk_indices : list Z) : prog ArrayError (ArrayBytesVariableLength * ArraySubset) :=
  let* chunk_subset := plift (array_chunk_subset self chunk_indices) in
  let* chunk_subset_overlap := plift (map_err ArrayArraySubsetError (overlap chunk_subset array_subset)) in
  let* in_chunk := plift (map_err ArrayArraySubsetError (relative_to chunk_subset_overlap (start chunk_subset))) in
  let* bytes := retrieve_chunk_subset_opt self chunk_indices in_chunk options in
  let* v := plift (map_err ArrayCodecError (into_variable bytes)) in
  let* in_array := plift (map_err ArrayArraySubsetError (relative_to chunk_subset_overlap (start array_subset))) in
  preturn (v, in_array).

Definition retrieve_multi_chunk_variable (self : Array G K C) (array_subset chunks : ArraySubset) (options : CodecOptions)
    : prog ArrayError ArrayBytes :=
  let nesting_depth := optional_nesting_depth (data_type self) in
  let* chunk_indices := plift (indices chunks) in
  if (0 <? nesting_depth)%nat then
    let* chunk_bytes_and_subsets := try_map (retrieve_chunk_optional self array_subset options) chunk_indices in
    plift (map_err ArrayCodecError (merge_chunks_vlen_optional chunk_bytes_and_subsets (shape array_subset) nesting_depth))
  else
    let* chunk_bytes_and_subsets := try_map (retrieve_chunk_variable self array_subset options) chunk_indices in
    let* v := plift (merge_chunks_vlen chunk_bytes_and_subsets (shape array_subset)) in
    preturn (VariableBytes v).

(** One chunk of [retrieve_multi_chunk_fixed]: it is decoded into views of the output memory. *)
Definition retrieve_chunk_fixed (self : Array G K C) (array_subset : ArraySubset) (data_type_size : Z) (options : CodecOptions)
    (outputs : bytes * list bytes) (chunk_indices : list Z) : prog ArrayError (bytes * list bytes) :=
  let (data_output, mask_outputs) := outputs in
  let* chunk_subset := plift (array_chunk_subset self chunk_indices) in
  let* chunk_subset_overlap := plift (map_err ArrayArraySubsetError (overlap chunk_subset array_subset)) in
  let* chunk_subset_in_array := plift (map_err ArrayArraySubsetError (relative_to chunk_subset_overlap (start array_subset))) in
  let* data_view := plift (map_err ArrayViewCreateError
    (view_new data_output data_type_size (shape array_subset) chunk_subset_in_array)) in
  let* mask_views := plift (map_err ArrayViewCreateError
    (collect_res ((λ mask, view_new mask 1 (shape array_subset) chunk_subset_in_array) <$> mask_outputs))) in
  let target := build_nested_optional_target (data_view, data_output) (zip mask_views mask_outputs) in
  let* in_chunk := plift (map_err ArrayArraySubsetError (relative_to chunk_subset_overlap (start chunk_subset))) in
  let* target := retrieve_chunk_subset_into self chunk_indices in_chunk target options in
  let '(data, masks) := extract_target_views target in
  preturn (data.2, masks.*2).

(** [uninit n] is [n] bytes of memory that has not been written. *)
Context (uninit : Z → bytes).

Definition retrieve_multi_chunk_fixed (self : Array G K C) (array_subset chunks : ArraySubset) (options : CodecOptions)
    : prog ArrayError ArrayBytes :=
  let* data_type_size := plift (expect (fixed_size (data_type self))) in
  let num_elements := num_elements_usize array_subset in
  let size_output := num_elements *w data_type_size in
  let nesting_depth := optional_nesting_depth (data_type self) in
  let data_output := uninit size_output in
  let mask_outputs := replicate nesting_depth (uninit num_elements) in
  let* indices := plift (indices chunks) in
  let* (data_output, mask_outputs) :=
    try_fold (retrieve_chunk_fixed self array_subset data_type_size options) (data_output, mask_outputs) indices in
  preturn (with_masks (FixedBytes data_output) mask_outputs).

Definition retrieve_array_subset_opt (self : Array G K C) (array_subset : ArraySubset) (options : CodecOptions)
    : prog ArrayError ArrayBytes :=
  if negb (dimensionality array_subset =? dimensionality_ self)%nat then Done (Err (InvalidArraySubset array_subset (shape_ self)))
  else
    let* chunks := plift (map_err ArrayIncompatibleDimensionality (array_chunks_in_array_subset self array_subset)) in
    match chunks with
    | None => Done (Err (InvalidArraySubset array_subset (shape_ self)))
    | Some chunks =>
        let num_chunks := num_elements_usize chunks in
        if num_chunks =? 0 then
          plift (map_err ArrayCodecError (new_fill_value (data_type self) (num_elements array_subset) (fill_value self)))
        else if num_chunks =? 1 then
          let chunk_indices := start chunks in
          let* chunk_subset := plift (array_chunk_subset self chunk_indices) in
          if bool_decide (chunk_subset = array_subset) then retrieve_chunk_opt self chunk_indices options
          else
            let* array_subset_in_chunk_subset := plift (map_err ArrayArraySubsetError (relative_to array_subset (start chunk_subset))) in
            retrieve_chunk_subset_opt self chunk_indices array_subset_in_chunk_subset options
        else
          let* chunk_shape := plift (array_chunk_shape self (start chunks)) in
          let* codec_concurrency := plift (recommended_codec_concurrency self chunk_shape) in
          let (chunk_concurrent_limit, options) :=
            concurrency_chunks_and_codec (concurrent_target options) num_chunks options codec_concurrency in
          let* bytes :=
            match fixed_size (data_type self) with
            | Some _ => retrieve_multi_chunk_fixed self array_subset chunks options
            | None => retrieve_multi_chunk_variable self array_subset chunks options
            end in
          let* _ := plift (map_err ArrayCodecError (validate_bytes bytes (num_elements array_subset) (data_type self))) in
          preturn bytes
    end.

Definition retrieve_chunks_opt (self : Array G K C) (chunks : ArraySubset) (options : CodecOptions) : prog ArrayError ArrayBytes :=
  let* array_subset := plift (array_chunks_subset self chunks) in
  retrieve_array_subset_opt self array_subset options.

(** ** [ArrayWriteOps] *)

Definition store_encoded_chunk (self : Array G K C) (chunk_indices : list Z) (encoded_chunk_bytes : bytes) : prog ArrayError unit :=
  pcall (CallSet (array_chunk_key self chunk_indices) encoded_chunk_bytes) ArrayStorageError.

Definition erase_chunk (self : Array G K C) (chunk_indices : list Z) : prog StorageError unit :=
  pcall (CallErase (array_chunk_key self chunk_indices)) id.

Definition erase_chunks (self : Array G K C) (chunks : ArraySubset) : prog StorageError unit :=
  let* indices := plift (indices chunks) in
  try_for_each (erase_chunk self) indices.

Definition store_chunk_opt (self : Array G K C) (chunk_indices : list Z) (chunk_bytes : ArrayBytes) (options : CodecOptions)
    : prog ArrayError unit :=
  let* chunk_shape := plift (array_chunk_shape self chunk_indices) in
  let* _ := plift (map_err ArrayCodecError (validate_bytes chunk_bytes (product64 chunk_shape) (data_type self))) in
  let is_fill_value := negb (store_empty_chunks options) && is_fill_value chunk_bytes (fill_value self) in
  if is_fill_value then pmap_err ArrayStorageError (erase_chunk self chunk_indices)
  else
    let* chunk_encoded := plift (map_err ArrayCodecError (a2b_encode (codecs_bound self) chunk_bytes chunk_shape options)) in
    store_encoded_chunk self chunk_indices chunk_encoded.

Definition store_chunks_opt (self : Array G K C) (chunks : ArraySubset) (chunks_bytes : ArrayBytes) (options : CodecOptions)
    : prog ArrayError unit :=
  let num_chunks := num_elements_usize chunks in
  if num_chunks =? 0 then plift (map_err ArrayCodecError (validate_bytes chunks_bytes 0 (data_type self)))
  else if num_chunks =? 1 then
    let chunk_indices := start chunks in
    store_chunk_opt self chunk_indices chunks_bytes options
  else
    let* array_subset := plift (array_chunks_subset self chunks) in
    let* _ := plift (map_err ArrayCodecError (validate_bytes chunks_bytes (num_elements array_subset) (data_type self))) in
    let* chunk_shape := plift (array_chunk_shape self (replicate (dimensionality_ self) 0)) in
    let* codec_concurrency := plift (recommended_codec_concurrency self chunk_shape) in
    let (chunk_concurrent_limit, options) :=
      concurrency_chunks_and_codec (concurrent_target options) num_chunks options codec_concurrency in
    let store_chunk := λ chunk_indices,
      let* chunk_subset := plift (array_chunk_subset self chunk_indices) in
      let* in_region := plift (map_err ArrayArraySubsetError (relative_to chunk_subset (start array_subset))) in
      let* chunk_bytes := plift (map_err ArrayCodecError
        (extract_array_subset chunks_bytes in_region (shape array_subset) (data_type self))) in
      store_chunk_opt self chunk_indices chunk_bytes options in
    let* indices := plift (indices chunks) in
    try_for_each store_chunk indices.

(** ** [ArrayUpdateOps] *)

Definition partial_encoder (self : Array G K C) (chunk_indices : list Z) (options : CodecOptions) : prog ArrayError ArrayEncodeHandle :=
  let input_handle := store_handle (array_chunk_key self chunk_indices) in
  let* chunk_shape := plift (array_chunk_shape self chunk_indices) in
  pmap_err ArrayCodecError (a2b_partial_encoder (codecs_bound self) input_handle chunk_shape options).

Definition store_chunk_subset_opt (self : Array G K C) (chunk_indices : list Z) (chunk_subset : ArraySubset)
    (chunk_subset_bytes : ArrayBytes) (options : CodecOptions) : prog ArrayError unit :=
  let* chunk_shape := plift (map_err ArrayIncompatibleDimensionality (chunk_shape_u64 (chunk_grid self) chunk_indices)) in
  let* chunk_shape := plift (ok_or (InvalidChunkGridIndicesError chunk_indices) chunk_shape) in
  if zip_any (λ end_exc shape, shape <? end_exc) (end_exc chunk_subset) chunk_shape
  then Done (Err (InvalidChunkSubset chunk_subset chunk_indices chunk_shape))
  else if bool_decide (shape chunk_subset = chunk_shape) && all_zero (start chunk_subset)
  then store_chunk_opt self chunk_indices chunk_subset_bytes options
  else
    let* _ := plift (map_err ArrayCodecError (validate_bytes chunk_subset_bytes (num_elements chunk_subset) (data_type self))) in
    if experimental_partial_encoding options && a2b_partial_encode_capability (codecs_bound self) && storage_supports_set_partial self
    then
      let* partial_encoder := partial_encoder self chunk_indices options in
      pmap_err ArrayCodecError (partial_encode partial_encoder chunk_subset chunk_subset_bytes)
    else
      let* chunk_bytes_old := retrieve_chunk_opt self chunk_indices options in
      let* _ := plift (map_err ArrayCodecError (validate_bytes chunk_bytes_old (product64 chunk_shape) (data_type self))) in
      let* chunk_bytes_new := plift (map_err ArrayCodecError
        (update_array_bytes chunk_bytes_old chunk_shape chunk_subset chunk_subset_bytes (data_type_size (data_type self)))) in
      store_chunk_opt self chunk_indices chunk_bytes_new options.

(** The task of a chunk in [store_array_subset_opt]. *)
Definition store_chunk_task (self : Array G K C) (array_subset : ArraySubset) (subset_bytes : ArrayBytes) (options : CodecOptions)
    (chunk_indices : list Z) : prog ArrayError unit :=
  let* chunk_subset_in_array := plift (array_chunk_subset self chunk_indices) in
  let* overlap := plift (map_err ArrayArraySubsetError (overlap array_subset chunk_subset_in_array)) in
  let* chunk_subset_in_array_subset := plift (map_err ArrayArraySubsetError (relative_to overlap (start array_subset))) in
  let* chunk_subset_bytes := plift (map_err ArrayCodecError
    (extract_array_subset subset_bytes chunk_subset_in_array_subset (shape array_subset) (data_type self))) in
  let* chunk_subset_in_chunk := plift (map_err ArrayArraySubsetError (relative_to overlap (start chunk_subset_in_array))) in
  store_chunk_subset_opt self chunk_indices chunk_subset_in_chunk chunk_subset_bytes options.

Definition store_array_subset_opt (self : Array G K C) (array_subset : ArraySubset) (subset_bytes : ArrayBytes)
    (options : CodecOptions) : prog ArrayError unit :=
  if negb (dimensionality array_subset =? length (shape_ self))%nat then Done (Err (InvalidArraySubset array_subset (shape_ self)))
  else
    let* chunks := plift (map_err ArrayIncompatibleDimensionality (array_chunks_in_array_subset self array_subset)) in
    match chunks with
    | None => Done (Err (InvalidArraySubset array_subset (shape_ self)))
    | Some chunks =>
        let num_chunks := num_elements_usize chunks in
        if num_chunks =? 1 then
          let chunk_indices := start chunks in
          let* chunk_subset := plift (array_chunk_subset self chunk_indices) in
          if bool_decide (array_subset = chunk_subset) then store_chunk_opt self chunk_indices subset_bytes options
          else
            let* in_chunk := plift (map_err ArrayArraySubsetError (relative_to array_subset (start chunk_subset))) in
            store_chunk_subset_opt self chunk_indices in_chunk subset_bytes options
        else
          let* _ := plift (map_err ArrayCodecError (validate_bytes subset_bytes (num_elements array_subset) (data_type self))) in
          let* chunk_shape := plift (array_chunk_shape self (replicate (dimensionality_ self) 0)) in
          let* codec_concurrency := plift (recommended_codec_concurrency self chunk_shape) in
          let (chunk_concurrent_limit, options) :=
            concurrency_chunks_and_codec (concurrent_target options) num_chunks options codec_concurrency in
          let* indices := plift (indices chunks) in
          try_for_each (store_chunk_task self array_subset subset_bytes options) indices
    end.

Definition compact_chunk (self : Array G K C) (chunk_indices : list Z) (options : CodecOptions) : prog ArrayError bool :=
  let* chunk_bytes := pmap_err ArrayStorageError (retrieve_encoded_chunk_opt self chunk_indices) in
  match chunk_bytes with
  | Some chunk_bytes =>
      let* chunk_shape := plift (array_chunk_shape self chunk_indices) in
      let* compacted := plift (map_err ArrayCodecError (a2b_compact (codecs_bound self) chunk_bytes chunk_shape options)) in
      match compacted with
      | Some compacted_bytes => let* _ := store_encoded_chunk self chunk_indices compacted_bytes in preturn true
      | None => preturn false
      end
  | None => preturn false
  end.
End ops.
