(* ===== verification/ArraySpec.v ===== *)
(** What an array holds, and that its operations on one chunk keep it.

    An array holds the elements [f], a function of the index, when every chunk of its
    grid has them: the value at the key of the chunk decodes to them, or there is no value and
    they are fill values.  Each operation on a chunk is confined to the chunk's key, reads
    these elements and leaves a chunk that holds those written. *)

From S2P Require Import Prelude ArraySubset Linear Iterators ChunkGrid ByteRange StoreKey ChunkKey.
From S2P Require Import Storage ArrayBytes Elements Regions StoreProgram DecodeInto Concurrency Codec.
From S2P Require Import ArrayOps.

Section spec.
Context {G K C : Type} `{LawfulChunkGrid G} `{LawfulChunkKeyEncoding K} `{LawfulArrayToBytesCodec C}.

(** An array whose parts fit: the codec is bound to its data type and fill value, and accepts
    the chunks of the grid. *)
Record array_wf (a : Array G K C) : Prop := {
  wf_grid : grid_wf (chunk_grid a);
  wf_codec : a2b_wf (codecs_bound a);
  wf_data_type : a2b_data_type (codecs_bound a) = data_type a;
  wf_fill_value : a2b_fill_value (codecs_bound a) = fill_value a;
  wf_chunk_shapes c : in_grid (chunk_grid a) c → a2b_shape_ok (codecs_bound a) (axes_size (grid_axes (chunk_grid a)) c);
  wf_chunks : Zprod (grid_shape (chunk_grid a)) < u64_modulus;
}.

Definition region_of (a : Array G K C) (c : list Z) : ArraySubset := subset_of (chunk_grid a) c.

(** The value [v] of the chunk [c] holds the elements [f]. *)
Definition chunk_holds (a : Array G K C) (c : list Z) (v : option bytes) (f : list Z → element) (b : ArrayBytes) : Prop :=
  chunk_content (codecs_bound a) (shape (region_of a c)) v b (contents f (region_of a c)).

Definition array_holds (a : Array G K C) (M : gmap str bytes) (f : list Z → element) : Prop :=
  ∀ c, in_grid (chunk_grid a) c → ∃ b, chunk_holds a c (M !! array_chunk_key a c) f b.

(** The options under which a chunk that is not stored holds what was written. *)
Definition empty_chunks_ok (a : Array G K C) (options : CodecOptions) : Prop :=
  store_empty_chunks options = true ∨ fill_exact (data_type a) (fill_value a).

Context (a : Array G K C) (Ha : array_wf a).

#[local] Abbreviation g := (chunk_grid a).
#[local] Abbreviation dt := (data_type a).
#[local] Abbreviation key := (array_chunk_key a).
#[local] Abbreviation sub := (region_of a).
#[local] Abbreviation codec := (codecs_bound a).

(** ** The grid of the array *)

Lemma sub_wf c : in_grid g c → subset_wf (sub c).
Proof. intros [Hc _]. apply subset_of_wf; [by apply wf_grid|done]. Qed.

Lemma sub_in_grid c ix : in_grid g c → in_subset (sub c) ix ↔ axes_hold (grid_axes g) c ix.
Proof. intros [Hc _]. apply in_subset_of; [by apply wf_grid|done]. Qed.

Lemma shape_law c : in_grid g c → chunk_shape_ok (shape (sub c)) ∧ a2b_limit codec (shape (sub c)) <= 2 ^ 63 ∧
  a2b_encoded_limit codec (shape (sub c)) < u64_modulus ∧ Zprod (shape (sub c)) * Z.max 1 (zlen (base_fill dt (fill_value a))) < a2b_limit codec (shape (sub c)).
Proof.
  intros Hc. rewrite <-(wf_data_type a Ha), <-(wf_fill_value a Ha). apply a2b_shape_law; [by apply wf_codec|by apply wf_chunk_shapes].
Qed.

Lemma sub_region_wf c : in_grid g c → region_wf (sub c) ∧ is_empty (sub c) = false ∧ Zprod (shape (sub c)) < 2 ^ 63 ∧ 0 < Zprod (shape (sub c)).
Proof.
  intros Hc. destruct (shape_law c Hc) as ((Hp & Hl) & _). pose proof (sub_wf c Hc) as Hwf.
  assert (Forall (λ d, 0 < d) (shape (sub c))) as Hpos by (eapply Forall_impl; [exact Hp|]; simpl; lia).
  split_and!; [split; [done|split; [by apply subset_shape_nonneg|unfold u64_modulus; lia]]| |done|by apply Zprod_pos].
  apply is_empty_false; [done|]. intros j Hj. apply (proj1 (Forall_total _ _) Hpos). rewrite (proj1 Hwf). done.
Qed.

Lemma sub_product c : in_grid g c → product64 (shape (sub c)) = Zprod (shape (sub c)).
Proof. intros Hc. apply product64_wf. destruct (sub_region_wf c Hc) as [[_ Hr] _]. done. Qed.

Lemma array_chunk_shape_ok c : in_grid g c → array_chunk_shape a c = Ok (shape (sub c)).
Proof. intros Hc. unfold array_chunk_shape. by rewrite chunk_shape_law by (done || by apply wf_grid). Qed.

Lemma array_chunk_subset_ok c : in_grid g c → array_chunk_subset a c = Ok (sub c).
Proof. intros Hc. unfold array_chunk_subset. by rewrite subset_law by (done || by apply wf_grid). Qed.

Lemma chunk_dimensionality c : in_grid g c → (length c =? dimensionality_ a)%nat = true.
Proof.
  intros [Hc _]. apply (index_in_grid g (wf_grid a Ha)) in Hc as [Hl _]. apply Nat.eqb_eq. unfold dimensionality_, shape_.
  rewrite (length_array_shape g (wf_grid a Ha)). done.
Qed.

Lemma in_grid_u64 c : in_grid g c → Forall is_u64 c ∧ length c = length (grid_axes g).
Proof.
  intros [Hc _]. apply (index_in_grid g (wf_grid a Ha)) in Hc as [Hl Hc]. split; [|done]. apply Forall_total. intros j Hj.
  specialize (Hc j ltac:(lia)). pose proof (ax_n_nonneg _ (axes_ok g (wf_grid a Ha) j ltac:(lia))). unfold is_u64. lia.
Qed.

Lemma key_inj c d : in_grid g c → in_grid g d → key c = key d → c = d.
Proof.
  intros Hc Hd. destruct (in_grid_u64 c Hc), (in_grid_u64 d Hd). apply chunk_key_inj; [done..|lia].
Qed.

(** A chunk belongs to one chunk only. *)
Lemma sub_disjoint c d ix : in_grid g c → in_grid g d → in_subset (sub c) ix → in_subset (sub d) ix → c = d.
Proof.
  intros Hc Hd Hic%sub_in_grid Hid%sub_in_grid; [|done..]. by eapply axes_hold_unique; [apply wf_grid|..].
Qed.

Lemma dt_fill_ok : fill_ok dt (fill_value a).
Proof. rewrite <-(wf_data_type a Ha), <-(wf_fill_value a Ha). apply a2b_fill_law. by apply wf_codec. Qed.

(** The content of a chunk, in the terms of the array. *)
Lemma chunk_holds_dt c v f b : chunk_holds a c v f b ↔
  holds b dt (contents f (sub c)) ∧ zlen (contents f (sub c)) = Zprod (shape (sub c)) ∧ packed b ∧
  match v with
  | Some enc => zlen enc < u64_modulus ∧ a2b_encodes codec (shape (sub c)) enc b (contents f (sub c))
  | None => new_fill_value dt (Zprod (shape (sub c))) (fill_value a) = Ok b ∧
            contents f (sub c) = replicate (Z.to_nat (Zprod (shape (sub c)))) (fill_element dt (fill_value a))
  end.
Proof. unfold chunk_holds, chunk_content, content_of. by rewrite (wf_data_type a Ha), (wf_fill_value a Ha). Qed.

Lemma chunk_holds_decodes c enc f b options : in_grid g c → chunk_holds a c (Some enc) f b →
  a2b_decode codec enc (shape (sub c)) options = Ok b.
Proof. intros Hc. apply chunk_decodes; [by apply wf_codec|by apply (wf_chunk_shapes a Ha)]. Qed.

(** An array without chunks holds its fill value. *)
Lemma empty_array_holds M : (∀ c, in_grid g c → M !! key c = None) → array_holds a M (λ _, fill_element dt (fill_value a)).
Proof.
  intros HM c Hc. destruct (shape_law c Hc) as (_ & Hlim & _ & Hb). pose proof (sub_region_wf c Hc) as (_ & _ & _ & Hpos).
  destruct (new_fill_holds dt (Zprod (shape (sub c))) (fill_value a) dt_fill_ok) as (b & Hnew & Hh & Hpk & _); [lia..|].
  pose proof (contents_length (λ _, fill_element dt (fill_value a)) (sub c) (sub_wf c Hc)) as Hl.
  assert (contents (λ _, fill_element dt (fill_value a)) (sub c) = replicate (Z.to_nat (Zprod (shape (sub c)))) (fill_element dt (fill_value a))) as Hr.
  { rewrite <-Hl, Nat2Z.id. unfold contents. rewrite length_fmap. clear. induction (box _ _) as [|x l IH]; [done|]. cbn. by f_equal. }
  exists b. apply chunk_holds_dt. rewrite HM by done. by rewrite Hr, length_replicate, Z2Nat.id by lia.
Qed.

(** ** Reading one chunk *)

Lemma retrieve_chunk_ok c v f b options : in_grid g c → chunk_holds a c v f b →
  runs_at (retrieve_chunk_opt a c options) v (Ok b) v.
Proof.
  intros Hc Hcc. pose proof Hcc as (Hh & Hl & _ & Hv)%chunk_holds_dt. unfold retrieve_chunk_opt, retrieve_chunk_if_exists_opt.
  rewrite chunk_dimensionality by done. cbn [negb]. prog. exists v, v. split; [done|]. destruct v as [enc|]; prog.
  - rewrite array_chunk_shape_ok by done. prog. by rewrite (chunk_holds_decodes c enc f b options Hc Hcc).
  - rewrite array_chunk_shape_ok by done. prog. by rewrite sub_product, (proj1 Hv).
Qed.

Lemma retrieve_chunk_confined c options : confined (key c) (retrieve_chunk_opt a c options).
Proof.
  unfold retrieve_chunk_opt, retrieve_chunk_if_exists_opt. destruct (negb _); [done|]. prog. split; [done|]. intros [enc|]; prog.
  - destruct (array_chunk_shape a c) as [sh| |]; [|done..]. prog. by destruct (a2b_decode codec enc sh options).
  - by destruct (array_chunk_shape a c).
Qed.

Lemma retrieve_chunk_into_ok c v f b t t' options : in_grid g c → chunk_holds a c v f b →
  target_fits t (shape (sub c)) → decode_into_array_bytes_target b t = Ok t' →
  runs_at (retrieve_chunk_into a c t options) v (Ok t') v.
Proof.
  intros Hc Hh Ht Hd. unfold retrieve_chunk_into. rewrite chunk_dimensionality by done. cbn [negb]. prog. exists v, v. split; [done|].
  pose proof Hh as (_ & _ & _ & Hv)%chunk_holds_dt. destruct v as [enc|]; prog.
  - rewrite array_chunk_shape_ok by done. prog.
    erewrite a2b_decode_into_law; [done|by apply wf_codec|by apply (wf_chunk_shapes a Ha)|exact Hh|done|done].
  - unfold copy_fill_value_into. rewrite (target_fits_num_elements _ _ Ht), (proj1 Hv). prog. by rewrite Hd.
Qed.

Lemma retrieve_chunk_into_confined c t options : confined (key c) (retrieve_chunk_into a c t options).
Proof.
  unfold retrieve_chunk_into. destruct (negb _); [done|]. prog. split; [done|]. intros [enc|]; prog; [|done].
  by destruct (array_chunk_shape a c).
Qed.

Lemma within_start c o : in_grid g c → subset_wf o → covers (sub c) o → is_empty o = false →
  region_ok (within o (sub c)) (shape (sub c)) ∧ inbounds_shape (within o (sub c)) (shape (sub c)) = true.
Proof.
  intros Hc Ho Hcov Hne. pose proof (sub_region_wf c Hc) as ((Hwf & Hs) & _ & Hb & _).
  assert (region_ok (within o (sub c)) (shape (sub c))) as Hok by (apply within_region_ok; try done; unfold u64_modulus; lia).
  split; [done|]. apply inbounds_shape_ok; apply Hok.
Qed.

(** The whole chunk is read as such. *)
Lemma whole_chunk c o : in_grid g c → subset_wf o → covers (sub c) o →
  all_zero (start (within o (sub c))) && bool_decide (shape (within o (sub c)) = shape (sub c)) = true → o = sub c.
Proof.
  intros Hc Ho [Hl _] [Hz Hs%bool_decide_eq_true]%andb_true_iff. by apply covers_whole; [apply sub_wf|..].
Qed.

Lemma retrieve_chunk_subset_ok c v f b o options : in_grid g c → chunk_holds a c v f b →
  subset_wf o → covers (sub c) o → is_empty o = false →
  ∃ out, runs_at (retrieve_chunk_subset_opt a c (within o (sub c)) options) v (Ok out) v ∧
    holds out dt (contents f o) ∧ array_bytes_size out <= array_bytes_size b.
Proof.
  intros Hc Hh Ho Hcov Hne. destruct (within_start c o Hc Ho Hcov Hne) as [Hok Hib].
  unfold retrieve_chunk_subset_opt. rewrite array_chunk_shape_ok by done. prog. rewrite Hib. cbn [negb].
  destruct (_ && _) eqn:Hw.
  - apply whole_chunk in Hw as ->; [|done..]. exists b. split_and!; [by eapply retrieve_chunk_ok| |lia].
    by apply chunk_holds_dt in Hh as [? _].
  - destruct (a2b_partial_law codec (shape (sub c)) options (store_handle (key c)) (key c) v v b _ (wf_codec a Ha)
      (wf_chunk_shapes a Ha c Hc) (handle_reads_serves _ _ _ _ _ _ (proj2 (a2b_offset_law _ (wf_codec a Ha))) (store_handle_reads _ _ _)) Hh) as (ah & Hpd & Hreads).
    destruct (Hreads _ Hok) as (out & Hrun & Hho & Hsz & _).
    rewrite (select_contents f) in Hho by (done || by apply sub_wf). rewrite (wf_data_type a Ha) in Hho.
    exists out. split_and!; [|done|done]. eapply runs_at_bind.
    + apply (runs_at_map_err ArrayCodecError _ _ (Ok out)). eapply runs_at_bind; [exact Hpd|exact Hrun].
    + cbn [plift]. destruct (region_num_elements _ _ Hok) as [Hnum _]. pose proof (holds_valid _ _ _ Hho) as Hval.
      rewrite contents_length in Hval by done. rewrite Hnum. cbn [shape within]. rewrite Hval. done.
Qed.

Lemma retrieve_chunk_subset_into_ok c v f b o options : in_grid g c → chunk_holds a c v f b →
  subset_wf o → covers (sub c) o → is_empty o = false →
  ∃ out, holds out dt (contents f o) ∧
    ∀ t t', target_fits t (shape o) → decode_into_array_bytes_target out t = Ok t' →
      runs_at (retrieve_chunk_subset_into a c (within o (sub c)) t options) v (Ok t') v.
Proof.
  intros Hc Hh Ho Hcov Hne. destruct (within_start c o Hc Ho Hcov Hne) as [Hok Hib].
  unfold retrieve_chunk_subset_into. rewrite array_chunk_shape_ok by done. prog. rewrite Hib. cbn [negb].
  destruct (_ && _) eqn:Hw.
  - apply whole_chunk in Hw as ->; [|done..]. exists b. split; [by apply chunk_holds_dt in Hh as [? _]|].
    intros t t' Ht Hd. by eapply retrieve_chunk_into_ok.
  - destruct (a2b_partial_law codec (shape (sub c)) options (store_handle (key c)) (key c) v v b _ (wf_codec a Ha)
      (wf_chunk_shapes a Ha c Hc) (handle_reads_serves _ _ _ _ _ _ (proj2 (a2b_offset_law _ (wf_codec a Ha))) (store_handle_reads _ _ _)) Hh) as (ah & Hpd & Hreads).
    destruct (Hreads _ Hok) as (out & Hrun & Hho & Hsz & Hinto).
    rewrite (select_contents f) in Hho by (done || by apply sub_wf). rewrite (wf_data_type a Ha) in Hho.
    exists out. split; [done|]. intros t t' Ht Hd.
    apply (runs_at_map_err ArrayCodecError _ _ (Ok t')). eapply runs_at_bind; [exact Hpd|]. by apply Hinto.
Qed.

Lemma retrieve_chunk_subset_confined c o options : confined (key c) (retrieve_chunk_subset_opt a c o options).
Proof.
  unfold retrieve_chunk_subset_opt. destruct (array_chunk_shape a c) as [sh| |]; [|done..]. prog.
  destruct (negb _); [done|]. destruct (_ && _); [apply retrieve_chunk_confined|].
  apply confined_bind.
  - apply confined_map_err. eapply confines_then; [apply a2b_partial_confined, (store_handle_reads 0 (key c) None)|]. intros ah Hah. apply Hah.
  - intros out. prog. by destruct (validate_bytes out _ _).
Qed.

Lemma retrieve_chunk_subset_into_confined c o t options : confined (key c) (retrieve_chunk_subset_into a c o t options).
Proof.
  unfold retrieve_chunk_subset_into. destruct (array_chunk_shape a c) as [sh| |]; [|done..]. prog.
  destruct (negb _); [done|]. destruct (_ && _); [apply retrieve_chunk_into_confined|].
  apply confined_map_err. eapply confines_then; [apply a2b_partial_confined, (store_handle_reads 0 (key c) None)|]. intros ah Hah. apply Hah.
Qed.

(** ** Writing one chunk *)

Lemma store_chunk_confined c b options : confined (key c) (store_chunk_opt a c b options).
Proof.
  unfold store_chunk_opt, store_encoded_chunk, erase_chunk. destruct (array_chunk_shape a c) as [sh| |]; [|done..]. prog.
  destruct (validate_bytes b _ _); [|done..]. prog. destruct (_ && _); prog; [done|].
  by destruct (a2b_encode codec b sh options).
Qed.

Lemma store_chunk_ok c v f b options : in_grid g c → empty_chunks_ok a options →
  holds b dt (contents f (sub c)) → array_bytes_size b < a2b_limit codec (shape (sub c)) →
  ∃ v' b', runs_at (store_chunk_opt a c b options) v (Ok tt) v' ∧ chunk_holds a c v' f b' ∧
    array_bytes_size b' <= Z.max (array_bytes_size b) (Zprod (shape (sub c)) * zlen (base_fill dt (fill_value a))).
Proof.
  intros Hc Hempty Hh Hsz. pose proof (contents_length f (sub c) (sub_wf c Hc)) as Hl.
  unfold store_chunk_opt, store_encoded_chunk, erase_chunk. rewrite array_chunk_shape_ok by done. prog.
  rewrite sub_product by done. pose proof (holds_valid _ _ _ Hh) as Hval. rewrite Hl in Hval. rewrite Hval. prog.
  destruct (negb _ && _) eqn:Hfill.
  - apply andb_true_iff in Hfill as [He Hfill]. destruct Hempty as [Hs|Hexact]; [by rewrite Hs in He|].
    pose proof (is_fill_holds _ _ _ _ Hexact Hh Hfill) as HV.
    destruct (shape_law c Hc) as (_ & Hlim & _ & Hb). pose proof (sub_region_wf c Hc) as (_ & _ & _ & Hpos).
    destruct (new_fill_holds dt (Zprod (shape (sub c))) (fill_value a) dt_fill_ok) as (b' & Hnew & Hhn & Hpk & Hsn); [lia|lia|].
    exists None, b'. split_and!; [|apply chunk_holds_dt|lia].
    + prog. exists tt, None. done.
    + assert (contents f (sub c) = replicate (Z.to_nat (Zprod (shape (sub c)))) (fill_element dt (fill_value a))) as HV'.
      { rewrite HV at 1. f_equal. lia. }
      split_and!; [by rewrite HV'|done|done|done|done].
  - destruct (a2b_roundtrip codec (shape (sub c)) options b (contents f (sub c)) (wf_codec a Ha) (wf_chunk_shapes a Ha c Hc))
      as (enc & b' & rep & Henc & Hlen & _ & _ & Hdec & Hh' & Hpk & Hsz'); [by rewrite (wf_data_type a Ha)|done|done|].
    exists (Some enc), b'. rewrite (wf_data_type a Ha) in Hh'. destruct (shape_law c Hc) as (_ & _ & Hle & _).
    split_and!; [|apply chunk_holds_dt; split_and!; (done || lia)|lia].
    rewrite Henc. prog. exists tt, (Some enc). split; [split; [lia|done]|done].
Qed.

(** The [partial_encode] path is experimental: the data is written through it only on request. *)
Lemma store_chunk_subset_ok c v f b u h o options : in_grid g c → empty_chunks_ok a options →
  experimental_partial_encoding options = false → chunk_holds a c v f b → holds u dt (contents h o) →
  subset_wf o → covers (sub c) o → is_empty o = false →
  array_bytes_size b + array_bytes_size u < a2b_limit codec (shape (sub c)) →
  ∃ v' b', runs_at (store_chunk_subset_opt a c (within o (sub c)) u options) v (Ok tt) v' ∧
    chunk_holds a c v' (overwrite f h o) b' ∧
    array_bytes_size b' <= Z.max (array_bytes_size b + array_bytes_size u) (Zprod (shape (sub c)) * zlen (base_fill dt (fill_value a))).
Proof.
  intros Hc Hempty Hpart Hh Hu Ho Hcov Hne Hsz. destruct (within_start c o Hc Ho Hcov Hne) as [Hok Hib].
  pose proof Hh as (Hhb & Hlb & _)%chunk_holds_dt. pose proof (sub_region_wf c Hc) as (_ & _ & Hb63 & Hpos).
  assert (0 <= array_bytes_size b) as Hb0 by (clear; induction b; simpl; lia).
  unfold store_chunk_subset_opt. rewrite chunk_shape_u64_law by (done || apply (wf_grid a Ha)). prog. cbn [ok_or]. prog.
  change (axes_size (grid_axes g) c) with (shape (sub c)).
  assert (zip_any (λ end_exc shape, shape <? end_exc) (end_exc (within o (sub c))) (shape (sub c)) = false) as ->.
  { apply (end_exc_check (within o (sub c)) (shape (sub c))); apply Hok. }
  destruct (bool_decide _ && _) eqn:Hw.
  - rewrite andb_comm in Hw. apply whole_chunk in Hw as ->; [|done..].
    destruct (store_chunk_ok c v h u options Hc Hempty Hu) as (v' & b' & Hr & Hh' & Hs'); [lia|].
    exists v', b'. split_and!; [done| |lia]. unfold chunk_holds.
    rewrite (contents_ext (overwrite f h (sub c)) h) by (done || (intros; by apply overwrite_in)). done.
  - destruct (region_num_elements _ _ Hok) as [Hnum _]. rewrite Hnum. cbn [shape within].
    pose proof (holds_valid _ _ _ Hu) as Hval. rewrite contents_length in Hval by done. rewrite Hval. prog. rewrite Hpart. cbn [andb].
    destruct (update_holds b u dt _ (contents h o) (within o (sub c)) (shape (sub c)) Hok Hhb Hu Hlb) as (b1 & Hup & Hh1 & Hs1).
    { by rewrite contents_length. }
    { destruct (shape_law c Hc) as (_ & ? & _). lia. }
    rewrite (scatter_contents f h) in Hh1 by (done || apply sub_wf, Hc || (unfold u64_modulus; lia)).
    destruct (store_chunk_ok c v (overwrite f h o) b1 options Hc Hempty Hh1) as (v' & b' & Hr & Hh' & Hs'); [lia|].
    exists v', b'. split_and!; [|done|lia].
    eapply runs_at_bind; [by eapply retrieve_chunk_ok|]. prog. rewrite sub_product by done.
    pose proof (holds_valid _ _ _ Hhb) as Hvb. rewrite Hlb in Hvb. rewrite Hvb. prog. rewrite Hup. prog. done.
Qed.

(** ** Whatever the store answers *)

Lemma retrieve_chunk_yields `{!ValidatingArrayToBytesCodec C} c options : in_grid g c →
  yields (retrieve_chunk_opt a c options) (λ b, validate_bytes b (Zprod (shape (sub c))) dt = Ok tt).
Proof.
  intros Hc. unfold retrieve_chunk_opt, retrieve_chunk_if_exists_opt. rewrite chunk_dimensionality by done. cbn [negb]. prog. intros [enc|]; prog.
  - rewrite array_chunk_shape_ok by done. prog. destruct (a2b_decode codec enc _ options) as [b|e|] eqn:Hd; prog; [|done..].
    cbn [yields]. rewrite <-(wf_data_type a Ha), <-sub_product by done. eapply a2b_decode_valid; [by apply wf_codec|by apply (wf_chunk_shapes a Ha)|exact Hd].
  - rewrite array_chunk_shape_ok, sub_product by done. prog. destruct (sub_region_wf c Hc) as (_ & _ & Hb & Hpos). destruct (shape_law c Hc) as (_ & Hl & _ & Hlt).
    destruct (new_fill_holds dt (Zprod (shape (sub c))) (fill_value a) dt_fill_ok) as (b & -> & Hh & _); [lia..|]. prog. cbn [yields].
    apply holds_valid in Hh. rewrite length_replicate, Z2Nat.id in Hh by lia. done.
Qed.

Lemma retrieve_chunk_subset_yields `{!ValidatingArrayToBytesCodec C} c o options : in_grid g c → subset_wf o → covers (sub c) o → is_empty o = false →
  yields (retrieve_chunk_subset_opt a c (within o (sub c)) options) (λ b, validate_bytes b (Zprod (shape o)) dt = Ok tt).
Proof.
  intros Hc Ho Hcov Hne. destruct (within_start c o Hc Ho Hcov Hne) as [Hok Hib].
  unfold retrieve_chunk_subset_opt. rewrite array_chunk_shape_ok by done. prog. rewrite Hib. cbn [negb].
  destruct (_ && _) eqn:Hw.
  - apply whole_chunk in Hw as ->; [|done..]. by apply retrieve_chunk_yields.
  - eapply yields_bind; [apply yields_true|]. intros b _. destruct (region_num_elements _ _ Hok) as [Hnum _]. rewrite Hnum. cbn [shape within].
    prog. by destruct (validate_bytes b _ dt) as [[]| |] eqn:Hv.
Qed.

(** ** Invalid data *)

Lemma store_chunk_invalid c b e options : in_grid g c → validate_bytes b (Zprod (shape (sub c))) dt = Err e →
  store_chunk_opt a c b options = Done (Err (ArrayCodecError e)).
Proof. intros Hc Hv. unfold store_chunk_opt. rewrite array_chunk_shape_ok by done. prog. by rewrite sub_product, Hv. Qed.

Lemma store_chunk_subset_out c o u options : in_grid g c → subset_wf o → length (start o) = length (start (sub c)) → ¬ in_array o (shape (sub c)) →
  store_chunk_subset_opt a c o u options = Done (Err (InvalidChunkSubset o c (shape (sub c)))).
Proof.
  intros Hc Ho Hl Hn. unfold store_chunk_subset_opt. rewrite chunk_shape_u64_law by (done || apply (wf_grid a Ha)). prog. cbn [ok_or]. prog.
  change (axes_size (grid_axes g) c) with (shape (sub c)). destruct (zip_any _ _ _) eqn:Hz; [done|].
  apply end_exc_check in Hz; [done|done|]. rewrite Hl. apply sub_wf. done.
Qed.

Lemma store_chunk_subset_invalid c o u e options : in_grid g c → subset_wf o → covers (sub c) o → is_empty o = false →
  validate_bytes u (Zprod (shape o)) dt = Err e →
  store_chunk_subset_opt a c (within o (sub c)) u options = Done (Err (ArrayCodecError e)).
Proof.
  intros Hc Ho Hcov Hne Hv. destruct (within_start c o Hc Ho Hcov Hne) as [Hok Hib].
  unfold store_chunk_subset_opt. rewrite chunk_shape_u64_law by (done || apply (wf_grid a Ha)). prog. cbn [ok_or]. prog.
  change (axes_size (grid_axes g) c) with (shape (sub c)).
  assert (zip_any (λ end_exc shape, shape <? end_exc) (end_exc (within o (sub c))) (shape (sub c)) = false) as ->.
  { apply (end_exc_check (within o (sub c)) (shape (sub c))); apply Hok. }
  destruct (bool_decide _ && _) eqn:Hw.
  - rewrite andb_comm in Hw. apply whole_chunk in Hw as ->; [|done..]. by apply store_chunk_invalid.
  - destruct (region_num_elements _ _ Hok) as [Hnum _]. rewrite Hnum. cbn [shape within]. by rewrite Hv.
Qed.
End spec.
