(* ===== verification/StoreRegion.v ===== *)
(** Writing regions of an array ([ArrayWriteOps] and [ArrayUpdateOps]).

    A region is written chunk by chunk.  The tasks of the chunks are confined to the keys
    of their chunks, which differ; whatever the order of their store calls, the array then holds the
    data on the region, its former elements elsewhere, and no other key has changed. *)

From S2P Require Import Prelude ArraySubset Linear Iterators ChunkGrid ByteRange StoreKey ChunkKey.
From S2P Require Import Storage MemoryStore ArrayBytes Elements Regions StoreProgram DecodeInto GridRegions.
From S2P Require Import Concurrency Codec ArrayOps ArraySpec.

Section regions.
Context {G K C : Type} `{LawfulChunkGrid G} `{LawfulChunkKeyEncoding K} `{LawfulArrayToBytesCodec C}.
Context (a : Array G K C) (Ha : array_wf a).

#[local] Abbreviation g := (chunk_grid a).
#[local] Abbreviation dt := (data_type a).
#[local] Abbreviation key := (array_chunk_key a).
#[local] Abbreviation sub := (region_of a).
#[local] Abbreviation codec := (codecs_bound a).

(** A region the operations accept. *)
Definition region_in (r : ArraySubset) : Prop :=
  subset_wf r ∧ is_empty r = false ∧ in_array r (shape_ a) ∧ Zprod (shape r) < 2 ^ 63.

Definition meets (r : ArraySubset) (c : list Z) : Prop := ∃ ix, in_subset (sub c) ix ∧ in_subset r ix.

(** ** The chunks of a region *)

Lemma region_in_grid r : region_in r → region_of_grid g r.
Proof. by intros (Hr & Hne & Hin & _). Qed.

Lemma region_chunks r : region_in r → ∃ chunks l,
  array_chunks_in_array_subset a r = Ok (Some chunks) ∧ (∀ E, indices (E:=E) chunks = Ok l) ∧ NoDup l ∧
  num_elements_usize chunks = zlen l ∧ start chunks ∈ l ∧ (∀ c, c ∈ l ↔ in_grid g c ∧ meets r c) ∧
  l = box (start chunks) (shape chunks).
Proof. intros Hr. apply (chunks_of_region_ok g (wf_grid a Ha)); [apply (wf_chunks a Ha)|by apply region_in_grid]. Qed.

(** The overlap of a chunk and the region it meets. *)
Lemma chunk_overlap r c : region_in r → in_grid g c → meets r c →
  ∃ o, overlap (sub c) r = Ok o ∧ overlap r (sub c) = Ok o ∧ subset_wf o ∧ is_empty o = false ∧ covers (sub c) o ∧ covers r o ∧
    (∀ ix, in_subset o ix ↔ in_subset (sub c) ix ∧ in_subset r ix) ∧
    relative_to o (start (sub c)) = Ok (within o (sub c)) ∧ relative_to o (start r) = Ok (within o r) ∧
    region_ok (within o r) (shape r).
Proof.
  intros (Hr & _ & _ & Hp) Hc Hm. apply (overlap_chunk g (wf_grid a Ha)); [done| |done..]. unfold u64_modulus. lia.
Qed.

(** A region of one chunk lies in it. *)
Lemma one_chunk r c : region_in r → in_grid g c → (∀ d, in_grid g d → meets r d → d = c) → covers (sub c) r.
Proof.
  intros (Hr & Hne & Hin & Hp) Hc Hone. apply subset_covers; [by apply sub_wf|done|done|]. intros ix Hix.
  destruct (element_chunk g (wf_grid a Ha) r ix) as (d & Hd & Hmd & Hx); [done..|]. by rewrite <-(Hone d Hd Hmd).
Qed.

(** ** The task of a chunk *)

Context (f : list Z → element) (options : CodecOptions).
Context (Hempty : empty_chunks_ok a options) (Hpart : experimental_partial_encoding options = false).

Lemma store_chunk_subset_confined c o u : confined (key c) (store_chunk_subset_opt a c o u options).
Proof.
  unfold store_chunk_subset_opt. destruct (chunk_shape_u64 g c) as [[sh|]| |]; [|done..]. prog. cbn [ok_or]. prog.
  destruct (zip_any _ _ _); [done|]. destruct (_ && _); [by apply store_chunk_confined|].
  destruct (validate_bytes u _ _); [|done..]. prog. rewrite Hpart. cbn [andb].
  apply confined_bind; [apply retrieve_chunk_confined|]. intros b. prog. destruct (validate_bytes b _ _); [|done..]. prog.
  destruct (update_array_bytes b _ _ _ _); [|done..]. apply store_chunk_confined.
Qed.

Lemma store_chunk_task_confined r data c : confined (key c) (store_chunk_task a r data options c).
Proof.
  unfold store_chunk_task. destruct (array_chunk_subset a c) as [s| |]; [|done..]. prog.
  destruct (overlap r s) as [o| |]; [|done..]. prog. destruct (relative_to o _) as [w| |]; [|done..]. prog.
  destruct (extract_array_subset _ _ _ _) as [u| |]; [|done..]. prog. destruct (relative_to o _) as [w'| |]; [|done..]. prog.
  apply store_chunk_subset_confined.
Qed.

(** Room for the data in the chunk. *)
Definition room (data : ArrayBytes) (c : list Z) (b : ArrayBytes) : Prop :=
  array_bytes_size b + array_bytes_size data < a2b_limit codec (shape (sub c)).

(** A bound on the size of the chunk afterwards. *)
Definition size_after (data : ArrayBytes) (c : list Z) (b : ArrayBytes) : Z :=
  Z.max (array_bytes_size b + array_bytes_size data) (Zprod (shape (sub c)) * zlen (base_fill dt (fill_value a))).

Lemma store_chunk_task_ok r data h c v b : region_in r → in_grid g c → meets r c →
  holds data dt (contents h r) → chunk_holds a c v f b → room data c b →
  ∃ v' b', runs_at (store_chunk_task a r data options c) v (Ok tt) v' ∧ chunk_holds a c v' (overwrite f h r) b' ∧
    array_bytes_size b' <= size_after data c b.
Proof.
  intros Hr Hc Hm Hd Hh Hroom. unfold room in Hroom.
  destruct (chunk_overlap r c Hr Hc Hm) as (o & _ & Hov & Hwf & Hno & Hc1 & Hc2 & Hix & Hr1 & Hr2 & Hok).
  pose proof Hr as (Hrw & _). unfold store_chunk_task. rewrite array_chunk_subset_ok by done. prog. rewrite Hov. prog. rewrite Hr2. prog.
  destruct (extract_holds data dt _ _ _ Hok Hd (contents_length h r Hrw)) as (u & Hu & Hhu & _ & Hsu).
  rewrite (select_contents h) in Hhu by done. rewrite Hu. prog. rewrite Hr1. prog.
  destruct (store_chunk_subset_ok a Ha c v f b u h o options Hc Hempty Hpart Hh Hhu Hwf Hc1 Hno) as (v' & b' & Hrun & Hh' & Hs'); [lia|].
  exists v', b'. split_and!; [done| |unfold size_after; lia]. unfold chunk_holds.
  rewrite (contents_ext _ (overwrite f h o)); [done|by apply sub_wf|]. intros ix Hi. pose proof (proj1 Hi) as Hli.
  destruct Hc1 as [Hlo _], Hc2 as [Hlr _]. destruct (contains r ix) eqn:E.
  - apply contains_iff in E; [|done|lia]. rewrite !overwrite_in; [done|done|by apply Hix|done|done].
  - assert (¬ in_subset r ix) as Hn by (intros Hn; apply contains_iff in Hn; [congruence|done|lia]).
    rewrite !overwrite_out; [done|done|lia|by rewrite Hix; tauto|done|lia|done].
Qed.

(** ** The tasks together *)

(** What a write leaves: the array holds [h] on the region, and only the keys of its chunks
    have changed. *)
Definition written (M M' : gmap str bytes) (r : ArraySubset) (h : list Z → element) : Prop :=
  array_holds a M' (overwrite f h r) ∧ ∀ k, (∀ c, in_grid g c → meets r c → k ≠ key c) → M' !! k = M !! k.

Lemma chunk_holds_ext c v f1 f2 b : in_grid g c → (∀ ix, in_subset (sub c) ix → f1 ix = f2 ix) → chunk_holds a c v f1 b → chunk_holds a c v f2 b.
Proof. intros Hc Hext. unfold chunk_holds. by rewrite (contents_ext f1 f2) by (by apply sub_wf || done). Qed.

(** A chunk the region does not meet is not written. *)
Lemma unmet_chunk r h c : region_in r → in_grid g c → ¬ meets r c → ∀ ix, in_subset (sub c) ix → f ix = overwrite f h r ix.
Proof.
  intros (Hr & _ & [Hl _] & _) Hc Hm ix Hix. symmetry. apply overwrite_out; [done| |intros Hn; apply Hm; by exists ix].
  destruct Hix as [-> _]. pose proof (in_grid_u64 a Ha c Hc) as [_ Hlc]. unfold region_of, subset_of, axes_origin. simpl. rewrite length_zip_with, Hlc.
  unfold shape_ in Hl. rewrite (length_array_shape g (wf_grid a Ha)) in Hl. lia.
Qed.

(** Programs of the chunks of the region, each on the key of its chunk. *)
Lemma tasks_written (p : list Z → prog ArrayError unit) r h M l : region_in r →
  (∀ c, in_grid g c → ∃ b, chunk_holds a c (M !! key c) f b) → NoDup l → (∀ c, c ∈ l ↔ in_grid g c ∧ meets r c) →
  (∀ c, c ∈ l → confined (key c) (p c) ∧ ∃ v' b', runs_at (p c) (M !! key c) (Ok tt) v' ∧ chunk_holds a c v' (overwrite f h r) b') →
  ∃ tasks, Forall2 (λ p t, confined (task_key t) p ∧ runs_at p (M !! task_key t) (task_outcome t) (task_value t)) (p <$> l) tasks ∧
    NoDup (task_key <$> tasks) ∧ Forall (λ t, task_outcome t = Ok tt) tasks ∧ written M (tasks_result tasks M) r h.
Proof.
  intros Hr HM Hnd Hl Hp.
  assert (∃ tasks : list (task (E:=ArrayError) (A:=unit)), Forall2 (λ c t, task_key t = key c ∧ task_outcome t = Ok tt ∧
      (confined (key c) (p c) ∧ runs_at (p c) (M !! key c) (Ok tt) (task_value t)) ∧
      ∃ b', chunk_holds a c (task_value t) (overwrite f h r) b') l tasks) as [tasks Ht].
  { clear Hl Hnd. induction l as [|c l IH]; [by exists []|].
    destruct IH as [tasks Ht]; [intros d Hdl; by apply Hp, list_elem_of_further|].
    destruct (Hp c (list_elem_of_here c l)) as (Hc & v' & b' & Hrun & Hh').
    exists (mk_task (key c) (Ok tt) v' :: tasks). constructor; [|done]. split_and!; [done..|]. by exists b'. }
  assert (task_key <$> tasks = key <$> l) as Hkeys.
  { clear -Ht. induction Ht as [|c t l tasks (Hk & _) Ht IH]; [done|]. rewrite !fmap_cons. by rewrite Hk, IH. }
  assert (NoDup (task_key <$> tasks)) as Hndk.
  { rewrite Hkeys. apply NoDup_fmap_2_strong; [|done]. intros c d Hc Hd'. apply Hl in Hc as [Hc _], Hd' as [Hd' _]. by apply key_inj. }
  exists tasks. split_and!; [|done| |].
  - apply Forall2_fmap_l. eapply Forall2_impl; [exact Ht|]. simpl. by intros c t (-> & -> & ? & _).
  - clear -Ht. induction Ht as [|c t l tasks (_ & Ho & _) Ht IH]; by constructor.
  - split.
    + intros c Hc. destruct (decide (c ∈ l)) as [Hin|Hin].
      * apply list_elem_of_lookup in Hin as [i Hi]. destruct (Forall2_lookup_l _ _ _ _ _ Ht Hi) as (t & Hti & Hk & _ & _ & b' & Hb').
        exists b'. rewrite <-Hk, tasks_result_in; [done|done|by eapply list_elem_of_lookup_2].
      * destruct (HM c Hc) as [b Hb]. exists b. rewrite tasks_result_out.
        -- eapply chunk_holds_ext; [done| |exact Hb]. apply unmet_chunk; [done..|]. intros Hm. apply Hin, Hl. by split.
        -- rewrite Hkeys. intros (d & Hkd & Hdl)%list_elem_of_fmap. apply Hin. pose proof Hdl as [Hdg _]%Hl.
           by rewrite (key_inj a Ha c d Hc Hdg Hkd).
    + intros k Hk. apply tasks_result_out. rewrite Hkeys. intros (d & -> & Hdl)%list_elem_of_fmap. apply Hl in Hdl as [Hdg Hdm]. by apply (Hk d).
Qed.

(** Room in every chunk the region meets. *)
Definition rooms (M : gmap str bytes) (r : ArraySubset) (data : ArrayBytes) : Prop :=
  ∀ c b, in_grid g c → meets r c → chunk_holds a c (M !! key c) f b → room data c b.

(** For fixed-length data, there is room when the chunk and the data fit. *)
Lemma fixed_rooms M r data h d : holds data dt (contents h r) → region_in r → data_type_size dt = FixedSize d →
  (∀ c, in_grid g c → (Zprod (shape (sub c)) + Zprod (shape r)) * d < a2b_limit codec (shape (sub c))) → rooms M r data.
Proof.
  intros Hd (Hr & _) Hs Hfit c b Hc _ (Hb & Hlb & _)%chunk_holds_dt; [|done]. specialize (Hfit c Hc). unfold room.
  rewrite (holds_size _ _ _ d Hb Hs), (holds_size _ _ _ d Hd Hs), Hlb, contents_length by done. lia.
Qed.

Lemma store_tasks r data h M l : region_in r → holds data dt (contents h r) → array_holds a M f → rooms M r data →
  NoDup l → (∀ c, c ∈ l ↔ in_grid g c ∧ meets r c) →
  ∃ tasks, Forall2 (λ p t, confined (task_key t) p ∧ runs_at p (M !! task_key t) (task_outcome t) (task_value t))
      (store_chunk_task a r data options <$> l) tasks ∧
    NoDup (task_key <$> tasks) ∧ Forall (λ t, task_outcome t = Ok tt) tasks ∧ written M (tasks_result tasks M) r h.
Proof.
  intros Hr Hd HM Hroom Hnd Hl. apply tasks_written; [done..|]. intros c [Hc Hm]%Hl. split; [apply store_chunk_task_confined|].
  destruct (HM c Hc) as [b Hb]. destruct (store_chunk_task_ok r data h c _ b Hr Hc Hm Hd Hb (Hroom c b Hc Hm Hb)) as (v' & b' & ? & ? & _).
  by exists v', b'.
Qed.

(** The chunk of a region with one. *)
Lemma single_chunk r c (l : list (list Z)) : region_in r → c ∈ l → (∀ c, c ∈ l ↔ in_grid g c ∧ meets r c) → zlen l = 1 → l = [c] ∧ covers (sub c) r.
Proof.
  intros Hr Hc Hl Hone. assert (l = [c]) as Hl1.
  { destruct l as [|d [|? ?]]; [done| |simpl in Hone; lia]. by apply list_elem_of_singleton in Hc as ->. }
  split; [done|]. apply Hl in Hc as Hcg. apply one_chunk; [done|by apply Hcg|]. intros d Hd Hm. assert (d ∈ l) as Hdl by (by apply Hl).
  rewrite Hl1 in Hdl. by apply list_elem_of_singleton in Hdl.
Qed.

(** The grid has a first chunk when it has one at all. *)
Lemma first_chunk c : in_grid g c → in_grid g (replicate (dimensionality_ a) 0).
Proof.
  intros [Hc Hz]. split; [|done]. pose proof Hc as Hcg. apply (index_in_grid g (wf_grid a Ha)) in Hc as [Hl Hc].
  unfold dimensionality_, shape_. rewrite (length_array_shape g (wf_grid a Ha)).
  apply (index_in_grid g (wf_grid a Ha)). rewrite length_replicate. split; [done|]. intros j Hj.
  rewrite lookup_total_replicate_2 by done. specialize (Hc j Hj). lia.
Qed.

Lemma concurrency_ok sh c : in_grid g c → sh = shape (sub c) → is_Ok (recommended_codec_concurrency a sh).
Proof.
  intros Hc ->. unfold recommended_codec_concurrency.
  destruct (a2b_concurrency_law codec (shape (sub c)) (wf_codec a Ha) (wf_chunk_shapes a Ha c Hc)) as [rc ->]. by exists rc.
Qed.
End regions.

Section store.
Context {G K C : Type} `{LawfulChunkGrid G} `{LawfulChunkKeyEncoding K} `{LawfulArrayToBytesCodec C}.
Context (a : Array G K C) (Ha : array_wf a) (f : list Z → element).

#[local] Abbreviation g := (chunk_grid a).
#[local] Abbreviation dt := (data_type a).
#[local] Abbreviation key := (array_chunk_key a).
#[local] Abbreviation sub := (region_of a).

Lemma store_one_chunk options r data h c v b : empty_chunks_ok a options → experimental_partial_encoding options = false →
  region_in a r → in_grid g c → covers (sub c) r → holds data dt (contents h r) → chunk_holds a c v f b → room a data c b →
  let p := if bool_decide (r = sub c) then store_chunk_opt a c data options else store_chunk_subset_opt a c (within r (sub c)) data options in
  confined (key c) p ∧ ∃ v' b', runs_at p v (Ok tt) v' ∧ chunk_holds a c v' (overwrite f h r) b'.
Proof.
  intros He Hpart Hr Hc Hcov Hd Hh Hroom. unfold room in Hroom. pose proof Hr as (Hrw & Hne & _).
  assert (0 <= array_bytes_size b) as Hb0 by (clear; induction b; simpl; lia).
  cbv zeta. destruct (bool_decide_reflect (r = sub c)) as [->|_].
  - split; [by apply store_chunk_confined|]. destruct (store_chunk_ok a Ha c v h data options Hc He Hd) as (v' & b' & Hrun & Hh' & _); [lia|].
    exists v', b'. split; [done|]. eapply chunk_holds_ext; [done|done| |exact Hh']. intros ix Hix. by rewrite overwrite_in.
  - split; [by apply store_chunk_subset_confined|].
    destruct (store_chunk_subset_ok a Ha c v f b data h r options) as (v' & b' & Hrun & Hh' & _); try done. by exists v', b'.
Qed.

Lemma store_array_subset_runs options r data h M : empty_chunks_ok a options → experimental_partial_encoding options = false →
  region_in a r → holds data dt (contents h r) → array_holds a M f → rooms a f M r data →
  ∃ M', runs (store_array_subset_opt a r data options) M (Ok tt) M' ∧ written a f M M' r h.
Proof.
  intros He Hpart Hr Hd HM Hroom. destruct (region_chunks a Ha r Hr) as (chunks & l & Hchunks & Hind & Hnd & Hnum & Hst & Hl & Hbox).
  pose proof Hr as (Hrw & Hne & [Hla _] & Hr63). apply Hl in Hst as Hst'. destruct Hst' as [Hcg Hcm].
  unfold store_array_subset_opt, dimensionality. rewrite Hla, Nat.eqb_refl. cbn [negb]. rewrite Hchunks. prog. rewrite Hnum.
  destruct (Z.eqb_spec (zlen l) 1) as [H1l|H1l].
  - rewrite array_chunk_subset_ok by done. prog.
    destruct (single_chunk a Ha r _ l Hr Hst Hl H1l) as [Hl1 Hcov].
    destruct (HM _ Hcg) as [b Hb].
    destruct (tasks_written a Ha f (λ c, if bool_decide (r = sub c) then store_chunk_opt a c data options
        else store_chunk_subset_opt a c (within r (sub c)) data options) r h M l Hr HM Hnd Hl) as (tasks & Ht & Hndk & Hout & Hw).
    { rewrite Hl1. intros c ->%list_elem_of_singleton. apply (store_one_chunk options r data h _ _ b); try done. by apply Hroom. }
    destruct (serial_runs tasks M _ Ht Hndk Hout) as (M' & Hrun & ->). exists (tasks_result tasks M). split; [|done].
    rewrite Hl1 in Hrun. cbn [fmap list_fmap try_for_each] in Hrun. destruct (bool_decide (r = sub (start chunks))).
    + by apply runs_bind_ret.
    + destruct (relative_to_within (sub (start chunks)) r) as (Hrel & _); [by apply sub_wf|done..|]. rewrite Hrel. prog. by apply runs_bind_ret.
  - pose proof (holds_valid _ _ _ Hd) as Hval. rewrite contents_length in Hval by done.
    unfold num_elements. rewrite product64_wf by (split; [by apply subset_shape_nonneg|unfold u64_modulus; lia]). rewrite Hval. prog.
    pose proof (first_chunk a Ha _ Hcg) as Hfc. rewrite array_chunk_shape_ok by done. prog.
    destruct (concurrency_ok a Ha (shape (sub (replicate (dimensionality_ a) 0))) _ Hfc eq_refl) as [rc ->]. prog.
    destruct (concurrency_options (concurrent_target options) (zlen l) options rc) as [t Ht].
    destruct (concurrency_chunks_and_codec _ _ _ _) as [limit options']. simpl in Ht. subst options'. rewrite Hind. prog.
    destruct (store_tasks a Ha f (with_concurrent_target options t) He Hpart r data h M l) as (tasks & Hts & Hndk & Hout & Hw); [done..|].
    destruct (serial_runs tasks M _ Hts Hndk Hout) as (M' & Hrun & ->). exists (tasks_result tasks M). split; [|done].
    by rewrite try_for_each_fmap in Hrun.
Qed.

Lemma store_array_subset_invalid options r data e : region_in a r → validate_bytes data (Zprod (shape r)) dt = Err e →
  store_array_subset_opt a r data options = Done (Err (ArrayCodecError e)).
Proof.
  intros Hr He. destruct (region_chunks a Ha r Hr) as (chunks & l & Hchunks & Hind & Hnd & Hnum & Hst & Hl & Hbox).
  pose proof Hr as (Hrw & Hne & [Hla _] & Hr63). apply Hl in Hst as Hst'. destruct Hst' as [Hcg Hcm].
  unfold store_array_subset_opt, dimensionality. rewrite Hla, Nat.eqb_refl. cbn [negb]. rewrite Hchunks. prog. rewrite Hnum.
  destruct (Z.eqb_spec (zlen l) 1) as [H1l|H1l].
  - rewrite array_chunk_subset_ok by done. prog. destruct (single_chunk a Ha r _ l Hr Hst Hl H1l) as [_ Hcov].
    destruct (bool_decide_reflect (r = sub (start chunks))) as [Heq|_].
    + apply store_chunk_invalid; [done..|]. by rewrite <-Heq.
    + destruct (relative_to_within (sub (start chunks)) r) as (Hrel & _); [by apply sub_wf|done..|]. rewrite Hrel. prog.
      by apply store_chunk_subset_invalid.
  - unfold num_elements. rewrite product64_wf by (split; [by apply subset_shape_nonneg|unfold u64_modulus; lia]). by rewrite He.
Qed.
End store.
