(* ===== verification/RetrieveRegion.v ===== *)
(** Reading regions of an array ([ArrayReadOps]).

    A region that meets several chunks is assembled from the parts of its chunks: fixed-length
    data is decoded in place, each chunk into its part of the memory of the region, and
    variable-length data is merged.  Either way the bytes returned hold the elements of the array on the
    region. *)

From S2P Require Import Prelude ArraySubset Linear Iterators ChunkGrid ByteRange StoreKey ChunkKey.
From S2P Require Import Storage MemoryStore ArrayBytes Elements Regions StoreProgram DecodeInto.
From S2P Require Import Concurrency Codec ArrayOps ArraySpec StoreRegion.

Section retrieve.
Context {G K C : Type} `{LawfulChunkGrid G} `{LawfulChunkKeyEncoding K} `{LawfulArrayToBytesCodec C}.
Context (a : Array G K C) (Ha : array_wf a) (f : list Z → element) (M : gmap str bytes) (HM : array_holds a M f).

#[local] Abbreviation g := (chunk_grid a).
#[local] Abbreviation dt := (data_type a).
#[local] Abbreviation key := (array_chunk_key a).
#[local] Abbreviation sub := (region_of a).

(** ** The part of a chunk *)

(** The overlap of the chunk and the region, and array bytes of the chunk there with their cells. *)
Definition part_data (r : ArraySubset) (c : list Z) (q : ArraySubset * ArrayBytes * list cell) : Prop :=
  let '(o, b, E) := q in
  overlap (sub c) r = Ok o ∧ subset_wf o ∧ covers r o ∧
  relative_to o (start (sub c)) = Ok (within o (sub c)) ∧ relative_to o (start r) = Ok (within o r) ∧ region_ok (within o r) (shape r) ∧
  (∀ ix, in_subset o ix ↔ in_subset (sub c) ix ∧ in_subset r ix) ∧
  represents b dt E ∧ cell_element <$> E = contents f o ∧
  ∃ b0, chunk_holds a c (M !! key c) f b0 ∧ array_bytes_size b <= array_bytes_size b0.

(** The array bytes are read from the chunk. *)
Definition part_of (options : CodecOptions) (r : ArraySubset) (c : list Z) (q : ArraySubset * ArrayBytes * list cell) : Prop :=
  part_data r c q ∧ runs (retrieve_chunk_subset_opt a c (within q.1.1 (sub c)) options) M (Ok q.1.2) M.

(** Reading the overlap of a chunk gives a part. *)
Lemma part_intro r c o b b0 : region_in a r → in_grid g c → meets a r c → overlap (sub c) r = Ok o →
  holds b dt (contents f o) → chunk_holds a c (M !! key c) f b0 → array_bytes_size b <= array_bytes_size b0 →
  ∃ E, part_data r c (o, b, E).
Proof.
  intros Hr Hc Hm Hov Hh Hb0 Hsz. destruct (chunk_overlap a Ha r c Hr Hc Hm) as (o' & Hov' & _ & Hwf & Hno & Hc1 & Hc2 & Hix & Hr1 & Hr2 & Hok).
  rewrite Hov in Hov'. injection Hov' as <-. pose proof Hh as [(E & HE & Hel) _]. exists E. split_and!; [done..|by exists b0].
Qed.

Lemma part_exists options r c : region_in a r → in_grid g c → meets a r c → ∃ q, part_of options r c q.
Proof.
  intros Hr Hc Hm. destruct (chunk_overlap a Ha r c Hr Hc Hm) as (o & Hov & _ & Hwf & Hno & Hc1 & Hc2 & Hix & Hr1 & Hr2 & Hok).
  destruct (HM c Hc) as [b0 Hb0].
  destruct (retrieve_chunk_subset_ok a Ha c _ f b0 o options Hc Hb0 Hwf Hc1 Hno) as (b & Hrun & Hh & Hsz).
  destruct (part_intro r c o b b0 Hr Hc Hm Hov Hh Hb0 Hsz) as [E HE]. exists (o, b, E). split; [done|].
  by apply (runs_read (key c)); [apply retrieve_chunk_subset_confined|].
Qed.

Lemma parts_exist options r (l : list (list Z)) : region_in a r → (∀ c, c ∈ l ↔ in_grid g c ∧ meets a r c) → ∃ qs, Forall2 (part_of options r) l qs.
Proof.
  intros Hr Hl. assert (∀ c, c ∈ l → in_grid g c ∧ meets a r c) as Hl' by (intros c; by apply Hl). clear Hl.
  induction l as [|c l IH]; [by exists []|]. destruct IH as [qs Hq]; [intros d Hd; by apply Hl', list_elem_of_further|].
  destruct (Hl' c (list_elem_of_here c l)) as [Hc Hm]. destruct (part_exists options r c Hr Hc Hm) as [q Hq1]. exists (q :: qs). by constructor.
Qed.

(** Every element of the region is in the part of one chunk. *)
Lemma element_part r (l : list (list Z)) ix : region_in a r → (∀ c, c ∈ l ↔ in_grid g c ∧ meets a r c) → in_subset r ix →
  ∃ c, c ∈ l ∧ in_subset (sub c) ix.
Proof.
  intros (Hr & Hne & [Hla Hin] & Hp) Hl Hix. unfold shape_ in Hla, Hin.
  assert (index_in ix (array_shape g)) as Hia.
  { destruct Hix as [Hli Hix]. apply Forall2_total. split; [lia|].
    intros j Hj. specialize (Hix j ltac:(lia)). specialize (Hin j ltac:(lia)). pose proof (proj2 Hr j ltac:(lia)). lia. }
  destruct (locate g (wf_grid a Ha) ix Hia) as (d & _ & Hh & Hd & _). apply (sub_in_grid a Ha) in Hh; [|done].
  exists d. split; [|done]. apply Hl. split; [done|]. by exists ix.
Qed.

(** ** Cells of the region *)

Definition part_positions (r : ArraySubset) (c : list Z) : list Z :=
  match overlap (sub c) r with Ok o => positions (within o r) (shape r) | _ => [] end.

Lemma elem_of_part r c q k : region_in a r → in_grid g c → part_data r c q →
  k ∈ part_positions r c ↔ ∃ ix, in_subset (sub c) ix ∧ in_subset r ix ∧ position r ix = k.
Proof.
  destruct q as [[o b] E]. intros (Hr & _) Hc (Hov & Hwf & Hc2 & _ & _ & Hok & Hix & _). unfold part_positions. rewrite Hov.
  rewrite elem_of_positions by done. split.
  - intros (ix & [? ?]%Hix & Hk). by exists ix.
  - intros (ix & Hi & Hj & Hk). exists ix. split; [|done]. by apply Hix.
Qed.

Lemma part_positions_length r c q : region_in a r → part_data r c q →
  length (part_positions r c) = length q.2 ∧ Forall (λ i, 0 <= i < Zprod (shape r)) (part_positions r c) ∧ NoDup (part_positions r c).
Proof.
  destruct q as [[o b] E]. intros (Hr & _) (Hov & Hwf & Hc2 & _ & _ & Hok & _ & _ & HE & _). unfold part_positions. rewrite Hov. cbn [snd].
  pose proof (length_positions (within o r) (shape r) (proj1 Hok)) as Hl. pose proof (contents_length f o Hwf) as Hc.
  rewrite <-HE, length_fmap in Hc. cbn [shape within] in Hl. split_and!; [lia|apply positions_bound; apply Hok|apply NoDup_positions; apply Hok].
Qed.

Section parts.
Context (r : ArraySubset) (l : list (list Z)) (qs : list (ArraySubset * ArrayBytes * list cell)).
Context (Hr : region_in a r) (Hnd : NoDup l) (Hl : ∀ c, c ∈ l ↔ in_grid g c ∧ meets a r c) (Hq : Forall2 (part_data r) l qs).

Lemma NoDup_part_positions : NoDup (concat (part_positions r <$> l)).
Proof.
  assert (∀ c, c ∈ l → ∃ q, part_data r c q) as Hpart.
  { intros c [i Hi]%list_elem_of_lookup. destruct (Forall2_lookup_l _ _ _ _ _ Hq Hi) as (q & _ & ?). by exists q. }
  apply NoDup_concat_fmap; [done| |].
  - intros c Hc. destruct (Hpart c Hc) as [q Hcq]. by eapply part_positions_length.
  - intros c d k Hc Hd Hkc Hkd. destruct (Hpart c Hc) as [q Hcq], (Hpart d Hd) as [q' Hdq].
    apply Hl in Hc as [Hc _], Hd as [Hd _]. destruct Hr as (Hrw & _).
    apply (elem_of_part r c q k Hr Hc Hcq) in Hkc as (ix & Hix & Hrx & Hpx).
    apply (elem_of_part r d q' k Hr Hd Hdq) in Hkd as (jx & Hjx & Hry & Hpy).
    rewrite <-Hpy in Hpx. apply position_inj in Hpx as ->; [|done..]. by eapply (sub_disjoint a Ha).
Qed.

(** The cells of the region. *)
Lemma region_cells : ∃ E : list cell, zlen E = Zprod (shape r) ∧
  Forall2 (λ c q, select E (part_positions r c) = q.2) l qs ∧ cell_element <$> E = contents f r.
Proof.
  pose proof Hr as (Hrw & _). pose proof (Zprod_nonneg _ (subset_shape_nonneg r Hrw)) as Hnn.
  destruct (select_parts (Zprod (shape r)) (zip (part_positions r <$> l) qs.*2) Hnn) as (E & HE & Hsel).
  { rewrite fst_zip; [apply NoDup_part_positions|]. rewrite !length_fmap. by rewrite (Forall2_length _ _ _ Hq). }
  { apply Forall_forall. intros p [i Hi]%list_elem_of_lookup. apply lookup_zip_with_Some in Hi as (ps & e & -> & Hps & He).
    apply list_lookup_fmap_Some in Hps as (c & -> & Hc). apply list_lookup_fmap_Some in He as (q & -> & Hqi). pose proof (Forall2_lookup_lr _ _ _ _ _ _ Hq Hc Hqi) as Hcq.
    destruct (part_positions_length r c q Hr Hcq) as (? & ? & _). done. }
  assert (Forall2 (λ c q, select E (part_positions r c) = q.2) l qs) as Hsel2.
  { apply Forall2_same_length_lookup. split; [by apply (Forall2_length _ _ _ Hq)|]. intros i c q Hc Hqi.
    rewrite Forall_forall in Hsel. apply (Hsel (part_positions r c, q.2)). apply list_elem_of_lookup. exists i.
    apply lookup_zip_with_Some. exists (part_positions r c), q.2. by rewrite !list_lookup_fmap, Hc, Hqi. }
  exists E. split_and!; [done|done|]. apply contents_intro; [done|by rewrite length_fmap|]. intros ix Hix.
  destruct (element_part r l ix Hr Hl Hix) as (c & Hcl & Hic). apply list_elem_of_lookup in Hcl as [i Hi].
  destruct (Forall2_lookup_l _ _ _ _ _ Hq Hi) as (q & Hqi & Hcq). pose proof (Forall2_lookup_lr _ _ _ _ _ _ Hsel2 Hi Hqi) as Hs. simpl in Hs.
  destruct (part_positions_length r c q Hr Hcq) as (_ & Hb & _). destruct q as [[o b] D]. cbn [snd] in Hs.
  destruct Hcq as (Hov & Hwf & Hc2 & _ & _ & Hok & Hio & _ & HD & _).
  assert (in_subset o ix) as Hio' by (by apply Hio).
  pose proof (lookup_contents f o ix Hwf Hio') as Hf. rewrite <-HD, <-Hs, list_lookup_fmap in Hf.
  destruct (select E (part_positions r c) !! Z.to_nat (position o ix)) as [e|] eqn:He; [|done]. injection Hf as Hf.
  assert (part_positions r c !! Z.to_nat (position o ix) = Some (position r ix)) as Hpos.
  { unfold part_positions. rewrite Hov, positions_within by done. apply (lookup_contents (position r) o ix Hwf Hio'). }
  rewrite (lookup_select E _ _ (position r ix)) in He by (by rewrite ?HE). by rewrite list_lookup_fmap, He, <-Hf.
Qed.

(** Every position is in a part. *)
Lemma positions_covered k : 0 <= k < Zprod (shape r) → ∃ c, c ∈ l ∧ k ∈ part_positions r c.
Proof.
  intros Hk. pose proof Hr as (Hrw & _). destruct (position_surj r k Hrw Hk) as (ix & Hix & Hp).
  destruct (element_part r l ix Hr Hl Hix) as (c & Hcl & Hic). exists c. split; [done|].
  pose proof Hcl as [i Hi]%list_elem_of_lookup. destruct (Forall2_lookup_l _ _ _ _ _ Hq Hi) as (q & _ & Hcq).
  apply Hl in Hcl as [Hc _]. apply (elem_of_part r c q k Hr Hc Hcq). by exists ix.
Qed.

(** ** Variable-length data *)

Lemma select_concat {A} `{!Inhabited A} (T : list A) (ps : list (list Z)) : select T (concat ps) = concat (select T <$> ps).
Proof. induction ps as [|p ps IH]; [done|]. rewrite fmap_cons. cbn [concat]. rewrite <-IH. apply fmap_app. Qed.

Definition parts_size : Z := Zsum ((λ q : ArraySubset * ArrayBytes * list cell, array_bytes_size q.1.2) <$> qs).

Lemma bases_total E : zlen E = Zprod (shape r) → Forall2 (λ c q, select E (part_positions r c) = q.2) l qs →
  data_type_size dt = VariableSize → zlen (concat (bases (optional_nesting_depth dt) E)) <= parts_size.
Proof.
  intros HE Hsel Hs. set (n := optional_nesting_depth dt). set (T := bases n E).
  assert (zlen T = Zprod (shape r)) as HT by (unfold T; by rewrite length_bases).
  transitivity (zlen (concat (select T (concat (part_positions r <$> l))))).
  - rewrite <-!Zsum_lengths. apply Zsum_submseteq; [|apply Forall_fmap, Forall_true; simpl; lia]. apply fmap_submseteq.
    rewrite <-(select_all T) at 1. apply fmap_submseteq. apply NoDup_submseteq; [apply NoDup_seqZ|].
    intros k Hk%elem_of_seqZ. destruct (positions_covered k) as (c & Hc & Hkc); [lia|].
    apply list_elem_of_In, in_concat. exists (part_positions r c). split; apply list_elem_of_In; [|done]. by apply list_elem_of_fmap_2.
  - rewrite select_concat. unfold parts_size. assert (∀ c, c ∈ l → in_grid g c) as Hg by (intros c; by intros [? _]%Hl).
    clear Hnd Hl. induction Hsel as [|c q l' qs' Hcq Hsel IH]; [done|]. inversion Hq; subst.
    rewrite !fmap_cons, Zsum_cons. cbn [concat]. rewrite concat_app, length_app.
    assert (zlen (concat (select T (part_positions r c))) <= array_bytes_size q.1.2) as Hle.
    { unfold T. rewrite <-bases_select.
      - rewrite Hcq. destruct q as [[o b] D]. match goal with Hp : part_data _ _ _ |- _ => destruct Hp as (_ & _ & _ & _ & _ & _ & _ & HD & _) end.
        by apply bases_size.
      - rewrite HE. by eapply part_positions_length. }
    pose proof (IH ltac:(done) ltac:(intros d Hd; by apply Hg, list_elem_of_further)). lia.
Qed.

(** The parts, each with the region of its positions. *)
Definition part_pairs : list (ArrayBytes * ArraySubset) := (λ q : ArraySubset * ArrayBytes * list cell, (q.1.2, within q.1.1 r)) <$> qs.

Lemma pairs_cells E : zlen E = Zprod (shape r) → Forall2 (λ c q, select E (part_positions r c) = q.2) l qs →
  cell_parts dt E (shape r) part_pairs.
Proof.
  intros HE Hsel. split.
  - apply Forall_fmap. apply Forall_forall. intros [[o b] D] [i Hi]%list_elem_of_lookup.
    destruct (Forall2_lookup_r _ _ _ _ _ Hq Hi) as (c & Hc & Hov & _ & _ & _ & _ & Hok & _ & HD & _).
    pose proof (Forall2_lookup_lr _ _ _ _ _ _ Hsel Hc Hi) as Hsc. unfold part_positions in Hsc. rewrite Hov in Hsc. simpl in *.
    by rewrite Hsc.
  - rewrite HE. intros k Hk. destruct (positions_covered k Hk) as (c & [i Hi]%list_elem_of_lookup & Hkc).
    destruct (Forall2_lookup_l _ _ _ _ _ Hq Hi) as ([[o b] D] & Hqi & (Hov & _)).
    exists (b, within o r). split; [|unfold part_positions in Hkc; by rewrite Hov in Hkc]. apply list_elem_of_fmap. exists (o, b, D).
    split; [done|by eapply list_elem_of_lookup_2].
Qed.

(** The merges of the parts hold the elements of the region. *)
Lemma merge_optional_parts : data_type_size dt = VariableSize → parts_size < 2 ^ 63 → (0 < optional_nesting_depth dt)%nat →
  ∃ out, merge_chunks_vlen_optional part_pairs (shape r) (optional_nesting_depth dt) = Ok out ∧ holds out dt (contents f r).
Proof.
  intros Hs Hsize Hd. destruct region_cells as (E & HE & Hsel & Hel). pose proof Hr as (Hrw & _ & _ & Hr63).
  pose proof (bases_total E HE Hsel Hs) as Hbt. pose proof (pairs_cells E HE Hsel) as Hcp.
  assert (shape_wf (shape r)) as Hshw by (split; [by apply subset_shape_nonneg|unfold u64_modulus; lia]).
  destruct (merge_chunks_vlen_optional_ok dt E part_pairs (shape r)) as (out & Hout & Hro & Hpk); [done|done|lia|done|done|lia|done|].
  exists out. split; [done|]. rewrite <-Hel. by apply packed_holds.
Qed.

Lemma variable_part b D : data_type_size dt = VariableSize → optional_nesting_depth dt = 0%nat → represents b dt D →
  ∃ v L, b = VariableBytes v ∧ D = Cell <$> L ∧ vlen_elements v L.
Proof. intros Hs Hd0 HD. destruct dt as [[?|]|?]; [done| |done]. destruct b; try done. destruct HD as (L & -> & Hv & _). eauto. Qed.

Lemma optional_part b D : (0 < optional_nesting_depth dt)%nat → represents b dt D → ∃ data mask, b = OptionalBytes data mask.
Proof. intros Hd HD. destruct dt as [?|?]; [simpl in Hd; lia|]. destruct b; try done. eauto. Qed.

Lemma merge_variable_parts : data_type_size dt = VariableSize → parts_size < 2 ^ 63 → optional_nesting_depth dt = 0%nat →
  ∃ vs v, Forall2 (λ q w, q.1.2 = VariableBytes w.1 ∧ w.2 = within q.1.1 r) qs vs ∧
    (∀ E', merge_chunks_vlen (E:=E') vs (shape r) = Ok v) ∧ holds (VariableBytes v) dt (contents f r).
Proof.
  intros Hs Hsize Hd0. destruct region_cells as (E & HE & Hsel & Hel). pose proof Hr as (Hrw & _ & _ & Hr63).
  pose proof (bases_total E HE Hsel Hs) as Hbt. pose proof (pairs_cells E HE Hsel) as Hcp.
  assert (shape_wf (shape r)) as Hshw by (split; [by apply subset_shape_nonneg|unfold u64_modulus; lia]).
  assert (∃ vs, Forall2 (λ (q : ArraySubset * ArrayBytes * list cell) w, q.1.2 = VariableBytes w.1 ∧ w.2 = within q.1.1 r) qs vs ∧
    Forall (λ p, region_ok p.2 (shape r) ∧ vlen_elements p.1 (select (bases 0 E) (positions p.2 (shape r)))) vs ∧ vs.*2 = part_pairs.*2)
    as (vs & Hruns & Hvs & Hsnd).
  { destruct Hcp as [Hcells _]. unfold part_pairs in *. clear -Hcells Hs Hd0 HE. induction qs as [|[[o b] D] qs' IH]; [by exists []|].
    rewrite fmap_cons in Hcells. apply Forall_cons in Hcells as [[Hok HD] Hcells]. destruct (IH Hcells) as (vs & Hruns & Hvs & Hsnd).
    cbn [fst snd] in *. destruct (variable_part b _ Hs Hd0 HD) as (v & L & -> & HL & Hv). exists ((v, within o r) :: vs). split_and!.
    - by constructor.
    - constructor; [|done]. cbn [fst snd]. split; [done|]. rewrite <-bases_select by (rewrite HE; apply positions_bound; apply Hok).
      rewrite HL. cbn [bases]. rewrite list_fmap_fmap. simpl. by rewrite list_fmap_id.
    - rewrite !fmap_cons. by rewrite Hsnd. }
  rewrite Hd0 in Hbt. exists vs, (pack (bases 0 E)). split_and!; [done| |].
  - intros E'. apply merge_chunks_vlen_ok; [done|by rewrite length_bases|unfold u64_modulus; lia|]. split; [done|]. rewrite length_bases. intros k Hk.
    destruct Hcp as [_ Hcov]. destruct (Hcov k Hk) as (p & Hp & Hkp).
    apply (list_elem_of_fmap_2 snd) in Hp. rewrite <-Hsnd in Hp. apply list_elem_of_fmap in Hp as (w & Hw & Hin). exists w. by rewrite <-Hw.
  - rewrite <-Hel. apply packed_holds; [|by eexists].
    apply (with_masks_represents 0 (pack (bases 0 E)) dt E); [done|done|apply pack_elements|lia|cbn [pack vl_bytes]; lia|by eapply parts_cells].
Qed.
End parts.

(** The parts are no larger than the chunks. *)
Lemma parts_size_le r l qs B : (∀ c, c ∈ l → in_grid g c ∧ meets a r c) → Forall2 (part_data r) l qs →
  (∀ c b, in_grid g c → meets a r c → chunk_holds a c (M !! key c) f b → array_bytes_size b <= B) → parts_size qs <= zlen l * B.
Proof.
  intros Hl Hqs Hsz. unfold parts_size. induction Hqs as [|c q l qs Hcq Hqs IH]; [done|]. rewrite fmap_cons, Zsum_cons. cbn [length].
  specialize (IH ltac:(intros d Hd; by apply Hl, list_elem_of_further)). destruct (Hl c (list_elem_of_here c l)) as [Hc Hm].
  destruct q as [[o b] D]. destruct Hcq as (_ & _ & _ & _ & _ & _ & _ & _ & _ & b0 & Hb0 & Hle). specialize (Hsz c b0 Hc Hm Hb0). cbn [fst snd]. lia.
Qed.

Lemma variable_runs options r l qs chunks : region_in a r → NoDup l → (∀ c, c ∈ l ↔ in_grid g c ∧ meets a r c) → Forall2 (part_of options r) l qs →
  (∀ E, indices (E:=E) chunks = Ok l) → data_type_size dt = VariableSize → parts_size qs < 2 ^ 63 →
  ∃ out, runs (retrieve_multi_chunk_variable a r chunks options) M (Ok out) M ∧ holds out dt (contents f r).
Proof.
  intros Hr Hnd Hl Hq Hind Hs Hsize.
  assert (Forall2 (part_data r) l qs) as Hqd by (eapply Forall2_impl; [exact Hq|]; by intros c q [? _]).
  assert (Forall2 (λ c q, in_grid g c ∧ part_of options r c q) l qs) as Hqs.
  { apply Forall2_same_length_lookup. split; [by apply (Forall2_length _ _ _ Hq)|]. intros i c q Hc Hqi. split; [|by eapply Forall2_lookup_lr].
    by apply (Hl c), list_elem_of_lookup_2 with i. }
  unfold retrieve_multi_chunk_variable. rewrite Hind. prog.
  destruct (Nat.ltb_spec 0 (optional_nesting_depth dt)) as [Hd|Hd].
  - destruct (merge_optional_parts r l qs Hr Hnd Hl Hqd Hs Hsize Hd) as (out & Hout & Ho). exists out. split; [|done].
    eapply runs_bind; [|cbn [plift]; rewrite Hout; done]. apply runs_map. unfold part_pairs. apply Forall2_fmap_r.
    eapply Forall2_impl; [exact Hqs|]. intros c [[o b] D] (Hg & (Hov & _ & _ & Hr1 & Hr2 & _ & _ & HD & _) & Hrun). cbn [fst snd] in *.
    unfold retrieve_chunk_optional. rewrite array_chunk_subset_ok by done. prog. rewrite Hov. prog. rewrite Hr1. prog.
    eapply runs_bind; [exact Hrun|]. destruct (optional_part b D Hd HD) as (data & mask & ->). cbn [into_optional]. prog. by rewrite Hr2.
  - assert (optional_nesting_depth dt = 0)%nat as Hd0 by lia.
    destruct (merge_variable_parts r l qs Hr Hnd Hl Hqd Hs Hsize Hd0) as (vs & v & Hvs & Hm & Ho). exists (VariableBytes v). split; [|done].
    eapply runs_bind; [|by rewrite Hm]. apply runs_map. apply Forall2_same_length_lookup.
    split; [by rewrite (Forall2_length _ _ _ Hq), (Forall2_length _ _ _ Hvs)|]. intros i c w Hc Hw.
    destruct (Forall2_lookup_l _ _ _ _ _ Hqs Hc) as ([[o b] D] & Hqi & Hg & (Hov & _ & _ & Hr1 & Hr2 & _) & Hrun).
    destruct (Forall2_lookup_lr _ _ _ _ _ _ Hvs Hqi Hw) as [Hb Hw2]. cbn [fst snd] in *. subst b.
    unfold retrieve_chunk_variable. rewrite array_chunk_subset_ok by done. prog. rewrite Hov. prog. rewrite Hr1. prog.
    eapply runs_bind; [exact Hrun|]. cbn [into_variable]. prog. rewrite Hr2. prog. by rewrite <-Hw2; destruct w.
Qed.

(** ** Fixed-length data

    The memory after the chunks [done_]: it holds the elements of the array on them. *)
Definition decoded (r : ArraySubset) (done_ : list (list Z)) (outputs : bytes * list bytes) : Prop :=
  length outputs.2 = optional_nesting_depth dt ∧
  ∃ F h, represents (with_masks (FixedBytes outputs.1) outputs.2) dt F ∧ cell_element <$> F = contents h r ∧
    ∀ c ix, c ∈ done_ → in_subset (sub c) ix → in_subset r ix → h ix = f ix.

(** Decoding the part of a chunk into views of the memory. *)
Lemma decode_part r c o d done_ outputs out : region_in a r → in_grid g c → meets a r c → overlap (sub c) r = Ok o →
  data_type_size dt = FixedSize d → 0 < d → Zprod (shape r) * d < 2 ^ 63 → decoded r done_ outputs → holds out dt (contents f o) →
  ∃ dv mv t' data' masks', view_new outputs.1 d (shape r) (within o r) = Ok dv ∧
    Forall (λ mask, view_new mask 1 (shape r) (within o r) = Ok mv) outputs.2 ∧
    let t := build_nested_optional_target (dv, outputs.1) ((λ mask, (mv, mask)) <$> outputs.2) in
    target_fits t (shape o) ∧ decode_into_array_bytes_target out t = Ok t' ∧
    extract_target_views t' = ((dv, data'), (λ mask, (mv, mask)) <$> masks') ∧ decoded r (done_ ++ [c]) (data', masks').
Proof.
  intros Hr Hc Hm Hov Hs Hd Hb (Hlm & F & h & HF & Hel & Hdone) Hout. destruct outputs as [data masks]. cbn [fst snd] in *.
  pose proof Hr as (Hrw & Hrne & _ & Hr63).
  destruct (chunk_overlap a Ha r c Hr Hc Hm) as (o' & Hov' & _ & Hwf & Hno & Hc1 & Hc2 & Hix & Hr1 & Hr2 & Hok).
  rewrite Hov in Hov'. injection Hov' as <-.
  pose proof (f_equal length Hel) as HlF. rewrite length_fmap in HlF. pose proof (contents_length h r Hrw) as Hlh.
  assert (0 < Zprod (shape r)) as Hpos.
  { apply Zprod_pos, Forall_total. intros j Hj. apply is_empty_false; [done|done|]. by rewrite <-(proj1 Hrw). }
  destruct (represents_sizes data masks dt F d HF Hs) as [Hld Hlms].
  destruct (views_over_ok d _ dt F (within o r) (shape r) Hok Hs HF) as (dv & mv & Hviews & Hdv & Hmv & Hnum & _); [lia|unfold u64_modulus; nia|].
  pose proof Hout as [(D & HD & HelD) _]. pose proof (f_equal length HelD) as HlD. rewrite length_fmap in HlD. pose proof (contents_length f o Hwf) as Hlo.
  destruct (decode_into_ok dv mv d out _ dt D F (within o r) (shape r) Hok Hs Hviews HD HF) as (m' & Hm' & Hr'); [lia|cbn [shape within]; lia|].
  assert (data_type_size dt ≠ VariableSize) as Hnv by by rewrite Hs.
  destruct (extract_target_over dv mv m' dt _ Hr' Hnv) as (data' & masks' & Hex & Hwm & Hlm').
  exists dv, mv, (target_over dv mv m'), data', masks'. split_and!.
  - apply Hdv. lia.
  - eapply Forall_impl; [exact Hlms|]. intros mask Hl. simpl in Hl |- *. apply Hmv. lia.
  - rewrite build_target_over. change (shape o) with (shape (within o r)). apply (views_over_fits d dv mv _ dt F (within o r) (shape r)); done || lia.
  - by rewrite build_target_over.
  - done.
  - split; [done|]. cbn [fst snd]. exists (scatter F (positions (within o r) (shape r)) D), (overwrite h f o).
    split_and!; [by rewrite Hwm| |].
    + rewrite <-scatter_fmap, Hel, HelD. apply scatter_contents; try done. unfold u64_modulus. lia.
    + intros e ix He Hie Hir. destruct (contains o ix) eqn:Ec.
      * unfold overwrite. by rewrite Ec.
      * unfold overwrite. rewrite Ec. apply elem_of_app in He as [He| ->%list_elem_of_singleton]; [by apply (Hdone e)|].
        assert (contains o ix = true) as Hct; [|congruence]. apply contains_iff; [done| |by apply Hix].
        destruct Hir as [-> _], Hc2 as [-> _]. done.
Qed.

Lemma zip_const {A B} (x : A) (l : list B) : zip ((λ _, x) <$> l) l = (λ y, (x, y)) <$> l.
Proof. induction l as [|y l IH]; [done|]. rewrite !fmap_cons. cbn [zip_with]. by rewrite IH. Qed.

Lemma decode_step options r c d done_ outputs : region_in a r → in_grid g c → meets a r c → data_type_size dt = FixedSize d →
  0 < d → Zprod (shape r) * d < 2 ^ 63 → decoded r done_ outputs →
  ∃ outputs', runs (retrieve_chunk_fixed a r d options outputs c) M (Ok outputs') M ∧ decoded r (done_ ++ [c]) outputs'.
Proof.
  intros Hr Hc Hm Hs Hd Hb Hdec.
  destruct (chunk_overlap a Ha r c Hr Hc Hm) as (o & Hov & _ & Hwf & Hno & Hc1 & Hc2 & Hix & Hr1 & Hr2 & Hok).
  destruct (HM c Hc) as [b0 Hb0].
  destruct (retrieve_chunk_subset_into_ok a Ha c _ f b0 o options Hc Hb0 Hwf Hc1 Hno) as (out & Hout & Hinto).
  destruct (decode_part r c o d done_ outputs out Hr Hc Hm Hov Hs Hd Hb Hdec Hout) as (dv & mv & t' & data' & masks' & Hdv & Hmv & Hfit & Hdi & Hex & Hdec').
  destruct outputs as [data masks]. cbn [fst snd] in *. exists (data', masks'). split; [|done].
  unfold retrieve_chunk_fixed. rewrite array_chunk_subset_ok by done. prog. rewrite Hov. prog. rewrite Hr2. prog. rewrite Hdv. prog.
  replace ((λ mask, view_new mask 1 (shape r) (within o r)) <$> masks) with (Ok (E:=CodecError) <$> ((λ _, mv) <$> masks)).
  2: { rewrite list_fmap_fmap. apply list_fmap_ext_in. intros mask Hin. rewrite Forall_forall in Hmv. by rewrite Hmv. }
  rewrite collect_res_Ok. prog. rewrite Hr1. prog. rewrite zip_const. eapply runs_bind.
  - apply (runs_read (key c)); [apply retrieve_chunk_subset_into_confined; done|]. by apply Hinto.
  - rewrite Hex. prog. cbn [fst snd]. rewrite list_fmap_fmap. simpl. by rewrite list_fmap_id.
Qed.

Context (uninit : Z → bytes) (Huninit : ∀ n, 0 <= n → zlen (uninit n) = n).

(** The memory before any chunk. *)
Lemma fresh_memory r d : region_in a r → data_type_size dt = FixedSize d → 0 < d → Zprod (shape r) * d < 2 ^ 63 →
  decoded r [] (uninit (Zprod (shape r) * d), replicate (optional_nesting_depth dt) (uninit (Zprod (shape r)))).
Proof.
  intros (Hrw & Hrne & _ & Hr63) Hs Hd Hb. pose proof (Zprod_nonneg _ (subset_shape_nonneg r Hrw)) as Hnn.
  destruct (memory_represents dt d (Z.to_nat (Zprod (shape r))) (uninit (Zprod (shape r) * d))
    (replicate (optional_nesting_depth dt) (uninit (Zprod (shape r))))) as (F & HF & HlF); [done|done| | |by rewrite length_replicate|lia|].
  { rewrite Huninit by lia. lia. }
  { apply Forall_replicate. pose proof (Huninit (Zprod (shape r)) Hnn). lia. }
  split; [cbn [snd]; by rewrite length_replicate|]. exists F, (element_at (cell_element <$> F) r). split_and!; [done| |by intros c ix ?%not_elem_of_nil].
  rewrite contents_element_at; [done|done|]. rewrite length_fmap. lia.
Qed.
(** The memory after all chunks of the region. *)
Lemma decoded_all r l data masks : region_in a r → (∀ c, c ∈ l ↔ in_grid g c ∧ meets a r c) → decoded r l (data, masks) →
  holds (with_masks (FixedBytes data) masks) dt (contents f r).
Proof.
  intros Hr Hl (_ & F & h & HF & Hel & Hall). cbn [fst snd] in *. pose proof Hr as (Hrw & _).
  rewrite <-(contents_ext h f), <-Hel; [|done|].
  - apply packed_holds; [done|]. clear. induction masks; done.
  - intros ix Hix. destruct (element_part r l ix Hr Hl Hix) as (c & Hc & Hic). by apply (Hall c).
Qed.

Lemma fixed_runs options r d chunks l : region_in a r → data_type_size dt = FixedSize d → 0 < d → Zprod (shape r) * d < 2 ^ 63 →
  (∀ E, indices (E:=E) chunks = Ok l) → (∀ c, c ∈ l ↔ in_grid g c ∧ meets a r c) →
  ∃ out, runs (retrieve_multi_chunk_fixed uninit a r chunks options) M (Ok out) M ∧ holds out dt (contents f r).
Proof.
  intros Hr Hs Hd Hb Hind Hl. pose proof Hr as (Hrw & Hrne & _ & Hr63). pose proof (Zprod_nonneg _ (subset_shape_nonneg r Hrw)) as Hnn.
  unfold retrieve_multi_chunk_fixed, fixed_size. rewrite Hs. cbn [expect]. prog.
  unfold num_elements_usize, num_elements. rewrite product64_wf by (split; [by apply subset_shape_nonneg|unfold u64_modulus; lia]).
  rewrite wrap64_small by (unfold is_u64, u64_modulus; nia). rewrite Hind. prog.
  destruct (runs_fold (retrieve_chunk_fixed a r d options) l M (decoded r)
    (uninit (Zprod (shape r) * d), replicate (optional_nesting_depth dt) (uninit (Zprod (shape r))))) as ([data masks] & Hrun & Hdec).
  - intros done_ c rest outputs Hlc Hdec. assert (c ∈ l) as [Hc Hm]%Hl by (rewrite Hlc; apply elem_of_app; right; apply list_elem_of_here).
    by apply decode_step.
  - by apply fresh_memory.
  - exists (with_masks (FixedBytes data) masks). split; [|by apply (decoded_all r l)]. eapply runs_bind; [exact Hrun|done].
Qed.

(** ** A region *)

(** The bytes of the region fit in memory: for variable-length data, those of its chunks do. *)
Definition output_fits (r : ArraySubset) : Prop :=
  match data_type_size dt with
  | FixedSize d => Zprod (shape r) * d < 2 ^ 63
  | VariableSize => ∃ B, 0 <= B ∧ (∀ c b, in_grid g c → meets a r c → chunk_holds a c (M !! key c) f b → array_bytes_size b <= B) ∧
      ∀ chunks, array_chunks_in_array_subset a r = Ok (Some chunks) → num_elements_usize chunks * B < 2 ^ 63
  end.

Lemma retrieve_array_subset_runs options r : region_in a r → output_fits r →
  ∃ out, runs (retrieve_array_subset_opt uninit a r options) M (Ok out) M ∧ holds out dt (contents f r).
Proof.
  intros Hr Hfits. destruct (region_chunks a Ha r Hr) as (chunks & l & Hchunks & Hind & Hnd & Hnum & Hst & Hl & Hbox).
  pose proof Hr as (Hrw & Hne & [Hla _] & Hr63). pose proof Hst as Hst'. apply Hl in Hst' as [Hcg Hcm].
  assert (l ≠ []) as Hlne by (intros ->; by apply not_elem_of_nil in Hst).
  unfold retrieve_array_subset_opt, dimensionality, dimensionality_. rewrite Hla, Nat.eqb_refl. cbn [negb]. rewrite Hchunks. prog. rewrite Hnum.
  destruct (Z.eqb_spec (zlen l) 0) as [H0l|_]; [destruct l; [done|simpl in H0l; lia]|].
  destruct (Z.eqb_spec (zlen l) 1) as [H1l|H1l].
  - rewrite array_chunk_subset_ok by done. prog. destruct (HM _ Hcg) as [b Hb].
    destruct (single_chunk a Ha r _ l Hr Hst Hl H1l) as [Hl1 Hcov].
    destruct (bool_decide_reflect (sub (start chunks) = r)) as [Heq|_].
    + exists b. split; [|rewrite <-Heq; by apply (chunk_holds_dt a Ha) in Hb as [? _]].
      by apply (runs_read (key (start chunks))); [apply retrieve_chunk_confined|apply (retrieve_chunk_ok a Ha _ _ f)].
    + destruct (relative_to_within (sub (start chunks)) r) as (Hrel & _); [by apply sub_wf|done..|]. rewrite Hrel. prog.
      destruct (retrieve_chunk_subset_ok a Ha _ _ f b r options Hcg Hb Hrw Hcov Hne) as (out & Hrun & Hh & _).
      exists out. split; [|done]. by apply (runs_read (key (start chunks))); [apply retrieve_chunk_subset_confined|].
  - rewrite array_chunk_shape_ok by done. prog. destruct (concurrency_ok a Ha _ _ Hcg eq_refl) as [rc ->]. prog.
    destruct (concurrency_chunks_and_codec _ _ _ _) as [limit options'].
    assert (∃ out, runs match fixed_size dt with
        | Some _ => retrieve_multi_chunk_fixed uninit a r chunks options'
        | None => retrieve_multi_chunk_variable a r chunks options' end M (Ok out) M ∧ holds out dt (contents f r)) as (out & Hrun & Hh).
    { pose proof (dt_fill_ok a Ha) as Hfill. unfold fill_ok in Hfill. unfold output_fits in Hfits. unfold fixed_size.
      destruct (data_type_size dt) as [d|] eqn:Hs.
      - apply (fixed_runs options' r d chunks l Hr Hs (proj1 Hfill) Hfits); [done|intros c; by apply Hl].
      - destruct (parts_exist options' r l Hr) as [qs Hqs]; [intros c; by apply Hl|].
        assert (∀ c, c ∈ l → in_grid g c ∧ meets a r c) as Hl' by (intros c; by apply Hl).
        apply (variable_runs options' r l qs chunks Hr Hnd); [intros c; by apply Hl|done..|].
        destruct Hfits as (B & HB & Hsz & Hfit). specialize (Hfit chunks Hchunks). rewrite Hnum in Hfit.
        pose proof (parts_size_le r l qs B Hl') as Hle. apply Z.le_lt_trans with (zlen l * B); [|done]. apply Hle; [|done].
        eapply Forall2_impl; [exact Hqs|]. by intros c q [? _]. }
    exists out. split; [|done]. eapply runs_bind; [exact Hrun|]. pose proof (holds_valid _ _ _ Hh) as Hval. rewrite contents_length in Hval by done.
    unfold num_elements. rewrite product64_wf by (split; [by apply subset_shape_nonneg|unfold u64_modulus; lia]). by rewrite Hval.
Qed.
End retrieve.

(** Whatever the store answers, the bytes of a region are valid. *)
Section yields.
Context {G K C : Type} `{LawfulChunkGrid G} `{LawfulChunkKeyEncoding K} `{LawfulArrayToBytesCodec C, !ValidatingArrayToBytesCodec C}.
Context (a : Array G K C) (Ha : array_wf a).

Lemma retrieve_array_subset_yields uninit options r : region_in a r →
  yields (retrieve_array_subset_opt uninit a r options) (λ out, validate_bytes out (Zprod (shape r)) (data_type a) = Ok tt).
Proof.
  intros Hr. destruct (region_chunks a Ha r Hr) as (chunks & l & Hchunks & Hind & Hnd & Hnum & Hst & Hl & Hbox).
  pose proof Hr as (Hrw & Hne & [Hla _] & Hr63). pose proof Hst as Hst'. apply Hl in Hst' as [Hcg Hcm].
  unfold retrieve_array_subset_opt, dimensionality, dimensionality_. rewrite Hla, Nat.eqb_refl. cbn [negb]. rewrite Hchunks. prog. rewrite Hnum.
  destruct (Z.eqb_spec (zlen l) 0) as [H0l|_]; [destruct l; [by apply not_elem_of_nil in Hst|simpl in H0l; lia]|].
  destruct (Z.eqb_spec (zlen l) 1) as [H1l|H1l].
  - rewrite array_chunk_subset_ok by done. prog. destruct (single_chunk a Ha r _ l Hr Hst Hl H1l) as [_ Hcov].
    destruct (bool_decide_reflect (region_of a (start chunks) = r)) as [Heq|_].
    + rewrite <-Heq. by apply retrieve_chunk_yields.
    + destruct (relative_to_within (region_of a (start chunks)) r) as (Hrel & _); [by apply sub_wf|done..|]. rewrite Hrel. prog.
      by apply retrieve_chunk_subset_yields.
  - rewrite array_chunk_shape_ok by done. prog. destruct (recommended_codec_concurrency a _) as [rc| |]; prog; [|done..].
    destruct (concurrency_chunks_and_codec _ _ _ _) as [limit options']. eapply yields_bind; [apply yields_true|]. intros b _.
    unfold num_elements. rewrite product64_wf by (split; [by apply subset_shape_nonneg|unfold u64_modulus; lia]).
    prog. by destruct (validate_bytes b _ _) as [[]| |] eqn:Hv.
Qed.
End yields.
