(* ===== verification/ArrayTheorems.v ===== *)
(** The operations of an array on a store.

    [StoreRegion] and [RetrieveRegion] say what the programs of the operations do to a map of keys;
    here they run on any store that refines such a map, serially or with the calls of their tasks
    in any order, and the invalid requests are those that make no call at all. *)

From S2P Require Import Prelude ArraySubset Linear Iterators ChunkGrid RegularGrid ByteRange StoreKey.
From S2P Require Import ChunkKey Storage MemoryStore ArrayBytes Elements Regions StoreProgram.
From S2P Require Import DecodeInto Concurrency Codec BytesCodec ArrayOps ArraySpec StoreRegion.
From S2P Require Import RetrieveRegion.

Section theorems.
Context {S : Type} (abs : S → gmap str bytes) `{HL : LawfulStorage S abs}.
Context {G K C : Type} `{LawfulChunkGrid G} `{LawfulChunkKeyEncoding K} `{LawfulArrayToBytesCodec C}.

(** C1: [store_array_subset_opt] writes the region.  On a well-formed array that holds the elements [f] in a
    lawful store, storing valid data with the elements [h] on a non-empty region of the array, where
    the chunks have room for the data, succeeds; the array then holds [h] on the region and [f] elsewhere,
    and no key but those of the chunks that the region meets has changed. *)
Theorem store_array_subset_spec (a : Array G K C) (f h : list Z → element) (options : CodecOptions) (r : ArraySubset) (data : ArrayBytes) (s : S) :
  array_wf a → empty_chunks_ok a options → experimental_partial_encoding options = false →
  region_in a r → holds data (data_type a) (contents h r) → array_holds a (abs s) f → rooms a f (abs s) r data →
  ∃ s', run (store_array_subset_opt a r data options) s = (s', Ok tt) ∧
    array_holds a (abs s') (overwrite f h r) ∧
    ∀ k, (∀ c, in_grid (chunk_grid a) c → meets a r c → k ≠ array_chunk_key a c) → abs s' !! k = abs s !! k.
Proof.
  intros Ha He Hp Hr Hd Hh Hroom. destruct (store_array_subset_runs a Ha f options r data h (abs s) He Hp Hr Hd Hh Hroom) as (M' & Hrun & Hw & Hk).
  destruct (run_runs abs _ _ _ _ Hrun) as (s' & Hs & <-). by exists s'.
Qed.

(** C2: [retrieve_array_subset_opt] reads the region.  On a well-formed array that holds the elements [f] in a lawful
    store, reading a non-empty region of the array that fits in memory succeeds, leaves the contents of the store as they are,
    and returns array bytes that are valid for the data type and hold [f] on the region; what the memory
    of the output held before it is decoded into does not matter. *)
Theorem retrieve_array_subset_spec (a : Array G K C) (f : list Z → element) (uninit : Z → bytes) (options : CodecOptions) (r : ArraySubset) (s : S) :
  array_wf a → (∀ n, 0 <= n → zlen (uninit n) = n) → array_holds a (abs s) f → region_in a r → output_fits a f (abs s) r →
  ∃ s' out, run (retrieve_array_subset_opt uninit a r options) s = (s', Ok out) ∧ abs s' = abs s ∧
    holds out (data_type a) (contents f r).
Proof.
  intros Ha Hu Hh Hr Hf. destruct (retrieve_array_subset_runs a Ha f (abs s) Hh uninit Hu options r Hr Hf) as (out & Hrun & Ho).
  destruct (run_runs abs _ _ _ _ Hrun) as (s' & Hs & Heq). by exists s', out.
Qed.

(** C3: what is written is read back.  For fixed-length data, storing [h] on a region and then reading any region [q] gives
    the elements of [h] where the regions overlap and the former elements elsewhere; reading back the
    region itself gives, for a data type without masks, exactly the bytes that were stored. *)
Theorem store_retrieve_roundtrip (a : Array G K C) (f h : list Z → element) (uninit : Z → bytes) (options : CodecOptions)
    (r q : ArraySubset) (data : ArrayBytes) (d : Z) (s : S) :
  array_wf a → (∀ n, 0 <= n → zlen (uninit n) = n) → empty_chunks_ok a options → experimental_partial_encoding options = false →
  region_in a r → region_in a q → data_type_size (data_type a) = FixedSize d → Zprod (shape q) * d < 2 ^ 63 →
  holds data (data_type a) (contents h r) → array_holds a (abs s) f → rooms a f (abs s) r data →
  ∃ s' out, run (let* _ := store_array_subset_opt a r data options in retrieve_array_subset_opt uninit a q options) s = (s', Ok out) ∧
    holds out (data_type a) (contents (overwrite f h r) q) ∧
    (q = r → data_type a = PlainType (FixedSize d) → out = data).
Proof.
  intros Ha Hu He Hp Hr Hq Hdt Hsz Hd Hh Hroom.
  destruct (store_array_subset_runs a Ha f options r data h (abs s) He Hp Hr Hd Hh Hroom) as (M' & Hrun & Hw & _).
  destruct (retrieve_array_subset_runs a Ha _ M' Hw uninit Hu options q Hq) as (out & Hrunq & Ho); [by unfold output_fits; rewrite Hdt|].
  destruct (run_runs abs (let* _ := store_array_subset_opt a r data options in retrieve_array_subset_opt uninit a q options) s (Ok out) M')
    as (s' & Hs & _); [by eapply runs_bind|].
  exists s', out. split_and!; [done..|]. intros -> Hplain. rewrite Hplain in Hd, Ho.
  rewrite (contents_ext _ h) in Ho by (apply Hr || (intros; apply overwrite_in; [apply Hr|done])). by eapply holds_fixed_inj.
Qed.

(** C4: the order of the store calls does not matter.  The tasks of the chunks that [store_array_subset_opt] gives to a parallel
    iterator, whichever calls are made in whichever order: there is no infinite schedule, and one that
    cannot go on has all its tasks done without error, the region written and no other key changed. *)
Theorem store_array_subset_any_schedule (a : Array G K C) (f h : list Z → element) (options : CodecOptions) (r chunks : ArraySubset)
    (l : list (list Z)) (data : ArrayBytes) (s : S) :
  array_wf a → empty_chunks_ok a options → experimental_partial_encoding options = false →
  region_in a r → holds data (data_type a) (contents h r) → array_holds a (abs s) f → rooms a f (abs s) r data →
  array_chunks_in_array_subset a r = Ok (Some chunks) → indices (E:=ArrayError) chunks = Ok l →
  Acc (λ y x, pool_step x y) (store_chunk_task a r data options <$> l, s) ∧
  ∀ pool, rtc pool_step (store_chunk_task a r data options <$> l, s) pool →
    (∃ pool', pool_step pool pool') ∨
    (Forall (λ p, p = Done (Ok tt)) pool.1 ∧ array_holds a (abs pool.2) (overwrite f h r) ∧
     ∀ k, (∀ c, in_grid (chunk_grid a) c → meets a r c → k ≠ array_chunk_key a c) → abs pool.2 !! k = abs s !! k).
Proof.
  intros Ha He Hp Hr Hd Hh Hroom Hc Hl. destruct (region_chunks a Ha r Hr) as (chunks' & l' & Hc' & Hl' & Hnd & _ & _ & Hmem & _).
  rewrite Hc in Hc'. injection Hc' as <-. rewrite Hl' in Hl. injection Hl as ->.
  destruct (store_tasks a Ha f options He Hp r data h (abs s) l Hr Hd Hh Hroom Hnd Hmem) as (tasks & Ht & Hndk & Hout & Hw & Hk).
  destruct (schedules_end abs tasks _ s Ht Hndk) as [Hacc Hend]. split; [done|]. intros pool Hpool.
  destruct (Hend pool Hpool) as [?|[-> ->]]; [by left|right]. split_and!; [|done|done].
  apply Forall_fmap. eapply Forall_impl; [exact Hout|]. simpl. by intros t ->.
Qed.

(** C5: what a read returns is valid.  Whatever the store holds or answers, when reading a region of a well-formed
    array succeeds the array bytes returned are valid for the data type and the number of elements of the region. *)
Theorem retrieve_array_subset_valid `{!ValidatingArrayToBytesCodec C} (a : Array G K C) (uninit : Z → bytes) (options : CodecOptions) (r : ArraySubset) (s s' : S) (out : ArrayBytes) :
  array_wf a → region_in a r → run (retrieve_array_subset_opt uninit a r options) s = (s', Ok out) →
  validate_bytes out (Zprod (shape r)) (data_type a) = Ok tt.
Proof. intros Ha Hr Hrun. exact (yields_run _ _ s s' out (retrieve_array_subset_yields a Ha uninit options r Hr) Hrun). Qed.

(** C6: invalid writes are rejected before the store is called.  On a well-formed array: a region of another dimensionality,
    data that is not valid for a region of the array, data that is not valid for a chunk, and a chunk subset
    that leaves its chunk give the error, in a program without any call. *)
Theorem invalid_writes_make_no_call (a : Array G K C) (options : CodecOptions) (data : ArrayBytes) :
  array_wf a →
  (∀ r, dimensionality r ≠ dimensionality_ a → store_array_subset_opt a r data options = Done (Err (InvalidArraySubset r (shape_ a)))) ∧
  (∀ r e, region_in a r → validate_bytes data (Zprod (shape r)) (data_type a) = Err e →
    store_array_subset_opt a r data options = Done (Err (ArrayCodecError e))) ∧
  (∀ c e, in_grid (chunk_grid a) c → validate_bytes data (Zprod (shape (region_of a c))) (data_type a) = Err e →
    store_chunk_opt a c data options = Done (Err (ArrayCodecError e))) ∧
  (∀ c o, in_grid (chunk_grid a) c → subset_wf o → length (start o) = length (start (region_of a c)) →
    ¬ in_array o (shape (region_of a c)) →
    store_chunk_subset_opt a c o data options = Done (Err (InvalidChunkSubset o c (shape (region_of a c))))).
Proof.
  intros Ha. split_and!; [|intros; by apply store_array_subset_invalid|intros; by apply store_chunk_invalid|intros; by apply store_chunk_subset_out].
  intros r Hr. unfold store_array_subset_opt. by rewrite (proj2 (Nat.eqb_neq _ _)).
Qed.
End theorems.

(** ** A small array, for the witnesses

    Big-endian 16-bit elements in a [5] by [4] array of [2] by [3] chunks, on a little-endian target. *)
#[local] Instance example_target : Target := Little.
#[local] Instance example_keys : ChunkKeyEncodingTraits DefaultChunkKeyEncoding := default_traits decimal.
#[local] Instance example_keys_lawful : LawfulChunkKeyEncoding DefaultChunkKeyEncoding :=
  default_lawful decimal (λ n _, decimal_digits n) decimal_inj.

Definition example_codec : BytesCodecBound := mk_bytes_codec (Some Big) (PlainType (FixedSize 2)) [0; 0] 2.

Definition example_encoding : DefaultChunkKeyEncoding := DefaultChunkKeyEncoding_new Slash.

Definition example_array : Array RegularChunkGrid DefaultChunkKeyEncoding BytesCodecBound :=
  mk_array _ _ _ (path_of [lit "a"]) (PlainType (FixedSize 2)) [0; 0] example_grid example_encoding example_codec false.

Definition example_options : CodecOptions := CodecOptions_default 4.

(** The elements (1,1) to (2,3), in all four chunks. *)
Definition example_region : ArraySubset := mk_subset [1; 1] [2; 3].

Definition example_elements : list bytes := [[1; 2]; [3; 4]; [5; 6]; [7; 8]; [9; 10]; [11; 12]].

Definition example_data : ArrayBytes := FixedBytes (concat example_elements).

Definition example_new : list Z → element := element_at (Value <$> example_elements) example_region.

Definition example_old : list Z → element := λ _, Value [0; 0].

Lemma example_chunk_shape c : in_grid (chunk_grid example_array) c → axes_size (grid_axes (chunk_grid example_array)) c = [2; 3].
Proof.
  intros Hc. destruct (regular_in_grid example_grid example_grid_wf c Hc) as (_ & Hl & _).
  destruct c as [|c0 [|c1 [|? ?]]]; simpl in Hl; (lia || done).
Qed.

Lemma example_array_wf : array_wf example_array.
Proof.
  constructor; try done.
  - apply example_grid_wf.
  - exists 2. constructor; try done. right. by exists Big.
  - intros c Hc. rewrite example_chunk_shape by done. split; [|done]. split; [by repeat constructor|done].
Qed.

Lemma example_region_in : region_in example_array example_region.
Proof. split_and!; [|done| |done]; (split; [done|]); intros [|[|j]] Hj; unfold u64_modulus; simpl in *; lia. Qed.

Lemma example_data_holds : holds example_data (PlainType (FixedSize 2)) (contents example_new example_region).
Proof.
  unfold example_new. rewrite contents_element_at by (by apply example_region_in || done). apply holds_fixed.
  exists example_elements. split_and!; [done|done| |done]. split; [lia|]. by repeat constructor.
Qed.

Lemma example_holds : array_holds example_array (memory_abs MemoryStore_new) example_old.
Proof. by apply (empty_array_holds example_array example_array_wf). Qed.

Lemma example_rooms : rooms example_array example_old (memory_abs MemoryStore_new) example_region example_data.
Proof.
  eapply (fixed_rooms example_array example_array_wf); [apply example_data_holds|apply example_region_in|done|].
  intros c Hc. unfold region_of, subset_of. cbn [shape]. by rewrite example_chunk_shape.
Qed.

Lemma store_array_subset_spec_witness :
  ∃ s', run (store_array_subset_opt example_array example_region example_data example_options) MemoryStore_new = (s', Ok tt) ∧
    array_holds example_array s' (overwrite example_old example_new example_region) ∧
    s' !! lit "a/c/0/0" = Some [0; 0; 0; 0; 0; 0; 0; 0; 2; 1; 4; 3].
Proof.
  destruct (store_array_subset_spec memory_abs example_array example_old example_new example_options example_region example_data MemoryStore_new)
    as (s' & Hs & Hh & _).
  - apply example_array_wf.
  - by right.
  - done.
  - apply example_region_in.
  - apply example_data_holds.
  - apply example_holds.
  - apply example_rooms.
  - exists s'. split_and!; [done|done|]. change s' with (s', Ok (E:=ArrayError) tt).1. rewrite <-Hs. vm_compute. reflexivity.
Defined.
(** The store after the write. *)
Definition example_store : MemoryStore :=
  (run (store_array_subset_opt example_array example_region example_data example_options) MemoryStore_new).1.

Lemma example_store_holds : array_holds example_array (memory_abs example_store) (overwrite example_old example_new example_region).
Proof.
  destruct (store_array_subset_runs example_array example_array_wf example_old example_options example_region example_data example_new
    (memory_abs MemoryStore_new)) as (M' & Hrun & Hw & _);
    [by right|done|apply example_region_in|apply example_data_holds|apply example_holds|apply example_rooms|].
  destruct (run_runs memory_abs _ _ _ _ Hrun) as (s' & Hs & <-). unfold example_store. by rewrite Hs.
Qed.

Definition example_uninit (n : Z) : bytes := replicate (Z.to_nat n) 255.

Lemma example_uninit_length n : 0 <= n → zlen (example_uninit n) = n.
Proof. intros Hn. unfold example_uninit. rewrite length_replicate. lia. Qed.

Lemma retrieve_array_subset_spec_witness :
  ∃ s' out, run (retrieve_array_subset_opt example_uninit example_array (mk_subset [0; 1] [3; 3]) example_options) example_store = (s', Ok out) ∧
    holds out (PlainType (FixedSize 2)) (contents (overwrite example_old example_new example_region) (mk_subset [0; 1] [3; 3])) ∧
    out = FixedBytes [0; 0; 0; 0; 0; 0; 1; 2; 3; 4; 5; 6; 7; 8; 9; 10; 11; 12].
Proof.
  destruct (retrieve_array_subset_spec memory_abs example_array (overwrite example_old example_new example_region) example_uninit
    example_options (mk_subset [0; 1] [3; 3]) example_store) as (s' & out & Hs & _ & Ho).
  - apply example_array_wf.
  - apply example_uninit_length.
  - apply example_store_holds.
  - split_and!; [|done| |done]; (split; [done|]); intros [|[|j]] Hj; unfold u64_modulus; simpl in *; lia.
  - done.
  - exists s', out. split_and!; [done|done|]. apply (f_equal snd) in Hs. vm_compute in Hs. by injection Hs as <-.
Defined.

Lemma store_retrieve_roundtrip_witness :
  ∃ s' out, run (let* _ := store_array_subset_opt example_array example_region example_data example_options in
      retrieve_array_subset_opt example_uninit example_array example_region example_options) MemoryStore_new = (s', Ok out) ∧
    out = example_data.
Proof.
  destruct (store_retrieve_roundtrip memory_abs example_array example_old example_new example_uninit example_options example_region
    example_region example_data 2 MemoryStore_new) as (s' & out & Hs & _ & Ho).
  - apply example_array_wf.
  - apply example_uninit_length.
  - by right.
  - done.
  - apply example_region_in.
  - apply example_region_in.
  - done.
  - done.
  - apply example_data_holds.
  - apply example_holds.
  - apply example_rooms.
  - exists s', out. split; [done|]. by apply Ho.
Defined.

Lemma store_array_subset_any_schedule_witness :
  Acc (λ y x, pool_step x y) (store_chunk_task example_array example_region example_data example_options <$>
      [[0; 0]; [0; 1]; [1; 0]; [1; 1]], MemoryStore_new) ∧
  ∀ pool, rtc pool_step (store_chunk_task example_array example_region example_data example_options <$>
      [[0; 0]; [0; 1]; [1; 0]; [1; 1]], MemoryStore_new) pool →
    (∃ pool', pool_step pool pool') ∨
    (Forall (λ p, p = Done (Ok tt)) pool.1 ∧ array_holds example_array pool.2 (overwrite example_old example_new example_region)).
Proof.
  destruct (store_array_subset_any_schedule memory_abs example_array example_old example_new example_options example_region
    (mk_subset [0; 0] [2; 2]) [[0; 0]; [0; 1]; [1; 0]; [1; 1]] example_data MemoryStore_new) as [Hacc Hend].
  - apply example_array_wf.
  - by right.
  - done.
  - apply example_region_in.
  - apply example_data_holds.
  - apply example_holds.
  - apply example_rooms.
  - reflexivity.
  - reflexivity.
  - split; [done|]. intros pool Hpool. destruct (Hend pool Hpool) as [?|(? & ? & _)]; [by left|by right].
Defined.

Lemma retrieve_array_subset_valid_witness :
  ∃ s' out, run (retrieve_array_subset_opt example_uninit example_array example_region example_options)
      (<[lit "a/c/0/0" := replicate 12 9]> MemoryStore_new) = (s', Ok out) ∧
    validate_bytes out 6 (PlainType (FixedSize 2)) = Ok tt.
Proof.
  destruct (run (retrieve_array_subset_opt example_uninit example_array example_region example_options)
    (<[lit "a/c/0/0" := replicate 12 9]> MemoryStore_new)) as [s' x] eqn:Hs.
  assert (∃ out, x = Ok out) as [out ->].
  { apply (f_equal snd) in Hs. vm_compute in Hs. rewrite <-Hs. by eexists. }
  exists s', out. split; [done|].
  apply (retrieve_array_subset_valid example_array example_uninit example_options example_region
    (<[lit "a/c/0/0" := replicate 12 9]> MemoryStore_new) s' out); [apply example_array_wf|apply example_region_in|done].
Defined.

Lemma invalid_writes_make_no_call_witness :
  store_array_subset_opt example_array example_region (FixedBytes [1; 2; 3]) example_options =
    Done (Err (ArrayCodecError (UnexpectedChunkDecodedSize 3 12))) ∧
  store_chunk_subset_opt example_array [0; 0] example_region example_data example_options =
    Done (Err (InvalidChunkSubset example_region [0; 0] (shape (region_of example_array [0; 0])))).
Proof.
  destruct (invalid_writes_make_no_call example_array example_options (FixedBytes [1; 2; 3]) example_array_wf) as (_ & H1 & _).
  destruct (invalid_writes_make_no_call example_array example_options example_data example_array_wf) as (_ & _ & _ & H2).
  split; [apply H1; [apply example_region_in|reflexivity]|].
  apply (H2 [0; 0] example_region); [split; [by repeat constructor|done]|apply example_region_in|done|].
  intros [_ Hin]. specialize (Hin 0%nat ltac:(simpl; lia)). simpl in Hin. lia.
Defined.
