(* ===== verification/BytesToBytes.v ===== *)
(** Bytes to bytes codecs: [zarrs_codec/src/codec_traits/bytes_to_bytes.rs], what they inherit from
    [codec_partial_default.rs], and the checksum and shuffle codecs of
    [zarrs/src/array/codec/bytes_to_bytes].

    A codec reads a chunk through the handle of the codec below it.  [LawfulBytesToBytesCodec] is what a
    codec promises: decoding undoes encoding, and its partial decoder gives the decoded
    value from any offset on, or any range of it when the codec says that it supports partial
    decoding. *)

From S2P Require Import Prelude ByteRange StoreKey Storage ArrayBytes Elements StoreProgram.
From S2P Require Import DecodeInto Concurrency Codec.

Class BytesToBytesCodecTraits (B : Type) := {
  b2b_partial_decoder_capability : B → PartialDecoderCapability;
  b2b_partial_encoder_capability : B → bool;
  b2b_recommended_concurrency : B → BytesRepresentation → outcome CodecError RecommendedConcurrency;
  b2b_encoded_representation : B → BytesRepresentation → BytesRepresentation;
  b2b_encode : B → bytes → CodecOptions → outcome CodecError bytes;
  b2b_decode : B → bytes → BytesRepresentation → CodecOptions → outcome CodecError bytes;
  b2b_partial_decoder : B → BytesHandle → BytesRepresentation → CodecOptions → prog CodecError BytesHandle;
  b2b_partial_encoder : B → BytesEncodeHandle → BytesRepresentation → CodecOptions → prog CodecError BytesEncodeHandle;
}.

(** ** What a codec inherits *)

Section defaults.
Context (encode : bytes → CodecOptions → outcome CodecError bytes).
Context (decode : bytes → BytesRepresentation → CodecOptions → outcome CodecError bytes).

(** [partial_decode_many] of [BytesToBytesCodecPartialDefault]. *)
Definition b2b_default_partial_decode_many (input_handle : BytesHandle) (decoded_representation : BytesRepresentation)
    (options : CodecOptions) (decoded_regions : list ByteRange) : prog CodecError (option (list bytes)) :=
  let* encoded_value := bytes_decode input_handle in
  match encoded_value with
  | None => preturn None
  | Some encoded_value =>
      let* decoded_value := plift (decode encoded_value decoded_representation options) in
      let* v := plift (map_err CodecInvalidByteRange (extract_byte_ranges decoded_value decoded_regions)) in
      preturn (Some v)
  end.

Definition b2b_default_handle (input_handle : BytesHandle) (decoded_representation : BytesRepresentation) (options : CodecOptions) : BytesHandle := {|
  bytes_exists := bytes_exists input_handle;
  bytes_partial_decode_many := b2b_default_partial_decode_many input_handle decoded_representation options |}.

Definition b2b_default_partial_decoder (input_handle : BytesHandle) (decoded_representation : BytesRepresentation)
    (options : CodecOptions) : prog CodecError BytesHandle :=
  preturn (b2b_default_handle input_handle decoded_representation options).

(** [partial_encode_many] of [BytesToBytesCodecPartialDefault]. *)
Definition b2b_default_partial_encode_many (input_output_handle : BytesEncodeHandle) (decoded_representation : BytesRepresentation)
    (options : CodecOptions) (offset_values : list (Z * bytes)) : prog CodecError unit :=
  let* encoded_value := bytes_decode input_output_handle in
  let* decoded_value :=
    match encoded_value with
    | Some encoded_value => plift (decode encoded_value decoded_representation options)
    | None => preturn []
    end in
  let* decoded_value := plift (update_loop decoded_value offset_values) in
  let* bytes_encoded := plift (encode decoded_value options) in
  bytes_partial_encode input_output_handle 0 bytes_encoded.

Definition b2b_default_partial_encoder (input_output_handle : BytesEncodeHandle) (decoded_representation : BytesRepresentation)
    (options : CodecOptions) : prog CodecError BytesEncodeHandle :=
  preturn {|
    bytes_decoder := b2b_default_handle input_output_handle decoded_representation options;
    bytes_erase := bytes_erase input_output_handle;
    bytes_partial_encode_many := b2b_default_partial_encode_many input_output_handle decoded_representation options |}.
End defaults.

(** ** What a codec promises *)

Class LawfulBytesToBytesCodec (B : Type) `{!BytesToBytesCodecTraits B} := {
  b2b_wf : B → Prop;
  (** the values of the representation can be encoded *)
  b2b_accepts : B → BytesRepresentation → Prop;
  (** a bound on the size of an encoding *)
  b2b_encoded_limit : B → Z → Z;
  (** the encodings of a value *)
  b2b_encodes : B → BytesRepresentation → bytes → bytes → Prop;
  (** the partial decoder reads to the end of a value from that much further *)
  b2b_offset : B → Z;
  b2b_concurrency_law c rep : b2b_wf c → is_Ok (b2b_recommended_concurrency c rep);
  b2b_decode_law c rep options enc b : b2b_wf c → b2b_encodes c rep enc b → b2b_decode c enc rep options = Ok b;
  b2b_roundtrip c rep options b n : b2b_wf c → b2b_accepts c rep → rep_admits rep (zlen b) → zlen b <= n →
    b2b_encoded_limit c n < u64_modulus →
    ∃ enc, b2b_encode c b options = Ok enc ∧ zlen enc <= b2b_encoded_limit c n ∧ b2b_encodes c rep enc b ∧
      rep_admits (b2b_encoded_representation c rep) (zlen enc);
  (** decoding does not make a value longer than a [u64] can say *)
  b2b_decoded_size c rep enc b : b2b_wf c → b2b_encodes c rep enc b → zlen enc < u64_modulus → zlen b < u64_modulus;
  b2b_offset_law c : b2b_wf c → 0 <= b2b_offset c <= 8;
  b2b_tails_law c rep options h key v w w' n : b2b_wf c → 0 <= n <= 2 ^ 62 → handle_tails (n + b2b_offset c) h key v w →
    option_Forall2 (λ enc b, zlen enc < u64_modulus ∧ b2b_encodes c rep enc b) w w' →
    ∃ h', runs_at (b2b_partial_decoder c h rep options) v (Ok h') v ∧ handle_tails n h' key v w';
  b2b_reads_law c rep options h key v w w' n : b2b_wf c → can_partial_decode (b2b_partial_decoder_capability c) = true →
    0 <= n <= 2 ^ 62 → handle_reads (n + b2b_offset c) h key v w → option_Forall2 (λ enc b, zlen enc < u64_modulus ∧ b2b_encodes c rep enc b) w w' →
    ∃ h', runs_at (b2b_partial_decoder c h rep options) v (Ok h') v ∧ handle_reads n h' key v w';
  b2b_partial_confined c rep options h key : (∀ rs, confined key (bytes_partial_decode_many h rs)) →
    confines key (b2b_partial_decoder c h rep options) (λ h', ∀ rs, confined key (bytes_partial_decode_many h' rs));
}.

Lemma option_Forall2_mono {A B} (P Q : A → B → Prop) o p : option_Forall2 P o p → (∀ a b, P a b → Q a b) → option_Forall2 Q o p.
Proof. intros [a b Hab|] Hi; constructor. by apply Hi. Qed.

Lemma b2b_default_confined decode h key rep options : (∀ rs, confined key (bytes_partial_decode_many h rs)) →
  ∀ rs, confined key (bytes_partial_decode_many (b2b_default_handle decode h rep options) rs).
Proof.
  intros Hc rs. cbn [bytes_partial_decode_many b2b_default_handle]. unfold b2b_default_partial_decode_many.
  apply confined_bind; [by apply bytes_decode_confined|]. intros [enc|]; prog; [|done].
  by destruct (decode enc rep options) as [b| |]; prog; [destruct (extract_byte_ranges b rs)|..].
Qed.

(** The inherited partial decoder reads any range of the decoded value. *)
Lemma b2b_default_reads decode m n h key v w w' rep options : 0 <= n → handle_tails n h key v w →
  option_Forall2 (λ enc b, zlen enc < u64_modulus ∧ decode enc rep options = Ok b) w w' →
  handle_reads m (b2b_default_handle decode h rep options) key v w'.
Proof.
  intros Hn Ht Hw. split; [apply b2b_default_confined, Ht|].
  intros rs _ Hrs. cbn [bytes_partial_decode_many b2b_default_handle]. unfold b2b_default_partial_decode_many. eapply runs_at_bind.
    { eapply (tails_decode n); [done|exact Ht|]. intros b ->. by inversion_clear Hw as [? ? []|]. }
    destruct Hw as [enc b [Hl Hd]|]; [|done]. prog. rewrite Hd. prog.
    destruct (Hrs b eq_refl) as (Hb & Ho & Hin). by rewrite extract_byte_ranges_within by done.
Qed.

(** ** Codecs of several kinds

    [Arc<dyn BytesToBytesCodecTraits>]: a codec of one of two types. *)
Section kinds.
Context {B1 B2 : Type} `{!BytesToBytesCodecTraits B1, !BytesToBytesCodecTraits B2}.

#[export] Instance b2b_sum_traits : BytesToBytesCodecTraits (B1 + B2) := {|
  b2b_partial_decoder_capability c := match c with inl c => b2b_partial_decoder_capability c | inr c => b2b_partial_decoder_capability c end;
  b2b_partial_encoder_capability c := match c with inl c => b2b_partial_encoder_capability c | inr c => b2b_partial_encoder_capability c end;
  b2b_recommended_concurrency c := match c with inl c => b2b_recommended_concurrency c | inr c => b2b_recommended_concurrency c end;
  b2b_encoded_representation c := match c with inl c => b2b_encoded_representation c | inr c => b2b_encoded_representation c end;
  b2b_encode c := match c with inl c => b2b_encode c | inr c => b2b_encode c end;
  b2b_decode c := match c with inl c => b2b_decode c | inr c => b2b_decode c end;
  b2b_partial_decoder c := match c with inl c => b2b_partial_decoder c | inr c => b2b_partial_decoder c end;
  b2b_partial_encoder c := match c with inl c => b2b_partial_encoder c | inr c => b2b_partial_encoder c end |}.

#[export] Program Instance b2b_sum_lawful `{!LawfulBytesToBytesCodec B1, !LawfulBytesToBytesCodec B2} : LawfulBytesToBytesCodec (B1 + B2) := {|
  b2b_wf c := match c with inl c => b2b_wf c | inr c => b2b_wf c end;
  b2b_accepts c := match c with inl c => b2b_accepts c | inr c => b2b_accepts c end;
  b2b_encoded_limit c := match c with inl c => b2b_encoded_limit c | inr c => b2b_encoded_limit c end;
  b2b_encodes c := match c with inl c => b2b_encodes c | inr c => b2b_encodes c end;
  b2b_offset c := match c with inl c => b2b_offset c | inr c => b2b_offset c end |}.
Next Obligation. intros L1 L2 [c|c]; [apply L1|apply L2]. Qed.
Next Obligation. intros L1 L2 [c|c]; [apply L1|apply L2]. Qed.
Next Obligation. intros L1 L2 [c|c]; [apply L1|apply L2]. Qed.
Next Obligation. intros L1 L2 [c|c]; [apply L1|apply L2]. Qed.
Next Obligation. intros L1 L2 [c|c]; [apply L1|apply L2]. Qed.
Next Obligation. intros L1 L2 [c|c]; [apply L1|apply L2]. Qed.
Next Obligation. intros L1 L2 [c|c]; [apply L1|apply L2]. Qed.
Next Obligation. intros L1 L2 [c|c]; [apply L1|apply L2]. Qed.
End kinds.
