(* ===== verification/Checksums.v ===== *)
(** The checksum codecs of [zarrs/src/array/codec/bytes_to_bytes]: [crc32c_codec.rs],
    [adler32_codec.rs] and [fletcher32_codec.rs], with the partial decoders that leave the
    checksum out ([strip_suffix_partial_decoder.rs], [strip_prefix_partial_decoder.rs]).

    The checksums of crc32c and adler32 come from other crates: they are the operations of
    [ChecksumCrates].  That of fletcher32 is computed in the repository. *)

From S2P Require Import Prelude ByteRange StoreKey Storage ArrayBytes Elements StoreProgram.
From S2P Require Import DecodeInto Concurrency Codec BytesToBytes.

(** ** Partial decoders *)

(** [bytes.truncate(bytes.len() - self.suffix_size)]; [truncate] keeps a shorter value. *)
Definition truncate_suffix (b : bytes) (suffix_size : Z) : bytes := take (Z.to_nat (zlen b -w suffix_size)) b.

Definition strip_suffix_region (input_handle : BytesHandle) (suffix_size : Z) (decoded_region : ByteRange)
    : prog CodecError (option bytes) :=
  let* b := bytes_partial_decode input_handle decoded_region in
  preturn ((λ b, match decoded_region with FromStart _ (Some _) => b | _ => truncate_suffix b suffix_size end) <$> b).

(** [collect] of the regions into a [Result] of an [Option]: the first region that gives [None] ends it. *)
Fixpoint strip_suffix_regions (input_handle : BytesHandle) (suffix_size : Z) (decoded_regions : list ByteRange)
    : prog CodecError (option (list bytes)) :=
  match decoded_regions with
  | [] => preturn (Some [])
  | decoded_region :: decoded_regions =>
      let* b := strip_suffix_region input_handle suffix_size decoded_region in
      match b with
      | None => preturn None
      | Some b =>
          let* bs := strip_suffix_regions input_handle suffix_size decoded_regions in
          preturn (cons b <$> bs)
      end
  end.

Definition strip_suffix_handle (input_handle : BytesHandle) (suffix_size : Z) : BytesHandle := {|
  bytes_exists := bytes_exists input_handle;
  bytes_partial_decode_many := strip_suffix_regions input_handle suffix_size |}.

Definition prefix_region (prefix_size : Z) (range : ByteRange) : outcome CodecError ByteRange :=
  match range with
  | FromStart offset length => let? offset := expect (checked_add offset prefix_size) in Ok (FromStart offset length)
  | Suffix length => Ok (Suffix length)
  end.

(** The ranges are computed when the handle is called. *)
Definition strip_prefix_handle (input_handle : BytesHandle) (prefix_size : Z) : BytesHandle := {|
  bytes_exists := bytes_exists input_handle;
  bytes_partial_decode_many := λ decoded_regions,
    let* decoded_regions := plift (collect_res (prefix_region prefix_size <$> decoded_regions)) in
    bytes_partial_decode_many input_handle decoded_regions |}.

(** ** The encoding of a checksum *)

Inductive ChecksumLocation := LocationStart | LocationEnd.
#[global] Instance ChecksumLocation_eq_dec : EqDecision ChecksumLocation.
Proof. solve_decision. Defined.

Definition CHECKSUM_SIZE : Z := 4.

(** [u32::to_le_bytes]. *)
Definition u32_to_le_bytes (x : Z) : bytes := (λ i, Z.land (Z.shiftr x (8 * i)) 255) <$> seqZ 0 4.

Definition append_checksum (location : ChecksumLocation) (checksum decoded_value : bytes) : bytes :=
  match location with LocationEnd => decoded_value ++ checksum | LocationStart => checksum ++ decoded_value end.

(** The data, and the stored checksum. *)
Definition split_checksum (location : ChecksumLocation) (encoded_value : bytes) : bytes * bytes :=
  let n := (length encoded_value - Z.to_nat CHECKSUM_SIZE)%nat in
  match location with
  | LocationEnd => (take n encoded_value, drop n encoded_value)
  | LocationStart => (drop (Z.to_nat CHECKSUM_SIZE) encoded_value, take (Z.to_nat CHECKSUM_SIZE) encoded_value)
  end.

Definition check_decode (checksum : bytes → Z) (location : ChecksumLocation) (encoded_value : bytes) (options : CodecOptions)
    : outcome CodecError bytes :=
  if CHECKSUM_SIZE <=? zlen encoded_value then
    let '(data, checksum_stored) := split_checksum location encoded_value in
    if validate_checksums options && bool_decide (u32_to_le_bytes (checksum data) ≠ checksum_stored) then Err InvalidChecksum
    else Ok data
  else Err CodecOther.

Definition checksum_representation (decoded_representation : BytesRepresentation) : BytesRepresentation :=
  match decoded_representation with
  | BytesFixedSize size => BytesFixedSize (size +w CHECKSUM_SIZE)
  | BytesBoundedSize size => BytesBoundedSize (size +w CHECKSUM_SIZE)
  | BytesUnboundedSize => BytesUnboundedSize
  end.

Definition no_partial : PartialDecoderCapability := {| partial_read := false; can_partial_decode := false |}.

(** [crc32c::crc32c], and what [simd_adler32::Adler32] finishes with. *)
Class ChecksumCrates := { crc32c : bytes → Z; adler32 : bytes → Z }.

(** ** fletcher32 *)

Definition wrap32 (z : Z) : Z := z mod 2 ^ 32.

(** The loop on [tlen] pairs of bytes. *)
Fixpoint fletcher_block (tlen : nat) (data : bytes) (data_idx : nat) (sum1 sum2 : Z) : nat * Z * Z :=
  match tlen with
  | O => (data_idx, sum1, sum2)
  | S tlen =>
      let sum1 := wrap32 (sum1 + Z.lor (Z.shiftl (data !!! data_idx) 8) (data !!! S data_idx)) in
      fletcher_block tlen data (data_idx + 2) sum1 (wrap32 (sum2 + sum1))
  end.

Definition fold16 (sum : Z) : Z := wrap32 (Z.land sum 65535 + Z.shiftr sum 16).

(** The loop on blocks of 360 pairs, with the pairs left when it ends; [fuel] is at least the number of pairs left. *)
Fixpoint fletcher_blocks (fuel : nat) (len : nat) (data : bytes) (data_idx : nat) (sum1 sum2 : Z) : nat * nat * Z * Z :=
  match fuel, len with
  | S fuel, S _ =>
      let tlen := Nat.min len 360 in
      let '(data_idx, sum1, sum2) := fletcher_block tlen data data_idx sum1 sum2 in
      fletcher_blocks fuel (len - tlen) data data_idx (fold16 sum1) (fold16 sum2)
  | _, _ => (len, data_idx, sum1, sum2)
  end.

Definition h5_checksum_fletcher32 (data : bytes) : Z :=
  let len := Nat.div (length data) 2 in
  let '(len, data_idx, sum1, sum2) := fletcher_blocks len len data 0 0 0 in
  let '(sum1, sum2) :=
    if Nat.odd len then
      let sum1 := wrap32 (sum1 + Z.shiftl (data !!! data_idx) 8) in
      let sum2 := wrap32 (sum2 + sum1) in
      (fold16 sum1, fold16 sum2)
    else (sum1, sum2) in
  let sum1 := fold16 sum1 in
  let sum2 := fold16 sum2 in
  Z.lor (wrap32 (Z.shiftl sum2 16)) sum1.

(** ** The codecs *)

Inductive ChecksumCodec := Crc32cCodec (location : ChecksumLocation) | Adler32Codec (location : ChecksumLocation) | Fletcher32Codec.

Section codecs.
Context `{!ChecksumCrates}.

Definition crc32c_encode (location : ChecksumLocation) (decoded_value : bytes) : outcome CodecError bytes :=
  let checksum := u32_to_le_bytes (crc32c decoded_value) in
  Ok (match location with LocationEnd => decoded_value ++ checksum | LocationStart => checksum ++ decoded_value end).

Definition crc32c_decode (location : ChecksumLocation) (encoded_value : bytes) (options : CodecOptions) : outcome CodecError bytes :=
  check_decode crc32c location encoded_value options.

Definition crc32c_partial_decoder (location : ChecksumLocation) (input_handle : BytesHandle) : prog CodecError BytesHandle :=
  preturn (match location with
           | LocationEnd => strip_suffix_handle input_handle CHECKSUM_SIZE
           | LocationStart => strip_prefix_handle input_handle CHECKSUM_SIZE end).

Definition adler32_encode (location : ChecksumLocation) (decoded_value : bytes) : outcome CodecError bytes :=
  let checksum := u32_to_le_bytes (adler32 decoded_value) in
  Ok (match location with LocationStart => checksum ++ decoded_value | LocationEnd => decoded_value ++ checksum end).

Definition adler32_decode (location : ChecksumLocation) (encoded_value : bytes) (options : CodecOptions) : outcome CodecError bytes :=
  check_decode adler32 location encoded_value options.

Definition adler32_partial_decoder (location : ChecksumLocation) (input_handle : BytesHandle) : prog CodecError BytesHandle :=
  preturn (match location with
           | LocationStart => strip_prefix_handle input_handle CHECKSUM_SIZE
           | LocationEnd => strip_suffix_handle input_handle CHECKSUM_SIZE end).

Definition fletcher32_encode (decoded_value : bytes) : outcome CodecError bytes :=
  let checksum := u32_to_le_bytes (h5_checksum_fletcher32 decoded_value) in
  Ok (decoded_value ++ checksum).

Definition fletcher32_decode (encoded_value : bytes) (options : CodecOptions) : outcome CodecError bytes :=
  check_decode h5_checksum_fletcher32 LocationEnd encoded_value options.

Definition fletcher32_partial_decoder (input_handle : BytesHandle) : prog CodecError BytesHandle :=
  preturn (strip_suffix_handle input_handle CHECKSUM_SIZE).

Definition checksum_encode (self : ChecksumCodec) (decoded_value : bytes) (options : CodecOptions) : outcome CodecError bytes :=
  match self with
  | Crc32cCodec location => crc32c_encode location decoded_value
  | Adler32Codec location => adler32_encode location decoded_value
  | Fletcher32Codec => fletcher32_encode decoded_value
  end.

Definition checksum_decode (self : ChecksumCodec) (encoded_value : bytes) (rep : BytesRepresentation) (options : CodecOptions)
    : outcome CodecError bytes :=
  match self with
  | Crc32cCodec location => crc32c_decode location encoded_value options
  | Adler32Codec location => adler32_decode location encoded_value options
  | Fletcher32Codec => fletcher32_decode encoded_value options
  end.

Definition checksum_partial_decoder (self : ChecksumCodec) (input_handle : BytesHandle) (rep : BytesRepresentation) (options : CodecOptions)
    : prog CodecError BytesHandle :=
  match self with
  | Crc32cCodec location => crc32c_partial_decoder location input_handle
  | Adler32Codec location => adler32_partial_decoder location input_handle
  | Fletcher32Codec => fletcher32_partial_decoder input_handle
  end.

#[export] Instance checksum_traits : BytesToBytesCodecTraits ChecksumCodec := {|
  b2b_partial_decoder_capability _ := no_partial;
  b2b_partial_encoder_capability _ := false;
  b2b_recommended_concurrency _ _ := Ok (new_maximum 1);
  b2b_encoded_representation _ := checksum_representation;
  b2b_encode := checksum_encode;
  b2b_decode := checksum_decode;
  b2b_partial_decoder := checksum_partial_decoder;
  b2b_partial_encoder c := b2b_default_partial_encoder (checksum_encode c) (checksum_decode c) |}.

(** ** Correctness *)

Definition checksum_of (self : ChecksumCodec) : bytes → Z :=
  match self with Crc32cCodec _ => crc32c | Adler32Codec _ => adler32 | Fletcher32Codec => h5_checksum_fletcher32 end.

Definition location_of (self : ChecksumCodec) : ChecksumLocation :=
  match self with Crc32cCodec location | Adler32Codec location => location | Fletcher32Codec => LocationEnd end.

(** The value with its checksum. *)
Definition checksummed (self : ChecksumCodec) (b : bytes) : bytes :=
  append_checksum (location_of self) (u32_to_le_bytes (checksum_of self b)) b.

Lemma checksum_encode_eq c b options : checksum_encode c b options = Ok (checksummed c b).
Proof. by destruct c as [[]|[]|]. Qed.

Lemma checksum_decode_eq c enc rep options : checksum_decode c enc rep options = check_decode (checksum_of c) (location_of c) enc options.
Proof. by destruct c as [[]|[]|]. Qed.

Lemma checksum_decoder_eq c h rep options : checksum_partial_decoder c h rep options =
  preturn (match location_of c with
           | LocationEnd => strip_suffix_handle h CHECKSUM_SIZE
           | LocationStart => strip_prefix_handle h CHECKSUM_SIZE end).
Proof. by destruct c as [[]|[]|]. Qed.

Lemma zlen_checksummed c b : zlen (checksummed c b) = zlen b + 4.
Proof. unfold checksummed, append_checksum. destruct (location_of c); rewrite length_app; simpl; lia. Qed.

Lemma split_checksummed loc ck b : length ck = 4%nat → split_checksum loc (append_checksum loc ck b) = (b, ck).
Proof.
  intros Hck. unfold split_checksum, append_checksum. change (Z.to_nat CHECKSUM_SIZE) with 4%nat. cbv zeta.
  destruct loc; rewrite ?length_app; rewrite take_app_length', drop_app_length' by lia; done.
Qed.

Lemma check_decode_ok c b options : check_decode (checksum_of c) (location_of c) (checksummed c b) options = Ok b.
Proof.
  unfold check_decode. rewrite zlen_checksummed, (proj2 (Z.leb_le _ _)) by (unfold CHECKSUM_SIZE; lia).
  unfold checksummed. rewrite split_checksummed by done. rewrite bool_decide_false by auto. by rewrite andb_false_r.
Qed.

(** A value is refused when its checksum is wrong and is to be validated. *)
Lemma check_decode_inv c enc options b : validate_checksums options = true →
  check_decode (checksum_of c) (location_of c) enc options = Ok b → enc = checksummed c b.
Proof.
  intros Hv. unfold check_decode. rewrite Hv. destruct (Z.leb_spec CHECKSUM_SIZE (zlen enc)) as [Hl|]; [|done].
  destruct (split_checksum (location_of c) enc) as [data ck] eqn:Hs.
  case_bool_decide as Hck; [done|]. intros [= ->]. unfold checksummed. rewrite Hck.
  unfold split_checksum in Hs. destruct (location_of c); injection Hs as <- <-; simpl; by rewrite take_drop.
Qed.

Lemma option_fmap_total {A B} (f : A → B) (o : option A) : f <$> o = match o with Some a => Some (f a) | None => None end.
Proof. by destruct o. Qed.

Lemma strip_suffix_confined h key n rs : (∀ rs, confined key (bytes_partial_decode_many h rs)) →
  confined key (strip_suffix_regions h n rs).
Proof.
  intros Hc. induction rs as [|r rs IH]; [done|]. cbn [strip_suffix_regions].
  apply confined_bind; [|intros [b|]; [by apply confined_bind|done]]. apply confined_bind; [|done].
  apply confined_bind; [apply Hc|]. intros [l|]; [|done]. by destruct (last l).
Qed.

Lemma strip_suffix_tails n h key v w w' : 0 <= n → handle_tails n h key v w →
  option_Forall2 (λ enc b, zlen enc < u64_modulus ∧ ∃ ck, length ck = 4%nat ∧ enc = b ++ ck) w w' →
  handle_tails n (strip_suffix_handle h CHECKSUM_SIZE) key v w'.
Proof.
  intros Hn [Hc Hr] Hw. split.
  - intros rs. by apply strip_suffix_confined.
  - intros o [Ho Hb].
    assert (runs_at (strip_suffix_region h CHECKSUM_SIZE (FromStart o None)) v (Ok (drop (Z.to_nat o) <$> w')) v) as Hreg.
    { unfold strip_suffix_region. destruct Hw as [enc b [He (ck & Hck & ->)]|].
      - rewrite length_app in He. eapply runs_at_bind; [apply Hr; split; [done|]; rewrite length_app; lia|].
        prog. split; [|done]. simpl. do 2 f_equal. unfold truncate_suffix, CHECKSUM_SIZE.
        rewrite drop_app_le, length_app, length_drop by lia. rewrite wrap64_small by (unfold is_u64, u64_modulus in *; lia).
        rewrite take_app_length' by (rewrite length_drop; lia). done.
      - eapply runs_at_bind; [apply Hr; split; [done|lia]|]. by prog. }
    unfold bytes_partial_decode at 1. cbn [bytes_partial_decode_many strip_suffix_handle strip_suffix_regions].
    destruct w' as [b|]; (eapply runs_at_bind; [eapply runs_at_bind; [exact Hreg|by prog]|by prog]).
Qed.

Lemma strip_prefix_tails n h key v w w' : 0 <= n <= 2 ^ 62 → handle_tails (n + 4) h key v w →
  option_Forall2 (λ enc b, zlen enc < u64_modulus ∧ ∃ ck, length ck = 4%nat ∧ enc = ck ++ b) w w' →
  handle_tails n (strip_prefix_handle h CHECKSUM_SIZE) key v w'.
Proof.
  intros Hn [Hc Hr] Hw. split.
  - intros rs. cbn [bytes_partial_decode_many strip_prefix_handle]. by destruct (collect_res _) as [l| |]; prog; [apply Hc|..].
  - intros o [Ho Hb]. unfold bytes_partial_decode at 1. cbn [bytes_partial_decode_many strip_prefix_handle].
    assert (checked_add o CHECKSUM_SIZE = Some (o + 4)) as Hadd.
    { apply checked_add_Some. unfold CHECKSUM_SIZE, u64_modulus in *.
      destruct Hw as [enc b [He (ck & Hck & ->)]|]; [rewrite length_app in He|]; lia. }
    cbn [fmap list_fmap prefix_region]. rewrite Hadd. cbn [expect obind collect_res omap_ok plift]. prog.
    destruct Hw as [enc b [He (ck & Hck & ->)]|].
    + rewrite length_app in He. replace (drop (Z.to_nat o) <$> Some b) with (drop (Z.to_nat (o + 4)) <$> Some (ck ++ b))
        by (simpl; f_equal; rewrite drop_app_ge by lia; f_equal; lia).
      apply Hr. split; [lia|]. rewrite length_app. lia.
    + apply (Hr (o + 4)). split; [lia|]. simpl. lia.
Qed.

#[export] Program Instance checksum_lawful : LawfulBytesToBytesCodec ChecksumCodec := {|
  b2b_wf _ := True;
  b2b_accepts _ rep := match representation_size rep with Some n => 0 <= n ∧ n + 4 < u64_modulus | None => True end;
  b2b_encoded_limit _ n := n + 4;
  b2b_encodes c _ enc b := enc = checksummed c b;
  b2b_offset c := match location_of c with LocationStart => CHECKSUM_SIZE | LocationEnd => 0 end |}.
Next Obligation. by eexists. Qed.
Next Obligation. intros c rep options enc b _ ->. cbn [b2b_decode checksum_traits]. rewrite checksum_decode_eq. apply check_decode_ok. Qed.
Next Obligation.
  intros c rep options b n _ Ha Hr Hb Hn. exists (checksummed c b). cbn [b2b_encode checksum_traits b2b_encoded_representation].
  rewrite checksum_encode_eq, zlen_checksummed. split_and!; [done|lia|done|].
  destruct rep as [m|m|]; simpl in *; [..|done]; unfold CHECKSUM_SIZE; rewrite wrap64_small by (split; lia); lia.
Qed.
Next Obligation. intros c rep enc b _ -> Hl. rewrite zlen_checksummed in Hl. lia. Qed.
Next Obligation. intros c _. cbv beta. destruct (location_of c); unfold CHECKSUM_SIZE; lia. Qed.
Next Obligation.
  intros c rep options h key v w w' n _ Hn Ht Hw. cbv beta in Ht. cbn [b2b_partial_decoder checksum_traits]. rewrite checksum_decoder_eq.
  eexists. split; [by prog|]. destruct (location_of c) eqn:Hloc; [eapply strip_prefix_tails|rewrite Z.add_0_r in Ht; eapply strip_suffix_tails]; try done; try lia;
    (eapply option_Forall2_mono; [exact Hw|]);  simpl; intros enc b [He ->]; (split; [done|]); unfold checksummed; rewrite Hloc; by exists (u32_to_le_bytes (checksum_of c b)).
Qed.
Next Obligation. intros c rep options h key v w w' n _. destruct c as [[]|[]|]; done. Qed.
Next Obligation.
  intros c rep options h key Hc. cbn [b2b_partial_decoder checksum_traits]. rewrite checksum_decoder_eq. simpl. intros rs.
  destruct (location_of c); cbn [bytes_partial_decode_many strip_prefix_handle strip_suffix_handle].
  - by destruct (collect_res _) as [l| |]; prog; [apply Hc|..].
  - by apply strip_suffix_confined.
Qed.

(** A checksum codec encodes a value to the value with its checksum, four bytes longer; with validation it decodes that encoding and
    nothing else: a value that is too short or has another checksum is refused with an error; without validation the checksum
    is cut off whatever it is. *)
Theorem checksum_codec_detects (c : ChecksumCodec) (rep : BytesRepresentation) (options : CodecOptions) (b enc : bytes) :
  checksum_encode c b options = Ok (checksummed c b) ∧ zlen (checksummed c b) = zlen b + 4 ∧
  checksum_decode c (checksummed c b) rep options = Ok b ∧
  (zlen enc < 4 → checksum_decode c enc rep options = Err CodecOther) ∧
  (4 <= zlen enc → validate_checksums options = true → (∀ b, enc ≠ checksummed c b) → checksum_decode c enc rep options = Err InvalidChecksum) ∧
  (4 <= zlen enc → validate_checksums options = false → checksum_decode c enc rep options = Ok (split_checksum (location_of c) enc).1).
Proof.
  rewrite !checksum_decode_eq. split_and!; [apply checksum_encode_eq|apply zlen_checksummed|apply check_decode_ok|..].
  - intros Hl. unfold check_decode. by rewrite (proj2 (Z.leb_gt _ _)).
  - intros Hl Hv Hne. destruct (check_decode _ _ enc options) as [data|e|] eqn:Hd.
    + by apply check_decode_inv in Hd; [destruct (Hne data)|].
    + revert Hd. unfold check_decode. rewrite (proj2 (Z.leb_le _ _)) by done. destruct (split_checksum _ _) as [data ck].
      destruct (_ && _); [by intros [= <-]|done].
    + revert Hd. unfold check_decode. rewrite (proj2 (Z.leb_le _ _)) by done. destruct (split_checksum _ _) as [data ck]. by destruct (_ && _).
  - intros Hl Hv. unfold check_decode. rewrite (proj2 (Z.leb_le _ _)) by done. rewrite Hv. by destruct (split_checksum _ _).
Qed.
End codecs.

(** A fletcher32 encoding of two bytes, and one with another checksum. *)
Lemma checksum_codec_detects_witness :
  let crates := {| crc32c := Zsum; adler32 := Zsum |} : ChecksumCrates in
  checksum_encode Fletcher32Codec [1; 2] (CodecOptions_default 4) = Ok [1; 2; 2; 1; 2; 1] ∧
  checksum_decode Fletcher32Codec [1; 2; 2; 1; 2; 1] (BytesFixedSize 2) (CodecOptions_default 4) = Ok [1; 2] ∧
  checksum_decode Fletcher32Codec [1; 2; 9] (BytesFixedSize 2) (CodecOptions_default 4) = Err CodecOther ∧
  checksum_decode (Crc32cCodec LocationStart) [1; 2; 9; 9; 5] (BytesFixedSize 1) (CodecOptions_default 4) = Err InvalidChecksum.
Proof.
  intros crates.
  destruct (checksum_codec_detects Fletcher32Codec (BytesFixedSize 2) (CodecOptions_default 4) [1; 2] [1; 2; 9]) as (He & _ & Hd & Hs & _).
  destruct (checksum_codec_detects (Crc32cCodec LocationStart) (BytesFixedSize 1) (CodecOptions_default 4) [] [1; 2; 9; 9; 5]) as (_ & _ & _ & _ & Hx & _).
  split; [exact He|]. split; [exact Hd|]. split; [apply Hs; simpl; lia|].
  apply Hx; [simpl; lia|reflexivity|]. intros b.
  unfold checksummed. cbn. intros Hb. injection Hb as H1 H2 H3 H4 H5. subst b. discriminate.
Defined.
