(* ===== verification/Fletcher.v ===== *)
(** The checksum of fletcher32 ([h5_checksum_fletcher32]) is that of the textbook: the running
    sums of the 16-bit words modulo 65535.  The 32-bit sums do not overflow, because the code reduces
    them after every 360 words. *)

From S2P Require Import Prelude Checksums.

(** The words of the data; a last odd byte is in no word. *)
Definition word_at (data : list Z) (j : nat) : Z := data !!! (2 * j)%nat * 256 + data !!! S (2 * j).
Definition words_range (data : list Z) (start n : nat) : list Z := word_at data <$> seq start n.
Definition words (data : list Z) : list Z := words_range data 0 (Nat.div (length data) 2).

(** The sums of the textbook. *)
Definition fletcher_step (s : Z * Z) (w : Z) : Z * Z := ((s.1 + w) mod 65535, (s.2 + (s.1 + w)) mod 65535).
Definition fletcher_sums (ws : list Z) (s : Z * Z) : Z * Z := fold_left fletcher_step ws s.

Definition reduced (sum1 sum2 : Z) : Z * Z := (sum1 mod 65535, sum2 mod 65535).

Lemma fletcher_step_reduced sum1 sum2 w : fletcher_step (reduced sum1 sum2) w = reduced (sum1 + w) (sum2 + (sum1 + w)).
Proof.
  unfold fletcher_step, reduced. cbn [fst snd]. f_equal; [by rewrite Zplus_mod_idemp_l|].
  rewrite Zplus_mod_idemp_l, Z.add_assoc, (Z.add_comm sum2), <-!Z.add_assoc, Zplus_mod_idemp_l. f_equal. lia.
Qed.

Definition is_byte (z : Z) : Prop := 0 <= z < 256.

Lemma lor_shift_add n a b : 0 <= n → 0 <= b < 2 ^ n → Z.lor (Z.shiftl a n) b = a * 2 ^ n + b.
Proof.
  intros Hn Hb. rewrite <-Z.shiftl_mul_pow2 by done. symmetry. apply Z.add_nocarry_lor. apply Z.bits_inj'. intros m Hm.
  rewrite Z.land_spec, Z.bits_0. destruct (Z.ltb_spec m n).
  - by rewrite Z.shiftl_spec_low.
  - rewrite andb_comm. rewrite <-(Z.mod_small b (2 ^ n)) by done. by rewrite Z.mod_pow2_bits_high by lia.
Qed.

Lemma word_at_bound data j : Forall is_byte data → 0 <= word_at data j <= 65535.
Proof.
  intros H. assert (∀ i, 0 <= data !!! i < 256) as Hd.
  { intros i. rewrite list_lookup_total_alt. destruct (data !! i) eqn:He; [|done]. by eapply (Forall_lookup_1 is_byte). }
  unfold word_at. pose proof (Hd (2 * j)%nat). pose proof (Hd (S (2 * j))). lia.
Qed.

Lemma lor_word data j : Forall is_byte data →
  Z.lor (Z.shiftl (data !!! (2 * j)%nat) 8) (data !!! S (2 * j)) = word_at data j.
Proof.
  intros H. rewrite lor_shift_add; [done|lia|]. rewrite list_lookup_total_alt.
  destruct (data !! _) eqn:He; [|done]. by eapply (Forall_lookup_1 is_byte) in He.
Qed.

Lemma wrap32_small z : 0 <= z < 2 ^ 32 → wrap32 z = z.
Proof. apply Z.mod_small. Qed.

(** The sums in a block, after [k] words. *)
Definition block_bound (k sum1 sum2 : Z) : Prop :=
  0 <= sum1 <= 65895 + k * 65535 ∧ 0 <= sum2 ∧ 2 * sum2 <= 262140 + 2 * k * 65895 + 65535 * (k * (k + 1)).

Lemma fletcher_block_spec data n j k sum1 sum2 : Forall is_byte data → block_bound k sum1 sum2 → 0 <= k → k + Z.of_nat n <= 360 →
  ∃ sum1' sum2', fletcher_block n data (2 * j) sum1 sum2 = ((2 * (j + n))%nat, sum1', sum2') ∧
    block_bound (k + Z.of_nat n) sum1' sum2' ∧
    fletcher_sums (words_range data j n) (reduced sum1 sum2) = reduced sum1' sum2'.
Proof.
  intros Hd. revert j k sum1 sum2. induction n as [|n IH]; intros j k sum1 sum2 Hb Hk Hn.
  - exists sum1, sum2. cbn [fletcher_block]. replace (k + Z.of_nat 0) with k by lia. split_and!; [by rewrite Nat.add_0_r|done|done].
  - cbn [fletcher_block]. rewrite lor_word by done. pose proof (word_at_bound data j Hd) as Hw. destruct Hb as (H1 & H2 & H3).
    assert (k <= 359) as Hk' by lia. assert (k * (k + 1) <= 359 * 360) as Hkk by nia.
    rewrite (wrap32_small (sum1 + _)) by lia. rewrite wrap32_small by lia.
    replace (2 * j + 2)%nat with (2 * S j)%nat by lia.
    destruct (IH (S j) (k + 1) (sum1 + word_at data j) (sum2 + (sum1 + word_at data j))) as (s1 & s2 & He & Hbd & Hs).
    { unfold block_bound. nia. }
    { lia. }
    { lia. }
    exists s1, s2. split_and!.
    + rewrite He. by replace (S j + n)%nat with (j + S n)%nat by lia.
    + by replace (k + Z.of_nat (S n)) with (k + 1 + Z.of_nat n) by lia.
    + rewrite <-Hs. unfold words_range. cbn [seq fmap list_fmap fletcher_sums fold_left]. by rewrite fletcher_step_reduced.
Qed.

Lemma fold16_eq sum : 0 <= sum < 2 ^ 32 → fold16 sum = sum mod 65536 + sum / 65536.
Proof.
  intros Hs. unfold fold16. change 65535 with (Z.ones 16). rewrite Z.land_ones, Z.shiftr_div_pow2 by lia.
  change (2 ^ 16) with 65536. apply wrap32_small. pose proof (Z.mod_pos_bound sum 65536 ltac:(lia)).
  assert (0 <= sum / 65536) by (apply Z.div_pos; lia). assert (sum / 65536 < 65536) by (apply Z.div_lt_upper_bound; lia). lia.
Qed.

Lemma fold16_spec sum m : 0 <= sum < 2 ^ 32 → sum <= m → 0 <= fold16 sum <= 65535 + m / 65536 ∧ fold16 sum mod 65535 = sum mod 65535.
Proof.
  intros Hs Hm. rewrite fold16_eq by done. pose proof (Z.mod_pos_bound sum 65536 ltac:(lia)).
  assert (0 <= sum / 65536 <= m / 65536) by (split; [apply Z.div_pos; lia|apply Z.div_le_mono; lia]). split; [lia|].
  rewrite (Z.div_mod sum 65536) at 3 by lia.
  replace (65536 * (sum / 65536) + sum mod 65536) with (sum mod 65536 + sum / 65536 + (sum / 65536) * 65535) by lia.
  by rewrite Z_mod_plus_full.
Qed.

(** A reduction when the sum is already small. *)
Lemma fold16_small sum : 0 <= sum <= 131070 → 0 <= fold16 sum <= 65535 ∧ fold16 sum mod 65535 = sum mod 65535.
Proof.
  intros Hs. split; [|by apply (fold16_spec sum 131070); lia]. rewrite fold16_eq by lia. destruct (Z.ltb_spec sum 65536).
  - rewrite Z.mod_small, Z.div_small by lia. lia.
  - rewrite <-(Zmod_unique sum 65536 1 (sum - 65536)), <-(Zdiv_unique sum 65536 1 (sum - 65536)) by lia. lia.
Qed.

Lemma fletcher_blocks_spec fuel data len j sum1 sum2 : Forall is_byte data → (len <= fuel)%nat →
  0 <= sum1 <= 65895 → 0 <= sum2 <= 131070 →
  ∃ sum1' sum2', fletcher_blocks fuel len data (2 * j) sum1 sum2 = (0%nat, (2 * (j + len))%nat, sum1', sum2') ∧
    0 <= sum1' <= 65895 ∧ 0 <= sum2' <= 131070 ∧ fletcher_sums (words_range data j len) (reduced sum1 sum2) = reduced sum1' sum2'.
Proof.
  intros Hd. revert len j sum1 sum2. induction fuel as [|fuel IH]; intros len j sum1 sum2 Hf H1 H2.
  { assert (len = 0)%nat as -> by lia. exists sum1, sum2. by rewrite Nat.add_0_r. }
  destruct len as [|len']; [exists sum1, sum2; by rewrite Nat.add_0_r|]. set (len := S len') in *.
  cbn [fletcher_blocks]. unfold len at 1. cbv zeta. set (n := Nat.min len 360).
  destruct (fletcher_block_spec data n j 0 sum1 sum2) as (s1 & s2 & -> & (Hb1 & Hb2 & Hb3) & Hs); [done|unfold block_bound; lia|lia|lia|].
  assert (Z.of_nat n <= 360) as Hn by lia. assert (Z.of_nat n * (Z.of_nat n + 1) <= 360 * 361) as Hnn by nia.
  destruct (fold16_spec s1 (65895 + 360 * 65535)) as [Hf1 Hm1]; [lia..|].
  destruct (fold16_spec s2 (2 ^ 32 - 1)) as [Hf2 Hm2]; [lia..|].
  change ((65895 + 360 * 65535) / 65536) with 360 in Hf1. change ((2 ^ 32 - 1) / 65536) with 65535 in Hf2.
  destruct (IH (len - n)%nat (j + n)%nat (fold16 s1) (fold16 s2)) as (s1' & s2' & -> & Hc1 & Hc2 & Hs'); [lia..|].
  exists s1', s2'. split_and!; [|lia..|].
  - do 3 f_equal. lia.
  - rewrite <-Hs'. unfold reduced at 2. rewrite Hm1, Hm2. fold (reduced s1 s2). rewrite <-Hs.
    unfold fletcher_sums. rewrite <-fold_left_app. f_equal. unfold words_range. rewrite <-fmap_app, <-seq_app. do 2 f_equal. lia.
Qed.

(** C39: The checksum of fletcher32 packs the sums of the textbook, however long the data: the low half is congruent, modulo 65535,
    to the sum of the 16-bit words that the pairs of bytes make, the high half to the sum of the running sums.  The 32-bit sums are
    reduced often enough that nothing is lost.  A last odd byte is in no word. *)
Theorem fletcher32_textbook data : Forall is_byte data →
  ∃ sum1 sum2, h5_checksum_fletcher32 data = sum2 * 65536 + sum1 ∧ 0 <= sum1 <= 65535 ∧ 0 <= sum2 <= 65535 ∧
    reduced sum1 sum2 = fletcher_sums (words data) (0, 0).
Proof.
  intros Hd. unfold h5_checksum_fletcher32. cbv zeta.
  destruct (fletcher_blocks_spec (Nat.div (length data) 2) data (Nat.div (length data) 2) 0 0 0) as (s1 & s2 & He & H1 & H2 & Hs); [done|lia..|].
  change (2 * 0)%nat with 0%nat in He. rewrite He. cbn [Nat.odd Nat.even negb]. destruct (fold16_small s1) as [Hf1 Hm1]; [lia|]. destruct (fold16_small s2) as [Hf2 Hm2]; [lia|].
  exists (fold16 s1), (fold16 s2). split_and!; [|lia..|].
  - rewrite Z.shiftl_mul_pow2, wrap32_small by lia. rewrite <-Z.shiftl_mul_pow2, lor_shift_add by lia. lia.
  - unfold reduced. rewrite Hm1, Hm2. unfold words. change (0, 0) with (reduced 0 0). by rewrite Hs.
Qed.

Lemma fletcher32_textbook_witness : Forall is_byte [1; 2; 255; 4; 5; 6; 7] ∧
  ∃ sum1 sum2, h5_checksum_fletcher32 [1; 2; 255; 4; 5; 6; 7] = sum2 * 65536 + sum1 ∧ 0 <= sum1 <= 65535 ∧ 0 <= sum2 <= 65535 ∧
    reduced sum1 sum2 = fletcher_sums [258; 65284; 1286] (0, 0).
Proof.
  assert (Forall is_byte [1; 2; 255; 4; 5; 6; 7]) as H by (repeat constructor; unfold is_byte; lia).
  split; [exact H|]. exact (fletcher32_textbook [1; 2; 255; 4; 5; 6; 7] H).
Defined.
