(* ===== verification/Shuffle.v ===== *)
(** The shuffle codec ([shuffle_codec.rs]): the bytes of the elements, regrouped so that the bytes at
    the same place in an element are next to each other. *)

From S2P Require Import Prelude ByteRange StoreKey Storage ArrayBytes Elements StoreProgram.
From S2P Require Import DecodeInto Concurrency Codec BytesToBytes Checksums.

Record ShuffleCodec := { elementsize : Z }.

(** [out[j] = input[p]] for each pair; an index out of range panics. *)
Fixpoint copy_bytes {E} (input : bytes) (pairs : list (Z * Z)) (out : bytes) : outcome E bytes :=
  match pairs with
  | [] => Ok out
  | (j, p) :: pairs =>
      let? x := index input p in
      if (0 <=? j) && (j <? zlen out) then copy_bytes input pairs (<[Z.to_nat j := x]> out) else Panic
  end.

(** The nested loops: for [i] below [a], for [k] below [b], the pair [(k * a + i, i * b + k)]. *)
Definition shuffle_pairs (a b : Z) : list (Z * Z) := seqZ 0 a ≫= λ i, (λ k, (k * a + i, i * b + k)) <$> seqZ 0 b.

(** [usize::is_multiple_of]. *)
Definition is_multiple_of (a b : Z) : bool := if b =? 0 then a =? 0 else a mod b =? 0.

(** [usize::div_ceil], which panics when the divisor is 0. *)
Definition checked_div_ceil {E} (a b : Z) : outcome E Z := if b =? 0 then Panic else Ok (div_ceil a b).

Definition shuffle_encode (self : ShuffleCodec) (decoded_value : bytes) (options : CodecOptions) : outcome CodecError bytes :=
  if negb (is_multiple_of (zlen decoded_value) (elementsize self)) then Err CodecOther
  else
    let? count := checked_div_ceil (zlen decoded_value) (elementsize self) in
    copy_bytes decoded_value (shuffle_pairs count (elementsize self)) decoded_value.

Definition shuffle_decode (self : ShuffleCodec) (encoded_value : bytes) (rep : BytesRepresentation) (options : CodecOptions)
    : outcome CodecError bytes :=
  if negb (is_multiple_of (zlen encoded_value) (elementsize self)) then Err CodecOther
  else
    let? count := checked_div_ceil (zlen encoded_value) (elementsize self) in
    copy_bytes encoded_value (shuffle_pairs (elementsize self) count) encoded_value.

#[export] Instance shuffle_traits : BytesToBytesCodecTraits ShuffleCodec := {|
  b2b_partial_decoder_capability _ := no_partial;
  b2b_partial_encoder_capability _ := false;
  b2b_recommended_concurrency _ _ := Ok (new_maximum 1);
  b2b_encoded_representation _ rep := rep;
  b2b_encode := shuffle_encode;
  b2b_decode := shuffle_decode;
  b2b_partial_decoder c := b2b_default_partial_decoder (shuffle_decode c);
  b2b_partial_encoder c := b2b_default_partial_encoder (shuffle_encode c) (shuffle_decode c) |}.

(** ** Correctness *)

Lemma copy_bytes_scatter {E} input pairs out :
  Forall (λ jp, 0 <= jp.1 < zlen out ∧ 0 <= jp.2 < zlen input) pairs →
  copy_bytes (E:=E) input pairs out = Ok (scatter out pairs.*1 (select input pairs.*2)).
Proof.
  revert out. induction pairs as [|[j p] pairs IH]; intros out Hr; [done|].
  apply Forall_cons in Hr as [[Hj Hp] Hr]. cbn [fst snd] in *. cbn [copy_bytes].
  assert (index (E:=E) input p = Ok (input !!! Z.to_nat p)) as ->.
  { unfold index. rewrite (proj2 (Z.leb_le _ _)) by lia. rewrite list_lookup_total_alt.
    destruct (lookup_lt_is_Some_2 input (Z.to_nat p)) as [x Hx]; [lia|]. by rewrite Hx. }
  cbn [obind]. rewrite (proj2 (Z.leb_le _ _)), (proj2 (Z.ltb_lt _ _)) by lia. simpl. rewrite scatter_cons. apply IH.
  eapply Forall_impl; [exact Hr|]. intros jp. by rewrite length_insert.
Qed.

Lemma shuffle_target_inj a k i k' i' : 0 <= i < a → 0 <= i' < a → k * a + i = k' * a + i' → i = i' ∧ k = k'.
Proof. intros Hi Hi' He. assert (k = k') by nia. by subst; split; [lia|]. Qed.

Lemma elem_of_shuffle_pairs a b jp : jp ∈ shuffle_pairs a b ↔
  ∃ i k, 0 <= i < a ∧ 0 <= k < b ∧ jp = (k * a + i, i * b + k).
Proof.
  unfold shuffle_pairs. rewrite list_elem_of_bind. split.
  - intros (i & Hjp & Hi%elem_of_seqZ). apply list_elem_of_fmap in Hjp as (k & -> & Hk%elem_of_seqZ). exists i, k. split_and!; lia || done.
  - intros (i & k & Hi & Hk & ->). exists i. split; [|by apply elem_of_seqZ; lia].
    apply list_elem_of_fmap. exists k. split; [done|]. apply elem_of_seqZ. lia.
Qed.

Lemma shuffle_pairs_targets a b : NoDup (shuffle_pairs a b).*1.
Proof.
  unfold shuffle_pairs. rewrite list_fmap_of_bind, bind_concat. apply NoDup_concat_fmap; [apply NoDup_seqZ|..].
  - intros i Hi%elem_of_seqZ. rewrite list_fmap_fmap. cbn [fst]. apply NoDup_fmap_2_strong; [|apply NoDup_seqZ]. intros k k' _ _ He. nia.
  - intros i i' z Hi%elem_of_seqZ Hi'%elem_of_seqZ. rewrite !list_fmap_fmap. cbn [fst].
    intros (k & -> & Hk)%list_elem_of_fmap (k' & He & Hk')%list_elem_of_fmap. apply (shuffle_target_inj a k i k' i'); lia.
Qed.

(** The loops move every byte of the input. *)
Lemma transpose_copy {E} a b input out : zlen input = a * b → zlen out = a * b →
  ∃ out', copy_bytes (E:=E) input (shuffle_pairs a b) out = Ok out' ∧ zlen out' = a * b ∧
    ∀ i k, 0 <= i < a → 0 <= k < b → out' !!! Z.to_nat (k * a + i) = input !!! Z.to_nat (i * b + k).
Proof.
  intros Hin Hout. exists (scatter out (shuffle_pairs a b).*1 (select input (shuffle_pairs a b).*2)). split_and!.
  - apply copy_bytes_scatter, Forall_forall. intros jp Hjp. apply elem_of_shuffle_pairs in Hjp as (i & k & Hi & Hk & ->).
    cbn [fst snd]. rewrite Hin, Hout. nia.
  - by rewrite length_scatter.
  - intros i k Hi Hk. assert ((k * a + i, i * b + k) ∈ shuffle_pairs a b) as Hp by (apply elem_of_shuffle_pairs; eauto 10).
    apply list_elem_of_lookup_1 in Hp as [n Hn]. rewrite list_lookup_total_alt.
    rewrite (lookup_scatter out (shuffle_pairs a b).*1 _ n (k * a + i) (input !!! Z.to_nat (i * b + k))); [done|..].
    + apply Forall_forall. intros z (jp & -> & (i' & k' & Hi' & Hk' & ->)%elem_of_shuffle_pairs)%list_elem_of_fmap. cbn [fst]. rewrite Hout. nia.
    + apply shuffle_pairs_targets.
    + by rewrite list_lookup_fmap, Hn.
    + unfold select. by rewrite !list_lookup_fmap, Hn.
Qed.

Lemma multiple_count n e : 1 <= e → 0 <= n → n mod e = 0 → is_multiple_of n e = true ∧
  ∃ count, checked_div_ceil (E:=CodecError) n e = Ok count ∧ 0 <= count ∧ n = count * e.
Proof.
  intros He Hn Hm. unfold is_multiple_of, checked_div_ceil. rewrite (proj2 (Z.eqb_neq e 0)) by lia. split; [by apply Z.eqb_eq|].
  exists (div_ceil n e). split; [done|]. unfold div_ceil. pose proof (Z.div_mod n e ltac:(lia)). rewrite Hm.
  assert (0 <= n / e) by (apply Z.div_pos; lia). simpl. lia.
Qed.

Lemma shuffle_encode_ok c b options : 1 <= elementsize c → zlen b mod elementsize c = 0 →
  ∃ enc, shuffle_encode c b options = Ok enc ∧ zlen enc = zlen b ∧
    ∀ i k, 0 <= k < elementsize c → 0 <= i * elementsize c + k < zlen b →
      enc !!! Z.to_nat (k * (zlen b / elementsize c) + i) = b !!! Z.to_nat (i * elementsize c + k).
Proof.
  intros He Hm. unfold shuffle_encode. destruct (multiple_count (zlen b) (elementsize c)) as (-> & count & -> & Hc & Hn); [lia..|].
  cbn [negb obind]. destruct (transpose_copy (E:=CodecError) count (elementsize c) b b) as (out & -> & Hl & Hout); [done..|].
  exists out. split_and!; [done|lia|]. intros i k Hk Hi. rewrite Hn, Z.div_mul by lia. apply Hout; nia.
Qed.

Lemma shuffle_roundtrip_ok c b enc rep options options' : 1 <= elementsize c → zlen b mod elementsize c = 0 →
  shuffle_encode c b options = Ok enc → shuffle_decode c enc rep options' = Ok b.
Proof.
  intros He Hm Henc. destruct (shuffle_encode_ok c b options He Hm) as (enc' & Henc' & Hl & Hlk).
  rewrite Henc in Henc'. injection Henc' as <-. unfold shuffle_decode.
  destruct (multiple_count (zlen enc) (elementsize c)) as (-> & count & -> & Hc & Hn); [lia|lia|by rewrite Hl|].
  cbn [negb obind]. destruct (transpose_copy (E:=CodecError) (elementsize c) count enc enc) as (out & -> & Hlo & Hout); [lia..|].
  f_equal. apply list_eq_total; [lia|]. intros n Hnn. set (e := elementsize c) in *.
  pose proof (Z.div_mod (Z.of_nat n) e ltac:(lia)) as Hdm. pose proof (Z.mod_pos_bound (Z.of_nat n) e ltac:(lia)).
  assert (0 <= Z.of_nat n / e < count) by (split; [apply Z.div_pos; lia|apply Z.div_lt_upper_bound; nia]).
  replace n with (Z.to_nat (Z.of_nat n / e * e + Z.of_nat n mod e)) by lia.
  rewrite Hout by done. replace count with (zlen b / e) by (rewrite <-Hl, Hn, Z.div_mul; lia). apply Hlk; nia.
Qed.

(** Only values of a known size can be encoded. *)
Definition shuffle_accepts (c : ShuffleCodec) (rep : BytesRepresentation) : Prop :=
  match rep with BytesFixedSize n => n mod elementsize c = 0 | _ => False end.

#[export] Program Instance shuffle_lawful : LawfulBytesToBytesCodec ShuffleCodec := {|
  b2b_wf c := 1 <= elementsize c;
  b2b_accepts := shuffle_accepts;
  b2b_encoded_limit _ n := n;
  b2b_encodes c _ enc b := zlen b mod elementsize c = 0 ∧ ∃ options, shuffle_encode c b options = Ok enc;
  b2b_offset _ := 0 |}.
Next Obligation. by eexists. Qed.
Next Obligation. intros c rep options enc b Hc [Hm [options' He]]. by eapply shuffle_roundtrip_ok. Qed.
Next Obligation.
  intros c rep options b n Hc Ha Hr Hb Hn. destruct rep as [m|m|]; [|done..]. simpl in Ha, Hr. rewrite <-Hr in Ha.
  destruct (shuffle_encode_ok c b options Hc Ha) as (enc & Henc & Hl & _). exists enc. split_and!; [done|lia|done| |simpl; lia]. by exists options.
Qed.
Next Obligation.
  intros c rep enc b Hc [Hm [options He]] Hl. destruct (shuffle_encode_ok c b options Hc Hm) as (enc' & He' & Hl' & _).
  rewrite He in He'. injection He' as <-. lia.
Qed.
Next Obligation. done. Qed.
Next Obligation.
  intros c rep options h key v w w' n Hc Hn Ht Hw. eexists. split; [by prog|]. apply handle_reads_tails; [unfold u64_modulus; lia|].
  eapply b2b_default_reads; [|exact Ht|]; [lia|]. eapply option_Forall2_mono; [exact Hw|]. intros enc b [Hl [Hm [options' He]]].
  split; [done|]. by eapply shuffle_roundtrip_ok.
Qed.
Next Obligation. done. Qed.
Next Obligation. intros c rep options h key Hc. simpl. by apply b2b_default_confined. Qed.

(** Shuffling a value of whole elements puts byte [k] of element [i] at [k * count + i], in a value of
    the same length, and unshuffling gives the value back. *)
Theorem shuffle_roundtrip c b options : 1 <= elementsize c → zlen b mod elementsize c = 0 →
  ∃ enc, shuffle_encode c b options = Ok enc ∧ zlen enc = zlen b ∧
    (∀ i k, 0 <= k < elementsize c → 0 <= i * elementsize c + k < zlen b →
      enc !!! Z.to_nat (k * (zlen b / elementsize c) + i) = b !!! Z.to_nat (i * elementsize c + k)) ∧
    ∀ rep options', shuffle_decode c enc rep options' = Ok b.
Proof.
  intros Hc Hm. destruct (shuffle_encode_ok c b options Hc Hm) as (enc & He & Hl & Hk). exists enc. split_and!; [done..|].
  intros rep options'. by eapply shuffle_roundtrip_ok.
Qed.

Lemma shuffle_roundtrip_witness :
  shuffle_encode {| elementsize := 2 |} [1; 2; 3; 4; 5; 6] (CodecOptions_default 4) = Ok [1; 3; 5; 2; 4; 6] ∧
  ∃ enc, shuffle_encode {| elementsize := 2 |} [1; 2; 3; 4; 5; 6] (CodecOptions_default 4) = Ok enc ∧
    ∀ rep options', shuffle_decode {| elementsize := 2 |} enc rep options' = Ok [1; 2; 3; 4; 5; 6].
Proof.
  split; [reflexivity|].
  destruct (shuffle_roundtrip {| elementsize := 2 |} [1; 2; 3; 4; 5; 6] (CodecOptions_default 4)) as (enc & He & _ & _ & Hd); [simpl; lia|reflexivity|].
  exists enc. split; [exact He|exact Hd].
Defined.
