(* ===== verification/Compressors.v ===== *)
(** The codecs that call a compression library: [gzip_codec.rs], [zlib_codec.rs], [bz2_codec.rs] and
    [zstd_codec.rs] of [zarrs/src/array/codec/bytes_to_bytes].

    The libraries are the operations of [CompressionCrates]; an operation that gives [None] has
    failed with an I/O error.  [LawfulCompression] is what the codecs rely on: decompressing
    undoes compressing, and the compressed size is within the bound that the documentation of the format
    gives, which the codecs use in [encoded_representation]. *)

From S2P Require Import Prelude ByteRange StoreKey Storage ArrayBytes Elements StoreProgram.
From S2P Require Import DecodeInto Concurrency Codec BytesToBytes Checksums.

(** The readers of [flate2] and [bzip2], read to their end, and the functions of [zstd::bulk] and [zstd]. *)
Class CompressionCrates := {
  gz_encode : Z → bytes → option bytes;
  gz_decode : bytes → option bytes;
  zlib_encode : Z → bytes → option bytes;
  zlib_decode : bytes → option bytes;
  bz_encode : Z → bytes → option bytes;
  bz_decode : bytes → option bytes;
  zstd_compress : Z → bool → bytes → option bytes;
  zstd_upper_bound : bytes → option Z;
  zstd_bulk_decompress : bytes → Z → option bytes;
  zstd_decode_all : bytes → option bytes;
}.

Inductive CompressionCodec :=
  | GzipCodec (compression_level : Z)
  | ZlibCodec (compression : Z)
  | Bz2Codec (compression : Z)
  | ZstdCodec (compression : Z) (checksum : bool).

Definition gzip_encoded_representation (decoded_representation : BytesRepresentation) : BytesRepresentation :=
  match representation_size decoded_representation with
  | None => BytesUnboundedSize
  | Some size =>
      let HEADER_TRAILER_OVERHEAD := 10 + 8 in
      let BLOCK_SIZE := 32768 in
      let BLOCK_OVERHEAD := 5 in
      let blocks_overhead := BLOCK_OVERHEAD *w div_ceil size BLOCK_SIZE in
      BytesBoundedSize (size +w HEADER_TRAILER_OVERHEAD +w blocks_overhead)
  end.

Definition zlib_encoded_representation (decoded_representation : BytesRepresentation) : BytesRepresentation :=
  match representation_size decoded_representation with
  | None => BytesUnboundedSize
  | Some size => BytesBoundedSize (size +w Z.shiftr size 12 +w Z.shiftr size 14 +w Z.shiftr size 25 +w 13)
  end.

Definition bz2_encoded_representation (decoded_representation : BytesRepresentation) : BytesRepresentation :=
  match representation_size decoded_representation with
  | None => BytesUnboundedSize
  | Some size => let MIN_PAD_SIZE := 1024 in BytesBoundedSize (size +w size / 8 +w MIN_PAD_SIZE)
  end.

Definition zstd_encoded_representation (decoded_representation : BytesRepresentation) : BytesRepresentation :=
  match representation_size decoded_representation with
  | None => BytesUnboundedSize
  | Some size =>
      let HEADER_TRAILER_OVERHEAD := 4 + 14 + 4 in
      let MIN_WINDOW_SIZE := 1000 in
      let BLOCK_OVERHEAD := 3 in
      let blocks_overhead := BLOCK_OVERHEAD *w div_ceil size MIN_WINDOW_SIZE in
      BytesBoundedSize (size +w HEADER_TRAILER_OVERHEAD +w blocks_overhead)
  end.

(** [?] on an [io::Result]. *)
Definition io {A} (x : option A) : outcome CodecError A := ok_or CodecIOError x.

Section codecs.
Context `{!CompressionCrates}.

Definition gzip_encode (compression_level : Z) (decoded_value : bytes) : outcome CodecError bytes :=
  let? out := io (gz_encode compression_level decoded_value) in Ok out.
Definition gzip_decode (encoded_value : bytes) : outcome CodecError bytes :=
  let? out := io (gz_decode encoded_value) in Ok out.

Definition zlib_encode_value (compression : Z) (decoded_value : bytes) : outcome CodecError bytes :=
  let? out := io (zlib_encode compression decoded_value) in Ok out.
Definition zlib_decode_value (encoded_value : bytes) : outcome CodecError bytes :=
  let? out := io (zlib_decode encoded_value) in Ok out.

Definition bz2_encode (compression : Z) (decoded_value : bytes) : outcome CodecError bytes :=
  let? out := io (bz_encode compression decoded_value) in Ok out.
Definition bz2_decode (encoded_value : bytes) : outcome CodecError bytes :=
  let? out := io (bz_decode encoded_value) in Ok out.

(** Making a compressor and its settings is part of [zstd_compress]. *)
Definition zstd_encode (compression : Z) (checksum : bool) (decoded_value : bytes) : outcome CodecError bytes :=
  let? result := io (zstd_compress compression checksum decoded_value) in Ok result.
Definition zstd_decode (encoded_value : bytes) : outcome CodecError bytes :=
  match zstd_upper_bound encoded_value with
  | Some upper_bound => let? result := io (zstd_bulk_decompress encoded_value upper_bound) in Ok result
  | None => io (zstd_decode_all encoded_value)
  end.

Definition compression_encode (self : CompressionCodec) (decoded_value : bytes) (options : CodecOptions) : outcome CodecError bytes :=
  match self with
  | GzipCodec level => gzip_encode level decoded_value
  | ZlibCodec level => zlib_encode_value level decoded_value
  | Bz2Codec level => bz2_encode level decoded_value
  | ZstdCodec level checksum => zstd_encode level checksum decoded_value
  end.

Definition compression_decode (self : CompressionCodec) (encoded_value : bytes) (rep : BytesRepresentation) (options : CodecOptions)
    : outcome CodecError bytes :=
  match self with
  | GzipCodec _ => gzip_decode encoded_value
  | ZlibCodec _ => zlib_decode_value encoded_value
  | Bz2Codec _ => bz2_decode encoded_value
  | ZstdCodec _ _ => zstd_decode encoded_value
  end.

Definition compression_encoded_representation (self : CompressionCodec) : BytesRepresentation → BytesRepresentation :=
  match self with
  | GzipCodec _ => gzip_encoded_representation
  | ZlibCodec _ => zlib_encoded_representation
  | Bz2Codec _ => bz2_encoded_representation
  | ZstdCodec _ _ => zstd_encoded_representation
  end.

(** The four codecs inherit their partial decoders and encoders. *)
#[export] Instance compression_traits : BytesToBytesCodecTraits CompressionCodec := {|
  b2b_partial_decoder_capability _ := no_partial;
  b2b_partial_encoder_capability _ := false;
  b2b_recommended_concurrency _ _ := Ok (new_maximum 1);
  b2b_encoded_representation := compression_encoded_representation;
  b2b_encode := compression_encode;
  b2b_decode := compression_decode;
  b2b_partial_decoder c := b2b_default_partial_decoder (compression_decode c);
  b2b_partial_encoder c := b2b_default_partial_encoder (compression_encode c) (compression_decode c) |}.
End codecs.

(** ** Correctness *)

(** The size that an encoding has at most. *)
Definition gzip_bound (n : Z) : Z := n + 18 + 5 * div_ceil n 32768.
Definition zlib_bound (n : Z) : Z := n + n / 2 ^ 12 + n / 2 ^ 14 + n / 2 ^ 25 + 13.
Definition bz2_bound (n : Z) : Z := n + n / 8 + 1024.
Definition zstd_bound (n : Z) : Z := n + 22 + 3 * div_ceil n 1000.

(** Compressing at a valid level succeeds, and decompressing undoes it. *)
Class LawfulCompression `{!CompressionCrates} := {
  gz_law level b : 0 <= level <= 9 → ∃ enc, gz_encode level b = Some enc ∧ gz_decode enc = Some b ∧ zlen enc <= gzip_bound (zlen b);
  zlib_law level b : 0 <= level <= 9 → ∃ enc, zlib_encode level b = Some enc ∧ zlib_decode enc = Some b ∧ zlen enc <= zlib_bound (zlen b);
  bz_law level b : 1 <= level <= 9 → ∃ enc, bz_encode level b = Some enc ∧ bz_decode enc = Some b ∧ zlen enc <= bz2_bound (zlen b);
  zstd_law level checksum b : -131072 <= level <= 22 →
    ∃ enc, zstd_compress level checksum b = Some enc ∧ zstd_decode_all enc = Some b ∧ zlen enc <= zstd_bound (zlen b) ∧
      ∀ n, zstd_upper_bound enc = Some n → zstd_bulk_decompress enc n = Some b;
}.

Section lawful.
Context `{!CompressionCrates, !LawfulCompression}.

Definition level_ok (c : CompressionCodec) : Prop :=
  match c with
  | GzipCodec level | ZlibCodec level => 0 <= level <= 9
  | Bz2Codec level => 1 <= level <= 9
  | ZstdCodec level _ => -131072 <= level <= 22
  end.

Definition compression_bound (c : CompressionCodec) : Z → Z :=
  match c with GzipCodec _ => gzip_bound | ZlibCodec _ => zlib_bound | Bz2Codec _ => bz2_bound | ZstdCodec _ _ => zstd_bound end.

Definition compression_accepts (rep : BytesRepresentation) : Prop :=
  match representation_size rep with Some n => 0 <= n <= 2 ^ 61 | None => True end.

Definition compression_encodes (c : CompressionCodec) (enc b : bytes) : Prop :=
  level_ok c ∧ zlen b < u64_modulus ∧ ∃ options, compression_encode c b options = Ok enc.

Lemma compression_encode_ok c b options : level_ok c →
  ∃ enc, compression_encode c b options = Ok enc ∧ zlen enc <= compression_bound c (zlen b) ∧
    ∀ rep options', compression_decode c enc rep options' = Ok b.
Proof.
  destruct c as [l|l|l|l ck]; intros Hl.
  - destruct (gz_law l b Hl) as (enc & He & Hd & Hn). exists enc. cbn. unfold gzip_encode, gzip_decode. by rewrite He, Hd.
  - destruct (zlib_law l b Hl) as (enc & He & Hd & Hn). exists enc. cbn. unfold zlib_encode_value, zlib_decode_value. by rewrite He, Hd.
  - destruct (bz_law l b Hl) as (enc & He & Hd & Hn). exists enc. cbn. unfold bz2_encode, bz2_decode. by rewrite He, Hd.
  - destruct (zstd_law l ck b Hl) as (enc & He & Hd & Hn & Hu). exists enc. cbn. unfold zstd_encode, zstd_decode. rewrite He, Hd.
    split_and!; [done..|]. intros _ _. destruct (zstd_upper_bound enc) as [n|] eqn:Hun; [|done]. by rewrite (Hu n).
Qed.

Lemma compression_decodes c enc b rep options : compression_encodes c enc b → compression_decode c enc rep options = Ok b.
Proof.
  intros (Hl & _ & options' & He). destruct (compression_encode_ok c b options' Hl) as (enc' & He' & _ & Hd).
  rewrite He in He'. injection He' as ->. apply Hd.
Qed.

Lemma compression_bound_mono c m n : 0 <= m <= n → compression_bound c m <= compression_bound c n.
Proof.
  intros Hmn. assert (∀ k, 0 < k → div_ceil m k <= div_ceil n k) as Hd.
  { intros k Hk. destruct (div_ceil_spec m k) as [|[-> ->]], (div_ceil_spec n k) as [|[-> ?]]; try lia; nia || (apply div_ceil_nonneg; lia). }
  destruct c; cbn; unfold gzip_bound, zlib_bound, bz2_bound, zstd_bound.
  - pose proof (Hd 32768). lia.
  - pose proof (Z.div_le_mono m n (2 ^ 12)). pose proof (Z.div_le_mono m n (2 ^ 14)). pose proof (Z.div_le_mono m n (2 ^ 25)). lia.
  - pose proof (Z.div_le_mono m n 8). lia.
  - pose proof (Hd 1000). lia.
Qed.

(** The size that the codec promises is the bound: it does not wrap around. *)
Lemma compression_representation_ok c rep n : compression_accepts rep → representation_size rep = Some n →
  compression_encoded_representation c rep = BytesBoundedSize (compression_bound c n).
Proof.
  unfold compression_accepts. intros Ha Hn. rewrite Hn in Ha.
  assert (∀ k, 0 < k → 0 <= div_ceil n k <= n) as Hd by (intros k Hk; split; [apply div_ceil_nonneg; lia|apply div_ceil_le; lia]).
  assert (∀ k, 0 < k → 0 <= n / k <= n) as Hq by (intros k Hk; split; [apply Z.div_pos; lia|apply Z.div_le_upper_bound; nia]).
  destruct c; cbn; unfold gzip_encoded_representation, zlib_encoded_representation, bz2_encoded_representation, zstd_encoded_representation;
    rewrite Hn; cbv zeta; f_equal; unfold gzip_bound, zlib_bound, bz2_bound, zstd_bound; rewrite ?Z.shiftr_div_pow2 by lia.
  - pose proof (Hd 32768 ltac:(lia)). rewrite !wrap64_add_l, wrap64_add_r, wrap64_small by (unfold is_u64, u64_modulus; lia). lia.
  - pose proof (Hq (2 ^ 12) ltac:(lia)). pose proof (Hq (2 ^ 14) ltac:(lia)). pose proof (Hq (2 ^ 25) ltac:(lia)).
    rewrite (wrap64_small (n + _)), (wrap64_small (n + n / 2 ^ 12 + _)), (wrap64_small (n + n / 2 ^ 12 + n / 2 ^ 14 + _)), wrap64_small
      by (unfold is_u64, u64_modulus; lia). lia.
  - pose proof (Hq 8 ltac:(lia)). rewrite !wrap64_add_l, wrap64_small by (unfold is_u64, u64_modulus; lia). lia.
  - pose proof (Hd 1000 ltac:(lia)). rewrite !wrap64_add_l, wrap64_add_r, wrap64_small by (unfold is_u64, u64_modulus; lia). lia.
Qed.

Lemma compression_rep_admits c rep (b enc : bytes) : compression_accepts rep → rep_admits rep (zlen b) → zlen enc <= compression_bound c (zlen b) →
  rep_admits (compression_encoded_representation c rep) (zlen enc).
Proof.
  intros Ha Hr He. destruct (representation_size rep) as [n|] eqn:Hn.
  - rewrite (compression_representation_ok c rep n Ha Hn). simpl. etrans; [exact He|]. apply compression_bound_mono.
    split; [lia|]. destruct rep; simplify_eq/=; lia.
  - destruct rep; [done..|]. by destruct c.
Qed.

#[export] Program Instance compression_lawful : LawfulBytesToBytesCodec CompressionCodec := {|
  b2b_wf := level_ok;
  b2b_accepts _ := compression_accepts;
  b2b_encoded_limit c n := Z.max n (compression_bound c n);
  b2b_encodes c _ := compression_encodes c;
  b2b_offset _ := 0 |}.
Next Obligation. by eexists. Qed.
Next Obligation. intros c rep options enc b _ He. by apply compression_decodes. Qed.
Next Obligation.
  intros c rep options b n Hc Ha Hr Hb Hn. cbv beta in *. destruct (compression_encode_ok c b options Hc) as (enc & Henc & Hl & _).
  pose proof (compression_bound_mono c (zlen b) n ltac:(lia)). exists enc. split_and!; [done|lia| |by eapply compression_rep_admits].
  split_and!; [done|lia|by exists options].
Qed.
Next Obligation. by intros c rep enc b Hc (_ & Hl & _) _. Qed.
Next Obligation. done. Qed.
Next Obligation.
  intros c rep options h key v w w' n Hc Hn Ht Hw. eexists. split; [by prog|]. apply handle_reads_tails; [unfold u64_modulus; lia|].
  eapply b2b_default_reads; [|exact Ht|]; [lia|]. eapply option_Forall2_mono; [exact Hw|]. intros enc b [Hl He].
  split; [done|]. by apply compression_decodes.
Qed.
Next Obligation. done. Qed.
Next Obligation. intros c rep options h key Hc. simpl. by apply b2b_default_confined. Qed.

(** At a valid level, with a compression library that keeps its documented bounds, every value is encoded and decoded back, and the
    size of the encoding is within the encoded representation that the codec computes, whose arithmetic does not wrap around for
    values of up to 2^61 bytes. *)
Theorem compression_within_representation (c : CompressionCodec) rep options options' b : level_ok c → rep_admits rep (zlen b) →
  (∀ n, representation_size rep = Some n → 0 <= n <= 2 ^ 61) →
  ∃ enc, compression_encode c b options = Ok enc ∧ compression_decode c enc rep options' = Ok b ∧
    rep_admits (compression_encoded_representation c rep) (zlen enc) ∧
    ∀ n, representation_size rep = Some n → compression_encoded_representation c rep = BytesBoundedSize (compression_bound c n).
Proof.
  intros Hc Hr Hn. assert (compression_accepts rep) as Ha by (unfold compression_accepts; destruct (representation_size rep); [by apply Hn|done]).
  destruct (compression_encode_ok c b options Hc) as (enc & He & Hl & Hd). exists enc.
  split_and!; [done|apply Hd|by eapply compression_rep_admits|intros n Hs; by apply compression_representation_ok].
Qed.
End lawful.

(** A library that stores values as they are, for the witness. *)
#[local] Instance storing_crates : CompressionCrates := {|
  gz_encode _ b := Some b; gz_decode b := Some b; zlib_encode _ b := Some b; zlib_decode b := Some b;
  bz_encode _ b := Some b; bz_decode b := Some b; zstd_compress _ _ b := Some b; zstd_decode_all b := Some b;
  zstd_upper_bound b := Some (zlen b); zstd_bulk_decompress b n := if zlen b <=? n then Some b else None |}.

#[local] Instance storing_lawful : LawfulCompression.
Proof.
  assert (∀ n k, 0 <= n → 0 < k → 0 <= div_ceil n k) as Hd by (intros; by apply div_ceil_nonneg).
  assert (∀ n k, 0 <= n → 0 < k → 0 <= n / k) as Hq by (intros; apply Z.div_pos; lia).
  constructor; intros; exists b; (split; [done|]); (split; [done|]); unfold gzip_bound, zlib_bound, bz2_bound, zstd_bound.
  - pose proof (Hd (zlen b) 32768). lia.
  - pose proof (Hq (zlen b) (2 ^ 12)). pose proof (Hq (zlen b) (2 ^ 14)). pose proof (Hq (zlen b) (2 ^ 25)). lia.
  - pose proof (Hq (zlen b) 8). lia.
  - split; [pose proof (Hd (zlen b) 1000); lia|]. intros n [= <-]. cbn. by rewrite (proj2 (Z.leb_le _ _)).
Qed.

Lemma compression_within_representation_witness :
  compression_encoded_representation (GzipCodec 5) (BytesFixedSize 3) = BytesBoundedSize 26 ∧
  ∃ enc, compression_encode (GzipCodec 5) [1; 2; 3] (CodecOptions_default 4) = Ok enc ∧
    rep_admits (compression_encoded_representation (GzipCodec 5) (BytesFixedSize 3)) (zlen enc).
Proof.
  split; [reflexivity|].
  destruct (compression_within_representation (GzipCodec 5) (BytesFixedSize 3) (CodecOptions_default 4)
    (CodecOptions_default 4) [1; 2; 3]) as (enc & He & _ & Hr & _); [simpl; lia|reflexivity|intros n [= <-]; lia|].
  exists enc. split; [exact He|exact Hr].
Defined.
