(* ===== verification/ArrayToArray.v ===== *)
(** Array to array codecs: [zarrs_codec/src/codec_traits/array_to_array.rs], what they inherit from
    [codec_partial_default.rs], and the squeeze codec ([zarrs/src/array/codec/array_to_array/squeeze]).

    [LawfulArrayToArrayCodec] is what a codec that keeps every element promises: encoding
    moves the elements of a chunk to the positions of another shape, decoding moves them back, and the
    partial decoder reads a region of the decoded chunk through a handle on the encoded one. *)

From S2P Require Import Prelude ArraySubset Linear Iterators ByteRange StoreKey Storage ArrayBytes.
From S2P Require Import Elements StoreProgram DecodeInto Concurrency Codec.

Class ArrayToArrayCodecTraits (A : Type) := {
  a2a_data_type : A → DataType;
  a2a_fill_value : A → FillValue;
  a2a_encoded_data_type : A → DataType;
  a2a_encoded_fill_value : A → FillValue;
  a2a_encoded_shape : A → list Z → outcome CodecError (list Z);
  a2a_recommended_concurrency : A → list Z → outcome CodecError RecommendedConcurrency;
  a2a_partial_decoder_capability : A → PartialDecoderCapability;
  a2a_partial_encoder_capability : A → bool;
  a2a_encode : A → ArrayBytes → list Z → CodecOptions → outcome CodecError ArrayBytes;
  a2a_decode : A → ArrayBytes → list Z → CodecOptions → outcome CodecError ArrayBytes;
  a2a_partial_decoder : A → ArrayHandle → list Z → CodecOptions → prog CodecError ArrayHandle;
  a2a_partial_encoder : A → ArrayEncodeHandle → list Z → CodecOptions → prog CodecError ArrayEncodeHandle;
}.

(** ** What a codec inherits *)

Section defaults.
Context (data_type : DataType) (fill_value : FillValue).
Context (encode decode : ArrayBytes → list Z → CodecOptions → outcome CodecError ArrayBytes).

(** [partial_decode] of [ArrayToArrayCodecPartialDefault]; an empty region has an extent that is not a
    [NonZeroU64]. *)
Definition a2a_default_partial_decode (input_output_handle : ArrayHandle) (options : CodecOptions) (indexer : ArraySubset)
    : prog CodecError ArrayBytes :=
  let* chunk_bytes := partial_decode input_output_handle indexer in
  if contains_zero (shape indexer) then
    preturn (match data_type_size data_type with
             | FixedSize _ => FixedBytes []
             | VariableSize => VariableBytes (mk_vlen [] [0]) end)
  else plift (decode chunk_bytes (shape indexer) options).

(** [partial_encode] of [ArrayToArrayCodecPartialDefault]. *)
Definition a2a_default_partial_encode (input_output_handle : ArrayEncodeHandle) (shape : list Z) (options : CodecOptions)
    (indexer : ArraySubset) (b : ArrayBytes) : prog CodecError unit :=
  let array_subset_all := new_with_shape shape in
  let* encoded_value := partial_decode input_output_handle array_subset_all in
  let* decoded_value := plift (decode encoded_value shape options) in
  let* _ := plift (validate_bytes decoded_value (product64 shape) data_type) in
  let* _ := plift (validate_bytes b (num_elements indexer) data_type) in
  let* decoded_value := plift (update_array_bytes decoded_value shape indexer b (data_type_size data_type)) in
  let* _ := array_erase input_output_handle in
  if negb (store_empty_chunks options) && is_fill_value decoded_value fill_value then preturn tt
  else
    let* encoded_value := plift (encode decoded_value shape options) in
    partial_encode input_output_handle array_subset_all encoded_value.
End defaults.

(** ** What a codec promises *)

Class LawfulArrayToArrayCodec (A : Type) `{!ArrayToArrayCodecTraits A} := {
  a2a_wf : A → Prop;
  a2a_shape_ok : A → list Z → Prop;
  (** the shape of the encoded chunk, and its elements *)
  a2a_shape : A → list Z → list Z;
  a2a_map : A → list Z → list element → list element;
  a2a_fill_law c : a2a_wf c → fill_ok (a2a_data_type c) (a2a_fill_value c) → fill_ok (a2a_encoded_data_type c) (a2a_encoded_fill_value c);
  a2a_fill_size_law c : a2a_wf c →
    zlen (base_fill (a2a_encoded_data_type c) (a2a_encoded_fill_value c)) = zlen (base_fill (a2a_data_type c) (a2a_fill_value c));
  a2a_fill_map_law c sh : a2a_wf c → a2a_shape_ok c sh → chunk_shape_ok sh →
    a2a_map c sh (replicate (Z.to_nat (Zprod sh)) (fill_element (a2a_data_type c) (a2a_fill_value c))) =
    replicate (Z.to_nat (Zprod sh)) (fill_element (a2a_encoded_data_type c) (a2a_encoded_fill_value c));
  a2a_shape_law c sh : a2a_wf c → a2a_shape_ok c sh → chunk_shape_ok sh →
    a2a_encoded_shape c sh = Ok (a2a_shape c sh) ∧ chunk_shape_ok (a2a_shape c sh) ∧ Zprod (a2a_shape c sh) = Zprod sh;
  a2a_map_length_law c sh V : a2a_wf c → a2a_shape_ok c sh → chunk_shape_ok sh → zlen V = Zprod sh → zlen (a2a_map c sh V) = Zprod sh;
  a2a_concurrency_law c sh : a2a_wf c → a2a_shape_ok c sh → is_Ok (a2a_recommended_concurrency c sh);
  a2a_encode_law c sh options b V : a2a_wf c → a2a_shape_ok c sh → chunk_shape_ok sh → holds b (a2a_data_type c) V → zlen V = Zprod sh →
    ∃ benc, a2a_encode c b sh options = Ok benc ∧ holds benc (a2a_encoded_data_type c) (a2a_map c sh V) ∧ array_bytes_size benc <= array_bytes_size b;
  a2a_decode_law c sh benc V : a2a_wf c → a2a_shape_ok c sh → chunk_shape_ok sh → zlen V = Zprod sh →
    holds benc (a2a_encoded_data_type c) (a2a_map c sh V) →
    ∃ b, (∀ options, a2a_decode c benc sh options = Ok b) ∧ holds b (a2a_data_type c) V ∧ array_bytes_size b <= array_bytes_size benc ∧
      (packed benc → packed b ∧ array_bytes_size b = array_bytes_size benc);
  a2a_partial_law c sh options ah v V limit : a2a_wf c → a2a_shape_ok c sh → chunk_shape_ok sh → zlen V = Zprod sh →
    array_reads ah v (a2a_encoded_data_type c) (a2a_shape c sh) (a2a_map c sh V) limit →
    ∃ ah', runs_at (a2a_partial_decoder c ah sh options) v (Ok ah') v ∧ array_reads ah' v (a2a_data_type c) sh V limit;
  a2a_partial_confined c sh options ah key : array_confined key ah → confines key (a2a_partial_decoder c ah sh options) (array_confined key);
}.

(** ** The squeeze codec

    Dimensions of size one are left out. *)

Record SqueezeCodecBound := { sq_data_type : DataType; sq_fill_value : FillValue }.

Definition squeeze_encoded_shape (decoded_shape : list Z) : list Z :=
  match filter (λ dim, 1 < dim) decoded_shape with [] => [1] | encoded_shape => encoded_shape end.

Definition get_squeezed_array_subset (decoded_region : ArraySubset) (sh : list Z) : outcome CodecError ArraySubset :=
  if negb (dimensionality decoded_region =? length sh)%nat
  then Err (IncompatibleIndexer (IdxIncompatibleDimensionality (dimensionality decoded_region) (length sh)))
  else
    let ranges := (λ r, mk_range r.1.1 (r.1.1 +w r.1.2)) <$>
      filter (λ r, 1 < r.2) (zip (zip (start decoded_region) (shape decoded_region)) sh) in
    Ok (from_ranges ranges).

Definition squeeze_partial_decode (input_output_handle : ArrayHandle) (sh : list Z) (indexer : ArraySubset) : prog CodecError ArrayBytes :=
  let* array_subset_squeezed := plift (get_squeezed_array_subset indexer sh) in
  partial_decode input_output_handle array_subset_squeezed.

Definition squeeze_partial_encode (input_output_handle : ArrayEncodeHandle) (sh : list Z) (indexer : ArraySubset) (b : ArrayBytes)
    : prog CodecError unit :=
  let* array_subset_squeezed := plift (get_squeezed_array_subset indexer sh) in
  partial_encode input_output_handle array_subset_squeezed b.

Definition squeeze_handle (input_output_handle : ArrayHandle) (sh : list Z) : ArrayHandle := {|
  partial_decode := squeeze_partial_decode input_output_handle sh;
  partial_decode_into := default_partial_decode_into (squeeze_partial_decode input_output_handle sh) |}.

#[export] Instance squeeze_traits : ArrayToArrayCodecTraits SqueezeCodecBound := {|
  a2a_data_type := sq_data_type;
  a2a_fill_value := sq_fill_value;
  a2a_encoded_data_type := sq_data_type;
  a2a_encoded_fill_value := sq_fill_value;
  a2a_encoded_shape _ sh := Ok (squeeze_encoded_shape sh);
  a2a_recommended_concurrency _ _ := Ok (new_maximum 1);
  a2a_partial_decoder_capability _ := {| partial_read := true; can_partial_decode := true |};
  a2a_partial_encoder_capability _ := true;
  a2a_encode _ b _ _ := Ok b;
  a2a_decode _ b _ _ := Ok b;
  a2a_partial_decoder _ h sh _ := preturn (squeeze_handle h sh);
  a2a_partial_encoder _ h sh _ := preturn {|
    array_decoder := squeeze_handle h sh;
    array_erase := array_erase h;
    partial_encode := squeeze_partial_encode h sh |} |}.

(** *** Correctness *)

(** The dimensions that are kept. *)
Definition kept (st ls sh : list Z) : list (Z * Z * Z) := filter (λ r, 1 < r.2) (zip (zip st ls) sh).

Lemma kept_cons o l d st ls sh : kept (o :: st) (l :: ls) (d :: sh) = if decide (1 < d) then (o, l, d) :: kept st ls sh else kept st ls sh.
Proof. unfold kept. cbn [zip_with]. by rewrite filter_cons. Qed.

(** A region within the shape, as lists. *)
Inductive in_shape : list Z → list Z → list Z → Prop :=
  | in_shape_nil : in_shape [] [] []
  | in_shape_cons o l d st ls sh : 0 <= o → 1 <= l → o + l <= d → d < u64_modulus → in_shape st ls sh → in_shape (o :: st) (l :: ls) (d :: sh).

Lemma nonempty_extents s : is_empty s = false → Forall (λ l, l ≠ 0) (shape s).
Proof.
  unfold is_empty. induction (shape s) as [|l ls IH]; [constructor|]. cbn [existsb]. intros [Hl%Z.eqb_neq Hls]%orb_false_iff.
  constructor; [done|by apply IH].
Qed.

Lemma region_in_shape s sh : region_ok s sh → Forall (λ d, 1 <= d) sh → in_shape (start s) (shape s) sh.
Proof.
  intros (([Hl Hwf] & _) & [Hla Hin] & Hne%nonempty_extents & Hnn & Hp) Hsh.
  assert (Forall (λ d, d < u64_modulus) sh) as Hu.
  { apply Forall_forall. intros d Hd. apply list_elem_of_split in Hd as (l1 & l2 & ->). rewrite Zprod_app, Zprod_cons in Hp.
    apply Forall_app in Hsh as [H1 H2%Forall_cons]. destruct H2 as [H2 H3].
    assert (1 <= Zprod l1) by (pose proof (Zprod_pos l1 ltac:(eapply Forall_impl; [exact H1|]; simpl; lia)); lia).
    assert (1 <= Zprod l2) by (pose proof (Zprod_pos l2 ltac:(eapply Forall_impl; [exact H3|]; simpl; lia)); lia).
    assert (d <= d * Zprod l2) by nia. assert (d * Zprod l2 <= Zprod l1 * (d * Zprod l2)) by nia. lia. }
  destruct s as [st ls]. cbn [start shape] in *. clear Hnn Hp. revert ls sh Hl Hwf Hla Hin Hne Hsh Hu.
  induction st as [|o st IH]; intros [|l ls] [|d sh] Hl Hwf Hla Hin Hne Hsh Hu; try done; constructor.
  - specialize (Hwf 0%nat ltac:(simpl; lia)). apply Hwf.
  - specialize (Hwf 0%nat ltac:(simpl; lia)). apply Forall_cons in Hne as [Hne _]. simpl in Hwf. lia.
  - apply (Hin 0%nat). simpl. lia.
  - by apply Forall_cons in Hu as [Hu _].
  - apply Forall_cons in Hne as [_ Hne], Hsh as [_ Hsh], Hu as [_ Hu]. apply IH; try done; [by injection Hl| |by injection Hla|].
    + intros j Hj. apply (Hwf (S j)). simpl. lia.
    + intros j Hj. apply (Hin (S j)). simpl. lia.
Qed.

Lemma in_shape_region st ls sh : in_shape st ls sh → shape_wf sh → region_ok (mk_subset st ls) sh ∧ length st = length sh.
Proof.
  intros Hi Hsh. assert (length ls = length st ∧ length st = length sh ∧
    (∀ j, (j < length st)%nat → 0 <= st !!! j ∧ 1 <= ls !!! j ∧ st !!! j + ls !!! j <= sh !!! j ∧ sh !!! j < u64_modulus) ∧
    Forall (λ l, 1 <= l) ls ∧ Zprod ls <= Zprod sh) as (Hl & Hl' & Hj & Hls & Hp).
  { clear Hsh. induction Hi as [|o l d st ls sh Ho Hl Hd Hu Hi (IH1 & IH2 & IH3 & IH4 & IH5)]; [by split_and!; try done; intros j Hj; simpl in Hj; lia|].
    rewrite !Zprod_cons. pose proof (Zprod_nonneg ls ltac:(eapply Forall_impl; [exact IH4|]; simpl; lia)).
    split_and!; [simpl; lia|simpl; lia| |by constructor|nia]. intros [|j] Hlt; [simpl; lia|]. apply IH3. simpl in Hlt. lia. }
  split; [|done]. assert (Forall (λ d, 0 <= d) ls) as Hn by (eapply Forall_impl; [exact Hls|]; simpl; lia).
  unfold region_ok, region_wf, subset_wf, in_array, shape_wf. cbn [start shape]. destruct Hsh as [Hsh1 Hsh2].
  split_and!; try done; [|lia| |].
  - intros j Hlt. specialize (Hj j Hlt). lia.
  - intros j Hlt. specialize (Hj j ltac:(lia)). lia.
  - unfold is_empty. cbn [shape]. clear -Hls. induction Hls as [|l ls Hl Hls IH]; [done|]. cbn [existsb]. rewrite IH, orb_false_r.
    apply Z.eqb_neq. lia.
Qed.

Lemma squeeze_lin_elements_cons o l d st ls sh :
  lin_elements (o :: st) (l :: ls) (d :: sh) = seqZ o l ≫= λ i, Z.add (i * Zprod sh) <$> lin_elements st ls sh.
Proof.
  unfold lin_elements. cbn [box]. rewrite list_fmap_of_bind. apply list_bind_ext; [|done]. intros i. by rewrite !list_fmap_fmap.
Qed.

Lemma kept_spec st ls sh : in_shape st ls sh →
  (kept st ls sh).*2 = filter (λ d, 1 < d) sh ∧ Zprod (filter (λ d, 1 < d) sh) = Zprod sh ∧
  in_shape (kept st ls sh).*1.*1 (kept st ls sh).*1.*2 (filter (λ d, 1 < d) sh) ∧
  lin_elements (kept st ls sh).*1.*1 (kept st ls sh).*1.*2 (filter (λ d, 1 < d) sh) = lin_elements st ls sh.
Proof.
  induction 1 as [|o l d st ls sh Ho Hl Hd Hu Hi (IH1 & IH2 & IH3 & IH4)]; [by split_and!; [..|constructor|]|].
  rewrite kept_cons, filter_cons. destruct (decide (1 < d)) as [Hd1|Hd1].
  - rewrite !fmap_cons, !Zprod_cons, squeeze_lin_elements_cons, IH1, IH2, IH4. cbn [fst snd]. split_and!; [done..|by constructor|].
    by rewrite squeeze_lin_elements_cons.
  - assert (d = 1 ∧ o = 0 ∧ l = 1) as (-> & -> & ->) by lia. rewrite Zprod_cons, squeeze_lin_elements_cons, IH1, IH2, IH4.
    split_and!; [done|lia|done|]. change (seqZ 0 1) with [0]. cbn [mbind list_bind]. rewrite app_nil_r.
    replace (Z.add (0 * Zprod sh) <$> lin_elements st ls sh) with (id <$> lin_elements st ls sh); [by rewrite list_fmap_id|].
    apply list_fmap_ext. intros _ x _. simpl. lia.
Qed.

Lemma kept_bounds st ls sh : in_shape st ls sh → Forall (λ r, 0 <= r.1.1 ∧ 1 <= r.1.2 ∧ r.1.1 + r.1.2 < u64_modulus) (kept st ls sh).
Proof.
  induction 1 as [|o l d st ls sh Ho Hl Hd Hu Hi IH]; [constructor|]. rewrite kept_cons.
  case_decide; [|done]. constructor; [cbn [fst snd]; lia|done].
Qed.

Lemma get_squeezed_ok sub sh : region_ok sub sh → Forall (λ d, 1 <= d) sh →
  ∃ sub', get_squeezed_array_subset sub sh = Ok sub' ∧ region_ok sub' (filter (λ d, 1 < d) sh) ∧
    positions sub' (filter (λ d, 1 < d) sh) = positions sub sh ∧ Zprod (shape sub') = Zprod (shape sub).
Proof.
  intros Hok Hsh. pose proof (region_in_shape sub sh Hok Hsh) as Hi. pose proof (kept_bounds _ _ _ Hi) as Hb.
  destruct (kept_spec _ _ _ Hi) as (_ & Hp & Hk & Hlin). pose proof Hok as (Hs & Ha & _ & Hwf).
  assert (shape_wf (filter (λ d, 1 < d) sh)) as Hwf'.
  { split; [|rewrite Hp; apply Hwf]. apply Forall_forall. intros d [Hd _]%list_elem_of_filter. lia. }
  destruct (in_shape_region _ _ _ Hk Hwf') as [Hok' _].
  exists (mk_subset (kept (start sub) (shape sub) sh).*1.*1 (kept (start sub) (shape sub) sh).*1.*2).
  assert (positions (mk_subset (kept (start sub) (shape sub) sh).*1.*1 (kept (start sub) (shape sub) sh).*1.*2) (filter (λ d, 1 < d) sh) =
    positions sub sh) as Hpos by exact Hlin.
  split_and!; [|done|done|].
  - unfold get_squeezed_array_subset. unfold dimensionality. rewrite (proj2 (Nat.eqb_eq _ _)) by (destruct Ha; lia). cbn [negb].
    fold (kept (start sub) (shape sub) sh). f_equal. unfold from_ranges. rewrite !list_fmap_fmap. cbn [r_start r_end].
    f_equal. apply list_fmap_ext_in. intros r Hr. rewrite Forall_forall in Hb. specialize (Hb r Hr).
    rewrite wrap64_small by (unfold is_u64; lia). unfold saturating_sub. lia.
  - assert (region_wf sub) as Hsw by apply Hok.
    rewrite <-(length_positions sub sh Hsw), <-Hpos, (length_positions _ _ (proj1 Hok')). done.
Qed.

Lemma squeeze_shape_eq sh : Exists (λ d, 1 < d) sh → squeeze_encoded_shape sh = filter (λ d, 1 < d) sh.
Proof.
  intros Hex. unfold squeeze_encoded_shape. destruct (filter _ sh) eqn:Hf; [|done]. exfalso.
  apply Exists_exists in Hex as (d & Hd & Hlt). assert (d ∈ filter (λ d, 1 < d) sh) as Hin by (apply list_elem_of_filter; done).
  rewrite Hf in Hin. by apply not_elem_of_nil in Hin.
Qed.

Lemma squeeze_product sh : chunk_shape_ok sh → Zprod (filter (λ d, 1 < d) sh) = Zprod sh.
Proof.
  intros [Hsh _]. induction Hsh as [|d sh Hd Hsh IH]; [done|]. rewrite filter_cons. case_decide; rewrite ?Zprod_cons; [by rewrite IH|].
  rewrite IH. cbv beta in *. assert (d = 1) as -> by lia. lia.
Qed.

(** The codec keeps its promises on chunks with a dimension larger than one; see [squeeze_unit_chunk] for the others. *)
#[export] Program Instance squeeze_lawful : LawfulArrayToArrayCodec SqueezeCodecBound := {|
  a2a_wf _ := True;
  a2a_shape_ok _ sh := Exists (λ d, 1 < d) sh;
  a2a_shape _ sh := filter (λ d, 1 < d) sh;
  a2a_map _ _ V := V |}.
Next Obligation. done. Qed.
Next Obligation. done. Qed.
Next Obligation. done. Qed.
Next Obligation.
  intros c sh _ Hex Hsh. cbv beta in *. pose proof (squeeze_product sh Hsh) as Hp. destruct Hsh as [Hsh Hb].
  split_and!; [by simpl; rewrite squeeze_shape_eq| |done]. split; [|by rewrite Hp].
  apply Forall_forall. intros d [Hd _]%list_elem_of_filter. lia.
Qed.
Next Obligation. done. Qed.
Next Obligation. by eexists. Qed.
Next Obligation. intros c sh options b V _ _ _ Hh _. by exists b. Qed.
Next Obligation. intros c sh benc V _ _ _ _ Hh. by exists benc. Qed.
Next Obligation.
  intros c sh options ah v V limit _ Hex [Hsh _] HV Hr. cbv beta in *. eexists. split; [by prog|]. intros sub Hsub.
  destruct (get_squeezed_ok sub sh Hsub Hsh) as (sub' & Hg & Hok & Hpos & Hpr). destruct (Hr sub' Hok) as (out & Hrun & Hho & Hsz & Hinto).
  rewrite Hpos in Hho. assert (runs_at (squeeze_partial_decode ah sh sub) v (Ok out) v) as Hpd.
  { unfold squeeze_partial_decode. rewrite Hg. by prog. }
  exists out. split_and!; [done..|]. intros t t' Ht Hd. by eapply default_partial_decode_into_ok.
Qed.
Next Obligation.
  intros c sh options ah key Hc sub. assert (∀ sub, confined key (squeeze_partial_decode ah sh sub)) as Hs.
  { intros s. unfold squeeze_partial_decode. destruct (get_squeezed_array_subset s sh); prog; [apply Hc|done..]. }
  split; [apply Hs|]. intros t. apply default_partial_decode_into_confined, Hs.
Qed.

(** When every dimension of the chunk has size one, the encoded chunk has one dimension, but a region is
    squeezed to none: the region that the handle is asked for does not have the shape's dimensions. *)
Lemma squeeze_unit_chunk sub sh : dimensionality sub = length sh → Forall (λ d, d = 1) sh →
  squeeze_encoded_shape sh = [1] ∧ get_squeezed_array_subset sub sh = Ok (mk_subset [] []).
Proof.
  intros Hd Hsh. assert (filter (λ dim, 1 < dim) sh = []) as Hf.
  { clear Hd. induction Hsh as [|d sh -> Hsh IH]; [done|]. rewrite filter_cons, decide_False by lia. done. }
  unfold squeeze_encoded_shape. rewrite Hf. split; [done|]. unfold get_squeezed_array_subset.
  rewrite (proj2 (Nat.eqb_eq _ _)) by done. cbn [negb]. do 2 f_equal. unfold from_ranges.
  replace (filter _ _) with (@nil (Z * Z * Z)); [done|]. symmetry. generalize (zip (start sub) (shape sub)). clear -Hsh.
  induction Hsh as [|d sh -> Hsh IH]; intros [|r l]; [done..|]. cbn [zip_with]. rewrite filter_cons. cbn [snd]. by rewrite decide_False by lia.
Qed.
