(* ===== verification/CodecChain.v ===== *)
(** Codec chains: [zarrs/src/array/codec/array_to_bytes/codec_chain.rs], with the caches that its partial decoders
    insert ([array_partial_decoder_cache.rs], [bytes_partial_decoder_cache.rs]).

    A chain is an array to bytes codec made of array to array codecs, an array to bytes codec and
    bytes to bytes codecs.  The kinds of codecs are types with a class: a type of several codecs stands for
    [Arc<dyn ...>]. *)

From S2P Require Import Prelude ArraySubset Linear Iterators ByteRange StoreKey Storage ArrayBytes.
From S2P Require Import Elements StoreProgram DecodeInto Concurrency Codec BytesToBytes ArrayToArray.

(** ** Caches *)

Definition cached_bytes (cache : option bytes) : BytesHandle := {|
  bytes_exists := preturn (bool_decide (is_Some cache));
  bytes_partial_decode_many := λ decoded_regions,
    match cache with
    | Some b => let* v := plift (map_err CodecInvalidByteRange (extract_byte_ranges b decoded_regions)) in preturn (Some v)
    | None => preturn None
    end |}.

(** [BytesPartialDecoderCache::new]. *)
Definition BytesPartialDecoderCache_new (input_handle : BytesHandle) : prog CodecError BytesHandle :=
  let* cache := bytes_partial_decode input_handle (FromStart 0 None) in
  preturn (cached_bytes cache).

Definition cached_array (cache : ArrayBytes) (shape : list Z) (data_type : DataType) : ArrayHandle :=
  let partial_decode indexer := plift (extract_array_subset cache indexer shape data_type) in
  {| partial_decode := partial_decode; partial_decode_into := default_partial_decode_into partial_decode |}.

(** [ArrayPartialDecoderCache::new], less the subchunk grids that it copies from the handle. *)
Definition ArrayPartialDecoderCache_new (input_handle : ArrayHandle) (shape : list Z) (data_type : DataType) : prog CodecError ArrayHandle :=
  let* b := partial_decode input_handle (new_with_shape shape) in
  preturn (cached_array b shape data_type).

(** ** Chains *)

Section chain.
Context {A C B : Type} `{!ArrayToArrayCodecTraits A, !ArrayToBytesCodecTraits C, !BytesToBytesCodecTraits B}.

Record CodecChainBound := mk_chain {
  array_to_array : list A;
  array_to_bytes : C;
  bytes_to_bytes : list B;
  cache_index : option Z;
}.

(** The scan of the capabilities of the codecs, in decoding order: where a cache must, and where it should be. *)
Fixpoint scan_capabilities (capabilities : list PartialDecoderCapability) (codec_index : Z) (cache_index_must cache_index_should : option Z)
    : option Z * option Z :=
  match capabilities with
  | [] => (cache_index_must, cache_index_should)
  | capability :: capabilities =>
      let cache_index_should := if partial_read capability then cache_index_should else Some codec_index in
      let cache_index_must := if can_partial_decode capability then cache_index_must else Some (codec_index + 1) in
      scan_capabilities capabilities (codec_index + 1) cache_index_must cache_index_should
  end.

Definition choose_cache_index (capabilities : list PartialDecoderCapability) : option Z :=
  match scan_capabilities capabilities 0 None None with
  | (Some m, Some s) => Some (Z.max m s)
  | (Some m, None) => Some m
  | (None, Some s) => Some s
  | (None, None) => None
  end.

Definition chain_data_type (self : CodecChainBound) : DataType :=
  match array_to_array self with [] => a2b_data_type (array_to_bytes self) | codec :: _ => a2a_data_type codec end.

Definition chain_fill_value (self : CodecChainBound) : FillValue :=
  match array_to_array self with [] => a2b_fill_value (array_to_bytes self) | codec :: _ => a2a_fill_value codec end.

(** *** Representations *)

Definition ArrayRepresentation : Type := list Z * DataType * FillValue.

Fixpoint array_representations_loop (codecs : list A) (shape : list Z) : outcome CodecError (list ArrayRepresentation) :=
  match codecs with
  | [] => Ok []
  | codec :: codecs =>
      let? shape := a2a_encoded_shape codec shape in
      let? array_representations := array_representations_loop codecs shape in
      Ok ((shape, a2a_encoded_data_type codec, a2a_encoded_fill_value codec) :: array_representations)
  end.

Definition get_array_representations (self : CodecChainBound) (shape : list Z) : outcome CodecError (list ArrayRepresentation) :=
  let? array_representations := array_representations_loop (array_to_array self) shape in
  Ok ((shape, chain_data_type self, chain_fill_value self) :: array_representations).

(** The representations of the value before each codec, and after the last. *)
Fixpoint bytes_representations_loop (codecs : list B) (bytes_representation : BytesRepresentation) : list BytesRepresentation :=
  bytes_representation ::
    match codecs with
    | [] => []
    | codec :: codecs => bytes_representations_loop codecs (b2b_encoded_representation codec bytes_representation)
    end.

Definition get_bytes_representations (self : CodecChainBound) (shape : list Z) : outcome CodecError (list BytesRepresentation) :=
  let? bytes_representation := a2b_encoded_representation (array_to_bytes self) shape in
  Ok (bytes_representations_loop (bytes_to_bytes self) bytes_representation).

(** [array_representations.last().unwrap().0]. *)
Definition last_shape (array_representations : list ArrayRepresentation) : outcome CodecError (list Z) :=
  let? r := expect (last array_representations) in Ok r.1.1.

Definition get_representations (self : CodecChainBound) (shape : list Z)
    : outcome CodecError (list ArrayRepresentation * list BytesRepresentation) :=
  let? array_representations := get_array_representations self shape in
  let? shape := last_shape array_representations in
  let? bytes_representations := get_bytes_representations self shape in
  Ok (array_representations, bytes_representations).

(** [zip(codecs.iter().rev(), representations.iter().rev().skip(1))]. *)
Definition decoding_order {X R} (codecs : list X) (representations : list R) : list (X * R) :=
  zip (reverse codecs) (drop 1 (reverse representations)).

(** *** Encoding and decoding *)

Fixpoint encode_arrays (codecs : list A) (b : ArrayBytes) (shape : list Z) (options : CodecOptions) : outcome CodecError (ArrayBytes * list Z) :=
  match codecs with
  | [] => Ok (b, shape)
  | codec :: codecs =>
      let? b := a2a_encode codec b shape options in
      let? shape := a2a_encoded_shape codec shape in
      encode_arrays codecs b shape options
  end.

Fixpoint encode_bytes (codecs : list B) (b : bytes) (options : CodecOptions) : outcome CodecError bytes :=
  match codecs with
  | [] => Ok b
  | codec :: codecs => let? b := b2b_encode codec b options in encode_bytes codecs b options
  end.

Definition chain_encode (self : CodecChainBound) (b : ArrayBytes) (shape : list Z) (options : CodecOptions) : outcome CodecError bytes :=
  let? _ := validate_bytes b (product64 shape) (chain_data_type self) in
  let? x := encode_arrays (array_to_array self) b shape options in
  let? b := a2b_encode (array_to_bytes self) x.1 x.2 options in
  let? _ := a2b_encoded_representation (array_to_bytes self) x.2 in
  encode_bytes (bytes_to_bytes self) b options.

Fixpoint decode_bytes (codecs : list (B * BytesRepresentation)) (b : bytes) (options : CodecOptions) : outcome CodecError bytes :=
  match codecs with
  | [] => Ok b
  | (codec, bytes_representation) :: codecs =>
      let? b := b2b_decode codec b bytes_representation options in decode_bytes codecs b options
  end.

Fixpoint decode_arrays (codecs : list (A * ArrayRepresentation)) (b : ArrayBytes) (options : CodecOptions) : outcome CodecError ArrayBytes :=
  match codecs with
  | [] => Ok b
  | (codec, (shape, _, _)) :: codecs => let? b := a2a_decode codec b shape options in decode_arrays codecs b options
  end.

Definition chain_decode (self : CodecChainBound) (b : bytes) (shape : list Z) (options : CodecOptions) : outcome CodecError ArrayBytes :=
  let? reps := get_representations self shape in
  let? b := decode_bytes (decoding_order (bytes_to_bytes self) reps.2) b options in
  let? last := last_shape reps.1 in
  let? b := a2b_decode (array_to_bytes self) b last options in
  let? b := decode_arrays (decoding_order (array_to_array self) reps.1) b options in
  let? _ := validate_bytes b (product64 shape) (chain_data_type self) in
  Ok b.

Definition is_nil {X} (l : list X) : bool := match l with [] => true | _ => false end.

Definition chain_decode_into (self : CodecChainBound) (b : bytes) (shape : list Z) (output_target : ArrayBytesDecodeIntoTarget)
    (options : CodecOptions) : outcome CodecError ArrayBytesDecodeIntoTarget :=
  let? reps := get_representations self shape in
  if is_nil (bytes_to_bytes self) && is_nil (array_to_array self) then
    let? last := last_shape reps.1 in a2b_decode_into (array_to_bytes self) b last output_target options
  else
    let? b := decode_bytes (decoding_order (bytes_to_bytes self) reps.2) b options in
    let? last := last_shape reps.1 in
    if is_nil (array_to_array self) then a2b_decode_into (array_to_bytes self) b last output_target options
    else
      let? b := a2b_decode (array_to_bytes self) b last options in
      let? b := decode_arrays (decoding_order (array_to_array self) reps.1) b options in
      let? _ := validate_bytes b (product64 shape) (chain_data_type self) in
      decode_into_array_bytes_target b output_target.

Definition chain_compact (self : CodecChainBound) (b : bytes) (shape : list Z) (options : CodecOptions) : outcome CodecError (option bytes) :=
  let? reps := get_representations self shape in
  let? b := decode_bytes (decoding_order (bytes_to_bytes self) reps.2) b options in
  let? last := last_shape reps.1 in
  let? compacted := a2b_compact (array_to_bytes self) b last options in
  match compacted with
  | Some compacted_bytes => let? b := encode_bytes (bytes_to_bytes self) compacted_bytes options in Ok (Some b)
  | None => Ok None
  end.

Definition chain_encoded_representation (self : CodecChainBound) (shape : list Z) : outcome CodecError BytesRepresentation :=
  let? array_representations := get_array_representations self shape in
  let? shape := last_shape array_representations in
  let? bytes_representation := a2b_encoded_representation (array_to_bytes self) shape in
  Ok (fold_left (λ bytes_representation codec, b2b_encoded_representation codec bytes_representation) (bytes_to_bytes self) bytes_representation).

(** *** Concurrency *)

Definition widen (acc : Z * Z) (recommended_concurrency : RecommendedConcurrency) : Z * Z :=
  (Z.min acc.1 (rc_min recommended_concurrency), Z.max acc.2 (rc_max recommended_concurrency)).

Fixpoint widen_bytes (codecs : list (B * BytesRepresentation)) (acc : Z * Z) : outcome CodecError (Z * Z) :=
  match codecs with
  | [] => Ok acc
  | (codec, bytes_representation) :: codecs =>
      let? r := b2b_recommended_concurrency codec bytes_representation in widen_bytes codecs (widen acc r)
  end.

Fixpoint widen_arrays (codecs : list (A * ArrayRepresentation)) (acc : Z * Z) : outcome CodecError (Z * Z) :=
  match codecs with
  | [] => Ok acc
  | (codec, (shape, _, _)) :: codecs =>
      let? r := a2a_recommended_concurrency codec shape in widen_arrays codecs (widen acc r)
  end.

Definition chain_recommended_concurrency (self : CodecChainBound) (shape : list Z) : outcome CodecError RecommendedConcurrency :=
  let? reps := get_representations self shape in
  let? acc := widen_bytes (decoding_order (bytes_to_bytes self) reps.2) (u64_max, 0) in
  let? last := last_shape reps.1 in
  let? r := a2b_recommended_concurrency (array_to_bytes self) last in
  let? acc := widen_arrays (decoding_order (array_to_array self) reps.1) (widen acc r) in
  Ok (RecommendedConcurrency_new (Included (Z.min acc.1 acc.2)) (Excluded acc.2)).

(** *** Partial decoders and encoders *)

(** The cache is inserted before the codec at its index. *)
Definition cache_bytes_at (cache_index : option Z) (codec_index : Z) (input_handle : BytesHandle) : prog CodecError BytesHandle :=
  if decide (Some codec_index = cache_index) then BytesPartialDecoderCache_new input_handle else preturn input_handle.

Definition cache_array_at (cache_index : option Z) (codec_index : Z) (input_handle : ArrayHandle) (shape : list Z) (data_type : DataType)
    : prog CodecError ArrayHandle :=
  if decide (Some codec_index = cache_index) then ArrayPartialDecoderCache_new input_handle shape data_type else preturn input_handle.

Fixpoint partial_decode_bytes (cache_index : option Z) (codecs : list (B * BytesRepresentation)) (codec_index : Z)
    (input_handle : BytesHandle) (options : CodecOptions) : prog CodecError (BytesHandle * Z) :=
  match codecs with
  | [] => preturn (input_handle, codec_index)
  | (codec, bytes_representation) :: codecs =>
      let* input_handle := cache_bytes_at cache_index codec_index input_handle in
      let* input_handle := b2b_partial_decoder codec input_handle bytes_representation options in
      partial_decode_bytes cache_index codecs (codec_index + 1) input_handle options
  end.

(** The cache has the shape and the data type of the decoded side of the codec. *)
Fixpoint partial_decode_arrays (cache_index : option Z) (codecs : list (A * ArrayRepresentation)) (codec_index : Z)
    (input_handle : ArrayHandle) (options : CodecOptions) : prog CodecError (ArrayHandle * Z) :=
  match codecs with
  | [] => preturn (input_handle, codec_index)
  | (codec, (shape, data_type, _)) :: codecs =>
      let* input_handle := cache_array_at cache_index codec_index input_handle shape data_type in
      let* input_handle := a2a_partial_decoder codec input_handle shape options in
      partial_decode_arrays cache_index codecs (codec_index + 1) input_handle options
  end.

Definition chain_partial_decoder (self : CodecChainBound) (input_handle : BytesHandle) (shape : list Z) (options : CodecOptions)
    : prog CodecError ArrayHandle :=
  let* reps := plift (get_representations self shape) in
  let* x := partial_decode_bytes (cache_index self) (decoding_order (bytes_to_bytes self) reps.2) 0 input_handle options in
  let '(input_handle, codec_index) := x in
  let* input_handle := cache_bytes_at (cache_index self) codec_index input_handle in
  let* last := plift (last_shape reps.1) in
  let* input_handle := a2b_partial_decoder (array_to_bytes self) input_handle last options in
  let* x := partial_decode_arrays (cache_index self) (decoding_order (array_to_array self) reps.1) (codec_index + 1) input_handle options in
  let '(input_handle, codec_index) := x in
  cache_array_at (cache_index self) codec_index input_handle shape (chain_data_type self).

Fixpoint partial_encode_bytes (codecs : list (B * BytesRepresentation)) (input_output_handle : BytesEncodeHandle) (options : CodecOptions)
    : prog CodecError BytesEncodeHandle :=
  match codecs with
  | [] => preturn input_output_handle
  | (codec, bytes_representation) :: codecs =>
      let* input_output_handle := b2b_partial_encoder codec input_output_handle bytes_representation options in
      partial_encode_bytes codecs input_output_handle options
  end.

Fixpoint partial_encode_arrays (codecs : list (A * ArrayRepresentation)) (input_output_handle : ArrayEncodeHandle) (options : CodecOptions)
    : prog CodecError ArrayEncodeHandle :=
  match codecs with
  | [] => preturn input_output_handle
  | (codec, (shape, _, _)) :: codecs =>
      let* input_output_handle := a2a_partial_encoder codec input_output_handle shape options in
      partial_encode_arrays codecs input_output_handle options
  end.

Definition chain_partial_encoder (self : CodecChainBound) (input_output_handle : BytesEncodeHandle) (shape : list Z) (options : CodecOptions)
    : prog CodecError ArrayEncodeHandle :=
  let* reps := plift (get_representations self shape) in
  let* input_output_handle := partial_encode_bytes (decoding_order (bytes_to_bytes self) reps.2) input_output_handle options in
  let* last := plift (last_shape reps.1) in
  let* input_output_handle := a2b_partial_encoder (array_to_bytes self) input_output_handle last options in
  partial_encode_arrays (decoding_order (array_to_array self) reps.1) input_output_handle options.

(** *** Capabilities *)

Definition decoding_capabilities (self : CodecChainBound) : list PartialDecoderCapability :=
  (b2b_partial_decoder_capability <$> reverse (bytes_to_bytes self)) ++
  a2b_partial_decoder_capability (array_to_bytes self) ::
  (a2a_partial_decoder_capability <$> reverse (array_to_array self)).

(** All the codecs must support partial decoding. *)
Definition chain_partial_decoder_capability (self : CodecChainBound) : PartialDecoderCapability :=
  fold_left (λ acc capability, {|
      partial_read := partial_read acc && partial_read capability;
      can_partial_decode := can_partial_decode acc && can_partial_decode capability |})
    ((a2a_partial_decoder_capability <$> array_to_array self) ++
     a2b_partial_decoder_capability (array_to_bytes self) ::
     (b2b_partial_decoder_capability <$> bytes_to_bytes self))
    {| partial_read := true; can_partial_decode := true |}.

Definition chain_partial_encoder_capability (self : CodecChainBound) : bool :=
  fold_left andb
    ((a2a_partial_encoder_capability <$> array_to_array self) ++
     a2b_partial_encode_capability (array_to_bytes self) ::
     (b2b_partial_encoder_capability <$> bytes_to_bytes self)) true.

#[export] Instance chain_traits : ArrayToBytesCodecTraits CodecChainBound := {|
  a2b_data_type := chain_data_type;
  a2b_fill_value := chain_fill_value;
  a2b_recommended_concurrency := chain_recommended_concurrency;
  a2b_partial_decoder_capability := chain_partial_decoder_capability;
  a2b_partial_encode_capability := chain_partial_encoder_capability;
  a2b_encoded_representation := chain_encoded_representation;
  a2b_encode := chain_encode;
  a2b_decode := chain_decode;
  a2b_compact := chain_compact;
  a2b_decode_into := chain_decode_into;
  a2b_partial_decoder := chain_partial_decoder;
  a2b_partial_encoder := chain_partial_encoder |}.
End chain.
#[global] Arguments CodecChainBound : clear implicits.

(** ** Binding a chain to a data type *)

(** Codecs before they are bound. *)
Class UnboundArrayToArrayCodecTraits (UA A : Type) := {
  ua_partial_decoder_capability : UA → PartialDecoderCapability;
  ua_with_context : UA → DataType → FillValue → outcome CodecError A;
}.

Class UnboundArrayToBytesCodecTraits (UC C : Type) := {
  uc_partial_decoder_capability : UC → PartialDecoderCapability;
  uc_with_context : UC → DataType → FillValue → outcome CodecError C;
}.

Section unbound.
Context {UA A UC C B : Type} `{!ArrayToArrayCodecTraits A, !BytesToBytesCodecTraits B}.
Context `{!UnboundArrayToArrayCodecTraits UA A, !UnboundArrayToBytesCodecTraits UC C}.

Record CodecChain := mk_unbound_chain {
  u_array_to_array : list UA;
  u_array_to_bytes : UC;
  u_bytes_to_bytes : list B;
}.

(** Each codec is bound to what the codec before it encodes to. *)
Fixpoint bind_array_to_array (codecs : list UA) (data_type : DataType) (fill_value : FillValue)
    : outcome CodecError (list A * DataType * FillValue) :=
  match codecs with
  | [] => Ok ([], data_type, fill_value)
  | codec :: codecs =>
      let? bound := ua_with_context codec data_type fill_value in
      let? x := bind_array_to_array codecs (a2a_encoded_data_type bound) (a2a_encoded_fill_value bound) in
      let '(bounds, data_type, fill_value) := x in
      Ok (bound :: bounds, data_type, fill_value)
  end.

Definition with_context (self : CodecChain) (data_type : DataType) (fill_value : FillValue) : outcome CodecError (CodecChainBound A C B) :=
  let? x := bind_array_to_array (u_array_to_array self) data_type fill_value in
  let '(array_to_array, data_type, fill_value) := x in
  let? array_to_bytes := uc_with_context (u_array_to_bytes self) data_type fill_value in
  let cache_index := choose_cache_index
    ((b2b_partial_decoder_capability <$> reverse (u_bytes_to_bytes self)) ++
     uc_partial_decoder_capability (u_array_to_bytes self) ::
     (ua_partial_decoder_capability <$> reverse (u_array_to_array self))) in
  Ok (mk_chain array_to_array array_to_bytes (u_bytes_to_bytes self) cache_index).
End unbound.
#[global] Arguments CodecChain : clear implicits.
