(* ===== verification/CodecChainSpec.v ===== *)
(** A codec chain keeps the promises of an array to bytes codec: the laws of its codecs compose, and the partial
    decoder, with its cache, reads any region of what decoding the whole chunk gives. *)

From S2P Require Import Prelude ArraySubset Linear Iterators ByteRange StoreKey Storage ArrayBytes.
From S2P Require Import Elements StoreProgram DecodeInto Concurrency Codec BytesToBytes ArrayToArray CodecChain.

(** ** The place of the cache *)

(** A codec at [codec_index] reads through the cache, or there is none. *)
Definition covers_index (cache_index : option Z) (codec_index : Z) : Prop :=
  match cache_index with Some k => k <= codec_index | None => True end.

#[global] Instance covers_index_dec k i : Decision (covers_index k i).
Proof. destruct k; simpl; apply _. Defined.

(** What a scan has found: the index after the last codec that cannot decode partially, and the index of the last one that
    cannot read partially. *)
Definition scanned (capabilities : list PartialDecoderCapability) (start : Z) (must should : option Z) : Prop :=
  (∀ (i : nat) cap, capabilities !! i = Some cap → can_partial_decode cap = false → ∃ m, must = Some m ∧ start + Z.of_nat i + 1 <= m) ∧
  (∀ (i : nat) cap, capabilities !! i = Some cap → partial_read cap = false → ∃ s, should = Some s ∧ start + Z.of_nat i <= s).

Lemma scan_spec capabilities i0 must0 should0 must should :
  scan_capabilities capabilities i0 must0 should0 = (must, should) →
  (∀ m, must0 = Some m → m <= i0) → (∀ s, should0 = Some s → s <= i0) →
  scanned capabilities i0 must should ∧
  match must with
  | None => must0 = None
  | Some m => must0 = Some m ∨ ∃ (i : nat) cap, capabilities !! i = Some cap ∧ can_partial_decode cap = false ∧ m = i0 + Z.of_nat i + 1
  end ∧
  match should with
  | None => should0 = None
  | Some s => should0 = Some s ∨ ∃ (i : nat) cap, capabilities !! i = Some cap ∧ partial_read cap = false ∧ s = i0 + Z.of_nat i
  end ∧
  (∀ m, must0 = Some m → ∃ m', must = Some m' ∧ m <= m') ∧ (∀ s, should0 = Some s → ∃ s', should = Some s' ∧ s <= s').
Proof.
  revert i0 must0 should0. induction capabilities as [|cap caps IH]; intros i0 must0 should0; cbn [scan_capabilities].
  - intros [= <- <-] Hm Hs. split_and!; [by split|by destruct must0; auto|by destruct should0; auto|intros m ->; by exists m|intros s ->; by exists s].
  - intros Hscan Hm Hs. destruct (IH _ _ _ Hscan) as ((Hc & Hr) & Hmust & Hshould & Hm' & Hs').
    { intros m. destruct (can_partial_decode cap); [intros He%Hm; lia|intros [= <-]; lia]. }
    { intros s. destruct (partial_read cap); [intros He%Hs; lia|intros [= <-]; lia]. }
    split_and!.
    + split; intros [|i] cap' He Hcap; simpl in He.
      * injection He as <-. rewrite Hcap in Hm'. destruct (Hm' _ eq_refl) as (m & -> & Hle). exists m. split; [done|lia].
      * destruct (Hc i cap' He Hcap) as (m & -> & Hle). exists m. split; [done|lia].
      * injection He as <-. rewrite Hcap in Hs'. destruct (Hs' _ eq_refl) as (s & -> & Hle). exists s. split; [done|lia].
      * destruct (Hr i cap' He Hcap) as (s & -> & Hle). exists s. split; [done|lia].
    + destruct must as [m|].
      * destruct Hmust as [He|(i & cap' & He & Hcap & ->)]; [|right; exists (S i), cap'; split_and!; [done..|lia]].
        destruct (can_partial_decode cap) eqn:Hcap; [by left|]. injection He as <-. right. exists 0%nat, cap. split_and!; [done..|lia].
      * by destruct (can_partial_decode cap).
    + destruct should as [s|].
      * destruct Hshould as [He|(i & cap' & He & Hcap & ->)]; [|right; exists (S i), cap'; split_and!; [done..|lia]].
        destruct (partial_read cap) eqn:Hcap; [by left|]. injection He as <-. right. exists 0%nat, cap. split_and!; [done..|lia].
      * by destruct (partial_read cap).
    + intros m Hm0. destruct (can_partial_decode cap); [by apply Hm'|]. destruct (Hm' _ eq_refl) as (m' & -> & Hle).
      exists m'. split; [done|]. specialize (Hm m Hm0). lia.
    + intros s Hs0. destruct (partial_read cap); [by apply Hs'|]. destruct (Hs' _ eq_refl) as (s' & -> & Hle).
      exists s'. split; [done|]. specialize (Hs s Hs0). lia.
Qed.

Lemma choose_cache_index_ok capabilities :
  match choose_cache_index capabilities with
  | None => Forall (λ cap, can_partial_decode cap = true ∧ partial_read cap = true) capabilities
  | Some k =>
      (∀ (i : nat) cap, capabilities !! i = Some cap → k <= Z.of_nat i → can_partial_decode cap = true) ∧
      (∀ (i : nat) cap, capabilities !! i = Some cap → k < Z.of_nat i → partial_read cap = true) ∧
      ∃ (i : nat) cap, capabilities !! i = Some cap ∧
        (can_partial_decode cap = false ∧ k = Z.of_nat i + 1 ∨ partial_read cap = false ∧ k = Z.of_nat i)
  end.
Proof.
  unfold choose_cache_index. destruct (scan_capabilities capabilities 0 None None) as [must should] eqn:Hscan.
  destruct (scan_spec _ _ _ _ _ _ Hscan) as ([Hc Hr] & Hmust & Hshould & _); [done..|].
  assert (∀ (i : nat) cap, capabilities !! i = Some cap → match must with Some m => m <= Z.of_nat i | None => True end → can_partial_decode cap = true) as Hcan.
  { intros i cap He Hm. destruct (can_partial_decode cap) eqn:Hcap; [done|]. destruct (Hc i cap He Hcap) as (m & -> & Hle). lia. }
  assert (∀ (i : nat) cap, capabilities !! i = Some cap → match should with Some s => s < Z.of_nat i | None => True end → partial_read cap = true) as Hread.
  { intros i cap He Hs. destruct (partial_read cap) eqn:Hcap; [done|]. destruct (Hr i cap He Hcap) as (s & -> & Hle). lia. }
  destruct must as [m|], should as [s|].
  - split_and!; [intros i cap He Hk; apply (Hcan i); [done|lia]|intros i cap He Hk; apply (Hread i); [done|lia]|].
    destruct Hmust as [|(i & cap & He & Hcap & ->)]; [done|]. destruct Hshould as [|(j & cap' & He' & Hcap' & ->)]; [done|].
    destruct (Z.max_spec (0 + Z.of_nat i + 1) (0 + Z.of_nat j)) as [[_ ->]|[_ ->]].
    + exists j, cap'. split; [done|]. right. split; [done|lia].
    + exists i, cap. split; [done|]. left. split; [done|lia].
  - split_and!; [intros i cap He Hk; by apply (Hcan i)|intros i cap He Hk; by apply (Hread i)|].
    destruct Hmust as [|(i & cap & He & Hcap & ->)]; [done|]. exists i, cap. split; [done|]. left. split; [done|lia].
  - split_and!; [intros i cap He Hk; by apply (Hcan i)|intros i cap He Hk; by apply (Hread i)|].
    destruct Hshould as [|(i & cap & He & Hcap & ->)]; [done|]. exists i, cap. split; [done|]. right. split; [done|lia].
  - apply Forall_lookup. intros i cap He. split; [by apply (Hcan i)|by apply (Hread i)].
Qed.

(** ** The codecs in decoding order *)

Lemma reverse_zip {X R} (xs : list X) (rs : list R) : length xs = length rs → zip (reverse xs) (reverse rs) = reverse (zip xs rs).
Proof.
  revert rs. induction xs as [|x xs IH]; intros [|r rs] Hl; try done. injection Hl as Hl. cbn [zip_with].
  rewrite !reverse_cons, zip_with_app by (by rewrite !length_reverse). by rewrite IH.
Qed.

Lemma decoding_order_eq {X R} (xs : list X) (rs : list R) r : length xs = length rs →
  decoding_order xs (rs ++ [r]) = reverse (zip xs rs).
Proof. intros Hl. unfold decoding_order. rewrite reverse_app. cbn [reverse app drop]. by apply reverse_zip. Qed.

(** The codecs with what they decode to, given the representations that they encode to. *)
Lemma decoding_order_cons {X R} (xs : list X) (r : R) (rs : list R) : length xs = length rs →
  decoding_order xs (r :: rs) = reverse (zip xs (r :: rs)).
Proof.
  intros Hl. destruct (exists_last (l:=r :: rs)) as (rs' & r' & He); [done|]. rewrite He.
  assert (length xs = length rs') as Hl'.
  { apply (f_equal length) in He. rewrite length_app in He. simpl in He. lia. }
  rewrite decoding_order_eq by done. f_equal. clear He Hl.
  revert rs' Hl'. induction xs as [|x xs IH]; intros [|s rs'] Hl'; try done. injection Hl' as Hl'. cbn [app zip_with]. f_equal. by apply IH.
Qed.

Section chain.
Context {A C B : Type} `{LA : LawfulArrayToArrayCodec A, LC : LawfulArrayToBytesCodec C, LB : LawfulBytesToBytesCodec B}.

(** ** The array to array codecs *)

(** The shape and the elements after the codecs. *)
Fixpoint shape_through (codecs : list A) (sh : list Z) : list Z :=
  match codecs with [] => sh | c :: codecs => shape_through codecs (a2a_shape c sh) end.

Fixpoint map_through (codecs : list A) (sh : list Z) (V : list element) : list element :=
  match codecs with [] => V | c :: codecs => map_through codecs (a2a_shape c sh) (a2a_map c sh V) end.

(** Each codec is bound to the data type and fill value that the codec before it encodes to. *)
Fixpoint arrays_bound (codecs : list A) (dt : DataType) (fv : FillValue) (dt' : DataType) (fv' : FillValue) : Prop :=
  match codecs with
  | [] => dt = dt' ∧ fv = fv'
  | c :: codecs => a2a_wf c ∧ a2a_data_type c = dt ∧ a2a_fill_value c = fv ∧
      arrays_bound codecs (a2a_encoded_data_type c) (a2a_encoded_fill_value c) dt' fv'
  end.

Fixpoint arrays_shape_ok (codecs : list A) (sh : list Z) : Prop :=
  match codecs with [] => True | c :: codecs => a2a_shape_ok c sh ∧ arrays_shape_ok codecs (a2a_shape c sh) end.

(** The codecs with the shape, data type and fill value that they decode to. *)
Fixpoint array_steps (codecs : list A) (sh : list Z) (dt : DataType) (fv : FillValue) : list (A * ArrayRepresentation) :=
  match codecs with
  | [] => []
  | c :: codecs => (c, (sh, dt, fv)) :: array_steps codecs (a2a_shape c sh) (a2a_encoded_data_type c) (a2a_encoded_fill_value c)
  end.

Fixpoint encoded_representations (codecs : list A) (sh : list Z) : list ArrayRepresentation :=
  match codecs with
  | [] => []
  | c :: codecs => (a2a_shape c sh, a2a_encoded_data_type c, a2a_encoded_fill_value c) :: encoded_representations codecs (a2a_shape c sh)
  end.

Lemma length_encoded_representations codecs sh : length codecs = length (encoded_representations codecs sh).
Proof. revert sh. induction codecs as [|c codecs IH]; intros sh; [done|]. simpl. f_equal. apply IH. Qed.

Lemma array_steps_zip codecs sh dt fv : zip codecs ((sh, dt, fv) :: encoded_representations codecs sh) = array_steps codecs sh dt fv.
Proof. revert sh dt fv. induction codecs as [|c codecs IH]; intros sh dt fv; [done|]. cbn [zip_with array_steps encoded_representations]. f_equal. apply IH. Qed.

Lemma array_order codecs sh dt fv :
  decoding_order codecs ((sh, dt, fv) :: encoded_representations codecs sh) = reverse (array_steps codecs sh dt fv).
Proof. rewrite decoding_order_cons by apply length_encoded_representations. by rewrite array_steps_zip. Qed.

Lemma last_shape_through codecs sh dt fv : last_shape ((sh, dt, fv) :: encoded_representations codecs sh) = Ok (shape_through codecs sh).
Proof.
  revert sh dt fv. induction codecs as [|c codecs IH]; intros sh dt fv; [done|]. cbn [encoded_representations shape_through].
  rewrite <-(IH _ (a2a_encoded_data_type c) (a2a_encoded_fill_value c)). unfold last_shape. by rewrite last_cons_cons.
Qed.

Section arrays.
Context (dt' : DataType) (fv' : FillValue).

Lemma arrays_shape codecs sh dt fv : arrays_bound codecs dt fv dt' fv' → arrays_shape_ok codecs sh → chunk_shape_ok sh →
  array_representations_loop codecs sh = Ok (encoded_representations codecs sh) ∧
  chunk_shape_ok (shape_through codecs sh) ∧ Zprod (shape_through codecs sh) = Zprod sh.
Proof.
  revert sh dt fv. induction codecs as [|c codecs IH]; intros sh dt fv Hb Hok Hsh; [done|].
  destruct Hb as (Hc & _ & _ & Hb), Hok as [Hokc Hok]. destruct (a2a_shape_law c sh Hc Hokc Hsh) as (He & Hsh' & Hp).
  destruct (IH _ _ _ Hb Hok Hsh') as (Hr & Hs & Hp'). cbn [array_representations_loop shape_through encoded_representations].
  rewrite He. cbn [obind]. rewrite Hr. split_and!; [done|done|lia].
Qed.

Lemma map_through_length codecs sh dt fv V : arrays_bound codecs dt fv dt' fv' → arrays_shape_ok codecs sh → chunk_shape_ok sh →
  zlen V = Zprod sh → zlen (map_through codecs sh V) = Zprod sh.
Proof.
  revert sh dt fv V. induction codecs as [|c codecs IH]; intros sh dt fv V Hb Hok Hsh HV; [done|].
  destruct Hb as (Hc & _ & _ & Hb), Hok as [Hokc Hok]. destruct (a2a_shape_law c sh Hc Hokc Hsh) as (_ & Hsh' & Hp).
  cbn [map_through]. rewrite <-Hp. eapply IH; [done..|]. rewrite Hp. by apply a2a_map_length_law.
Qed.

Lemma fill_through codecs dt fv : arrays_bound codecs dt fv dt' fv' → zlen (base_fill dt' fv') = zlen (base_fill dt fv).
Proof.
  revert dt fv. induction codecs as [|c codecs IH]; intros dt fv; [by intros [-> ->]|]. intros (Hc & <- & <- & Hb).
  rewrite (IH _ _ Hb). by apply a2a_fill_size_law.
Qed.

Lemma map_through_fill codecs sh dt fv : arrays_bound codecs dt fv dt' fv' → arrays_shape_ok codecs sh → chunk_shape_ok sh →
  map_through codecs sh (replicate (Z.to_nat (Zprod sh)) (fill_element dt fv)) = replicate (Z.to_nat (Zprod sh)) (fill_element dt' fv').
Proof.
  revert sh dt fv. induction codecs as [|c codecs IH]; intros sh dt fv; [by intros [-> ->]|]. intros (Hc & <- & <- & Hb) [Hokc Hok] Hsh.
  destruct (a2a_shape_law c sh Hc Hokc Hsh) as (_ & Hsh' & Hp). cbn [map_through]. rewrite a2a_fill_map_law by done.
  rewrite <-Hp. by apply IH.
Qed.

Lemma encode_arrays_ok codecs sh dt fv b V options : arrays_bound codecs dt fv dt' fv' → arrays_shape_ok codecs sh → chunk_shape_ok sh →
  holds b dt V → zlen V = Zprod sh →
  ∃ benc, encode_arrays codecs b sh options = Ok (benc, shape_through codecs sh) ∧ holds benc dt' (map_through codecs sh V) ∧
    array_bytes_size benc <= array_bytes_size b.
Proof.
  revert sh dt fv b V. induction codecs as [|c codecs IH]; intros sh dt fv b V; [intros [-> ->]; by exists b|].
  intros (Hc & <- & <- & Hb) [Hokc Hok] Hsh Hh HV. destruct (a2a_shape_law c sh Hc Hokc Hsh) as (He & Hsh' & Hp).
  destruct (a2a_encode_law c sh options b V) as (b1 & He1 & Hh1 & Hs1); [done..|].
  destruct (IH _ _ _ b1 (a2a_map c sh V) Hb Hok Hsh') as (benc & Henc & Hhe & Hse); [done|rewrite Hp; by apply a2a_map_length_law|].
  exists benc. cbn [encode_arrays]. rewrite He1. cbn [obind]. rewrite He. cbn [obind]. split_and!; [done|done|lia].
Qed.

Lemma decode_arrays_app l1 l2 b options :
  decode_arrays (A:=A) (l1 ++ l2) b options = let? b := decode_arrays l1 b options in decode_arrays l2 b options.
Proof.
  revert b. induction l1 as [|[c [[sh dt] fv]] l1 IH]; intros b; [done|]. cbn [app decode_arrays].
  destruct (a2a_decode c b sh options); [apply IH|done..].
Qed.

Lemma decode_arrays_ok codecs sh dt fv benc V : arrays_bound codecs dt fv dt' fv' → arrays_shape_ok codecs sh → chunk_shape_ok sh →
  zlen V = Zprod sh → holds benc dt' (map_through codecs sh V) →
  ∃ b, (∀ options, decode_arrays (reverse (array_steps codecs sh dt fv)) benc options = Ok b) ∧ holds b dt V ∧
    array_bytes_size b <= array_bytes_size benc ∧ (packed benc → packed b ∧ array_bytes_size b = array_bytes_size benc).
Proof.
  revert sh dt fv V. induction codecs as [|c codecs IH]; intros sh dt fv V; [intros [-> ->] _ _ _ Hh; exists benc; by split_and!|].
  intros (Hc & <- & <- & Hb) [Hokc Hok] Hsh HV Hh. destruct (a2a_shape_law c sh Hc Hokc Hsh) as (He & Hsh' & Hp).
  destruct (IH _ _ _ (a2a_map c sh V) Hb Hok Hsh') as (b1 & Hd1 & Hh1 & Hs1 & Hp1); [rewrite Hp; by apply a2a_map_length_law|done|].
  destruct (a2a_decode_law c sh b1 V) as (b & Hd & Hhb & Hs & Hpk); [done..|]. exists b. split_and!; [|done|lia|].
  - intros options. cbn [array_steps]. rewrite reverse_cons, decode_arrays_app, Hd1. cbn [obind decode_arrays]. by rewrite Hd.
  - intros Hpe. destruct (Hp1 Hpe) as [Hpb1 ?]. destruct (Hpk Hpb1). split; [done|lia].
Qed.

End arrays.

(** A cache of the whole array reads every region. *)
Lemma cached_array_reads b v dt sh V : holds b dt V → zlen V = Zprod sh →
  array_reads (cached_array b sh dt) v dt sh V (array_bytes_size b).
Proof.
  intros Hh HV sub Hsub. destruct (extract_holds b dt V sub sh Hsub Hh HV) as (out & He & Hho & _ & Hs).
  assert (runs_at (partial_decode (cached_array b sh dt) sub) v (Ok out) v) as Hr by (simpl; by rewrite He).
  exists out. split_and!; [done..|]. intros t t' Ht Hd. by eapply default_partial_decode_into_ok.
Qed.

Lemma array_reads_weaken ah v dt sh V m n : m <= n → array_reads ah v dt sh V m → array_reads ah v dt sh V n.
Proof. intros Hmn Hr sub Hsub. destruct (Hr sub Hsub) as (out & ? & ? & ? & ?). exists out. split_and!; [done|done|lia|done]. Qed.

Lemma cache_array_ok k i ah v dt sh V limit : chunk_shape_ok sh → zlen V = Zprod sh → array_reads ah v dt sh V limit →
  ∃ ah', runs_at (cache_array_at k i ah sh dt) v (Ok ah') v ∧ array_reads ah' v dt sh V limit.
Proof.
  intros Hsh HV Hr. unfold cache_array_at. case_decide as Hk; [|exists ah; by prog]. clear Hk.
  destruct (region_whole sh Hsh) as [Hok Hpos]. destruct (Hr _ Hok) as (out & Hrun & Hho & Hsz & _).
  rewrite Hpos, <-HV, select_all in Hho. eexists. split.
  - unfold ArrayPartialDecoderCache_new. eapply runs_at_bind; [exact Hrun|]. by prog.
  - eapply array_reads_weaken; [exact Hsz|]. by apply cached_array_reads.
Qed.

(** Where the cache is between array to array codecs, they decode to the shape and data type that they encode to. *)
Definition array_cache_ok (k : option Z) (i : Z) (codecs : list A) (sh : list Z) (dt : DataType) (fv : FillValue) : Prop :=
  ∀ j c sh1 dt1 fv1, reverse (array_steps codecs sh dt fv) !! j = Some (c, (sh1, dt1, fv1)) → Some (i + Z.of_nat j) = k →
    a2a_shape c sh1 = sh1 ∧ a2a_encoded_data_type c = dt1.

Lemma partial_decode_arrays_app k l1 l2 i ah options v x v1 y v2 :
  runs_at (partial_decode_arrays (A:=A) k l1 i ah options) v (Ok x) v1 → runs_at (partial_decode_arrays k l2 x.2 x.1 options) v1 (Ok y) v2 →
  runs_at (partial_decode_arrays k (l1 ++ l2) i ah options) v (Ok y) v2.
Proof.
  revert i ah v. induction l1 as [|[c [[sh dt] fv]] l1 IH]; intros i ah v.
  - cbn [partial_decode_arrays app]. prog. intros [[= <-] ->] Hy. done.
  - cbn [app partial_decode_arrays]. intros (h1 & w1 & H1 & (h2 & w2 & H2 & H3)%runs_at_bind_inv)%runs_at_bind_inv Hy.
    eapply runs_at_bind; [exact H1|]. eapply runs_at_bind; [exact H2|]. by apply IH.
Qed.

Lemma array_cache_tail k i c codecs sh dt fv :
  array_cache_ok k i (c :: codecs) sh dt fv →
  array_cache_ok k i codecs (a2a_shape c sh) (a2a_encoded_data_type c) (a2a_encoded_fill_value c) ∧
  (Some (i + Z.of_nat (length codecs)) = k → a2a_shape c sh = sh ∧ a2a_encoded_data_type c = dt).
Proof.
  intros H. unfold array_cache_ok in H. cbn [array_steps] in H. setoid_rewrite reverse_cons in H. split.
  - intros j c1 sh1 dt1 fv1 Hj Hk. apply (H j c1 sh1 dt1 fv1); [|done]. by apply lookup_app_l_Some.
  - intros Hk. apply (H (length codecs) c sh dt fv); [|done]. rewrite lookup_app_r; rewrite length_reverse.
    + replace (length (array_steps codecs _ _ _)) with (length codecs); [by rewrite Nat.sub_diag|].
      clear. generalize (a2a_shape c sh), (a2a_encoded_data_type c), (a2a_encoded_fill_value c).
      induction codecs as [|d codecs IH]; intros sh1 dt1 fv1; [done|]. simpl. f_equal. apply IH.
    + replace (length (array_steps codecs _ _ _)) with (length codecs); [lia|].
      clear. generalize (a2a_shape c sh), (a2a_encoded_data_type c), (a2a_encoded_fill_value c).
      induction codecs as [|d codecs IH]; intros sh1 dt1 fv1; [done|]. simpl. f_equal. apply IH.
Qed.

Lemma partial_decode_arrays_ok dt' fv' k codecs i sh dt fv ah v V limit options : arrays_bound codecs dt fv dt' fv' →
  arrays_shape_ok codecs sh → chunk_shape_ok sh → zlen V = Zprod sh → array_cache_ok k i codecs sh dt fv →
  array_reads ah v dt' (shape_through codecs sh) (map_through codecs sh V) limit →
  ∃ ah', runs_at (partial_decode_arrays k (reverse (array_steps codecs sh dt fv)) i ah options) v (Ok (ah', i + Z.of_nat (length codecs))) v ∧
    array_reads ah' v dt sh V limit.
Proof.
  revert sh dt fv V. induction codecs as [|c codecs IH]; intros sh dt fv V Hb.
  { destruct Hb as [-> ->]. intros _ _ _ _ Hr. exists ah. prog. split; [|done]. simpl. by rewrite Z.add_0_r. }
  destruct Hb as (Hc & <- & <- & Hb). intros [Hokc Hok] Hsh HV [Hcache Hat]%array_cache_tail Hr.
  destruct (a2a_shape_law c sh Hc Hokc Hsh) as (He & Hsh' & Hp).
  assert (zlen (a2a_map c sh V) = Zprod (a2a_shape c sh)) as HV' by (rewrite Hp; by apply a2a_map_length_law).
  destruct (IH _ _ _ (a2a_map c sh V) Hb Hok Hsh' HV' Hcache Hr) as (ah1 & Hrun1 & Hr1).
  assert (∃ ah2, runs_at (cache_array_at k (i + Z.of_nat (length codecs)) ah1 sh (a2a_data_type c)) v (Ok ah2) v ∧
    array_reads ah2 v (a2a_encoded_data_type c) (a2a_shape c sh) (a2a_map c sh V) limit) as (ah2 & Hrun2 & Hr2).
  { destruct (decide (Some (i + Z.of_nat (length codecs)) = k)) as [Hk|Hk].
    - destruct (Hat Hk) as [Hs Hd]. rewrite Hs, Hd in *. apply cache_array_ok; [done|lia|done].
    - exists ah1. unfold cache_array_at. rewrite decide_False by done. by prog. }
  destruct (a2a_partial_law c sh options ah2 v V limit) as (ah3 & Hrun3 & Hr3); [done..|].
  exists ah3. split; [|done]. cbn [array_steps]. rewrite reverse_cons. eapply partial_decode_arrays_app; [exact Hrun1|].
  cbn [fst snd partial_decode_arrays]. eapply runs_at_bind; [exact Hrun2|]. eapply runs_at_bind; [exact Hrun3|].
  prog. split; [|done]. simpl. do 2 f_equal. lia.
Qed.

(** ** The bytes to bytes codecs *)

Fixpoint bytes_steps (codecs : list B) (rep : BytesRepresentation) : list (B * BytesRepresentation) :=
  match codecs with [] => [] | c :: codecs => (c, rep) :: bytes_steps codecs (b2b_encoded_representation c rep) end.

(** The values of at most [n] bytes can be encoded. *)
Fixpoint bytes_accepts (codecs : list B) (rep : BytesRepresentation) (n : Z) : Prop :=
  match codecs with
  | [] => True
  | c :: codecs => b2b_accepts c rep ∧ b2b_encoded_limit c n < u64_modulus ∧
      bytes_accepts codecs (b2b_encoded_representation c rep) (b2b_encoded_limit c n)
  end.

Definition bytes_limit (codecs : list B) (n : Z) : Z := fold_left (λ n c, b2b_encoded_limit c n) codecs n.

(** The encodings of a value. *)
Fixpoint bytes_encodes (codecs : list B) (rep : BytesRepresentation) (enc raw : bytes) : Prop :=
  match codecs with
  | [] => enc = raw
  | c :: codecs => ∃ mid, b2b_encodes c rep mid raw ∧ zlen mid < u64_modulus ∧ bytes_encodes codecs (b2b_encoded_representation c rep) enc mid
  end.

Lemma bytes_order codecs rep : decoding_order codecs (bytes_representations_loop codecs rep) = reverse (bytes_steps codecs rep).
Proof.
  assert (∀ codecs rep, ∃ rs, bytes_representations_loop codecs rep = rep :: rs ∧ length codecs = length rs ∧
    zip codecs (rep :: rs) = bytes_steps codecs rep) as H.
  { clear. intros codecs. induction codecs as [|c codecs IH]; intros rep; [by exists []|].
    destruct (IH (b2b_encoded_representation c rep)) as (rs & He & Hl & Hz). exists (b2b_encoded_representation c rep :: rs).
    cbn [bytes_representations_loop]. rewrite He. split_and!; [done|simpl; by f_equal|]. cbn [zip_with bytes_steps]. by f_equal. }
  destruct (H codecs rep) as (rs & -> & Hl & Hz). by rewrite decoding_order_cons, Hz.
Qed.

Lemma length_bytes_steps codecs rep : length (bytes_steps codecs rep) = length codecs.
Proof. revert rep. induction codecs as [|c codecs IH]; intros rep; [done|]. simpl. f_equal. apply IH. Qed.

Lemma encode_bytes_ok codecs rep b n options : Forall b2b_wf codecs → bytes_accepts codecs rep n → rep_admits rep (zlen b) → zlen b <= n →
  ∃ enc, encode_bytes codecs b options = Ok enc ∧ zlen enc <= bytes_limit codecs n ∧ bytes_encodes codecs rep enc b ∧
    rep_admits (fold_left (λ rep c, b2b_encoded_representation c rep) codecs rep) (zlen enc).
Proof.
  intros Hwf. revert rep b n. induction Hwf as [|c codecs Hc Hwf IH]; intros rep b n Ha Hr Hn; [by exists b|].
  destruct Ha as (Ha & Hl & Hrest). destruct (b2b_roundtrip c rep options b n Hc Ha Hr Hn Hl) as (mid & Hm & Hlm & Hem & Hrm).
  destruct (IH _ mid _ Hrest Hrm Hlm) as (enc & He & Hle & Hee & Hre). exists enc. cbn [encode_bytes]. rewrite Hm.
  split_and!; [done|done| |done]. exists mid. split_and!; [done|lia|done].
Qed.

Lemma decode_bytes_app l1 l2 b options :
  decode_bytes (B:=B) (l1 ++ l2) b options = let? b := decode_bytes l1 b options in decode_bytes l2 b options.
Proof.
  revert b. induction l1 as [|[c rep] l1 IH]; intros b; [done|]. cbn [app decode_bytes].
  destruct (b2b_decode c b rep options); [apply IH|done..].
Qed.

Lemma decode_bytes_ok codecs rep enc raw options : Forall b2b_wf codecs → bytes_encodes codecs rep enc raw →
  decode_bytes (reverse (bytes_steps codecs rep)) enc options = Ok raw.
Proof.
  intros Hwf. revert rep raw. induction Hwf as [|c codecs Hc Hwf IH]; intros rep raw; [by intros ->|].
  intros (mid & Hm & Hl & He). cbn [bytes_steps]. rewrite reverse_cons, decode_bytes_app, (IH _ mid He). cbn [obind decode_bytes].
  by rewrite (b2b_decode_law c rep options mid raw).
Qed.

Lemma bytes_encodes_size codecs rep enc raw : Forall b2b_wf codecs → bytes_encodes codecs rep enc raw → zlen enc < u64_modulus → zlen raw < u64_modulus.
Proof. intros Hwf. destruct Hwf as [|c codecs Hc Hwf]; [by intros ->|]. intros (mid & Hm & Hl & _) _. by eapply b2b_decoded_size. Qed.

(** What a handle reads at the place of codec [i]; an absent value is read from an offset of at most [n]. *)
Definition handle_state (k : option Z) (i : Z) (n : Z) (h : BytesHandle) (key : StoreKey) (v w : option bytes) : Prop :=
  if decide (covers_index k (i - 1)) then handle_reads n h key v w else handle_tails n h key v w.

Lemma cached_bytes_reads n key v w : handle_reads n (cached_bytes w) key v w.
Proof.
  split.
  - intros rs. simpl. destruct w as [b|]; [|done]. by destruct (extract_byte_ranges b rs).
  - intros rs _ Hrs. simpl. destruct w as [b|]; [|done]. destruct (Hrs b eq_refl) as (Hb & Ho & Hin).
    by rewrite extract_byte_ranges_within by done.
Qed.

Definition read_state (k : option Z) (i : Z) (n : Z) (h : BytesHandle) (key : StoreKey) (v w : option bytes) : Prop :=
  if decide (covers_index k i) then handle_reads n h key v w else handle_tails n h key v w.

Lemma cache_bytes_ok k i n h key v w : 0 <= n → (∀ b, w = Some b → zlen b < u64_modulus) → handle_state k i n h key v w →
  ∃ h', runs_at (cache_bytes_at k i h) v (Ok h') v ∧ read_state k i n h' key v w.
Proof.
  intros Hn Hw Hs. unfold cache_bytes_at, read_state. destruct (decide (Some i = k)) as [<-|Hne].
  - exists (cached_bytes w). rewrite decide_True by (simpl; lia). split; [|apply cached_bytes_reads].
    unfold BytesPartialDecoderCache_new. eapply runs_at_bind; [|by prog].
    unfold handle_state in Hs. rewrite decide_False in Hs by (simpl; lia). by eapply (tails_decode n).
  - exists h. split; [by prog|]. unfold handle_state in Hs. destruct k as [k|]; simpl in *.
    + destruct (decide (k <= i - 1)); [rewrite decide_True by lia; done|]. rewrite decide_False; [done|]. intros ?. apply Hne. f_equal. lia.
    + done.
Qed.

Lemma partial_decode_bytes_app k l1 l2 i h options v x v1 y v2 :
  runs_at (partial_decode_bytes (B:=B) k l1 i h options) v (Ok x) v1 → runs_at (partial_decode_bytes k l2 x.2 x.1 options) v1 (Ok y) v2 →
  runs_at (partial_decode_bytes k (l1 ++ l2) i h options) v (Ok y) v2.
Proof.
  revert i h v. induction l1 as [|[c rep] l1 IH]; intros i h v.
  - cbn [partial_decode_bytes app]. prog. intros [[= <-] ->] Hy. done.
  - cbn [app partial_decode_bytes]. intros (h1 & w1 & H1 & (h2 & w2 & H2 & H3)%runs_at_bind_inv)%runs_at_bind_inv Hy.
    eapply runs_at_bind; [exact H1|]. eapply runs_at_bind; [exact H2|]. by apply IH.
Qed.

(** A codec that reads through the cache decodes partially. *)
Definition bytes_cache_ok (k : option Z) (i : Z) (codecs : list B) : Prop :=
  ∀ j c, reverse codecs !! j = Some c → covers_index k (i + Z.of_nat j) → can_partial_decode (b2b_partial_decoder_capability c) = true.

Lemma bytes_cache_tail k i c codecs : bytes_cache_ok k i (c :: codecs) →
  bytes_cache_ok k i codecs ∧ (covers_index k (i + Z.of_nat (length codecs)) → can_partial_decode (b2b_partial_decoder_capability c) = true).
Proof.
  intros Hok. unfold bytes_cache_ok in Hok. setoid_rewrite reverse_cons in Hok. split.
  - intros j c1 Hj Hk. apply (Hok j c1); [|done]. by apply lookup_app_l_Some.
  - intros Hk. apply (Hok (length codecs) c); [|done]. rewrite lookup_app_r; rewrite length_reverse; [by rewrite Nat.sub_diag|lia].
Qed.

Definition encodes_opt (codecs : list B) (rep : BytesRepresentation) : option bytes → option bytes → Prop :=
  option_Forall2 (λ enc raw, zlen enc < u64_modulus ∧ bytes_encodes codecs rep enc raw).

(** How much further the codecs read to the end of a value. *)
Definition bytes_offset (codecs : list B) : Z := Zsum (b2b_offset <$> codecs).

Lemma bytes_offset_bound codecs : Forall b2b_wf codecs → 0 <= bytes_offset codecs <= 8 * Z.of_nat (length codecs).
Proof.
  unfold bytes_offset. induction 1 as [|c codecs Hc Hwf IH]; [done|]. rewrite fmap_cons, Zsum_cons. cbn [length].
  pose proof (b2b_offset_law c Hc). lia.
Qed.

Lemma partial_decode_bytes_ok k codecs i m rep h key v w w' options : Forall b2b_wf codecs → bytes_cache_ok k i codecs →
  0 <= m → m + 8 * Z.of_nat (length codecs) <= 2 ^ 62 → handle_state k i (m + bytes_offset codecs) h key v w → encodes_opt codecs rep w w' →
  ∃ h', runs_at (partial_decode_bytes k (reverse (bytes_steps codecs rep)) i h options) v (Ok (h', i + Z.of_nat (length codecs))) v ∧
    handle_state k (i + Z.of_nat (length codecs)) m h' key v w'.
Proof.
  intros Hwf. revert m rep w'. induction Hwf as [|c codecs Hc Hwf IH]; intros m rep w' Hcache Hm0 Hm Hs He.
  { exists h. prog. simpl length in *. change (Z.of_nat 0) with 0 in *. change (bytes_offset []) with 0 in Hs. rewrite !Z.add_0_r in *. split; [done|].
    assert (w = w') as <-; [|done]. destruct He as [enc raw [_ He]|]; [by rewrite He|done]. }
  apply bytes_cache_tail in Hcache as [Hcache Hat]. cbn [length] in Hm. pose proof (b2b_offset_law c Hc) as Hoc.
  unfold bytes_offset in Hs. rewrite fmap_cons, Zsum_cons in Hs. fold (bytes_offset codecs) in Hs.
  assert (∃ w1, encodes_opt codecs (b2b_encoded_representation c rep) w w1 ∧
    option_Forall2 (λ mid raw, zlen mid < u64_modulus ∧ b2b_encodes c rep mid raw) w1 w') as (w1 & Hw & Hw').
  { destruct He as [enc raw (Hl & mid & Hmid & Hlm & Hee)|]; [|by exists None; split; constructor]. exists (Some mid). split; constructor; by split. }
  destruct (IH (m + b2b_offset c) (b2b_encoded_representation c rep) w1 Hcache) as (h1 & Hrun1 & Hs1);
    [lia|lia|by rewrite <-Z.add_assoc|done|].
  destruct (cache_bytes_ok k (i + Z.of_nat (length codecs)) (m + b2b_offset c) h1 key v w1) as (h2 & Hrun2 & Hs2); [lia| |done|].
  { intros b ->. by inversion_clear Hw' as [? ? []|]. }
  assert (∃ h3, runs_at (b2b_partial_decoder c h2 rep options) v (Ok h3) v ∧
    handle_state k (i + Z.of_nat (length (c :: codecs))) m h3 key v w') as (h3 & Hrun3 & Hs3).
  { unfold read_state in Hs2. unfold handle_state. simpl length.
    replace (i + Z.of_nat (S (length codecs)) - 1) with (i + Z.of_nat (length codecs)) by lia. case_decide as Hk.
    - eapply b2b_reads_law; [done|by apply Hat| |exact Hs2|exact Hw']; lia.
    - eapply b2b_tails_law; [done|lia|exact Hs2|exact Hw']. }
  exists h3. split; [|done]. cbn [bytes_steps]. rewrite reverse_cons. eapply partial_decode_bytes_app; [exact Hrun1|].
  cbn [fst snd partial_decode_bytes]. eapply runs_at_bind; [exact Hrun2|]. eapply runs_at_bind; [exact Hrun3|].
  prog. split; [|done]. simpl. do 2 f_equal. lia.
Qed.

(** ** The chain *)

Abbreviation chain := (CodecChainBound A C B).

Definition inner_shape (self : chain) (sh : list Z) : list Z := shape_through (array_to_array self) sh.
Definition inner_elements (self : chain) (sh : list Z) (V : list element) : list element := map_through (array_to_array self) sh V.
Definition num_bytes_codecs (self : chain) : Z := Z.of_nat (length (bytes_to_bytes self)).

(** The codecs are bound one to the next, and the cache is where [with_context] puts it. *)
Record chain_wf (self : chain) : Prop := {
  wf_arrays : arrays_bound (array_to_array self) (chain_data_type self) (chain_fill_value self)
    (a2b_data_type (array_to_bytes self)) (a2b_fill_value (array_to_bytes self));
  wf_fill : fill_ok (chain_data_type self) (chain_fill_value self);
  wf_array_to_bytes : a2b_wf (array_to_bytes self);
  wf_bytes : Forall b2b_wf (bytes_to_bytes self);
  wf_length : a2b_offset_limit (array_to_bytes self) + 8 * num_bytes_codecs self <= 2 ^ 62;
  wf_cache : match cache_index self with Some k => 0 <= k | None => can_partial_decode (chain_partial_decoder_capability self) = true end;
  wf_bytes_cache : bytes_cache_ok (cache_index self) 0 (bytes_to_bytes self);
  wf_array_cache : covers_index (cache_index self) (num_bytes_codecs self) ∨
    can_partial_decode (a2b_partial_decoder_capability (array_to_bytes self)) = false;
}.

Record chain_shape_ok (self : chain) (sh : list Z) : Prop := {
  cs_shape : chunk_shape_ok sh;
  cs_arrays : arrays_shape_ok (array_to_array self) sh;
  cs_inner : a2b_shape_ok (array_to_bytes self) (inner_shape self sh);
  cs_bytes : ∃ rep, a2b_encoded_representation (array_to_bytes self) (inner_shape self sh) = Ok rep ∧
    bytes_accepts (bytes_to_bytes self) rep (a2b_encoded_limit (array_to_bytes self) (inner_shape self sh)) ∧
    bytes_limit (bytes_to_bytes self) (a2b_encoded_limit (array_to_bytes self) (inner_shape self sh)) < u64_modulus;
  cs_cache : array_cache_ok (cache_index self) (num_bytes_codecs self + 1) (array_to_array self) sh (chain_data_type self) (chain_fill_value self);
}.

Definition chain_limit (self : chain) (sh : list Z) : Z := a2b_limit (array_to_bytes self) (inner_shape self sh).
Definition chain_encoded_limit (self : chain) (sh : list Z) : Z :=
  bytes_limit (bytes_to_bytes self) (a2b_encoded_limit (array_to_bytes self) (inner_shape self sh)).

(** The encodings of a chunk: the bytes are the encoding of a value that encodes the inner elements. *)
Definition chain_encodes (self : chain) (sh : list Z) (enc : bytes) (b : ArrayBytes) (V : list element) : Prop :=
  ∃ rep raw benc, a2b_encoded_representation (array_to_bytes self) (inner_shape self sh) = Ok rep ∧
    bytes_encodes (bytes_to_bytes self) rep enc raw ∧
    a2b_encodes (array_to_bytes self) (inner_shape self sh) raw benc (inner_elements self sh V) ∧
    holds benc (a2b_data_type (array_to_bytes self)) (inner_elements self sh V) ∧ packed benc ∧
    array_bytes_size benc = array_bytes_size b ∧
    ∀ options, decode_arrays (reverse (array_steps (array_to_array self) sh (chain_data_type self) (chain_fill_value self))) benc options = Ok b.

Section laws.
Context (self : chain) (sh : list Z) (Hwf : chain_wf self) (Hsh : chain_shape_ok self sh).
Abbreviation dt := (chain_data_type self).
Abbreviation fv := (chain_fill_value self).
Abbreviation codec := (array_to_bytes self).
Abbreviation inner := (inner_shape self sh).

Lemma chain_inner : array_representations_loop (array_to_array self) sh = Ok (encoded_representations (array_to_array self) sh) ∧
  chunk_shape_ok inner ∧ Zprod inner = Zprod sh.
Proof. eapply arrays_shape; [apply Hwf|apply Hsh|apply Hsh]. Qed.

Lemma chain_representations rep : a2b_encoded_representation codec inner = Ok rep →
  get_array_representations self sh = Ok ((sh, dt, fv) :: encoded_representations (array_to_array self) sh) ∧
  get_representations self sh =
    Ok ((sh, dt, fv) :: encoded_representations (array_to_array self) sh, bytes_representations_loop (bytes_to_bytes self) rep).
Proof.
  intros Hrep. destruct chain_inner as (Hl & _). unfold get_representations, get_array_representations. rewrite Hl. cbn [obind].
  split; [done|]. rewrite last_shape_through. cbn [obind]. unfold get_bytes_representations. fold inner. by rewrite Hrep.
Qed.

Lemma inner_length V : zlen V = Zprod sh → zlen (inner_elements self sh V) = Zprod inner.
Proof.
  intros HV. destruct chain_inner as (_ & _ & ->). eapply map_through_length; [apply Hwf|apply Hsh|apply Hsh|done].
Qed.

Lemma chain_product : product64 sh = Zprod sh.
Proof.
  destruct (cs_shape _ _ Hsh) as [Hp Hb]. apply product64_wf. split; [eapply Forall_impl; [exact Hp|]; simpl; lia|unfold u64_modulus; lia].
Qed.

Lemma chain_valid b V : holds b dt V → zlen V = Zprod sh → validate_bytes b (product64 sh) dt = Ok tt.
Proof. intros Hh HV. rewrite chain_product, <-HV. by apply holds_valid. Qed.

Lemma chain_decode_ok options enc b V : chain_encodes self sh enc b V → zlen enc < u64_modulus → holds b dt V → zlen V = Zprod sh →
  chain_decode self enc sh options = Ok b.
Proof.
  intros (rep & raw & benc & Hrep & Hbe & Hae & Hhe & _ & _ & Hd) Hl Hh HV. unfold chain_decode.
  rewrite (proj2 (chain_representations rep Hrep)). cbn [obind fst snd]. rewrite bytes_order, (decode_bytes_ok _ _ _ raw) by (done || apply Hwf).
  cbn [obind]. rewrite last_shape_through. cbn [obind]. fold inner.
  rewrite (a2b_decode_law codec inner options raw benc (inner_elements self sh V)); [|apply Hwf|apply Hsh|done| |done|by apply inner_length].
  2: { eapply bytes_encodes_size; [apply Hwf|done..]. }
  cbn [obind]. rewrite array_order, Hd. cbn [obind]. by rewrite (chain_valid b V).
Qed.

Lemma chain_encode_ok options b V : holds b dt V → zlen V = Zprod sh → array_bytes_size b < chain_limit self sh →
  ∃ enc b' rep, chain_encode self b sh options = Ok enc ∧ zlen enc <= chain_encoded_limit self sh ∧
    chain_encoded_representation self sh = Ok rep ∧ rep_admits rep (zlen enc) ∧
    chain_encodes self sh enc b' V ∧ holds b' dt V ∧ packed b' ∧ array_bytes_size b' <= array_bytes_size b.
Proof.
  intros Hh HV Hs. destruct (encode_arrays_ok _ _ (array_to_array self) sh dt fv b V options (wf_arrays _ Hwf) (cs_arrays _ _ Hsh)
    (cs_shape _ _ Hsh) Hh HV) as (b1 & He1 & Hh1 & Hs1).
  destruct (a2b_roundtrip codec inner options b1 (inner_elements self sh V)) as (raw & benc & rep & He & Hlr & Hrep & Hadm & Hae & Hhe & Hpk & Hse);
    [apply Hwf|apply Hsh|done|by apply inner_length|unfold chain_limit in Hs; lia|].
  destruct (cs_bytes _ _ Hsh) as (rep' & Hrep' & Hacc & Hlim). rewrite Hrep in Hrep'. injection Hrep' as <-.
  destruct (encode_bytes_ok (bytes_to_bytes self) rep raw _ options (wf_bytes _ Hwf) Hacc Hadm Hlr) as (enc & Henc & Hle & Hbe & Hra).
  destruct (decode_arrays_ok _ _ (array_to_array self) sh dt fv benc V (wf_arrays _ Hwf) (cs_arrays _ _ Hsh) (cs_shape _ _ Hsh) HV Hhe)
    as (b' & Hd & Hhb & Hsb & Hpb). destruct (Hpb Hpk) as [Hpb' Hsz].
  exists enc, b', (fold_left (λ rep c, b2b_encoded_representation c rep) (bytes_to_bytes self) rep). split_and!; try done; [..|lia].
  - unfold chain_encode. rewrite (chain_valid b V) by done. cbn [obind]. rewrite He1. cbn [obind fst snd]. fold inner.
    rewrite He. cbn [obind]. by rewrite Hrep.
  - unfold chain_encoded_representation. rewrite (proj1 (chain_representations rep Hrep)). cbn [obind].
    rewrite last_shape_through. cbn [obind]. fold inner. by rewrite Hrep.
  - by exists rep, raw, benc.
Qed.

Abbreviation content := (content_of (chain_encodes self sh) dt fv sh).

(** What the array to bytes codec stores, given what the chain stores. *)
Lemma chain_inner_content rep w b V : content w b V → a2b_encoded_representation codec inner = Ok rep →
  ∃ w' benc, encodes_opt (bytes_to_bytes self) rep w w' ∧
    content_of (a2b_encodes codec inner) (a2b_data_type codec) (a2b_fill_value codec) inner w' benc (inner_elements self sh V) ∧
    array_bytes_size benc = array_bytes_size b.
Proof.
  intros (Hh & HV & Hpk & Hw) Hrep. pose proof (inner_length V HV) as HVi. destruct w as [enc|].
  - destruct Hw as (Hl & rep' & raw & benc & Hrep' & Hbe & Hae & Hhe & Hpe & Hse & Hd). rewrite Hrep in Hrep'. injection Hrep' as <-.
    exists (Some raw), benc. split_and!; [by constructor| |done]. split_and!; try done. eapply bytes_encodes_size; [apply Hwf|done..].
  - destruct Hw as [Hnew ->]. exists None. pose proof chain_inner as (_ & Hshi & Hp).
    pose proof (a2b_shape_law codec inner (wf_array_to_bytes _ Hwf) (cs_inner _ _ Hsh)) as (_ & Hlim & _ & Hb).
    assert (0 <= Zprod sh) by (apply Zprod_nonneg; eapply Forall_impl; [apply Hsh|]; simpl; lia).
    assert (zlen (base_fill (a2b_data_type codec) (a2b_fill_value codec)) = zlen (base_fill dt fv)) as Hz by apply fill_through with (1 := wf_arrays _ Hwf).
    rewrite Hp, Hz in Hb.
    destruct (new_fill_holds dt (Zprod sh) fv (wf_fill _ Hwf)) as (b' & Hb' & _ & _ & Hsz); [lia..|]. rewrite Hnew in Hb'. injection Hb' as <-.
    destruct (new_fill_holds (a2b_data_type codec) (Zprod sh) (a2b_fill_value codec)) as (benc & Hne & Hhe & Hpe & Hse);
      [by apply a2b_fill_law, Hwf|lia|by rewrite Hz; lia|].
    assert (inner_elements self sh (replicate (Z.to_nat (Zprod sh)) (fill_element dt fv)) =
      replicate (Z.to_nat (Zprod sh)) (fill_element (a2b_data_type codec) (a2b_fill_value codec))) as Hfe.
    { eapply map_through_fill; [apply Hwf|apply Hsh|apply Hsh]. }
    exists benc. split_and!; [constructor| |by rewrite Hse, Hsz, Hz]. rewrite Hfe in HVi |- *. unfold content_of. by rewrite Hp in *.
Qed.

Lemma chain_decode_into_ok options enc b V t t' : content (Some enc) b V → target_fits t sh → decode_into_array_bytes_target b t = Ok t' →
  chain_decode_into self enc sh t options = Ok t'.
Proof.
  intros Hc Hfit Ht. destruct (cs_bytes _ _ Hsh) as (rep & Hrep & _). pose proof Hc as (Hh & HV & _ & Hl & He).
  pose proof He as (rep' & raw & benc & Hrep' & Hbe & Hae & Hhe & Hpe & Hse & Hd). rewrite Hrep in Hrep'. injection Hrep' as <-.
  assert (zlen raw < u64_modulus) as Hlr by (eapply bytes_encodes_size; [apply Hwf|done..]).
  assert (content_of (a2b_encodes codec inner) (a2b_data_type codec) (a2b_fill_value codec) inner (Some raw) benc (inner_elements self sh V)) as Hci.
  { split_and!; [done|by apply inner_length|done|done|done]. }
  unfold chain_decode_into. rewrite (proj2 (chain_representations rep Hrep)). cbn [obind fst snd].
  rewrite bytes_order, (decode_bytes_ok _ _ _ raw) by (done || apply Hwf). rewrite last_shape_through. cbn [obind]. fold inner.
  assert (is_nil (array_to_array self) = true → a2b_decode_into codec raw inner t options = Ok t') as Hdirect.
  { intros Hnil. destruct (array_to_array self) eqn:Ha; [|done]. cbn in Hd. specialize (Hd options). injection Hd as ->.
    eapply a2b_decode_into_law; [apply Hwf|apply Hsh|exact Hci|unfold inner, inner_shape; by rewrite Ha|done]. }
  destruct (is_nil (array_to_array self)) eqn:Ha.
  - rewrite andb_true_r. destruct (is_nil (bytes_to_bytes self)) eqn:Hb; [|by apply Hdirect].
    destruct (bytes_to_bytes self); [|done]. cbn in Hbe. subst. by apply Hdirect.
  - rewrite andb_false_r.
    rewrite (a2b_decode_law codec inner options raw benc (inner_elements self sh V)); [|apply Hwf|apply Hsh|done..|by apply inner_length].
    cbn [obind]. rewrite array_order, Hd. cbn [obind]. rewrite (chain_valid b V) by done. done.
Qed.

Lemma chain_partial_ok options h key v w b V :
  handle_serves (chain_partial_decoder_capability self) (a2b_offset_limit codec + bytes_offset (bytes_to_bytes self)) h key v w → content w b V →
  ∃ ah, runs_at (chain_partial_decoder self h sh options) v (Ok ah) v ∧ array_reads ah v dt sh V (array_bytes_size b).
Proof.
  intros Hs Hc. destruct (cs_bytes _ _ Hsh) as (rep & Hrep & _). pose proof (a2b_offset_law codec (wf_array_to_bytes _ Hwf)) as Hoff.
  destruct (chain_inner_content rep w b V Hc Hrep) as (w' & benc & Hw & Hci & <-). pose proof Hc as (_ & HV & _).
  pose proof chain_inner as (_ & Hshi & _).
  assert (handle_state (cache_index self) 0 (a2b_offset_limit codec + bytes_offset (bytes_to_bytes self)) h key v w) as Hs0.
  { unfold handle_state. pose proof (wf_cache _ Hwf) as Hk. destruct (cache_index self) as [k|].
    - rewrite decide_False by (simpl; lia). unfold handle_serves in Hs. destruct (can_partial_decode _); [|done].
      apply handle_reads_tails; [|done]. pose proof (wf_length _ Hwf). pose proof (bytes_offset_bound _ (wf_bytes _ Hwf)).
      unfold num_bytes_codecs, u64_modulus in *. lia.
    - rewrite decide_True by done. unfold handle_serves in Hs. by rewrite Hk in Hs. }
  destruct (partial_decode_bytes_ok (cache_index self) (bytes_to_bytes self) 0 (a2b_offset_limit codec) rep h key v w w' options
    (wf_bytes _ Hwf) (wf_bytes_cache _ Hwf) (proj1 Hoff) (wf_length _ Hwf) Hs0 Hw) as (h1 & Hrun1 & Hs1).
  destruct (cache_bytes_ok (cache_index self) (0 + num_bytes_codecs self) _ h1 key v w' (proj1 Hoff)) as (h2 & Hrun2 & Hs2); [|done|].
  { intros raw ->. apply Hci. }
  destruct (a2b_partial_law codec inner options h2 key v w' benc (inner_elements self sh V)) as (ah1 & Hrun3 & Hr3); [apply Hwf|apply Hsh| |done|].
  { unfold read_state in Hs2. unfold handle_serves. case_decide as Hcov.
    - destruct (can_partial_decode _); [done|]. apply handle_reads_tails; [unfold u64_modulus; lia|done].
    - destruct (wf_array_cache _ Hwf) as [?| ->]; [done|done]. }
  destruct (partial_decode_arrays_ok _ _ (cache_index self) (array_to_array self) (num_bytes_codecs self + 1) sh dt fv ah1 v V (array_bytes_size benc)
    options (wf_arrays _ Hwf) (cs_arrays _ _ Hsh) (cs_shape _ _ Hsh) HV (cs_cache _ _ Hsh) Hr3) as (ah2 & Hrun4 & Hr4).
  destruct (cache_array_ok (cache_index self) (num_bytes_codecs self + 1 + Z.of_nat (length (array_to_array self))) ah2 v dt sh V
    (array_bytes_size benc) (cs_shape _ _ Hsh) HV Hr4) as (ah3 & Hrun5 & Hr5).
  exists ah3. split; [|done]. unfold chain_partial_decoder. rewrite (proj2 (chain_representations rep Hrep)). prog. cbn [fst snd].
  rewrite bytes_order. eapply runs_at_bind; [exact Hrun1|]. eapply runs_at_bind; [exact Hrun2|].
  rewrite last_shape_through. prog. fold inner. eapply runs_at_bind; [exact Hrun3|]. rewrite array_order.
  eapply runs_at_bind; [exact Hrun4|]. exact Hrun5.
Qed.
End laws.

(** *** The calls of a partial decoder are on the key of its handle *)

Definition bytes_confined (key : StoreKey) (h : BytesHandle) : Prop := ∀ rs, confined key (bytes_partial_decode_many h rs).

Lemma cached_bytes_confined key w : bytes_confined key (cached_bytes w).
Proof. exact (proj1 (cached_bytes_reads 0 key None w)). Qed.

Lemma cache_bytes_confines k i h key : bytes_confined key h → confines key (cache_bytes_at k i h) (bytes_confined key).
Proof.
  intros Hh. unfold cache_bytes_at. case_decide; [|done]. unfold BytesPartialDecoderCache_new.
  eapply confines_bind; [apply confined_confines; by apply bytes_decode_confined|]. intros w _. apply cached_bytes_confined.
Qed.

Lemma cache_array_confines k i ah sh dt key : array_confined key ah → confines key (cache_array_at k i ah sh dt) (array_confined key).
Proof.
  intros Hh. unfold cache_array_at. case_decide; [|done]. unfold ArrayPartialDecoderCache_new.
  eapply confines_bind; [apply confined_confines, Hh|]. intros b _. intros sub.
  assert (confined key (partial_decode (cached_array b sh dt) sub)) as Hs by (simpl; by destruct (extract_array_subset b sub sh dt)).
  split; [done|]. intros t. by apply default_partial_decode_into_confined.
Qed.

Lemma partial_decode_bytes_confines k l i h key options : bytes_confined key h →
  confines key (partial_decode_bytes (B:=B) k l i h options) (λ x, bytes_confined key x.1).
Proof.
  revert i h. induction l as [|[c rep] l IH]; intros i h Hh; [done|]. cbn [partial_decode_bytes].
  eapply confines_bind; [by apply cache_bytes_confines|]. intros h1 Hh1.
  eapply confines_bind; [by apply b2b_partial_confined|]. intros h2 Hh2. by apply IH.
Qed.

Lemma partial_decode_arrays_confines k l i ah key options : array_confined key ah →
  confines key (partial_decode_arrays (A:=A) k l i ah options) (λ x, array_confined key x.1).
Proof.
  revert i ah. induction l as [|[c [[sh dt] fv]] l IH]; intros i ah Hh; [done|]. cbn [partial_decode_arrays].
  eapply confines_bind; [by apply cache_array_confines|]. intros h1 Hh1.
  eapply confines_bind; [by apply a2a_partial_confined|]. intros h2 Hh2. by apply IH.
Qed.

Lemma plift_confines {E X} key (x : outcome E X) : confines key (plift x) (λ _, True).
Proof. by destruct x. Qed.

Lemma chain_partial_confines (self : chain) sh h key options : bytes_confined key h →
  confines key (chain_partial_decoder self h sh options) (array_confined key).
Proof.
  intros Hh. unfold chain_partial_decoder. eapply confines_bind; [apply plift_confines|]. intros reps _.
  eapply confines_bind; [by apply partial_decode_bytes_confines|]. intros [h1 i] Hh1. cbn [fst] in Hh1.
  eapply confines_bind; [by apply cache_bytes_confines|]. intros h2 Hh2. eapply confines_bind; [apply plift_confines|]. intros l _.
  eapply confines_bind; [by apply a2b_partial_confined|]. intros h3 Hh3.
  eapply confines_bind; [by apply partial_decode_arrays_confines|]. intros [h4 j] Hh4. by apply cache_array_confines.
Qed.

(** *** Concurrency *)

Lemma widen_bytes_ok (l : list (B * BytesRepresentation)) acc : Forall (λ x, b2b_wf x.1) l → is_Ok (widen_bytes l acc).
Proof.
  intros Hl. revert acc. induction Hl as [|[c rep] l Hc Hl IH]; intros acc; [by eexists|]. cbn [widen_bytes].
  destruct (b2b_concurrency_law c rep Hc) as [r ->]. apply IH.
Qed.

Lemma widen_arrays_app (l1 l2 : list (A * ArrayRepresentation)) acc :
  widen_arrays (l1 ++ l2) acc = let? acc := widen_arrays l1 acc in widen_arrays l2 acc.
Proof.
  revert acc. induction l1 as [|[c [[sh dt] fv]] l1 IH]; intros acc; [done|]. cbn [app widen_arrays].
  destruct (a2a_recommended_concurrency c sh); [apply IH|done..].
Qed.

Lemma widen_arrays_ok dt' fv' codecs sh dt fv acc : arrays_bound codecs dt fv dt' fv' → arrays_shape_ok codecs sh →
  is_Ok (widen_arrays (reverse (array_steps codecs sh dt fv)) acc).
Proof.
  revert sh dt fv. induction codecs as [|c codecs IH]; intros sh dt fv; [by eexists|]. intros (Hc & _ & _ & Hb) [Hokc Hok].
  cbn [array_steps]. rewrite reverse_cons, widen_arrays_app. destruct (IH (a2a_shape c sh) _ _ Hb Hok) as [r ->].
  cbn [obind widen_arrays]. destruct (a2a_concurrency_law c sh Hc Hokc) as [r' ->]. by eexists.
Qed.

Lemma bytes_steps_wf codecs rep : Forall b2b_wf codecs → Forall (λ x, b2b_wf x.1) (reverse (bytes_steps codecs rep)).
Proof.
  intros Hwf. apply Forall_reverse. revert rep. induction Hwf as [|c codecs Hc Hwf IH]; intros rep; [constructor|]. constructor; [done|apply IH].
Qed.

Lemma chain_concurrency_ok (self : chain) sh : chain_wf self → chain_shape_ok self sh → is_Ok (chain_recommended_concurrency self sh).
Proof.
  intros Hwf Hsh. destruct (cs_bytes _ _ Hsh) as (rep & Hrep & _). unfold chain_recommended_concurrency.
  rewrite (proj2 (chain_representations self sh Hwf Hsh rep Hrep)). cbn [obind fst snd]. rewrite bytes_order.
  destruct (widen_bytes_ok (reverse (bytes_steps (bytes_to_bytes self) rep)) (u64_max, 0)) as [r ->]; [by apply bytes_steps_wf, Hwf|].
  cbn [obind]. rewrite last_shape_through. cbn [obind].
  destruct (a2b_concurrency_law (array_to_bytes self) (inner_shape self sh)) as [r' Hr']; [apply Hwf|apply Hsh|]. unfold inner_shape in Hr'. rewrite Hr'.
  cbn [obind]. rewrite array_order.
  destruct (widen_arrays_ok _ _ (array_to_array self) sh (chain_data_type self) (chain_fill_value self) (widen r r') (wf_arrays _ Hwf) (cs_arrays _ _ Hsh))
    as [r'' ->]. by eexists.
Qed.

(** ** The promises *)

#[export] Program Instance chain_lawful : LawfulArrayToBytesCodec chain := {|
  a2b_wf := chain_wf;
  a2b_shape_ok := chain_shape_ok;
  a2b_limit := chain_limit;
  a2b_encoded_limit := chain_encoded_limit;
  a2b_offset_limit self := a2b_offset_limit (array_to_bytes self) + bytes_offset (bytes_to_bytes self);
  a2b_encodes := chain_encodes |}.
Next Obligation. intros self Hwf. apply Hwf. Qed.
Next Obligation.
  intros self Hwf. cbv beta. pose proof (a2b_offset_law _ (wf_array_to_bytes _ Hwf)). pose proof (wf_length _ Hwf).
  pose proof (bytes_offset_bound _ (wf_bytes _ Hwf)). unfold num_bytes_codecs in *. lia.
Qed.
Next Obligation.
  intros self sh Hwf Hsh. pose proof (chain_inner self sh Hwf Hsh) as (_ & _ & Hp).
  pose proof (a2b_shape_law _ _ (wf_array_to_bytes _ Hwf) (cs_inner _ _ Hsh)) as (_ & Hlim & _ & Hb).
  destruct (cs_bytes _ _ Hsh) as (rep & _ & _ & Hbl). rewrite Hp, (fill_through _ _ _ _ _ (wf_arrays _ Hwf)) in Hb.
  split_and!; [apply Hsh|done..].
Qed.
Next Obligation. intros self sh Hwf Hsh. by apply chain_concurrency_ok. Qed.
Next Obligation. intros self sh options enc b V Hwf Hsh He Hl Hh HV. by eapply chain_decode_ok. Qed.
Next Obligation. intros self sh options b V Hwf Hsh Hh HV Hs. by apply chain_encode_ok. Qed.
Next Obligation. intros self sh options enc b V t t' Hwf Hsh Hc Hf Ht. by eapply chain_decode_into_ok. Qed.
Next Obligation. intros self sh options h key v w b V Hwf Hsh Hs Hc. by eapply chain_partial_ok. Qed.
Next Obligation. intros self sh options h key Hc. by apply chain_partial_confines. Qed.

#[export] Instance chain_validates : ValidatingArrayToBytesCodec chain.
Proof.
  intros self sh options enc b _ _. simpl. unfold chain_decode. destruct (get_representations self sh) as [reps| |]; [|done..]. cbn [obind].
  destruct (decode_bytes _ _ _) as [raw| |]; [|done..]. cbn [obind]. destruct (last_shape _) as [l| |]; [|done..]. cbn [obind].
  destruct (a2b_decode _ _ _ _) as [b1| |]; [|done..]. cbn [obind]. destruct (decode_arrays _ _ _) as [b2| |]; [|done..]. cbn [obind].
  destruct (validate_bytes _ _ _) as [[]| |] eqn:Hv; [|done..]. by intros [= <-].
Qed.
End chain.
