(* ===== verification/ChainTheorems.v ===== *)
(** The properties of codec chains: binding a chain to a data type places the cache of its partial decoders and makes the
    chain lawful; encoding and decoding are inverse; a partial decoder on a store reads any region of the chunk that
    was encoded. *)

From S2P Require Import Prelude ArraySubset Linear Iterators ByteRange StoreKey Storage MemoryStore ArrayBytes.
From S2P Require Import Elements StoreProgram DecodeInto Concurrency Codec BytesCodec BytesToBytes Checksums Shuffle.
From S2P Require Import ArrayToArray CodecChain CodecChainSpec.

(** ** Binding *)

(** What codecs promise of their bound form.  The array to array codecs of the repository all decode partially. *)
Class LawfulUnboundArrayToArrayCodec (UA A : Type) `{!ArrayToArrayCodecTraits A, !LawfulArrayToArrayCodec A, !UnboundArrayToArrayCodecTraits UA A} := {
  ua_wf : UA → Prop;
  ua_law (u : UA) dt fv (c : A) : ua_wf u → fill_ok dt fv → ua_with_context u dt fv = Ok c →
    a2a_wf c ∧ a2a_data_type c = dt ∧ a2a_fill_value c = fv ∧ a2a_partial_decoder_capability c = ua_partial_decoder_capability u ∧
    ua_partial_decoder_capability u = {| partial_read := true; can_partial_decode := true |};
}.

Class LawfulUnboundArrayToBytesCodec (UC C : Type) `{!ArrayToBytesCodecTraits C, !LawfulArrayToBytesCodec C, !UnboundArrayToBytesCodecTraits UC C} := {
  uc_wf : UC → Prop;
  uc_law (u : UC) dt fv (c : C) : uc_wf u → fill_ok dt fv → uc_with_context u dt fv = Ok c →
    a2b_wf c ∧ a2b_data_type c = dt ∧ a2b_fill_value c = fv ∧ a2b_partial_decoder_capability c = uc_partial_decoder_capability u ∧
    a2b_offset_limit c <= 2 ^ 61;
}.

Section binding.
Context {UA A UC C B : Type} `{LA : LawfulArrayToArrayCodec A, LC : LawfulArrayToBytesCodec C, LB : LawfulBytesToBytesCodec B}.
Context `{!UnboundArrayToArrayCodecTraits UA A, !UnboundArrayToBytesCodecTraits UC C}.
Context `{LUA : !LawfulUnboundArrayToArrayCodec UA A, LUC : !LawfulUnboundArrayToBytesCodec UC C}.

Lemma bind_arrays_ok (codecs : list UA) dt fv (bounds : list A) dt' fv' : Forall ua_wf codecs → fill_ok dt fv →
  bind_array_to_array codecs dt fv = Ok (bounds, dt', fv') →
  arrays_bound bounds dt fv dt' fv' ∧ fill_ok dt' fv' ∧ length bounds = length codecs ∧
  (a2a_partial_decoder_capability <$> bounds) = (ua_partial_decoder_capability <$> codecs) ∧
  Forall (λ cap, cap = {| partial_read := true; can_partial_decode := true |}) (ua_partial_decoder_capability <$> codecs).
Proof.
  revert dt fv bounds. induction codecs as [|u codecs IH]; intros dt fv bounds Hwf Hf; cbn [bind_array_to_array].
  { intros [= <- <- <-]. split_and!; done || constructor. }
  apply Forall_cons in Hwf as [Hwf Hwfs].
  destruct (ua_with_context u dt fv) as [c| |] eqn:Hu; [|done..]. cbn [obind].
  destruct (ua_law u dt fv c Hwf Hf Hu) as (Hc & <- & <- & Hcap & Htrue).
  destruct (bind_array_to_array codecs _ _) as [[[bs d] f]| |] eqn:Hb; [|done..]. cbn [obind]. intros [= <- <- <-].
  destruct (IH _ _ _ Hwfs (a2a_fill_law c Hc Hf) Hb) as (H1 & H2 & H3 & H4 & H5). cbn [arrays_bound length]. rewrite !fmap_cons.
  split_and!; [done..|by f_equal|by f_equal|by constructor].
Qed.

Lemma capabilities_fold caps acc : can_partial_decode acc = true → Forall (λ cap, can_partial_decode cap = true) caps →
  can_partial_decode (fold_left (λ acc cap, {| partial_read := partial_read acc && partial_read cap;
    can_partial_decode := can_partial_decode acc && can_partial_decode cap |}) caps acc) = true.
Proof.
  intros Ha Hc. revert acc Ha. induction Hc as [|cap caps Hcap Hc IH]; intros acc Ha; [done|]. apply IH. simpl. by rewrite Ha, Hcap.
Qed.

(** The chain can be bound to any data type. *)
Definition chain_binds (self : CodecChain UA UC B) : Prop :=
  Forall ua_wf (u_array_to_array self) ∧ Forall b2b_wf (u_bytes_to_bytes self) ∧
  Z.of_nat (length (u_bytes_to_bytes self)) <= 2 ^ 32 ∧ uc_wf (u_array_to_bytes self).

Lemma with_context_capabilities (self : CodecChain UA UC B) dt fv c : fill_ok dt fv → chain_binds self →
  with_context self dt fv = Ok c → choose_cache_index (decoding_capabilities c) = cache_index c.
Proof.
  intros Hf (Hua & _ & _ & Huc). unfold with_context. destruct (bind_array_to_array _ _ _) as [[[bounds dt'] fv']| |] eqn:Ha; [|done..]. cbn [obind].
  destruct (uc_with_context _ dt' fv') as [a2b| |] eqn:Hc; [|done..]. cbn [obind]. intros [= <-].
  destruct (bind_arrays_ok _ _ _ _ _ _ Hua Hf Ha) as (Hbound & Hf' & Hl & Hcaps & _).
  destruct (uc_law _ _ _ _ Huc Hf' Hc) as (_ & _ & _ & Hcap & _). cbn [cache_index]. f_equal. unfold decoding_capabilities. cbn [array_to_array array_to_bytes bytes_to_bytes].
  by rewrite Hcap, !fmap_reverse, Hcaps.
Qed.

Lemma with_context_lawful (self : CodecChain UA UC B) dt fv c : fill_ok dt fv → chain_binds self →
  with_context self dt fv = Ok c → chain_wf c ∧ chain_data_type c = dt ∧ chain_fill_value c = fv.
Proof.
  intros Hf (Hua & Hb & Hlen & Huc). unfold with_context. destruct (bind_array_to_array _ _ _) as [[[bounds dt'] fv']| |] eqn:Ha; [|done..]. cbn [obind].
  destruct (uc_with_context _ dt' fv') as [a2b| |] eqn:Hc; [|done..]. cbn [obind]. intros [= <-].
  destruct (bind_arrays_ok _ _ _ _ _ _ Hua Hf Ha) as (Hbound & Hf' & Hl & Hcaps & Htrue).
  destruct (uc_law _ _ _ _ Huc Hf' Hc) as (Hwf & Hdt & Hfv & Hcap & Hoff).
  set (caps := _ ++ _) at 1. set (chain := mk_chain _ _ _ _).
  assert (chain_data_type chain = dt ∧ chain_fill_value chain = fv) as [Hd Hfl].
  { unfold chain_data_type, chain_fill_value. cbn. destruct bounds as [|b bounds]; [destruct Hbound as [-> ->]; done|].
    destruct Hbound as (_ & -> & -> & _). done. }
  split; [|done]. pose proof (choose_cache_index_ok caps) as Hchoose.
  set (nb := length (u_bytes_to_bytes self)) in *.
  assert (∀ j c, reverse (u_bytes_to_bytes self) !! j = Some c → caps !! j = Some (b2b_partial_decoder_capability c)) as Hb_at.
  { intros j c Hj. unfold caps. apply lookup_app_l_Some. by rewrite list_lookup_fmap, Hj. }
  assert (caps !! nb = Some (a2b_partial_decoder_capability a2b)) as Ha_at.
  { unfold caps. rewrite lookup_app_r; rewrite length_fmap, length_reverse; [|done]. fold nb. rewrite Nat.sub_diag. cbn. by rewrite Hcap. }
  assert (∀ j cap, caps !! (nb + S j)%nat = Some cap → can_partial_decode cap = true ∧ partial_read cap = true) as Ha2a_at.
  { intros j cap. unfold caps. rewrite lookup_app_r; rewrite length_fmap, length_reverse; fold nb; [|lia].
    replace (nb + S j - nb)%nat with (S j) by lia. cbn. intros Hj%list_elem_of_lookup_2.
    rewrite <-Forall_reverse, <-fmap_reverse, Forall_forall in Htrue. by rewrite (Htrue cap Hj). }
  constructor.
  - cbn [array_to_array array_to_bytes chain]. rewrite Hd, Hfl, Hdt, Hfv. done.
  - by rewrite Hd, Hfl.
  - done.
  - done.
  - cbn. unfold num_bytes_codecs. cbn. fold nb. lia.
  - cbn [cache_index chain]. destruct (choose_cache_index caps) as [k|].
    + destruct Hchoose as (_ & _ & i & cap & _ & [[_ ->]|[_ ->]]); lia.
    + unfold chain_partial_decoder_capability. apply capabilities_fold; [done|]. cbn.
      unfold caps in Hchoose. rewrite Forall_app, Forall_cons, !fmap_reverse, !Forall_reverse in Hchoose.
      destruct Hchoose as (H1 & H2 & H3). rewrite Forall_app, Forall_cons, Hcaps, Hcap.
      split_and!; [eapply Forall_impl; [exact H3|]; by intros ? [? _]|apply H2|eapply Forall_impl; [exact H1|]; by intros ? [? _]].
  - intros j c Hj Hk. cbn [cache_index chain] in Hk. specialize (Hb_at j c Hj). destruct (choose_cache_index caps) as [k|].
    + destruct Hchoose as (Hcan & _). apply (Hcan j); [done|simpl in Hk; lia].
    + rewrite Forall_forall in Hchoose. apply (Hchoose _ (list_elem_of_lookup_2 _ _ _ Hb_at)).
  - replace (num_bytes_codecs chain) with (Z.of_nat nb) by done. cbn [cache_index chain array_to_bytes]. destruct (choose_cache_index caps) as [k|]; [|by left].
    destruct Hchoose as (_ & _ & i & cap & Hi & Hk). simpl. destruct (Nat.lt_trichotomy i nb) as [Hlt|[->|Hgt]].
    + left. destruct Hk as [[_ ->]|[_ ->]]; lia.
    + rewrite Ha_at in Hi. injection Hi as <-. destruct Hk as [[Hcan ->]|[_ ->]]; [by right|left; lia].
    + replace i with (nb + S (i - nb - 1))%nat in Hi by lia. destruct (Ha2a_at _ _ Hi) as [H1 H2]. destruct Hk as [[Hk _]|[Hk _]]; congruence.
Qed.

(** C14: binding a chain gives a chain of codecs bound one to the next, whose cache of the partial decoders is at index [k]
    of the decoding order only if every codec from [k] on decodes partially, every codec after [k] reads partially,
    and a codec asked for it; there is no cache only if all the codecs read and decode partially.  So of several codecs
    that do not read partially it is the last in the decoding order that counts, where the comment on [CodecChain] has the
    first, and such a codec counts beside one that does not decode partially, where the comment has it only otherwise. *)
Theorem with_context_places_cache (self : CodecChain UA UC B) dt fv c : fill_ok dt fv → chain_binds self → with_context self dt fv = Ok c →
  chain_wf c ∧ chain_data_type c = dt ∧ chain_fill_value c = fv ∧
  match cache_index c with
  | None => Forall (λ cap, can_partial_decode cap = true ∧ partial_read cap = true) (decoding_capabilities c)
  | Some k =>
      (∀ (i : nat) cap, decoding_capabilities c !! i = Some cap → k <= Z.of_nat i → can_partial_decode cap = true) ∧
      (∀ (i : nat) cap, decoding_capabilities c !! i = Some cap → k < Z.of_nat i → partial_read cap = true) ∧
      ∃ (i : nat) cap, decoding_capabilities c !! i = Some cap ∧
        (can_partial_decode cap = false ∧ k = Z.of_nat i + 1 ∨ partial_read cap = false ∧ k = Z.of_nat i)
  end.
Proof.
  intros Hf Hb Hc. destruct (with_context_lawful self dt fv c Hf Hb Hc) as (Hwf & Hdt & Hfv).
  split_and!; [done..|]. replace (cache_index c) with (choose_cache_index (decoding_capabilities c)); [apply choose_cache_index_ok|].
  by eapply with_context_capabilities.
Qed.
End binding.

(** ** Coding *)

Section coding.
Context {A C B : Type} `{LA : LawfulArrayToArrayCodec A, LC : LawfulArrayToBytesCodec C, LB : LawfulBytesToBytesCodec B}.

(** C12: a chunk encoded by a chain decodes, with any options, to array bytes that hold the same elements, and the encoding has a
    size that the encoded representation of the chain allows. *)
Theorem chain_roundtrip (self : CodecChainBound A C B) sh b V options options' : chain_wf self → chain_shape_ok self sh →
  holds b (chain_data_type self) V → zlen V = Zprod sh → array_bytes_size b < chain_limit self sh →
  ∃ enc b' rep, chain_encode self b sh options = Ok enc ∧ chain_decode self enc sh options' = Ok b' ∧
    holds b' (chain_data_type self) V ∧ chain_encoded_representation self sh = Ok rep ∧ rep_admits rep (zlen enc).
Proof.
  intros Hwf Hsh Hh HV Hs. destruct (chain_encode_ok self sh Hwf Hsh options b V Hh HV Hs) as (enc & b' & rep & He & Hl & Hrep & Hadm & Hee & Hh' & _).
  exists enc, b', rep. split_and!; [done| |done..]. eapply chain_decode_ok; [done..| |done|done].
  destruct (cs_bytes _ _ Hsh) as (_ & _ & _ & Hlim). unfold chain_encoded_limit in Hl. lia.
Qed.

(** C11: on a store whose value at the key is the encoding of a chunk, the partial decoder of the chain, with its cache, reads the
    elements of any region of the chunk and leaves the store as it is. *)
Theorem chain_partial_decoder_reads {S : Type} (abs : S → gmap str bytes) `{HL : LawfulStorage S abs} (self : CodecChainBound A C B)
    sh b V enc options options' key (s : S) sub :
  chain_wf self → chain_shape_ok self sh → holds b (chain_data_type self) V → zlen V = Zprod sh →
  array_bytes_size b < chain_limit self sh → chain_encode self b sh options = Ok enc → abs s !! key = Some enc → region_ok sub sh →
  ∃ s' out, run (let* decoder := chain_partial_decoder self (store_handle key) sh options' in partial_decode decoder sub) s = (s', Ok out) ∧
    abs s' = abs s ∧ holds out (chain_data_type self) (select V (positions sub sh)).
Proof.
  intros Hwf Hsh Hh HV Hs He Hkey Hsub.
  destruct (chain_encode_ok self sh Hwf Hsh options b V Hh HV Hs) as (enc' & b' & rep & He' & Hl & _ & _ & Hee & Hh' & Hpk & _).
  rewrite He in He'. injection He' as <-.
  assert (zlen enc < u64_modulus) as Hl' by (destruct (cs_bytes _ _ Hsh) as (_ & _ & _ & Hlim); unfold chain_encoded_limit in Hl; lia).
  destruct (chain_partial_ok self sh Hwf Hsh options' (store_handle key) key (Some enc) (Some enc) b' V) as (ah & Hrun & Hr).
  { apply handle_reads_serves; [|apply store_handle_reads]. pose proof (wf_length _ Hwf). pose proof (bytes_offset_bound _ (wf_bytes _ Hwf)). unfold num_bytes_codecs in *. lia. }
  { done. }
  destruct (Hr sub Hsub) as (out & Hout & Hho & _).
  assert (runs_at (let* decoder := chain_partial_decoder self (store_handle key) sh options' in partial_decode decoder sub) (Some enc) (Ok out) (Some enc))
    as Hall by (eapply runs_at_bind; [exact Hrun|exact Hout]).
  rewrite <-Hkey in Hall. apply runs_read in Hall.
  - destruct (run_runs abs _ _ _ _ Hall) as (s' & Hs' & Habs). by exists s', out.
  - eapply confines_then; [apply chain_partial_confines; exact (proj1 (store_handle_reads 0 key None))|]. intros ah' Hah. apply Hah.
Qed.
End coding.

(** ** The codecs before they are bound *)

Inductive SqueezeCodec := SqueezeCodec_new.

#[export] Instance squeeze_unbound : UnboundArrayToArrayCodecTraits SqueezeCodec SqueezeCodecBound := {|
  ua_partial_decoder_capability _ := {| partial_read := true; can_partial_decode := true |};
  ua_with_context _ data_type fill_value := Ok {| sq_data_type := data_type; sq_fill_value := fill_value |} |}.

#[export] Program Instance squeeze_unbound_lawful : LawfulUnboundArrayToArrayCodec SqueezeCodec SqueezeCodecBound := {| ua_wf _ := True |}.
Next Obligation. by intros u dt fv c _ _ [= <-]. Qed.

Record BytesCodec := { u_endian : option Endianness }.

(** The data types that the bytes codec supports, with the size of their components. *)
Class BytesDataTypes := codec_bytes : DataType → option Z.

Class LawfulBytesDataTypes `{!BytesDataTypes} :=
  codec_bytes_law dt n : codec_bytes dt = Some n → ∃ d, dt = PlainType (FixedSize d) ∧ 0 < n ∧ d mod n = 0.

#[export] Instance bytes_unbound `{!BytesDataTypes} : UnboundArrayToBytesCodecTraits BytesCodec BytesCodecBound := {|
  uc_partial_decoder_capability _ := {| partial_read := true; can_partial_decode := true |};
  uc_with_context u := bytes_with_context codec_bytes (u_endian u) |}.

#[export] Program Instance bytes_unbound_lawful `{!Target, !BytesDataTypes, !LawfulBytesDataTypes} :
    LawfulUnboundArrayToBytesCodec BytesCodec BytesCodecBound := {| uc_wf u := is_Some (u_endian u) |}.
Next Obligation.
  intros T types laws u dt fv c Hu Hf. cbn. unfold bytes_with_context. destruct (is_optional dt); [done|].
  destruct (codec_bytes dt) as [n|] eqn:Hn; [|done]. cbn. intros [= <-]. destruct (codec_bytes_law dt n Hn) as (d & -> & Hn0 & Hd).
  destruct Hf as [Hd0 Hf]. split_and!; [|done..]. exists d. constructor; cbn; [done|done|done|by right|done].
Qed.

(** ** A small chain, for the witnesses

    Chunks of shape [1, 2, 3] with big-endian 16-bit elements, squeezed, shuffled, and with a checksum. *)
#[local] Instance example_target' : Target := Little.
#[local] Instance example_crates : ChecksumCrates := {| crc32c := Zsum; adler32 := Zsum |}.
#[local] Instance example_types : BytesDataTypes := λ dt, match dt with PlainType (FixedSize 2) => Some 2 | _ => None end.
#[local] Instance example_types_lawful : LawfulBytesDataTypes.
Proof. intros [[[| [|[]|] | ]|]|] n; try done. intros [= <-]. by exists 2. Qed.

Definition example_unbound : CodecChain SqueezeCodec BytesCodec (ShuffleCodec + ChecksumCodec) :=
  mk_unbound_chain [SqueezeCodec_new] {| u_endian := Some Big |} [inl {| elementsize := 2 |}; inr (Crc32cCodec LocationEnd)].

Definition example_chain : CodecChainBound SqueezeCodecBound BytesCodecBound (ShuffleCodec + ChecksumCodec) :=
  mk_chain [{| sq_data_type := PlainType (FixedSize 2); sq_fill_value := [0; 0] |}]
    (mk_bytes_codec (Some Big) (PlainType (FixedSize 2)) [0; 0] 2)
    [inl {| elementsize := 2 |}; inr (Crc32cCodec LocationEnd)] (Some 2).

Definition chain_options : CodecOptions := CodecOptions_default 4.

Lemma example_bound : with_context example_unbound (PlainType (FixedSize 2)) [0; 0] = Ok example_chain.
Proof. reflexivity. Qed.

Lemma with_context_places_cache_witness :
  with_context example_unbound (PlainType (FixedSize 2)) [0; 0] = Ok example_chain ∧ chain_wf example_chain ∧
  decoding_capabilities example_chain !! 1%nat = Some no_partial.
Proof.
  split; [reflexivity|].
  destruct (with_context_places_cache example_unbound (PlainType (FixedSize 2)) [0; 0] example_chain) as (Hwf & _ & _ & _);
    [done|split_and!; [by repeat constructor..|simpl; lia|by exists Big]|reflexivity|].
  split; [exact Hwf|reflexivity].
Defined.

Lemma example_chain_wf : chain_wf example_chain.
Proof.
  apply (with_context_lawful example_unbound (PlainType (FixedSize 2)) [0; 0]); [done| |reflexivity].
  split_and!; [by repeat constructor..|simpl; lia|by exists Big].
Qed.

Lemma example_chain_shape : chain_shape_ok example_chain [1; 2; 3].
Proof.
  constructor.
  - split; [by repeat constructor|done].
  - cbn. split; [|done]. right. left. lia.
  - split; [|done]. split; [by repeat constructor|done].
  - exists (BytesFixedSize 12). split_and!; [done| |done]. cbn. split_and!; done || lia.
  - intros j c sh1 dt1 fv1 _ Hj. assert (2 + 1 + Z.of_nat j = 2) by (apply (inj Some); exact Hj). lia.
Qed.

Definition chain_elements : list bytes := [[1; 2]; [3; 4]; [5; 6]; [7; 8]; [9; 10]; [11; 12]].

Lemma chain_elements_holds : holds (FixedBytes (concat chain_elements)) (PlainType (FixedSize 2)) (Value <$> chain_elements).
Proof. apply holds_fixed. exists chain_elements. split_and!; [done|done| |done]. split; [lia|]. by repeat constructor. Qed.

Lemma chain_roundtrip_witness :
  chain_encode example_chain (FixedBytes (concat chain_elements)) [1; 2; 3] chain_options =
    Ok [2; 4; 6; 8; 10; 12; 1; 3; 5; 7; 9; 11; 78; 0; 0; 0] ∧
  ∃ enc b', chain_encode example_chain (FixedBytes (concat chain_elements)) [1; 2; 3] chain_options = Ok enc ∧
    chain_decode example_chain enc [1; 2; 3] chain_options = Ok b' ∧ holds b' (PlainType (FixedSize 2)) (Value <$> chain_elements).
Proof.
  split; [reflexivity|].
  destruct (chain_roundtrip example_chain [1; 2; 3] (FixedBytes (concat chain_elements)) (Value <$> chain_elements) chain_options chain_options)
    as (enc & b' & rep & He & Hd & Hh & _);
    [exact example_chain_wf|exact example_chain_shape|exact chain_elements_holds|reflexivity|reflexivity|].
  exists enc, b'. split; [exact He|]. split; [exact Hd|exact Hh].
Defined.

(** A store with the chunk at a key, and the region of its last two rows without their first element. *)
Definition chain_key : StoreKey := lit "k".
Definition chain_store : MemoryStore := {[ chain_key := [2; 4; 6; 8; 10; 12; 1; 3; 5; 7; 9; 11; 78; 0; 0; 0] ]}.
Definition chain_region : ArraySubset := mk_subset [0; 0; 1] [1; 2; 2].

Lemma chain_partial_decoder_reads_witness :
  ∃ s' out, run (let* decoder := chain_partial_decoder example_chain (store_handle chain_key) [1; 2; 3] chain_options in
                 partial_decode decoder chain_region) chain_store = (s', Ok out) ∧
    memory_abs s' = memory_abs chain_store ∧ holds out (PlainType (FixedSize 2)) (Value <$> [[3; 4]; [5; 6]; [9; 10]; [11; 12]]).
Proof.
  destruct (chain_partial_decoder_reads memory_abs example_chain [1; 2; 3] (FixedBytes (concat chain_elements)) (Value <$> chain_elements)
    [2; 4; 6; 8; 10; 12; 1; 3; 5; 7; 9; 11; 78; 0; 0; 0] chain_options chain_options chain_key chain_store chain_region)
    as (s' & out & Hrun & Habs & Hh);
    [exact example_chain_wf|exact example_chain_shape|exact chain_elements_holds|reflexivity|reflexivity|reflexivity|reflexivity| |].
  - split; [split|split; [|split; [reflexivity|]]]; [|by split; [repeat constructor|reflexivity]| |by split; [repeat constructor|reflexivity]];
      (split; [done|]); intros [|[|[|j]]] Hj; unfold u64_modulus; simpl in *; lia.
  - exists s', out. split; [exact Hrun|]. split; [exact Habs|exact Hh].
Defined.
