(* ===== verification/Sharding.v ===== *)
(** The sharding codec: [zarrs/src/array/codec/array_to_bytes/sharding.rs] and
    [sharding/sharding_codec.rs].

    A chunk, the shard, is split into subchunks that are encoded one by one.  The encoded shard holds
    the subchunks that are not full of the fill value, in any order, and before or after them an index with
    the offset and the size of each.  The codecs of the subchunks and of the index are any array
    to bytes codecs. *)

From S2P Require Import Prelude ArraySubset Linear Iterators ChunkGrid RegularGrid ByteRange StoreKey Storage ArrayBytes.
From S2P Require Import Elements StoreProgram DecodeInto Concurrency Codec BytesCodec.

(** ** Options *)

Inductive ShardingIndexLocation := IndexStart | IndexEnd.
Inductive SubchunkWriteOrder := OrderRandom | OrderC | OrderUnordered.

Record ShardingCodecOptions := mk_sharding_options { subchunk_write_order : SubchunkWriteOrder }.

(** What the run time decides: the bytes of memory that is not written yet, and the order in which
    the tasks of a parallel iterator over [n] items take their place in the shard. *)
Class RunTime := { uninit : Z → bytes; task_order : nat → list nat }.

Class LawfulRunTime `{!RunTime} := {
  length_uninit n : 0 <= n → zlen (uninit n) = n;
  task_order_perm n : task_order n ≡ₚ seq 0 n;
}.

(** The items of a parallel iterator in the order of their tasks. *)
Definition scheduled `{!RunTime} {X} `{!Inhabited X} (l : list X) : list X := (λ i, l !!! i) <$> task_order (length l).

(** ** The index

    [u64::to_ne_bytes] and [u64::from_ne_bytes]. *)
Definition u64_to_le_bytes (x : Z) : bytes := (λ i, Z.land (Z.shiftr x (8 * i)) 255) <$> seqZ 0 8.
Definition u64_from_le_bytes (b : bytes) : Z := foldr (λ x acc, x + 256 * acc) 0 b.

Section ne_bytes.
Context `{Target}.

Definition u64_to_ne_bytes (x : Z) : bytes := if decide (native = Little) then u64_to_le_bytes x else reverse (u64_to_le_bytes x).
Definition u64_from_ne_bytes (b : bytes) : Z := u64_from_le_bytes (if decide (native = Little) then b else reverse b).

(** [transmute_to_bytes_vec] of a [Vec<u64>]. *)
Definition index_to_bytes (index : list Z) : bytes := concat (u64_to_ne_bytes <$> index).
Definition index_from_bytes (b : bytes) : list Z := u64_from_ne_bytes <$> chunks_exact 8 b.
End ne_bytes.

Definition chunks_per_dimension (s c : Z) : outcome CodecError Z := if is_multiple_of s c then Ok (s / c) else Err CodecOther.

Definition calculate_chunks_per_shard (shard_shape subchunk_shape : list Z) : outcome CodecError (list Z) :=
  collect_res (zip_with chunks_per_dimension shard_shape subchunk_shape).

Definition sharding_index_shape (chunks_per_shard : list Z) : list Z := chunks_per_shard ++ [2].

(** [slice::as_chunks::<2>]. *)
Fixpoint as_pairs (l : list Z) : list (Z * Z) :=
  match l with offset :: size :: l => (offset, size) :: as_pairs l | _ => [] end.

Section index.
Context {X : Type} `{!ArrayToBytesCodecTraits X} `{Target}.

Definition compute_index_encoded_size (index_codecs : X) (sharding_index_shape : list Z) : outcome CodecError Z :=
  let? bytes_representation := a2b_encoded_representation index_codecs sharding_index_shape in
  match bytes_representation with BytesFixedSize size => Ok size | BytesBoundedSize _ | BytesUnboundedSize => Err CodecOther end.

Definition decode_shard_index (encoded_shard_index : bytes) (index_shape : list Z) (index_codecs : X) (options : CodecOptions)
    : outcome CodecError (list Z) :=
  let? decoded_shard_index := a2b_decode index_codecs encoded_shard_index index_shape options in
  let? decoded_shard_index := into_fixed decoded_shard_index in
  Ok (index_from_bytes decoded_shard_index).

Definition get_index_byte_range (index_shape : list Z) (index_codecs : X) (index_location : ShardingIndexLocation)
    : outcome CodecError ByteRange :=
  let? index_encoded_size := map_err (λ _, CodecOther) (compute_index_encoded_size index_codecs index_shape) in
  Ok (match index_location with
      | IndexStart => FromStart 0 (Some index_encoded_size)
      | IndexEnd => Suffix index_encoded_size end).
End index.

Definition subchunk_byte_range (shard_index : option (list Z)) (shard_shape chunk_shape chunk_indices : list Z)
    : outcome CodecError (option ByteRange) :=
  match shard_index with
  | Some shard_index =>
      let? chunks_per_shard := calculate_chunks_per_shard shard_shape chunk_shape in
      let? shard_index_idx := ok_or CodecOther (ravel_indices chunk_indices chunks_per_shard) in
      let? offset := index shard_index (shard_index_idx *w 2) in
      let? size := index shard_index (shard_index_idx *w 2 +w 1) in
      if (offset =? u64_max) && (size =? u64_max) then Ok None
      else Ok (Some (ByteRange_new (Included offset) (Excluded (offset +w size))))
  | None => Ok None
  end.

(** ** The codec *)

Section codec.
Context {I X : Type} `{!ArrayToBytesCodecTraits I, !ArrayToBytesCodecTraits X} `{Target} `{!RunTime}.

Record ShardingCodecBound := mk_sharding {
  subchunk_shape : list Z;
  inner_codecs : I;
  index_codecs : X;
  index_location : ShardingIndexLocation;
  sharding_options : ShardingCodecOptions;
}.

Definition sharding_data_type (self : ShardingCodecBound) : DataType := a2b_data_type (inner_codecs self).
Definition sharding_fill_value (self : ShardingCodecBound) : FillValue := a2b_fill_value (inner_codecs self).

(** [iter().product()] of a shape. *)
Definition num_chunks (chunks_per_shard : list Z) : Z := product64 chunks_per_shard.

Definition sharding_recommended_concurrency (self : ShardingCodecBound) (shape : list Z) : outcome CodecError RecommendedConcurrency :=
  let? chunks_per_shard := calculate_chunks_per_shard shape (subchunk_shape self) in
  Ok (new_maximum (num_chunks chunks_per_shard)).

Definition chunk_index_to_subset (self : ShardingCodecBound) (chunk_index : Z) (chunks_per_shard : list Z)
    : outcome CodecError (option ArraySubset) :=
  let? chunk_indices := unwrap (array_unravel_index chunk_index chunks_per_shard) in
  match chunk_indices with
  | None => Ok None
  | Some chunk_indices =>
      let chunk_start := zip_with (λ i c, i *w c) chunk_indices (subchunk_shape self) in
      let ranges := zip_with (λ sh st, mk_range st (st +w sh)) (subchunk_shape self) chunk_start in
      Ok (Some (from_ranges ranges))
  end.

(** [chunk_index_to_subset(..).expect("inbounds chunk")]. *)
Definition inbounds_chunk (self : ShardingCodecBound) (chunk_index : Z) (chunks_per_shard : list Z) : outcome CodecError ArraySubset :=
  let? chunk_subset := chunk_index_to_subset self chunk_index chunks_per_shard in expect chunk_subset.

Definition encoded_shard_bounded_size (index_encoded_size chunk_encoded_size : Z) (chunks_per_shard : list Z) : Z :=
  num_chunks chunks_per_shard *w chunk_encoded_size +w index_encoded_size.

(** The shard and its codecs share the concurrency. *)
Definition subchunk_options (self : ShardingCodecBound) (shape : list Z) (options : CodecOptions) : outcome CodecError (Z * CodecOptions) :=
  let? outer := sharding_recommended_concurrency self shape in
  let? inner := a2b_recommended_concurrency (inner_codecs self) (subchunk_shape self) in
  let (shard_concurrent_limit, concurrency_limit_subchunks) := calc_concurrency_outer_inner (concurrent_target options) outer inner in
  Ok (shard_concurrent_limit, with_concurrent_target options concurrency_limit_subchunks).

(** *** Encoding *)

(** [None] for a subchunk that is the fill value. *)
Definition encode_inner_by_chunk_index (self : ShardingCodecBound) (decoded_value : ArrayBytes) (shard_shape chunks_per_shard : list Z)
    (options_inner : CodecOptions) (chunk_index : Z) : outcome CodecError (option (Z * bytes)) :=
  let? chunk_subset := inbounds_chunk self chunk_index chunks_per_shard in
  let? b := extract_array_subset decoded_value chunk_subset shard_shape (sharding_data_type self) in
  if is_fill_value b (sharding_fill_value self) then Ok None
  else
    let? encoded_chunk := a2b_encode (inner_codecs self) b (subchunk_shape self) options_inner in
    Ok (Some (chunk_index, encoded_chunk)).

(** [filter_map] and [collect]. *)
Fixpoint encode_inner_chunks (self : ShardingCodecBound) (decoded_value : ArrayBytes) (shard_shape chunks_per_shard : list Z)
    (options_inner : CodecOptions) (chunk_indices : list Z) : outcome CodecError (list (Z * bytes)) :=
  match chunk_indices with
  | [] => Ok []
  | chunk_index :: chunk_indices =>
      let? chunk := encode_inner_by_chunk_index self decoded_value shard_shape chunks_per_shard options_inner chunk_index in
      let? chunks := encode_inner_chunks self decoded_value shard_shape chunks_per_shard options_inner chunk_indices in
      Ok (match chunk with Some chunk => chunk :: chunks | None => chunks end)
  end.

(** [shard_index[2 * i..2 * i + 2]] is the offset and the size of subchunk [i]. *)
Definition set_entry (shard_index : list Z) (chunk_index offset size : Z) : outcome CodecError (list Z) :=
  let? shard_index := index_set shard_index (chunk_index *w 2) offset in
  index_set shard_index (chunk_index *w 2 +w 1) size.

(** The shard, its index and the offset of the next subchunk, which [fetch_add] moves on. *)
Definition place_subchunk (state : bytes * list Z * Z) (chunk : Z * bytes) : outcome CodecError (bytes * list Z * Z) :=
  let '(shard, shard_index, encoded_shard_offset) := state in
  let (chunk_index, chunk_encoded) := chunk in
  let chunk_offset := encoded_shard_offset in
  let? shard_index := set_entry shard_index chunk_index chunk_offset (zlen chunk_encoded) in
  let? shard := copy_from_slice shard chunk_offset (chunk_offset +w zlen chunk_encoded) chunk_encoded in
  Ok (shard, shard_index, encoded_shard_offset +w zlen chunk_encoded).

(** A task of the unordered bounded encoding. *)
Definition encode_and_place (self : ShardingCodecBound) (decoded_value : ArrayBytes) (shard_shape chunks_per_shard : list Z)
    (options : CodecOptions) (shard_size_bounded : Z) (state : bytes * list Z * Z) (chunk_index : Z)
    : outcome CodecError (bytes * list Z * Z) :=
  let? chunk := encode_inner_by_chunk_index self decoded_value shard_shape chunks_per_shard options chunk_index in
  match chunk with
  | None => Ok state
  | Some chunk =>
      let chunk_offset := state.2 in
      if shard_size_bounded <? chunk_offset +w zlen chunk.2 then Err CodecOther
      else place_subchunk state chunk
  end.

(** In C order the index is filled first. *)
Definition assign_subchunk (state : list Z * Z) (chunk : Z * bytes) : outcome CodecError (list Z * Z) :=
  let (shard_index, acc) := state in
  let? shard_index := set_entry shard_index chunk.1 acc (zlen chunk.2) in
  Ok (shard_index, acc +w zlen chunk.2).

Definition copy_subchunk (shard_index : list Z) (shard : bytes) (chunk : Z * bytes) : outcome CodecError bytes :=
  let? chunk_offset := index shard_index (chunk.1 *w 2) in
  let? chunk_encoded_len := index shard_index (chunk.1 *w 2 +w 1) in
  copy_from_slice shard chunk_offset (chunk_offset +w chunk_encoded_len) chunk.2.

Definition place_in_c_order (shard : bytes) (shard_index : list Z) (encoded_shard_offset : Z) (chunks : list (Z * bytes))
    : outcome CodecError (bytes * list Z * Z) :=
  let? (shard_index, total_offset) := fold_outcome assign_subchunk (shard_index, encoded_shard_offset) chunks in
  let? shard := fold_outcome (copy_subchunk shard_index) shard (scheduled chunks) in
  Ok (shard, shard_index, total_offset).

Definition initial_offset (self : ShardingCodecBound) (index_encoded_size : Z) : Z :=
  match index_location self with IndexStart => index_encoded_size | IndexEnd => 0 end.

(** The index is written at its location of the [shard_length] bytes. *)
Definition write_index (self : ShardingCodecBound) (shard : bytes) (shard_length : Z) (encoded_array_index : bytes)
    : outcome CodecError bytes :=
  match index_location self with
  | IndexStart => copy_from_slice shard 0 (zlen encoded_array_index) encoded_array_index
  | IndexEnd => copy_from_slice shard (shard_length -w zlen encoded_array_index) shard_length encoded_array_index
  end.

Definition encode_bounded (self : ShardingCodecBound) (decoded_value : ArrayBytes) (shard_shape : list Z) (chunk_size_bounded : Z)
    (options : CodecOptions) : outcome CodecError bytes :=
  let? chunks_per_shard := calculate_chunks_per_shard shard_shape (subchunk_shape self) in
  let index_shape := sharding_index_shape chunks_per_shard in
  let? index_encoded_size := compute_index_encoded_size (index_codecs self) index_shape in
  let shard_size_bounded := encoded_shard_bounded_size index_encoded_size chunk_size_bounded chunks_per_shard in
  let shard := uninit shard_size_bounded in
  let shard_index := replicate (Z.to_nat (product64 index_shape)) u64_max in
  let encoded_shard_offset := initial_offset self index_encoded_size in
  let? (_, options) := subchunk_options self shard_shape options in
  let chunk_indices := seqZ 0 (num_chunks chunks_per_shard) in
  let? (shard, shard_index, encoded_shard_offset) :=
    match subchunk_write_order (sharding_options self) with
    | OrderUnordered | OrderRandom =>
        fold_outcome (encode_and_place self decoded_value shard_shape chunks_per_shard options shard_size_bounded)
          (shard, shard_index, encoded_shard_offset) (scheduled chunk_indices)
    | OrderC =>
        let? chunks := encode_inner_chunks self decoded_value shard_shape chunks_per_shard options chunk_indices in
        place_in_c_order shard shard_index encoded_shard_offset chunks
    end in
  let shard_length := encoded_shard_offset +w match index_location self with IndexStart => 0 | IndexEnd => index_encoded_size end in
  let? encoded_array_index := a2b_encode (index_codecs self) (FixedBytes (index_to_bytes shard_index)) index_shape options in
  let? shard := write_index self shard shard_length encoded_array_index in
  Ok (take (Z.to_nat shard_length) shard).

Definition encode_unbounded (self : ShardingCodecBound) (decoded_value : ArrayBytes) (shard_shape : list Z) (options : CodecOptions)
    : outcome CodecError bytes :=
  let? chunks_per_shard := calculate_chunks_per_shard shard_shape (subchunk_shape self) in
  let index_shape := sharding_index_shape chunks_per_shard in
  let? index_encoded_size := compute_index_encoded_size (index_codecs self) index_shape in
  let? (_, options_inner) := subchunk_options self shard_shape options in
  let? encoded_chunks := encode_inner_chunks self decoded_value shard_shape chunks_per_shard options_inner
    (seqZ 0 (num_chunks chunks_per_shard)) in
  let encoded_chunk_length := sum64 ((λ chunk : Z * bytes, zlen chunk.2) <$> encoded_chunks) in
  let shard_length := encoded_chunk_length +w index_encoded_size in
  let shard := uninit shard_length in
  let shard_index := replicate (Z.to_nat (product64 index_shape)) u64_max in
  let encoded_shard_offset := initial_offset self index_encoded_size in
  let? (shard, shard_index, _) :=
    match subchunk_write_order (sharding_options self) with
    | OrderUnordered | OrderRandom => fold_outcome place_subchunk (shard, shard_index, encoded_shard_offset) (scheduled encoded_chunks)
    | OrderC => place_in_c_order shard shard_index encoded_shard_offset encoded_chunks
    end in
  let? encoded_array_index := a2b_encode (index_codecs self) (FixedBytes (index_to_bytes shard_index)) index_shape options in
  let? shard := write_index self shard shard_length encoded_array_index in
  Ok (take (Z.to_nat shard_length) shard).

Definition sharding_encode (self : ShardingCodecBound) (b : ArrayBytes) (shape : list Z) (options : CodecOptions) : outcome CodecError bytes :=
  let num_elements := product64 shape in
  let? _ := validate_bytes b num_elements (sharding_data_type self) in
  let? chunk_bytes_representation := a2b_encoded_representation (inner_codecs self) (subchunk_shape self) in
  match chunk_bytes_representation with
  | BytesBoundedSize size | BytesFixedSize size => encode_bounded self b shape size options
  | BytesUnboundedSize => encode_unbounded self b shape options
  end.

(** The bound is that of the inner codecs on the shape of the shard. *)
Definition sharding_encoded_representation (self : ShardingCodecBound) (shape : list Z) : outcome CodecError BytesRepresentation :=
  let? chunk_bytes_representation := a2b_encoded_representation (inner_codecs self) shape in
  match chunk_bytes_representation with
  | BytesBoundedSize size | BytesFixedSize size =>
      let? chunks_per_shard := calculate_chunks_per_shard shape (subchunk_shape self) in
      let? index_encoded_size := compute_index_encoded_size (index_codecs self) (sharding_index_shape chunks_per_shard) in
      Ok (BytesBoundedSize (encoded_shard_bounded_size index_encoded_size size chunks_per_shard))
  | BytesUnboundedSize => Ok BytesUnboundedSize
  end.

(** *** Decoding *)

Definition decode_index (self : ShardingCodecBound) (encoded_shard : bytes) (chunks_per_shard : list Z) (options : CodecOptions)
    : outcome CodecError (list Z) :=
  let index_shape := sharding_index_shape chunks_per_shard in
  let? index_encoded_size := compute_index_encoded_size (index_codecs self) index_shape in
  if zlen encoded_shard <? index_encoded_size then Err CodecOther
  else
    let? encoded_shard_index :=
      match index_location self with
      | IndexStart => slice encoded_shard 0 index_encoded_size
      | IndexEnd => slice encoded_shard (zlen encoded_shard -w index_encoded_size) (zlen encoded_shard)
      end in
    decode_shard_index encoded_shard_index index_shape (index_codecs self) options.

(** The encoded bytes of a subchunk, or [None] when it is not stored.  The sum is not checked. *)
Definition encoded_subchunk (encoded_shard : bytes) (shard_index : list Z) (chunk_index : Z) : outcome CodecError (option bytes) :=
  let? offset := index shard_index (chunk_index *w 2) in
  let? size := index shard_index (chunk_index *w 2 +w 1) in
  if (offset =? u64_max) && (size =? u64_max) then Ok None
  else if zlen encoded_shard <? offset +w size then Err CodecOther
  else let? encoded_chunk := slice encoded_shard offset (offset +w size) in Ok (Some encoded_chunk).

(** A subchunk of variable-length data. *)
Definition decode_subchunk (self : ShardingCodecBound) (encoded_shard : bytes) (shard_index chunks_per_shard : list Z)
    (options : CodecOptions) (chunk_index : Z) : outcome CodecError (ArrayBytesVariableLength * ArraySubset) :=
  let? chunk_subset := inbounds_chunk self chunk_index chunks_per_shard in
  let? encoded_chunk := encoded_subchunk encoded_shard shard_index chunk_index in
  let? chunk_bytes :=
    match encoded_chunk with
    | None => new_fill_value (sharding_data_type self) (product64 (subchunk_shape self)) (sharding_fill_value self)
    | Some encoded_chunk => a2b_decode (inner_codecs self) encoded_chunk (subchunk_shape self) options
    end in
  let? chunk_bytes := into_variable chunk_bytes in
  Ok (chunk_bytes, chunk_subset).

(** A subchunk of fixed-length data goes into its view of the memory. *)
Definition decode_subchunk_into (self : ShardingCodecBound) (encoded_shard : bytes) (shard_index : list Z) (options : CodecOptions)
    (output_view_subchunk : ArrayBytesFixedDisjointView) (memory : bytes) (chunk_index : Z) : outcome CodecError bytes :=
  let? encoded_chunk := encoded_subchunk encoded_shard shard_index chunk_index in
  match encoded_chunk with
  | None => view_fill output_view_subchunk memory (sharding_fill_value self)
  | Some encoded_chunk =>
      let? target := a2b_decode_into (inner_codecs self) encoded_chunk (subchunk_shape self)
        (TargetFixed output_view_subchunk memory) options in
      Ok (extract_target_views target).1.2
  end.

Definition decode_chunk (self : ShardingCodecBound) (encoded_shard : bytes) (shard_index shape chunks_per_shard : list Z) (data_type_size : Z)
    (options : CodecOptions) (output : bytes) (chunk_index : Z) : outcome CodecError bytes :=
  let? chunk_subset := inbounds_chunk self chunk_index chunks_per_shard in
  let? output_view_subchunk := view_new output data_type_size shape chunk_subset in
  decode_subchunk_into self encoded_shard shard_index options output_view_subchunk output chunk_index.

Definition sharding_decode (self : ShardingCodecBound) (encoded_shard : bytes) (shape : list Z) (options : CodecOptions)
    : outcome CodecError ArrayBytes :=
  let? chunks_per_shard := calculate_chunks_per_shard shape (subchunk_shape self) in
  let chunk_indices := seqZ 0 (num_chunks chunks_per_shard) in
  let? shard_index := decode_index self encoded_shard chunks_per_shard options in
  let? (_, options) := subchunk_options self shape options in
  if is_optional (sharding_data_type self) then Err UnsupportedDataType
  else
    match data_type_size (sharding_data_type self) with
    | VariableSize =>
        let? chunk_bytes_and_subsets :=
          collect_res (decode_subchunk self encoded_shard shard_index chunks_per_shard options <$> chunk_indices) in
        let? v := merge_chunks_vlen chunk_bytes_and_subsets shape in
        Ok (VariableBytes v)
    | FixedSize data_type_size =>
        let num_elements := product64 shape in
        let size_output := num_elements *w data_type_size in
        if size_output =? 0 then Ok (FixedBytes [])
        else
          let? decoded_shard := fold_outcome (decode_chunk self encoded_shard shard_index shape chunks_per_shard data_type_size options)
            (uninit size_output) chunk_indices in
          Ok (FixedBytes decoded_shard)
    end.

(** A subchunk of a shard that is decoded into a view. *)
Definition decode_chunk_into (self : ShardingCodecBound) (encoded_shard : bytes) (shard_index chunks_per_shard : list Z)
    (options : CodecOptions) (output_view : ArrayBytesFixedDisjointView) (memory : bytes) (chunk_index : Z) : outcome CodecError bytes :=
  let? chunk_subset := inbounds_chunk self chunk_index chunks_per_shard in
  let? output_subset_chunk := unwrap (new_with_start_shape
    (zip_with (λ o s, o +w s) (start (view_subset output_view)) (start chunk_subset)) (shape chunk_subset)) in
  let? output_view_subchunk := subdivide output_view memory output_subset_chunk in
  decode_subchunk_into self encoded_shard shard_index options output_view_subchunk memory chunk_index.

Definition sharding_decode_into (self : ShardingCodecBound) (encoded_shard : bytes) (shape : list Z) (output_target : ArrayBytesDecodeIntoTarget)
    (options : CodecOptions) : outcome CodecError ArrayBytesDecodeIntoTarget :=
  match output_target with
  | TargetOptional _ _ _ => Err UnsupportedDataType
  | TargetFixed output_view memory =>
      let? chunks_per_shard := calculate_chunks_per_shard shape (subchunk_shape self) in
      let? shard_index := decode_index self encoded_shard chunks_per_shard options in
      let? (_, options) := subchunk_options self shape options in
      let? memory := fold_outcome (decode_chunk_into self encoded_shard shard_index chunks_per_shard options output_view) memory
        (seqZ 0 (num_chunks chunks_per_shard)) in
      Ok (TargetFixed output_view memory)
  end.

(** *** Compaction *)

Definition is_stored (entry : Z * Z) : bool := negb (entry.1 =? u64_max) && negb (entry.2 =? u64_max).

Definition compact_subchunk (b : bytes) (state : bytes * list Z * Z) (chunk : Z * (Z * Z)) : outcome CodecError (bytes * list Z * Z) :=
  let '(compact_shard, new_index, write_offset) := state in
  let '(i, (old_offset, size)) := chunk in
  if is_stored (old_offset, size) then
    if zlen b <? old_offset +w size then Err CodecOther
    else
      let? part := slice b old_offset (old_offset +w size) in
      let? compact_shard := copy_from_slice compact_shard write_offset (write_offset +w size) part in
      let? new_index := set_entry new_index i write_offset size in
      Ok (compact_shard, new_index, write_offset +w size)
  else Ok state.

Definition sharding_compact (self : ShardingCodecBound) (b : bytes) (shape : list Z) (options : CodecOptions)
    : outcome CodecError (option bytes) :=
  let? chunks_per_shard := calculate_chunks_per_shard shape (subchunk_shape self) in
  let? shard_index := decode_index self b chunks_per_shard options in
  let index_shape := sharding_index_shape chunks_per_shard in
  let? index_encoded_size := compute_index_encoded_size (index_codecs self) index_shape in
  let entries := as_pairs shard_index in
  let chunks_size := sum64 (snd <$> filter (λ entry, is_stored entry = true) entries) in
  if chunks_size =? zlen b -w index_encoded_size then Ok None
  else
    let data_size := sum64 (snd <$> filter (λ entry, entry.1 ≠ u64_max) entries) in
    let compact_size := data_size +w index_encoded_size in
    let compact_shard := replicate (Z.to_nat compact_size) 0 in
    let new_index := replicate (length shard_index) u64_max in
    let? (compact_shard, new_index, _) :=
      fold_outcome (compact_subchunk b) (compact_shard, new_index, initial_offset self index_encoded_size)
        (zip (seqZ 0 (zlen entries)) entries) in
    let? encoded_index := a2b_encode (index_codecs self) (FixedBytes (index_to_bytes new_index)) index_shape options in
    let? compact_shard := write_index self compact_shard compact_size encoded_index in
    Ok (Some compact_shard).
End codec.
#[global] Arguments ShardingCodecBound : clear implicits.
