(* ===== verification/ShardPlacement.v ===== *)
(** Where the subchunks of a shard are: their grid, the index, and the memory they are placed in.

    The subchunks of [sharding_codec.rs] are the chunks of a regular grid over the shape of the shard.  The index is a list of
    [u64], and bytes.  The tasks of [encode_bounded] and [encode_unbounded] place the encoded subchunks one after the other, in
    the order in which they run; whatever the order, every subchunk ends up in a part of the memory of its own, to which its
    entry of the index points. *)

From S2P Require Import Prelude ArraySubset Linear Iterators ChunkGrid RegularGrid ByteRange Storage ArrayBytes Elements Regions.
From S2P Require Import StoreProgram DecodeInto GridRegions Concurrency Codec BytesCodec Sharding.

(** The shape of the subchunks divides that of the shard. *)
Definition divides (shard_shape subchunk_shape : list Z) : Prop := Forall2 (λ s c, 1 <= c ∧ s mod c = 0) shard_shape subchunk_shape.

#[export] Instance divides_dec sh ss : Decision (divides sh ss).
Proof. unfold divides. apply _. Defined.

Definition chunks_per_shard (sh ss : list Z) : list Z := zip_with Z.div sh ss.

Definition shard_grid (sh ss : list Z) : RegularChunkGrid := mk_regular sh (chunks_per_shard sh ss) ss.

(** The subset of subchunk [k]. *)
Definition subchunk (sh ss : list Z) (k : Z) : ArraySubset := subset_of (shard_grid sh ss) (delin k (chunks_per_shard sh ss)).

Section grid.
Context (sh ss : list Z) (Hsh : chunk_shape_ok sh) (Hdiv : divides sh ss).

#[local] Abbreviation cps := (chunks_per_shard sh ss).
#[local] Abbreviation g := (shard_grid sh ss).
#[local] Abbreviation W := (new_with_shape sh).

Lemma divided s c : 1 <= s → 1 <= c → s mod c = 0 → 1 <= s / c ∧ s = s / c * c ∧ div_ceil s c = s / c.
Proof.
  intros Hs Hc Hm. pose proof (Z.div_mod s c ltac:(lia)). unfold div_ceil. rewrite Hm. split_and!; [|lia|done].
  assert (0 <= s / c) by (apply Z.div_pos; lia). nia.
Qed.

Lemma divided_at j : (j < length ss)%nat → 1 <= sh !!! j ∧ 1 <= ss !!! j ∧ cps !!! j = sh !!! j / ss !!! j ∧
  1 <= cps !!! j ∧ sh !!! j = cps !!! j * ss !!! j ∧ div_ceil (sh !!! j) (ss !!! j) = cps !!! j.
Proof.
  intros Hj. destruct (proj1 (Forall2_total _ _ _) Hdiv) as [Hl Hd]. destruct (Hd j ltac:(lia)) as [Hc Hm].
  pose proof (proj1 (Forall_total _ _) (proj1 Hsh) j ltac:(lia)) as Hs. simpl in Hs.
  unfold chunks_per_shard. rewrite zip_with_total by lia. destruct (divided _ _ Hs Hc Hm) as (? & ? & ?). done.
Qed.

Lemma length_cps : length cps = length ss ∧ length ss = length sh.
Proof. pose proof (Forall2_length _ _ _ Hdiv). unfold chunks_per_shard. rewrite length_zip_with. lia. Qed.

Lemma products : Zprod sh = Zprod cps * Zprod ss ∧ 1 <= Zprod cps ∧ 1 <= Zprod ss.
Proof.
  assert (Forall (λ d, 1 <= d) sh) as Hp by apply Hsh. revert Hdiv Hp. unfold chunks_per_shard. clear.
  induction 1 as [|s c sh ss [Hc Hm] Hd IH]; intros Hp; [done|]. inversion_clear Hp as [|? ? Hs Hp'].
  destruct (IH Hp') as (He & H1 & H2). destruct (divided s c Hs Hc Hm) as (Hq & Hsq & _). cbn [zip_with]. rewrite !Zprod_cons, He. nia.
Qed.

Lemma subchunk_shape_ok_ : chunk_shape_ok ss.
Proof.
  split.
  - apply Forall_total. intros j Hj. apply divided_at in Hj as (_ & ? & _). done.
  - pose proof products as (He & H1 & H2). destruct Hsh as [_ Hb]. nia.
Qed.

Lemma cps_ok : chunk_shape_ok cps.
Proof.
  split.
  - pose proof length_cps. apply Forall_total. intros j Hj. destruct (divided_at j) as (_ & _ & _ & ? & _); [lia|done].
  - pose proof products as (He & H1 & H2). destruct Hsh as [_ Hb]. nia.
Qed.

Lemma shape_wf_ok l : chunk_shape_ok l → shape_wf l ∧ Forall (λ d, 0 < d) l.
Proof.
  intros [Hl Hb]. split; [split; [|unfold u64_modulus; lia]|]; (eapply Forall_impl; [exact Hl|]); simpl; lia.
Qed.

Lemma num_chunks_ok : num_chunks cps = Zprod cps.
Proof. apply product64_wf, shape_wf_ok, cps_ok. Qed.

Lemma calculate_ok : calculate_chunks_per_shard sh ss = Ok cps.
Proof.
  unfold calculate_chunks_per_shard, chunks_per_shard. revert Hdiv. clear. induction 1 as [|s c sh ss [Hc Hm] Hd IH]; [done|].
  cbn [zip_with collect_res]. rewrite IH. unfold chunks_per_dimension, is_multiple_of.
  rewrite (proj2 (Z.eqb_neq c 0)) by lia. by rewrite Hm, Z.eqb_refl.
Qed.

Lemma element_le_product l j : Forall (λ d, 1 <= d) l → (j < length l)%nat → l !!! j <= Zprod l.
Proof.
  intros Hl. revert j. induction Hl as [|d l Hd Hl IH]; intros j Hj; [simpl in Hj; lia|]. rewrite Zprod_cons.
  assert (1 <= Zprod l) by (assert (0 < Zprod l); [apply Zprod_pos; eapply Forall_impl; [exact Hl|]; simpl; lia|lia]).
  destruct j as [|j]; [change ((d :: l) !!! 0%nat) with d; nia|]. change ((d :: l) !!! S j) with (l !!! j).
  specialize (IH j ltac:(simpl in Hj; lia)). nia.
Qed.

Lemma cps_ceil : cps = zip_with div_ceil sh ss.
Proof.
  pose proof length_cps as [Hl1 Hl2]. apply list_eq_total; rewrite ?length_zip_with; [lia|]. intros j Hj.
  rewrite zip_with_total by lia. destruct (divided_at j) as (_ & _ & _ & _ & _ & ->); [lia|]. done.
Qed.

Lemma shard_grid_wf : grid_wf g.
Proof.
  pose proof length_cps as [Hl1 Hl2]. split_and!; cbn; [done|apply cps_ceil|].
  intros j Hj. destruct (divided_at j Hj) as (Hs & Hc & _ & _ & He & Hdc). split_and!; [lia|lia|]. rewrite Hdc, <-He.
  pose proof (element_le_product sh j (proj1 Hsh) ltac:(lia)). destruct Hsh. unfold u64_modulus. lia.
Qed.

Lemma shard_grid_new : RegularChunkGrid_new sh ss = Ok g.
Proof.
  pose proof length_cps as [Hl1 Hl2]. unfold RegularChunkGrid_new, shard_grid. rewrite (proj2 (Nat.eqb_eq _ _)) by lia. cbn [negb].
  by rewrite cps_ceil.
Qed.

Lemma nonzero_shape : contains_zero sh = false.
Proof.
  apply contains_zero_false. intros j Hj. pose proof (proj1 (Forall_total _ _) (proj1 Hsh) j Hj) as H1. simpl in H1. lia.
Qed.

Lemma in_shard_grid c : in_grid g c ↔ index_in c cps.
Proof. unfold in_grid. change (array_shape g) with sh. change (grid_shape g) with cps. rewrite nonzero_shape. tauto. Qed.

Lemma subchunk_index k : 0 <= k < Zprod cps → in_grid g (delin k cps) ∧ lin (delin k cps) cps = k.
Proof.
  intros Hk. pose proof (proj2 (shape_wf_ok _ cps_ok)) as Hp. split; [apply in_shard_grid; by apply delin_in|by apply lin_delin].
Qed.

Lemma shape_subset_of c : in_grid g c → shape (subset_of g c) = ss.
Proof.
  intros Hc. pose proof (regular_chunk_shape_law g shard_grid_wf c Hc) as Hs. injection Hs as Hs.
  unfold subset_of. cbn [shape]. symmetry. exact Hs.
Qed.

(** *** The subchunks by number *)

Lemma whole_wf : subset_wf W ∧ Zprod (shape W) < u64_modulus ∧ is_empty W = false.
Proof.
  destruct (region_whole sh Hsh) as [(Hr & _ & He & Hw) _]. split_and!; [apply Hr|apply Hw|done].
Qed.

Lemma subchunk_wf k : 0 <= k < Zprod cps →
  subset_wf (subchunk sh ss k) ∧ shape (subchunk sh ss k) = ss ∧ region_ok (subchunk sh ss k) sh.
Proof.
  intros Hk. destruct (subchunk_index k Hk) as [Hc _]. unfold subchunk. pose proof (shape_subset_of _ Hc) as Hs.
  pose proof (subset_of_wf g shard_grid_wf _ (proj1 Hc)) as Hwf. pose proof length_cps as [Hl1 Hl2].
  assert (length (start (subset_of g (delin k cps))) = length sh) as Hst by (rewrite <-(proj1 Hwf), Hs; lia).
  split_and!; [done|done|]. split_and!; [split; [done|]| | |apply shape_wf_ok, Hsh].
  - rewrite Hs. apply shape_wf_ok, subchunk_shape_ok_.
  - split; [lia|]. intros j Hj. rewrite Hs. destruct (divided_at j) as (_ & Hss & _ & Hcp & He & Hdc); [lia|].
    unfold subset_of. cbn [start].
    pose proof (axes_origin_of regular_axis _ _ _ shard_grid_wf (delin k cps) j) as Ho. cbn [rg_chunk_shape rg_array_shape shard_grid] in Ho.
    rewrite length_delin in Ho. change (grid_axes g) with (zip_with regular_axis sh ss). rewrite Ho by lia.
    cbn [ax_origin regular_axis]. rewrite He. destruct Hc as [Hci _]. apply Forall2_total in Hci as [_ Hci].
    specialize (Hci j). rewrite length_delin in Hci. specialize (Hci ltac:(lia)). change (grid_shape g) with cps in Hci. nia.
  - apply is_empty_false; [done|]. intros j Hj. rewrite Hs. destruct (divided_at j) as (_ & ? & _); [lia|lia].
Qed.

(** Every element of the shard is in one subchunk. *)
Lemma element_subchunk ix : in_subset W ix → ∃ k, 0 <= k < Zprod cps ∧ in_subset (subchunk sh ss k) ix.
Proof.
  intros Hix. destruct (element_chunk g shard_grid_wf W ix) as (c & Hc & _ & Hx); [|done|].
  { split_and!; [apply whole_wf|apply whole_wf|]. split; cbn; rewrite ?length_replicate; [done|].
    intros j Hj. rewrite lookup_total_replicate_2 by lia. lia. }
  pose proof Hc as Hci%in_shard_grid. exists (lin c cps). split; [by apply lin_bound|]. unfold subchunk. by rewrite delin_lin.
Qed.

Lemma subchunks_disjoint k l ix : 0 <= k < Zprod cps → 0 <= l < Zprod cps →
  in_subset (subchunk sh ss k) ix → in_subset (subchunk sh ss l) ix → k = l.
Proof.
  intros Hk Hl Hx Hy. destruct (subchunk_index k Hk) as [Hkc <-], (subchunk_index l Hl) as [Hlc <-].
  by rewrite (chunks_disjoint g shard_grid_wf _ _ ix Hkc Hlc Hx Hy).
Qed.

(** The elements of the subchunks, by position or by index. *)
Lemma select_subchunk {A} `{!Inhabited A} (f : list Z → A) k : 0 <= k < Zprod cps →
  select (contents f W) (positions (subchunk sh ss k) sh) = contents f (subchunk sh ss k).
Proof.
  intros Hk. destruct (subchunk_wf k Hk) as (Hwf & _ & (_ & Hin & _)). apply select_contents_origin; [apply whole_wf|done..].
Qed.

Lemma length_contents_subchunk {A} (f : list Z → A) k : 0 <= k < Zprod cps → zlen (contents f (subchunk sh ss k)) = Zprod ss.
Proof. intros Hk. destruct (subchunk_wf k Hk) as (Hwf & Hs & _). by rewrite contents_length, Hs. Qed.

Lemma contents_subchunks {A} (f h : list Z → A) :
  (∀ k, 0 <= k < Zprod cps → contents f (subchunk sh ss k) = contents h (subchunk sh ss k)) → contents f W = contents h W.
Proof.
  intros Hk. apply contents_ext; [apply whole_wf|]. intros ix Hix. destruct (element_subchunk ix Hix) as (k & Hkb & Hx).
  destruct (subchunk_wf k Hkb) as (Hwf & _). pose proof (lookup_contents f _ ix Hwf Hx) as H1.
  rewrite Hk, (lookup_contents h _ ix Hwf Hx) in H1 by done. by injection H1.
Qed.

(** The subset of a subchunk, as [chunk_index_to_subset] computes it. *)
Lemma subchunk_ranges k : 0 <= k < Zprod cps →
  let chunk_start := zip_with (λ i c, i *w c) (delin k cps) ss in
  from_ranges (zip_with (λ s st, mk_range st (st +w s)) ss chunk_start) = subchunk sh ss k.
Proof.
  intros Hk chunk_start. destruct (subchunk_wf k Hk) as (Hwf & Hshape & (_ & [Hli Hin] & _)). pose proof length_cps as [Hl1 Hl2].
  assert (∀ j, (j < length ss)%nat → chunk_start !!! j = start (subchunk sh ss k) !!! j ∧ 1 <= ss !!! j ∧
    0 <= chunk_start !!! j ∧ chunk_start !!! j + ss !!! j < u64_modulus) as Hj.
  { intros j Hj. destruct (divided_at j Hj) as (Hs & Hc & _). specialize (Hin j ltac:(lia)). rewrite Hshape in Hin.
    destruct Hwf as [_ Hst]. specialize (Hst j ltac:(lia)).
    pose proof (element_le_product sh j (proj1 Hsh) ltac:(lia)). destruct Hsh as [_ Hb63].
    assert (chunk_start !!! j = start (subchunk sh ss k) !!! j) as Heq; [|rewrite Heq; unfold u64_modulus; lia].
    unfold chunk_start. rewrite zip_with_total by (rewrite ?length_delin; lia). unfold subchunk, subset_of in Hst, Hin |- *. cbn [start] in *.
    pose proof (axes_origin_of regular_axis _ _ _ shard_grid_wf (delin k cps) j) as Ho. cbn [rg_chunk_shape rg_array_shape shard_grid] in Ho.
    rewrite length_delin in Ho. change (grid_axes g) with (zip_with regular_axis sh ss) in *. rewrite Ho in * by lia.
    cbn [ax_origin regular_axis] in *. apply wrap64_small. unfold_u64. lia. }
  assert (length chunk_start = length ss) as Hlc by (unfold chunk_start; rewrite length_zip_with, length_delin; lia).
  destruct (subchunk sh ss k) as [st shp] eqn:Hsub. cbn [start shape] in *. subst shp. unfold from_ranges. f_equal.
  - apply list_eq_total; rewrite ?length_fmap, ?length_zip_with; [lia|]. intros j Hjl.
    rewrite fmap_total by (rewrite ?length_zip_with; lia). rewrite zip_with_total by lia. cbn [r_start]. by apply Hj; lia.
  - apply list_eq_total; rewrite ?length_fmap, ?length_zip_with; [lia|]. intros j Hjl.
    rewrite fmap_total by (rewrite ?length_zip_with; lia). rewrite zip_with_total by lia. cbn [r_start r_end].
    destruct (Hj j ltac:(lia)) as (_ & ? & ? & ?). rewrite wrap64_small by (unfold_u64; lia). unfold saturating_sub. lia.
Qed.
End grid.

(** The subchunks of a shard that is the region [o] of a larger array. *)
Definition placed_subchunk (sh ss : list Z) (o : ArraySubset) (k : Z) : ArraySubset :=
  mk_subset (zip_with Z.add (start o) (start (subchunk sh ss k))) ss.

Section placed.
Context (sh ss : list Z) (Hsh : chunk_shape_ok sh) (Hdiv : divides sh ss) (o : ArraySubset) (Ho : subset_wf o) (Hshape : shape o = sh).

#[local] Abbreviation cps := (chunks_per_shard sh ss).

Lemma placed_start k j : 0 <= k < Zprod cps → (j < length sh)%nat →
  start (placed_subchunk sh ss o k) !!! j = start o !!! j + start (subchunk sh ss k) !!! j ∧ length (start (subchunk sh ss k)) = length sh ∧
  0 <= start (subchunk sh ss k) !!! j ∧ start (subchunk sh ss k) !!! j + ss !!! j <= sh !!! j ∧ 1 <= ss !!! j.
Proof.
  intros Hk Hj. destruct (subchunk_wf sh ss Hsh Hdiv k Hk) as (Hwf & Hs & (_ & [Hl Hin] & _)). destruct (length_cps sh ss Hdiv) as [_ Hls].
  pose proof (proj1 Ho) as Hlo. rewrite Hshape in Hlo. unfold placed_subchunk at 1. cbn [start]. rewrite zip_with_total by lia. destruct Hwf as [Hlw Hst]. specialize (Hst j). specialize (Hin j ltac:(lia)).
  rewrite Hs in Hin, Hst, Hlw. destruct (divided_at sh ss Hsh Hdiv j) as (_ & ? & _); [lia|]. specialize (Hst ltac:(lia)). split_and!; [done|lia|lia|lia|lia].
Qed.

Lemma placed_wf k : 0 <= k < Zprod cps → subset_wf (placed_subchunk sh ss o k) ∧ length (start (placed_subchunk sh ss o k)) = length (start o) ∧
  is_empty (placed_subchunk sh ss o k) = false.
Proof.
  intros Hk. destruct (subchunk_wf sh ss Hsh Hdiv k Hk) as (Hwf & Hs & (_ & [Hl _] & Hne & _)). destruct (length_cps sh ss Hdiv) as [_ Hls].
  pose proof Ho as [Hlo Hpos]. rewrite Hshape in *. assert (length (start (placed_subchunk sh ss o k)) = length (start o)) as Hlen by (cbn [start placed_subchunk]; rewrite length_zip_with; lia).
  split_and!; [|done|].
  - split; [rewrite Hlen; cbn; lia|]. intros j Hj. rewrite Hlen in Hj. destruct (placed_start k j Hk ltac:(lia)) as (-> & _ & ? & ? & ?). specialize (Hpos j Hj). cbn [shape placed_subchunk]. lia.
  - unfold is_empty in *. cbn [shape placed_subchunk]. by rewrite Hs in Hne.
Qed.

Lemma placed_covers k : 0 <= k < Zprod cps → covers o (placed_subchunk sh ss o k) ∧ within (placed_subchunk sh ss o k) o = subchunk sh ss k.
Proof.
  intros Hk. destruct (placed_wf k Hk) as (_ & Hlen & _). destruct (subchunk_wf sh ss Hsh Hdiv k Hk) as (Hwf & Hs & (_ & [Hl _] & _)).
  pose proof (proj1 Ho) as Hlo. rewrite Hshape in Hlo. split.
  - split; [done|]. intros j Hj. destruct (placed_start k j Hk ltac:(lia)) as (-> & _ & ? & ? & ?). rewrite Hshape. cbn [shape placed_subchunk]. lia.
  - unfold within. destruct (subchunk sh ss k) as [st shp] eqn:Hsub. cbn [start shape] in *. cbn [shape placed_subchunk]. rewrite Hs. f_equal.
    apply list_eq_total; rewrite length_zip_with, Hlen; [lia|]. intros j Hj. rewrite zip_with_total by lia.
    destruct (placed_start k j Hk ltac:(lia)) as (-> & _). rewrite Hsub. cbn. lia.
Qed.

Lemma placed_in k ix : 0 <= k < Zprod cps → in_subset (placed_subchunk sh ss o k) ix ↔
  length ix = length (start o) ∧ in_subset (subchunk sh ss k) (zip_with Z.sub ix (start o)).
Proof.
  intros Hk. destruct (placed_wf k Hk) as (_ & Hlen & _). destruct (subchunk_wf sh ss Hsh Hdiv k Hk) as (Hwf & Hs & (_ & [Hl _] & _)).
  pose proof (proj1 Ho) as Hlo. rewrite Hshape in Hlo. unfold in_subset. rewrite Hlen, length_zip_with, Hs. cbn [shape placed_subchunk].
  assert (∀ j, (j < length (start o))%nat → length ix = length (start o) →
    zip_with Z.sub ix (start o) !!! j = ix !!! j - start o !!! j ∧ start (placed_subchunk sh ss o k) !!! j = start o !!! j + start (subchunk sh ss k) !!! j) as Hj.
  { intros j Hj Hix. rewrite zip_with_total by lia. split; [done|]. by apply placed_start; [|lia]. }
  split.
  - intros [Hix Hin]. split; [done|]. split; [lia|]. intros j Hjl. specialize (Hin j ltac:(lia)). destruct (Hj j ltac:(lia) Hix) as [-> He]. lia.
  - intros [Hix [_ Hin]]. split; [done|]. intros j Hjl. specialize (Hin j ltac:(lia)). destruct (Hj j ltac:(lia) Hix) as [He He']. lia.
Qed.

(** Together they are the region. *)
Lemma placed_union ix : in_subset o ix ↔ ∃ p, p ∈ (placed_subchunk sh ss o <$> seqZ 0 (Zprod cps)) ∧ in_subset p ix.
Proof.
  split.
  - intros Hix. pose proof Hix as [Hl _]. pose proof (position_index_in o ix Ho Hix) as [Hli Hin]%Forall2_total. rewrite Hshape in *.
    destruct (element_subchunk sh ss Hsh Hdiv (zip_with Z.sub ix (start o))) as (k & Hk & Hx).
    { split; cbn; rewrite length_replicate; [lia|]. intros j Hj. rewrite lookup_total_replicate_2 by lia. specialize (Hin j ltac:(lia)). lia. }
    exists (placed_subchunk sh ss o k). split; [apply list_elem_of_fmap; exists k; split; [done|apply elem_of_seqZ; lia]|]. by apply placed_in.
  - intros (p & (k & -> & Hk%elem_of_seqZ)%list_elem_of_fmap & Hix). apply (covers_in o (placed_subchunk sh ss o k)); [done|apply placed_covers; lia|done].
Qed.

(** The elements of a placed subchunk are a selection of those of the region. *)
Lemma placed_select {A} `{!Inhabited A} (L : list A) k : 0 <= k < Zprod cps → zlen L = Zprod sh →
  contents (element_at L o) (placed_subchunk sh ss o k) = select L (positions (subchunk sh ss k) sh).
Proof.
  intros Hk HL. destruct (placed_covers k Hk) as [Hcov Hw]. rewrite <-Hw.
  rewrite <-(select_contents (element_at L o) o) by (done || by apply placed_wf). rewrite contents_element_at by (done || congruence). by rewrite Hshape.
Qed.
End placed.

(** ** The index as bytes *)

Lemma u64_le_bytes_spec x : u64_to_le_bytes x = (λ i, x / 2 ^ (8 * i) mod 256) <$> seqZ 0 8.
Proof.
  unfold u64_to_le_bytes. apply list_fmap_ext_in. intros i Hi%elem_of_seqZ. change 255 with (Z.ones 8).
  by rewrite Z.land_ones, Z.shiftr_div_pow2 by lia.
Qed.

Lemma u64_le_roundtrip x : is_u64 x → u64_from_le_bytes (u64_to_le_bytes x) = x.
Proof.
  intros Hx. rewrite u64_le_bytes_spec. change (seqZ 0 8) with [0; 1; 2; 3; 4; 5; 6; 7].
  cbn [fmap list_fmap u64_from_le_bytes foldr Z.mul Pos.mul Z.pow Z.pow_pos Pos.iter].
  unfold_u64. change (2 ^ (8 * 0)) with 1. change (2 ^ (8 * 1)) with 256. change (2 ^ (8 * 2)) with 65536. change (2 ^ (8 * 3)) with 16777216.
  change (2 ^ (8 * 4)) with 4294967296. change (2 ^ (8 * 5)) with 1099511627776. change (2 ^ (8 * 6)) with 281474976710656.
  change (2 ^ (8 * 7)) with 72057594037927936. change (2 ^ 64) with 18446744073709551616 in Hx.
  Z.to_euclidean_division_equations. lia.
Qed.

Section ne_bytes.
Context `{Target}.

Lemma length_u64_le x : length (u64_to_le_bytes x) = 8%nat.
Proof. unfold u64_to_le_bytes. by rewrite length_fmap, length_seqZ. Qed.

Lemma length_u64_bytes x : length (u64_to_ne_bytes x) = 8%nat.
Proof. unfold u64_to_ne_bytes, u64_to_le_bytes. destruct (decide _); [|rewrite length_reverse]; by rewrite length_fmap, length_seqZ. Qed.

Lemma u64_ne_roundtrip x : is_u64 x → u64_from_ne_bytes (u64_to_ne_bytes x) = x.
Proof.
  intros Hx. unfold u64_from_ne_bytes, u64_to_ne_bytes. destruct (decide _); [|rewrite reverse_involutive]; by apply u64_le_roundtrip.
Qed.

Definition index_elements (idx : list Z) : list bytes := u64_to_ne_bytes <$> idx.

Lemma index_elements_fixed idx : fixed_elements 8 (index_elements idx).
Proof. split; [lia|]. unfold index_elements. apply Forall_fmap, Forall_true. intros x. apply length_u64_bytes. Qed.

Lemma length_index_bytes idx : zlen (index_to_bytes idx) = 8 * zlen idx.
Proof.
  unfold index_to_bytes. pose proof (fixed_elements_length 8 _ (index_elements_fixed idx)) as Hl. unfold index_elements in Hl.
  rewrite length_fmap in Hl. lia.
Qed.

(** The index is read back from its bytes. *)
Lemma index_roundtrip idx : Forall is_u64 idx → index_from_bytes (index_to_bytes idx) = idx.
Proof.
  intros Hidx. unfold index_from_bytes, index_to_bytes. rewrite chunks_exact_concat by (lia || apply index_elements_fixed).
  rewrite list_fmap_fmap. rewrite <-(list_fmap_id idx) at 2. apply list_fmap_ext_in. intros x Hx. apply u64_ne_roundtrip.
  by apply (proj1 (Forall_forall _ _) Hidx).
Qed.

(** The index as array bytes. *)
Lemma index_holds idx : zlen idx < 2 ^ 60 → holds (FixedBytes (index_to_bytes idx)) (PlainType (FixedSize 8)) (Value <$> index_elements idx).
Proof.
  intros Hl. apply holds_fixed. exists (index_elements idx). split_and!; [done|done|apply index_elements_fixed|].
  unfold index_elements. rewrite length_fmap. lia.
Qed.
End ne_bytes.

(** ** Entries *)

(** The offset and the size of subchunk [k]. *)
Definition entry (idx : list Z) (k : Z) : Z * Z := (idx !!! Z.to_nat (2 * k), idx !!! Z.to_nat (2 * k + 1)).

#[global] Arguments entry : simpl never.

Abbreviation no_entry := (u64_max, u64_max).

Section entries.
Context (n : Z) (Hn : 0 <= n < 2 ^ 62).

Definition index_ok (idx : list Z) : Prop := zlen idx = 2 * n ∧ Forall is_u64 idx.

Lemma index_lookup {E} idx k : index_ok idx → 0 <= k < n →
  index (E:=E) idx (k *w 2) = Ok (entry idx k).1 ∧ index (E:=E) idx (k *w 2 +w 1) = Ok (entry idx k).2.
Proof.
  intros [Hl _] Hk. rewrite (wrap64_small (k * 2)) by (unfold_u64; lia). rewrite (wrap64_small (k * 2 + 1)) by (unfold_u64; lia).
  unfold index, entry. rewrite !(proj2 (Z.leb_le _ _)) by lia. cbn [fst snd]. replace (k * 2) with (2 * k) by lia.
  rewrite !list_lookup_lookup_total_lt by lia. done.
Qed.

Lemma entry_u64 idx k : index_ok idx → 0 <= k < n → is_u64 (entry idx k).1 ∧ is_u64 (entry idx k).2.
Proof. intros [Hl Hu] Hk. pose proof (proj1 (Forall_total _ _) Hu) as Hu'. split; apply Hu'; lia. Qed.

Lemma set_entry_ok idx k o s : index_ok idx → 0 <= k < n → is_u64 o → is_u64 s →
  ∃ idx', set_entry idx k o s = Ok idx' ∧ index_ok idx' ∧ entry idx' k = (o, s) ∧ ∀ j, 0 <= j < n → j ≠ k → entry idx' j = entry idx j.
Proof.
  intros [Hl Hu] Hk Ho Hs. exists (<[Z.to_nat (2 * k + 1) := s]> (<[Z.to_nat (2 * k) := o]> idx)). unfold set_entry, index_set.
  rewrite (wrap64_small (k * 2)) by (unfold_u64; lia). rewrite (wrap64_small (k * 2 + 1)) by (unfold_u64; lia).
  replace (k * 2) with (2 * k) by lia. rewrite (proj2 (Z.leb_le 0 _)), (proj2 (Z.ltb_lt (2 * k) _)) by lia. cbn [andb obind].
  rewrite (proj2 (Z.leb_le 0 _)), (proj2 (Z.ltb_lt _ _)) by (rewrite ?length_insert; lia). cbn [andb]. split_and!; [done| | |].
  - split; [by rewrite !length_insert|]. apply Forall_insert; [by apply Forall_insert|done].
  - unfold entry. rewrite list_lookup_total_insert_ne, !list_lookup_total_insert_eq by (rewrite ?length_insert; lia). done.
  - intros j Hj Hjk. unfold entry. rewrite !list_lookup_total_insert_ne by (rewrite ?length_insert; lia). done.
Qed.

Lemma empty_index : index_ok (replicate (Z.to_nat (2 * n)) u64_max) ∧ ∀ k, 0 <= k < n → entry (replicate (Z.to_nat (2 * n)) u64_max) k = no_entry.
Proof.
  split.
  - split; [rewrite length_replicate; lia|]. apply Forall_replicate. unfold_u64. lia.
  - intros k Hk. unfold entry. rewrite !lookup_total_replicate_2 by lia. done.
Qed.

(** The entries are the index. *)
Lemma index_ext idx idx' : index_ok idx → index_ok idx' → (∀ k, 0 <= k < n → entry idx k = entry idx' k) → idx = idx'.
Proof.
  intros [Hl _] [Hl' _] He. apply list_eq_total; [lia|]. intros j Hj. pose proof (He (Z.of_nat j / 2)) as Hj'.
  pose proof (Z.div_mod (Z.of_nat j) 2 ltac:(lia)). pose proof (Z.mod_pos_bound (Z.of_nat j) 2 ltac:(lia)).
  specialize (Hj' ltac:(lia)). unfold entry in Hj'. injection Hj' as Heven Hodd.
  destruct (decide (Z.of_nat j mod 2 = 0)) as [Hm|Hm].
  - replace (Z.to_nat (2 * (Z.of_nat j / 2))) with j in Heven by lia. done.
  - replace (Z.to_nat (2 * (Z.of_nat j / 2) + 1)) with j in Hodd by lia. done.
Qed.

Lemma length_as_pairs l : ∀ m : nat, length l = (2 * m)%nat → length (as_pairs l) = m.
Proof.
  intros m. revert l. induction m as [|m IH]; intros l Hl; [by destruct l|]. destruct l as [|a [|b l]]; [done|simpl in Hl; lia|].
  cbn [as_pairs length]. f_equal. apply IH. simpl in Hl. lia.
Qed.

Lemma lookup_as_pairs l (k : nat) : (2 * k + 1 < length l)%nat → as_pairs l !! k = Some (l !!! (2 * k)%nat, l !!! (2 * k + 1)%nat).
Proof.
  revert l. induction k as [|k IH]; intros l Hk; destruct l as [|a [|b l]]; simpl in Hk; try lia; [done|].
  cbn [as_pairs lookup list_lookup]. rewrite IH by lia. replace (2 * S k)%nat with (S (S (2 * k))) by lia. done.
Qed.

Lemma as_pairs_entries idx : index_ok idx → as_pairs idx = entry idx <$> seqZ 0 n.
Proof.
  intros [Hl _]. pose proof (length_as_pairs idx (Z.to_nat n) ltac:(lia)) as Hp. apply list_eq_total; [rewrite length_fmap, length_seqZ; lia|].
  intros j Hj. rewrite fmap_total by (rewrite length_seqZ; lia).
  rewrite (list_lookup_total_correct (as_pairs idx) j _ (lookup_as_pairs idx j ltac:(lia))).
  rewrite (list_lookup_total_correct (seqZ 0 n) j (Z.of_nat j)) by (apply lookup_seqZ; lia).
  unfold entry. f_equal; f_equal; lia.
Qed.
End entries.

(** ** The memory of a shard *)

(** [len] bytes from offset [o]. *)
Definition part (mem : bytes) (o len : Z) : bytes := take (Z.to_nat len) (drop (Z.to_nat o) mem).

Lemma slice_part {E} (mem : bytes) a b : 0 <= a <= b → b <= zlen mem → slice (E:=E) mem a b = Ok (part mem a (b - a)).
Proof. intros Hab Hb. unfold slice. rewrite !(proj2 (Z.leb_le _ _)) by lia. done. Qed.

Lemma length_part mem o len : 0 <= o → 0 <= len → o + len <= zlen mem → zlen (part mem o len) = len.
Proof. intros Ho Hl Hb. unfold part. rewrite length_take, length_drop. lia. Qed.

(** A copy changes the part it writes and no other. *)
Lemma copy_part {E} mem a b (e : bytes) : 0 <= a → b = a + zlen e → b <= zlen mem →
  ∃ mem', copy_from_slice (E:=E) mem a b e = Ok mem' ∧ length mem' = length mem ∧ part mem' a (zlen e) = e ∧
    ∀ o len, 0 <= o → 0 <= len → o + len <= a ∨ b <= o → part mem' o len = part mem o len.
Proof.
  intros Ha -> Hb. unfold copy_from_slice. rewrite !(proj2 (Z.leb_le _ _)), (proj2 (Z.eqb_eq _ _)) by lia. cbn [andb].
  eexists. split; [done|]. split_and!.
  - rewrite !length_app, length_take, length_drop. lia.
  - unfold part. rewrite drop_app_length' by (rewrite length_take; lia). rewrite Nat2Z.id. by rewrite take_app_length.
  - intros o len Ho Hl [Hlt|Hge]; unfold part.
    + rewrite drop_app_le by (rewrite length_take; lia). rewrite take_app_le by (rewrite length_drop, length_take; lia).
      apply list_eq. intros i. destruct (decide (i < Z.to_nat len)%nat) as [Hi|Hi].
      * rewrite !lookup_take_lt, !lookup_drop, lookup_take_lt by lia. done.
      * rewrite !lookup_take_ge by lia. done.
    + rewrite drop_app_ge by (rewrite length_take; lia). rewrite length_take. rewrite drop_app_ge by lia. rewrite drop_drop. f_equal. f_equal. lia.
Qed.

Lemma part_take mem o len m : 0 <= o → 0 <= len → o + len <= m → part (take (Z.to_nat m) mem) o len = part mem o len.
Proof.
  intros Ho Hl Hm. unfold part. apply list_eq. intros i. destruct (decide (i < Z.to_nat len)%nat) as [Hi|Hi].
  - rewrite !lookup_take_lt, !lookup_drop, lookup_take_lt by lia. done.
  - rewrite !lookup_take_ge by lia. done.
Qed.

(** The sizes of encoded subchunks, which are pairs of a number and bytes. *)
Definition sizes (chunks : list (Z * bytes)) : Z := Zsum ((λ chunk, zlen chunk.2) <$> chunks).

Lemma sizes_cons chunk chunks : sizes (chunk :: chunks) = zlen chunk.2 + sizes chunks.
Proof. apply Zsum_cons. Qed.

Lemma sizes_app l k : sizes (l ++ k) = sizes l + sizes k.
Proof. unfold sizes. by rewrite fmap_app, Zsum_app. Qed.

Lemma sizes_nonneg chunks : 0 <= sizes chunks.
Proof. apply Zsum_nonneg, Forall_fmap, Forall_true. intros chunk. simpl. lia. Qed.

Lemma sizes_perm l k : l ≡ₚ k → sizes l = sizes k.
Proof. intros Hp. apply Zsum_Permutation. by rewrite Hp. Qed.

Lemma sizes_bound chunks limit : Forall (λ chunk, zlen chunk.2 <= limit) chunks → sizes chunks <= zlen chunks * limit.
Proof. induction 1 as [|chunk chunks Hc _ IH]; [done|]. rewrite sizes_cons. cbn [length]. lia. Qed.

Section placement.
Context (n : Z) (Hn : 0 <= n < 2 ^ 62) (base : Z) (Hbase : 0 <= base).

Definition apart (x y : Z * Z) : Prop := x.1 + x.2 <= y.1 ∨ y.1 + y.2 <= x.1.

(** The subchunks have their entries, which do not overlap, between [base] and [off]; the other entries are empty. *)
Record layout (idx : list Z) (off : Z) (chunks : list (Z * bytes)) : Prop := {
  lay_index : index_ok n idx;
  lay_keys : NoDup chunks.*1;
  lay_off : off = base + sizes chunks;
  lay_entries k e : (k, e) ∈ chunks → 0 <= k < n ∧ (entry idx k).2 = zlen e ∧ base <= (entry idx k).1 ∧ (entry idx k).1 + zlen e <= off;
  lay_apart k e l f : (k, e) ∈ chunks → (l, f) ∈ chunks → k ≠ l → apart (entry idx k) (entry idx l);
  lay_rest k : 0 <= k < n → k ∉ chunks.*1 → entry idx k = no_entry;
}.

Definition written (mem : bytes) (idx : list Z) (chunks : list (Z * bytes)) : Prop :=
  ∀ k e, (k, e) ∈ chunks → part mem (entry idx k).1 (zlen e) = e.

Definition placed (M : Z) (chunks : list (Z * bytes)) (state : bytes * list Z * Z) : Prop :=
  zlen state.1.1 = M ∧ layout state.1.2 state.2 chunks ∧ written state.1.1 state.1.2 chunks.

Lemma layout_empty : layout (replicate (Z.to_nat (2 * n)) u64_max) base [].
Proof.
  destruct (empty_index n Hn) as [Hi He]. split; [done|constructor|unfold sizes; simpl; unfold Zsum; simpl; lia|set_solver|set_solver|].
  intros k Hk _. by apply He.
Qed.

Lemma in_keys (k : Z) (e : bytes) chunks : (k, e) ∈ chunks → k ∈ chunks.*1.
Proof. intros He. apply list_elem_of_fmap. by exists (k, e). Qed.

Lemma layout_perm idx off l k : l ≡ₚ k → layout idx off l → layout idx off k.
Proof.
  intros Hp [Hi Hk Ho He Ha Hr]. split; [done|by rewrite <-Hp|by rewrite <-(sizes_perm _ _ Hp)|..].
  - intros j e. rewrite <-Hp. apply He.
  - intros j e l' f. rewrite <-Hp. apply Ha.
  - intros j. rewrite <-Hp. apply Hr.
Qed.

Lemma placed_perm M l k state : l ≡ₚ k → placed M l state → placed M k state.
Proof. intros Hp (HM & Hl & Hw). split_and!; [done|by eapply layout_perm|]. intros j e. rewrite <-Hp. apply Hw. Qed.

(** A subchunk is given the next place. *)
Lemma assign_ok idx off chunks k e : layout idx off chunks → 0 <= k < n → k ∉ chunks.*1 → off + zlen e < u64_modulus →
  ∃ idx', set_entry idx k off (zlen e) = Ok idx' ∧ assign_subchunk (idx, off) (k, e) = Ok (idx', off + zlen e) ∧
    layout idx' (off + zlen e) ((k, e) :: chunks) ∧ entry idx' k = (off, zlen e) ∧ ∀ j, 0 <= j < n → j ≠ k → entry idx' j = entry idx j.
Proof.
  intros [Hi Hkeys Hoff He Ha Hr] Hk Hnew Hb. pose proof (sizes_nonneg chunks) as Hs.
  destruct (set_entry_ok n Hn idx k off (zlen e) Hi Hk) as (idx' & Hset & Hi' & Hentry & Hother); [unfold_u64; lia..|].
  exists idx'. split_and!; [done| | |done|done].
  - unfold assign_subchunk. cbn [fst snd]. rewrite Hset. cbn [obind]. by rewrite wrap64_small by (unfold_u64; lia).
  - assert (∀ j f, (j, f) ∈ chunks → 0 <= j < n ∧ j ≠ k) as Hold.
    { intros j f Hj. split; [by eapply He|]. intros ->. by apply Hnew, (in_keys _ f). }
    split; [done| |rewrite sizes_cons; cbn [snd]; lia| | |].
    + cbn [fmap list_fmap fst]. by constructor.
    + intros j f [[= -> ->]|Hj]%elem_of_cons; [rewrite Hentry; simpl; lia|]. destruct (Hold j f Hj). rewrite Hother by done.
      destruct (He j f Hj) as (? & ? & ? & ?). split_and!; [lia..|done|lia|lia].
    + intros j f l g [[= -> ->]|Hj]%elem_of_cons [[= -> ->]|Hl]%elem_of_cons Hne; [done|..].
      * destruct (Hold l g Hl). rewrite Hentry, Hother by done. right. destruct (He l g Hl) as (_ & -> & _ & ?). cbn [fst]. lia.
      * destruct (Hold j f Hj). rewrite Hentry, Hother by done. left. destruct (He j f Hj) as (_ & -> & _ & ?). cbn [fst]. lia.
      * rewrite !Hother by (eapply Hold; done). by eapply Ha.
    + intros j Hj Hjn. cbn [fmap list_fmap fst] in Hjn. rewrite not_elem_of_cons in Hjn. destruct Hjn as [Hjk Hjn]. rewrite Hother by done. by apply Hr.
Qed.

(** A subchunk is copied to its place. *)
Lemma copy_ok idx off all mem done_ k e : layout idx off all → off <= zlen mem → zlen mem < u64_modulus → (k, e) ∈ all → k ∉ done_.*1 → done_ ⊆ all →
  written mem idx done_ →
  ∃ mem', copy_from_slice (E:=CodecError) mem (entry idx k).1 ((entry idx k).1 +w zlen e) e = Ok mem' ∧ copy_subchunk idx mem (k, e) = Ok mem' ∧
    zlen mem' = zlen mem ∧ written mem' idx ((k, e) :: done_).
Proof.
  intros Hlay Hoff Hm Hk Hnew Hsub Hw. destruct (lay_entries _ _ _ Hlay k e Hk) as (Hkn & Hsize & Hlow & Hhigh).
  rewrite wrap64_small by (unfold_u64; lia).
  destruct (copy_part (E:=CodecError) mem (entry idx k).1 ((entry idx k).1 + zlen e) e) as (mem' & Hcopy & Hlen & Hpart & Hother); [lia|done|lia|].
  exists mem'. split_and!; [done| |lia|].
  - unfold copy_subchunk. cbn [fst snd]. destruct (index_lookup (E:=CodecError) n Hn idx k (lay_index _ _ _ Hlay) Hkn) as [-> ->]. cbn [obind]. rewrite Hsize.
    rewrite wrap64_small by (unfold_u64; lia). done.
  - intros j f [[= -> ->]|Hj]%elem_of_cons; [done|]. destruct (lay_entries _ _ _ Hlay j f (Hsub _ Hj)) as (_ & Hsizej & Hlowj & _).
    rewrite Hother; [by apply Hw|lia|lia|]. destruct (lay_apart _ _ _ Hlay j f k e (Hsub _ Hj) Hk) as [Hap|Hap]; [|lia..].
    intros ->. by apply Hnew, (in_keys _ f).
Qed.

(** [place_subchunk] does both. *)
Lemma place_ok M chunks state k e : placed M chunks state → 0 <= k < n → k ∉ chunks.*1 → base + sizes chunks + zlen e <= M → M < u64_modulus →
  ∃ state', place_subchunk state (k, e) = Ok state' ∧ placed M ((k, e) :: chunks) state'.
Proof.
  destruct state as [[mem idx] off]. intros (HM & Hlay & Hw) Hk Hnew Hb HMb. cbn [fst snd] in *. pose proof (lay_off _ _ _ Hlay) as Hoff.
  pose proof (sizes_nonneg chunks) as Hs.
  destruct (assign_ok idx off chunks k e Hlay Hk Hnew) as (idx' & Hset & _ & Hlay' & Hentry & Hother); [lia|].
  assert (written mem idx' chunks) as Hw'.
  { intros j f Hj. rewrite Hother; [by apply Hw|by eapply (lay_entries _ _ _ Hlay)|]. intros ->. by apply Hnew, (in_keys _ f). }
  destruct (copy_ok idx' (off + zlen e) ((k, e) :: chunks) mem chunks k e Hlay') as (mem' & Hcopy & _ & Hlen & Hw2); [lia|lia|set_solver|done|set_solver|done|].
  rewrite Hentry in Hcopy. cbn [fst] in Hcopy. exists (mem', idx', off + zlen e). split.
  - unfold place_subchunk. rewrite Hset. cbn [obind]. rewrite Hcopy. cbn [obind]. by rewrite wrap64_small by (unfold_u64; lia).
  - split_and!; [cbn; lia|done|done].
Qed.

(** *** All of the subchunks *)

Lemma fold_place_ok M l chunks state : placed M chunks state → NoDup ((chunks ++ l).*1) → Forall (λ chunk, 0 <= chunk.1 < n) l →
  base + sizes (chunks ++ l) <= M → M < u64_modulus →
  ∃ state', fold_outcome place_subchunk state l = Ok state' ∧ placed M (chunks ++ l) state'.
Proof.
  intros Hp Hnd Hl Hb HM. revert chunks state Hp Hnd Hb. induction Hl as [|[k e] l Hk Hl IH]; intros chunks state Hp Hnd Hb.
  - rewrite app_nil_r. by exists state.
  - rewrite sizes_app, sizes_cons in Hb. pose proof (sizes_nonneg l). cbn [fst snd] in *.
    rewrite <-Permutation_middle in Hnd. cbn [fmap list_fmap fst] in Hnd. apply NoDup_cons in Hnd as [Hnew Hnd].
    destruct (place_ok M chunks state k e Hp Hk) as (state1 & Hs1 & Hp1); [rewrite fmap_app in Hnew; set_solver|lia|done|].
    destruct (IH ((k, e) :: chunks) state1 Hp1) as (state' & Hs' & Hp'); [by constructor|rewrite sizes_app, sizes_cons; cbn [snd]; lia|].
    exists state'. split; [cbn [fold_outcome]; by rewrite Hs1|]. eapply placed_perm; [|exact Hp']. cbn. by rewrite Permutation_middle.
Qed.

Lemma fold_assign_ok l chunks idx off : layout idx off chunks → NoDup ((chunks ++ l).*1) → Forall (λ chunk, 0 <= chunk.1 < n) l →
  base + sizes (chunks ++ l) < u64_modulus →
  ∃ idx', fold_outcome assign_subchunk (idx, off) l = Ok (idx', base + sizes (chunks ++ l)) ∧ layout idx' (base + sizes (chunks ++ l)) (chunks ++ l).
Proof.
  intros Hp Hnd Hl Hb. revert chunks idx off Hp Hnd Hb. induction Hl as [|[k e] l Hk Hl IH]; intros chunks idx off Hp Hnd Hb.
  - rewrite app_nil_r. pose proof (lay_off _ _ _ Hp) as Hoff. exists idx. by rewrite <-Hoff.
  - assert (sizes (chunks ++ (k, e) :: l) = sizes (((k, e) :: chunks) ++ l)) as Hsz by (apply sizes_perm; cbn; by rewrite Permutation_middle).
    rewrite Hsz in *. pose proof (sizes_nonneg l). cbn [fst snd] in *. rewrite sizes_app, sizes_cons in Hb. cbn [snd] in Hb.
    rewrite <-Permutation_middle in Hnd. cbn [fmap list_fmap fst] in Hnd. apply NoDup_cons in Hnd as [Hnew Hnd]. pose proof (lay_off _ _ _ Hp) as Hoff.
    destruct (assign_ok idx off chunks k e Hp Hk) as (idx1 & _ & Hs1 & Hp1 & _); [rewrite fmap_app in Hnew; set_solver|lia|].
    destruct (IH ((k, e) :: chunks) idx1 _ Hp1) as (idx' & Hs' & Hp'); [by constructor|rewrite sizes_app, sizes_cons; cbn [snd]; lia|].
    exists idx'. split; [cbn [fold_outcome]; by rewrite Hs1|]. eapply layout_perm; [|exact Hp']. cbn. by rewrite Permutation_middle.
Qed.

Lemma fold_copy_ok idx off all mem l done_ : layout idx off all → off <= zlen mem → zlen mem < u64_modulus → NoDup ((done_ ++ l).*1) → done_ ++ l ⊆ all →
  written mem idx done_ →
  ∃ mem', fold_outcome (copy_subchunk idx) mem l = Ok mem' ∧ zlen mem' = zlen mem ∧ written mem' idx (done_ ++ l).
Proof.
  intros Hlay Hoff Hm. revert mem done_ Hoff Hm. induction l as [|[k e] l IH]; intros mem done_ Hoff Hm Hnd Hsub Hw.
  - rewrite app_nil_r. by exists mem.
  - assert (∀ c, c ∈ done_ ++ (k, e) :: l ↔ c ∈ ((k, e) :: done_) ++ l) as Hin by (intros c; by rewrite <-Permutation_middle).
    rewrite <-Permutation_middle in Hnd. cbn [fmap list_fmap fst] in Hnd. pose proof Hnd as [Hnew Hnd']%NoDup_cons.
    destruct (copy_ok idx off all mem done_ k e Hlay Hoff Hm) as (mem1 & _ & Hs1 & Hl1 & Hw1);
      [set_solver|rewrite fmap_app in Hnew; set_solver|set_solver|done|].
    destruct (IH mem1 ((k, e) :: done_)) as (mem' & Hs' & Hl' & Hw'); [lia|lia|done|set_solver|done|].
    exists mem'. split_and!; [cbn [fold_outcome]; by rewrite Hs1|lia|]. intros j f Hj. apply Hw'. by apply Hin.
Qed.
End placement.

(** ** The order of the tasks *)

Lemma scheduled_perm `{LawfulRunTime} {A} `{!Inhabited A} (l : list A) : scheduled l ≡ₚ l.
Proof.
  unfold scheduled. rewrite (task_order_perm (length l)). replace ((λ i, l !!! i) <$> seq 0 (length l)) with l; [done|].
  apply list_eq_total; [by rewrite length_fmap, length_seq|]. intros j Hj. rewrite fmap_total by (by rewrite length_seq). f_equal.
  symmetry. apply list_lookup_total_correct. by apply lookup_seq_lt.
Qed.

(** In C order the subchunks are placed in two passes. *)
Lemma place_in_c_order_ok `{LawfulRunTime} n base M chunks mem : 0 <= n < 2 ^ 62 → 0 <= base → zlen mem = M → NoDup chunks.*1 →
  Forall (λ chunk, 0 <= chunk.1 < n) chunks → base + sizes chunks <= M → M < u64_modulus →
  ∃ state, place_in_c_order mem (replicate (Z.to_nat (2 * n)) u64_max) base chunks = Ok state ∧ placed n base M chunks state.
Proof.
  intros Hn Hbase HM Hnd Hk Hb HMb. unfold place_in_c_order.
  destruct (fold_assign_ok n Hn base Hbase chunks [] _ base (layout_empty n Hn base Hbase)) as (idx & Hs & Hlay); [done|done|simpl; lia|].
  rewrite Hs. cbn [obind]. cbn [app] in Hlay.
  destruct (fold_copy_ok n Hn base Hbase idx _ chunks mem (scheduled chunks) [] Hlay) as (mem' & -> & Hl & Hw); [lia|lia|..].
  { cbn. by rewrite scheduled_perm. }
  { cbn. intros c Hc. by rewrite scheduled_perm in Hc. }
  { intros k e. set_solver. }
  cbn [obind]. eexists. split; [done|]. split_and!; [cbn; lia|done|]. intros k e He. apply Hw. cbn. by rewrite scheduled_perm.
Qed.

Lemma place_unordered_ok `{LawfulRunTime} n base M chunks mem : 0 <= n < 2 ^ 62 → 0 <= base → zlen mem = M → NoDup chunks.*1 →
  Forall (λ chunk, 0 <= chunk.1 < n) chunks → base + sizes chunks <= M → M < u64_modulus →
  ∃ state, fold_outcome place_subchunk (mem, replicate (Z.to_nat (2 * n)) u64_max, base) (scheduled chunks) = Ok state ∧ placed n base M chunks state.
Proof.
  intros Hn Hbase HM Hnd Hk Hb HMb.
  destruct (fold_place_ok n Hn base Hbase M (scheduled chunks) [] (mem, replicate (Z.to_nat (2 * n)) u64_max, base)) as (state & Hs & Hp); [|..|done|].
  - split_and!; [done|by apply layout_empty|]. intros k e. set_solver.
  - cbn. by rewrite scheduled_perm.
  - by rewrite scheduled_perm.
  - cbn. by rewrite (sizes_perm _ _ (scheduled_perm chunks)).
  - exists state. split; [done|]. eapply placed_perm; [|exact Hp]. cbn. by rewrite scheduled_perm.
Qed.
