(* ===== verification/ShardEncode.v ===== *)
(** What an encoded shard is, and that encoding makes one.

    [shard_encodes] says which bytes are an encoding of the elements of a shard: an index can be decoded from
    its location, and each of its entries is empty, for a subchunk full of the fill value, or points to an encoding of the
    subchunk.  [sharding_encode] produces one whatever the order in which its tasks run. *)

From S2P Require Import Prelude ArraySubset Linear Iterators ChunkGrid RegularGrid ByteRange Storage ArrayBytes Elements Regions.
From S2P Require Import StoreProgram DecodeInto GridRegions Concurrency Codec BytesCodec Sharding ShardPlacement.

(** ** Encodings *)

(** The part of the shard that holds the index. *)
Definition index_part (location : ShardingIndexLocation) (size : Z) (enc : bytes) : bytes :=
  match location with IndexStart => part enc 0 size | IndexEnd => part enc (zlen enc - size) size end.

(** The bytes of a subchunk. *)
Definition stored (enc : bytes) (idx : list Z) (k : Z) : option bytes :=
  if decide (entry idx k = no_entry) then None else Some (part enc (entry idx k).1 (entry idx k).2).

(** The encoded subchunks among those of the numbers [l], when [f] says what their bytes are. *)
Definition chunks_of (f : Z → option bytes) (l : list Z) : list (Z * bytes) := omap (λ k, (λ e, (k, e)) <$> f k) l.

Lemma elem_of_chunks_of f l k e : (k, e) ∈ chunks_of f l ↔ k ∈ l ∧ f k = Some e.
Proof.
  unfold chunks_of. rewrite list_elem_of_omap. split.
  - intros (j & Hj & He). destruct (f j) eqn:Hc; [|done]. by injection He as <- <-.
  - intros [Hk Hc]. exists k. by rewrite Hc.
Qed.

Lemma chunks_of_keys f l k : k ∈ (chunks_of f l).*1 → k ∈ l.
Proof. intros ([j e] & -> & He%elem_of_chunks_of)%list_elem_of_fmap. apply He. Qed.

Lemma chunks_of_nodup f l : NoDup l → NoDup (chunks_of f l).*1.
Proof.
  induction 1 as [|k l Hk Hl IH]; [constructor|]. unfold chunks_of in *. cbn [omap list_omap].
  destruct (f k) as [e|]; cbn [fmap option_fmap option_map]; [|done]. cbn [list_fmap fst]. constructor; [|done].
  intros Hin. by apply chunks_of_keys in Hin.
Qed.

Lemma length_chunks_of f l : (length (chunks_of f l) <= length l)%nat.
Proof.
  induction l as [|k l IH]; [done|]. unfold chunks_of in *. cbn [omap list_omap length].
  destruct (f k); cbn [fmap option_fmap option_map length]; lia.
Qed.

Lemma chunks_of_app f l k : chunks_of f (l ++ k) = chunks_of f l ++ chunks_of f k.
Proof. apply omap_app. Qed.

Lemma chunks_of_perm f l k : l ≡ₚ k → chunks_of f l ≡ₚ chunks_of f k.
Proof. intros Hp. unfold chunks_of. by rewrite Hp. Qed.


Lemma chunks_of_range f m : Forall (λ chunk, 0 <= chunk.1 < m) (chunks_of f (seqZ 0 m)).
Proof. apply Forall_forall. intros [k e] [Hk%elem_of_seqZ _]%elem_of_chunks_of. cbn. lia. Qed.

Section spec.
Context {I X : Type} `{LI : LawfulArrayToBytesCodec I, LX : LawfulArrayToBytesCodec X} `{T : Target} `{RT : LawfulRunTime}.

#[local] Abbreviation codec := (ShardingCodecBound I X).
Implicit Types self : codec.

Definition shard_chunks self (sh : list Z) : list Z := chunks_per_shard sh (subchunk_shape self).

(** The sizes of the index and of an encoded subchunk. *)
Definition index_size self (sh : list Z) : Z :=
  match a2b_encoded_representation (index_codecs self) (sharding_index_shape (shard_chunks self sh)) with
  | Ok (BytesFixedSize size) => size | _ => 0 end.

Definition subchunk_limit self : Z :=
  match a2b_encoded_representation (inner_codecs self) (subchunk_shape self) with
  | Ok rep => default (a2b_encoded_limit (inner_codecs self) (subchunk_shape self)) (representation_size rep)
  | _ => 0 end.

(** A codec bound to a data type that is not optional, with an exact fill value; the index is an array
    of [u64].  The inner codecs read no value from an offset to its end. *)
Record sharding_wf self : Prop := {
  sw_inner : a2b_wf (inner_codecs self);
  sw_index : a2b_wf (index_codecs self);
  sw_index_type : a2b_data_type (index_codecs self) = PlainType (FixedSize 8);
  sw_type : is_optional (sharding_data_type self) = false;
  sw_fill : fill_exact (sharding_data_type self) (sharding_fill_value self);
  sw_offset : a2b_offset_limit (inner_codecs self) = 0;
}.

(** A shape of shards: of whole subchunks that the inner codecs accept, with an index of a fixed size, and
    small enough for the sizes that are computed. *)
Record sharding_shape_ok self (sh : list Z) : Prop := {
  ss_shape : chunk_shape_ok sh;
  ss_divides : divides sh (subchunk_shape self);
  ss_inner : a2b_shape_ok (inner_codecs self) (subchunk_shape self);
  ss_index : a2b_shape_ok (index_codecs self) (sharding_index_shape (shard_chunks self sh));
  ss_index_size : a2b_encoded_representation (index_codecs self) (sharding_index_shape (shard_chunks self sh)) = Ok (BytesFixedSize (index_size self sh));
  ss_limit : 0 <= subchunk_limit self ∧ Zprod (shard_chunks self sh) * subchunk_limit self + index_size self sh < 2 ^ 63;
  ss_representation : match a2b_encoded_representation (inner_codecs self) sh with
    | Ok rep => ∀ size, representation_size rep = Some size →
        subchunk_limit self <= size ∧ Zprod (shard_chunks self sh) * size + index_size self sh < u64_modulus
    | _ => False end;
  ss_room : Zprod sh * Z.max 1 (zlen (base_fill (sharding_data_type self) (sharding_fill_value self))) < a2b_limit (inner_codecs self) (subchunk_shape self);
}.

(** The elements of subchunk [k]. *)
Definition subchunk_elements (V : list element) (sh ss : list Z) (k : Z) : list element :=
  contents (element_at V (new_with_shape sh)) (subchunk sh ss k).

Record indexed self (sh : list Z) (enc : bytes) (idx : list Z) : Prop := {
  ix_size : index_size self sh <= zlen enc < 2 ^ 63;
  ix_index : index_ok (Zprod (shard_chunks self sh)) idx;
  ix_encoded : a2b_encodes (index_codecs self) (sharding_index_shape (shard_chunks self sh)) (index_part (index_location self) (index_size self sh) enc)
    (FixedBytes (index_to_bytes idx)) (Value <$> index_elements idx);
  ix_fits k : 0 <= k < Zprod (shard_chunks self sh) → entry idx k = no_entry ∨ (entry idx k).1 + (entry idx k).2 <= zlen enc;
}.

Definition subchunk_content self : option bytes → ArrayBytes → list element → Prop :=
  chunk_content (inner_codecs self) (subchunk_shape self).

Definition shard_encodes self (sh : list Z) (enc : bytes) (b : ArrayBytes) (V : list element) : Prop :=
  packed b ∧ ∃ idx, indexed self sh enc idx ∧
    ∀ k, 0 <= k < Zprod (shard_chunks self sh) →
      ∃ bk, subchunk_content self (stored enc idx k) bk (subchunk_elements V sh (subchunk_shape self) k).

(** ** Encoding *)

Context (self : codec) (sh : list Z) (Hwf : sharding_wf self) (Hsh : sharding_shape_ok self sh).

#[local] Abbreviation ss := (subchunk_shape self).
#[local] Abbreviation cps := (shard_chunks self sh).
#[local] Abbreviation n := (Zprod (shard_chunks self sh)).
#[local] Abbreviation dt := (sharding_data_type self).
#[local] Abbreviation fv := (sharding_fill_value self).
#[local] Abbreviation ishape := (sharding_index_shape (shard_chunks self sh)).
#[local] Abbreviation isize := (index_size self sh).

Lemma chunks_ok : calculate_chunks_per_shard sh ss = Ok cps ∧ num_chunks cps = n ∧ 1 <= n < 2 ^ 63 ∧ chunk_shape_ok cps.
Proof.
  destruct Hsh as [Hs Hd]. split_and!; [by apply calculate_ok|by apply num_chunks_ok|by apply (products sh ss)|by apply (cps_ok sh ss)|by apply (cps_ok sh ss)..].
Qed.

(** The index of [n] entries. *)
Lemma index_shape_ok : Zprod ishape = 2 * n ∧ product64 ishape = 2 * n ∧ 0 <= n < 2 ^ 62 ∧ 2 * n < 2 ^ 60.
Proof.
  pose proof (a2b_shape_law _ _ (sw_index _ Hwf) (ss_index _ _ Hsh)) as ([Hp Hb] & Hl & _ & Hr). pose proof chunks_ok as (_ & _ & Hn & _).
  pose proof (a2b_fill_law _ (sw_index _ Hwf)) as Hf. unfold fill_ok in Hf. rewrite (sw_index_type _ Hwf) in Hf, Hr. cbn in Hf, Hr.
  assert (Zprod ishape = 2 * n) as Hz by (unfold sharding_index_shape; rewrite Zprod_app; unfold Zprod at 2; cbn [foldr]; lia).
  split_and!; [done| |lia..].
  rewrite product64_wf; [done|]. split; [eapply Forall_impl; [exact Hp|]; simpl; lia|]. unfold u64_modulus. lia.
Qed.

Lemma index_size_ok : compute_index_encoded_size (index_codecs self) ishape = Ok isize.
Proof. unfold compute_index_encoded_size. by rewrite (ss_index_size _ _ Hsh). Qed.

(** The index is encoded in [isize] bytes. *)
Lemma encode_index_ok idx options : index_ok n idx → ∃ e, a2b_encode (index_codecs self) (FixedBytes (index_to_bytes idx)) ishape options = Ok e ∧
  zlen e = isize ∧ a2b_encodes (index_codecs self) ishape e (FixedBytes (index_to_bytes idx)) (Value <$> index_elements idx).
Proof.
  intros [Hl Hu]. pose proof index_shape_ok as (Hz & _ & Hn & Hb). pose proof (index_holds idx ltac:(lia)) as Hh.
  pose proof (a2b_shape_law _ _ (sw_index _ Hwf) (ss_index _ _ Hsh)) as (_ & _ & _ & Hr).
  pose proof (a2b_fill_law _ (sw_index _ Hwf)) as Hf. unfold fill_ok in Hf. rewrite (sw_index_type _ Hwf) in Hf, Hr. cbn in Hf, Hr.
  destruct (a2b_roundtrip (index_codecs self) ishape options (FixedBytes (index_to_bytes idx)) (Value <$> index_elements idx))
    as (e & b' & rep & He & _ & Hrep & Hadm & Henc & Hh' & _).
  - apply Hwf.
  - apply Hsh.
  - by rewrite (sw_index_type _ Hwf).
  - unfold index_elements. rewrite !length_fmap. lia.
  - cbn [array_bytes_size]. rewrite length_index_bytes. lia.
  - rewrite (sw_index_type _ Hwf) in Hh'. rewrite (holds_fixed_inj _ _ _ _ Hh' Hh) in Henc.
    rewrite (ss_index_size _ _ Hsh) in Hrep. injection Hrep as <-. by exists e.
Qed.

Lemma isize_nonneg : 0 <= isize.
Proof. destruct (encode_index_ok _ (mk_options true true 1 1 true) (proj1 (empty_index n (proj1 (proj2 (proj2 index_shape_ok)))))) as (e & _ & <- & _). lia. Qed.

Lemma initial_offset_bound : 0 <= initial_offset self isize <= isize.
Proof. pose proof isize_nonneg. unfold initial_offset. destruct (index_location self); lia. Qed.


(** *** The index is written *)

Lemma write_index_ok base M mem idx off chunks eidx : base = initial_offset self isize → placed n base M chunks (mem, idx, off) →
  let shard_length := off + match index_location self with IndexStart => 0 | IndexEnd => isize end in
  zlen eidx = isize → shard_length <= M → M < 2 ^ 63 →
  ∃ shard, write_index self mem shard_length eidx = Ok shard ∧
    let enc := take (Z.to_nat shard_length) shard in
    zlen enc = shard_length ∧ index_part (index_location self) isize enc = eidx ∧ ∀ k e, (k, e) ∈ chunks → part enc (entry idx k).1 (zlen e) = e.
Proof.
  intros Hbase (HM & Hlay & Hw) shard_length He Hlen HMb. cbn [fst snd] in *. pose proof (lay_off _ _ _ _ _ Hlay) as Hoff. pose proof (sizes_nonneg chunks) as Hs.
  pose proof isize_nonneg as Hi. unfold write_index, index_part, initial_offset in *. destruct (index_location self); subst shard_length.
  - destruct (copy_part (E:=CodecError) mem 0 (zlen eidx) eidx) as (shard & Hc & Hl & Hp & Ho); [lia|lia|lia|].
    exists shard. split; [done|]. split_and!; [rewrite length_take; lia| |].
    + rewrite part_take by lia. rewrite He in Hp. exact Hp.
    + intros k e Hk. destruct (lay_entries _ _ _ _ _ Hlay k e Hk) as (_ & _ & ? & ?). rewrite part_take by lia. rewrite Ho by lia. by apply Hw.
  - rewrite wrap64_small by (unfold_u64; lia).
    destruct (copy_part (E:=CodecError) mem (off + isize - zlen eidx) (off + isize) eidx) as (shard & Hc & Hl & Hp & Ho); [lia|lia|lia|].
    exists shard. split; [done|]. assert (zlen (take (Z.to_nat (off + isize)) shard) = off + isize) as Htake by (rewrite length_take; lia).
    split_and!; [done| |].
    + rewrite Htake, part_take by lia. rewrite He in Hp. exact Hp.
    + intros k e Hk. destruct (lay_entries _ _ _ _ _ Hlay k e Hk) as (_ & _ & ? & ?). rewrite part_take by lia. rewrite Ho by lia. by apply Hw.
Qed.

(** The shard with its index is an encoding. *)
Lemma assembled_ok (f : Z → option bytes) options' base M mem idx off : base = initial_offset self isize →
  placed n base M (chunks_of f (seqZ 0 n)) (mem, idx, off) →
  let shard_length := off + match index_location self with IndexStart => 0 | IndexEnd => isize end in
  shard_length <= M → M < 2 ^ 63 →
  ∃ eidx shard, a2b_encode (index_codecs self) (FixedBytes (index_to_bytes idx)) ishape options' = Ok eidx ∧
    write_index self mem shard_length eidx = Ok shard ∧ zlen (take (Z.to_nat shard_length) shard) = shard_length ∧
    indexed self sh (take (Z.to_nat shard_length) shard) idx ∧ ∀ k, 0 <= k < n → stored (take (Z.to_nat shard_length) shard) idx k = f k.
Proof.
  intros Hbase Hp shard_length Hlen HMb. pose proof Hp as (_ & Hlay & _). cbn [fst snd] in Hlay. pose proof (lay_index _ _ _ _ _ Hlay) as Hidx.
  pose proof (lay_off _ _ _ _ _ Hlay) as Hoff. pose proof (sizes_nonneg (chunks_of f (seqZ 0 n))) as Hs0. pose proof isize_nonneg as Hi.
  assert (isize <= shard_length ∧ off <= shard_length) as [Hile Hole] by (unfold shard_length, initial_offset in *; destruct (index_location self); lia).
  destruct (encode_index_ok idx options' Hidx) as (eidx & He & Hel & Henc). destruct (write_index_ok base M mem idx off _ eidx Hbase Hp Hel Hlen HMb) as (shard & Hw & Hl & Hip & Hparts).
  fold shard_length in Hw, Hl, Hip, Hparts. clearbody shard_length. exists eidx, shard.
  assert (∀ k, 0 <= k < n → stored (take (Z.to_nat shard_length) shard) idx k = f k ∧
    (entry idx k = no_entry ∨ (entry idx k).1 + (entry idx k).2 <= shard_length)) as Hst.
  { intros k Hk. unfold stored. destruct (f k) as [e|] eqn:Hc.
    - assert ((k, e) ∈ chunks_of f (seqZ 0 n)) as Hin by (apply elem_of_chunks_of; split; [apply elem_of_seqZ; lia|done]).
      destruct (lay_entries _ _ _ _ _ Hlay k e Hin) as (_ & Hsz & Hlow & Hhigh).
      rewrite decide_False by (intros Hno; rewrite Hno in *; cbn [fst snd] in *; unfold_u64; lia).
      rewrite Hsz, Hparts by done. split; [done|right]. lia.
    - rewrite decide_True; [split; [done|left]|]; (apply (lay_rest _ _ _ _ _ Hlay); [done|]);
        intros ([j e] & -> & [_ Hin]%elem_of_chunks_of)%list_elem_of_fmap; cbn in *; congruence. }
  split_and!; [done..| |intros k Hk; by apply Hst].
  split; [lia|done|by rewrite Hip|]. intros k Hk. rewrite Hl. by apply Hst.
Qed.

Lemma shard_encodes_intro enc idx (f : Z → option bytes) b V : packed b → indexed self sh enc idx → (∀ k, 0 <= k < n → stored enc idx k = f k) →
  (∀ k, 0 <= k < n → ∃ bk, subchunk_content self (f k) bk (subchunk_elements V sh ss k)) → shard_encodes self sh enc b V.
Proof. intros Hb Hi Hst Hf. split; [done|]. exists idx. split; [done|]. intros k Hk. rewrite Hst by done. by apply Hf. Qed.

(** *** A subchunk *)

Lemma inbounds_chunk_ok k : 0 <= k < n → inbounds_chunk self k cps = Ok (subchunk sh ss k).
Proof.
  intros Hk. pose proof chunks_ok as (_ & _ & Hn & [Hp Hb]). unfold inbounds_chunk, chunk_index_to_subset.
  assert (Forall (λ d, 0 < d) cps) as Hpos by (eapply Forall_impl; [exact Hp|]; simpl; lia).
  unfold array_unravel_index. rewrite array_unravel_loop_delin by done. rewrite app_nil_r. cbn [unwrap obind].
  unfold shard_chunks. rewrite (subchunk_ranges sh ss (ss_shape _ _ Hsh) (ss_divides _ _ Hsh)) by done. done.
Qed.

Lemma elements_select V k : zlen V = Zprod sh → 0 <= k < n →
  select V (positions (subchunk sh ss k) sh) = subchunk_elements V sh ss k ∧ zlen (subchunk_elements V sh ss k) = Zprod ss.
Proof.
  intros HV Hk. pose proof (ss_shape _ _ Hsh) as Hs. pose proof (ss_divides _ _ Hsh) as Hd. unfold subchunk_elements. split.
  - rewrite <-(select_subchunk sh ss Hs Hd) by done. f_equal. symmetry. apply contents_element_at; [by apply whole_wf|done].
  - by apply length_contents_subchunk.
Qed.

(** A subchunk full of the fill value has no bytes. *)
Lemma fill_content V k : zlen V = Zprod sh → 0 <= k < n →
  subchunk_elements V sh ss k = replicate (Z.to_nat (Zprod ss)) (fill_element dt fv) →
  ∃ bk, new_fill_value dt (Zprod ss) fv = Ok bk ∧ subchunk_content self None bk (subchunk_elements V sh ss k).
Proof.
  intros HV Hk He. pose proof (a2b_shape_law _ _ (sw_inner _ Hwf) (ss_inner _ _ Hsh)) as ([_ Hb] & Hl & _ & Hr).
  pose proof (products sh ss (ss_shape _ _ Hsh) (ss_divides _ _ Hsh)) as (_ & _ & Hss).
  destruct (new_fill_holds dt (Zprod ss) fv) as (bk & Hnew & Hh & Hp & _); [by apply a2b_fill_law, Hwf|lia|unfold sharding_data_type, sharding_fill_value; lia|].
  exists bk. split; [done|]. split_and!; [by rewrite He|by apply elements_select|done|done|done].
Qed.

Context (b : ArrayBytes) (V : list element) (Hb : holds b dt V) (HV : zlen V = Zprod sh).

Lemma encode_chunk_ok options k : array_bytes_size b < a2b_limit (inner_codecs self) ss → 0 <= k < n →
  ∃ chunk, encode_inner_by_chunk_index self b sh cps options k = Ok ((λ e, (k, e)) <$> chunk) ∧
    (∃ bk, subchunk_content self chunk bk (subchunk_elements V sh ss k)) ∧ ∀ e, chunk = Some e → zlen e <= subchunk_limit self.
Proof.
  intros Hsize Hk. destruct (elements_select V k HV Hk) as [Hsel Hlen]. pose proof (a2b_shape_law _ _ (sw_inner _ Hwf) (ss_inner _ _ Hsh)) as (_ & _ & Hel & _).
  destruct (subchunk_wf sh ss (ss_shape _ _ Hsh) (ss_divides _ _ Hsh) k Hk) as (_ & _ & Hok).
  destruct (extract_holds b dt V _ sh Hok Hb HV) as (out & Hext & Hho & _ & Hle). rewrite Hsel in Hho.
  unfold encode_inner_by_chunk_index. rewrite inbounds_chunk_ok by done. cbn [obind]. rewrite Hext. cbn [obind].
  destruct (is_fill_value out fv) eqn:Hfill.
  - exists None. split_and!; [done| |done]. apply (is_fill_holds _ _ _ _ (sw_fill _ Hwf)) in Hho; [|done].
    destruct (fill_content V k HV Hk) as (bk & _ & Hc); [rewrite Hho at 1; f_equal; lia|by exists bk].
  - destruct (a2b_roundtrip (inner_codecs self) ss options out (subchunk_elements V sh ss k)) as (e & bk & rep & He & Hl & Hrep & Hadm & Henc & Hh & Hp & _);
      [apply Hwf|apply Hsh|done|done|lia|].
    exists (Some e). split_and!; [by rewrite He| |].
    + exists bk. split_and!; [done..|lia|done].
    + intros ? [= <-]. unfold subchunk_limit. rewrite Hrep. destruct rep; cbn in *; lia.
Qed.

(** *** All of the subchunks *)

Definition chunk_of (options : CodecOptions) (k : Z) : option bytes :=
  match encode_inner_by_chunk_index self b sh cps options k with Ok (Some chunk) => Some chunk.2 | _ => None end.

Context (Hsize : array_bytes_size b < a2b_limit (inner_codecs self) ss).

Lemma chunk_of_ok options k : 0 <= k < n → encode_inner_by_chunk_index self b sh cps options k = Ok ((λ e, (k, e)) <$> chunk_of options k) ∧
  (∃ bk, subchunk_content self (chunk_of options k) bk (subchunk_elements V sh ss k)) ∧ ∀ e, chunk_of options k = Some e → zlen e <= subchunk_limit self.
Proof.
  intros Hk. destruct (encode_chunk_ok options k Hsize Hk) as (chunk & He & Hc & Hl). unfold chunk_of. rewrite He. by destruct chunk.
Qed.

Lemma encode_inner_chunks_ok options l : Forall (λ k, 0 <= k < n) l → encode_inner_chunks self b sh cps options l = Ok (chunks_of (chunk_of options) l).
Proof.
  induction 1 as [|k l Hk _ IH]; [done|]. cbn [encode_inner_chunks]. rewrite (proj1 (chunk_of_ok options k Hk)), IH. cbn [obind].
  unfold chunks_of. cbn [omap list_omap]. by destruct (chunk_of options k).
Qed.

Lemma chunks_of_sizes options : sizes (chunks_of (chunk_of options) (seqZ 0 n)) <= n * subchunk_limit self.
Proof.
  pose proof (proj1 (ss_limit _ _ Hsh)) as Hlim. pose proof (length_chunks_of (chunk_of options) (seqZ 0 n)) as Hlen. rewrite length_seqZ in Hlen.
  pose proof chunks_ok as (_ & _ & Hn & _).
  etransitivity; [apply (sizes_bound _ (subchunk_limit self))|nia].
  apply Forall_forall. intros [k e] [Hk%elem_of_seqZ He]%elem_of_chunks_of. by eapply (chunk_of_ok options k); [lia|].
Qed.

(** The tasks of the bounded encoding, each of which encodes a subchunk and places it. *)
Lemma fold_encode_and_place options base M l done_ state : 0 <= base → l ++ done_ ≡ₚ seqZ 0 n → base + n * subchunk_limit self <= M → M < 2 ^ 63 →
  placed n base M (chunks_of (chunk_of options) done_) state →
  ∃ state', fold_outcome (encode_and_place self b sh cps options M) state l = Ok state' ∧ placed n base M (chunks_of (chunk_of options) (seqZ 0 n)) state'.
Proof.
  intros Hbase Hperm HM HMb. revert done_ state Hperm. induction l as [|k l IH]; intros done_ state Hperm Hp.
  - exists state. split; [done|]. eapply placed_perm; [|exact Hp]. by apply chunks_of_perm.
  - pose proof chunks_of_sizes options as Hs. pose proof index_shape_ok as (_ & _ & Hn & _).
    assert (k ∈ seqZ 0 n) as Hk%elem_of_seqZ by (rewrite <-Hperm; set_solver). rewrite Z.add_0_l in Hk.
    assert (NoDup ((k :: l) ++ done_)) as Hnd by (rewrite Hperm; apply NoDup_seqZ). cbn [app] in Hnd. apply NoDup_cons in Hnd as [Hnew _].
    assert (l ++ k :: done_ ≡ₚ seqZ 0 n) as Hperm' by (by rewrite <-Permutation_middle).
    rewrite <-(sizes_perm _ _ (chunks_of_perm (chunk_of options) _ _ Hperm')), chunks_of_app, sizes_app in Hs. pose proof (sizes_nonneg (chunks_of (chunk_of options) l)) as Hs0.
    cbn [fold_outcome]. unfold encode_and_place at 1. destruct (chunk_of_ok options k Hk) as (-> & _). cbn [obind].
    assert (chunks_of (chunk_of options) (k :: done_) = (match chunk_of options k with Some e => [(k, e)] | None => [] end) ++ chunks_of (chunk_of options) done_) as Hcons.
    { unfold chunks_of. cbn [omap list_omap]. by destruct (chunk_of options k). }
    rewrite Hcons in Hs. destruct (chunk_of options k) as [e|] eqn:Hc; cbn [fmap option_fmap option_map].
    + cbn [app] in Hs, Hcons. rewrite sizes_cons in Hs. cbn [snd] in *. pose proof Hp as (_ & Hlay & _). pose proof (lay_off _ _ _ _ _ Hlay) as Hoff.
      pose proof (sizes_nonneg (chunks_of (chunk_of options) done_)).
      rewrite wrap64_small by (unfold_u64; lia). rewrite (proj2 (Z.ltb_ge M _)) by lia.
      destruct (place_ok n Hn base Hbase M _ state k e Hp Hk) as (state1 & -> & Hp1); [|lia|unfold u64_modulus; lia|].
      { intros Hin%chunks_of_keys. set_solver. }
      cbn [obind]. apply (IH (k :: done_) state1 Hperm'). by rewrite Hcons.
    + cbn [obind]. apply (IH (k :: done_) state Hperm'). by rewrite Hcons.
Qed.

(** *** The shard *)

Lemma inner_representation : ∃ rep, a2b_encoded_representation (inner_codecs self) ss = Ok rep ∧
  default (a2b_encoded_limit (inner_codecs self) ss) (representation_size rep) = subchunk_limit self.
Proof.
  pose proof (a2b_shape_law _ _ (sw_inner _ Hwf) (ss_inner _ _ Hsh)) as (_ & Hl & _ & Hr).
  pose proof (products sh ss (ss_shape _ _ Hsh) (ss_divides _ _ Hsh)) as (_ & _ & Hss).
  destruct (new_fill_holds dt (Zprod ss) fv) as (bk & _ & Hh & _ & Hs); [by apply a2b_fill_law, Hwf|lia|unfold sharding_data_type, sharding_fill_value; lia|].
  destruct (a2b_roundtrip (inner_codecs self) ss (mk_options true true 1 1 true) bk _ (sw_inner _ Hwf) (ss_inner _ _ Hsh) Hh) as (_ & _ & rep & _ & _ & Hrep & _).
  - rewrite length_replicate. lia.
  - unfold sharding_data_type, sharding_fill_value in *. nia.
  - exists rep. unfold subchunk_limit. by rewrite Hrep.
Qed.

Lemma subchunk_options_ok options : ∃ limit options', subchunk_options self sh options = Ok (limit, options').
Proof.
  unfold subchunk_options, sharding_recommended_concurrency. rewrite (proj1 chunks_ok). cbn [obind].
  destruct (a2b_concurrency_law _ _ (sw_inner _ Hwf) (ss_inner _ _ Hsh)) as [rc ->]. cbn [obind].
  destruct (calc_concurrency_outer_inner _ _ _) as [limit inner]. by do 2 eexists.
Qed.

(** What both ways to encode promise. *)
Definition encodes_to (x : outcome CodecError bytes) : Prop :=
  ∀ b', packed b' → ∃ enc, x = Ok enc ∧ zlen enc <= n * subchunk_limit self + isize ∧ shard_encodes self sh enc b' V.

Lemma shard_length_ok options base M state : placed n base M (chunks_of (chunk_of options) (seqZ 0 n)) state → base = initial_offset self isize →
  state.2 + match index_location self with IndexStart => 0 | IndexEnd => isize end = isize + sizes (chunks_of (chunk_of options) (seqZ 0 n)).
Proof.
  intros (_ & Hlay & _) ->. rewrite (lay_off _ _ _ _ _ Hlay). unfold initial_offset. destruct (index_location self); lia.
Qed.

Lemma chunks_c_order_ok options base M mem : 0 <= base → zlen mem = M → base + sizes (chunks_of (chunk_of options) (seqZ 0 n)) <= M → M < 2 ^ 63 →
  ∃ state, place_in_c_order mem (replicate (Z.to_nat (2 * n)) u64_max) base (chunks_of (chunk_of options) (seqZ 0 n)) = Ok state ∧
    placed n base M (chunks_of (chunk_of options) (seqZ 0 n)) state.
Proof.
  intros Hbase HM Hfit HMb. apply place_in_c_order_ok; [apply index_shape_ok|done|done|apply chunks_of_nodup, NoDup_seqZ|apply chunks_of_range|done|unfold u64_modulus; lia].
Qed.

Lemma encode_all_ok options : encode_inner_chunks self b sh cps options (seqZ 0 n) = Ok (chunks_of (chunk_of options) (seqZ 0 n)).
Proof. apply encode_inner_chunks_ok. apply Forall_forall. intros k Hk%elem_of_seqZ. lia. Qed.

Lemma encode_bounded_ok options size : (∃ rep, a2b_encoded_representation (inner_codecs self) ss = Ok rep ∧ representation_size rep = Some size) →
  encodes_to (encode_bounded self b sh size options).
Proof.
  intros (rep & Hrep & Hsz) b' Hb'. destruct inner_representation as (rep' & Hrep' & Hlim). rewrite Hrep in Hrep'. injection Hrep' as <-.
  rewrite Hsz in Hlim. cbn in Hlim. subst size. pose proof isize_nonneg as Hi. pose proof (ss_limit _ _ Hsh) as [Hl0 Hl].
  pose proof index_shape_ok as (_ & Hp & Hn & _). pose proof chunks_ok as (Hc & Hnc & Hn1 & _). pose proof initial_offset_bound as Hbase.
  unfold encode_bounded. rewrite Hc. cbn [obind]. rewrite index_size_ok. cbn [obind].
  destruct (subchunk_options_ok options) as (limit & options' & ->). cbn [obind].
  unfold encoded_shard_bounded_size. rewrite Hnc, Hp. rewrite (wrap64_small (n * _)) by (unfold_u64; nia). rewrite (wrap64_small (_ + isize)) by (unfold_u64; lia).
  set (M := n * subchunk_limit self + isize). set (base := initial_offset self isize) in *. pose proof (chunks_of_sizes options') as Hs.
  assert (zlen (uninit M) = M) as Hu by (apply length_uninit; unfold M; lia). fold M in Hl.
  match goal with |- ∃ enc, obind ?x _ = _ ∧ _ => assert (∃ state, x = Ok state ∧ placed n base M (chunks_of (chunk_of options') (seqZ 0 n)) state) as (state & -> & Hpl) end.
  { destruct (subchunk_write_order (sharding_options self)).
    1, 3: apply (fold_encode_and_place options' base M (scheduled (seqZ 0 n)) [] _); [lia|by rewrite app_nil_r, scheduled_perm|lia|done|];
      (split_and!; [done|apply layout_empty; [done|cbn; lia]|]); intros k e Hin; cbn in Hin; by apply not_elem_of_nil in Hin.
    rewrite encode_all_ok. cbn [obind]. apply chunks_c_order_ok; [lia|done|lia|done]. }
  pose proof (shard_length_ok _ _ _ _ Hpl eq_refl) as Hlen. destruct state as [[mem idx] off]. cbn [obind snd] in *.
  pose proof (sizes_nonneg (chunks_of (chunk_of options') (seqZ 0 n))) as Hs0.
  rewrite (wrap64_small (off + _)) by (unfold_u64; lia).
  destruct (assembled_ok (chunk_of options') options' base M mem idx off eq_refl Hpl) as (eidx & shard & -> & Hw & Hl' & Hind & Hst); [lia|done|].
  cbn [obind]. rewrite Hw. cbn [obind]. eexists. split_and!; [done|lia|]. eapply shard_encodes_intro; [done|exact Hind|exact Hst|]. intros k Hk. by apply (chunk_of_ok options' k Hk).
Qed.

Lemma encode_unbounded_ok options : encodes_to (encode_unbounded self b sh options).
Proof.
  intros b' Hb'. pose proof isize_nonneg as Hi. pose proof (ss_limit _ _ Hsh) as [Hl0 Hl].
  pose proof index_shape_ok as (_ & Hp & Hn & _). pose proof chunks_ok as (Hc & Hnc & Hn1 & _). pose proof initial_offset_bound as Hbase.
  unfold encode_unbounded. rewrite Hc. cbn [obind]. rewrite index_size_ok. cbn [obind].
  destruct (subchunk_options_ok options) as (limit & options' & ->). cbn [obind]. rewrite Hnc, encode_all_ok. cbn [obind].
  pose proof (chunks_of_sizes options') as Hs. pose proof (sizes_nonneg (chunks_of (chunk_of options') (seqZ 0 n))) as Hs0.
  rewrite sum64_wrap. change (Zsum _) with (sizes (chunks_of (chunk_of options') (seqZ 0 n))). rewrite (wrap64_small (sizes _)) by (unfold_u64; lia).
  rewrite (wrap64_small (sizes _ + isize)) by (unfold_u64; lia). rewrite Hp.
  set (M := sizes (chunks_of (chunk_of options') (seqZ 0 n)) + isize). set (base := initial_offset self isize) in *.
  assert (zlen (uninit M) = M) as Hu by (apply length_uninit; unfold M; lia). assert (M < 2 ^ 63) as HMb by (unfold M; lia).
  match goal with |- ∃ enc, obind ?x _ = _ ∧ _ => assert (∃ state, x = Ok state ∧ placed n base M (chunks_of (chunk_of options') (seqZ 0 n)) state) as (state & -> & Hpl) end.
  { destruct (subchunk_write_order (sharding_options self)).
    1, 3: apply place_unordered_ok; [done|lia|done|apply chunks_of_nodup, NoDup_seqZ|apply chunks_of_range|unfold M; lia|unfold u64_modulus; lia].
    apply chunks_c_order_ok; [lia|done|unfold M; lia|done]. }
  pose proof (shard_length_ok _ _ _ _ Hpl eq_refl) as Hlen. destruct state as [[mem idx] off]. cbn [obind snd] in *.
  destruct (assembled_ok (chunk_of options') options base M mem idx off eq_refl Hpl) as (eidx & shard & -> & Hw & Hl' & Hind & Hst); [unfold M; lia|done|].
  cbn [obind]. replace M with (off + match index_location self with IndexStart => 0 | IndexEnd => isize end) by (unfold M; lia).
  rewrite Hw. cbn [obind]. eexists. split_and!; [done|lia|]. eapply shard_encodes_intro; [done|exact Hind|exact Hst|]. intros k Hk. by apply (chunk_of_ok options' k Hk).
Qed.

(** Encoding a shard succeeds, and the bytes are an encoding of its elements. *)
Lemma sharding_encode_ok options b' : packed b' →
  ∃ enc, sharding_encode self b sh options = Ok enc ∧ zlen enc <= n * subchunk_limit self + isize ∧ shard_encodes self sh enc b' V.
Proof.
  intros Hb'. unfold sharding_encode. pose proof (ss_shape _ _ Hsh) as Hshape.
  rewrite product64_wf by (by apply shape_wf_ok). pose proof (holds_valid _ _ _ Hb) as Hv. rewrite HV in Hv. rewrite Hv. cbn [obind].
  destruct inner_representation as (rep & Hrep & _). rewrite Hrep. cbn [obind].
  destruct rep; [apply encode_bounded_ok; [by eexists|done]..|by apply encode_unbounded_ok].
Qed.
End spec.
