(* ===== verification/ShardSpec.v ===== *)
(** Decoding a shard, and compacting it.

    Fixed-length subchunks are decoded in place, one view of the memory each; painting all of them is painting
    the shard.  Variable-length subchunks are merged.  [sharding_decode] and [sharding_decode_into] give back the elements of any
    encoding.  [sharding_compact] moves the stored subchunks of a shard together and rewrites its index: an encoding of the same
    elements without gaps, which compacting leaves alone. *)

From S2P Require Import Prelude ArraySubset Linear Iterators ChunkGrid RegularGrid ByteRange Storage ArrayBytes Elements Regions.
From S2P Require Import StoreProgram DecodeInto GridRegions Concurrency Codec BytesCodec Sharding ShardPlacement ShardEncode.

Lemma in_subset_or_not o ix : subset_wf o → in_subset o ix ∨ ¬ in_subset o ix.
Proof.
  intros Ho. destruct (decide (length ix = length (start o))) as [Hl|Hl]; [|right; by intros [? _]].
  destruct (contains o ix) eqn:Hc; [left; by apply contains_iff|right]. intros Hin%contains_iff; [congruence|done..].
Qed.

(** ** Painting

    The memory behind an array of the shape [msh], whose elements [h] have [d] bytes. *)
Section paint.
Context (msh : list Z) (d : Z) (Hd : 0 < d) (Hmsh : chunk_shape_ok msh) (Hbound : Zprod msh * d < 2 ^ 63).

Implicit Types h g : list Z → bytes.

#[local] Abbreviation M := (new_with_shape msh).

Definition memory_of (h : list Z → bytes) : bytes := concat (contents h M).

Definition sized (h : list Z → bytes) (s : ArraySubset) : Prop := ∀ ix, in_subset s ix → length (h ix) = Z.to_nat d.

Lemma sized_fixed h s : subset_wf s → sized h s → fixed_elements d (contents h s).
Proof.
  intros Hs Hh. split; [done|]. unfold contents. apply Forall_fmap, Forall_forall. intros ix Hix%elem_of_contents; [|done]. by apply Hh.
Qed.

Lemma memory_contents h : subset_wf M ∧ zlen (contents h M) = Zprod msh.
Proof. pose proof (whole_wf msh Hmsh) as (Hw & _). split; [done|]. by rewrite contents_length. Qed.

Lemma sized_overwrite h g o : subset_wf o → sized h M → sized g o → in_array o msh → sized (overwrite h g o) M.
Proof.
  intros Ho Hh Hg [Hl _] ix Hix. destruct (in_subset_or_not o ix Ho) as [Hin|Hin].
  - rewrite overwrite_in by done. by apply Hg.
  - rewrite overwrite_out; [by apply Hh|done| |done]. destruct Hix as [Hli _]. cbn in Hli. rewrite length_replicate in Hli. lia.
Qed.

(** Any memory of the right size is the one of some elements. *)
Lemma memory_intro mem : zlen mem = Zprod msh * d → ∃ h, mem = memory_of h ∧ sized h M.
Proof.
  intros Hm. pose proof (memory_contents (λ _, [])) as [HM _]. pose proof (Zprod_pos msh (proj2 (shape_wf_ok _ Hmsh))) as Hpos.
  destruct (concat_chunks_exact (Z.to_nat d) mem) as (Hc & Hf & Hlen); [lia| |].
  { apply Nat2Z.inj. rewrite Nat2Z.inj_mod, Hm, Z2Nat.id by lia. change (Z.of_nat 0) with 0. by rewrite Z.mod_mul by lia. }
  assert (zlen (chunks_exact (Z.to_nat d) mem) = Zprod msh) as Hl.
  { rewrite Hlen, Nat2Z.inj_div, Hm, Z2Nat.id by lia. apply Z.div_mul. lia. }
  exists (element_at (chunks_exact (Z.to_nat d) mem) M). unfold memory_of. rewrite contents_element_at by done. split; [done|].
  intros ix Hix. unfold element_at. pose proof (position_bound M ix HM Hix) as Hb. cbn [shape new_with_shape] in Hb.
  apply (proj1 (Forall_total _ _) Hf). lia.
Qed.

(** Writing a view, and filling it, is painting its region. *)
Lemma paint_ok h g o : region_ok o msh → sized h M → sized g o →
  ∃ view, view_new (memory_of h) d msh o = Ok view ∧ view_fits view (memory_of h) (shape o) ∧
    view_copy_from_slice view (memory_of h) (concat (contents g o)) = Ok (memory_of (overwrite h g o)) ∧
    ∀ fv, contents g o = replicate (length (contents g o)) fv → zlen fv = d → view_fill view (memory_of h) fv = Ok (memory_of (overwrite h g o)).
Proof.
  intros Ho Hh Hg. destruct (memory_contents h) as [HM Hl]. pose proof Ho as ([Hwf Hsh] & Hin & Hne & Hash).
  assert (Zprod msh * d < u64_modulus) as Hb by (unfold u64_modulus; lia).
  pose proof (sized_fixed h M HM Hh) as Hf. pose proof (sized_fixed g o Hwf Hg) as Hfg.
  destruct (view_new_ok d (contents h M) o msh Ho Hf Hl Hb) as (view & Hv & _).
  pose proof (update_fixed_ok d (contents h M) (contents g o) o msh Ho Hf Hfg Hl (contents_length g o Hwf) Hb) as Hup. unfold update_fixed in Hup.
  rewrite Hv in Hup. cbn [obind] in Hup. rewrite scatter_contents_origin in Hup by (done || apply Hash).
  exists view. split_and!; [done| |done|].
  - exists d, msh, o. split_and!; [done..|unfold memory_of; rewrite (fixed_elements_length d) by done; lia|done].
  - intros fv Hrep Hfv. pose proof (view_fill_ok d (contents h M) fv o msh Ho Hf Hfv Hl Hb) as Hfill. rewrite Hv in Hfill. cbn [obind] in Hfill.
    unfold memory_of in *. rewrite Hfill. do 2 f_equal. pose proof (contents_length g o Hwf) as Hlg.
    pose proof (length_positions o msh (conj Hwf Hsh)) as Hlp. replace (length (positions o msh)) with (length (contents g o)) by lia.
    rewrite <-Hrep. by apply scatter_contents_origin; [|done|done|done|apply Hash].
Qed.

(** Painting regions one after the other. *)
Definition paints h g (os : list ArraySubset) : list Z → bytes := fold_left (λ h o, overwrite h g o) os h.

Lemma paints_lookup h g os ix : Forall subset_wf os →
  (∃ o, o ∈ os ∧ in_subset o ix) ∧ paints h g os ix = g ix ∨ (¬ ∃ o, o ∈ os ∧ in_subset o ix) ∧ paints h g os ix = h ix ∨ ∃ o, o ∈ os ∧ length ix ≠ length (start o).
Proof.
  intros Hos. destruct (decide (Forall (λ o, length ix = length (start o)) os)) as [Hlen|Hlen].
  2:{ right. right. apply not_Forall_Exists, Exists_exists in Hlen as (o & ? & ?); [|apply _]. by exists o. }
  revert h. induction Hos as [|o os Ho Hos IH]; intros h.
  - right. left. split; [set_solver|done].
  - apply Forall_cons in Hlen as [Hl Hlen]. destruct (IH Hlen (overwrite h g o)) as [[(o' & ? & ?) ?]|[[Hno Heq]|(o' & Hin & Hne)]].
    + left. split; [exists o'; set_solver|done].
    + destruct (in_subset_or_not o ix Ho) as [Hin|Hin].
      * left. split; [exists o; set_solver|]. unfold paints in *. cbn. rewrite Heq. by apply overwrite_in.
      * right. left. split; [intros (o' & [->|?]%elem_of_cons & ?); [done|by apply Hno; exists o']|]. unfold paints in *. cbn. rewrite Heq. by apply overwrite_out.
    + exfalso. apply Hne. by apply (proj1 (Forall_forall _ _) Hlen).
Qed.

(** Regions that make up [o] paint [o]. *)
Lemma paints_cover h g os o : Forall subset_wf os → Forall (λ p, length (start p) = length msh) os → subset_wf o → length (start o) = length msh →
  (∀ ix, in_subset o ix ↔ ∃ p, p ∈ os ∧ in_subset p ix) → memory_of (paints h g os) = memory_of (overwrite h g o).
Proof.
  intros Hos Hlen Ho Hlo Hcov. unfold memory_of. f_equal. destruct (memory_contents h) as [HM _]. apply contents_ext; [done|]. intros ix Hix.
  assert (length ix = length msh) as Hli by (destruct Hix as [Hli _]; cbn in Hli; by rewrite length_replicate in Hli).
  destruct (paints_lookup h g os ix Hos) as [[Hin ->]|[[Hno ->]|(p & Hp & Hne)]].
  - symmetry. apply overwrite_in; [done|by apply Hcov].
  - symmetry. apply overwrite_out; [done|congruence|by rewrite Hcov].
  - exfalso. apply Hne. rewrite Hli. symmetry. by apply (proj1 (Forall_forall _ _) Hlen).
Qed.

(** The elements that a region paints over are forgotten. *)
Lemma memory_whole h g : memory_of (overwrite h g M) = memory_of g.
Proof.
  destruct (memory_contents h) as [HM _]. unfold memory_of. f_equal. apply contents_ext; [done|]. intros ix Hix. by apply overwrite_in.
Qed.

(** A loop whose steps paint the regions. *)
Lemma fold_paints {E A} (step : bytes → A → outcome E bytes) (region : A → ArraySubset) g l h :
  (∀ k h, k ∈ l → sized h M → step (memory_of h) k = Ok (memory_of (overwrite h g (region k))) ∧ sized (overwrite h g (region k)) M) → sized h M →
  fold_outcome step (memory_of h) l = Ok (memory_of (paints h g (region <$> l))).
Proof.
  revert h. induction l as [|k l IH]; intros h Hstep Hh; [done|]. cbn [fold_outcome]. destruct (Hstep k h ltac:(set_solver) Hh) as [-> Hh'].
  cbn [obind fmap list_fmap]. unfold paints in *. cbn [fold_left]. apply IH; [|done]. intros j h' Hj. apply Hstep. set_solver.
Qed.

(** The same where the steps read a store. *)
Lemma try_fold_paints {E A} (step : bytes → A → prog E bytes) (region : A → ArraySubset) v g l h :
  (∀ k h, k ∈ l → sized h M → runs_at (step (memory_of h) k) v (Ok (memory_of (overwrite h g (region k)))) v ∧ sized (overwrite h g (region k)) M) → sized h M →
  runs_at (try_fold step (memory_of h) l) v (Ok (memory_of (paints h g (region <$> l)))) v.
Proof.
  revert h. induction l as [|k l IH]; intros h Hstep Hh; [done|]. cbn [try_fold]. destruct (Hstep k h ltac:(set_solver) Hh) as [Hrun Hh'].
  eapply runs_at_bind; [exact Hrun|]. cbn [fmap list_fmap]. unfold paints in *. cbn [fold_left]. apply IH; [|done]. intros j h' Hj. apply Hstep. set_solver.
Qed.
End paint.

(** ** Decoding *)

#[local] Instance Value_inj : Inj (=) (=) Value.
Proof. by intros x y [= ->]. Qed.

Lemma fmap_Value_inj (L K : list bytes) : Value <$> L = Value <$> K → L = K.
Proof. apply (inj (fmap Value)). Qed.

Lemma region_chunk_shape s msh d : region_ok s msh → 0 < d → Zprod msh * d < 2 ^ 63 → chunk_shape_ok msh.
Proof.
  intros ((Hs & _) & [Hl Hin] & Hne & [Hnn _]) Hd Hb. split; [|nia]. apply Forall_total. intros j Hj. specialize (Hin j Hj).
  pose proof Hs as [Hls Hst]. pose proof (proj1 (is_empty_false s Hs) Hne j ltac:(lia)). specialize (Hst j ltac:(lia)). lia.
Qed.

Lemma view_new_fields b d msh s view : view_new b d msh s = Ok view → view_data_type_size view = d ∧ view_shape view = msh ∧ view_subset view = s.
Proof.
  unfold view_new. destruct (negb _); [done|]. destruct (negb _); [done|]. destruct (ContiguousIndices_new s msh); [|done..]. cbn [map_err obind].
  destruct (contiguous_linearised_indices s msh); [|done..]. by intros [= <-].
Qed.

Lemma covers_inbounds s o : subset_wf s → subset_wf o → covers s o → inbounds o s = true.
Proof.
  intros Hs Ho [Hl Hc]. pose proof (proj1 Hs) as Hls. pose proof (proj1 Ho) as Hlo. unfold inbounds. rewrite !(proj2 (Nat.eqb_eq _ _)) by lia. cbn [negb orb].
  apply zip_all4_true; [lia..|]. intros j Hj. specialize (Hc j ltac:(lia)). rewrite (subset_wf_wrap s), (subset_wf_wrap o) by (done || lia).
  apply andb_true_iff. split; apply Z.leb_le; lia.
Qed.

Lemma view_subset_len b d msh s view : view_new b d msh s = Ok view → bytes_in_subset_len view = num_elements_usize s *w d.
Proof.
  unfold view_new. destruct (negb _); [done|]. destruct (negb _); [done|]. destruct (ContiguousIndices_new s msh); [|done..]. cbn [map_err obind].
  destruct (contiguous_linearised_indices s msh); [|done..]. by intros [= <-].
Qed.

Lemma sized_element_at d L o : fixed_elements d L → subset_wf o → zlen L = Zprod (shape o) → sized d (element_at L o) o.
Proof.
  intros HL Ho Hl ix Hix. pose proof (position_bound o ix Ho Hix) as Hb. unfold element_at. apply (proj1 (Forall_total _ _) (proj2 HL)). lia.
Qed.

(** A target that fixed-length bytes can be decoded into is a view of the memory behind an array, and decoding them paints its region. *)
Lemma fixed_target_paint d L sh t t' : fixed_elements d L → zlen L = Zprod sh → 1 <= Zprod sh → target_fits t sh →
  decode_into_array_bytes_target (FixedBytes (concat L)) t = Ok t' →
  ∃ view msh o h, t = TargetFixed view (memory_of msh h) ∧ view_new (memory_of msh h) d msh o = Ok view ∧ region_ok o msh ∧ shape o = sh ∧
    chunk_shape_ok msh ∧ Zprod msh * d < 2 ^ 63 ∧ sized d h (new_with_shape msh) ∧
    t' = TargetFixed view (memory_of msh (overwrite h (element_at L o) o)).
Proof.
  intros HL HLl Hpos Hfits Ht. pose proof (proj1 HL) as Hd. destruct t as [view mem|]; [|done].
  destruct Hfits as (d' & msh & o & Hview & Ho & Hshape & Hd' & Hm & Hmb). pose proof (region_chunk_shape o msh d' Ho Hd' Hmb) as Hmsh.
  cbn [decode_into_array_bytes_target] in Ht. destruct (view_copy_from_slice view mem (concat L)) as [m1| |] eqn:Hcopy; [|done..]. injection Ht as <-.
  assert (d' = d) as ->.
  { unfold view_copy_from_slice in Hcopy. rewrite (view_subset_len _ _ _ _ _ Hview) in Hcopy. destruct (Z.eqb_spec (zlen (concat L)) (num_elements_usize o *w d')) as [He|]; [|done].
    rewrite (fixed_elements_length d L HL), HLl in He. destruct (region_num_elements o msh Ho) as [Hn Hle]. unfold num_elements_usize in He. rewrite Hn, Hshape in He.
    rewrite wrap64_small in He by (unfold_u64; rewrite Hshape in Hle; nia). nia. }
  destruct (memory_intro msh d Hd Hmsh mem) as (h & -> & Hh); [lia|]. exists view, msh, o, h. split_and!; [done..|]. do 2 f_equal.
  destruct (paint_ok msh d Hd Hmsh Hmb h (element_at L o) o Ho Hh) as (view' & Hv' & _ & Hc' & _).
  { apply sized_element_at; [done|apply Ho|by rewrite Hshape]. }
  rewrite Hview in Hv'. injection Hv' as <-. rewrite contents_element_at in Hc'; [|apply Ho|by rewrite Hshape]. rewrite Hcopy in Hc'. by injection Hc'.
Qed.

Section decode.
Context {I X : Type} `{LI : LawfulArrayToBytesCodec I, LX : LawfulArrayToBytesCodec X} `{T : Target} `{RT : LawfulRunTime}.
Context (self : ShardingCodecBound I X) (sh : list Z) (Hwf : sharding_wf self) (Hsh : sharding_shape_ok self sh).

#[local] Abbreviation ss := (subchunk_shape self).
#[local] Abbreviation cps := (shard_chunks self sh).
#[local] Abbreviation n := (Zprod (shard_chunks self sh)).
#[local] Abbreviation dt := (sharding_data_type self).
#[local] Abbreviation fv := (sharding_fill_value self).
#[local] Abbreviation ishape := (sharding_index_shape (shard_chunks self sh)).
#[local] Abbreviation isize := (index_size self sh).

Context (enc : bytes) (idx : list Z) (Hidx : indexed self sh enc idx).

Lemma index_part_decodes options : decode_shard_index (index_part (index_location self) isize enc) ishape (index_codecs self) options = Ok idx.
Proof.
  pose proof (ix_index _ _ _ _ Hidx) as [Hl Hu]. pose proof (index_shape_ok self sh Hwf Hsh) as (Hz & _ & Hn & Hb2).
  pose proof (ix_size _ _ _ _ Hidx) as Hs. pose proof (isize_nonneg self sh Hwf Hsh) as Hi. pose proof (index_holds idx ltac:(lia)) as Hh.
  unfold decode_shard_index. rewrite (a2b_decode_law (index_codecs self) ishape options _ _ _ (sw_index _ Hwf) (ss_index _ _ Hsh) (ix_encoded _ _ _ _ Hidx)).
  - cbn [obind into_fixed]. by rewrite index_roundtrip.
  - unfold index_part. destruct (index_location self); rewrite length_part by lia; unfold u64_modulus; lia.
  - by rewrite (sw_index_type _ Hwf).
  - unfold index_elements. rewrite !length_fmap. lia.
Qed.

(** The index is read back. *)
Lemma decode_index_ok options : decode_index self enc cps options = Ok idx.
Proof.
  pose proof (ix_size _ _ _ _ Hidx) as Hs. pose proof (isize_nonneg self sh Hwf Hsh) as Hi. pose proof (index_part_decodes options) as Hd.
  unfold decode_index. rewrite (index_size_ok self sh Hsh). cbn [obind]. rewrite (proj2 (Z.ltb_ge _ _)) by lia.
  unfold index_part in Hd. destruct (index_location self).
  - rewrite slice_part by lia. by rewrite Z.sub_0_r.
  - rewrite wrap64_small by (unfold_u64; lia). rewrite slice_part by lia. cbn [obind]. by replace (zlen enc - (zlen enc - isize)) with isize by lia.
Qed.

Lemma entry_bounds k : 0 <= k < n → entry idx k ≠ no_entry → 0 <= (entry idx k).1 ∧ 0 <= (entry idx k).2 ∧ (entry idx k).1 + (entry idx k).2 <= zlen enc < 2 ^ 63.
Proof.
  intros Hk Hne. pose proof (entry_u64 n idx k (ix_index _ _ _ _ Hidx) Hk) as [H1 H2]. pose proof (ix_size _ _ _ _ Hidx) as Hs.
  destruct (ix_fits _ _ _ _ Hidx k Hk) as [?|?]; [done|]. unfold_u64. lia.
Qed.

Lemma not_stored k : 0 <= k < n → ((entry idx k).1 =? u64_max) && ((entry idx k).2 =? u64_max) = bool_decide (entry idx k = no_entry).
Proof.
  intros Hk. destruct (entry idx k) as [o s]. cbn. destruct (bool_decide_reflect ((o, s) = no_entry)) as [[= -> ->]|Hne]; [done|].
  apply andb_false_iff. destruct (Z.eqb_spec o u64_max) as [->|]; [right|by left]. apply Z.eqb_neq. congruence.
Qed.

Lemma encoded_subchunk_ok k : 0 <= k < n → encoded_subchunk enc idx k = Ok (stored enc idx k).
Proof.
  intros Hk. pose proof (index_shape_ok self sh Hwf Hsh) as (_ & _ & Hn & _). unfold encoded_subchunk, stored.
  destruct (index_lookup (E:=CodecError) n Hn idx k (ix_index _ _ _ _ Hidx) Hk) as [-> ->]. cbn [obind]. rewrite not_stored by done.
  destruct (decide (entry idx k = no_entry)) as [He|He]; [by rewrite bool_decide_true|]. rewrite bool_decide_false by done.
  destruct (entry_bounds k Hk He) as (? & ? & ? & ?). rewrite wrap64_small by (unfold_u64; lia). rewrite (proj2 (Z.ltb_ge _ _)) by lia.
  rewrite slice_part by lia. cbn [obind]. by replace ((entry idx k).1 + (entry idx k).2 - (entry idx k).1) with (entry idx k).2 by lia.
Qed.

Context (V : list element) (HV : zlen V = Zprod sh).
Context (Hcontent : ∀ k, 0 <= k < n → ∃ bk, subchunk_content self (stored enc idx k) bk (subchunk_elements V sh ss k)).

(** *** Fixed-length data *)

Section fixed.
Context (d : Z) (L : list bytes) (Hdt : dt = PlainType (FixedSize d)) (HVL : V = Value <$> L) (HL : fixed_elements d L).
Context (msh : list Z) (o : ArraySubset) (Ho : region_ok o msh) (Hshape : shape o = sh) (Hmsh : Zprod msh * d < 2 ^ 63).

#[local] Abbreviation g := (element_at L o).
#[local] Abbreviation place := (placed_subchunk sh ss o).

Lemma placed_ok k : 0 <= k < n → region_ok (place k) msh ∧ subset_wf (place k) ∧ zlen L = Zprod sh ∧ chunk_shape_ok msh.
Proof.
  intros Hk. pose proof Ho as ((Hs & _) & [Hlm Hin] & Hne & Hash). pose proof (region_chunk_shape o msh d Ho (proj1 HL) Hmsh) as Hm.
  destruct (placed_wf sh ss (ss_shape _ _ Hsh) (ss_divides _ _ Hsh) o Hs Hshape k Hk) as (Hw & Hlen & Hne').
  destruct (placed_covers sh ss (ss_shape _ _ Hsh) (ss_divides _ _ Hsh) o Hs Hshape k Hk) as [[_ Hcov] _].
  assert (in_array (place k) msh) as Hina.
  { split; [lia|]. intros j Hj. specialize (Hcov j ltac:(lia)). specialize (Hin j Hj). lia. }
  split_and!; [|done| |done].
  - split_and!; [|done|done|done]. split; [done|]. cbn [shape placed_subchunk].
    apply (shape_wf_ok ss), (subchunk_shape_ok_ sh ss); apply Hsh.
  - rewrite HVL, length_fmap in HV. lia.
Qed.

Lemma placed_sized k : 0 <= k < n → sized d g (place k).
Proof.
  intros Hk ix Hix. destruct (placed_ok k Hk) as (_ & _ & HLl & _). pose proof Ho as ((Hs & _) & _).
  destruct (placed_covers sh ss (ss_shape _ _ Hsh) (ss_divides _ _ Hsh) o Hs Hshape k Hk) as [Hcov _].
  pose proof (position_bound o ix Hs (covers_in _ _ _ Hs Hcov Hix)) as Hpb. rewrite Hshape in Hpb. unfold element_at.
  apply (proj1 (Forall_total _ _) (proj2 HL)). lia.
Qed.

(** The bytes of a subchunk are its elements. *)
Lemma subchunk_bytes k bk : 0 <= k < n → subchunk_content self (stored enc idx k) bk (subchunk_elements V sh ss k) → bk = FixedBytes (concat (contents g (place k))).
Proof.
  intros Hk (Hh & _). destruct (placed_ok k Hk) as (_ & _ & HLl & _). pose proof Ho as ((Hs & _) & _).
  change (a2b_data_type (inner_codecs self)) with dt in Hh. rewrite Hdt in Hh. apply holds_fixed in Hh as (Lk & -> & He & _).
  do 2 f_equal. apply fmap_Value_inj. rewrite <-He. destruct (elements_select self sh Hsh V k HV Hk) as [<- _].
  rewrite (placed_select sh ss (ss_shape _ _ Hsh) (ss_divides _ _ Hsh) o Hs Hshape L k Hk HLl), HVL.
  destruct (subchunk_wf sh ss (ss_shape _ _ Hsh) (ss_divides _ _ Hsh) k Hk) as (_ & _ & (Hrw & Hin & _)).
  apply select_fmap. eapply Forall_impl; [by apply positions_bound|]. cbn. lia.
Qed.

(** A task decodes its subchunk into its place. *)
Lemma decode_subchunk_into_ok k h options : 0 <= k < n → sized d h (new_with_shape msh) →
  ∃ view, view_new (memory_of msh h) d msh (place k) = Ok view ∧
    decode_subchunk_into self enc idx options view (memory_of msh h) k = Ok (memory_of msh (overwrite h g (place k))).
Proof.
  intros Hk Hh. destruct (placed_ok k Hk) as (Hok & Hw & HLl & Hm). destruct (Hcontent k Hk) as (bk & Hc). pose proof (subchunk_bytes k bk Hk Hc) as ->.
  destruct (paint_ok msh d (proj1 HL) Hm Hmsh h g (place k) Hok Hh (placed_sized k Hk)) as (view & Hv & Hfits & Hcopy & Hfill).
  exists view. split; [done|]. unfold decode_subchunk_into. rewrite encoded_subchunk_ok by done. cbn [obind].
  destruct (stored enc idx k) as [e|] eqn:Hst.
  - rewrite (a2b_decode_into_law (inner_codecs self) ss options e _ _ (TargetFixed view (memory_of msh h)) (TargetFixed view (memory_of msh (overwrite h g (place k))))
      (sw_inner _ Hwf) (ss_inner _ _ Hsh) Hc); [done|exact Hfits|]. cbn [decode_into_array_bytes_target]. by rewrite Hcopy.
  - destruct Hc as (_ & Hlen & _ & Hnew & _). cbn [shape placed_subchunk] in *. change (a2b_data_type (inner_codecs self)) with dt in Hnew.
    rewrite Hdt in Hnew. cbn [new_fill_value] in Hnew. change (a2b_fill_value (inner_codecs self)) with fv in Hnew.
    destruct (Z.eqb_spec (zlen fv) d) as [Hfv|]; [|done]. injection Hnew as Hrep. apply Hfill; [|done].
    pose proof (sized_fixed d (proj1 HL) g (place k) Hw (placed_sized k Hk)) as Hfx. pose proof (contents_length g (place k) Hw) as Hcl. cbn [shape placed_subchunk] in Hcl.
    rewrite <-(chunks_exact_concat (Z.to_nat d) (contents g (place k))) at 1 by (apply Hfx || pose proof (proj1 HL); lia).
    rewrite <-Hrep. unfold repeat_bytes. rewrite chunks_exact_concat; [f_equal; lia|pose proof (proj1 HL); lia|]. apply Forall_replicate. lia.
Qed.

Lemma placed_sized_overwrite k h : 0 <= k < n → sized d h (new_with_shape msh) → sized d (overwrite h g (place k)) (new_with_shape msh).
Proof.
  intros Hk Hh. destruct (placed_ok k Hk) as (Hok & Hw & _ & Hm). apply (sized_overwrite msh d); [done|done|by apply placed_sized|apply Hok].
Qed.

(** All of them paint the region. *)
Lemma fold_subchunks (step : bytes → Z → outcome CodecError bytes) h :
  (∀ k h, 0 <= k < n → sized d h (new_with_shape msh) → step (memory_of msh h) k = Ok (memory_of msh (overwrite h g (place k)))) →
  sized d h (new_with_shape msh) → fold_outcome step (memory_of msh h) (seqZ 0 n) = Ok (memory_of msh (overwrite h g o)).
Proof.
  intros Hstep Hh. pose proof Ho as ((Hs & _) & [Hlm _] & _). pose proof (region_chunk_shape o msh d Ho (proj1 HL) Hmsh) as Hm.
  rewrite (fold_paints msh d (proj1 HL) Hm Hmsh step place g).
  - f_equal. apply (paints_cover msh d (proj1 HL) Hm Hmsh); [| |done|lia|].
    + apply Forall_fmap, Forall_forall. intros k Hk%elem_of_seqZ. apply placed_ok. lia.
    + apply Forall_fmap, Forall_forall. intros k Hk%elem_of_seqZ.
      destruct (placed_wf sh ss (ss_shape _ _ Hsh) (ss_divides _ _ Hsh) o Hs Hshape k) as (_ & Hlen & _); [unfold shard_chunks in Hk; lia|]. cbn beta delta [compose]. lia.
    + intros ix. apply placed_union; [apply Hsh|apply Hsh|done|done].
  - intros k h' Hk%elem_of_seqZ Hh'. split; [apply Hstep; [lia|done]|]. apply placed_sized_overwrite; [lia|done].
  - done.
Qed.

(** Decoding into a target over the memory. *)
Lemma decode_into_fixed_ok h view options : view_new (memory_of msh h) d msh o = Ok view → sized d h (new_with_shape msh) →
  sharding_decode_into self enc sh (TargetFixed view (memory_of msh h)) options = Ok (TargetFixed view (memory_of msh (overwrite h g o))).
Proof.
  intros Hview Hh. pose proof Ho as ((Hs & _) & _). destruct (view_new_fields _ _ _ _ _ Hview) as (Hvd & Hvs & Hvo).
  unfold sharding_decode_into. destruct (chunks_ok self sh Hsh) as (-> & Hnc & _). cbn [obind]. rewrite Hnc, decode_index_ok. cbn [obind].
  destruct (subchunk_options_ok self sh Hwf Hsh options) as (limit & options' & ->). cbn [obind].
  rewrite (fold_subchunks _ h); [done| |done]. intros k h' Hk Hh'. destruct (placed_ok k Hk) as (_ & Hw & _).
  destruct (placed_covers sh ss (ss_shape _ _ Hsh) (ss_divides _ _ Hsh) o Hs Hshape k Hk) as [Hcov _].
  destruct (decode_subchunk_into_ok k h' options' Hk Hh') as (view' & Hv' & Hdec).
  unfold decode_chunk_into. rewrite (inbounds_chunk_ok self sh Hsh) by done. cbn [obind]. rewrite Hvo.
  destruct (subchunk_wf sh ss (ss_shape _ _ Hsh) (ss_divides _ _ Hsh) k Hk) as (_ & Hss & _). rewrite Hss.
  assert (zip_with (λ o0 s, o0 +w s) (start o) (start (subchunk sh ss k)) = start (place k)) as ->.
  { cbn [start placed_subchunk]. pose proof (proj1 Hs) as Hlo. rewrite Hshape in Hlo. pose proof Ho as (_ & [Hlm Hin] & _).
    apply list_eq_total; rewrite !length_zip_with; [done|]. intros j Hj.
    destruct (placed_start sh ss (ss_shape _ _ Hsh) (ss_divides _ _ Hsh) o Hs Hshape k j Hk) as (Hst & Hlsub & ? & ? & ?); [lia|].
    rewrite !zip_with_total by lia. apply wrap64_small. destruct Hs as [_ Hpos]. specialize (Hpos j ltac:(lia)). rewrite Hshape in Hpos. unfold_u64. lia. }
  unfold new_with_start_shape. rewrite (proj2 (Nat.eqb_eq _ _)); [|symmetry; apply (proj1 Hw)]. cbn [unwrap obind].
  change (mk_subset (start (place k)) ss) with (place k). unfold subdivide. rewrite Hvo, (covers_inbounds o) by done. cbn [negb].
  by rewrite Hvd, Hvs, Hv'.
Qed.
End fixed.

(** *** Variable-length data *)

Lemma decode_variable_ok options L : dt = PlainType VariableSize → V = Value <$> L → zlen (concat L) < u64_modulus →
  ∃ parts, collect_res (decode_subchunk self enc idx cps options <$> seqZ 0 n) = Ok parts ∧ merge_chunks_vlen (E:=CodecError) parts sh = Ok (pack L).
Proof.
  intros Hdt HVL HL. pose proof (ss_shape _ _ Hsh) as Hshape. pose proof (ss_divides _ _ Hsh) as Hdiv.
  assert (zlen L = Zprod sh) as HLl by (rewrite HVL, length_fmap in HV; done).
  assert (∀ k, 0 <= k < n → ∃ v, decode_subchunk self enc idx cps options k = Ok (v, subchunk sh ss k) ∧ vlen_elements v (select L (positions (subchunk sh ss k) sh))) as Hk.
  { intros k Hk. destruct (Hcontent k Hk) as (bk & Hc). pose proof Hc as (Hh & Hlen & _ & Hw). destruct Hh as [(F & HF & HFe) _].
    change (a2b_data_type (inner_codecs self)) with dt in HF. rewrite Hdt in HF. destruct bk as [|v|]; [done| |done].
    destruct HF as (Lk & -> & Hv & _). exists v. split.
    - unfold decode_subchunk. rewrite (inbounds_chunk_ok self sh Hsh) by done. cbn [obind]. rewrite encoded_subchunk_ok by done. cbn [obind].
      destruct (stored enc idx k) as [e|].
      + by rewrite (chunk_decodes _ _ _ _ _ options (sw_inner _ Hwf) (ss_inner _ _ Hsh) Hc).
      + rewrite product64_wf by (apply shape_wf_ok, (subchunk_shape_ok_ sh ss Hshape Hdiv)). destruct Hw as [Hw _].
        change (new_fill_value dt (Zprod ss) fv = Ok (VariableBytes v)) in Hw. by rewrite Hw.
    - replace (select L (positions (subchunk sh ss k) sh)) with Lk; [done|]. apply fmap_Value_inj. rewrite list_fmap_fmap in HFe. transitivity (subchunk_elements V sh ss k); [exact HFe|].
      destruct (elements_select self sh Hsh V k HV Hk) as [<- _]. rewrite HVL.
      destruct (subchunk_wf sh ss Hshape Hdiv k Hk) as (_ & _ & (Hrw & Hin & _)). apply select_fmap. eapply Forall_impl; [by apply positions_bound|]. cbn. lia. }
  assert (∀ l, Forall (λ k, 0 <= k < n) l → ∃ parts, collect_res (decode_subchunk self enc idx cps options <$> l) = Ok parts ∧
    Forall2 (λ k p, p.2 = subchunk sh ss k ∧ vlen_elements p.1 (select L (positions (subchunk sh ss k) sh))) l parts) as Hl.
  { induction 1 as [|k l Hkn Hl IH]; [by exists []|]. destruct (Hk k Hkn) as (v & Hd & Hv). destruct IH as (parts & Hp & Hf).
    exists ((v, subchunk sh ss k) :: parts). cbn [fmap list_fmap collect_res]. rewrite Hd. cbn [obind]. rewrite Hp. split; [done|by constructor]. }
  destruct (Hl (seqZ 0 n)) as (parts & Hp & Hf); [apply Forall_forall; intros k Hkn%elem_of_seqZ; lia|]. exists parts. split; [done|].
  apply merge_chunks_vlen_ok; [by apply shape_wf_ok|done|done|]. split.
  - apply Forall_forall. intros p Hpin. apply list_elem_of_lookup in Hpin as [i Hi]. destruct (Forall2_lookup_r _ _ _ _ _ Hf Hi) as (k & Hki & -> & Hv).
    apply lookup_seqZ in Hki as [-> Hlt]. split; [by apply subchunk_wf; [done|done|unfold shard_chunks in Hlt; lia]|done].
  - intros j Hj. rewrite HLl in Hj. destruct (whole_wf sh Hshape) as (HWw & _). destruct (position_surj _ j HWw Hj) as (ix & Hix & Hpos).
    destruct (element_subchunk sh ss Hshape Hdiv ix Hix) as (k & Hkn & Hin). destruct (subchunk_wf sh ss Hshape Hdiv k Hkn) as (Hsw & _ & (_ & Hina & Hne & _)).
    destruct (Forall2_lookup_l _ _ _ (Z.to_nat k) k Hf) as (p & Hpi & Hp2 & _); [apply lookup_seqZ; unfold shard_chunks; lia|].
    exists p. split; [by eapply list_elem_of_lookup_2|]. rewrite Hp2. rewrite <-(within_origin (subchunk sh ss k) sh); [|done|symmetry; apply Hina].
    apply (elem_of_positions (new_with_shape sh) (subchunk sh ss k) j HWw Hsw); [by apply covers_origin|]. by exists ix.
Qed.
End decode.

Section spec.
Context {I X : Type} `{LI : LawfulArrayToBytesCodec I, LX : LawfulArrayToBytesCodec X} `{T : Target} `{RT : LawfulRunTime}.
Context (self : ShardingCodecBound I X) (sh : list Z) (Hwf : sharding_wf self) (Hsh : sharding_shape_ok self sh).

#[local] Abbreviation ss := (subchunk_shape self).
#[local] Abbreviation cps := (shard_chunks self sh).
#[local] Abbreviation n := (Zprod (shard_chunks self sh)).
#[local] Abbreviation dt := (sharding_data_type self).
#[local] Abbreviation fv := (sharding_fill_value self).
#[local] Abbreviation isize := (index_size self sh).
#[local] Abbreviation W := (new_with_shape sh).

Lemma shard_whole : region_ok W sh ∧ subset_wf W.
Proof. pose proof (ss_shape _ _ Hsh) as Hs. split; [by apply region_whole|by apply whole_wf]. Qed.

Lemma placed_origin k : 0 <= k < n → placed_subchunk sh ss W k = subchunk sh ss k.
Proof.
  intros Hk. destruct (subchunk_wf sh ss (ss_shape _ _ Hsh) (ss_divides _ _ Hsh) k Hk) as (Hw & Hs & (_ & [Hl _] & _)).
  destruct (subchunk sh ss k) as [st shp] eqn:He. unfold placed_subchunk. rewrite He. cbn [start shape new_with_shape] in *. rewrite Hs. f_equal.
  apply list_eq_total; rewrite length_zip_with, length_replicate; [lia|]. intros j Hj.
  rewrite zip_with_total by (rewrite ?length_replicate; lia). rewrite lookup_total_replicate_2 by lia. lia.
Qed.

Lemma plain_type : ∃ size, dt = PlainType size.
Proof. pose proof (sw_type _ Hwf) as Ht. destruct dt as [size|]; [by exists size|done]. Qed.

Context (enc : bytes) (b : ArrayBytes) (V : list element) (Henc : shard_encodes self sh enc b V) (Hb : holds b dt V) (HV : zlen V = Zprod sh).

Lemma fixed_shard d : dt = PlainType (FixedSize d) → ∃ L, b = FixedBytes (concat L) ∧ V = Value <$> L ∧ fixed_elements d L ∧ zlen L * d < 2 ^ 63 ∧ zlen L = Zprod sh.
Proof.
  intros Hdt. rewrite Hdt in Hb. apply holds_fixed in Hb as (L & Hbl & HVL & HL & Hlb). exists L. split_and!; [done..|].
  by rewrite HVL, length_fmap in HV.
Qed.

(** Decoding gives the elements back. *)
Lemma sharding_decode_ok options : sharding_decode self enc sh options = Ok b.
Proof.
  destruct Henc as (Hpacked & idx & Hidx & Hcontent). unfold sharding_decode. destruct (chunks_ok self sh Hsh) as (-> & Hnc & _). cbn [obind].
  rewrite (decode_index_ok self sh Hwf Hsh enc idx Hidx), Hnc. cbn [obind].
  destruct (subchunk_options_ok self sh Hwf Hsh options) as (limit & options' & ->). cbn [obind]. rewrite (sw_type _ Hwf).
  destruct shard_whole as [HW HWw]. pose proof (ss_shape _ _ Hsh) as Hshape. destruct plain_type as [[d|] Hdt]; rewrite Hdt; cbn [data_type_size].
  - destruct (fixed_shard d Hdt) as (L & Hbl & HVL & HL & Hlb & HLl). pose proof (proj1 HL) as Hd. pose proof (Zprod_pos sh (proj2 (shape_wf_ok sh Hshape))) as Hpos.
    rewrite product64_wf by (by apply shape_wf_ok). rewrite HLl in Hlb. rewrite wrap64_small by (unfold_u64; nia).
    rewrite (proj2 (Z.eqb_neq _ _)) by nia.
    destruct (memory_intro sh d Hd Hshape (uninit (Zprod sh * d))) as (h & -> & Hh); [apply length_uninit; nia|].
    rewrite (fold_subchunks self sh Hsh V HV d L HVL HL sh W HW eq_refl Hlb _ h); [| |done].
    + cbn [obind]. rewrite Hbl, memory_whole by done. unfold memory_of. by rewrite contents_element_at.
    + intros k h' Hk Hh'. destruct (decode_subchunk_into_ok self sh Hwf Hsh enc idx Hidx V HV Hcontent d L Hdt HVL HL sh W HW eq_refl Hlb k h' options' Hk Hh')
        as (view & Hv & Hdec).
      unfold decode_chunk. rewrite (inbounds_chunk_ok self sh Hsh) by done. cbn [obind]. rewrite placed_origin in Hv, Hdec |- * by done. by rewrite Hv.
  - rewrite Hdt in Hb. destruct Hb as [(F & HF & HFV) Hval]. destruct b as [|v|]; [done| |done]. destruct Hpacked as [L ->].
    destruct HF as (L' & -> & Hv' & HL1 & HL2). cbn [vl_bytes pack] in HL2.
    pose proof (vlen_elements_inj _ _ _ Hv' (pack_elements L)) as ->.
    rewrite list_fmap_fmap in HFV.
    destruct (decode_variable_ok self sh Hwf Hsh enc idx Hidx V HV Hcontent options' L Hdt) as (parts & -> & Hm); [by rewrite <-HFV|unfold u64_modulus; lia|].
    cbn [obind]. by rewrite Hm.
Qed.

(** Decoding into a target writes what decoding and copying would. *)
Lemma sharding_decode_into_ok options t t' : target_fits t sh → decode_into_array_bytes_target b t = Ok t' →
  sharding_decode_into self enc sh t options = Ok t'.
Proof.
  destruct Henc as (Hpacked & idx & Hidx & Hcontent). intros Hfits Ht. destruct plain_type as [[d|] Hdt].
  - destruct (fixed_shard d Hdt) as (L & -> & HVL & HL & Hlb & HLl). pose proof (products sh ss (ss_shape _ _ Hsh) (ss_divides _ _ Hsh)) as (Hp & H1 & H2).
    destruct (fixed_target_paint d L sh t t' HL HLl ltac:(nia) Hfits Ht) as (view & msh & o & h & -> & Hview & Ho & Hshape & Hmsh & Hmb & Hh & ->).
    by apply (decode_into_fixed_ok self sh Hwf Hsh enc idx Hidx V HV Hcontent d L Hdt HVL HL msh o Ho Hshape Hmb h view options Hview Hh).
  - rewrite Hdt in Hb. destruct b as [| |]; [by destruct Hb as [(F & HF & _) _]| |by destruct Hb as [(F & HF & _) _]]. by destruct t.
Qed.
End spec.

Lemma copy_from_slice_length {E} m a b e m' : 0 <= a → copy_from_slice (E:=E) m a b e = Ok m' → length m' = length m.
Proof.
  intros Ha. unfold copy_from_slice. destruct (_ && _) eqn:Hc; [|done]. intros [= <-]. rewrite !length_app, length_take, length_drop.
  apply andb_prop in Hc as [[H1%Z.leb_le H2%Z.leb_le]%andb_prop H3%Z.eqb_eq]. lia.
Qed.

Section compact.
Context {I X : Type} `{LI : LawfulArrayToBytesCodec I, LX : LawfulArrayToBytesCodec X} `{T : Target} `{RT : LawfulRunTime}.
Context (self : ShardingCodecBound I X) (sh : list Z) (Hwf : sharding_wf self) (Hsh : sharding_shape_ok self sh).
Context (enc : bytes) (idx : list Z) (Hidx : indexed self sh enc idx).

#[local] Abbreviation n := (Zprod (shard_chunks self sh)).
#[local] Abbreviation isize := (index_size self sh).
#[local] Abbreviation ishape := (sharding_index_shape (shard_chunks self sh)).
#[local] Abbreviation chunks := (chunks_of (stored enc idx) (seqZ 0 n)).

Lemma entry_stored k : 0 <= k < n → (is_stored (entry idx k) = true ↔ entry idx k ≠ no_entry) ∧ ((entry idx k).1 ≠ u64_max ↔ entry idx k ≠ no_entry).
Proof.
  intros Hk. unfold is_stored. destruct (decide (entry idx k = no_entry)) as [He|He].
  - rewrite He. by split; split.
  - destruct (entry_bounds self sh enc idx Hidx k Hk He) as (? & ? & ? & ?).
    rewrite !(proj2 (Z.eqb_neq _ _)) by (unfold_u64; lia). split; [done|]. split; [done|]. intros _. unfold_u64. lia.
Qed.

Lemma stored_size k e : 0 <= k < n → stored enc idx k = Some e → entry idx k ≠ no_entry ∧ zlen e = (entry idx k).2 ∧ e = part enc (entry idx k).1 (entry idx k).2.
Proof.
  intros Hk. unfold stored. destruct (decide _) as [|He]; [done|]. intros Heq%(inj Some). subst e. destruct (entry_bounds self sh enc idx Hidx k Hk He) as (? & ? & ? & ?).
  split_and!; [done| |done]. by apply length_part; lia.
Qed.

(** The sizes in the index are those of the stored subchunks. *)
Lemma filter_sizes (P : Z * Z → Prop) `{!∀ x, Decision (P x)} l : Forall (λ k, 0 <= k < n) l → (∀ k, 0 <= k < n → P (entry idx k) ↔ entry idx k ≠ no_entry) →
  Zsum (snd <$> filter P (entry idx <$> l)) = sizes (chunks_of (stored enc idx) l).
Proof.
  intros Hl HP. induction Hl as [|k l Hk Hl IH]; [done|]. cbn [fmap list_fmap]. rewrite filter_cons. unfold chunks_of. cbn [omap list_omap].
  fold (chunks_of (stored enc idx) l). destruct (stored enc idx k) as [e|] eqn:Hst.
  - destruct (stored_size k e Hk Hst) as (Hne & Hsz & _). rewrite decide_True by (by apply HP). cbn [fmap list_fmap option_fmap option_map].
    rewrite Zsum_cons, sizes_cons. cbn [snd]. rewrite IH. unfold chunks_of. lia.
  - rewrite decide_False; [exact IH|]. rewrite HP by done. unfold stored in Hst. destruct (decide _) as [He|]; [|done]. by intros [].
Qed.

Lemma index_sizes (P : Z * Z → Prop) `{!∀ x, Decision (P x)} : (∀ k, 0 <= k < n → P (entry idx k) ↔ entry idx k ≠ no_entry) → sizes chunks < u64_modulus →
  sum64 (snd <$> filter P (as_pairs idx)) = sizes chunks.
Proof.
  intros HP Hb. pose proof (sizes_nonneg chunks). pose proof (index_shape_ok self sh Hwf Hsh) as (_ & _ & Hn & _).
  rewrite (as_pairs_entries n idx (ix_index _ _ _ _ Hidx)), sum64_wrap, filter_sizes; [apply wrap64_small; unfold_u64; lia| |done].
  apply Forall_forall. intros k Hk%elem_of_seqZ. lia.
Qed.

(** Moving a subchunk is placing it. *)
Lemma compact_step state k state' : 0 <= k < n →
  match stored enc idx k with Some e => place_subchunk state (k, e) | None => Ok state end = Ok state' →
  compact_subchunk enc state (k, entry idx k) = Ok state'.
Proof.
  intros Hk. destruct state as [[mem new] off]. unfold compact_subchunk. destruct (entry_stored k Hk) as [Hs _].
  pose proof (surjective_pairing (entry idx k)) as Hp. destruct (stored enc idx k) as [e|] eqn:Hst.
  - destruct (stored_size k e Hk Hst) as (Hne & Hsz & He). destruct (entry_bounds self sh enc idx Hidx k Hk Hne) as (? & ? & ? & ?).
    rewrite Hp in Hs |- *. rewrite (proj2 Hs) by (by rewrite <-Hp). rewrite wrap64_small by (unfold_u64; lia). rewrite (proj2 (Z.ltb_ge _ _)) by lia.
    rewrite slice_part by lia. cbn [obind]. replace ((entry idx k).1 + (entry idx k).2 - (entry idx k).1) with (entry idx k).2 by lia. rewrite <-He.
    unfold place_subchunk. rewrite Hsz. destruct (set_entry new k off (entry idx k).2) as [new'| |]; [|done..]. cbn [obind].
    by destruct (copy_from_slice mem off _ e).
  - assert (entry idx k = no_entry) as He by (unfold stored in Hst; by destruct (decide _)). rewrite He in *. cbn. by intros [= <-].
Qed.

Lemma fold_compact state state' l : Forall (λ k, 0 <= k < n) l → fold_outcome place_subchunk state (chunks_of (stored enc idx) l) = Ok state' →
  fold_outcome (compact_subchunk enc) state (zip l (entry idx <$> l)) = Ok state'.
Proof.
  intros Hl. revert state. induction Hl as [|k l Hk Hl IH]; intros state; [done|]. unfold chunks_of. cbn [omap list_omap]. fold (chunks_of (stored enc idx) l).
  cbn [fmap list_fmap zip zip_with fold_outcome]. pose proof (compact_step state k) as Hstep.
  destruct (stored enc idx k) as [e|]; cbn [fmap option_fmap option_map fold_outcome].
  - destruct (place_subchunk state (k, e)) as [state1| |]; [|done..]. cbn [obind]. intros Hrest. rewrite (Hstep state1) by done. cbn [obind]. by apply IH.
  - intros Hrest. rewrite (Hstep state) by done. cbn [obind]. by apply IH.
Qed.

(** The shard is left alone, or becomes one without gaps. *)
Lemma sharding_compact_ok options : sizes chunks + isize < 2 ^ 63 →
  ∃ r, sharding_compact self enc sh options = Ok r ∧
    match r with
    | None => zlen enc = sizes chunks + isize
    | Some enc' => zlen enc ≠ sizes chunks + isize ∧ zlen enc' = sizes chunks + isize ∧
        ∃ idx', indexed self sh enc' idx' ∧ ∀ k, 0 <= k < n → stored enc' idx' k = stored enc idx k
    end.
Proof.
  intros Hfit. pose proof (sizes_nonneg chunks) as Hs0. pose proof (isize_nonneg self sh Hwf Hsh) as Hi. pose proof (index_shape_ok self sh Hwf Hsh) as (_ & _ & Hn & _).
  pose proof (ix_size _ _ _ _ Hidx) as Hsz. pose proof (initial_offset_bound self sh Hwf Hsh) as Hbase.
  unfold sharding_compact. destruct (chunks_ok self sh Hsh) as (-> & _). cbn [obind]. rewrite (decode_index_ok self sh Hwf Hsh enc idx Hidx). cbn [obind].
  rewrite (index_size_ok self sh Hsh). cbn [obind].
  rewrite (index_sizes (λ entry, is_stored entry = true)), (index_sizes (λ entry, entry.1 ≠ u64_max)) by (unfold_u64; lia || (intros; by apply entry_stored)).
  rewrite (wrap64_small (zlen enc - isize)), (wrap64_small (sizes chunks + isize)) by (unfold_u64; lia).
  destruct (Z.eqb_spec (sizes chunks) (zlen enc - isize)) as [Heq|Hne]; [exists None; split; [done|lia]|].
  set (M := sizes chunks + isize). set (base := initial_offset self isize) in *. rewrite (as_pairs_entries n idx (ix_index _ _ _ _ Hidx)).
  destruct (ix_index _ _ _ _ Hidx) as [Hlen _]. replace (length idx) with (Z.to_nat (2 * n)) by lia.
  assert (Forall (λ k, 0 <= k < n) (seqZ 0 n)) as Hrange by (apply Forall_forall; intros k Hk%elem_of_seqZ; lia).
  destruct (fold_place_ok n Hn base (proj1 Hbase) M chunks [] (replicate (Z.to_nat M) 0, replicate (Z.to_nat (2 * n)) u64_max, base)) as (state & Hstate & Hpl).
  { split_and!; [cbn [fst]; rewrite length_replicate; lia|apply layout_empty; [done|apply Hbase]|]. intros k e Hin. by apply not_elem_of_nil in Hin. }
  { apply chunks_of_nodup, NoDup_seqZ. }
  { apply chunks_of_range. }
  { cbn. lia. }
  { unfold u64_modulus. lia. }
  replace (zlen (entry idx <$> seqZ 0 n)) with n by (rewrite length_fmap, length_seqZ; lia).
  rewrite (fold_compact _ _ _ Hrange Hstate). cbn [obind app] in *. destruct state as [[mem new] off].
  pose proof Hpl as (HmemM & Hlay & _). cbn [fst snd] in *. pose proof (lay_off _ _ _ _ _ Hlay) as Hoff.
  assert (off + match index_location self with IndexStart => 0 | IndexEnd => isize end = M) as HM.
  { subst off base M. unfold initial_offset. destruct (index_location self); lia. }
  destruct (assembled_ok self sh Hwf Hsh (stored enc idx) options base M mem new off eq_refl Hpl) as (eidx & shard & He & Hw & Hl' & Hind & Hst); [lia|lia|].
  cbv zeta in Hw, Hl', Hind, Hst. rewrite HM in Hw, Hl', Hind, Hst. rewrite He. cbn [obind]. rewrite Hw. cbn [obind].
  assert (take (Z.to_nat M) shard = shard) as Htake.
  { apply take_ge. unfold write_index in Hw. destruct (index_location self); apply copy_from_slice_length in Hw; try (lia || apply wrap64_range); lia. }
  rewrite Htake in *. exists (Some shard). split; [done|]. split; [lia|]. split; [done|]. exists new. by split.
Qed.
End compact.
