(* ===== verification/ShardingPartial.v ===== *)
(** Reading part of a shard: [zarrs_codec/src/byte_interval_partial_decoder.rs] and
    [sharding/sharding_partial_decoder_sync.rs].

    The partial decoder reads the index once, when it is made.  It reads a region by reading
    the part of each subchunk that the region meets, through a handle on the bytes of the subchunk. *)

From S2P Require Import Prelude ArraySubset Linear Iterators ChunkGrid RegularGrid ByteRange StoreKey Storage ArrayBytes.
From S2P Require Import Elements StoreProgram DecodeInto Concurrency Codec BytesCodec Sharding.

(** ** [ByteIntervalPartialDecoder] *)

(** A range of the interval as a range of the whole.  To the end of the interval, the length is that of the interval. *)
Definition interval_range (byte_offset byte_length : Z) (byte_range : ByteRange) : ByteRange :=
  match byte_range with
  | FromStart offset None => FromStart (byte_offset +w offset) (Some byte_length)
  | FromStart offset (Some length) => FromStart (byte_offset +w offset) (Some length)
  | Suffix length => FromStart (byte_offset +w byte_length -w length) (Some length)
  end.

Definition byte_interval_handle (input_handle : BytesHandle) (byte_offset byte_length : Z) : BytesHandle := {|
  bytes_exists := bytes_exists input_handle;
  bytes_partial_decode_many := λ byte_ranges,
    bytes_partial_decode_many input_handle (interval_range byte_offset byte_length <$> byte_ranges) |}.

(** ** The partial decoder *)

Definition grid_codec_error (e : GridError) : CodecError :=
  match e with
  | IncompatibleDimensionalityError got expected | IncompatibleDimensionError got expected => CodecIncompatibleDimensionality got expected
  | GridCreateOther => CodecOther
  end.

Section partial.
Context {I X : Type} `{!ArrayToBytesCodecTraits I, !ArrayToBytesCodecTraits X} `{Target}.

Record ShardingPartialDecoder := {
  pd_input_handle : BytesHandle;
  pd_shard_shape : list Z;
  pd_subchunk_shape : list Z;
  pd_inner_codecs : I;
  pd_shard_index : option (list Z);
}.

(** [None] when there is no shard. *)
Definition decode_shard_index_partial_decoder (input_handle : BytesHandle) (index_codecs : X) (index_location : ShardingIndexLocation)
    (shard_shape subchunk_shape : list Z) (options : CodecOptions) : prog CodecError (option (list Z)) :=
  let* chunks_per_shard := plift (calculate_chunks_per_shard shard_shape subchunk_shape) in
  let index_shape := sharding_index_shape chunks_per_shard in
  let* index_byte_range := plift (get_index_byte_range index_shape index_codecs index_location) in
  let* encoded_shard_index := bytes_partial_decode input_handle index_byte_range in
  match encoded_shard_index with
  | Some encoded_shard_index =>
      let* shard_index := plift (decode_shard_index encoded_shard_index index_shape index_codecs options) in preturn (Some shard_index)
  | None => preturn None
  end.

Definition partial_decoder_new (input_handle : BytesHandle) (shard_shape subchunk_shape : list Z) (inner_codecs : I) (index_codecs : X)
    (index_location : ShardingIndexLocation) (options : CodecOptions) : prog CodecError ShardingPartialDecoder :=
  let* shard_index := decode_shard_index_partial_decoder input_handle index_codecs index_location shard_shape subchunk_shape options in
  preturn {| pd_input_handle := input_handle; pd_shard_shape := shard_shape; pd_subchunk_shape := subchunk_shape;
             pd_inner_codecs := inner_codecs; pd_shard_index := shard_index |}.

Definition retrieve_subchunk_encoded (self : ShardingPartialDecoder) (chunk_indices : list Z) : prog CodecError (option bytes) :=
  let* byte_range := plift (subchunk_byte_range (pd_shard_index self) (pd_shard_shape self) (pd_subchunk_shape self) chunk_indices) in
  match byte_range with
  | Some byte_range => bytes_partial_decode (pd_input_handle self) byte_range
  | None => preturn None
  end.

Definition get_concurrent_target_and_codec_options (inner_codecs : I) (subchunk_shape chunks_per_shard : list Z) (options : CodecOptions)
    : outcome CodecError (Z * CodecOptions) :=
  let num_chunks := product64 chunks_per_shard in
  let? inner := a2b_recommended_concurrency inner_codecs subchunk_shape in
  let (subchunk_concurrent_limit, concurrency_limit_codec) :=
    calc_concurrency_outer_inner (concurrent_target options) (new_maximum (Z.min (concurrent_target options) num_chunks)) inner in
  Ok (subchunk_concurrent_limit, with_concurrent_target options concurrency_limit_codec).

(** The bytes of a subchunk are out of bounds when its index is corrupted. *)
Definition out_of_bounds_error (e : CodecError) : CodecError := match e with CodecInvalidByteRange _ => CodecOther | e => e end.

Definition get_subchunk_partial_decoder (self : ShardingPartialDecoder) (options : CodecOptions) (byte_offset byte_length : Z)
    : prog CodecError ArrayHandle :=
  pmap_err out_of_bounds_error
    (a2b_partial_decoder (pd_inner_codecs self) (byte_interval_handle (pd_input_handle self) byte_offset byte_length) (pd_subchunk_shape self) options).

(** The entry of a subchunk. *)
Definition subchunk_entry (shard_index chunks_per_shard chunk_indices : list Z) : outcome CodecError (Z * Z) :=
  let? shard_index_idx := expect (ravel_indices chunk_indices chunks_per_shard) in
  let? offset := index shard_index (shard_index_idx *w 2) in
  let? size := index shard_index (shard_index_idx *w 2 +w 1) in
  Ok (offset, size).

(** The part of a subchunk in the subset. *)
Definition subchunk_overlap (grid : RegularChunkGrid) (array_subset : ArraySubset) (chunk_indices : list Z)
    : outcome CodecError (ArraySubset * ArraySubset) :=
  let? chunk_subset := unwrap (chunk_subset grid chunk_indices) in
  let? chunk_subset := expect chunk_subset in
  let? chunk_subset_overlap := map_err CodecArraySubsetError (overlap array_subset chunk_subset) in
  Ok (chunk_subset, chunk_subset_overlap).

(** The subchunks that the subset meets. *)
Definition subchunks_met (grid : RegularChunkGrid) (array_subset : ArraySubset) : outcome CodecError (list (list Z)) :=
  let? chunks := map_err grid_codec_error (chunks_in_array_subset grid array_subset) in
  let? chunks := expect chunks in
  indices chunks.

(** [decode_subchunk_subset_into_slice]: it writes to its view of the memory. *)
Definition decode_subchunk_subset_into_slice (self : ShardingPartialDecoder) (shard_index chunks_per_shard : list Z) (grid : RegularChunkGrid)
    (array_subset : ArraySubset) (options : CodecOptions) (output_view : ArrayBytesFixedDisjointView) (memory : bytes)
    (chunk_indices : list Z) : prog CodecError bytes :=
  let* (offset, size) := plift (subchunk_entry shard_index chunks_per_shard chunk_indices) in
  let* (chunk_subset, chunk_subset_overlap) := plift (subchunk_overlap grid array_subset chunk_indices) in
  let* chunk_relative := plift (map_err CodecArraySubsetError (relative_to chunk_subset_overlap (start array_subset))) in
  let* chunk_output_overlap_subset :=
    plift (map_err CodecArraySubsetError (ArraySubset.offset chunk_relative (start (view_subset output_view)))) in
  let* subchunk_view := plift (subdivide output_view memory chunk_output_overlap_subset) in
  if (offset =? u64_max) && (size =? u64_max)
  then plift (view_fill subchunk_view memory (a2b_fill_value (pd_inner_codecs self)))
  else
    let* inner_partial_decoder := get_subchunk_partial_decoder self options offset size in
    let* in_chunk := plift (unwrap (relative_to chunk_subset_overlap (start chunk_subset))) in
    let* target := partial_decode_into inner_partial_decoder in_chunk (TargetFixed subchunk_view memory) in
    preturn (extract_target_views target).1.2.

Definition partial_decode_fixed_array_subset_into (self : ShardingPartialDecoder) (array_subset : ArraySubset) (options : CodecOptions)
    (output_view : ArrayBytesFixedDisjointView) (memory : bytes) : prog CodecError bytes :=
  if negb (num_elements array_subset =? view_num_elements output_view)
  then Done (Err (InvalidNumberOfElements (num_elements array_subset) (view_num_elements output_view)))
  else
    match pd_shard_index self with
    | None => plift (view_fill output_view memory (a2b_fill_value (pd_inner_codecs self)))
    | Some shard_index =>
        let* chunks_per_shard := plift (calculate_chunks_per_shard (pd_shard_shape self) (pd_subchunk_shape self)) in
        let* (_, options) := plift (get_concurrent_target_and_codec_options (pd_inner_codecs self) (pd_subchunk_shape self) chunks_per_shard options) in
        let* shard_chunk_grid := plift (map_err grid_codec_error (RegularChunkGrid_new (pd_shard_shape self) (pd_subchunk_shape self))) in
        let* chunks := plift (subchunks_met shard_chunk_grid array_subset) in
        try_fold (decode_subchunk_subset_into_slice self shard_index chunks_per_shard shard_chunk_grid array_subset options output_view) memory chunks
    end.

(** [decode_subchunk_subset]: the variable-length elements, and where they are in the subset. *)
Definition decode_subchunk_subset (self : ShardingPartialDecoder) (shard_index chunks_per_shard : list Z) (grid : RegularChunkGrid)
    (array_subset : ArraySubset) (options : CodecOptions) (chunk_indices : list Z) : prog CodecError (ArrayBytesVariableLength * ArraySubset) :=
  let* (offset, size) := plift (subchunk_entry shard_index chunks_per_shard chunk_indices) in
  let* (chunk_subset, chunk_subset_overlap) := plift (subchunk_overlap grid array_subset chunk_indices) in
  let* chunk_subset_bytes :=
    if (offset =? u64_max) && (size =? u64_max)
    then plift (new_fill_value (a2b_data_type (pd_inner_codecs self)) (num_elements chunk_subset_overlap) (a2b_fill_value (pd_inner_codecs self)))
    else
      let* inner_partial_decoder := get_subchunk_partial_decoder self options offset size in
      let* in_chunk := plift (unwrap (relative_to chunk_subset_overlap (start chunk_subset))) in
      partial_decode inner_partial_decoder in_chunk in
  let* chunk_subset_bytes := plift (into_variable chunk_subset_bytes) in
  let* in_subset := plift (unwrap (relative_to chunk_subset_overlap (start array_subset))) in
  preturn (chunk_subset_bytes, in_subset).

Definition partial_decode_variable_array_subset (self : ShardingPartialDecoder) (array_subset : ArraySubset) (options : CodecOptions)
    : prog CodecError ArrayBytes :=
  match pd_shard_index self with
  | None => plift (new_fill_value (a2b_data_type (pd_inner_codecs self)) (num_elements array_subset) (a2b_fill_value (pd_inner_codecs self)))
  | Some shard_index =>
      let* chunks_per_shard := plift (calculate_chunks_per_shard (pd_shard_shape self) (pd_subchunk_shape self)) in
      let* (_, options) := plift (get_concurrent_target_and_codec_options (pd_inner_codecs self) (pd_subchunk_shape self) chunks_per_shard options) in
      let* shard_chunk_grid := plift (unwrap (RegularChunkGrid_new (pd_shard_shape self) (pd_subchunk_shape self))) in
      let* chunks := plift (subchunks_met shard_chunk_grid array_subset) in
      let* chunk_bytes_and_subsets := try_map (decode_subchunk_subset self shard_index chunks_per_shard shard_chunk_grid array_subset options) chunks in
      let* out_array_subset := plift (merge_chunks_vlen chunk_bytes_and_subsets (shape array_subset)) in
      preturn (VariableBytes out_array_subset)
  end.

(** [partial_decode] with an array subset. *)
Definition sharding_partial_decode (self : ShardingPartialDecoder) (options : CodecOptions) (indexer : ArraySubset) : prog CodecError ArrayBytes :=
  let data_type := a2b_data_type (pd_inner_codecs self) in
  if negb (dimensionality indexer =? length (pd_shard_shape self))%nat
  then Done (Err (IncompatibleIndexer (IdxIncompatibleDimensionality (dimensionality indexer) (length (pd_shard_shape self)))))
  else if is_optional data_type then Done (Err UnsupportedDataType)
  else
    match data_type_size data_type with
    | FixedSize data_type_size =>
        let array_shape := shape indexer in
        let array_subset_size := num_elements_usize indexer *w data_type_size in
        let out_array_subset := replicate (Z.to_nat array_subset_size) 0 in
        let* output_view := plift (view_new out_array_subset data_type_size array_shape (new_with_shape array_shape)) in
        let* out_array_subset := partial_decode_fixed_array_subset_into self indexer options output_view out_array_subset in
        preturn (FixedBytes out_array_subset)
    | VariableSize => partial_decode_variable_array_subset self indexer options
    end.

Definition sharding_partial_decode_into (self : ShardingPartialDecoder) (options : CodecOptions) (indexer : ArraySubset)
    (output_target : ArrayBytesDecodeIntoTarget) : prog CodecError ArrayBytesDecodeIntoTarget :=
  if negb (num_elements indexer =? target_num_elements output_target)
  then Done (Err (InvalidNumberOfElements (num_elements indexer) (target_num_elements output_target)))
  else
    match data_type_size (a2b_data_type (pd_inner_codecs self)), output_target with
    | FixedSize _, TargetFixed output_view memory =>
        let* memory := partial_decode_fixed_array_subset_into self indexer options output_view memory in
        preturn (TargetFixed output_view memory)
    | _, _ =>
        let* decoded_value := sharding_partial_decode self options indexer in
        plift (decode_into_array_bytes_target decoded_value output_target)
    end.

Definition partial_decoder_handle (self : ShardingPartialDecoder) (options : CodecOptions) : ArrayHandle := {|
  partial_decode := sharding_partial_decode self options;
  partial_decode_into := sharding_partial_decode_into self options |}.

(** [ShardingCodecBound::partial_decoder]. *)
Definition sharding_partial_decoder `{!RunTime} (self : ShardingCodecBound I X) (input_handle : BytesHandle) (shape : list Z) (options : CodecOptions)
    : prog CodecError ArrayHandle :=
  let* decoder := partial_decoder_new input_handle shape (subchunk_shape self) (inner_codecs self) (index_codecs self) (index_location self) options in
  preturn (partial_decoder_handle decoder options).
End partial.
#[global] Arguments ShardingPartialDecoder : clear implicits.
