(* ===== verification/ShardPartialSpec.v ===== *)
(** The partial decoder of a shard reads its elements.

    For any region of an encoded shard, [sharding_partial_decode] reads the elements of the region through a handle on
    the bytes of the shard, and [sharding_partial_decode_into] writes them to their place. *)

From S2P Require Import Prelude ArraySubset Linear Iterators ChunkGrid RegularGrid ByteRange StoreKey Storage ArrayBytes Elements Regions.
From S2P Require Import StoreProgram DecodeInto GridRegions Concurrency Codec BytesCodec Sharding ShardPlacement ShardEncode ShardSpec.
From S2P Require Import ShardSpec ShardingPartial.

(** ** The bytes of a subchunk *)

Lemma interval_range_ok (enc : bytes) o s r : 0 <= o → 0 <= s → o + s <= zlen enc → zlen enc < u64_modulus → opens_within 0 r → byte_range_ok r → range_within r s →
  byte_range_ok (interval_range o s r) ∧ range_within (interval_range o s r) (zlen enc) ∧ range_bytes enc (interval_range o s r) = range_bytes (part enc o s) r.
Proof.
  intros Ho Hs Hle Henc Hr Hok Hw. destruct r as [a [l|]|l]; cbn in Hok, Hw, Hr |- *.
  - rewrite wrap64_small by (unfold_u64; lia). split_and!; [lia..|]. unfold part. apply list_eq. intros i. destruct (decide (i < Z.to_nat l)%nat).
    + rewrite !lookup_take_lt by lia. rewrite !lookup_drop, lookup_take_lt, lookup_drop by lia. f_equal. lia.
    + rewrite !lookup_take_ge by lia. done.
  - assert (a = 0) as -> by lia. rewrite wrap64_small by (unfold_u64; lia). split_and!; [lia..|]. rewrite drop_0. unfold part. do 2 f_equal. lia.
  - rewrite (wrap64_small (o + s)) by (unfold_u64; lia). rewrite wrap64_small by (unfold_u64; lia). split_and!; [lia..|]. unfold part.
    apply list_eq. intros i. rewrite length_take, length_drop.
    destruct (decide (i < Z.to_nat l)%nat).
    + rewrite lookup_take_lt, !lookup_drop, lookup_take_lt, lookup_drop by lia. f_equal. lia.
    + rewrite lookup_take_ge by lia. symmetry. apply lookup_ge_None. rewrite length_drop, length_take, length_drop. lia.
Qed.

(** A handle on part of a value that is read serves as a handle on this part. *)
Lemma byte_interval_reads h key v enc o s : handle_reads 0 h key v (Some enc) → 0 <= o → 0 <= s → o + s <= zlen enc → zlen enc < u64_modulus →
  handle_reads 0 (byte_interval_handle h o s) key v (Some (part enc o s)).
Proof.
  intros [Hc Hr] Ho Hs Hle Henc. split; [intros rs; apply Hc|]. intros rs Hopen Hrs. destruct (Hrs _ eq_refl) as (_ & Hok & Hw).
  rewrite length_part in Hw by lia. cbn [bytes_partial_decode_many byte_interval_handle].
  assert (∀ r, r ∈ rs → byte_range_ok (interval_range o s r) ∧ range_within (interval_range o s r) (zlen enc) ∧ range_bytes enc (interval_range o s r) = range_bytes (part enc o s) r) as Hin.
  { intros r Hin. rewrite Forall_forall in Hopen, Hok, Hw. apply interval_range_ok; auto. }
  replace ((λ b, range_bytes b <$> rs) <$> Some (part enc o s)) with ((λ b, range_bytes b <$> (interval_range o s <$> rs)) <$> Some enc).
  - apply Hr; [apply Forall_fmap, Forall_forall; intros [a [l|]|l] _; done|]. intros b [= <-].
    split_and!; [done|apply Forall_fmap, Forall_forall; intros r Hr'; by apply Hin..].
  - cbn. f_equal. rewrite list_fmap_fmap. apply list_fmap_ext_in. intros r Hr'. by apply Hin.
Qed.

Lemma runs_at_map {E A B} (f : A → prog E B) (l : list A) (bs : list B) v :
  Forall2 (λ a b, runs_at (f a) v (Ok b) v) l bs → runs_at (try_map f l) v (Ok bs) v.
Proof.
  induction 1 as [|a b l bs Ha _ IH]; [done|]. cbn [try_map]. eapply runs_at_bind; [exact Ha|]. eapply runs_at_bind; [exact IH|]. done.
Qed.

Section partial.
Context {I X : Type} `{LI : LawfulArrayToBytesCodec I, LX : LawfulArrayToBytesCodec X} `{T : Target} `{RT : LawfulRunTime}.
Context (self : ShardingCodecBound I X) (sh : list Z) (Hwf : sharding_wf self) (Hsh : sharding_shape_ok self sh).

#[local] Abbreviation ss := (subchunk_shape self).
#[local] Abbreviation cps := (shard_chunks self sh).
#[local] Abbreviation n := (Zprod (shard_chunks self sh)).
#[local] Abbreviation dt := (sharding_data_type self).
#[local] Abbreviation fv := (sharding_fill_value self).
#[local] Abbreviation grid := (shard_grid sh ss).
#[local] Abbreviation W := (new_with_shape sh).

(** ** The subchunks that a region meets *)

Section region.
Context (sub : ArraySubset) (Hsub : region_ok sub sh).

Lemma region_in_shard : region_of_grid grid sub ∧ Zprod (shape sub) < u64_modulus ∧ covers W sub ∧ 1 <= Zprod (shape sub) < 2 ^ 63 ∧ chunk_shape_ok (shape sub).
Proof.
  pose proof Hsub as ([Hs Hsw] & Hin & Hne & Hash). destruct (region_num_elements sub sh Hsub) as [_ Hle]. pose proof (ss_shape _ _ Hsh) as [Hp Hb].
  assert (Forall (λ d, 1 <= d) (shape sub)) as Hpos.
  { apply Forall_total. intros j Hj. pose proof (proj1 Hs). pose proof (proj1 (is_empty_false sub Hs) Hne j ltac:(lia)). cbv beta. lia. }
  assert (0 < Zprod (shape sub)) by (apply Zprod_pos; eapply Forall_impl; [exact Hpos|]; simpl; lia).
  split; [by split_and!|]. split; [unfold u64_modulus; lia|]. split; [by apply covers_origin|]. split; [lia|]. split; [done|lia].
Qed.

(** The part of subchunk [c] in the region. *)
Definition met (c : list Z) : ArraySubset := match overlap sub (subset_of grid c) with Ok o => o | _ => sub end.

Lemma met_ok c : in_grid grid c → chunk_meets grid sub c →
  subchunk_overlap grid sub c = Ok (subset_of grid c, met c) ∧ subset_wf (met c) ∧ is_empty (met c) = false ∧
  covers (subset_of grid c) (met c) ∧ covers sub (met c) ∧ (∀ ix, in_subset (met c) ix ↔ in_subset (subset_of grid c) ix ∧ in_subset sub ix) ∧
  relative_to (met c) (start (subset_of grid c)) = Ok (within (met c) (subset_of grid c)) ∧
  relative_to (met c) (start sub) = Ok (within (met c) sub) ∧ region_ok (within (met c) sub) (shape sub) ∧
  region_ok (within (met c) (subset_of grid c)) ss ∧ subset_wf (subset_of grid c).
Proof.
  intros Hc Hm. pose proof (ss_shape _ _ Hsh) as Hs. pose proof (ss_divides _ _ Hsh) as Hd. destruct region_in_shard as (_ & Hb & _).
  pose proof (shard_grid_wf sh ss Hs Hd) as Hg. pose proof Hsub as ((Hsw & _) & _).
  destruct (overlap_chunk grid Hg sub c Hsw Hb Hc Hm) as (o & _ & Ho & Hwf' & Hne & Hc1 & Hc2 & Hix & Hr1 & Hr2 & Hok).
  assert (met c = o) as -> by (unfold met; by rewrite Ho). pose proof (shape_subset_of sh ss Hs Hd c Hc) as Hshape.
  pose proof (subset_of_wf grid Hg c (proj1 Hc)) as Hcw.
  split_and!; [|done..| |done].
  - unfold subchunk_overlap. rewrite (subset_law grid Hg c Hc). cbn [unwrap expect obind]. by rewrite Ho.
  - rewrite <-Hshape at 2. apply within_region_ok; [done..|]. rewrite Hshape. destruct (shape_wf_ok ss (subchunk_shape_ok_ sh ss Hs Hd)) as [[_ ?] _]. done.
Qed.

Lemma met_chunks : ∃ l, subchunks_met grid sub = Ok l ∧ NoDup l ∧ ∀ c, c ∈ l ↔ in_grid grid c ∧ chunk_meets grid sub c.
Proof.
  pose proof (ss_shape _ _ Hsh) as Hs. pose proof (ss_divides _ _ Hsh) as Hd. destruct region_in_shard as (Hr & _).
  destruct (chunks_of_region_ok grid (shard_grid_wf sh ss Hs Hd) sub) as (chunks & l & Hch & Hind & Hnd & _ & _ & Hl & _);
    [|done|exists l; unfold subchunks_met; rewrite Hch; cbn [map_err obind expect]; rewrite Hind; split_and!; [done..|exact Hl]].
  change (Zprod (chunks_per_shard sh ss) < u64_modulus). pose proof (cps_ok sh ss Hs Hd) as [_ ?]. unfold u64_modulus. lia.
Qed.

(** Every element of the region is in one. *)
Lemma met_cover (l : list (list Z)) ix : (∀ c, c ∈ l ↔ in_grid grid c ∧ chunk_meets grid sub c) → in_subset sub ix ↔ ∃ c, c ∈ l ∧ in_subset (met c) ix.
Proof.
  intros Hl. pose proof (ss_shape _ _ Hsh) as Hs. pose proof (ss_divides _ _ Hsh) as Hd. destruct region_in_shard as (Hr & _). split.
  - intros Hix. destruct (element_chunk grid (shard_grid_wf sh ss Hs Hd) sub ix Hr Hix) as (c & Hc & Hm & Hin). exists c.
    split; [by apply Hl|]. by apply (met_ok c Hc Hm).
  - intros (c & [Hc Hm]%Hl & Hix). by apply (met_ok c Hc Hm) in Hix as [_ ?].
Qed.

Lemma subchunk_entry_ok idx c : index_ok n idx → in_grid grid c →
  subchunk_entry idx cps c = Ok (entry idx (lin c cps)) ∧ 0 <= lin c cps < n ∧ subset_of grid c = subchunk sh ss (lin c cps).
Proof.
  intros Hidx Hc. pose proof (ss_shape _ _ Hsh) as Hs. pose proof (ss_divides _ _ Hsh) as Hd. pose proof Hc as Hci%(in_shard_grid sh ss Hs).
  pose proof (index_shape_ok self sh Hwf Hsh) as (_ & _ & Hn & _). pose proof (lin_bound _ _ Hci) as Hk. split_and!; [|apply Hk..|].
  - unfold subchunk_entry. rewrite ravel_indices_lin; [|exact Hci|pose proof (proj1 (proj2 (proj2 (chunks_ok self sh Hsh)))); unfold u64_modulus; lia]. cbn [expect obind].
    destruct (index_lookup (E:=CodecError) n Hn idx (lin c cps) Hidx Hk) as [-> ->]. cbn [obind]. by rewrite <-surjective_pairing.
  - unfold subchunk. unfold shard_chunks. by rewrite delin_lin.
Qed.
End region.

(** ** Reading *)

Section read.
Context (h : BytesHandle) (key : StoreKey) (v : option bytes) (enc : bytes) (idx : list Z).
Context (Hread : handle_reads 0 h key v (Some enc)) (Hidx : indexed self sh enc idx).
Context (V : list element) (HV : zlen V = Zprod sh).
Context (Hcontent : ∀ k, 0 <= k < n → ∃ bk, subchunk_content self (stored enc idx k) bk (subchunk_elements V sh ss k)).

Definition shard_decoder : ShardingPartialDecoder I := {|
  pd_input_handle := h; pd_shard_shape := sh; pd_subchunk_shape := ss; pd_inner_codecs := inner_codecs self; pd_shard_index := Some idx |}.

#[local] Abbreviation f := (element_at V W).

(** The partial decoder of a stored subchunk. *)
Lemma subchunk_decoder_ok k e bk options : 0 <= k < n → stored enc idx k = Some e → subchunk_content self (Some e) bk (subchunk_elements V sh ss k) →
  ∃ ah, runs_at (get_subchunk_partial_decoder shard_decoder options (entry idx k).1 (entry idx k).2) v (Ok ah) v ∧
    array_reads ah v dt ss (subchunk_elements V sh ss k) (array_bytes_size bk).
Proof.
  intros Hk Hst Hc. unfold stored in Hst. destruct (decide _) as [|Hne]; [done|]. apply (inj Some) in Hst. subst e.
  destruct (entry_bounds self sh enc idx Hidx k Hk Hne) as (Ho & Hs & Hle & Hb).
  pose proof (byte_interval_reads h key v enc _ _ Hread Ho Hs Hle ltac:(unfold u64_modulus; lia)) as Hi.
  destruct (a2b_partial_law (inner_codecs self) ss options (byte_interval_handle h (entry idx k).1 (entry idx k).2) key v (Some (part enc (entry idx k).1 (entry idx k).2)) bk (subchunk_elements V sh ss k) (sw_inner _ Hwf) (ss_inner _ _ Hsh)) as (ah & Hrun & Hah).
  - rewrite (sw_offset _ Hwf). apply handle_reads_serves; [lia|exact Hi].
  - exact Hc.
  - exists ah. split; [|exact Hah]. exact (runs_at_map_err out_of_bounds_error _ _ _ _ Hrun).
Qed.

Lemma entry_empty k : 0 <= k < n → ((entry idx k).1 =? u64_max) && ((entry idx k).2 =? u64_max) = match stored enc idx k with Some _ => false | None => true end.
Proof.
  intros Hk. rewrite (not_stored self sh) by done. unfold stored. destruct (decide _); [by rewrite bool_decide_true|by rewrite bool_decide_false].
Qed.

Context (sub : ArraySubset) (Hsub : region_ok sub sh).

(** What is read of a subchunk. *)
Lemma met_elements c : in_grid grid c → chunk_meets grid sub c →
  select (subchunk_elements V sh ss (lin c cps)) (positions (within (met sub c) (subset_of grid c)) ss) = contents f (met sub c).
Proof.
  intros Hc Hm. destruct (met_ok sub Hsub c Hc Hm) as (_ & Hw & Hne & Hc1 & _ & _ & _ & _ & _ & _ & Hcw).
  destruct (subchunk_entry_ok idx c (ix_index _ _ _ _ Hidx) Hc) as (_ & _ & He). unfold subchunk_elements. rewrite <-He.
  pose proof (select_contents f _ _ Hcw Hw Hc1) as Hsel. by rewrite (shape_subset_of sh ss (ss_shape _ _ Hsh) (ss_divides _ _ Hsh) c Hc) in Hsel.
Qed.

(** *** Fixed-length data *)

Section fixed.
Context (d : Z) (L : list bytes) (Hdt : dt = PlainType (FixedSize d)) (HVL : V = Value <$> L) (HL : fixed_elements d L).

#[local] Abbreviation fb := (element_at L W).

Lemma whole_elements : subset_wf W ∧ zlen L = Zprod sh ∧ sized d fb W.
Proof.
  pose proof (ss_shape _ _ Hsh) as Hs. destruct (whole_wf sh Hs) as (HW & _). assert (zlen L = Zprod sh) as HLl by (rewrite HVL, length_fmap in HV; done).
  split_and!; [done|done|]. by apply sized_element_at.
Qed.

Lemma contents_values o : subset_wf o → covers W o → contents f o = Value <$> contents fb o ∧ fixed_elements d (contents fb o) ∧ sized d fb o.
Proof.
  intros Ho Hcov. destruct whole_elements as (HW & HLl & Hsz). assert (sized d fb o) as Hso by (intros ix Hix; apply Hsz; by apply (covers_in W o)).
  split_and!; [|by apply (sized_fixed d (proj1 HL))|done].
  unfold contents. rewrite list_fmap_fmap. apply list_fmap_ext_in. intros ix Hix%elem_of_contents; [|done]. unfold element_at. rewrite HVL.
  apply (covers_in W o ix HW Hcov) in Hix. pose proof (position_bound W ix HW Hix) as Hb. cbn [shape new_with_shape] in Hb. apply fmap_total. lia.
Qed.

Context (msh : list Z) (O : ArraySubset) (HO : region_ok O msh) (Hshape : shape O = shape sub) (Hmsh : Zprod msh * d < 2 ^ 63).

#[local] Abbreviation g := (element_at (contents fb sub) O).
#[local] Abbreviation place := (λ c, moved (met sub c) sub O).

Lemma met_place_ok c : in_grid grid c → chunk_meets grid sub c →
  region_ok (place c) msh ∧ subset_wf (place c) ∧ length (start (place c)) = length msh ∧ chunk_shape_ok msh ∧
  contents g (place c) = contents fb (met sub c) ∧ sized d g (place c) ∧ covers O (place c) ∧ offset (within (met sub c) sub) (start O) = Ok (place c).
Proof.
  intros Hc Hm. destruct (met_ok sub Hsub c Hc Hm) as (_ & Hw & Hne & _ & Hc2 & _ & _ & _ & Hok & _). destruct (region_in_shard sub Hsub) as (_ & _ & Hcs & _).
  pose proof Hsub as ((Hs & _) & _). pose proof HO as ((Hos & Hosw) & [Hlm Hin] & HOne & Hash).
  destruct (moved_wf sub O Hs Hos Hshape (met sub c) Hw Hc2 Hne) as (Hmw & Hmne & Hmc & _). pose proof (moved_contents sub O Hs Hos Hshape (met sub c) Hw Hc2 Hne fb) as Hmcon.
  pose proof (length_moved sub O Hs Hos Hshape (met sub c) Hc2) as Hlmv.
  assert (covers W (met sub c)) as HcW.
  { destruct Hcs as [Hl1 Hcs], Hc2 as [Hl2 Hc2]. split; [lia|]. intros j Hj. specialize (Hcs j Hj). specialize (Hc2 j ltac:(lia)). lia. }
  destruct (contents_values (met sub c) Hw HcW) as (_ & Hf & _).
  split_and!; [|done|lia|exact (region_chunk_shape O msh d HO (proj1 HL) Hmsh)|done| |done|].
  - split_and!; [split; [done|cbn [shape moved]; apply Hok]| |done|done].
    split; [lia|]. intros j Hj. destruct Hmc as [_ Hmc]. specialize (Hmc j ltac:(lia)). specialize (Hin j Hj). lia.
  - intros ix Hix. pose proof (lookup_contents g _ ix Hmw Hix) as Hl. rewrite Hmcon in Hl.
    by apply (proj1 (Forall_forall _ _) (proj2 Hf)), (list_elem_of_lookup_2 _ _ _ Hl).
  - exact (offset_moved sub O Hs Hos Hshape (met sub c) Hw Hc2 Hne).
Qed.

(** A subchunk is read into its place. *)
Lemma decode_subchunk_subset_into_slice_ok c hm view options : in_grid grid c → chunk_meets grid sub c → sized d hm (new_with_shape msh) →
  view_data_type_size view = d → view_shape view = msh → view_subset view = O →
  runs_at (decode_subchunk_subset_into_slice shard_decoder idx cps grid sub options view (memory_of msh hm) c) v
    (Ok (memory_of msh (overwrite hm g (place c)))) v.
Proof.
  intros Hc Hm Hh Hvd Hvs Hvo. destruct (met_ok sub Hsub c Hc Hm) as (Hov & Hw & Hne & _ & Hc2 & _ & Hr1 & Hr2 & Hok & Hoks & _).
  destruct (met_place_ok c Hc Hm) as (Hpok & Hpw & _ & Hmshape & Hpc & Hps & Hpcov & Hoff). pose proof HO as ((Hos & _) & _).
  destruct (subchunk_entry_ok idx c (ix_index _ _ _ _ Hidx) Hc) as (He & Hk & _). set (k := lin c cps) in *.
  destruct (paint_ok msh d (proj1 HL) Hmshape Hmsh hm g (place c) Hpok Hh Hps) as (view' & Hv' & Hfits & Hcopy & Hfill).
  unfold decode_subchunk_subset_into_slice. rewrite He. destruct (entry idx k) as [o s] eqn:Hent. prog. rewrite Hov. prog. rewrite Hr2. prog.
  rewrite Hvo, Hoff. prog. unfold subdivide. rewrite Hvo, (covers_inbounds O) by done. cbn [negb]. rewrite Hvd, Hvs, Hv'. prog.
  pose proof (entry_empty k Hk) as Hempty. rewrite Hent in Hempty. cbn [fst snd] in Hempty. rewrite Hempty.
  destruct (Hcontent k Hk) as (bk & Hcon). pose proof (met_elements c Hc Hm) as Hsel. fold k in Hsel.
  assert (covers W (met sub c)) as HcW.
  { destruct (region_in_shard sub Hsub) as (_ & _ & Hcs & _). destruct Hcs as [Hl1 Hcs], Hc2 as [Hl2 Hc2]. split; [lia|].
    intros j Hj. specialize (Hcs j Hj). specialize (Hc2 j ltac:(lia)). lia. }
  destruct (contents_values (met sub c) Hw HcW) as (Hval & Hfx & _).
  destruct (stored enc idx k) as [e|] eqn:Hst.
  - destruct (subchunk_decoder_ok k e bk options Hk Hst Hcon) as (ah & Hrun & Hah). rewrite Hent in Hrun. cbn [fst snd] in Hrun.
    eapply runs_at_bind; [exact Hrun|]. rewrite Hr1. prog. destruct (Hah (within (met sub c) (subset_of grid c)) Hoks) as (out & _ & Hho & _ & Hinto).
    rewrite Hsel, Hval in Hho. rewrite Hdt in Hho. apply holds_fixed in Hho as (Lo & -> & HLo & _). apply fmap_Value_inj in HLo. subst Lo.
    eapply runs_at_bind.
    + apply (Hinto (TargetFixed view' (memory_of msh hm)) (TargetFixed view' (memory_of msh (overwrite hm g (place c))))); [exact Hfits|].
      cbn [decode_into_array_bytes_target]. rewrite <-Hpc, Hcopy. done.
    + done.
  - destruct Hcon as (_ & _ & _ & Hnew & Hrep). prog. split; [|done].
    change (a2b_data_type (inner_codecs self)) with dt in Hnew, Hrep. rewrite Hdt in Hnew, Hrep. cbn [new_fill_value fill_element] in Hnew, Hrep.
    change (a2b_fill_value (inner_codecs self)) with fv in Hnew, Hrep. change (a2b_fill_value (pd_inner_codecs shard_decoder)) with fv.
    destruct (Z.eqb_spec (zlen fv) d) as [Hfv|]; [|done]. apply Hfill; [|done].
    assert (contents f (met sub c) = replicate (length (contents f (met sub c))) (Value fv)) as Hall.
    { rewrite <-Hsel, Hrep. rewrite select_replicate; [by rewrite length_replicate|].
      eapply Forall_impl; [apply positions_bound; apply Hoks|]. cbv beta. intros i Hi. destruct Hi. split; [lia|]. lia. }
    rewrite Hpc. apply fmap_Value_inj. rewrite <-Hval, Hall at 1. rewrite fmap_replicate. f_equal. rewrite Hval. by rewrite length_fmap.
Qed.

Lemma partial_fixed_into_ok hm view options : view_new (memory_of msh hm) d msh O = Ok view → sized d hm (new_with_shape msh) →
  runs_at (partial_decode_fixed_array_subset_into shard_decoder sub options view (memory_of msh hm)) v (Ok (memory_of msh (overwrite hm g O))) v.
Proof.
  intros Hview Hh. destruct (view_new_fields _ _ _ _ _ Hview) as (Hvd & Hvs & Hvo). pose proof HO as ((Hos & Hosw) & [Hlm _] & _).
  pose proof (region_chunk_shape O msh d HO (proj1 HL) Hmsh) as Hm.
  unfold partial_decode_fixed_array_subset_into, view_num_elements. rewrite Hvo.
  assert (num_elements sub = num_elements O) as -> by (unfold num_elements; by rewrite Hshape). rewrite Z.eqb_refl. cbn [negb pd_shard_index shard_decoder pd_shard_shape pd_subchunk_shape pd_inner_codecs].
  destruct (chunks_ok self sh Hsh) as (Hcps & _). rewrite Hcps. prog. unfold get_concurrent_target_and_codec_options.
  destruct (a2b_concurrency_law _ _ (sw_inner _ Hwf) (ss_inner _ _ Hsh)) as [rc ->]. prog. destruct (calc_concurrency_outer_inner _ _ _) as [limit inner].
  rewrite (shard_grid_new sh ss (ss_shape _ _ Hsh) (ss_divides _ _ Hsh)). prog. destruct (met_chunks sub Hsub) as (l & Hl & _ & Hmem). rewrite Hl. prog.
  rewrite <-(paints_cover msh d (proj1 HL) Hm Hmsh hm g (place <$> l) O).
  - apply (try_fold_paints msh d (proj1 HL) Hm Hmsh); [|done]. intros c h' [Hc Hcm]%Hmem Hh'. split.
    + by apply decode_subchunk_subset_into_slice_ok.
    + destruct (met_place_ok c Hc Hcm) as (Hpok & Hpw & _ & _ & _ & Hps & _). apply (sized_overwrite msh d); [done|done|done|apply Hpok].
  - apply Forall_fmap, Forall_forall. intros c [Hc Hcm]%Hmem. by apply met_place_ok.
  - apply Forall_fmap, Forall_forall. intros c [Hc Hcm]%Hmem. by apply met_place_ok.
  - done.
  - lia.
  - pose proof Hsub as ((Hs & _) & _). intros ix. split.
    + intros Hix. pose proof Hix as [Hlix _]. pose proof (moved_back_in sub O Hs Hos Hshape ix Hix) as Hback.
      apply (met_cover sub Hsub l _ Hmem) in Hback as (c & Hcl & Hin). exists (place c). split; [apply list_elem_of_fmap; by exists c|].
      apply Hmem in Hcl as [Hc Hcm]. destruct (met_ok sub Hsub c Hc Hcm) as (_ & Hw & Hne & _ & Hc2 & _). by apply moved_in.
    + intros (p & (c & -> & [Hc Hcm]%Hmem)%list_elem_of_fmap & Hix). destruct (met_place_ok c Hc Hcm) as (_ & _ & _ & _ & _ & _ & Hcov & _).
      by apply (covers_in O (place c)).
Qed.
End fixed.
End read.
End partial.
