(* ===== verification/ShardReads.v ===== *)
(** The partial decoder of a shard, for every data type, and the promise of the sharding codec.

    [ShardPartialSpec] reads the elements of one subchunk.  Here variable-length elements are merged, a shard
    that is not stored is read as the fill value, and the parts make [sharding_partial_decode] and
    [sharding_partial_decode_into]. *)

From S2P Require Import Prelude ArraySubset Linear Iterators ChunkGrid RegularGrid ByteRange StoreKey Storage ArrayBytes Elements Regions.
From S2P Require Import StoreProgram DecodeInto GridRegions Concurrency Codec BytesCodec Sharding ShardPlacement ShardEncode ShardSpec.
From S2P Require Import ShardSpec ShardingPartial ShardPartialSpec.

(** Elements at different places take no more bytes than all of them. *)
Lemma concat_select_le {A} (L : list (list A)) idxs : NoDup idxs → Forall (λ i, 0 <= i < zlen L) idxs → zlen (concat (select L idxs)) <= zlen (concat L).
Proof.
  intros Hn Hi. rewrite <-!Zsum_lengths. apply Zsum_submseteq; [|apply Forall_fmap, Forall_forall; intros x _; cbn; lia].
  apply fmap_submseteq. by apply select_submseteq.
Qed.

Section reads.
Context {I X : Type} `{LI : LawfulArrayToBytesCodec I, LX : LawfulArrayToBytesCodec X} `{T : Target} `{RT : LawfulRunTime}.
Context (self : ShardingCodecBound I X) (sh : list Z) (Hwf : sharding_wf self) (Hsh : sharding_shape_ok self sh).

#[local] Abbreviation ss := (subchunk_shape self).
#[local] Abbreviation cps := (shard_chunks self sh).
#[local] Abbreviation n := (Zprod (shard_chunks self sh)).
#[local] Abbreviation dt := (sharding_data_type self).
#[local] Abbreviation fv := (sharding_fill_value self).
#[local] Abbreviation grid := (shard_grid sh ss).
#[local] Abbreviation W := (new_with_shape sh).

Context (V : list element) (HV : zlen V = Zprod sh).

#[local] Abbreviation f := (element_at V W).

(** The values of the elements. *)
Lemma values_of (L : list bytes) o : V = Value <$> L → subset_wf o → covers W o → contents f o = Value <$> contents (element_at L W) o.
Proof.
  intros HVL Ho Hcov. destruct (whole_wf sh (ss_shape _ _ Hsh)) as (HW & _). unfold contents. rewrite list_fmap_fmap.
  apply list_fmap_ext_in. intros ix Hix%elem_of_contents; [|done]. unfold element_at. rewrite HVL.
  apply (covers_in W o ix HW Hcov) in Hix. pose proof (position_bound W ix HW Hix) as Hb. cbn [shape new_with_shape] in Hb.
  rewrite HVL, length_fmap in HV. apply fmap_total. lia.
Qed.

Lemma values_select {A} `{!Inhabited A} (L : list A) o : zlen L = Zprod sh → region_ok o sh → contents (element_at L W) o = select L (positions o sh).
Proof.
  intros HL ((Ho & _) & Hin & _). destruct (whole_wf sh (ss_shape _ _ Hsh)) as (HW & _).
  rewrite <-(contents_element_at L W HW HL) at 2. symmetry. by apply select_contents_origin.
Qed.

(** The fill value for the part of a subchunk. *)
Lemma fill_part_ok m : 0 <= m <= Zprod sh → ∃ b, new_fill_value dt m fv = Ok b ∧ holds b dt (replicate (Z.to_nat m) (fill_element dt fv)) ∧
  packed b ∧ array_bytes_size b = m * zlen (base_fill dt fv).
Proof.
  intros Hm. pose proof (ss_room _ _ Hsh) as Hr. destruct (a2b_shape_law _ _ (sw_inner _ Hwf) (ss_inner _ _ Hsh)) as (_ & Hl & _).
  apply new_fill_holds; [apply (a2b_fill_law _ (sw_inner _ Hwf))|lia|]. nia.
Qed.

(** *** Variable-length data *)

Section variable.
Context (h : BytesHandle) (key : StoreKey) (v : option bytes) (enc : bytes) (idx : list Z).
Context (Hread : handle_reads 0 h key v (Some enc)) (Hidx : indexed self sh enc idx).
Context (Hcontent : ∀ k, 0 <= k < n → ∃ bk, subchunk_content self (stored enc idx k) bk (subchunk_elements V sh ss k)).
Context (L : list bytes) (Hdt : dt = PlainType VariableSize) (HVL : V = Value <$> L) (HLc : zlen (concat L) < 2 ^ 63).
Context (sub : ArraySubset) (Hsub : region_ok sub sh).

#[local] Abbreviation fb := (element_at L W).
#[local] Abbreviation decoder := (shard_decoder self sh h idx).

#[local] Abbreviation met := (met self sh).

Lemma decode_subchunk_subset_ok c options : in_grid grid c → chunk_meets grid sub c →
  ∃ vc, runs_at (decode_subchunk_subset decoder idx cps grid sub options c) v (Ok (vc, within (met sub c) sub)) v ∧
    vlen_elements vc (contents fb (met sub c)).
Proof.
  intros Hc Hm. destruct (met_ok self sh Hsh sub Hsub c Hc Hm) as (Hov & Hw & Hne & _ & Hc2 & _ & Hr1 & Hr2 & Hok & Hoks & _).
  destruct (subchunk_entry_ok self sh Hwf Hsh idx c (ix_index _ _ _ _ Hidx) Hc) as (He & Hk & _). set (k := lin c cps) in *.
  pose proof (entry_empty self sh enc idx k Hk) as Hempty.
  destruct (Hcontent k Hk) as (bk & Hcon). pose proof (met_elements self sh Hwf Hsh enc idx Hidx V sub Hsub c Hc Hm) as Hsel. fold k in Hsel.
  destruct (region_in_shard self sh Hsh sub Hsub) as (_ & _ & Hcs & _).
  assert (covers W (met sub c)) as HcW.
  { destruct Hcs as [Hl1 Hcs], Hc2 as [Hl2 Hc2]. split; [lia|]. intros j Hj. specialize (Hcs j Hj). specialize (Hc2 j ltac:(lia)). lia. }
  pose proof (values_of L (met sub c) HVL Hw HcW) as Hval.
  assert (∃ out, runs_at (if ((entry idx k).1 =? u64_max) && ((entry idx k).2 =? u64_max)
      then plift (new_fill_value (a2b_data_type (pd_inner_codecs decoder)) (num_elements (met sub c)) (a2b_fill_value (pd_inner_codecs decoder)))
      else let* inner := get_subchunk_partial_decoder decoder options (entry idx k).1 (entry idx k).2 in
           let* in_chunk := plift (unwrap (relative_to (met sub c) (start (subset_of grid c)))) in partial_decode inner in_chunk) v (Ok out) v ∧
    holds out dt (contents f (met sub c))) as (out & Hrun & Hout).
  { rewrite Hempty. destruct (stored enc idx k) as [e|] eqn:Hst.
    - destruct (subchunk_decoder_ok self sh Hwf Hsh h key v enc idx Hread Hidx V k e bk options Hk Hst Hcon) as (ah & Hrun & Hah).
      destruct (Hah (within (met sub c) (subset_of grid c)) Hoks) as (out & Hpd & Hho & _). exists out. rewrite Hsel in Hho. split; [|done].
      eapply runs_at_bind; [exact Hrun|]. rewrite Hr1. cbn [unwrap]. prog. exact Hpd.
    - destruct Hcon as (_ & _ & _ & _ & Hrep). destruct (region_num_elements _ _ Hok) as [Hnum Hnb]. cbn [shape within] in Hnum, Hnb.
      destruct (region_num_elements sub sh Hsub) as [_ Hsb]. destruct (fill_part_ok (Zprod (shape (met sub c)))) as (out & Hnew & Hho & _); [lia|].
      exists out. split; [split; [|done]; change (num_elements (met sub c) = Zprod (shape (met sub c))) in Hnum; by rewrite Hnum|].
      rewrite <-Hsel, Hrep. rewrite select_replicate; [|].
      + destruct Hoks as (Hrw & _). pose proof (length_positions _ ss Hrw) as Hlp. cbn [shape within] in Hlp. replace (length (positions (within (met sub c) (subset_of grid c)) ss)) with (Z.to_nat (Zprod (shape (met sub c)))) by lia. exact Hho.
      + eapply Forall_impl; [apply positions_bound; apply Hoks|]. cbv beta. intros i Hi. destruct Hi. split; [lia|]. lia. }
  rewrite Hdt, Hval in Hout. apply holds_variable in Hout as (vc & Lc & -> & HLc' & Hvc & _). apply fmap_Value_inj in HLc'. subst Lc.
  exists vc. split; [|done]. unfold decode_subchunk_subset. rewrite He. destruct (entry idx k) as [o s]. prog. cbn [fst snd] in Hrun. rewrite Hov. prog.
  eapply runs_at_bind; [exact Hrun|]. prog. cbn [into_variable]. prog. rewrite Hr2. done.
Qed.

Lemma partial_variable_ok options :
  runs_at (partial_decode_variable_array_subset decoder sub options) v (Ok (VariableBytes (pack (contents fb sub)))) v.
Proof.
  pose proof (ss_shape _ _ Hsh) as Hs. destruct (region_in_shard self sh Hsh sub Hsub) as (_ & _ & HcW & _ & Hcs). pose proof Hsub as ((Hsw & Hshw) & Hin & _).
  unfold partial_decode_variable_array_subset. cbn [pd_shard_index pd_shard_shape pd_subchunk_shape pd_inner_codecs shard_decoder].
  destruct (chunks_ok self sh Hsh) as (Hcps & _). rewrite Hcps. prog. unfold get_concurrent_target_and_codec_options.
  destruct (a2b_concurrency_law _ _ (sw_inner _ Hwf) (ss_inner _ _ Hsh)) as [rc ->]. prog. destruct (calc_concurrency_outer_inner _ _ _) as [limit inner].
  rewrite (shard_grid_new sh ss (ss_shape _ _ Hsh) (ss_divides _ _ Hsh)). cbn [unwrap]. prog. destruct (met_chunks self sh Hsh sub Hsub) as (l & Hl & _ & Hmem).
  rewrite Hl. prog.
  assert (∃ parts, Forall2 (λ c p, runs_at (decode_subchunk_subset decoder idx cps grid sub (with_concurrent_target options inner) c) v (Ok p) v ∧
    p.2 = within (met sub c) sub ∧ vlen_elements p.1 (contents fb (met sub c))) l parts) as (parts & Hparts).
  { assert (∀ c, c ∈ l → in_grid grid c ∧ chunk_meets grid sub c) as Hall by (intros c; apply Hmem). clear Hl Hmem. induction l as [|c l IH]; [by exists []|].
    destruct IH as (parts & Hp); [intros c' Hc'; apply Hall; set_solver|]. destruct (Hall c ltac:(set_solver)) as [Hc Hm].
    destruct (decode_subchunk_subset_ok c (with_concurrent_target options inner) Hc Hm) as (vc & ? & ?). exists ((vc, within (met sub c) sub) :: parts). by constructor. }
  eapply runs_at_bind; [apply runs_at_map; eapply Forall2_impl; [exact Hparts|by intros c p [? _]]|].
  destruct (region_num_elements sub sh Hsub) as [_ Hsb]. assert (zlen (contents fb sub) = Zprod (shape sub)) as HLs by by apply contents_length.
  rewrite (merge_chunks_vlen_ok (contents fb sub)); [done| | | |].
  - by apply shape_wf_ok.
  - done.
  - assert (zlen L = Zprod sh) as HLl by (by rewrite HVL, length_fmap in HV). rewrite (values_select L sub HLl Hsub).
    pose proof (concat_select_le L (positions sub sh)) as Hle. unfold u64_modulus. enough (zlen (concat (select L (positions sub sh))) <= zlen (concat L)) by lia.
    apply Hle; [by apply NoDup_positions|]. rewrite HLl. by apply positions_bound.
  - split.
    + apply Forall_forall. intros p Hp. apply list_elem_of_lookup in Hp as [i Hi]. destruct (Forall2_lookup_r _ _ _ _ _ Hparts Hi) as (c & Hci & _ & -> & Hv).
      apply list_elem_of_lookup_2, Hmem in Hci as [Hc Hm]. destruct (met_ok self sh Hsh sub Hsub c Hc Hm) as (_ & Hw & _ & _ & Hc2 & _ & _ & _ & Hok & _).
      split; [done|]. by rewrite select_contents.
    + intros j Hj. rewrite HLs in Hj. destruct (position_surj sub j Hsw Hj) as (ix & Hix & Hpos).
      apply (met_cover self sh Hsh sub Hsub l ix Hmem) in Hix as (c & Hcl & Hix). apply list_elem_of_lookup in Hcl as [i Hi].
      destruct (Forall2_lookup_l _ _ _ _ _ Hparts Hi) as (p & Hpi & _ & Hp2 & _). apply list_elem_of_lookup_2, Hmem in Hi as [Hc Hm].
      destruct (met_ok self sh Hsh sub Hsub c Hc Hm) as (_ & Hw & _ & _ & Hc2 & _). exists p. split; [by eapply list_elem_of_lookup_2|].
      rewrite Hp2. apply (elem_of_positions sub (met sub c) j Hsw Hw Hc2). by exists ix.
Qed.
End variable.

(** *** A shard that is not stored *)

Section missing.
Context (h : BytesHandle) (v : option bytes) (sub : ArraySubset) (Hsub : region_ok sub sh).
Context (HVfill : V = replicate (Z.to_nat (Zprod sh)) (fill_element dt fv)).

Definition missing_decoder : ShardingPartialDecoder I := {|
  pd_input_handle := h; pd_shard_shape := sh; pd_subchunk_shape := ss; pd_inner_codecs := inner_codecs self; pd_shard_index := None |}.

Lemma missing_elements (L : list bytes) size : dt = PlainType size → V = Value <$> L →
  contents (element_at L W) sub = replicate (Z.to_nat (Zprod (shape sub))) fv.
Proof.
  intros Hdt HVL. assert (zlen L = Zprod sh) as HLl by (by rewrite HVL, length_fmap in HV). rewrite (values_select L sub HLl Hsub). apply fmap_Value_inj.
  pose proof Hsub as (Hrw & Hin & _). rewrite <-select_fmap by (rewrite HLl; by apply positions_bound). rewrite <-HVL, HVfill, Hdt.
  rewrite select_replicate, fmap_replicate; [|eapply Forall_impl; [by apply positions_bound|]; cbv beta; intros i Hi; destruct Hi; split; lia].
  f_equal. pose proof (length_positions _ sh Hrw). lia.
Qed.

Lemma missing_variable_ok L options : dt = PlainType VariableSize → V = Value <$> L →
  runs_at (partial_decode_variable_array_subset missing_decoder sub options) v (Ok (VariableBytes (pack (contents (element_at L W) sub)))) v.
Proof.
  intros Hdt HVL. destruct (region_num_elements sub sh Hsub) as [Hn Hb]. unfold partial_decode_variable_array_subset. cbn [pd_shard_index missing_decoder pd_inner_codecs].
  destruct (fill_part_ok (Zprod (shape sub)) Hb) as (b & Hnew & Hho & Hp & _). rewrite Hn. split; [|done].
  change (new_fill_value dt (Zprod (shape sub)) fv = Ok (VariableBytes (pack (contents (element_at L W) sub)))). rewrite Hnew. f_equal.
  rewrite Hdt in Hho. apply holds_variable in Hho as (vb & Lb & -> & HLb & Hvb & _). destruct Hp as [K ->]. do 2 f_equal.
  pose proof (vlen_elements_inj _ _ _ Hvb (pack_elements K)) as <-. apply fmap_Value_inj. rewrite <-HLb, (missing_elements L VariableSize Hdt HVL).
  by rewrite fmap_replicate.
Qed.

Lemma missing_fixed_ok d L msh O hm view options : dt = PlainType (FixedSize d) → V = Value <$> L → fixed_elements d L →
  region_ok O msh → shape O = shape sub → Zprod msh * d < 2 ^ 63 → view_new (memory_of msh hm) d msh O = Ok view → sized d hm (new_with_shape msh) →
  runs_at (partial_decode_fixed_array_subset_into missing_decoder sub options view (memory_of msh hm)) v
    (Ok (memory_of msh (overwrite hm (element_at (contents (element_at L W) sub) O) O))) v.
Proof.
  intros Hdt HVL HL HO Hshape Hmsh Hview Hh. destruct (view_new_fields _ _ _ _ _ Hview) as (_ & _ & Hvo). pose proof HO as ((Hos & _) & _). pose proof Hsub as ((Hs & _) & _).
  pose proof (region_chunk_shape O msh d HO (proj1 HL) Hmsh) as Hm. set (C := contents (element_at L W) sub).
  assert (C = replicate (Z.to_nat (Zprod (shape sub))) fv) as HC by by eapply missing_elements.
  assert (zlen C = Zprod (shape O)) as HCl by (unfold C; rewrite contents_length by done; by rewrite Hshape).
  pose proof (a2b_fill_law _ (sw_inner _ Hwf)) as Hfill. change (fill_ok dt fv) in Hfill. rewrite Hdt in Hfill. destruct Hfill as [_ Hfv]. cbn [base_fill] in Hfv.
  assert (fixed_elements d C) as HCf by (split; [apply HL|]; rewrite HC; apply Forall_replicate; lia).
  destruct (paint_ok msh d (proj1 HL) Hm Hmsh hm (element_at C O) O HO Hh (sized_element_at d C O HCf Hos HCl)) as (view' & Hv' & _ & _ & Hpf).
  rewrite Hview in Hv'. injection Hv' as <-. unfold partial_decode_fixed_array_subset_into, view_num_elements. rewrite Hvo.
  assert (num_elements sub = num_elements O) as -> by (unfold num_elements; by rewrite Hshape). rewrite Z.eqb_refl. cbn [negb pd_shard_index missing_decoder pd_inner_codecs].
  split; [|done]. apply Hpf; [|done]. rewrite contents_element_at by done. rewrite HC at 1. f_equal. rewrite HC, length_replicate. done.
Qed.
End missing.

(** ** The partial decoder *)

Definition reads_fixed (pd : ShardingPartialDecoder I) (v : option bytes) (sub : ArraySubset) (options : CodecOptions) : Prop :=
  ∀ d L msh O hm view, dt = PlainType (FixedSize d) → V = Value <$> L → fixed_elements d L →
    region_ok O msh → shape O = shape sub → Zprod msh * d < 2 ^ 63 → view_new (memory_of msh hm) d msh O = Ok view → sized d hm (new_with_shape msh) →
    runs_at (partial_decode_fixed_array_subset_into pd sub options view (memory_of msh hm)) v
      (Ok (memory_of msh (overwrite hm (element_at (contents (element_at L W) sub) O) O))) v.

Definition reads_variable (pd : ShardingPartialDecoder I) (v : option bytes) (sub : ArraySubset) (options : CodecOptions) : Prop :=
  ∀ L, dt = PlainType VariableSize → V = Value <$> L → zlen (concat L) < 2 ^ 63 →
    runs_at (partial_decode_variable_array_subset pd sub options) v (Ok (VariableBytes (pack (contents (element_at L W) sub)))) v.

Section handle.
Context (b : ArrayBytes) (Hb : holds b dt V) (Hpacked : packed b).
Context (pd : ShardingPartialDecoder I) (v : option bytes) (options : CodecOptions).
Context (Hpsh : pd_shard_shape pd = sh) (Hpin : pd_inner_codecs pd = inner_codecs self).
Context (sub : ArraySubset) (Hsub : region_ok sub sh) (Hfixed : reads_fixed pd v sub options) (Hvariable : reads_variable pd v sub options).

Lemma packed_variable : dt = PlainType VariableSize → ∃ L, b = VariableBytes (pack L) ∧ V = Value <$> L ∧ zlen L < 2 ^ 63 ∧ zlen (concat L) < 2 ^ 63.
Proof.
  intros Hdt. rewrite Hdt in Hb. apply holds_variable in Hb as (vb & L & -> & HVL & Hv & Hl & Hl2). destruct Hpacked as [K ->].
  pose proof (vlen_elements_inj _ _ _ Hv (pack_elements K)) as <-. by exists L.
Qed.

Lemma sub_checks : (dimensionality sub =? length (pd_shard_shape pd))%nat = true ∧ is_optional (a2b_data_type (pd_inner_codecs pd)) = false ∧ a2b_data_type (pd_inner_codecs pd) = dt.
Proof.
  rewrite Hpsh, Hpin. split_and!; [|apply (sw_type _ Hwf)|done]. pose proof Hsub as ((Hs & _) & [Hl _] & _). apply Nat.eqb_eq. unfold dimensionality. lia.
Qed.

(** Reading a region on its own. *)
Lemma sharding_partial_decode_ok : ∃ out, runs_at (sharding_partial_decode pd options sub) v (Ok out) v ∧
  holds out dt (select V (positions sub sh)) ∧ array_bytes_size out <= array_bytes_size b.
Proof.
  destruct sub_checks as (H1 & H2 & H3). unfold sharding_partial_decode. rewrite H1, H2, H3. cbn [negb].
  destruct (region_in_shard self sh Hsh sub Hsub) as (_ & _ & _ & Hpb & Hcs). destruct (region_num_elements sub sh Hsub) as [Hnum Hle].
  pose proof Hsub as ((Hs & Hsw) & Hin & _). destruct (plain_type self Hwf) as [[d|] Hdt]; rewrite Hdt; cbn [data_type_size].
  - destruct (fixed_shard self sh b V Hb HV d Hdt) as (L & Hbl & HVL & HL & Hlb & HLl). rewrite HLl in Hlb. pose proof (proj1 HL) as Hd.
    assert (Zprod (shape sub) * d < 2 ^ 63) as Hsd by nia. destruct (region_whole (shape sub) Hcs) as [HO _]. destruct (whole_wf (shape sub) Hcs) as (HOw & _).
    set (C := contents (element_at L W) sub). assert (zlen C = Zprod (shape sub)) as HCl by by apply contents_length.
    exists (FixedBytes (concat C)). unfold num_elements_usize. rewrite Hnum, wrap64_small by (unfold_u64; nia).
    destruct (memory_intro (shape sub) d Hd Hcs (replicate (Z.to_nat (Zprod (shape sub) * d)) 0)) as (hm & -> & Hh); [rewrite length_replicate; nia|].
    destruct (paint_ok (shape sub) d Hd Hcs Hsd hm hm (new_with_shape (shape sub)) HO Hh Hh) as (view & Hview & _). rewrite Hview. prog. split.
    { eapply runs_at_bind; [apply (Hfixed d L (shape sub) (new_with_shape (shape sub)) hm view); done|].
      prog. rewrite memory_whole by done. unfold memory_of. by rewrite contents_element_at by done. }
    assert (C = select L (positions sub sh)) as HC by by apply values_select. split.
    + apply holds_fixed. exists C. split_and!; [done| | |lia].
      * rewrite HVL, select_fmap by (rewrite HLl; by apply positions_bound). by rewrite HC.
      * rewrite HC. apply fixed_select; [done|]. rewrite HLl. by apply positions_bound.
    + rewrite Hbl. cbn [array_bytes_size]. rewrite HC. apply concat_select_le; [by apply NoDup_positions|]. rewrite HLl. by apply positions_bound.
  - destruct (packed_variable Hdt) as (L & Hbl & HVL & Hl1 & Hl2). exists (VariableBytes (pack (contents (element_at L W) sub))).
    assert (zlen L = Zprod sh) as HLl by (by rewrite HVL, length_fmap in HV). rewrite (values_select L sub HLl Hsub).
    assert (Forall (λ i, 0 <= i < zlen L) (positions sub sh)) as Hpos by (rewrite HLl; by apply positions_bound).
    pose proof (concat_select_le L (positions sub sh) (NoDup_positions _ _ (proj1 Hsub) Hin) Hpos) as Hcl. pose proof (length_positions sub sh (proj1 Hsub)) as Hlp.
    split_and!.
    + rewrite <-(values_select L sub HLl Hsub). by apply Hvariable.
    + rewrite HVL, select_fmap by done. apply holds_pack; [unfold select; rewrite length_fmap|]; lia.
    + rewrite Hbl. cbn [array_bytes_size vl_bytes pack]. done.
Qed.

(** Reading a region into a target. *)
Lemma sharding_partial_decode_into_ok out t t' : runs_at (sharding_partial_decode pd options sub) v (Ok out) v → holds out dt (select V (positions sub sh)) →
  target_fits t (shape sub) → decode_into_array_bytes_target out t = Ok t' → runs_at (sharding_partial_decode_into pd options sub t) v (Ok t') v.
Proof.
  destruct sub_checks as (_ & _ & H3). intros Hrun Hout Hfits Ht. destruct (plain_type self Hwf) as [[d|] Hdt].
  - destruct (fixed_shard self sh b V Hb HV d Hdt) as (L & _ & HVL & HL & _ & HLl).
    rewrite Hdt, HVL in Hout. apply holds_fixed in Hout as (Lo & -> & HLo & HLof & _). pose proof Hsub as (Hrw & Hin & _).
    rewrite select_fmap in HLo by (rewrite HLl; by apply positions_bound). apply fmap_Value_inj in HLo. subst Lo.
    rewrite <-(values_select L sub HLl Hsub) in Ht, HLof. destruct (region_in_shard self sh Hsh sub Hsub) as (_ & _ & _ & Hpb & _).
    destruct (fixed_target_paint d _ (shape sub) t t' HLof ltac:(by apply contents_length, Hrw) ltac:(lia) Hfits Ht)
      as (view & msh & O & hm & -> & Hview & HO & Hshape & Hmsh & Hmb & Hh & ->).
    unfold sharding_partial_decode_into. cbn [target_num_elements]. destruct (view_new_fields _ _ _ _ _ Hview) as (_ & _ & Hvo). unfold view_num_elements. rewrite Hvo.
    assert (num_elements sub = num_elements O) as -> by (unfold num_elements; by rewrite Hshape). rewrite Z.eqb_refl, H3, Hdt. cbn [negb data_type_size].
    eapply runs_at_bind; [by apply (Hfixed d L msh O hm view)|]. done.
  - rewrite Hdt in Hout. apply holds_variable in Hout as (vo & Lo & -> & _). by destruct t.
Qed.
End handle.
End reads.

(** ** The promise of the partial decoder *)

Section promise.
Context {I X : Type} `{LI : LawfulArrayToBytesCodec I, LX : LawfulArrayToBytesCodec X} `{T : Target} `{RT : LawfulRunTime}.
Context (self : ShardingCodecBound I X) (sh : list Z) (Hwf : sharding_wf self) (Hsh : sharding_shape_ok self sh).

#[local] Abbreviation dt := (sharding_data_type self).
#[local] Abbreviation fv := (sharding_fill_value self).
#[local] Abbreviation ss := (subchunk_shape self).

(** The index is read when the decoder is made. *)
Lemma read_index_ok h key v w options : handle_reads 0 h key v w →
  (∀ enc, w = Some enc → ∃ idx, indexed self sh enc idx) →
  ∃ oidx, runs_at (decode_shard_index_partial_decoder h (index_codecs self) (index_location self) sh ss options) v (Ok oidx) v ∧
    match w, oidx with Some enc, Some idx => indexed self sh enc idx | None, None => True | _, _ => False end.
Proof.
  intros [_ Hr] Hw. unfold decode_shard_index_partial_decoder, get_index_byte_range. destruct (chunks_ok self sh Hsh) as (Hcps & _).
  rewrite Hcps. prog. rewrite (index_size_ok self sh Hsh). prog.
  pose proof (isize_nonneg self sh Hwf Hsh) as Hi. set (range := match index_location self with IndexStart => _ | IndexEnd => _ end).
  assert (runs_at (bytes_partial_decode h range) v (Ok ((λ enc, range_bytes enc range) <$> w)) v) as Hrun.
  { unfold bytes_partial_decode. eapply runs_at_bind.
    - apply Hr; [by subst range; destruct (index_location self); repeat constructor|]. intros enc Henc. destruct (Hw enc Henc) as [idx Hidx].
      pose proof (ix_size _ _ _ _ Hidx). subst range. split; [unfold u64_modulus; lia|]. unfold u64_modulus.
      destruct (index_location self); split; repeat constructor; cbn; unfold is_u64, u64_modulus; lia.
    - by destruct w. }
  destruct w as [enc|].
  - destruct (Hw enc eq_refl) as [idx Hidx]. exists (Some idx). split; [|done]. eapply runs_at_bind; [exact Hrun|]. cbn [fmap option_fmap option_map]. prog.
    assert (range_bytes enc range = index_part (index_location self) (index_size self sh) enc) as ->.
    { pose proof (ix_size _ _ _ _ Hidx). subst range. destruct (index_location self); cbn [range_bytes index_part]; [done|]. unfold part.
      rewrite firstn_all2 by (rewrite length_drop; lia). f_equal. lia. }
    by rewrite (index_part_decodes self sh Hwf Hsh enc idx Hidx).
  - exists None. split; [|done]. by eapply runs_at_bind.
Qed.

Lemma sharding_partial_ok h key v w b V options : handle_reads 0 h key v w → content_of (shard_encodes self sh) dt fv sh w b V →
  ∃ ah, runs_at (sharding_partial_decoder self h sh options) v (Ok ah) v ∧ array_reads ah v dt sh V (array_bytes_size b).
Proof.
  intros Hread (Hb & HV & Hp & Hw). destruct (read_index_ok h key v w options Hread) as (oidx & Hrun & Hoidx).
  { intros enc ->. destruct Hw as (_ & _ & idx & Hidx & _). by exists idx. }
  set (pd := {| pd_input_handle := h; pd_shard_shape := sh; pd_subchunk_shape := ss; pd_inner_codecs := inner_codecs self; pd_shard_index := oidx |}).
  exists (partial_decoder_handle pd options). split; [unfold sharding_partial_decoder, partial_decoder_new; eapply runs_at_bind; [eapply runs_at_bind; [exact Hrun|done]|done]|].
  assert (∀ sub, region_ok sub sh → reads_fixed self sh V pd v sub options ∧ reads_variable self sh V pd v sub options) as Hreads.
  { intros sub Hsub. destruct w as [enc|], oidx as [idx|]; try done.
    - destruct Hw as (_ & _ & idx' & Hidx' & Hcontent). assert (idx' = idx) as ->.
      { pose proof (index_part_decodes self sh Hwf Hsh enc idx' Hidx' options) as H1. pose proof (index_part_decodes self sh Hwf Hsh enc idx Hoidx options) as H2. congruence. }
      split.
      + intros d L msh O hm view Hdt HVL HL HO Hshape Hmsh Hview Hh. by eapply partial_fixed_into_ok.
      + intros L Hdt HVL HLc. by eapply partial_variable_ok.
    - destruct Hw as [_ Hfill]. split.
      + intros d L msh O hm view Hdt HVL HL HO Hshape Hmsh Hview Hh. by eapply missing_fixed_ok.
      + intros L Hdt HVL HLc. by eapply missing_variable_ok. }
  intros sub Hsub. destruct (Hreads sub Hsub) as [Hf Hv].
  destruct (sharding_partial_decode_ok self sh Hwf Hsh V HV b Hb Hp pd v options eq_refl eq_refl sub Hsub Hf Hv) as (out & Hpd & Hout & Hsize).
  exists out. split_and!; [done..|]. intros t t' Hfits Ht.
  by eapply (sharding_partial_decode_into_ok self sh Hwf Hsh V HV b Hb pd v options eq_refl eq_refl sub Hsub Hf).
Qed.
End promise.

(** ** Reading touches the shard only *)

Section confined.
Context {I X : Type} `{LI : LawfulArrayToBytesCodec I, LX : LawfulArrayToBytesCodec X} `{T : Target}.

Definition handle_confined (key : StoreKey) (h : BytesHandle) : Prop := ∀ rs, confined key (bytes_partial_decode_many h rs).

Lemma bytes_partial_decode_confined key h r : handle_confined key h → confined key (bytes_partial_decode h r).
Proof. intros Hc. apply confined_bind; [apply Hc|]. intros [l|]; [|done]. by destruct (last l). Qed.

Lemma plift_confined {E A} key (x : outcome E A) : confined key (plift x).
Proof. by destruct x. Qed.

Lemma try_fold_confined {E A B} key (step : B → A → prog E B) b l : (∀ b a, confined key (step b a)) → confined key (try_fold step b l).
Proof. intros Hs. revert b. induction l as [|a l IH]; intros b; [done|]. cbn [try_fold]. apply confined_bind; [apply Hs|]. intros b'. apply IH. Qed.

Lemma try_map_confined {E A B} key (f : A → prog E B) l : (∀ a, confined key (f a)) → confined key (try_map f l).
Proof.
  intros Hf. induction l as [|a l IH]; [done|]. cbn [try_map]. apply confined_bind; [apply Hf|]. intros b. apply confined_bind; [apply IH|]. done.
Qed.

Context (key : StoreKey) (pd : ShardingPartialDecoder I) (Hpd : handle_confined key (pd_input_handle pd)).

Lemma subchunk_decoder_confines options o s : confines key (get_subchunk_partial_decoder pd options o s) (array_confined key).
Proof.
  unfold get_subchunk_partial_decoder. pose proof (a2b_partial_confined (pd_inner_codecs pd) (pd_subchunk_shape pd) options
    (byte_interval_handle (pd_input_handle pd) o s) key ltac:(intros rs; apply Hpd)) as H. revert H.
  induction (a2b_partial_decoder _ _ _ _) as [x|Y c on_err k IH].
  - by destruct x.
  - intros [Hk Hc]. split; [done|]. intros a. apply IH, Hc.
Qed.

#[local] Ltac step := apply confined_bind; [apply plift_confined|]; intros ?.

Lemma into_slice_confined idx cps grid sub options view memory c :
  confined key (decode_subchunk_subset_into_slice pd idx cps grid sub options view memory c).
Proof.
  unfold decode_subchunk_subset_into_slice. apply confined_bind; [apply plift_confined|]. intros [o s].
  apply confined_bind; [apply plift_confined|]. intros [cs co]. do 3 step. destruct (_ && _); [apply plift_confined|].
  eapply confines_then; [apply subchunk_decoder_confines|]. intros ah Hah. step. apply confined_bind; [apply Hah|]. done.
Qed.

Lemma subset_confined idx cps grid sub options c : confined key (decode_subchunk_subset pd idx cps grid sub options c).
Proof.
  unfold decode_subchunk_subset. apply confined_bind; [apply plift_confined|]. intros [o s].
  apply confined_bind; [apply plift_confined|]. intros [cs co]. apply confined_bind.
  - destruct (_ && _); [apply plift_confined|]. eapply confines_then; [apply subchunk_decoder_confines|]. intros ah Hah. step. apply Hah.
  - intros b. do 2 step. done.
Qed.

Lemma fixed_into_confined sub options view memory : confined key (partial_decode_fixed_array_subset_into pd sub options view memory).
Proof.
  unfold partial_decode_fixed_array_subset_into. destruct (negb _); [done|]. destruct (pd_shard_index pd) as [idx|]; [|apply plift_confined].
  step. apply confined_bind; [apply plift_confined|]. intros [l o]. do 2 step. apply try_fold_confined. intros. apply into_slice_confined.
Qed.

Lemma sharding_partial_decode_confined options sub : confined key (sharding_partial_decode pd options sub).
Proof.
  unfold sharding_partial_decode. destruct (negb _); [done|]. destruct (is_optional _); [done|]. destruct (data_type_size _).
  - step. apply confined_bind; [apply fixed_into_confined|]. done.
  - unfold partial_decode_variable_array_subset. destruct (pd_shard_index pd) as [idx|]; [|apply plift_confined].
    step. apply confined_bind; [apply plift_confined|]. intros [l o]. do 2 step. apply confined_bind; [apply try_map_confined; intros; apply subset_confined|].
    intros parts. step. done.
Qed.

Lemma partial_decoder_handle_confined options : array_confined key (partial_decoder_handle pd options).
Proof.
  intros sub. split; [apply sharding_partial_decode_confined|]. intros t. cbn [partial_decode_into partial_decoder_handle].
  unfold sharding_partial_decode_into. destruct (negb _); [done|]. destruct (data_type_size _), t;
    (apply confined_bind; [apply fixed_into_confined || apply sharding_partial_decode_confined|]; intros ?; apply plift_confined || done).
Qed.
End confined.

Lemma sharding_partial_confines {I X : Type} `{LI : LawfulArrayToBytesCodec I, LX : LawfulArrayToBytesCodec X} `{T : Target} `{RT : RunTime}
    (self : ShardingCodecBound I X) sh options h key :
  handle_confined key h → confines key (sharding_partial_decoder self h sh options) (array_confined key).
Proof.
  intros Hh. unfold sharding_partial_decoder. eapply (confines_bind _ _ _ (λ pd, handle_confined key (pd_input_handle pd))).
  - unfold partial_decoder_new. eapply (confines_bind _ _ _ (λ _, True)).
    + apply confined_confines. unfold decode_shard_index_partial_decoder. apply confined_bind; [apply plift_confined|]. intros cps.
      apply confined_bind; [apply plift_confined|]. intros r. apply confined_bind; [by apply bytes_partial_decode_confined|]. intros [e|]; [|done].
      apply confined_bind; [apply plift_confined|]. done.
    + intros oidx _. exact Hh.
  - intros pd Hpd. apply partial_decoder_handle_confined. exact Hpd.
Qed.
