(* ===== verification/ShardingEncoder.v ===== *)
(** Updating part of a shard: [sharding/sharding_partial_encoder.rs], and the sharding codec as an
    array to bytes codec.

    The partial encoder reads the subchunks that straddle the border of the region, updates the subchunks that
    the region meets, and appends those that are not the fill value to the shard, with a new index.  Bytes of
    the shard that the index no longer points to stay until the shard is compacted. *)

From stdpp Require Import sorting.
From S2P Require Import Prelude ArraySubset Linear Iterators ChunkGrid RegularGrid ByteRange StoreKey Storage ArrayBytes.
From S2P Require Import Elements StoreProgram DecodeInto Concurrency Codec BytesCodec Sharding ShardingPartial.

#[export] Instance array_bytes_inhabited : Inhabited ArrayBytes := populate (FixedBytes []).

Section encoder.
Context {I X : Type} `{!ArrayToBytesCodecTraits I, !ArrayToBytesCodecTraits X} `{Target} `{!RunTime}.

Record ShardingPartialEncoder := {
  pe_input_output_handle : BytesEncodeHandle;
  pe_shard_shape : list Z;
  pe_subchunk_shape : list Z;
  pe_chunk_grid : RegularChunkGrid;
  pe_inner_codecs : I;
  pe_index_codecs : X;
  pe_index_location : ShardingIndexLocation;
  pe_index_shape : list Z;
  pe_shard_index : list Z;
}.

Definition partial_encoder_new (input_output_handle : BytesEncodeHandle) (shard_shape subchunk_shape : list Z) (inner_codecs : I) (index_codecs : X)
    (index_location : ShardingIndexLocation) (options : CodecOptions) : prog CodecError ShardingPartialEncoder :=
  let* chunks_per_shard := plift (calculate_chunks_per_shard shard_shape subchunk_shape) in
  let index_shape := sharding_index_shape chunks_per_shard in
  let* shard_index := decode_shard_index_partial_decoder input_output_handle index_codecs index_location shard_shape subchunk_shape options in
  let shard_index := default (replicate (Z.to_nat (product64 chunks_per_shard *w 2)) u64_max) shard_index in
  let* chunk_grid := plift (map_err (λ _, CodecOther) (RegularChunkGrid_new shard_shape subchunk_shape)) in
  preturn {| pe_input_output_handle := input_output_handle; pe_shard_shape := shard_shape; pe_subchunk_shape := subchunk_shape;
             pe_chunk_grid := chunk_grid; pe_inner_codecs := inner_codecs; pe_index_codecs := index_codecs;
             pe_index_location := index_location; pe_index_shape := index_shape; pe_shard_index := shard_index |}.

(** Reading uses the index of the encoder. *)
Definition encoder_as_decoder (self : ShardingPartialEncoder) : ShardingPartialDecoder I := {|
  pd_input_handle := pe_input_output_handle self;
  pd_shard_shape := pe_shard_shape self;
  pd_subchunk_shape := pe_subchunk_shape self;
  pd_inner_codecs := pe_inner_codecs self;
  pd_shard_index := Some (pe_shard_index self) |}.

(** [max] over the entries; [None] when there are none. *)
Definition max_data_end (shard_index : list Z) : option Z :=
  match (λ entry : Z * Z, if (entry.1 =? u64_max) && (entry.2 =? u64_max) then 0 else entry.1 +w entry.2) <$> as_pairs shard_index with
  | [] => None
  | e :: l => Some (foldl Z.max e l)
  end.

(** A subchunk, its number, and whether it sticks out of the region. *)
Definition subchunk_number (chunks_per_shard subchunk_indices : list Z) : outcome CodecError Z :=
  expect (ravel_indices subchunk_indices chunks_per_shard).

Definition inner_subchunk (self : ShardingPartialEncoder) (subchunk_indices : list Z) : outcome CodecError ArraySubset :=
  let? subset := unwrap (chunk_subset (pe_chunk_grid self) subchunk_indices) in expect subset.

Definition straddles (subchunk_subset chunk_subset : ArraySubset) : bool :=
  existsb id (zip_with Z.ltb (start subchunk_subset) (start chunk_subset)) ||
  existsb id (zip_with (λ a b, b <? a) (end_exc subchunk_subset) (end_exc chunk_subset)).

Definition straddling_number (self : ShardingPartialEncoder) (chunks_per_shard : list Z) (chunk_subset : ArraySubset) (subchunk_indices : list Z)
    : outcome CodecError (option Z) :=
  let? subchunk_subset := inner_subchunk self subchunk_indices in
  if straddles subchunk_subset chunk_subset then let? k := subchunk_number chunks_per_shard subchunk_indices in Ok (Some k)
  else Ok None.

(** The entries of the subchunks that are stored, sorted by their byte range. *)
Definition entry_of (shard_index : list Z) (k : Z) : outcome CodecError (Z * Z) :=
  let? offset := index shard_index (k *w 2) in
  let? size := index shard_index (k *w 2 +w 1) in
  Ok (offset, size).

Definition range_le (a b : Z * (Z * Z)) : Prop := a.2.1 < b.2.1 ∨ a.2.1 = b.2.1 ∧ a.2.2 <= b.2.2.

#[export] Instance range_le_dec : RelDecision range_le.
Proof. intros a b. unfold range_le. apply _. Defined.

Definition stored_entries (shard_index : list Z) (numbers : list Z) : outcome CodecError (list (Z * (Z * Z))) :=
  let? entries := collect_res ((λ k, let? e := entry_of shard_index k in Ok (k, e)) <$> numbers) in
  Ok (merge_sort range_le (filter (λ e, negb ((e.2.1 =? u64_max) && (e.2.2 =? u64_max)) = true) entries)).

(** The straddling subchunks that are stored, decoded. *)
Definition read_straddling (self : ShardingPartialEncoder) (options : CodecOptions) (numbers : gset Z) : prog CodecError (gmap Z ArrayBytes) :=
  let* entries := plift (stored_entries (pe_shard_index self) (scheduled (base.elements numbers))) in
  let byte_ranges := (λ e : Z * (Z * Z), FromStart e.2.1 (Some e.2.2)) <$> entries in
  let* subchunks_encoded := bytes_partial_decode_many (pe_input_output_handle self) byte_ranges in
  match subchunks_encoded with
  | Some subchunks_encoded =>
      let* decoded := plift (collect_res (zip_with (λ (e : Z * (Z * Z)) subchunk_encoded,
        let? d := a2b_decode (pe_inner_codecs self) subchunk_encoded (pe_subchunk_shape self) options in Ok (e.1, d)) entries subchunks_encoded)) in
      preturn (list_to_map decoded)
  | None => preturn ∅
  end.

(** A subchunk with the part of it in the region updated. *)
Definition update_subchunk (self : ShardingPartialEncoder) (chunks_per_shard : list Z) (chunk_subset : ArraySubset) (chunk_subset_bytes : ArrayBytes)
    (subchunks_decoded : gmap Z ArrayBytes) (subchunk_indices : list Z) : outcome CodecError (gmap Z ArrayBytes) :=
  let data_type := a2b_data_type (pe_inner_codecs self) in
  let? subchunk_index := subchunk_number chunks_per_shard subchunk_indices in
  let? subchunk_subset := inner_subchunk self subchunk_indices in
  let? subchunk_subset_overlap := unwrap (overlap chunk_subset subchunk_subset) in
  let? in_region := unwrap (relative_to subchunk_subset_overlap (start chunk_subset)) in
  let? subchunk_bytes := extract_array_subset chunk_subset_bytes in_region (shape chunk_subset) data_type in
  let? subchunk_decoded :=
    match subchunks_decoded !! subchunk_index with
    | Some subchunk_decoded => Ok subchunk_decoded
    | None => new_fill_value data_type (product64 (pe_subchunk_shape self)) (a2b_fill_value (pe_inner_codecs self))
    end in
  let? in_subchunk := unwrap (relative_to subchunk_subset_overlap (start subchunk_subset)) in
  let? subchunk_updated := update_array_bytes subchunk_decoded (pe_subchunk_shape self) in_subchunk subchunk_bytes (data_type_size data_type) in
  Ok (<[subchunk_index := subchunk_updated]> subchunks_decoded).

(** [None] for a subchunk that has become the fill value. *)
Definition encode_updated (self : ShardingPartialEncoder) (options : CodecOptions) (subchunk : Z * ArrayBytes) : outcome CodecError (Z * option bytes) :=
  if is_fill_value subchunk.2 (a2b_fill_value (pe_inner_codecs self)) then Ok (subchunk.1, None)
  else
    let? subchunk_encoded := a2b_encode (pe_inner_codecs self) subchunk.2 (pe_subchunk_shape self) options in
    Ok (subchunk.1, Some subchunk_encoded).

(** The new entries, for subchunks that are appended from an offset. *)
Definition append_entry (state : list Z * Z) (subchunk : Z * option bytes) : outcome CodecError (list Z * Z) :=
  let (shard_index, offset_append) := state in
  match subchunk.2 with
  | Some subchunk_encoded =>
      let? shard_index := set_entry shard_index subchunk.1 offset_append (zlen subchunk_encoded) in
      Ok (shard_index, offset_append +w zlen subchunk_encoded)
  | None => let? shard_index := set_entry shard_index subchunk.1 u64_max u64_max in Ok (shard_index, offset_append)
  end.

Definition index_is_empty (shard_index : list Z) : bool := forallb (Z.eqb u64_max) shard_index.

(** The subchunks and the index are appended, or the shard is erased. *)
Definition write_updated (self : ShardingPartialEncoder) (options : CodecOptions) (max_data_offset : Z) (shard_index : list Z)
    (updated_subchunks : list (Z * option bytes)) : prog CodecError (list Z) :=
  let* index_encoded_size := plift (compute_index_encoded_size (pe_index_codecs self) (pe_index_shape self)) in
  let offset_new_chunks := match pe_index_location self with IndexStart => Z.max max_data_offset index_encoded_size | IndexEnd => max_data_offset end in
  let* (shard_index, _) := plift (fold_outcome append_entry (shard_index, offset_new_chunks) updated_subchunks) in
  if index_is_empty shard_index
  then let* _ := bytes_erase (pe_input_output_handle self) in preturn shard_index
  else
    let* encoded_array_index := plift (a2b_encode (pe_index_codecs self) (FixedBytes (index_to_bytes shard_index)) (pe_index_shape self) options) in
    let encoded_output := concat (omap snd updated_subchunks) in
    let* _ :=
      match pe_index_location self with
      | IndexStart => bytes_partial_encode_many (pe_input_output_handle self) [(0, encoded_array_index); (offset_new_chunks, encoded_output)]
      | IndexEnd => bytes_partial_encode_many (pe_input_output_handle self) [(offset_new_chunks, encoded_output ++ encoded_array_index)]
      end in
    preturn shard_index.

(** [partial_encode] with an array subset.  It gives the new index of the encoder. *)
Definition sharding_partial_encode (self : ShardingPartialEncoder) (options : CodecOptions) (chunk_subset : ArraySubset)
    (chunk_subset_bytes : ArrayBytes) : prog CodecError (list Z) :=
  let* chunks_per_shard := plift (calculate_chunks_per_shard (pe_shard_shape self) (pe_subchunk_shape self)) in
  let* max_data_offset := plift (expect (max_data_end (pe_shard_index self))) in
  if existsb id (zip_with (λ a b, b <? a) (end_exc chunk_subset) (pe_shard_shape self))
  then Done (Err (IncompatibleIndexer (OutOfBounds (end_exc chunk_subset) (pe_shard_shape self))))
  else
    let* subchunks := plift (subchunks_met (pe_chunk_grid self) chunk_subset) in
    let* subchunks_intersected := plift (collect_res (subchunk_number chunks_per_shard <$> subchunks)) in
    let* straddling := plift (collect_res (straddling_number self chunks_per_shard chunk_subset <$> subchunks)) in
    let* subchunks_decoded := read_straddling self options (list_to_set (omap id straddling)) in
    let* subchunks_decoded := plift (fold_outcome (update_subchunk self chunks_per_shard chunk_subset chunk_subset_bytes) subchunks_decoded subchunks) in
    let* updated_subchunks := plift (collect_res (encode_updated self options <$> scheduled (map_to_list subchunks_decoded))) in
    let* shard_index := plift (fold_outcome (λ shard_index k, set_entry shard_index k u64_max u64_max) (pe_shard_index self) subchunks_intersected) in
    if index_is_empty shard_index
    then let* _ := bytes_erase (pe_input_output_handle self) in write_updated self options 0 shard_index updated_subchunks
    else write_updated self options max_data_offset shard_index updated_subchunks.

(** The encoder as a handle: the library makes an encoder for each update, so an update starts from the
    index that is read when the encoder is made. *)
Definition partial_encoder_handle (self : ShardingPartialEncoder) (options : CodecOptions) : ArrayEncodeHandle := {|
  array_decoder := {|
    partial_decode := sharding_partial_decode (encoder_as_decoder self) options;
    partial_decode_into := default_partial_decode_into (sharding_partial_decode (encoder_as_decoder self) options) |};
  array_erase := bytes_erase (pe_input_output_handle self);
  partial_encode := λ indexer b, let* _ := sharding_partial_encode self options indexer b in preturn tt |}.

(** [ShardingCodecBound::partial_encoder]. *)
Definition sharding_partial_encoder (self : ShardingCodecBound I X) (input_output_handle : BytesEncodeHandle) (shape : list Z) (options : CodecOptions)
    : prog CodecError ArrayEncodeHandle :=
  let* encoder := partial_encoder_new input_output_handle shape (subchunk_shape self) (inner_codecs self) (index_codecs self) (index_location self) options in
  preturn (partial_encoder_handle encoder options).

(** ** The codec *)

#[export] Instance sharding_codec : ArrayToBytesCodecTraits (ShardingCodecBound I X) := {|
  a2b_data_type := sharding_data_type;
  a2b_fill_value := sharding_fill_value;
  a2b_recommended_concurrency := sharding_recommended_concurrency;
  a2b_partial_decoder_capability := λ _, {| partial_read := true; can_partial_decode := true |};
  a2b_partial_encode_capability := λ _, true;
  a2b_encoded_representation := sharding_encoded_representation;
  a2b_encode := sharding_encode;
  a2b_decode := sharding_decode;
  a2b_compact := sharding_compact;
  a2b_decode_into := sharding_decode_into;
  a2b_partial_decoder := sharding_partial_decoder;
  a2b_partial_encoder := sharding_partial_encoder |}.
End encoder.
