(* ===== verification/ShardingBind.v ===== *)
(** The sharding codec as an array to bytes codec, bound and unbound.

    It keeps the promises of an array to bytes codec: every theorem on arrays, and on chains of codecs, applies to arrays of
    shards, and to shards of shards.  Before it is bound: [ShardingCodec] ([sharding/sharding_codec.rs]), its options and its
    builder ([sharding/sharding_codec_builder.rs]).  Codecs are values of any types that stand for the trait objects of the
    code; the codecs that the builder starts from are parameters. *)

From S2P Require Import Prelude ArraySubset Linear Iterators ChunkGrid RegularGrid ByteRange StoreKey Storage ArrayBytes Elements.
From S2P Require Import Regions StoreProgram DecodeInto GridRegions Concurrency Codec BytesCodec BytesToBytes Checksums ArrayToArray.
From S2P Require Import CodecChain CodecChainSpec ChainTheorems Sharding ShardPlacement ShardEncode ShardSpec ShardingPartial.
From S2P Require Import ShardPartialSpec ShardReads ShardingEncoder.

Section laws.
Context {I X : Type} `{LI : LawfulArrayToBytesCodec I, LX : LawfulArrayToBytesCodec X} `{T : Target} `{RT : LawfulRunTime}.

Lemma sharding_shape_law (self : ShardingCodecBound I X) sh : sharding_wf self → sharding_shape_ok self sh →
  chunk_shape_ok sh ∧ a2b_limit (inner_codecs self) (subchunk_shape self) <= 2 ^ 63 ∧
  Zprod (shard_chunks self sh) * subchunk_limit self + index_size self sh < u64_modulus ∧
  Zprod sh * Z.max 1 (zlen (base_fill (sharding_data_type self) (sharding_fill_value self))) < a2b_limit (inner_codecs self) (subchunk_shape self).
Proof.
  intros Hwf Hsh. destruct (a2b_shape_law _ _ (sw_inner _ Hwf) (ss_inner _ _ Hsh)) as (_ & Hl & _). split; [apply Hsh|]. split; [done|].
  split; [|apply Hsh]. pose proof (ss_limit _ _ Hsh). unfold u64_modulus. lia.
Qed.

(** The representation admits what is encoded. *)
Lemma sharding_representation_ok (self : ShardingCodecBound I X) sh size : sharding_wf self → sharding_shape_ok self sh → 0 <= size →
  size <= Zprod (shard_chunks self sh) * subchunk_limit self + index_size self sh →
  ∃ rep, sharding_encoded_representation self sh = Ok rep ∧ rep_admits rep size.
Proof.
  intros Hwf Hsh H0 Hsize. pose proof (ss_representation _ _ Hsh) as Hrep. unfold sharding_encoded_representation.
  destruct (chunks_ok self sh Hsh) as (Hcps & Hnum & Hn & _). pose proof (ss_limit _ _ Hsh) as [Hl0 _]. pose proof (isize_nonneg self sh Hwf Hsh) as Hi.
  destruct (a2b_encoded_representation (inner_codecs self) sh) as [rep| |]; [|done..]. cbn [obind].
  destruct rep as [s|s|]; [| |by eexists]; destruct (Hrep s eq_refl) as [Hs Hb]; rewrite Hcps; cbn [obind]; rewrite (index_size_ok self sh Hsh); cbn [obind];
    (assert (Zprod (shard_chunks self sh) * subchunk_limit self <= Zprod (shard_chunks self sh) * s) by (apply Z.mul_le_mono_nonneg_l; lia);
     assert (0 <= Zprod (shard_chunks self sh) * subchunk_limit self) by (apply Z.mul_nonneg_nonneg; lia);
     eexists; split; [done|]; cbn [rep_admits]; unfold encoded_shard_bounded_size; rewrite Hnum, (wrap64_small (_ * s)) by (unfold_u64; lia); rewrite wrap64_small by (unfold_u64; lia); lia).
Qed.

#[export] Program Instance sharding_lawful : LawfulArrayToBytesCodec (ShardingCodecBound I X) := {|
  a2b_wf := sharding_wf;
  a2b_shape_ok := sharding_shape_ok;
  a2b_limit := λ self _, a2b_limit (inner_codecs self) (subchunk_shape self);
  a2b_encoded_limit := λ self sh, Zprod (shard_chunks self sh) * subchunk_limit self + index_size self sh;
  a2b_offset_limit := λ _, 0;
  a2b_encodes := shard_encodes;
|}.
Next Obligation. intros self Hwf. exact (a2b_fill_law _ (sw_inner _ Hwf)). Qed.
Next Obligation. intros self Hwf. cbv beta. lia. Qed.
Next Obligation. intros self sh Hwf Hsh. by apply sharding_shape_law. Qed.
Next Obligation.
  intros self sh Hwf Hsh. cbn. unfold sharding_recommended_concurrency. destruct (chunks_ok self sh Hsh) as (-> & _). by eexists.
Qed.
Next Obligation. intros self sh options enc b V Hwf Hsh Henc Hlen Hb HV. exact (sharding_decode_ok self sh Hwf Hsh enc b V Henc Hb HV options). Qed.
Next Obligation.
  intros self sh options b V Hwf Hsh Hb HV Hsize. cbv beta in *. destruct (plain_type self Hwf) as [size Hdt].
  change (holds b (sharding_data_type self) V) in Hb. pose proof Hb as Hb0. rewrite Hdt in Hb0. destruct (packed_bytes b size V Hb0) as (b' & Hb' & Hp & Hs).
  destruct (sharding_encode_ok self sh Hwf Hsh b V Hb HV Hsize options b' Hp) as (enc & Henc & Hlen & Hencodes).
  destruct (sharding_representation_ok self sh (zlen enc) Hwf Hsh ltac:(lia) Hlen) as (rep & Hrep & Hadm).
  exists enc, b', rep. split_and!; [done..| |done|done]. cbn. by rewrite Hdt.
Qed.
Next Obligation.
  intros self sh options enc b V t t' Hwf Hsh (Hb & HV & _ & _ & Henc) Hfits Ht.
  exact (sharding_decode_into_ok self sh Hwf Hsh enc b V Henc Hb HV options t t' Hfits Ht).
Qed.
Next Obligation.
  intros self sh options h key v w b V Hwf Hsh Hread Hc. exact (sharding_partial_ok self sh Hwf Hsh h key v w b V options Hread Hc).
Qed.
Next Obligation. intros self sh options h key Hh. by apply sharding_partial_confines. Qed.
End laws.

(** ** Options *)

Definition ShardingCodecOptions_default : ShardingCodecOptions := mk_sharding_options OrderUnordered.

Section unbound.
Context {UA A UC C B : Type} `{!ArrayToArrayCodecTraits A, !ArrayToBytesCodecTraits C, !BytesToBytesCodecTraits B}.
Context `{!UnboundArrayToArrayCodecTraits UA A, !UnboundArrayToBytesCodecTraits UC C}.

Record ShardingCodec := mk_sharding_codec {
  us_subchunk_shape : list Z;
  us_inner_codecs : CodecChain UA UC B;
  us_index_codecs : CodecChain UA UC B;
  us_index_location : ShardingIndexLocation;
  us_options : ShardingCodecOptions;
}.

Definition ShardingCodec_new (subchunk_shape : list Z) (inner_codecs index_codecs : CodecChain UA UC B) (index_location : ShardingIndexLocation) : ShardingCodec :=
  mk_sharding_codec subchunk_shape inner_codecs index_codecs index_location ShardingCodecOptions_default.

Definition with_options (self : ShardingCodec) (options : ShardingCodecOptions) : ShardingCodec :=
  mk_sharding_codec (us_subchunk_shape self) (us_inner_codecs self) (us_index_codecs self) (us_index_location self) options.

Definition with_subchunk_write_order (self : ShardingCodec) (order : SubchunkWriteOrder) : ShardingCodec :=
  with_options self (mk_sharding_options order).

(** [uint64], and [FillValue::from(u64::MAX)]. *)
Definition index_data_type : DataType := PlainType (FixedSize 8).
Definition index_fill_value : FillValue := replicate 8 255.

Definition sharding_with_context (self : ShardingCodec) (data_type : DataType) (fill_value : FillValue)
    : outcome CodecError (ShardingCodecBound (CodecChainBound A C B) (CodecChainBound A C B)) :=
  let? inner_codecs := with_context (us_inner_codecs self) data_type fill_value in
  let? index_codecs := with_context (us_index_codecs self) index_data_type index_fill_value in
  Ok (mk_sharding (us_subchunk_shape self) inner_codecs index_codecs (us_index_location self) (us_options self)).

#[export] Instance sharding_unbound : UnboundArrayToBytesCodecTraits ShardingCodec (ShardingCodecBound (CodecChainBound A C B) (CodecChainBound A C B)) := {|
  uc_partial_decoder_capability _ := {| partial_read := true; can_partial_decode := true |};
  uc_with_context := sharding_with_context |}.

(** ** The builder *)

Record ShardingCodecBuilder := mk_builder {
  sb_subchunk_shape : list Z;
  sb_index_array_to_bytes_codec : UC;
  sb_index_bytes_to_bytes_codecs : list B;
  sb_array_to_array_codecs : list UA;
  sb_array_to_bytes_codec : UC;
  sb_bytes_to_bytes_codecs : list B;
  sb_index_location : ShardingIndexLocation;
}.

(** [BytesCodec::default()], [Crc32cCodec::new()] and [default_array_to_bytes_codec]. *)
Context (default_bytes_codec : UC) (default_checksum : B) (default_array_to_bytes_codec : DataType → UC).

Definition ShardingCodecBuilder_new (subchunk_shape : list Z) (data_type : DataType) : ShardingCodecBuilder := {|
  sb_subchunk_shape := subchunk_shape;
  sb_index_array_to_bytes_codec := default_bytes_codec;
  sb_index_bytes_to_bytes_codecs := [default_checksum];
  sb_array_to_array_codecs := [];
  sb_array_to_bytes_codec := default_array_to_bytes_codec data_type;
  sb_bytes_to_bytes_codecs := [];
  sb_index_location := IndexEnd |}.

Definition sharding_build (self : ShardingCodecBuilder) : ShardingCodec :=
  ShardingCodec_new (sb_subchunk_shape self)
    (mk_unbound_chain (sb_array_to_array_codecs self) (sb_array_to_bytes_codec self) (sb_bytes_to_bytes_codecs self))
    (mk_unbound_chain [] (sb_index_array_to_bytes_codec self) (sb_index_bytes_to_bytes_codecs self))
    (sb_index_location self).
End unbound.
#[global] Arguments ShardingCodec : clear implicits.
#[global] Arguments ShardingCodecBuilder : clear implicits.

(** ** Binding *)

Section binding.
Context {UA A UC C B : Type} `{LA : LawfulArrayToArrayCodec A, LC : LawfulArrayToBytesCodec C, LB : LawfulBytesToBytesCodec B}.
Context `{!UnboundArrayToArrayCodecTraits UA A, !UnboundArrayToBytesCodecTraits UC C}.
Context `{LUA : !LawfulUnboundArrayToArrayCodec UA A, LUC : !LawfulUnboundArrayToBytesCodec UC C}.
Context `{T : Target} `{RT : RunTime}.

(** Binding the sharding codec to a data type that is not optional, with a fill value that array bytes are compared with exactly, gives a lawful
    codec of this data type and fill value, whose index is an array of 64-bit integers, when no codec of the subchunks reads from an offset to the end. *)
Theorem sharding_with_context_wf (self : ShardingCodec UA UC B) dt fv (c : ShardingCodecBound (CodecChainBound A C B) (CodecChainBound A C B)) :
  fill_ok dt fv → fill_exact dt fv → is_optional dt = false → chain_binds (us_inner_codecs self) → chain_binds (us_index_codecs self) →
  sharding_with_context self dt fv = Ok c → a2b_offset_limit (inner_codecs c) = 0 →
  sharding_wf c ∧ sharding_data_type c = dt ∧ sharding_fill_value c = fv ∧ subchunk_shape c = us_subchunk_shape self ∧
  index_location c = us_index_location self ∧ sharding_options c = us_options self.
Proof.
  intros Hf Hex Hopt Hi Hx Hc Hoff. unfold sharding_with_context in Hc.
  destruct (with_context (us_inner_codecs self) dt fv) as [inner| |] eqn:Hin; [|done..]. cbn [obind] in Hc.
  destruct (with_context (us_index_codecs self) _ _) as [idx| |] eqn:Hidx; [|done..]. cbn [obind] in Hc. injection Hc as <-.
  destruct (with_context_lawful _ _ _ _ Hf Hi Hin) as (Hwi & Hdi & Hfi).
  destruct (with_context_lawful _ _ _ _ (ltac:(done) : fill_ok index_data_type index_fill_value) Hx Hidx) as (Hwx & Hdx & _).
  split_and!; [|exact Hdi|exact Hfi|done..]. constructor; [exact Hwi|exact Hwx|exact Hdx| | |exact Hoff]; unfold sharding_data_type, sharding_fill_value;
    change (a2b_data_type (inner_codecs _)) with (chain_data_type inner); change (a2b_fill_value (inner_codecs _)) with (chain_fill_value inner); rewrite Hdi; [done|by rewrite Hfi].
Qed.
End binding.

(** ** A small sharding codec, for the witness *)
#[local] Instance bind_target : Target := Little.
#[local] Instance bind_crates : ChecksumCrates := {| crc32c := Zsum; adler32 := Zsum |}.
#[local] Instance bind_types : BytesDataTypes := λ dt,
  match dt with PlainType (FixedSize 2) => Some 2 | PlainType (FixedSize 8) => Some 8 | _ => None end.
#[local] Instance bind_types_lawful : LawfulBytesDataTypes.
Proof. intros dt n Hn. unfold codec_bytes, bind_types in Hn. repeat case_match; simplify_eq; by eexists. Qed.

(** The default builder for 16-bit elements, with no checksum of the subchunks. *)
Definition built_codec : ShardingCodec SqueezeCodec BytesCodec ChecksumCodec :=
  sharding_build (ShardingCodecBuilder_new {| u_endian := Some Little |} (Crc32cCodec LocationEnd) (λ _, {| u_endian := Some Little |}) [2; 2] (PlainType (FixedSize 2))).

Definition bound_codec : ShardingCodecBound (CodecChainBound SqueezeCodecBound BytesCodecBound ChecksumCodec) (CodecChainBound SqueezeCodecBound BytesCodecBound ChecksumCodec) :=
  mk_sharding [2; 2] (mk_chain [] (mk_bytes_codec (Some Little) (PlainType (FixedSize 2)) [7; 0] 2) [] None)
    (mk_chain [] (mk_bytes_codec (Some Little) (PlainType (FixedSize 8)) (replicate 8 255) 8) [Crc32cCodec LocationEnd] (Some 1)) IndexEnd ShardingCodecOptions_default.

Lemma sharding_with_context_wf_witness :
  sharding_with_context built_codec (PlainType (FixedSize 2)) [7; 0] = Ok bound_codec ∧ sharding_wf bound_codec.
Proof.
  assert (sharding_with_context built_codec (PlainType (FixedSize 2)) [7; 0] = Ok bound_codec) as Hb by (vm_compute; reflexivity).
  split; [exact Hb|].
  destruct (sharding_with_context_wf built_codec (PlainType (FixedSize 2)) [7; 0] bound_codec) as [Hwf _]; [done|done|done| | |exact Hb|reflexivity|exact Hwf].
  - split_and!; [by repeat constructor..|simpl; lia|by exists Little].
  - split_and!; [by repeat constructor..|simpl; lia|by exists Little].
Defined.
