(* ===== verification/ShardTheorems.v ===== *)
(** The properties of the sharding codec: encoding and decoding are inverse whatever the run time decides; a partial decoder
    on a store reads any region of a shard; compacting keeps the elements and is done once; and what the interval decoder
    reads when a codec reads a subchunk from an offset to its end. *)

From S2P Require Import Prelude ArraySubset Linear Iterators ChunkGrid RegularGrid ByteRange StoreKey Storage MemoryStore ArrayBytes Elements.
From S2P Require Import StoreProgram DecodeInto Concurrency Codec BytesCodec BytesToBytes Checksums Shuffle ArrayToArray CodecChain CodecChainSpec ChainTheorems.
From S2P Require Import Sharding ShardPlacement ShardEncode ShardSpec.
From S2P Require Import ShardingPartial ShardPartialSpec ShardReads ShardingEncoder ShardingBind.

Section theorems.
Context {I X : Type} `{LI : LawfulArrayToBytesCodec I, LX : LawfulArrayToBytesCodec X} `{T : Target}.

(** C9: a shard that is encoded with any write order, any options and any order of the parallel tasks, over memory that holds anything, is
    decoded to array bytes that hold the same elements, with any other options, order and memory; for fixed-length elements these
    are the bytes that were encoded.  The encoding is within the bound of its representation. *)
Theorem sharding_roundtrip (self : ShardingCodecBound I X) sh b V options options' (R R' : RunTime) :
  @LawfulRunTime R → @LawfulRunTime R' → sharding_wf self → sharding_shape_ok self sh →
  holds b (sharding_data_type self) V → zlen V = Zprod sh → array_bytes_size b < a2b_limit (inner_codecs self) (subchunk_shape self) →
  ∃ enc b' rep, @sharding_encode I X _ _ T R self b sh options = Ok enc ∧ @sharding_decode I X _ _ T R' self enc sh options' = Ok b' ∧
    holds b' (sharding_data_type self) V ∧ (∀ d, sharding_data_type self = PlainType (FixedSize d) → b' = b) ∧
    sharding_encoded_representation self sh = Ok rep ∧ rep_admits rep (zlen enc).
Proof.
  intros HR HR' Hwf Hsh Hb HV Hsize. destruct (plain_type self Hwf) as [size Hdt]. pose proof Hb as Hb0. rewrite Hdt in Hb0.
  destruct (packed_bytes b size V Hb0) as (b' & Hb' & Hp & _). rewrite <-Hdt in Hb'.
  destruct (sharding_encode_ok (RT := HR) self sh Hwf Hsh b V Hb HV Hsize options b' Hp) as (enc & Henc & Hlen & Hencodes).
  destruct (sharding_representation_ok self sh (zlen enc) Hwf Hsh ltac:(lia) Hlen) as (rep & Hrep & Hadm).
  exists enc, b', rep. split; [exact Henc|]. split; [exact (sharding_decode_ok (RT := HR') self sh Hwf Hsh enc b' V Hencodes Hb' HV options')|].
  split; [done|]. split; [|done]. intros d Hd. rewrite Hd in Hb, Hb'. by eapply holds_fixed_inj.
Qed.

(** C8: on a store whose value at the key is an encoded shard, the partial decoder of the sharding codec, which reads the index when it is made, reads
    the elements of any region of the shard and leaves the store as it is. *)
Theorem sharding_partial_decoder_reads {S : Type} (abs : S → gmap str bytes) `{HL : LawfulStorage S abs} (self : ShardingCodecBound I X) sh b V enc
    options options' (R : RunTime) key (s : S) sub :
  @LawfulRunTime R → sharding_wf self → sharding_shape_ok self sh → holds b (sharding_data_type self) V → zlen V = Zprod sh →
  array_bytes_size b < a2b_limit (inner_codecs self) (subchunk_shape self) → sharding_encode self b sh options = Ok enc →
  abs s !! key = Some enc → region_ok sub sh →
  ∃ s' out, run (let* decoder := sharding_partial_decoder self (store_handle key) sh options' in partial_decode decoder sub) s = (s', Ok out) ∧
    abs s' = abs s ∧ holds out (sharding_data_type self) (select V (positions sub sh)).
Proof.
  intros HR Hwf Hsh Hb HV Hsize He Hkey Hsub. destruct (plain_type self Hwf) as [size Hdt]. pose proof Hb as Hb0. rewrite Hdt in Hb0.
  destruct (packed_bytes b size V Hb0) as (b' & Hb' & Hp & _). rewrite <-Hdt in Hb'.
  destruct (sharding_encode_ok self sh Hwf Hsh b V Hb HV Hsize options b' Hp) as (enc' & Henc & Hlen & Hencodes).
  rewrite He in Henc. injection Henc as <-. pose proof (sharding_shape_law self sh Hwf Hsh) as (_ & _ & Hlim & _).
  destruct (sharding_partial_ok self sh Hwf Hsh (store_handle key) key (Some enc) (Some enc) b' V options') as (ah & Hrun & Hr).
  { apply store_handle_reads. }
  { split_and!; [done..|lia|done]. }
  destruct (Hr sub Hsub) as (out & Hout & Hho & _).
  assert (runs_at (let* decoder := sharding_partial_decoder self (store_handle key) sh options' in partial_decode decoder sub) (Some enc) (Ok out) (Some enc))
    as Hall by (eapply runs_at_bind; [exact Hrun|exact Hout]).
  rewrite <-Hkey in Hall. apply runs_read in Hall.
  - destruct (run_runs abs _ _ _ _ Hall) as (s' & Hs' & Habs). by exists s', out.
  - eapply confines_then; [apply sharding_partial_confines; exact (proj1 (store_handle_reads 0 key None))|]. intros ah' Hah. apply Hah.
Qed.

(** C10: compacting an encoded shard succeeds and keeps its elements: the result, or the shard itself when there is none, decodes to
    the same array bytes.  Compacting the result gives none. *)
Theorem sharding_compact_spec (self : ShardingCodecBound I X) sh enc b V options (R : RunTime) :
  @LawfulRunTime R → sharding_wf self → sharding_shape_ok self sh → shard_encodes self sh enc b V →
  holds b (sharding_data_type self) V → zlen V = Zprod sh →
  (∀ idx, indexed self sh enc idx → sizes (chunks_of (stored enc idx) (seqZ 0 (Zprod (shard_chunks self sh)))) + index_size self sh < 2 ^ 63) →
  ∃ r, sharding_compact self enc sh options = Ok r ∧ sharding_decode self (default enc r) sh options = Ok b ∧
    sharding_compact self (default enc r) sh options = Ok None.
Proof.
  intros HR Hwf Hsh Henc Hb HV Hsizes. destruct Henc as (Hp & idx & Hidx & Hcontent).
  destruct (sharding_compact_ok self sh Hwf Hsh enc idx Hidx options (Hsizes idx Hidx)) as (r & Hr & Hspec). exists r. split; [done|].
  destruct r as [enc'|]; cbn [from_option id].
  - destruct Hspec as (_ & Hlen & idx' & Hidx' & Hst). set (chunks e i := chunks_of (stored e i) (seqZ 0 (Zprod (shard_chunks self sh)))).
    assert (chunks enc' idx' = chunks enc idx) as Hsame.
    { unfold chunks, chunks_of. apply list_omap_ext, Forall_Forall2_diag, Forall_forall. intros k Hk%elem_of_seqZ. rewrite Hst by lia. done. }
    split.
    + apply (sharding_decode_ok self sh Hwf Hsh enc' b V); [|done|done]. split; [done|]. exists idx'. split; [done|]. intros k Hk. rewrite Hst by done. by apply Hcontent.
    + assert (sizes (chunks enc' idx') + index_size self sh < 2 ^ 63) as Hs' by (rewrite Hsame; by apply Hsizes).
      destruct (sharding_compact_ok self sh Hwf Hsh enc' idx' Hidx' options Hs') as (r' & Hr' & Hspec'). rewrite Hr'. destruct r' as [enc''|]; [|done].
      destruct Hspec' as [Hne _]. exfalso. apply Hne. fold (chunks enc' idx'). rewrite Hsame. exact Hlen.
  - split; [|done]. apply (sharding_decode_ok self sh Hwf Hsh enc b V); [|done|done]. split; [done|]. by exists idx.
Qed.
End theorems.

(** On a store whose value at the key is [enc], the interval decoder over the [len] bytes from [o] reads the ranges of the interval that have a length,
    and the whole of it.  From an offset [a] to the end it reads too much: the rest of the interval and the [a] bytes that come after it. *)
Theorem byte_interval_spec {S : Type} (abs : S → gmap str bytes) `{HL : LawfulStorage S abs} key (s : S) enc o len :
  abs s !! key = Some enc → 0 <= o → 0 <= len → o + len <= zlen enc → zlen enc < u64_modulus →
  (∀ r, opens_within 0 r → byte_range_ok r → range_within r len →
    ∃ s', run (bytes_partial_decode (byte_interval_handle (store_handle key) o len) r) s = (s', Ok (Some (range_bytes (part enc o len) r))) ∧ abs s' = abs s) ∧
  (∀ a, 0 <= a <= len → o + a + len <= zlen enc →
    ∃ s', run (bytes_partial_decode (byte_interval_handle (store_handle key) o len) (FromStart a None)) s =
        (s', Ok (Some (range_bytes (part enc o len) (FromStart a None) ++ part enc (o + len) a))) ∧ abs s' = abs s).
Proof.
  intros Hkey Ho Hl Hle Henc.
  assert (∀ r x, runs_at (bytes_partial_decode (byte_interval_handle (store_handle key) o len) r) (Some enc) (Ok (Some x)) (Some enc) →
    ∃ s', run (bytes_partial_decode (byte_interval_handle (store_handle key) o len) r) s = (s', Ok (Some x)) ∧ abs s' = abs s) as Hrun.
  { intros r x Hr. rewrite <-Hkey in Hr. apply runs_read in Hr; [by apply (run_runs abs) in Hr|].
    apply bytes_partial_decode_confined. intros rs. apply (store_handle_reads 0 key (Some enc)). }
  split.
  - intros r Hopen Hok Hw. apply Hrun. pose proof (byte_interval_reads _ key _ enc o len (store_handle_reads 0 key (Some enc)) Ho Hl Hle Henc) as [_ Hr].
    unfold bytes_partial_decode. eapply runs_at_bind; [apply Hr; [by repeat constructor|]|done].
    intros x [= <-]. rewrite length_part by lia. split_and!; [lia|by repeat constructor..].
  - intros a Ha Hae. apply Hrun. unfold bytes_partial_decode. destruct (store_handle_reads 0 key (Some enc)) as [_ Hr].
    eapply runs_at_bind; [cbn [bytes_partial_decode_many byte_interval_handle]; apply Hr|].
    + by repeat constructor.
    + intros x [= <-]. cbn [fmap list_fmap interval_range]. rewrite wrap64_small by (unfold_u64; lia).
      split_and!; [lia|repeat constructor; cbn; unfold is_u64; lia..].
    + cbn [fmap list_fmap option_fmap option_map interval_range range_bytes last]. rewrite wrap64_small by (unfold_u64; lia). prog. split; [|done].
      do 2 f_equal. unfold part. rewrite skipn_firstn_comm.
      replace (Z.to_nat len) with (Z.to_nat len - Z.to_nat a + Z.to_nat a)%nat at 1 by lia.
      rewrite <-(take_take_drop (drop (Z.to_nat (o + a)) enc) (Z.to_nat len - Z.to_nat a) (Z.to_nat a)), !drop_drop.
      f_equal; [|f_equal]; f_equal; try lia; f_equal; lia.
Qed.

(** ** A small shard, for the witnesses

    Shards of shape [2, 4] in subchunks of shape [2, 2], of big-endian 16-bit elements with a checksum; the index has a checksum too, and is at the end.
    The second subchunk is full of the fill value.  The tasks run in reverse order. *)
#[local] Instance shard_target : Target := Little.
#[local] Instance shard_crates : ChecksumCrates := {| crc32c := Zsum; adler32 := Zsum |}.
#[local] Instance shard_types : BytesDataTypes := λ dt,
  match dt with PlainType (FixedSize 2) => Some 2 | PlainType (FixedSize 8) => Some 8 | _ => None end.
#[local] Instance shard_types_lawful : LawfulBytesDataTypes.
Proof. intros dt n Hn. unfold codec_bytes, shard_types in Hn. repeat case_match; simplify_eq; by eexists. Qed.
#[local] Instance shard_run_time : RunTime := {| uninit n := replicate (Z.to_nat n) 7; task_order n := reverse (seq 0 n) |}.
#[local] Instance shard_run_time_lawful : LawfulRunTime.
Proof. split; [intros n Hn; cbn; rewrite length_replicate; lia|intros n; apply reverse_Permutation]. Qed.

Definition shard_codecs (e : Endianness) : CodecChain SqueezeCodec BytesCodec (ShuffleCodec + ChecksumCodec) :=
  mk_unbound_chain [] {| u_endian := Some e |} [inr (Crc32cCodec LocationEnd)].

Definition inner_chain : CodecChainBound SqueezeCodecBound BytesCodecBound (ShuffleCodec + ChecksumCodec) :=
  mk_chain [] (mk_bytes_codec (Some Big) (PlainType (FixedSize 2)) [0; 0] 2) [inr (Crc32cCodec LocationEnd)] (Some 1).
Definition index_chain : CodecChainBound SqueezeCodecBound BytesCodecBound (ShuffleCodec + ChecksumCodec) :=
  mk_chain [] (mk_bytes_codec (Some Little) (PlainType (FixedSize 8)) (replicate 8 255) 8) [inr (Crc32cCodec LocationEnd)] (Some 1).

Definition example_sharding := mk_sharding [2; 2] inner_chain index_chain IndexEnd (mk_sharding_options OrderUnordered).

Lemma shard_chain_wf e dt fv c : fill_ok dt fv → with_context (shard_codecs e) dt fv = Ok c → chain_wf c.
Proof.
  intros Hf Hc. apply (with_context_lawful (shard_codecs e) dt fv); [done| |done]. split_and!; [by repeat constructor..|simpl; lia|by exists e].
Qed.

Lemma example_sharding_wf : sharding_wf example_sharding.
Proof.
  constructor; [by eapply (shard_chain_wf Big (PlainType (FixedSize 2)) [0; 0])|by eapply (shard_chain_wf Little (PlainType (FixedSize 8)) (replicate 8 255))|done..].
Qed.

Lemma example_sharding_shape : sharding_shape_ok example_sharding [2; 4].
Proof.
  constructor.
  - split; [by repeat constructor|done].
  - by repeat constructor.
  - constructor; [split; [by repeat constructor|done]|done| | |by intros [|]].
    + split; [split; [by repeat constructor|done]|done].
    + exists (BytesFixedSize 8). split_and!; [reflexivity| |reflexivity]. cbn. split_and!; (reflexivity || exact Logic.I || lia).
  - constructor; [split; [by repeat constructor|done]|done| | |by intros [|]].
    + split; [split; [by repeat constructor|done]|done].
    + exists (BytesFixedSize 32). split_and!; [reflexivity| |reflexivity]. cbn. split_and!; (reflexivity || exact Logic.I || lia).
  - vm_compute. reflexivity.
  - vm_compute. done.
  - assert (a2b_encoded_representation (inner_codecs example_sharding) [2; 4] = Ok (BytesFixedSize 20)) as -> by (vm_compute; reflexivity).
    intros size [= <-]. split; vm_compute; done.
  - vm_compute. done.
Qed.

Definition shard_elements : list bytes := [[1; 2]; [3; 4]; [0; 0]; [0; 0]; [5; 6]; [7; 8]; [0; 0]; [0; 0]].
Definition shard_bytes : ArrayBytes := FixedBytes (concat shard_elements).
Definition encoded_shard : bytes :=
  [2; 1; 4; 3; 6; 5; 8; 7; 36; 0; 0; 0] ++ u64_to_le_bytes 0 ++ u64_to_le_bytes 12 ++ replicate 16 255 ++ [252; 15; 0; 0].
Definition shard_options : CodecOptions := CodecOptions_default 4.

Lemma shard_elements_holds : holds shard_bytes (PlainType (FixedSize 2)) (Value <$> shard_elements).
Proof. apply holds_fixed. exists shard_elements. split_and!; [done|done| |done]. split; [lia|]. by repeat constructor. Qed.

Lemma encoded_shard_ok : sharding_encode example_sharding shard_bytes [2; 4] shard_options = Ok encoded_shard.
Proof. vm_compute. reflexivity. Qed.

Lemma shard_room : array_bytes_size shard_bytes < a2b_limit (inner_codecs example_sharding) (subchunk_shape example_sharding).
Proof. vm_compute. reflexivity. Qed.

Lemma sharding_roundtrip_witness :
  sharding_encode example_sharding shard_bytes [2; 4] shard_options = Ok encoded_shard ∧
  sharding_decode example_sharding encoded_shard [2; 4] shard_options = Ok shard_bytes.
Proof.
  split; [exact encoded_shard_ok|].
  destruct (sharding_roundtrip example_sharding [2; 4] shard_bytes (Value <$> shard_elements) shard_options shard_options _ _
    shard_run_time_lawful shard_run_time_lawful example_sharding_wf example_sharding_shape shard_elements_holds eq_refl shard_room)
    as (enc & b' & rep & He & Hd & _ & Hb & _).
  rewrite encoded_shard_ok in He. assert (encoded_shard = enc) as -> by congruence. rewrite Hd, (Hb 2 eq_refl). reflexivity.
Defined.

Definition shard_key : StoreKey := lit "k".
Definition shard_store : MemoryStore := {[ shard_key := encoded_shard ]}.
Definition shard_region : ArraySubset := mk_subset [0; 1] [2; 2].

Lemma shard_region_ok : region_ok shard_region [2; 4].
Proof.
  split; [split|split; [|split; [reflexivity|]]]; [|by split; [repeat constructor|reflexivity]| |by split; [repeat constructor|reflexivity]];
    (split; [done|]); intros [|[|j]] Hj; unfold u64_modulus; simpl in *; lia.
Qed.

Lemma sharding_partial_decoder_reads_witness :
  ∃ s' out, run (let* decoder := sharding_partial_decoder example_sharding (store_handle shard_key) [2; 4] shard_options in
                 partial_decode decoder shard_region) shard_store = (s', Ok out) ∧
    memory_abs s' = memory_abs shard_store ∧ holds out (PlainType (FixedSize 2)) (Value <$> [[3; 4]; [0; 0]; [7; 8]; [0; 0]]).
Proof.
  destruct (sharding_partial_decoder_reads memory_abs example_sharding [2; 4] shard_bytes (Value <$> shard_elements) encoded_shard shard_options shard_options _
    shard_key shard_store shard_region shard_run_time_lawful example_sharding_wf example_sharding_shape shard_elements_holds eq_refl shard_room
    encoded_shard_ok eq_refl shard_region_ok) as (s' & out & Hrun & Habs & Hh).
  exists s', out. split; [exact Hrun|]. split; [exact Habs|exact Hh].
Defined.

Lemma byte_interval_spec_witness :
  ∃ s', run (bytes_partial_decode (byte_interval_handle (store_handle shard_key) 0 12) (FromStart 8 None)) shard_store =
    (s', Ok (Some [36; 0; 0; 0; 0; 0; 0; 0; 0; 0; 0; 0])).
Proof.
  destruct (byte_interval_spec memory_abs shard_key shard_store encoded_shard 0 12 eq_refl ltac:(lia) ltac:(lia) ltac:(vm_compute; done) eq_refl) as [_ Hr].
  destruct (Hr 8 ltac:(lia) ltac:(vm_compute; done)) as (s' & Hs' & _). exists s'. exact Hs'.
Defined.

(** The same elements with two bytes that no entry points to. *)
Definition gap_index : list Z := [2; 12; u64_max; u64_max].
Definition gap_shard : bytes :=
  [9; 9] ++ [2; 1; 4; 3; 6; 5; 8; 7; 36; 0; 0; 0] ++ u64_to_le_bytes 2 ++ u64_to_le_bytes 12 ++ replicate 16 255 ++ [254; 15; 0; 0].

Lemma gap_index_ok : index_ok 2 gap_index.
Proof. split; [reflexivity|]. unfold gap_index, u64_max. repeat constructor; unfold is_u64, u64_modulus; lia. Qed.

Lemma gap_shard_indexed : indexed example_sharding [2; 4] gap_shard gap_index.
Proof.
  constructor.
  - split; [|vm_compute; reflexivity]. vm_compute. discriminate.
  - exact gap_index_ok.
  - destruct (encode_index_ok example_sharding [2; 4] example_sharding_wf example_sharding_shape gap_index shard_options gap_index_ok) as (e & He & _ & Henc).
    assert (a2b_encode (index_codecs example_sharding) (FixedBytes (index_to_bytes gap_index)) (sharding_index_shape (shard_chunks example_sharding [2; 4])) shard_options =
      Ok (index_part (index_location example_sharding) (index_size example_sharding [2; 4]) gap_shard)) as He' by (vm_compute; reflexivity).
    assert (e = index_part (index_location example_sharding) (index_size example_sharding [2; 4]) gap_shard) as <- by congruence. exact Henc.
  - intros k Hk. change (0 <= k < 2) in Hk. assert (k = 0 ∨ k = 1) as [-> | ->] by lia; [right; vm_compute; discriminate|left; reflexivity].
Qed.

Lemma gap_shard_encodes : shard_encodes example_sharding [2; 4] gap_shard shard_bytes (Value <$> shard_elements).
Proof.
  split; [done|]. exists gap_index. split; [exact gap_shard_indexed|]. intros k Hk. change (0 <= k < 2) in Hk. assert (k = 0 ∨ k = 1) as [-> | ->] by lia.
  - destruct (encode_chunk_ok example_sharding [2; 4] example_sharding_wf example_sharding_shape shard_bytes (Value <$> shard_elements) shard_elements_holds eq_refl
      shard_options 0 shard_room) as (chunk & He & Hc & _); [done|].
    assert (encode_inner_by_chunk_index example_sharding shard_bytes [2; 4] (shard_chunks example_sharding [2; 4]) shard_options 0 =
      Ok ((λ e, (0, e)) <$> stored gap_shard gap_index 0)) as He' by (vm_compute; reflexivity).
    assert (chunk = stored gap_shard gap_index 0) as <-; [|exact Hc]. rewrite He in He'. destruct chunk, (stored gap_shard gap_index 0); cbn in He'; congruence.
  - destruct (fill_content example_sharding [2; 4] example_sharding_wf example_sharding_shape (Value <$> shard_elements) 1) as (bk & _ & Hc);
      [vm_compute; reflexivity|done|vm_compute; reflexivity|].
    exists bk. exact Hc.
Qed.

Lemma sharding_compact_spec_witness :
  sharding_compact example_sharding gap_shard [2; 4] shard_options = Ok (Some encoded_shard) ∧
  sharding_decode example_sharding encoded_shard [2; 4] shard_options = Ok shard_bytes ∧
  sharding_compact example_sharding encoded_shard [2; 4] shard_options = Ok None.
Proof.
  assert (sharding_compact example_sharding gap_shard [2; 4] shard_options = Ok (Some encoded_shard)) as Hcompact by (vm_compute; reflexivity).
  destruct (sharding_compact_spec example_sharding [2; 4] gap_shard shard_bytes (Value <$> shard_elements) shard_options _ shard_run_time_lawful
    example_sharding_wf example_sharding_shape gap_shard_encodes shard_elements_holds eq_refl) as (r & Hr & Hd & Hc).
  - intros idx Hidx. pose proof (index_part_decodes example_sharding [2; 4] example_sharding_wf example_sharding_shape gap_shard idx Hidx shard_options) as H1.
    pose proof (index_part_decodes example_sharding [2; 4] example_sharding_wf example_sharding_shape gap_shard gap_index gap_shard_indexed shard_options) as H2.
    assert (idx = gap_index) as -> by congruence. vm_compute. reflexivity.
  - rewrite Hcompact in Hr. assert (r = Some encoded_shard) as -> by congruence. split; [exact Hcompact|]. split; [exact Hd|exact Hc].
Defined.
