(* ===== verification/Vlen.v ===== *)
(** The codecs of variable-length elements: [vlen_v2] with its wrappers [vlen-utf8], [vlen-bytes] and
    [vlen-array] ([array_to_bytes/vlen_v2.rs] and [vlen_v2/]), and [vlen] ([array_to_bytes/vlen.rs]
    and [vlen/]).

    [vlen_v2] writes the number of elements and then every element after its length.  [vlen] writes the
    offsets and the bytes of the elements, each encoded by a codec of its own. *)

From S2P Require Import Prelude ArraySubset Linear Iterators ByteRange StoreKey Storage ArrayBytes.
From S2P Require Import Elements StoreProgram DecodeInto Concurrency Codec BytesCodec Checksums CodecChain Sharding.

Definition u32_max : Z := 2 ^ 32 - 1.

(** [u32::try_from]. *)
Definition u32_try_from (x : Z) : option Z := if x <=? u32_max then Some x else None.

(** [u32::from_le_bytes]. *)
Definition u32_from_le_bytes (b : bytes) : Z := foldr (λ x acc, x + 256 * acc) 0 b.

(** ** What the partial decoders share

    [extract_decoded_regions_vlen] of [array_bytes_internal.rs]; its first loop adds up the sizes for the capacity. *)
Definition extract_decoded_regions_vlen (b : bytes) (offsets : list Z) (indexer : ArraySubset) (array_shape : list Z)
    : outcome CodecError ArrayBytesVariableLength :=
  let? indices := map_err IncompatibleIndexer (linearised_indices indexer array_shape) in
  let? _ := map_err IncompatibleIndexer (element_sizes offsets indices) in
  extract_vlen_loop b offsets indices [] [].

(** The decoded bytes and offsets as array bytes, the end of [decode]. *)
Definition vlen_array_bytes (decoded : bytes * list Z) : outcome CodecError ArrayBytes :=
  let? offsets := offsets_new decoded.2 in
  let? v := new_vlen decoded.1 offsets in
  Ok (VariableBytes v).

(** [decode_vlen_bytes] of the partial decoders, with the function that decodes the whole value. *)
Definition decode_vlen_bytes (decode : bytes → outcome CodecError (bytes * list Z)) (b : option bytes) (indexer : ArraySubset)
    (data_type : DataType) (fill_value : FillValue) (shape : list Z) : outcome CodecError ArrayBytes :=
  match b with
  | Some b =>
      let? (b, offsets) := decode b in
      let? v := extract_decoded_regions_vlen b offsets indexer shape in
      Ok (VariableBytes v)
  | None => new_fill_value data_type (num_elements indexer) fill_value
  end.

Definition vlen_partial_decode (decode : bytes → outcome CodecError (bytes * list Z)) (data_type : DataType) (fill_value : FillValue)
    (input_handle : BytesHandle) (shape : list Z) (indexer : ArraySubset) : prog CodecError ArrayBytes :=
  let* b := bytes_decode input_handle in
  plift (decode_vlen_bytes decode b indexer data_type fill_value shape).

(** ** [vlen_v2] *)

Record VlenV2CodecBound := mk_vlen_v2 { v2_data_type : DataType; v2_fill_value : FillValue }.

(** [matches!(data_type.size(), DataTypeSize::Variable)]. *)
Definition is_variable (data_type : DataType) : bool := match data_type_size data_type with VariableSize => true | FixedSize _ => false end.

(** [with_context]. *)
Definition vlen_v2_with_context (data_type : DataType) (fill_value : FillValue) : outcome CodecError VlenV2CodecBound :=
  if is_optional data_type || negb (is_variable data_type) then Err UnsupportedDataType
  else Ok (mk_vlen_v2 data_type fill_value).

(** The loop over the elements, with the bytes and the offsets pushed so far. *)
Fixpoint interleaved_loop (num_elements : nat) (b : bytes) (offset : Z) (bytes_out : bytes) (offsets_out : list Z)
    : outcome CodecError (bytes * list Z) :=
  match num_elements with
  | O => Ok (bytes_out, offsets_out ++ [zlen bytes_out])
  | S num_elements =>
      let? length := slice b offset (offset +w 4) in
      let length := u32_from_le_bytes length in
      let offset := offset +w 4 in
      let offsets_out := offsets_out ++ [zlen bytes_out] in
      if length =? 0 then interleaved_loop num_elements b offset bytes_out offsets_out
      else
        let? element := slice b offset (offset +w length) in
        interleaved_loop num_elements b (offset +w length) (bytes_out ++ element) offsets_out
  end.

Definition get_interleaved_bytes_and_offsets (num_elements : Z) (b : bytes) : outcome CodecError (bytes * list Z) :=
  let header_length := 4 *w (1 +w num_elements) in
  if zlen b <? header_length then Err (UnexpectedChunkDecodedSize (zlen b) header_length)
  else
    let? header := slice b 0 4 in
    let header_num_elements := u32_from_le_bytes header in
    let? expected := expect (u32_try_from num_elements) in
    if negb (expected =? header_num_elements) then Err CodecOther
    else interleaved_loop (Z.to_nat num_elements) b 4 [] [].

(** The loop of [encode] over the windows of the offsets. *)
Fixpoint interleave_loop (b : bytes) (windows : list (Z * Z)) (data : bytes) : outcome CodecError bytes :=
  match windows with
  | [] => Ok data
  | (curr, next) :: windows =>
      let? element_bytes := slice b curr next in
      let? element_bytes_len := expect (u32_try_from (zlen element_bytes)) in
      interleave_loop b windows (data ++ u32_to_le_bytes element_bytes_len ++ element_bytes)
  end.

(** [Itertools::tuple_windows]. *)
Definition tuple_windows (l : list Z) : list (Z * Z) := zip l (drop 1 l).

Definition vlen_v2_encode (self : VlenV2CodecBound) (b : ArrayBytes) (shape : list Z) (options : CodecOptions) : outcome CodecError bytes :=
  let num_elements := product64 shape in
  let? _ := validate_bytes b num_elements (v2_data_type self) in
  let? v := into_variable b in
  let? num_elements := ok_or CodecOther (u32_try_from num_elements) in
  interleave_loop (vl_bytes v) (tuple_windows (vl_offsets v)) (u32_to_le_bytes num_elements).

Definition vlen_v2_decode (self : VlenV2CodecBound) (b : bytes) (shape : list Z) (options : CodecOptions) : outcome CodecError ArrayBytes :=
  let num_elements := product64 shape in
  let? decoded := get_interleaved_bytes_and_offsets num_elements b in
  vlen_array_bytes decoded.

(** [BytesUnboundedSize] for variable-sized data types. *)
Definition vlen_representation (data_type : DataType) : outcome CodecError BytesRepresentation :=
  match data_type_size data_type with VariableSize => Ok BytesUnboundedSize | FixedSize _ => Err UnsupportedDataType end.

Definition vlen_v2_partial_decoder (self : VlenV2CodecBound) (input_handle : BytesHandle) (shape : list Z) (options : CodecOptions)
    : prog CodecError ArrayHandle :=
  let decode := vlen_partial_decode (get_interleaved_bytes_and_offsets (product64 shape)) (v2_data_type self) (v2_fill_value self) input_handle shape in
  preturn {| partial_decode := decode; partial_decode_into := default_partial_decode_into decode |}.

#[export] Instance vlen_v2_traits : ArrayToBytesCodecTraits VlenV2CodecBound := {|
  a2b_data_type := v2_data_type;
  a2b_fill_value := v2_fill_value;
  a2b_recommended_concurrency _ _ := Ok (new_maximum 1);
  a2b_partial_decoder_capability _ := {| partial_read := false; can_partial_decode := false |};
  a2b_partial_encode_capability _ := false;
  a2b_encoded_representation self _ := vlen_representation (v2_data_type self);
  a2b_encode := vlen_v2_encode;
  a2b_decode := vlen_v2_decode;
  a2b_compact _ _ _ _ := Ok None;
  a2b_decode_into self := default_decode_into (vlen_v2_decode self);
  a2b_partial_decoder := vlen_v2_partial_decoder;
  a2b_partial_encoder self := default_partial_encoder (v2_data_type self) (v2_fill_value self) (vlen_v2_encode self) (vlen_v2_decode self);
|}.

(** ** The wrappers

    [vlen_v2_codec!] makes the codecs [vlen-utf8], [vlen-bytes] and [vlen-array]: they pass every operation on. *)
Record VlenWrapperBound (C : Type) := mk_wrapper { wrapped : C }.
Arguments mk_wrapper {C} _.
Arguments wrapped {C} _.

Definition wrapper_with_context {C : Type} (inner_with_context : DataType → FillValue → outcome CodecError C) (data_type : DataType)
    (fill_value : FillValue) : outcome CodecError (VlenWrapperBound C) :=
  let? inner := inner_with_context data_type fill_value in Ok (mk_wrapper inner).

#[export] Instance wrapper_traits {C : Type} `{!ArrayToBytesCodecTraits C} : ArrayToBytesCodecTraits (VlenWrapperBound C) := {|
  a2b_data_type self := a2b_data_type (wrapped self);
  a2b_fill_value self := a2b_fill_value (wrapped self);
  a2b_recommended_concurrency self := a2b_recommended_concurrency (wrapped self);
  a2b_partial_decoder_capability self := a2b_partial_decoder_capability (wrapped self);
  a2b_partial_encode_capability self := a2b_partial_encode_capability (wrapped self);
  a2b_encoded_representation self := a2b_encoded_representation (wrapped self);
  a2b_encode self := a2b_encode (wrapped self);
  a2b_decode self := a2b_decode (wrapped self);
  a2b_compact _ _ _ _ := Ok None;
  a2b_decode_into self := default_decode_into (a2b_decode (wrapped self));
  a2b_partial_decoder self := a2b_partial_decoder (wrapped self);
  a2b_partial_encoder self := a2b_partial_encoder (wrapped self);
|}.

(** ** Before they are bound *)

Inductive VlenV2Codec := VlenV2Codec_new.

#[export] Instance vlen_v2_unbound : UnboundArrayToBytesCodecTraits VlenV2Codec VlenV2CodecBound := {|
  uc_partial_decoder_capability _ := {| partial_read := false; can_partial_decode := false |};
  uc_with_context _ := vlen_v2_with_context |}.

Record VlenWrapper (UC : Type) := mk_unbound_wrapper { u_wrapped : UC }.
Arguments mk_unbound_wrapper {UC} _.
Arguments u_wrapped {UC} _.

#[export] Instance wrapper_unbound {UC C : Type} `{!ArrayToBytesCodecTraits C, !UnboundArrayToBytesCodecTraits UC C} :
    UnboundArrayToBytesCodecTraits (VlenWrapper UC) (VlenWrapperBound C) := {|
  uc_partial_decoder_capability self := uc_partial_decoder_capability (u_wrapped self);
  uc_with_context self := wrapper_with_context (uc_with_context (u_wrapped self)) |}.
