(* ===== verification/VlenLaws.v ===== *)
(** The [vlen_v2] codec keeps the promises of an array to bytes codec, and so do its wrappers.

    The encoding of the elements [L] is [interleave L].  The loops of [encode] and [decode] are compared with
    it; what decodes is [interleave L] with bytes after it. *)

From stdpp Require Import sorting.
From S2P Require Import Prelude ArraySubset Linear Iterators ByteRange StoreKey Storage ArrayBytes.
From S2P Require Import Elements StoreProgram DecodeInto Concurrency Codec BytesCodec Checksums BytesToBytes ArrayToArray CodecChain CodecChainSpec ChainTheorems Sharding Vlen.

(** ** Lengths in four bytes *)

Lemma u32_le_bytes_spec x : u32_to_le_bytes x = (λ i, x / 2 ^ (8 * i) mod 256) <$> seqZ 0 4.
Proof.
  unfold u32_to_le_bytes. apply list_fmap_ext_in. intros i Hi%elem_of_seqZ. change 255 with (Z.ones 8).
  by rewrite Z.land_ones, Z.shiftr_div_pow2 by lia.
Qed.

Lemma length_u32_bytes x : length (u32_to_le_bytes x) = 4%nat.
Proof. unfold u32_to_le_bytes. by rewrite length_fmap, length_seqZ. Qed.

Lemma u32_le_roundtrip x : 0 <= x <= u32_max → u32_from_le_bytes (u32_to_le_bytes x) = x.
Proof.
  intros Hx. rewrite u32_le_bytes_spec. change (seqZ 0 4) with [0; 1; 2; 3].
  cbn [fmap list_fmap u32_from_le_bytes foldr Z.mul Pos.mul Z.pow Z.pow_pos Pos.iter]. unfold u32_max in Hx.
  change (2 ^ (8 * 0)) with 1. change (2 ^ (8 * 1)) with 256. change (2 ^ (8 * 2)) with 65536. change (2 ^ (8 * 3)) with 16777216.
  change (2 ^ 32) with 4294967296 in Hx. Z.to_euclidean_division_equations. lia.
Qed.

(** Values of [u8]. *)
Definition are_bytes (b : bytes) : Prop := Forall (λ x, 0 <= x < 256) b.

Lemma u32_le_inverse (b : bytes) : are_bytes b → length b = 4%nat → 0 <= u32_from_le_bytes b <= u32_max ∧ u32_to_le_bytes (u32_from_le_bytes b) = b.
Proof.
  intros Hb Hl. destruct b as [|b0 [|b1 [|b2 [|b3 [|]]]]]; try done. unfold are_bytes in Hb. rewrite !Forall_cons in Hb. destruct Hb as (H0 & H1 & H2 & H3 & _).
  rewrite u32_le_bytes_spec. change (seqZ 0 4) with [0; 1; 2; 3]. cbn [fmap list_fmap u32_from_le_bytes foldr].
  change (2 ^ (8 * 0)) with 1. change (2 ^ (8 * 1)) with 256. change (2 ^ (8 * 2)) with 65536. change (2 ^ (8 * 3)) with 16777216.
  unfold u32_max. change (2 ^ 32) with 4294967296. split; [lia|]. repeat f_equal; Z.to_euclidean_division_equations; lia.
Qed.

(** ** The interleaved form *)

Definition frame (e : bytes) : bytes := u32_to_le_bytes (zlen e) ++ e.
Definition frames (L : list bytes) : bytes := concat (frame <$> L).
Definition interleave (L : list bytes) : bytes := u32_to_le_bytes (zlen L) ++ frames L.

Lemma frames_cons e L : frames (e :: L) = u32_to_le_bytes (zlen e) ++ e ++ frames L.
Proof. unfold frames. rewrite fmap_cons. cbn [concat]. unfold frame at 1. by rewrite <-app_assoc. Qed.

(** The lengths fit in four bytes. *)
Definition frames_ok (L : list bytes) : Prop := Forall (λ e : bytes, zlen e <= u32_max) L.

Lemma length_frames L : zlen (frames L) = 4 * zlen L + zlen (concat L).
Proof.
  induction L as [|e L IH]; [done|]. rewrite frames_cons. cbn [concat length]. rewrite !length_app, length_u32_bytes. lia.
Qed.

Lemma length_interleave L : zlen (interleave L) = 4 * (1 + zlen L) + zlen (concat L).
Proof. unfold interleave. rewrite length_app, length_u32_bytes. pose proof (length_frames L). lia. Qed.

Lemma frames_small L : zlen (concat L) <= u32_max → frames_ok L.
Proof.
  intros HL. apply Forall_forall. intros e He. destruct (list_elem_of_lookup_1 _ _ He) as [k Hk].
  rewrite (concat_split L k e Hk), !length_app in HL. lia.
Qed.

(** A slice between given parts. *)
Lemma slice_middle {E A} (p m r : list A) a b : a = zlen p → b = zlen p + zlen m → slice (E:=E) (p ++ m ++ r) a b = Ok m.
Proof.
  intros -> ->. unfold slice. rewrite !length_app, !(proj2 (Z.leb_le _ _)) by lia. cbn [andb]. f_equal.
  rewrite drop_app_length' by lia. by rewrite take_app_length' by lia.
Qed.

Lemma slice_inv {E A} (l : list A) a b m : slice (E:=E) l a b = Ok m →
  ∃ p r, l = p ++ m ++ r ∧ a = zlen p ∧ b = zlen p + zlen m.
Proof.
  intros Hs. pose proof (slice_Ok l a b m Hs) as (Ha & Hb & Hm). unfold slice in Hs. destruct (_ && _); [|done]. injection Hs as <-.
  exists (take (Z.to_nat a) l), (drop (Z.to_nat (b - a)) (drop (Z.to_nat a) l)). rewrite take_drop, take_drop.
  split_and!; [done|rewrite length_take; lia|rewrite length_take; lia].
Qed.

(** *** Decoding *)

Lemma pack_push P e : pack (P ++ [e]) = mk_vlen (concat P ++ e) ((offset_of P <$> seq 0 (length P)) ++ [zlen (concat P)] ++ [zlen (concat P ++ e)]).
Proof. rewrite pack_snoc_offsets, <-offsets_snoc, concat_app. cbn [concat]. by rewrite app_nil_r, <-app_assoc. Qed.

Lemma interleaved_loop_ok L pre rest P : frames_ok L → zlen (pre ++ frames L ++ rest) < u64_modulus →
  interleaved_loop (length L) (pre ++ frames L ++ rest) (zlen pre) (concat P) (offset_of P <$> seq 0 (length P)) =
  Ok (vl_bytes (pack (P ++ L)), vl_offsets (pack (P ++ L))).
Proof.
  intros HL. revert pre P. induction HL as [|e L He HL IH]; intros pre P Hlen; cbn [interleaved_loop length].
  { by rewrite app_nil_r, (pack_snoc_offsets P). }
  rewrite frames_cons in *. pose proof (length_u32_bytes (zlen e)) as H4.
  rewrite <-!app_assoc in *. rewrite !length_app in Hlen. rewrite (wrap64_small (zlen pre + 4)) by (unfold_u64; lia).
  rewrite slice_middle by lia. cbn [obind]. rewrite u32_le_roundtrip by lia.
  assert (IH' := IH (pre ++ u32_to_le_bytes (zlen e) ++ e) (P ++ [e])).
  rewrite <-!app_assoc, <-offsets_snoc, concat_app, !length_app in IH'. cbn [concat] in IH'. rewrite app_nil_r in IH'.
  replace (P ++ [e] ++ L) with (P ++ e :: L) in IH' by done.
  destruct (Z.eqb_spec (zlen e) 0) as [Hz|Hz].
  - destruct e; [|done]. rewrite app_nil_r, app_nil_l in IH'. cbn [app] in *. rewrite <-IH' by (cbn [length] in *; lia). f_equal. lia.
  - rewrite (wrap64_small (zlen pre + 4 + zlen e)) by (unfold_u64; lia).
    replace (slice (pre ++ u32_to_le_bytes (zlen e) ++ e ++ frames L ++ rest) (zlen pre + 4) (zlen pre + 4 + zlen e)) with (Ok (E:=CodecError) e).
    2: { rewrite (app_assoc pre). symmetry. apply slice_middle; rewrite length_app; lia. }
    cbn [obind]. rewrite <-IH' by lia. f_equal. lia.
Qed.

Lemma get_interleaved_ok L rest : zlen L <= u32_max → frames_ok L → zlen (interleave L ++ rest) < u64_modulus →
  get_interleaved_bytes_and_offsets (zlen L) (interleave L ++ rest) = Ok (vl_bytes (pack L), vl_offsets (pack L)).
Proof.
  intros Hn HL Hlen. pose proof (length_interleave L) as Hi. pose proof (length_u32_bytes (zlen L)) as H4. rewrite length_app in Hlen.
  unfold get_interleaved_bytes_and_offsets. unfold u32_max in Hn. rewrite (wrap64_small (1 + zlen L)) by (unfold_u64; lia).
  rewrite wrap64_small by (unfold_u64; lia). rewrite (proj2 (Z.ltb_ge _ _)) by (rewrite length_app; lia).
  unfold interleave. rewrite <-app_assoc. 
  pose proof (slice_middle (E:=CodecError) [] (u32_to_le_bytes (zlen L)) (frames L ++ rest) 0 4) as Hs. cbn [app length] in Hs.
  rewrite Hs by lia. cbn [obind]. unfold u32_try_from.
  rewrite u32_le_roundtrip, (proj2 (Z.leb_le _ _)) by (unfold u32_max; lia). cbn [expect obind]. rewrite Z.eqb_refl. cbn [negb]. rewrite Nat2Z.id.
  replace 4 with (zlen (u32_to_le_bytes (zlen L))) by lia. apply (interleaved_loop_ok L _ rest []); [done|].
  unfold interleave in Hlen. rewrite !length_app in *. lia.
Qed.

(** A slice that the loop takes lies after what was read. *)
Lemma slice_after {E} (pre tail e : bytes) n : slice (E:=E) (pre ++ tail) (zlen pre) (zlen pre +w n) = Ok e → 0 <= n < u64_modulus →
  zlen (pre ++ tail) < u64_modulus → ∃ rest, tail = e ++ rest ∧ zlen e = n ∧ zlen pre +w n = zlen (pre ++ e).
Proof.
  intros Hs Hn Hb. pose proof (slice_Ok _ _ _ _ Hs) as (Hle & Hlen & He). rewrite length_app in Hb, Hlen.
  assert (zlen pre +w n = zlen pre + n) as Hw.
  { destruct (decide (zlen pre + n < u64_modulus)) as [|Hge]; [apply wrap64_small; unfold is_u64; lia|].
    unfold wrap64 in Hle |- *. rewrite <-(Z.mod_unique_pos (zlen pre + n) u64_modulus 1 (zlen pre + n - u64_modulus)) in Hle by lia. lia. }
  rewrite Hw in *. apply slice_inv in Hs as (p & r & Heq & Hp & Hr). apply app_inj_1 in Heq as [<- ->]; [|lia].
  exists r. split_and!; [done|lia|rewrite length_app; lia].
Qed.

Lemma interleaved_loop_inv n pre tail P bs offs : are_bytes tail → zlen (pre ++ tail) < u64_modulus →
  interleaved_loop n (pre ++ tail) (zlen pre) (concat P) (offset_of P <$> seq 0 (length P)) = Ok (bs, offs) →
  ∃ L rest, length L = n ∧ frames_ok L ∧ tail = frames L ++ rest ∧ mk_vlen bs offs = pack (P ++ L).
Proof.
  revert pre tail P. induction n as [|n IH]; intros pre tail P Ht Hb; cbn [interleaved_loop].
  { intros [= <- <-]. exists [], tail. split_and!; [done|by constructor|done|]. by rewrite app_nil_r, pack_snoc_offsets. }
  destruct (slice (pre ++ tail) (zlen pre) (zlen pre +w 4)) as [hd| |] eqn:Hhd; [|done..]. cbn [obind].
  apply slice_after in Hhd as (tail1 & -> & Hl & Hoff); [|done..]. rewrite Hoff. unfold are_bytes in Ht. apply Forall_app in Ht as [Hhd Ht1].
  destruct (u32_le_inverse hd Hhd) as [Hr Hinv]; [lia|]. rewrite app_assoc in Hb |- *. set (len := u32_from_le_bytes hd) in *.
  assert (∀ e tail2, tail1 = e ++ tail2 → zlen e = len →
    interleaved_loop n (((pre ++ hd) ++ e) ++ tail2) (zlen ((pre ++ hd) ++ e)) (concat (P ++ [e])) (offset_of (P ++ [e]) <$> seq 0 (length (P ++ [e]))) = Ok (bs, offs) →
    ∃ L rest, length L = S n ∧ frames_ok L ∧ hd ++ tail1 = frames L ++ rest ∧ mk_vlen bs offs = pack (P ++ L)) as Hstep.
  { intros e tail2 -> He Hloop. apply IH in Hloop as (L & rest & HL & Hf & -> & Hp); [|by apply Forall_app in Ht1 as [_ ?]|by rewrite <-app_assoc].
    exists (e :: L), rest. rewrite frames_cons, He, Hinv, <-!app_assoc, Hp. rewrite <-app_assoc. cbn [length]. split_and!; [lia| |done|done].
    constructor; [lia|done]. }
  rewrite offsets_snoc with (e := []). destruct (Z.eqb_spec len 0) as [Hz|Hz].
  - intros Hloop. apply (Hstep [] tail1); [done|cbn [length]; lia|]. rewrite concat_app. cbn [concat]. by rewrite !app_nil_r.
  - destruct (slice ((pre ++ hd) ++ tail1) (zlen (pre ++ hd)) (zlen (pre ++ hd) +w len)) as [e| |] eqn:He; [|done..]. cbn [obind].
    apply slice_after in He as (tail2 & -> & Hle & Hoff2); [|unfold_u64; unfold u32_max in Hr; lia|done].
    rewrite Hoff2, <-offsets_snoc, (offsets_snoc P e). intros Hloop. apply (Hstep e tail2); [done|done|]. rewrite <-app_assoc, concat_app. cbn [concat]. by rewrite app_nil_r.
Qed.

Lemma get_interleaved_inv n b bs offs : are_bytes b → zlen b < u64_modulus → 0 <= n < 2 ^ 61 → get_interleaved_bytes_and_offsets n b = Ok (bs, offs) →
  ∃ L rest, zlen L = n ∧ n <= u32_max ∧ frames_ok L ∧ b = interleave L ++ rest ∧ mk_vlen bs offs = pack L.
Proof.
  intros Hb Hlen Hn. unfold get_interleaved_bytes_and_offsets. destruct (zlen b <? _); [done|].
  destruct (slice b 0 4) as [hd| |] eqn:Hhd; [|done..]. cbn [obind]. apply slice_inv in Hhd as (p & r & -> & Hp & Hh).
  destruct p; [|done]. cbn [app length] in *. apply Forall_app in Hb as [Hhd Hr]. destruct (u32_le_inverse hd Hhd) as [Hru Hinv]; [lia|].
  unfold u32_try_from. destruct (Z.leb_spec n u32_max) as [Hnu|]; [|done]. cbn [expect obind]. destruct (Z.eqb_spec n (u32_from_le_bytes hd)) as [Heq|]; [|done]. cbn [negb].
  replace 4 with (zlen hd) by lia. intros Hloop. apply (interleaved_loop_inv _ hd r []) in Hloop as (L & rest & HL & Hf & -> & Hpk); [|done..].
  exists L, rest. split_and!; [lia|done|done| |done]. unfold interleave. replace (zlen L) with n by lia. by rewrite Heq, Hinv, <-app_assoc.
Qed.

(** *** Encoding *)

Lemma interleave_loop_ok v L k data : vlen_elements v L → frames_ok L → (k <= length L)%nat →
  interleave_loop (vl_bytes v) (drop k (tuple_windows (vl_offsets v))) data = Ok (data ++ frames (drop k L)).
Proof.
  intros Hv HL. remember (length L - k)%nat as m eqn:Hm. revert k Hm data. induction m as [|m IH]; intros k Hm data Hk.
  - rewrite !drop_ge by (unfold tuple_windows; rewrite ?length_zip_with, ?length_drop; destruct Hv; lia). cbn [interleave_loop]. unfold frames. cbn. by rewrite app_nil_r.
  - destruct (lookup_lt_is_Some_2 L k ltac:(lia)) as [e He]. destruct Hv as [Hlo Hv]. pose proof (Hv k e He) as (a & b & Ha & Hb & Hs).
    assert (tuple_windows (vl_offsets v) !! k = Some (a, b)) as Hw.
    { unfold tuple_windows. rewrite lookup_zip_with, Ha. cbn [mbind option_bind option_map]. rewrite lookup_drop. cbn [Nat.add]. by rewrite Hb. }
    rewrite (drop_S _ _ _ Hw), (drop_S _ _ _ He). cbn [interleave_loop]. rewrite Hs. cbn [obind]. unfold u32_try_from.
    rewrite (proj2 (Z.leb_le _ _)) by (by apply (Forall_lookup_1 _ _ _ _ HL He)). cbn [expect obind]. rewrite IH by lia. by rewrite frames_cons, <-!app_assoc.
Qed.

Lemma vlen_v2_encode_ok c v L sh options : v2_data_type c = PlainType VariableSize → vlen_elements v L → frames_ok L →
  validate_bytes (VariableBytes v) (product64 sh) (v2_data_type c) = Ok tt → product64 sh = zlen L → zlen L <= u32_max →
  vlen_v2_encode c (VariableBytes v) sh options = Ok (interleave L).
Proof.
  intros Hdt Hv HL Hval Hp Hn. unfold vlen_v2_encode. rewrite Hval, Hp. cbn [obind into_variable]. unfold u32_try_from.
  rewrite (proj2 (Z.leb_le _ _)) by done. cbn [ok_or obind]. pose proof (interleave_loop_ok v L 0 (u32_to_le_bytes (zlen L)) Hv HL ltac:(lia)) as Hl.
  by rewrite !drop_0 in Hl.
Qed.

(** ** Array bytes from bytes and offsets *)

Lemma monotone_windows_sorted l : Sorted Z.le l → monotone_windows l = true.
Proof.
  induction 1 as [|a l Hl IH Hh]; [done|]. destruct l as [|b l]; [done|]. inversion Hh; subst. cbn [monotone_windows] in *. rewrite IH, andb_true_r. by apply Z.leb_le.
Qed.

Lemma vlen_array_bytes_pack L : vlen_array_bytes (vl_bytes (pack L), vl_offsets (pack L)) = Ok (VariableBytes (pack L)).
Proof.
  unfold vlen_array_bytes. cbn [fst snd]. unfold offsets_new. rewrite decide_False by (cbn [vl_offsets pack]; by destruct L).
  pose proof (pack_offsets_sorted L) as Hs. apply Sorted_inv in Hs as [Hs _]. rewrite monotone_windows_sorted by done. cbn [obind].
  unfold new_vlen. replace (last (vl_offsets (pack L))) with (Some (zlen (concat L))) by (rewrite pack_snoc_offsets; cbn [vl_offsets]; by rewrite last_snoc).
  cbn [default vl_bytes pack]. by rewrite Z.leb_refl.
Qed.

Lemma vlen_array_bytes_Ok decoded b : vlen_array_bytes decoded = Ok b → b = VariableBytes (mk_vlen decoded.1 decoded.2).
Proof.
  unfold vlen_array_bytes, offsets_new, new_vlen. destruct (decide _); [done|]. destruct (monotone_windows _); [|done]. cbn [obind].
  destruct (_ <=? _); [|done]. by intros [= <-].
Qed.

(** ** The partial decoders *)

(** A region is extracted as [ArrayBytes::extract_array_subset] does. *)
Lemma extract_decoded_regions_ok v L sub sh : region_ok sub sh → vlen_elements v L → zlen L = Zprod sh → zlen (vl_bytes v) < u64_modulus →
  (let? v := extract_decoded_regions_vlen (vl_bytes v) (vl_offsets v) sub sh in Ok (VariableBytes v)) =
  extract_array_subset (VariableBytes v) sub sh (PlainType VariableSize).
Proof.
  intros Hsub Hv HL Hb. unfold extract_decoded_regions_vlen. cbn [extract_array_subset]. rewrite linearised_indices_ok by done. cbn [map_err obind].
  destruct Hsub as (Hs & Ha & _ & Hash). pose proof (positions_bound sub sh Hs Ha) as Hpb. rewrite <-HL in Hpb.
  destruct Hash as [_ Hash]. by rewrite (element_sizes_ok v L) by (done || lia).
Qed.

Section partial.
Context (decode : bytes → outcome CodecError (bytes * list Z)) (fv : FillValue).

Lemma vlen_partial_ok sh h key v w b V sub : Zprod sh * Z.max 1 (zlen fv) < 2 ^ 63 → handle_tails 0 h key v w →
  holds b (PlainType VariableSize) V → zlen V = Zprod sh →
  match w with
  | Some enc => zlen enc < u64_modulus ∧ (let? d := decode enc in vlen_array_bytes d) = Ok b
  | None => new_fill_value (PlainType VariableSize) (Zprod sh) fv = Ok b ∧ V = replicate (Z.to_nat (Zprod sh)) (fill_element (PlainType VariableSize) fv)
  end → region_ok sub sh →
  ∃ out, runs_at (vlen_partial_decode decode (PlainType VariableSize) fv h sh sub) v (Ok out) v ∧
    holds out (PlainType VariableSize) (select V (positions sub sh)) ∧ array_bytes_size out <= array_bytes_size b.
Proof.
  intros Hb Hr Hh HV Hw Hsub.
  destruct (region_content (PlainType VariableSize) fv sh w b V sub) as (out & Hout & Hho & Hsz); [done|done|done|done|by intros ->|done|].
  exists out. split_and!; [|done|done]. eapply runs_at_bind; [eapply (tails_decode 0); [done|exact Hr|by intros ? ->; destruct Hw]|].
  destruct w as [enc|]; cbn [decode_vlen_bytes]; [|by rewrite Hout]. destruct Hw as [_ Hw].
  destruct (decode enc) as [[bs offs]| |]; [|done..]. apply vlen_array_bytes_Ok in Hw as ->. cbn [fst snd obind] in *.
  apply holds_variable in Hh as (v' & L & [= <-] & -> & Hv & Hl & Hs). rewrite length_fmap in HV. cbn [vl_bytes] in Hs.
  pose proof (extract_decoded_regions_ok _ L sub sh Hsub Hv HV) as Hx. cbn [vl_bytes vl_offsets] in Hx.
  rewrite Hx by (unfold u64_modulus; lia). by rewrite Hout.
Qed.
End partial.

Lemma vlen_partial_confined decode dt fv h key sh sub : (∀ rs, confined key (bytes_partial_decode_many h rs)) →
  confined key (vlen_partial_decode decode dt fv h sh sub).
Proof. intros Hc. apply confined_bind; [by apply bytes_decode_confined|]. intros b. by destruct (decode_vlen_bytes _ _ _ _ _ _). Qed.

(** ** The codec *)

Definition vlen_v2_encodes (c : VlenV2CodecBound) (sh : list Z) (enc : bytes) (b : ArrayBytes) (V : list element) : Prop :=
  ∀ options, vlen_v2_decode c enc sh options = Ok b.

(** The elements of a chunk fit in 32 bits, with their number. *)
Record vlen_v2_shape_ok (c : VlenV2CodecBound) (sh : list Z) : Prop := {
  v2_chunk : chunk_shape_ok sh;
  v2_fill : Zprod sh * Z.max 1 (zlen (v2_fill_value c)) < 2 ^ 32;
}.

Lemma vlen_v2_roundtrip c sh b V : v2_data_type c = PlainType VariableSize → vlen_v2_shape_ok c sh →
  holds b (v2_data_type c) V → zlen V = Zprod sh → array_bytes_size b < 2 ^ 32 →
  ∃ L, V = Value <$> L ∧ (∀ options, vlen_v2_encode c b sh options = Ok (interleave L)) ∧ zlen (interleave L) <= 4 * (1 + Zprod sh) + 2 ^ 32 ∧
    vlen_v2_encodes c sh (interleave L) (VariableBytes (pack L)) V ∧ holds (VariableBytes (pack L)) (v2_data_type c) V ∧
    zlen (concat L) <= array_bytes_size b.
Proof.
  intros Hdt [Hsh Hf] Hh HV Hb. destruct (chunk_shape_product sh Hsh) as [Hp Hpos]. pose proof (holds_valid _ _ _ Hh) as Hval. rewrite Hdt in Hh.
  apply holds_variable in Hh as (v & L & -> & -> & Hv & Hl & Hs). rewrite length_fmap in *. pose proof (vlen_total v L Hv) as Ht.
  cbn [array_bytes_size] in Hb. pose proof (length_interleave L) as Hil.
  assert (zlen L <= u32_max) as Hn by (unfold u32_max; nia). assert (frames_ok L) as Hfr by (apply frames_small; unfold u32_max; lia).
  exists L. split_and!; [done| |lia| | |cbn [array_bytes_size]; lia].
  - intros options. apply vlen_v2_encode_ok; try done; [|lia]. rewrite Hp, <-HV. exact Hval.
  - intros options. unfold vlen_v2_decode. rewrite Hp, <-HV. pose proof (get_interleaved_ok L [] Hn Hfr) as Hg. rewrite app_nil_r in Hg.
    rewrite Hg by (unfold u64_modulus; unfold u32_max in Hn; lia). apply vlen_array_bytes_pack.
  - rewrite Hdt. apply holds_pack; lia.
Qed.

#[export] Program Instance vlen_v2_lawful : LawfulArrayToBytesCodec VlenV2CodecBound := {|
  a2b_wf c := v2_data_type c = PlainType VariableSize;
  a2b_shape_ok := vlen_v2_shape_ok;
  a2b_limit _ _ := 2 ^ 32;
  a2b_encoded_limit _ sh := 4 * (1 + Zprod sh) + 2 ^ 32;
  a2b_offset_limit _ := 0;
  a2b_encodes := vlen_v2_encodes;
|}.
Next Obligation. intros c Hc. cbn in *. unfold fill_ok. by rewrite Hc. Qed.
Next Obligation. intros c _. cbv beta. lia. Qed.
Next Obligation.
  intros c sh Hc [Hsh Hf]. destruct (chunk_shape_product sh Hsh) as [_ Hpos]. cbn in *. rewrite Hc. cbn [base_fill]. unfold u64_modulus.
  split_and!; [done|lia|nia|done].
Qed.
Next Obligation. intros c sh _ _. by eexists. Qed.
Next Obligation. intros c sh options enc b V _ _ Hd _ _ _. apply Hd. Qed.
Next Obligation.
  intros c sh options b V Hc Hsh Hh HV Hb. cbn in *. destruct (vlen_v2_roundtrip c sh b V Hc Hsh Hh HV Hb) as (L & -> & He & Hl & Henc & Hho & Hs).
  exists (interleave L), (VariableBytes (pack L)), BytesUnboundedSize. split_and!; [done|done|unfold vlen_representation; by rewrite Hc|done|done|done|by eexists|done].
Qed.
Next Obligation. intros c sh options enc b V t t' _ _ (_ & _ & _ & _ & Hdec) _ Ht. by eapply default_decode_into_ok. Qed.
Next Obligation.
  intros c sh options h key v w b V Hc [Hsh Hf] Hr Hcc. cbn in *. rewrite Hc in Hcc |- *. eexists. split; [done|]. intros sub Hsub.
  destruct (vlen_partial_ok (get_interleaved_bytes_and_offsets (product64 sh)) (v2_fill_value c) sh h key v w b V sub) as (out & Hrun & Hho & Hsz);
    [lia|exact Hr|apply Hcc|apply Hcc| |done|].
  { destruct Hcc as (_ & _ & _ & Hw). destruct w; [|done]. destruct Hw as [? Hw]. split; [done|]. apply (Hw options). }
  exists out. split_and!; [exact Hrun|done|done|]. intros t t' Ht Hd. by eapply default_partial_decode_into_ok.
Qed.
Next Obligation.
  intros c sh options h key Hr sub. split; [by apply vlen_partial_confined|]. intros t.
  by apply default_partial_decode_into_confined, vlen_partial_confined.
Qed.

Lemma interleaved_loop_packs n b o P bs offs : interleaved_loop n b o (concat P) (offset_of P <$> seq 0 (length P)) = Ok (bs, offs) →
  ∃ L, length L = n ∧ mk_vlen bs offs = pack (P ++ L).
Proof.
  revert o P. induction n as [|n IH]; intros o P; cbn [interleaved_loop].
  { intros [= <- <-]. exists []. by rewrite app_nil_r, pack_snoc_offsets. }
  destruct (slice b o (o +w 4)) as [hd| |]; [|done..]. cbn [obind].
  assert (∀ o e, interleaved_loop n b o (concat P ++ e) ((offset_of P <$> seq 0 (length P)) ++ [zlen (concat P)]) = Ok (bs, offs) →
    ∃ L, length L = S n ∧ mk_vlen bs offs = pack (P ++ L)) as Hstep.
  { intros o' e Hl. rewrite (offsets_snoc P e) in Hl. replace (concat P ++ e) with (concat (P ++ [e])) in Hl by (rewrite concat_app; cbn [concat]; by rewrite app_nil_r).
    apply IH in Hl as (L & HL & ->). exists (e :: L). cbn [length]. split; [lia|]. by rewrite <-app_assoc. }
  destruct (_ =? 0); [intros Hl; eapply (Hstep _ []); rewrite app_nil_r; exact Hl|].
  destruct (slice b _ _) as [e| |]; [|done..]. cbn [obind]. apply Hstep.
Qed.

Lemma pack_valid L n : zlen L = n → n < 2 ^ 63 → validate_bytes (VariableBytes (pack L)) n (PlainType VariableSize) = Ok tt.
Proof. intros <- Hn. by apply validate_pack. Qed.

#[export] Instance vlen_v2_validates : ValidatingArrayToBytesCodec VlenV2CodecBound.
Proof.
  intros c sh options enc b Hc [Hsh _] Hd. cbn in *. rewrite Hc. destruct (chunk_shape_product sh Hsh) as [Hp Hpos]. destruct Hsh as [_ Hsh].
  unfold vlen_v2_decode, get_interleaved_bytes_and_offsets in Hd. rewrite Hp in Hd |- *.
  destruct (zlen enc <? _); [done|]. destruct (slice enc 0 4) as [hd| |]; [|done..]. cbn [obind] in Hd.
  destruct (expect (u32_try_from (Zprod sh))) as [x| |]; [|done..]. cbn [obind] in Hd. destruct (negb _); [done|].
  destruct (interleaved_loop _ _ _ _ _) as [[bs offs]| |] eqn:Hl; [|done..]. cbn [obind] in Hd. apply vlen_array_bytes_Ok in Hd as ->. cbn [fst snd].
  apply (interleaved_loop_packs _ enc 4 []) in Hl as (L & HL & ->). apply pack_valid; [rewrite app_nil_l; lia|lia].
Qed.

(** ** The wrappers *)

Section wrapper.
Context {C : Type} `{LC : LawfulArrayToBytesCodec C}.

#[export] Program Instance wrapper_lawful : LawfulArrayToBytesCodec (VlenWrapperBound C) := {|
  a2b_wf c := a2b_wf (wrapped c);
  a2b_shape_ok c := a2b_shape_ok (wrapped c);
  a2b_limit c := a2b_limit (wrapped c);
  a2b_encoded_limit c := a2b_encoded_limit (wrapped c);
  a2b_offset_limit c := a2b_offset_limit (wrapped c);
  a2b_encodes c := a2b_encodes (wrapped c);
|}.
Next Obligation. intros c. exact (a2b_fill_law (wrapped c)). Qed.
Next Obligation. intros c. exact (a2b_offset_law (wrapped c)). Qed.
Next Obligation. intros c. exact (a2b_shape_law (wrapped c)). Qed.
Next Obligation. intros c. exact (a2b_concurrency_law (wrapped c)). Qed.
Next Obligation. intros c. exact (a2b_decode_law (wrapped c)). Qed.
Next Obligation. intros c. exact (a2b_roundtrip (wrapped c)). Qed.
Next Obligation.
  intros c sh options enc b V t t' Hc Hsh (Hb & HV & _ & Hl & He) _ Ht. eapply default_decode_into_ok; [|exact Ht].
  by apply (a2b_decode_law (wrapped c) sh options enc b V).
Qed.
Next Obligation. intros c. exact (a2b_partial_law (wrapped c)). Qed.
Next Obligation. intros c. exact (a2b_partial_confined (wrapped c)). Qed.

#[export] Instance wrapper_validates `{!ValidatingArrayToBytesCodec C} : ValidatingArrayToBytesCodec (VlenWrapperBound C).
Proof. intros c. exact (a2b_decode_valid (wrapped c)). Qed.
End wrapper.

(** ** Binding: the codecs can be used in chains *)

#[export] Program Instance vlen_v2_unbound_lawful : LawfulUnboundArrayToBytesCodec VlenV2Codec VlenV2CodecBound := {| uc_wf _ := True |}.
Next Obligation.
  intros u dt fv c _ _. cbn. unfold vlen_v2_with_context, is_variable. destruct dt as [[d|]|inner]; [done| |done]. intros [= <-]. split_and!; done || (cbn; lia).
Qed.

#[export] Program Instance wrapper_unbound_lawful {UC C : Type} `{LawfulUnboundArrayToBytesCodec UC C} :
    LawfulUnboundArrayToBytesCodec (VlenWrapper UC) (VlenWrapperBound C) := {| uc_wf self := uc_wf (u_wrapped self) |}.
Next Obligation.
  intros UC C t l ub lu u dt fv c Hu Hf. cbn. unfold wrapper_with_context. destruct (uc_with_context (u_wrapped u) dt fv) as [inner| |] eqn:Hc; [|done..].
  intros [= <-]. by apply (uc_law (u_wrapped u) dt fv inner).
Qed.
