(* ===== verification/VlenIndexed.v ===== *)
(** The [vlen] codec: [array_to_bytes/vlen.rs], [vlen/vlen_codec.rs] and [vlen/vlen_partial_decoder.rs].

    The offsets of the elements are encoded by one codec and their bytes by another; the length of the
    encoded offsets is written before or after them. *)

From S2P Require Import Prelude ArraySubset Linear Iterators ByteRange StoreKey Storage ArrayBytes.
From S2P Require Import Elements StoreProgram DecodeInto Concurrency Codec BytesCodec Checksums CodecChain Sharding Vlen.

Inductive VlenIndexDataType := VlenUInt32 | VlenUInt64.
Inductive VlenIndexLocation := VlenStart | VlenEnd.

#[export] Instance DataTypeSize_eq_dec : EqDecision DataTypeSize.
Proof. solve_decision. Defined.
#[export] Instance DataType_eq_dec : EqDecision DataType.
Proof. solve_decision. Defined.

(** The types of the index and of the data, as far as the model tells data types apart. *)
Definition uint8 : DataType := PlainType (FixedSize 1).
Definition uint32 : DataType := PlainType (FixedSize 4).
Definition uint64 : DataType := PlainType (FixedSize 8).

(** [slice::split_at]. *)
Definition split_at {E} (b : bytes) (mid : Z) : outcome E (bytes * bytes) :=
  if (0 <=? mid) && (mid <=? zlen b) then Ok (take (Z.to_nat mid) b, drop (Z.to_nat mid) b) else Panic.

Section native.
Context `{Target}.

(** [transmute_to_bytes_vec] of a [Vec<u32>]. *)
Definition u32_to_ne_bytes (x : Z) : bytes := if decide (native = Little) then u32_to_le_bytes x else reverse (u32_to_le_bytes x).
Definition u32_from_ne_bytes (b : bytes) : Z := u32_from_le_bytes (if decide (native = Little) then b else reverse b).
Definition u32_index_to_bytes (index : list Z) : bytes := concat (u32_to_ne_bytes <$> index).

(** [bytemuck::pod_collect_to_vec] from bytes: the bytes that are left over are filled up with zeros. *)
Definition pod_collect (n : nat) (b : bytes) : list bytes :=
  chunks_exact n (b ++ replicate ((n - length b mod n) mod n) 0).

Definition offsets_u32 (index : bytes) : list Z := u32_from_ne_bytes <$> pod_collect 4 index.
Definition offsets_u64 (index : bytes) : list Z := u64_from_ne_bytes <$> pod_collect 8 index.

Definition reverse_endianness (v : bytes) (data_type : DataType) : outcome CodecError bytes :=
  match fixed_size data_type with
  | None => Panic
  | Some size => if size =? 1 then Ok v else if size =? 0 then Panic else Ok (reverse_components (Z.to_nat size) v)
  end.
End native.

(** The lengths of the windows of the offsets are invalid. *)
Definition invalid_window (data_len : Z) (w : Z * Z) : bool := (w.2 <? w.1) || (data_len <? w.2).

Section codec.
Context {I D : Type} `{!ArrayToBytesCodecTraits I, !ArrayToBytesCodecTraits D} `{Target}.

(** The shape of the index: one more than the elements. *)
Definition vlen_index_shape (shape : list Z) : outcome CodecError (list Z) :=
  let n := product64 shape +w 1 in if n =? 0 then Panic else Ok [n].

(** The encoded index and the encoded data. *)
Definition split_vlen (b : bytes) (index_location : VlenIndexLocation) : outcome CodecError (bytes * bytes) :=
  if zlen b <? 8 then Err (UnexpectedChunkDecodedSize (zlen b) 8)
  else
    let? (bytes_index_len, bytes_main) :=
      match index_location with
      | VlenStart => split_at b 8
      | VlenEnd => let? (bytes_main, bytes_index_len) := split_at b (zlen b -w 8) in Ok (bytes_index_len, bytes_main)
      end in
    let index_len := u64_from_le_bytes bytes_index_len in
    match index_location with
    | VlenStart => split_at bytes_main index_len
    | VlenEnd => let? (bytes_data, bytes_index) := split_at bytes_main (zlen bytes_main -w index_len) in Ok (bytes_index, bytes_data)
    end.

Definition decode_vlen_index (index_enc : bytes) (index_shape : list Z) (index_codecs : I) (options : CodecOptions) : outcome CodecError (list Z) :=
  let? index := a2b_decode index_codecs index_enc index_shape options in
  let? index := into_fixed index in
  let index_data_type := a2b_data_type index_codecs in
  let? index := if decide (native = Big) then reverse_endianness index index_data_type else Ok index in
  if decide (index_data_type = uint32) then Ok (offsets_u32 index)
  else if decide (index_data_type = uint64) then Ok (offsets_u64 index)
  else Err CodecOther.

Definition get_vlen_bytes_and_offsets (shape : list Z) (index_codecs : I) (data_codecs : D) (index_location : VlenIndexLocation)
    (options : CodecOptions) (b : bytes) : outcome CodecError (bytes * list Z) :=
  let? index_shape := vlen_index_shape shape in
  let? (index_enc, data_enc) := split_vlen b index_location in
  let? index := decode_vlen_index index_enc index_shape index_codecs options in
  let? data_len_expected := ok_or CodecOther (last index) in
  let? data :=
    if data_len_expected =? 0 then Ok []
    else let? data := a2b_decode data_codecs data_enc [data_len_expected] options in into_fixed data in
  if negb (zlen data =? data_len_expected) then Err CodecOther
  else if existsb (invalid_window (zlen data)) (tuple_windows index) then Err CodecOther
  else Ok (data, index).

Record VlenCodecBound := mk_vlen_codec {
  vlen_index_codecs : I;
  vlen_data_codecs : D;
  vlen_index_location : VlenIndexLocation;
  vlen_data_type : DataType;
  vlen_fill_value : FillValue;
}.

Definition encode_vlen_index (self : VlenCodecBound) (offsets : list Z) (index_shape : list Z) (options : CodecOptions) : outcome CodecError bytes :=
  if decide (a2b_data_type (vlen_index_codecs self) = uint32) then
    let? offsets := ok_or CodecOther (collect_opt (u32_try_from <$> offsets)) in
    a2b_encode (vlen_index_codecs self) (FixedBytes (u32_index_to_bytes offsets)) index_shape options
  else if decide (a2b_data_type (vlen_index_codecs self) = uint64) then
    a2b_encode (vlen_index_codecs self) (FixedBytes (index_to_bytes offsets)) index_shape options
  else Err CodecOther.

Definition vlen_encode (self : VlenCodecBound) (b : ArrayBytes) (shape : list Z) (options : CodecOptions) : outcome CodecError bytes :=
  let num_elements := product64 shape in
  let? _ := validate_bytes b num_elements (vlen_data_type self) in
  let? v := into_variable b in
  if negb (zlen (vl_offsets v) =? num_elements +w 1) then Panic
  else
    let? index_shape := vlen_index_shape shape in
    let? offsets := encode_vlen_index self (vl_offsets v) index_shape options in
    let? data :=
      if zlen (vl_bytes v) =? 0 then Ok []
      else a2b_encode (vlen_data_codecs self) (FixedBytes (vl_bytes v)) [zlen (vl_bytes v)] options in
    Ok (match vlen_index_location self with
        | VlenStart => u64_to_le_bytes (zlen offsets) ++ offsets ++ data
        | VlenEnd => data ++ offsets ++ u64_to_le_bytes (zlen offsets)
        end).

Definition get_bytes_and_offsets (self : VlenCodecBound) (shape : list Z) (options : CodecOptions) : bytes → outcome CodecError (bytes * list Z) :=
  get_vlen_bytes_and_offsets shape (vlen_index_codecs self) (vlen_data_codecs self) (vlen_index_location self) options.

Definition vlen_decode (self : VlenCodecBound) (b : bytes) (shape : list Z) (options : CodecOptions) : outcome CodecError ArrayBytes :=
  let? decoded := get_bytes_and_offsets self shape options b in
  vlen_array_bytes decoded.

Definition vlen_partial_decoder (self : VlenCodecBound) (input_handle : BytesHandle) (shape : list Z) (options : CodecOptions)
    : prog CodecError ArrayHandle :=
  let decode := vlen_partial_decode (get_bytes_and_offsets self shape options) (vlen_data_type self) (vlen_fill_value self) input_handle shape in
  preturn {| partial_decode := decode; partial_decode_into := default_partial_decode_into decode |}.

#[export] Instance vlen_traits : ArrayToBytesCodecTraits VlenCodecBound := {|
  a2b_data_type := vlen_data_type;
  a2b_fill_value := vlen_fill_value;
  a2b_recommended_concurrency _ _ := Ok (new_maximum 1);
  a2b_partial_decoder_capability _ := {| partial_read := false; can_partial_decode := false |};
  a2b_partial_encode_capability _ := false;
  a2b_encoded_representation self _ := vlen_representation (vlen_data_type self);
  a2b_encode := vlen_encode;
  a2b_decode := vlen_decode;
  a2b_compact _ _ _ _ := Ok None;
  a2b_decode_into self := default_decode_into (vlen_decode self);
  a2b_partial_decoder := vlen_partial_decoder;
  a2b_partial_encoder self := default_partial_encoder (vlen_data_type self) (vlen_fill_value self) (vlen_encode self) (vlen_decode self);
|}.
End codec.
Arguments VlenCodecBound : clear implicits.

(** ** Binding *)

Record VlenCodec (UI UD : Type) := mk_unbound_vlen {
  uv_index_codecs : UI;
  uv_data_codecs : UD;
  uv_index_data_type : VlenIndexDataType;
  uv_index_location : VlenIndexLocation;
}.
Arguments mk_unbound_vlen {UI UD} _ _ _ _.
Arguments uv_index_codecs {UI UD} _.
Arguments uv_data_codecs {UI UD} _.
Arguments uv_index_data_type {UI UD} _.
Arguments uv_index_location {UI UD} _.

Section binding.
Context {UI UD I D : Type} `{!ArrayToBytesCodecTraits I, !ArrayToBytesCodecTraits D}.
Context `{!UnboundArrayToBytesCodecTraits UI I, !UnboundArrayToBytesCodecTraits UD D} `{Target}.

Definition with_index_location (self : VlenCodec UI UD) (index_location : VlenIndexLocation) : VlenCodec UI UD :=
  mk_unbound_vlen (uv_index_codecs self) (uv_data_codecs self) (uv_index_data_type self) index_location.

Definition vlen_with_context (self : VlenCodec UI UD) (data_type : DataType) (fill_value : FillValue) : outcome CodecError (VlenCodecBound I D) :=
  if is_optional data_type then Err UnsupportedDataType
  else if negb (is_variable data_type) then Err UnsupportedDataType
  else
    let? index_codecs :=
      match uv_index_data_type self with
      | VlenUInt32 => uc_with_context (uv_index_codecs self) uint32 (u32_to_ne_bytes 0)
      | VlenUInt64 => uc_with_context (uv_index_codecs self) uint64 (u64_to_ne_bytes 0)
      end in
    let? data_codecs := uc_with_context (uv_data_codecs self) uint8 [0] in
    Ok (mk_vlen_codec index_codecs data_codecs (uv_index_location self) data_type fill_value).

#[export] Instance vlen_unbound : UnboundArrayToBytesCodecTraits (VlenCodec UI UD) (VlenCodecBound I D) := {|
  uc_partial_decoder_capability _ := {| partial_read := false; can_partial_decode := false |};
  uc_with_context := vlen_with_context |}.
End binding.
