(* ===== verification/VlenTheorems.v ===== *)
(** The [vlen] codec, and the properties of the codecs of variable-length elements.

    The [vlen] codec is lossless, and its partial decoder reads regions.  Unlike other codecs it keeps the bytes of the elements
    as they are, with the bytes that no element has: it returns the array bytes it was given.  The properties: what the
    [vlen_v2] decoder accepts, that the [vlen] codec returns and reads what it was given, and what it makes of its offsets on a
    big-endian target. *)

From stdpp Require Import sorting.
From S2P Require Import Prelude ArraySubset Linear Iterators ByteRange StoreKey Storage MemoryStore ArrayBytes Elements StoreProgram.
From S2P Require Import DecodeInto Concurrency Codec BytesCodec Checksums CodecChain Sharding ShardPlacement Vlen VlenLaws VlenIndexed.

Section native.
Context `{Target}.

Lemma pod_collect_concat n L : (0 < n)%nat → Forall (λ e, length e = n) L → pod_collect n (concat L) = L.
Proof.
  intros Hn HL. unfold pod_collect. rewrite (length_concat_const n) by done. rewrite Nat.Div0.mod_mul, Nat.sub_0_r, Nat.Div0.mod_same. cbn [replicate].
  rewrite app_nil_r. by apply chunks_exact_concat.
Qed.

Lemma length_u32_ne_bytes x : length (u32_to_ne_bytes x) = 4%nat.
Proof. unfold u32_to_ne_bytes. destruct (decide _); [|rewrite length_reverse]; apply length_u32_bytes. Qed.

Lemma u32_ne_roundtrip x : 0 <= x <= u32_max → u32_from_ne_bytes (u32_to_ne_bytes x) = x.
Proof.
  intros Hx. unfold u32_from_ne_bytes, u32_to_ne_bytes. destruct (decide _); [|rewrite reverse_involutive]; by apply u32_le_roundtrip.
Qed.

Lemma offsets_u32_ok offsets : Forall (λ o, 0 <= o <= u32_max) offsets → offsets_u32 (u32_index_to_bytes offsets) = offsets.
Proof.
  intros Ho. unfold offsets_u32, u32_index_to_bytes. rewrite pod_collect_concat; [|lia|apply Forall_fmap, Forall_true; intros x; apply length_u32_ne_bytes].
  rewrite list_fmap_fmap. rewrite <-(list_fmap_id offsets) at 2. apply list_fmap_ext_in. intros x Hx. apply u32_ne_roundtrip. by apply (proj1 (Forall_forall _ _) Ho).
Qed.

Lemma offsets_u64_ok offsets : Forall is_u64 offsets → offsets_u64 (index_to_bytes offsets) = offsets.
Proof.
  intros Ho. unfold offsets_u64, index_to_bytes. rewrite pod_collect_concat; [|lia|apply Forall_fmap, Forall_true; intros x; apply length_u64_bytes].
  rewrite list_fmap_fmap. rewrite <-(list_fmap_id offsets) at 2. apply list_fmap_ext_in. intros x Hx. apply u64_ne_roundtrip. by apply (proj1 (Forall_forall _ _) Ho).
Qed.
End native.

(** ** The two parts *)

Lemma split_at_app {E} (p q : bytes) n : n = zlen p → split_at (E:=E) (p ++ q) n = Ok (p, q).
Proof.
  intros ->. unfold split_at. rewrite length_app, !(proj2 (Z.leb_le _ _)) by lia. cbn [andb]. rewrite Nat2Z.id. by rewrite take_app_length, drop_app_length.
Qed.

Definition join_vlen (index_location : VlenIndexLocation) (index data : bytes) : bytes :=
  match index_location with
  | VlenStart => u64_to_le_bytes (zlen index) ++ index ++ data
  | VlenEnd => data ++ index ++ u64_to_le_bytes (zlen index)
  end.

Lemma length_join l index data : zlen (join_vlen l index data) = 8 + zlen index + zlen data.
Proof. destruct l; cbn [join_vlen]; rewrite !length_app, length_u64_le; lia. Qed.

Lemma vlen_split_join l index data : zlen (join_vlen l index data) < u64_modulus → split_vlen (join_vlen l index data) l = Ok (index, data).
Proof.
  intros Hl. pose proof (length_join l index data) as Hj. unfold split_vlen. rewrite (proj2 (Z.ltb_ge _ _)) by lia.
  pose proof (length_u64_le (zlen index)) as H8. assert (is_u64 (zlen index)) as Hi by (unfold is_u64; lia). destruct l; cbn [join_vlen] in *.
  - rewrite split_at_app by lia. cbn [obind]. rewrite u64_le_roundtrip by done. by apply split_at_app.
  - rewrite (app_assoc data). rewrite wrap64_small by (unfold is_u64; rewrite !length_app in *; lia). rewrite split_at_app by (rewrite !length_app; lia).
    cbn [obind]. rewrite u64_le_roundtrip by done. rewrite wrap64_small by (unfold is_u64; rewrite !length_app in *; lia).
    by rewrite split_at_app by (rewrite !length_app; lia).
Qed.

(** ** Valid offsets *)

Definition offsets_ok (offsets : list Z) (len : Z) : Prop :=
  Sorted Z.le offsets ∧ Forall (λ o, 0 <= o <= len) offsets ∧ last offsets = Some len.

Lemma validate_offsets_inv l len o0 r : validate_offsets_loop l len o0 = Ok r →
  Sorted Z.le (o0 :: l) ∧ Forall (λ o, o0 <= o <= len) l ∧ r = default o0 (last l).
Proof.
  revert o0. induction l as [|o l IH]; intros o0; cbn [validate_offsets_loop].
  { intros [= <-]. split_and!; [by repeat constructor|by constructor|done]. }
  destruct (Z.ltb_spec o o0); [done|]. destruct (Z.ltb_spec len o); [done|]. cbn [orb]. intros Hr. apply IH in Hr as (Hs & Hf & ->).
  split_and!; [constructor; [done|constructor; lia]| |rewrite last_cons; by destruct (last l)].
  constructor; [lia|]. eapply Forall_impl; [exact Hf|]. simpl. lia.
Qed.

Lemma validate_vlen_inv b offsets n : validate_bytes_vlen b offsets n = Ok tt → zlen offsets = n +w 1 ∧ (offsets ≠ [] → offsets_ok offsets (zlen b)).
Proof.
  unfold validate_bytes_vlen. destruct (Z.eqb_spec (zlen offsets) (n +w 1)) as [Hn|]; [|done]. cbn [negb].
  destruct (validate_offsets_loop offsets (zlen b) 0) as [o| |] eqn:Ho; [|done..]. cbn [obind]. destruct (Z.eqb_spec o (zlen b)) as [->|]; [|done]. intros _.
  split; [done|]. intros Hne. apply validate_offsets_inv in Ho as (Hs & Hf & Hl). apply Sorted_inv in Hs as [Hs _]. split_and!; [done|done|].
  destruct (last offsets) as [x|] eqn:Hx; [|by apply last_None in Hx]. cbn in Hl. by rewrite Hl.
Qed.

Lemma validate_vlen_intro b offsets n : offsets_ok offsets (zlen b) → zlen offsets = n +w 1 → validate_bytes_vlen b offsets n = Ok tt.
Proof.
  intros (Hs & Hf & Hl) Hn. unfold validate_bytes_vlen. rewrite Hn, Z.eqb_refl. cbn [negb]. rewrite validate_offsets_monotone.
  - cbn [obind]. rewrite Hl. cbn. by rewrite Z.eqb_refl.
  - constructor; [done|]. destruct Hf as [|o l Ho]; constructor; lia.
  - eapply Forall_impl; [exact Hf|]. simpl. lia.
Qed.

Lemma windows_cons a b l : tuple_windows (a :: b :: l) = (a, b) :: tuple_windows (b :: l).
Proof. done. Qed.

Lemma windows_valid offsets len : Sorted Z.le offsets → Forall (λ o, 0 <= o <= len) offsets → existsb (invalid_window len) (tuple_windows offsets) = false.
Proof.
  intros Hs. induction Hs as [|a l Hs IH Hh]; intros Hf; [done|]. inversion Hf; subst. destruct l as [|b l]; [done|]. inversion Hh; subst.
  rewrite windows_cons. cbn [existsb]. rewrite IH by done. unfold invalid_window. cbn [fst snd]. match goal with H : Forall _ (b :: l) |- _ => inversion H; subst end.
  by rewrite !(proj2 (Z.ltb_ge _ _)) by lia.
Qed.

Lemma windows_valid_inv offsets len : existsb (invalid_window len) (tuple_windows offsets) = false → Sorted Z.le offsets.
Proof.
  induction offsets as [|a l IH]; [constructor|]. destruct l as [|b l]; [by repeat constructor|]. rewrite windows_cons. cbn [existsb].
  intros [Hw Hr]%orb_false_iff. constructor; [by apply IH|]. constructor. unfold invalid_window in Hw. cbn [fst snd] in Hw. apply orb_false_iff in Hw as [Hw _]. by apply Z.ltb_ge.
Qed.

Lemma vlen_array_bytes_ok b offsets : offsets_ok offsets (zlen b) → vlen_array_bytes (b, offsets) = Ok (VariableBytes (mk_vlen b offsets)).
Proof.
  intros (Hs & _ & Hl). unfold vlen_array_bytes, offsets_new. cbn [fst snd]. rewrite decide_False by (by intros ->).
  rewrite monotone_windows_sorted by done. cbn [obind]. unfold new_vlen. rewrite Hl. cbn. by rewrite Z.leb_refl.
Qed.

(** ** The codec *)

Section laws.
Context {I D : Type} `{LI : LawfulArrayToBytesCodec I, LD : LawfulArrayToBytesCodec D} `{T : Target}.

(** Elements of a fixed size go through a lawful codec. *)
Lemma fixed_through {C} `{LC : LawfulArrayToBytesCodec C} (codec : C) s L d options : a2b_wf codec → a2b_shape_ok codec s → a2b_data_type codec = PlainType (FixedSize d) →
  fixed_elements d L → zlen L = Zprod s → ∃ enc, a2b_encode codec (FixedBytes (concat L)) s options = Ok enc ∧ zlen enc <= a2b_encoded_limit codec s ∧
    ∀ options', a2b_decode codec enc s options' = Ok (FixedBytes (concat L)).
Proof.
  intros Hc Hs Hdt HL Hl. destruct (a2b_shape_law _ _ Hc Hs) as (_ & Hlim & Henc & Hb). rewrite Hdt in Hb. pose proof (a2b_fill_law _ Hc) as Hf.
  unfold fill_ok in Hf. rewrite Hdt in Hf. cbn [data_type_size] in Hf. destruct Hf as [Hd Hf]. rewrite Hf, Z.max_r in Hb by lia.
  assert (holds (FixedBytes (concat L)) (PlainType (FixedSize d)) (Value <$> L)) as Hh by (apply holds_fixed; exists L; split_and!; [done..|nia]).
  destruct (a2b_roundtrip codec s options (FixedBytes (concat L)) (Value <$> L)) as (enc & b' & rep & He & Hlen & _ & _ & Hae & Hh' & _);
    [done|done|by rewrite Hdt|by rewrite length_fmap|cbn [array_bytes_size]; rewrite (fixed_elements_length d) by done; nia|].
  exists enc. split_and!; [done|done|]. intros options'. rewrite Hdt in Hh'. rewrite <-(holds_fixed_inj _ _ _ _ Hh' Hh).
  apply (a2b_decode_law codec s options' enc b' (Value <$> L)); [done|done|done|lia|by rewrite Hdt|by rewrite length_fmap].
Qed.

(** A codec as [vlen_with_context] makes it, on a little-endian target. *)
Record vlen_wf (c : VlenCodecBound I D) : Prop := {
  vw_native : native = Little;
  vw_index : a2b_wf (vlen_index_codecs c);
  vw_data : a2b_wf (vlen_data_codecs c);
  vw_type : vlen_data_type c = PlainType VariableSize;
  vw_index_type : a2b_data_type (vlen_index_codecs c) = uint32 ∨ a2b_data_type (vlen_index_codecs c) = uint64;
  vw_data_type : a2b_data_type (vlen_data_codecs c) = uint8;
}.

(** The bytes of a chunk, that the offsets can point into. *)
Definition vlen_limit (c : VlenCodecBound I D) : Z := if decide (a2b_data_type (vlen_index_codecs c) = uint32) then 2 ^ 32 else 2 ^ 62.

Record vlen_shape_ok (c : VlenCodecBound I D) (sh : list Z) : Prop := {
  vs_chunk : chunk_shape_ok sh;
  vs_index : a2b_shape_ok (vlen_index_codecs c) [Zprod sh + 1];
  vs_data n : 1 <= n < vlen_limit c → a2b_shape_ok (vlen_data_codecs c) [n] ∧ a2b_encoded_limit (vlen_data_codecs c) [n] <= 2 ^ 63;
  vs_encoded : a2b_encoded_limit (vlen_index_codecs c) [Zprod sh + 1] < 2 ^ 63 - 8;
  vs_fill : Zprod sh * Z.max 1 (zlen (vlen_fill_value c)) < vlen_limit c;
}.

Context (c : VlenCodecBound I D) (sh : list Z) (Hwf : vlen_wf c) (Hsh : vlen_shape_ok c sh).

Lemma vlen_index_shape_ok : vlen_index_shape sh = Ok [Zprod sh + 1] ∧ product64 sh = Zprod sh ∧ 0 < Zprod sh ∧ Zprod sh + 1 < 2 ^ 63.
Proof.
  destruct (chunk_shape_product sh (vs_chunk _ _ Hsh)) as [Hp Hpos].
  destruct (a2b_shape_law _ _ (vw_index _ Hwf) (vs_index _ _ Hsh)) as ([_ Hb] & _). unfold Zprod in Hb at 1. cbn [foldr] in Hb.
  unfold vlen_index_shape. rewrite Hp, wrap64_small by (unfold_u64; lia). rewrite (proj2 (Z.eqb_neq _ _)) by lia. split_and!; [done|done|done|lia].
Qed.

Lemma collect_u32 offsets : Forall (λ o, 0 <= o <= u32_max) offsets → collect_opt (u32_try_from <$> offsets) = Some offsets.
Proof.
  induction 1 as [|o l Ho Hl IH]; [done|]. rewrite fmap_cons. cbn [collect_opt]. assert (u32_try_from o = Some o) as -> by (unfold u32_try_from; by rewrite (proj2 (Z.leb_le _ _)) by lia).
  cbn [mbind option_bind]. by rewrite IH.
Qed.

Lemma index_through offsets options : zlen offsets = Zprod sh + 1 → Forall (λ o, 0 <= o < vlen_limit c) offsets →
  ∃ enc, encode_vlen_index c offsets [Zprod sh + 1] options = Ok enc ∧ zlen enc <= a2b_encoded_limit (vlen_index_codecs c) [Zprod sh + 1] ∧
    ∀ options', decode_vlen_index enc [Zprod sh + 1] (vlen_index_codecs c) options' = Ok offsets.
Proof.
  intros Hl Ho. unfold encode_vlen_index, decode_vlen_index. pose proof (vw_index _ Hwf) as Hi. pose proof (vs_index _ _ Hsh) as Hs.
  assert (Zprod [Zprod sh + 1] = Zprod sh + 1) as Hz by (unfold Zprod at 1; cbn [foldr]; lia).
  destruct (vw_index_type _ Hwf) as [Hdt|Hdt].
  - assert (vlen_limit c = 2 ^ 32) as Hlim by (unfold vlen_limit; by rewrite decide_True).
    rewrite Hlim in Ho. rewrite Hdt. rewrite decide_True by done. assert (Forall (λ o, 0 <= o <= u32_max) offsets) as Hu by (eapply Forall_impl; [exact Ho|]; unfold u32_max; simpl; lia).
    rewrite collect_u32 by done. cbn [ok_or obind].
    destruct (fixed_through (vlen_index_codecs c) [Zprod sh + 1] (u32_to_ne_bytes <$> offsets) 4 options Hi Hs Hdt) as (enc & He & Hlen & Hd).
    { split; [lia|]. apply Forall_fmap, Forall_true. intros x. apply length_u32_ne_bytes. }
    { rewrite length_fmap. lia. }
    exists enc. split_and!; [done|done|]. intros options'. rewrite Hd. cbn [obind into_fixed]. rewrite (vw_native _ Hwf). rewrite decide_False by done.
    cbn [obind]. rewrite decide_True by done. f_equal. by apply offsets_u32_ok.
  - assert (vlen_limit c = 2 ^ 62) as Hlim by (unfold vlen_limit; by rewrite decide_False by (by rewrite Hdt)).
    rewrite Hlim in Ho. rewrite Hdt. rewrite decide_False by done. rewrite decide_True by done. assert (Forall is_u64 offsets) as Hu by (eapply Forall_impl; [exact Ho|]; unfold_u64; simpl; lia).
    destruct (fixed_through (vlen_index_codecs c) [Zprod sh + 1] (u64_to_ne_bytes <$> offsets) 8 options Hi Hs Hdt) as (enc & He & Hlen & Hd).
    { split; [lia|]. apply Forall_fmap, Forall_true. intros x. apply length_u64_bytes. }
    { rewrite length_fmap. lia. }
    exists enc. split_and!; [done|done|]. intros options'. rewrite Hd. cbn [obind into_fixed]. rewrite (vw_native _ Hwf). rewrite decide_False by done.
    cbn [obind]. rewrite decide_False by done. f_equal. by apply offsets_u64_ok.
Qed.

Lemma data_through data options : 1 <= zlen data < vlen_limit c → ∃ enc, a2b_encode (vlen_data_codecs c) (FixedBytes data) [zlen data] options = Ok enc ∧
  zlen enc <= 2 ^ 63 ∧ ∀ options', a2b_decode (vlen_data_codecs c) enc [zlen data] options' = Ok (FixedBytes data).
Proof.
  intros Hd. destruct (vs_data _ _ Hsh (zlen data) Hd) as [Hs Hl].
  destruct (fixed_through (vlen_data_codecs c) [zlen data] (singletons data) 1 options (vw_data _ Hwf) Hs (vw_data_type _ Hwf)) as (enc & He & Hlen & Hdec).
  - apply fixed_singletons.
  - unfold singletons. rewrite length_fmap. unfold Zprod. cbn [foldr]. lia.
  - rewrite concat_singletons in *. exists enc. split_and!; [done|lia|done].
Qed.

(** Array bytes are encoded, and returned as they were. *)
Lemma vlen_encode_ok v options : validate_bytes (VariableBytes v) (Zprod sh) (vlen_data_type c) = Ok tt → zlen (vl_bytes v) < vlen_limit c →
  ∃ enc, vlen_encode c (VariableBytes v) sh options = Ok enc ∧ zlen enc <= 8 + a2b_encoded_limit (vlen_index_codecs c) [Zprod sh + 1] + 2 ^ 63 ∧
    ∀ options', get_bytes_and_offsets c sh options' enc = Ok (vl_bytes v, vl_offsets v) ∧ vlen_decode c enc sh options' = Ok (VariableBytes v).
Proof.
  intros Hval Hlim. destruct vlen_index_shape_ok as (Hish & Hp & Hpos & Hp1). destruct v as [b offs]. cbn [vl_bytes vl_offsets] in *.
  pose proof Hval as Hv. rewrite (vw_type _ Hwf) in Hv. cbn [validate_bytes vl_bytes vl_offsets] in Hv. apply validate_vlen_inv in Hv as [Hl Hok].
  rewrite wrap64_small in Hl by (unfold_u64; lia). pose proof (Hok ltac:(by intros ->; cbn [length] in Hl; lia)) as Hoks. clear Hok.
  pose proof Hoks as (Hs & Hf & Hlast).
  destruct (index_through offs options Hl) as (ienc & Hie & Hil & Hid); [eapply Forall_impl; [exact Hf|]; simpl; lia|].
  assert (∃ denc, (if zlen b =? 0 then Ok [] else a2b_encode (vlen_data_codecs c) (FixedBytes b) [zlen b] options) = Ok denc ∧ zlen denc <= 2 ^ 63 ∧
    ∀ options', (if zlen b =? 0 then Ok [] else let? data := a2b_decode (vlen_data_codecs c) denc [zlen b] options' in into_fixed data) = Ok b) as (denc & Hde & Hdl & Hdd).
  { destruct (Z.eqb_spec (zlen b) 0) as [Hz|Hz]; [destruct b; [|done]; by exists []|].
    destruct (data_through b options ltac:(lia)) as (denc & He & Hdl & Hd). exists denc. split_and!; [done|done|]. intros options'. by rewrite Hd. }
  pose proof (vs_encoded _ _ Hsh) as Hes. exists (join_vlen (vlen_index_location c) ienc denc). split_and!.
  - unfold vlen_encode. rewrite Hp, Hval. cbn [obind into_variable vl_bytes vl_offsets]. rewrite wrap64_small by (unfold_u64; lia).
    rewrite (proj2 (Z.eqb_eq _ _) Hl). cbn [negb]. rewrite Hish. cbn [obind]. rewrite Hie. cbn [obind]. rewrite Hde. cbn [obind]. by destruct (vlen_index_location c).
  - rewrite length_join. lia.
  - intros options'. assert (get_bytes_and_offsets c sh options' (join_vlen (vlen_index_location c) ienc denc) = Ok (b, offs)) as Hg; [|split; [done|]].
    + unfold get_bytes_and_offsets, get_vlen_bytes_and_offsets. rewrite Hish. cbn [obind]. rewrite vlen_split_join by (rewrite length_join; unfold_u64; lia). cbn [obind].
      rewrite Hid. cbn [obind]. rewrite Hlast. cbn [ok_or obind]. rewrite Hdd. cbn [obind]. rewrite Z.eqb_refl. cbn [negb]. by rewrite windows_valid.
    + unfold vlen_decode. rewrite Hg. cbn [obind]. by apply vlen_array_bytes_ok.
Qed.

(** The partial decoder reads the regions of the elements. *)
Lemma vlen_partial_decoder_ok options v' h key (w : option bytes) (b : ArrayBytes) V sub : handle_tails 0 h key v' w →
  holds b (vlen_data_type c) V → zlen V = Zprod sh →
  match w with
  | Some enc => zlen enc < u64_modulus ∧ vlen_decode c enc sh options = Ok b
  | None => new_fill_value (vlen_data_type c) (Zprod sh) (vlen_fill_value c) = Ok b ∧ V = replicate (Z.to_nat (Zprod sh)) (fill_element (vlen_data_type c) (vlen_fill_value c))
  end → region_ok sub sh →
  ∃ out, runs_at (let* decoder := vlen_partial_decoder c h sh options in partial_decode decoder sub) v' (Ok out) v' ∧
    holds out (vlen_data_type c) (select V (positions sub sh)).
Proof.
  rewrite (vw_type _ Hwf). intros Hr Hh HV Hw Hsub. pose proof (vs_fill _ _ Hsh) as Hfill.
  assert (vlen_limit c <= 2 ^ 62) as Hlim by (unfold vlen_limit; destruct (decide _); lia).
  destruct (vlen_partial_ok (get_bytes_and_offsets c sh options) (vlen_fill_value c) sh h key v' w b V sub) as (out & Hrun & Hho & _); [lia|done..|].
  exists out. split; [|done]. eapply runs_at_bind; [done|]. cbn [partial_decode]. by rewrite (vw_type _ Hwf).
Qed.

Lemma vlen_partial_decoder_confined options h key sub : (∀ rs, confined key (bytes_partial_decode_many h rs)) →
  confined key (let* decoder := vlen_partial_decoder c h sh options in partial_decode decoder sub).
Proof. intros Hr. by apply vlen_partial_confined. Qed.
End laws.

(** C28: the bytes that the [vlen_v2] decoder accepts are the number of elements and every element after its length, in 32-bit little-endian
    integers, with any bytes after them; it returns these elements.  The encoder writes this form without bytes after it. *)
Theorem vlen_v2_decode_spec (c : VlenV2CodecBound) sh options : v2_data_type c = PlainType VariableSize → chunk_shape_ok sh → Zprod sh < 2 ^ 61 →
  (∀ (enc : bytes) b, are_bytes enc → zlen enc < u64_modulus →
    vlen_v2_decode c enc sh options = Ok b ↔
    ∃ L rest, b = VariableBytes (pack L) ∧ enc = interleave L ++ rest ∧ zlen L = Zprod sh ∧ zlen L <= u32_max ∧ frames_ok L) ∧
  (∀ v L, vlen_elements v L → validate_bytes (VariableBytes v) (Zprod sh) (v2_data_type c) = Ok tt → zlen L = Zprod sh → zlen L <= u32_max → frames_ok L →
    vlen_v2_encode c (VariableBytes v) sh options = Ok (interleave L)).
Proof.
  intros Hdt Hsh Hn. destruct (chunk_shape_product sh Hsh) as [Hp Hpos]. split.
  - intros enc b He Hlen. unfold vlen_v2_decode. rewrite Hp. split.
    + destruct (get_interleaved_bytes_and_offsets _ enc) as [[bs offs]| |] eqn:Hg; [|done..]. cbn [obind]. intros Hb. apply vlen_array_bytes_Ok in Hb as ->. cbn [fst snd].
      apply get_interleaved_inv in Hg as (L & rest & HL & Hu & Hf & -> & Hpk); [|done|done|lia]. exists L, rest. rewrite Hpk. split_and!; [done..|lia|done].
    + intros (L & rest & -> & -> & HL & Hu & Hf). rewrite <-HL, get_interleaved_ok by done. apply vlen_array_bytes_pack.
  - intros v L Hv Hval HL Hu Hf. apply vlen_v2_encode_ok; try done; [by rewrite Hp|by rewrite Hp].
Qed.

Section vlen.
Context {I D : Type} `{LI : LawfulArrayToBytesCodec I, LD : LawfulArrayToBytesCodec D} `{T : Target}.

(** C29: the [vlen] codec, on a little-endian target, encodes valid array bytes within the bounds of its codecs, and decodes them to the bytes and
    the offsets it was given; on a store whose value at a key is the encoding, the partial decoder reads the elements of any region and leaves the
    store as it is. *)
Theorem vlen_roundtrip (c : VlenCodecBound I D) sh v V options : vlen_wf c → vlen_shape_ok c sh →
  holds (VariableBytes v) (vlen_data_type c) V → zlen V = Zprod sh → zlen (vl_bytes v) < vlen_limit c →
  ∃ enc, vlen_encode c (VariableBytes v) sh options = Ok enc ∧ (∀ options', vlen_decode c enc sh options' = Ok (VariableBytes v)) ∧
    ∀ (S : Type) (abs : S → gmap str bytes) `{HL : LawfulStorage S abs} options' key (s : S) sub, abs s !! key = Some enc → region_ok sub sh →
    ∃ s' out, run (let* decoder := vlen_partial_decoder c (store_handle key) sh options' in partial_decode decoder sub) s = (s', Ok out) ∧
      abs s' = abs s ∧ holds out (vlen_data_type c) (select V (positions sub sh)).
Proof.
  intros Hwf Hsh Hh HV Hlim. pose proof (holds_valid _ _ _ Hh) as Hval. rewrite HV in Hval. pose proof (vs_encoded _ _ Hsh) as Hes.
  destruct (vlen_encode_ok c sh Hwf Hsh v options Hval Hlim) as (enc & He & Hlen & Hd). exists enc. split_and!; [done|apply Hd|].
  intros S abs SR SW SL HL options' key s sub Hkey Hsub.
  destruct (vlen_partial_decoder_ok c sh Hwf Hsh options' (Some enc) (store_handle key) key (Some enc) (VariableBytes v) V sub) as (out & Hrun & Hho);
    [apply (handle_reads_tails 0); [done|apply store_handle_reads]|done|done| |done|].
  { split; [unfold_u64; lia|apply Hd]. }
  rewrite <-Hkey in Hrun. apply runs_read in Hrun; [|apply vlen_partial_decoder_confined; exact (proj1 (store_handle_reads 0 key None))].
  destruct (run_runs abs _ _ _ _ Hrun) as (s' & Hs' & Habs). by exists s', out.
Qed.

Definition swap64 (x : Z) : Z := u64_from_le_bytes (reverse (u64_to_le_bytes x)).

(** On a big-endian target the decoder of the [vlen] codec reverses the bytes of an index that the codec of the index has already brought to the order
    of the target: the offsets that are encoded come back with their bytes swapped. *)
Theorem vlen_big_endian_offsets (c : VlenCodecBound I D) offsets options options' : native = Big → a2b_wf (vlen_index_codecs c) →
  a2b_data_type (vlen_index_codecs c) = uint64 → a2b_shape_ok (vlen_index_codecs c) [zlen offsets] →
  ∃ enc, encode_vlen_index c offsets [zlen offsets] options = Ok enc ∧
    decode_vlen_index enc [zlen offsets] (vlen_index_codecs c) options' = Ok (swap64 <$> offsets).
Proof.
  intros HT Hwf Hdt Hs. assert (Zprod [zlen offsets] = zlen offsets) as Hz by (unfold Zprod; cbn [foldr]; lia).
  assert (Forall (λ e, length e = 8%nat) (u64_to_ne_bytes <$> offsets)) as H8 by (apply Forall_fmap, Forall_true; intros x; apply length_u64_bytes).
  destruct (fixed_through (vlen_index_codecs c) [zlen offsets] (u64_to_ne_bytes <$> offsets) 8 options Hwf Hs Hdt) as (enc & He & _ & Hd);
    [by split|rewrite length_fmap; lia|].
  exists enc. unfold encode_vlen_index, decode_vlen_index. rewrite Hdt, Hd. split; [by rewrite decide_False, decide_True by done|].
  cbn [obind into_fixed]. rewrite (decide_True (P := native = Big)) by done. assert (∀ b, reverse_endianness b uint64 = Ok (reverse_components 8 b)) as -> by done.
  cbn [obind]. rewrite decide_False, decide_True by done. f_equal. unfold offsets_u64. rewrite reverse_components_concat by (lia || done).
  rewrite pod_collect_concat; [|lia|apply Forall_fmap; eapply Forall_impl; [exact H8|]; simpl; intros e <-; by rewrite length_reverse].
  rewrite !list_fmap_fmap. apply list_fmap_ext_in. intros x _. cbn. unfold u64_from_ne_bytes, u64_to_ne_bytes, swap64. rewrite HT, !decide_False by done.
  by rewrite reverse_involutive.
Qed.
End vlen.

(** ** Witnesses *)

Definition two_strings : ArrayBytesVariableLength := mk_vlen [9; 1; 2; 3] [1; 2; 4].

(** The element 9 lies before the first offset: no element has it. *)
Lemma two_strings_hold : holds (VariableBytes two_strings) (PlainType VariableSize) [Value [1]; Value [2; 3]].
Proof.
  split; [|reflexivity]. exists (Cell <$> [[1]; [2; 3]]). split; [|reflexivity]. exists [[1]; [2; 3]]. split_and!; [reflexivity| |reflexivity|reflexivity].
  split; [reflexivity|]. intros [|[|k]] e He; [| |done]; injection He as <-; [exists 1, 2|exists 2, 4]; split_and!; done.
Qed.

Definition example_vlen_v2 : VlenV2CodecBound := mk_vlen_v2 (PlainType VariableSize) [].

Lemma vlen_v2_decode_spec_witness :
  vlen_v2_encode example_vlen_v2 (VariableBytes two_strings) [2] (CodecOptions_default 1) = Ok [2; 0; 0; 0; 1; 0; 0; 0; 1; 2; 0; 0; 0; 2; 3] ∧
  vlen_v2_decode example_vlen_v2 [2; 0; 0; 0; 1; 0; 0; 0; 1; 2; 0; 0; 0; 2; 3; 77] [2] (CodecOptions_default 1) = Ok (VariableBytes (mk_vlen [1; 2; 3] [0; 1; 3])).
Proof.
  destruct (vlen_v2_decode_spec example_vlen_v2 [2] (CodecOptions_default 1)) as [Hd He]; [reflexivity|by split; [repeat constructor|]|reflexivity|].
  assert (frames_ok [[1]; [2; 3]]) as Hf by (by apply frames_small). split.
  - apply (He two_strings [[1]; [2; 3]]); [|reflexivity|reflexivity|done|done].
    destruct (holds_variable _ _ two_strings_hold) as (v & L & [= <-] & HL & Hv & _). destruct L as [|a [|b [|]]]; try done. by injection HL as -> ->.
  - apply Hd; [unfold are_bytes; repeat constructor; lia|reflexivity|]. exists [[1]; [2; 3]], [77]. split_and!; [reflexivity|reflexivity|reflexivity|done|done].
Defined.

Section witnesses.
#[local] Instance vlen_target : Target := Little.

Definition example_vlen : VlenCodecBound BytesCodecBound BytesCodecBound :=
  mk_vlen_codec (mk_bytes_codec (Some Big) uint32 [0; 0; 0; 0] 4) (mk_bytes_codec None uint8 [0] 1) VlenEnd (PlainType VariableSize) [].

Lemma example_vlen_wf : vlen_wf example_vlen.
Proof.
  constructor; [reflexivity| | |reflexivity|by left|reflexivity].
  - exists 4. constructor; [reflexivity|lia|done|by right; eexists|reflexivity].
  - exists 1. constructor; [reflexivity|lia|done|by left|reflexivity].
Qed.

Lemma example_vlen_shape : vlen_shape_ok example_vlen [2].
Proof.
  constructor; [by split; [repeat constructor|]|by split; [split; [repeat constructor|]|]| |reflexivity|reflexivity].
  intros n [H1 H2]. assert (vlen_limit example_vlen = 2 ^ 32) as Hl by reflexivity. rewrite Hl in H2.
  assert (Zprod [n] = n) as Hn by (unfold Zprod; cbn [foldr]; lia). cbn. rewrite Hn. split; [|lia].
  split; [|lia]. split; [by repeat constructor|rewrite Hn; lia].
Qed.

Lemma vlen_roundtrip_witness :
  vlen_encode example_vlen (VariableBytes two_strings) [2] (CodecOptions_default 1) =
    Ok ([9; 1; 2; 3] ++ [0; 0; 0; 1; 0; 0; 0; 2; 0; 0; 0; 4] ++ [12; 0; 0; 0; 0; 0; 0; 0]) ∧
  ∃ enc, vlen_encode example_vlen (VariableBytes two_strings) [2] (CodecOptions_default 1) = Ok enc ∧
    vlen_decode example_vlen enc [2] (CodecOptions_default 4) = Ok (VariableBytes two_strings).
Proof.
  split; [vm_compute; reflexivity|].
  destruct (vlen_roundtrip example_vlen [2] two_strings [Value [1]; Value [2; 3]] (CodecOptions_default 1) example_vlen_wf example_vlen_shape
    two_strings_hold eq_refl eq_refl) as (enc & He & Hd & _).
  exists enc. split; [exact He|apply Hd].
Defined.
End witnesses.

Section big_endian.
#[local] Instance big_target : Target := Big.

Definition big_vlen : VlenCodecBound BytesCodecBound BytesCodecBound :=
  mk_vlen_codec (mk_bytes_codec (Some Little) uint64 (replicate 8 0) 8) (mk_bytes_codec None uint8 [0] 1) VlenStart (PlainType VariableSize) [].

Lemma vlen_big_endian_offsets_witness :
  ∃ enc, encode_vlen_index big_vlen [0; 1] [2] (CodecOptions_default 1) = Ok enc ∧
    decode_vlen_index enc [2] (vlen_index_codecs big_vlen) (CodecOptions_default 1) = Ok [0; 2 ^ 56].
Proof.
  destruct (vlen_big_endian_offsets big_vlen [0; 1] (CodecOptions_default 1) (CodecOptions_default 1)) as (enc & He & Hd); [reflexivity| |reflexivity| |].
  - exists 8. constructor; [reflexivity|lia|done|by right; eexists|reflexivity].
  - split; [split; [repeat constructor|]|]; done.
  - exists enc. split; [exact He|exact Hd].
Defined.
End big_endian.
