(* ===== verification/PackBits.v ===== *)
(** The [packbits] codec: [array_to_bytes/packbits.rs], [packbits/packbits_codec.rs] and
    [packbits/packbits_partial_decoder.rs].

    Of every component of an element the bits from [first_bit] to [last_bit] are kept, one after the other, from the
    lowest.  In memory a component takes a whole number of bytes. *)

From S2P Require Import Prelude ArraySubset Linear Iterators ByteRange StoreKey Storage ArrayBytes.
From S2P Require Import Elements StoreProgram DecodeInto Concurrency Codec BytesCodec CodecChain ChainTheorems.

Inductive PackBitsPaddingEncoding := PaddingNone | FirstByte | LastByte.

Record PackBitsCodecComponents := mk_components {
  component_size_bits : Z;
  num_components : Z;
  sign_extension : bool;
}.

(** [DataType::codec_packbits], the components of a data type that supports the codec. *)
Class PackBitsDataTypes := codec_packbits : DataType → option PackBitsCodecComponents.

Record PackBitsCodec := mk_packbits {
  up_padding_encoding : PackBitsPaddingEncoding;
  up_first_bit : option Z;
  up_last_bit : option Z;
}.

Record PackBitsCodecBound := mk_packbits_bound {
  pb_padding_encoding : PackBitsPaddingEncoding;
  pb_components : PackBitsCodecComponents;
  pb_first_bit : Z;
  pb_last_bit : Z;
  pb_data_type : DataType;
  pb_fill_value : FillValue;
}.

Definition PackBitsCodec_new (padding_encoding : PackBitsPaddingEncoding) (first_bit last_bit : option Z) : outcome CodecError PackBitsCodec :=
  match first_bit, last_bit with
  | Some f, Some l => if l <? f then Err CodecOther else Ok (mk_packbits padding_encoding first_bit last_bit)
  | _, _ => Ok (mk_packbits padding_encoding first_bit last_bit)
  end.

Definition packbits_with_context `{!PackBitsDataTypes} (self : PackBitsCodec) (data_type : DataType) (fill_value : FillValue)
    : outcome CodecError PackBitsCodecBound :=
  let? components := ok_or UnsupportedDataType (codec_packbits data_type) in
  let first_bit := default 0 (up_first_bit self) in
  let last_bit := default (component_size_bits components -w 1) (up_last_bit self) in
  if last_bit <? first_bit then Err CodecOther
  else if component_size_bits components <=? last_bit then Err CodecOther
  else Ok (mk_packbits_bound (up_padding_encoding self) components first_bit last_bit data_type fill_value).

(** ** Bits *)

Definition div_rem_8bit (bit element_size_bits : Z) : Z * Z :=
  let element := bit / element_size_bits in
  let element_bit := bit mod element_size_bits in
  let element_size_bits_padded := 8 *w div_ceil element_size_bits 8 in
  let byte := (element *w element_size_bits_padded +w element_bit) / 8 in
  let byte_bit := element_bit mod 8 in
  (byte, byte_bit).

Definition padding_bits (num_elements element_size_bits : Z) : Z :=
  let rem := (num_elements *w element_size_bits) mod 8 in if rem =? 0 then 0 else 8 - rem.

(** [(b[byte] >> bit) & 1]. *)
Definition get_bit (b : bytes) (at_ : Z * Z) : outcome CodecError Z :=
  let? x := index b at_.1 in Ok (Z.land (Z.shiftr x at_.2) 1).

(** [b[byte] |= value << bit]. *)
Definition or_bit (b : bytes) (at_ : Z * Z) (value : Z) : outcome CodecError bytes :=
  let? x := index b at_.1 in Ok (<[Z.to_nat at_.1 := Z.lor x (Z.shiftl value at_.2)]> b).

Definition div_rem_8 (bit : Z) : Z * Z := (bit / 8, bit mod 8).

(** A bit is copied. *)
Definition copy_bit (src : bytes) (dst : bytes) (from to : Z * Z) : outcome CodecError bytes :=
  let? v := get_bit src from in or_bit dst to v.

(** [bytes_dec[byte_dec] |= 1 << bit_dec] for every bit. *)
Definition set_bits (b : bytes) (bits : list (Z * Z)) : outcome CodecError bytes := fold_outcome (λ b at_, or_bit b at_ 1) b bits.

Definition padding_byte (padding_encoding : PackBitsPaddingEncoding) : Z :=
  match padding_encoding with PaddingNone => 0 | FirstByte | LastByte => 1 end.

(** ** The codec *)

Section codec.
Context `{!BytesDataTypes, !Target}.

(** The bits kept are those of whole bytes. *)
Definition bytes_fast_path (self : PackBitsCodecBound) : bool :=
  let component_size_bits := component_size_bits (pb_components self) in
  is_multiple_of component_size_bits 8 && (pb_first_bit self =? 0) && (pb_last_bit self =? component_size_bits -w 1).

(** [BytesCodec::new(Some(Endianness::Little)).with_context(..)]. *)
Definition bytes_codec_of (self : PackBitsCodecBound) : outcome CodecError BytesCodecBound :=
  map_err (λ _, CodecOther) (bytes_with_context codec_bytes (Some Little) (pb_data_type self) (pb_fill_value self)).

Definition component_size_bits_extracted (self : PackBitsCodecBound) : Z := pb_last_bit self -w pb_first_bit self +w 1.
Definition element_size_bits (self : PackBitsCodecBound) : Z := component_size_bits_extracted self *w num_components (pb_components self).
Definition elements_size_bytes (self : PackBitsCodecBound) (num_elements : Z) : Z := div_ceil (num_elements *w element_size_bits self) 8.

(** The body of the loop of [encode] over the components. *)
Definition encode_component (self : PackBitsCodecBound) (b packed_elements : bytes) (component_idx : Z) : outcome CodecError bytes :=
  let bit_dec0 := component_idx *w component_size_bits (pb_components self) +w pb_first_bit self in
  let bit_enc0 := component_idx *w component_size_bits_extracted self in
  fold_outcome (λ packed_elements bit,
    copy_bit b packed_elements (div_rem_8bit (bit_dec0 +w bit) (component_size_bits (pb_components self))) (div_rem_8 (bit_enc0 +w bit)))
    packed_elements (seqZ 0 (component_size_bits_extracted self)).

Definition packbits_encode (self : PackBitsCodecBound) (b : ArrayBytes) (shape : list Z) (options : CodecOptions) : outcome CodecError bytes :=
  if bytes_fast_path self then
    let? codec := bytes_codec_of self in bytes_encode codec b shape options
  else
    let num_elements := product64 shape in
    let? b := into_fixed b in
    let? data_type_size_dec := ok_or CodecOther (fixed_size (pb_data_type self)) in
    if negb (zlen b =? num_elements *w data_type_size_dec) then Err (UnexpectedChunkDecodedSize (zlen b) (num_elements *w data_type_size_dec))
    else
      let padding_bits := padding_bits num_elements (element_size_bits self) in
      let? packed_elements := fold_outcome (encode_component self b) (replicate (Z.to_nat (elements_size_bytes self num_elements)) 0)
        (seqZ 0 (num_elements *w num_components (pb_components self))) in
      Ok (match pb_padding_encoding self with
          | PaddingNone => packed_elements
          | FirstByte => padding_bits :: packed_elements
          | LastByte => packed_elements ++ [padding_bits]
          end).

(** The body of the loop of [decode] over the components. *)
Definition decode_component (self : PackBitsCodecBound) (packed_elements bytes_dec : bytes) (component_idx : Z) : outcome CodecError bytes :=
  let component_size_bits := component_size_bits (pb_components self) in
  let extracted := component_size_bits_extracted self in
  let bit_dec0 := component_idx *w component_size_bits +w pb_first_bit self in
  let bit_enc0 := component_idx *w extracted in
  let? bytes_dec := fold_outcome (λ bytes_dec bit,
    copy_bit packed_elements bytes_dec (div_rem_8 (bit_enc0 +w bit)) (div_rem_8bit (bit_dec0 +w bit) component_size_bits))
    bytes_dec (seqZ 0 extracted) in
  if sign_extension (pb_components self) then
    let? signed := get_bit packed_elements (div_rem_8 (bit_enc0 +w saturating_sub extracted 1)) in
    if signed =? 1 then
      let (byte_dec, bit_dec) := div_rem_8bit (bit_dec0 +w saturating_sub extracted 1) component_size_bits in
      set_bits bytes_dec ((λ bit_dec, (byte_dec, bit_dec)) <$> seqZ (bit_dec + 1) (8 - (bit_dec + 1)))
    else Ok bytes_dec
  else Ok bytes_dec.

(** The packed elements, without the byte of the padding, which is checked. *)
Definition packed_elements_of (self : PackBitsCodecBound) (b : bytes) (elements_size_bytes padding_bits : Z) : outcome CodecError bytes :=
  match pb_padding_encoding self with
  | PaddingNone => Ok b
  | FirstByte =>
      let? p := index b 0 in
      if negb (p =? padding_bits) then Err CodecOther else slice b 1 (zlen b)
  | LastByte =>
      let? p := index b elements_size_bytes in
      if negb (p =? padding_bits) then Err CodecOther else slice b 0 elements_size_bytes
  end.

Definition packbits_decode (self : PackBitsCodecBound) (b : bytes) (shape : list Z) (options : CodecOptions) : outcome CodecError ArrayBytes :=
  if bytes_fast_path self then
    let? codec := bytes_codec_of self in bytes_decode_ codec b shape options
  else
    let num_elements := product64 shape in
    let elements_size_bytes := elements_size_bytes self num_elements in
    let? data_type_size_dec := ok_or CodecOther (fixed_size (pb_data_type self)) in
    let expected_length := elements_size_bytes +w padding_byte (pb_padding_encoding self) in
    if negb (zlen b =? expected_length) then Err (UnexpectedChunkDecodedSize (zlen b) expected_length)
    else
      let padding_bits := padding_bits num_elements (element_size_bits self) in
      let? packed_elements := packed_elements_of self b elements_size_bytes padding_bits in
      let? bytes_dec := fold_outcome (decode_component self packed_elements) (replicate (Z.to_nat (num_elements *w data_type_size_dec)) 0)
        (seqZ 0 (num_elements *w num_components (pb_components self))) in
      Ok (FixedBytes bytes_dec).

Definition packbits_encoded_representation (self : PackBitsCodecBound) (shape : list Z) : outcome CodecError BytesRepresentation :=
  Ok (BytesFixedSize (elements_size_bytes self (product64 shape) +w padding_byte (pb_padding_encoding self))).

(** ** The partial decoder *)

(** The body of the loop of [partial_decode] over the components of a run of elements. *)
Definition partial_component (self : PackBitsCodecBound) (packed_elements : bytes) (component_idx_outer bit_offset : Z) (bytes_dec : bytes)
    (component_idx : Z) : outcome CodecError bytes :=
  let component_size_bits := component_size_bits (pb_components self) in
  let extracted := component_size_bits_extracted self in
  let bit_dec0 := (component_idx_outer +w component_idx) *w component_size_bits in
  let bit_enc0 := component_idx *w extracted in
  let? bytes_dec := fold_outcome (λ bytes_dec bit,
    copy_bit packed_elements bytes_dec (div_rem_8 (bit_enc0 +w bit +w bit_offset)) (div_rem_8bit (bit_dec0 +w bit) component_size_bits))
    bytes_dec (seqZ 0 extracted) in
  if sign_extension (pb_components self) then
    let? signed := get_bit bytes_dec (div_rem_8bit (bit_dec0 +w saturating_sub extracted 1) component_size_bits) in
    if signed =? 1 then
      set_bits bytes_dec ((λ bit, div_rem_8bit (bit_dec0 +w bit) component_size_bits) <$> seqZ extracted (component_size_bits - extracted))
    else Ok bytes_dec
  else Ok bytes_dec.

(** The loop over the bytes read, with the bit ranges they were read for. *)
Fixpoint partial_runs (self : PackBitsCodecBound) (runs : list (bytes * range)) (component_idx_outer : Z) (bytes_dec : bytes) : outcome CodecError bytes :=
  match runs with
  | [] => Ok bytes_dec
  | (packed_elements, bit_range) :: runs =>
      let num_elements := (r_end bit_range -w r_start bit_range) / element_size_bits self in
      let bit_offset := r_start bit_range -w 8 *w (r_start bit_range / 8) in
      let n := num_elements *w num_components (pb_components self) in
      let? bytes_dec := fold_outcome (partial_component self packed_elements component_idx_outer bit_offset) bytes_dec (seqZ 0 n) in
      partial_runs self runs (component_idx_outer +w n) bytes_dec
  end.

Definition bit_range_bytes (self : PackBitsCodecBound) (bit_range : range) : ByteRange :=
  let offset := match pb_padding_encoding self with FirstByte => 1 | PaddingNone | LastByte => 0 end in
  ByteRange_new (Included (offset +w r_start bit_range / 8)) (Excluded (offset +w div_ceil (r_end bit_range) 8)).

Definition packbits_partial_decode (self : PackBitsCodecBound) (input_handle : BytesHandle) (shape : list Z) (indexer : ArraySubset)
    : prog CodecError ArrayBytes :=
  let* data_type_size_dec := plift (ok_or CodecOther (fixed_size (pb_data_type self))) in
  let* bit_ranges := plift (map_err IncompatibleIndexer (contiguous_byte_ranges indexer shape (element_size_bits self))) in
  let* encoded_bytes := bytes_partial_decode_many input_handle (bit_range_bytes self <$> bit_ranges) in
  match encoded_bytes with
  | Some encoded_bytes =>
      let* bytes_dec := plift (partial_runs self (zip encoded_bytes bit_ranges) 0
        (replicate (Z.to_nat (num_elements indexer *w data_type_size_dec)) 0)) in
      preturn (FixedBytes bytes_dec)
  | None => plift (new_fill_value (pb_data_type self) (num_elements indexer) (pb_fill_value self))
  end.
(** [BytesCodecPartial] looks its data type up when there are bytes to decode. *)
Definition unsupported_handle (h : BytesHandle) : BytesHandle := {|
  bytes_exists := bytes_exists h;
  bytes_partial_decode_many := λ rs,
    let* v := bytes_partial_decode_many h rs in
    match v with Some _ => Done (Err UnsupportedDataType) | None => preturn None end |}.

Definition fast_partial_decode (self : PackBitsCodecBound) (input_handle : BytesHandle) (shape : list Z) (indexer : ArraySubset)
    : prog CodecError ArrayBytes :=
  match codec_bytes (pb_data_type self) with
  | Some component_size => bytes_codec_partial_decode (mk_bytes_codec (Some Little) (pb_data_type self) (pb_fill_value self) component_size) input_handle shape indexer
  | None => bytes_codec_partial_decode (mk_bytes_codec (Some Little) (pb_data_type self) (pb_fill_value self) 1) (unsupported_handle input_handle) shape indexer
  end.

Definition packbits_partial_decoder (self : PackBitsCodecBound) (input_handle : BytesHandle) (shape : list Z) (options : CodecOptions)
    : prog CodecError ArrayHandle :=
  let decode := if bytes_fast_path self then fast_partial_decode self input_handle shape else packbits_partial_decode self input_handle shape in
  preturn {| partial_decode := decode; partial_decode_into := default_partial_decode_into decode |}.

#[export] Instance packbits_traits : ArrayToBytesCodecTraits PackBitsCodecBound := {|
  a2b_data_type := pb_data_type;
  a2b_fill_value := pb_fill_value;
  a2b_recommended_concurrency _ _ := Ok (new_maximum 1);
  a2b_partial_decoder_capability _ := {| partial_read := true; can_partial_decode := true |};
  a2b_partial_encode_capability _ := false;
  a2b_encoded_representation := packbits_encoded_representation;
  a2b_encode := packbits_encode;
  a2b_decode := packbits_decode;
  a2b_compact _ _ _ _ := Ok None;
  a2b_decode_into self := default_decode_into (packbits_decode self);
  a2b_partial_decoder := packbits_partial_decoder;
  a2b_partial_encoder self := default_partial_encoder (pb_data_type self) (pb_fill_value self) (packbits_encode self) (packbits_decode self);
|}.
End codec.

#[export] Instance packbits_unbound `{!BytesDataTypes, !PackBitsDataTypes, !Target} : UnboundArrayToBytesCodecTraits PackBitsCodec PackBitsCodecBound := {|
  uc_partial_decoder_capability _ := {| partial_read := true; can_partial_decode := true |};
  uc_with_context := packbits_with_context |}.
