(* ===== verification/PackBitsSpec.v ===== *)
(** What the [packbits] codec does to the bits of the elements, and what its partial decoder reads.

    The loops of the code set bits of zeroed memory one at a time; [bits_set] says which.  The packed bit number
    [c * extracted + j] is the bit [first_bit + j] of the component [c].  The partial decoder puts the bits it reads at the
    start of every component, and extends the sign over the bits of the component only; the decoder of a whole chunk puts
    them at [first_bit] and extends the sign over the byte. *)

From S2P Require Import Prelude ArraySubset Linear Iterators ByteRange StoreKey Storage ArrayBytes Elements StoreProgram DecodeInto.
From S2P Require Import Concurrency Codec BytesCodec CodecChain ChainTheorems VlenLaws PackBits.

(** Two digits. *)
Lemma digits_bound i j m w : 0 <= i < m → 0 <= j < w → 0 <= i * w + j < m * w.
Proof. intros Hi Hj. assert (i * w + w <= m * w) by nia. nia. Qed.

Lemma digits_inj i j i' j' w : 0 <= j < w → 0 <= j' < w → i * w + j = i' * w + j' → i = i' ∧ j = j'.
Proof. intros Hj Hj' He. assert (i = i') as -> by nia. lia. Qed.

(** ** Bits of bytes *)

Definition bit (b : bytes) (k : Z) : bool := Z.testbit (b !!! Z.to_nat (k / 8)) (k mod 8).

(** The place of a bit: its byte and its number in it. *)
Definition place (at_ : Z * Z) : Z := 8 * at_.1 + at_.2.
Definition place_ok (b : bytes) (at_ : Z * Z) : Prop := 0 <= at_.1 < zlen b ∧ 0 <= at_.2 < 8.

Lemma place_div at_ : 0 <= at_.2 < 8 → place at_ / 8 = at_.1 ∧ place at_ mod 8 = at_.2.
Proof. intros H. unfold place. apply (div_mod_unique_pos 8 at_.1 at_.2); lia. Qed.

Lemma div_rem_8_place k : place (div_rem_8 k) = k ∧ (0 <= k → ∀ b : bytes, k < 8 * zlen b → place_ok b (div_rem_8 k)).
Proof.
  unfold place, place_ok, div_rem_8. cbn [fst snd]. pose proof (Z.div_mod k 8 ltac:(lia)). pose proof (Z.mod_pos_bound k 8 ltac:(lia)).
  split; [lia|]. intros Hk b Hb. split; [|done]. split; [by apply Z.div_pos|apply Z.div_lt_upper_bound; lia].
Qed.

Lemma index_ok_total {E} (b : bytes) i : 0 <= i < zlen b → index (E:=E) b i = Ok (b !!! Z.to_nat i).
Proof.
  intros Hi. unfold index. rewrite (proj2 (Z.leb_le _ _)) by lia. by rewrite (list_lookup_lookup_total_lt b) by lia.
Qed.

Lemma get_bit_ok b at_ : place_ok b at_ → get_bit b at_ = Ok (Z.b2z (bit b (place at_))).
Proof.
  intros [H1 H2]. unfold get_bit, bit. rewrite index_ok_total by done. destruct (place_div at_ H2) as [-> ->]. cbn [obind]. f_equal.
  change 1 with (Z.ones 1) at 1. rewrite Z.land_ones by lia. change (2 ^ 1) with 2. by rewrite Z.testbit_spec', Z.shiftr_div_pow2 by lia.
Qed.

(** From [b] to [b'] the bits [P] are set. *)
Record bits_set (b b' : bytes) (P : Z → Prop) : Prop := {
  set_length : length b' = length b;
  set_bytes : are_bytes b → are_bytes b';
  set_bit k : 0 <= k → bit b' k = true ↔ bit b k = true ∨ P k;
}.

Lemma bits_set_trans a b c P Q : bits_set a b P → bits_set b c Q → bits_set a c (λ k, P k ∨ Q k).
Proof.
  intros [Hl1 Hb1 Hs1] [Hl2 Hb2 Hs2]. split; [by rewrite Hl2|auto|]. intros k Hk. rewrite Hs2, Hs1 by done. tauto.
Qed.

Lemma bits_set_refl b (P : Z → Prop) : (∀ k, ¬ P k) → bits_set b b P.
Proof. intros HP. split; [done|done|]. intros k _. naive_solver. Qed.

Lemma bits_set_iff b b' (P Q : Z → Prop) : (∀ k, P k ↔ Q k) → bits_set b b' P → bits_set b b' Q.
Proof. intros H [Hl Hb Hs]. split; [done|done|]. intros k Hk. by rewrite Hs, H. Qed.

Lemma byte_or_ok x v i : 0 <= x < 256 → v = 0 ∨ v = 1 → 0 <= i < 8 → 0 <= Z.lor x (Z.shiftl v i) < 256.
Proof.
  intros Hx Hv Hi. split; [apply Z.lor_nonneg; split; [lia|apply Z.shiftl_nonneg; lia]|].
  destruct (decide (Z.lor x (Z.shiftl v i) = 0)) as [->|Hn]; [lia|].
  assert (0 <= Z.lor x (Z.shiftl v i)) as H0 by (apply Z.lor_nonneg; split; [lia|apply Z.shiftl_nonneg; lia]).
  change 256 with (2 ^ 8). apply Z.log2_lt_pow2; [lia|]. rewrite Z.log2_lor by (try apply Z.shiftl_nonneg; lia). apply Z.max_lub_lt.
  - destruct (decide (x = 0)) as [->|]; [cbn; lia|]. apply Z.log2_lt_pow2; lia.
  - destruct Hv as [->| ->]; [rewrite Z.shiftl_0_l; cbn; lia|]. rewrite Z.log2_shiftl by lia. cbn. lia.
Qed.

Lemma or_bit_ok b at_ v : place_ok b at_ → v = 0 ∨ v = 1 → ∃ b', or_bit b at_ v = Ok b' ∧ bits_set b b' (λ k, k = place at_ ∧ v = 1).
Proof.
  intros [H1 H2] Hv. unfold or_bit. rewrite index_ok_total by done. cbn [obind]. eexists. split; [done|].
  set (i := Z.to_nat at_.1). assert (i < length b)%nat as Hi by lia. split.
  - apply length_insert.
  - intros Hb. apply Forall_insert; [done|]. apply byte_or_ok; [|done|done]. apply (Forall_lookup_1 _ _ i _ Hb). by apply list_lookup_lookup_total_lt.
  - intros k Hk. unfold bit. destruct (decide (Z.to_nat (k / 8) = i)) as [He|Hne].
    + rewrite He, list_lookup_total_insert, decide_True by done. pose proof (Z.mod_pos_bound k 8 ltac:(lia)) as Hm. rewrite Z.lor_spec, orb_true_iff.
      assert (Z.testbit (Z.shiftl v at_.2) (k mod 8) = true ↔ k = place at_ ∧ v = 1) as <-; [|done].
      pose proof (Z.div_mod k 8 ltac:(lia)) as Hdm. assert (k / 8 = at_.1) as Hd by (pose proof (Z.div_pos k 8); lia). unfold place.
      rewrite Z.shiftl_spec by lia. destruct Hv as [->| ->]; [rewrite Z.bits_0; naive_solver|].
      destruct (decide (k mod 8 - at_.2 = 0)) as [Hz|Hz]; [rewrite Hz; cbn; split; [intros _; lia|done]|]. split; [|lia]. intros Ht. exfalso.
      destruct (decide (k mod 8 < at_.2)); [by rewrite Z.testbit_neg_r in Ht by lia|]. rewrite Z.bits_above_log2 in Ht by (cbn; lia). done.
    + rewrite list_lookup_total_insert_ne by done. split; [by left|]. intros [?|[-> ->]]; [done|]. destruct (place_div at_ H2) as [Hd _]. rewrite Hd in Hne. done.
Qed.

Lemma copy_bit_ok src dst from to : place_ok src from → place_ok dst to →
  ∃ dst', copy_bit src dst from to = Ok dst' ∧ bits_set dst dst' (λ k, k = place to ∧ bit src (place from) = true).
Proof.
  intros Hf Ht. unfold copy_bit. rewrite get_bit_ok by done. cbn [obind].
  assert (Z.b2z (bit src (place from)) = 0 ∨ Z.b2z (bit src (place from)) = 1) as Hv by (destruct (bit src (place from)); [by right|by left]).
  destruct (or_bit_ok dst to (Z.b2z (bit src (place from))) Ht Hv) as (dst' & -> & Hs).
  exists dst'. split; [done|]. eapply bits_set_iff; [|exact Hs]. intros k. destruct (bit src (place from)); cbn; naive_solver.
Qed.

(** A loop sets the bits that its steps set. *)
Lemma fold_bits {A} (f : bytes → A → outcome CodecError bytes) (l : list A) (P : A → Z → Prop) b :
  (∀ x b', x ∈ l → length b' = length b → ∃ b'', f b' x = Ok b'' ∧ bits_set b' b'' (P x)) →
  ∃ b', fold_outcome f b l = Ok b' ∧ bits_set b b' (λ k, ∃ x, x ∈ l ∧ P x k).
Proof.
  revert b. induction l as [|x l IH]; intros b Hf; cbn [fold_outcome].
  { exists b. split; [done|]. apply bits_set_refl. intros k (x & Hx & _). by apply elem_of_nil in Hx. }
  destruct (Hf x b) as (b1 & -> & H1); [apply list_elem_of_here|done|]. cbn [obind].
  destruct (IH b1) as (b2 & -> & H2). { intros y b' Hy Hl. apply Hf; [by apply list_elem_of_further|]. rewrite Hl. apply H1. }
  exists b2. split; [done|]. eapply bits_set_iff; [|exact (bits_set_trans _ _ _ _ _ H1 H2)]. intros k. cbv beta. split.
  - intros [Hp|(y & Hy & Hp)]; [exists x|exists y]; (split; [|done]); [apply list_elem_of_here|by apply list_elem_of_further].
  - intros (y & Hy & Hp). apply elem_of_cons in Hy as [->|Hy]; [by left|]. right. by exists y.
Qed.

Lemma bit_zeros n k : 0 <= k < 8 * Z.of_nat n → bit (replicate n 0) k = false.
Proof.
  intros Hk. unfold bit. rewrite lookup_total_replicate_2; [apply Z.bits_0|]. pose proof (Z.div_pos k 8). pose proof (Z.div_lt_upper_bound k 8 (Z.of_nat n)). lia.
Qed.

(** Bytes are determined by their bits. *)
Lemma bytes_ext b b' : are_bytes b → are_bytes b' → length b = length b' → (∀ k, 0 <= k < 8 * zlen b → bit b k = bit b' k) → b = b'.
Proof.
  intros Hb Hb' Hl Hk. apply list_eq_total; [done|]. intros j Hj. apply Z.bits_inj'. intros i Hi.
  assert (∀ c, are_bytes c → (j < length c)%nat → 8 <= i → Z.testbit (c !!! j) i = false) as Hhi.
  { intros c Hc Hjc Hi8. assert (0 <= c !!! j < 256) as Hr by (apply (Forall_lookup_1 _ _ j _ Hc); by apply list_lookup_lookup_total_lt).
    destruct (decide (c !!! j = 0)) as [->|]; [apply Z.bits_0|]. apply Z.bits_above_log2; [lia|]. assert (Z.log2 (c !!! j) < 8); [|lia]. apply Z.log2_lt_pow2; lia. }
  destruct (decide (8 <= i)) as [Hi8|Hi8]; [by rewrite !Hhi by (done || lia)|].
  pose proof (Hk (8 * Z.of_nat j + i) ltac:(lia)) as H. unfold bit in H.
  destruct (div_mod_unique_pos 8 (Z.of_nat j) i (8 * Z.of_nat j + i)) as [Hd Hm]; [lia|lia|]. rewrite Hd, Hm, Nat2Z.id in H. exact H.
Qed.

(** ** The codec *)

Record packbits_wf (c : PackBitsCodecBound) (d : Z) : Prop := {
  pw_size : 1 <= component_size_bits (pb_components c);
  pw_count : 1 <= num_components (pb_components c);
  pw_bits : 0 <= pb_first_bit c <= pb_last_bit c ∧ pb_last_bit c < component_size_bits (pb_components c);
  pw_type : pb_data_type c = PlainType (FixedSize d);
  (** the components of an element fill its bytes *)
  pw_bytes : d = num_components (pb_components c) * div_ceil (component_size_bits (pb_components c)) 8;
}.

Section bits.
Context (c : PackBitsCodecBound) (d : Z) (Hc : packbits_wf c d).
Context (n : Z) (Hn : 1 <= n) (Hb : n * d * 8 < 2 ^ 63).

Abbreviation csize := (component_size_bits (pb_components c)).
Abbreviation first := (pb_first_bit c).
Abbreviation last_ := (pb_last_bit c).
(** The bits of a component in memory, the bits kept of it, and the number of components. *)
Definition padded : Z := 8 * div_ceil csize 8.
Definition kept : Z := last_ - first + 1.
Definition count : Z := n * num_components (pb_components c).

Lemma sizes_ok : (1 <= kept ∧ first + kept = last_ + 1 ∧ last_ < csize <= padded ∧ 0 <= first) ∧ (padded mod 8 = 0 ∧ count * padded = n * d * 8 ∧ count * padded < 2 ^ 63) ∧
  (1 <= count ∧ count * kept <= count * csize ∧ count * csize <= count * padded ∧ count <= count * padded ∧ padded <= count * padded).
Proof.
  pose proof (pw_size c d Hc) as H1. pose proof (pw_count c d Hc) as H2. pose proof (pw_bits c d Hc) as H3. unfold padded, kept, count.
  pose proof (pw_bytes c d Hc) as H4. destruct (div_ceil_spec csize 8) as [Hd|]; [lia|lia| |lia]. set (p := div_ceil csize 8) in *.
  assert (1 <= n * num_components (pb_components c)) as Hcount by nia. set (m := n * num_components (pb_components c)) in *.
  assert (m * (8 * p) = n * d * 8) as Heq by (unfold m; rewrite H4; ring). split_and!; try lia; [|nia|nia|nia|nia].
  rewrite Z.mul_comm. apply Z_mod_mult.
Qed.

Lemma extracted_ok : component_size_bits_extracted c = kept.
Proof.
  destruct sizes_ok as (H1 & H2 & H3). unfold component_size_bits_extracted, kept in *. rewrite (wrap64_small (last_ - first)) by (unfold_u64; lia).
  apply wrap64_small. unfold_u64. lia.
Qed.

Lemma element_bits_ok : element_size_bits c = kept * num_components (pb_components c) ∧ n * (kept * num_components (pb_components c)) = count * kept.
Proof.
  destruct sizes_ok as (H1 & H2 & H3). pose proof (pw_count c d Hc). assert (n * (kept * num_components (pb_components c)) = count * kept) as He by (unfold count; ring).
  split; [|done]. unfold element_size_bits. rewrite extracted_ok. apply wrap64_small. unfold_u64. nia.
Qed.

Lemma packed_size_ok : elements_size_bytes c n = div_ceil (count * kept) 8 ∧ n *w num_components (pb_components c) = count ∧ n *w d = n * d ∧
  count * kept <= 8 * div_ceil (count * kept) 8 < count * kept + 8.
Proof.
  destruct sizes_ok as (H1 & H2 & H3). destruct element_bits_ok as [He Hk]. pose proof (pw_count c d Hc). unfold elements_size_bytes.
  rewrite He, Hk, !wrap64_small by (unfold_u64; unfold count in *; nia). split_and!; [done..| |]; (destruct (div_ceil_spec (count * kept) 8) as [?|[? ?]]; [nia|lia|lia|nia]).
Qed.

(** The places of the bit [e] of a component in memory and of the kept bit [j] in the packed bits. *)
Lemma memory_place_at (b : bytes) i e : 0 <= i < count → 0 <= e < csize → (i + 1) * padded <= 8 * zlen b →
  place (div_rem_8bit (i * csize + e) csize) = i * padded + e ∧ place_ok b (div_rem_8bit (i * csize + e) csize).
Proof.
  intros Hi He Hl. destruct sizes_ok as (H1 & H2 & H3). destruct (div_mod_unique_pos csize i e (i * csize + e)) as [Hd Hm]; [lia|lia|].
  unfold div_rem_8bit. rewrite Hd, Hm. assert (8 *w div_ceil csize 8 = padded) as -> by (apply wrap64_small; unfold_u64; unfold padded in *; lia).
  assert (i * padded + e < count * padded) as Hie by nia. rewrite (wrap64_small (i * padded)) by (unfold_u64; nia). rewrite wrap64_small by (unfold_u64; nia).
  assert (e mod 8 = (i * padded + e) mod 8) as ->.
  { rewrite Z.add_mod, Z.mul_mod, (proj1 (proj1 (proj2 sizes_ok))) by lia. rewrite Z.mul_0_r, Z.mod_0_l, Z.add_0_l, Z.mod_mod by lia. done. }
  destruct (div_rem_8_place (i * padded + e)) as [Hp Hok]. split; [exact Hp|]. apply Hok; nia.
Qed.

Lemma memory_place (b : bytes) i e : 0 <= i < count → 0 <= e < csize → count * padded <= 8 * zlen b →
  place (div_rem_8bit (i * csize + e) csize) = i * padded + e ∧ place_ok b (div_rem_8bit (i * csize + e) csize).
Proof. intros Hi He Hl. destruct sizes_ok as (H1 & H2 & H3). apply memory_place_at; [done|done|nia]. Qed.

Lemma packed_place (b : bytes) i j : 0 <= i < count → 0 <= j < kept → count * kept <= 8 * zlen b →
  place (div_rem_8 (i * kept + j)) = i * kept + j ∧ place_ok b (div_rem_8 (i * kept + j)).
Proof.
  intros Hi Hj Hl. destruct sizes_ok as (H1 & H2 & H3). destruct (div_rem_8_place (i * kept + j)) as [Hp Hok]. split; [exact Hp|]. apply Hok; nia.
Qed.

(** The indices of the code do not wrap. *)
Lemma bit_indices i j : 0 <= i < count → 0 <= j < kept →
  i *w csize +w first +w j = i * csize + (first + j) ∧ i *w kept +w j = i * kept + j.
Proof.
  intros Hi Hj. destruct sizes_ok as (H1 & H2 & H3). assert (i * csize + csize <= count * csize) by nia. assert (i * kept + kept <= count * kept) by nia.
  rewrite !(wrap64_small (i * _)) by (unfold_u64; nia). rewrite (wrap64_small (_ + first)) by (unfold_u64; nia). rewrite !wrap64_small by (unfold_u64; nia). lia.
Qed.

(** *** Encoding *)

Lemma encode_component_ok (b packed : bytes) i : 0 <= i < count → count * padded <= 8 * zlen b → count * kept <= 8 * zlen packed →
  ∃ packed', encode_component c b packed i = Ok packed' ∧ bits_set packed packed'
    (λ k, ∃ j, 0 <= j < kept ∧ k = i * kept + j ∧ bit b (i * padded + (first + j)) = true).
Proof.
  intros Hi Hlb Hlp. destruct sizes_ok as (H1 & H2 & H3). unfold encode_component. rewrite extracted_ok.
  destruct (fold_bits (λ packed_elements bit, copy_bit b packed_elements (div_rem_8bit (i *w csize +w first +w bit) csize) (div_rem_8 (i *w kept +w bit)))
    (seqZ 0 kept) (λ j k, k = i * kept + j ∧ bit b (i * padded + (first + j)) = true) packed) as (packed' & Hf & Hs).
  - intros j p Hj Hp. apply elem_of_seqZ in Hj. destruct (bit_indices i j Hi ltac:(lia)) as [-> ->].
    destruct (memory_place b i (first + j) Hi ltac:(lia) Hlb) as [Hm Hmo]. destruct (packed_place p i j Hi ltac:(lia) ltac:(lia)) as [Hq Hqo].
    destruct (copy_bit_ok b p _ _ Hmo Hqo) as (p' & Hcp & Hs). rewrite Hm, Hq in Hs. by exists p'.
  - exists packed'. split; [exact Hf|]. eapply bits_set_iff; [|exact Hs]. intros k. cbv beta. split.
    + intros (j & Hj & Hk & Hbit). apply elem_of_seqZ in Hj. exists j. split_and!; done || lia.
    + intros (j & Hj & Hk & Hbit). exists j. rewrite elem_of_seqZ. split_and!; done || lia.
Qed.

Lemma encode_components_ok (b : bytes) : count * padded <= 8 * zlen b →
  ∃ packed, fold_outcome (encode_component c b) (replicate (Z.to_nat (elements_size_bytes c n)) 0) (seqZ 0 count) = Ok packed ∧
    zlen packed = div_ceil (count * kept) 8 ∧ are_bytes packed ∧
    ∀ i j, 0 <= i < count → 0 <= j < kept → bit packed (i * kept + j) = bit b (i * padded + (first + j)).
Proof.
  intros Hlb. destruct sizes_ok as (H1 & H2 & H3). destruct packed_size_ok as (Hsz & _ & _ & Hlen). rewrite Hsz. set (z := replicate _ 0).
  assert (zlen z = div_ceil (count * kept) 8) as Hz by (unfold z; rewrite length_replicate; lia).
  destruct (fold_bits (encode_component c b) (seqZ 0 count)
    (λ i k, ∃ j, 0 <= j < kept ∧ k = i * kept + j ∧ bit b (i * padded + (first + j)) = true) z) as (packed & Hf & [Hl Hby Hbit]).
  { intros i p Hi Hp. apply elem_of_seqZ in Hi. apply (encode_component_ok b p i); [lia|done|rewrite Hp; lia]. }
  exists packed. split_and!; [exact Hf|lia| |].
  - apply Hby. apply Forall_replicate. lia.
  - intros i j Hi Hj. apply eq_true_iff_eq. pose proof (digits_bound i j count kept Hi Hj) as Hd.
    assert (bit z (i * kept + j) = false) as Hz0 by (unfold z; apply bit_zeros; lia). rewrite Hbit, Hz0 by lia. split.
    + intros [?|(i' & Hi' & j' & Hj' & He & Hv)]; [done|]. apply elem_of_seqZ in Hi'.
      by destruct (digits_inj i j i' j' kept Hj Hj' He) as [-> ->].
    + intros Hv. right. exists i. split; [apply elem_of_seqZ; lia|]. by exists j.
Qed.

(** *** Decoding *)

(** The bits of the component [i] that decoding sets. *)
Definition decoded_bit (packed : bytes) (i e : Z) : Prop :=
  (first <= e <= last_ ∧ bit packed (i * kept + (e - first)) = true) ∨
  (sign_extension (pb_components c) = true ∧ last_ < e ∧ e / 8 = last_ / 8 ∧ bit packed (i * kept + (kept - 1)) = true).

Lemma b2z_eqb b : (Z.b2z b =? 1) = b.
Proof. by destruct b. Qed.

Lemma sign_bits_ok (dec : bytes) i : 0 <= i < count → count * padded <= 8 * zlen dec →
  ∃ dec', set_bits dec ((λ q, ((i * padded + last_) / 8, q)) <$> seqZ (last_ mod 8 + 1) (8 - (last_ mod 8 + 1))) = Ok dec' ∧
    bits_set dec dec' (λ k, ∃ e, last_ < e ∧ e / 8 = last_ / 8 ∧ k = i * padded + e).
Proof.
  intros Hi Hl. destruct sizes_ok as (H1 & H2 & H3). pose proof (Z.mod_pos_bound last_ 8 ltac:(lia)) as Hm. pose proof (Z.div_mod last_ 8 ltac:(lia)) as Hdm.
  assert (∃ t, padded = 8 * t) as [t Ht] by (exists (padded / 8); pose proof (Z.div_mod padded 8); lia).
  assert ((i * padded + last_) / 8 = i * t + last_ / 8) as Hd.
  { rewrite Ht. replace (i * (8 * t) + last_) with (last_ + (i * t) * 8) by ring. rewrite Z.div_add by lia. lia. }
  assert (i * t + last_ / 8 < zlen dec) as Hin by nia. pose proof (Z.div_pos last_ 8 ltac:(lia) ltac:(lia)) as Hp.
  unfold set_bits. destruct (fold_bits (λ b at_, or_bit b at_ 1) ((λ q, ((i * padded + last_) / 8, q)) <$> seqZ (last_ mod 8 + 1) (8 - (last_ mod 8 + 1)))
    (λ at_ k, k = place at_ ∧ 1 = 1) dec) as (dec' & Hf & Hs).
  { intros at_ b' Hat Hlb. apply list_elem_of_fmap in Hat as (q & -> & Hq). apply elem_of_seqZ in Hq. apply or_bit_ok; [|by right].
    unfold place_ok. cbn [fst snd]. rewrite Hd, Hlb. split; [nia|lia]. }
  exists dec'. split; [exact Hf|]. eapply bits_set_iff; [|exact Hs]. intros k. cbv beta. split.
  - intros (at_ & Hat & -> & _). apply list_elem_of_fmap in Hat as (q & -> & Hq). apply elem_of_seqZ in Hq. exists (8 * (last_ / 8) + q). unfold place. cbn [fst snd]. rewrite Hd.
    destruct (div_mod_unique_pos 8 (last_ / 8) q (8 * (last_ / 8) + q)) as [He _]; [lia|lia|]. split_and!; [lia|exact He|rewrite Ht; ring].
  - intros (e & He & Hdiv & ->). pose proof (Z.div_mod e 8 ltac:(lia)) as Hde. pose proof (Z.mod_pos_bound e 8 ltac:(lia)) as Hme. exists ((i * padded + last_) / 8, e mod 8).
    split; [apply list_elem_of_fmap; exists (e mod 8); split; [done|]; apply elem_of_seqZ; lia|]. unfold place. cbn [fst snd]. rewrite Hd. split; [rewrite Ht; lia|done].
Qed.

Lemma decode_component_ok (packed dec : bytes) i : 0 <= i < count → count * padded <= 8 * zlen dec → count * kept <= 8 * zlen packed →
  ∃ dec', decode_component c packed dec i = Ok dec' ∧ bits_set dec dec' (λ k, ∃ e, k = i * padded + e ∧ decoded_bit packed i e).
Proof.
  intros Hi Hld Hlp. destruct sizes_ok as (H1 & H2 & H3). unfold decode_component. rewrite extracted_ok.
  destruct (fold_bits (λ bytes_dec bit, copy_bit packed bytes_dec (div_rem_8 (i *w kept +w bit)) (div_rem_8bit (i *w csize +w first +w bit) csize))
    (seqZ 0 kept) (λ j k, k = i * padded + (first + j) ∧ bit packed (i * kept + j) = true) dec) as (dec1 & Hf & Hs).
  { intros j p Hj Hp. apply elem_of_seqZ in Hj. destruct (bit_indices i j Hi ltac:(lia)) as [-> ->].
    destruct (memory_place p i (first + j) Hi ltac:(lia) ltac:(lia)) as [Hm Hmo]. destruct (packed_place packed i j Hi ltac:(lia) ltac:(lia)) as [Hq Hqo].
    destruct (copy_bit_ok packed p _ _ Hqo Hmo) as (p' & Hcp & Hs). rewrite Hm, Hq in Hs. by exists p'. }
  rewrite Hf. cbn [obind].
  assert (bits_set dec dec1 (λ k, ∃ e, k = i * padded + e ∧ first <= e <= last_ ∧ bit packed (i * kept + (e - first)) = true)) as Hs1.
  { eapply bits_set_iff; [|exact Hs]. intros k. cbv beta. split.
    - intros (j & Hj & -> & Hv). apply elem_of_seqZ in Hj. exists (first + j). replace (first + j - first) with j by ring. split_and!; done || lia.
    - intros (e & -> & He & Hv). exists (e - first). rewrite elem_of_seqZ. replace (first + (e - first)) with e by ring. split_and!; done || lia. }
  destruct (sign_extension (pb_components c)) eqn:Hsign.
  - unfold saturating_sub. rewrite Z.max_r by lia. destruct (bit_indices i (kept - 1) Hi ltac:(lia)) as [-> ->].
    destruct (packed_place packed i (kept - 1) Hi ltac:(lia) ltac:(lia)) as [Hq Hqo]. rewrite get_bit_ok, Hq by done. cbn [obind]. rewrite b2z_eqb.
    destruct (bit packed (i * kept + (kept - 1))) eqn:Hv.
    + replace (first + (kept - 1)) with last_ by lia. destruct (memory_place dec1 i last_ Hi ltac:(lia)) as [Hm [_ Hmo]]; [rewrite (set_length _ _ _ Hs1); lia|].
      destruct (div_rem_8bit (i * csize + last_) csize) as [by_ q] eqn:Hdr. destruct (place_div (by_, q) Hmo) as [Hpd Hpm]. cbn [fst snd] in Hpd, Hpm. rewrite Hm in Hpd, Hpm.
      assert (q = last_ mod 8) as -> by (unfold div_rem_8bit in Hdr; injection Hdr as _ <-; by rewrite (proj2 (div_mod_unique_pos csize i last_ (i * csize + last_) ltac:(lia) ltac:(lia)))).
      rewrite <-Hpd. destruct (sign_bits_ok dec1 i Hi) as (dec2 & Hd2 & Hs2); [rewrite (set_length _ _ _ Hs1); lia|]. exists dec2. split; [exact Hd2|].
      eapply bits_set_iff; [|exact (bits_set_trans _ _ _ _ _ Hs1 Hs2)]. intros k. cbv beta. unfold decoded_bit. rewrite Hv. naive_solver.
    + exists dec1. split; [done|]. eapply bits_set_iff; [|exact Hs1]. intros k. cbv beta. unfold decoded_bit. rewrite Hv. naive_solver.
  - exists dec1. split; [done|]. eapply bits_set_iff; [|exact Hs1]. intros k. cbv beta. unfold decoded_bit. rewrite Hsign. naive_solver.
Qed.

Lemma decoded_bit_padded packed i e : decoded_bit packed i e → 0 <= e < padded.
Proof.
  destruct sizes_ok as (H1 & H2 & H3). assert (∃ t, padded = 8 * t) as [t Ht] by (exists (padded / 8); pose proof (Z.div_mod padded 8); lia).
  intros [[He _]|(_ & He & Hd & _)]; [lia|]. pose proof (Z.div_mod e 8 ltac:(lia)). pose proof (Z.mod_pos_bound e 8 ltac:(lia)).
  pose proof (Z.div_lt_upper_bound last_ 8 t ltac:(lia) ltac:(lia)). lia.
Qed.

Lemma decode_components_ok (packed : bytes) : count * kept <= 8 * zlen packed →
  ∃ dec, fold_outcome (decode_component c packed) (replicate (Z.to_nat (n *w d)) 0) (seqZ 0 count) = Ok dec ∧ zlen dec = n * d ∧ are_bytes dec ∧
    ∀ i e, 0 <= i < count → 0 <= e < padded → bit dec (i * padded + e) = true ↔ decoded_bit packed i e.
Proof.
  intros Hlp. destruct sizes_ok as (H1 & H2 & H3). destruct packed_size_ok as (_ & _ & Hd & _). rewrite Hd. set (z := replicate _ 0).
  assert (zlen z = n * d) as Hz by (unfold z; rewrite length_replicate; lia).
  destruct (fold_bits (decode_component c packed) (seqZ 0 count) (λ i k, ∃ e, k = i * padded + e ∧ decoded_bit packed i e) z) as (dec & Hf & [Hl Hby Hbit]).
  { intros i p Hi Hp. apply elem_of_seqZ in Hi. apply decode_component_ok; [lia|rewrite Hp; lia|done]. }
  exists dec. split_and!; [exact Hf|lia|apply Hby, Forall_replicate; lia|].
  intros i e Hi He. pose proof (digits_bound i e count padded Hi He) as Hdb.
  assert (bit z (i * padded + e) = false) as Hz0 by (unfold z; apply bit_zeros; lia). rewrite Hbit, Hz0 by lia. split.
  - intros [?|(i' & Hi' & e' & Heq & Hv)]; [done|]. pose proof (decoded_bit_padded _ _ _ Hv) as He'. by destruct (digits_inj i e i' e' padded He He' Heq) as [-> ->].
  - intros Hv. right. exists i. split; [apply elem_of_seqZ; lia|]. by exists e.
Qed.
End bits.

(** ** Encoding, then decoding *)

(** The bit [e] of the component [i] after it has been encoded and decoded. *)
Definition restored_bit (c : PackBitsCodecBound) (b : bytes) (i e : Z) : bool :=
  if (pb_first_bit c <=? e) && (e <=? pb_last_bit c) then bit b (i * padded c + e)
  else sign_extension (pb_components c) && (pb_last_bit c <? e) && (e / 8 =? pb_last_bit c / 8) && bit b (i * padded c + pb_last_bit c).

Section codec.
Context `{!BytesDataTypes, !Target}.

Lemma padding_ok c enc packed n p : zlen packed = n → 0 <= n < 2 ^ 63 →
  enc = match pb_padding_encoding c with PaddingNone => packed | FirstByte => p :: packed | LastByte => packed ++ [p] end →
  zlen enc = n +w padding_byte (pb_padding_encoding c) ∧ packed_elements_of c enc n p = Ok packed.
Proof.
  intros Hl Hn ->. unfold packed_elements_of, padding_byte. destruct (pb_padding_encoding c); cbn [length].
  - rewrite Z.add_0_r, wrap64_small by (unfold_u64; lia). done.
  - rewrite wrap64_small by (unfold_u64; lia). split; [lia|].
    assert (index (E:=CodecError) (p :: packed) 0 = Ok p) as -> by done. cbn [obind]. rewrite Z.eqb_refl. cbn [negb].
    pose proof (slice_middle (E:=CodecError) [p] packed [] 1 (zlen (p :: packed))) as Hs. rewrite app_nil_r in Hs. apply Hs; cbn [length]; lia.
  - rewrite length_app, wrap64_small by (unfold_u64; cbn [length]; lia). cbn [length]. split; [lia|]. rewrite index_ok_total by (rewrite length_app; cbn [length]; lia).
    cbn [obind]. rewrite lookup_total_app_r by lia. replace (Z.to_nat n - length packed)%nat with 0%nat by lia.
    change ([p] !!! 0%nat) with p. rewrite Z.eqb_refl. cbn [negb].
    pose proof (slice_middle (E:=CodecError) [] packed [p] 0 n) as Hs. apply Hs; cbn [length]; lia.
Qed.

(** The packed bytes with the byte that tells the padding. *)
Definition with_padding (c : PackBitsCodecBound) (n : Z) (packed : bytes) : bytes :=
  let p := padding_bits n (element_size_bits c) in
  match pb_padding_encoding c with PaddingNone => packed | FirstByte => p :: packed | LastByte => packed ++ [p] end.

Lemma packbits_encode_ok c d sh (b : bytes) options : packbits_wf c d → bytes_fast_path c = false → chunk_shape_ok sh → Zprod sh * d * 8 < 2 ^ 63 →
  zlen b = Zprod sh * d →
  ∃ packed, packbits_encode c (FixedBytes b) sh options = Ok (with_padding c (Zprod sh) packed) ∧
    zlen packed = div_ceil (count c (Zprod sh) * kept c) 8 ∧ are_bytes packed ∧
    ∀ i j, 0 <= i < count c (Zprod sh) → 0 <= j < kept c → bit packed (i * kept c + j) = bit b (i * padded c + (pb_first_bit c + j)).
Proof.
  intros Hc Hfast Hsh Hb Hlen. destruct (chunk_shape_product sh Hsh) as [Hp Hpos]. set (n := Zprod sh) in *. assert (1 <= n) as Hn by lia.
  destruct (sizes_ok c d Hc n Hn Hb) as (H1 & H2 & H3). destruct (packed_size_ok c d Hc n Hn Hb) as (Hsz & Hcnt & Hnd & Hps).
  destruct (encode_components_ok c d Hc n Hn Hb b) as (packed & Hpk & Hpl & Hpb & Hbits); [lia|]. exists packed. split_and!; [|done..].
  unfold packbits_encode. rewrite Hfast, Hp. cbn [into_fixed obind]. rewrite (pw_type c d Hc). cbn [fixed_size data_type_size ok_or obind].
  rewrite Hnd, (proj2 (Z.eqb_eq _ _) Hlen). cbn [negb]. by rewrite Hcnt, Hpk.
Qed.

Lemma packbits_roundtrip_ok c d sh (b : bytes) options : packbits_wf c d → bytes_fast_path c = false → chunk_shape_ok sh → Zprod sh * d * 8 < 2 ^ 63 →
  zlen b = Zprod sh * d →
  ∃ enc dec, packbits_encode c (FixedBytes b) sh options = Ok enc ∧ packbits_encoded_representation c sh = Ok (BytesFixedSize (zlen enc)) ∧
    (∀ options', packbits_decode c enc sh options' = Ok (FixedBytes dec)) ∧ zlen dec = zlen b ∧ are_bytes dec ∧
    ∀ i e, 0 <= i < count c (Zprod sh) → 0 <= e < padded c → bit dec (i * padded c + e) = restored_bit c b i e.
Proof.
  intros Hc Hfast Hsh Hb Hlen. destruct (packbits_encode_ok c d sh b options Hc Hfast Hsh Hb Hlen) as (packed & Henc & Hpl & Hpb & Hbits).
  destruct (chunk_shape_product sh Hsh) as [Hp Hpos]. set (n := Zprod sh) in *. assert (1 <= n) as Hn by lia.
  destruct (sizes_ok c d Hc n Hn Hb) as (H1 & H2 & H3). destruct (packed_size_ok c d Hc n Hn Hb) as (Hsz & Hcnt & Hnd & Hps).
  destruct (decode_components_ok c d Hc n Hn Hb packed) as (dec & Hdec & Hdl & Hdb & Hdbits); [lia|]. exists (with_padding c n packed), dec.
  destruct (padding_ok c (with_padding c n packed) packed _ _ Hpl ltac:(lia) eq_refl) as [Hel Hpe]. split_and!; [done| | |lia|done|].
  - unfold packbits_encoded_representation. by rewrite Hp, Hsz, Hel.
  - intros options'. unfold packbits_decode. rewrite Hfast, Hp, Hsz, (pw_type c d Hc). cbn [fixed_size data_type_size ok_or obind].
    rewrite <-Hel, Z.eqb_refl. cbn [negb]. rewrite Hpe. cbn [obind]. by rewrite Hcnt, Hdec.
  - intros i e Hi He. apply eq_true_iff_eq. rewrite Hdbits by done. unfold decoded_bit, restored_bit.
    assert (∀ j, 0 <= j < kept c → bit packed (i * kept c + j) = bit b (i * padded c + (pb_first_bit c + j))) as Hj by (intros j Hj; by apply Hbits).
    destruct (Z.leb_spec (pb_first_bit c) e) as [Hf|Hf]; cbn [andb].
    + destruct (Z.leb_spec e (pb_last_bit c)) as [Hl|Hl].
      * rewrite Hj by lia. replace (pb_first_bit c + (e - pb_first_bit c)) with e by ring. split; [intros [?|?]; [tauto|lia]|]. intros Hv. left. split; [lia|done].
      * rewrite (Hj (kept c - 1)) by lia. replace (pb_first_bit c + (kept c - 1)) with (pb_last_bit c) by lia. rewrite (proj2 (Z.ltb_lt _ _)) by done.
        rewrite andb_true_r, !andb_true_iff, Z.eqb_eq. split; [intros [?|(?&?&?&?)]; [lia|tauto]|]. intros [[? ?] ?]. right. done.
    + rewrite (proj2 (Z.ltb_ge _ _)) by lia. rewrite andb_false_r. split; [intros [?|?]; lia|done].
Qed.
End codec.

(** ** Ranges of runs *)

Lemma iter_collect_fmap {S A B E} (next : S → outcome E (option A * S)) (f : A → B) fuel s :
  iter_collect (λ s, let? (item, s) := next s in Ok (f <$> (item : option A), s)) fuel s =
  option_map (omap_ok (λ l : list A, f <$> l)) (iter_collect next fuel s).
Proof.
  revert s. induction fuel as [|fuel IH]; intros s; [done|]. cbn [iter_collect]. destruct (next s) as [[[a|] s']| |]; [|done..]. cbn [obind fmap option_fmap option_map].
  rewrite IH. clear IH. destruct (iter_collect next fuel s') as [[l| |]|]; done.
Qed.

(** The byte ranges are those of the runs. *)
Lemma byte_ranges_of_runs sub sh d : contiguous_byte_ranges sub sh d = omap_ok (λ l, byte_range_of d <$> l) (contiguous_linearised_indices sub sh).
Proof.
  unfold contiguous_byte_ranges, contiguous_linearised_indices. destruct (ContiguousLinearisedIndices_new sub sh) as [ci| |]; [|done..]. cbn [obind].
  unfold drain. assert (∀ fuel s, iter_collect (ContiguousByteRanges_next d) fuel s =
    option_map (omap_ok (λ l, byte_range_of d <$> l)) (iter_collect ContiguousLinearisedIndices_next fuel s)) as ->
    by (intros fuel s; apply (iter_collect_fmap ContiguousLinearisedIndices_next)).
  by destruct (iter_collect _ _ _) as [[l| |]|].
Qed.

Lemma runs_within sub sh runs : region_ok sub sh → contiguous_linearised_indices sub sh = Ok runs →
  Forall (λ run, 0 <= run.1 ∧ 0 < run.2 ∧ run.1 + run.2 <= Zprod sh) runs ∧ (runs ≫= λ run, seqZ run.1 run.2) = positions sub sh.
Proof.
  intros Hsub Hr. destruct (contiguous_linearised_indices_ok sub sh Hsub) as (ci & runs' & _ & Hr' & Hlen & Hpos & Hexp). rewrite Hr in Hr'. injection Hr' as <-.
  split; [|done]. destruct Hsub as (Hs & Ha & _ & _). pose proof (positions_bound sub sh Hs Ha) as Hpb. rewrite <-Hexp in Hpb.
  apply Forall_forall. intros run Hrun. rewrite Forall_forall in Hlen. pose proof (Hlen run Hrun) as H2. rewrite Forall_forall in Hpb.
  assert (∀ x, run.1 <= x < run.1 + run.2 → 0 <= x < Zprod sh) as Hx.
  { intros x Hx. apply Hpb. apply list_elem_of_bind. exists run. split; [apply elem_of_seqZ; lia|done]. }
  pose proof (Hx run.1). pose proof (Hx (run.1 + run.2 - 1)). lia.
Qed.

Lemma div_ceil_mono a b : 0 <= a <= b → div_ceil a 8 <= div_ceil b 8.
Proof. intros H. destruct (div_ceil_spec a 8) as [?|[? ?]], (div_ceil_spec b 8) as [?|[? ?]]; lia. Qed.

(** ** The components of the elements of a region *)

Section partial.
Context (c : PackBitsCodecBound) (d : Z) (Hc : packbits_wf c d).
Context (n : Z) (Hn : 1 <= n) (Hb : n * d * 8 < 2 ^ 63).

Abbreviation csize := (component_size_bits (pb_components c)).
Abbreviation nc := (num_components (pb_components c)).
Abbreviation kept := (kept c).
Abbreviation padded := (padded c).
Abbreviation count := (count c n).

Definition components_of (idxs : list Z) : list Z := idxs ≫= λ i, seqZ (i * nc) nc.

(** The bits that partial decoding sets for the component [s]. *)
Definition partial_bit (packed : bytes) (s e : Z) : Prop :=
  (0 <= e < kept ∧ bit packed (s * kept + e) = true) ∨
  (sign_extension (pb_components c) = true ∧ kept <= e < csize ∧ bit packed (s * kept + (kept - 1)) = true).

(** The components [P] are decoded in [size] bytes, the others are zero. *)
Definition decoded_to (size : Z) (packed : bytes) (P : list Z) (dec : bytes) : Prop :=
  zlen dec = size ∧ are_bytes dec ∧
  ∀ k, 0 <= k < 8 * size → bit dec k = true ↔ ∃ q s e, P !! q = Some s ∧ k = Z.of_nat q * padded + e ∧ partial_bit packed s e.

Lemma partial_bit_padded packed s e : partial_bit packed s e → 0 <= e < padded.
Proof. destruct (sizes_ok c d Hc n Hn Hb) as (H1 & H2 & H3). intros [[? _]|(_ & ? & _)]; lia. Qed.

(** One more component. *)
Lemma decoded_push size packed P s dec dec' : (Z.of_nat (length P) + 1) * padded <= 8 * size → decoded_to size packed P dec →
  bits_set dec dec' (λ k, ∃ e, k = Z.of_nat (length P) * padded + e ∧ partial_bit packed s e) → decoded_to size packed (P ++ [s]) dec'.
Proof.
  intros Hs (Hl & Hby & Hbits) [Hl' Hby' Hbits']. split_and!; [by rewrite Hl'|auto|]. intros k Hk. rewrite Hbits', Hbits by lia. split.
  - intros [(q & s' & e & Hq & -> & Hp)|(e & -> & Hp)]; [exists q, s', e; split_and!; [by apply lookup_app_l_Some|done|done]|].
    exists (length P), s, e. split_and!; [by rewrite lookup_app_r, Nat.sub_diag by lia|done|done].
  - intros (q & s' & e & Hq & -> & Hp). apply lookup_app_Some in Hq as [Hq|[Hge Hq]]; [left; by exists q, s', e|].
    right. destruct (q - length P)%nat as [|m] eqn:Hm; [|done]. injection Hq as <-. exists e. replace q with (length P) by lia. done.
Qed.

(** Bits of the memory that no component has set yet. *)
Lemma decoded_fresh size packed P dec e : (Z.of_nat (length P) + 1) * padded <= 8 * size → decoded_to size packed P dec → 0 <= e < padded →
  bit dec (Z.of_nat (length P) * padded + e) = false.
Proof.
  intros Hs (_ & _ & Hbits) He. destruct (sizes_ok c d Hc n Hn Hb) as (H1 & H2 & H3). apply not_true_iff_false. rewrite Hbits by nia.
  intros (q & s & e' & Hq & Heq & Hp). apply lookup_lt_Some in Hq. pose proof (partial_bit_padded _ _ _ Hp) as He'.
  destruct (digits_inj (Z.of_nat (length P)) e (Z.of_nat q) e' padded He He' Heq). lia.
Qed.

(** The bytes of a run, in the packed bytes. *)
Definition run_bytes (packed : bytes) (run : Z * Z) : bytes :=
  let first_byte := run.1 * (kept * nc) / 8 in
  take (Z.to_nat (div_ceil ((run.1 + run.2) * (kept * nc)) 8 - first_byte)) (drop (Z.to_nat first_byte) packed).

Definition run_ok (run : Z * Z) : Prop := 0 <= run.1 ∧ 0 < run.2 ∧ run.1 + run.2 <= n.

Lemma element_bits_positive : 1 <= kept * nc ∧ n * (kept * nc) = count * kept.
Proof.
  destruct (sizes_ok c d Hc n Hn Hb) as (H1 & H2 & H3). destruct (element_bits_ok c d Hc n Hn Hb) as [_ He]. pose proof (pw_count c d Hc). split; [nia|done].
Qed.

Lemma run_bits (packed : bytes) run : zlen packed = div_ceil (count * kept) 8 → run_ok run →
  ∀ k, 0 <= k → k + run.1 * (kept * nc) < (run.1 + run.2) * (kept * nc) →
  place_ok (run_bytes packed run) (div_rem_8 (k + run.1 * (kept * nc) mod 8)) ∧ bit (run_bytes packed run) (k + run.1 * (kept * nc) mod 8) = bit packed (k + run.1 * (kept * nc)).
Proof.
  intros Hl Hr k Hk Hlt. destruct Hr as (H1 & H2 & H3). destruct element_bits_positive as [Hw Hnw]. set (w := kept * nc) in *. set (x := run.1 * w) in *. set (y := (run.1 + run.2) * w) in *.
  assert (0 <= x <= y) as Hxy by (unfold x, y; nia). assert (y <= count * kept) as Hy by (unfold y; rewrite <-Hnw; nia).
  pose proof (div_ceil_mono y (count * kept) ltac:(lia)) as Hmono. pose proof (Z.div_mod x 8 ltac:(lia)) as Hdm. pose proof (Z.mod_pos_bound x 8 ltac:(lia)) as Hmod.
  pose proof (Z.div_pos x 8 ltac:(lia) ltac:(lia)) as Hx8. assert (y <= 8 * div_ceil y 8) as Hyc by (destruct (div_ceil_spec y 8) as [?|[? ?]]; lia).
  assert (length (run_bytes packed run) = Z.to_nat (div_ceil y 8 - x / 8)) as Hlen.
  { unfold run_bytes. fold w x y. rewrite length_take, length_drop. lia. }
  destruct (div_rem_8_place (k + x mod 8)) as [_ Hok]. split; [apply Hok; [lia|]; rewrite Hlen; lia|].
  unfold bit. assert ((k + x) / 8 = (k + x mod 8) / 8 + x / 8 ∧ (k + x) mod 8 = (k + x mod 8) mod 8) as [-> ->].
  { replace (k + x) with (k + x mod 8 + x / 8 * 8) by lia. by rewrite Z.div_add, Z.mod_add by lia. }
  f_equal. unfold run_bytes. fold w x y. pose proof (Z.div_pos (k + x mod 8) 8 ltac:(lia) ltac:(lia)).
  pose proof (Z.div_lt_upper_bound (k + x mod 8) 8 (div_ceil y 8 - x / 8) ltac:(lia) ltac:(lia)).
  rewrite !list_lookup_total_alt, lookup_take_lt, lookup_drop by lia. do 2 f_equal. lia.
Qed.

Lemma bit_range_ok run : run_ok run → byte_range_of (element_size_bits c) run = mk_range (run.1 * (kept * nc)) ((run.1 + run.2) * (kept * nc)) ∧
  0 <= run.1 * (kept * nc) ∧ (run.1 + run.2) * (kept * nc) <= count * kept ∧ count * kept < 2 ^ 63.
Proof.
  intros (H1 & H2 & H3). destruct element_bits_positive as [Hw Hnw]. destruct (sizes_ok c d Hc n Hn Hb) as (HH1 & HH2 & HH3).
  destruct (element_bits_ok c d Hc n Hn Hb) as [Heb _]. rewrite Heb. destruct run as [i len]. cbn [fst snd] in *. unfold byte_range_of.
  assert ((i + len) * (kept * nc) <= count * kept) by (rewrite <-Hnw; nia). assert (0 <= i * (kept * nc)) by nia. assert (0 <= len * (kept * nc)) by nia.
  assert (i * (kept * nc) + len * (kept * nc) = (i + len) * (kept * nc)) as Hsum by ring.
  rewrite !(wrap64_small (_ * _)) by (unfold_u64; lia). rewrite wrap64_small by (unfold_u64; lia). rewrite Hsum. split_and!; lia || done.
Qed.

Context (size : Z) (m : Z) (Hm : 0 <= m <= count) (Hsize : m * padded = 8 * size).

Lemma partial_component_ok (packed part dec : bytes) (P : list Z) outer off ci s :
  outer + ci = Z.of_nat (length P) → 0 <= outer → 0 <= ci < count → 0 <= off < 8 → Z.of_nat (length P) < m → decoded_to size packed P dec →
  (∀ j, 0 <= j < kept → place_ok part (div_rem_8 (ci * kept + j + off)) ∧ bit part (ci * kept + j + off) = bit packed (s * kept + j)) →
  ∃ dec', partial_component c part outer off dec ci = Ok dec' ∧ decoded_to size packed (P ++ [s]) dec'.
Proof.
  intros Hq Ho Hci Hoff Hlt Hdec Hpart. destruct (sizes_ok c d Hc n Hn Hb) as (H1 & H2 & H3). pose proof (extracted_ok c d Hc n Hn Hb) as Hex.
  set (q := Z.of_nat (length P)) in *. assert (0 <= q < count) as Hqc by lia. assert ((q + 1) * padded <= 8 * size) as Hqs by (rewrite <-Hsize; nia).
  pose proof Hdec as (Hl & _ & _).
  assert (∀ e, 0 <= e < csize → (outer +w ci) *w csize +w e = q * csize + e) as Hidx.
  { intros e He. pose proof (digits_bound q e count csize Hqc He). rewrite (wrap64_small (outer + ci)) by (unfold_u64; lia). rewrite Hq.
    rewrite (wrap64_small (q * csize)) by (unfold_u64; nia). apply wrap64_small. unfold_u64. lia. }
  assert (∀ j, 0 <= j < kept → ci *w kept +w j +w off = ci * kept + j + off) as Henc.
  { intros j Hj. pose proof (digits_bound ci j count kept Hci Hj). rewrite (wrap64_small (ci * kept)) by (unfold_u64; nia). rewrite (wrap64_small (_ + j)) by (unfold_u64; lia).
    apply wrap64_small. unfold_u64. lia. }
  assert (∀ b e, length b = length dec → 0 <= e < csize → place (div_rem_8bit (q * csize + e) csize) = q * padded + e ∧ place_ok b (div_rem_8bit (q * csize + e) csize)) as Hplace.
  { intros b e Hb' He. apply (memory_place_at c d Hc n Hn Hb b q e Hqc He). rewrite Hb'. lia. }
  unfold partial_component. rewrite Hex.
  destruct (fold_bits (λ bytes_dec bit, copy_bit part bytes_dec (div_rem_8 (ci *w kept +w bit +w off)) (div_rem_8bit ((outer +w ci) *w csize +w bit) csize))
    (seqZ 0 kept) (λ j k, k = q * padded + j ∧ bit packed (s * kept + j) = true) dec) as (dec1 & Hf & Hs).
  { intros j b Hj Hlb. apply elem_of_seqZ in Hj. rewrite Henc, Hidx by lia. destruct (Hplace b j Hlb ltac:(lia)) as [Hpl Hpo].
    destruct (Hpart j ltac:(lia)) as [Hso Hsb]. destruct (copy_bit_ok part b _ _ Hso Hpo) as (b' & Hcp & Hset).
    rewrite Hpl, (proj1 (div_rem_8_place _)), Hsb in Hset. by exists b'. }
  rewrite Hf. cbn [obind].
  assert (bits_set dec dec1 (λ k, ∃ e, k = q * padded + e ∧ 0 <= e < kept ∧ bit packed (s * kept + e) = true)) as Hs1.
  { eapply bits_set_iff; [|exact Hs]. intros k. cbv beta. split; [intros (j & Hj & -> & Hv)|intros (j & -> & Hj & Hv)]; exists j; rewrite elem_of_seqZ in *; split_and!; done || lia. }
  destruct (sign_extension (pb_components c)) eqn:Hsign.
  - unfold saturating_sub. rewrite Z.max_r, Hidx by lia. destruct (Hplace dec1 (kept - 1) (set_length _ _ _ Hs1) ltac:(lia)) as [Hpl Hpo]. rewrite get_bit_ok, Hpl by done.
    cbn [obind]. rewrite b2z_eqb. pose proof (decoded_fresh size packed P dec (kept - 1) Hqs Hdec ltac:(lia)) as Hfresh. fold q in Hfresh.
    assert (bit dec1 (q * padded + (kept - 1)) = bit packed (s * kept + (kept - 1))) as ->.
    { apply eq_true_iff_eq. rewrite (set_bit _ _ _ Hs1), Hfresh by nia. split; [intros [?|(e & He & _ & Hv)]; [done|]; by replace (kept - 1) with e by lia|].
      intros Hv. right. exists (kept - 1). split_and!; done || lia. }
    destruct (bit packed (s * kept + (kept - 1))) eqn:Hv.
    + unfold set_bits. destruct (fold_bits (λ b at_, or_bit b at_ 1) ((λ bit, div_rem_8bit ((outer +w ci) *w csize +w bit) csize) <$> seqZ kept (csize - kept))
        (λ at_ k, k = place at_ ∧ 1 = 1) dec1) as (dec2 & Hf2 & Hs2).
      { intros at_ b Hat Hlb. apply list_elem_of_fmap in Hat as (e & -> & He). apply elem_of_seqZ in He. apply or_bit_ok; [|by right]. rewrite Hidx by lia.
        apply Hplace; [by rewrite Hlb, (set_length _ _ _ Hs1)|lia]. }
      exists dec2. split; [exact Hf2|]. apply (decoded_push size packed P s dec dec2 Hqs Hdec). eapply bits_set_iff; [|exact (bits_set_trans _ _ _ _ _ Hs1 Hs2)].
      intros k. cbv beta. fold q. unfold partial_bit. rewrite Hsign, Hv. split.
      * intros [(e & -> & He & Hv')|(at_ & Hat & -> & _)]; [exists e; split; [done|left; done]|]. apply list_elem_of_fmap in Hat as (e & -> & He). apply elem_of_seqZ in He.
        rewrite Hidx by lia. exists e. split; [apply (Hplace dec1 e (set_length _ _ _ Hs1)); lia|]. right. split_and!; done || lia.
      * intros (e & -> & [[He Hv']|(_ & He & _)]); [left; by exists e|]. right. exists (div_rem_8bit ((outer +w ci) *w csize +w e) csize).
        split; [apply list_elem_of_fmap; exists e; split; [done|apply elem_of_seqZ; lia]|]. rewrite Hidx by lia. split; [|done]. symmetry. apply (Hplace dec1 e (set_length _ _ _ Hs1)); lia.
    + exists dec1. split; [done|]. apply (decoded_push size packed P s dec dec1 Hqs Hdec). eapply bits_set_iff; [|exact Hs1]. intros k. cbv beta. fold q. unfold partial_bit. rewrite Hv. naive_solver.
  - exists dec1. split; [done|]. apply (decoded_push size packed P s dec dec1 Hqs Hdec). eapply bits_set_iff; [|exact Hs1]. intros k. cbv beta. fold q. unfold partial_bit. rewrite Hsign. naive_solver.
Qed.

(** The components of a run. *)
Lemma partial_run_ok (packed part dec : bytes) (P : list Z) outer off s0 (len : nat) a :
  outer + a = Z.of_nat (length P) → 0 <= outer → 0 <= a → a + Z.of_nat len <= count → 0 <= off < 8 → Z.of_nat (length P) + Z.of_nat len <= m → decoded_to size packed P dec →
  (∀ ci j, a <= ci < a + Z.of_nat len → 0 <= j < kept →
    place_ok part (div_rem_8 (ci * kept + j + off)) ∧ bit part (ci * kept + j + off) = bit packed ((s0 + ci) * kept + j)) →
  ∃ dec', fold_outcome (partial_component c part outer off) dec (seqZ a (Z.of_nat len)) = Ok dec' ∧
    decoded_to size packed (P ++ seqZ (s0 + a) (Z.of_nat len)) dec'.
Proof.
  revert a P dec. induction len as [|len IH]; intros a P dec Hq Ho Ha Hc' Hoff Hm' Hdec Hpart.
  { exists dec. cbn. by rewrite app_nil_r. }
  rewrite !(seqZ_cons _ (Z.of_nat (S len))) by lia. cbn [fold_outcome].
  destruct (partial_component_ok packed part dec P outer off a (s0 + a) Hq Ho ltac:(lia) Hoff ltac:(lia) Hdec) as (dec1 & -> & Hd1).
  { intros j Hj. apply Hpart; lia. }
  cbn [obind]. replace (Z.pred (Z.of_nat (S len))) with (Z.of_nat len) by lia.
  destruct (IH (Z.succ a) (P ++ [s0 + a]) dec1) as (dec2 & -> & Hd2); try lia; [rewrite length_app; cbn [length]; lia|rewrite length_app; cbn [length]; lia|done|intros ci j Hci Hj; apply Hpart; lia|].
  exists dec2. split; [done|]. rewrite <-app_assoc in Hd2. cbn [app] in Hd2. by replace (Z.succ (s0 + a)) with (s0 + Z.succ a) by lia.
Qed.

Lemma partial_runs_ok (packed dec : bytes) (P : list Z) runs : zlen packed = div_ceil (count * kept) 8 → Forall run_ok runs → decoded_to size packed P dec →
  Z.of_nat (length P) + zlen (components_of (runs ≫= λ run, seqZ run.1 run.2)) <= m →
  ∃ dec', partial_runs c ((λ run, (run_bytes packed run, byte_range_of (element_size_bits c) run)) <$> runs) (Z.of_nat (length P)) dec = Ok dec' ∧
    decoded_to size packed (P ++ components_of (runs ≫= λ run, seqZ run.1 run.2)) dec'.
Proof.
  intros Hl Hruns. revert P dec. destruct (sizes_ok c d Hc n Hn Hb) as (H1 & H2 & H3). pose proof (pw_count c d Hc) as Hnc.
  induction Hruns as [|run runs Hr Hruns IH]; intros P dec Hdec Hroom.
  { exists dec. cbn. by rewrite app_nil_r. }
  destruct (bit_range_ok run Hr) as (Hbr & Hr0 & Hr1 & Hr2). destruct element_bits_positive as [Hw Hnw]. pose proof Hr as (Hi & Hlen & Hin).
  rewrite fmap_cons. cbn [partial_runs]. rewrite Hbr. cbn [r_start r_end]. rewrite (proj1 (element_bits_ok c d Hc n Hn Hb)).
  assert (components_of (seqZ run.1 run.2) = seqZ (run.1 * nc) (run.2 * nc)) as Hcomp by (unfold components_of; by rewrite seqZ_mul_offset by lia).
  assert (components_of (seqZ run.1 run.2 ++ (runs ≫= λ run, seqZ run.1 run.2)) = seqZ (run.1 * nc) (run.2 * nc) ++ components_of (runs ≫= λ run, seqZ run.1 run.2)) as Happ
    by (unfold components_of in *; by rewrite bind_app, Hcomp).
  rewrite bind_cons in *. rewrite Happ, length_app, length_seqZ in *.
  assert (0 < run.2 * nc <= count) as Hrn by (unfold PackBitsSpec.count; nia).
  assert ((run.1 + run.2) * (kept * nc) - run.1 * (kept * nc) = run.2 * (kept * nc)) as Hdiff by ring.
  rewrite (wrap64_small (_ - run.1 * _)) by (unfold_u64; lia). rewrite Hdiff, Z.div_mul by lia.
  pose proof (Z.div_mod (run.1 * (kept * nc)) 8 ltac:(lia)) as Hdm. pose proof (Z.mod_pos_bound (run.1 * (kept * nc)) 8 ltac:(lia)) as Hmod.
  rewrite (wrap64_small (8 * _)) by (unfold_u64; lia). replace (run.1 * (kept * nc) - 8 * (run.1 * (kept * nc) / 8)) with (run.1 * (kept * nc) mod 8) by lia.
  rewrite (wrap64_small (_ mod 8)) by (unfold_u64; lia). rewrite (wrap64_small (run.2 * nc)) by (unfold_u64; lia).
  destruct (partial_run_ok packed (run_bytes packed run) dec P (Z.of_nat (length P)) (run.1 * (kept * nc) mod 8) (run.1 * nc) (Z.to_nat (run.2 * nc)) 0) as (dec1 & Hf & Hd1);
    [lia|lia|lia|lia|lia|lia|done| |].
  { intros ci j Hci Hj. pose proof (digits_bound ci j (run.2 * nc) kept ltac:(lia) Hj) as Hcj.
    destruct (run_bits packed run Hl Hr (ci * kept + j)) as [Hp Hbit]; [lia|replace ((run.1 + run.2) * (kept * nc)) with (run.1 * (kept * nc) + run.2 * nc * kept) by ring; lia|]. split; [exact Hp|]. rewrite Hbit. f_equal. ring. }
  rewrite Z2Nat.id in Hf, Hd1 by lia. rewrite Hf. cbn [obind]. rewrite Z.add_0_r in Hd1.
  destruct (IH (P ++ seqZ (run.1 * nc) (run.2 * nc)) dec1 Hd1) as (dec2 & Hr2' & Hd2); [rewrite length_app, length_seqZ; lia|].
  exists dec2. rewrite <-app_assoc in Hd2. split; [|exact Hd2]. rewrite <-Hr2', (proj1 (element_bits_ok c d Hc n Hn Hb)). f_equal.
  rewrite length_app, length_seqZ, wrap64_small by (unfold_u64; lia). lia.
Qed.
End partial.

(** ** The partial decoder *)

Lemma zip_fmap {A B D} (f : A → B) (g : A → D) l : zip (f <$> l) (g <$> l) = (λ x, (f x, g x)) <$> l.
Proof. induction l as [|x l IH]; [done|]. rewrite !fmap_cons. cbn [zip zip_with]. f_equal. exact IH. Qed.

Lemma run_bytes_of c d n packed run : packbits_wf c d → 1 <= n → n * d * 8 < 2 ^ 63 → zlen packed = div_ceil (count c n * kept c) 8 → run_ok n run →
  ∃ o l, bit_range_bytes c (byte_range_of (element_size_bits c) run) = FromStart o (Some l) ∧ 0 <= o ∧ 0 <= l ∧ o + l <= zlen (with_padding c n packed) ∧
    range_bytes (with_padding c n packed) (FromStart o (Some l)) = run_bytes c packed run.
Proof.
  intros Hc Hn Hb Hl Hr. destruct (bit_range_ok c d Hc n Hn Hb run Hr) as (Hbr & H0 & H1 & H2). rewrite Hbr. destruct Hr as (Hr1 & Hr2 & Hr3).
  destruct (element_bits_positive c d Hc n Hn Hb) as [Hw Hnw]. unfold bit_range_bytes, run_bytes. cbn [r_start r_end].
  set (x := run.1 * _) in *. set (y := (run.1 + run.2) * _) in *. assert (x < y) as Hxy by (unfold x, y; nia).
  pose proof (div_ceil_mono y _ ltac:(split; [lia|exact H1])) as Hmono. pose proof (Z.div_pos x 8 ltac:(lia) ltac:(lia)) as Hx8. pose proof (Z.div_mod x 8 ltac:(lia)). pose proof (Z.mod_pos_bound x 8 ltac:(lia)).
  assert (x / 8 <= div_ceil y 8) as Hxc by (destruct (div_ceil_spec y 8) as [?|[? ?]]; lia). assert (div_ceil (count c n * kept c) 8 < 2 ^ 62) as Hsmall by (destruct (div_ceil_spec (count c n * kept c) 8) as [?|[? ?]]; lia).
  set (off := match pb_padding_encoding c with FirstByte => 1 | _ => 0 end).
  exists (off + x / 8), (div_ceil y 8 - x / 8). assert (0 <= off <= 1) as Hoff by (unfold off; destruct (pb_padding_encoding c); lia).
  split_and!; [|lia|lia| |].
  - unfold ByteRange_new. rewrite !(wrap64_small (off + _)) by (unfold_u64; lia). rewrite wrap64_small by (unfold_u64; lia). do 2 f_equal. lia.
  - unfold with_padding, off. destruct (pb_padding_encoding c); cbn [length]; rewrite ?length_app; lia.
  - unfold with_padding, off. cbn [range_bytes]. destruct (pb_padding_encoding c).
    + by rewrite Z.add_0_l.
    + replace (Z.to_nat (1 + x / 8)) with (S (Z.to_nat (x / 8))) by lia. done.
    + rewrite Z.add_0_l, drop_app_le by lia. rewrite take_app_le by (rewrite length_drop; lia). done.
Qed.

Lemma components_length c idxs : 1 <= num_components (pb_components c) → zlen (components_of c idxs) = zlen idxs * num_components (pb_components c).
Proof.
  intros Hnc. unfold components_of. induction idxs as [|i idxs IH]; [done|]. rewrite bind_cons, length_app, length_seqZ. cbn [length]. lia.
Qed.

Lemma packbits_partial_ok c d sh h key v packed sub : packbits_wf c d → chunk_shape_ok sh → Zprod sh * d * 8 < 2 ^ 63 →
  zlen packed = div_ceil (count c (Zprod sh) * kept c) 8 → handle_reads 0 h key v (Some (with_padding c (Zprod sh) packed)) → region_ok sub sh →
  ∃ out, runs_at (packbits_partial_decode c h sh sub) v (Ok (FixedBytes out)) v ∧
    decoded_to c (Zprod (shape sub) * d) packed (components_of c (positions sub sh)) out.
Proof.
  intros Hc Hsh Hb Hl [_ Hread] Hsub. destruct (chunk_shape_product sh Hsh) as [_ Hpos]. assert (1 <= Zprod sh) as Hn by lia.
  destruct (region_num_elements sub sh Hsub) as [Hne Hle]. pose proof (length_positions sub sh (proj1 Hsub)) as Hpl.
  destruct (contiguous_linearised_indices_ok sub sh Hsub) as (_ & runs & _ & Hruns & _ & _ & _). destruct (runs_within sub sh runs Hsub Hruns) as [Hwithin Hexp].
  destruct (sizes_ok c d Hc _ Hn Hb) as (H1 & H2 & H3). pose proof (pw_count c d Hc) as Hnc. pose proof (pw_bytes c d Hc) as Hd.
  destruct (div_ceil_spec (component_size_bits (pb_components c)) 8) as [Hdc|[? _]]; [pose proof (pw_size c d Hc); lia|lia| |pose proof (pw_size c d Hc); lia].
  assert (1 <= d) as Hd1 by nia. set (mm := Zprod (shape sub)) in *.
  assert (mm * num_components (pb_components c) * padded c = 8 * (mm * d)) as Hm by (unfold padded; rewrite Hd; ring).
  assert (mm * num_components (pb_components c) <= count c (Zprod sh)) as Hmc by (unfold count; nia).
  set (ranges := byte_range_of (element_size_bits c) <$> runs).
  assert (range_bytes (with_padding c (Zprod sh) packed) <$> (bit_range_bytes c <$> ranges) = run_bytes c packed <$> runs) as Hrb.
  { unfold ranges. rewrite !list_fmap_fmap. apply list_fmap_ext_in. intros run Hrun. rewrite Forall_forall in Hwithin.
    destruct (run_bytes_of c d (Zprod sh) packed run Hc Hn Hb Hl (Hwithin run Hrun)) as (o & l & Hbr & _ & _ & _ & Heq).
    unfold compose. by rewrite Hbr. }
  assert (zlen (with_padding c (Zprod sh) packed) < 2 ^ 62) as Hel.
  { unfold with_padding. destruct (div_ceil_spec (count c (Zprod sh) * kept c) 8) as [?|[? ?]], (pb_padding_encoding c); cbn [length]; rewrite ?length_app; cbn [length]; nia. }
  destruct (partial_runs_ok c d Hc _ Hn Hb (mm * d) (mm * num_components (pb_components c)) ltac:(nia) Hm packed (replicate (Z.to_nat (mm * d)) 0) [] runs Hl Hwithin) as (out & Hpr & Hdone).
  { split_and!; [rewrite length_replicate; nia|apply Forall_replicate; lia|]. intros k Hk. rewrite bit_zeros by lia. split; [done|]. intros (q & s & e & Hq & _). by rewrite lookup_nil in Hq. }
  { rewrite Hexp, components_length by done. cbn [length]. lia. }
  exists out. rewrite Hexp, app_nil_l in Hdone. split; [|exact Hdone]. unfold packbits_partial_decode. rewrite (pw_type c d Hc). cbn [fixed_size data_type_size ok_or]. prog.
  rewrite byte_ranges_of_runs, Hruns. cbn [omap_ok obind map_err]. fold ranges. prog. eapply runs_at_bind.
  - apply Hread.
    + apply Forall_fmap, Forall_true. intros r. done.
    + intros b [= <-]. split; [unfold_u64; lia|]. rewrite !Forall_fmap. unfold ranges. rewrite !Forall_fmap. split; (eapply Forall_impl; [exact Hwithin|]); intros run Hrun; unfold compose;
        destruct (run_bytes_of c d (Zprod sh) packed run Hc Hn Hb Hl Hrun) as (o & l & Hbr & ? & ? & ? & _); rewrite Hbr; cbn; unfold_u64; lia.
  - cbn [fmap option_fmap option_map]. rewrite Hrb. unfold ranges. rewrite zip_fmap, Hne. fold mm. rewrite (wrap64_small (mm * d)) by (unfold_u64; nia).
    change (Z.of_nat (length [])) with 0 in Hpr. rewrite Hpr. done.
Qed.

Lemma packbits_partial_confined c h key sh sub : (∀ rs, confined key (bytes_partial_decode_many h rs)) → confined key (packbits_partial_decode c h sh sub).
Proof.
  intros Hr. unfold packbits_partial_decode. destruct (fixed_size _) as [d|]; [|done]. cbn [ok_or]. prog.
  destruct (contiguous_byte_ranges sub sh _) as [ranges| |]; [|done..]. prog. apply confined_bind; [apply Hr|].
  intros [l|]; prog; [|done]. by case_match.
Qed.

(** The components of a region are components of the chunk, and fit in its bytes. *)
Lemma component_bound c d sub sh q i : packbits_wf c d → 1 <= Zprod sh → Zprod sh * d * 8 < 2 ^ 63 → region_ok sub sh → components_of c (positions sub sh) !! q = Some i →
  0 <= i < count c (Zprod sh) ∧ ∀ e, 0 <= e < padded c → Z.of_nat q * padded c + e < 8 * (Zprod (shape sub) * d).
Proof.
  intros Hc Hn Hb Hsub Hq. pose proof (pw_count c d Hc) as Hnc. pose proof (length_positions sub sh (proj1 Hsub)) as Hpl. split.
  - apply list_elem_of_lookup_2 in Hq. unfold components_of in Hq. apply list_elem_of_bind in Hq as (p & Hi%elem_of_seqZ & Hp).
    pose proof (positions_bound sub sh (proj1 Hsub) (proj1 (proj2 Hsub))) as Hpb. rewrite Forall_forall in Hpb. specialize (Hpb p Hp). unfold count. nia.
  - intros e He. apply lookup_lt_Some in Hq. pose proof (components_length c (positions sub sh) Hnc) as Hl. rewrite Hpl in Hl.
    pose proof (digits_bound (Z.of_nat q) e (Zprod (shape sub) * num_components (pb_components c)) (padded c) ltac:(lia) He) as Hd.
    pose proof (pw_bytes c d Hc) as Hdd. unfold padded in *. rewrite Hdd. nia.
Qed.
