(* ===== verification/PackBitsTheorems.v ===== *)
(** The properties of the [packbits] codec: which bits survive encoding and decoding, and which bits the partial decoder returns. *)

From S2P Require Import Prelude ArraySubset Linear Iterators ByteRange StoreKey Storage MemoryStore ArrayBytes.
From S2P Require Import Elements StoreProgram DecodeInto Concurrency Codec BytesCodec CodecChain ChainTheorems VlenLaws PackBits PackBitsSpec.

Section theorems.
Context `{!BytesDataTypes, !Target}.

(** C30: for components that are not kept as whole bytes, the [packbits] codec encodes elements of the size of the data type in as many bytes as its
    representation says; decoding gives back the kept bits, extends the sign, when the type has one, to the end of the byte of the last kept bit, and
    clears the others.  Elements of which these are all the bits come back as they were. *)
Theorem packbits_roundtrip (c : PackBitsCodecBound) d sh (b : bytes) options : packbits_wf c d → bytes_fast_path c = false → chunk_shape_ok sh →
  Zprod sh * d * 8 < 2 ^ 63 → zlen b = Zprod sh * d →
  ∃ enc dec, packbits_encode c (FixedBytes b) sh options = Ok enc ∧ packbits_encoded_representation c sh = Ok (BytesFixedSize (zlen enc)) ∧
    (∀ options', packbits_decode c enc sh options' = Ok (FixedBytes dec)) ∧ zlen dec = zlen b ∧
    (∀ i e, 0 <= i < count c (Zprod sh) → 0 <= e < padded c → bit dec (i * padded c + e) = restored_bit c b i e) ∧
    (are_bytes b → (∀ i e, 0 <= i < count c (Zprod sh) → 0 <= e < padded c → restored_bit c b i e = bit b (i * padded c + e)) → dec = b).
Proof.
  intros Hc Hfast Hsh Hb Hlen. destruct (packbits_roundtrip_ok c d sh b options Hc Hfast Hsh Hb Hlen) as (enc & dec & He & Hr & Hd & Hl & Hby & Hbits).
  exists enc, dec. split_and!; [done..|]. intros Hbb Hkeep. apply bytes_ext; [done|done|lia|]. intros k Hk.
  destruct (chunk_shape_product sh Hsh) as [_ Hpos]. destruct (sizes_ok c d Hc (Zprod sh) ltac:(lia) Hb) as (B1 & B2 & B3).
  pose proof (Z.div_mod k (padded c) ltac:(lia)) as Hdm. pose proof (Z.mod_pos_bound k (padded c) ltac:(lia)) as Hm. pose proof (Z.div_pos k (padded c) ltac:(lia) ltac:(lia)).
  pose proof (Z.div_lt_upper_bound k (padded c) (count c (Zprod sh)) ltac:(lia) ltac:(lia)). replace k with (k / padded c * padded c + k mod padded c) by lia.
  by rewrite Hbits, Hkeep by lia.
Qed.

(** C31: on a store whose value at a key is what the codec encoded, the partial decoder reads the components of a region from their kept bits, puts them at the
    start of the component, and extends the sign over the other bits of the component.  Without a first bit and a sign this is what decoding gives; otherwise the two
    can differ. *)
Theorem packbits_partial_decode_spec {S : Type} (abs : S → gmap str bytes) `{HL : LawfulStorage S abs} (c : PackBitsCodecBound) d sh (b : bytes) enc options key (s : S) sub :
  packbits_wf c d → bytes_fast_path c = false → chunk_shape_ok sh → Zprod sh * d * 8 < 2 ^ 63 → zlen b = Zprod sh * d →
  packbits_encode c (FixedBytes b) sh options = Ok enc → abs s !! key = Some enc → region_ok sub sh →
  ∃ s' out, run (packbits_partial_decode c (store_handle key) sh sub) s = (s', Ok (FixedBytes out)) ∧ abs s' = abs s ∧ zlen out = Zprod (shape sub) * d ∧
    ∀ q i e, components_of c (positions sub sh) !! q = Some i → 0 <= e < padded c →
      bit out (Z.of_nat q * padded c + e) =
        (if e <? kept c then bit b (i * padded c + (pb_first_bit c + e))
         else sign_extension (pb_components c) && (e <? component_size_bits (pb_components c)) && bit b (i * padded c + pb_last_bit c)) ∧
      (pb_first_bit c = 0 → sign_extension (pb_components c) = false → bit out (Z.of_nat q * padded c + e) = restored_bit c b i e).
Proof.
  intros Hc Hfast Hsh Hb Hlen Henc Hkey Hsub. destruct (packbits_encode_ok c d sh b options Hc Hfast Hsh Hb Hlen) as (packed & Henc' & Hl & _ & Hbits).
  rewrite Henc in Henc'. injection Henc' as ->.
  destruct (packbits_partial_ok c d sh (store_handle key) key (Some (with_padding c (Zprod sh) packed)) packed sub Hc Hsh Hb Hl (store_handle_reads 0 key _) Hsub) as (out & Hrun & Hol & _ & Hout).
  rewrite <-Hkey in Hrun. apply runs_read in Hrun; [|by apply packbits_partial_confined; apply (proj1 (store_handle_reads 0 key None))].
  destruct (run_runs abs _ _ _ _ Hrun) as (s' & Hs' & Habs). exists s', out. split_and!; [done..|]. intros q i e Hq He.
  destruct (chunk_shape_product sh Hsh) as [_ Hpos]. assert (1 <= Zprod sh) as Hn by lia. destruct (sizes_ok c d Hc _ Hn Hb) as (B1 & B2 & B3).
  destruct (component_bound c d sub sh q i Hc Hn Hb Hsub Hq) as [Hi Hqb].
  assert (∀ j, 0 <= j < kept c → bit packed (i * kept c + j) = bit b (i * padded c + (pb_first_bit c + j))) as Hj by (intros j Hj; by apply Hbits).
  assert (bit out (Z.of_nat q * padded c + e) =
        (if e <? kept c then bit b (i * padded c + (pb_first_bit c + e))
         else sign_extension (pb_components c) && (e <? component_size_bits (pb_components c)) && bit b (i * padded c + pb_last_bit c))) as Hbit.
  { apply eq_true_iff_eq. rewrite Hout by (split; [nia|]; apply Hqb; lia). split.
    - intros (q' & s0 & e' & Hq' & Heq & Hp). pose proof (partial_bit_padded c d Hc _ Hn Hb _ _ _ Hp) as He'. destruct (digits_inj _ _ _ _ _ He He' Heq) as [Hqq ->].
      assert (q' = q) as -> by lia. rewrite Hq in Hq'. injection Hq' as <-. destruct Hp as [[Hk Hv]|(-> & Hk & Hv)].
      + rewrite (proj2 (Z.ltb_lt _ _)) by lia. by rewrite <-Hj by lia.
      + rewrite (proj2 (Z.ltb_ge _ _)), (proj2 (Z.ltb_lt _ _)) by lia. rewrite Hj in Hv by lia. by replace (pb_first_bit c + (kept c - 1)) with (pb_last_bit c) in Hv by lia.
    - intros Hv. exists q, i, e. split_and!; [done|done|]. destruct (Z.ltb_spec e (kept c)); [left; rewrite Hj by lia; split; [lia|done]|].
      apply andb_true_iff in Hv as [[Hs Hcs%Z.ltb_lt]%andb_true_iff Hv]. right. rewrite Hj by lia.
      replace (pb_first_bit c + (kept c - 1)) with (pb_last_bit c) by lia. split_and!; done || lia. }
  split; [done|]. intros Hf Hs. rewrite Hbit, Hs. unfold restored_bit. rewrite Hf, Hs, Z.add_0_l, (proj2 (Z.leb_le 0 e)) by lia. cbn [andb].
  destruct (Z.ltb_spec e (kept c)), (Z.leb_spec e (pb_last_bit c)); done || lia.
Qed.
End theorems.

(** ** Witnesses

    Signed 4-bit integers, which take a byte in memory. *)
Section witnesses.
#[local] Instance packbits_target : Target := Little.
#[local] Instance packbits_types : BytesDataTypes := λ _, None.

Definition int4 : PackBitsCodecBound := mk_packbits_bound FirstByte (mk_components 4 1 true) 0 3 (PlainType (FixedSize 1)) [0].
Definition int4_values : bytes := [255; 3; 248].

Lemma int4_wf : packbits_wf int4 1.
Proof. constructor; (reflexivity || (cbn; lia)). Qed.

Lemma int4_shape : chunk_shape_ok [3].
Proof. split; [repeat constructor; lia|reflexivity]. Qed.

Lemma packbits_roundtrip_witness :
  packbits_encode int4 (FixedBytes int4_values) [3] (CodecOptions_default 1) = Ok [4; 63; 8] ∧
  packbits_decode int4 [4; 63; 8] [3] (CodecOptions_default 1) = Ok (FixedBytes int4_values).
Proof.
  destruct (packbits_roundtrip int4 1 [3] int4_values (CodecOptions_default 1) int4_wf eq_refl int4_shape eq_refl eq_refl) as (enc & dec & He & _ & Hd & _ & _ & Heq).
  assert (packbits_encode int4 (FixedBytes int4_values) [3] (CodecOptions_default 1) = Ok [4; 63; 8]) as He' by (vm_compute; reflexivity).
  split; [exact He'|]. assert (enc = [4; 63; 8]) as <- by congruence. rewrite Hd. do 2 f_equal. apply Heq; [unfold are_bytes, int4_values; repeat constructor; lia|].
  intros i e Hi He8. assert (count int4 (Zprod [3]) = 3) as Hn by reflexivity. assert (padded int4 = 8) as Hp by reflexivity. rewrite Hn in Hi. rewrite Hp in He8.
  assert (forallb (λ i, forallb (λ e, Bool.eqb (restored_bit int4 int4_values i e) (bit int4_values (i * padded int4 + e))) (seqZ 0 8)) (seqZ 0 3) = true) as Hall by (vm_compute; reflexivity).
  rewrite forallb_forall in Hall. specialize (Hall i ltac:(apply list_elem_of_In, elem_of_seqZ; lia)). rewrite forallb_forall in Hall.
  apply eqb_prop, Hall, list_elem_of_In, elem_of_seqZ. lia.
Defined.

Definition packbits_key : StoreKey := lit "k".
Definition packbits_store : MemoryStore := {[ packbits_key := [4; 63; 8] ]}.

Lemma int4_region : region_ok (mk_subset [0] [3]) [3].
Proof. apply (region_whole [3] int4_shape). Qed.

(** The partial decoder does not give back the element -1, all of whose bits are set: its bit 5 is clear. *)
Lemma packbits_partial_decode_spec_witness :
  ∃ s' out, run (packbits_partial_decode int4 (store_handle packbits_key) [3] (mk_subset [0] [3])) packbits_store = (s', Ok (FixedBytes out)) ∧
    bit int4_values 5 = true ∧ bit out 5 = false.
Proof.
  destruct (packbits_partial_decode_spec memory_abs int4 1 [3] int4_values [4; 63; 8] (CodecOptions_default 1) packbits_key packbits_store (mk_subset [0] [3])
    int4_wf eq_refl int4_shape eq_refl eq_refl eq_refl eq_refl int4_region) as (s' & out & Hrun & _ & _ & Hbits).
  exists s', out. split; [exact Hrun|]. split; [reflexivity|]. assert (0 <= 5 < padded int4) as H5 by (assert (padded int4 = 8) as -> by reflexivity; lia).
  destruct (Hbits 0%nat 0 5 eq_refl H5) as [Hb _]. exact Hb.
Defined.
End witnesses.
