(* ===== verification/Transpose.v ===== *)
(** The transpose codec: [zarrs/src/array/codec/array_to_array/transpose.rs] with its submodules, and the
    configuration's [TransposeOrder] ([zarrs_metadata_ext/src/codec/registered/transpose.rs]).

    The library [ndarray], which permutes the axes of an array view, is external: [NdArray] has its operations,
    [LawfulNdArray] what they promise, and [list_nd_array] an array as a function of the index. *)

From stdpp Require Import sorting.
From S2P Require Import Prelude ArraySubset Linear Iterators ByteRange StoreKey Storage ArrayBytes.
From S2P Require Import Elements StoreProgram DecodeInto Concurrency Codec BytesCodec ArrayToArray.

(** ** The order *)

Definition TransposeOrder : Type := list Z.

(** [Vec::dedup]: of equal neighbours the first is kept. *)
Fixpoint dedup (l : list Z) : list Z :=
  match l with
  | a :: ((b :: _) as l) => if a =? b then dedup l else a :: dedup l
  | _ => l
  end.

(** [sort_unstable] of integers. *)
Definition to_vec_unique (v : list Z) : list Z := dedup (merge_sort Z.le v).

(** The maximum of a list that is not empty. *)
Definition list_max (l : list Z) : option Z :=
  match l with [] => None | a :: l => Some (fold_left Z.max l a) end.

Definition validate_permutation (permutation : list Z) : outcome CodecError bool :=
  let permutation_unique := to_vec_unique permutation in
  if bool_decide (permutation = []) then Ok false
  else if negb (zlen permutation_unique =? zlen permutation) then Ok false
  else let? m := expect (list_max permutation_unique) in Ok (m =? zlen permutation -w 1).

Definition TransposeOrder_new (order : list Z) : outcome CodecError TransposeOrder :=
  let? valid := validate_permutation order in
  if valid then Ok order else Err CodecOther.

(** [inverse[val] = i] panics when [val] is out of range. *)
Fixpoint inverse_permutation_loop (order : list Z) (i : Z) (inverse : list Z) : outcome CodecError (list Z) :=
  match order with
  | [] => Ok inverse
  | val :: order =>
      if (0 <=? val) && (val <? zlen inverse) then inverse_permutation_loop order (i +w 1) (<[Z.to_nat val := i]> inverse)
      else Panic
  end.

Definition inverse_permutation (order : list Z) : outcome CodecError (list Z) :=
  inverse_permutation_loop order 0 (replicate (length order) 0).

(** [permute]: [None] when the lengths differ. *)
Definition permute (v : list Z) (order : list Z) : outcome CodecError (option (list Z)) :=
  if (length v =? length order)%nat then let? vec := collect_res (index v <$> order) in Ok (Some vec) else Ok None.

Definition permute_expect (v : list Z) (order : list Z) : outcome CodecError (list Z) :=
  let? r := permute v order in expect r.

(** ** The library [ndarray] *)

(** [ArrayView::from_shape] and [Array::from_shape_vec], [permuted_axes] which panics unless the axes are a permutation,
    [is_standard_layout], [to_owned().into_raw_vec()], and the elements in logical order, which iteration yields and which are the memory of
    [as_standard_layout]. *)
Class NdArray := {
  nd_array : Type → Type;
  nd_from_shape {A} : list Z → list A → option (nd_array A);
  nd_permuted_axes {A} : nd_array A → list Z → outcome CodecError (nd_array A);
  nd_is_standard_layout {A} : nd_array A → bool;
  nd_raw_vec {A} : nd_array A → list A;
  nd_elements {A} : nd_array A → list A;
}.

(** The entries of a list at given places. *)
Definition gather (order v : list Z) : list Z := (λ k, v !!! Z.to_nat k) <$> order.

(** [seqZ 0 n] for an order of length [n]. *)
Definition is_permutation (order : list Z) : Prop := order ≡ₚ seqZ 0 (zlen order).

Class LawfulNdArray `{!NdArray} := {
  nd_shape {A} : nd_array A → list Z;
  nd_get {A} : nd_array A → list Z → option A;
  nd_from_shape_law {A} sh (data : list A) : Forall (λ d, 1 <= d) sh → Zprod sh = zlen data → zlen data < 2 ^ 63 →
    ∃ a, nd_from_shape sh data = Some a ∧ nd_shape a = sh ∧ ∀ ix, index_in ix sh → nd_get a ix = data !! Z.to_nat (lin ix sh);
  nd_permuted_axes_law {A} (a : nd_array A) axes : is_permutation axes → length axes = length (nd_shape a) →
    ∃ a', nd_permuted_axes a axes = Ok a' ∧ nd_shape a' = gather axes (nd_shape a) ∧
      ∀ ix, index_in ix (nd_shape a) → nd_get a' (gather axes ix) = nd_get a ix;
  nd_standard_law {A} (a : nd_array A) : nd_is_standard_layout a = true → nd_raw_vec a = nd_elements a;
  nd_elements_law {A} (a : nd_array A) : (∀ ix, index_in ix (nd_shape a) → is_Some (nd_get a ix)) →
    Some <$> nd_elements a = nd_get a <$> box (replicate (length (nd_shape a)) 0) (nd_shape a);
}.

(** ** Transposing elements *)

Section transpose.
Context `{!NdArray}.

Definition transpose_array (transpose_order untransposed_shape : list Z) (bytes_per_element : Z) (data : bytes) : outcome CodecError bytes :=
  let shape_n := untransposed_shape ++ [bytes_per_element] in
  let? array := ok_or CodecOther (nd_from_shape shape_n data) in
  let? array_transposed := nd_permuted_axes array transpose_order in
  Ok (if nd_is_standard_layout array_transposed then nd_raw_vec array_transposed else nd_elements array_transposed).

(** The loop over the transposed indices is the one of [extract_array_subset]. *)
Definition transpose_vlen (b : bytes) (offsets shape order : list Z) : outcome CodecError ArrayBytes :=
  let? ndarray_indices := expect (nd_from_shape shape (seqZ 0 (product64 shape))) in
  let? ndarray_indices_transposed := nd_permuted_axes ndarray_indices order in
  let? v := extract_vlen_loop b offsets (nd_elements ndarray_indices_transposed) [] [] in
  Ok (VariableBytes v).

Definition get_transposed_array_subset (order : list Z) (decoded_region : ArraySubset) : outcome CodecError ArraySubset :=
  if negb (dimensionality decoded_region =? length order)%nat
  then Err (IncompatibleIndexer (IdxIncompatibleDimensionality (dimensionality decoded_region) (length order)))
  else
    let? start := permute_expect (start decoded_region) order in
    let? size := permute_expect (shape decoded_region) order in
    Ok (from_ranges (zip_with (λ st si, mk_range st (st +w si)) start size)).

Definition apply_permutation (b : ArrayBytes) (input_shape permutation : list Z) (data_type : DataType) : outcome CodecError ArrayBytes :=
  if negb (length input_shape =? length permutation)%nat
  then Err (IncompatibleIndexer (IdxIncompatibleDimensionality (length input_shape) (length permutation)))
  else
    let? _ := validate_bytes b (product64 input_shape) data_type in
    match b, data_type_size data_type with
    | VariableBytes v, VariableSize => transpose_vlen (vl_bytes v) (vl_offsets v) input_shape permutation
    | FixedBytes b, FixedSize data_type_size =>
        let order_with_bytes := permutation ++ [zlen permutation] in
        let? b := transpose_array order_with_bytes input_shape data_type_size b in
        Ok (FixedBytes b)
    | OptionalBytes _ _, _ => Err UnsupportedDataType
    | _, _ => Err CodecOther
    end.

(** ** The codec *)

Record TransposeCodecBound := { tr_order : TransposeOrder; tr_data_type : DataType; tr_fill_value : FillValue }.

Definition transpose_validate (self : TransposeCodecBound) (shape : list Z) : outcome CodecError unit :=
  if is_optional (tr_data_type self) then Err UnsupportedDataType
  else if negb (length (tr_order self) =? length shape)%nat then Err CodecOther
  else Ok tt.

Definition transpose_encoded_shape (self : TransposeCodecBound) (decoded_shape : list Z) : outcome CodecError (list Z) :=
  if negb (length (tr_order self) =? length decoded_shape)%nat then Err CodecOther
  else permute_expect decoded_shape (tr_order self).

Definition transpose_encode (self : TransposeCodecBound) (b : ArrayBytes) (shape : list Z) : outcome CodecError ArrayBytes :=
  let? _ := transpose_validate self shape in
  apply_permutation b shape (tr_order self) (tr_data_type self).

Definition transpose_decode (self : TransposeCodecBound) (b : ArrayBytes) (shape : list Z) : outcome CodecError ArrayBytes :=
  let? _ := transpose_validate self shape in
  let? transposed_shape := permute_expect shape (tr_order self) in
  let? inverse := inverse_permutation (tr_order self) in
  apply_permutation b transposed_shape inverse (tr_data_type self).

(** ** The partial codec *)

Record TransposeCodecPartial := { tp_data_type : DataType; tp_order : list Z; tp_order_inverse : list Z }.

Definition TransposeCodecPartial_new (data_type : DataType) (order : list Z) : outcome CodecError TransposeCodecPartial :=
  let? order_inverse := inverse_permutation order in
  Ok {| tp_data_type := data_type; tp_order := order; tp_order_inverse := order_inverse |}.

Definition transpose_partial_bytes (self : TransposeCodecPartial) (b : ArrayBytes) (shape : list Z) : outcome CodecError ArrayBytes :=
  apply_permutation b shape (tp_order self) (tp_data_type self).

Definition untranspose_partial_bytes (self : TransposeCodecPartial) (b : ArrayBytes) (shape : list Z) : outcome CodecError ArrayBytes :=
  let? transposed_shape := permute_expect shape (tp_order self) in
  apply_permutation b transposed_shape (tp_order_inverse self) (tp_data_type self).

Definition transpose_partial_decode (self : TransposeCodecPartial) (input_output_handle : ArrayHandle) (indexer : ArraySubset)
    : prog CodecError ArrayBytes :=
  let* array_subset_transposed := plift (get_transposed_array_subset (tp_order self) indexer) in
  let* encoded_value := partial_decode input_output_handle array_subset_transposed in
  plift (untranspose_partial_bytes self encoded_value (shape indexer)).

Definition transpose_partial_encode (self : TransposeCodecPartial) (input_output_handle : ArrayEncodeHandle) (indexer : ArraySubset) (b : ArrayBytes)
    : prog CodecError unit :=
  let* encoded_value := plift (transpose_partial_bytes self b (shape indexer)) in
  let* array_subset_transposed := plift (get_transposed_array_subset (tp_order self) indexer) in
  partial_encode input_output_handle array_subset_transposed encoded_value.

Definition transpose_handle (self : TransposeCodecPartial) (input_output_handle : ArrayHandle) : ArrayHandle := {|
  partial_decode := transpose_partial_decode self input_output_handle;
  partial_decode_into := default_partial_decode_into (transpose_partial_decode self input_output_handle) |}.

#[export] Instance transpose_traits : ArrayToArrayCodecTraits TransposeCodecBound := {|
  a2a_data_type := tr_data_type;
  a2a_fill_value := tr_fill_value;
  a2a_encoded_data_type := tr_data_type;
  a2a_encoded_fill_value := tr_fill_value;
  a2a_encoded_shape := transpose_encoded_shape;
  a2a_recommended_concurrency _ _ := Ok (new_maximum 1);
  a2a_partial_decoder_capability _ := {| partial_read := true; can_partial_decode := true |};
  a2a_partial_encoder_capability _ := true;
  a2a_encode self b sh _ := transpose_encode self b sh;
  a2a_decode self b sh _ := transpose_decode self b sh;
  a2a_partial_decoder self h sh _ :=
    let* partial := plift (TransposeCodecPartial_new (tr_data_type self) (tr_order self)) in
    preturn (transpose_handle partial h);
  a2a_partial_encoder self h sh _ :=
    let* partial := plift (TransposeCodecPartial_new (tr_data_type self) (tr_order self)) in
    preturn {|
      array_decoder := transpose_handle partial h;
      array_erase := array_erase h;
      partial_encode := transpose_partial_encode partial h |} |}.
End transpose.

(** ** The codec before it is bound *)

Record TransposeCodec := { u_order : TransposeOrder }.

Definition transpose_with_context (self : TransposeCodec) (data_type : DataType) (fill_value : FillValue) : outcome CodecError TransposeCodecBound :=
  if is_optional data_type then Err UnsupportedDataType
  else Ok {| tr_order := u_order self; tr_data_type := data_type; tr_fill_value := fill_value |}.

(** ** An implementation of the library, for the witnesses

    A view is its shape and a function of the index. *)
Definition index_of (order : list Z) (k : Z) : Z := default 0 (Z.of_nat <$> (fst <$> list_find (k =.) order)).

Definition list_nd_array : NdArray := {|
  nd_array A := (list Z * (list Z → option A))%type;
  nd_from_shape A sh data := if Zprod sh =? zlen data then Some (sh, λ ix, data !! Z.to_nat (lin ix sh)) else None;
  nd_permuted_axes A a axes :=
    if decide (is_permutation axes ∧ length axes = length a.1)
    then Ok (gather axes a.1, λ ix, a.2 (gather (index_of axes <$> seqZ 0 (zlen axes)) ix)) else Panic;
  nd_is_standard_layout A a := true;
  nd_raw_vec A a := omap a.2 (box (replicate (length a.1) 0) a.1);
  nd_elements A a := omap a.2 (box (replicate (length a.1) 0) a.1) |}.
