(* ===== verification/TransposeLaws.v ===== *)
(** Transposing moves elements: the element of the transposed region at a permuted index is the element at
    the index, whatever implements [ndarray].  The transpose codec is a lawful array to array codec, before and after it is
    bound. *)

From stdpp Require Import sorting.
From S2P Require Import Prelude ArraySubset Linear Iterators ByteRange StoreKey Storage ArrayBytes Elements Regions StoreProgram.
From S2P Require Import DecodeInto Concurrency Codec BytesCodec ArrayToArray CodecChain ChainTheorems Transpose.

(** ** Permutations *)

Lemma permutation_elem order k : is_permutation order → k ∈ order ↔ 0 <= k < zlen order.
Proof. unfold is_permutation. intros Hp. rewrite Hp at 1. rewrite elem_of_seqZ. lia. Qed.

Lemma permutation_NoDup order : is_permutation order → NoDup order.
Proof. unfold is_permutation. intros Hp. rewrite Hp. apply NoDup_seqZ. Qed.

Lemma permutation_range order i : is_permutation order → (i < length order)%nat → 0 <= order !!! i < zlen order.
Proof. intros Hp Hi. apply permutation_elem; [done|]. by apply list_elem_of_lookup_total_2. Qed.

Lemma seqZ_total n j : (j < Z.to_nat n)%nat → seqZ 0 n !!! j = Z.of_nat j.
Proof. intros Hj. apply list_lookup_total_correct. apply lookup_seqZ. lia. Qed.

(** Two permutations that undo each other. *)
Record inverse_of (order inv : list Z) : Prop := {
  io_order : is_permutation order;
  io_inv : is_permutation inv;
  io_length : length inv = length order;
  io_left k : 0 <= k < zlen order → inv !!! Z.to_nat (order !!! Z.to_nat k) = k;
  io_right k : 0 <= k < zlen order → order !!! Z.to_nat (inv !!! Z.to_nat k) = k;
}.

Lemma inverse_of_sym order inv : inverse_of order inv → inverse_of inv order.
Proof. intros [Ho Hi Hl H1 H2]. split; [done..|by rewrite Hl|intros k Hk; apply H2; lia|intros k Hk; apply H1; lia]. Qed.

Lemma inverse_loop_ok order i acc : 0 <= i → i + zlen order < u64_modulus → NoDup order → Forall (λ v, 0 <= v < zlen acc) order →
  ∃ inv, inverse_permutation_loop order i acc = Ok inv ∧ length inv = length acc ∧
    (∀ j v, order !! j = Some v → inv !!! Z.to_nat v = i + Z.of_nat j) ∧
    (∀ v, 0 <= v → v ∉ order → inv !!! Z.to_nat v = acc !!! Z.to_nat v).
Proof.
  revert i acc. induction order as [|v order IH]; intros i acc Hi Hlt Hn Hr.
  { exists acc. split_and!; [done|done|by intros j v Hj|done]. }
  apply NoDup_cons in Hn as [Hv Hn]. apply Forall_cons in Hr as [Hr Hrs].
  cbn [inverse_permutation_loop]. rewrite (proj2 (Z.leb_le _ _)), (proj2 (Z.ltb_lt _ _)) by lia. cbn [andb length] in *.
  rewrite wrap64_small by (unfold is_u64; lia).
  destruct (IH (i + 1) (<[Z.to_nat v := i]> acc) ltac:(lia) ltac:(lia) Hn) as (inv & Hrun & Hl & Hin & Hout).
  { by rewrite length_insert. }
  exists inv. rewrite length_insert in Hl. split_and!; [done|done| |].
  - intros [|j] w Hj; [|rewrite (Hin j w Hj); lia]. injection Hj as <-. rewrite (Hout v) by (done || lia).
    rewrite list_lookup_total_insert, decide_True by lia. lia.
  - intros w Hw [Hne Hnot]%not_elem_of_cons. rewrite (Hout w) by done. rewrite list_lookup_total_insert. rewrite decide_False; [done|]. lia.
Qed.

(** [inverse_permutation] gives the permutation that undoes the order. *)
Lemma inverse_permutation_ok order : is_permutation order → zlen order < u64_modulus →
  ∃ inv, inverse_permutation order = Ok inv ∧ inverse_of order inv.
Proof.
  intros Hp Hlt. destruct (inverse_loop_ok order 0 (replicate (length order) 0)) as (inv & Hrun & Hl & Hin & _).
  - done.
  - lia.
  - by apply permutation_NoDup.
  - apply Forall_forall. intros v Hv%(permutation_elem order v Hp). by rewrite length_replicate.
  - rewrite length_replicate in Hl. exists inv. split; [exact Hrun|].
    assert (∀ k, 0 <= k < zlen order → inv !!! Z.to_nat (order !!! Z.to_nat k) = k) as Hleft.
    { intros k Hk. rewrite (Hin (Z.to_nat k) (order !!! Z.to_nat k)) by (apply list_lookup_lookup_total_lt; lia). lia. }
    split; [done| |done|done|].
    + assert ((λ k, inv !!! Z.to_nat k) <$> seqZ 0 (zlen order) = inv) as <-.
      { apply list_eq_total; [rewrite length_fmap, length_seqZ; lia|]. intros j Hj. rewrite length_fmap, length_seqZ in Hj.
        rewrite fmap_total, seqZ_total by (rewrite ?length_seqZ; lia). f_equal. lia. }
      unfold is_permutation. rewrite length_fmap, length_seqZ, Z2Nat.id by lia.
      transitivity ((λ k, inv !!! Z.to_nat k) <$> order); [by apply fmap_Permutation|].
      apply reflexive_eq, list_eq_total; [rewrite length_fmap, length_seqZ; lia|]. intros j Hj. rewrite length_fmap in Hj.
      rewrite fmap_total, seqZ_total by lia. specialize (Hleft (Z.of_nat j) ltac:(lia)). by rewrite Nat2Z.id in Hleft.
    + intros k Hk. destruct (list_elem_of_lookup_1 order k) as [i Hi]; [by apply permutation_elem|].
      rewrite (Hin i k Hi). replace (Z.to_nat (0 + Z.of_nat i)) with i by lia. by apply list_lookup_total_correct.
Qed.

(** *** Gathering *)

Lemma length_gather order v : length (gather order v) = length order.
Proof. apply length_fmap. Qed.

Lemma gather_total order v i : (i < length order)%nat → gather order v !!! i = v !!! Z.to_nat (order !!! i).
Proof. intros Hi. unfold gather. by rewrite fmap_total. Qed.

Lemma gather_inverse order inv v : inverse_of order inv → length v = length order → gather inv (gather order v) = v.
Proof.
  intros [Ho Hi Hl H1 H2] Hv. apply list_eq_total; [rewrite length_gather; lia|]. intros j Hj. rewrite length_gather in Hj.
  pose proof (permutation_range inv j Hi Hj). rewrite gather_total by done. rewrite gather_total by lia.
  specialize (H2 (Z.of_nat j) ltac:(lia)). rewrite Nat2Z.id in H2. rewrite H2. by rewrite Nat2Z.id.
Qed.

Lemma gather_app order v i : is_permutation order → length v = length order →
  gather (order ++ [zlen order]) (v ++ [i]) = gather order v ++ [i].
Proof.
  intros Hp Hv. unfold gather. rewrite fmap_app. f_equal.
  - apply list_fmap_ext_in. intros k Hk%(permutation_elem order k Hp). apply lookup_total_app_l. lia.
  - simpl. f_equal. rewrite lookup_total_app_r by lia. by replace (Z.to_nat (zlen order) - length v)%nat with 0%nat by lia.
Qed.

Lemma permutation_app order : is_permutation order → is_permutation (order ++ [zlen order]).
Proof.
  unfold is_permutation. intros Hp. rewrite length_app. cbn [length].
  replace (Z.of_nat (length order + 1)) with (zlen order + 1) by lia. rewrite seqZ_app by lia. cbn.
  by apply Permutation_app_tail.
Qed.

Lemma inverse_of_app order inv : inverse_of order inv → inverse_of (order ++ [zlen order]) (inv ++ [zlen inv]).
Proof.
  intros Hio. pose proof Hio as [Ho Hi Hl H1 H2].
  assert (∀ a b, inverse_of a b → ∀ k, 0 <= k < zlen (a ++ [zlen a]) → (b ++ [zlen b]) !!! Z.to_nat ((a ++ [zlen a]) !!! Z.to_nat k) = k) as Hk.
  { clear. intros a b [Ha _ Hlen H _] k Hk. rewrite length_app in Hk. cbn [length] in Hk. destruct (decide (k < zlen a)) as [Hlt|Hge].
    - rewrite (lookup_total_app_l a) by lia. pose proof (permutation_range a (Z.to_nat k) Ha ltac:(lia)).
      rewrite lookup_total_app_l by lia. apply H. lia.
    - rewrite (lookup_total_app_r a) by lia. replace (Z.to_nat k - length a)%nat with 0%nat by lia. cbn.
      rewrite lookup_total_app_r by lia. replace (Z.to_nat (zlen a) - length b)%nat with 0%nat by lia. cbn. lia. }
  split; [by apply permutation_app..|rewrite !length_app; cbn; lia|by apply Hk|].
  intros k Hlt. apply (Hk inv order (inverse_of_sym _ _ Hio)). rewrite !length_app in *. cbn [length] in *. lia.
Qed.

(** [permute] gathers. *)
Lemma permute_ok v order : is_permutation order → length v = length order → permute v order = Ok (Some (gather order v)).
Proof.
  intros Hp Hv. unfold permute. rewrite (proj2 (Nat.eqb_eq _ _)) by done. replace (index v <$> order) with (Ok (E:=CodecError) <$> gather order v).
  - by rewrite collect_res_Ok.
  - unfold gather. rewrite list_fmap_fmap. apply list_fmap_ext_in. intros k Hk%(permutation_elem order k Hp). unfold index.
    rewrite (proj2 (Z.leb_le _ _)) by lia. by rewrite (list_lookup_lookup_total_lt v) by lia.
Qed.

Lemma permute_expect_ok v order : is_permutation order → length v = length order → permute_expect v order = Ok (gather order v).
Proof. intros Hp Hv. unfold permute_expect. by rewrite permute_ok. Qed.

(** A permuted shape has as many elements. *)
Lemma Zprod_perm l k : l ≡ₚ k → Zprod l = Zprod k.
Proof. induction 1; rewrite ?Zprod_cons; lia. Qed.

Lemma gather_perm order v : is_permutation order → length v = length order → gather order v ≡ₚ v.
Proof.
  intros Hp Hv. transitivity (gather (seqZ 0 (zlen order)) v); [by apply fmap_Permutation|]. apply reflexive_eq, list_eq_total.
  - rewrite length_gather, length_seqZ. lia.
  - intros j Hj. rewrite length_gather, length_seqZ in Hj. rewrite gather_total, seqZ_total by (rewrite ?length_seqZ; lia). by rewrite Nat2Z.id.
Qed.

Lemma Zprod_gather order v : is_permutation order → length v = length order → Zprod (gather order v) = Zprod v.
Proof. intros Hp Hv. by apply Zprod_perm, gather_perm. Qed.

Lemma Forall_gather (P : Z → Prop) order v : is_permutation order → length v = length order → Forall P v → Forall P (gather order v).
Proof. intros Hp Hv HF. by rewrite gather_perm. Qed.

Lemma index_in_gather order ix sh : is_permutation order → length sh = length order → index_in ix sh → index_in (gather order ix) (gather order sh).
Proof.
  intros Hp Hl Hin. pose proof (Forall2_length _ _ _ Hin) as Hlen. apply Forall2_fmap, Forall_Forall2_diag, Forall_forall.
  intros k Hk%(permutation_elem order k Hp). apply (Forall2_lookup_lr _ _ _ (Z.to_nat k) _ _ Hin); apply list_lookup_lookup_total_lt; lia.
Qed.

(** *** Positions of the transposed elements *)

Definition origin (n : nat) : list Z := replicate n 0.

(** For every index of the transposed box, in C order, where its element is. *)
Definition transposed_positions (order inv sh : list Z) : list Z :=
  (λ ix, lin (gather inv ix) sh) <$> box (origin (length order)) (gather order sh).

Lemma elem_of_origin_box ix sh : ix ∈ box (origin (length sh)) sh ↔ index_in ix sh.
Proof.
  rewrite elem_of_box by (unfold origin; by rewrite length_replicate). unfold in_subset. cbn [start shape]. unfold origin. split.
  - intros [Hl Hj]. rewrite length_replicate in *. apply Forall2_same_length_lookup_2; [lia|]. intros i x y Hx Hy.
    pose proof (lookup_lt_Some _ _ _ Hx) as Hi. specialize (Hj i ltac:(lia)). rewrite lookup_total_replicate_2 in Hj by lia.
    rewrite (list_lookup_total_correct _ _ _ Hx), (list_lookup_total_correct _ _ _ Hy) in Hj. lia.
  - intros Hin. pose proof (Forall2_length _ _ _ Hin) as Hl. rewrite length_replicate. split; [done|]. intros j Hj.
    rewrite lookup_total_replicate_2 by lia. 
    assert (0 <= ix !!! j < sh !!! j) by (apply (Forall2_lookup_lr _ _ _ j _ _ Hin); apply list_lookup_lookup_total_lt; lia). lia.
Qed.

Lemma transposed_index order inv sh ix : inverse_of order inv → length sh = length order → ix ∈ box (origin (length order)) (gather order sh) →
  index_in (gather inv ix) sh ∧ gather order (gather inv ix) = ix.
Proof.
  intros Hio Hl Hix. pose proof Hio as [Ho Hi Hlen _ _].
  rewrite <-(length_gather order sh) in Hix. apply elem_of_origin_box in Hix.
  pose proof (Forall2_length _ _ _ Hix) as Hlx. rewrite length_gather in Hlx. split.
  - rewrite <-(gather_inverse order inv sh) by done. apply index_in_gather; [done|by rewrite length_gather|done].
  - apply gather_inverse; [by apply inverse_of_sym|lia].
Qed.

Lemma transposed_positions_bound order inv sh : inverse_of order inv → length sh = length order →
  Forall (λ i, 0 <= i < Zprod sh) (transposed_positions order inv sh).
Proof.
  intros Hio Hl. apply Forall_fmap, Forall_forall. intros ix Hix. apply lin_bound. by apply (transposed_index order inv).
Qed.

Lemma NoDup_transposed order inv sh : inverse_of order inv → length sh = length order → NoDup (transposed_positions order inv sh).
Proof.
  intros Hio Hl. apply NoDup_fmap_2_strong; [|apply NoDup_box]. intros ix jx Hix Hjx Heq.
  destruct (transposed_index order inv sh ix Hio Hl Hix) as [Hi <-], (transposed_index order inv sh jx Hio Hl Hjx) as [Hj <-].
  f_equal. by rewrite <-(delin_lin _ _ Hi), <-(delin_lin _ _ Hj), Heq.
Qed.

Lemma length_transposed order inv sh : inverse_of order inv → length sh = length order → Forall (λ d, 0 <= d) sh →
  zlen (transposed_positions order inv sh) = Zprod sh.
Proof.
  intros [Ho _ _ _ _] Hl Hsh. unfold transposed_positions. rewrite length_fmap, length_box.
  - by apply Zprod_gather.
  - unfold origin. by rewrite length_replicate, length_gather.
  - by apply Forall_gather.
Qed.

Lemma bind_of_fmap {A B C} (g : B → list C) (f : A → B) l : (f <$> l) ≫= g = l ≫= λ x, g (f x).
Proof. induction l as [|a l IH]; [done|]. by rewrite fmap_cons, !bind_cons, IH. Qed.

Lemma box_snoc st o sh d : length st = length sh → box (st ++ [o]) (sh ++ [d]) = box st sh ≫= λ ix, (λ i, ix ++ [i]) <$> seqZ o d.
Proof.
  revert sh. induction st as [|s st IH]; intros [|e sh] Hl; try done.
  - cbn [app box mbind list_bind fmap list_fmap]. rewrite app_nil_r. exact (list_bind_singleton (λ i, [i]) _).
  - cbn [app box]. rewrite list_bind_assoc. apply list_bind_ext; [|done]. intros i. rewrite IH by (by injection Hl).
    rewrite list_fmap_of_bind, bind_of_fmap. apply list_bind_ext; [|done]. intros ix. by rewrite list_fmap_fmap.
Qed.

(** With the bytes of an element as the last dimension, whole elements move. *)
Lemma transposed_positions_app order inv sh d : inverse_of order inv → length sh = length order → 0 < d →
  transposed_positions (order ++ [zlen order]) (inv ++ [zlen inv]) (sh ++ [d]) =
  transposed_positions order inv sh ≫= λ i, seqZ (i * d) d.
Proof.
  intros Hio Hl Hd. pose proof Hio as [Ho Hi Hlen _ _]. unfold transposed_positions. rewrite gather_app by done.
  replace (origin (length (order ++ [zlen order]))) with (origin (length order) ++ [0])
    by (unfold origin; rewrite length_app; cbn; rewrite replicate_add; done).
  rewrite box_snoc by (unfold origin; by rewrite length_replicate, length_gather). rewrite list_fmap_of_bind, bind_of_fmap.
  apply list_bind_ext_in. intros ix Hix. pose proof (transposed_index order inv sh ix Hio Hl Hix) as [Hin Hback].
  assert (length ix = length inv) as Hlx by (rewrite <-Hback, length_gather; lia).
  rewrite list_fmap_fmap. replace (seqZ (lin (gather inv ix) sh * d) d) with (Z.add (lin (gather inv ix) sh * d) <$> seqZ 0 d)
    by (rewrite fmap_add_seqZ; f_equal; lia).
  apply list_fmap_ext_in. intros i _. simpl. rewrite gather_app by done. rewrite lin_snoc; [lia|].
  rewrite length_gather. lia.
Qed.

(** What transposing does to the elements of a region: the region's axes are permuted. *)
Definition permuted_region (order : list Z) (s : ArraySubset) : ArraySubset := mk_subset (gather order (start s)) (gather order (shape s)).

Lemma permuted_region_wf order s : is_permutation order → length (start s) = length order → subset_wf s → subset_wf (permuted_region order s).
Proof.
  intros Hp Hl [Hls Hj]. unfold permuted_region. split; cbn [start shape]; [by rewrite !length_gather|]. intros j Hlt.
  rewrite length_gather in Hlt. rewrite !gather_total by done. apply Hj. pose proof (permutation_range order j Hp Hlt). lia.
Qed.

Lemma in_permuted_region order s ix : is_permutation order → length (start s) = length order → length (shape s) = length order →
  in_subset s ix → in_subset (permuted_region order s) (gather order ix).
Proof.
  intros Hp Hl Hls [Hlx Hj]. unfold permuted_region. split; cbn [start shape]; [by rewrite !length_gather|]. intros j Hlt.
  rewrite length_gather in Hlt. rewrite !gather_total by done. apply Hj. pose proof (permutation_range order j Hp Hlt). lia.
Qed.

Lemma gather_sub order a b : is_permutation order → length a = length order → length b = length order →
  gather order (zip_with Z.sub a b) = zip_with Z.sub (gather order a) (gather order b).
Proof.
  intros Hp Ha Hb. apply list_eq_total; [rewrite length_zip_with, !length_gather; lia|]. intros j Hj. rewrite length_gather in Hj.
  pose proof (permutation_range order j Hp Hj). rewrite zip_with_total by (rewrite length_gather; lia). rewrite !gather_total by done.
  by rewrite zip_with_total by lia.
Qed.

Lemma transposed_contents (f : list Z → element) order inv s : inverse_of order inv → subset_wf s → length (start s) = length order →
  select (contents f s) (transposed_positions order inv (shape s)) = contents (λ ix, f (gather inv ix)) (permuted_region order s).
Proof.
  intros Hio Hs Hl. pose proof Hio as [Ho Hi Hlen _ _]. pose proof (proj1 Hs) as Hls.
  unfold contents, permuted_region, select, transposed_positions. cbn [start shape]. rewrite list_fmap_fmap.
  assert (box (origin (length order)) (gather order (shape s)) =
    (λ ix, zip_with Z.sub ix (gather order (start s))) <$> box (gather order (start s)) (gather order (shape s))) as ->.
  { rewrite <-box_shift; rewrite ?length_gather; try done.
    - f_equal. apply list_eq_total; [unfold origin; rewrite length_zip_with, !length_gather, length_replicate; lia|].
      intros j Hj. unfold origin in *. rewrite length_replicate in Hj. rewrite lookup_total_replicate_2 by done.
      rewrite zip_with_total by (rewrite length_gather; done). lia.
    - apply Forall_gather; [done|lia|]. by apply subset_shape_nonneg. }
  rewrite list_fmap_fmap. apply list_fmap_ext_in. intros ix Hix.
  pose proof (permuted_region_wf order s Ho Hl Hs) as Hps.
  assert (in_subset (permuted_region order s) ix) as Hin by (apply elem_of_contents; done).
  pose proof (proj1 Hin) as Hlx. cbn [start permuted_region] in Hlx. rewrite length_gather in Hlx.
  assert (in_subset s (gather inv ix)) as Hin'.
  { pose proof (in_permuted_region inv (permuted_region order s) ix Hi) as Hback. unfold permuted_region in Hback. cbn [start shape] in Hback.
    rewrite !length_gather, !(gather_inverse order inv) in Hback by (done || lia). destruct s. apply Hback; [lia..|exact Hin]. }
  apply list_lookup_total_correct. rewrite gather_sub by (rewrite ?length_gather; done || lia).
  rewrite (gather_inverse order inv) by (done || lia). exact (lookup_contents f s (gather inv ix) Hs Hin').
Qed.

(** ** The orders that are accepted *)

Lemma dedup_length l : (length (dedup l) <= length l)%nat ∧ (length (dedup l) = length l → dedup l = l).
Proof.
  induction l as [|a [|b l] IH]; [done..|]. cbn [dedup] in *. destruct IH as [H1 H2]. destruct (a =? b).
  - cbn [length] in *. split; [lia|]. intros Hl. lia.
  - cbn [length] in *. split; [lia|]. intros Hl. f_equal. apply H2. lia.
Qed.

Lemma dedup_fixed l : StronglySorted Z.le l → dedup l = l ↔ NoDup l.
Proof.
  induction 1 as [|a l Hs IH Ha]; [by split; [constructor|done]|]. destruct l as [|b l]; [split; [intros _; apply NoDup_singleton|done]|].
  rewrite NoDup_cons. cbn [dedup] in *. destruct (Z.eqb_spec a b) as [->|Hne].
  - split; [|intros [Hnot _]; exfalso; apply Hnot, list_elem_of_here]. intros Heq. exfalso. destruct (dedup_length (b :: l)) as [Hl _].
    cbn [dedup] in Hl. rewrite Heq in Hl. cbn [length] in Hl. lia.
  - assert (a ∉ b :: l) as Hnot.
    { intros Hin. apply Forall_cons in Ha as [Hab Hl]. apply StronglySorted_inv in Hs as [_ Hb].
      apply elem_of_cons in Hin as [?|Hin]; [done|]. rewrite Forall_forall in Hb. specialize (Hb a Hin). lia. }
    split; [intros [= Heq]; split; [done|by apply IH]|]. intros [_ Hn]. f_equal. by apply IH.
Qed.

Lemma list_max_spec l m : list_max l = Some m → m ∈ l ∧ Forall (λ x, x <= m) l.
Proof.
  destruct l as [|a l]; [done|]. intros [= <-]. revert a. induction l as [|b l IH]; intros a; cbn [fold_left].
  - split; [apply list_elem_of_here|]. by constructor.
  - destruct (IH (Z.max a b)) as [Hin Hall]. apply Forall_cons in Hall as [Hm Hall]. split.
    + apply elem_of_cons in Hin as [->|Hin]; [|by do 2 apply list_elem_of_further].
      destruct (Z.max_spec a b) as [[_ ->]|[_ ->]]; [apply list_elem_of_further|]; apply list_elem_of_here.
    + repeat constructor; [lia|lia|done].
Qed.

Lemma nodup_permutation l : NoDup l → Forall (λ x, 0 <= x < zlen l) l → is_permutation l.
Proof.
  intros Hn Hl. apply submseteq_length_Permutation; [|rewrite length_seqZ; lia]. apply NoDup_submseteq; [done|].
  intros x Hx. rewrite Forall_forall in Hl. apply elem_of_seqZ. specialize (Hl x Hx). lia.
Qed.

(** The check accepts the non-empty permutations, and nothing else. *)
Lemma validate_permutation_spec order : Forall is_u64 order → zlen order < u64_modulus →
  ∃ v, validate_permutation order = Ok v ∧ (v = true ↔ order ≠ [] ∧ is_permutation order).
Proof.
  intros Hu Hlt. unfold validate_permutation, to_vec_unique.
  pose proof (merge_sort_Permutation Z.le order) as Hp. pose proof (StronglySorted_merge_sort Z.le order) as Hs.
  set (sorted := merge_sort Z.le order) in *. assert (length sorted = length order) as Hls by by rewrite Hp.
  destruct (dedup_length sorted) as [Hle Heq]. case_bool_decide as He; [subst; exists false; split; [done|]; by split; [|intros [? _]]|].
  destruct (Z.eqb_spec (zlen (dedup sorted)) (zlen order)) as [Hl|Hl]; cbn [negb].
  - specialize (Heq ltac:(lia)). pose proof (proj1 (dedup_fixed sorted Hs) Heq) as Hnd. rewrite Heq.
    destruct (list_max sorted) as [m|] eqn:Hm; [|destruct sorted; [destruct order; done|done]]. cbn [expect obind].
    destruct (list_max_spec _ _ Hm) as [Hin Hall]. destruct order as [|o order]; [done|]. cbn [length] in *.
    rewrite wrap64_small by (unfold is_u64; lia). eexists. split; [done|]. rewrite Z.eqb_eq. rewrite Hp in Hnd. split.
    + intros ->. split; [done|]. apply nodup_permutation; [done|]. rewrite Hp in Hall. apply Forall_forall. intros x Hx.
      rewrite Forall_forall in Hall, Hu. specialize (Hall x Hx). specialize (Hu x Hx). unfold is_u64 in Hu. cbn [length]. lia.
    + intros [_ Hperm]. rewrite Forall_forall in Hall. rewrite Hp in Hin. apply (permutation_elem _ _ Hperm) in Hin. cbn [length] in Hin.
      assert (zlen (o :: order) - 1 ∈ o :: order) as Hlast by (apply (permutation_elem _ _ Hperm); cbn [length]; lia).
      apply (elem_of_Permutation_proper _ _ _ Hp) in Hlast. specialize (Hall _ Hlast). cbn [length] in Hall. lia.
  - exists false. split; [done|]. split; [done|]. intros [_ Hperm]. exfalso. apply Hl.
    assert (dedup sorted = sorted) as -> by (apply dedup_fixed; [done|]; rewrite Hp; by apply permutation_NoDup). lia.
Qed.

(** Transposing back. *)
Lemma transposed_whole {A} `{!Inhabited A} (V : list A) sh : chunk_shape_ok sh → zlen V = Zprod sh →
  subset_wf (new_with_shape sh) ∧ V = contents (element_at V (new_with_shape sh)) (new_with_shape sh).
Proof.
  intros Hsh HV. destruct (region_whole sh Hsh) as [((Hs & _) & _) _]. split; [done|].
  symmetry. by apply contents_element_at.
Qed.

Lemma transposed_back order inv s (f : list Z → element) : inverse_of order inv → subset_wf s → length (start s) = length order →
  select (contents (λ ix, f (gather inv ix)) (permuted_region order s)) (transposed_positions inv order (gather order (shape s))) = contents f s.
Proof.
  intros Hio Hs Hl. pose proof Hio as [Ho Hi Hlen _ _]. pose proof (proj1 Hs) as Hls.
  change (gather order (shape s)) with (shape (permuted_region order s)). rewrite (transposed_contents (λ ix, f (gather inv ix)) inv order).
  - unfold permuted_region. cbn [start shape]. rewrite !(gather_inverse order inv) by (done || lia). destruct s as [st ls]. cbn [start shape] in *.
    unfold contents. cbn [start shape]. apply list_fmap_ext_in. intros ix Hix.
    apply (elem_of_contents (mk_subset st ls)) in Hix; [|done]. f_equal.
    pose proof (proj1 Hix) as Hlx. cbn [start] in Hlx. apply gather_inverse; [done|lia].
  - by apply inverse_of_sym.
  - by apply permuted_region_wf.
  - cbn [start permuted_region]. rewrite length_gather. lia.
Qed.

(** ** What [ndarray] does *)

Section laws.
Context `{!NdArray, !LawfulNdArray}.

(** The elements of an array with its axes permuted. *)
Lemma nd_transposed {A} `{!Inhabited A} order inv sh (data : list A) : inverse_of order inv → length sh = length order →
  Forall (λ d, 1 <= d) sh → Zprod sh = zlen data → zlen data < 2 ^ 63 →
  ∃ a a', nd_from_shape sh data = Some a ∧ nd_permuted_axes a order = Ok a' ∧
    nd_elements a' = select data (transposed_positions order inv sh).
Proof.
  intros Hio Hl Hsh Hp Hlt. pose proof Hio as [Ho Hi Hlen _ _].
  destruct (nd_from_shape_law sh data Hsh Hp Hlt) as (a & Ha & Hsha & Hget).
  destruct (nd_permuted_axes_law a order Ho ltac:(by rewrite Hsha)) as (a' & Ha' & Hsh' & Hget').
  exists a, a'. split_and!; [done..|]. rewrite Hsha in *.
  assert (∀ ix, ix ∈ box (origin (length order)) (gather order sh) →
    nd_get a' ix = Some (data !!! Z.to_nat (lin (gather inv ix) sh))) as Hall.
  { intros ix Hix. destruct (transposed_index order inv sh ix Hio Hl Hix) as [Hin Hback]. rewrite <-Hback at 1.
    rewrite Hget', Hget by done. apply list_lookup_lookup_total_lt. pose proof (lin_bound _ _ Hin). lia. }
  pose proof (nd_elements_law a') as Hel. rewrite Hsh', length_gather in Hel.
  assert (Inj (=) (=) (@Some A)) by (by intros ?? [= ->]). apply (inj (fmap Some)). rewrite Hel.
  - unfold select, transposed_positions. rewrite !list_fmap_fmap. apply list_fmap_ext_in. exact Hall.
  - intros ix Hix. rewrite Hall; [done|]. rewrite <-(length_gather order sh). by apply elem_of_origin_box.
Qed.

Lemma transpose_array_ok order inv sh d L : inverse_of order inv → length sh = length order → Forall (λ d, 1 <= d) sh →
  fixed_elements d L → zlen L = Zprod sh → Zprod sh * d < 2 ^ 63 →
  transpose_array (order ++ [zlen order]) sh d (concat L) = Ok (concat (select L (transposed_positions order inv sh))).
Proof.
  intros Hio Hl Hsh HL HLl Hb. pose proof (proj1 HL) as Hd. pose proof (fixed_elements_length d L HL) as Hcl.
  destruct (nd_transposed (order ++ [zlen order]) (inv ++ [zlen inv]) (sh ++ [d]) (concat L)) as (a & a' & Ha & Ha' & Hel).
  - by apply inverse_of_app.
  - rewrite !length_app. cbn. lia.
  - apply Forall_app. split; [done|]. constructor; [lia|done].
  - rewrite Zprod_app, Zprod_cons, Zprod_nil. lia.
  - lia.
  - unfold transpose_array. rewrite Ha. cbn [ok_or obind]. rewrite Ha'. cbn [obind]. f_equal.
    assert (∀ (b : bool) (x y : bytes), (b = true → x = y) → (if b then x else y) = y) as Hif by (intros [|] x y; auto).
    rewrite Hif by apply nd_standard_law. rewrite Hel, (transposed_positions_app order inv sh d Hio Hl Hd).
    rewrite (select_bytes d); [done|done|]. rewrite HLl. by apply transposed_positions_bound.
Qed.

Lemma transpose_vlen_ok order inv sh v L : inverse_of order inv → length sh = length order → chunk_shape_ok sh →
  vlen_elements v L → zlen L = Zprod sh →
  transpose_vlen (vl_bytes v) (vl_offsets v) sh order = Ok (VariableBytes (pack (select L (transposed_positions order inv sh)))).
Proof.
  intros Hio Hl Hcs Hv HLl. destruct (chunk_shape_product sh Hcs) as [Hp Hpos]. destruct Hcs as [Hsh Hb].
  destruct (nd_transposed order inv sh (seqZ 0 (Zprod sh)) Hio Hl Hsh) as (a & a' & Ha & Ha' & Hel).
  - rewrite length_seqZ. lia.
  - rewrite length_seqZ. lia.
  - pose proof (transposed_positions_bound order inv sh Hio Hl) as Hbound.
    unfold transpose_vlen. rewrite Hp, Ha. cbn [expect obind]. rewrite Ha'. cbn [obind]. rewrite Hel.
    replace (select (seqZ 0 (Zprod sh)) (transposed_positions order inv sh)) with (transposed_positions order inv sh).
    + assert (Forall (λ i, 0 <= i < zlen L) (transposed_positions order inv sh)) as HbL by by rewrite HLl.
      pose proof (extract_vlen_loop_ok v L _ [] Hv ltac:(unfold u64_modulus; lia) HbL) as Hloop. cbn in Hloop. by rewrite Hloop.
    + symmetry. unfold select. transitivity (id <$> transposed_positions order inv sh); [|apply list_fmap_id].
      apply list_fmap_ext_in. intros i Hi. rewrite Forall_forall in Hbound. specialize (Hbound i Hi). rewrite seqZ_total by lia. simpl. lia.
Qed.

(** The bytes of a region, transposed. *)
Lemma apply_permutation_ok b size V order inv sh : inverse_of order inv → length sh = length order → chunk_shape_ok sh →
  holds b (PlainType size) V → zlen V = Zprod sh →
  ∃ out, apply_permutation b sh order (PlainType size) = Ok out ∧ holds out (PlainType size) (select V (transposed_positions order inv sh)) ∧
    packed out ∧ array_bytes_size out <= array_bytes_size b ∧ (packed b → array_bytes_size out = array_bytes_size b).
Proof.
  intros Hio Hl Hsh Hh HV. pose proof Hsh as [Hs1 Hs2]. pose proof (holds_valid _ _ _ Hh) as Hval.
  destruct (chunk_shape_product sh Hsh) as [Hp Hpos].
  unfold apply_permutation. rewrite (proj2 (Nat.eqb_eq _ _)) by done. cbn [negb]. rewrite Hp, <-HV, Hval. cbn [obind data_type_size].
  pose proof (transposed_positions_bound order inv sh Hio Hl) as Hbound.
  assert (zlen (transposed_positions order inv sh) = Zprod sh) as Hlen.
  { apply length_transposed; [done|done|]. eapply Forall_impl; [exact Hs1|]. simpl. lia. }
  destruct size as [d|].
  - apply holds_fixed in Hh as (L & -> & -> & HL & Hb). rewrite length_fmap in HV.
    rewrite (transpose_array_ok order inv) by (done || lia). cbn [obind]. eexists. split; [done|].
    rewrite <-HV in Hbound. pose proof (fixed_select d L _ HL Hbound) as HLs.
    assert (zlen (concat (select L (transposed_positions order inv sh))) = zlen (concat L)) as Hcl.
    { rewrite !(fixed_elements_length d) by done. unfold select. rewrite length_fmap. lia. }
    split_and!; [|done|cbn; lia|by cbn].
    apply holds_fixed. eexists. split_and!; [done|by rewrite select_fmap|done|]. unfold select. rewrite length_fmap. lia.
  - apply holds_variable in Hh as (v & L & -> & -> & Hv & Hlb & Hsb). rewrite length_fmap in HV.
    rewrite (transpose_vlen_ok order inv sh v L) by done. eexists. split; [done|]. rewrite <-HV in Hbound.
    assert (select L (transposed_positions order inv sh) ≡ₚ L) as Hperm.
    { apply submseteq_length_Permutation; [apply select_submseteq; [|done]|unfold select; rewrite length_fmap; lia].
      by apply NoDup_transposed. }
    assert (zlen (concat (select L (transposed_positions order inv sh))) = zlen (concat L)) as Hcl by (by rewrite Hperm).
    pose proof (vlen_total v L Hv) as Ht. split_and!; [|by eexists|cbn; lia|].
    + rewrite select_fmap by done. apply holds_pack; [unfold select; rewrite length_fmap; lia|lia].
    + intros [K ->]. assert (K = L) as -> by (eapply vlen_elements_inj; [apply pack_elements|done]). cbn. lia.
Qed.

(** ** The codec *)

(** What [with_context] makes of an order that the configuration accepts. *)
Definition transpose_wf (c : TransposeCodecBound) : Prop :=
  is_permutation (tr_order c) ∧ zlen (tr_order c) < u64_modulus ∧ is_optional (tr_data_type c) = false.

Lemma transpose_type c : transpose_wf c → ∃ size, tr_data_type c = PlainType size.
Proof. intros (_ & _ & Hopt). destruct (tr_data_type c) as [size|]; [by eexists|done]. Qed.

Lemma transposed_chunk_shape order sh : is_permutation order → length sh = length order → chunk_shape_ok sh →
  chunk_shape_ok (gather order sh) ∧ Zprod (gather order sh) = Zprod sh.
Proof.
  intros Hp Hl [Hs1 Hs2]. pose proof (Zprod_gather order sh Hp Hl) as Hz. split; [|done]. split; [by apply Forall_gather|by rewrite Hz].
Qed.

(** The inverse of the order of a codec. *)
Definition inverse (order : list Z) : list Z := match inverse_permutation order with Ok inv => inv | _ => [] end.

Lemma inverse_ok order : is_permutation order → zlen order < u64_modulus → inverse_permutation order = Ok (inverse order) ∧ inverse_of order (inverse order).
Proof.
  intros Hp Hl. destruct (inverse_permutation_ok order Hp Hl) as (inv & Hinv & Hio). unfold inverse. by rewrite Hinv.
Qed.

(** The elements of a chunk in the order of the encoded chunk. *)
Definition transposed_elements (order sh : list Z) (V : list element) : list element :=
  select V (transposed_positions order (inverse order) sh).

Lemma transpose_encode_ok c sh b V : transpose_wf c → length sh = length (tr_order c) → chunk_shape_ok sh →
  holds b (tr_data_type c) V → zlen V = Zprod sh →
  ∃ out, transpose_encode c b sh = Ok out ∧ holds out (tr_data_type c) (transposed_elements (tr_order c) sh V) ∧
    array_bytes_size out <= array_bytes_size b.
Proof.
  intros Hwf Hl Hsh Hh HV. destruct (transpose_type c Hwf) as [size Ht]. destruct Hwf as (Hp & Hlt & Hopt).
  destruct (inverse_ok _ Hp Hlt) as [_ Hio]. unfold transpose_encode, transpose_validate. rewrite Hopt, (proj2 (Nat.eqb_eq _ _)) by done.
  cbn [negb obind]. rewrite Ht in *. destruct (apply_permutation_ok b size V _ _ sh Hio Hl Hsh Hh HV) as (out & Hout & Hho & _ & Hle & _).
  by exists out.
Qed.

Lemma transpose_decode_ok c sh benc V : transpose_wf c → length sh = length (tr_order c) → chunk_shape_ok sh →
  zlen V = Zprod sh → holds benc (tr_data_type c) (transposed_elements (tr_order c) sh V) →
  ∃ out, transpose_decode c benc sh = Ok out ∧ holds out (tr_data_type c) V ∧ packed out ∧
    array_bytes_size out <= array_bytes_size benc ∧ (packed benc → array_bytes_size out = array_bytes_size benc).
Proof.
  intros Hwf Hl Hsh HV Hh. destruct (transpose_type c Hwf) as [size Ht]. destruct Hwf as (Hp & Hlt & Hopt).
  destruct (inverse_ok _ Hp Hlt) as [Hinv Hio]. pose proof Hio as [_ _ Hlen _ _]. unfold transpose_decode, transpose_validate. rewrite Hopt, (proj2 (Nat.eqb_eq _ _)) by done.
  cbn [negb obind]. rewrite permute_expect_ok, Hinv by done. cbn [obind]. rewrite Ht in *.
  destruct (transposed_chunk_shape _ sh Hp Hl Hsh) as [Hsh' Hpr].
  destruct (transposed_whole V sh Hsh HV) as [Hw HVc]. unfold transposed_elements in Hh. rewrite HVc in Hh.
  change sh with (shape (new_with_shape sh)) in Hh at 2. assert (length (start (new_with_shape sh)) = length (tr_order c)) as Hls by (destruct Hw; simpl in *; lia).
  rewrite (transposed_contents _ _ _ _ Hio Hw Hls) in Hh.
  assert (zlen (contents (λ ix, element_at V (new_with_shape sh) (gather (inverse (tr_order c)) ix)) (permuted_region (tr_order c) (new_with_shape sh))) =
    Zprod (gather (tr_order c) sh)) as Hlc by (rewrite contents_length; [done|by apply permuted_region_wf]).
  destruct (apply_permutation_ok benc size _ _ _ (gather (tr_order c) sh) (inverse_of_sym _ _ Hio) ltac:(rewrite length_gather; lia) Hsh' Hh Hlc)
    as (out & Hout & Hho & Hpk & Hle & Heq).
  exists out. split_and!; [done| |done..]. change (gather (tr_order c) sh) with (gather (tr_order c) (shape (new_with_shape sh))) in Hho.
  rewrite transposed_back, <-HVc in Hho by done. done.
Qed.

(** *** Regions *)

Lemma permuted_region_ok order sub sh : is_permutation order → length sh = length order → region_ok sub sh →
  region_ok (permuted_region order sub) (gather order sh).
Proof.
  intros Hp Hl ((Hs & Hsw) & [Hla Hin] & Hne & Hwf). pose proof (proj1 Hs) as Hls.
  assert (length (start sub) = length order ∧ length (shape sub) = length order) as [Hl1 Hl2] by lia.
  split_and!.
  - split; [by apply permuted_region_wf|]. destruct Hsw. cbn [shape permuted_region]. split; [by apply Forall_gather|by rewrite Zprod_gather].
  - split; cbn [start shape permuted_region]; rewrite !length_gather; [done|]. intros j Hj. rewrite !gather_total by done. apply Hin.
    pose proof (permutation_range order j Hp Hj). lia.
  - apply nonempty_extents in Hne. unfold is_empty. cbn [shape permuted_region].
    pose proof (Forall_gather _ order _ Hp Hl2 Hne) as Hg. clear -Hg. induction Hg as [|d l Hd Hg IH]; [done|]. cbn [existsb].
    rewrite IH, orb_false_r. by apply Z.eqb_neq.
  - destruct Hwf. split; [by apply Forall_gather|by rewrite Zprod_gather].
Qed.

Lemma get_transposed_ok order sub : is_permutation order → length (start sub) = length order → subset_wf sub →
  get_transposed_array_subset order sub = Ok (permuted_region order sub).
Proof.
  intros Hp Hl Hs. pose proof (proj1 Hs) as Hls. unfold get_transposed_array_subset, dimensionality.
  rewrite (proj2 (Nat.eqb_eq _ _)) by done. cbn [negb]. rewrite !permute_expect_ok by (done || lia). cbn [obind]. f_equal.
  pose proof (permuted_region_wf order sub Hp Hl Hs) as [Hlp Hw]. unfold permuted_region in *. cbn [start shape] in *.
  revert Hlp Hw. generalize (gather order (start sub)) as st, (gather order (shape sub)) as ls. clear. intros st ls Hl Hw.
  unfold from_ranges. rewrite !fmap_zip_with_eq. f_equal; apply list_eq_total; rewrite ?length_zip_with; try lia; intros j Hj;
    rewrite zip_with_total by lia; cbn [r_start r_end]; [done|].
  specialize (Hw j ltac:(lia)). rewrite wrap64_small by (unfold is_u64; lia). unfold saturating_sub. lia.
Qed.

(** A region of the elements of a chunk. *)
Lemma select_region (f : list Z → element) sub sh : region_ok sub sh → chunk_shape_ok sh →
  select (contents f (new_with_shape sh)) (positions sub sh) = contents f sub.
Proof.
  intros Hsub Hsh. destruct (region_whole sh Hsh) as [((Hw & _) & _) _]. pose proof Hsub as ((Hs & _) & [Hl Hin] & _).
  assert (within sub (new_with_shape sh) = sub) as Hwi.
  { destruct sub as [st ls]. unfold within. cbn [start shape new_with_shape] in *. f_equal. apply list_eq_total.
    - rewrite length_zip_with, length_replicate. lia.
    - intros j Hj. rewrite length_zip_with, length_replicate in Hj. rewrite zip_with_total by (rewrite ?length_replicate; lia).
      rewrite lookup_total_replicate_2 by lia. lia. }
  pose proof (select_contents f (new_with_shape sh) sub Hw Hs) as Hsel. rewrite Hwi in Hsel. cbn [shape new_with_shape] in Hsel. apply Hsel.
  split; cbn [start shape new_with_shape]; rewrite length_replicate; [done|]. intros j Hj. rewrite lookup_total_replicate_2 by done.
  destruct Hs as [_ Hs]. specialize (Hs j ltac:(lia)). specialize (Hin j ltac:(lia)). lia.
Qed.

Lemma permuted_whole order sh : is_permutation order → length sh = length order →
  permuted_region order (new_with_shape sh) = new_with_shape (gather order sh).
Proof.
  intros Hp Hl. unfold permuted_region, new_with_shape. cbn [start shape]. f_equal. apply list_eq_total; [by rewrite length_replicate, !length_gather|].
  intros j Hj. rewrite length_gather in Hj. rewrite gather_total by done. pose proof (permutation_range order j Hp Hj).
  rewrite !lookup_total_replicate_2; rewrite ?length_gather; lia.
Qed.

Lemma transposed_elements_contents order sh V : is_permutation order → zlen order < u64_modulus → length sh = length order → chunk_shape_ok sh → zlen V = Zprod sh →
  transposed_elements order sh V = contents (λ ix, element_at V (new_with_shape sh) (gather (inverse order) ix)) (new_with_shape (gather order sh)).
Proof.
  intros Hp Hlt Hl Hsh HV. destruct (inverse_ok order Hp Hlt) as [_ Hio]. destruct (transposed_whole V sh Hsh HV) as [Hw HVc].
  unfold transposed_elements. rewrite HVc at 1. change sh with (shape (new_with_shape sh)) at 2. rewrite transposed_contents; [|done|done|].
  - by rewrite permuted_whole.
  - cbn [start new_with_shape]. by rewrite length_replicate.
Qed.

Lemma subregion_chunk_shape sub sh : region_ok sub sh → chunk_shape_ok sh → chunk_shape_ok (shape sub).
Proof.
  intros (Hr & Ha & Hne%nonempty_extents & _) [_ Hb]. pose proof (region_product sub sh Hr Ha). destruct Hr as [_ Hsw]. split; [|lia].
  apply Forall_forall. intros d Hd. rewrite Forall_forall in Hne. specialize (Hne d Hd). destruct Hsw as [Hn _]. rewrite Forall_forall in Hn. specialize (Hn d Hd). lia.
Qed.

(** The partial decoder reads the permuted region of the encoded chunk, and transposes it back. *)
Lemma transpose_partial_ok c sh ah v V limit sub : transpose_wf c → length sh = length (tr_order c) → chunk_shape_ok sh → zlen V = Zprod sh →
  array_reads ah v (tr_data_type c) (gather (tr_order c) sh) (transposed_elements (tr_order c) sh V) limit → region_ok sub sh →
  ∃ out, runs_at (transpose_partial_decode {| tp_data_type := tr_data_type c; tp_order := tr_order c; tp_order_inverse := inverse (tr_order c) |} ah sub) v (Ok out) v ∧
    holds out (tr_data_type c) (select V (positions sub sh)) ∧ array_bytes_size out <= limit.
Proof.
  intros Hwf Hl Hsh HV Hr Hsub. destruct (transpose_type c Hwf) as [size Ht]. destruct Hwf as (Hp & Hlt & Hopt).
  destruct (inverse_ok _ Hp Hlt) as [Hinv Hio]. pose proof Hio as [_ _ Hlen _ _]. pose proof Hsub as ((Hs & Hsw) & [Hla _] & _).
  assert (length (start sub) = length (tr_order c)) as Hls by lia.
  pose proof (permuted_region_ok _ sub sh Hp Hl Hsub) as Hsub'. destruct (transposed_chunk_shape _ sh Hp Hl Hsh) as [Hsh' _].
  destruct (Hr _ Hsub') as (enc & Hrun & Hh & Hsz & _). rewrite transposed_elements_contents, select_region in Hh by done.
  rewrite Ht in *. assert (chunk_shape_ok (shape sub)) as Hcs by (by eapply subregion_chunk_shape).
  destruct (transposed_chunk_shape _ (shape sub) Hp ltac:(destruct Hs; lia) Hcs) as [Hcs' Hpr].
  assert (length (shape sub) = length (tr_order c)) as Hlsh by (destruct Hs; lia).
  edestruct (apply_permutation_ok enc size _ _ _ (gather (tr_order c) (shape sub)) (inverse_of_sym _ _ Hio) ltac:(rewrite length_gather; lia) Hcs' Hh)
    as (out & Hout & Hho & Hpk & Hle & _).
  { rewrite contents_length; [done|by apply permuted_region_wf]. }
  exists out. split_and!; [| |lia].
  - unfold transpose_partial_decode. cbn [tp_order]. rewrite get_transposed_ok by done. prog. eapply runs_at_bind; [exact Hrun|].
    unfold untranspose_partial_bytes. cbn [tp_order tp_data_type tp_order_inverse]. rewrite permute_expect_ok by done. cbn [obind]. rewrite Hout. by prog.
  - rewrite transposed_back in Hho by done. destruct (transposed_whole V sh Hsh HV) as [_ HVc]. rewrite HVc at 1. by rewrite select_region.
Qed.

#[export] Program Instance transpose_lawful : LawfulArrayToArrayCodec TransposeCodecBound := {|
  a2a_wf := transpose_wf;
  a2a_shape_ok c sh := length sh = length (tr_order c);
  a2a_shape c sh := gather (tr_order c) sh;
  a2a_map c sh V := transposed_elements (tr_order c) sh V |}.
Next Obligation. done. Qed.
Next Obligation. done. Qed.
Next Obligation.
  intros c sh (Hp & Hlt & _) Hl [Hsh Hb]. cbv beta in *. destruct (inverse_ok _ Hp Hlt) as [_ Hio]. cbn. unfold transposed_elements.
  pose proof (transposed_positions_bound _ _ sh Hio Hl) as Hbound. pose proof (length_transposed _ _ sh Hio Hl ltac:(eapply Forall_impl; [exact Hsh|]; simpl; lia)) as Hlen.
  symmetry. apply replicate_as_elem_of. unfold select. rewrite length_fmap. split; [lia|]. intros y Hy.
  apply list_elem_of_fmap in Hy as (i & -> & Hi). rewrite Forall_forall in Hbound. specialize (Hbound i Hi).
  apply lookup_total_replicate_2. lia.
Qed.
Next Obligation.
  intros c sh (Hp & Hlt & _) Hl Hsh. cbv beta in *. destruct (transposed_chunk_shape _ sh Hp Hl Hsh) as [H1 H2]. split_and!; [|done..].
  cbn. unfold transpose_encoded_shape. rewrite (proj2 (Nat.eqb_eq _ _)) by done. by apply permute_expect_ok.
Qed.
Next Obligation.
  intros c sh V (Hp & Hlt & _) Hl [Hsh Hb] HV. cbv beta in *. destruct (inverse_ok _ Hp Hlt) as [_ Hio]. unfold transposed_elements, select.
  rewrite length_fmap. apply length_transposed; [done|done|]. eapply Forall_impl; [exact Hsh|]. simpl. lia.
Qed.
Next Obligation. by eexists. Qed.
Next Obligation. intros c sh options b V Hwf Hl Hsh Hh HV. cbv beta in *. by apply transpose_encode_ok. Qed.
Next Obligation.
  intros c sh benc V Hwf Hl Hsh HV Hh. cbv beta in *. destruct (transpose_decode_ok c sh benc V Hwf Hl Hsh HV Hh) as (out & Hout & Hho & Hpk & Hle & Heq).
  exists out. split_and!; [by intros options|done|done|]. intros Hpe. split; [done|by apply Heq].
Qed.
Next Obligation.
  intros c sh options ah v V limit Hwf Hl Hsh HV Hr. cbv beta in *. destruct (inverse_ok _ (proj1 Hwf) (proj1 (proj2 Hwf))) as [Hinv _].
  eexists. split.
  { cbn. unfold TransposeCodecPartial_new. rewrite Hinv. cbn [obind]. by prog. }
  intros sub Hsub. destruct (transpose_partial_ok c sh ah v V limit sub Hwf Hl Hsh HV Hr Hsub) as (out & Hrun & Hho & Hsz).
  exists out. split_and!; [done..|]. intros t t' Ht Hd. by eapply default_partial_decode_into_ok.
Qed.
Next Obligation.
  intros c sh options ah key Hc. cbn. unfold TransposeCodecPartial_new. destruct (inverse_permutation _) as [inv| |]; prog; try done.
  intros sub. assert (∀ p sub, confined key (transpose_partial_decode p ah sub)) as Hs.
  { intros p s. unfold transpose_partial_decode. destruct (get_transposed_array_subset _ s); prog; try done. apply confined_bind; [apply Hc|]. intros enc.
    by destruct (untranspose_partial_bytes p enc (shape s)). }
  split; [apply Hs|]. intros t. apply default_partial_decode_into_confined, Hs.
Qed.
End laws.
