(* ===== verification/TransposeTheorems.v ===== *)
(** What the transpose codec does: the orders it accepts, where elements go, and that it comes back. *)

From S2P Require Import Prelude ArraySubset Linear Iterators ByteRange StoreKey Storage ArrayBytes.
From S2P Require Import Elements Regions StoreProgram DecodeInto Concurrency Codec BytesCodec ArrayToArray CodecChain ChainTheorems.
From S2P Require Import Transpose TransposeLaws.

(** ** The codec in chains *)

#[export] Instance transpose_unbound `{!NdArray} : UnboundArrayToArrayCodecTraits TransposeCodec TransposeCodecBound := {|
  ua_partial_decoder_capability _ := {| partial_read := true; can_partial_decode := true |};
  ua_with_context := transpose_with_context |}.

#[export] Program Instance transpose_unbound_lawful `{!NdArray, !LawfulNdArray} : LawfulUnboundArrayToArrayCodec TransposeCodec TransposeCodecBound :=
  {| ua_wf u := is_permutation (u_order u) ∧ zlen (u_order u) < u64_modulus |}.
Next Obligation.
  intros N LN u dt fv c [Hp Hlt] _. cbn. unfold transpose_with_context. destruct (is_optional dt) eqn:Hopt; [done|]. by intros [= <-].
Qed.

(** The implementation of [ndarray] for the witnesses is lawful. *)
Lemma index_of_spec order i : NoDup order → (i < length order)%nat → index_of order (order !!! i) = Z.of_nat i.
Proof.
  intros Hn Hi. unfold index_of. assert (order !! i = Some (order !!! i)) as Hli by by apply list_lookup_lookup_total_lt.
  replace (list_find _ order) with (Some (i, order !!! i)); [done|]. symmetry. apply list_find_Some. split_and!; [done|done|].
  intros j y Hj Hlt <-. pose proof (NoDup_lookup _ _ _ _ Hn Hj Hli). lia.
Qed.

Lemma gather_index_of axes ix : is_permutation axes → length ix = length axes →
  gather (index_of axes <$> seqZ 0 (zlen axes)) (gather axes ix) = ix.
Proof.
  intros Hp Hl. apply list_eq_total; [rewrite length_gather, length_fmap, length_seqZ; lia|]. intros j Hj.
  rewrite length_gather, length_fmap, length_seqZ in Hj. rewrite gather_total by (rewrite length_fmap, length_seqZ; lia).
  rewrite fmap_total, seqZ_total by (rewrite ?length_seqZ; lia).
  assert (Z.of_nat j ∈ axes) as (i & Hi)%list_elem_of_lookup by (apply permutation_elem; [done|lia]).
  pose proof (lookup_lt_Some _ _ _ Hi) as Hlt. apply list_lookup_total_correct in Hi as Hji. rewrite <-Hji, index_of_spec by (done || by apply permutation_NoDup).
  rewrite Nat2Z.id, gather_total by done. rewrite Hji. by rewrite Nat2Z.id.
Qed.

(** ** Properties *)

(** The configuration accepts the orders that list every axis once and at least one axis, and reports an error for all
    others; of an accepted order the codec computes the inverse, with no index out of range. *)
Theorem transpose_order_spec (order : list Z) : Forall is_u64 order → zlen order < u64_modulus →
  (order ≠ [] → order ≡ₚ seqZ 0 (zlen order) → TransposeOrder_new order = Ok order ∧
     ∃ inv, inverse_permutation order = Ok inv ∧ length inv = length order ∧
       ∀ i, 0 <= i < zlen order → inv !!! Z.to_nat (order !!! Z.to_nat i) = i ∧ order !!! Z.to_nat (inv !!! Z.to_nat i) = i) ∧
  (order = [] ∨ ¬ order ≡ₚ seqZ 0 (zlen order) → TransposeOrder_new order = Err CodecOther).
Proof.
  intros Hu Hlt. destruct (validate_permutation_spec order Hu Hlt) as (v & Hv & Hiff). unfold TransposeOrder_new. rewrite Hv. cbn [obind].
  fold (is_permutation order). split.
  - intros Hne Hp. rewrite (proj2 Hiff) by done. split; [done|]. destruct (inverse_permutation_ok order Hp Hlt) as (inv & Hinv & [_ _ Hl H1 H2]).
    exists inv. split_and!; [done|done|]. intros i Hi. split; [by apply H1|by apply H2].
  - intros Hn. destruct v; [|done]. destruct (proj1 Hiff eq_refl) as [Hne Hp]. by destruct Hn.
Qed.

Lemma transpose_order_spec_witness :
  TransposeOrder_new [2; 0; 1] = Ok [2; 0; 1] ∧ TransposeOrder_new [0; 2] = Err CodecOther ∧ TransposeOrder_new [0; 0; 2] = Err CodecOther.
Proof.
  assert (TransposeOrder_new [2; 0; 1] = Ok [2; 0; 1]) as H1.
  { destruct (transpose_order_spec [2; 0; 1]) as [Hok _]; [by repeat constructor|done|]. apply Hok; [done|]. cbn.
    apply (Permutation_app_comm [2] [0; 1]). }
  split; [exact H1|]. split; vm_compute; reflexivity.
Defined.

(** C13: transposing moves the element at every index to the permuted index of the permuted shape; decoding any bytes that hold the
    moved elements gives them back; and the partial decoder, on any handle that reads regions of the encoded chunk, reads
    the regions of the decoded chunk. *)
Theorem transpose_moves_elements `{!NdArray, !LawfulNdArray} (order : list Z) dt fv (c : TransposeCodecBound) (sh : list Z) (f g : list Z → element) options :
  Forall is_u64 order → zlen order < u64_modulus → TransposeOrder_new order = Ok order →
  transpose_with_context {| u_order := order |} dt fv = Ok c →
  chunk_shape_ok sh → length sh = length order → (∀ ix, index_in ix sh → g (gather order ix) = f ix) →
  a2a_encoded_shape c sh = Ok (gather order sh) ∧
  (∀ b, holds b dt (contents f (new_with_shape sh)) →
     ∃ benc, a2a_encode c b sh options = Ok benc ∧ holds benc dt (contents g (new_with_shape (gather order sh))) ∧ array_bytes_size benc <= array_bytes_size b) ∧
  (∀ benc, holds benc dt (contents g (new_with_shape (gather order sh))) →
     ∃ b, a2a_decode c benc sh options = Ok b ∧ holds b dt (contents f (new_with_shape sh))) ∧
  (∀ ah v limit, array_reads ah v dt (gather order sh) (contents g (new_with_shape (gather order sh))) limit →
     ∃ ah', runs_at (a2a_partial_decoder c ah sh options) v (Ok ah') v ∧
       ∀ sub, region_ok sub sh → ∃ out, runs_at (partial_decode ah' sub) v (Ok out) v ∧ holds out dt (contents f sub)).
Proof.
  intros Hu Hlt Hnew Hc Hsh Hl Hfg. destruct (validate_permutation_spec order Hu Hlt) as (v & Hv & Hiff). unfold TransposeOrder_new in Hnew.
  rewrite Hv in Hnew. cbn [obind] in Hnew. destruct v; [|done]. destruct (proj1 Hiff eq_refl) as [_ Hp]. clear Hv Hiff Hnew.
  unfold transpose_with_context in Hc. destruct (is_optional dt) eqn:Hopt; [done|]. injection Hc as <-. cbn [u_order].
  set (c := {| tr_order := order |}). assert (a2a_wf c) as Hwf by done.
  destruct (region_whole sh Hsh) as [((Hw & _) & _) _]. set (V := contents f (new_with_shape sh)).
  assert (zlen V = Zprod sh) as HV by by apply contents_length.
  destruct (inverse_ok order Hp Hlt) as [_ Hio]. pose proof Hio as [_ Hi Hlen _ _].
  assert (transposed_elements order sh V = contents g (new_with_shape (gather order sh))) as Hmoved.
  { rewrite transposed_elements_contents by done. destruct (transposed_chunk_shape order sh Hp Hl Hsh) as [Hsh' _].
    destruct (region_whole _ Hsh') as [((Hw' & _) & _) _]. apply contents_ext; [done|]. intros ix Hix%elem_of_contents; [|done].
    unfold new_with_shape in Hix. cbn [start shape] in Hix. rewrite length_gather in Hix.
    destruct (transposed_index order _ sh ix Hio Hl Hix) as [Hin Hback]. rewrite <-Hback at 2. rewrite Hfg by done.
    apply list_lookup_total_correct.
    assert (in_subset (new_with_shape sh) (gather (inverse order) ix)) as Hins.
    { apply elem_of_contents; [done|]. cbn [start shape new_with_shape]. by apply elem_of_origin_box. }
    exact (lookup_contents f (new_with_shape sh) _ Hw Hins). }
  destruct (a2a_shape_law c sh Hwf Hl Hsh) as [Hes _]. split_and!; [exact Hes| | |].
  - intros b Hb. destruct (a2a_encode_law c sh options b V Hwf Hl Hsh Hb HV) as (benc & He & Hh & Hle). exists benc. split_and!; [done| |done].
    change (a2a_map c sh V) with (transposed_elements order sh V) in Hh. by rewrite Hmoved in Hh.
  - intros benc Hb. rewrite <-Hmoved in Hb. destruct (a2a_decode_law c sh benc V Hwf Hl Hsh HV Hb) as (b & Hd & Hh & _). by exists b.
  - intros ah v limit Hr. rewrite <-Hmoved in Hr. destruct (a2a_partial_law c sh options ah v V limit Hwf Hl Hsh HV Hr) as (ah' & Hrun & Hr').
    exists ah'. split; [done|]. intros sub Hsub. destruct (Hr' sub Hsub) as (out & Ho & Hh & _). exists out. split; [done|].
    unfold V in Hh. by rewrite select_region in Hh.
Qed.

#[local] Existing Instance list_nd_array.

#[local] Program Instance list_nd_array_lawful : LawfulNdArray := {| nd_shape A a := a.1; nd_get A a := a.2 |}.
Next Obligation.
  intros A sh data Hsh Hp Hlt. eexists. cbn. rewrite (proj2 (Z.eqb_eq _ _)) by done. split_and!; [done..|]. by intros ix Hix.
Qed.
Next Obligation.
  intros A a axes Hp Hl. cbn in *. rewrite decide_True by done. eexists. split_and!; [done..|]. intros ix Hix. cbn [snd].
  rewrite gather_index_of; [done|done|]. apply Forall2_length in Hix. lia.
Qed.
Next Obligation. done. Qed.
Next Obligation.
  intros A a Hsome. cbn in *. assert (∀ l : list (list Z), (∀ ix, ix ∈ l → is_Some (a.2 ix)) → Some <$> omap a.2 l = a.2 <$> l) as Hgen.
  { intros l. induction l as [|ix l IH]; [done|]. intros Hl. destruct (Hl ix (list_elem_of_here _ _)) as [x Hx].
    cbn [omap list_omap]. rewrite fmap_cons, Hx. cbn. f_equal. apply IH. intros jx Hj. by apply Hl, list_elem_of_further. }
  apply Hgen. intros ix Hix. by apply Hsome, elem_of_origin_box.
Qed.

(** A chunk of 2 by 3 bytes. *)
Lemma transpose_moves_elements_witness :
  let c := {| tr_order := [1; 0]; tr_data_type := PlainType (FixedSize 1); tr_fill_value := [0] |} in
  a2a_encode c (FixedBytes [0; 1; 2; 10; 11; 12]) [2; 3] (CodecOptions_default 1) = Ok (FixedBytes [0; 10; 1; 11; 2; 12]) ∧
  ∃ b, a2a_decode c (FixedBytes [0; 10; 1; 11; 2; 12]) [2; 3] (CodecOptions_default 1) = Ok b ∧
    holds b (PlainType (FixedSize 1)) (contents (λ ix, Value [ix !!! 0%nat * 10 + ix !!! 1%nat]) (new_with_shape [2; 3])).
Proof.
  split; [vm_compute; reflexivity|].
  destruct (transpose_moves_elements [1; 0] (PlainType (FixedSize 1)) [0] {| tr_order := [1; 0]; tr_data_type := PlainType (FixedSize 1); tr_fill_value := [0] |} [2; 3] (λ ix, Value [ix !!! 0%nat * 10 + ix !!! 1%nat])
    (λ ix, Value [ix !!! 1%nat * 10 + ix !!! 0%nat]) (CodecOptions_default 1)) as (_ & _ & Hdec & _).
  - by repeat constructor.
  - done.
  - vm_compute; reflexivity.
  - reflexivity.
  - split; [by repeat constructor|done].
  - done.
  - intros ix Hix. reflexivity.
  - apply Hdec. apply holds_fixed. exists [[0]; [10]; [1]; [11]; [2]; [12]].
    split_and!; [done|vm_compute; reflexivity|split; [done|by repeat constructor]|done].
Defined.
