(* ===== verification/OptionalCodec.v ===== *)
(** The optional codec: [zarrs/src/array/codec/array_to_bytes/optional/optional_codec.rs].

    An array of optional elements is encoded as its mask and the elements that are present, each with its own chain
    of codecs.  The elements that are absent are left out, and come back as placeholders. *)

From S2P Require Import Prelude ArraySubset Linear Iterators ByteRange StoreKey Storage ArrayBytes.
From S2P Require Import Elements StoreProgram DecodeInto Concurrency Codec BytesCodec CodecChain Sharding.

(** The data type [bool] and its fill value [false]. *)
Definition bool_data_type : DataType := PlainType (FixedSize 1).
Definition bool_false : FillValue := [0].

Definition as_optional (self : DataType) : option DataType := match self with OptionalType inner => Some inner | PlainType _ => None end.

(** ** Leaving out elements *)

Fixpoint sparse_fixed_loop (b : bytes) (inner_size : Z) (mask : list Z) (i : Z) (sparse_bytes : bytes) : outcome CodecError bytes :=
  match mask with
  | [] => Ok sparse_bytes
  | mask_byte :: mask =>
      if mask_byte =? 0 then sparse_fixed_loop b inner_size mask (i +w 1) sparse_bytes
      else
        let start := i *w inner_size in
        let end_ := start +w inner_size in
        let? element := slice b start end_ in
        sparse_fixed_loop b inner_size mask (i +w 1) (sparse_bytes ++ element)
  end.

Fixpoint sparse_vlen_loop (b : bytes) (offsets mask : list Z) (i : Z) (sparse_bytes : bytes) (sparse_offsets : list Z)
    : outcome CodecError ArrayBytesVariableLength :=
  match mask with
  | [] => Ok (mk_vlen sparse_bytes sparse_offsets)
  | mask_byte :: mask =>
      if mask_byte =? 0 then sparse_vlen_loop b offsets mask (i +w 1) sparse_bytes sparse_offsets
      else
        let? start := index offsets i in
        let? end_ := index offsets (i +w 1) in
        let? element := slice b start end_ in
        let sparse_bytes := sparse_bytes ++ element in
        sparse_vlen_loop b offsets mask (i +w 1) sparse_bytes (sparse_offsets ++ [zlen sparse_bytes])
  end.

Fixpoint sparse_mask_loop (inner_mask mask : list Z) (i : Z) (sparse_inner_mask : list Z) : outcome CodecError (list Z) :=
  match mask with
  | [] => Ok sparse_inner_mask
  | mask_byte :: mask =>
      if mask_byte =? 0 then sparse_mask_loop inner_mask mask (i +w 1) sparse_inner_mask
      else
        let? m := index inner_mask i in
        sparse_mask_loop inner_mask mask (i +w 1) (sparse_inner_mask ++ [m])
  end.

Fixpoint extract_sparse_data (dense_data : ArrayBytes) (mask : list Z) (inner_type : DataType) : outcome CodecError ArrayBytes :=
  match dense_data with
  | FixedBytes b =>
      let? inner_size := expect (fixed_size inner_type) in
      let? sparse_bytes := sparse_fixed_loop b inner_size mask 0 [] in
      Ok (FixedBytes sparse_bytes)
  | VariableBytes v =>
      let? v := sparse_vlen_loop (vl_bytes v) (vl_offsets v) mask 0 [] [0] in
      Ok (VariableBytes v)
  | OptionalBytes data inner_mask =>
      let? sparse_inner_mask := sparse_mask_loop inner_mask mask 0 [] in
      let? inner_opt := ok_or CodecOther (as_optional inner_type) in
      let? sparse_inner_data := extract_sparse_data data mask inner_opt in
      Ok (OptionalBytes sparse_inner_data sparse_inner_mask)
  end.

(** ** Putting them back *)

Fixpoint dense_fixed_loop (sparse_bytes : bytes) (inner_size : Z) (mask : list Z) (i sparse_idx : Z) (dense_bytes : bytes) : outcome CodecError bytes :=
  match mask with
  | [] => Ok dense_bytes
  | mask_byte :: mask =>
      if mask_byte =? 0 then dense_fixed_loop sparse_bytes inner_size mask (i +w 1) sparse_idx dense_bytes
      else
        let dense_start := i *w inner_size in
        let dense_end := dense_start +w inner_size in
        let sparse_start := sparse_idx *w inner_size in
        let sparse_end := sparse_start +w inner_size in
        let? element := slice sparse_bytes sparse_start sparse_end in
        let? dense_bytes := copy_from_slice dense_bytes dense_start dense_end element in
        dense_fixed_loop sparse_bytes inner_size mask (i +w 1) (sparse_idx +w 1) dense_bytes
  end.

Fixpoint dense_vlen_loop (sparse_bytes : bytes) (sparse_offsets mask : list Z) (sparse_idx : Z) (dense_bytes : bytes) (dense_offsets : list Z)
    : outcome CodecError ArrayBytesVariableLength :=
  match mask with
  | [] => Ok (mk_vlen dense_bytes dense_offsets)
  | mask_byte :: mask =>
      if mask_byte =? 0
      then dense_vlen_loop sparse_bytes sparse_offsets mask sparse_idx dense_bytes (dense_offsets ++ [zlen dense_bytes])
      else
        let? sparse_start := index sparse_offsets sparse_idx in
        let? sparse_end := index sparse_offsets (sparse_idx +w 1) in
        let? element := slice sparse_bytes sparse_start sparse_end in
        let dense_bytes := dense_bytes ++ element in
        dense_vlen_loop sparse_bytes sparse_offsets mask (sparse_idx +w 1) dense_bytes (dense_offsets ++ [zlen dense_bytes])
  end.

Fixpoint dense_mask_loop (sparse_inner_mask mask : list Z) (i sparse_idx : Z) (dense_inner_mask : list Z) : outcome CodecError (list Z) :=
  match mask with
  | [] => Ok dense_inner_mask
  | mask_byte :: mask =>
      if mask_byte =? 0 then dense_mask_loop sparse_inner_mask mask (i +w 1) sparse_idx dense_inner_mask
      else
        let? m := index sparse_inner_mask sparse_idx in
        dense_mask_loop sparse_inner_mask mask (i +w 1) (sparse_idx +w 1) (<[Z.to_nat i := m]> dense_inner_mask)
  end.

Fixpoint expand_to_dense (sparse_data : ArrayBytes) (mask : list Z) (inner_type : DataType) : outcome CodecError ArrayBytes :=
  match sparse_data with
  | FixedBytes sparse_bytes =>
      let? inner_size := expect (fixed_size inner_type) in
      let? dense_bytes := dense_fixed_loop sparse_bytes inner_size mask 0 0 (replicate (Z.to_nat (zlen mask *w inner_size)) 0) in
      Ok (FixedBytes dense_bytes)
  | VariableBytes v =>
      let? v := dense_vlen_loop (vl_bytes v) (vl_offsets v) mask 0 [] [0] in
      Ok (VariableBytes v)
  | OptionalBytes sparse_inner_data sparse_inner_mask =>
      let? inner_opt := ok_or CodecOther (as_optional inner_type) in
      let? dense_inner_data := expand_to_dense sparse_inner_data mask inner_opt in
      let? dense_inner_mask := dense_mask_loop sparse_inner_mask mask 0 0 (replicate (length mask) 0) in
      Ok (OptionalBytes dense_inner_data dense_inner_mask)
  end.

Definition create_fill_value_for_inner_type (inner_type : DataType) : FillValue :=
  if is_optional inner_type then [0]
  else match data_type_size inner_type with FixedSize size => replicate (Z.to_nat size) 0 | VariableSize => [] end.

Fixpoint create_empty_dense_data (mask : list Z) (inner_type : DataType) : outcome CodecError ArrayBytes :=
  match inner_type with
  | OptionalType inner_opt =>
      let? inner_data := create_empty_dense_data mask inner_opt in
      Ok (OptionalBytes inner_data (replicate (length mask) 0))
  | PlainType (FixedSize size) => Ok (FixedBytes (replicate (Z.to_nat (zlen mask *w size)) 0))
  | PlainType VariableSize => Ok (VariableBytes (mk_vlen [] (replicate (S (length mask)) 0)))
  end.

(** ** The codec *)

Section codec.
Context {M D : Type} `{!ArrayToBytesCodecTraits M, !ArrayToBytesCodecTraits D}.

Record OptionalCodecBound := mk_optional_codec {
  mask_codecs : M;
  data_codecs : D;
  opt_data_type : DataType;
  opt_fill_value : FillValue;
}.

(** The number of non-zero bytes of the mask. *)
Definition count_valid (mask : list Z) : Z := zlen (filter (λ v, v ≠ 0) mask).

Definition optional_encode (self : OptionalCodecBound) (b : ArrayBytes) (shape : list Z) (options : CodecOptions) : outcome CodecError bytes :=
  match b with
  | OptionalBytes dense_data mask =>
      let num_elements := product64 shape in
      if negb (zlen mask =? num_elements) then Err CodecOther
      else
        let? opt := ok_or CodecOther (as_optional (opt_data_type self)) in
        let? encoded_mask := a2b_encode (mask_codecs self) (FixedBytes mask) shape options in
        let? sparse_data := extract_sparse_data dense_data mask opt in
        let num_valid := count_valid mask in
        let? encoded_data :=
          if 0 <? num_valid then a2b_encode (data_codecs self) sparse_data [num_valid] options else Ok [] in
        Ok (u64_to_le_bytes (zlen encoded_mask) ++ u64_to_le_bytes (zlen encoded_data) ++ encoded_mask ++ encoded_data)
  | _ => Err CodecOther
  end.

Definition optional_decode (self : OptionalCodecBound) (b : bytes) (shape : list Z) (options : CodecOptions) : outcome CodecError ArrayBytes :=
  if zlen b <? 16 then Err (UnexpectedChunkDecodedSize (zlen b) 16)
  else
    let? mask_len := slice b 0 8 in
    let mask_len := u64_from_le_bytes mask_len in
    let? data_len := slice b 8 16 in
    let data_len := u64_from_le_bytes data_len in
    if negb (zlen b =? 16 +w mask_len +w data_len) then Err (UnexpectedChunkDecodedSize (zlen b) (16 +w mask_len +w data_len))
    else
      let? encoded_mask := slice b 16 (16 +w mask_len) in
      let? encoded_data := slice b (16 +w mask_len) (zlen b) in
      let? decoded_mask := a2b_decode (mask_codecs self) encoded_mask shape options in
      let? mask := into_fixed decoded_mask in
      let? opt := ok_or CodecOther (as_optional (opt_data_type self)) in
      let valid_count := count_valid mask in
      let? dense_data :=
        if 0 <? valid_count then
          let? sparse_data := a2b_decode (data_codecs self) encoded_data [valid_count] options in
          expand_to_dense sparse_data mask opt
        else create_empty_dense_data mask opt in
      Ok (OptionalBytes dense_data mask).

Definition optional_encoded_representation (self : OptionalCodecBound) (shape : list Z) : outcome CodecError BytesRepresentation :=
  let? mask_bytes_repr := a2b_encoded_representation (mask_codecs self) shape in
  let? data_bytes_repr := a2b_encoded_representation (data_codecs self) shape in
  match representation_size mask_bytes_repr, representation_size data_bytes_repr with
  | Some mask_size, Some data_size =>
      match (s ← checked_add 16 mask_size; checked_add s data_size) with
      | Some total => Ok (BytesBoundedSize total)
      | None => Ok BytesUnboundedSize
      end
  | _, _ => Ok BytesUnboundedSize
  end.

#[export] Instance optional_traits : ArrayToBytesCodecTraits OptionalCodecBound := {|
  a2b_data_type := opt_data_type;
  a2b_fill_value := opt_fill_value;
  a2b_recommended_concurrency _ _ := Ok (new_maximum 1);
  a2b_partial_decoder_capability _ := {| partial_read := false; can_partial_decode := false |};
  a2b_partial_encode_capability _ := false;
  a2b_encoded_representation := optional_encoded_representation;
  a2b_encode := optional_encode;
  a2b_decode := optional_decode;
  a2b_compact _ _ _ _ := Ok None;
  a2b_decode_into self := default_decode_into (optional_decode self);
  a2b_partial_decoder self := default_partial_decoder (opt_data_type self) (opt_fill_value self) (optional_decode self);
  a2b_partial_encoder self := default_partial_encoder (opt_data_type self) (opt_fill_value self) (optional_encode self) (optional_decode self);
|}.
End codec.
Arguments OptionalCodecBound : clear implicits.

(** ** Binding *)

Record OptionalCodec (UM UD : Type) := mk_unbound_optional { uo_mask_codecs : UM; uo_data_codecs : UD }.
Arguments mk_unbound_optional {UM UD} _ _.
Arguments uo_mask_codecs {UM UD} _.
Arguments uo_data_codecs {UM UD} _.

Section binding.
Context {UM UD M D : Type} `{!ArrayToBytesCodecTraits M, !ArrayToBytesCodecTraits D}.
Context `{!UnboundArrayToBytesCodecTraits UM M, !UnboundArrayToBytesCodecTraits UD D}.

Definition optional_with_context (self : OptionalCodec UM UD) (data_type : DataType) (fill_value : FillValue) : outcome CodecError (OptionalCodecBound M D) :=
  match data_type with
  | PlainType _ => Err CodecOther
  | OptionalType inner_type =>
      let inner_fill_value := create_fill_value_for_inner_type inner_type in
      let? mask_codecs := uc_with_context (uo_mask_codecs self) bool_data_type bool_false in
      let? data_codecs := uc_with_context (uo_data_codecs self) inner_type inner_fill_value in
      Ok (mk_optional_codec mask_codecs data_codecs data_type fill_value)
  end.

#[export] Instance optional_unbound : UnboundArrayToBytesCodecTraits (OptionalCodec UM UD) (OptionalCodecBound M D) := {|
  uc_partial_decoder_capability _ := {| partial_read := false; can_partial_decode := false |};
  uc_with_context := optional_with_context |}.
End binding.
