(* ===== verification/OptionalLaws.v ===== *)
(** Leaving out the absent elements and putting them back, on the elements.  The optional codec is a lawful array to bytes
    codec when the codecs of the mask and of the data are. *)

From S2P Require Import Prelude ArraySubset Linear Iterators ByteRange StoreKey Storage ArrayBytes Elements StoreProgram DecodeInto.
From S2P Require Import Concurrency Codec BytesCodec CodecChain ChainTheorems Sharding ShardPlacement OptionalCodec.

(** ** Masks *)

(** The entries that a mask keeps, and entries put back with a placeholder between them. *)
Fixpoint keep {A} (mask : list Z) (l : list A) : list A :=
  match mask, l with
  | m :: mask, x :: l => if m =? 0 then keep mask l else x :: keep mask l
  | _, _ => []
  end.

Fixpoint spread {A} (placeholder : A) (mask : list Z) (l : list A) : list A :=
  match mask with
  | [] => []
  | m :: mask =>
      if m =? 0 then placeholder :: spread placeholder mask l
      else match l with x :: l => x :: spread placeholder mask l | [] => placeholder :: spread placeholder mask [] end
  end.

Lemma count_valid_cons m mask : count_valid (m :: mask) = (if m =? 0 then 0 else 1) + count_valid mask.
Proof.
  unfold count_valid. rewrite filter_cons. destruct (Z.eqb_spec m 0) as [->|Hm].
  - by rewrite decide_False by lia.
  - rewrite decide_True by done. cbn [length]. lia.
Qed.

Lemma count_valid_bound mask : 0 <= count_valid mask <= zlen mask.
Proof.
  induction mask as [|m mask IH]; [done|]. rewrite count_valid_cons. cbn [length]. destruct (m =? 0); lia.
Qed.

Lemma length_keep {A} mask (l : list A) : length mask = length l → zlen (keep mask l) = count_valid mask.
Proof.
  revert l. induction mask as [|m mask IH]; intros [|x l] Hl; try done. rewrite count_valid_cons. cbn [keep].
  specialize (IH l ltac:(by injection Hl)). destruct (m =? 0); cbn [length]; lia.
Qed.

Lemma length_spread {A} (p : A) mask l : length (spread p mask l) = length mask.
Proof. revert l. induction mask as [|m mask IH]; intros l; [done|]. cbn [spread]. destruct (m =? 0), l; cbn [length]; by rewrite IH. Qed.

Lemma keep_spread {A} (p : A) mask l : zlen l = count_valid mask → keep mask (spread p mask l) = l.
Proof.
  revert l. induction mask as [|m mask IH]; intros l Hl; [by destruct l|]. rewrite count_valid_cons in Hl. cbn [spread].
  pose proof (count_valid_bound mask). destruct (m =? 0) eqn:Hm; [cbn [keep]; rewrite Hm; apply IH; lia|].
  destruct l as [|x l]; cbn [length] in Hl; [lia|]. cbn [keep]. rewrite Hm. f_equal. apply IH. lia.
Qed.

Lemma spread_nil {A} (p : A) mask : spread p mask [] = replicate (length mask) p.
Proof. induction mask as [|m mask IH]; [done|]. cbn [spread length replicate]. rewrite IH. by destruct (m =? 0). Qed.

Lemma keep_nil {A} mask (l : list A) : length mask = length l → count_valid mask <= 0 → keep mask l = [].
Proof. intros Hl Hc. pose proof (length_keep mask l Hl) as Hk. destruct (keep mask l); [done|]. cbn [length] in Hk. lia. Qed.

Lemma keep_fmap {A B} (f : A → B) mask l : keep mask (f <$> l) = f <$> keep mask l.
Proof. revert l. induction mask as [|m mask IH]; intros [|x l]; try done. rewrite fmap_cons. cbn [keep]. rewrite IH. by destruct (m =? 0). Qed.

Lemma spread_fmap {A B} (f : A → B) p mask l : f <$> spread p mask l = spread (f p) mask (f <$> l).
Proof.
  revert l. induction mask as [|m mask IH]; intros l; [done|]. cbn [spread]. destruct (m =? 0); [by rewrite fmap_cons, IH|].
  destruct l as [|x l]; rewrite ?fmap_cons, IH; done.
Qed.

Lemma keep_zip_with {A B C} (f : A → B → C) mask l k : keep mask (zip_with f l k) = zip_with f (keep mask l) (keep mask k).
Proof.
  revert l k. induction mask as [|m mask IH]; intros [|x l] [|y k]; try done; cbn [keep zip_with].
  - destruct (m =? 0); [|done]. by destruct (keep mask l).
  - rewrite IH. by destruct (m =? 0).
Qed.

Lemma spread_zip_with {A B C} (f : A → B → C) p q mask l k : length l = length k →
  zip_with f (spread p mask l) (spread q mask k) = spread (f p q) mask (zip_with f l k).
Proof.
  revert l k. induction mask as [|m mask IH]; intros l k Hl; [done|]. cbn [spread]. destruct (m =? 0); [cbn [zip_with]; by rewrite IH|].
  destruct l as [|x l], k as [|y k]; try done; cbn [zip_with]; rewrite IH; [done|done|done|by injection Hl].
Qed.

(** The elements under a mask do not depend on those that it does not keep. *)
Definition masked (U : list element) (mask : list Z) : list element := zip_with (λ u m, if m =? 0 then Null else Valid u) U mask.

Lemma masked_keep U U' mask : length U = length mask → length U' = length mask → keep mask U = keep mask U' → masked U mask = masked U' mask.
Proof.
  unfold masked. revert U U'. induction mask as [|m mask IH]; intros [|u U] [|u' U'] Hl Hl'; try done. cbn [keep zip_with length] in *.
  destruct (m =? 0); intros Hk; [f_equal; by apply IH; [lia..|]|]. injection Hk as -> Hk. f_equal. apply IH; [lia..|done].
Qed.

Lemma masked_cells D mask : cell_element <$> zip_with Masked D mask = masked (cell_element <$> D) mask.
Proof.
  unfold masked. revert mask. induction D as [|c D IH]; intros [|m mask]; try done. cbn [zip_with]. rewrite !fmap_cons, IH. done.
Qed.

(** ** Leaving out elements *)

Lemma keep_drop {A} mask (l : list A) i x : l !! i = Some x → keep mask (drop i l) =
  match mask with m :: mask => if m =? 0 then keep mask (drop (S i) l) else x :: keep mask (drop (S i) l) | [] => [] end.
Proof. intros Hx. rewrite (drop_S _ _ _ Hx). by destruct mask. Qed.

Lemma fixed_element_slice {E} d L i e : fixed_elements d L → zlen L * d < u64_modulus → L !! i = Some e →
  slice (E:=E) (concat L) (Z.of_nat i *w d) (Z.of_nat i *w d +w d) = Ok e.
Proof.
  intros HL Hb Hi. pose proof (fixed_elements_length d L HL) as Hcl. destruct HL as [Hd HL]. pose proof (lookup_lt_Some _ _ _ Hi) as Hlt.
  rewrite (wrap64_small (Z.of_nat i * d)) by (unfold is_u64; nia). rewrite wrap64_small by (unfold is_u64; nia).
  unfold slice. rewrite !(proj2 (Z.leb_le _ _)) by nia. cbn [andb]. f_equal.
  replace (Z.to_nat (Z.of_nat i * d)) with (i * Z.to_nat d)%nat by lia. replace (Z.to_nat (Z.of_nat i * d + d - Z.of_nat i * d)) with (Z.to_nat d) by lia.
  rewrite (drop_concat_const (Z.to_nat d)) by done. rewrite (drop_S _ _ _ Hi). cbn [concat].
  rewrite take_app_length' by (by eapply Forall_lookup_1 in HL). done.
Qed.

Lemma sparse_fixed_ok d L mask i P : fixed_elements d L → zlen L * d < 2 ^ 63 → (i + length mask = length L)%nat →
  sparse_fixed_loop (concat L) d mask (Z.of_nat i) (concat P) = Ok (concat (P ++ keep mask (drop i L))).
Proof.
  intros HL Hb. revert i P. induction mask as [|m mask IH]; intros i P Hl; [by rewrite app_nil_r|].
  cbn [length] in Hl. destruct (lookup_lt_is_Some_2 L i ltac:(lia)) as [e He]. rewrite (keep_drop _ _ _ _ He). cbn [sparse_fixed_loop].
  assert (0 < d) as Hd by apply HL. rewrite (wrap64_small (Z.of_nat i + 1)) by (unfold is_u64, u64_modulus; nia).
  replace (Z.of_nat i + 1) with (Z.of_nat (S i)) by lia. destruct (m =? 0); [by apply IH; lia|].
  rewrite (fixed_element_slice d L i e) by (done || unfold u64_modulus; lia). cbn [obind].
  replace (concat P ++ e) with (concat (P ++ [e])) by (rewrite concat_app; cbn; by rewrite app_nil_r). rewrite IH by lia. by rewrite <-app_assoc.
Qed.

Lemma vlen_element_index {E} v L i e : vlen_elements v L → L !! i = Some e → ∃ a b,
  index (E:=E) (vl_offsets v) (Z.of_nat i) = Ok a ∧ index (E:=E) (vl_offsets v) (Z.of_nat (S i)) = Ok b ∧ slice (E:=E) (vl_bytes v) a b = Ok e.
Proof.
  intros [_ Hv] Hi. destruct (Hv i e Hi) as (a & b & Ha & Hb & Hs). exists a, b. unfold index. rewrite !(proj2 (Z.leb_le _ _)) by lia.
  by rewrite !Nat2Z.id, Ha, Hb.
Qed.

Lemma pack_push_element P e : mk_vlen (concat P ++ e) ((offset_of P <$> seq 0 (S (length P))) ++ [zlen (concat P ++ e)]) = pack (P ++ [e]).
Proof.
  unfold pack. rewrite concat_app. cbn [concat]. rewrite app_nil_r, !length_app. cbn [length]. f_equal.
  replace (length P + 1)%nat with (S (length P)) by lia. rewrite (seq_S (S (length P)) 0), fmap_app. f_equal.
  - apply list_fmap_ext_in. intros k Hk%elem_of_seq. symmetry. apply offset_of_app. lia.
  - cbn. f_equal. unfold offset_of. rewrite take_ge by (rewrite length_app; cbn; lia). rewrite concat_app, length_app. cbn [concat]. rewrite app_nil_r. lia.
Qed.

Lemma sparse_vlen_ok v L mask i P : vlen_elements v L → zlen L < 2 ^ 63 → (i + length mask = length L)%nat →
  sparse_vlen_loop (vl_bytes v) (vl_offsets v) mask (Z.of_nat i) (vl_bytes (pack P)) (vl_offsets (pack P)) = Ok (pack (P ++ keep mask (drop i L))).
Proof.
  intros Hv Hb. revert i P. induction mask as [|m mask IH]; intros i P Hl; [by rewrite app_nil_r|].
  cbn [length] in Hl. destruct (lookup_lt_is_Some_2 L i ltac:(lia)) as [e He]. rewrite (keep_drop _ _ _ _ He). cbn [sparse_vlen_loop].
  rewrite (wrap64_small (Z.of_nat i + 1)) by (unfold is_u64, u64_modulus; lia).
  replace (Z.of_nat i + 1) with (Z.of_nat (S i)) by lia. destruct (m =? 0); [by apply IH; lia|].
  destruct (vlen_element_index (E:=CodecError) v L i e Hv He) as (a & b & -> & -> & Hs). cbn [obind]. rewrite Hs. cbn [obind].
  pose proof (pack_push_element P e) as Hpush. specialize (IH (S i) (P ++ [e]) ltac:(lia)). rewrite <-Hpush in IH. cbn [vl_bytes vl_offsets] in IH.
  cbn [vl_bytes vl_offsets pack]. rewrite IH. by rewrite <-app_assoc.
Qed.

Lemma sparse_mask_ok inner_mask mask i P : zlen inner_mask < 2 ^ 63 → (i + length mask = length inner_mask)%nat →
  sparse_mask_loop inner_mask mask (Z.of_nat i) P = Ok (P ++ keep mask (drop i inner_mask)).
Proof.
  intros Hb. revert i P. induction mask as [|m mask IH]; intros i P Hl; [by rewrite app_nil_r|].
  cbn [length] in Hl. destruct (lookup_lt_is_Some_2 inner_mask i ltac:(lia)) as [e He]. rewrite (keep_drop _ _ _ _ He). cbn [sparse_mask_loop].
  rewrite (wrap64_small (Z.of_nat i + 1)) by (unfold is_u64, u64_modulus; lia).
  replace (Z.of_nat i + 1) with (Z.of_nat (S i)) by lia. destruct (m =? 0); [by apply IH; lia|].
  unfold index. rewrite (proj2 (Z.leb_le _ _)) by lia. rewrite Nat2Z.id, He. cbn [expect obind]. rewrite IH by lia. by rewrite <-app_assoc.
Qed.

(** [extract_sparse_data] keeps the cells that the mask keeps, in packed form. *)
Lemma extract_sparse_represents b dt E mask : represents b dt E → length mask = length E →
  ∃ out, extract_sparse_data b mask dt = Ok out ∧ represents out dt (keep mask E) ∧ packed out ∧ array_bytes_size out <= array_bytes_size b.
Proof.
  revert dt E. induction b as [b|v|data IH inner_mask]; intros [[d|]|inner] E; cbn [represents]; try done.
  - intros (L & -> & -> & HL & Hb) Hl. rewrite length_fmap in Hl. cbn [extract_sparse_data fixed_size data_type_size expect obind].
    pose proof (sparse_fixed_ok d L mask 0 [] HL Hb ltac:(lia)) as Hloop. rewrite drop_0 in Hloop. cbn [concat app] in Hloop.
    change (Z.of_nat 0) with 0 in Hloop. rewrite Hloop. cbn [obind].
    assert (zlen (keep mask L) <= zlen L) as Hle by (rewrite length_keep by done; pose proof (count_valid_bound mask); lia).
    assert (fixed_elements d (keep mask L)) as HLk.
    { destruct HL as [Hd HL]. split; [done|]. apply Forall_forall. intros e He. rewrite Forall_forall in HL. apply HL. clear -He.
      revert L He. induction mask as [|m mask IH]; intros [|x L]; cbn [keep]; try (intros He; by apply not_elem_of_nil in He).
      destruct (m =? 0); [intros He; apply list_elem_of_further; auto|]. intros [->|He]%elem_of_cons; [apply list_elem_of_here|apply list_elem_of_further; auto]. }
    eexists. split_and!; [done| |done|].
    + exists (keep mask L). rewrite keep_fmap. split_and!; [done|done|done|]. destruct HL. nia.
    + cbn [array_bytes_size]. rewrite !(fixed_elements_length d) by done. destruct HL. nia.
  - intros (L & -> & Hv & Hb & Hs) Hl. rewrite length_fmap in Hl. cbn [extract_sparse_data].
    pose proof (sparse_vlen_ok v L mask 0 [] Hv Hb ltac:(lia)) as Hloop. rewrite drop_0 in Hloop. change (Z.of_nat 0) with 0 in Hloop.
    change (vl_bytes (pack [])) with (@nil Z) in Hloop. change (vl_offsets (pack [])) with [0] in Hloop. rewrite Hloop. cbn [obind app].
    assert (zlen (keep mask L) <= zlen L) as Hle by (rewrite length_keep by done; pose proof (count_valid_bound mask); lia).
    pose proof (vlen_total v L Hv) as Ht.
    assert (zlen (concat (keep mask L)) <= zlen (concat L)) as Hc.
    { clear -Hl. revert L Hl. induction mask as [|m mask IH]; intros [|x L] Hl; try done. cbn [keep concat]. injection Hl as Hl. specialize (IH L Hl).
      destruct (m =? 0); cbn [concat]; rewrite ?length_app; lia. }
    eexists. split_and!; [done| |by eexists|cbn; lia]. exists (keep mask L). rewrite keep_fmap. split_and!; [done|apply pack_elements|lia|cbn; lia].
  - intros (C & HC & -> & Hlm & Hb) Hl. rewrite length_zip_with in Hl. cbn [extract_sparse_data].
    pose proof (sparse_mask_ok inner_mask mask 0 [] Hb ltac:(lia)) as Hloop. rewrite drop_0 in Hloop. change (Z.of_nat 0) with 0 in Hloop.
    rewrite Hloop. cbn [obind as_optional ok_or app]. destruct (IH inner C HC ltac:(lia)) as (out & Hout & Hr & Hp & Hs). rewrite Hout. cbn [obind].
    eexists. split_and!; [done| |done|done]. exists (keep mask C). rewrite keep_zip_with. split_and!; [done|done| |].
    + assert (zlen (keep mask inner_mask) = zlen (keep mask C)) by (rewrite !length_keep by lia; done). lia.
    + rewrite length_keep by lia. pose proof (count_valid_bound mask). lia.
Qed.

(** ** Putting them back *)

Lemma spread_step {A} (p : A) m mask l i x : l !! i = Some x →
  spread p (m :: mask) (drop i l) = if m =? 0 then p :: spread p mask (drop i l) else x :: spread p mask (drop (S i) l).
Proof. intros Hx. cbn [spread]. destruct (m =? 0); [done|]. by rewrite (drop_S _ _ _ Hx). Qed.

Lemma dense_fixed_ok d S mask i j P : fixed_elements d S → zlen S * d < 2 ^ 63 → Forall (λ e, length e = Z.to_nat d) P →
  length P = i → zlen S = Z.of_nat j + count_valid mask → (Z.of_nat i + zlen mask) * d < 2 ^ 63 →
  dense_fixed_loop (concat S) d mask (Z.of_nat i) (Z.of_nat j) (concat P ++ concat (replicate (length mask) (replicate (Z.to_nat d) 0))) =
    Ok (concat (P ++ spread (replicate (Z.to_nat d) 0) mask (drop j S))).
Proof.
  intros HS Hb. revert i j P. induction mask as [|m mask IH]; intros i j P HP Hi Hj Hlen.
  { cbn [dense_fixed_loop length replicate concat spread]. by rewrite !app_nil_r. }
  rewrite count_valid_cons in Hj. pose proof (count_valid_bound mask) as Hcv. pose proof (proj1 HS) as Hd. cbn [length] in Hlen.
  cbn [dense_fixed_loop]. rewrite (wrap64_small (Z.of_nat i + 1)) by (unfold is_u64, u64_modulus; nia).
  replace (Z.of_nat i + 1) with (Z.of_nat (i + 1)) by lia.
  cbn [length replicate concat]. destruct (m =? 0) eqn:Hm.
  - replace (concat P ++ replicate (Z.to_nat d) 0 ++ concat (replicate (length mask) (replicate (Z.to_nat d) 0)))
      with (concat (P ++ [replicate (Z.to_nat d) 0]) ++ concat (replicate (length mask) (replicate (Z.to_nat d) 0)))
      by (rewrite concat_app; cbn [concat]; by rewrite app_nil_r, <-app_assoc).
    rewrite IH; [|apply Forall_app; split; [done|]; repeat constructor; apply length_replicate|rewrite length_app; cbn; lia|lia|nia].
    cbn [spread]. rewrite Hm, <-app_assoc. done.
  - destruct (lookup_lt_is_Some_2 S j ltac:(lia)) as [e He]. rewrite (spread_step _ _ _ _ _ _ He), Hm.
    rewrite (fixed_element_slice d S j e) by (done || unfold u64_modulus; lia). cbn [obind].
    assert (length e = Z.to_nat d) as Hle by (destruct HS as [_ HS]; by eapply Forall_lookup_1 in HS).
    assert (length (concat P) = (i * Z.to_nat d)%nat) as HlP by (rewrite (length_concat_const (Z.to_nat d)) by done; lia).
    rewrite (wrap64_small (Z.of_nat i * d)) by (unfold is_u64, u64_modulus; nia).
    rewrite wrap64_small by (unfold is_u64, u64_modulus; nia). rewrite (wrap64_small (Z.of_nat j + 1)) by (unfold is_u64, u64_modulus; nia).
    unfold copy_from_slice. rewrite !(proj2 (Z.leb_le _ _)), (proj2 (Z.eqb_eq _ _)) by (rewrite ?length_app, ?length_replicate; nia). cbn [andb obind].
    replace (Z.of_nat j + 1) with (Z.of_nat (j + 1)) by lia.
    match goal with |- dense_fixed_loop _ _ _ _ _ ?x = _ => replace x with (concat (P ++ [e]) ++ concat (replicate (length mask) (replicate (Z.to_nat d) 0))) end.
    + rewrite IH; [|apply Forall_app; split; [done|]; by repeat constructor|rewrite length_app; cbn; lia|lia|nia].
      rewrite <-app_assoc. cbn [app]. by replace (j + 1)%nat with (1 + j)%nat by lia.
    + rewrite concat_app. cbn [concat]. rewrite app_nil_r, <-app_assoc.
      replace (Z.to_nat (Z.of_nat i * d)) with (length (concat P)) by lia. rewrite take_app_length. f_equal. f_equal.
      replace (Z.to_nat (Z.of_nat i * d + d)) with (length (concat P) + Z.to_nat d)%nat by lia. rewrite drop_app_add.
      rewrite drop_app_length' by (by rewrite length_replicate). done.
Qed.

Lemma dense_vlen_ok v S mask j P : vlen_elements v S → zlen S < 2 ^ 63 → zlen S = Z.of_nat j + count_valid mask →
  dense_vlen_loop (vl_bytes v) (vl_offsets v) mask (Z.of_nat j) (vl_bytes (pack P)) (vl_offsets (pack P)) =
    Ok (pack (P ++ spread [] mask (drop j S))).
Proof.
  intros Hv Hb. revert j P. induction mask as [|m mask IH]; intros j P Hj; [by rewrite app_nil_r|].
  rewrite count_valid_cons in Hj. pose proof (count_valid_bound mask) as Hcv. cbn [dense_vlen_loop]. destruct (m =? 0) eqn:Hm.
  - pose proof (pack_push_element P []) as Hpush. rewrite app_nil_r in Hpush. specialize (IH j (P ++ [[]]) ltac:(lia)). rewrite <-Hpush in IH.
    cbn [vl_bytes vl_offsets pack] in *. rewrite IH. cbn [spread]. by rewrite Hm, <-app_assoc.
  - destruct (lookup_lt_is_Some_2 S j ltac:(lia)) as [e He]. rewrite (spread_step _ _ _ _ _ _ He), Hm.
    rewrite (wrap64_small (Z.of_nat j + 1)) by (unfold is_u64, u64_modulus; lia). replace (Z.of_nat j + 1) with (Z.of_nat (1 + j)) by lia.
    destruct (vlen_element_index (E:=CodecError) v S j e Hv He) as (a & b & -> & Hb2 & Hs). change (Datatypes.S j) with (1 + j)%nat in Hb2.
    rewrite Hb2. cbn [obind]. rewrite Hs. cbn [obind].
    pose proof (pack_push_element P e) as Hpush. specialize (IH (1 + j)%nat (P ++ [e]) ltac:(lia)). rewrite <-Hpush in IH. cbn [vl_bytes vl_offsets] in IH.
    cbn [vl_bytes vl_offsets pack]. rewrite IH. by rewrite <-app_assoc.
Qed.

Lemma dense_mask_ok S mask i j P : zlen S < 2 ^ 63 → zlen P + zlen mask < 2 ^ 63 → length P = i → zlen S = Z.of_nat j + count_valid mask →
  dense_mask_loop S mask (Z.of_nat i) (Z.of_nat j) (P ++ replicate (length mask) 0) = Ok (P ++ spread 0 mask (drop j S)).
Proof.
  intros Hb. revert i j P. induction mask as [|m mask IH]; intros i j P HP Hi Hj; [by cbn; rewrite !app_nil_r|].
  rewrite count_valid_cons in Hj. pose proof (count_valid_bound mask) as Hcv. cbn [length] in HP. cbn [dense_mask_loop length replicate].
  rewrite (wrap64_small (Z.of_nat i + 1)) by (unfold is_u64, u64_modulus; lia). replace (Z.of_nat i + 1) with (Z.of_nat (1 + i)) by lia.
  destruct (m =? 0) eqn:Hm.
  - replace (P ++ 0 :: replicate (length mask) 0) with ((P ++ [0]) ++ replicate (length mask) 0) by (by rewrite <-app_assoc).
    rewrite IH by (rewrite ?length_app; cbn; lia). cbn [spread]. by rewrite Hm, <-app_assoc.
  - destruct (lookup_lt_is_Some_2 S j ltac:(lia)) as [e He]. rewrite (spread_step _ _ _ _ _ _ He), Hm.
    rewrite (wrap64_small (Z.of_nat j + 1)) by (unfold is_u64, u64_modulus; lia). replace (Z.of_nat j + 1) with (Z.of_nat (1 + j)) by lia.
    unfold index. rewrite (proj2 (Z.leb_le _ _)) by lia. rewrite Nat2Z.id, He. cbn [expect obind].
    rewrite Nat2Z.id, <-Hi, insert_app_r_alt, Nat.sub_diag by lia. cbn [insert list_insert].
    replace (P ++ e :: replicate (length mask) 0) with ((P ++ [e]) ++ replicate (length mask) 0) by (by rewrite <-app_assoc).
    rewrite IH by (rewrite ?length_app; cbn; lia). by rewrite <-app_assoc.
Qed.

(** The placeholders of a data type. *)
Fixpoint placeholder (dt : DataType) : cell :=
  match dt with
  | PlainType (FixedSize d) => Cell (replicate (Z.to_nat d) 0)
  | PlainType VariableSize => Cell []
  | OptionalType inner => Masked (placeholder inner) 0
  end.

(** Room for the elements of a fixed size. *)
Definition room (dt : DataType) (n : Z) : Prop := match data_type_size dt with FixedSize d => 0 < d ∧ n * d < 2 ^ 63 | VariableSize => True end.

Lemma fixed_spread d S mask : fixed_elements d S → fixed_elements d (spread (replicate (Z.to_nat d) 0) mask S).
Proof.
  intros [Hd HS]. split; [done|]. revert S HS. induction mask as [|m mask IH]; intros S HS; [constructor|]. cbn [spread].
  destruct (m =? 0); [constructor; [apply length_replicate|by apply IH]|]. destruct HS; constructor; [apply length_replicate|by apply IH|done|by apply IH].
Qed.

Lemma concat_spread mask (S : list bytes) : zlen S = count_valid mask → concat (spread [] mask S) = concat S.
Proof.
  revert S. induction mask as [|m mask IH]; intros S HS; [by destruct S|]. rewrite count_valid_cons in HS. pose proof (count_valid_bound mask).
  cbn [spread]. destruct (m =? 0); cbn [concat]; [apply IH; lia|]. destruct S as [|e S]; cbn [length] in HS; [lia|]. cbn [concat]. f_equal. apply IH. lia.
Qed.

(** [expand_to_dense] puts the cells back, with placeholders between them. *)
Lemma expand_represents b dt E mask : represents b dt E → zlen E = count_valid mask → zlen mask < 2 ^ 63 → room dt (zlen mask) →
  ∃ out, expand_to_dense b mask dt = Ok out ∧ represents out dt (spread (placeholder dt) mask E) ∧ packed out ∧
    match data_type_size dt with FixedSize d => array_bytes_size out = zlen mask * d | VariableSize => array_bytes_size out <= array_bytes_size b end.
Proof.
  revert dt E. induction b as [b|v|data IH inner_mask]; intros [[d|]|inner] E; cbn [represents]; try done; unfold room; cbn [data_type_size placeholder].
  - intros (S & -> & -> & HS & Hb) Hl Hm [Hd Hroom]. rewrite length_fmap in Hl. cbn [expand_to_dense fixed_size data_type_size expect obind].
    pose proof (dense_fixed_ok d S mask 0 0 [] HS Hb ltac:(constructor) eq_refl Hl ltac:(lia)) as Hloop.
    change (Z.of_nat 0) with 0 in Hloop. cbn [concat app] in Hloop. rewrite drop_0 in Hloop.
    replace (replicate (Z.to_nat (zlen mask *w d)) 0) with (concat (replicate (length mask) (replicate (Z.to_nat d) 0))).
    + rewrite Hloop. cbn [obind]. pose proof (fixed_spread d S mask HS) as HSs. eexists. split_and!; [done| |done|].
      * eexists. split_and!; [by rewrite spread_fmap|done|done|]. by rewrite length_spread.
      * cbn [array_bytes_size]. rewrite (fixed_elements_length d) by done. by rewrite length_spread.
    + rewrite wrap64_small by (unfold is_u64, u64_modulus; nia). replace (Z.to_nat (zlen mask * d)) with (length mask * Z.to_nat d)%nat by nia.
      generalize (length mask) as n. clear. induction n as [|n IH]; [done|]. cbn [replicate concat]. rewrite IH, <-replicate_add. f_equal; lia.
  - intros (S & -> & Hv & Hb & Hs) Hl Hm _. rewrite length_fmap in Hl. cbn [expand_to_dense].
    pose proof (dense_vlen_ok v S mask 0 [] Hv Hb ltac:(lia)) as Hloop. rewrite drop_0 in Hloop. change (Z.of_nat 0) with 0 in Hloop.
    change (vl_bytes (pack [])) with (@nil Z) in Hloop. change (vl_offsets (pack [])) with [0] in Hloop. rewrite Hloop. cbn [obind app].
    pose proof (vlen_total v S Hv) as Ht. assert (zlen (concat (spread [] mask S)) = zlen (concat S)) as Hc by by rewrite concat_spread.
    eexists. split_and!; [done| |by eexists|cbn; lia].
    eexists. split_and!; [by rewrite spread_fmap|apply pack_elements|by rewrite length_spread|cbn; lia].
  - intros (C & HC & -> & Hlm & Hb) Hl Hm Hroom. rewrite length_zip_with in Hl. cbn [expand_to_dense as_optional ok_or obind].
    destruct (IH inner C HC ltac:(lia) Hm Hroom) as (out & Hout & Hr & Hp & Hs). rewrite Hout. cbn [obind].
    pose proof (dense_mask_ok inner_mask mask 0 0 [] Hb ltac:(cbn; lia) eq_refl ltac:(lia)) as Hloop. rewrite drop_0 in Hloop.
    change (Z.of_nat 0) with 0 in Hloop. cbn [app] in Hloop. rewrite Hloop. cbn [obind]. eexists. split_and!; [done| |done|done].
    eexists. split_and!; [done|by rewrite spread_zip_with|by rewrite !length_spread|by rewrite length_spread].
Qed.

Lemma concat_nils n : concat (replicate n ([] : bytes)) = [].
Proof. by induction n. Qed.

Lemma pack_nils n : pack (replicate n []) = mk_vlen [] (replicate (S n) 0).
Proof.
  unfold pack. rewrite length_replicate, concat_nils. f_equal. apply list_eq_total; [by rewrite length_fmap, length_seq, length_replicate|].
  intros j Hj. rewrite length_fmap, length_seq in Hj. rewrite fmap_total by (by rewrite length_seq). rewrite lookup_total_replicate_2 by done.
  unfold offset_of. rewrite take_replicate, concat_nils. done.
Qed.

(** [create_empty_dense_data] has nothing but placeholders. *)
Lemma create_empty_represents dt mask : zlen mask < 2 ^ 63 → room dt (zlen mask) →
  ∃ out, create_empty_dense_data mask dt = Ok out ∧ represents out dt (replicate (length mask) (placeholder dt)) ∧ packed out ∧
    match data_type_size dt with FixedSize d => array_bytes_size out = zlen mask * d | VariableSize => array_bytes_size out = 0 end.
Proof.
  intros Hm. induction dt as [[d|]|inner IH]; unfold room; cbn [data_type_size placeholder create_empty_dense_data].
  - intros [Hd Hroom]. rewrite wrap64_small by (unfold is_u64, u64_modulus; nia). eexists. split_and!; [done| |done|].
    + exists (replicate (length mask) (replicate (Z.to_nat d) 0)). split_and!.
      * by rewrite fmap_replicate.
      * replace (Z.to_nat (zlen mask * d)) with (length mask * Z.to_nat d)%nat by nia. generalize (length mask) as n. clear.
        induction n as [|n IH]; [done|]. cbn [replicate concat]. rewrite <-IH, <-replicate_add. f_equal; lia.
      * split; [done|]. apply Forall_replicate. apply length_replicate.
      * by rewrite length_replicate.
    + cbn [array_bytes_size]. rewrite length_replicate. lia.
  - intros _. eexists. split_and!; [done| | |done].
    + exists (replicate (length mask) []). split_and!; [by rewrite fmap_replicate| |by rewrite length_replicate|done].
      rewrite <-pack_nils. apply pack_elements.
    + eexists. by rewrite <-pack_nils.
  - intros Hroom. destruct (IH Hroom) as (out & Hout & Hr & Hp & Hs). rewrite Hout. cbn [obind]. eexists. split_and!; [done| |done|done].
    exists (replicate (length mask) (placeholder inner)). split_and!; [done| |by rewrite !length_replicate|by rewrite length_replicate].
    generalize (length mask) as n. clear. induction n as [|n IH]; [done|]. cbn [replicate zip_with]. by f_equal.
Qed.

(** The elements of a mask. *)
Definition mask_elements (mask : list Z) : list element := (λ m, Value [m]) <$> mask.

Lemma mask_holds mask : zlen mask < 2 ^ 63 → holds (FixedBytes mask) bool_data_type (mask_elements mask).
Proof.
  intros Hb. apply holds_fixed. exists ((λ m : Z, [m]) <$> mask). split_and!.
  - f_equal. induction mask as [|m mask IH]; [done|]. rewrite fmap_cons. cbn [concat app length] in *. f_equal. apply IH. lia.
  - unfold mask_elements. by rewrite list_fmap_fmap.
  - split; [done|]. apply Forall_fmap, Forall_forall. done.
  - rewrite length_fmap. lia.
Qed.

(** The least and the largest value for the numbers of elements that are present. *)
Definition least (f : Z → Z) (n : Z) : Z := foldr Z.min (2 ^ 63) (f <$> seqZ 1 n).
Definition largest (f : Z → Z) (n : Z) : Z := foldr Z.max 0 (f <$> seqZ 1 n).

Lemma least_bound f n k : 1 <= k <= n → least f n <= f k.
Proof.
  intros Hk. unfold least. assert (k ∈ seqZ 1 n) as Hin by (apply elem_of_seqZ; lia). induction (seqZ 1 n) as [|x l IH]; [by apply not_elem_of_nil in Hin|].
  rewrite fmap_cons. cbn [foldr]. apply elem_of_cons in Hin as [->|Hin]; [lia|]. specialize (IH Hin). lia.
Qed.

Lemma least_max f n : least f n <= 2 ^ 63.
Proof. unfold least. induction (seqZ 1 n) as [|x l IH]; [done|]. rewrite fmap_cons. cbn [foldr]. lia. Qed.

Lemma largest_bound f n k : 1 <= k <= n → f k <= largest f n.
Proof.
  intros Hk. unfold largest. assert (k ∈ seqZ 1 n) as Hin by (apply elem_of_seqZ; lia). induction (seqZ 1 n) as [|x l IH]; [by apply not_elem_of_nil in Hin|].
  rewrite fmap_cons. cbn [foldr]. apply elem_of_cons in Hin as [->|Hin]; [lia|]. specialize (IH Hin). lia.
Qed.

Lemma largest_nonneg f n : 0 <= largest f n.
Proof. unfold largest. induction (seqZ 1 n) as [|x l IH]; [done|]. rewrite fmap_cons. cbn [foldr]. lia. Qed.

Section codec.
Context {M D : Type} `{LM : LawfulArrayToBytesCodec M, LD : LawfulArrayToBytesCodec D}.

Record optional_wf (c : OptionalCodecBound M D) : Prop := {
  ow_type : opt_data_type c = OptionalType (a2b_data_type (data_codecs c));
  ow_mask : a2b_wf (mask_codecs c);
  ow_mask_type : a2b_data_type (mask_codecs c) = bool_data_type;
  ow_data : a2b_wf (data_codecs c);
  ow_fill : fill_ok (opt_data_type c) (opt_fill_value c);
}.

(** The codecs of the data encode any number of elements up to those of a chunk. *)
Definition sparse_limit (c : OptionalCodecBound M D) (sh : list Z) : Z := least (λ k, a2b_limit (data_codecs c) [k]) (Zprod sh).
Definition sparse_encoded_limit (c : OptionalCodecBound M D) (sh : list Z) : Z := largest (λ k, a2b_encoded_limit (data_codecs c) [k]) (Zprod sh).

Record optional_shape_ok (c : OptionalCodecBound M D) (sh : list Z) : Prop := {
  os_mask : a2b_shape_ok (mask_codecs c) sh;
  os_data k : 1 <= k <= Zprod sh → a2b_shape_ok (data_codecs c) [k];
  os_limit : Zprod sh * Z.max 1 (zlen (base_fill (opt_data_type c) (opt_fill_value c))) < sparse_limit c sh;
  os_encoded_limit : 16 + a2b_encoded_limit (mask_codecs c) sh + sparse_encoded_limit c sh < u64_modulus;
  (** the representation of all elements admits the encoding of some of them *)
  os_representation : ∃ rep, a2b_encoded_representation (data_codecs c) sh = Ok rep ∧ ∀ s, representation_size rep = Some s →
    0 <= s ∧ ∀ k b S options enc, 1 <= k <= Zprod sh → holds b (a2b_data_type (data_codecs c)) S → zlen S = k →
      a2b_encode (data_codecs c) b [k] options = Ok enc → zlen enc <= s;
}.

(** The dense data under a mask, from the encoded elements that are present. *)
Definition dense_encodes (c : OptionalCodecBound M D) (mask : list Z) (encd : bytes) (dense : ArrayBytes) : Prop :=
  if 0 <? count_valid mask
  then ∃ sparse S, a2b_encodes (data_codecs c) [count_valid mask] encd sparse S ∧ holds sparse (a2b_data_type (data_codecs c)) S ∧
    zlen S = count_valid mask ∧ expand_to_dense sparse mask (a2b_data_type (data_codecs c)) = Ok dense
  else create_empty_dense_data mask (a2b_data_type (data_codecs c)) = Ok dense.

Definition optional_encodes (c : OptionalCodecBound M D) (sh : list Z) (enc : bytes) (b : ArrayBytes) (V : list element) : Prop :=
  ∃ dense mask encm encd, enc = u64_to_le_bytes (zlen encm) ++ u64_to_le_bytes (zlen encd) ++ encm ++ encd ∧ b = OptionalBytes dense mask ∧
    zlen mask = Zprod sh ∧ a2b_encodes (mask_codecs c) sh encm (FixedBytes mask) (mask_elements mask) ∧ dense_encodes c mask encd dense.

Lemma slice_app {E} (a b e : bytes) x y : x = zlen a → y = zlen a + zlen b → slice (E:=E) (a ++ b ++ e) x y = Ok b.
Proof.
  intros -> ->. unfold slice. rewrite !length_app, !(proj2 (Z.leb_le _ _)) by lia. cbn [andb]. f_equal.
  rewrite Nat2Z.id, drop_app_length. replace (Z.to_nat (zlen a + zlen b - zlen a)) with (length b) by lia. by rewrite take_app_length.
Qed.

Lemma slice_app_end {E} (a b : bytes) x y : x = zlen a → y = zlen a + zlen b → slice (E:=E) (a ++ b) x y = Ok b.
Proof. intros Hx Hy. rewrite <-(app_nil_r b) at 1. by apply slice_app. Qed.

(** The parts of an encoded chunk. *)
Lemma optional_parts {E} encm encd : let enc := u64_to_le_bytes (zlen encm) ++ u64_to_le_bytes (zlen encd) ++ encm ++ encd in
  zlen enc < u64_modulus →
  zlen enc = 16 + zlen encm + zlen encd ∧ slice (E:=E) enc 0 8 = Ok (u64_to_le_bytes (zlen encm)) ∧ slice (E:=E) enc 8 16 = Ok (u64_to_le_bytes (zlen encd)) ∧
  slice (E:=E) enc 16 (16 + zlen encm) = Ok encm ∧ slice (E:=E) enc (16 + zlen encm) (zlen enc) = Ok encd.
Proof.
  intros enc. assert (zlen enc = 16 + zlen encm + zlen encd) as Hl.
  { unfold enc. rewrite !length_app. pose proof (length_u64_le (zlen encm)). pose proof (length_u64_le (zlen encd)). lia. }
  intros Hb. pose proof (length_u64_le (zlen encm)) as H1. pose proof (length_u64_le (zlen encd)) as H2. split_and!; [done|..]; unfold enc.
  - apply (slice_app []); [done|]. cbn. lia.
  - apply slice_app; lia.
  - rewrite (app_assoc (u64_to_le_bytes (zlen encm))). apply slice_app; rewrite length_app; lia.
  - rewrite (app_assoc (u64_to_le_bytes (zlen encm))), (app_assoc (_ ++ _) encm). apply slice_app_end; rewrite !length_app; lia.
Qed.

(** ** Decoding *)

Lemma optional_decode_ok (c : OptionalCodecBound M D) sh options enc b V : optional_wf c → optional_shape_ok c sh → optional_encodes c sh enc b V → zlen enc < u64_modulus →
  optional_decode c enc sh options = Ok b.
Proof.
  intros Hwf Hsh (dense & mask & encm & encd & -> & -> & Hm & Hem & Hd) Hb.
  destruct (optional_parts (E:=CodecError) encm encd Hb) as (Hl & H1 & H2 & H3 & H4). unfold optional_decode.
  rewrite (proj2 (Z.ltb_ge _ _)) by lia. rewrite H1. cbn [obind]. rewrite H2. cbn [obind].
  rewrite !u64_le_roundtrip by (unfold is_u64; lia). rewrite (wrap64_small (16 + zlen encm)), wrap64_small by (unfold is_u64; lia).
  rewrite (proj2 (Z.eqb_eq _ _)) by lia. cbn [negb]. rewrite H3. cbn [obind]. rewrite H4. cbn [obind].
  pose proof (ow_mask _ Hwf) as Hwm. destruct (a2b_shape_law _ sh Hwm (os_mask _ _ Hsh)) as ([Hs Hp] & _).
  assert (holds (FixedBytes mask) (a2b_data_type (mask_codecs c)) (mask_elements mask)) as Hhm by (rewrite (ow_mask_type _ Hwf); apply mask_holds; lia).
  rewrite (a2b_decode_law (mask_codecs c) sh options encm (FixedBytes mask) (mask_elements mask)); [|done|apply Hsh|done|lia|done|by unfold mask_elements; rewrite length_fmap].
  cbn [obind into_fixed]. rewrite (ow_type _ Hwf). cbn [as_optional ok_or obind]. unfold dense_encodes in Hd.
  pose proof (count_valid_bound mask) as Hc. destruct (Z.ltb_spec 0 (count_valid mask)) as [Hpos|_].
  - destruct Hd as (sparse & S & He & Hh & HS & Hex).
    rewrite (a2b_decode_law (data_codecs c) [count_valid mask] options encd sparse S); [|apply Hwf|apply Hsh; lia|done|lia|done|].
    + cbn [obind]. by rewrite Hex.
    + by rewrite Zprod_cons, Zprod_nil, Z.mul_1_r.
  - by rewrite Hd.
Qed.

(** ** Encoding *)

Lemma holds_optional b inner V : holds b (OptionalType inner) V → ∃ dense mask E, b = OptionalBytes dense mask ∧ represents dense inner E ∧
  length mask = length E ∧ V = masked (cell_element <$> E) mask ∧ zlen mask < 2 ^ 63.
Proof.
  intros [(E & HE & <-) _]. destruct b as [|v|dense mask]; try done. destruct HE as (C & HC & -> & Hl & Hb). exists dense, mask, C.
  by rewrite masked_cells.
Qed.

(** Dense data that holds what the mask keeps of the elements. *)
Lemma masked_holds out inner C mask U : represents out inner C → packed out → length C = length mask → length mask = length U → zlen mask < 2 ^ 63 →
  keep mask (cell_element <$> C) = keep mask U →
  holds (OptionalBytes out mask) (OptionalType inner) (masked U mask) ∧ packed (OptionalBytes out mask).
Proof.
  intros Hr Hp Hl Hl' Hb Hk. split; [|done]. replace (masked U mask) with (cell_element <$> zip_with Masked C mask).
  - apply packed_holds; [|done]. by exists C.
  - rewrite masked_cells. apply masked_keep; [by rewrite length_fmap|done|done].
Qed.

Lemma optional_room (c : OptionalCodecBound M D) sh : optional_wf c → optional_shape_ok c sh → room (a2b_data_type (data_codecs c)) (Zprod sh).
Proof.
  intros Hwf Hsh. pose proof (ow_fill _ Hwf) as Hf. pose proof (os_limit _ _ Hsh) as Hl. rewrite (ow_type _ Hwf) in Hf, Hl.
  unfold fill_ok in Hf. unfold room. cbn [data_type_size] in Hf. pose proof (least_max (λ k, a2b_limit (data_codecs c) [k]) (Zprod sh)) as Hm.
  fold (sparse_limit c sh) in Hm. destruct (data_type_size _) as [d|]; [|done]. destruct Hf as [Hd Hf]. split; [done|]. rewrite Hf, Z.max_r in Hl by lia. lia.
Qed.

(** The elements that come back: placeholders where the mask has none. *)
Definition restored (dt : DataType) (mask : list Z) (U : list element) : list element := spread (cell_element (placeholder dt)) mask (keep mask U).

(** What is decoded from the encoded data. *)
Lemma optional_data_ok (c : OptionalCodecBound M D) sh options dense mask E : optional_wf c → optional_shape_ok c sh → represents dense (a2b_data_type (data_codecs c)) E →
  length mask = length E → zlen mask = Zprod sh → zlen mask < 2 ^ 63 → array_bytes_size dense < sparse_limit c sh →
  ∃ sparse encd dense' C, extract_sparse_data dense mask (a2b_data_type (data_codecs c)) = Ok sparse ∧
    (if 0 <? count_valid mask then a2b_encode (data_codecs c) sparse [count_valid mask] options else Ok []) = Ok encd ∧
    zlen encd <= sparse_encoded_limit c sh ∧
    (∃ rep, a2b_encoded_representation (data_codecs c) sh = Ok rep ∧ ∀ s, representation_size rep = Some s → zlen encd <= s) ∧
    dense_encodes c mask encd dense' ∧ represents dense' (a2b_data_type (data_codecs c)) C ∧ packed dense' ∧
    cell_element <$> C = restored (a2b_data_type (data_codecs c)) mask (cell_element <$> E) ∧ array_bytes_size dense' <= array_bytes_size dense.
Proof.
  intros Hwf Hsh HE Hl Hm Hb Hsz. pose proof (optional_room c sh Hwf Hsh) as Hroom. set (dt := a2b_data_type (data_codecs c)) in *.
  destruct (extract_sparse_represents dense dt E mask HE Hl) as (sparse & Hsp & Hrs & Hps & Hss).
  pose proof (packed_holds _ _ _ Hrs Hps) as Hhs. pose proof (length_keep mask E Hl) as Hk. pose proof (count_valid_bound mask) as Hc.
  destruct (os_representation _ _ Hsh) as (repd & Hrepd & Hrepd').
  assert (∀ out C, represents out dt C → length C = length mask →
    match data_type_size dt with FixedSize d => True | VariableSize => array_bytes_size out <= array_bytes_size sparse end →
    array_bytes_size out <= array_bytes_size dense) as Hsize.
  { intros out C Hr HlC. destruct (data_type_size dt) as [d|] eqn:Hd; [|lia]. rewrite (represents_size dense dt E d HE Hd), (represents_size out dt C d Hr Hd). nia. }
  exists sparse. unfold dense_encodes. fold dt. destruct (Z.ltb_spec 0 (count_valid mask)) as [Hv|Hv].
  - assert (1 <= count_valid mask <= Zprod sh) as Hcv by lia. pose proof (os_data _ _ Hsh _ Hcv) as Hshd.
    assert (Zprod [count_valid mask] = count_valid mask) as Hz by (by rewrite Zprod_cons, Zprod_nil, Z.mul_1_r).
    assert (zlen (cell_element <$> keep mask E) = count_valid mask) as Hks by (by rewrite length_fmap).
    destruct (a2b_roundtrip (data_codecs c) [count_valid mask] options sparse _ (ow_data _ Hwf) Hshd Hhs ltac:(by rewrite Hz))
      as (encd & sp' & _ & Hed & Hled & _ & _ & Hencd & Hhs' & _ & Hss').
    { pose proof (least_bound (λ k, a2b_limit (data_codecs c) [k]) (Zprod sh) _ Hcv) as Hlb. fold (sparse_limit c sh) in Hlb. cbn beta in Hlb. lia. }
    pose proof (largest_bound (λ k, a2b_encoded_limit (data_codecs c) [k]) (Zprod sh) _ Hcv) as Hub. fold (sparse_encoded_limit c sh) in Hub. cbn beta in Hub.
    pose proof Hhs' as [(S & HS & HSe) _]. assert (zlen S = count_valid mask) as HlS by (rewrite <-Hks, <-HSe, length_fmap; done).
    destruct (expand_represents sp' dt S mask HS HlS Hb ltac:(by rewrite Hm)) as (dense' & Hex & Hrd & Hpd & Hsd).
    exists encd, dense', (spread (placeholder dt) mask S). split_and!; [done|done|lia| | |done|done| |].
    + exists repd. split; [done|]. intros s Hs. destruct (Hrepd' s Hs) as [_ Hre]. by eapply (Hre _ sparse _ options encd Hcv Hhs Hks).
    + by exists sp', (cell_element <$> keep mask E).
    + unfold restored. by rewrite spread_fmap, HSe, keep_fmap.
    + eapply Hsize; [exact Hrd|apply length_spread|]. destruct (data_type_size dt); [done|lia].
  - destruct (create_empty_represents dt mask Hb ltac:(by rewrite Hm)) as (dense' & Hex & Hrd & Hpd & Hsd).
    pose proof (largest_nonneg (λ k, a2b_encoded_limit (data_codecs c) [k]) (Zprod sh)) as Hlg. fold (sparse_encoded_limit c sh) in Hlg.
    exists [], dense', (replicate (length mask) (placeholder dt)). split_and!; [done|done|cbn; lia| |done|done|done| |].
    + exists repd. split; [done|]. intros s Hs. destruct (Hrepd' s Hs) as [Hs0 _]. cbn. lia.
    + unfold restored. rewrite (keep_nil mask) by (rewrite ?length_fmap; done || lia). by rewrite spread_nil, fmap_replicate.
    + eapply Hsize; [exact Hrd|by rewrite length_replicate|]. destruct (data_type_size dt); [done|]. rewrite Hsd. clear. induction sparse; simpl; lia.
Qed.

Lemma optional_roundtrip_ok (c : OptionalCodecBound M D) sh options dense mask E : optional_wf c → optional_shape_ok c sh → represents dense (a2b_data_type (data_codecs c)) E →
  length mask = length E → zlen mask = Zprod sh → array_bytes_size dense < sparse_limit c sh →
  ∃ encm encd dense' C, let enc := u64_to_le_bytes (zlen encm) ++ u64_to_le_bytes (zlen encd) ++ encm ++ encd in
    optional_encode c (OptionalBytes dense mask) sh options = Ok enc ∧
    zlen encm <= a2b_encoded_limit (mask_codecs c) sh ∧ zlen encd <= sparse_encoded_limit c sh ∧
    (∃ rep, a2b_encoded_representation (mask_codecs c) sh = Ok rep ∧ rep_admits rep (zlen encm)) ∧
    (∃ rep, a2b_encoded_representation (data_codecs c) sh = Ok rep ∧ ∀ s, representation_size rep = Some s → zlen encd <= s) ∧
    optional_encodes c sh enc (OptionalBytes dense' mask) (masked (cell_element <$> E) mask) ∧
    represents dense' (a2b_data_type (data_codecs c)) C ∧ packed dense' ∧
    cell_element <$> C = restored (a2b_data_type (data_codecs c)) mask (cell_element <$> E) ∧ array_bytes_size dense' <= array_bytes_size dense.
Proof.
  intros Hwf Hsh HE Hl Hm Hsz. pose proof (ow_mask _ Hwf) as Hwm. destruct (a2b_shape_law _ sh Hwm (os_mask _ _ Hsh)) as (Hcs & _ & _ & Hlm).
  destruct (chunk_shape_product sh Hcs) as [Hp Hpos]. assert (zlen mask < 2 ^ 63) as Hb by (destruct Hcs; lia).
  assert (holds (FixedBytes mask) (a2b_data_type (mask_codecs c)) (mask_elements mask)) as Hhm by (rewrite (ow_mask_type _ Hwf); by apply mask_holds).
  assert (zlen (mask_elements mask) = Zprod sh) as Hml by (unfold mask_elements; by rewrite length_fmap).
  destruct (a2b_roundtrip (mask_codecs c) sh options (FixedBytes mask) (mask_elements mask) Hwm (os_mask _ _ Hsh) Hhm Hml)
    as (encm & bm & rep & Hem & Hlem & Hrep & Hadm & Hencm & Hhm' & _ & _).
  { cbn [array_bytes_size]. rewrite Hm. nia. }
  rewrite (ow_mask_type _ Hwf) in Hhm, Hhm'. pose proof (holds_fixed_inj _ _ _ _ Hhm' Hhm) as ->.
  destruct (optional_data_ok c sh options dense mask E Hwf Hsh HE Hl Hm Hb Hsz) as (sparse & encd & dense' & C & Hsp & Hed & Hled & Hrepd & Hde & Hr & Hpd & HC & Hle).
  exists encm, encd, dense', C. unfold optional_encode. rewrite Hp, Hm, Z.eqb_refl, (ow_type _ Hwf). cbn [negb as_optional ok_or obind].
  rewrite Hem. cbn [obind]. rewrite Hsp. cbn [obind]. rewrite Hed. cbn [obind]. split_and!; [done|done|done|by exists rep|done| |done|done|done|done]. by exists dense', mask, encm, encd.
Qed.

(** The elements under the mask come back. *)
Lemma restored_holds dense' dt C mask U : represents dense' dt C → packed dense' → cell_element <$> C = restored dt mask U → length mask = length U → zlen mask < 2 ^ 63 →
  holds (OptionalBytes dense' mask) (OptionalType dt) (masked U mask) ∧ packed (OptionalBytes dense' mask).
Proof.
  intros Hr Hp HC Hl Hb. eapply masked_holds; [done|done| |done|done|].
  - pose proof (f_equal length HC) as HlC. unfold restored in HlC. by rewrite length_fmap, length_spread in HlC.
  - rewrite HC. unfold restored. apply keep_spread. by apply length_keep.
Qed.

Lemma optional_representation_ok (c : OptionalCodecBound M D) sh (encm encd : bytes) repm repd : a2b_encoded_representation (mask_codecs c) sh = Ok repm → rep_admits repm (zlen encm) →
  a2b_encoded_representation (data_codecs c) sh = Ok repd → (∀ s, representation_size repd = Some s → zlen encd <= s) →
  ∃ rep, optional_encoded_representation c sh = Ok rep ∧ rep_admits rep (16 + zlen encm + zlen encd).
Proof.
  intros Hrm Ham Hrd Had. unfold optional_encoded_representation. rewrite Hrm, Hrd. cbn [obind].
  destruct (representation_size repm) as [sm|] eqn:Hsm; [|by eexists]. destruct (representation_size repd) as [sd|] eqn:Hsd; [|by eexists].
  specialize (Had sd eq_refl). assert (zlen encm <= sm) as Hem by (destruct repm; simplify_eq/=; lia).
  destruct (checked_add 16 sm) as [s|] eqn:H16; [|by eexists]. cbn. apply checked_add_Some in H16.
  destruct (checked_add s sd) as [total|] eqn:Htot; [|by eexists]. apply checked_add_Some in Htot. eexists. split; [done|]. cbn. lia.
Qed.

#[export] Program Instance optional_lawful : LawfulArrayToBytesCodec (OptionalCodecBound M D) := {|
  a2b_wf := optional_wf;
  a2b_shape_ok := optional_shape_ok;
  a2b_limit := sparse_limit;
  a2b_encoded_limit c sh := 16 + a2b_encoded_limit (mask_codecs c) sh + sparse_encoded_limit c sh;
  a2b_offset_limit _ := 0;
  a2b_encodes := optional_encodes;
|}.
Next Obligation. intros c Hc. apply Hc. Qed.
Next Obligation. intros c _. cbv beta. lia. Qed.
Next Obligation.
  intros c sh Hc Hsh. destruct (a2b_shape_law _ sh (ow_mask _ Hc) (os_mask _ _ Hsh)) as (Hcs & _). split_and!; [done| | |].
  - apply least_max.
  - apply Hsh.
  - apply Hsh.
Qed.
Next Obligation. intros c sh _ _. by eexists. Qed.
Next Obligation. intros c sh options enc b V Hc Hsh Hd Hl _ _. by eapply optional_decode_ok. Qed.
Next Obligation.
  intros c sh options b V Hc Hsh Hh HV Hb. cbn in Hh, Hb |- *. rewrite (ow_type _ Hc) in Hh |- *.
  apply holds_optional in Hh as (dense & mask & E & -> & HE & Hmask & -> & Hbm).
  assert (zlen mask = Zprod sh) as Hm by (unfold masked in HV; rewrite length_zip_with, length_fmap in HV; lia).
  destruct (optional_roundtrip_ok c sh options dense mask E Hc Hsh HE Hmask Hm Hb)
    as (encm & encd & dense' & C & He & Hlm & Hld & (repm & Hrm & Ham) & (repd & Hrd & Had) & Henc & Hr & Hp & HC & Hs).
  destruct (restored_holds dense' _ C mask _ Hr Hp HC ltac:(by rewrite length_fmap) Hbm) as [Hho Hpo].
  set (enc := u64_to_le_bytes _ ++ _) in *.
  assert (zlen enc = 16 + zlen encm + zlen encd) as Hl.
  { unfold enc. rewrite !length_app, !length_u64_le. lia. }
  destruct (optional_representation_ok c sh encm encd repm repd Hrm Ham Hrd Had) as (rep & Hrep & Hadm). rewrite <-Hl in Hadm.
  exists enc, (OptionalBytes dense' mask), rep. split_and!; [done|lia|done..].
Qed.
Next Obligation.
  intros c sh options enc b V t t' Hc Hsh (_ & _ & _ & Hl & Henc) _ Ht. eapply default_decode_into_ok; [|exact Ht]. by eapply optional_decode_ok.
Qed.
Next Obligation.
  intros c sh options h key v w b V Hc Hsh Hr (Hh & HV & _ & Hw). cbn in Hr, Hh, Hw |- *. pose proof (os_limit _ _ Hsh) as Hl.
  pose proof (least_max (λ k, a2b_limit (data_codecs c) [k]) (Zprod sh)) as Hm. fold (sparse_limit c sh) in Hm.
  eexists. split; [done|]. intros sub Hsub.
  destruct (default_partial_ok (opt_data_type c) (opt_fill_value c) (optional_decode c) sh options h key v w b V sub) as (out & Hrun & Hho & Hsz);
    [apply Hc|lia|done|done|done| |done|].
  { destruct w as [enc|]; [|done]. destruct Hw as [Hle Henc]. split; [done|]. by eapply optional_decode_ok. }
  exists out. split_and!; [exact Hrun|done|done|]. intros t t' Ht Hd. by eapply default_partial_decode_into_ok.
Qed.
Next Obligation.
  intros c sh options h key Hr sub. split; [by apply default_partial_confined|]. intros t.
  by apply default_partial_decode_into_confined, default_partial_confined.
Qed.
(** ** Validity

    Whatever bytes are decoded, what comes out has the elements of the chunk. *)

Lemma copied_length {E} (b u out : bytes) s e : copy_from_slice (E:=E) b s e u = Ok out → 0 <= s → length out = length b.
Proof.
  unfold copy_from_slice. destruct ((s <=? e) && (e <=? zlen b) && (e - s =? zlen u)) eqn:Hc; [|done]. intros [= <-] Hs.
  rewrite !andb_true_iff, !Z.leb_le, Z.eqb_eq in Hc. rewrite !length_app, length_take, length_drop. lia.
Qed.

Lemma dense_fixed_length sparse d mask i j dense out : dense_fixed_loop sparse d mask i j dense = Ok out → length out = length dense.
Proof.
  revert i j dense. induction mask as [|m mask IH]; intros i j dense; cbn [dense_fixed_loop]; [by intros [= <-]|].
  destruct (m =? 0); [apply IH|]. destruct (slice _ _ _) as [e| |]; [|done..]. cbn [obind].
  destruct (copy_from_slice dense _ _ e) as [dense'| |] eqn:Hc; [|done..]. cbn [obind]. intros Hl%IH. rewrite Hl.
  eapply copied_length; [exact Hc|]. apply wrap64_range.
Qed.

Lemma dense_vlen_packs sparse offs mask j P v : dense_vlen_loop sparse offs mask j (vl_bytes (pack P)) (vl_offsets (pack P)) = Ok v →
  ∃ L, length L = length mask ∧ v = pack (P ++ L).
Proof.
  revert j P. induction mask as [|m mask IH]; intros j P; cbn [dense_vlen_loop].
  { intros [= <-]. exists []. by rewrite app_nil_r. }
  assert (∀ j e, dense_vlen_loop sparse offs mask j (concat P ++ e) (vl_offsets (pack P) ++ [zlen (concat P ++ e)]) = Ok v →
    ∃ L, length L = S (length mask) ∧ v = pack (P ++ L)) as Hstep.
  { intros j' e Hl. pose proof (IH j' (P ++ [e])) as IH'. rewrite <-(pack_push_element P e) in IH'. cbn [vl_bytes vl_offsets] in IH'.
    apply IH' in Hl as (L & HL & ->). exists (e :: L). cbn [length]. split; [lia|]. by rewrite <-app_assoc. }
  destruct (m =? 0).
  - intros Hl. apply (Hstep j []). rewrite app_nil_r. exact Hl.
  - destruct (index offs j) as [a| |]; [|done..]. cbn [obind]. destruct (index offs _) as [b| |]; [|done..]. cbn [obind].
    destruct (slice sparse a b) as [e| |]; [|done..]. cbn [obind]. apply Hstep.
Qed.

Lemma expand_valid b mask dt out n : validate_bytes b n dt = Ok tt → expand_to_dense b mask dt = Ok out → zlen mask < 2 ^ 63 →
  validate_bytes out (zlen mask) dt = Ok tt.
Proof.
  intros Hv He Hb. revert dt out Hv He. induction b as [b|v|data IH inner_mask]; intros [[d|]|inner] out; cbn [validate_bytes expand_to_dense]; try done; intros Hv.
  - cbn [fixed_size data_type_size expect obind]. destruct (dense_fixed_loop _ _ _ _ _ _) as [dense| |] eqn:Hl; [|done..]. cbn [obind]. intros [= <-].
    apply dense_fixed_length in Hl. rewrite length_replicate in Hl. cbn [validate_bytes]. unfold validate_bytes_flen. rewrite Hl.
    rewrite Z2Nat.id by apply wrap64_range. by rewrite Z.eqb_refl.
  - destruct (dense_vlen_loop _ _ _ _ _ _) as [v'| |] eqn:Hl; [|done..]. cbn [obind]. intros [= <-].
    apply (dense_vlen_packs _ _ _ _ []) in Hl as (L & HL & ->). cbn [validate_bytes app]. rewrite <-HL. apply validate_pack. lia.
  - cbn [as_optional ok_or obind]. destruct (expand_to_dense data mask inner) as [dense| |] eqn:Hd; [|done..]. cbn [obind].
    destruct (dense_mask_loop _ _ _ _ _) as [dm| |]; [|done..]. cbn [obind]. intros [= <-]. cbn [validate_bytes]. by apply IH.
Qed.

Lemma create_empty_valid dt mask out : create_empty_dense_data mask dt = Ok out → zlen mask < 2 ^ 63 → validate_bytes out (zlen mask) dt = Ok tt.
Proof.
  intros He Hb. revert out He. induction dt as [[d|]|inner IH]; intros out; cbn [create_empty_dense_data].
  - intros [= <-]. cbn [validate_bytes]. unfold validate_bytes_flen. rewrite length_replicate, Z2Nat.id by apply wrap64_range. by rewrite Z.eqb_refl.
  - intros [= <-]. change (validate_bytes _ _ _) with (validate_bytes (VariableBytes (mk_vlen [] (replicate (S (length mask)) 0))) (zlen mask) (PlainType VariableSize)).
    rewrite <-pack_nils. replace (zlen mask) with (zlen (replicate (length mask) ([] : bytes))) by (by rewrite length_replicate). apply validate_pack. by rewrite length_replicate.
  - destruct (create_empty_dense_data mask inner) as [data| |]; [|done..]. cbn [obind]. intros [= <-]. cbn [validate_bytes]. by apply IH.
Qed.

#[export] Instance optional_validates `{VM : !ValidatingArrayToBytesCodec M, VD : !ValidatingArrayToBytesCodec D} : ValidatingArrayToBytesCodec (OptionalCodecBound M D).
Proof.
  intros c sh options enc b Hc Hsh Hd. cbn in Hd |- *. destruct (a2b_shape_law _ sh (ow_mask _ Hc) (os_mask _ _ Hsh)) as (Hcs & _).
  destruct (chunk_shape_product sh Hcs) as [Hp Hpos]. destruct Hcs as [_ Hlt]. unfold optional_decode in Hd. destruct (zlen enc <? 16); [done|].
  destruct (slice enc 0 8) as [lm| |]; [|done..]. cbn [obind] in Hd. destruct (slice enc 8 16) as [ld| |]; [|done..]. cbn [obind] in Hd.
  destruct (negb _); [done|]. destruct (slice enc 16 _) as [encm| |]; [|done..]. cbn [obind] in Hd.
  destruct (slice enc (16 +w _) _) as [encd| |]; [|done..]. cbn [obind] in Hd.
  destruct (a2b_decode (mask_codecs c) encm sh options) as [bm| |] eqn:Hm; [|done..]. cbn [obind] in Hd.
  pose proof (a2b_decode_valid (mask_codecs c) sh options encm bm (ow_mask _ Hc) (os_mask _ _ Hsh) Hm) as Hvm. rewrite (ow_mask_type _ Hc), Hp in Hvm.
  destruct bm as [mask|v|dm m]; [|done..]. cbn [into_fixed obind] in Hd. cbn [validate_bytes bool_data_type] in Hvm. unfold validate_bytes_flen in Hvm.
  destruct (Z.eqb_spec (zlen mask) (Zprod sh *w 1)) as [Hl|]; [|done]. rewrite Z.mul_1_r, wrap64_small in Hl by (unfold is_u64, u64_modulus; lia).
  rewrite (ow_type _ Hc) in Hd |- *. cbn [as_optional ok_or obind] in Hd. rewrite Hp, <-Hl. pose proof (count_valid_bound mask) as Hcv.
  destruct (Z.ltb_spec 0 (count_valid mask)) as [Hv|Hv].
  - destruct (a2b_decode (data_codecs c) encd _ options) as [sparse| |] eqn:Hs; [|done..]. cbn [obind] in Hd.
    destruct (expand_to_dense sparse mask _) as [dense| |] eqn:He; [|done..]. cbn [obind] in Hd. injection Hd as <-.
    pose proof (a2b_decode_valid (data_codecs c) [count_valid mask] options encd sparse (ow_data _ Hc) (os_data _ _ Hsh (count_valid mask) ltac:(lia)) Hs) as Hvd.
    cbn [validate_bytes]. by eapply expand_valid; [|exact He|lia].
  - destruct (create_empty_dense_data mask _) as [dense| |] eqn:He; [|done..]. cbn [obind] in Hd. injection Hd as <-.
    cbn [validate_bytes]. eapply create_empty_valid; [exact He|lia].
Qed.
End codec.

(** ** Binding *)

Lemma base_fill_zeros dt d f : data_type_size dt = FixedSize d → 0 < d →
  match dt with PlainType _ => zlen f = d | OptionalType _ => is_fill_value_null f = true end → zlen (base_fill dt f) = d.
Proof.
  intros Hd Hpos. revert f Hd. induction dt as [size|inner IH]; intros f Hd Hf; [exact Hf|]. cbn [base_fill data_type_size] in *. apply IH; [done|].
  unfold inner_fill, fixed_size. rewrite Hf, Hd. destruct inner; [rewrite length_replicate; lia|]. unfold is_fill_value_null. apply bool_decide_eq_true.
  replace (Z.to_nat d) with (S (Z.to_nat d - 1)) by lia. by rewrite replicate_S_end, last_snoc.
Qed.

(** The fill value that is made up for the data. *)
Lemma create_fill_ok inner fv : fill_ok (OptionalType inner) fv → fill_ok inner (create_fill_value_for_inner_type inner).
Proof.
  unfold fill_ok. cbn [data_type_size]. destruct (data_type_size inner) as [d|] eqn:Hd; [|done]. intros [Hpos _]. split; [done|].
  apply base_fill_zeros; [done|done|]. unfold create_fill_value_for_inner_type. destruct inner; cbn [is_optional]; [|done]. rewrite Hd, length_replicate. lia.
Qed.

Section binding.
Context {UM UD M D : Type} `{LM : LawfulArrayToBytesCodec M, LD : LawfulArrayToBytesCodec D}.
Context `{!UnboundArrayToBytesCodecTraits UM M, !UnboundArrayToBytesCodecTraits UD D}.
Context `{LUM : !LawfulUnboundArrayToBytesCodec UM M, LUD : !LawfulUnboundArrayToBytesCodec UD D}.

#[export] Program Instance optional_unbound_lawful : LawfulUnboundArrayToBytesCodec (OptionalCodec UM UD) (OptionalCodecBound M D) :=
  {| uc_wf self := uc_wf (uo_mask_codecs self) ∧ uc_wf (uo_data_codecs self) |}.
Next Obligation.
  intros u dt fv c [Hum Hud] Hf. cbn. unfold optional_with_context. destruct dt as [size|inner]; [done|].
  destruct (uc_with_context (uo_mask_codecs u) _ _) as [m| |] eqn:Hm; [|done..]. cbn [obind].
  destruct (uc_with_context (uo_data_codecs u) _ _) as [d| |] eqn:Hd; [|done..]. cbn [obind]. intros [= <-].
  destruct (uc_law _ _ _ _ Hum (ltac:(done) : fill_ok bool_data_type bool_false) Hm) as (Hwm & Htm & _ & _ & _).
  destruct (uc_law _ _ _ _ Hud (create_fill_ok inner fv Hf) Hd) as (Hwd & Htd & _ & _ & _).
  split_and!; [|done..|cbn; lia]. split; cbn; [by rewrite Htd|done..].
Qed.
End binding.
