(* ===== verification/OptionalTheorems.v ===== *)
(** What the optional codec keeps. *)

From S2P Require Import Prelude ArraySubset Linear Iterators ByteRange StoreKey Storage ArrayBytes.
From S2P Require Import Elements StoreProgram DecodeInto Concurrency Codec BytesCodec CodecChain ChainTheorems Sharding ShardPlacement.
From S2P Require Import OptionalCodec OptionalLaws.

Section theorems.
Context {M D : Type} `{LM : LawfulArrayToBytesCodec M, LD : LawfulArrayToBytesCodec D}.

(** C32: for any lawful codecs of the mask and of the data, encoding optional elements gives bytes within the announced representation, and
    decoding these gives the same mask and, under it, the elements that are present; the absent ones come back as zeros, as
    empty elements, or as absent at every level of nesting. *)
Theorem optional_roundtrip (c : OptionalCodecBound M D) (sh : list Z) options (dense : ArrayBytes) (mask : list Z) (U : list element) :
  optional_wf c → optional_shape_ok c sh → holds dense (a2b_data_type (data_codecs c)) U → zlen U = Zprod sh → zlen mask = Zprod sh →
  array_bytes_size dense < sparse_limit c sh →
  ∃ enc rep dense', optional_encode c (OptionalBytes dense mask) sh options = Ok enc ∧
    optional_encoded_representation c sh = Ok rep ∧ rep_admits rep (zlen enc) ∧
    (∀ options', optional_decode c enc sh options' = Ok (OptionalBytes dense' mask)) ∧
    holds dense' (a2b_data_type (data_codecs c)) (restored (a2b_data_type (data_codecs c)) mask U) ∧
    array_bytes_size dense' <= array_bytes_size dense.
Proof.
  intros Hc Hsh [(E & HE & <-) _] HU Hm Hb. rewrite length_fmap in HU. assert (length mask = length E) as Hl by lia.
  pose proof (a2b_shape_law _ sh (ow_mask _ Hc) (os_mask _ _ Hsh)) as ([_ Hlt] & _).
  destruct (optional_roundtrip_ok c sh options dense mask E Hc Hsh HE Hl Hm Hb)
    as (encm & encd & dense' & C & He & Hlm & Hld & (repm & Hrm & Ham) & (repd & Hrd & Had) & Henc & Hr & Hp & HC & Hs).
  destruct (optional_representation_ok c sh encm encd repm repd Hrm Ham Hrd Had) as (rep & Hrep & Hadm).
  pose proof (os_encoded_limit _ _ Hsh) as Hel. eexists _, rep, dense'. split_and!; [exact He|done| | | |done].
  - rewrite !length_app, !length_u64_le. replace (Z.of_nat _) with (16 + zlen encm + zlen encd) by lia. done.
  - intros options'. eapply optional_decode_ok; [done|done|exact Henc|]. rewrite !length_app, !length_u64_le. lia.
  - rewrite <-HC. by apply packed_holds.
Qed.
End theorems.

(** A header whose lengths overflow passes the check of the length of the bytes, and the slice of the mask panics. *)
Lemma optional_header_overflow {M D : Type} `{!ArrayToBytesCodecTraits M, !ArrayToBytesCodecTraits D} (c : OptionalCodecBound M D) sh options :
  optional_decode c (u64_to_le_bytes (2 ^ 64 - 16) ++ u64_to_le_bytes 16) sh options = Panic.
Proof. reflexivity. Qed.

(** ** A small codec, for the witness

    Four optional 16-bit elements, of which the first and the third are present. *)
#[local] Instance optional_target : Target := Little.

Definition example_optional : OptionalCodecBound BytesCodecBound BytesCodecBound :=
  mk_optional_codec (mk_bytes_codec None bool_data_type bool_false 1) (mk_bytes_codec (Some Big) (PlainType (FixedSize 2)) [0; 0] 2)
    (OptionalType (PlainType (FixedSize 2))) [0].

Lemma example_optional_shape : optional_shape_ok example_optional [2; 2].
Proof.
  split; [split; [split; [by repeat constructor|done]|done]| |reflexivity|reflexivity|].
  - intros k Hk. change (Zprod [2; 2]) with 4 in Hk. assert (k = 1 ∨ k = 2 ∨ k = 3 ∨ k = 4) as [->|[->|[->| ->]]] by lia; split; (split; [by repeat constructor|done]) || done.
  - exists (BytesFixedSize 8). split; [reflexivity|]. intros s [= <-]. split; [done|]. intros k b S options enc Hk Hh HS He.
    change (Zprod [2; 2]) with 4 in Hk.
    destruct (a2b_roundtrip (data_codecs example_optional) [k] options b S) as (enc' & _ & rep & He' & _ & Hrep & Hadm & _).
    + eexists. constructor; cbn; done || by right.
    + assert (k = 1 ∨ k = 2 ∨ k = 3 ∨ k = 4) as [->|[->|[->| ->]]] by lia; split; (split; [by repeat constructor|done]) || done.
    + exact Hh.
    + rewrite HS. by rewrite Zprod_cons, Zprod_nil, Z.mul_1_r.
    + apply holds_fixed in Hh as (L & -> & -> & HL & Hb). cbn [array_bytes_size]. rewrite (fixed_elements_length 2) by done.
      rewrite length_fmap in HS. change (a2b_limit _ _) with (2 ^ 63). lia.
    + rewrite He in He'. injection He' as <-. assert (k = 1 ∨ k = 2 ∨ k = 3 ∨ k = 4) as [->|[->|[->| ->]]] by lia; vm_compute in Hrep; injection Hrep as <-; cbn [rep_admits] in Hadm; lia.
Qed.

Lemma optional_roundtrip_witness :
  optional_encode example_optional (OptionalBytes (FixedBytes [1; 2; 9; 9; 3; 4; 9; 9]) [1; 0; 1; 0]) [2; 2] (CodecOptions_default 1) =
    Ok (u64_to_le_bytes 4 ++ u64_to_le_bytes 4 ++ [1; 0; 1; 0] ++ [2; 1; 4; 3]) ∧
  optional_decode example_optional (u64_to_le_bytes 4 ++ u64_to_le_bytes 4 ++ [1; 0; 1; 0] ++ [2; 1; 4; 3]) [2; 2] (CodecOptions_default 1) =
    Ok (OptionalBytes (FixedBytes [1; 2; 0; 0; 3; 4; 0; 0]) [1; 0; 1; 0]) ∧
  ∃ enc rep, optional_encode example_optional (OptionalBytes (FixedBytes [1; 2; 9; 9; 3; 4; 9; 9]) [1; 0; 1; 0]) [2; 2] (CodecOptions_default 1) = Ok enc ∧
    optional_encoded_representation example_optional [2; 2] = Ok rep ∧ rep_admits rep (zlen enc).
Proof.
  split; [vm_compute; reflexivity|]. split; [vm_compute; reflexivity|].
  destruct (optional_roundtrip example_optional [2; 2] (CodecOptions_default 1) (FixedBytes [1; 2; 9; 9; 3; 4; 9; 9]) [1; 0; 1; 0]
    (Value <$> [[1; 2]; [9; 9]; [3; 4]; [9; 9]])) as (enc & rep & dense' & He & Hr & Ha & _).
  - split; [reflexivity| |reflexivity| |done]; eexists; constructor; cbn; done || (by right) || (by left).
  - exact example_optional_shape.
  - apply holds_fixed. exists [[1; 2]; [9; 9]; [3; 4]; [9; 9]]. split_and!; [done|done|split; [done|by repeat constructor]|done].
  - reflexivity.
  - reflexivity.
  - vm_compute. reflexivity.
  - exists enc, rep. split; [exact He|]. split; [exact Hr|exact Ha].
Defined.
