(* ===== verification/ChunkCache.v ===== *)
(** Chunk caches: [zarrs/src/array/chunk_cache.rs] and the thread-local caches of
    [chunk_cache_lru_moka.rs].

    [ChunkCache] is the trait of a cache, and [LawfulChunkCache] what a cache promises: what it returns is
    what was inserted for the chunk and has not been invalidated since.  It promises nothing on how
    long a chunk stays.  The thread-local caches are made from the least recently used cache of the external crate
    [lru], which enters as a class of operations with laws. *)

From S2P Require Import Prelude ArraySubset Iterators StoreKey Storage StoreProgram DecodeInto ArrayOps.

(** ** Operations on a cache and a store

    The state is passed explicitly: unlike that of a program, the state of the cache
    outlives an error. *)
Definition cop (κ S E A : Type) : Type := κ * S → (κ * S) * outcome E A.

Definition creturn {κ S E A} (a : A) : cop κ S E A := λ st, (st, Ok a).
Definition clift {κ S E A} (x : outcome E A) : cop κ S E A := λ st, (st, x).

Definition cbind {κ S E A B} (m : cop κ S E A) (k : A → cop κ S E B) : cop κ S E B :=
  λ st, match m st with
    | (st, Ok a) => k a st
    | (st, Err e) => (st, Err e)
    | (st, Panic) => (st, Panic)
    end.

Notation "'let&' x ':=' m 'in' k" := (cbind m (λ x, k)) (at level 10, x pattern, m at level 100, k at level 200).

(** An operation on the cache alone. *)
Definition ccache {κ S E A} (m : κ → κ * A) : cop κ S E A := λ '(c, s), let '(c, a) := m c in ((c, s), Ok a).

(** An operation on the store alone. *)
Definition cstore {κ S E A} `{!ReadableStorageTraits S, !WritableStorageTraits S} (p : prog E A) : cop κ S E A :=
  λ '(c, s), let '(s, x) := run p s in ((c, s), x).

Definition cmap_err {κ S E F A} (f : E → F) (m : cop κ S E A) : cop κ S F A := λ st, let '(st, x) := m st in (st, map_err f x).

Fixpoint ctry_fold {κ S E T A} (f : T → A → cop κ S E T) (t : T) (l : list A) : cop κ S E T :=
  match l with
  | [] => creturn t
  | a :: l => let& t := f t a in ctry_fold f t l
  end.

Fixpoint ctry_map {κ S E A B} (f : A → cop κ S E B) (l : list A) : cop κ S E (list B) :=
  match l with
  | [] => creturn []
  | a :: l => let& b := f a in let& bs := ctry_map f l in creturn (b :: bs)
  end.

(** ** The trait

    [try_get_or_insert_with] runs its closure, an operation on the store, on a miss.  The error that it shares
    with the threads waiting for the same chunk is not shared in a serial run. *)
Class ChunkCache (V κ : Type) := {
  try_get_or_insert_with {S : Type} : list Z → (S → S * outcome ArrayError V) → cop κ S ArrayError V;
  invalidate : κ → κ * Z;
  invalidate_chunk : list Z → κ → κ * bool;
  cache_len : κ → κ * Z;
}.

Section provided.
Context {V κ : Type} `{!ChunkCache V κ}.

Fixpoint invalidate_loop (invalidated : Z) (chunks : list (list Z)) (c : κ) : κ * Z :=
  match chunks with
  | [] => (c, invalidated)
  | chunk_indices :: chunks =>
      let '(c, removed) := invalidate_chunk chunk_indices c in
      invalidate_loop (invalidated +w Z.b2z removed) chunks c
  end.

Definition invalidate_chunks {S E} (chunks : ArraySubset) : cop κ S E Z :=
  let& indices := clift (indices chunks) in ccache (invalidate_loop 0 indices).

Definition cache_is_empty (c : κ) : κ * bool := let '(c, n) := cache_len c in (c, n =? 0).
End provided.

(** What a cache holds, seen as a map. *)
Class LawfulChunkCache (V κ : Type) `{!ChunkCache V κ} := {
  cache_wf : κ → Prop;
  cache_abs : κ → gmap (list Z) V;
  cache_get_law {S : Type} k (f : S → S * outcome ArrayError V) c s : cache_wf c →
    match cache_abs c !! k with
    | Some v => ∃ c', try_get_or_insert_with k f (c, s) = ((c', s), Ok v) ∧ cache_wf c' ∧ cache_abs c' ⊆ cache_abs c
    | None =>
        ∃ c', try_get_or_insert_with k f (c, s) = ((c', (f s).1), (f s).2) ∧ cache_wf c' ∧
        match (f s).2 with
        | Ok v => cache_abs c' ⊆ <[k := v]> (cache_abs c)
        | _ => cache_abs c' ⊆ cache_abs c
        end
    end;
  cache_invalidate_law c : cache_wf c → cache_wf (invalidate c).1 ∧ cache_abs (invalidate c).1 = ∅;
  cache_invalidate_chunk_law k c : cache_wf c →
    cache_wf (invalidate_chunk k c).1 ∧ cache_abs (invalidate_chunk k c).1 ⊆ delete k (cache_abs c) ∧
    (invalidate_chunk k c).2 = bool_decide (is_Some (cache_abs c !! k));
  cache_len_law c : cache_wf c → cache_wf (cache_len c).1 ∧ cache_abs (cache_len c).1 ⊆ cache_abs c ∧
    (cache_len c).2 = Z.of_nat (size (cache_abs (cache_len c).1));
}.

(** ** The [lru] crate *)

Class LruOps (L V : Type) := {
  lru_new : Z → L;
  lru_unbounded : L;
  lru_len : L → Z;
  lru_get : L → list Z → L * option V;
  lru_push : L → list Z → V → L * option (list Z * V);
  lru_pop : L → list Z → L * option V;
  lru_pop_lru : L → L * option (list Z * V);
  lru_clear : L → L;
}.

Section entries.
Context {V : Type}.

Definition entry_get (k : list Z) (l : list (list Z * V)) : option V := snd <$> find (λ e, bool_decide (e.1 = k)) l.
Definition entry_remove (k : list Z) (l : list (list Z * V)) : list (list Z * V) := filter (λ e, e.1 ≠ k) l.
End entries.

(** The documented behaviour: the entries from the most to the least recently used, up to the
    capacity. *)
Class LawfulLru (L V : Type) `{!LruOps L V} := {
  lru_wf : L → Prop;
  lru_entries : L → list (list Z * V);
  lru_cap : L → option Z;
  lru_wf_law c : lru_wf c → NoDup (lru_entries c).*1 ∧ (∀ n, lru_cap c = Some n → 1 <= n ∧ zlen (lru_entries c) <= n);
  lru_new_law n : 1 <= n → lru_wf (lru_new n) ∧ lru_entries (lru_new n) = [] ∧ lru_cap (lru_new n) = Some n;
  lru_unbounded_law : lru_wf lru_unbounded ∧ lru_entries lru_unbounded = [] ∧ lru_cap lru_unbounded = None;
  lru_len_law c : lru_wf c → lru_len c = zlen (lru_entries c);
  lru_get_law c k : lru_wf c → lru_wf (lru_get c k).1 ∧ lru_cap (lru_get c k).1 = lru_cap c ∧
    (lru_get c k).2 = entry_get k (lru_entries c) ∧
    lru_entries (lru_get c k).1 =
      match entry_get k (lru_entries c) with Some v => (k, v) :: entry_remove k (lru_entries c) | None => lru_entries c end;
  lru_push_law c k v : lru_wf c → lru_wf (lru_push c k v).1 ∧ lru_cap (lru_push c k v).1 = lru_cap c ∧
    match entry_get k (lru_entries c) with
    | Some old => (lru_push c k v).2 = Some (k, old) ∧ lru_entries (lru_push c k v).1 = (k, v) :: entry_remove k (lru_entries c)
    | None =>
        if bool_decide (lru_cap c = Some (zlen (lru_entries c)))
        then (lru_push c k v).2 = last (lru_entries c) ∧ lru_entries (lru_push c k v).1 = (k, v) :: removelast (lru_entries c)
        else (lru_push c k v).2 = None ∧ lru_entries (lru_push c k v).1 = (k, v) :: lru_entries c
    end;
  lru_pop_law c k : lru_wf c → lru_wf (lru_pop c k).1 ∧ lru_cap (lru_pop c k).1 = lru_cap c ∧
    (lru_pop c k).2 = entry_get k (lru_entries c) ∧ lru_entries (lru_pop c k).1 = entry_remove k (lru_entries c);
  lru_pop_lru_law c : lru_wf c → lru_wf (lru_pop_lru c).1 ∧ lru_cap (lru_pop_lru c).1 = lru_cap c ∧
    (lru_pop_lru c).2 = last (lru_entries c) ∧ lru_entries (lru_pop_lru c).1 = removelast (lru_entries c);
  lru_clear_law c : lru_wf c → lru_wf (lru_clear c) ∧ lru_cap (lru_clear c) = lru_cap c ∧ lru_entries (lru_clear c) = [];
}.

(** ** The thread-local caches

    [ThreadLocal] holds a value per thread, made when the thread first asks for it; the operations below are those of the
    thread [thread].  The mutex around a cache is never contended. *)
Section thread_local.
Context {V L : Type} `{!LruOps L V}.

(** [ThreadLocalCacheChunkLimit]. *)
Record ThreadLocalCacheChunkLimit := mk_chunk_limit {
  chunk_limit_cache : gmap nat L;
  chunk_limit_capacity : Z;
}.

Definition ThreadLocalCacheChunkLimit_new (capacity : Z) : ThreadLocalCacheChunkLimit := mk_chunk_limit ∅ capacity.

Definition chunk_limit_get (thread : nat) (self : ThreadLocalCacheChunkLimit) : L :=
  default (lru_new (Z.max (chunk_limit_capacity self) 1)) (chunk_limit_cache self !! thread).

Definition chunk_limit_set (thread : nat) (cache : L) (self : ThreadLocalCacheChunkLimit) : ThreadLocalCacheChunkLimit :=
  mk_chunk_limit (<[thread := cache]> (chunk_limit_cache self)) (chunk_limit_capacity self).

Definition chunk_limit_try_get {S} (thread : nat) (chunk_indices : list Z) (f : S → S * outcome ArrayError V)
    : cop ThreadLocalCacheChunkLimit S ArrayError V := λ '(self, s),
  let '(cache, hit) := lru_get (chunk_limit_get thread self) chunk_indices in
  match hit with
  | Some value => ((chunk_limit_set thread cache self, s), Ok value)
  | None =>
      match f s with
      | (s, Ok value) =>
          let '(cache, _) := lru_push cache chunk_indices value in
          ((chunk_limit_set thread cache self, s), Ok value)
      | (s, Err e) => ((chunk_limit_set thread cache self, s), Err e)
      | (s, Panic) => ((chunk_limit_set thread cache self, s), Panic)
      end
  end.

Definition chunk_limit_remove (thread : nat) (chunk_indices : list Z) (self : ThreadLocalCacheChunkLimit)
    : ThreadLocalCacheChunkLimit * bool :=
  let '(cache, removed) := lru_pop (chunk_limit_get thread self) chunk_indices in
  (chunk_limit_set thread cache self, bool_decide (is_Some removed)).

Definition chunk_limit_clear (thread : nat) (self : ThreadLocalCacheChunkLimit) : ThreadLocalCacheChunkLimit * Z :=
  let cache := chunk_limit_get thread self in
  let count := lru_len cache in
  (chunk_limit_set thread (lru_clear cache) self, count).

Definition chunk_limit_len (thread : nat) (self : ThreadLocalCacheChunkLimit) : ThreadLocalCacheChunkLimit * Z :=
  let cache := chunk_limit_get thread self in (chunk_limit_set thread cache self, lru_len cache).

(** [ThreadLocalCacheSizeLimit]; [chunk_size] is the [size] of a value, [size] an atomic [usize] per thread. *)
Context (chunk_size : V → Z).

Record ThreadLocalCacheSizeLimit := mk_size_limit {
  size_limit_cache : gmap nat L;
  size_limit_capacity : Z;
  size_limit_size : gmap nat Z;
}.

Definition ThreadLocalCacheSizeLimit_new (capacity : Z) : ThreadLocalCacheSizeLimit := mk_size_limit ∅ capacity ∅.

Definition size_limit_get (thread : nat) (self : ThreadLocalCacheSizeLimit) : L :=
  default lru_unbounded (size_limit_cache self !! thread).

Definition size_limit_held (thread : nat) (self : ThreadLocalCacheSizeLimit) : Z := default 0 (size_limit_size self !! thread).

Definition size_limit_set (thread : nat) (cache : L) (size : Z) (self : ThreadLocalCacheSizeLimit) : ThreadLocalCacheSizeLimit :=
  mk_size_limit (<[thread := cache]> (size_limit_cache self)) (size_limit_capacity self) (<[thread := size]> (size_limit_size self)).

(** The size after an entry is gone. *)
Definition size_less (size : Z) (old : option (list Z * V)) : Z :=
  match old with Some old => size -w chunk_size old.2 | None => size end.

Definition size_limit_try_get {S} (thread : nat) (chunk_indices : list Z) (f : S → S * outcome ArrayError V)
    : cop ThreadLocalCacheSizeLimit S ArrayError V := λ '(self, s),
  let '(cache, hit) := lru_get (size_limit_get thread self) chunk_indices in
  let size_old := size_limit_held thread self in
  match hit with
  | Some value => ((size_limit_set thread cache size_old self, s), Ok value)
  | None =>
      match f s with
      | (s, Ok chunk) =>
          let size := size_old +w chunk_size chunk in
          let '(cache, size) :=
            if size_limit_capacity self <? size_old +w chunk_size chunk
            then let '(cache, old) := lru_pop_lru cache in (cache, size_less size old)
            else (cache, size) in
          let '(cache, old) := lru_push cache chunk_indices chunk in
          ((size_limit_set thread cache (size_less size old) self, s), Ok chunk)
      | (s, Err e) => ((size_limit_set thread cache size_old self, s), Err e)
      | (s, Panic) => ((size_limit_set thread cache size_old self, s), Panic)
      end
  end.

Definition size_limit_remove (thread : nat) (chunk_indices : list Z) (self : ThreadLocalCacheSizeLimit)
    : ThreadLocalCacheSizeLimit * bool :=
  let '(cache, removed) := lru_pop (size_limit_get thread self) chunk_indices in
  match removed with
  | Some chunk => (size_limit_set thread cache (size_limit_held thread self -w chunk_size chunk) self, true)
  | None => (size_limit_set thread cache (size_limit_held thread self) self, false)
  end.

Definition size_limit_clear (thread : nat) (self : ThreadLocalCacheSizeLimit) : ThreadLocalCacheSizeLimit * Z :=
  let cache := size_limit_get thread self in
  let count := lru_len cache in
  (size_limit_set thread (lru_clear cache) 0 self, count).

Definition size_limit_len (thread : nat) (self : ThreadLocalCacheSizeLimit) : ThreadLocalCacheSizeLimit * Z :=
  let cache := size_limit_get thread self in (size_limit_set thread cache (size_limit_held thread self) self, lru_len cache).

#[local] Instance chunk_limit_traits (thread : nat) : ChunkCache V ThreadLocalCacheChunkLimit := {|
  try_get_or_insert_with S := chunk_limit_try_get thread;
  invalidate := chunk_limit_clear thread;
  invalidate_chunk := chunk_limit_remove thread;
  cache_len := chunk_limit_len thread |}.

#[local] Instance size_limit_traits (thread : nat) : ChunkCache V ThreadLocalCacheSizeLimit := {|
  try_get_or_insert_with S := size_limit_try_get thread;
  invalidate := size_limit_clear thread;
  invalidate_chunk := size_limit_remove thread;
  cache_len := size_limit_len thread |}.
End thread_local.

#[global] Arguments ThreadLocalCacheChunkLimit : clear implicits.
#[global] Arguments ThreadLocalCacheSizeLimit : clear implicits.
