(* ===== verification/ChunkCacheSpec.v ===== *)
(** The thread-local caches keep the promise of a cache, and what they hold.

    The entries of the cache of a thread are a map from chunks to values.  The cache with a
    limit on chunks holds no more chunks than the limit, or one; the cache with a limit on the size counts
    the size of what it holds, and lets go of one chunk when it inserts one. *)

From S2P Require Import Prelude StoreKey Storage StoreProgram ArrayOps ChunkCache.

(** ** Entries as a map *)
Section entries.
Context {V : Type}.

Definition entry_map (l : list (list Z * V)) : gmap (list Z) V := list_to_map l.

Lemma entry_get_map k l : entry_get k l = entry_map l !! k.
Proof.
  unfold entry_get, entry_map. induction l as [|[j v] l IH]; [done|]. cbn [find fst snd list_to_map foldr]. case_bool_decide as Hj.
  - subst j. simpl. by rewrite lookup_insert_eq.
  - rewrite IH. simpl. by rewrite lookup_insert_ne.
Qed.

Lemma entry_remove_map k l : entry_map (entry_remove k l) = delete k (entry_map l).
Proof.
  unfold entry_remove, entry_map. induction l as [|[j v] l IH]; [simpl; by rewrite delete_empty|].
  rewrite filter_cons. cbn [fst]. case_decide as Hj.
  - cbn [list_to_map foldr fst snd]. simpl. rewrite delete_insert_ne by done. by f_equal.
  - subst j. simpl. by rewrite delete_insert_eq.
Qed.

Lemma entry_get_elem k (v : V) (l : list (list Z * V)) : NoDup l.*1 → entry_get k l = Some v ↔ (k, v) ∈ l.
Proof. intros Hl. rewrite entry_get_map. symmetry. by apply elem_of_list_to_map. Qed.

Lemma entry_sublist (l l' : list (list Z * V)) : NoDup l'.*1 → l `sublist_of` l' → NoDup l.*1 ∧ entry_map l ⊆ entry_map l'.
Proof.
  intros Hnd Hs. assert (NoDup l.*1) as Hl by (eapply sublist_NoDup; [exact Hnd|by apply fmap_sublist]). split; [done|].
  apply map_subseteq_spec. intros k v. rewrite <-!entry_get_map, !entry_get_elem by done. intros He. by eapply elem_of_sublist.
Qed.

Lemma removelast_sublist {A} (l : list A) : removelast l `sublist_of` l.
Proof.
  destruct (last l) as [x|] eqn:Hl.
  - apply last_Some in Hl as [l' ->]. rewrite removelast_last. by apply sublist_inserts_r.
  - apply last_None in Hl as ->. done.
Qed.

Lemma entry_remove_sublist k (l : list (list Z * V)) : entry_remove k l `sublist_of` l.
Proof. apply sublist_filter. Qed.

Lemma entry_remove_none k (l : list (list Z * V)) : entry_get k l = None → entry_remove k l = l.
Proof.
  unfold entry_get, entry_remove. induction l as [|[j v] l IH]; [done|]. cbn [find fst]. rewrite filter_cons. cbn [fst].
  case_bool_decide as Hj; [done|]. intros Hn. rewrite decide_True by done. by rewrite IH.
Qed.

(** Moving an entry to the front. *)
Lemma entry_front k (v : V) (l : list (list Z * V)) : NoDup l.*1 → entry_get k l = Some v → (k, v) :: entry_remove k l ≡ₚ l.
Proof.
  induction l as [|[j w] l IH]; [done|]. rewrite fmap_cons. intros [Hn Hnd]%NoDup_cons. unfold entry_get, entry_remove. cbn [find fst]. rewrite filter_cons.
  cbn [fst] in *. case_bool_decide as Hj.
  - subst j. intros [= ->]. rewrite decide_False by tauto. f_equiv. apply reflexive_eq, entry_remove_none.
    destruct (entry_get k l) as [x|] eqn:Hx; [|done]. apply entry_get_elem in Hx; [|done]. destruct Hn. by apply (list_elem_of_fmap_2 fst) in Hx.
  - intros Hk. rewrite decide_True by done. rewrite Permutation_swap. f_equiv. by apply IH.
Qed.

Lemma entry_front_map k (v : V) (l : list (list Z * V)) : NoDup l.*1 → entry_get k l = Some v → entry_map ((k, v) :: entry_remove k l) = entry_map l.
Proof. intros Hnd Hk. pose proof (entry_front k v l Hnd Hk) as Hp. apply list_to_map_proper; [|done]. by rewrite Hp. Qed.

Lemma entry_size (l : list (list Z * V)) : NoDup l.*1 → zlen l = Z.of_nat (size (entry_map l)).
Proof. intros Hnd. unfold entry_map. by rewrite map_size_list_to_map. Qed.
End entries.

(** ** A cache of a thread *)
Section thread_local.
Context {V L : Type} `{LawfulLru L V}.

Abbreviation entries_of c := (lru_entries (V:=V) c).

(** A hit keeps the map, and the entries but for their order. *)
Lemma lru_get_hit (c : L) k v : lru_wf c → entry_map (entries_of c) !! k = Some v →
  (lru_get c k).2 = Some v ∧ entry_map (entries_of (lru_get c k).1) = entry_map (entries_of c) ∧
  entries_of (lru_get c k).1 ≡ₚ entries_of c.
Proof.
  intros Hc Hk. rewrite <-entry_get_map in Hk. destruct (lru_get_law c k Hc) as (_ & _ & Hr & He). destruct (lru_wf_law c Hc) as [Hnd _].
  rewrite Hk in Hr, He. rewrite He. split_and!; [done|by apply entry_front_map|by apply entry_front].
Qed.

Lemma lru_get_miss (c : L) k : lru_wf c → entry_map (entries_of c) !! k = None →
  (lru_get c k).2 = None ∧ entries_of (lru_get c k).1 = entries_of c.
Proof.
  intros Hc Hk. rewrite <-entry_get_map in Hk. destruct (lru_get_law c k Hc) as (_ & _ & Hr & He). rewrite Hk in Hr, He. done.
Qed.

(** An insertion adds the chunk, and may evict another. *)
Lemma lru_push_map (c : L) k v : lru_wf c → entry_map (entries_of c) !! k = None →
  entry_map (entries_of (lru_push c k v).1) ⊆ <[k := v]> (entry_map (entries_of c)).
Proof.
  intros Hc Hk. rewrite <-entry_get_map in Hk. destruct (lru_push_law c k v Hc) as (_ & _ & He). destruct (lru_wf_law c Hc) as [Hnd _].
  rewrite Hk in He. case_bool_decide; destruct He as [_ ->]; [|done].
  apply (insert_mono (entry_map (removelast (entries_of c)))). apply entry_sublist; [done|apply removelast_sublist].
Qed.

Lemma lru_pop_map (c : L) k : lru_wf c →
  entry_map (entries_of (lru_pop c k).1) = delete k (entry_map (entries_of c)) ∧ (lru_pop c k).2 = entry_map (entries_of c) !! k.
Proof. intros Hc. destruct (lru_pop_law c k Hc) as (_ & _ & -> & ->). by rewrite entry_remove_map, entry_get_map. Qed.

Lemma lru_clear_map (c : L) : lru_wf c → entry_map (entries_of (lru_clear c)) = ∅.
Proof. intros Hc. by destruct (lru_clear_law c Hc) as (_ & _ & ->). Qed.

Lemma lru_len_map (c : L) : lru_wf c → lru_len c = Z.of_nat (size (entry_map (entries_of c))).
Proof. intros Hc. rewrite (lru_len_law c Hc). apply entry_size. by apply lru_wf_law. Qed.

(** *** The limit on chunks *)

Definition chunk_limit_wf (self : ThreadLocalCacheChunkLimit L) : Prop :=
  ∀ t c, chunk_limit_cache self !! t = Some c → lru_wf c ∧ lru_cap c = Some (Z.max (chunk_limit_capacity self) 1).

Definition chunk_limit_abs (thread : nat) (self : ThreadLocalCacheChunkLimit L) : gmap (list Z) V :=
  entry_map (entries_of (chunk_limit_get thread self)).

Lemma chunk_limit_get_wf thread self : chunk_limit_wf self →
  lru_wf (chunk_limit_get thread self) ∧ lru_cap (chunk_limit_get thread self) = Some (Z.max (chunk_limit_capacity self) 1).
Proof.
  intros Hw. unfold chunk_limit_get. destruct (chunk_limit_cache self !! thread) as [c|] eqn:Hc; [by eapply Hw|].
  destruct (lru_new_law (Z.max (chunk_limit_capacity self) 1)) as (? & _ & ?); [lia|done].
Qed.

Lemma chunk_limit_set_wf thread self c : chunk_limit_wf self → lru_wf c → lru_cap c = Some (Z.max (chunk_limit_capacity self) 1) →
  chunk_limit_wf (chunk_limit_set thread c self).
Proof. intros Hw Hc Hn t d. cbn. rewrite lookup_insert_Some. intros [[_ <-]|[_ Hd]]; [done|by eapply Hw]. Qed.

Lemma chunk_limit_get_set thread self c : chunk_limit_get thread (chunk_limit_set thread c self) = c.
Proof. unfold chunk_limit_get. cbn. by rewrite lookup_insert_eq. Qed.

#[export] Instance chunk_limit_lawful (thread : nat) :
  LawfulChunkCache V (ThreadLocalCacheChunkLimit L) (ChunkCache0 := chunk_limit_traits thread).
Proof.
  refine {| cache_wf := chunk_limit_wf; cache_abs := chunk_limit_abs thread |}.
  - intros S k f c s Hw. destruct (chunk_limit_get_wf thread c Hw) as [Hg Hcap]. unfold chunk_limit_abs.
    cbn [try_get_or_insert_with chunk_limit_traits]. unfold chunk_limit_try_get.
    destruct (lru_get_law (chunk_limit_get thread c) k Hg) as (Hg1 & Hcap1 & _).
    destruct (entry_map _ !! k) as [v|] eqn:Hk.
    + destruct (lru_get_hit _ k v Hg Hk) as (Hr & Hm & _). destruct (lru_get _ k) as [c1 r]. cbn [fst snd] in *. subst r.
      eexists. split; [done|]. rewrite chunk_limit_get_set, Hm. split; [|done]. apply chunk_limit_set_wf; [done..|congruence].
    + destruct (lru_get_miss _ k Hg Hk) as (Hr & He). destruct (lru_get _ k) as [c1 r]. cbn [fst snd] in *. subst r.
      assert (chunk_limit_wf (chunk_limit_set thread c1 c)) as Hw1 by (apply chunk_limit_set_wf; [done..|congruence]).
      destruct (f s) as [s' [v|e|]]; cbn [fst snd].
      * assert (entry_map (entries_of c1) !! k = None) as Hk1 by by rewrite He.
        destruct (lru_push_law c1 k v Hg1) as (Hg2 & Hcap2 & _). pose proof (lru_push_map c1 k v Hg1 Hk1) as Hp.
        destruct (lru_push c1 k v) as [c2 o]. cbn [fst snd] in *. eexists. split; [done|]. rewrite chunk_limit_get_set. split; [|by rewrite <-He].
        apply chunk_limit_set_wf; [done..|congruence].
      * eexists. split; [done|]. by rewrite chunk_limit_get_set, He.
      * eexists. split; [done|]. by rewrite chunk_limit_get_set, He.
  - intros c Hw. destruct (chunk_limit_get_wf thread c Hw) as [Hg Hcap]. cbn [invalidate chunk_limit_traits]. unfold chunk_limit_clear, chunk_limit_abs. cbn [fst].
    destruct (lru_clear_law _ Hg) as (? & ? & _). rewrite chunk_limit_get_set, lru_clear_map by done. split; [|done]. apply chunk_limit_set_wf; [done..|congruence].
  - intros k c Hw. destruct (chunk_limit_get_wf thread c Hw) as [Hg Hcap]. cbn [invalidate_chunk chunk_limit_traits]. unfold chunk_limit_remove, chunk_limit_abs.
    destruct (lru_pop_law _ k Hg) as (? & ? & _). destruct (lru_pop_map _ k Hg) as [Hm Hr]. destruct (lru_pop _ k) as [c1 r]. cbn [fst snd] in *.
    rewrite chunk_limit_get_set, Hm, Hr. split_and!; [|done..]. apply chunk_limit_set_wf; [done..|congruence].
  - intros c Hw. destruct (chunk_limit_get_wf thread c Hw) as [Hg Hcap]. cbn [cache_len chunk_limit_traits]. unfold chunk_limit_len, chunk_limit_abs. cbn [fst snd].
    rewrite chunk_limit_get_set. split_and!; [by apply chunk_limit_set_wf|done|by apply lru_len_map].
Defined.

(** *** The limit on the size *)
Context (chunk_size : V → Z).

Definition entries_size (l : list (list Z * V)) : Z := Zsum ((λ e, chunk_size e.2) <$> l).

Lemma entries_size_cons k v l : entries_size ((k, v) :: l) = chunk_size v + entries_size l.
Proof. done. Qed.

Lemma entries_size_perm l l' : l ≡ₚ l' → entries_size l = entries_size l'.
Proof. intros Hp. unfold entries_size. apply Zsum_Permutation. by rewrite Hp. Qed.

(** The size after the least recently used entry is gone. *)
Lemma size_less_last (l : list (list Z * V)) n :
  size_less chunk_size (wrap64 (entries_size l + n)) (last l) = wrap64 (entries_size (removelast l) + n).
Proof.
  destruct (last l) as [[k v]|] eqn:Hl.
  - apply last_Some in Hl as [l' ->]. rewrite removelast_last. unfold size_less, entries_size. cbn [snd].
    rewrite fmap_app, Zsum_app. cbn [fmap list_fmap]. rewrite Zsum_cons. unfold wrap64. rewrite Zminus_mod_idemp_l. f_equal. unfold Zsum. simpl. lia.
  - apply last_None in Hl as ->. done.
Qed.

Definition size_limit_wf (self : ThreadLocalCacheSizeLimit L) : Prop :=
  (∀ t c, size_limit_cache self !! t = Some c → lru_wf c ∧ lru_cap c = None) ∧
  ∀ t, size_limit_held t self = wrap64 (entries_size (entries_of (size_limit_get t self))).

Definition size_limit_entries (thread : nat) (self : ThreadLocalCacheSizeLimit L) : list (list Z * V) :=
  entries_of (size_limit_get thread self).

Definition size_limit_abs (thread : nat) (self : ThreadLocalCacheSizeLimit L) : gmap (list Z) V := entry_map (size_limit_entries thread self).

Lemma size_limit_get_wf thread self : size_limit_wf self →
  lru_wf (size_limit_get thread self) ∧ lru_cap (size_limit_get thread self) = None.
Proof.
  intros [Hw _]. unfold size_limit_get. destruct (size_limit_cache self !! thread) as [c|] eqn:Hc; [by eapply Hw|].
  by destruct lru_unbounded_law as (? & _ & ?).
Qed.

Lemma size_limit_get_set thread self c n : size_limit_get thread (size_limit_set thread c n self) = c.
Proof. unfold size_limit_get. cbn. by rewrite lookup_insert_eq. Qed.

Lemma size_limit_set_wf thread self c n : size_limit_wf self → lru_wf c → lru_cap c = None → n = wrap64 (entries_size (entries_of c)) →
  size_limit_wf (size_limit_set thread c n self).
Proof.
  intros [Hw Hh] Hc Hn ->. split.
  - intros t d. cbn. rewrite lookup_insert_Some. intros [[_ <-]|[_ Hd]]; [done|by eapply Hw].
  - intros t. specialize (Hh t). unfold size_limit_held, size_limit_get in *. cbn. destruct (decide (t = thread)) as [->|Ht].
    + by rewrite !lookup_insert_eq.
    + by rewrite !lookup_insert_ne.
Qed.

(** A miss whose value is read: the new chunk is first, and at most one chunk is let go. *)
Lemma size_limit_miss {S} thread self k (f : S → S * outcome ArrayError V) s s' v : size_limit_wf self →
  size_limit_abs thread self !! k = None → f s = (s', Ok v) →
  ∃ self', size_limit_try_get chunk_size thread k f (self, s) = ((self', s'), Ok v) ∧ size_limit_wf self' ∧
    size_limit_entries thread self' = (k, v) ::
      (if size_limit_capacity self <? size_limit_held thread self +w chunk_size v
       then removelast (size_limit_entries thread self) else size_limit_entries thread self).
Proof.
  intros Hw Hk Hf. destruct (size_limit_get_wf thread self Hw) as [Hg Hcap]. unfold size_limit_try_get.
  destruct (lru_get_law (size_limit_get thread self) k Hg) as (Hg1 & Hcap1 & _). destruct (lru_get_miss _ k Hg Hk) as (Hr & He).
  unfold size_limit_entries. rewrite <-He. destruct (lru_get _ k) as [c1 r]. cbn [fst snd] in *. subst r. rewrite Hf.
  assert (size_limit_held thread self = wrap64 (entries_size (entries_of c1))) as Hh by (rewrite He; apply (proj2 Hw)).
  set (l := entries_of c1) in *.
  set (l2 := if size_limit_capacity self <? size_limit_held thread self +w chunk_size v then removelast l else l).
  assert (∃ c2, (if size_limit_capacity self <? size_limit_held thread self +w chunk_size v
      then let '(cache, old) := lru_pop_lru c1 in (cache, size_less chunk_size (size_limit_held thread self +w chunk_size v) old)
      else (c1, size_limit_held thread self +w chunk_size v)) = (c2, wrap64 (entries_size l2 + chunk_size v)) ∧
    lru_wf c2 ∧ lru_cap c2 = None ∧ entries_of c2 = l2) as (c2 & -> & Hg2 & Hcap2 & He2).
  { unfold l2. destruct (size_limit_capacity self <? _).
    - destruct (lru_pop_lru_law c1 Hg1) as (Hg2 & Hcap2 & Ho & He2). destruct (lru_pop_lru c1) as [c2 o]. cbn [fst snd] in *. subst o.
      exists c2. split_and!; [|done|congruence|done]. f_equal. rewrite Hh, wrap64_add_l. fold l. by apply size_less_last.
    - exists c1. split_and!; [|done|congruence|done]. by rewrite Hh, wrap64_add_l. }
  assert (entry_get k (entries_of c2) = None) as Hk2.
  { rewrite entry_get_map, He2. apply lookup_weaken_None with (entry_map l); [by rewrite <-Hk; unfold size_limit_abs, size_limit_entries; rewrite <-He|].
    unfold l2. destruct (_ <? _); [|done]. apply entry_sublist; [by apply lru_wf_law|apply removelast_sublist]. }
  destruct (lru_push_law c2 k v Hg2) as (Hg3 & Hcap3 & Hp). rewrite Hk2, Hcap2 in Hp. rewrite bool_decide_eq_false_2 in Hp by done.
  destruct (lru_push c2 k v) as [c3 o]. cbn [fst snd] in *. destruct Hp as [-> He3]. eexists. split; [done|].
  rewrite size_limit_get_set, He3, He2. split; [|done]. cbn [size_less]. apply size_limit_set_wf; [done..|congruence|].
  rewrite He3, He2, entries_size_cons. f_equal. lia.
Qed.

#[export] Instance size_limit_lawful (thread : nat) :
  LawfulChunkCache V (ThreadLocalCacheSizeLimit L) (ChunkCache0 := size_limit_traits chunk_size thread).
Proof.
  refine {| cache_wf := size_limit_wf; cache_abs := size_limit_abs thread |}.
  - intros S k f c s Hw. destruct (size_limit_get_wf thread c Hw) as [Hg Hcap]. cbn [try_get_or_insert_with size_limit_traits].
    pose proof (proj2 Hw thread) as Hh. destruct (size_limit_abs thread c !! k) as [v|] eqn:Hk.
    + unfold size_limit_try_get. destruct (lru_get_law (size_limit_get thread c) k Hg) as (Hg1 & Hcap1 & _).
      destruct (lru_get_hit _ k v Hg Hk) as (Hr & Hm & Hp). apply entries_size_perm in Hp. destruct (lru_get _ k) as [c1 r]. cbn [fst snd] in *. subst r.
      eexists. split; [done|]. unfold size_limit_abs, size_limit_entries in *. rewrite size_limit_get_set, Hm. split; [|done].
      apply size_limit_set_wf; [done..|congruence|]. by rewrite Hp.
    + destruct (f s) as [s' x] eqn:Hf. destruct x as [v|e|]; cbn [fst snd].
      { destruct (size_limit_miss thread c k f s s' v Hw Hk Hf) as (c' & -> & Hw' & He'). exists c'. split_and!; [done..|].
        unfold size_limit_abs. rewrite He'. apply (insert_mono (entry_map _)). destruct (_ <? _); [|done].
        apply entry_sublist; [by apply lru_wf_law|apply removelast_sublist]. }
      all: unfold size_limit_try_get; destruct (lru_get_law (size_limit_get thread c) k Hg) as (Hg1 & Hcap1 & _);
        destruct (lru_get_miss _ k Hg Hk) as (Hr & He); destruct (lru_get _ k) as [c1 r]; cbn [fst snd] in *; subst r; rewrite Hf;
        eexists; split; [done|]; unfold size_limit_abs, size_limit_entries; rewrite size_limit_get_set, He; split; [|done];
        apply size_limit_set_wf; [done..|congruence|by rewrite He].
  - intros c Hw. destruct (size_limit_get_wf thread c Hw) as [Hg Hcap]. cbn [invalidate size_limit_traits].
    unfold size_limit_clear, size_limit_abs, size_limit_entries. cbn [fst].
    destruct (lru_clear_law _ Hg) as (? & ? & He). rewrite size_limit_get_set, lru_clear_map by done. split; [|done].
    apply size_limit_set_wf; [done..|congruence|by rewrite He].
  - intros k c Hw. destruct (size_limit_get_wf thread c Hw) as [Hg Hcap]. cbn [invalidate_chunk size_limit_traits].
    pose proof (proj2 Hw thread) as Hh. destruct (lru_wf_law _ Hg) as [Hnd _].
    unfold size_limit_remove, size_limit_abs, size_limit_entries.
    destruct (lru_pop_law _ k Hg) as (? & ? & _ & He). destruct (lru_pop_map _ k Hg) as [Hm Hr]. destruct (lru_pop _ k) as [c1 r]. cbn [fst snd] in *.
    rewrite <-Hr. destruct r as [v|]; cbn [fst snd]; rewrite size_limit_get_set, Hm.
    + split_and!; [|done..]. apply size_limit_set_wf; [done..|congruence|]. symmetry in Hr. rewrite <-entry_get_map in Hr.
      rewrite Hh, He, <-(entries_size_perm _ _ (entry_front k v _ Hnd Hr)), entries_size_cons. unfold wrap64. rewrite Zminus_mod_idemp_l. f_equal. lia.
    + split_and!; [|done..]. apply size_limit_set_wf; [done..|congruence|]. symmetry in Hr. rewrite <-entry_get_map in Hr.
      by rewrite He, entry_remove_none.
  - intros c Hw. destruct (size_limit_get_wf thread c Hw) as [Hg Hcap]. cbn [cache_len size_limit_traits].
    unfold size_limit_len, size_limit_abs, size_limit_entries. cbn [fst snd].
    rewrite size_limit_get_set. split_and!; [apply size_limit_set_wf; [done..|apply (proj2 Hw)]|done|by apply lru_len_map].
Defined.
End thread_local.
