(* ===== verification/ArrayCached.v ===== *)
(** Arrays with a chunk cache: [ArrayCached] ([zarrs/src/array/array_cached.rs]), its operations
    ([array_cached.rs] in [array_ops/array_read_ops], [array_write_ops] and [array_update_ops]), and what
    a cache may hold ([chunk_cache/chunk_cache_type]): the decoded or the encoded chunk.

    An operation is a function of the cache and the store.  A parallel loop over chunks is its serial
    loop, as for an array without a cache. *)

From S2P Require Import Prelude ArraySubset Linear Iterators ChunkGrid ByteRange StoreKey ChunkKey.
From S2P Require Import Storage ArrayBytes Elements StoreProgram DecodeInto Concurrency Codec.
From S2P Require Import ArrayOps ChunkCache.

(** ** What a cache holds ([ChunkCacheType]) *)

Class ChunkCacheType (G K C V : Type) := {
  value_size : V → Z;
  value_partial_decoder {κ S : Type} `{!ReadableStorageTraits S, !WritableStorageTraits S, !ChunkCache V κ} :
    Array G K C → list Z → CodecOptions → cop κ S ArrayError ArrayHandle;
  retrieve_chunk_bytes_if_exists {κ S : Type} `{!ReadableStorageTraits S, !WritableStorageTraits S, !ChunkCache V κ} :
    Array G K C → list Z → CodecOptions → cop κ S ArrayError (option ArrayBytes);
  retrieve_chunk_subset_bytes {κ S : Type} `{!ReadableStorageTraits S, !WritableStorageTraits S, !ChunkCache V κ} :
    Array G K C → list Z → ArraySubset → CodecOptions → cop κ S ArrayError ArrayBytes;
}.

Section types.
Context {G K C : Type} `{!ChunkGridTraits G, !ChunkKeyEncodingTraits K, !ArrayToBytesCodecTraits C}.

Definition validate_chunk_indices (array : Array G K C) (chunk_indices : list Z) : outcome ArrayError (list Z) :=
  if negb (length chunk_indices =? dimensionality_ array)%nat
    || zip_any (λ index size, size <=? index) chunk_indices (chunk_grid_shape array)
  then Err (InvalidChunkGridIndicesError chunk_indices)
  else array_chunk_shape array chunk_indices.

Definition fill_value_bytes (array : Array G K C) (num_elements : Z) : outcome ArrayError ArrayBytes :=
  map_err ArrayCodecError (new_fill_value (data_type array) num_elements (fill_value array)).

(** *** [ChunkCacheTypeDecoded] *)

(** [CachedArrayBytesPartialDecoder]. *)
Definition decoded_handle (array_bytes : option ArrayBytes) (shape : list Z) (data_type : DataType) (fill_value : FillValue) : ArrayHandle :=
  let partial_decode indexer :=
    match array_bytes with
    | Some b => plift (extract_array_subset b indexer shape data_type)
    | None => plift (new_fill_value data_type (num_elements indexer) fill_value)
    end in
  {| partial_decode := partial_decode; partial_decode_into := default_partial_decode_into partial_decode |}.

Section with_cache.
Context {κ S : Type} `{!ReadableStorageTraits S, !WritableStorageTraits S}.

Definition decoded_if_exists `{!ChunkCache (option ArrayBytes) κ} (array : Array G K C) (chunk_indices : list Z) (options : CodecOptions)
    : cop κ S ArrayError (option ArrayBytes) :=
  let& _ := clift (validate_chunk_indices array chunk_indices) in
  try_get_or_insert_with chunk_indices (run (retrieve_chunk_if_exists_opt array chunk_indices options)).

Definition decoded_partial_decoder `{!ChunkCache (option ArrayBytes) κ} (array : Array G K C) (chunk_indices : list Z) (options : CodecOptions)
    : cop κ S ArrayError ArrayHandle :=
  let& b := decoded_if_exists array chunk_indices options in
  let& shape := clift (validate_chunk_indices array chunk_indices) in
  creturn (decoded_handle b shape (data_type array) (fill_value array)).

Definition decoded_subset_bytes `{!ChunkCache (option ArrayBytes) κ} (array : Array G K C) (chunk_indices : list Z)
    (chunk_subset : ArraySubset) (options : CodecOptions) : cop κ S ArrayError ArrayBytes :=
  let& chunk := decoded_if_exists array chunk_indices options in
  match chunk with
  | Some chunk =>
      let& chunk_shape := clift (validate_chunk_indices array chunk_indices) in
      clift (map_err ArrayCodecError (extract_array_subset chunk chunk_subset chunk_shape (data_type array)))
  | None => clift (fill_value_bytes array (num_elements chunk_subset))
  end.

(** *** [ChunkCacheTypeEncoded] *)

Definition encoded_chunk `{!ChunkCache (option bytes) κ} (array : Array G K C) (chunk_indices : list Z) : cop κ S ArrayError (option bytes) :=
  try_get_or_insert_with chunk_indices (run (pmap_err ArrayStorageError (retrieve_encoded_chunk_opt array chunk_indices))).

(** [Mutex::new(None)] as a [BytesPartialDecoderTraits]. *)
Definition missing_handle : BytesHandle := {|
  bytes_exists := preturn false;
  bytes_partial_decode_many := λ _, preturn None |}.

Definition encoded_partial_decoder `{!ChunkCache (option bytes) κ} (array : Array G K C) (chunk_indices : list Z) (options : CodecOptions)
    : cop κ S ArrayError ArrayHandle :=
  let& encoded := encoded_chunk array chunk_indices in
  let input := match encoded with Some encoded => memory_handle encoded | None => missing_handle end in
  let& chunk_shape := clift (validate_chunk_indices array chunk_indices) in
  cstore (pmap_err ArrayCodecError (a2b_partial_decoder (codecs_bound array) input chunk_shape options)).

Definition encoded_if_exists `{!ChunkCache (option bytes) κ} (array : Array G K C) (chunk_indices : list Z) (options : CodecOptions)
    : cop κ S ArrayError (option ArrayBytes) :=
  let& chunk_shape := clift (validate_chunk_indices array chunk_indices) in
  let& encoded := encoded_chunk array chunk_indices in
  match encoded with
  | Some encoded =>
      let& b := clift (map_err ArrayCodecError (a2b_decode (codecs_bound array) encoded chunk_shape options)) in
      let& _ := clift (map_err ArrayCodecError (validate_bytes b (product64 chunk_shape) (data_type array))) in
      creturn (Some b)
  | None => creturn None
  end.

Definition encoded_subset_bytes `{!ChunkCache (option bytes) κ} (array : Array G K C) (chunk_indices : list Z)
    (chunk_subset : ArraySubset) (options : CodecOptions) : cop κ S ArrayError ArrayBytes :=
  let& decoder := encoded_partial_decoder array chunk_indices options in
  cstore (pmap_err ArrayCodecError (partial_decode decoder chunk_subset)).
End with_cache.

#[export] Instance decoded_type : ChunkCacheType G K C (option ArrayBytes) := {|
  value_size := λ chunk, default 0 (array_bytes_size <$> chunk);
  value_partial_decoder κ S _ _ _ := decoded_partial_decoder;
  retrieve_chunk_bytes_if_exists κ S _ _ _ := decoded_if_exists;
  retrieve_chunk_subset_bytes κ S _ _ _ := decoded_subset_bytes |}.

#[export] Instance encoded_type : ChunkCacheType G K C (option bytes) := {|
  value_size := λ chunk, default 0 ((λ b : bytes, zlen b) <$> chunk);
  value_partial_decoder κ S _ _ _ := encoded_partial_decoder;
  retrieve_chunk_bytes_if_exists κ S _ _ _ := encoded_if_exists;
  retrieve_chunk_subset_bytes κ S _ _ _ := encoded_subset_bytes |}.
End types.

(** ** The operations of a cached array *)

Section ops.
Context {G K C V κ S : Type} `{!ChunkGridTraits G, !ChunkKeyEncodingTraits K, !ArrayToBytesCodecTraits C}.
Context `{!ReadableStorageTraits S, !WritableStorageTraits S, !ChunkCache V κ, !ChunkCacheType G K C V}.

#[local] Abbreviation op A := (cop κ S ArrayError A).

(** *** Reading chunks *)

Definition retrieve_chunk_bytes (array : Array G K C) (chunk_indices : list Z) (options : CodecOptions) : op ArrayBytes :=
  let& b := retrieve_chunk_bytes_if_exists array chunk_indices options in
  match b with
  | Some b => creturn b
  | None =>
      let& chunk_shape := clift (validate_chunk_indices array chunk_indices) in
      clift (fill_value_bytes array (product64 chunk_shape))
  end.

Definition cached_retrieve_chunk_opt (array : Array G K C) (chunk_indices : list Z) (options : CodecOptions) : op ArrayBytes :=
  let& b := retrieve_chunk_bytes array chunk_indices options in
  let& _ := clift (array_chunk_shape array chunk_indices) in
  creturn b.

Definition cached_retrieve_chunk_into (array : Array G K C) (chunk_indices : list Z) (output_target : ArrayBytesDecodeIntoTarget)
    (options : CodecOptions) : op ArrayBytesDecodeIntoTarget :=
  let& b := retrieve_chunk_bytes array chunk_indices options in
  clift (map_err ArrayCodecError (decode_into_array_bytes_target b output_target)).

Definition cached_retrieve_chunk_subset_opt (array : Array G K C) (chunk_indices : list Z) (chunk_subset : ArraySubset)
    (options : CodecOptions) : op ArrayBytes :=
  retrieve_chunk_subset_bytes array chunk_indices chunk_subset options.

Definition cached_retrieve_chunk_subset_into (array : Array G K C) (chunk_indices : list Z) (chunk_subset : ArraySubset)
    (output_target : ArrayBytesDecodeIntoTarget) (options : CodecOptions) : op ArrayBytesDecodeIntoTarget :=
  let& b := retrieve_chunk_subset_bytes array chunk_indices chunk_subset options in
  clift (map_err ArrayCodecError (decode_into_array_bytes_target b output_target)).

Definition cached_retrieve_chunk_if_exists_opt (array : Array G K C) (chunk_indices : list Z) (options : CodecOptions)
    : op (option ArrayBytes) :=
  let& b := retrieve_chunk_bytes_if_exists array chunk_indices options in
  match b with
  | Some b =>
      let& _ := clift (array_chunk_shape array chunk_indices) in
      creturn (Some b)
  | None => creturn None
  end.

Definition cached_retrieve_encoded_chunk_opt (array : Array G K C) (chunk_indices : list Z) : cop κ S StorageError (option bytes) :=
  cstore (retrieve_encoded_chunk_opt array chunk_indices).

Definition cached_partial_decoder_opt (array : Array G K C) (chunk_indices : list Z) (options : CodecOptions) : op ArrayHandle :=
  value_partial_decoder array chunk_indices options.

(** *** Reading regions *)

Definition cached_chunk_part (array : Array G K C) (array_subset : ArraySubset) (options : CodecOptions) (chunk_indices : list Z)
    : op (ArrayBytes * ArraySubset) :=
  let& chunk_subset := clift (array_chunk_subset array chunk_indices) in
  let& chunk_subset_overlap := clift (map_err ArrayArraySubsetError (overlap chunk_subset array_subset)) in
  let& in_chunk := clift (map_err ArrayArraySubsetError (relative_to chunk_subset_overlap (start chunk_subset))) in
  let& b := retrieve_chunk_subset_bytes array chunk_indices in_chunk options in
  let& in_array := clift (map_err ArrayArraySubsetError (relative_to chunk_subset_overlap (start array_subset))) in
  creturn (b, in_array).

Definition cached_multi_chunk_variable (array : Array G K C) (array_subset chunks : ArraySubset) (options : CodecOptions) : op ArrayBytes :=
  let& indices := clift (indices chunks) in
  let& chunk_bytes_and_subsets := ctry_map (cached_chunk_part array array_subset options) indices in
  let nesting_depth := optional_nesting_depth (data_type array) in
  if (0 <? nesting_depth)%nat then
    let& chunks := clift (collect_res ((λ '(b, subset),
      let? (data, mask) := unwrap (into_optional b) in Ok (OptionalBytes data mask, subset)) <$> chunk_bytes_and_subsets)) in
    clift (map_err ArrayCodecError (merge_chunks_vlen_optional chunks (shape array_subset) nesting_depth))
  else
    let& chunks := clift (collect_res ((λ '(b, subset),
      let? v := unwrap (into_variable b) in Ok (v, subset)) <$> chunk_bytes_and_subsets)) in
    let& v := clift (merge_chunks_vlen chunks (shape array_subset)) in
    creturn (VariableBytes v).

Definition cached_chunk_fixed (array : Array G K C) (array_subset : ArraySubset) (data_type_size : Z) (options : CodecOptions)
    (outputs : bytes * option bytes) (chunk_indices : list Z) : op (bytes * option bytes) :=
  let (data_output, mask_output) := outputs in
  let& chunk_subset := clift (array_chunk_subset array chunk_indices) in
  let& overlap := clift (map_err ArrayArraySubsetError (overlap chunk_subset array_subset)) in
  let& output_subset := clift (map_err ArrayArraySubsetError (relative_to overlap (start array_subset))) in
  let& in_chunk := clift (map_err ArrayArraySubsetError (relative_to overlap (start chunk_subset))) in
  let& b := retrieve_chunk_subset_bytes array chunk_indices in_chunk options in
  let& data_view := clift (map_err ArrayViewCreateError (view_new data_output data_type_size (shape array_subset) output_subset)) in
  let& mask_view :=
    match mask_output with
    | Some mask_output =>
        let& view := clift (map_err ArrayViewCreateError (view_new mask_output 1 (shape array_subset) output_subset)) in
        creturn (Some (view, mask_output))
    | None => creturn None
    end in
  match b with
  | FixedBytes b =>
      let& data_output := clift (map_err ArrayCodecError (view_copy_from_slice data_view data_output b)) in
      creturn (data_output, mask_output)
  | OptionalBytes data mask =>
      match data with
      | FixedBytes data =>
          let& data_output := clift (map_err ArrayCodecError (view_copy_from_slice data_view data_output data)) in
          match mask_view with
          | Some (mask_view, mask_output) =>
              let& mask_output := clift (map_err ArrayCodecError (view_copy_from_slice mask_view mask_output mask)) in
              creturn (data_output, Some mask_output)
          | None => creturn (data_output, mask_output)
          end
      | _ => clift Panic
      end
  | VariableBytes _ => clift Panic
  end.

(** [uninit n] is [n] bytes of memory that has not been written. *)
Context (uninit : Z → bytes).

Definition cached_multi_chunk_fixed (array : Array G K C) (array_subset chunks : ArraySubset) (options : CodecOptions) : op ArrayBytes :=
  let& data_type_size := clift (expect (fixed_size (data_type array))) in
  let num_elements := num_elements_usize array_subset in
  let size_output := num_elements *w data_type_size in
  if size_output =? 0 then creturn (FixedBytes [])
  else
    let data_output := uninit size_output in
    let mask_output := match data_type array with OptionalType _ => Some (uninit num_elements) | PlainType _ => None end in
    let& indices := clift (indices chunks) in
    let& (data_output, mask_output) :=
      ctry_fold (cached_chunk_fixed array array_subset data_type_size options) (data_output, mask_output) indices in
    creturn (match mask_output with
      | Some mask => OptionalBytes (FixedBytes data_output) mask
      | None => FixedBytes data_output
      end).

Definition cached_retrieve_array_subset_opt (array : Array G K C) (array_subset : ArraySubset) (options : CodecOptions) : op ArrayBytes :=
  if negb (dimensionality array_subset =? dimensionality_ array)%nat then clift (Err (InvalidArraySubset array_subset (shape_ array)))
  else
    let& chunks := clift (map_err ArrayIncompatibleDimensionality (array_chunks_in_array_subset array array_subset)) in
    match chunks with
    | None => clift (Err (InvalidArraySubset array_subset (shape_ array)))
    | Some chunks =>
        let& chunk_shape0 := clift (array_chunk_shape array (replicate (dimensionality_ array) 0)) in
        let num_chunks := num_elements_usize chunks in
        if num_chunks =? 0 then clift (fill_value_bytes array (num_elements array_subset))
        else if num_chunks =? 1 then
          let chunk_indices := start chunks in
          let& chunk_subset := clift (array_chunk_subset array chunk_indices) in
          if bool_decide (chunk_subset = array_subset) then retrieve_chunk_bytes array chunk_indices options
          else
            let& in_chunk := clift (map_err ArrayArraySubsetError (relative_to array_subset (start chunk_subset))) in
            retrieve_chunk_subset_bytes array chunk_indices in_chunk options
        else
          let& codec_concurrency := clift (recommended_codec_concurrency array chunk_shape0) in
          let (chunk_concurrent_limit, options) :=
            concurrency_chunks_and_codec (concurrent_target options) num_chunks options codec_concurrency in
          match fixed_size (data_type array) with
          | Some _ => cached_multi_chunk_fixed array array_subset chunks options
          | None => cached_multi_chunk_variable array array_subset chunks options
          end
    end.

Definition cached_retrieve_chunks_opt (array : Array G K C) (chunks : ArraySubset) (options : CodecOptions) : op ArrayBytes :=
  let& array_subset := clift (array_chunks_subset array chunks) in
  cached_retrieve_array_subset_opt array array_subset options.

(** *** Writing *)

Definition cached_store_chunk_opt (array : Array G K C) (chunk_indices : list Z) (chunk_data : ArrayBytes) (options : CodecOptions) : op unit :=
  let& _ := cstore (store_chunk_opt array chunk_indices chunk_data options) in
  let& _ := ccache (invalidate_chunk chunk_indices) in
  creturn tt.

Definition cached_store_chunks_opt (array : Array G K C) (chunks : ArraySubset) (chunks_data : ArrayBytes) (options : CodecOptions) : op unit :=
  let& _ := cstore (store_chunks_opt array chunks chunks_data options) in
  let& _ := invalidate_chunks chunks in
  creturn tt.

Definition cached_erase_chunk (array : Array G K C) (chunk_indices : list Z) : cop κ S StorageError unit :=
  let& _ := cstore (erase_chunk array chunk_indices) in
  let& _ := ccache (invalidate_chunk chunk_indices) in
  creturn tt.

Definition cached_erase_chunks (array : Array G K C) (chunks : ArraySubset) : cop κ S StorageError unit :=
  let& _ := cstore (erase_chunks array chunks) in
  let& _ := invalidate_chunks chunks in
  creturn tt.

Definition cached_store_encoded_chunk (array : Array G K C) (chunk_indices : list Z) (encoded_chunk_bytes : bytes) : op unit :=
  let& _ := cstore (store_encoded_chunk array chunk_indices encoded_chunk_bytes) in
  let& _ := ccache (invalidate_chunk chunk_indices) in
  creturn tt.

(** *** Updating *)

Definition cached_store_chunk_subset_opt (array : Array G K C) (chunk_indices : list Z) (chunk_subset : ArraySubset)
    (chunk_subset_data : ArrayBytes) (options : CodecOptions) : op unit :=
  let& _ := cstore (store_chunk_subset_opt array chunk_indices chunk_subset chunk_subset_data options) in
  let& _ := ccache (invalidate_chunk chunk_indices) in
  creturn tt.

Definition cached_store_array_subset_opt (array : Array G K C) (array_subset : ArraySubset) (subset_data : ArrayBytes)
    (options : CodecOptions) : op unit :=
  let& _ := cstore (store_array_subset_opt array array_subset subset_data options) in
  let& chunks := clift (map_err ArrayIncompatibleDimensionality (array_chunks_in_array_subset array array_subset)) in
  match chunks with
  | Some chunks => let& _ := invalidate_chunks chunks in creturn tt
  | None => let& _ := ccache invalidate in creturn tt
  end.

Definition cached_compact_chunk (array : Array G K C) (chunk_indices : list Z) (options : CodecOptions) : op bool :=
  let& compacted := cstore (compact_chunk array chunk_indices options) in
  if (compacted : bool) then let& _ := ccache (invalidate_chunk chunk_indices) in creturn compacted
  else creturn compacted.

(** [CachedArrayPartialEncoder]: the chunk is invalidated whether the encoder fails or not. *)
Definition then_invalidate {E A} (chunk_indices : list Z) (m : cop κ S E A) : cop κ S E A := λ st,
  match m st with
  | (st, Panic) => (st, Panic)
  | (st, result) => let '(st, _) := ccache (E:=E) (invalidate_chunk chunk_indices) st in (st, result)
  end.

Definition cached_encoder_erase (encoder : ArrayEncodeHandle) (chunk_indices : list Z) : cop κ S CodecError unit :=
  then_invalidate chunk_indices (cstore (array_erase encoder)).

Definition cached_encoder_partial_encode (encoder : ArrayEncodeHandle) (chunk_indices : list Z) (indexer : ArraySubset) (b : ArrayBytes)
    : cop κ S CodecError unit :=
  then_invalidate chunk_indices (cstore (partial_encode encoder indexer b)).

Definition cached_partial_encoder (array : Array G K C) (chunk_indices : list Z) (options : CodecOptions) : op ArrayEncodeHandle :=
  cstore (partial_encoder array chunk_indices options).
End ops.
