(* ===== verification/ArrayCachedSpec.v ===== *)
(** What the operations of a cached array do.

    A cache is coherent with a store when what it holds for a chunk is fresh: it agrees with the
    value stored for the chunk.  Reads keep a cache coherent and give the elements that the array holds, whatever
    has been read or evicted before; a write that succeeds invalidates the chunks it has changed, so that the cache
    is coherent with the new store.

    Caches of decoded and of encoded chunks keep the promise of a type of cached values.

    A decoded chunk is fresh when it is what the stored value decodes to; an encoded one when it
    is the stored value. *)

From S2P Require Import Prelude ArraySubset Linear Iterators ChunkGrid ByteRange StoreKey ChunkKey Storage MemoryStore ArrayBytes.
From S2P Require Import Elements Regions StoreProgram DecodeInto GridRegions Concurrency Codec ArrayOps ArraySpec StoreRegion.
From S2P Require Import RetrieveRegion ChunkCache ArrayCached.

(** ** Coherence *)

Section coherence.
Context {G K C V κ S : Type} `{LawfulChunkGrid G} `{LawfulChunkKeyEncoding K} `{LawfulArrayToBytesCodec C}.
Context (abs : S → gmap str bytes) `{HL : LawfulStorage S abs} `{LawfulChunkCache V κ}.
Context (a : Array G K C) (fresh : list Z → option bytes → V → Prop).

Definition coherent (M : gmap str bytes) (c : κ) : Prop :=
  cache_wf c ∧ ∀ k v, in_grid (chunk_grid a) k → cache_abs c !! k = Some v → fresh k (M !! array_chunk_key a k) v.

(** From any coherent cache, the operation leaves the store as it is and the cache coherent, and returns a value of
    [P]. *)
Definition creads {E A} (m : cop κ S E A) (M : gmap str bytes) (P : A → Prop) : Prop :=
  ∀ c s, coherent M c → abs s = M → ∃ c' s' x, m (c, s) = ((c', s'), Ok x) ∧ coherent M c' ∧ abs s' = M ∧ P x.

Lemma creads_return {E A} (x : A) M (P : A → Prop) : P x → creads (E:=E) (creturn x) M P.
Proof. intros Hx c s Hc Hs. by exists c, s, x. Qed.

Lemma creads_lift {E A} (x : A) M (P : A → Prop) : P x → creads (E:=E) (clift (Ok x)) M P.
Proof. apply creads_return. Qed.

Lemma creads_bind {E A B} (m : cop κ S E A) (f : A → cop κ S E B) M P Q :
  creads m M P → (∀ x, P x → creads (f x) M Q) → creads (cbind m f) M Q.
Proof.
  intros Hm Hf c s Hc Hs. destruct (Hm c s Hc Hs) as (c1 & s1 & x & Hr & Hc1 & Hs1 & Hx). unfold cbind. rewrite Hr. by apply Hf.
Qed.

Lemma creads_lift_bind {E A B} (x : A) (f : A → cop κ S E B) M Q : creads (f x) M Q → creads (cbind (clift (Ok x)) f) M Q.
Proof. done. Qed.

Lemma creads_weaken {E A} (m : cop κ S E A) M (P Q : A → Prop) : creads m M P → (∀ x, P x → Q x) → creads m M Q.
Proof. intros Hm HPQ c s Hc Hs. destruct (Hm c s Hc Hs) as (c1 & s1 & x & ? & ? & ? & Hx). exists c1, s1, x. auto. Qed.

Lemma creads_store {E A} (p : prog E A) M x : runs p M (Ok x) M → creads (cstore p) M (λ y, y = x).
Proof.
  intros Hp c s Hc <-. destruct (run_runs abs p s (Ok x) (abs s) Hp) as (s' & Hr & Hs'). exists c, s', x. unfold cstore. by rewrite Hr.
Qed.

Lemma creads_map {E A B} (f : A → cop κ S E B) (l : list A) M (P : A → B → Prop) :
  (∀ x, x ∈ l → creads (f x) M (P x)) → creads (ctry_map f l) M (Forall2 P l).
Proof.
  induction l as [|x l IH]; intros Hl; cbn [ctry_map]; [by apply creads_return|].
  eapply creads_bind; [apply Hl, list_elem_of_here|]. intros y Hy. eapply creads_bind; [apply IH; intros z Hz; by apply Hl, list_elem_of_further|].
  intros ys Hys. apply creads_return. by constructor.
Qed.

Lemma creads_fold {E T A} (f : T → A → cop κ S E T) (l : list A) M (I : list A → T → Prop) (t : T) :
  (∀ (done_ : list A) x rest t, l = done_ ++ x :: rest → I done_ t → creads (f t x) M (I (done_ ++ [x]))) →
  I [] t → creads (ctry_fold f t l) M (I l).
Proof.
  intros Hf HI. assert (∀ rest done_ t, l = done_ ++ rest → I done_ t → creads (ctry_fold f t rest) M (I l)) as Hgo; [|by apply (Hgo l [])].
  intros rest. induction rest as [|x rest IH]; intros done_ t1 Hl Ht1; cbn [ctry_fold].
  - apply creads_return. rewrite app_nil_r in Hl. by subst.
  - eapply creads_bind; [by apply (Hf done_ x rest)|]. intros t2 Ht2. apply (IH (done_ ++ [x])); [by rewrite <-app_assoc|done].
Qed.

(** The promise of the cache: a chunk that is not cached is read and cached. *)
Lemma creads_get (p : prog ArrayError V) k v M : in_grid (chunk_grid a) k → runs p M (Ok v) M → fresh k (M !! array_chunk_key a k) v →
  creads (try_get_or_insert_with k (run p)) M (fresh k (M !! array_chunk_key a k)).
Proof.
  intros Hk Hp Hv c s [Hw Hc] <-. pose proof (cache_get_law k (run p) c s Hw) as Hget. destruct (cache_abs c !! k) as [w|] eqn:Hkw.
  - destruct Hget as (c' & -> & Hw' & Hsub). exists c', s, w. split_and!; [done|split; [done|]|done|by apply Hc].
    intros k' v' Hk' Hl. apply Hc; [done|]. by eapply lookup_weaken.
  - destruct (run_runs abs p s (Ok v) (abs s) Hp) as (s' & Hr & Hs'). rewrite Hr in Hget. cbn [fst snd] in Hget.
    destruct Hget as (c' & -> & Hw' & Hsub). exists c', s', v. split_and!; [done|split; [done|]|done|done].
    intros k' v' Hk' Hl. pose proof (lookup_weaken _ _ _ _ Hl Hsub) as Hi. apply lookup_insert_Some in Hi as [[<- <-]|[_ Hi]]; [done|by apply Hc].
Qed.

(** ** Invalidation *)

(** [D] are the chunks whose entries are gone. *)
Definition without (D : list (list Z)) (c c' : κ) : Prop :=
  cache_wf c' ∧ ∀ k v, cache_abs c' !! k = Some v → cache_abs c !! k = Some v ∧ k ∉ D.

Lemma invalidate_chunk_without k c : cache_wf c → without [k] c (invalidate_chunk k c).1.
Proof.
  intros Hw. destruct (cache_invalidate_chunk_law k c Hw) as (Hw' & Hsub & _). split; [done|]. intros k' v Hl.
  pose proof (lookup_weaken _ _ _ _ Hl Hsub) as [Hne Hi]%lookup_delete_Some. split; [done|]. by intros ->%list_elem_of_singleton.
Qed.

Lemma invalidate_loop_without n l c : cache_wf c → without l c (invalidate_loop n l c).1.
Proof.
  revert n c. induction l as [|k l IH]; intros n c Hw; cbn [invalidate_loop].
  - split; [done|]. intros k v Hl. split; [done|]. apply not_elem_of_nil.
  - pose proof (invalidate_chunk_without k c Hw) as [Hw1 Hd1]. destruct (invalidate_chunk k c) as [c1 b]. cbn [fst] in *.
    destruct (IH (n +w Z.b2z b) c1 Hw1) as [Hw2 Hd2]. split; [done|]. intros k' v Hl. destruct (Hd2 k' v Hl) as [Hl1 Hn].
    destruct (Hd1 k' v Hl1) as [? Hn1]. split; [done|]. rewrite elem_of_cons. intros [->|?]; [|done]. by apply Hn1, list_elem_of_here.
Qed.

(** A cache without the chunks that changed is coherent again. *)
Lemma without_coherent D c c' M M' : coherent M c → without D c c' →
  (∀ k, in_grid (chunk_grid a) k → k ∉ D → M' !! array_chunk_key a k = M !! array_chunk_key a k) → coherent M' c'.
Proof.
  intros [Hw Hc] [Hw' Hsub] HM. split; [done|]. intros k v Hk Hl. destruct (Hsub k v Hl) as [Hlc Hn]. rewrite HM by done. by apply Hc.
Qed.

(** The operation writes: from any cache coherent with [M], it ends without error on a store that [P] describes, and
    leaves a cache coherent with it. *)
Definition cwrites {E A} (m : cop κ S E A) (M : gmap str bytes) (P : A → gmap str bytes → Prop) : Prop :=
  ∀ c s, coherent M c → abs s = M → ∃ c' s' x, m (c, s) = ((c', s'), Ok x) ∧ coherent (abs s') c' ∧ P x (abs s').

(** Writing one chunk. *)
Lemma cwrites_chunk {E} (p : prog E unit) k M v' : array_wf a → in_grid (chunk_grid a) k → runs p M (Ok tt) (put (array_chunk_key a k) v' M) →
  cwrites (let& _ := cstore p in let& _ := ccache (invalidate_chunk k) in creturn tt) M (λ _ M', M' = put (array_chunk_key a k) v' M).
Proof.
  intros Ha Hk Hp c s Hc <-. destruct (run_runs abs p s (Ok tt) _ Hp) as (s' & Hr & Hs'). unfold cbind, cstore, ccache. rewrite Hr.
  pose proof (invalidate_chunk_without k c (proj1 Hc)) as Hwo. destruct (invalidate_chunk k c) as [c' b]. exists c', s', tt.
  split_and!; [done| |done]. eapply without_coherent; [exact Hc|exact Hwo|]. intros j Hj Hn. rewrite Hs', put_lookup_ne; [done|].
  intros He. apply Hn. rewrite (key_inj a Ha j k); [apply list_elem_of_here|done..].
Qed.

(** Writing the chunks of a loop. *)
Lemma cwrites_chunks {E} (p : prog E unit) chunks l M M' : (∀ E', indices (E:=E') chunks = Ok l) → runs p M (Ok tt) M' →
  (∀ k, in_grid (chunk_grid a) k → k ∉ l → M' !! array_chunk_key a k = M !! array_chunk_key a k) →
  cwrites (let& _ := cstore p in let& _ := invalidate_chunks chunks in creturn tt) M (λ _ M1, M1 = M').
Proof.
  intros Hl Hp HM c s Hc <-. destruct (run_runs abs p s (Ok tt) _ Hp) as (s' & Hr & Hs'). unfold cbind, cstore, invalidate_chunks, cbind, clift, ccache. rewrite Hr, Hl.
  pose proof (invalidate_loop_without 0 l c (proj1 Hc)) as Hwo. destruct (invalidate_loop 0 l c) as [c' n]. exists c', s', tt.
  split_and!; [done| |done]. rewrite Hs'. by eapply without_coherent.
Qed.
End coherence.

(** ** What a type of cached values promises *)

Class LawfulChunkCacheType (G K C V : Type) `{LawfulChunkGrid G, LawfulChunkKeyEncoding K, LawfulArrayToBytesCodec C, !ChunkCacheType G K C V} := {
  fresh : Array G K C → list Z → option bytes → V → Prop;
  if_exists_law {κ S : Type} (abs : S → gmap str bytes) `{LawfulStorage S abs, LawfulChunkCache V κ}
      (a : Array G K C) (f : list Z → element) M c b options :
    array_wf a → in_grid (chunk_grid a) c → chunk_holds a c (M !! array_chunk_key a c) f b →
    creads (κ := κ) abs a (fresh a) (retrieve_chunk_bytes_if_exists a c options) M (λ r,
      match M !! array_chunk_key a c with
      | Some _ => ∃ b', r = Some b' ∧ holds b' (data_type a) (contents f (region_of a c)) ∧ array_bytes_size b' <= array_bytes_size b
      | None => r = None
      end);
  subset_bytes_law {κ S : Type} (abs : S → gmap str bytes) `{LawfulStorage S abs, LawfulChunkCache V κ}
      (a : Array G K C) (f : list Z → element) M c b o options :
    array_wf a → in_grid (chunk_grid a) c → chunk_holds a c (M !! array_chunk_key a c) f b →
    subset_wf o → covers (region_of a c) o → is_empty o = false →
    creads (κ := κ) abs a (fresh a) (retrieve_chunk_subset_bytes a c (within o (region_of a c)) options) M (λ out,
      holds out (data_type a) (contents f o) ∧ array_bytes_size out <= array_bytes_size b);
  decoder_law {κ S : Type} (abs : S → gmap str bytes) `{LawfulStorage S abs, LawfulChunkCache V κ}
      (a : Array G K C) (f : list Z → element) M c b options :
    array_wf a → in_grid (chunk_grid a) c → chunk_holds a c (M !! array_chunk_key a c) f b →
    creads (κ := κ) abs a (fresh a) (value_partial_decoder a c options) M (λ ah,
      array_reads ah (M !! array_chunk_key a c) (data_type a) (shape (region_of a c)) (contents f (region_of a c)) (array_bytes_size b));
}.

Section chunk.
Context {G K C : Type} `{LawfulChunkGrid G} `{LawfulChunkKeyEncoding K} `{LawfulArrayToBytesCodec C}.
Context (a : Array G K C) (Ha : array_wf a).

#[local] Abbreviation g := (chunk_grid a).
#[local] Abbreviation dt := (data_type a).
#[local] Abbreviation key := (array_chunk_key a).
#[local] Abbreviation sub := (region_of a).
#[local] Abbreviation codec := (codecs_bound a).

Lemma validate_indices_ok c : in_grid g c → validate_chunk_indices a c = Ok (shape (sub c)).
Proof.
  intros Hc. unfold validate_chunk_indices. rewrite (chunk_dimensionality a Ha), (array_chunk_shape_ok a Ha) by done. cbn [negb orb].
  destruct Hc as [Hc _]. unfold chunk_grid_shape. assert (zip_any (λ index size, size <=? index) c (grid_shape g) = false) as ->; [|done].
  unfold zip_any. induction Hc as [|x d c' sh Hx Hc' IH]; [done|]. cbn [zip_with existsb]. rewrite IH. unfold id. destruct (Z.leb_spec d x); [lia|done].
Qed.

Lemma retrieve_if_exists_ok c v f b options : in_grid g c → chunk_holds a c v f b →
  runs_at (retrieve_chunk_if_exists_opt a c options) v (Ok ((λ _, b) <$> v)) v.
Proof.
  intros Hc Hcc. unfold retrieve_chunk_if_exists_opt. rewrite (chunk_dimensionality a Ha) by done. cbn [negb]. prog. exists v, v. split; [done|].
  destruct v as [enc|]; prog; [|done]. rewrite (array_chunk_shape_ok a Ha) by done. prog. by rewrite (chunk_holds_decodes a Ha c enc f b options Hc Hcc).
Qed.

Lemma retrieve_if_exists_confined c options : confined (key c) (retrieve_chunk_if_exists_opt a c options).
Proof.
  unfold retrieve_chunk_if_exists_opt. destruct (negb _); [done|]. prog. split; [done|]. intros [enc|]; prog; [|done].
  destruct (array_chunk_shape a c) as [sh| |]; [|done..]. prog. by destruct (a2b_decode codec enc sh options).
Qed.

(** A chunk that is not stored is full of the fill value. *)
Lemma fill_value_bytes_ok c f b : in_grid g c → chunk_holds a c None f b →
  fill_value_bytes a (product64 (shape (sub c))) = Ok b ∧ holds b dt (contents f (sub c)).
Proof.
  intros Hc (Hh & _ & _ & Hnew & _)%(chunk_holds_dt a Ha). split; [|done]. unfold fill_value_bytes. by rewrite (sub_product a Ha), Hnew.
Qed.

(** The part of a chunk, from its bytes or as fill values. *)
Lemma chunk_part_ok c v f b o : in_grid g c → chunk_holds a c v f b → subset_wf o → covers (sub c) o → is_empty o = false →
  ∃ out, match v with
    | Some _ => extract_array_subset b (within o (sub c)) (shape (sub c)) dt
    | None => new_fill_value dt (num_elements (within o (sub c))) (fill_value a)
    end = Ok out ∧ holds out dt (contents f o) ∧ array_bytes_size out <= array_bytes_size b.
Proof.
  intros Hc Hcc Ho Hcov Hne. destruct (within_start a Ha c o Hc Ho Hcov Hne) as [Hok _]. destruct (shape_law a Ha c Hc) as (_ & Hlim & _ & Hb).
  apply (chunk_holds_dt a Ha) in Hcc as (Hh & Hl & _ & Hv).
  destruct (region_content dt (fill_value a) (shape (sub c)) v b (contents f (sub c)) (within o (sub c))) as (out & Hout & Hho & Hsz);
    [by apply dt_fill_ok|lia|done|done|by intros ->|done|].
  rewrite (select_contents f) in Hho by (done || by apply sub_wf). by exists out.
Qed.
End chunk.

Section laws.
Context {G K C : Type} `{LawfulChunkGrid G} `{LawfulChunkKeyEncoding K} `{LawfulArrayToBytesCodec C}.

(** ** Decoded chunks *)

Definition decoded_fresh (a : Array G K C) (c : list Z) (stored : option bytes) (v : option ArrayBytes) : Prop :=
  match stored, v with
  | None, None => True
  | Some enc, Some b => ∃ f, chunk_holds a c (Some enc) f b
  | _, _ => False
  end.

(** A fresh decoded chunk is the chunk that the array holds. *)
Lemma decoded_fresh_inv a c stored v f b : array_wf a → in_grid (chunk_grid a) c → chunk_holds a c stored f b → decoded_fresh a c stored v →
  v = (λ _, b) <$> stored.
Proof.
  intros Ha Hc Hb Hv. destruct stored as [enc|], v as [b'|]; try done. destruct Hv as [f' Hb'].
  pose proof (chunk_holds_decodes a Ha c enc f b (CodecOptions_default 1) Hc Hb) as H2.
  rewrite (chunk_holds_decodes a Ha c enc f' b' (CodecOptions_default 1) Hc Hb') in H2. by injection H2 as ->.
Qed.

Section store.
Context {κ S : Type} (abs : S → gmap str bytes) `{LawfulStorage S abs}.
Context (a : Array G K C) (Ha : array_wf a) (f : list Z → element) (M : gmap str bytes) (c : list Z) (b : ArrayBytes) (options : CodecOptions).
Context (Hc : in_grid (chunk_grid a) c) (Hb : chunk_holds a c (M !! array_chunk_key a c) f b).

#[local] Abbreviation dt := (data_type a).
#[local] Abbreviation sub := (region_of a).
#[local] Abbreviation stored := (M !! array_chunk_key a c).

Lemma decoded_if_exists_ok `{LawfulChunkCache (option ArrayBytes) κ} :
  creads (κ := κ) abs a (decoded_fresh a) (decoded_if_exists a c options) M (λ r, r = (λ _, b) <$> stored).
Proof.
  unfold decoded_if_exists. rewrite (validate_indices_ok a Ha) by done. apply creads_lift_bind.
  eapply creads_weaken; [apply (creads_get abs a _ _ c ((λ _, b) <$> stored)); [done| |]|].
  - apply (runs_read (array_chunk_key a c)); [apply retrieve_if_exists_confined|by eapply retrieve_if_exists_ok].
  - destruct stored as [enc|]; [by exists f|done].
  - intros v Hv. by eapply decoded_fresh_inv.
Qed.

Lemma decoded_subset_ok `{LawfulChunkCache (option ArrayBytes) κ} o : subset_wf o → covers (sub c) o → is_empty o = false →
  creads (κ := κ) abs a (decoded_fresh a) (decoded_subset_bytes a c (within o (sub c)) options) M (λ out,
    holds out dt (contents f o) ∧ array_bytes_size out <= array_bytes_size b).
Proof.
  intros Ho Hcov Hne. destruct (chunk_part_ok a Ha c _ f b o Hc Hb Ho Hcov Hne) as (out & Hout & Hh & Hsz).
  eapply creads_bind; [apply decoded_if_exists_ok|]. intros r ->. destruct stored as [enc|]; simpl.
  - rewrite (validate_indices_ok a Ha) by done. apply creads_lift_bind. rewrite Hout. by apply creads_lift.
  - unfold fill_value_bytes. rewrite Hout. by apply creads_lift.
Qed.

Lemma decoded_handle_reads : array_reads (decoded_handle ((λ _, b) <$> stored) (shape (sub c)) dt (fill_value a)) stored dt
  (shape (sub c)) (contents f (sub c)) (array_bytes_size b).
Proof.
  intros s Hs. destruct (shape_law a Ha c Hc) as (_ & Hlim & _ & Hl). pose proof Hb as (Hh & Hz & _ & Hv)%(chunk_holds_dt a Ha).
  destruct (region_content dt (fill_value a) (shape (sub c)) stored b (contents f (sub c)) s) as (out & Hout & Hho & Hsz);
    [by apply dt_fill_ok|lia|done|done|by intros Hn; rewrite Hn in Hv|done|].
  assert (runs_at (partial_decode (decoded_handle ((λ _, b) <$> stored) (shape (sub c)) dt (fill_value a)) s) stored (Ok out) stored) as Hr.
  { revert Hout. simpl. destruct stored as [enc|]; simpl; intros ->; done. }
  exists out. split_and!; [done..|]. intros t t' Ht Hd. by eapply default_partial_decode_into_ok.
Qed.

(** ** Encoded chunks *)

Definition encoded_fresh (c : list Z) (stored v : option bytes) : Prop := v = stored.

Lemma encoded_chunk_ok `{LawfulChunkCache (option bytes) κ} : creads (κ := κ) abs a encoded_fresh (encoded_chunk a c) M (λ r, r = stored).
Proof.
  unfold encoded_chunk. eapply creads_weaken; [apply (creads_get abs a encoded_fresh _ c stored); [done| |done]|done].
  apply (runs_read (array_chunk_key a c)); [by apply confined_map_err|]. simpl. by exists stored, stored.
Qed.

Definition encoded_input (w : option bytes) : BytesHandle := match w with Some encoded => memory_handle encoded | None => missing_handle end.

Lemma encoded_input_reads n k v w : handle_reads n (encoded_input w) k v w.
Proof.
  split.
  - intros rs. destruct w as [e|]; simpl; [|done]. by destruct (extract_byte_ranges e rs).
  - intros rs _ Hrs. destruct w as [e|]; simpl; [|done]. destruct (Hrs e eq_refl) as (He & Ho & Hin). by rewrite extract_byte_ranges_within by done.
Qed.

(** A partial decoder of the cached bytes reads the chunk. *)
Lemma encoded_decoder_ok `{LawfulChunkCache (option bytes) κ} :
  creads (κ := κ) abs a encoded_fresh (encoded_partial_decoder a c options) M (λ ah,
    array_reads ah stored dt (shape (sub c)) (contents f (sub c)) (array_bytes_size b) ∧ array_confined (array_chunk_key a c) ah).
Proof.
  eapply creads_bind; [apply encoded_chunk_ok|]. intros r ->. change (match stored with Some encoded => memory_handle encoded | None => missing_handle end) with (encoded_input stored).
  rewrite (validate_indices_ok a Ha) by done. apply creads_lift_bind.
  pose proof (encoded_input_reads 0 (array_chunk_key a c) stored stored) as [Hcf _].
  destruct (a2b_partial_law (codecs_bound a) (shape (sub c)) options (encoded_input stored) (array_chunk_key a c) stored stored b _ (wf_codec a Ha)
    (wf_chunk_shapes a Ha c Hc) (handle_reads_serves _ _ _ _ _ _ (proj2 (a2b_offset_law _ (wf_codec a Ha))) (encoded_input_reads _ _ _ _)) Hb) as (ah & Hpd & Hreads).
  rewrite (wf_data_type a Ha) in Hreads. pose proof (a2b_partial_confined (codecs_bound a) (shape (sub c)) options (encoded_input stored) _ Hcf) as Hconf.
  eapply creads_weaken; [apply (creads_store abs a encoded_fresh _ _ ah)|].
  - apply (runs_read (array_chunk_key a c)); [apply confined_map_err; by eapply confines_confined|].
    by apply (runs_at_map_err ArrayCodecError _ _ (Ok ah)).
  - intros ah' ->. split; [done|]. by eapply confines_runs_at.
Qed.
Lemma encoded_if_exists_ok `{LawfulChunkCache (option bytes) κ} :
  creads (κ := κ) abs a encoded_fresh (encoded_if_exists a c options) M (λ r, r = (λ _, b) <$> stored).
Proof.
  unfold encoded_if_exists. rewrite (validate_indices_ok a Ha) by done. apply creads_lift_bind.
  eapply creads_bind; [apply encoded_chunk_ok|]. intros r ->. pose proof Hb as (Hh & Hz & _ & _)%(chunk_holds_dt a Ha).
  revert Hb. destruct stored as [enc|]; intros Hb'; [|by apply creads_return].
  rewrite (chunk_holds_decodes a Ha c enc f b options Hc Hb'). apply creads_lift_bind.
  pose proof (holds_valid _ _ _ Hh) as Hval. rewrite Hz in Hval. rewrite (sub_product a Ha) by done. rewrite Hval. apply creads_lift_bind.
  by apply creads_return.
Qed.

Lemma encoded_subset_ok `{LawfulChunkCache (option bytes) κ} o : subset_wf o → covers (sub c) o → is_empty o = false →
  creads (κ := κ) abs a encoded_fresh (encoded_subset_bytes a c (within o (sub c)) options) M (λ out,
    holds out dt (contents f o) ∧ array_bytes_size out <= array_bytes_size b).
Proof.
  intros Ho Hcov Hne. destruct (within_start a Ha c o Hc Ho Hcov Hne) as [Hok _].
  eapply creads_bind; [apply encoded_decoder_ok|]. intros ah [Hreads Hconf]. destruct (Hreads _ Hok) as (out & Hrun & Hho & Hsz & _).
  rewrite (select_contents f) in Hho by (done || by apply (sub_wf a Ha)).
  eapply creads_weaken; [apply (creads_store abs a encoded_fresh _ _ out)|by intros ? ->].
  apply (runs_read (array_chunk_key a c)); [apply confined_map_err, Hconf|]. by apply (runs_at_map_err ArrayCodecError _ _ (Ok out)).
Qed.
End store.

#[export] Instance decoded_lawful : LawfulChunkCacheType G K C (option ArrayBytes).
Proof.
  refine {| fresh := decoded_fresh |}.
  - intros κ S abs ? ? ? ? ? ? a f M c b options Ha Hc Hb. eapply creads_weaken; [by eapply decoded_if_exists_ok|]. intros r ->.
    revert Hb. destruct (M !! array_chunk_key a c) as [enc|]; intros Hb; [|done]. exists b. split_and!; [done| |lia].
    by apply (chunk_holds_dt a Ha) in Hb as [? _].
  - intros. by eapply decoded_subset_ok.
  - intros κ S abs ? ? ? ? ? ? a f M c b options Ha Hc Hb. eapply creads_bind; [by eapply decoded_if_exists_ok|]. intros r ->.
    rewrite (validate_indices_ok a Ha) by done. apply creads_lift_bind, creads_return. by apply decoded_handle_reads.
Defined.

#[export] Instance encoded_lawful : LawfulChunkCacheType G K C (option bytes).
Proof.
  refine {| fresh := λ _, encoded_fresh |}.
  - intros κ S abs ? ? ? ? ? ? a f M c b options Ha Hc Hb. eapply creads_weaken; [by eapply encoded_if_exists_ok|]. intros r ->.
    revert Hb. destruct (M !! array_chunk_key a c) as [enc|]; intros Hb; [|done]. exists b. split_and!; [done| |lia].
    by apply (chunk_holds_dt a Ha) in Hb as [? _].
  - intros. by eapply encoded_subset_ok.
  - intros. eapply creads_weaken; [by eapply encoded_decoder_ok|]. by intros ah [? _].
Defined.
End laws.
