(* ===== verification/CachedRegions.v ===== *)
(** Reading regions through a cache.

    The parts that the cache gives are parts of the region like those read from the
    store, and the same lemmas assemble them.  Fixed-length data with masks is assembled in memory for the data and one
    mask: for optionals of optionals the operation panics. *)

From S2P Require Import Prelude ArraySubset Linear Iterators ChunkGrid ByteRange StoreKey ChunkKey.
From S2P Require Import Storage MemoryStore ArrayBytes Elements Regions StoreProgram DecodeInto GridRegions.
From S2P Require Import Concurrency Codec ArrayOps ArraySpec StoreRegion RetrieveRegion ChunkCache ArrayCached ArrayCachedSpec.

Section regions.
Context {G K C V κ S : Type} `{LawfulChunkGrid G} `{LawfulChunkKeyEncoding K} `{LawfulArrayToBytesCodec C}.
Context `{!ChunkCacheType G K C V, !LawfulChunkCacheType G K C V}.
Context (abs : S → gmap str bytes) `{HL : LawfulStorage S abs} `{LawfulChunkCache V κ}.
Context (a : Array G K C) (Ha : array_wf a) (f : list Z → element) (M : gmap str bytes) (HM : array_holds a M f).

#[local] Abbreviation g := (chunk_grid a).
#[local] Abbreviation dt := (data_type a).
#[local] Abbreviation key := (array_chunk_key a).
#[local] Abbreviation sub := (region_of a).
#[local] Abbreviation reads m P := (creads (κ := κ) abs a (fresh a) m M P).

(** ** Chunks *)

Lemma chunk_reads c options : in_grid g c → reads (retrieve_chunk_bytes a c options) (λ out, holds out dt (contents f (sub c))).
Proof.
  intros Hc. destruct (HM c Hc) as [b Hb]. eapply creads_bind; [by apply (if_exists_law abs a f M c b)|]. intros r.
  revert Hb. destruct (M !! key c) as [enc|]; intros Hb.
  - intros (b' & -> & Hh & _). by apply creads_return.
  - intros ->. destruct (fill_value_bytes_ok a Ha c f b Hc Hb) as [Hf Hh].
    rewrite (validate_indices_ok a Ha) by done. apply creads_lift_bind. rewrite Hf. by apply creads_lift.
Qed.

(** ** The parts of a region *)

Lemma cached_part_ok options r c : region_in a r → in_grid g c → meets a r c →
  reads (cached_chunk_part a r options c) (λ p, ∃ q, part_data a f M r c q ∧ p = (q.1.2, within q.1.1 r)).
Proof.
  intros Hr Hc Hm. destruct (chunk_overlap a Ha r c Hr Hc Hm) as (o & Hov & _ & Hwf & Hno & Hc1 & Hc2 & Hix & Hr1 & Hr2 & Hok).
  destruct (HM c Hc) as [b Hb]. unfold cached_chunk_part. rewrite (array_chunk_subset_ok a Ha) by done. apply creads_lift_bind.
  rewrite Hov. apply creads_lift_bind. rewrite Hr1. apply creads_lift_bind.
  eapply creads_bind; [by apply (subset_bytes_law abs a f M c b)|]. intros out [Hh Hsz]. rewrite Hr2. apply creads_lift_bind, creads_return.
  destruct (part_intro a Ha f M r c o out b Hr Hc Hm Hov Hh Hb Hsz) as [E HE]. by exists (o, out, E).
Qed.

Lemma parts_collect r (l : list (list Z)) ps : Forall2 (λ c p, ∃ q, part_data a f M r c q ∧ p = (q.1.2, within q.1.1 r)) l ps →
  ∃ qs, Forall2 (part_data a f M r) l qs ∧ ps = part_pairs r qs.
Proof.
  induction 1 as [|c p l ps (q & Hq & ->) _ (qs & Hqs & ->)]; [by exists []|]. exists (q :: qs). split; [by constructor|done].
Qed.

Lemma cached_variable_ok options r chunks l : region_in a r → NoDup l → (∀ c, c ∈ l ↔ in_grid g c ∧ meets a r c) →
  (∀ E, indices (E:=E) chunks = Ok l) → data_type_size dt = VariableSize → (∀ qs, Forall2 (part_data a f M r) l qs → parts_size qs < 2 ^ 63) →
  reads (cached_multi_chunk_variable a r chunks options) (λ out, holds out dt (contents f r)).
Proof.
  intros Hr Hnd Hl Hind Hs Hsize. unfold cached_multi_chunk_variable. rewrite Hind. apply creads_lift_bind.
  eapply creads_bind; [apply creads_map|].
  { intros c [Hc Hm]%Hl. by apply cached_part_ok. }
  intros ps (qs & Hq & ->)%parts_collect. specialize (Hsize qs Hq).
  destruct (Nat.ltb_spec 0 (optional_nesting_depth dt)) as [Hd|Hd].
  - destruct (merge_optional_parts a Ha f M r l qs Hr Hnd Hl Hq Hs Hsize Hd) as (out & Hout & Ho).
    assert (collect_res (E:=ArrayError) ((λ '(b, subset), let? (data, mask) := unwrap (into_optional b) in Ok (OptionalBytes data mask, subset)) <$>
      part_pairs r qs) = Ok (part_pairs r qs)) as ->.
    { clear -Hq Hd. induction Hq as [|c [[o b] D] l qs (_ & _ & _ & _ & _ & _ & _ & HD & _) Hq IH]; [done|].
      unfold part_pairs in *. rewrite !fmap_cons. cbn [collect_res fst snd]. destruct (optional_part a b D Hd HD) as (data & mask & ->). simpl. by rewrite IH. }
    apply creads_lift_bind. rewrite Hout. by apply creads_lift.
  - assert (optional_nesting_depth dt = 0)%nat as Hd0 by lia.
    destruct (merge_variable_parts a Ha f M r l qs Hr Hnd Hl Hq Hs Hsize Hd0) as (vs & v & Hvs & Hm & Ho).
    assert (collect_res (E:=ArrayError) ((λ '(b, subset), let? v := unwrap (into_variable b) in Ok (v, subset)) <$> part_pairs r qs) = Ok vs) as ->.
    { clear -Hvs. induction Hvs as [|[[o b] D] [v s] qs vs [Hb Hw] Hvs IH]; [done|]. unfold part_pairs in *. rewrite !fmap_cons. cbn [collect_res fst snd] in *.
      subst. simpl. by rewrite IH. }
    apply creads_lift_bind. rewrite Hm. by apply creads_lift_bind, creads_return.
Qed.

(** ** Fixed-length data *)

Definition cached_decoded (r : ArraySubset) (done_ : list (list Z)) (outputs : bytes * option bytes) : Prop :=
  decoded a f r done_ (outputs.1, option_list outputs.2).

Lemma cached_step options r c d done_ outputs : region_in a r → in_grid g c → meets a r c → data_type_size dt = FixedSize d →
  0 < d → Zprod (shape r) * d < 2 ^ 63 → cached_decoded r done_ outputs →
  reads (cached_chunk_fixed a r d options outputs c) (cached_decoded r (done_ ++ [c])).
Proof.
  intros Hr Hc Hm Hs Hd Hb Hdec.
  destruct (chunk_overlap a Ha r c Hr Hc Hm) as (o & Hov & _ & Hwf & Hno & Hc1 & Hc2 & Hix & Hr1 & Hr2 & Hok).
  destruct (HM c Hc) as [b0 Hb0]. destruct outputs as [data mask]. unfold cached_chunk_fixed.
  rewrite (array_chunk_subset_ok a Ha) by done. apply creads_lift_bind. rewrite Hov. apply creads_lift_bind. rewrite Hr2. apply creads_lift_bind.
  rewrite Hr1. apply creads_lift_bind. eapply creads_bind; [by apply (subset_bytes_law abs a f M c b0)|]. intros out [Hout _].
  destruct (decode_part a Ha f r c o d done_ _ out Hr Hc Hm Hov Hs Hd Hb Hdec Hout) as (dv & mv & t' & data' & masks' & Hdv & Hmv & _ & Hdi & Hex & Hdec').
  cbn [fst snd] in *. rewrite Hdv. apply creads_lift_bind. destruct mask as [m|].
  - change (option_list (Some m)) with [m] in *. apply Forall_cons in Hmv as [Hmv _]. rewrite Hmv.
    apply creads_bind with (λ mask_view, mask_view = Some (mv, m)); [by apply creads_lift_bind, creads_return|]. intros mask_view ->.
    cbn [fmap list_fmap build_nested_optional_target fst snd] in *.
    destruct out as [?|?|[b|?|? ?] mb]; try done. cbn [decode_into_array_bytes_target] in Hdi.
    destruct (view_copy_from_slice dv data b) as [data1| |]; [|done..]. cbn [obind] in Hdi.
    destruct (view_copy_from_slice mv m mb) as [m1| |]; [|done..]. cbn [obind] in Hdi. injection Hdi as <-.
    cbn [extract_target_views] in Hex. injection Hex as <- Hms. apply creads_lift_bind, creads_lift_bind, creads_return.
    unfold cached_decoded. cbn [fst snd]. change (option_list (Some m1)) with [m1]. destruct masks' as [|m' [|? ?]]; try done. by injection Hms as <-.
  - change (option_list None) with (@nil bytes) in *. apply creads_bind with (λ mask_view, mask_view = None); [by apply creads_return|]. intros mask_view ->.
    cbn [fmap list_fmap build_nested_optional_target fst snd] in *. destruct out as [b|?|? ?]; try done. cbn [decode_into_array_bytes_target] in Hdi.
    destruct (view_copy_from_slice dv data b) as [data1| |]; [|done..]. cbn [obind] in Hdi. injection Hdi as <-.
    cbn [extract_target_views] in Hex. injection Hex as <- Hms. apply creads_lift_bind, creads_return.
    unfold cached_decoded. cbn [fst snd]. change (option_list None) with (@nil bytes). by destruct masks'.
Qed.

Context (uninit : Z → bytes) (Huninit : ∀ n, 0 <= n → zlen (uninit n) = n).

(** The memory that the operation allocates: the masks of at most one level. *)
Definition mask_memory (n : Z) : option bytes := match dt with OptionalType _ => Some (uninit n) | PlainType _ => None end.

Lemma region_size r d : region_in a r → 0 < d → Zprod (shape r) * d < 2 ^ 63 →
  num_elements_usize r = Zprod (shape r) ∧ num_elements_usize r *w d = Zprod (shape r) * d ∧ 0 < Zprod (shape r) * d.
Proof.
  intros (Hrw & Hrne & _ & Hr63) Hd Hb. pose proof (Zprod_nonneg _ (subset_shape_nonneg r Hrw)) as Hnn.
  assert (0 < Zprod (shape r)) as Hpos.
  { apply Zprod_pos, Forall_total. intros j Hj. apply is_empty_false; [done|done|]. by rewrite <-(proj1 Hrw). }
  unfold num_elements_usize, num_elements. rewrite product64_wf by (split; [by apply subset_shape_nonneg|unfold u64_modulus; lia]).
  rewrite wrap64_small by (unfold is_u64, u64_modulus; nia). split_and!; [done..|nia].
Qed.

Lemma cached_fixed_ok options r d chunks l : region_in a r → data_type_size dt = FixedSize d → 0 < d → Zprod (shape r) * d < 2 ^ 63 →
  (optional_nesting_depth dt <= 1)%nat → (∀ E, indices (E:=E) chunks = Ok l) → (∀ c, c ∈ l ↔ in_grid g c ∧ meets a r c) →
  reads (cached_multi_chunk_fixed uninit a r chunks options) (λ out, holds out dt (contents f r)).
Proof.
  intros Hr Hs Hd Hb Hdep Hind Hl. unfold cached_multi_chunk_fixed, fixed_size. rewrite Hs. apply creads_lift_bind.
  destruct (region_size r d Hr Hd Hb) as (Hn & Hsz & Hpos). rewrite Hsz, Hn, (proj2 (Z.eqb_neq _ _)) by lia.
  rewrite Hind. apply creads_lift_bind. fold (mask_memory (Zprod (shape r))).
  eapply creads_bind; [apply (creads_fold abs a (fresh a) _ l M (cached_decoded r))|].
  - intros done_ c rest outputs Hlc Hdec. assert (c ∈ l) as [Hc Hm]%Hl by (rewrite Hlc; apply elem_of_app; right; apply list_elem_of_here).
    by apply cached_step.
  - unfold cached_decoded. cbn [fst snd].
    replace (option_list (mask_memory (Zprod (shape r)))) with (replicate (optional_nesting_depth dt) (uninit (Zprod (shape r))));
      [by apply (fresh_memory a f uninit Huninit r d)|]. unfold mask_memory.
    destruct dt as [?|inner]; [done|]. simpl in Hdep |- *. by replace (optional_nesting_depth inner) with 0%nat by lia.
  - intros [data mask] Hdec. apply creads_return. apply (decoded_all a Ha f r l) in Hdec; [|done..]. by destruct mask.
Qed.

(** ** Regions *)

Lemma cached_region_reads options r : region_in a r → output_fits a f M r →
  (optional_nesting_depth dt <= 1)%nat ∨ data_type_size dt = VariableSize →
  reads (cached_retrieve_array_subset_opt uninit a r options) (λ out, holds out dt (contents f r)).
Proof.
  intros Hr Hfits Hdep. destruct (region_chunks a Ha r Hr) as (chunks & l & Hchunks & Hind & Hnd & Hnum & Hst & Hl & Hbox).
  pose proof Hr as (Hrw & Hne & [Hla _] & Hr63). pose proof Hst as Hst'. apply Hl in Hst' as [Hcg Hcm].
  assert (l ≠ []) as Hlne by (intros ->; by apply not_elem_of_nil in Hst).
  unfold cached_retrieve_array_subset_opt, dimensionality. rewrite (proj2 (Nat.eqb_eq _ _)) by done. cbn [negb]. rewrite Hchunks. apply creads_lift_bind.
  pose proof (first_chunk a Ha _ Hcg) as Hfirst. rewrite (array_chunk_shape_ok a Ha) by done. apply creads_lift_bind. rewrite Hnum.
  destruct (Z.eqb_spec (zlen l) 0) as [H0l|_]; [destruct l; [done|simpl in H0l; lia]|].
  destruct (Z.eqb_spec (zlen l) 1) as [H1l|H1l].
  - rewrite (array_chunk_subset_ok a Ha) by done. apply creads_lift_bind. destruct (HM _ Hcg) as [b Hb].
    destruct (single_chunk a Ha r _ l Hr Hst Hl H1l) as [Hl1 Hcov].
    destruct (bool_decide_reflect (sub (start chunks) = r)) as [Heq|_].
    + rewrite <-Heq. by apply chunk_reads.
    + destruct (relative_to_within (sub (start chunks)) r) as (Hrel & _); [by apply (sub_wf a Ha)|done..|]. rewrite Hrel. apply creads_lift_bind.
      eapply creads_weaken; [by apply (subset_bytes_law abs a f M (start chunks) b)|]. by intros out [? _].
  - destruct (concurrency_ok a Ha _ _ Hfirst eq_refl) as [rc ->]. apply creads_lift_bind.
    destruct (concurrency_chunks_and_codec _ _ _ _) as [limit options']. pose proof (dt_fill_ok a Ha) as Hfill. unfold fill_ok in Hfill.
    unfold output_fits in Hfits. unfold fixed_size. destruct (data_type_size dt) as [d|] eqn:Hs.
    + destruct Hdep as [Hdep|?]; [|done]. by apply (cached_fixed_ok options' r d chunks l Hr Hs (proj1 Hfill) Hfits Hdep).
    + apply (cached_variable_ok options' r chunks l Hr Hnd Hl Hind Hs). intros qs Hqs.
      destruct Hfits as (B & HB & Hsz & Hfit). specialize (Hfit chunks Hchunks). rewrite Hnum in Hfit.
      apply Z.le_lt_trans with (zlen l * B); [|done]. apply (parts_size_le a f M r l qs B); [intros c; by apply Hl|done|done].
Qed.

(** ** Optionals of optionals *)

(** The operations below are run step by step. *)
Ltac cstep := unfold cbind at 1; cbn [clift creturn map_err].

(** On data with two levels of masks, the first chunk is not what the code expects. *)
Lemma cached_nested_chunk options r c0 d c s : region_in a r → in_grid g c0 → meets a r c0 → data_type_size dt = FixedSize d →
  0 < d → Zprod (shape r) * d < 2 ^ 63 → (2 <= optional_nesting_depth dt)%nat → coherent a (fresh a) M c → abs s = M →
  (cached_chunk_fixed a r d options (uninit (Zprod (shape r) * d), mask_memory (Zprod (shape r))) c0 (c, s)).2 = Panic.
Proof.
  intros Hr Hc0 Hm0 Hds Hd Hb Hdep Hc Hs. destruct (chunk_overlap a Ha r c0 Hr Hc0 Hm0) as (o & Hov & _ & Hwf & Hno & Hc1 & Hc2 & Hix & Hr1 & Hr2 & Hok).
  destruct (HM c0 Hc0) as [b0 Hb0]. unfold cached_chunk_fixed. rewrite (array_chunk_subset_ok a Ha) by done. cstep.
  rewrite Hov. cstep. rewrite Hr2. cstep. rewrite Hr1. cstep.
  destruct (subset_bytes_law abs a f M c0 b0 o options Ha Hc0 Hb0 Hwf Hc1 Hno c s Hc Hs) as (c' & s' & out & Hrun & _ & _ & Hout & _).
  unfold cbind at 1. rewrite Hrun. pose proof (fresh_memory a f uninit Huninit r d Hr Hds Hd Hb) as Hdec.
  destruct (decode_part a Ha f r c0 o d [] _ out Hr Hc0 Hm0 Hov Hds Hd Hb Hdec Hout) as (dv & mv & t' & data' & masks' & Hdv & Hmv & _).
  cbn [fst snd] in *. rewrite Hdv. cstep. destruct Hout as [(E & HE & _) _]. unfold mask_memory.
  destruct dt as [?|[?|inner]]; [simpl in Hdep; lia..|]. cbn [optional_nesting_depth replicate] in Hmv. apply Forall_cons in Hmv as [Hmv _].
  unfold cbind. cbn [clift creturn map_err]. rewrite Hmv. destruct out as [?|?|[?|?|? ?] ?]; try done; cbn [represents] in HE.
  all: by destruct HE as (? & ? & _).
Qed.

(** With more than one chunk, the operation panics. *)
Lemma cached_nested_panics options r c s : region_in a r → output_fits a f M r →
  (2 <= optional_nesting_depth dt)%nat → data_type_size dt ≠ VariableSize →
  (∀ chunks, array_chunks_in_array_subset a r = Ok (Some chunks) → 2 <= num_elements_usize chunks) →
  coherent a (fresh a) M c → abs s = M → (cached_retrieve_array_subset_opt uninit a r options (c, s)).2 = Panic.
Proof.
  intros Hr Hfits Hdep Hv Hmany Hc Hs. destruct (region_chunks a Ha r Hr) as (chunks & l & Hchunks & Hind & Hnd & Hnum & Hst & Hl & Hbox).
  specialize (Hmany chunks Hchunks). pose proof Hr as (Hrw & Hne & [Hla _] & Hr63). pose proof Hst as Hst'. apply Hl in Hst' as [Hcg Hcm].
  unfold cached_retrieve_array_subset_opt, dimensionality. rewrite (proj2 (Nat.eqb_eq _ _)) by done. cbn [negb]. rewrite Hchunks. cstep.
  pose proof (first_chunk a Ha _ Hcg) as Hfirst. rewrite (array_chunk_shape_ok a Ha) by done. cstep. rewrite Hnum in *.
  rewrite !(proj2 (Z.eqb_neq _ _)) by lia. destruct (concurrency_ok a Ha _ _ Hfirst eq_refl) as [rc ->]. cstep.
  destruct (concurrency_chunks_and_codec _ _ _ _) as [limit options']. unfold output_fits in Hfits. pose proof (dt_fill_ok a Ha) as Hfill. unfold fill_ok in Hfill.
  destruct (data_type_size dt) as [d|] eqn:Hds; [|done]. unfold cached_multi_chunk_fixed, fixed_size. rewrite Hds. cbn [expect]. cstep.
  destruct (region_size r d Hr (proj1 Hfill) Hfits) as (Hn & Hsz & Hpos). rewrite Hsz, Hn, (proj2 (Z.eqb_neq _ _)) by lia.
  rewrite Hind. cstep. destruct l as [|c0 l]; [simpl in Hmany; lia|].
  assert (in_grid g c0 ∧ meets a r c0) as [Hc0 Hm0] by apply Hl, list_elem_of_here.
  pose proof (cached_nested_chunk options' r c0 d c s Hr Hc0 Hm0 Hds (proj1 Hfill) Hfits Hdep Hc Hs) as Hp. unfold mask_memory in Hp.
  cbn [ctry_fold]. unfold cbind. destruct (cached_chunk_fixed _ _ _ _ _ _ _) as [st x]. cbn [snd] in Hp. by subst x.
Qed.
End regions.
