(* ===== verification/CachedTheorems.v ===== *)
(** An array with a cache behaves as the array: [ArrayCached] against the function from indices to
    elements that the array holds.

    Requests to read and write regions, made one after the other through the same cache from a coherent state, are
    answered as the abstract array answers them. *)

From S2P Require Import Prelude ArraySubset Linear Iterators ChunkGrid RegularGrid ByteRange StoreKey ChunkKey.
From S2P Require Import Storage MemoryStore ArrayBytes Elements Regions StoreProgram DecodeInto GridRegions.
From S2P Require Import Concurrency Codec BytesCodec ArrayOps ArraySpec StoreRegion RetrieveRegion ArrayTheorems.
From S2P Require Import OptionalCodec OptionalLaws ChunkCache ChunkCacheSpec ArrayCached ArrayCachedSpec CachedRegions.

Section writes.
Context {G K C V κ S : Type} `{LawfulChunkGrid G} `{LawfulChunkKeyEncoding K} `{LawfulArrayToBytesCodec C}.
Context `{!ChunkCacheType G K C V, !LawfulChunkCacheType G K C V}.
Context (abs : S → gmap str bytes) `{HL : LawfulStorage S abs} `{LawfulChunkCache V κ}.
Context (a : Array G K C) (Ha : array_wf a) (f : list Z → element) (M : gmap str bytes) (HM : array_holds a M f).

#[local] Abbreviation g := (chunk_grid a).
#[local] Abbreviation dt := (data_type a).
#[local] Abbreviation key := (array_chunk_key a).
#[local] Abbreviation sub := (region_of a).
#[local] Abbreviation writes m P := (cwrites (κ := κ) abs a (fresh a) m M P).

Lemma cached_store_region options r data h : empty_chunks_ok a options → experimental_partial_encoding options = false →
  region_in a r → holds data dt (contents h r) → rooms a f M r data →
  writes (cached_store_array_subset_opt a r data options) (λ _ M', written a f M M' r h).
Proof.
  intros He Hp Hr Hd Hroom. destruct (store_array_subset_runs a Ha f options r data h M He Hp Hr Hd HM Hroom) as (M' & Hrun & Hw).
  destruct (region_chunks a Ha r Hr) as (chunks & l & Hchunks & Hind & _ & _ & _ & Hl & _).
  unfold cached_store_array_subset_opt. rewrite Hchunks. intros c s Hc Hs.
  destruct (cwrites_chunks abs a (fresh a) _ chunks l M M' Hind Hrun) with c s as (c' & s' & x & Hrun' & Hc' & <-); [|done..|by exists c', s', x].
  intros k Hk Hn. apply (proj2 Hw). intros d Hd' Hm Heq. apply Hn. rewrite (key_inj a Ha k d Hk Hd' Heq). by apply Hl.
Qed.

(** A chunk that is overwritten, alone. *)
Lemma overwrite_chunk c v' f' b' : in_grid g c → chunk_holds a c v' f' b' →
  array_holds a (put (key c) v' M) (overwrite f f' (sub c)).
Proof.
  intros Hc Hb d Hd. pose proof (sub_wf a Ha c Hc) as Hsc. destruct (decide (d = c)) as [->|Hdc].
  - exists b'. rewrite put_lookup. unfold chunk_holds in *. by rewrite (contents_ext (overwrite f f' (sub c)) f') by (done || (intros; by apply overwrite_in)).
  - destruct (HM d Hd) as [b Hbd]. exists b. rewrite put_lookup_ne by (intros He; by apply Hdc, (key_inj a Ha)).
    apply (chunk_holds_ext a Ha d _ f); [done| |done]. intros ix Hix. symmetry. apply overwrite_out; [done| |].
    + pose proof (in_grid_u64 a Ha c Hc) as [_ Hlc]. pose proof (in_grid_u64 a Ha d Hd) as [_ Hld]. destruct Hix as [-> _].
      unfold region_of, subset_of, axes_origin. simpl. rewrite !length_zip_with. lia.
    + intros Hix'. apply Hdc. by apply (sub_disjoint a Ha d c ix).
Qed.

Lemma cached_store_chunk_ok options c data h : in_grid g c → empty_chunks_ok a options → holds data dt (contents h (sub c)) →
  array_bytes_size data < a2b_limit (codecs_bound a) (shape (sub c)) →
  writes (cached_store_chunk_opt a c data options) (λ _ M', array_holds a M' (overwrite f h (sub c))).
Proof.
  intros Hc He Hd Hsz. destruct (store_chunk_ok a Ha c (M !! key c) h data options Hc He Hd Hsz) as (v' & b' & Hrun & Hb' & _).
  intros c0 s Hc0 Hs. destruct (cwrites_chunk abs a (fresh a) (store_chunk_opt a c data options) c M v' Ha Hc) with c0 s as (c' & s' & x & Hr & Hc' & HM');
    [apply runs_confined; [by apply store_chunk_confined|done]|done..|].
  exists c', s', x. split_and!; [done..|]. rewrite HM'. by apply overwrite_chunk with b'.
Qed.

Lemma cached_erase_chunk_ok c : in_grid g c →
  writes (cached_erase_chunk a c) (λ _ M', array_holds a M' (overwrite f (λ _, fill_element dt (fill_value a)) (sub c))).
Proof.
  intros Hc c0 s Hc0 Hs. destruct (cwrites_chunk abs a (fresh a) (erase_chunk a c) c M None Ha Hc) with c0 s as (c' & s' & x & Hr & Hc' & HM');
    [by simpl; exists tt, None|done..|].
  exists c', s', x. split_and!; [done..|]. rewrite HM'. destruct (empty_array_holds a Ha ∅ (λ c _, lookup_empty _) c Hc) as [b Hb]. rewrite lookup_empty in Hb.
  by apply overwrite_chunk with b.
Qed.
End writes.

(** ** Requests *)

(** A request, with the elements that are written; [data] are the bytes given to the code. *)
Inductive request :=
  | ReadRegion (r : ArraySubset)
  | WriteRegion (r : ArraySubset) (h : list Z → element) (data : ArrayBytes)
  | WriteChunk (c : list Z) (h : list Z → element) (data : ArrayBytes)
  | EraseChunk (c : list Z).

(** What the abstract array [f] answers and becomes; [region] is the region of a chunk, [fill] the fill value. *)
Fixpoint answers (dt : DataType) (region : list Z → ArraySubset) (fill : element) (f : list Z → element)
    (requests : list request) (outs : list (option ArrayBytes)) : Prop :=
  match requests, outs with
  | [], [] => True
  | ReadRegion r :: requests, Some out :: outs => holds out dt (contents f r) ∧ answers dt region fill f requests outs
  | WriteRegion r h _ :: requests, None :: outs => answers dt region fill (overwrite f h r) requests outs
  | WriteChunk c h _ :: requests, None :: outs => answers dt region fill (overwrite f h (region c)) requests outs
  | EraseChunk c :: requests, None :: outs => answers dt region fill (overwrite f (λ _, fill) (region c)) requests outs
  | _, _ => False
  end.

Section requests.
Context {G K C V κ S : Type} `{LawfulChunkGrid G} `{LawfulChunkKeyEncoding K} `{LawfulArrayToBytesCodec C}.
Context `{!ChunkCacheType G K C V, !LawfulChunkCacheType G K C V}.
Context (abs : S → gmap str bytes) `{HL : LawfulStorage S abs} `{LawfulChunkCache V κ}.

Definition cached_request (uninit : Z → bytes) (a : Array G K C) (options : CodecOptions) (req : request)
    : cop κ S ArrayError (option ArrayBytes) :=
  match req with
  | ReadRegion r => let& b := cached_retrieve_array_subset_opt uninit a r options in creturn (Some b)
  | WriteRegion r _ data => let& _ := cached_store_array_subset_opt a r data options in creturn None
  | WriteChunk c _ data => let& _ := cached_store_chunk_opt a c data options in creturn None
  | EraseChunk c => let& _ := cmap_err ArrayStorageError (cached_erase_chunk a c) in creturn None
  end.

(** A request on elements of [d] bytes that fits: its region, its data, and the chunks with the data. *)
Definition request_ok (a : Array G K C) (d : Z) (req : request) : Prop :=
  match req with
  | ReadRegion r => region_in a r ∧ Zprod (shape r) * d < 2 ^ 63
  | WriteRegion r h data => region_in a r ∧ holds data (data_type a) (contents h r) ∧
      ∀ c, in_grid (chunk_grid a) c → (Zprod (shape (region_of a c)) + Zprod (shape r)) * d < a2b_limit (codecs_bound a) (shape (region_of a c))
  | WriteChunk c h data => in_grid (chunk_grid a) c ∧ holds data (data_type a) (contents h (region_of a c)) ∧
      Zprod (shape (region_of a c)) * d < a2b_limit (codecs_bound a) (shape (region_of a c))
  | EraseChunk c => in_grid (chunk_grid a) c
  end.

(** C7: through a cache the array behaves as the array.  For a data type of a fixed size with at most one level of masks, and without
    the experimental partial encoding: on a lawful store, from any coherent state of any lawful cache of decoded or of encoded chunks,
    requests to read, write and erase that fit succeed one after the other, and every read gives the elements that the writes before
    it have left, whatever has been cached or evicted. *)
Theorem cached_array_refines (a : Array G K C) (f : list Z → element) (uninit : Z → bytes) (options : CodecOptions) (d : Z)
    (requests : list request) (c : κ) (s : S) :
  array_wf a → (∀ n, 0 <= n → zlen (uninit n) = n) → empty_chunks_ok a options → experimental_partial_encoding options = false →
  data_type_size (data_type a) = FixedSize d → (optional_nesting_depth (data_type a) <= 1)%nat → Forall (request_ok a d) requests →
  array_holds a (abs s) f → coherent a (fresh a) (abs s) c →
  ∃ c' s' outs, ctry_map (cached_request uninit a options) requests (c, s) = ((c', s'), Ok outs) ∧
    answers (data_type a) (region_of a) (fill_element (data_type a) (fill_value a)) f requests outs ∧ coherent a (fresh a) (abs s') c'.
Proof.
  intros Ha Hu He Hp Hd Hn Hreq. revert f c s. induction Hreq as [|req requests Hr Hreq IH]; intros f c s Hf Hc; [by exists c, s, []|].
  assert (∃ c1 s1 out f1, cached_request uninit a options req (c, s) = ((c1, s1), Ok out) ∧ coherent a (fresh a) (abs s1) c1 ∧ array_holds a (abs s1) f1 ∧
    ∀ outs, answers (data_type a) (region_of a) (fill_element (data_type a) (fill_value a)) f1 requests outs →
      answers (data_type a) (region_of a) (fill_element (data_type a) (fill_value a)) f (req :: requests) (out :: outs)) as (c1 & s1 & out & f1 & Hrun & Hc1 & Hf1 & Hans).
  { destruct req as [r|r h data|ch h data|ch]; cbn [cached_request request_ok] in *.
    - destruct Hr as [Hr Hfit]. destruct (cached_region_reads abs a Ha f (abs s) Hf uninit Hu options r Hr) with c s as (c1 & s1 & out & Hrun & Hc1 & Hs1 & Ho);
        [by unfold output_fits; rewrite Hd|by left|done..|].
      exists c1, s1, (Some out), f. unfold cbind. rewrite Hrun. by rewrite Hs1.
    - destruct Hr as (Hr & Hh & Hfit). pose proof (fixed_rooms a Ha f (abs s) r data h d Hh Hr Hd Hfit) as Hroom.
      destruct (cached_store_region abs a Ha f (abs s) Hf options r data h He Hp Hr Hh Hroom) with c s as (c1 & s1 & [] & Hrun & Hc1 & Hw & _); [done..|].
      exists c1, s1, None, (overwrite f h r). unfold cbind. by rewrite Hrun.
    - destruct Hr as (Hch & Hh & Hfit).
      destruct (cached_store_chunk_ok abs a Ha f (abs s) Hf options ch data h Hch He Hh) with c s as (c1 & s1 & [] & Hrun & Hc1 & Hw); [|done..|].
      { rewrite (holds_size _ _ _ d Hh Hd), contents_length by (by apply (sub_wf a Ha)). lia. }
      exists c1, s1, None, (overwrite f h (region_of a ch)). unfold cbind. by rewrite Hrun.
    - destruct (cached_erase_chunk_ok abs a Ha f (abs s) Hf ch Hr) with c s as (c1 & s1 & [] & Hrun & Hc1 & Hw); [done..|].
      exists c1, s1, None, (overwrite f (λ _, fill_element (data_type a) (fill_value a)) (region_of a ch)). unfold cbind, cmap_err. by rewrite Hrun. }
  destruct (IH f1 c1 s1 Hf1 Hc1) as (c' & s' & outs & Hrest & Ha' & Hc'). exists c', s', (out :: outs). split_and!; [|by apply Hans|done].
  cbn [ctry_map]. unfold cbind at 1. rewrite Hrun. unfold cbind. by rewrite Hrest.
Qed.

(** C33: reading optionals of optionals through a cache panics.  For a fixed-length data type with two levels of masks or more, a region of
    the array that meets more than one chunk is read without a cache, and panics through any lawful cache. *)
Theorem cached_nested_optional_panics (a : Array G K C) (f : list Z → element) (uninit : Z → bytes) (options : CodecOptions) (r chunks : ArraySubset)
    (c : κ) (s : S) :
  array_wf a → (∀ n, 0 <= n → zlen (uninit n) = n) → array_holds a (abs s) f → coherent a (fresh a) (abs s) c →
  (2 <= optional_nesting_depth (data_type a))%nat → data_type_size (data_type a) ≠ VariableSize → region_in a r → output_fits a f (abs s) r →
  array_chunks_in_array_subset a r = Ok (Some chunks) → 2 <= num_elements_usize chunks →
  (∃ s' out, run (retrieve_array_subset_opt uninit a r options) s = (s', Ok out) ∧ holds out (data_type a) (contents f r)) ∧
  (cached_retrieve_array_subset_opt uninit a r options (c, s)).2 = Panic.
Proof.
  intros Ha Hu Hf Hc Hdep Hv Hr Hfit Hchunks Hmany. split.
  - destruct (retrieve_array_subset_runs a Ha f (abs s) Hf uninit Hu options r Hr Hfit) as (out & Hrun & Ho).
    destruct (run_runs abs _ _ _ _ Hrun) as (s' & Hs & _). by exists s', out.
  - apply (cached_nested_panics abs a Ha f (abs s) Hf uninit Hu options r c s Hr Hfit Hdep Hv); [|done..].
    intros chunks'. rewrite Hchunks. by intros [= <-].
Qed.
(** C34: a write that fails after it has changed chunks leaves them in the cache.  When storing a region gives an error the cache is
    as it was, so that a decoded chunk it holds is still read from it, whatever the store has become; a partial encoder, in contrast,
    lets go of its chunk unless it panics. *)
Theorem failed_write_keeps_cache `{!ChunkCache (option ArrayBytes) κ, !LawfulChunkCache (option ArrayBytes) κ} (a : Array G K C)
    (options : CodecOptions) (r : ArraySubset) (data : ArrayBytes) (c : κ) (s s' : S) (e : ArrayError) :
  array_wf a → cache_wf (V:=option ArrayBytes) c → run (store_array_subset_opt a r data options) s = (s', Err e) →
  cached_store_array_subset_opt (V:=option ArrayBytes) a r data options (c, s) = ((c, s'), Err e) ∧
  (∀ k b s2, in_grid (chunk_grid a) k → cache_abs c !! k = Some (Some b) →
    (cached_retrieve_chunk_opt (V:=option ArrayBytes) a k options (c, s2)).2 = Ok b) ∧
  (∀ encoder k o b c2 s2 x, cached_encoder_partial_encode (V:=option ArrayBytes) encoder k o b (c, s) = ((c2, s2), x) → x ≠ Panic →
    cache_abs (V:=option ArrayBytes) c2 !! k = None).
Proof.
  intros Ha Hw Hrun. split_and!.
  - unfold cached_store_array_subset_opt, cbind, cstore. by rewrite Hrun.
  - intros k b s2 Hk Hkb. unfold cached_retrieve_chunk_opt, retrieve_chunk_bytes. cbn [retrieve_chunk_bytes_if_exists decoded_type].
    unfold decoded_if_exists. rewrite (validate_indices_ok a Ha) by done. unfold cbind. cbn [clift].
    pose proof (cache_get_law k (run (retrieve_chunk_if_exists_opt a k options)) c s2 Hw) as Hget. rewrite Hkb in Hget.
    destruct Hget as (c' & -> & _). cbn [creturn clift]. by rewrite (array_chunk_shape_ok a Ha).
  - intros encoder k o b c2 s2 x. unfold cached_encoder_partial_encode, then_invalidate, cstore.
    destruct (run (partial_encode encoder o b) s) as [s3 y]. unfold ccache.
    destruct (cache_invalidate_chunk_law k c Hw) as (_ & Hsub & _). destruct (invalidate_chunk k c) as [c3 n]. cbn [fst] in Hsub.
    assert (cache_abs c3 !! k = None) as Hn by (eapply lookup_weaken_None; [apply lookup_delete_eq|exact Hsub]).
    destruct y; intros [= <- <- <-] Hx; done.
Qed.
End requests.

(** ** The limit on the size of a thread-local cache *)
Section size_limit.
Context {V L : Type} `{LawfulLru L V} (chunk_size : V → Z).

(** The operations of the threads, in any order. *)
Inductive size_limit_step : ThreadLocalCacheSizeLimit L → ThreadLocalCacheSizeLimit L → Prop :=
  | size_limit_step_get {S : Type} thread k (f : S → S * outcome ArrayError V) s self :
      size_limit_step self (size_limit_try_get chunk_size thread k f (self, s)).1.1
  | size_limit_step_remove thread k self : size_limit_step self (size_limit_remove chunk_size thread k self).1
  | size_limit_step_clear thread self : size_limit_step self (size_limit_clear (V:=V) thread self).1
  | size_limit_step_len thread self : size_limit_step self (size_limit_len (V:=V) thread self).1.

Lemma size_limit_step_wf self self' : size_limit_step self self' → size_limit_wf chunk_size self → size_limit_wf chunk_size self'.
Proof.
  intros [S thread k f s c|thread k c|thread c|thread c] Hw.
  - pose proof (cache_get_law (LawfulChunkCache := size_limit_lawful chunk_size thread) k f c s Hw) as Hget.
    destruct (cache_abs c !! k) as [v|]; destruct Hget as (c' & Hr & Hw' & _); cbn [try_get_or_insert_with size_limit_traits] in Hr; by rewrite Hr.
  - by apply (cache_invalidate_chunk_law (LawfulChunkCache := size_limit_lawful chunk_size thread) k c).
  - by apply (cache_invalidate_law (LawfulChunkCache := size_limit_lawful chunk_size thread) c).
  - by apply (cache_len_law (LawfulChunkCache := size_limit_lawful chunk_size thread) c).
Qed.

(** The size of a thread-local cache is counted, and not limited.  After any operations of the threads, each with any thread, the size kept
    for a thread is that of its entries, modulo 2^64; a chunk that is not cached is inserted whatever its size, and at most one
    chunk, the least recently used, is let go for it, when the limit is passed. *)
Theorem size_limit_accounting (capacity : Z) (self : ThreadLocalCacheSizeLimit L) :
  rtc size_limit_step (ThreadLocalCacheSizeLimit_new capacity) self →
  (∀ thread, size_limit_held thread self = wrap64 (entries_size chunk_size (size_limit_entries (V:=V) thread self))) ∧
  ∀ thread k v (S : Type) (f : S → S * outcome ArrayError V) s s',
    size_limit_abs thread self !! k = None → f s = (s', Ok v) →
    ∃ self', size_limit_try_get chunk_size thread k f (self, s) = ((self', s'), Ok v) ∧
      size_limit_entries thread self' = (k, v) ::
        (if capacity <? entries_size chunk_size (size_limit_entries (V:=V) thread self) +w chunk_size v
         then removelast (size_limit_entries thread self) else size_limit_entries thread self).
Proof.
  intros Hsteps. assert (size_limit_wf chunk_size self ∧ size_limit_capacity self = capacity) as [Hw Hcap].
  { assert (size_limit_wf (L:=L) chunk_size (ThreadLocalCacheSizeLimit_new capacity)) as Hinit.
    { split; [intros t c; cbn; by rewrite lookup_empty|]. intros t. unfold size_limit_held, size_limit_get. cbn. rewrite !lookup_empty. cbn.
      by rewrite (proj1 (proj2 lru_unbounded_law)). }
    remember (ThreadLocalCacheSizeLimit_new capacity) as c0 eqn:Hc0. assert (size_limit_capacity c0 = capacity) as Hcap by by subst.
    clear Hc0. revert Hinit Hcap. induction Hsteps as [c|c c1 c2 Hst _ IH]; [done|]. intros Hw Hcap.
    apply IH; [by eapply size_limit_step_wf|]. rewrite <-Hcap. clear -Hst. destruct Hst as [S thread k f s c|thread k c|thread c|thread c].
    - unfold size_limit_try_get. destruct (lru_get _ k) as [c1 [v|]]; [done|]. destruct (f s) as [s' [v|e|]]; [|done..].
      destruct (_ <? _); [destruct (lru_pop_lru c1) as [c2 o]|]; by destruct (lru_push _ k v).
    - unfold size_limit_remove. by destruct (lru_pop _ k) as [c1 [v|]].
    - done.
    - done. }
  split; [apply Hw|]. intros thread k v S f s s' Hk Hf. destruct (size_limit_miss chunk_size thread self k f s s' v Hw Hk Hf) as (self' & Hr & _ & He).
  exists self'. split; [done|]. rewrite He, Hcap, (proj2 Hw thread), wrap64_add_l. done.
Qed.
End size_limit.

(** ** A cache, for the witnesses: lists of entries *)
Section list_lru.
Context {V : Type}.

Definition list_lru : Type := option Z * list (list Z * V).

Definition list_get (c : list_lru) (k : list Z) : list_lru * option V :=
  match entry_get k c.2 with Some v => ((c.1, (k, v) :: entry_remove k c.2), Some v) | None => (c, None) end.

Definition list_push (c : list_lru) (k : list Z) (v : V) : list_lru * option (list Z * V) :=
  match entry_get k c.2 with
  | Some old => ((c.1, (k, v) :: entry_remove k c.2), Some (k, old))
  | None =>
      if bool_decide (c.1 = Some (zlen c.2)) then ((c.1, (k, v) :: removelast c.2), last c.2) else ((c.1, (k, v) :: c.2), None)
  end.

#[local] Instance list_lru_ops : LruOps list_lru V := {|
  lru_new n := (Some n, []);
  lru_unbounded := (None, []);
  lru_len c := zlen c.2;
  lru_get := list_get;
  lru_push := list_push;
  lru_pop c k := ((c.1, entry_remove k c.2), entry_get k c.2);
  lru_pop_lru c := ((c.1, removelast c.2), last c.2);
  lru_clear c := (c.1, []) |}.

Definition list_lru_wf (c : list_lru) : Prop := NoDup c.2.*1 ∧ ∀ n, c.1 = Some n → 1 <= n ∧ zlen c.2 <= n.

Lemma list_lru_sub (c : list_lru) l : list_lru_wf c → l `sublist_of` c.2 → list_lru_wf (c.1, l).
Proof.
  intros [Hnd Hn] Hl. split; [by apply (entry_sublist l c.2)|]. intros n Hc. destruct (Hn n Hc) as [? ?]. split; [done|].
  apply sublist_length in Hl. cbn [snd]. lia.
Qed.

Lemma list_lru_cons (c : list_lru) k v l : list_lru_wf c → l `sublist_of` c.2 → entry_get k l = None →
  (∀ n, c.1 = Some n → zlen l < n) → list_lru_wf (c.1, (k, v) :: l).
Proof.
  intros Hc Hl Hk Hn. destruct (list_lru_sub c l Hc Hl) as [Hnd Hb]. split.
  - cbn [fst snd] in *. rewrite fmap_cons. apply NoDup_cons. split; [|done]. cbn [fst]. intros ([k' w] & -> & Hin)%list_elem_of_fmap.
    apply entry_get_elem in Hin; [|done]. cbn [fst] in *. congruence.
  - intros n Hc1. destruct (Hb n Hc1) as [? _]. specialize (Hn n Hc1). cbn [snd length]. lia.
Qed.

Lemma entry_remove_get k (l : list (list Z * V)) : entry_get k (entry_remove k l) = None.
Proof. rewrite entry_get_map, entry_remove_map. apply lookup_delete_eq. Qed.

#[local] Instance list_lru_lawful : LawfulLru list_lru V.
Proof.
  refine {| lru_wf := list_lru_wf; lru_entries c := c.2; lru_cap c := c.1 |}; try done.
  - intros n Hn. split_and!; [|done..]. split; [constructor|]. intros m [= <-]. split; [done|simpl; lia].
  - split_and!; [|done..]. split; [constructor|done].
  - intros c k Hc. cbn [lru_get list_lru_ops]. unfold list_get. destruct (entry_get k c.2) as [v|] eqn:Hk; cbn [fst snd]; [|done]. split_and!; [|done..].
    destruct Hc as [Hnd Hn]. pose proof (entry_front k v c.2 Hnd Hk) as Hp. split; cbn [fst snd]; [by rewrite Hp|]. by setoid_rewrite Hp.
  - intros c k v Hc. cbn [lru_push list_lru_ops]. unfold list_push. destruct (entry_get k c.2) as [old|] eqn:Hk; cbn [fst snd]; [split_and!; [|done..]|].
    + destruct Hc as [Hnd Hn]. pose proof (entry_front k old c.2 Hnd Hk) as Hp. split; cbn [fst snd].
      * apply Permutation_length in Hp as Hl. rewrite <-Hp in Hnd. rewrite !fmap_cons in *. done.
      * apply Permutation_length in Hp. cbn [length] in *. intros n Hc. destruct (Hn n Hc). lia.
    + case_bool_decide as Hcap; cbn [fst snd]; (split_and!; [|done..]).
      * assert (1 <= zlen c.2) as Hpos by (by destruct (proj2 Hc _ Hcap)).
        assert (zlen (removelast c.2) < zlen c.2) as Hlt.
        { destruct (last c.2) as [x|] eqn:Hl; [apply last_Some in Hl as [l' ->]; rewrite removelast_last, length_app; simpl; lia|].
          apply last_None in Hl. rewrite Hl in Hpos. simpl in Hpos. lia. }
        apply list_lru_cons; [done|apply removelast_sublist| |].
        { rewrite entry_get_map. apply lookup_weaken_None with (entry_map c.2); [by rewrite <-entry_get_map|].
          apply entry_sublist; [apply Hc|apply removelast_sublist]. }
        intros n Hn. rewrite Hcap in Hn. injection Hn as <-. done.
      * apply list_lru_cons; [done..|]. intros n Hn. destruct (proj2 Hc n Hn) as [_ Hle]. assert (n ≠ zlen c.2) by congruence. lia.
  - intros c k Hc. split_and!; [|done..]. apply list_lru_sub; [done|apply entry_remove_sublist].
  - intros c Hc. split_and!; [|done..]. apply list_lru_sub; [done|apply removelast_sublist].
  - intros c Hc. split_and!; [|done..]. apply list_lru_sub; [done|apply sublist_nil_l].
Defined.
End list_lru.

(** The array of [ArrayTheorems] with a cache of two decoded chunks, and with a cache limited in size. *)
#[local] Instance example_keys : ChunkKeyEncodingTraits DefaultChunkKeyEncoding := default_traits decimal.
#[local] Instance example_keys_lawful : LawfulChunkKeyEncoding DefaultChunkKeyEncoding :=
  default_lawful decimal (λ n _, decimal_digits n) decimal_inj.
#[local] Instance example_target : Target := Little.

Definition example_cache_type : Type := ThreadLocalCacheChunkLimit (list_lru (V := option ArrayBytes)).
#[local] Instance example_cache_traits : ChunkCache (option ArrayBytes) example_cache_type := chunk_limit_traits (LruOps0 := list_lru_ops) 0.
#[local] Instance example_cache_lawful : LawfulChunkCache (option ArrayBytes) example_cache_type :=
  chunk_limit_lawful (H := list_lru_lawful) 0.

Definition example_cache : example_cache_type := ThreadLocalCacheChunkLimit_new 2.

Lemma example_coherent (M : gmap str bytes) : coherent example_array (decoded_fresh example_array) M example_cache.
Proof.
  split; [intros t c; cbn; by rewrite lookup_empty|]. intros k v _. cbn. unfold chunk_limit_abs, chunk_limit_get. cbn. by rewrite lookup_empty.
Qed.

Definition example_requests : list request :=
  [ReadRegion example_region; WriteRegion example_region example_new example_data; ReadRegion example_region;
   EraseChunk [0; 0]; ReadRegion example_region].

Lemma example_requests_ok : Forall (request_ok example_array 2) example_requests.
Proof.
  assert (region_in example_array example_region ∧ Zprod (shape example_region) * 2 < 2 ^ 63) as Hr by (split; [apply example_region_in|done]).
  apply Forall_cons; split; [exact Hr|]. apply Forall_cons; split; [|apply Forall_cons; split; [exact Hr|]].
  - split; [apply Hr|]. split; [apply example_data_holds|]. intros c Hc. unfold region_of, subset_of. cbn [shape]. by rewrite example_chunk_shape.
  - apply Forall_cons; split; [split; [by repeat constructor|done]|]. apply Forall_cons; split; [exact Hr|done].
Qed.

Lemma cached_array_refines_witness :
  ∃ c' s', ctry_map (cached_request example_uninit example_array example_options) example_requests (example_cache, MemoryStore_new) = ((c', s'),
      Ok [Some (FixedBytes (replicate 12 0)); None; Some example_data; None;
          Some (FixedBytes [0; 0; 0; 0; 5; 6; 7; 8; 9; 10; 11; 12])]).
Proof.
  destruct (cached_array_refines memory_abs example_array example_old example_uninit example_options 2 example_requests example_cache MemoryStore_new)
    as (c' & s' & outs & Hrun & _ & _).
  - apply example_array_wf.
  - apply example_uninit_length.
  - by right.
  - done.
  - done.
  - simpl. lia.
  - apply example_requests_ok.
  - apply example_holds.
  - apply example_coherent.
  - exists c', s'. rewrite Hrun. f_equal. apply (f_equal snd) in Hrun. vm_compute in Hrun. by rewrite <-Hrun.
Defined.

(** Optional optional bytes in two chunks of one element. *)
Definition inner_codec : OptionalCodecBound BytesCodecBound BytesCodecBound :=
  mk_optional_codec (mk_bytes_codec None bool_data_type bool_false 1) (mk_bytes_codec None (PlainType (FixedSize 1)) [0] 1)
    (OptionalType (PlainType (FixedSize 1))) [0].

Definition outer_codec : OptionalCodecBound BytesCodecBound (OptionalCodecBound BytesCodecBound BytesCodecBound) :=
  mk_optional_codec (mk_bytes_codec None bool_data_type bool_false 1) inner_codec (OptionalType (OptionalType (PlainType (FixedSize 1)))) [0].

Lemma one_element_shape_ok {M D} `{LM : LawfulArrayToBytesCodec M, LD : LawfulArrayToBytesCodec D} (c : OptionalCodecBound M D) d :
  optional_wf c → data_type_size (a2b_data_type (data_codecs c)) = FixedSize d → d < a2b_limit (data_codecs c) [1] →
  a2b_shape_ok (mask_codecs c) [1] → a2b_shape_ok (data_codecs c) [1] →
  Z.max 1 (zlen (base_fill (opt_data_type c) (opt_fill_value c))) < sparse_limit c [1] →
  16 + a2b_encoded_limit (mask_codecs c) [1] + sparse_encoded_limit c [1] < u64_modulus →
  (∃ rep, a2b_encoded_representation (data_codecs c) [1] = Ok rep ∧ ∀ s, representation_size rep = Some s → 0 <= s) → optional_shape_ok c [1].
Proof.
  intros Hc Hd Hl Hm Hdata Hlim Henc (rep & Hrep & Hpos). constructor; [done| | |done|].
  - intros k Hk. change (Zprod [1]) with 1 in Hk. by replace k with 1 by lia.
  - by change (Zprod [1]) with 1; rewrite Z.mul_1_l.
  - exists rep. split; [done|]. intros s Hs. split; [by apply Hpos|]. intros k b V options enc Hk Hh HV He. change (Zprod [1]) with 1 in Hk.
    replace k with 1 in * by lia. destruct (a2b_roundtrip (data_codecs c) [1] options b V) as (enc' & _ & rep' & He' & _ & Hrep' & Hadm & _);
      [by apply (ow_data _ Hc)|done|done|done|rewrite (holds_size _ _ _ d Hh Hd), HV; lia|].
    rewrite He in He'. injection He' as <-. rewrite Hrep in Hrep'. injection Hrep' as <-. destruct rep; simpl in *; simplify_eq; lia.
Qed.

Lemma inner_codec_wf : optional_wf inner_codec.
Proof. split; [reflexivity| |reflexivity| |done]; eexists; constructor; cbn; done || by left. Qed.

Lemma inner_shape : optional_shape_ok inner_codec [1].
Proof.
  apply (one_element_shape_ok inner_codec 1 inner_codec_wf); try reflexivity; try (split; (split; [by repeat constructor|done]) || done).
  exists (BytesFixedSize 1). split; [reflexivity|]. by intros s [= <-].
Qed.

Lemma outer_codec_wf : optional_wf outer_codec.
Proof. split; [reflexivity| |reflexivity|exact inner_codec_wf|done]. eexists. constructor; cbn; done || by left. Qed.

Lemma outer_shape : optional_shape_ok outer_codec [1].
Proof.
  apply (one_element_shape_ok outer_codec 1 outer_codec_wf); try reflexivity; [split; (split; [by repeat constructor|done]) || done|exact inner_shape|].
  eexists. split; [reflexivity|]. intros s [= <-]. done.
Qed.

Definition nested_array : Array RegularChunkGrid DefaultChunkKeyEncoding (OptionalCodecBound BytesCodecBound (OptionalCodecBound BytesCodecBound BytesCodecBound)) :=
  mk_array _ _ _ (path_of [lit "a"]) (OptionalType (OptionalType (PlainType (FixedSize 1)))) [0] (mk_regular [2] [2] [1]) example_encoding outer_codec false.

Lemma nested_grid_wf : grid_wf (chunk_grid nested_array).
Proof. split; [done|split; [reflexivity|]]. intros [|j] Hj; simpl in *; [|lia]; split_and!; try lia; reflexivity. Qed.

Lemma nested_array_wf : array_wf nested_array.
Proof.
  constructor; try done; [exact nested_grid_wf|exact outer_codec_wf|]. intros c Hc.
  replace (axes_size _ c) with [1]; [exact outer_shape|]. destruct (regular_in_grid _ nested_grid_wf c Hc) as (_ & Hl & _).
  destruct c as [|c0 [|? ?]]; simpl in Hl; (lia || done).
Qed.

Lemma cached_nested_optional_panics_witness :
  (run (retrieve_array_subset_opt example_uninit nested_array (mk_subset [0] [2]) example_options) MemoryStore_new).2 =
    Ok (OptionalBytes (OptionalBytes (FixedBytes [0; 0]) [0; 0]) [0; 0]) ∧
  (cached_retrieve_array_subset_opt example_uninit nested_array (mk_subset [0] [2]) example_options (example_cache, MemoryStore_new)).2 = Panic.
Proof.
  split; [vm_compute; reflexivity|].
  apply (cached_nested_optional_panics memory_abs nested_array (λ _, fill_element (data_type nested_array) [0]) example_uninit example_options
    (mk_subset [0] [2]) (mk_subset [0] [2]) example_cache MemoryStore_new).
  - apply nested_array_wf.
  - apply example_uninit_length.
  - by apply (empty_array_holds nested_array nested_array_wf).
  - split; [intros t c; cbn; by rewrite lookup_empty|]. intros k v _. cbn. unfold chunk_limit_abs, chunk_limit_get. cbn. by rewrite lookup_empty.
  - simpl. lia.
  - done.
  - split_and!; [|done| |done]; (split; [done|]); intros [|j] Hj; unfold u64_modulus; simpl in *; lia.
  - done.
  - reflexivity.
  - done.
Defined.

(** A store that becomes full: a memory store with the number of writes it still takes. *)
Definition FullStore : Type := MemoryStore * Z.

#[local] Instance full_readable : ReadableStorageTraits FullStore := {|
  get k := λ '(m, n), let '(m, x) := get k m in ((m, n), x);
  get_partial_many k rs := λ '(m, n), let '(m, x) := get_partial_many k rs m in ((m, n), x);
  size_key k := λ '(m, n), let '(m, x) := size_key k m in ((m, n), x) |}.

Definition full_write {A} (f : store_op MemoryStore A) : store_op FullStore A := λ '(m, n),
  if n <=? 0 then ((m, n), Err IOError) else let '(m, x) := f m in ((m, n - 1), x).

#[local] Instance full_writable : WritableStorageTraits FullStore := {|
  set_ k v := full_write (set_ k v);
  set_partial_many k ovs := full_write (set_partial_many k ovs);
  erase k := full_write (erase k);
  erase_many ks := full_write (erase_many ks);
  erase_prefix p := full_write (erase_prefix p) |}.

(** A cache that holds the first chunk of the store of [ArrayTheorems]. *)
Definition warm_cache : example_cache_type :=
  chunk_limit_set 0 (Some 4, [([0; 0], Some (FixedBytes [0; 0; 0; 0; 0; 0; 0; 0; 1; 2; 3; 4]))]) (ThreadLocalCacheChunkLimit_new 4).

Lemma warm_cache_wf : cache_wf (V:=option ArrayBytes) warm_cache.
Proof.
  apply (chunk_limit_set_wf (LruOps0 := list_lru_ops)); [intros t c; cbn; by rewrite lookup_empty| |done].
  split; [by apply (NoDup_singleton (A:=list Z))|]. intros n [= <-]. done.
Qed.

(** The write changes the first chunk, and fails on the second: the cache still has the former first chunk. *)
Lemma failed_write_keeps_cache_witness :
  ∃ s', run (store_array_subset_opt example_array (mk_subset [0; 0] [2; 4]) (FixedBytes (replicate 16 7)) example_options) (example_store, 1) =
      (s', Err (ArrayStorageError IOError)) ∧
    (run (retrieve_chunk_opt example_array [0; 0] example_options) s'.1).2 = Ok (FixedBytes (replicate 12 7)) ∧
    (cached_retrieve_chunk_opt (V:=option ArrayBytes) example_array [0; 0] example_options (warm_cache, s')).2 =
      Ok (FixedBytes [0; 0; 0; 0; 0; 0; 0; 0; 1; 2; 3; 4]).
Proof.
  destruct (run (store_array_subset_opt example_array (mk_subset [0; 0] [2; 4]) (FixedBytes (replicate 16 7)) example_options) (example_store, 1)) as [s' x] eqn:Hs.
  assert (x = Err (ArrayStorageError IOError)) as ->.
  { change x with (s', x).2. rewrite <-Hs. vm_compute. reflexivity. }
  exists s'. split; [done|]. split.
  - change s' with (s', Err (A:=unit) (ArrayStorageError IOError)).1. rewrite <-Hs. vm_compute. reflexivity.
  - destruct (failed_write_keeps_cache example_array example_options (mk_subset [0; 0] [2; 4]) (FixedBytes (replicate 16 7)) warm_cache (example_store, 1) s'
      (ArrayStorageError IOError)) as (_ & Hstale & _); [apply example_array_wf|apply warm_cache_wf|exact Hs|].
    apply Hstale; [split; [by repeat constructor|done]|]. vm_compute. reflexivity.
Defined.

(** Eight values of one byte fill a cache of eight bytes; a value of hundred bytes takes the place of one of them. *)
Definition size_values : list (list Z * Z) := (λ k, ([k], 1)) <$> seqZ 0 8.

Definition size_cache : ThreadLocalCacheSizeLimit (list_lru (V := Z)) :=
  fold_left (λ self kv, (size_limit_try_get (LruOps0 := list_lru_ops) id 0 kv.1 (λ s : unit, (s, Ok kv.2)) (self, tt)).1.1) size_values (ThreadLocalCacheSizeLimit_new 8).

Lemma size_limit_accounting_witness : ∃ self',
  size_limit_try_get (LruOps0 := list_lru_ops) id 0 [8] (λ s : unit, (s, Ok 100)) (size_cache, tt) = ((self', tt), Ok 100) ∧
  size_limit_capacity size_cache = 8 ∧ entries_size id (size_limit_entries (H := list_lru_lawful) 0 self') = 107.
Proof.
  destruct (size_limit_accounting (H := list_lru_lawful) id 8 size_cache) as [_ Hins].
  - unfold size_cache. generalize size_values. intros l. generalize (ThreadLocalCacheSizeLimit_new (L := list_lru (V := Z)) 8).
    induction l as [|kv l IH]; intros self; [apply rtc_refl|]. cbn [fold_left]. eapply rtc_l; [|apply IH]. apply (size_limit_step_get (LruOps0 := list_lru_ops) id 0 kv.1 _ tt).
  - destruct (Hins 0%nat [8] 100 unit (λ s, (s, Ok 100)) tt tt) as (self' & Hr & He); [reflexivity|done|]. exists self'. split; [exact Hr|].
    split; [reflexivity|]. rewrite He. vm_compute. reflexivity.
Defined.
