(* ===== verification/ChunkEdges.v ===== *)
(** Chunk grids by the edge lengths of their chunks, and the type-erased [ChunkGrid] of
    [zarrs_chunk_grid/src/lib.rs].

    A lawful grid over a non-empty array is determined, along each dimension, by the list that
    [chunk_edge_lengths] returns: [edge_cells] locates an element in such lists, and [lawful_edges] shows that
    [chunk_indices] of every lawful grid is [edge_cells].  [rectilinear_of_edges] is the way back: the rectilinear grid made
    from a list of edges has its chunks. *)

From S2P Require Import Prelude ArraySubset Linear Iterators ChunkGrid RegularGrid RectilinearGrid RepeatGrid.

(** ** Intervals along a dimension *)

(** The interval of the row [edges] that holds [x], and where an interval starts. *)
Fixpoint edge_cell (edges : list Z) (x : Z) : Z :=
  match edges with
  | [] => 0
  | e :: edges => if x <? e then 0 else 1 + edge_cell edges (x - e)
  end.

Definition edge_start (edges : list Z) (c : Z) : Z := Zsum (take (Z.to_nat c) edges).

Abbreviation zat l i := (l !!! Z.to_nat i).

Definition edges_pos (edges : list Z) : Prop := Forall (λ e, 0 < e) edges.

Section edge_cell.
Implicit Types E : list Z.

Lemma edges_pos_sum E : edges_pos E → 0 <= Zsum E.
Proof. intros H. apply Zsum_nonneg. eapply Forall_impl; [exact H|]. simpl. lia. Qed.

Lemma edge_start_0 E : edge_start E 0 = 0.
Proof. done. Qed.

Lemma edge_start_cons e E c : 0 < c → edge_start (e :: E) c = e + edge_start E (c - 1).
Proof.
  intros Hc. unfold edge_start. replace (Z.to_nat c) with (S (Z.to_nat (c - 1))) by lia. simpl. by rewrite Zsum_cons.
Qed.

Lemma zat_cons e E c : 0 < c → zat (e :: E) c = zat E (c - 1).
Proof. intros Hc. by replace (Z.to_nat c) with (S (Z.to_nat (c - 1))) by lia. Qed.

(** The interval of an element holds it. *)
Lemma cell_spec E x : edges_pos E → 0 <= x < Zsum E →
  0 <= edge_cell E x < zlen E ∧ edge_start E (edge_cell E x) <= x < edge_start E (edge_cell E x) + zat E (edge_cell E x).
Proof.
  intros HE. revert x. induction HE as [|e E He HE IH]; intros x Hx; [unfold Zsum in Hx; simpl in Hx; lia|].
  rewrite Zsum_cons in Hx. cbn [edge_cell]. destruct (Z.ltb_spec x e) as [Hlt|Hge].
  - rewrite edge_start_0. simpl. lia.
  - destruct (IH (x - e) ltac:(lia)) as [IH1 IH2]. rewrite edge_start_cons, zat_cons by lia.
    replace (1 + edge_cell E (x - e) - 1) with (edge_cell E (x - e)) by lia. cbn [length]. lia.
Qed.

Lemma cell_unique E c x : edges_pos E → 0 <= c < zlen E → edge_start E c <= x < edge_start E c + zat E c → edge_cell E x = c.
Proof.
  intros HE. revert c x. induction HE as [|e E He HE IH]; intros c x Hc Hx; [simpl in Hc; lia|]. cbn [edge_cell length] in *.
  destruct (decide (c = 0)) as [->|Hne].
  - rewrite edge_start_0 in Hx. simpl in Hx. by rewrite (proj2 (Z.ltb_lt _ _)) by lia.
  - rewrite edge_start_cons, zat_cons in Hx by lia. assert (0 <= edge_start E (c - 1)).
    { apply Zsum_nonneg, Forall_take. eapply Forall_impl; [exact HE|]. simpl. lia. }
    rewrite (proj2 (Z.ltb_ge _ _)) by lia. rewrite (IH (c - 1)); lia.
Qed.

Lemma edge_start_bound E c : edges_pos E → 0 <= c < zlen E → 0 <= edge_start E c ∧ edge_start E c + zat E c <= Zsum E.
Proof.
  intros HE. revert c. induction HE as [|e E He HE IH]; intros c Hc; [simpl in Hc; lia|]. cbn [length] in Hc. rewrite Zsum_cons.
  pose proof (edges_pos_sum E HE). destruct (decide (c = 0)) as [->|Hne]; [rewrite edge_start_0; simpl; lia|].
  rewrite edge_start_cons, zat_cons by lia. specialize (IH (c - 1) ltac:(lia)). lia.
Qed.

Lemma zat_pos E c : edges_pos E → 0 <= c < zlen E → 0 < zat E c.
Proof. intros HE Hc. unfold edges_pos in HE. rewrite Forall_total in HE. apply HE. lia. Qed.

(** Elements of one interval of the row [O] in a row made of a group of intervals for each of its intervals. *)
Lemma cell_app_l E E' x : 0 <= x < Zsum E → edges_pos E → edge_cell (E ++ E') x = edge_cell E x.
Proof.
  intros Hx HE. revert x Hx. induction HE as [|e E He HE IH]; intros x Hx; [unfold Zsum in Hx; simpl in Hx; lia|].
  rewrite Zsum_cons in Hx. simpl. destruct (Z.ltb_spec x e); [done|]. rewrite IH by lia. done.
Qed.

Lemma cell_app_r E E' x : Zsum E <= x → edges_pos E → edge_cell (E ++ E') x = zlen E + edge_cell E' (x - Zsum E).
Proof.
  intros Hx HE. revert x Hx. induction HE as [|e E He HE IH]; intros x Hx.
  - change (Zsum []) with 0. by rewrite Z.sub_0_r.
  - rewrite Zsum_cons in *. simpl. pose proof (edges_pos_sum E HE). rewrite (proj2 (Z.ltb_ge _ _)) by lia.
    rewrite IH by lia. replace (x - (e + Zsum E)) with (x - e - Zsum E) by lia. lia.
Qed.

Lemma cell_replicate n s x : 0 < s → 0 <= x < Z.of_nat n * s → edge_cell (replicate n s) x = x / s.
Proof.
  intros Hs. revert x. induction n as [|n IH]; intros x Hx; [lia|]. simpl. destruct (Z.ltb_spec x s).
  - symmetry. apply Z.div_small. lia.
  - rewrite IH by lia. replace x with (x - s + 1 * s) at 2 by lia. rewrite Z.div_add by lia. lia.
Qed.
End edge_cell.

(** ** Grids *)

Definition edge_cells (Es : list (list Z)) (x : list Z) : list Z := zip_with edge_cell Es x.
Definition edge_starts (Es : list (list Z)) (c : list Z) : list Z := zip_with edge_start Es c.
Definition edge_sizes (Es : list (list Z)) (c : list Z) : list Z := zip_with (λ E i, zat E i) Es c.
Abbreviation edge_counts Es := ((λ E, zlen E) <$> Es).

(** Where an element is: its interval, its place in it and the length of it. *)
Definition place (E : list Z) (x : Z) : Z * Z * Z := (edge_cell E x, x - edge_start E (edge_cell E x), zat E (edge_cell E x)).
Definition places (Es : list (list Z)) (x : list Z) : list (Z * Z * Z) := zip_with place Es x.

Definition locals (Es : list (list Z)) (x : list Z) : list Z := (places Es x).*1.*2.
Definition sizes_at (Es : list (list Z)) (x : list Z) : list Z := (places Es x).*2.

Lemma cells_places Es x : edge_cells Es x = (places Es x).*1.*1.
Proof. unfold edge_cells, places. revert x. induction Es as [|E Es IH]; intros [|i x]; try done. cbn [zip_with fmap list_fmap fst place]. by rewrite IH. Qed.

(** The edges of a dimension make chunks that cover it. *)
Definition edges_cover_dim (len : Z) (E : list Z) : Prop := edges_pos E ∧ 0 <= len <= Zsum E ∧ Zsum E < u64_modulus.
Definition edges_cover_shape (sh : list Z) (Es : list (list Z)) : Prop := Forall2 edges_cover_dim sh Es.

Lemma edges_cover_counts sh Es : edges_cover_shape sh Es → length sh = length Es.
Proof. apply Forall2_length. Qed.

Lemma cells_in sh Es x : edges_cover_shape sh Es → index_in x sh → index_in (edge_cells Es x) (edge_counts Es).
Proof.
  intros H. revert x. induction H as [|len E sh Es (HE & Hl & Hu) H IH]; intros [|i x] Hx; inversion Hx; subst; [constructor|].
  constructor; [|by apply IH]. apply (cell_spec E i); [done|lia].
Qed.

(** What [chunk_edge_lengths] returns for each dimension. *)
Definition grid_edges {G} `{!ChunkGridTraits G} (g : G) : list (list Z) :=
  (λ j, match chunk_edge_lengths g j with Ok edges => edges | _ => [] end) <$> seq 0 (grid_dimensionality g).

Definition axis_edges (a : axis) : list Z := ax_size a <$> seqZ 0 (ax_n a).

Section axis_edges.
Context (a : axis) (Ha : axis_ok a).

Lemma length_axis_edges : zlen (axis_edges a) = ax_n a.
Proof. unfold axis_edges. rewrite length_fmap, length_seqZ. pose proof (ax_n_nonneg a Ha). lia. Qed.

Lemma axis_edges_lookup c : 0 <= c < ax_n a → axis_edges a !! Z.to_nat c = Some (ax_size a c).
Proof. intros Hc. unfold axis_edges. rewrite list_lookup_fmap, lookup_seqZ_lt by lia. simpl. do 2 f_equal. lia. Qed.

Lemma axis_edges_total c : 0 <= c < ax_n a → zat (axis_edges a) c = ax_size a c.
Proof. intros Hc. by apply list_lookup_total_correct, axis_edges_lookup. Qed.

Lemma axis_edges_pos : edges_pos (axis_edges a).
Proof.
  apply Forall_fmap, Forall_forall. intros c Hc%elem_of_seqZ. simpl. apply (ax_size_pos a Ha). lia.
Qed.

Lemma axis_edges_start c : 0 <= c < ax_n a → edge_start (axis_edges a) c = ax_origin a c.
Proof.
  intros [H0 Hn]. revert Hn. pattern c. apply natlike_ind; [|clear c H0; intros c Hc IH Hn|done].
  - intros Hn. by rewrite edge_start_0, (ax_origin_0 a Ha) by lia.
  - rewrite <-Z.add_1_r in *. rewrite (ax_adjacent a Ha) by lia. rewrite <-IH by lia. unfold edge_start.
    replace (Z.to_nat (c + 1)) with (S (Z.to_nat c)) by lia.
    rewrite (take_S_r _ _ (ax_size a c)) by (apply axis_edges_lookup; lia). rewrite Zsum_app, Zsum_cons. unfold Zsum at 2. simpl. lia.
Qed.

Lemma axis_edges_cover : edges_cover_dim (ax_len a) (axis_edges a).
Proof.
  split; [apply axis_edges_pos|]. unfold axis_edges. rewrite (ax_end_sum a Ha).
  pose proof (ax_len_nonneg a Ha). pose proof (ax_covers a Ha). pose proof (ax_fits a Ha). lia.
Qed.

Lemma axis_cell c i : ax_holds a c i → edge_cell (axis_edges a) i = c.
Proof.
  intros [Hc Hi]. apply cell_unique; [apply axis_edges_pos|rewrite length_axis_edges; lia|].
  rewrite axis_edges_start, axis_edges_total by lia. lia.
Qed.
End axis_edges.

Section lawful_edges.
Context {G : Type} `{LawfulChunkGrid G} (g : G) (Hg : grid_wf g) (Hnz : contains_zero (array_shape g) = false).

Lemma grid_edges_axes : grid_edges g = axis_edges <$> grid_axes g.
Proof using Hg Hnz H.
  assert (length (grid_edges g) = length (grid_axes g)) as Hlen.
  { unfold grid_edges. by rewrite length_fmap, length_seq, grid_dimensionality_law. }
  apply list_eq_total; [by rewrite length_fmap|]. rewrite Hlen. intros j Hj.
  rewrite (fmap_total axis_edges) by done. unfold grid_edges.
  rewrite (fmap_total _ (seq _ _) j) by (by rewrite length_seq, grid_dimensionality_law).
  rewrite grid_dimensionality_law by done. rewrite list_lookup_total_alt, (lookup_seq_lt 0 _ j) by done. simpl.
  rewrite (chunk_edge_lengths_law g j Hg Hj). destruct (Z.eqb_spec (ax_len (grid_axes g !!! j)) 0) as [Hz|]; [|done].
  unfold contains_zero in Hnz. rewrite existsb_total_false in Hnz. specialize (Hnz j). rewrite length_array_shape in Hnz by done.
  rewrite (array_shape_law g Hg), (fmap_total ax_len), Hz in Hnz by done. by specialize (Hnz Hj).
Qed.

(** The grid is the one of its edges. *)
Lemma lawful_edges : edges_cover_shape (array_shape g) (grid_edges g) ∧ grid_shape g = edge_counts (grid_edges g) ∧
  grid_dimensionality g = length (grid_edges g) ∧
  (∀ j, (j < length (grid_edges g))%nat → chunk_edge_lengths g j = Ok (grid_edges g !!! j)) ∧
  (∀ x, index_in x (array_shape g) → chunk_indices g x = Ok (Some (edge_cells (grid_edges g) x))) ∧
  (∀ c, index_in c (grid_shape g) → chunk_shape g c = Ok (Some (edge_sizes (grid_edges g) c))).
Proof using Hg Hnz H.
  pose proof (grid_axes_ok g Hg) as Hok. split_and!.
  - rewrite grid_edges_axes, (array_shape_law g Hg). apply Forall2_fmap_2, Forall_Forall2_diag.
    eapply Forall_impl; [exact Hok|]. intros a Ha. by apply axis_edges_cover.
  - rewrite grid_edges_axes, (grid_shape_law g Hg), <-list_fmap_compose. apply Forall_fmap_ext.
    eapply Forall_impl; [exact Hok|]. intros a Ha. simpl. by rewrite length_axis_edges.
  - by rewrite grid_edges_axes, length_fmap, grid_dimensionality_law.
  - intros j Hj. unfold grid_edges in *. rewrite length_fmap, length_seq in Hj.
    rewrite (fmap_total _ (seq _ _) j) by (by rewrite length_seq). rewrite list_lookup_total_alt, (lookup_seq_lt 0 _ j) by done.
    simpl. rewrite grid_dimensionality_law in Hj by done. by rewrite (chunk_edge_lengths_law g j Hg Hj).
  - intros x Hx. destruct (chunk_indices_law g x Hg Hx) as (c & -> & (Hc1 & Hc2 & Hc) & _). do 2 f_equal.
    rewrite grid_edges_axes. apply list_eq_total.
    + unfold edge_cells. rewrite length_zip_with, length_fmap. lia.
    + intros j Hj. unfold edge_cells. rewrite zip_with_total by (rewrite ?length_fmap; lia). rewrite (fmap_total axis_edges) by lia.
      symmetry. apply axis_cell; [|apply Hc; lia]. rewrite Forall_total in Hok. apply Hok. lia.
  - intros c Hc. rewrite (chunk_shape_law g c Hg) by done. do 2 f_equal. rewrite index_in_grid in Hc by done. destruct Hc as [Hl Hc].
    apply list_eq_total; [unfold axes_size, edge_sizes; rewrite !length_zip_with, grid_edges_axes, length_fmap; lia|].
    unfold axes_size, edge_sizes. rewrite length_zip_with. intros j Hj.
    rewrite !zip_with_total by (rewrite ?grid_edges_axes, ?length_fmap; lia).
    rewrite grid_edges_axes, (fmap_total axis_edges) by lia. rewrite axis_edges_total; [done|]. apply Hc. lia.
Qed.
End lawful_edges.

(** ** [ChunkGrid]

    An [Arc<dyn ChunkGridTraits>]: the methods of a grid whose type is forgotten.  Of its name the code asks
    whether it is the one of the regular grid. *)

Record ChunkGrid := mk_chunk_grid {
  cg_named_regular : bool;
  cg_dimensionality : nat;
  cg_array_shape : list Z;
  cg_grid_shape : list Z;
  cg_chunk_edge_lengths : nat → outcome GridError (list Z);
  cg_chunk_shape : list Z → grid_result (list Z);
  cg_chunk_shape_u64 : list Z → grid_result (list Z);
  cg_chunk_origin : list Z → grid_result (list Z);
  cg_chunk_subset : list Z → grid_result ArraySubset;
  cg_chunk_indices : list Z → grid_result (list Z);
  cg_chunk_element_indices : list Z → grid_result (list Z);
  cg_array_indices_inbounds : list Z → bool }.

(** [ExtensionName]: whether [name_v3] is a name of the regular grid. *)
Class GridName (G : Type) := named_regular : bool.

#[export] Instance regular_name : GridName RegularChunkGrid := true.
#[export] Instance rectilinear_name : GridName RectilinearChunkGrid := false.
#[export] Instance repeat_name {G} : GridName (RepeatChunkGrid G) := false.

Definition ChunkGrid_new {G} `{!ChunkGridTraits G, !GridName G} (g : G) : ChunkGrid := {|
  cg_named_regular := named_regular (G:=G);
  cg_dimensionality := grid_dimensionality g;
  cg_array_shape := array_shape g;
  cg_grid_shape := grid_shape g;
  cg_chunk_edge_lengths := chunk_edge_lengths g;
  cg_chunk_shape := chunk_shape g;
  cg_chunk_shape_u64 := chunk_shape_u64 g;
  cg_chunk_origin := chunk_origin g;
  cg_chunk_subset := chunk_subset g;
  cg_chunk_indices := chunk_indices g;
  cg_chunk_element_indices := chunk_element_indices g;
  cg_array_indices_inbounds := array_indices_inbounds g |}.

#[export] Instance chunk_grid_traits : ChunkGridTraits ChunkGrid := {
  grid_dimensionality := cg_dimensionality;
  array_shape := cg_array_shape;
  grid_shape := cg_grid_shape;
  chunk_edge_lengths := cg_chunk_edge_lengths;
  chunk_shape := cg_chunk_shape;
  chunk_shape_u64 := cg_chunk_shape_u64;
  chunk_origin := cg_chunk_origin;
  chunk_subset := cg_chunk_subset;
  chunk_indices := cg_chunk_indices;
  chunk_element_indices := cg_chunk_element_indices;
  array_indices_inbounds := cg_array_indices_inbounds }.

(** The axis of a row of edges. *)
Definition edge_axis (len : Z) (E : list Z) : axis := mk_axis len (zlen E) (edge_start E) (λ c, zat E c).

Definition edge_axes {G} `{!ChunkGridTraits G} (g : G) : list axis := zip_with edge_axis (array_shape g) (grid_edges g).

Section edge_axes.
Context {G : Type} `{Hl : LawfulChunkGrid G} (g : G) (Hg : grid_wf g) (Hnz : contains_zero (array_shape g) = false).

Lemma edge_axes_fmap : edge_axes g = (λ a, edge_axis (ax_len a) (axis_edges a)) <$> grid_axes g.
Proof using Hg Hnz Hl. unfold edge_axes. rewrite (grid_edges_axes g Hg Hnz), (array_shape_law g Hg). by rewrite zip_with_fmap_l, zip_with_fmap_r, zip_with_diag. Qed.

Lemma length_edge_axes : length (edge_axes g) = length (grid_axes g).
Proof using Hg Hnz Hl. by rewrite edge_axes_fmap, length_fmap. Qed.

Lemma edge_axes_total j : (j < length (grid_axes g))%nat →
  let a := grid_axes g !!! j in edge_axes g !!! j = edge_axis (ax_len a) (axis_edges a) ∧ axis_ok a.
Proof using Hg Hnz Hl. intros Hj a. rewrite edge_axes_fmap, fmap_total by done. split; [done|]. by apply axes_ok. Qed.

Lemma edge_axis_ok a : axis_ok a → 0 < ax_len a → axis_ok (edge_axis (ax_len a) (axis_edges a)).
Proof using.
  intros Ha Hpos. pose proof (axis_edges_cover a Ha) as (H1 & H2 & H3). pose proof (ax_n_nonneg a Ha).
  split; cbn [ax_n ax_len ax_origin ax_size edge_axis]; rewrite ?length_axis_edges by done; try done; try lia.
  - intros c Hc. rewrite axis_edges_total by done. by apply ax_size_pos.
  - intros c Hc Hc'. rewrite !axis_edges_start, axis_edges_total by (done || lia). by apply ax_adjacent.
  - pose proof (ax_covers a Ha). unfold ax_end in *. cbn [ax_n ax_origin ax_size edge_axis]. rewrite length_axis_edges by done.
    destruct (Z.eqb_spec (ax_n a) 0); [done|]. by rewrite axis_edges_start, axis_edges_total by (done || lia).
  - pose proof (ax_fits a Ha). unfold ax_end in *. cbn [ax_n ax_origin ax_size edge_axis]. rewrite length_axis_edges by done.
    destruct (Z.eqb_spec (ax_n a) 0); [done|]. by rewrite axis_edges_start, axis_edges_total by (done || lia).
Qed.

Lemma axes_len_pos j : (j < length (grid_axes g))%nat → 0 < ax_len (grid_axes g !!! j).
Proof using Hg Hnz Hl.
  intros Hj. unfold contains_zero in Hnz. rewrite existsb_total_false in Hnz. specialize (Hnz j).
  rewrite length_array_shape in Hnz by done. specialize (Hnz Hj). rewrite (array_shape_law g Hg), fmap_total in Hnz by done.
  apply Z.eqb_neq in Hnz. pose proof (ax_len_nonneg _ (axes_ok g Hg j Hj)). lia.
Qed.

Lemma edge_axes_at c : index_in c (grid_shape g) →
  axes_origin (edge_axes g) c = axes_origin (grid_axes g) c ∧ axes_size (edge_axes g) c = axes_size (grid_axes g) c.
Proof using Hg Hnz Hl.
  intros [Hlen Hc]%(index_in_grid g Hg). pose proof length_edge_axes. unfold axes_origin, axes_size.
  split; (apply list_eq_total; [rewrite !length_zip_with; lia|]); rewrite length_zip_with; intros j Hj;
    (rewrite !zip_with_total by lia; destruct (edge_axes_total j ltac:(lia)) as [-> Ha]; cbn [edge_axis ax_origin ax_size]);
    [apply axis_edges_start|apply axis_edges_total]; try done; apply Hc; lia.
Qed.

Lemma edge_axes_hold c i : axes_hold (grid_axes g) c i → axes_hold (edge_axes g) c i.
Proof using Hg Hnz Hl.
  intros (H1 & H2 & H3). unfold axes_hold. rewrite length_edge_axes. split_and!; [done..|]. intros j Hj.
  destruct (edge_axes_total j Hj) as [-> Ha]. specialize (H3 j Hj) as [H3 H4]. split; cbn [edge_axis ax_n ax_origin ax_size].
  - by rewrite length_axis_edges.
  - by rewrite axis_edges_start, axis_edges_total.
Qed.
End edge_axes.

(** A grid made of a lawful one over an array with elements, which is named regular only when its chunks have one
    shape. *)
Definition uniform_edges (Es : list (list Z)) : Prop := Forall (λ E, ∃ s, E = replicate (length E) s) Es.

Definition chunk_grid_wf (o : ChunkGrid) : Prop :=
  contains_zero (array_shape o) = false ∧ (cg_named_regular o = true → uniform_edges (grid_edges o)) ∧
  ∃ (G : Type) (Tr : ChunkGridTraits G) (L : LawfulChunkGrid G) (N : GridName G) (g : G), grid_wf g ∧ o = ChunkGrid_new g.

#[export] Instance chunk_grid_lawful : LawfulChunkGrid ChunkGrid.
Proof.
  refine {| grid_wf := chunk_grid_wf; grid_axes := edge_axes |}; intros o.
  all: try (intros (Hnz & _ & G & Tr & L & N & g & Hg & ->)).
  all: try (intros j (Hnz & _ & G & Tr & L & N & g & Hg & ->)).
  - apply Forall_total. change (edge_axes (ChunkGrid_new g)) with (edge_axes g). rewrite (length_edge_axes g Hg Hnz).
    intros j Hj. destruct (edge_axes_total g Hg Hnz j Hj) as [-> Ha]. apply edge_axis_ok; [done|]. by apply axes_len_pos.
  - change (edge_axes (ChunkGrid_new g)) with (edge_axes g). rewrite (length_edge_axes g Hg Hnz). exact (grid_dimensionality_law g Hg).
  - change (edge_axes (ChunkGrid_new g)) with (edge_axes g). rewrite (edge_axes_fmap g Hg Hnz), <-list_fmap_compose. exact (array_shape_law g Hg).
  - change (edge_axes (ChunkGrid_new g)) with (edge_axes g). rewrite (edge_axes_fmap g Hg Hnz), <-list_fmap_compose.
    etrans; [by apply (grid_shape_law g Hg)|]. apply Forall_fmap_ext. eapply Forall_impl; [by apply (grid_axes_ok g Hg)|].
    intros a Ha. simpl. by rewrite length_axis_edges.
  - change (edge_axes (ChunkGrid_new g)) with (edge_axes g). rewrite (length_edge_axes g Hg Hnz). intros Hj.
    destruct (edge_axes_total g Hg Hnz j Hj) as [-> Ha]. cbn [edge_axis ax_len ax_n ax_size].
    etrans; [by apply (chunk_edge_lengths_law g j Hg Hj)|]. f_equal. pose proof (axes_len_pos g Hg Hnz j Hj).
    rewrite (proj2 (Z.eqb_neq _ _)) by lia. rewrite length_axis_edges by done. apply list_fmap_ext_in.
    intros c Hc%elem_of_seqZ. rewrite axis_edges_total by (done || lia). done.
  - change (edge_axes (ChunkGrid_new g)) with (edge_axes g). rewrite (length_edge_axes g Hg Hnz). exact (chunk_edge_lengths_error g j Hg).
  - intros Hc. destruct (edge_axes_at g Hg Hnz j (proj1 Hc)) as [_ E]. change (edge_axes (ChunkGrid_new g)) with (edge_axes g). rewrite E. by apply (chunk_shape_law g j Hg).
  - intros Hc. destruct (edge_axes_at g Hg Hnz j (proj1 Hc)) as [_ E]. change (edge_axes (ChunkGrid_new g)) with (edge_axes g). rewrite E. by apply (chunk_shape_u64_law g j Hg).
  - intros Hc. destruct (edge_axes_at g Hg Hnz j (proj1 Hc)) as [E _]. change (edge_axes (ChunkGrid_new g)) with (edge_axes g). rewrite E. by apply (chunk_origin_law g j Hg).
  - intros Hc. destruct (edge_axes_at g Hg Hnz j (proj1 Hc)) as [E1 E2]. change (edge_axes (ChunkGrid_new g)) with (edge_axes g). rewrite E1, E2. by apply (chunk_subset_law g j Hg).
  - intros Hi. destruct (chunk_indices_law g j Hg Hi) as (c & H1 & H2 & H3). exists c.
    change (edge_axes (ChunkGrid_new g)) with (edge_axes g). split_and!; [done|by apply edge_axes_hold|].
    pose proof (axes_hold_grid g Hg c j H2) as Hc. destruct (edge_axes_at g Hg Hnz c Hc) as [-> _]. exact H3.
  - exact (array_indices_inbounds_law g j Hg).
  - exact (grid_dimensionality_errors g j Hg).
Defined.

(** Forgetting the type of a lawful grid. *)
Lemma chunk_grid_new_wf {G} `{LawfulChunkGrid G} `{!GridName G} (g : G) : grid_wf g → contains_zero (array_shape g) = false →
  (named_regular (G:=G) = true → uniform_edges (grid_edges g)) → grid_wf (ChunkGrid_new g).
Proof. intros Hg Hnz Hr. split_and!; [done..|]. by exists G, _, _, _, g. Qed.

(** ** The rectilinear grid of a list of edges *)

(** No chunk lies wholly past the array. *)
Definition edges_tight (len : Z) (E : list Z) : Prop := ∀ e, last E = Some e → Zsum E - e < len.

(** The edges that a dimension of encoded edges keeps: equal edges become a fixed size, which has no chunk past the
    array. *)
Definition kept_edges (len : Z) (E K : list Z) : Prop :=
  K = E ∨ ∃ n s, E = replicate n s ∧ K = replicate (Z.to_nat (div_ceil len s)) s ∧ (div_ceil len s - 1) * s < len.

Lemma place_replicate n s x : 0 < s → 0 <= x < Z.of_nat n * s → place (replicate n s) x = (x / s, x mod s, s).
Proof.
  intros Hs Hx. unfold place. rewrite cell_replicate by done. pose proof (Z.div_pos x s ltac:(lia) Hs). pose proof (Z.div_mod x s ltac:(lia)).
  pose proof (Z.mod_pos_bound x s Hs). assert (Z.to_nat (x / s) < n)%nat by nia.
  unfold edge_start. rewrite take_replicate, Zsum_replicate, lookup_total_replicate_2 by done.
  rewrite Nat.min_l, Z2Nat.id by lia. do 2 f_equal. lia.
Qed.

Lemma kept_edges_place len E K x : edges_cover_dim len E → kept_edges len E K → 0 <= x < len → place K x = place E x.
Proof.
  intros (HE & Hlen & _) [->|(n & s & -> & -> & Ht)] Hx; [done|]. rewrite Zsum_replicate in Hlen.
  assert (0 < s) as Hs by (destruct n; [simpl in Hlen; lia|by inversion HE]).
  destruct (div_ceil_spec len s ltac:(lia) Hs) as [Hd|[-> _]]; [|lia]. rewrite !place_replicate by (done || nia). done.
Qed.

Lemma kept_edges_tight len E K : edges_cover_dim len E → edges_tight len E → 0 < len → kept_edges len E K → K = E.
Proof.
  intros (HE & Hlen & _) Ht Hpos [->|(n & s & -> & -> & Hd)]; [done|]. f_equal. rewrite Zsum_replicate in Hlen.
  destruct n as [|n]; [simpl in Hlen; lia|]. assert (0 < s) by by inversion HE.
  specialize (Ht s). rewrite Zsum_replicate, replicate_S_end, last_snoc in Ht. specialize (Ht eq_refl).
  destruct (div_ceil_spec len s ltac:(lia) ltac:(lia)) as [Hc|[-> _]]; [|lia]. nia.
Qed.

Lemma encode_edges len E : edges_cover_dim len E → 0 < len →
  ∃ c, encode E = Ok c ∧ edges_ok len c ∧ edges_cover len c ∧ kept_edges len E (axis_edges (rect_axis len (rectilinear_dim c))).
Proof.
  intros (HE & Hlen & Hu) Hpos. pose proof (length_le_Zsum E HE).
  destruct (encode_spec E ltac:(lia)) as [(s & Hc & Hne & Heq)|(el & Hc & Hd & _ & Hcan & Hns)].
  - exists (EdgeScalar s). assert (0 < s) as Hs by (destruct E as [|e E]; [done|]; injection Heq as -> _; by inversion HE).
    rewrite Heq, Zsum_replicate in Hlen, Hu. destruct (div_ceil_spec len s ltac:(lia) Hs) as [Hdc|[-> _]]; [|lia].
    split_and!; [done| |done|].
    + split; [lia|]. split_and!; [lia|done|]. assert (div_ceil len s <= zlen E) by nia.
      assert (div_ceil len s * s <= zlen E * s) by nia. lia.
    + right. exists (length E), s. split_and!; [done| |lia]. unfold axis_edges. cbn [rectilinear_dim rect_axis regular_axis ax_n ax_size].
      rewrite (const_fmap _ _ s) by done. by rewrite length_seqZ.
  - exists (EdgeVarying el). assert (E ≠ []) as Hne by (intros ->; unfold Zsum in Hlen; simpl in Hlen; lia). split_and!; [done| | |].
    + split; [lia|]. rewrite Hd. split; [|done]. clear -HE Hd Hcan. revert E HE Hd. induction Hcan as [|r el Hr Hel IH]; intros E HE Hd; [constructor|].
      destruct r as [v n|v]; simpl in Hd; subst E; [apply Forall_app in HE as [HE1 HE2]|apply Forall_cons in HE as [HE1 HE2]];
        (constructor; [|by eapply IH]); simpl in *; [|done].
      split; [|lia]. replace (Z.to_nat n) with (S (Z.to_nat (n - 1))) in HE1 by lia. by inversion HE1.
    + simpl. rewrite Hd. split; [done|lia].
    + left. unfold axis_edges. cbn [rectilinear_dim rect_axis ax_n ax_size]. rewrite Hd, length_scan_offsets.
      apply list_eq_total; rewrite length_fmap, length_seqZ; [lia|]. intros j Hj.
      rewrite fmap_total by (rewrite length_seqZ; lia).
      rewrite (list_lookup_total_correct _ j (0 + Z.of_nat j)) by (apply lookup_seqZ_lt; lia).
      replace (Z.to_nat (0 + Z.of_nat j)) with j by lia.
      by rewrite (list_lookup_total_correct (scan_offsets 0 E) j _ (scan_offsets_lookup 0 E j HE ltac:(lia) ltac:(lia) ltac:(lia))).
Qed.

(** The rectilinear grid of encoded edges locates an element in the edges. *)
Inductive encoded_dims : list Z → list (list Z) → list ChunkEdgeLengths → Prop :=
| encoded_nil : encoded_dims [] [] []
| encoded_cons len E c ash Es cfgs : 0 < len → edges_cover_dim len E → encode E = Ok c → edges_ok len c → edges_cover len c →
    kept_edges len E (axis_edges (rect_axis len (rectilinear_dim c))) → encoded_dims ash Es cfgs →
    encoded_dims (len :: ash) (E :: Es) (c :: cfgs).

Lemma encoded_dims_exist ash Es : edges_cover_shape ash Es → contains_zero ash = false → ∃ cfgs, encoded_dims ash Es cfgs.
Proof.
  induction 1 as [|len E ash Es HE H IH]; [exists []; constructor|]. intros [Hl Hz]%orb_false_iff.
  destruct (IH Hz) as [cfgs Hc]. assert (0 < len) by (apply Z.eqb_neq in Hl; destruct HE as (_ & ? & _); lia).
  destruct (encode_edges len E HE ltac:(done)) as (c & H1 & H2 & H3 & H4). exists (c :: cfgs). by constructor.
Qed.

Lemma encoded_dims_facts ash Es cfgs (axes := zip_with rect_axis ash (rectilinear_dim <$> cfgs)) : encoded_dims ash Es cfgs →
  collect_res (encode <$> Es) = Ok cfgs ∧ Forall2 edges_ok ash cfgs ∧ Forall2 edges_cover ash cfgs ∧
  (∀ x, index_in x ash → places (axis_edges <$> axes) x = places Es x) ∧
  (Forall2 edges_tight ash Es → axis_edges <$> axes = Es).
Proof.
  subst axes. induction 1 as [|len E c ash Es cfgs Hpos HE Hc Hok Hcov Hk H (IH1 & IH2 & IH3 & IH4 & IH5)].
  { split_and!; try done; by constructor. }
  cbn [fmap list_fmap collect_res zip_with]. rewrite Hc. cbn [obind]. split_and!.
  - by rewrite IH1.
  - by constructor.
  - by constructor.
  - intros x Hx. inversion Hx as [|i ? x' ? Hi Hx']; subst. unfold places in *. cbn [zip_with]. rewrite IH4 by done. f_equal.
    by apply (kept_edges_place len).
  - intros Ht. inversion Ht; subst. f_equal; [by apply (kept_edges_tight len)|by apply IH5].
Qed.

Lemma rectilinear_of_edges ash Es : edges_cover_shape ash Es → contains_zero ash = false → ∃ cfgs g,
  collect_res (encode <$> Es) = Ok cfgs ∧ RectilinearChunkGrid_new ash cfgs = Ok g ∧ grid_wf g ∧ array_shape g = ash ∧
  (∀ x, index_in x ash → places (grid_edges g) x = places Es x) ∧
  (Forall2 edges_tight ash Es → grid_edges g = Es).
Proof.
  intros Hcov Hnz. destruct (encoded_dims_exist ash Es Hcov Hnz) as [cfgs Hd].
  destruct (encoded_dims_facts ash Es cfgs Hd) as (H1 & H2 & H3 & H4 & H5).
  destruct (rectilinear_new_spec ash cfgs) as [_ Hnew]. destruct (proj2 (Hnew H2) H3) as (g & Hg & Hwf & Ha & _).
  assert (grid_axes g = zip_with rect_axis ash (rectilinear_dim <$> cfgs)) as Hax.
  { unfold RectilinearChunkGrid_new in Hg. case_match; [done|]. destruct (ok_or _ _); [|done..]. injection Hg as <-. done. }
  assert (contains_zero (array_shape g) = false) as Hnz' by by rewrite Ha.
  exists cfgs, g. rewrite (grid_edges_axes g Hwf Hnz'), Hax. by split_and!.
Qed.
