(* ===== verification/Subchunking.v ===== *)
(** Subchunk grids: how the chunk grid of an array goes down through the codecs of a chain, and how the grid of
    the subchunks that a codec such as sharding makes comes back up ([ChunkGridMapped] of [zarrs_codec/src/lib.rs], the
    subchunking traits of [codec_traits/array_to_array.rs] and [array_to_bytes.rs], and their implementations for
    [transpose], [squeeze], [sharding_indexed] and codec chains). *)

From S2P Require Import Prelude ArraySubset Linear Iterators ChunkGrid RegularGrid RectilinearGrid RepeatGrid ChunkEdges.
From S2P Require Import ByteRange StoreKey Storage ArrayBytes StoreProgram DecodeInto Concurrency Codec ArrayToArray Transpose CodecChain Sharding.

(** [ChunkGridDecoded] and [ChunkGridEncoded], owned or borrowed. *)
Inductive ChunkGridMapped :=
| MappedNone
| MappedArray (chunk_grid : ChunkGrid)
| MappedChunkLocal.

Definition as_chunk_grid (m : ChunkGridMapped) : option ChunkGrid :=
  match m with MappedArray g => Some g | MappedNone | MappedChunkLocal => None end.

(** [From<Option<ChunkGrid>>]. *)
Definition mapped_of_option (g : option ChunkGrid) : ChunkGridMapped :=
  match g with Some g => MappedArray g | None => MappedNone end.

Class ArrayToArrayCodecSubchunkingTraits (A : Type) := {
  encoded_chunk_grid : A → ChunkGridMapped → outcome GridError ChunkGridMapped;
  decoded_subchunk_grid : A → ChunkGridMapped → ChunkGridMapped → outcome GridError ChunkGridMapped }.

Class ArrayToBytesCodecSubchunkingTraits (C : Type) := {
  decoded_subchunk_grids : C → ChunkGridMapped → outcome GridError (list ChunkGridMapped) }.

(** [ArrayToArrayCodecSubchunkingIdentityTraits]: codecs that keep the order and the shape of the elements. *)
Definition identity_subchunking {A} : ArrayToArrayCodecSubchunkingTraits A := {|
  encoded_chunk_grid _ decoded_chunk_grid := Ok decoded_chunk_grid;
  decoded_subchunk_grid _ _ encoded_subchunk_grid := Ok encoded_subchunk_grid |}.

(** [ArrayToBytesCodecNoSubchunkingTraits]. *)
Definition no_subchunking {C} : ArrayToBytesCodecSubchunkingTraits C := {| decoded_subchunk_grids _ _ := Ok [] |}.

(** [decoded_subchunk_grid] of an array to bytes codec: the outermost grid. *)
Definition outermost_subchunk_grid {C} `{!ArrayToBytesCodecSubchunkingTraits C} (self : C) (decoded_chunk_grid : ChunkGridMapped)
    : outcome GridError ChunkGridMapped :=
  let? grids := decoded_subchunk_grids self decoded_chunk_grid in
  Ok (default MappedNone (head grids)).

(** [ChunkEdgeLengths::encode]; it does not fail on edges that a grid returns. *)
Definition encode_lengths (edge_lengths : list Z) : outcome GridError ChunkEdgeLengths := map_err (λ _, GridCreateOther) (encode edge_lengths).

(** The edge lengths of some dimensions of a grid, in the order given, encoded. *)
Definition encoded_edge_lengths (grid : ChunkGrid) (dims : list Z) : outcome GridError (list ChunkEdgeLengths) :=
  collect_res ((λ dim, let? edge_lengths := chunk_edge_lengths grid (Z.to_nat dim) in encode_lengths edge_lengths) <$> dims).

Definition new_rectilinear (array_shape : list Z) (chunk_shapes : list ChunkEdgeLengths) : outcome GridError ChunkGridMapped :=
  let? grid := RectilinearChunkGrid_new array_shape chunk_shapes in Ok (MappedArray (ChunkGrid_new grid)).

(** [From<RepeatChunkGridCreateError>]. *)
Definition repeat_create_error (e : RepeatChunkGridCreateError) : GridError :=
  match e with
  | RepeatIncompatibleDimensionality got expected => IncompatibleDimensionalityError got expected
  | RepeatIncompatibleDimension got expected => IncompatibleDimensionError got expected
  | ZeroRepeat _ | ShapeOverflow | InnerChunkEdgeLengthsMismatch _ _ _ _ _ => GridCreateOther
  end.

(** ** The transpose codec *)

Definition transpose_encoded_chunk_grid (self : TransposeCodecBound) (decoded_chunk_grid : ChunkGridMapped) : outcome GridError ChunkGridMapped :=
  match decoded_chunk_grid with
  | MappedArray decoded_chunk_grid =>
      let? array_shape := map_err (λ _, GridCreateOther) (permute (array_shape decoded_chunk_grid) (tr_order self)) in
      match array_shape with
      | None => Err GridCreateOther
      | Some array_shape =>
          let? chunk_shapes := encoded_edge_lengths decoded_chunk_grid (tr_order self) in
          new_rectilinear array_shape chunk_shapes
      end
  | _ => Ok decoded_chunk_grid
  end.

Definition transpose_decoded_subchunk_grid (self : TransposeCodecBound) (decoded_chunk_grid encoded_subchunk_grid : ChunkGridMapped)
    : outcome GridError ChunkGridMapped :=
  match encoded_subchunk_grid, decoded_chunk_grid with
  | MappedArray encoded_subchunk_grid, MappedArray decoded_chunk_grid =>
      if negb (length (tr_order self) =? grid_dimensionality decoded_chunk_grid)%nat then Err GridCreateOther
      else if negb (length (tr_order self) =? grid_dimensionality encoded_subchunk_grid)%nat then Err GridCreateOther
      else
        let? inverse := map_err (λ _, GridCreateOther) (inverse_permutation (tr_order self)) in
        let? chunk_shapes := encoded_edge_lengths encoded_subchunk_grid inverse in
        new_rectilinear (array_shape decoded_chunk_grid) chunk_shapes
  | MappedArray _, _ => Ok MappedNone
  | _, _ => Ok encoded_subchunk_grid
  end.

#[export] Instance transpose_subchunking : ArrayToArrayCodecSubchunkingTraits TransposeCodecBound := {|
  encoded_chunk_grid := transpose_encoded_chunk_grid;
  decoded_subchunk_grid := transpose_decoded_subchunk_grid |}.

(** ** The squeeze codec *)

(** Whether a dimension is left out: [None] when it is for some chunks only. *)
Definition squeeze_chunk_edge_lengths (edge_lengths : list Z) : option bool :=
  let has_unit_edge := existsb (λ e, e =? 1) edge_lengths in
  let has_non_unit_edge := existsb (λ e, negb (e =? 1)) edge_lengths in
  match has_unit_edge, has_non_unit_edge with
  | true, false => Some true
  | false, true => Some false
  | _, _ => None
  end.

(** The loop of [encoded_chunk_grid] over the dimensions; [None] stands for the early return of [ChunkLocal]. *)
Fixpoint squeeze_dims (grid : ChunkGrid) (dims : list nat) (sh : list Z) (chunk_shapes : list ChunkEdgeLengths)
    : outcome GridError (option (list Z * list ChunkEdgeLengths)) :=
  match dims with
  | [] => Ok (Some (sh, chunk_shapes))
  | decoded_dim :: dims =>
      let? edge_lengths := chunk_edge_lengths grid decoded_dim in
      match squeeze_chunk_edge_lengths edge_lengths with
      | None => Ok None
      | Some true => squeeze_dims grid dims sh chunk_shapes
      | Some false =>
          let? edge_lengths := chunk_edge_lengths grid decoded_dim in
          let? extent := index (array_shape grid) (Z.of_nat decoded_dim) in
          let? chunk_shape := encode_lengths edge_lengths in
          squeeze_dims grid dims (sh ++ [extent]) (chunk_shapes ++ [chunk_shape])
      end
  end.

Definition squeeze_encoded_chunk_grid (decoded_chunk_grid : ChunkGridMapped) : outcome GridError ChunkGridMapped :=
  match decoded_chunk_grid with
  | MappedArray decoded_chunk_grid =>
      if contains_zero (array_shape decoded_chunk_grid) then Ok MappedNone
      else
        let? dims := squeeze_dims decoded_chunk_grid (seq 0 (grid_dimensionality decoded_chunk_grid)) [] [] in
        match dims with
        | None => Ok MappedChunkLocal
        | Some (array_shape, []) => new_rectilinear (array_shape ++ [1]) [EdgeScalar 1]
        | Some (array_shape, chunk_shapes) => new_rectilinear array_shape chunk_shapes
        end
  | _ => Ok decoded_chunk_grid
  end.

(** Which dimensions are left out; [None] when one is for some chunks only. *)
Fixpoint squeeze_flags (grid : ChunkGrid) (dims : list nat) : outcome GridError (option (list bool)) :=
  match dims with
  | [] => Ok (Some [])
  | decoded_dim :: dims =>
      let? edge_lengths := chunk_edge_lengths grid decoded_dim in
      match squeeze_chunk_edge_lengths edge_lengths with
      | None => Ok None
      | Some squeeze_dim => let? rest := squeeze_flags grid dims in Ok (cons squeeze_dim <$> rest)
      end
  end.

Fixpoint unsqueezed_edge_lengths (grid : ChunkGrid) (squeeze : list bool) (encoded_dim : nat) : outcome GridError (list ChunkEdgeLengths) :=
  match squeeze with
  | [] => Ok []
  | true :: squeeze => let? rest := unsqueezed_edge_lengths grid squeeze encoded_dim in Ok (EdgeScalar 1 :: rest)
  | false :: squeeze =>
      let? edge_lengths := chunk_edge_lengths grid encoded_dim in
      let? chunk_shape := encode_lengths edge_lengths in
      let? rest := unsqueezed_edge_lengths grid squeeze (S encoded_dim) in
      Ok (chunk_shape :: rest)
  end.

Definition squeeze_decoded_subchunk_grid (decoded_chunk_grid encoded_subchunk_grid : ChunkGridMapped) : outcome GridError ChunkGridMapped :=
  match encoded_subchunk_grid, decoded_chunk_grid with
  | MappedArray encoded_subchunk_grid, MappedArray decoded_chunk_grid =>
      if contains_zero (array_shape decoded_chunk_grid) then Ok MappedNone
      else
        let? squeeze := squeeze_flags decoded_chunk_grid (seq 0 (grid_dimensionality decoded_chunk_grid)) in
        match squeeze with
        | None => Ok MappedNone
        | Some squeeze =>
            let num_unsqueezed_dims := length (filter (λ s, s = false) squeeze) in
            if negb (grid_dimensionality encoded_subchunk_grid =? Nat.max num_unsqueezed_dims 1)%nat then Err GridCreateOther
            else
              let? chunk_shapes := unsqueezed_edge_lengths encoded_subchunk_grid squeeze 0 in
              new_rectilinear (array_shape decoded_chunk_grid) chunk_shapes
        end
  | MappedArray _, _ => Ok MappedNone
  | _, _ => Ok encoded_subchunk_grid
  end.

#[export] Instance squeeze_subchunking : ArrayToArrayCodecSubchunkingTraits SqueezeCodecBound := {|
  encoded_chunk_grid _ := squeeze_encoded_chunk_grid;
  decoded_subchunk_grid _ := squeeze_decoded_subchunk_grid |}.

(** ** The sharding codec *)

(** The edges of one dimension, each cut into subchunks. *)
Fixpoint cut_edges (subchunk : Z) (edge_lengths : list Z) : outcome GridError (list Z) :=
  match edge_lengths with
  | [] => Ok []
  | edge_length :: edge_lengths =>
      if negb (edge_length mod subchunk =? 0) then Err GridCreateOther
      else let? rest := cut_edges subchunk edge_lengths in Ok (replicate (Z.to_nat (edge_length / subchunk)) subchunk ++ rest)
  end.

(** The loop over the dimensions: the extents of the grid of subchunks, and its encoded edge lengths. *)
Fixpoint cut_dims (grid : ChunkGrid) (dim : nat) (subchunk_shape : list Z) : outcome GridError (list Z * list ChunkEdgeLengths) :=
  match subchunk_shape with
  | [] => Ok ([], [])
  | subchunk :: subchunk_shape =>
      let? edge_lengths := chunk_edge_lengths grid dim in
      let? global_edge_lengths := cut_edges subchunk edge_lengths in
      let? dimension_shape := ok_or GridCreateOther (checked_sum global_edge_lengths) in
      let? edge_lengths := encode_lengths global_edge_lengths in
      let? rest := cut_dims grid (S dim) subchunk_shape in
      Ok (dimension_shape :: rest.1, edge_lengths :: rest.2)
  end.

Definition as_scalar (e : ChunkEdgeLengths) : option Z := match e with EdgeScalar s => Some s | EdgeVarying _ => None end.

Definition cut_grid (chunk_grid : ChunkGrid) (subchunk_shape : list Z) : outcome GridError ChunkGrid :=
  let? cut := cut_dims chunk_grid 0 subchunk_shape in
  let '(subchunk_grid_shape, subchunk_edge_lengths) := cut in
  let needs_rectilinear := existsb (λ e, negb (bool_decide (is_Some (as_scalar e)))) subchunk_edge_lengths in
  if needs_rectilinear then
    let? grid := RectilinearChunkGrid_new subchunk_grid_shape subchunk_edge_lengths in Ok (ChunkGrid_new grid)
  else
    let? subchunk_shape := expect (collect_opt (as_scalar <$> subchunk_edge_lengths)) in
    let? grid := RegularChunkGrid_new subchunk_grid_shape subchunk_shape in Ok (ChunkGrid_new grid).

Definition regular_subchunk_grid (chunk_grid : ChunkGrid) (subchunk_shape : list Z) : outcome GridError ChunkGrid :=
  if negb (grid_dimensionality chunk_grid =? length subchunk_shape)%nat then Err GridCreateOther
  else if cg_named_regular chunk_grid then
    let? origin_shape := chunk_shape chunk_grid (replicate (grid_dimensionality chunk_grid) 0) in
    let? origin_shape := ok_or GridCreateOther origin_shape in
    if zip_all (λ shape subchunk, shape mod subchunk =? 0) origin_shape subchunk_shape then
      let? inner := RegularChunkGrid_new origin_shape subchunk_shape in
      let? grid := map_err repeat_create_error (RepeatChunkGrid_new (grid_shape chunk_grid) (ChunkGrid_new inner)) in
      Ok (ChunkGrid_new grid)
    else cut_grid chunk_grid subchunk_shape
  else cut_grid chunk_grid subchunk_shape.

Section sharding.
Context {I X : Type} `{!ArrayToBytesCodecSubchunkingTraits I}.

Definition sharding_decoded_subchunk_grids (self : ShardingCodecBound I X) (decoded_chunk_grid : ChunkGridMapped)
    : outcome GridError (list ChunkGridMapped) :=
  let? subchunk_grid :=
    match decoded_chunk_grid with
    | MappedNone => Ok MappedNone
    | MappedArray decoded_chunk_grid =>
        if contains_zero (array_shape decoded_chunk_grid) then Ok MappedNone
        else let? grid := regular_subchunk_grid decoded_chunk_grid (subchunk_shape self) in Ok (MappedArray grid)
    | MappedChunkLocal => Ok MappedChunkLocal
    end in
  let? inner := decoded_subchunk_grids (inner_codecs self) subchunk_grid in
  Ok (subchunk_grid :: inner).

#[export] Instance sharding_subchunking : ArrayToBytesCodecSubchunkingTraits (ShardingCodecBound I X) := {|
  decoded_subchunk_grids := sharding_decoded_subchunk_grids |}.
End sharding.

(** ** Codec chains *)

Fixpoint boundaries_from (offset : Z) (edge_lengths : list Z) : list Z :=
  match edge_lengths with
  | [] => []
  | edge_length :: edge_lengths => let offset := offset +w edge_length in offset :: boundaries_from offset edge_lengths
  end.

Definition cumulative_boundaries (edge_lengths : list Z) : list Z := 0 :: boundaries_from 0 edge_lengths.

(** The loop of [validate_subchunk_grid_refines_chunk_grid]; [binary_search] decides membership in a sorted slice. *)
Fixpoint validate_dims (chunk_grid subchunk_grid : ChunkGrid) (dims : list nat) : outcome GridError unit :=
  match dims with
  | [] => Ok tt
  | dim :: dims =>
      let? chunk_edges := chunk_edge_lengths chunk_grid dim in
      let chunk_boundaries := cumulative_boundaries chunk_edges in
      let? subchunk_edges := chunk_edge_lengths subchunk_grid dim in
      let subchunk_boundaries := cumulative_boundaries subchunk_edges in
      if negb (bool_decide (last chunk_boundaries = last subchunk_boundaries)) then Err GridCreateOther
      else if negb (forallb (λ boundary, bool_decide (boundary ∈ subchunk_boundaries)) chunk_boundaries) then Err GridCreateOther
      else validate_dims chunk_grid subchunk_grid dims
  end.

Definition validate_subchunk_grid_refines_chunk_grid (chunk_grid subchunk_grid : ChunkGrid) : outcome GridError unit :=
  if negb (grid_dimensionality chunk_grid =? grid_dimensionality subchunk_grid)%nat
  then Err GridCreateOther
  else validate_dims chunk_grid subchunk_grid (seq 0 (grid_dimensionality chunk_grid)).

Section chain.
Context {A C B : Type} `{!ArrayToArrayCodecSubchunkingTraits A, !ArrayToBytesCodecSubchunkingTraits C}.

Definition is_array (m : ChunkGridMapped) : bool := match m with MappedArray _ => true | _ => false end.

(** The grid goes through the codecs: the grids it is decoded from, the last codec's first, and the one the array to
    bytes codec sees. *)
Fixpoint map_chunk_grid (codecs : list A) (mapped_chunk_grid : ChunkGridMapped) (chunk_grids : list (A * ChunkGridMapped))
    : outcome GridError (list (A * ChunkGridMapped) * ChunkGridMapped) :=
  match codecs with
  | [] => Ok (chunk_grids, mapped_chunk_grid)
  | codec :: codecs =>
      let decoded_grid_is_global := is_array mapped_chunk_grid in
      let? encoded := encoded_chunk_grid codec mapped_chunk_grid in
      if is_array encoded && negb decoded_grid_is_global then Err GridCreateOther
      else map_chunk_grid codecs encoded ((codec, mapped_chunk_grid) :: chunk_grids)
  end.

(** A grid of subchunks goes back through the codecs, in reverse order. *)
Fixpoint unmap_subchunk_grid (codecs : list (A * ChunkGridMapped)) (subchunk_grid : ChunkGridMapped) : outcome GridError ChunkGridMapped :=
  match codecs with
  | [] => Ok subchunk_grid
  | (codec, decoded_chunk_grid) :: codecs =>
      let? subchunk_grid := decoded_subchunk_grid codec decoded_chunk_grid subchunk_grid in
      unmap_subchunk_grid codecs subchunk_grid
  end.

Fixpoint unmap_subchunk_grids (codecs : list (A * ChunkGridMapped)) (mapped_chunk_grid : ChunkGridMapped) (encoded_subchunk_grids : list ChunkGridMapped)
    : outcome GridError (list ChunkGridMapped) :=
  match encoded_subchunk_grids with
  | [] => Ok []
  | subchunk_grid :: encoded_subchunk_grids =>
      if is_array subchunk_grid && negb (is_array mapped_chunk_grid) then Err GridCreateOther
      else
        let? subchunk_grid := unmap_subchunk_grid codecs subchunk_grid in
        let? rest := unmap_subchunk_grids codecs mapped_chunk_grid encoded_subchunk_grids in
        Ok (subchunk_grid :: rest)
  end.

(** Each global grid refines the one before it. *)
Fixpoint validate_grids (parent_grid : ChunkGrid) (subchunk_grids : list ChunkGridMapped) : outcome GridError unit :=
  match subchunk_grids with
  | [] => Ok tt
  | MappedArray subchunk_grid :: subchunk_grids =>
      let? _ := validate_subchunk_grid_refines_chunk_grid parent_grid subchunk_grid in
      validate_grids subchunk_grid subchunk_grids
  | _ :: subchunk_grids => validate_grids parent_grid subchunk_grids
  end.

Definition chain_decoded_subchunk_grids (self : CodecChainBound A C B) (decoded_chunk_grid : ChunkGridMapped)
    : outcome GridError (list ChunkGridMapped) :=
  let? mapped := map_chunk_grid (array_to_array self) decoded_chunk_grid [] in
  let '(chunk_grids, mapped_chunk_grid) := mapped in
  let? encoded_subchunk_grids := decoded_subchunk_grids (array_to_bytes self) mapped_chunk_grid in
  let? decoded_subchunk_grids := unmap_subchunk_grids chunk_grids mapped_chunk_grid encoded_subchunk_grids in
  let? _ := match decoded_chunk_grid with MappedArray g => validate_grids g decoded_subchunk_grids | _ => Ok tt end in
  Ok decoded_subchunk_grids.

#[export] Instance chain_subchunking : ArrayToBytesCodecSubchunkingTraits (CodecChainBound A C B) := {|
  decoded_subchunk_grids := chain_decoded_subchunk_grids |}.
End chain.
