(* ===== verification/SubchunkLaws.v ===== *)
(** What codecs promise of subchunk grids, and that codec chains keep it.

    [sub_image] is where an array to array codec puts an element of the array: [LawfulSubchunking] promises that
    the grids it returns agree with it.  Two elements of a chunk are in one subchunk of the decoded grid exactly when
    their images are in one subchunk of the encoded grid. *)

From S2P Require Import Prelude ArraySubset Linear Iterators ChunkGrid RegularGrid RectilinearGrid RepeatGrid ChunkEdges.
From S2P Require Import ByteRange StoreKey Storage ArrayBytes Elements StoreProgram DecodeInto Concurrency Codec ArrayToArray CodecChain Sharding Subchunking.

(** Two elements in one chunk of a grid. *)
Definition same_chunk (g : ChunkGrid) (x x' : list Z) : Prop := edge_cells (grid_edges g) x = edge_cells (grid_edges g) x'.

#[export] Instance same_chunk_equiv g : Equivalence (same_chunk g).
Proof. unfold same_chunk. split; [done|by intros x y|intros x y z; congruence]. Qed.

(** The array of [g'] has at least the elements of the array of [g]. *)
Definition array_within (g g' : ChunkGrid) : Prop := Forall2 Z.le (array_shape g) (array_shape g').

Lemma array_within_in g g' x : array_within g g' → index_in x (array_shape g) → index_in x (array_shape g').
Proof. intros H. revert x. induction H as [|a b sh sh' Hab H IH]; intros x Hx; inversion Hx; subst; constructor; [lia|by apply IH]. Qed.

Lemma array_within_refl g : array_within g g.
Proof. unfold array_within. induction (array_shape g); by constructor. Qed.

Lemma array_within_trans g1 g2 g3 : array_within g1 g2 → array_within g2 g3 → array_within g1 g3.
Proof. unfold array_within. intros H1 H2. eapply transitivity; [exact H1|exact H2]. Qed.

Class LawfulSubchunking (A : Type) `{!ArrayToArrayCodecSubchunkingTraits A} := {
  sub_wf : A → Prop;
  (** the shape of an encoded chunk and its elements, and the image of an element of the array of a grid *)
  sub_shape : A → list Z → list Z;
  sub_map : A → list Z → list element → list element;
  sub_image : A → ChunkGrid → list Z → list Z;
  sub_encoded_law a g e : sub_wf a → grid_wf g → encoded_chunk_grid a (MappedArray g) = Ok (MappedArray e) →
    grid_wf e ∧ ∀ x, index_in x (array_shape g) →
      let y := sub_image a g x in let sh := sizes_at (grid_edges g) x in
      index_in y (array_shape e) ∧ sizes_at (grid_edges e) y = sub_shape a sh ∧
      (∀ V, zlen V = Zprod sh → zlen (sub_map a sh V) = Zprod (sub_shape a sh) ∧
        sub_map a sh V !! Z.to_nat (lin (locals (grid_edges e) y) (sub_shape a sh)) = V !! Z.to_nat (lin (locals (grid_edges g) x) sh)) ∧
      (∀ x', index_in x' (array_shape g) → same_chunk g x x' → same_chunk e y (sub_image a g x'));
  sub_decoded_law a g e s d : sub_wf a → grid_wf g → encoded_chunk_grid a (MappedArray g) = Ok (MappedArray e) →
    grid_wf s → array_within e s → decoded_subchunk_grid a (MappedArray g) (MappedArray s) = Ok (MappedArray d) →
    grid_wf d ∧ array_within g d ∧
    ∀ x x', index_in x (array_shape g) → index_in x' (array_shape g) → same_chunk g x x' →
      same_chunk d x x' ↔ same_chunk s (sub_image a g x) (sub_image a g x');
  sub_global_law a m s d : decoded_subchunk_grid a m s = Ok (MappedArray d) → is_array s = true ∧ is_array m = true }.

(** What an array to bytes codec promises of the global grids it returns. *)
Class LawfulSubchunks (C : Type) `{!ArrayToBytesCodecSubchunkingTraits C} := {
  subs_wf : C → Prop;
  subs_law c g ss s : subs_wf c → grid_wf g → decoded_subchunk_grids c (MappedArray g) = Ok ss → MappedArray s ∈ ss →
    grid_wf s ∧ array_within g s;
  subs_global_law c m ss s : subs_wf c → is_array m = false → decoded_subchunk_grids c m = Ok ss → MappedArray s ∉ ss }.

(** ** Refinement of grids *)

Lemma boundaries_from_spec o E : edges_pos E → 0 <= o → o + Zsum E < u64_modulus →
  boundaries_from o E = (λ c, o + edge_start E (c + 1)) <$> seqZ 0 (zlen E).
Proof.
  intros HE. revert o. induction HE as [|e E He HE IH]; intros o Ho Hu; [done|]. rewrite Zsum_cons in Hu.
  pose proof (edges_pos_sum E HE). cbn [boundaries_from]. rewrite wrap64_small by (unfold_u64; lia). rewrite IH by lia.
  cbn [length]. rewrite (seqZ_cons 0 (Z.of_nat (S (length E)))) by lia. rewrite fmap_cons. f_equal; [change (edge_start (e :: E) (0 + 1)) with (Zsum [e]); rewrite Zsum_cons; change (Zsum []) with 0; lia|].
  replace (Z.pred (Z.of_nat (S (length E)))) with (zlen E) by lia. change (Z.succ 0) with 1. rewrite <-(fmap_add_seqZ 1 0), <-list_fmap_compose.
  apply list_fmap_ext_in. intros c Hc%elem_of_seqZ. simpl. rewrite (edge_start_cons e) by lia. replace (1 + c + 1 - 1) with (c + 1) by lia. lia.
Qed.

Lemma elem_of_boundaries E t : edges_pos E → Zsum E < u64_modulus →
  t ∈ cumulative_boundaries E ↔ ∃ c, 0 <= c <= zlen E ∧ t = edge_start E c.
Proof.
  intros HE Hu. unfold cumulative_boundaries. rewrite boundaries_from_spec by (done || lia). rewrite elem_of_cons, list_elem_of_fmap. split.
  - intros [->|(c & -> & Hc%elem_of_seqZ)]; [exists 0; split; [lia|done]|exists (c + 1); lia].
  - intros (c & Hc & ->). destruct (decide (c = 0)) as [->|]; [by left|]. right. exists (c - 1). rewrite elem_of_seqZ.
    replace (c - 1 + 1) with c by lia. split; [lia|lia].
Qed.

Lemma edge_start_succ E c : 0 <= c < zlen E → edge_start E (c + 1) = edge_start E c + zat E c.
Proof.
  intros Hc. unfold edge_start. replace (Z.to_nat (c + 1)) with (S (Z.to_nat c)) by lia. apply Zsum_take_S. lia.
Qed.

Lemma edge_start_mono E c c' : edges_pos E → 0 <= c → c < c' → c' <= zlen E → edge_start E c + zat E c <= edge_start E c'.
Proof.
  intros HE Hc Hcc Hc'. rewrite <-edge_start_succ by lia. revert Hc'. pattern c'. apply Zlt_lower_bound_ind with (c + 1); [|lia].
  clear c' Hcc. intros c' IH Hcc Hn. destruct (decide (c' = c + 1)) as [->|]; [done|].
  specialize (IH (c' - 1) ltac:(lia) ltac:(lia)). pose proof (edge_start_succ E (c' - 1) ltac:(lia)) as Hs.
  replace (c' - 1 + 1) with c' in Hs by lia. pose proof (zat_pos E (c' - 1) HE ltac:(lia)). lia.
Qed.

(** Elements in one interval of [D] are in one interval of [E], when the boundaries of [E] are boundaries of [D]. *)
Lemma refined_cell E D x x' : edges_pos E → edges_pos D → Zsum E < u64_modulus → Zsum D < u64_modulus →
  (∀ t, t ∈ cumulative_boundaries E → t ∈ cumulative_boundaries D) → 0 <= x < Zsum E → 0 <= x' < Zsum E → 0 <= x < Zsum D → 0 <= x' < Zsum D →
  edge_cell D x = edge_cell D x' → edge_cell E x = edge_cell E x'.
Proof.
  intros HE HD HuE HuD Hb HxE HxE' HxD HxD' Heq.
  assert (∀ x x', 0 <= x < Zsum E → 0 <= x' < Zsum E → 0 <= x < Zsum D → 0 <= x' < Zsum D → edge_cell D x = edge_cell D x' → ¬ edge_cell E x < edge_cell E x') as Hlt.
  { clear - HE HD HuE HuD Hb. intros x x' HxE HxE' HxD HxD' Heq Hlt. destruct (cell_spec E x HE HxE) as [A1 A2]. destruct (cell_spec E x' HE HxE') as [B1 B2].
    destruct (cell_spec D x HD HxD) as [C1 C2]. destruct (cell_spec D x' HD HxD') as [_ D2]. rewrite <-Heq in D2.
    pose proof (edge_start_mono E (edge_cell E x) (edge_cell E x') HE ltac:(lia) Hlt ltac:(lia)).
    assert (edge_start E (edge_cell E x') ∈ cumulative_boundaries E) as Hin by (apply elem_of_boundaries; [done..|exists (edge_cell E x'); split; [lia|done]]).
    apply Hb, elem_of_boundaries in Hin as (k & Hk & Hs); [|done..].
    destruct (Z.le_gt_cases k (edge_cell D x)) as [Hle|Hgt].
    - destruct (decide (k = edge_cell D x)) as [->|]; [lia|]. pose proof (edge_start_mono D k (edge_cell D x) HD ltac:(lia) ltac:(lia) ltac:(lia)).
      pose proof (zat_pos D k HD ltac:(lia)). lia.
    - pose proof (edge_start_mono D (edge_cell D x) k HD ltac:(lia) ltac:(lia) ltac:(lia)). lia. }
  pose proof (Hlt x x' HxE HxE' HxD HxD' Heq). pose proof (Hlt x' x HxE' HxE HxD' HxD (eq_sym Heq)). lia.
Qed.

(** What [lawful_edges] says of a [ChunkGrid]. *)
Lemma wf_edges (g : ChunkGrid) : grid_wf g → edges_cover_shape (array_shape g) (grid_edges g) ∧
  grid_dimensionality g = length (grid_edges g) ∧ contains_zero (array_shape g) = false ∧
  (∀ j, (j < length (grid_edges g))%nat → chunk_edge_lengths g j = Ok (grid_edges g !!! j)).
Proof. intros Hg. pose proof (proj1 Hg) as Hnz. destruct (lawful_edges g Hg Hnz) as (H1 & _ & H3 & H4 & _). done. Qed.

Lemma wf_edges_at (g : ChunkGrid) j : grid_wf g → (j < length (grid_edges g))%nat →
  edges_cover_dim (array_shape g !!! j) (grid_edges g !!! j) ∧ 0 < array_shape g !!! j.
Proof.
  intros Hg Hj. destruct (wf_edges g Hg) as (Hc & _ & Hz & _). unfold edges_cover_shape in Hc. rewrite Forall2_total in Hc. destruct Hc as [Hl Hc].
  specialize (Hc j ltac:(lia)). split; [done|]. unfold contains_zero in Hz. rewrite existsb_total_false in Hz.
  specialize (Hz j ltac:(lia)). apply Z.eqb_neq in Hz. destruct Hc as (_ & ? & _). lia.
Qed.

Lemma length_wf_edges (g : ChunkGrid) : grid_wf g → length (array_shape g) = length (grid_edges g).
Proof. intros Hg. eapply Forall2_length, (proj1 (wf_edges g Hg)). Qed.

(** Elements are in one chunk when they are along every dimension. *)
Lemma same_chunk_total (g : ChunkGrid) x x' : grid_wf g → length x = length (array_shape g) → length x' = length (array_shape g) →
  same_chunk g x x' ↔ ∀ j, (j < length (array_shape g))%nat → edge_cell (grid_edges g !!! j) (x !!! j) = edge_cell (grid_edges g !!! j) (x' !!! j).
Proof.
  intros Hg Hx Hx'. pose proof (length_wf_edges g Hg) as Hl. unfold same_chunk, edge_cells. split.
  - intros Heq j Hj. assert (zip_with edge_cell (grid_edges g) x !!! j = zip_with edge_cell (grid_edges g) x' !!! j) as H by by rewrite Heq.
    by rewrite !zip_with_total in H by lia.
  - intros H. apply list_eq_total; rewrite !length_zip_with; [lia|]. intros j Hj. rewrite !zip_with_total by lia. apply H. lia.
Qed.

(** The dimensions checked by [validate_subchunk_grid_refines_chunk_grid]. *)
Lemma validate_dims_spec (g d : ChunkGrid) dims : grid_wf g → grid_wf d → length (grid_edges d) = length (grid_edges g) →
  (∀ j, j ∈ dims → (j < length (grid_edges g))%nat) → validate_dims g d dims = Ok tt →
  ∀ j, j ∈ dims → ∀ t, t ∈ cumulative_boundaries (grid_edges g !!! j) → t ∈ cumulative_boundaries (grid_edges d !!! j).
Proof.
  intros Hg Hd Hl. destruct (wf_edges g Hg) as (_ & _ & _ & Eg). destruct (wf_edges d Hd) as (_ & _ & _ & Ed).
  induction dims as [|i dims IH]; intros Hr Hv j Hj; [by apply not_elem_of_nil in Hj|]. cbn [validate_dims] in Hv.
  assert (i < length (grid_edges g))%nat as Hi by (apply Hr; left). rewrite Eg, Ed in Hv by lia. cbn [obind] in Hv.
  case_match; [done|]. case_match eqn:Hall; [done|]. apply elem_of_cons in Hj as [->|Hj].
  - apply negb_false_iff in Hall. intros t Ht. rewrite forallb_forall in Hall.
    specialize (Hall t ltac:(by apply list_elem_of_In)). by apply bool_decide_eq_true in Hall.
  - apply IH; [|done..]. intros k Hk. apply Hr. by right.
Qed.

Lemma validated_refines (g d : ChunkGrid) x x' : grid_wf g → grid_wf d → validate_subchunk_grid_refines_chunk_grid g d = Ok tt →
  index_in x (array_shape g) → index_in x' (array_shape g) → index_in x (array_shape d) → index_in x' (array_shape d) →
  same_chunk d x x' → same_chunk g x x'.
Proof.
  intros Hg Hd Hv Hx Hx' Hxd Hxd'. unfold validate_subchunk_grid_refines_chunk_grid in Hv. case_match eqn:Hdim; [done|].
  apply negb_false_iff, Nat.eqb_eq in Hdim. destruct (wf_edges g Hg) as (_ & Hgd & _). destruct (wf_edges d Hd) as (_ & Hdd & _).
  pose proof (length_wf_edges g Hg) as Hlg. pose proof (length_wf_edges d Hd) as Hld.
  pose proof (validate_dims_spec g d (seq 0 (grid_dimensionality g)) Hg Hd ltac:(lia) ltac:(intros j [_ Hj]%elem_of_seq; lia) Hv) as Hb.
  pose proof (Forall2_length _ _ _ Hx). pose proof (Forall2_length _ _ _ Hx').
  rewrite !same_chunk_total by (done || lia). intros Hs j Hj. specialize (Hs j ltac:(lia)).
  destruct (wf_edges_at g j Hg ltac:(lia)) as [(G1 & G2 & G3) _]. destruct (wf_edges_at d j Hd ltac:(lia)) as [(D1 & D2 & D3) _].
  unfold index_in in *. rewrite Forall2_total in Hx, Hx', Hxd, Hxd'.
  destruct Hx as [_ Hx], Hx' as [_ Hx'], Hxd as [_ Hxd], Hxd' as [_ Hxd'].
  specialize (Hx j ltac:(lia)). specialize (Hx' j ltac:(lia)). specialize (Hxd j ltac:(lia)). specialize (Hxd' j ltac:(lia)).
  apply (refined_cell _ (grid_edges d !!! j)); try done; try lia. intros t. apply Hb. apply elem_of_seq. lia.
Qed.

(** ** Chains *)

Section chain.
Context {A : Type} `{LawfulSubchunking A}.

(** Where the codecs put an element. *)
Fixpoint chain_image (codecs : list A) (grid : ChunkGridMapped) (x : list Z) : list Z :=
  match codecs, grid with
  | codec :: codecs, MappedArray g =>
      match encoded_chunk_grid codec grid with
      | Ok encoded => chain_image codecs encoded (sub_image codec g x)
      | _ => x
      end
  | _, _ => x
  end.

(** What the codecs make of the elements of a chunk of shape [sh]. *)
Fixpoint chain_sub_map (codecs : list A) (sh : list Z) (V : list element) : list Z * list element :=
  match codecs with
  | [] => (sh, V)
  | codec :: codecs => chain_sub_map codecs (sub_shape codec sh) (sub_map codec sh V)
  end.

Lemma unmap_app (pre acc : list (A * ChunkGridMapped)) s :
  unmap_subchunk_grid (pre ++ acc) s = obind (unmap_subchunk_grid pre s) (unmap_subchunk_grid acc).
Proof.
  revert s. induction pre as [|[c m] pre IH]; intros s; [done|]. cbn [app unmap_subchunk_grid].
  destruct (decoded_subchunk_grid c m s) as [s'|e|]; cbn [obind]; [apply IH|done..].
Qed.

Lemma map_not_global (codecs : list A) m acc r : is_array m = false → map_chunk_grid codecs m acc = Ok r → is_array r.2 = false.
Proof.
  revert m acc. induction codecs as [|c codecs IH]; intros m acc Hm Hr; cbn [map_chunk_grid] in Hr; [by injection Hr as <-|].
  destruct (encoded_chunk_grid c m) as [e|err|]; cbn [obind] in Hr; try done. rewrite Hm in Hr. cbn [negb] in Hr.
  rewrite andb_true_r in Hr. destruct (is_array e) eqn:He; [done|]. by eapply IH.
Qed.

(** The grids on the way down, and the way back up. *)
Lemma map_chunk_grid_spec (codecs : list A) g acc grids gN : Forall sub_wf codecs → grid_wf g →
  map_chunk_grid codecs (MappedArray g) acc = Ok (grids, MappedArray gN) → ∃ pre, grids = pre ++ acc ∧ grid_wf gN ∧
  (∀ x, index_in x (array_shape g) → let y := chain_image codecs (MappedArray g) x in let sh := sizes_at (grid_edges g) x in
    index_in y (array_shape gN) ∧
    (∀ V, zlen V = Zprod sh → let W := chain_sub_map codecs sh V in sizes_at (grid_edges gN) y = W.1 ∧ zlen W.2 = Zprod W.1 ∧
      W.2 !! Z.to_nat (lin (locals (grid_edges gN) y) W.1) = V !! Z.to_nat (lin (locals (grid_edges g) x) sh)) ∧
    (∀ x', index_in x' (array_shape g) → same_chunk g x x' → same_chunk gN y (chain_image codecs (MappedArray g) x'))) ∧
  (∀ s d, grid_wf s → array_within gN s → unmap_subchunk_grid pre (MappedArray s) = Ok (MappedArray d) →
    grid_wf d ∧ array_within g d ∧ ∀ x x', index_in x (array_shape g) → index_in x' (array_shape g) → same_chunk g x x' →
      same_chunk d x x' ↔ same_chunk s (chain_image codecs (MappedArray g) x) (chain_image codecs (MappedArray g) x')).
Proof.
  intros Hwf. revert g acc. induction Hwf as [|c codecs Hc Hwf IH]; intros g acc Hg Hm; cbn [map_chunk_grid] in Hm.
  { injection Hm as <- <-. exists []. split_and!; [done|done| |]; cbn [chain_image chain_sub_map].
    - intros x Hx. by split_and!.
    - intros s d Hs Hw Hu. injection Hu as <-. by split_and!. }
  destruct (encoded_chunk_grid c (MappedArray g)) as [e|err|] eqn:He; cbn [obind] in Hm; try done. cbn [is_array negb] in Hm. rewrite andb_false_r in Hm.
  destruct e as [|e|]; [by apply map_not_global in Hm| |by apply map_not_global in Hm].
  destruct (sub_encoded_law c g e Hc Hg He) as [Hwe Himg]. destruct (IH e _ Hwe Hm) as (pre & -> & HgN & Hdown & Hup).
  exists (pre ++ [(c, MappedArray g)]). cbn [chain_image chain_sub_map]. rewrite He. split_and!; [by rewrite <-app_assoc|done| |].
  - intros x Hx. destruct (Himg x Hx) as (I1 & I2 & I3 & I4). destruct (Hdown _ I1) as (D1 & D2 & D3). rewrite I2 in D2. split_and!; [done| |].
    + intros V HV. destruct (I3 V HV) as [I5 I6]. destruct (D2 _ I5) as (D4 & D5 & D6). split_and!; [done..|]. by rewrite D6.
    + intros x' Hx' Hs. apply D3; [by apply (Himg x' Hx')|]. by apply I4.
  - intros s d Hs Hw Hu. rewrite unmap_app in Hu. destruct (unmap_subchunk_grid pre (MappedArray s)) as [m|err|] eqn:Hm'; cbn [obind] in Hu; try done.
    cbn [unmap_subchunk_grid] in Hu. destruct (decoded_subchunk_grid c (MappedArray g) m) as [r|err|] eqn:Hr; cbn [obind] in Hu; try done.
    injection Hu as ->. destruct (sub_global_law c _ _ _ Hr) as [Hma _]. destruct m as [|d'|]; try done.
    destruct (Hup s d' Hs Hw Hm') as (U1 & U2 & U3). destruct (sub_decoded_law c g e d' d Hc Hg He U1 U2 Hr) as (V1 & V2 & V3).
    split_and!; [done..|]. intros x x' Hx Hx' Hsc. rewrite V3 by done. destruct (Himg x Hx) as (I1 & _ & _ & I4).
    apply U3; [done|by apply (Himg x' Hx')|by apply I4].
Qed.

Lemma unmap_global (codecs : list (A * ChunkGridMapped)) s d : unmap_subchunk_grid codecs s = Ok (MappedArray d) → is_array s = true.
Proof.
  revert s. induction codecs as [|[c m] codecs IH]; intros s Hs; [by injection Hs as ->|]. cbn [unmap_subchunk_grid] in Hs.
  destruct (decoded_subchunk_grid c m s) as [s'|err|] eqn:Hd; cbn [obind] in Hs; try done. apply IH in Hs. destruct s' as [|d'|]; try done.
  by apply sub_global_law in Hd as [].
Qed.

Lemma unmap_subchunk_grids_spec codecs mN ss ds : unmap_subchunk_grids (A:=A) codecs mN ss = Ok ds →
  length ds = length ss ∧ ∀ i d, ds !! i = Some (MappedArray d) →
    ∃ s, ss !! i = Some (MappedArray s) ∧ is_array mN = true ∧ unmap_subchunk_grid codecs (MappedArray s) = Ok (MappedArray d).
Proof.
  revert ds. induction ss as [|s ss IH]; intros ds Hds; cbn [unmap_subchunk_grids] in Hds; [by injection Hds as <-|].
  destruct (is_array s && negb (is_array mN)) eqn:Hglob; [done|].
  destruct (unmap_subchunk_grid codecs s) as [d0|err|] eqn:Hu; cbn [obind] in Hds; try done.
  destruct (unmap_subchunk_grids codecs mN ss) as [rest|err|]; cbn [obind] in Hds; try done. injection Hds as <-.
  destruct (IH rest eq_refl) as [IH1 IH2]. split; [simpl; lia|]. intros [|i] d Hd; [|by apply IH2]. injection Hd as ->.
  pose proof (unmap_global _ _ _ Hu) as Hs. destruct s as [|s|]; try done. exists s. split_and!; [done| |done].
  destruct (is_array mN); [done|]. done.
Qed.

(** Each grid that passes the validation refines the grid of the array. *)
Lemma validate_grids_spec (g p : ChunkGrid) (ds : list ChunkGridMapped) : grid_wf p → array_within g p →
  (∀ x x', index_in x (array_shape g) → index_in x' (array_shape g) → same_chunk p x x' → same_chunk g x x') →
  (∀ d, MappedArray d ∈ ds → grid_wf d ∧ array_within g d) → validate_grids p ds = Ok tt →
  ∀ d, MappedArray d ∈ ds → ∀ x x', index_in x (array_shape g) → index_in x' (array_shape g) → same_chunk d x x' → same_chunk g x x'.
Proof.
  revert p. induction ds as [|m ds IH]; intros p Hp Hw Href Hds Hv d Hd; [by apply not_elem_of_nil in Hd|].
  assert (∀ d, MappedArray d ∈ ds → grid_wf d ∧ array_within g d) as Hds' by (intros d' Hd'; apply Hds; by right).
  destruct m as [|d1|]; cbn [validate_grids] in Hv;
    try (apply elem_of_cons in Hd as [?|Hd]; [done|]; by apply (IH p)).
  destruct (validate_subchunk_grid_refines_chunk_grid p d1) as [[]|err|] eqn:H1; cbn [obind] in Hv; try done.
  destruct (Hds d1 ltac:(left)) as [Hd1 Hw1].
  assert (∀ x x', index_in x (array_shape g) → index_in x' (array_shape g) → same_chunk d1 x x' → same_chunk g x x') as Href1.
  { intros x x' Hx Hx' Hs. apply Href; [done..|]. eapply (validated_refines p d1); try done; by eapply array_within_in. }
  apply elem_of_cons in Hd as [[= ->]|Hd]; [done|]. by apply (IH d1).
Qed.

Section chain_codec.
Context {C B : Type} `{LawfulSubchunks C}.

Definition chain_subs_wf (self : CodecChainBound A C B) : Prop := Forall sub_wf (array_to_array self) ∧ subs_wf (array_to_bytes self).

(** The subchunks of a chain: its array to bytes codec's, seen through the array to array codecs, within chunks. *)
Lemma chain_subchunks (self : CodecChainBound A C B) g ds : chain_subs_wf self → grid_wf g →
  chain_decoded_subchunk_grids self (MappedArray g) = Ok ds → ∃ grids mN ss,
  map_chunk_grid (array_to_array self) (MappedArray g) [] = Ok (grids, mN) ∧ decoded_subchunk_grids (array_to_bytes self) mN = Ok ss ∧
  length ds = length ss ∧ ∀ i d, ds !! i = Some (MappedArray d) → grid_wf d ∧ array_within g d ∧
    ∃ gN s, mN = MappedArray gN ∧ grid_wf gN ∧ ss !! i = Some (MappedArray s) ∧ grid_wf s ∧ array_within gN s ∧
    ∀ x x', index_in x (array_shape g) → index_in x' (array_shape g) →
      let image := chain_image (array_to_array self) (MappedArray g) in
      index_in (image x) (array_shape gN) ∧ (same_chunk d x x' ↔ same_chunk g x x' ∧ same_chunk s (image x) (image x')).
Proof.
  intros [Ha Hc] Hg Hds. unfold chain_decoded_subchunk_grids in Hds.
  destruct (map_chunk_grid (array_to_array self) (MappedArray g) []) as [[grids mN]|err|] eqn:Hm; cbn [obind] in Hds; try done.
  destruct (decoded_subchunk_grids (array_to_bytes self) mN) as [ss|err|] eqn:Hss; cbn [obind] in Hds; try done.
  destruct (unmap_subchunk_grids grids mN ss) as [ds'|err|] eqn:Hu; cbn [obind] in Hds; try done.
  destruct (validate_grids g ds') as [[]|err|] eqn:Hv; cbn [obind] in Hds; try done. injection Hds as <-.
  destruct (unmap_subchunk_grids_spec _ _ _ _ Hu) as [Hlen Hat]. exists grids, mN, ss. split_and!; [done..|].
  assert (∀ i d, ds' !! i = Some (MappedArray d) → grid_wf d ∧ array_within g d ∧
    ∃ gN s, mN = MappedArray gN ∧ grid_wf gN ∧ ss !! i = Some (MappedArray s) ∧ grid_wf s ∧ array_within gN s ∧
    ∀ x x', index_in x (array_shape g) → index_in x' (array_shape g) →
      let image := chain_image (array_to_array self) (MappedArray g) in
      index_in (image x) (array_shape gN) ∧ (same_chunk g x x' → same_chunk d x x' ↔ same_chunk s (image x) (image x'))) as Hall.
  { intros i d Hd. destruct (Hat i d Hd) as (s & Hs & HmN & Hud). destruct mN as [|gN|]; try done.
    destruct (map_chunk_grid_spec _ _ _ _ _ Ha Hg Hm) as (pre & Hpre & HgN & Hdown & Hup). rewrite app_nil_r in Hpre. subst grids.
    destruct (subs_law _ gN ss s Hc HgN Hss (list_elem_of_lookup_2 _ _ _ Hs)) as [Hws Hwi].
    destruct (Hup s d Hws Hwi Hud) as (U1 & U2 & U3). split_and!; [done..|]. exists gN, s. split_and!; [done..|].
    intros x x' Hx Hx'. split; [by apply Hdown|]. intros Hsc. by apply U3. }
  intros i d Hd. destruct (Hall i d Hd) as (H1 & H2 & gN & s & H3 & H4 & H5 & H6 & H7 & H8). split_and!; [done..|].
  exists gN, s. split_and!; [done..|]. intros x x' Hx Hx'. destruct (H8 x x' Hx Hx') as [H9 H10]. split; [done|]. split.
  - intros Hs. assert (same_chunk g x x') as Hsg; [|by rewrite <-H10].
    eapply (validate_grids_spec g g ds'); try done; [apply array_within_refl| |by eapply list_elem_of_lookup_2].
    intros d' Hd'. apply list_elem_of_lookup in Hd' as [k Hk]. by destruct (Hall k d' Hk) as (? & ? & _).
  - intros [Hsg Hs]. by apply H10.
Qed.

Lemma chain_not_global (self : CodecChainBound A C B) m ds s : chain_subs_wf self → is_array m = false →
  chain_decoded_subchunk_grids self m = Ok ds → MappedArray s ∉ ds.
Proof.
  intros [Ha Hc] Hm Hds Hin. unfold chain_decoded_subchunk_grids in Hds.
  destruct (map_chunk_grid (array_to_array self) m []) as [[grids mN]|err|] eqn:Hmap; cbn [obind] in Hds; try done.
  apply map_not_global in Hmap; [|done]. cbn [snd] in Hmap.
  destruct (decoded_subchunk_grids (array_to_bytes self) mN) as [ss|err|] eqn:Hss; cbn [obind] in Hds; try done.
  destruct (unmap_subchunk_grids grids mN ss) as [ds'|err|] eqn:Hu; cbn [obind] in Hds; try done.
  destruct m; try done; injection Hds as ->;
  (destruct (unmap_subchunk_grids_spec _ _ _ _ Hu) as [_ Hat]; apply list_elem_of_lookup in Hin as [i Hi];
   destruct (Hat i s Hi) as (s' & _ & HmN & _); by rewrite Hmap in HmN).
Qed.

#[export] Instance chain_lawful_subchunks : LawfulSubchunks (CodecChainBound A C B).
Proof.
  refine {| subs_wf := chain_subs_wf |}.
  - intros c g ss s Hc Hg Hss Hin. destruct (chain_subchunks c g ss Hc Hg Hss) as (grids & mN & ss0 & _ & _ & _ & Hall).
    apply list_elem_of_lookup in Hin as [i Hi]. by destruct (Hall i s Hi) as (? & ? & _).
  - intros c m ss s Hc Hm Hss. by eapply chain_not_global.
Qed.
End chain_codec.
End chain.
