(* ===== verification/SubchunkCodecs.v ===== *)
(** [transpose], [squeeze] and [sharding_indexed] keep the promises of [SubchunkLaws]. *)

From stdpp Require Import sorting.
From S2P Require Import Prelude ArraySubset Linear Iterators ChunkGrid RegularGrid RectilinearGrid RepeatGrid ChunkEdges.
From S2P Require Import ByteRange StoreKey Storage ArrayBytes Elements StoreProgram DecodeInto Concurrency Codec ArrayToArray Transpose TransposeLaws.
From S2P Require Import CodecChain Sharding Subchunking SubchunkLaws.

(** ** Grids made of the edges of another *)

Lemma encoded_lengths Es cfgs : collect_res (encode <$> Es) = Ok cfgs → collect_res (encode_lengths <$> Es) = Ok cfgs.
Proof.
  revert cfgs. induction Es as [|E Es IH]; intros cfgs Hc; [by injection Hc as <-|]. cbn [fmap list_fmap collect_res] in *. unfold encode_lengths at 1.
  destruct (encode E) as [c|e|]; cbn [obind map_err] in *; try done. destruct (collect_res (encode <$> Es)) as [cs|e|]; cbn [obind] in *; try done.
  injection Hc as <-. by rewrite (IH cs eq_refl).
Qed.

Lemma encoded_edge_lengths_eq (g : ChunkGrid) dims : grid_wf g → Forall (λ d, 0 <= d < zlen (grid_edges g)) dims →
  encoded_edge_lengths g dims = collect_res (encode_lengths <$> ((λ d, zat (grid_edges g) d) <$> dims)).
Proof.
  intros Hg Hd. destruct (wf_edges g Hg) as (_ & _ & _ & He). unfold encoded_edge_lengths. rewrite <-list_fmap_compose. f_equal.
  apply Forall_fmap_ext. eapply Forall_impl; [exact Hd|]. intros d Hd'. cbv beta in Hd'. simpl. by rewrite He by lia.
Qed.

(** A rectilinear grid made of edges that cover its array. *)
Lemma new_rectilinear_edges ash Es m : edges_cover_shape ash Es → contains_zero ash = false →
  (let? cfgs := collect_res (encode_lengths <$> Es) in new_rectilinear ash cfgs) = Ok m →
  ∃ d, m = MappedArray d ∧ grid_wf d ∧ array_shape d = ash ∧ (∀ x, index_in x ash → places (grid_edges d) x = places Es x) ∧
    (Forall2 edges_tight ash Es → grid_edges d = Es).
Proof.
  intros Hcov Hnz Hm. destruct (rectilinear_of_edges ash Es Hcov Hnz) as (cfgs & g & H1 & H2 & H3 & H4 & H5 & H6).
  rewrite (encoded_lengths _ _ H1) in Hm. cbn [obind] in Hm. unfold new_rectilinear in Hm. rewrite H2 in Hm. injection Hm as <-.
  exists (ChunkGrid_new g). split_and!; [done|apply chunk_grid_new_wf; [done|by rewrite H4|done]|done..].
Qed.

Lemma in_places sh Es x : edges_cover_shape sh Es → index_in x sh → index_in (locals Es x) (sizes_at Es x).
Proof.
  intros H. revert x. induction H as [|len E sh Es (HE & Hl & Hu) H IH]; intros x Hx; inversion Hx as [|i ? x' ? Hi Hx']; subst; [constructor|].
  unfold locals, sizes_at, places in *. cbn [zip_with fmap list_fmap fst snd place]. constructor; [|by apply IH].
  destruct (cell_spec E i HE ltac:(lia)). lia.
Qed.

Lemma places_total Es x j : (j < length Es)%nat → (j < length x)%nat → places Es x !!! j = place (Es !!! j) (x !!! j).
Proof. intros. unfold places. by rewrite zip_with_total. Qed.

Lemma length_places Es x : length Es = length x → length (places Es x) = length x.
Proof. intros. unfold places. rewrite length_zip_with. lia. Qed.

(** ** Transposing *)

Definition pick {X} `{!Inhabited X} (order : list Z) (l : list X) : list X := (λ k, zat l k) <$> order.

Lemma fmap_pick {X Y} `{!Inhabited X, !Inhabited Y} (f : X → Y) order l : Forall (λ k, 0 <= k < zlen l) order →
  f <$> pick order l = pick order (f <$> l).
Proof.
  intros Ho. unfold pick. rewrite <-list_fmap_compose. apply Forall_fmap_ext. eapply Forall_impl; [exact Ho|].
  intros k Hk. cbv beta in Hk. simpl. rewrite fmap_total; [done|lia].
Qed.

Lemma places_pick order Es x : Forall (λ k, 0 <= k < zlen Es) order → length Es = length x →
  places (pick order Es) (gather order x) = pick order (places Es x).
Proof.
  intros Ho Hl. apply list_eq_total; [unfold places, pick, gather; rewrite length_zip_with, !length_fmap; lia|].
  intros j Hj. unfold places in Hj. rewrite length_zip_with in Hj. unfold pick, gather in Hj. rewrite !length_fmap in Hj.
  rewrite Forall_total in Ho. specialize (Ho j ltac:(lia)).
  rewrite places_total by (unfold pick, gather; rewrite length_fmap; lia). unfold pick, gather. rewrite !fmap_total by lia.
  rewrite places_total by lia. done.
Qed.

Lemma Forall2_pick {X Y} `{!Inhabited X, !Inhabited Y} (R : X → Y → Prop) order l k : Forall2 R l k → Forall (λ i, 0 <= i < zlen l) order →
  Forall2 R (pick order l) (pick order k).
Proof.
  intros Hr Ho. rewrite Forall2_total in Hr. destruct Hr as [Hl Hr]. unfold pick. apply Forall2_fmap_2, Forall_Forall2_diag.
  eapply Forall_impl; [exact Ho|]. intros i Hi. cbv beta in Hi. apply Hr. lia.
Qed.

Lemma permutation_in order {X} (l : list X) : is_permutation order → length l = length order → Forall (λ k, 0 <= k < zlen l) order.
Proof. intros Ho Hl. apply Forall_forall. intros k Hk. apply (permutation_elem order k Ho) in Hk. lia. Qed.

Lemma contains_zero_pick order l : Forall (λ k, 0 <= k < zlen l) order → contains_zero l = false → contains_zero (pick order l) = false.
Proof.
  intros Ho Hz. unfold contains_zero in *. rewrite existsb_total_false in Hz |- *. unfold pick. rewrite length_fmap. intros j Hj.
  rewrite fmap_total by done. rewrite Forall_total in Ho. specialize (Ho j Hj). apply Hz. lia.
Qed.

Lemma transposed_lookup order sh l (V : list element) : is_permutation order → zlen order < u64_modulus → length sh = length order → index_in l sh → zlen V = Zprod sh →
  zlen (transposed_elements order sh V) = Zprod (gather order sh) ∧
  transposed_elements order sh V !! Z.to_nat (lin (gather order l) (gather order sh)) = V !! Z.to_nat (lin l sh).
Proof.
  intros Ho Hu Hl Hin HV. destruct (inverse_ok order Ho Hu) as [_ Hio]. pose proof (index_in_gather order l sh Ho Hl Hin) as Hin'.
  pose proof (index_in_pos l sh Hin) as Hpos. pose proof (Forall_gather _ order sh Ho Hl Hpos) as Hpos'.
  assert (Forall (λ d, 0 <= d) (gather order sh)) as Hnn by (eapply Forall_impl; [exact Hpos'|]; simpl; lia).
  unfold transposed_elements, select. rewrite length_fmap. split.
  { rewrite length_transposed; [by rewrite Zprod_gather|done|done|]. eapply Forall_impl; [exact Hpos|]. simpl. lia. }
  pose proof (lin_bound _ _ Hin'). pose proof (lin_bound _ _ Hin). rewrite list_lookup_fmap. unfold transposed_positions. rewrite list_lookup_fmap.
  rewrite box_delin by (try done; unfold origin; by rewrite length_replicate, length_gather).
  rewrite list_lookup_fmap, lookup_seqZ_lt by lia. cbn [fmap option_fmap option_map]. replace (0 + Z.of_nat (Z.to_nat (lin (gather order l) (gather order sh)))) with (lin (gather order l) (gather order sh)) by lia.
  rewrite delin_lin by done.
  assert (zip_with Z.add (gather order l) (origin (length order)) = gather order l) as ->.
  { apply list_eq_total; [unfold origin; rewrite length_zip_with, length_gather, length_replicate; lia|]. intros j Hj.
    unfold origin in *. rewrite length_zip_with, length_gather, length_replicate in Hj.
    rewrite zip_with_total by (rewrite ?length_gather, ?length_replicate; lia). rewrite lookup_total_replicate_2 by lia. lia. }
  pose proof (Forall2_length _ _ _ Hin). rewrite (gather_inverse order (inverse order)) by (done || lia).
  symmetry. apply list_lookup_lookup_total_lt. lia.
Qed.

(** Chunks are moved with their places. *)
Lemma transposed_grid a g e : transpose_wf a → grid_wf g → transpose_encoded_chunk_grid a (MappedArray g) = Ok (MappedArray e) →
  length (tr_order a) = length (grid_edges g) ∧ grid_wf e ∧ array_shape e = gather (tr_order a) (array_shape g) ∧
  ∀ x, index_in x (array_shape g) → index_in (gather (tr_order a) x) (array_shape e) ∧
    places (grid_edges e) (gather (tr_order a) x) = pick (tr_order a) (places (grid_edges g) x).
Proof.
  intros (Ho & Hu & _) Hg He. destruct (wf_edges g Hg) as (Hc & Hdim & Hnz & _). pose proof (edges_cover_counts _ _ Hc) as Hl.
  cbn [transpose_encoded_chunk_grid] in He. destruct (decide (length (array_shape g) = length (tr_order a))) as [Hla|Hne].
  2: { unfold permute in He. rewrite (proj2 (Nat.eqb_neq _ _) Hne) in He. done. }
  rewrite permute_ok in He by done. cbn [map_err obind] in He. pose proof (permutation_in (tr_order a) (grid_edges g) Ho ltac:(lia)) as Hin.
  pose proof (permutation_in (tr_order a) (array_shape g) Ho Hla) as Hin'.
  rewrite encoded_edge_lengths_eq in He by done.
  destruct (new_rectilinear_edges (pick (tr_order a) (array_shape g)) (pick (tr_order a) (grid_edges g)) _
    (Forall2_pick _ _ _ _ Hc Hin') (contains_zero_pick _ _ Hin' Hnz) He) as (e' & [= <-] & Hwf & Hsh & Hpl & _).
  split_and!; [lia|done|done|]. intros x Hx. pose proof (Forall2_length _ _ _ Hx).
  assert (index_in (gather (tr_order a) x) (gather (tr_order a) (array_shape g))) as Hgx by by apply index_in_gather.
  split; [by rewrite Hsh|]. rewrite Hpl by done. apply places_pick; [done|lia].
Qed.

Lemma gather_inv_image order inv x : inverse_of order inv → length x = length order → gather inv (gather order x) = x.
Proof. intros. by apply (gather_inverse order). Qed.

Lemma pick_total {X} `{!Inhabited X} order (l : list X) j : (j < length order)%nat → pick order l !!! j = zat l (order !!! j).
Proof. intros. unfold pick. by rewrite fmap_total. Qed.

Lemma cover_within (e s : ChunkGrid) : grid_wf e → grid_wf s → array_within e s → edges_cover_shape (array_shape e) (grid_edges s).
Proof.
  intros He Hs Hw. pose proof (proj1 (wf_edges s Hs)) as Hc. pose proof (proj1 (wf_edges e He)) as Hce.
  unfold array_within, edges_cover_shape in *. rewrite Forall2_total in Hc. rewrite Forall2_total in Hw. rewrite Forall2_total in Hce. rewrite Forall2_total. destruct Hc as [H1 H2], Hw as [H3 H4], Hce as [H5 H6]. split; [lia|].
  intros j Hj. specialize (H2 j ltac:(lia)) as (P1 & P2 & P3). specialize (H4 j Hj). specialize (H6 j Hj) as (_ & P4 & _). split_and!; [done|lia..].
Qed.

(** A grid made of edges of a grid of subchunks, over the array of [g]. *)
Lemma decoded_grid (g d : ChunkGrid) Es : grid_wf g → edges_cover_shape (array_shape g) Es →
  (let? cfgs := collect_res (encode_lengths <$> Es) in new_rectilinear (array_shape g) cfgs) = Ok (MappedArray d) →
  grid_wf d ∧ array_within g d ∧ ∀ x, index_in x (array_shape g) → edge_cells (grid_edges d) x = edge_cells Es x.
Proof.
  intros Hg Hc Hd. destruct (wf_edges g Hg) as (_ & _ & Hnz & _).
  destruct (new_rectilinear_edges _ _ _ Hc Hnz Hd) as (d' & [= <-] & Hwf & Ha & Hp & _). split_and!; [done| |].
  - unfold array_within. rewrite Ha. apply array_within_refl.
  - intros x Hx. rewrite !cells_places. by rewrite Hp.
Qed.

Lemma transposed_back_grid a g e s d : transpose_wf a → grid_wf g → transpose_encoded_chunk_grid a (MappedArray g) = Ok (MappedArray e) →
  grid_wf s → array_within e s → transpose_decoded_subchunk_grid a (MappedArray g) (MappedArray s) = Ok (MappedArray d) →
  grid_wf d ∧ array_within g d ∧ ∀ x x', index_in x (array_shape g) → index_in x' (array_shape g) →
    same_chunk d x x' ↔ same_chunk s (gather (tr_order a) x) (gather (tr_order a) x').
Proof.
  intros Ha Hg He Hs Hw Hd. destruct (transposed_grid a g e Ha Hg He) as (Hl & Hwe & Hae & _). destruct Ha as (Ho & Hu & _).
  destruct (inverse_permutation_ok _ Ho Hu) as (inv & Hinv & Hio). pose proof Hio as [_ Hi Hlen _ _].
  pose proof (length_wf_edges g Hg) as Hlg. pose proof (length_wf_edges s Hs) as Hls. pose proof (Forall2_length _ _ _ Hw) as Hlw.
  rewrite Hae, length_gather in Hlw. cbn [transpose_decoded_subchunk_grid] in Hd.
  case_match; [done|]. case_match; [done|]. rewrite Hinv in Hd. cbn [map_err obind] in Hd.
  pose proof (permutation_in inv (grid_edges s) Hi ltac:(lia)) as Hin. rewrite encoded_edge_lengths_eq in Hd by done.
  assert (edges_cover_shape (array_shape g) (pick inv (grid_edges s))) as Hcov.
  { pose proof (cover_within e s Hwe Hs Hw) as Hc. rewrite Hae in Hc. rewrite <-(gather_inverse (tr_order a) inv (array_shape g)) by (done || lia).
    apply (Forall2_pick _ inv (gather (tr_order a) (array_shape g))); [exact Hc|]. apply permutation_in; [done|rewrite length_gather; lia]. }
  destruct (decoded_grid g d _ Hg Hcov Hd) as (D1 & D2 & D3). split_and!; [done..|]. intros x x' Hx Hx'.
  pose proof (Forall2_length _ _ _ Hx). pose proof (Forall2_length _ _ _ Hx').
  assert (∀ x, length x = length (array_shape g) → edge_cells (pick inv (grid_edges s)) x = gather inv (edge_cells (grid_edges s) (gather (tr_order a) x))) as Hcells.
  { intros z Hz. rewrite <-(gather_inverse (tr_order a) inv z) at 1 by (done || lia). rewrite !cells_places.
    rewrite places_pick by (done || rewrite length_gather; lia).
    assert (Forall (λ k, 0 <= k < zlen (places (grid_edges s) (gather (tr_order a) z))) inv) as Hinp.
    { apply permutation_in; [done|]. rewrite length_places by (rewrite length_gather; lia). rewrite length_gather. lia. }
    rewrite !fmap_pick by (rewrite ?length_fmap; done). done. }
  unfold same_chunk. rewrite !D3, !Hcells by (done || lia). split; [|by intros ->]. intros Heq.
  assert (∀ z, length z = length (array_shape g) → length (edge_cells (grid_edges s) (gather (tr_order a) z)) = length (tr_order a)) as Hlc.
  { intros z Hz. unfold edge_cells. rewrite length_zip_with, length_gather. lia. }
  rewrite <-(gather_inverse inv (tr_order a) (edge_cells _ (gather _ x))) by (first [by apply inverse_of_sym|rewrite Hlc by lia; lia]).
  rewrite Heq. apply gather_inverse; [by apply inverse_of_sym|rewrite Hlc by lia; lia].
Qed.

#[export] Instance transpose_lawful_subchunking : LawfulSubchunking TransposeCodecBound.
Proof.
  refine {| sub_wf := transpose_wf; sub_shape a := gather (tr_order a); sub_map a := transposed_elements (tr_order a);
    sub_image a _ x := gather (tr_order a) x |}.
  - intros a g e Ha Hg He. destruct (transposed_grid a g e Ha Hg He) as (Hl & Hwe & Hae & Hpl). split; [done|]. intros x Hx y sh.
    destruct (Hpl x Hx) as [Hy Hp]. pose proof (length_wf_edges g Hg) as Hlg. pose proof (Forall2_length _ _ _ Hx) as Hlx.
    pose proof Ha as (Ho & Hu & _).
    assert (Forall (λ k, 0 <= k < zlen (places (grid_edges g) x)) (tr_order a)) as Hin.
    { apply permutation_in; [done|]. rewrite length_places; lia. }
    split_and!; [done| | |].
    + unfold sizes_at, y. rewrite Hp. by rewrite fmap_pick.
    + intros V HV. pose proof (in_places _ _ _ (proj1 (wf_edges g Hg)) Hx) as Hloc. fold sh in Hloc.
      assert (length sh = length (tr_order a)) as Hlsh by (unfold sh, sizes_at; rewrite length_fmap, length_places; lia).
      destruct (transposed_lookup (tr_order a) sh _ V Ho Hu Hlsh Hloc HV) as [T1 T2]. split; [done|]. rewrite <-T2. unfold locals, y. rewrite Hp.
      rewrite !fmap_pick by (rewrite ?length_fmap; done). done.
    + intros x' Hx' Hs. destruct (Hpl x' Hx') as [_ Hp']. unfold same_chunk in *. rewrite !cells_places in *. unfold y. rewrite Hp, Hp'.
      pose proof (Forall2_length _ _ _ Hx') as Hlx'.
      assert (Forall (λ k, 0 <= k < zlen (places (grid_edges g) x')) (tr_order a)) as Hin'.
      { apply permutation_in; [done|]. rewrite length_places; lia. }
      rewrite !fmap_pick by (rewrite ?length_fmap; done). by rewrite Hs.
  - intros a g e s d Ha Hg He Hs Hw Hd. destruct (transposed_back_grid a g e s d Ha Hg He Hs Hw Hd) as (H1 & H2 & H3).
    split_and!; [done..|]. intros x x' Hx Hx' _. by apply H3.
  - intros a m s d Hd. cbn in Hd. unfold transpose_decoded_subchunk_grid in Hd. destruct s, m; done.
Defined.

(** ** Squeezing *)

(** The entries of the dimensions that are not left out. *)
Fixpoint unsqueezed {X} (Es : list (list Z)) (l : list X) : list X :=
  match Es, l with
  | E :: Es, x :: l => if decide (squeeze_chunk_edge_lengths E = Some false) then x :: unsqueezed Es l else unsqueezed Es l
  | _, _ => []
  end.

(** Every dimension is left out of all chunks or of none. *)
Definition squeezable (Es : list (list Z)) : Prop := Forall (λ E, is_Some (squeeze_chunk_edge_lengths E)) Es.

Lemma squeezed_edges E b : squeeze_chunk_edge_lengths E = Some b → edges_pos E →
  if b then E = replicate (length E) 1 else Forall (λ e, 1 < e) E.
Proof.
  unfold squeeze_chunk_edge_lengths. intros Hs HE.
  destruct (existsb (λ e, e =? 1) E) eqn:H1, (existsb (λ e, negb (e =? 1)) E) eqn:H2; try done; injection Hs as <-.
  - clear H1. induction HE as [|e E He HE IH]; [done|]. cbn [existsb] in H2. apply orb_false_iff in H2 as [H2 H3].
    apply negb_false_iff, Z.eqb_eq in H2. subst e. simpl. f_equal. by apply IH.
  - clear H2. induction HE as [|e E He HE IH]; [done|]. cbn [existsb] in H1. apply orb_false_iff in H1 as [H1 H3].
    apply Z.eqb_neq in H1. constructor; [lia|]. by apply IH.
Qed.

Lemma unsqueezed_fmap {X Y} (f : X → Y) Es l : f <$> unsqueezed Es l = unsqueezed Es (f <$> l).
Proof. revert l. induction Es as [|E Es IH]; intros [|x l]; try done. cbn [unsqueezed fmap list_fmap]. case_decide; cbn [fmap list_fmap]; by rewrite <-IH. Qed.

Lemma unsqueezed_places Es Ss x : length Ss = length Es → places (unsqueezed Es Ss) (unsqueezed Es x) = unsqueezed Es (places Ss x).
Proof.
  revert Ss x. induction Es as [|E Es IH]; intros [|F Ss] [|i x] Hl; try done; cbn [unsqueezed places zip_with].
  - case_decide; [done|]. unfold places. by destruct (unsqueezed Es Ss).
  - case_decide; cbn [places zip_with]; [f_equal|]; by apply IH; injection Hl.
Qed.

Lemma unsqueezed_Forall2 {X Y} (R : X → Y → Prop) Es l k : Forall2 R l k → Forall2 R (unsqueezed Es l) (unsqueezed Es k).
Proof. intros H. revert Es. induction H as [|x y l k Hxy H IH]; intros [|E Es]; try constructor. cbn [unsqueezed]. case_decide; [constructor|]; auto. Qed.

Lemma unsqueezed_contains_zero Es l : contains_zero l = false → contains_zero (unsqueezed Es l) = false.
Proof.
  revert l. induction Es as [|E Es IH]; intros [|x l] Hz; try done. unfold contains_zero in *. cbn [existsb] in Hz. apply orb_false_iff in Hz as [H1 H2].
  cbn [unsqueezed]. case_decide; cbn [existsb]; [rewrite H1|]; by apply IH.
Qed.

(** The loop of [encoded_chunk_grid]. *)
Lemma squeeze_dims_spec (g : ChunkGrid) k n sh cs : grid_wf g → (k + n = length (grid_edges g))%nat →
  let Es := drop k (grid_edges g) in
  (squeezable Es → squeeze_dims g (seq k n) sh cs =
    let? cs' := collect_res (encode_lengths <$> unsqueezed Es Es) in Ok (Some (sh ++ unsqueezed Es (drop k (array_shape g)), cs ++ cs'))) ∧
  (¬ squeezable Es → ∀ r, squeeze_dims g (seq k n) sh cs ≠ Ok (Some r)).
Proof.
  intros Hg. destruct (wf_edges g Hg) as (_ & _ & _ & He). pose proof (length_wf_edges g Hg) as Hl.
  revert k sh cs. induction n as [|n IH]; intros k sh cs Hk; cbn zeta.
  { rewrite !drop_ge by lia. split; [|intros Hn; by destruct Hn; constructor]. cbn. by rewrite !app_nil_r. }
  assert (k < length (grid_edges g))%nat as Hlt by lia. cbn [seq squeeze_dims]. rewrite He by done. cbn [obind].
  rewrite (drop_S (grid_edges g) (grid_edges g !!! k) k) by (by apply list_lookup_lookup_total_lt).
  rewrite (drop_S (array_shape g) (array_shape g !!! k) k) by (apply list_lookup_lookup_total_lt; lia).
  assert (index (E:=GridError) (array_shape g) (Z.of_nat k) = Ok (array_shape g !!! k)) as Hix.
  { unfold index. rewrite (proj2 (Z.leb_le _ _)) by lia. rewrite Nat2Z.id. rewrite list_lookup_lookup_total_lt by lia. done. }
  cbn [unsqueezed]. unfold squeezable. rewrite Forall_cons.
  destruct (squeeze_chunk_edge_lengths (grid_edges g !!! k)) as [[|]|] eqn:Hs.
  - rewrite decide_False by done. destruct (IH (S k) sh cs ltac:(lia)) as [IH1 IH2]. split; [intros [_ Hq]; by apply IH1|].
    intros Hq. apply IH2. intros Hq'. apply Hq. split; [by eexists|done].
  - rewrite decide_True by done. cbn [obind]. rewrite Hix. cbn [obind fmap list_fmap collect_res].
    destruct (encode_lengths (grid_edges g !!! k)) as [c|e|]; cbn [obind]; [|done..].
    destruct (IH (S k) (sh ++ [array_shape g !!! k]) (cs ++ [c]) ltac:(lia)) as [IH1 IH2]. split.
    + intros [_ Hq]. rewrite IH1 by done. destruct (collect_res _); cbn [obind]; [|done..]. by rewrite <-!app_assoc.
    + intros Hq. apply IH2. intros Hq'. apply Hq. split; [by eexists|done].
  - split; [by intros [[? ?] _]|done].
Qed.

Definition squeeze_image (Es : list (list Z)) (x : list Z) : list Z := match unsqueezed Es x with [] => [0] | y => y end.

(** What leaving dimensions out does to the place of an element. *)
Lemma squeezed_place Es sh x : edges_cover_shape sh Es → squeezable Es → index_in x sh →
  let kept := unsqueezed Es (places Es x) in
  filter (λ d, 1 < d) (sizes_at Es x) = kept.*2 ∧ Zprod kept.*2 = Zprod (sizes_at Es x) ∧ lin kept.*1.*2 kept.*2 = lin (locals Es x) (sizes_at Es x).
Proof.
  intros H. revert x. induction H as [|len E sh Es (HE & Hl & Hu) H IH]; intros x Hq Hx; inversion Hx as [|i ? x' ? Hi Hx']; subst; [done|].
  apply Forall_cons in Hq as [[b Hb] Hq]. destruct (IH x' Hq Hx') as (IH1 & IH2 & IH3). cbn zeta in *.
  destruct (cell_spec E i HE ltac:(lia)) as [C1 C2]. pose proof (squeezed_edges E b Hb HE) as Hsq.
  unfold sizes_at, locals, places in *. cbn [unsqueezed zip_with fmap list_fmap fst snd place]. rewrite filter_cons, Hb.
  destruct b; [rewrite (decide_False (P:=Some true = Some false)) by done|rewrite (decide_True (P:=Some false = Some false)) by done].
  - assert (zat E (edge_cell E i) = 1) as Hone.
    { assert (∀ c, 0 <= c < zlen E → zat E c = 1) as Hz; [|by apply Hz]. intros c Hc. rewrite Hsq. apply lookup_total_replicate_2. lia. }
    rewrite Hone in C2 |- *. rewrite decide_False by lia. rewrite !Zprod_cons, IH1, IH2. cbn [lin]. rewrite IH3. split_and!; [done|lia|].
    assert (i - edge_start E (edge_cell E i) = 0) as -> by lia. lia.
  - assert (1 < zat E (edge_cell E i)) as Hlt by (rewrite Forall_total in Hsq; apply Hsq; lia).
    rewrite decide_True by done. cbn [fmap list_fmap fst snd lin]. rewrite !Zprod_cons, IH1, IH2, IH3. done.
Qed.

Lemma length_unsqueezed {X Y} Es (l : list X) (k : list Y) : length l = length Es → length k = length Es →
  length (unsqueezed Es l) = length (unsqueezed Es k).
Proof.
  revert l k. induction Es as [|E Es IH]; intros [|x l] [|y k] Hl Hk; try done. cbn [unsqueezed]. case_decide; cbn [length]; [f_equal|]; apply IH; (by injection Hl) || by injection Hk.
Qed.

(** The places of the image of an element. *)
Definition squeezed_places (ps : list (Z * Z * Z)) : list (Z * Z * Z) := match ps with [] => [(0, 0, 1)] | _ => ps end.

Lemma squeezed_grid (g e : ChunkGrid) : grid_wf g → squeeze_encoded_chunk_grid (MappedArray g) = Ok (MappedArray e) →
  squeezable (grid_edges g) ∧ grid_wf e ∧
  array_shape e = match unsqueezed (grid_edges g) (array_shape g) with [] => [1] | sh => sh end ∧
  ∀ x, index_in x (array_shape g) → index_in (squeeze_image (grid_edges g) x) (array_shape e) ∧
    places (grid_edges e) (squeeze_image (grid_edges g) x) = squeezed_places (unsqueezed (grid_edges g) (places (grid_edges g) x)).
Proof.
  intros Hg He. destruct (wf_edges g Hg) as (Hc & Hdim & Hnz & _). pose proof (length_wf_edges g Hg) as Hl.
  cbn [squeeze_encoded_chunk_grid] in He. rewrite Hnz in He.
  destruct (squeeze_dims_spec g 0 (grid_dimensionality g) [] [] Hg ltac:(lia)) as [Hs1 Hs2]. rewrite !drop_0 in *.
  assert (Decision (squeezable (grid_edges g))) as [Hq|Hq] by apply _; [|destruct (squeeze_dims _ _ _ _) as [[r|]|err|]; try done; by destruct (Hs2 Hq r)].
  split; [done|]. rewrite (Hs1 Hq) in He. clear Hs1 Hs2. set (Es := grid_edges g) in *.
  assert (∀ x, index_in x (array_shape g) → length x = length Es ∧ length (places Es x) = length Es) as Hlx.
  { intros x Hx. pose proof (Forall2_length _ _ _ Hx). rewrite length_places by lia. lia. }
  destruct (unsqueezed Es Es) as [|K Ks] eqn:HK.
  - assert (∀ X (l : list X), length l = length Es → unsqueezed Es l = []) as Hnil.
    { intros X l Hll. apply nil_length_inv. rewrite (length_unsqueezed Es l Es) by done. by rewrite HK. }
    cbn [fmap list_fmap collect_res obind app] in He. rewrite (Hnil _ (array_shape g)) in He |- * by lia. cbn [app] in He.
    destruct (new_rectilinear_edges [1] [[1]] (MappedArray e)) as (e' & [= <-] & Hwf & Ha & Hp & _); [|done|exact He|].
    { constructor; [|constructor]. split_and!; [by repeat constructor|done..]. }
    split_and!; [done|done|]. intros x Hx. destruct (Hlx x Hx) as [Hx1 Hx2]. unfold squeeze_image. rewrite !Hnil by lia.
    assert (index_in [0] [1]) as H01 by by repeat constructor. split; [by rewrite Ha|]. by rewrite Hp.
  - rewrite app_nil_l in He. assert (array_shape e = unsqueezed Es (array_shape g) ∧ unsqueezed Es (array_shape g) ≠ [] ∧ grid_wf e ∧
      ∀ x, index_in x (unsqueezed Es (array_shape g)) → places (grid_edges e) x = places (unsqueezed Es Es) x) as (Ha & Hne & Hwf & Hp).
    { assert (unsqueezed Es (array_shape g) ≠ []) as Hne.
      { intros Hn. pose proof (length_unsqueezed Es (array_shape g) Es Hl eq_refl) as Hlu. by rewrite Hn, HK in Hlu. }
      destruct (new_rectilinear_edges (unsqueezed Es (array_shape g)) (unsqueezed Es Es) (MappedArray e)) as (e' & [= <-] & Hwf & Ha & Hp & _); try done.
      - by apply unsqueezed_Forall2.
      - by apply unsqueezed_contains_zero.
      - rewrite HK. destruct (collect_res (encode_lengths <$> K :: Ks)) as [cs|err|] eqn:Hcs; cbn [obind] in He |- *; try done.
        destruct cs as [|c cs]; [|done]. cbn [fmap list_fmap collect_res] in Hcs. destruct (encode_lengths K); try done. cbn [obind] in Hcs.
        by destruct (collect_res _). }
    rewrite Ha. split_and!; [done|by destruct (unsqueezed Es (array_shape g))|]. intros x Hx. destruct (Hlx x Hx) as [Hx1 Hx2].
    pose proof (unsqueezed_Forall2 _ Es _ _ Hx) as Hin. unfold squeeze_image.
    destruct (unsqueezed Es x) as [|y ys] eqn:Hy; [by inversion Hin; destruct Hne|]. split; [done|]. rewrite Hp by done. rewrite <-Hy, unsqueezed_places by done.
    destruct (unsqueezed Es (places Es x)) eqn:Hpl; [|done]. pose proof (length_unsqueezed Es x (places Es x) Hx1 Hx2) as Hlu. by rewrite Hy, Hpl in Hlu.
Qed.

(** The edges of the decoded grid: unit edges for the dimensions that are left out. *)
Fixpoint spread (Es : list (list Z)) (sh : list Z) (Ss : list (list Z)) : list (list Z) :=
  match Es, sh with
  | E :: Es, len :: sh =>
      if decide (squeeze_chunk_edge_lengths E = Some false)
      then match Ss with F :: Ss => F :: spread Es sh Ss | [] => [] end
      else replicate (Z.to_nat len) 1 :: spread Es sh Ss
  | _, _ => []
  end.

Lemma spread_cover Es sh Ss : edges_cover_shape sh Es → contains_zero sh = false → edges_cover_shape (unsqueezed Es sh) Ss → edges_cover_shape sh (spread Es sh Ss).
Proof.
  intros H. revert Ss. induction H as [|len E sh Es (HE & Hl & Hu) H IH]; intros Ss Hz HS; [constructor|]. cbn [unsqueezed spread] in *.
  apply orb_false_iff in Hz as [Hz1 Hz2]. case_decide.
  - inversion HS; subst. constructor; [done|]. by apply IH.
  - constructor; [|by apply IH]. split; [apply Forall_replicate; lia|]. rewrite Zsum_replicate. lia.
Qed.

(** Elements in one chunk, whose unit dimensions agree, are in one subchunk when their images are. *)
Lemma spread_cells Es sh Ss x x' : edges_cover_shape sh Es → squeezable Es → index_in x sh → index_in x' sh → length Ss = length (unsqueezed Es sh) →
  edge_cells Es x = edge_cells Es x' →
  edge_cells (spread Es sh Ss) x = edge_cells (spread Es sh Ss) x' ↔ edge_cells Ss (unsqueezed Es x) = edge_cells Ss (unsqueezed Es x').
Proof.
  intros H. revert Ss x x'. induction H as [|len E sh Es (HE & Hl & Hu) H IH]; intros Ss x x' Hq Hx Hx' HS Heq;
    inversion Hx as [|i ? y ? Hi Hy]; subst; inversion Hx' as [|i' ? y' ? Hi' Hy']; subst; [done|].
  apply Forall_cons in Hq as [[b Hb] Hq]. unfold edge_cells in *. cbn [zip_with] in Heq. injection Heq as Heq1 Heq2.
  cbn [unsqueezed spread] in *. pose proof (squeezed_edges E b Hb HE) as Hsq. rewrite Hb in *. destruct b.
  - rewrite (decide_False (P:=Some true = Some false)) in HS by done. rewrite !(decide_False (P:=Some true = Some false)) by done. rewrite Hsq in Heq1.
    assert (Zsum E = zlen E) as Hsum by (rewrite Hsq at 1; rewrite Zsum_replicate; lia).
    rewrite !cell_replicate in Heq1 by lia. rewrite !Z.div_1_r in Heq1. subst i'. cbn [zip_with]. rewrite <-(IH Ss y y') by done.
    split; [by injection 1|by intros ->].
  - rewrite (decide_True (P:=Some false = Some false)) in HS by done. rewrite !(decide_True (P:=Some false = Some false)) by done.
    destruct Ss as [|F Ss]; [done|]. cbn [zip_with length] in *.
    destruct (IH Ss y y' Hq Hy Hy' ltac:(lia) Heq2) as [I1 I2]. split; intros Hc; injection Hc as Hc1 Hc2; f_equal; auto.
Qed.

(** The loops of [decoded_subchunk_grid]. *)
Lemma squeeze_flags_spec (g : ChunkGrid) k n : grid_wf g → (k + n = length (grid_edges g))%nat → squeezable (grid_edges g) →
  squeeze_flags g (seq k n) = Ok (Some ((λ E, default false (squeeze_chunk_edge_lengths E)) <$> drop k (grid_edges g))).
Proof.
  intros Hg Hk Hq. destruct (wf_edges g Hg) as (_ & _ & _ & He). revert k Hk. induction n as [|n IH]; intros k Hk; [by rewrite drop_ge by lia|].
  assert (k < length (grid_edges g))%nat as Hlt by lia. cbn [seq squeeze_flags]. rewrite He by done. cbn [obind].
  rewrite (drop_S (grid_edges g) (grid_edges g !!! k) k) by (by apply list_lookup_lookup_total_lt).
  unfold squeezable in Hq. rewrite Forall_total in Hq. destruct (Hq k Hlt) as [b Hb]. rewrite IH by lia. cbn [fmap list_fmap]. by rewrite Hb.
Qed.

Lemma encode_unit len : 0 < len → encode_lengths (replicate (Z.to_nat len) 1) = Ok (EdgeScalar 1).
Proof.
  intros Hl. replace (Z.to_nat len) with (S (Z.to_nat (len - 1))) by lia. unfold encode_lengths, encode. cbn [head replicate].
  assert (forallb (λ e, e =? 1) (1 :: replicate (Z.to_nat (len - 1)) 1) = true) as ->; [|done].
  cbn [forallb]. induction (Z.to_nat (len - 1)); [done|]. exact IHn.
Qed.

Lemma unsqueezed_lengths_spec (s : ChunkGrid) Es sh k : grid_wf s → squeezable Es → length sh = length Es → Forall (λ l, 0 < l) sh →
  (k + length (unsqueezed Es sh) <= length (grid_edges s))%nat →
  unsqueezed_edge_lengths s ((λ E, default false (squeeze_chunk_edge_lengths E)) <$> Es) k =
  collect_res (encode_lengths <$> spread Es sh (take (length (unsqueezed Es sh)) (drop k (grid_edges s)))).
Proof.
  intros Hs Hq. destruct (wf_edges s Hs) as (_ & _ & _ & He). revert sh k. induction Hq as [|E Es [b Hb] Hq IH]; intros [|len sh] k Hl Hsh Hk; try done.
  apply Forall_cons in Hsh as [Hlen Hsh]. cbn [fmap list_fmap unsqueezed_edge_lengths unsqueezed spread] in *. rewrite Hb in *. cbn [default]. destruct b.
  - rewrite (decide_False (P:=Some true = Some false)) in Hk by done. rewrite !(decide_False (P:=Some true = Some false)) by done.
    cbn [fmap list_fmap collect_res]. rewrite encode_unit by done. cbn [obind]. rewrite (IH sh k) by (done || by injection Hl). done.
  - rewrite (decide_True (P:=Some false = Some false)) in Hk by done. rewrite !(decide_True (P:=Some false = Some false)) by done. cbn [length] in *.
    rewrite (drop_S (grid_edges s) (grid_edges s !!! k) k) by (apply list_lookup_lookup_total_lt; lia). cbn [take].
    rewrite He by lia. cbn [obind fmap list_fmap collect_res]. destruct (encode_lengths _); cbn [obind]; [|done..].
    rewrite (IH sh (S k)) by (done || lia || by injection Hl). done.
Qed.

Lemma squeezed_back_grid (g e s d : ChunkGrid) : grid_wf g → squeeze_encoded_chunk_grid (MappedArray g) = Ok (MappedArray e) →
  grid_wf s → array_within e s → squeeze_decoded_subchunk_grid (MappedArray g) (MappedArray s) = Ok (MappedArray d) →
  grid_wf d ∧ array_within g d ∧ ∀ x x', index_in x (array_shape g) → index_in x' (array_shape g) → same_chunk g x x' →
    same_chunk d x x' ↔ same_chunk s (squeeze_image (grid_edges g) x) (squeeze_image (grid_edges g) x').
Proof.
  intros Hg He Hs Hw Hd. destruct (squeezed_grid g e Hg He) as (Hq & Hwe & Hae & _). destruct (wf_edges g Hg) as (Hc & Hdim & Hnz & _).
  pose proof (length_wf_edges g Hg) as Hlg. pose proof (length_wf_edges s Hs) as Hls. pose proof (Forall2_length _ _ _ Hw) as Hlw.
  cbn [squeeze_decoded_subchunk_grid] in Hd. rewrite Hnz in Hd. rewrite squeeze_flags_spec in Hd by (done || lia). cbn [obind] in Hd. rewrite drop_0 in Hd.
  assert (Forall (λ l, 0 < l) (array_shape g)) as Hpos.
  { apply Forall_total. intros j Hj. by apply (wf_edges_at g j Hg ltac:(lia)). }
  set (Es := grid_edges g) in *. set (sh := array_shape g) in *. match type of Hd with (if ?b then _ else _) = _ => destruct b end; [done|]. set (n := length (unsqueezed Es sh)).
  assert (n <= length (grid_edges s))%nat as Hn.
  { rewrite <-Hls, <-Hlw, Hae. unfold n. destruct (unsqueezed Es sh); simpl; lia. }
  rewrite (unsqueezed_lengths_spec s Es sh 0) in Hd by done. rewrite drop_0 in Hd. fold n in Hd.
  assert (edges_cover_shape (unsqueezed Es sh) (take n (grid_edges s))) as Hcov.
  { pose proof (cover_within e s Hwe Hs Hw) as Hcs. rewrite Hae in Hcs. unfold n. destruct (unsqueezed Es sh) as [|l ls]; [constructor|].
    by rewrite take_ge by (rewrite <-Hls, <-Hlw, Hae; done). }
  destruct (decoded_grid g d _ Hg (spread_cover Es sh _ Hc Hnz Hcov) Hd) as (D1 & D2 & D3). split_and!; [done..|]. intros x x' Hx Hx' Hsc.
  unfold same_chunk. rewrite !D3 by done. fold Es. rewrite (spread_cells Es sh) by (done || rewrite length_take; lia).
  pose proof (Forall2_length _ _ _ Hx) as Hlx. pose proof (Forall2_length _ _ _ Hx') as Hlx'. unfold squeeze_image.
  pose proof (length_unsqueezed Es x sh ltac:(lia) ltac:(lia)) as Hux. pose proof (length_unsqueezed Es x' sh ltac:(lia) ltac:(lia)) as Hux'.
  fold n in Hux, Hux'. destruct (unsqueezed Es x) as [|y ys] eqn:Hy, (unsqueezed Es x') as [|y' ys'] eqn:Hy'; try (simpl in *; lia).
  - split; [done|]. intros _. unfold edge_cells. by destruct (take n (grid_edges s)).
  - rewrite take_ge; [done|]. rewrite <-Hls, <-Hlw, Hae. unfold n in *. destruct (unsqueezed Es sh); [done|]. done.
Qed.

#[export] Instance squeeze_lawful_subchunking : LawfulSubchunking SqueezeCodecBound.
Proof.
  refine {| sub_wf _ := True; sub_shape _ := squeeze_encoded_shape; sub_map _ _ V := V; sub_image _ g := squeeze_image (grid_edges g) |}.
  - intros a g e _ Hg He. destruct (squeezed_grid g e Hg He) as (Hq & Hwe & _ & Hpl). split; [done|]. intros x Hx y sh.
    destruct (Hpl x Hx) as [Hy Hp]. destruct (squeezed_place _ _ _ (proj1 (wf_edges g Hg)) Hq Hx) as (S1 & S2 & S3). fold sh in S1, S2, S3.
    set (kept := unsqueezed (grid_edges g) (places (grid_edges g) x)) in *.
    assert (sizes_at (grid_edges e) y = squeeze_encoded_shape sh) as Hsz.
    { unfold sizes_at, y. rewrite Hp. unfold squeeze_encoded_shape. rewrite S1. by destruct kept. }
    split_and!; [done|done| |].
    + intros V HV. assert (Zprod (squeeze_encoded_shape sh) = Zprod sh) as Hprod by (unfold squeeze_encoded_shape; rewrite S1; rewrite <-S2; by destruct kept).
      split; [by rewrite Hprod|]. do 2 f_equal. rewrite <-S3. unfold locals, y. rewrite Hp. unfold squeeze_encoded_shape. rewrite S1. by destruct kept.
    + intros x' Hx' Hs. destruct (Hpl x' Hx') as [_ Hp']. unfold same_chunk in *. rewrite !cells_places in *. unfold y. rewrite Hp, Hp'.
      unfold kept. rewrite <-!list_fmap_compose in Hs. 
      assert (∀ ps, (squeezed_places ps).*1.*1 = match ps.*1.*1 with [] => [0] | l => l end) as Hsp by by intros [].
      rewrite !Hsp, !unsqueezed_fmap. rewrite <-!list_fmap_compose. by rewrite Hs.
  - intros a g e s d _ Hg He Hs Hw Hd. by apply (squeezed_back_grid g e s d).
  - intros a m s d Hd. cbn in Hd. unfold squeeze_decoded_subchunk_grid in Hd. destruct s, m; done.
Defined.
