(* ===== verification/SubchunkTheorems.v ===== *)
(** The grid of subchunks of the sharding codec: every chunk is cut into subchunks of one shape.

    What the subchunk grids of a codec chain say of its chunks, and where creating an array fails because of them. *)

From S2P Require Import Prelude ArraySubset Linear Iterators ChunkGrid RegularGrid RectilinearGrid RepeatGrid ByteRange StoreKey.
From S2P Require Import Storage ArrayBytes Elements StoreProgram DecodeInto Concurrency Codec ArrayToArray CodecChain Sharding.
From S2P Require Import Transpose TransposeLaws ChunkEdges Subchunking SubchunkLaws SubchunkCodecs.

(** ** Along a dimension *)

Definition divides_all (c : Z) (E : list Z) : Prop := Forall (λ e, e mod c = 0) E.

Lemma divides_start c E i : 0 < c → divides_all c E → edge_start E i mod c = 0.
Proof.
  intros Hc HE. unfold edge_start. assert (divides_all c (take (Z.to_nat i) E)) as Ht by by apply Forall_take. revert Ht.
  induction 1 as [|e E' He HE' IH]; [by apply Z.mod_0_l; lia|]. rewrite Zsum_cons, Z.add_mod, He, IH, Z.add_0_l by lia. by apply Z.mod_0_l; lia.
Qed.

(** Elements are in one subchunk when they are in one chunk and in one subchunk of it. *)
Lemma cut_cell c E x x' : 0 < c → edges_pos E → divides_all c E → 0 <= x < Zsum E → 0 <= x' < Zsum E →
  x / c = x' / c ↔ edge_cell E x = edge_cell E x' ∧ (x - edge_start E (edge_cell E x)) / c = (x' - edge_start E (edge_cell E x')) / c.
Proof.
  intros Hc HE Hd Hx Hx'.
  assert (∀ x, x / c = edge_start E (edge_cell E x) / c + (x - edge_start E (edge_cell E x)) / c) as Hsplit.
  { intros z. pose proof (divides_start c E (edge_cell E z) Hc Hd) as Hs. apply Z.div_exact in Hs; [|lia].
    rewrite Hs at 2. replace z with (edge_start E (edge_cell E z) / c * c + (z - edge_start E (edge_cell E z))) at 1 by lia.
    rewrite Z.div_add_l by lia. do 2 f_equal. lia. }
  assert (∀ x x', 0 <= x < Zsum E → 0 <= x' < Zsum E → x / c = x' / c → ¬ edge_cell E x < edge_cell E x') as Hlt.
  { clear x x' Hx Hx'. intros x x' Hx Hx' Heq Hlt. destruct (cell_spec E x HE Hx) as [A1 A2]. destruct (cell_spec E x' HE Hx') as [B1 B2].
    pose proof (edge_start_mono E (edge_cell E x) (edge_cell E x') HE ltac:(lia) Hlt ltac:(lia)) as Hm. pose proof (divides_start c E (edge_cell E x') Hc Hd) as Hs.
    apply Z.div_exact in Hs; [|lia]. set (t := edge_start E (edge_cell E x')) in *.
    assert (x / c < t / c) by (apply Z.div_lt_upper_bound; lia). assert (t / c <= x' / c) by (apply Z.div_le_mono; lia). lia. }
  split.
  - intros Heq. assert (edge_cell E x = edge_cell E x') as Hcell.
    { pose proof (Hlt x x' Hx Hx' Heq). pose proof (Hlt x' x Hx' Hx (eq_sym Heq)). lia. }
    split; [done|]. rewrite (Hsplit x), (Hsplit x'), Hcell in Heq. rewrite Hcell. lia.
  - intros [H1 H2]. rewrite (Hsplit x), (Hsplit x'), H2, H1. done.
Qed.

Lemma cut_edges_spec c E r : 0 < c → edges_pos E → cut_edges c E = Ok r →
  divides_all c E ∧ r = replicate (Z.to_nat (Zsum E / c)) c ∧ Zsum r = Zsum E.
Proof.
  intros Hc HE. revert r. induction HE as [|e E He HE IH]; intros r Hr; cbn [cut_edges] in Hr.
  { injection Hr as <-. split_and!; [constructor| |done]. change (Zsum []) with 0. by rewrite Z.div_0_l by lia. }
  destruct (Z.eqb_spec (e mod c) 0) as [Hm|]; [|done]. cbn [negb] in Hr.
  destruct (cut_edges c E) as [rest|err|]; cbn [obind] in Hr; try done. injection Hr as <-. destruct (IH rest eq_refl) as (H1 & -> & H3).
  pose proof (edges_pos_sum E HE). split_and!; [by constructor| |].
  - rewrite <-replicate_add. f_equal. rewrite Zsum_cons. apply Z.div_exact in Hm; [|lia]. rewrite Hm at 2.
    rewrite (Z.mul_comm c), Z.div_add_l by lia. pose proof (Z.div_pos (Zsum E) c ltac:(lia) Hc). pose proof (Z.div_pos e c ltac:(lia) Hc). lia.
  - rewrite Zsum_app, H3, Zsum_cons, Zsum_replicate. apply Z.div_exact in Hm; [|lia]. pose proof (Z.div_pos e c ltac:(lia) Hc). lia.
Qed.

(** ** The grid *)

Lemma edges_nonempty len E : edges_cover_dim len E → 0 < len → (0 < length E)%nat.
Proof. intros (_ & H & _) Hpos. destruct E; [change (Zsum []) with 0 in H; lia|simpl; lia]. Qed.


(** A grid whose chunks have extent [c] along each dimension. *)
Lemma regular_cells (s : ChunkGrid) c : grid_wf s → grid_dimensionality s = length c → Forall (λ c, 0 < c) c →
  (∀ j, (j < length c)%nat → ∃ m, chunk_edge_lengths s j = Ok (replicate m (c !!! j))) →
  ∀ x, index_in x (array_shape s) → edge_cells (grid_edges s) x = zip_with Z.div x c.
Proof.
  intros Hs Hdim Hc He x Hx. destruct (wf_edges s Hs) as (Hcov & Hd & _ & Hel). pose proof (length_wf_edges s Hs) as Hl.
  pose proof (Forall2_length _ _ _ Hx) as Hlx. unfold edge_cells. apply list_eq_total; rewrite !length_zip_with; [lia|]. intros j Hj.
  rewrite !zip_with_total by lia. destruct (wf_edges_at s j Hs ltac:(lia)) as [(E1 & E2 & E3) _].
  destruct (He j ltac:(lia)) as [m Hm]. rewrite Hel in Hm by lia. injection Hm as Hm. rewrite Hm in *. rewrite Forall_total in Hc.
  rewrite Zsum_replicate in E2. unfold index_in in Hx. rewrite Forall2_total in Hx. pose proof (proj2 Hx j ltac:(lia)).
  apply cell_replicate; [apply Hc; lia|lia].
Qed.

(** The facts the cases of [regular_subchunk_grid] share. *)
Record cut_of (g : ChunkGrid) (c : list Z) (s : ChunkGrid) : Prop := {
  cut_wf : grid_wf s;
  cut_within : array_within g s;
  cut_divides : Forall2 divides_all c (grid_edges g);
  cut_cells x : index_in x (array_shape s) → edge_cells (grid_edges s) x = zip_with Z.div x c }.

Lemma grid_edges_regular ash gsh c j : grid_wf (mk_regular ash gsh c) → (j < length c)%nat → ash !!! j ≠ 0 →
  chunk_edge_lengths (mk_regular ash gsh c) j = Ok (replicate (Z.to_nat (gsh !!! j)) (c !!! j)).
Proof.
  intros (H1 & H2 & _) Hj Hnz. cbn [rg_array_shape rg_grid_shape rg_chunk_shape] in *. unfold chunk_edge_lengths, regular_grid, regular_chunk_edge_lengths, regular_dimensionality.
  cbn [rg_array_shape rg_grid_shape rg_chunk_shape]. rewrite (proj2 (Nat.leb_gt _ _) Hj). rewrite list_lookup_lookup_total_lt by lia. cbn [expect obind].
  rewrite (proj2 (Z.eqb_neq _ _) Hnz). rewrite list_lookup_lookup_total_lt by lia. cbn [expect obind].
  by rewrite list_lookup_lookup_total_lt by (rewrite H2, length_zip_with; lia).
Qed.

(** Regular grids over arrays that are whole numbers of chunks. *)
Lemma regular_new_whole ash c : Forall2 (λ len c, 0 < c ∧ 0 < len < u64_modulus ∧ len mod c = 0) ash c →
  ∃ r, RegularChunkGrid_new ash c = Ok r ∧ grid_wf r ∧ grid_wf (ChunkGrid_new r) ∧ array_shape r = ash ∧ rg_chunk_shape r = c ∧
    (∀ j, (j < length c)%nat → chunk_edge_lengths r j = Ok (replicate (Z.to_nat (ash !!! j / c !!! j)) (c !!! j))).
Proof.
  intros H. pose proof (Forall2_length _ _ _ H) as Hl. unfold RegularChunkGrid_new. rewrite (proj2 (Nat.eqb_eq _ _) Hl). cbn [negb].
  rewrite Forall2_total in H. destruct H as [_ H].
  assert (grid_wf (mk_regular ash (zip_with (λ a s, div_ceil a s) ash c) c)) as Hwf.
  { split_and!; [exact Hl|done|]. intros j Hj. cbn [rg_array_shape rg_chunk_shape] in *. destruct (H j ltac:(lia)) as (H1 & H2 & H3). split_and!; [lia|done|].
    unfold div_ceil. rewrite H3. apply Z.div_exact in H3; [|lia]. change (0 <? 0) with false. cbv iota zeta. lia. }
  assert (∀ j, (j < length c)%nat → chunk_edge_lengths (mk_regular ash (zip_with (λ a s, div_ceil a s) ash c) c) j =
    Ok (replicate (Z.to_nat (ash !!! j / c !!! j)) (c !!! j))) as Hel.
  { intros j Hj. destruct (H j ltac:(lia)) as (H1 & H2 & H3). rewrite grid_edges_regular by (done || lia). rewrite zip_with_total by lia.
    unfold div_ceil. rewrite H3. done. }
  eexists. split_and!; [done|done| |done|done|exact Hel]. apply chunk_grid_new_wf; [done| |].
  - unfold contains_zero. rewrite existsb_total_false. cbn [array_shape regular_grid rg_array_shape]. intros j Hj. destruct (H j Hj) as (_ & H2 & _). apply Z.eqb_neq. lia.
  - intros _. unfold uniform_edges, grid_edges. apply Forall_fmap, Forall_forall. intros j [_ Hj]%elem_of_seq. cbn [grid_dimensionality regular_grid] in Hj.
    unfold regular_dimensionality in Hj. cbn [rg_chunk_shape] in Hj.
    simpl. change (regular_chunk_edge_lengths ?g j) with (chunk_edge_lengths g j). rewrite Hel by lia. exists (c !!! j). by rewrite length_replicate.
Qed.

Lemma encode_replicate n c : encode_lengths (replicate (S n) c) = Ok (EdgeScalar c).
Proof.
  unfold encode_lengths, encode. cbn [head replicate]. assert (forallb (λ e, e =? c) (c :: replicate n c) = true) as ->; [|done].
  cbn [forallb]. rewrite Z.eqb_refl. cbn [andb]. induction n as [|n IHn]; [done|]. cbn [replicate forallb]. by rewrite Z.eqb_refl.
Qed.

(** Cutting the edges of every dimension. *)
Lemma cut_dims_spec (g : ChunkGrid) dim c shapes encs : grid_wf g → (dim + length c = length (grid_edges g))%nat → Forall (λ c, 0 < c) c →
  cut_dims g dim c = Ok (shapes, encs) →
  let Es := drop dim (grid_edges g) in
  shapes = Zsum <$> Es ∧ encs = EdgeScalar <$> c ∧ Forall2 divides_all c Es.
Proof.
  intros Hg. destruct (wf_edges g Hg) as (_ & _ & _ & He). revert dim shapes encs. induction c as [|c cs IH]; intros dim shapes encs Hdim Hc Hcut; cbn zeta.
  { cbn [length] in Hdim. rewrite drop_ge by lia. injection Hcut as <- <-. done. }
  cbn [length cut_dims] in *. apply Forall_cons in Hc as [Hc Hcs]. assert (dim < length (grid_edges g))%nat as Hlt by lia.
  destruct (wf_edges_at g dim Hg Hlt) as [(E1 & E2 & E3) Hpos].
  rewrite (drop_S (grid_edges g) (grid_edges g !!! dim) dim) by (by apply list_lookup_lookup_total_lt). set (E := grid_edges g !!! dim) in *.
  rewrite He in Hcut by done. fold E in Hcut. cbn [obind] in Hcut. destruct (cut_edges c E) as [r|err|] eqn:Hr; cbn [obind] in Hcut; try done.
  destruct (cut_edges_spec c E r Hc E1 Hr) as (D1 & D2 & D3).
  rewrite checked_sum_spec in Hcut by (rewrite D2; apply Forall_replicate; lia). rewrite D3, (proj2 (Z.ltb_lt _ _)) in Hcut by done. cbn [ok_or obind] in Hcut.
  assert (encode_lengths r = Ok (EdgeScalar c)) as Henc.
  { rewrite D2. assert (0 < Zsum E / c) as Hq.
    { rewrite D2, Zsum_replicate in D3. destruct (Z.to_nat (Zsum E / c)) eqn:Hn; [simpl in D3; lia|lia]. }
    replace (Z.to_nat (Zsum E / c)) with (S (Z.to_nat (Zsum E / c - 1))) by lia. apply encode_replicate. }
  rewrite Henc in Hcut. cbn [obind] in Hcut. destruct (cut_dims g (S dim) cs) as [[shs es]|err|] eqn:Hrest; cbn [obind] in Hcut; try done.
  injection Hcut as <- <-. destruct (IH (S dim) shs es ltac:(lia) Hcs Hrest) as (-> & -> & I3). cbn [fst snd fmap list_fmap]. split_and!; [done..|]. by constructor.
Qed.

Lemma no_rectilinear c : existsb (λ e, negb (bool_decide (is_Some (as_scalar e)))) (EdgeScalar <$> c) = false.
Proof. induction c as [|c cs IH]; [done|]. cbn [fmap list_fmap existsb as_scalar]. by rewrite IH. Qed.

Lemma collect_scalars c : collect_opt (as_scalar <$> (EdgeScalar <$> c)) = Some c.
Proof. induction c as [|c cs IH]; [done|]. cbn [fmap list_fmap collect_opt as_scalar mbind option_bind]. by rewrite IH. Qed.

Lemma divides_sum c E : 0 < c → divides_all c E → Zsum E mod c = 0.
Proof.
  intros Hc HE. pose proof (divides_start c E (zlen E) Hc HE) as H. unfold edge_start in H. by rewrite Nat2Z.id, firstn_all in H.
Qed.

(** Chunks that are whole numbers of subchunks, which need not end at the array. *)
Lemma cut_whole (g : ChunkGrid) c : grid_wf g → Forall (λ c, 0 < c) c → Forall2 divides_all c (grid_edges g) →
  Forall2 (λ len c, 0 < c ∧ 0 < len < u64_modulus ∧ len mod c = 0) (Zsum <$> grid_edges g) c.
Proof.
  intros Hg Hc Hd. rewrite Forall2_total in Hd. destruct Hd as [Hl Hd]. rewrite Forall_total in Hc. rewrite Forall2_total, length_fmap. split; [done|].
  intros j Hj. rewrite (fmap_total Zsum) by done. destruct (wf_edges_at g j Hg Hj) as [(E1 & E2 & E3) Hpos].
  split_and!; [apply Hc; lia|lia|done|]. apply divides_sum; [apply Hc; lia|apply Hd; lia].
Qed.

Lemma cut_grid_spec (g s : ChunkGrid) c : grid_wf g → grid_dimensionality g = length c → Forall (λ c, 0 < c) c →
  cut_grid g c = Ok s → cut_of g c s.
Proof.
  intros Hg Hdim Hc Hs. destruct (wf_edges g Hg) as (Hcov & Hd & Hnz & _). pose proof (length_wf_edges g Hg) as Hl. unfold cut_grid in Hs.
  destruct (cut_dims g 0 c) as [[shapes encs]|err|] eqn:Hcut; cbn [obind] in Hs; try done.
  destruct (cut_dims_spec g 0 c shapes encs Hg ltac:(lia) Hc Hcut) as (-> & -> & Hdiv). rewrite drop_0 in *.
  rewrite no_rectilinear, collect_scalars in Hs. cbn [expect obind] in Hs.
  destruct (regular_new_whole _ _ (cut_whole g c Hg Hc Hdiv)) as (r & Hr & _ & Hwf & Ha & Hrc & He). rewrite Hr in Hs. injection Hs as <-. split.
  - done.
  - unfold array_within. change (array_shape (ChunkGrid_new r)) with (array_shape r). rewrite Ha. rewrite Forall2_total, length_fmap. split; [done|].
    intros j Hj. rewrite (fmap_total Zsum) by lia. destruct (wf_edges_at g j Hg ltac:(lia)) as [(_ & E2 & _) _]. lia.
  - done.
  - apply regular_cells; [done| |done|by intros j Hj; eexists; apply He]. change (grid_dimensionality (ChunkGrid_new r)) with (length (rg_chunk_shape r)). by rewrite Hrc.
Qed.

(** ** Chunks of one shape *)

Section repeat_cut.
Context (g : ChunkGrid) (c : list Z) (Hg : grid_wf g) (Hreg : cg_named_regular g = true) (Hdim : grid_dimensionality g = length c) (Hc : Forall (λ c, 0 < c) c).

(** The shape of the chunk at the origin. *)
Let origin := edge_sizes (grid_edges g) (replicate (grid_dimensionality g) 0).

Lemma length_origin : length origin = length c ∧ length (grid_edges g) = length c.
Proof using Hg Hdim. destruct (wf_edges g Hg) as (_ & Hd & _). unfold origin, edge_sizes. rewrite length_zip_with, length_replicate. lia. Qed.

Lemma origin_edges j : (j < length c)%nat → grid_edges g !!! j = replicate (length (grid_edges g !!! j)) (origin !!! j) ∧
  0 < origin !!! j ∧ (0 < length (grid_edges g !!! j))%nat.
Proof using Hg Hreg Hdim.
  pose proof (proj1 (proj2 Hg) Hreg) as Hu. unfold uniform_edges in Hu. rewrite Forall_total in Hu. destruct length_origin as [_ Hl].
  intros Hj. destruct (wf_edges_at g j Hg ltac:(lia)) as [(E1 & E2 & E3) Hpos]. destruct (Hu j ltac:(lia)) as [z Hz].
  assert (0 < length (grid_edges g !!! j))%nat as Hne by (apply (edges_nonempty (array_shape g !!! j)); [exact (conj E1 (conj E2 E3))|done]).
  assert (origin !!! j = z) as Ho.
  { unfold origin, edge_sizes. rewrite zip_with_total by (rewrite ?length_replicate; lia). rewrite lookup_total_replicate_2 by lia.
    rewrite Hz. by rewrite lookup_total_replicate_2 by (change (Z.to_nat 0) with 0%nat; lia). }
  rewrite Ho. split_and!; [done| |done]. rewrite Hz in E1. destruct (length (grid_edges g !!! j)); [lia|]. by inversion E1.
Qed.

Lemma origin_sum j : (j < length c)%nat → Zsum (grid_edges g !!! j) = origin !!! j * zlen (grid_edges g !!! j).
Proof using Hg Hreg Hdim. intros Hj. destruct (origin_edges j Hj) as (E & _ & _). rewrite E at 1. rewrite Zsum_replicate. lia. Qed.

Context (Hdiv : zip_all (λ sh sub, sh mod sub =? 0) origin c = true).

Lemma origin_whole : Forall2 (λ len c, 0 < c ∧ 0 < len < u64_modulus ∧ len mod c = 0) origin c.
Proof using Hg Hreg Hdim Hc Hdiv.
  destruct length_origin as [Hlo Hl]. rewrite Forall2_total. split; [done|]. intros j Hj. destruct (wf_edges_at g j Hg ltac:(lia)) as [(E1 & E2 & E3) Hpos].
  destruct (origin_edges j ltac:(lia)) as (O1 & O2 & O3). pose proof (origin_sum j ltac:(lia)) as Hs. rewrite Forall_total in Hc.
  rewrite zip_all_true in Hdiv by lia. specialize (Hdiv j ltac:(lia)). apply Z.eqb_eq in Hdiv. split_and!; [apply Hc; lia|done|nia|done].
Qed.

Lemma origin_repeats : length (grid_shape g) = length c ∧ ∀ j, (j < length c)%nat → grid_shape g !!! j = zlen (grid_edges g !!! j).
Proof using Hg Hdim.
  destruct length_origin as [_ Hl]. destruct (wf_edges g Hg) as (_ & _ & Hnz & _). destruct (lawful_edges g Hg Hnz) as (_ & Hgs & _).
  rewrite Hgs. split; [rewrite length_fmap; lia|]. intros j Hj. by rewrite (fmap_total (λ E, zlen E)) by lia.
Qed.

(** The grid of one chunk can be repeated for all of them. *)
Lemma origin_fits r : grid_wf (ChunkGrid_new r) → array_shape r = origin → rg_chunk_shape r = c →
  (∀ j, (j < length c)%nat → chunk_edge_lengths r j = Ok (replicate (Z.to_nat (origin !!! j / c !!! j)) (c !!! j))) →
  repeats_fit (ChunkGrid_new r) (grid_shape g).
Proof using Hg Hreg Hdim Hc Hdiv.
  intros Hr Ha Hrc He. destruct length_origin as [Hlo Hl]. destruct origin_repeats as [Hlr Hrep]. destruct (wf_edges _ Hr) as (_ & Hdr & _ & Her).
  change (grid_dimensionality (ChunkGrid_new r)) with (length (rg_chunk_shape r)) in Hdr. rewrite Hrc in Hdr.
  assert (length (grid_axes (ChunkGrid_new r)) = length c) as Hla.
  { rewrite <-(grid_dimensionality_law _ Hr). change (grid_dimensionality (ChunkGrid_new r)) with (length (rg_chunk_shape r)). by rewrite Hrc. }
  split; [lia|]. rewrite Hlr. intros j Hj a. pose proof origin_whole as Hw. rewrite Forall2_total in Hw. destruct (proj2 Hw j ltac:(lia)) as (W1 & W2 & W3).
  assert (a = edge_axis (origin !!! j) (replicate (Z.to_nat (origin !!! j / c !!! j)) (c !!! j))) as ->.
  { unfold a. change (grid_axes (ChunkGrid_new r)) with (edge_axes (ChunkGrid_new r)). unfold edge_axes.
    change (array_shape (ChunkGrid_new r)) with (array_shape r). rewrite Ha. rewrite zip_with_total by lia. f_equal.
    specialize (Her j ltac:(lia)). change (chunk_edge_lengths (ChunkGrid_new r) j) with (chunk_edge_lengths r j) in Her. rewrite He in Her by done. by injection Her. }
  apply Z.div_exact in W3; [|lia]. set (q := origin !!! j / c !!! j) in *. assert (0 < q) by nia.
  destruct (origin_edges j Hj) as (_ & _ & O3). pose proof (origin_sum j Hj) as Hsum. destruct (wf_edges_at g j Hg ltac:(lia)) as [(_ & _ & E3) _].
  rewrite Hrep by done. cbn [ax_len ax_n edge_axis]. rewrite length_replicate, Z2Nat.id by lia. split_and!; [lia|lia|nia|].
  unfold edges_fit, ax_end. cbn [ax_len ax_n ax_origin ax_size edge_axis]. rewrite length_replicate, Z2Nat.id by lia.
  rewrite !(proj2 (Z.eqb_neq _ _)) by lia. rewrite <-edge_start_succ by (rewrite length_replicate; lia).
  unfold edge_start. rewrite firstn_all2 by (rewrite length_replicate; lia). rewrite Zsum_replicate. lia.
Qed.

(** Chunks of one shape, cut by repeating the grid of one. *)
Lemma repeat_cut_spec : ∃ s,
  (let? inner := RegularChunkGrid_new origin c in
   let? grid := map_err repeat_create_error (RepeatChunkGrid_new (grid_shape g) (ChunkGrid_new inner)) in Ok (ChunkGrid_new grid)) = Ok s ∧
  cut_of g c s.
Proof using Hg Hreg Hdim Hc Hdiv.
  destruct length_origin as [Hlo Hl]. destruct origin_repeats as [Hlg Hgj]. pose proof (length_wf_edges g Hg) as Hla. pose proof origin_whole as Hwhole.
  destruct (regular_new_whole _ _ Hwhole) as (r & Hr & _ & Hwfr & Ha & Hrc & Her). rewrite Hr. cbn [obind].
  assert (Forall (λ r, 0 <= r) (grid_shape g)) as Hnn by (apply Forall_total; intros j Hj; rewrite Hgj; lia).
  destruct (repeat_new_wf _ _ Hwfr Hnn (origin_fits r Hwfr Ha Hrc Her)) as (rep & -> & Hwfrep & Hin & Hreps & Harr & _). cbn [map_err obind].
  assert (array_shape (ChunkGrid_new r) = origin) as Hao by exact Ha.
  assert (array_shape rep = zip_with Z.mul origin (grid_shape g)) as Harr' by (rewrite <-Hao; exact Harr).
  assert (grid_wf (ChunkGrid_new rep)) as Hwf.
  { apply chunk_grid_new_wf; [exact Hwfrep| |done]. rewrite Harr'. unfold contains_zero. rewrite existsb_total_false, length_zip_with. intros j Hj.
    rewrite zip_with_total by lia. destruct (origin_edges j ltac:(lia)) as (_ & O2 & O3). rewrite Hgj by lia. apply Z.eqb_neq. nia. }
  eexists. split; [done|]. split.
  - done.
  - unfold array_within. change (array_shape (ChunkGrid_new rep)) with (array_shape rep). rewrite Harr', Forall2_total, length_zip_with. split; [lia|].
    intros j Hj. rewrite zip_with_total by lia. destruct (wf_edges_at g j Hg ltac:(lia)) as [(_ & E2 & _) _]. rewrite origin_sum in E2 by lia. rewrite Hgj by lia. lia.
  - rewrite Forall2_total. split; [lia|]. intros j Hj. destruct (origin_edges j Hj) as (O1 & _). rewrite O1. apply Forall_replicate.
    rewrite Forall2_total in Hwhole. apply (proj2 Hwhole). lia.
  - apply regular_cells; [done| |done|].
    + change (grid_dimensionality (ChunkGrid_new rep)) with (length (rp_shape rep)). rewrite (proj1 (proj2 Hwfrep)), Hin, Hao. done.
    + intros j Hj. change (chunk_edge_lengths (ChunkGrid_new rep) j) with (repeat_chunk_edge_lengths rep j). unfold repeat_chunk_edge_lengths, repeat_dimensionality.
      rewrite (proj1 (proj2 Hwfrep)), Hin, Hao. rewrite (proj2 (Nat.leb_gt _ _)) by lia.
      change (chunk_edge_lengths (ChunkGrid_new r) j) with (chunk_edge_lengths r j). rewrite Her by done. cbn [obind]. rewrite Hreps.
      rewrite list_lookup_lookup_total_lt by lia. cbn [expect obind]. set (n := Z.to_nat (grid_shape g !!! j)). set (m := Z.to_nat _). exists (n * m)%nat. f_equal. clear.
      generalize 0%nat. induction n as [|n IH]; intros k; [done|]. cbn [seq mbind list_bind]. rewrite IH, <-replicate_add. done.
Qed.
End repeat_cut.

Lemma origin_shape (g : ChunkGrid) : grid_wf g →
  chunk_shape g (replicate (grid_dimensionality g) 0) = Ok (Some (edge_sizes (grid_edges g) (replicate (grid_dimensionality g) 0))).
Proof.
  intros Hg. destruct (wf_edges g Hg) as (_ & Hd & Hnz & _). destruct (lawful_edges g Hg Hnz) as (_ & Hgs & _ & _ & _ & Hshape). apply Hshape.
  rewrite Hgs. unfold index_in. rewrite Forall2_total, length_replicate, length_fmap. split; [done|]. intros j Hj.
  rewrite lookup_total_replicate_2 by done. rewrite (fmap_total (λ E, zlen E)) by lia. destruct (wf_edges_at g j Hg ltac:(lia)) as [Hcd Hpos].
  pose proof (edges_nonempty _ _ Hcd Hpos). lia.
Qed.

(** What [regular_subchunk_grid] returns. *)
Lemma regular_subchunk_grid_spec (g s : ChunkGrid) c : grid_wf g → Forall (λ c, 0 < c) c → regular_subchunk_grid g c = Ok s →
  cut_of g c s.
Proof.
  intros Hg Hc Hs. unfold regular_subchunk_grid in Hs.
  destruct (Nat.eqb_spec (grid_dimensionality g) (length c)) as [Hdim|]; [|done]. cbn [negb] in Hs.
  destruct (cg_named_regular g) eqn:Hreg; [|by apply cut_grid_spec]. rewrite origin_shape in Hs by done. cbn [obind ok_or] in Hs.
  destruct (zip_all _ _ _) eqn:Hz; [|by apply cut_grid_spec]. destruct (repeat_cut_spec g c Hg Hreg Hdim Hc Hz) as (s' & Hs' & Hcut).
  rewrite Hs' in Hs. by injection Hs as <-.
Qed.

(** Elements are in one subchunk when they are in one chunk and in one subchunk of it. *)
Lemma cut_same_chunk (g s : ChunkGrid) c x x' : grid_wf g → Forall (λ c, 0 < c) c → cut_of g c s → index_in x (array_shape g) → index_in x' (array_shape g) →
  same_chunk s x x' ↔ same_chunk g x x' ∧ zip_with Z.div (locals (grid_edges g) x) c = zip_with Z.div (locals (grid_edges g) x') c.
Proof.
  intros Hg Hc [Hs Hw Hdiv Hcells] Hx Hx'. unfold same_chunk. rewrite !Hcells by by eapply array_within_in.
  pose proof (length_wf_edges g Hg) as Hl. destruct (wf_edges g Hg) as (Hcov & _). unfold edges_cover_shape, index_in in *. unfold edge_cells, locals, places.
  clear Hs Hw Hcells Hg Hl. revert c x x' Hc Hdiv Hx Hx'. induction Hcov as [|len E sh Es (HE & Hl & Hu) Hcov IH]; intros c x x' Hc Hdiv Hx Hx';
    inversion Hx as [|i ? y ? Hi Hy]; subst; inversion Hx' as [|i' ? y' ? Hi' Hy']; subst; inversion Hdiv as [|d ? cs ? Hd Hds]; subst; [done|].
  apply Forall_cons in Hc as [Hc Hcs]. cbn [zip_with fmap list_fmap fst snd place].
  pose proof (cut_cell d E i i' Hc HE Hd ltac:(lia) ltac:(lia)) as [C1 C2]. destruct (IH cs y y' Hcs Hds Hy Hy') as [I1 I2]. split.
  - intros [= H1 H2]. destruct (C1 H1) as [C3 C4]. destruct (I1 H2) as [I3 I4]. split; by f_equal.
  - intros [[= H1 H2] [= H3 H4]]. f_equal; auto.
Qed.

Section sharding.
Context {I X : Type} `{LawfulSubchunks I}.

#[export] Instance sharding_lawful_subchunks : LawfulSubchunks (ShardingCodecBound I X).
Proof.
  refine {| subs_wf self := subs_wf (inner_codecs self) ∧ Forall (λ c, 0 < c) (subchunk_shape self) |}.
  - intros c g ss s [Hin Hc] Hg Hss Hs. cbn in Hss. unfold sharding_decoded_subchunk_grids in Hss. destruct (wf_edges g Hg) as (_ & _ & Hnz & _). rewrite Hnz in Hss.
    destruct (regular_subchunk_grid g (subchunk_shape c)) as [s0|err|] eqn:Hr; cbn [obind] in Hss; try done.
    destruct (regular_subchunk_grid_spec g s0 _ Hg Hc Hr) as [C1 C2 _ _].
    destruct (decoded_subchunk_grids (inner_codecs c) (MappedArray s0)) as [rest|err|] eqn:Hrest; cbn [obind] in Hss; try done. injection Hss as <-.
    apply elem_of_cons in Hs as [[= ->]|Hs]; [done|]. destruct (subs_law _ _ _ _ Hin C1 Hrest Hs) as [D1 D2]. split; [done|]. by eapply array_within_trans.
  - intros c m ss s [Hin Hc] Hm Hss Hs. cbn in Hss. unfold sharding_decoded_subchunk_grids in Hss.
    destruct m as [|g|]; try done; cbn [obind] in Hss;
      match type of Hss with obind ?r _ = _ => destruct r as [rest|err|] eqn:Hrest end; cbn [obind] in Hss; try done; injection Hss as <-;
      (apply elem_of_cons in Hs as [?|Hs]; [done|]; revert Hs; by eapply subs_global_law).
Defined.
End sharding.

(** ** Cutting chunks always works when they are whole numbers of subchunks *)

Lemma divides_replicate c E : 0 < c → edges_pos E → divides_all c E → cut_edges c E = Ok (replicate (Z.to_nat (Zsum E / c)) c).
Proof.
  intros Hc HE Hd. assert (∃ r, cut_edges c E = Ok r) as [r Hr].
  { clear HE. induction Hd as [|e E He Hd [r IH]]; [by eexists|]. cbn [cut_edges]. rewrite He, Z.eqb_refl. cbn [negb]. rewrite IH. by eexists. }
  rewrite Hr. by destruct (cut_edges_spec c E r Hc HE Hr) as (_ & -> & _).
Qed.

Lemma cut_dims_total (g : ChunkGrid) dim c : grid_wf g → (dim + length c = length (grid_edges g))%nat → Forall (λ c, 0 < c) c →
  Forall2 divides_all c (drop dim (grid_edges g)) → cut_dims g dim c = Ok (Zsum <$> drop dim (grid_edges g), EdgeScalar <$> c).
Proof.
  intros Hg Hdim Hc Hd. assert (∃ r, cut_dims g dim c = Ok r) as [[shs es] Hr].
  { revert dim Hdim Hd. induction Hc as [|d cs Hd Hcs IH]; intros dim Hdim Hdiv; [by eexists|]. cbn [length cut_dims] in *.
    assert (dim < length (grid_edges g))%nat as Hlt by lia. destruct (wf_edges g Hg) as (_ & _ & _ & He). destruct (wf_edges_at g dim Hg Hlt) as [(E1 & E2 & E3) Hpos].
    rewrite (drop_S (grid_edges g) (grid_edges g !!! dim) dim) in Hdiv by (by apply list_lookup_lookup_total_lt).
    inversion Hdiv as [|d' E' cs' Es' Hde Hdiv' Heq1 Heq2]; subst. rewrite He by done. cbn [obind].
    rewrite divides_replicate by done. cbn [obind]. set (n := Z.to_nat (Zsum (grid_edges g !!! dim) / d)).
    assert (Zsum (replicate n d) = Zsum (grid_edges g !!! dim)) as Hsum.
    { pose proof (divides_replicate d _ Hd E1 Hde) as Hcut. by destruct (cut_edges_spec d _ _ Hd E1 Hcut) as (_ & _ & <-). }
    rewrite checked_sum_spec by (apply Forall_replicate; lia). rewrite Hsum, (proj2 (Z.ltb_lt _ _)) by done. cbn [ok_or obind].
    destruct n; [change (Zsum (replicate 0 d)) with 0 in Hsum; lia|]. rewrite encode_replicate. cbn [obind]. destruct (IH (S dim) ltac:(lia) Hdiv') as [r ->]. by eexists. }
  rewrite Hr. destruct (cut_dims_spec g dim c shs es Hg Hdim Hc Hr) as (-> & -> & _). done.
Qed.

Lemma cut_grid_total (g : ChunkGrid) c : grid_wf g → grid_dimensionality g = length c → Forall (λ c, 0 < c) c →
  Forall2 divides_all c (grid_edges g) → ∃ s, cut_grid g c = Ok s.
Proof.
  intros Hg Hdim Hc Hd. destruct (wf_edges g Hg) as (_ & Hdl & _). unfold cut_grid.
  rewrite cut_dims_total by (rewrite ?drop_0; done || lia). cbn [obind].
  rewrite no_rectilinear, collect_scalars, drop_0. cbn [expect obind].
  destruct (regular_new_whole _ _ (cut_whole g c Hg Hc Hd)) as (r & -> & _). by eexists.
Qed.

Lemma regular_subchunk_grid_total (g : ChunkGrid) c : grid_wf g → Forall (λ c, 0 < c) c → Forall2 divides_all c (grid_edges g) →
  ∃ s, regular_subchunk_grid g c = Ok s.
Proof.
  intros Hg Hc Hd. destruct (wf_edges g Hg) as (_ & Hdl & _). pose proof (Forall2_length _ _ _ Hd) as Hl.
  assert (grid_dimensionality g = length c) as Hdim by lia. unfold regular_subchunk_grid. rewrite (proj2 (Nat.eqb_eq _ _) Hdim). cbn [negb].
  destruct (cg_named_regular g) eqn:Hreg; [|by apply cut_grid_total]. rewrite origin_shape by done. cbn [obind ok_or].
  destruct (zip_all _ _ _) eqn:Hz; [|by apply cut_grid_total]. destruct (repeat_cut_spec g c Hg Hreg Hdim Hc Hz) as (s' & Hs' & _). by eexists.
Qed.

(** ** Sharding *)

(** C21: The sharding codec cuts a grid into subchunks exactly when every chunk is, along every dimension, a whole
    number of subchunks, whichever of its two ways of building the grid it takes.  The grid it returns covers the
    array; two elements are in one of its chunks when they are in one chunk of the array and in one subchunk of
    that chunk. *)
Theorem sharding_cuts_chunks (g : ChunkGrid) (c : list Z) (Hg : grid_wf g) (Hc : Forall (λ c, 0 < c) c) :
  ((∃ s, regular_subchunk_grid g c = Ok s) ↔ Forall2 divides_all c (grid_edges g)) ∧
  ∀ s, regular_subchunk_grid g c = Ok s → grid_wf s ∧ array_within g s ∧
    ∀ x x', index_in x (array_shape g) → index_in x' (array_shape g) →
      same_chunk s x x' ↔ same_chunk g x x' ∧ zip_with Z.div (locals (grid_edges g) x) c = zip_with Z.div (locals (grid_edges g) x') c.
Proof.
  split; [split|].
  - intros [s Hs]. by destruct (regular_subchunk_grid_spec g s c Hg Hc Hs).
  - by apply regular_subchunk_grid_total.
  - intros s Hs. pose proof (regular_subchunk_grid_spec g s c Hg Hc Hs) as Hcut. split_and!; [by destruct Hcut..|].
    intros x x' Hx Hx'. by apply cut_same_chunk.
Qed.

(** A grid of chunks of shape [3; 4]. *)
Definition demo_grid (array_shape : list Z) : ChunkGrid :=
  ChunkGrid_new (mk_regular array_shape (zip_with div_ceil array_shape [3; 4]) [3; 4]).

Lemma demo_grid_wf n : n = 5 ∨ n = 6 → grid_wf (demo_grid [n; 4]).
Proof.
  intros Hn. assert (grid_wf (mk_regular [n; 4] (zip_with div_ceil [n; 4] [3; 4]) [3; 4])) as Hw.
  { split_and!; [done..|]. intros [|[|j]] Hj; [| |cbn in Hj; lia]; destruct Hn as [-> | ->]; by split_and!. }
  apply chunk_grid_new_wf; [done|by destruct Hn as [-> | ->]|].
  intros _. unfold uniform_edges, grid_edges. apply Forall_fmap, Forall_forall. intros j [_ Hj]%elem_of_seq. cbn in Hj. cbn [compose].
  rewrite (grid_edges_regular _ _ _ j Hw) by (cbn; lia || (destruct j as [|[|j]]; cbn; lia)). eexists. by rewrite length_replicate.
Qed.

Lemma sharding_cuts_chunks_witness : grid_wf (demo_grid [5; 4]) ∧
  ∃ s, regular_subchunk_grid (demo_grid [5; 4]) [1; 2] = Ok s ∧ same_chunk s [3; 2] [3; 3] ∧ ¬ same_chunk s [2; 3] [3; 3].
Proof.
  assert (grid_wf (demo_grid [5; 4])) as Hg by (apply demo_grid_wf; by left). split; [done|].
  destruct (sharding_cuts_chunks (demo_grid [5; 4]) [1; 2] Hg ltac:(by repeat constructor)) as [[_ Hex] Hall].
  destruct Hex as [s Hs]; [by repeat constructor|]. exists s. split; [done|]. destruct (Hall s Hs) as (_ & _ & Hsame).
  split; [|intros Hsc; revert Hsc].
  - apply Hsame; [by repeat constructor..|]. by vm_compute.
  - intros Hsc%Hsame; [|by repeat constructor..]. destruct Hsc as [Hsc _]. by vm_compute in Hsc.
Defined.

(** ** Chains *)

(** C20: The grids of subchunks that a codec chain returns are those of its array to bytes codec, seen through its array
    to array codecs.  The image of an element of the array is where the codecs put it: its place in the encoded chunk
    holds the element that its place in the decoded chunk does.  Two elements are in one chunk of a returned grid exactly
    when they are in one chunk of the array and their images are in one chunk of the grid of the array to bytes
    codec. *)
Theorem chain_subchunks_follow_elements {A C B} `{LawfulSubchunking A} `{LawfulSubchunks C} (self : CodecChainBound A C B) (g : ChunkGrid)
    (ds : list ChunkGridMapped) (Hself : chain_subs_wf self) (Hg : grid_wf g)
    (Hds : chain_decoded_subchunk_grids self (MappedArray g) = Ok ds) :
  ∃ grids mN ss, map_chunk_grid (array_to_array self) (MappedArray g) [] = Ok (grids, mN) ∧
  decoded_subchunk_grids (array_to_bytes self) mN = Ok ss ∧ length ds = length ss ∧
  ∀ i d, ds !! i = Some (MappedArray d) → grid_wf d ∧ array_within g d ∧
    ∃ gN s, mN = MappedArray gN ∧ ss !! i = Some (MappedArray s) ∧ ∀ x, index_in x (array_shape g) →
      let image := chain_image (array_to_array self) (MappedArray g) in
      let sh := sizes_at (grid_edges g) x in
      index_in (image x) (array_shape gN) ∧
      (∀ V, zlen V = Zprod sh → let W := chain_sub_map (array_to_array self) sh V in
        W.2 !! Z.to_nat (lin (locals (grid_edges gN) (image x)) W.1) = V !! Z.to_nat (lin (locals (grid_edges g) x) sh)) ∧
      ∀ x', index_in x' (array_shape g) → same_chunk d x x' ↔ same_chunk g x x' ∧ same_chunk s (image x) (image x').
Proof.
  destruct (chain_subchunks self g ds Hself Hg Hds) as (grids & mN & ss & Hm & Hss & Hlen & Hall). exists grids, mN, ss. split_and!; [done..|].
  intros i d Hd. destruct (Hall i d Hd) as (H3 & H4 & gN & s & -> & HgN & Hs & Hws & Hwi & Hx). split_and!; [done..|]. exists gN, s. split_and!; [done..|].
  destruct (map_chunk_grid_spec _ _ _ _ _ (proj1 Hself) Hg Hm) as (pre & _ & _ & Hdown & _). intros x Hin image sh.
  destruct (Hdown x Hin) as (D1 & D2 & _). split_and!; [done| |].
  - intros V HV. by destruct (D2 V HV) as (_ & _ & ?).
  - intros x' Hin'. by apply Hx.
Qed.

(** An inner codec without subchunks. *)
#[local] Instance unit_subchunking : ArrayToBytesCodecSubchunkingTraits unit := no_subchunking.

#[local] Instance unit_lawful_subchunks : LawfulSubchunks unit.
Proof. refine {| subs_wf _ := True |}; intros; simplify_eq/=; set_solver. Defined.

(** Chunks are transposed, then cut into shards of shape [2; 1]. *)
Definition demo_chain : CodecChainBound TransposeCodecBound (ShardingCodecBound unit unit) unit :=
  mk_chain [{| tr_order := [1; 0]; tr_data_type := PlainType (FixedSize 1); tr_fill_value := [0] |}]
    (mk_sharding [2; 1] tt tt IndexEnd (mk_sharding_options OrderC)) [] None.

Lemma chain_subchunks_follow_elements_witness : chain_subs_wf demo_chain ∧
  ∃ d, chain_decoded_subchunk_grids demo_chain (MappedArray (demo_grid [6; 4])) = Ok [MappedArray d] ∧
    ¬ same_chunk d [2; 3] [3; 3].
Proof.
  assert (chain_subs_wf demo_chain) as Hwf.
  { split; [|split; [done|by repeat constructor]]. repeat constructor; try done. }
  split; [done|].
  assert (match chain_decoded_subchunk_grids demo_chain (MappedArray (demo_grid [6; 4])) with Ok [MappedArray _] => True | _ => False end) as Hone by (vm_compute; exact I).
  destruct (chain_decoded_subchunk_grids demo_chain (MappedArray (demo_grid [6; 4]))) as [[|[|d|] [|]]| |] eqn:Hds; try done. exists d. split; [done|].
  assert (grid_wf (demo_grid [6; 4])) as Hg by (apply demo_grid_wf; by right).
  destruct (chain_subchunks_follow_elements demo_chain (demo_grid [6; 4]) [MappedArray d] Hwf Hg Hds) as (grids & mN & ss & Hm & Hss & Hl & Hall).
  destruct (Hall 0%nat d eq_refl) as (_ & _ & gN & s & -> & Hs & Hx).
  intros Hsc. destruct (Hx [2; 3] ltac:(by repeat constructor)) as (_ & _ & Hiff).
  apply (Hiff [3; 3] ltac:(by repeat constructor)) in Hsc as [Hsc _]. by vm_compute in Hsc.
Defined.

(** ** Transposed shards *)

Definition cut_row (c : Z) (E : list Z) : list Z := replicate (Z.to_nat (Zsum E / c)) c.

(** The edges of the grid that [cut_grid] returns. *)
Lemma cut_grid_edges (g s : ChunkGrid) c : grid_wf g → Forall (λ c, 0 < c) c → Forall2 divides_all c (grid_edges g) →
  cut_grid g c = Ok s → grid_edges s = zip_with cut_row c (grid_edges g).
Proof.
  intros Hg Hc Hd Hs. destruct (wf_edges g Hg) as (_ & Hdim & _). pose proof (Forall2_length _ _ _ Hd) as Hl. unfold cut_grid in Hs.
  rewrite cut_dims_total in Hs by (rewrite ?drop_0; done || lia). cbn [obind] in Hs.
  rewrite no_rectilinear, collect_scalars, drop_0 in Hs. cbn [expect obind] in Hs.
  destruct (regular_new_whole _ _ (cut_whole g c Hg Hc Hd)) as (r & Hr & _ & Hwf & _ & Hrc & He). rewrite Hr in Hs. injection Hs as <-.
  destruct (wf_edges _ Hwf) as (_ & Hdr & _ & Her). change (grid_dimensionality (ChunkGrid_new r)) with (length (rg_chunk_shape r)) in Hdr. rewrite Hrc in Hdr.
  apply list_eq_total; [rewrite length_zip_with; lia|]. intros j Hj. rewrite zip_with_total by lia.
  assert (chunk_edge_lengths r j = Ok (grid_edges (ChunkGrid_new r) !!! j)) as Hej by (apply (Her j); lia).
  rewrite He in Hej by lia. injection Hej as <-. by rewrite (fmap_total Zsum) by lia.
Qed.

(** A rectilinear grid of scalar edges. *)
Lemma new_scalars ash cs : Forall2 (λ len c, 0 < len ∧ 0 < c) ash cs → ∃ d, new_rectilinear ash (EdgeScalar <$> cs) = Ok (MappedArray d) ∧
  ∀ j, (j < length cs)%nat → chunk_edge_lengths d j = Ok (replicate (Z.to_nat (div_ceil (ash !!! j) (cs !!! j))) (cs !!! j)).
Proof.
  intros H. rewrite Forall2_total in H. destruct H as [Hl H]. unfold new_rectilinear, RectilinearChunkGrid_new.
  rewrite !length_fmap, Hl, Nat.eqb_refl. cbn [negb]. rewrite <-list_fmap_compose.
  rewrite (proj2 (collect_opt_Some _ (zip_with div_ceil ash cs))).
  2: { rewrite !length_zip_with, length_fmap. split; [lia|]. intros j Hj. rewrite !zip_with_total, fmap_total by (rewrite ?length_fmap; lia).
    cbn [rectilinear_dim compose rectilinear_dim_grid_size]. destruct (H j ltac:(lia)). by rewrite (proj2 (Z.eqb_neq _ _)) by lia. }
  cbn [ok_or obind]. eexists. split; [done|]. intros j Hj. destruct (H j ltac:(lia)) as [H1 H2].
  change (chunk_edge_lengths (ChunkGrid_new ?r) j) with (rectilinear_chunk_edge_lengths r j).
  unfold rectilinear_chunk_edge_lengths, dims_chunk_edge_lengths, dims_dimensionality. cbn [rl_chunks rl_array_shape rl_grid_shape]. rewrite length_fmap, (proj2 (Nat.leb_gt _ _)) by done.
  rewrite (list_lookup_lookup_total_lt ash) by lia. cbn [expect obind]. rewrite (proj2 (Z.eqb_neq _ _)) by lia.
  rewrite list_lookup_lookup_total_lt by (rewrite length_fmap; lia). rewrite fmap_total by done. cbn [expect obind compose rectilinear_dim].
  rewrite list_lookup_lookup_total_lt by (rewrite length_zip_with; lia). by rewrite zip_with_total by lia.
Qed.

(** ** When a grid refines another *)

Definition row_refines (E D : list Z) : Prop := Zsum E = Zsum D ∧ ∀ t, t ∈ cumulative_boundaries E → t ∈ cumulative_boundaries D.

Lemma last_boundary E : edges_pos E → Zsum E < u64_modulus → last (cumulative_boundaries E) = Some (Zsum E).
Proof.
  intros HE Hu. unfold cumulative_boundaries. rewrite boundaries_from_spec by (done || lia). destruct E as [|e E'] eqn:HEq; [done|].
  rewrite <-HEq in *. assert (length E = S (length E')) as Hlen by by rewrite HEq.
  rewrite Hlen, seqZ_S, fmap_app. cbn [fmap list_fmap]. rewrite app_comm_cons, last_snoc. f_equal.
  unfold edge_start. rewrite firstn_all2; lia.
Qed.

Lemma validate_dims_cases (g d : ChunkGrid) dims : grid_wf g → grid_wf d → length (grid_edges d) = length (grid_edges g) →
  (∀ j, j ∈ dims → (j < length (grid_edges g))%nat) →
  (validate_dims g d dims = Ok tt ∧ ∀ j, j ∈ dims → row_refines (grid_edges g !!! j) (grid_edges d !!! j)) ∨
  (validate_dims g d dims = Err GridCreateOther ∧ ∃ j, j ∈ dims ∧ ¬ row_refines (grid_edges g !!! j) (grid_edges d !!! j)).
Proof.
  intros Hg Hd Hl. destruct (wf_edges g Hg) as (_ & _ & _ & Eg). destruct (wf_edges d Hd) as (_ & _ & _ & Ed).
  induction dims as [|i dims IH]; intros Hr; [left; split; [done|intros j Hj; by apply not_elem_of_nil in Hj]|]. cbn [validate_dims].
  assert (i < length (grid_edges g))%nat as Hi by (apply Hr; left). rewrite Eg, Ed by lia. cbn [obind].
  destruct (wf_edges_at g i Hg Hi) as [(G1 & _ & G3) _]. destruct (wf_edges_at d i Hd ltac:(lia)) as [(D1 & _ & D3) _].
  rewrite !last_boundary by done. set (E := grid_edges g !!! i) in *. set (D := grid_edges d !!! i) in *.
  destruct (bool_decide_reflect (Some (Zsum E) = Some (Zsum D))) as [Hs|Hs]; cbn [negb].
  2: { right. split; [done|]. exists i. split; [left|]. intros [Hs' _]. apply Hs. by f_equal. }
  destruct (forallb _ _) eqn:Hall; cbn [negb].
  - assert (row_refines E D) as Hrow.
    { split; [by injection Hs|]. intros t Ht. rewrite forallb_forall in Hall. specialize (Hall t ltac:(by apply list_elem_of_In)). by apply bool_decide_eq_true in Hall. }
    destruct IH as [[H1 H2]|(H1 & j & H2 & H3)]; [intros j Hj; apply Hr; by right|left|right].
    + split; [done|]. intros j [->|Hj]%elem_of_cons; [done|by apply H2].
    + split; [done|]. exists j. split; [by right|done].
  - right. split; [done|]. exists i. split; [left|]. intros [_ Hb]. apply not_true_iff_false in Hall. apply Hall, forallb_forall.
    intros t Ht. apply bool_decide_eq_true, Hb. by apply list_elem_of_In.
Qed.

(** Rows of whole numbers of subchunks are refined by a row of subchunks over the array exactly when they do not reach a
    subchunk past it. *)
Lemma row_refines_cut len E c : 0 < c → 0 < len → edges_cover_dim len E → divides_all c E →
  row_refines E (replicate (Z.to_nat (div_ceil len c)) c) ↔ Zsum E - len < c.
Proof.
  intros Hc Hlen (HE & Hle & Hu) Hd. pose proof (divides_sum c E Hc Hd) as Hm. apply Z.div_exact in Hm; [|lia].
  destruct (div_ceil_spec len c ltac:(lia) Hc) as [Hdc|[-> _]]; [|lia]. set (n := div_ceil len c) in *. set (m := Zsum E / c) in *.
  assert (0 < n) as Hn by nia. assert (n <= m) as Hnm by nia. unfold row_refines. rewrite Zsum_replicate, Z2Nat.id by lia. split.
  - intros [Hs _]. nia.
  - intros Hs. assert (m = n) as Hmn by nia. rewrite Hmn in Hm. split; [lia|]. intros t (k & Hk & ->)%elem_of_boundaries; [|done..].
    apply elem_of_boundaries; [by apply Forall_replicate|rewrite Zsum_replicate; nia|].
    pose proof (divides_start c E k Hc Hd) as Hs'. apply Z.div_exact in Hs'; [|lia]. exists (edge_start E k / c).
    assert (0 <= edge_start E k <= Zsum E) as Hb.
    { unfold edge_start. pose proof (edges_pos_sum _ (Forall_take _ (Z.to_nat k) _ HE)). pose proof (edges_pos_sum _ (Forall_drop _ (Z.to_nat k) _ HE)).
      pose proof (Zsum_app (take (Z.to_nat k) E) (drop (Z.to_nat k) E)) as Ha. rewrite take_drop in Ha. lia. }
    rewrite length_replicate, Z2Nat.id by lia. assert (0 <= edge_start E k / c <= n) by nia. split; [done|].
    unfold edge_start at 2. rewrite take_replicate, Zsum_replicate, Nat.min_l, Z2Nat.id by lia. lia.
Qed.

Section transposed_shards.
Context (t : TransposeCodecBound) (c : list Z) (g : ChunkGrid) (Ht : transpose_wf t) (Hg : grid_wf g).
Context (Htight : Forall2 edges_tight (array_shape g) (grid_edges g)) (Hl : length (tr_order t) = length (grid_edges g)).
Context (Hc : Forall (λ c, 0 < c) c).

Lemma transposed_edges : ∃ e, transpose_encoded_chunk_grid t (MappedArray g) = Ok (MappedArray e) ∧ grid_wf e ∧
  array_shape e = gather (tr_order t) (array_shape g) ∧ grid_edges e = pick (tr_order t) (grid_edges g) ∧ cg_named_regular e = false.
Proof using Ht Hg Htight Hl.
  destruct (wf_edges g Hg) as (Hcov & Hdim & Hnz & _). pose proof (length_wf_edges g Hg) as Hlg. destruct Ht as (Ho & Hu & _).
  pose proof (permutation_in (tr_order t) (grid_edges g) Ho ltac:(lia)) as Hin. pose proof (permutation_in (tr_order t) (array_shape g) Ho ltac:(lia)) as Hin'.
  cbn [transpose_encoded_chunk_grid]. rewrite permute_ok by (done || lia). cbn [map_err obind]. rewrite encoded_edge_lengths_eq by done.
  destruct (rectilinear_of_edges (pick (tr_order t) (array_shape g)) (pick (tr_order t) (grid_edges g))
    (Forall2_pick _ _ _ _ Hcov Hin') (contains_zero_pick _ _ Hin' Hnz)) as (cfgs & r & H1 & H2 & H3 & H4 & _ & H6).
  change (_ <$> tr_order t) with (pick (tr_order t) (grid_edges g)) at 1. rewrite (encoded_lengths _ _ H1). cbn [obind]. unfold new_rectilinear. change (gather ?o ?l) with (pick o l). rewrite H2. cbn [obind].
  assert (grid_edges r = pick (tr_order t) (grid_edges g)) as He by (apply H6, Forall2_pick; done).
  eexists. split_and!; [done|apply chunk_grid_new_wf; [done| |done]; by rewrite H4; apply contains_zero_pick|exact H4|exact He|done].
Qed.

(** Subchunks go back as scalar edges over the array. *)
Lemma untransposed_edges e s inv : inverse_permutation (tr_order t) = Ok inv → inverse_of (tr_order t) inv →
  transpose_encoded_chunk_grid t (MappedArray g) = Ok (MappedArray e) → array_within e s → grid_wf s →
  Forall2 divides_all c (pick (tr_order t) (grid_edges g)) → grid_edges s = zip_with cut_row c (pick (tr_order t) (grid_edges g)) →
  ∃ d, transpose_decoded_subchunk_grid t (MappedArray g) (MappedArray s) = Ok (MappedArray d) ∧ grid_wf d ∧
    ∀ i, (i < length (grid_edges g))%nat →
      grid_edges d !!! i = replicate (Z.to_nat (div_ceil (array_shape g !!! i) (zat c (inv !!! i)))) (zat c (inv !!! i)).
Proof using Ht Hg Hl Hc.
  intros Hinv Hio He Hw Hs Hdiv Hse. destruct (wf_edges g Hg) as (_ & Hdim & _ & _). pose proof (length_wf_edges g Hg) as Hlg.
  destruct (wf_edges s Hs) as (_ & Hsdim & _). pose proof Hio as [_ Hi Hlen _ _]. pose proof (Forall2_length _ _ _ Hdiv) as Hld.
  unfold pick in Hld. rewrite length_fmap in Hld.
  assert (length (grid_edges s) = length c) as Hls by (rewrite Hse, length_zip_with; unfold pick; rewrite length_fmap; lia).
  pose proof (permutation_in inv (grid_edges s) Hi ltac:(lia)) as Hin.
  assert (transpose_decoded_subchunk_grid t (MappedArray g) (MappedArray s) = new_rectilinear (array_shape g) (EdgeScalar <$> pick inv c)) as Heq.
  { cbn [transpose_decoded_subchunk_grid]. rewrite Hdim, Hsdim, (proj2 (Nat.eqb_eq _ _) Hl), (proj2 (Nat.eqb_eq (length (tr_order t)) _)) by lia. cbn [negb].
    rewrite Hinv. cbn [map_err obind]. rewrite encoded_edge_lengths_eq by done.
    replace (encode_lengths <$> _) with (Ok (E:=GridError) <$> (EdgeScalar <$> pick inv c)); [by rewrite collect_res_Ok|].
    unfold pick. rewrite <-!list_fmap_compose. apply Forall_fmap_ext. eapply Forall_impl; [exact Hin|]. intros k Hk. cbv beta in Hk. cbn [compose].
    rewrite Hse, zip_with_total by (unfold pick; rewrite ?length_fmap; lia). unfold cut_row.
    assert (0 < Zsum (zat (pick (tr_order t) (grid_edges g)) k) / zat c k) as Hpos.
    { destruct (wf_edges_at s (Z.to_nat k) Hs ltac:(lia)) as [(_ & Hsum & _) Hpos]. rewrite Hse, zip_with_total in Hsum by (unfold pick; rewrite ?length_fmap; lia).
      unfold cut_row in Hsum. rewrite Zsum_replicate in Hsum. destruct (Z.to_nat (_ / _)) eqn:Hn; lia. }
    destruct (Z.to_nat (_ / _)) eqn:Hn; [lia|]. by rewrite encode_replicate. }
  destruct (new_scalars (array_shape g) (pick inv c)) as (d & Hd & Hde).
  { rewrite Forall2_total. unfold pick. rewrite length_fmap. split; [lia|]. intros j Hj. rewrite fmap_total by lia.
    destruct (wf_edges_at g j Hg ltac:(lia)) as [_ Hpos]. split; [done|]. rewrite Forall_total in Hc, Hin. apply Hc. specialize (Hin j ltac:(lia)). lia. }
  rewrite <-Heq in Hd. exists d. destruct (transposed_back_grid t g e s d Ht Hg He Hs Hw Hd) as (Hwd & Hgd & _). split_and!; [done..|].
  intros i Hi'. destruct (wf_edges d Hwd) as (_ & _ & _ & Hel). pose proof (length_wf_edges d Hwd) as Hlwd. pose proof (Forall2_length _ _ _ Hgd) as Hlgd.
  assert (chunk_edge_lengths d i = Ok (grid_edges d !!! i)) as Hei by (apply Hel; lia).
  rewrite Hde in Hei by (unfold pick; rewrite length_fmap; lia). injection Hei as <-. by rewrite pick_total by lia.
Qed.
End transposed_shards.

(** Every subchunk of a dimension of the encoded grid begins before the end of the array. *)
Definition shards_reach_array (order c : list Z) (g : ChunkGrid) : Prop :=
  ∀ j, (j < length order)%nat → let i := order !!! j in Zsum (zat (grid_edges g) i) - zat (array_shape g) i < c !!! j.

Lemma transposed_shards_refine (order : list Z) c (g d : ChunkGrid) inv : inverse_of order inv → grid_wf g → grid_wf d → length order = length (grid_edges g) →
  length (grid_edges d) = length (grid_edges g) → Forall (λ c, 0 < c) c → Forall2 divides_all c (pick order (grid_edges g)) →
  (∀ i, (i < length (grid_edges g))%nat →
    grid_edges d !!! i = replicate (Z.to_nat (div_ceil (array_shape g !!! i) (zat c (inv !!! i)))) (zat c (inv !!! i))) →
  (validate_subchunk_grid_refines_chunk_grid g d = Ok tt ∧ shards_reach_array order c g) ∨
  (validate_subchunk_grid_refines_chunk_grid g d = Err GridCreateOther ∧ ¬ shards_reach_array order c g).
Proof.
  intros [Ho Hi Hlen Hleft Hright] Hg Hd Hl Hld Hc Hdiv He. destruct (wf_edges g Hg) as (_ & Hdim & _ & _). destruct (wf_edges d Hd) as (_ & Hdd & _ & _).
  rewrite Forall2_total in Hdiv. destruct Hdiv as [Hlc Hdiv]. unfold pick in Hlc. rewrite length_fmap in Hlc. rewrite Forall_total in Hc.
  assert (∀ j, (j < length order)%nat → 0 <= order !!! j < zlen order) as Hoin.
  { intros j Hj. pose proof (permutation_in order (grid_edges g) Ho ltac:(lia)) as Hin. rewrite Forall_total in Hin. specialize (Hin j Hj). cbv beta in Hin. lia. }
  assert (∀ i, (i < length (grid_edges g))%nat → 0 <= inv !!! i < zlen order) as Hiin.
  { intros i Hi'. pose proof (permutation_in inv (grid_edges g) Hi ltac:(lia)) as Hin. rewrite Forall_total in Hin. specialize (Hin i ltac:(lia)). cbv beta in Hin. lia. }
  assert (∀ i, (i < length (grid_edges g))%nat → row_refines (grid_edges g !!! i) (grid_edges d !!! i) ↔
    Zsum (grid_edges g !!! i) - array_shape g !!! i < zat c (inv !!! i)) as Hrow.
  { intros i Hi'. destruct (wf_edges_at g i Hg Hi') as [Hcov Hpos]. specialize (Hiin i Hi'). rewrite He by done. apply row_refines_cut; [apply Hc; lia|done..|].
    specialize (Hdiv (Z.to_nat (inv !!! i)) ltac:(lia)). rewrite pick_total in Hdiv by lia. specialize (Hright (Z.of_nat i) ltac:(lia)).
    rewrite Nat2Z.id in Hright. by rewrite Hright, Nat2Z.id in Hdiv. }
  unfold validate_subchunk_grid_refines_chunk_grid. rewrite (proj2 (Nat.eqb_eq _ _)) by lia. cbn [negb].
  destruct (validate_dims_cases g d (seq 0 (grid_dimensionality g)) Hg Hd Hld ltac:(intros j [_ Hj]%elem_of_seq; lia)) as [[Hv Hall]|(Hv & i & Hi'%elem_of_seq & Hn)]; [left|right]; (split; [exact Hv|]).
  - intros j Hj i. specialize (Hoin j Hj). specialize (Hall (Z.to_nat i) ltac:(apply elem_of_seq; subst i; lia)). apply Hrow in Hall; [|subst i; lia].
    specialize (Hleft (Z.of_nat j) ltac:(lia)). rewrite Nat2Z.id in Hleft. subst i. by rewrite Hleft, Nat2Z.id in Hall.
  - intros Hall. apply Hn, Hrow; [lia|]. specialize (Hiin i ltac:(lia)). specialize (Hall (Z.to_nat (inv !!! i)) ltac:(lia)). cbn zeta in Hall.
    specialize (Hright (Z.of_nat i) ltac:(lia)). rewrite Nat2Z.id in Hright. by rewrite Hright, Nat2Z.id in Hall.
Qed.

(** C22: Chunks that are transposed and then sharded.  The grids of subchunks, and with them the array, are accepted
    exactly when every transposed chunk is a whole number of subchunks along every dimension and the chunks reach less
    than a subchunk past the array; when only the second fails, the error is the one of grids that cannot be created.
    The chunks can then be cut all the same: the way back through [transpose] gives the grid the
    edges of the array instead of those of its chunks, and the check that subchunks refine chunks compares the sums.
    No chunk of the grid begins past the array, as in every regular grid. *)
Theorem transposed_shards_accepted {I X B} `{!ArrayToBytesCodecSubchunkingTraits I} (t : TransposeCodecBound) (c : ShardingCodecBound I X) (g : ChunkGrid)
    (Ht : transpose_wf t) (Hg : grid_wf g) (Htight : Forall2 edges_tight (array_shape g) (grid_edges g))
    (Hl : length (tr_order t) = length (grid_edges g)) (Hc : Forall (λ c, 0 < c) (subchunk_shape c))
    (Hinner : ∀ m, decoded_subchunk_grids (inner_codecs c) m = Ok []) :
  let grids := chain_decoded_subchunk_grids (mk_chain [t] c [] None : CodecChainBound TransposeCodecBound (ShardingCodecBound I X) B) (MappedArray g) in
  let whole := Forall2 divides_all (subchunk_shape c) (pick (tr_order t) (grid_edges g)) in
  let reach := shards_reach_array (tr_order t) (subchunk_shape c) g in
  ((∃ ds, grids = Ok ds) ↔ whole ∧ reach) ∧ (whole → ¬ reach → grids = Err GridCreateOther).
Proof.
  intros grids whole reach. destruct (transposed_edges t g Ht Hg Htight Hl) as (e & He & Hwe & Hae & Hee & Hne).
  destruct (wf_edges e Hwe) as (_ & Hde & Hze & _). destruct (wf_edges g Hg) as (_ & Hdg & _).
  destruct (inverse_permutation_ok (tr_order t) (proj1 Ht) (proj1 (proj2 Ht))) as (inv & Hinv & Hio).
  assert (∀ s, regular_subchunk_grid e (subchunk_shape c) = Ok s → whole) as Hwhole.
  { intros s Hs. unfold whole. rewrite <-Hee. by destruct (regular_subchunk_grid_spec e s _ Hwe Hc Hs). }
  assert (grids = let? s := regular_subchunk_grid e (subchunk_shape c) in
    let? d := transpose_decoded_subchunk_grid t (MappedArray g) (MappedArray s) in
    let? _ := validate_grids g [d] in Ok [d]) as Hgrids.
  { unfold grids, chain_decoded_subchunk_grids. cbn [array_to_array array_to_bytes map_chunk_grid encoded_chunk_grid transpose_subchunking].
    rewrite He. cbn [obind is_array negb andb decoded_subchunk_grids sharding_subchunking]. unfold sharding_decoded_subchunk_grids. rewrite Hze.
    destruct (regular_subchunk_grid e (subchunk_shape c)) as [s|err|]; cbn [obind]; [|done..]. rewrite Hinner. cbn [obind unmap_subchunk_grids unmap_subchunk_grid is_array negb andb decoded_subchunk_grid transpose_subchunking].
    destruct (transpose_decoded_subchunk_grid t (MappedArray g) (MappedArray s)) as [d|err|]; done. }
  assert (whole → (grids = Err GridCreateOther ∧ ¬ reach) ∨ ((∃ d, grids = Ok [d]) ∧ reach)) as Hcases.
  { intros Hw. destruct (regular_subchunk_grid_total e (subchunk_shape c) Hwe Hc ltac:(by rewrite Hee)) as [s Hs].
    destruct (regular_subchunk_grid_spec e s _ Hwe Hc Hs) as [Hws Hwi _ _]. rewrite Hgrids, Hs. cbn [obind].
    unfold regular_subchunk_grid in Hs. rewrite Hne in Hs. case_match; [done|].
    apply (cut_grid_edges e s _ Hwe Hc ltac:(by rewrite Hee)) in Hs. rewrite Hee in Hs.
    destruct (untransposed_edges t (subchunk_shape c) g Ht Hg Hl Hc e s inv Hinv Hio He Hwi Hws Hw Hs) as (d & Hd & Hwd & Hds). rewrite Hd. cbn [obind validate_grids].
    assert (length (grid_edges d) = length (grid_edges g)) as Hld.
    { destruct (transposed_back_grid t g e s d Ht Hg He Hws Hwi Hd) as (_ & Hgd & _). pose proof (Forall2_length _ _ _ Hgd).
      pose proof (length_wf_edges d Hwd). pose proof (length_wf_edges g Hg). lia. }
    destruct (transposed_shards_refine (tr_order t) (subchunk_shape c) g d inv Hio Hg Hwd Hl Hld Hc Hw Hds) as [[-> Hr]|[-> Hr]]; cbn [obind]; [right|left]; [|done].
    split; [by eexists|done]. }
  split.
  - split.
    + intros [ds Hds]. assert whole as Hw.
      { rewrite Hgrids in Hds. destruct (regular_subchunk_grid e (subchunk_shape c)) as [s|err|] eqn:Hs; [by eapply Hwhole|done..]. }
      destruct (Hcases Hw) as [[Hbad _]|[_ Hr]]; [congruence|done].
    + intros [Hw Hr]. destruct (Hcases Hw) as [[_ Hn]|[[d Hd] _]]; [done|by exists [d]].
  - intros Hw Hn. destruct (Hcases Hw) as [[Hbad _]|[_ Hr]]; done.
Qed.

Lemma transposed_shards_accepted_witness :
  chain_decoded_subchunk_grids demo_chain (MappedArray (demo_grid [5; 4])) = Err GridCreateOther ∧
  ∃ ds, chain_decoded_subchunk_grids demo_chain (MappedArray (demo_grid [6; 4])) = Ok ds.
Proof.
  set (t := {| tr_order := [1; 0]; tr_data_type := PlainType (FixedSize 1); tr_fill_value := [0] |}).
  assert (transpose_wf t) as Ht by by repeat constructor.
  assert (∀ n, n = 5 ∨ n = 6 → grid_wf (demo_grid [n; 4]) ∧ grid_edges (demo_grid [n; 4]) = [[3; 3]; [4]]) as Hg.
  { intros n Hn. split; [by apply demo_grid_wf|by destruct Hn as [-> | ->]]. }
  split.
  - destruct (Hg 5 ltac:(by left)) as [H1 H2].
    apply (transposed_shards_accepted t (mk_sharding [2; 1] tt tt IndexEnd (mk_sharding_options OrderC)) (demo_grid [5; 4]) Ht H1); rewrite ?H2; try done.
    + by repeat constructor; intros e [= <-].
    + by repeat constructor.
    + by repeat constructor.
    + intros Hr. specialize (Hr 1%nat ltac:(cbn; lia)). by vm_compute in Hr.
  - destruct (Hg 6 ltac:(by right)) as [H1 H2].
    apply (transposed_shards_accepted t (mk_sharding [2; 1] tt tt IndexEnd (mk_sharding_options OrderC)) (demo_grid [6; 4]) Ht H1); rewrite ?H2; try done.
    + by repeat constructor; intros e [= <-].
    + by repeat constructor.
    + split; [by repeat constructor|]. intros [|[|j]] Hj; [done..|cbn in Hj; lia].
Defined.
