(* ===== verification/Reshape.v ===== *)
(** The reshape codec: [zarrs_metadata_ext/src/codec/registered/reshape.rs] and
    [zarrs/src/array/codec/array_to_array/reshape.rs] with its [reshape_codec.rs] and [reshape_codec_grid_mapping.rs].

    Reshaping keeps the elements of a chunk in their order, and gives them another shape. *)

From S2P Require Import Prelude ArraySubset Linear Iterators ChunkGrid RegularGrid RectilinearGrid RepeatGrid ChunkEdges.
From S2P Require Import ByteRange StoreKey Storage ArrayBytes StoreProgram DecodeInto Concurrency Codec ArrayToArray Transpose CodecChain Sharding Subchunking.

(** ** The configuration *)

Inductive ReshapeDim := ReshapeSize (size : Z) | ReshapeInputDims (input_dims : list Z) | ReshapeAuto.

Definition ReshapeShape := list ReshapeDim.

(** The loop over the input dimensions of one output dimension, which must be increasing. *)
Fixpoint validate_input_dims (dims : list Z) (dim_idx : Z) : option Z :=
  match dims with
  | [] => Some dim_idx
  | dim :: dims => if dim <? dim_idx then None else validate_input_dims dims (Z.max dim_idx dim +w 1)
  end.

Fixpoint validate_from (shape : list ReshapeDim) (dim_idx : Z) (has_auto : bool) : bool :=
  match shape with
  | [] => true
  | ReshapeSize _ :: shape => validate_from shape (dim_idx +w 1) has_auto
  | ReshapeInputDims dims :: shape =>
      match validate_input_dims dims dim_idx with
      | None => false
      | Some dim_idx => validate_from shape dim_idx has_auto
      end
  | ReshapeAuto :: shape => if has_auto then false else validate_from shape (dim_idx +w 1) true
  end.

Definition validate_shape (shape : list ReshapeDim) : bool := validate_from shape 0 false.

Definition ReshapeShape_new (shape : list ReshapeDim) : outcome (list ReshapeDim) ReshapeShape :=
  if validate_shape shape then Ok shape else Err shape.

(** ** The shape of the encoded chunk *)

(** The product of some extents. *)
Fixpoint input_product (decoded_shape input_dims : list Z) (product : Z) : outcome CodecError Z :=
  match input_dims with
  | [] => Ok product
  | input_dim :: input_dims =>
      let? input_shape := ok_or CodecOther (decoded_shape !! Z.to_nat input_dim) in
      let? product := ok_or CodecOther (checked_mul product input_shape) in
      input_product decoded_shape input_dims product
  end.

(** The loop over the output dimensions, with the place of the automatic one. *)
Fixpoint encoded_dims_loop (decoded_shape : list Z) (output_dims : list ReshapeDim) (encoded_shape : list Z) (fill_index : option nat)
    : outcome CodecError (list Z * option nat) :=
  match output_dims with
  | [] => Ok (encoded_shape, fill_index)
  | ReshapeSize size :: output_dims => encoded_dims_loop decoded_shape output_dims (encoded_shape ++ [size]) fill_index
  | ReshapeInputDims input_dims :: output_dims =>
      let? product := input_product decoded_shape input_dims 1 in
      encoded_dims_loop decoded_shape output_dims (encoded_shape ++ [product]) fill_index
  | ReshapeAuto :: output_dims => encoded_dims_loop decoded_shape output_dims (encoded_shape ++ [1]) (Some (length encoded_shape))
  end.

Definition get_encoded_shape (reshape_shape : ReshapeShape) (decoded_shape : list Z) : outcome CodecError (list Z) :=
  let? dims := encoded_dims_loop decoded_shape reshape_shape [] None in
  let '(encoded_shape, fill_index) := dims in
  let? num_elements_input := ok_or CodecOther (checked_product decoded_shape) in
  let? num_elements_output := ok_or CodecOther (checked_product encoded_shape) in
  match fill_index with
  | Some fill_index =>
      let '(quot, rem) := (num_elements_input / num_elements_output, num_elements_input mod num_elements_output) in
      if rem =? 0 then
        (* a [NonZeroU64] *)
        let? quot := expect (if quot =? 0 then None else Some quot) in
        Ok (<[fill_index := quot]> encoded_shape)
      else Err CodecOther
  | None => if negb (num_elements_input =? num_elements_output) then Err CodecOther else Ok encoded_shape
  end.

(** The indices in the encoded chunk of the elements of a region of the decoded chunk, in their order. *)
Definition get_reshaped_indexer (indexer : ArraySubset) (decoded_shape encoded_shape : list Z) : outcome CodecError (list (list Z)) :=
  if negb (dimensionality indexer =? length decoded_shape)%nat then
    Err (IncompatibleIndexer (IdxIncompatibleDimensionality (dimensionality indexer) (length decoded_shape)))
  else
    let? linear_indices := map_err IncompatibleIndexer (linearised_indices indexer decoded_shape) in
    collect_res ((λ linear_index,
      let? indices := map_err (λ _ : unit, CodecOther) (array_unravel_index linear_index encoded_shape) in
      ok_or CodecOther indices) <$> linear_indices).

(** ** The mapping of grids *)

Inductive GridMapping :=
| MapIdentity
| MapInputDimPartitions (partitions : list (list nat))
| MapRepeated (decoded_chunk_shape encoded_chunk_shape repeats : list Z)
| MapChunkLocal
| MapInvalidShape (e : CodecError)
| MapUnrepresentable.

(** The chunk shape, when every chunk has the same. *)
Fixpoint regular_dims (chunk_grid : ChunkGrid) (dims : list nat) : outcome GridError (option (list Z)) :=
  match dims with
  | [] => Ok (Some [])
  | dim :: dims =>
      let? edge_lengths := chunk_edge_lengths chunk_grid dim in
      match head edge_lengths with
      | None => Ok None
      | Some first =>
          if existsb (λ edge_length, negb (edge_length =? first)) edge_lengths then Ok None
          else let? rest := regular_dims chunk_grid dims in Ok (cons first <$> rest)
      end
  end.

Definition regular_chunk_shape (chunk_grid : ChunkGrid) : outcome GridError (option (list Z)) :=
  regular_dims chunk_grid (seq 0 (grid_dimensionality chunk_grid)).

(** Marking the input dimensions of one output dimension as seen. *)
Fixpoint mark_seen (seen : list bool) (input_dims : list nat) : option (list bool) :=
  match input_dims with
  | [] => Some seen
  | input_dim :: input_dims =>
      s ← seen !! input_dim;
      if s : bool then None else mark_seen (<[input_dim := true]> seen) input_dims
  end.

Fixpoint partitions_loop (reshape_shape : ReshapeShape) (seen : list bool) : option (list (list nat) * list bool) :=
  match reshape_shape with
  | [] => Some ([], seen)
  | ReshapeInputDims input_dims :: reshape_shape =>
      match input_dims with
      | [] => None
      | _ =>
          let input_dims := Z.to_nat <$> input_dims in
          seen ← mark_seen seen input_dims;
          '(rest, seen) ← partitions_loop reshape_shape seen;
          Some (input_dims :: rest, seen)
      end
  | _ => None
  end.

Definition input_dim_partitions (reshape_shape : ReshapeShape) (decoded_dimensionality : nat) : option (list (list nat)) :=
  '(partitions, seen) ← partitions_loop reshape_shape (replicate decoded_dimensionality false);
  if forallb id seen then Some partitions else None.

Definition input_dim_partitions_are_identity (partitions : list (list nat)) : bool :=
  forallb (λ p : nat * list nat, bool_decide (p.2 = [p.1])) (imap pair partitions).

(** The products of an edge of every list, the last list varying fastest. *)
Fixpoint cartesian_loop (products : list Z) (edge_lengths : list (list Z)) : option (list Z) :=
  match edge_lengths with
  | [] => Some products
  | edges :: edge_lengths =>
      capacity ← checked_mul (zlen products) (zlen edges);
      next ← collect_opt (products ≫= λ product, (λ edge, checked_mul product edge) <$> edges);
      cartesian_loop next edge_lengths
  end.

Definition cartesian_product_edge_lengths (edge_lengths : list (list Z)) : option (list Z) := cartesian_loop [1] edge_lengths.

Definition rectilinear_chunk_grid (array_shape : list Z) (edge_lengths : list (list Z)) : outcome GridError ChunkGrid :=
  let? chunk_shapes := collect_res (encode_lengths <$> edge_lengths) in
  let? grid := RectilinearChunkGrid_new array_shape chunk_shapes in
  Ok (ChunkGrid_new grid).

(** Going on with a value, and stopping with [Ok(None)] without one. *)
Definition or_none {E A B} (x : outcome E (option A)) (f : A → outcome E (option B)) : outcome E (option B) :=
  let? x := x in match x with Some a => f a | None => Ok None end.

Notation "'let?!' x := m 'in' k" := (or_none m (fun x => k)) (at level 10, x pattern, m at level 100, k at level 200).

(** The edges of some dimensions of a grid. *)
Definition dims_edge_lengths (grid : ChunkGrid) (dims : list nat) : outcome GridError (list (list Z)) :=
  collect_res (chunk_edge_lengths grid <$> dims).

(** The loop over the partitions: the extents and the edges of the encoded dimensions. *)
Fixpoint partition_edges (decoded_chunk_grid : ChunkGrid) (partitions : list (list nat)) : outcome GridError (option (list (Z * list Z))) :=
  match partitions with
  | [] => Ok (Some [])
  | partition :: partitions =>
      let? partition_edge_lengths := dims_edge_lengths decoded_chunk_grid partition in
      let?! encoded_edge_lengths := Ok (cartesian_product_edge_lengths partition_edge_lengths) in
      let?! encoded_dim_shape := Ok (checked_sum encoded_edge_lengths) in
      let?! rest := partition_edges decoded_chunk_grid partitions in
      Ok (Some ((encoded_dim_shape, encoded_edge_lengths) :: rest))
  end.

Definition encoded_chunk_grid_for_input_dim_partitions (partitions : list (list nat)) (decoded_chunk_grid : ChunkGrid)
    : outcome GridError (option ChunkGrid) :=
  let?! dims := partition_edges decoded_chunk_grid partitions in
  let? grid := rectilinear_chunk_grid dims.*1 dims.*2 in Ok (Some grid).

Definition repeat_shape (grid_shape : list Z) (dimensionality : nat) : option (list Z) :=
  if (dimensionality =? 0)%nat then None
  else
    num_chunks ← checked_product grid_shape;
    Some (<[(dimensionality - 1)%nat := num_chunks]> (replicate dimensionality 1)).

Definition repeat_chunk_grid (repeats : list Z) (inner_chunk_grid : ChunkGrid) : outcome GridError (option ChunkGrid) :=
  match RepeatChunkGrid_new repeats inner_chunk_grid with
  | Ok chunk_grid => Ok (Some (ChunkGrid_new chunk_grid))
  | Err (ZeroRepeat _) | Err ShapeOverflow => Ok None
  | Err err => Err (repeat_create_error err)
  | Panic => Panic
  end.

Definition repeated_chunk_grid (chunk_shape repeats : list Z) : outcome GridError (option ChunkGrid) :=
  let? inner_chunk_grid := RegularChunkGrid_new chunk_shape chunk_shape in
  repeat_chunk_grid repeats (ChunkGrid_new inner_chunk_grid).

Definition grid_mapping (reshape_shape : ReshapeShape) (decoded_chunk_grid : ChunkGrid) : outcome GridError GridMapping :=
  match input_dim_partitions reshape_shape (grid_dimensionality decoded_chunk_grid) with
  | Some partitions =>
      Ok (if input_dim_partitions_are_identity partitions then MapIdentity else MapInputDimPartitions partitions)
  | None =>
      let? decoded_chunk_shape := regular_chunk_shape decoded_chunk_grid in
      match decoded_chunk_shape with
      | None => Ok MapChunkLocal
      | Some decoded_chunk_shape =>
          match get_encoded_shape reshape_shape decoded_chunk_shape with
          | Err err => Ok (MapInvalidShape err)
          | Panic => Panic
          | Ok encoded_chunk_shape =>
              if bool_decide (encoded_chunk_shape = decoded_chunk_shape) then Ok MapIdentity
              else
                match repeat_shape (grid_shape decoded_chunk_grid) (length encoded_chunk_shape) with
                | None => Ok MapUnrepresentable
                | Some repeats => Ok (MapRepeated decoded_chunk_shape encoded_chunk_shape repeats)
                end
          end
      end
  end.

Definition reshape_encoded_chunk_grid (reshape_shape : ReshapeShape) (decoded_chunk_grid : ChunkGridMapped) : outcome GridError ChunkGridMapped :=
  match decoded_chunk_grid with
  | MappedArray grid =>
      if contains_zero (array_shape grid) then Ok MappedNone
      else
        let? mapping := grid_mapping reshape_shape grid in
        match mapping with
        | MapIdentity => Ok (MappedArray grid)
        | MapInputDimPartitions partitions =>
            let? encoded := encoded_chunk_grid_for_input_dim_partitions partitions grid in Ok (mapped_of_option encoded)
        | MapRepeated _ encoded_chunk_shape repeats =>
            let? encoded := repeated_chunk_grid encoded_chunk_shape repeats in Ok (mapped_of_option encoded)
        | MapChunkLocal => Ok MappedChunkLocal
        | MapInvalidShape _ | MapUnrepresentable => Ok MappedNone
        end
  | _ => Ok decoded_chunk_grid
  end.

(** ** Subchunks back to the decoded chunks *)

(** The refined edges that make up one outer edge: they are taken until they sum to it. *)
Fixpoint split_group (outer_edge sum : Z) (refined : list Z) : option (list Z * list Z) :=
  if sum <? outer_edge then
    match refined with
    | [] => None
    | edge :: refined =>
        sum ← checked_add sum edge;
        if outer_edge <? sum then None
        else '(group, refined) ← split_group outer_edge sum refined; Some (edge :: group, refined)
    end
  else Some ([], refined).

Fixpoint split_groups (outer_edges refined : list Z) : option (list (list Z) * list Z) :=
  match outer_edges with
  | [] => Some ([], refined)
  | outer_edge :: outer_edges =>
      '(group, refined) ← split_group outer_edge 0 refined;
      '(groups, refined) ← split_groups outer_edges refined;
      Some (group :: groups, refined)
  end.

Definition split_edge_refinements (outer_edges refined_edges : list Z) : option (list (list Z)) :=
  '(groups, refined) ← split_groups outer_edges refined_edges;
  match refined with [] => Some groups | _ => None end.

(** The digits of an index, and what is left of it; a division by zero panics. *)
Fixpoint unravel_digits {E} (index : Z) (sh : list Z) : outcome E (list Z * Z) :=
  match sh with
  | [] => Ok ([], index)
  | size :: sh =>
      let? digits := unravel_digits index sh in
      let '(indices, index) := digits in
      if size =? 0 then Panic else Ok (index mod size :: indices, index / size)
  end.

Definition unravel_flat_index {E} (index : Z) (sh : list Z) : outcome E (list Z) :=
  let? digits := unravel_digits index sh in Ok digits.1.

(** The loop that divides intervals by the [trailing] extents until they sum to the extent of the pivot: the edges and
    their sum. *)
Fixpoint pivot_loop (trailing pivot_shape : Z) (intervals : list Z) (pivot_sum : Z) : option (list Z * Z) :=
  match intervals with
  | [] => Some ([], pivot_sum)
  | interval :: intervals =>
      if negb (interval mod trailing =? 0) then Some ([], pivot_sum)
      else
        let edge := interval / trailing in
        pivot_sum ← checked_add pivot_sum edge;
        if pivot_shape <? pivot_sum then Some ([], pivot_sum)
        else if pivot_sum =? pivot_shape then (if edge =? 0 then None else Some ([edge], pivot_sum))
        else
          if edge =? 0 then None
          else '(edges, pivot_sum) ← pivot_loop trailing pivot_shape intervals pivot_sum; Some (edge :: edges, pivot_sum)
  end.

(** The loop over the pivots. *)
Fixpoint pivots_loop (sh intervals : list Z) (pivots : list nat) : option (list (list Z)) :=
  match pivots with
  | [] => None
  | pivot :: pivots =>
      trailing ← checked_product (drop (S pivot) sh);
      outer_repeats ← checked_product (take pivot sh);
      pivot_shape ← sh !! pivot;
      '(pivot_edges, pivot_sum) ← pivot_loop trailing pivot_shape intervals 0;
      if negb (pivot_sum =? pivot_shape) then pivots_loop sh intervals pivots
      else
        expected_len ← checked_mul (zlen pivot_edges) outer_repeats;
        if negb (zlen intervals =? expected_len) then pivots_loop sh intervals pivots
        else
          expected_intervals ← collect_opt (seq 0 (Z.to_nat outer_repeats) ≫= λ _, (λ edge, checked_mul edge trailing) <$> pivot_edges);
          if negb (bool_decide (intervals = expected_intervals)) then pivots_loop sh intervals pivots
          else Some (((λ dim, replicate (Z.to_nat dim) 1) <$> take pivot sh) ++ [pivot_edges] ++ ((λ dim, [dim]) <$> drop (S pivot) sh))
  end.

Definition rectilinear_edge_lengths_from_intervals (sh intervals : list Z) : option (list (list Z)) :=
  num_elements ← checked_product sh;
  sum ← checked_sum intervals;
  if negb (sum =? num_elements) then None
  else pivots_loop sh intervals (seq 0 (length sh)).

(** Whether the edges are contiguous intervals: those before the pivot are of one element, those after it whole. *)
Definition contiguous_at (sh : list Z) (edge_lengths : list (list Z)) (pivot : nat) : bool :=
  forallb (λ edges, forallb (λ edge, edge =? 1) edges) (take pivot edge_lengths) &&
  zip_all (λ edges dim, bool_decide (edges = [dim])) (drop (S pivot) edge_lengths) (drop (S pivot) sh).

Definition rectilinear_grid_to_intervals (sh : list Z) (grid : ChunkGrid) : outcome GridError (option (list Z)) :=
  if negb (grid_dimensionality grid =? length sh)%nat || negb (zip_all Z.eqb (array_shape grid) sh) then Ok None
  else
    let? edge_lengths := dims_edge_lengths grid (seq 0 (grid_dimensionality grid)) in
    if existsb (contiguous_at sh edge_lengths) (seq 0 (length sh)) then Ok (cartesian_product_edge_lengths edge_lengths)
    else Ok None.

Definition rectilinear_grid_from_intervals (sh intervals : list Z) : outcome GridError (option ChunkGrid) :=
  let?! edge_lengths := Ok (rectilinear_edge_lengths_from_intervals sh intervals) in
  let? grid := rectilinear_chunk_grid sh edge_lengths in Ok (Some grid).

Definition reshape_rectilinear_grid (source_shape target_shape : list Z) (source_grid : ChunkGrid) : outcome GridError (option ChunkGrid) :=
  if negb (grid_dimensionality source_grid =? length source_shape)%nat then Err GridCreateOther
  else
    let?! intervals := rectilinear_grid_to_intervals source_shape source_grid in
    rectilinear_grid_from_intervals target_shape intervals.

(** The edges found for the chunks of each dimension. *)
Abbreviation local_edges_map := (list (list (option (list Z)))).

(** The loop over the dimensions of one partition: [Ok(None)] when a chunk is refined in two ways. *)
Fixpoint set_local_edges (local_edges : local_edges_map) (dims : list (nat * Z * list Z)) : outcome GridError (option local_edges_map) :=
  match dims with
  | [] => Ok (Some local_edges)
  | (decoded_dim, outer_index, edges) :: dims =>
      let? row := expect (local_edges !! decoded_dim) in
      let? candidate := index row outer_index in
      if match candidate with Some candidate => negb (bool_decide (candidate = edges)) | None => false end then Ok None
      else set_local_edges (<[decoded_dim := <[Z.to_nat outer_index := Some edges]> row]> local_edges) dims
  end.

(** The loop over the outer chunks of one partition. *)
Fixpoint partition_chunks (partition : list nat) (decoded_edge_lengths : list (list Z)) (partition_grid_shape : list Z)
    (flat_index : Z) (refined_by_outer_chunk : list (list Z)) (local_edges : local_edges_map) : outcome GridError (option local_edges_map) :=
  match refined_by_outer_chunk with
  | [] => Ok (Some local_edges)
  | intervals :: refined_by_outer_chunk =>
      let? indices := unravel_flat_index flat_index partition_grid_shape in
      let? decoded_local_shape := collect_res (zip_with (λ dim outer_index,
        let? edges := expect (decoded_edge_lengths !! dim) in index edges outer_index) partition indices) in
      let?! decoded_local_edges := Ok (rectilinear_edge_lengths_from_intervals decoded_local_shape intervals) in
      let?! local_edges := set_local_edges local_edges (zip (zip partition indices) decoded_local_edges) in
      partition_chunks partition decoded_edge_lengths partition_grid_shape (flat_index + 1) refined_by_outer_chunk local_edges
  end.

(** The loop over the partitions. *)
Fixpoint refine_partitions (encoded_subchunk_grid : ChunkGrid) (decoded_edge_lengths : list (list Z)) (encoded_dim : nat)
    (partitions : list (list nat)) (local_edges : local_edges_map) : outcome GridError (option local_edges_map) :=
  match partitions with
  | [] => Ok (Some local_edges)
  | partition :: partitions =>
      let? partition_edges := collect_res ((λ dim, expect (decoded_edge_lengths !! dim)) <$> partition) in
      let?! encoded_outer_edges := Ok (cartesian_product_edge_lengths partition_edges) in
      let? refined_edges := chunk_edge_lengths encoded_subchunk_grid encoded_dim in
      let?! refined_by_outer_chunk := Ok (split_edge_refinements encoded_outer_edges refined_edges) in
      let partition_grid_shape := (λ edges, zlen edges) <$> partition_edges in
      let?! local_edges := partition_chunks partition decoded_edge_lengths partition_grid_shape 0 refined_by_outer_chunk local_edges in
      refine_partitions encoded_subchunk_grid decoded_edge_lengths (S encoded_dim) partitions local_edges
  end.

(** The edges of one dimension, in order; an outer chunk without edges contributes none. *)
Definition flatten_row (row : list (option (list Z))) : list Z := row ≫= default [].

Definition decoded_subchunk_grid_for_input_dim_partitions (partitions : list (list nat)) (decoded_chunk_grid encoded_subchunk_grid : ChunkGrid)
    : outcome GridError (option ChunkGrid) :=
  if negb (grid_dimensionality encoded_subchunk_grid =? length partitions)%nat then Err GridCreateOther
  else
    let? decoded_edge_lengths := dims_edge_lengths decoded_chunk_grid (seq 0 (grid_dimensionality decoded_chunk_grid)) in
    let local_edges := (λ edges : list Z, replicate (length edges) None) <$> decoded_edge_lengths in
    let?! local_edges := refine_partitions encoded_subchunk_grid decoded_edge_lengths 0 partitions local_edges in
    let? grid := rectilinear_chunk_grid (array_shape decoded_chunk_grid) (flatten_row <$> local_edges) in
    Ok (Some grid).

(** The loop over the dimensions of the tile: every tile is refined in the same way. *)
Fixpoint tile_edges (encoded_subchunk_grid : ChunkGrid) (dim : nat) (chunk_edges_repeats : list (Z * Z)) : outcome GridError (option (list (list Z))) :=
  match chunk_edges_repeats with
  | [] => Ok (Some [])
  | (chunk_edge, repeat) :: chunk_edges_repeats =>
      let outer_edges := replicate (Z.to_nat repeat) chunk_edge in
      let? refined_edges := chunk_edge_lengths encoded_subchunk_grid dim in
      let?! refined_tiles := Ok (split_edge_refinements outer_edges refined_edges) in
      let?! first := Ok (head refined_tiles) in
      if existsb (λ tile, negb (bool_decide (tile = first))) refined_tiles then Ok None
      else
        let?! rest := tile_edges encoded_subchunk_grid (S dim) chunk_edges_repeats in
        Ok (Some (first :: rest))
  end.

Definition decoded_subchunk_grid_for_repeated_chunks (decoded_chunk_grid encoded_subchunk_grid : ChunkGrid)
    (decoded_chunk_shape encoded_chunk_shape repeats : list Z) : outcome GridError (option ChunkGrid) :=
  if negb (grid_dimensionality encoded_subchunk_grid =? length encoded_chunk_shape)%nat then Err GridCreateOther
  else
    let?! local_encoded_edges := tile_edges encoded_subchunk_grid 0 (zip encoded_chunk_shape repeats) in
    let? local_encoded_grid := rectilinear_chunk_grid encoded_chunk_shape local_encoded_edges in
    let?! local_decoded_grid := reshape_rectilinear_grid encoded_chunk_shape decoded_chunk_shape local_encoded_grid in
    repeat_chunk_grid (grid_shape decoded_chunk_grid) local_decoded_grid.

Definition reshape_decoded_subchunk_grid (reshape_shape : ReshapeShape) (decoded_chunk_grid encoded_subchunk_grid : ChunkGridMapped)
    : outcome GridError ChunkGridMapped :=
  match encoded_subchunk_grid, decoded_chunk_grid with
  | MappedArray subchunk_grid, MappedArray grid =>
      if contains_zero (array_shape grid) then Ok MappedNone
      else
        let? mapping := grid_mapping reshape_shape grid in
        match mapping with
        | MapIdentity =>
            if negb (grid_dimensionality subchunk_grid =? grid_dimensionality grid)%nat then Err GridCreateOther
            else Ok (MappedArray subchunk_grid)
        | MapInputDimPartitions partitions =>
            let? decoded := decoded_subchunk_grid_for_input_dim_partitions partitions grid subchunk_grid in Ok (mapped_of_option decoded)
        | MapRepeated decoded_chunk_shape encoded_chunk_shape repeats =>
            let? decoded := decoded_subchunk_grid_for_repeated_chunks grid subchunk_grid decoded_chunk_shape encoded_chunk_shape repeats in
            Ok (mapped_of_option decoded)
        | MapInvalidShape _ => Err GridCreateOther
        | MapChunkLocal | MapUnrepresentable => Ok MappedNone
        end
  | MappedArray _, _ => Ok MappedNone
  | _, _ => Ok encoded_subchunk_grid
  end.

(** ** The codec *)

Record ReshapeCodecBound := mk_reshape { rs_shape : ReshapeShape; rs_data_type : DataType; rs_fill_value : FillValue }.

#[export] Instance reshape_subchunking : ArrayToArrayCodecSubchunkingTraits ReshapeCodecBound := {|
  encoded_chunk_grid self := reshape_encoded_chunk_grid (rs_shape self);
  decoded_subchunk_grid self := reshape_decoded_subchunk_grid (rs_shape self) |}.

Definition reshape_encode (bytes : ArrayBytes) (shape : list Z) (options : CodecOptions) : outcome CodecError ArrayBytes := Ok bytes.

Definition reshape_decode (bytes : ArrayBytes) (shape : list Z) (options : CodecOptions) : outcome CodecError ArrayBytes := Ok bytes.

Definition reshape_encoded_shape (self : ReshapeCodecBound) (decoded_shape : list Z) : outcome CodecError (list Z) :=
  get_encoded_shape (rs_shape self) decoded_shape.

(** [with_context] of the codec with the shape [sh]. *)
Definition reshape_with_context (sh : ReshapeShape) (data_type : DataType) (fill_value : FillValue) : ReshapeCodecBound :=
  mk_reshape sh data_type fill_value.

(** [map_local_subchunk_grid] of the partial decoder. *)
Definition map_local_subchunk_grid (decoded_shape encoded_shape : list Z) (encoded_subchunk_grid : ChunkGrid) : outcome CodecError (option ChunkGrid) :=
  map_err (λ _, CodecOther) (reshape_rectilinear_grid encoded_shape decoded_shape encoded_subchunk_grid).

(** [local_subchunk_grids] of the partial decoder, from those of the handle it reads. *)
Definition reshape_local_subchunk_grids (decoded_shape encoded_shape : list Z) (grids : list (option ChunkGrid))
    : outcome CodecError (list (option ChunkGrid)) :=
  collect_res ((λ grid, match grid with Some grid => map_local_subchunk_grid decoded_shape encoded_shape grid | None => Ok None end) <$> grids).
