(* ===== verification/ReshapeGrids.v ===== *)
(** Edges as intervals of the elements in row-major order, and chunk grids through a reshape of one chunk, and through the
    repetition of one. *)

From S2P Require Import Prelude ArraySubset Linear Iterators ChunkGrid RegularGrid RectilinearGrid RepeatGrid ByteRange StoreKey.
From S2P Require Import Storage ArrayBytes Elements StoreProgram DecodeInto Concurrency Codec ArrayToArray CodecChain Sharding.
From S2P Require Import Transpose ChunkEdges Subchunking SubchunkLaws SubchunkCodecs SubchunkTheorems Reshape.

(** ** Blocks *)

Lemma lookup_blocks {A B} (f : A → list B) l n i k : (∀ x, x ∈ l → length (f x) = n) → (k < n)%nat →
  (l ≫= f) !! (i * n + k)%nat = x ← l !! i; f x !! k.
Proof.
  intros Hn Hk. revert i. induction l as [|x l IH]; intros i; [done|]. cbn [mbind list_bind].
  pose proof (Hn x ltac:(left)) as Hx. destruct i as [|i].
  - rewrite Nat.mul_0_l, Nat.add_0_l, lookup_app_l by lia. done.
  - rewrite lookup_app_r by lia. replace (S i * n + k - length (f x))%nat with (i * n + k)%nat by lia. apply IH. intros y Hy. apply Hn. by right.
Qed.

Lemma length_blocks {A B} (f : A → list B) l n : (∀ x, x ∈ l → length (f x) = n) → length (l ≫= f) = (length l * n)%nat.
Proof.
  intros Hn. induction l as [|x l IH]; [done|]. cbn [mbind list_bind length]. rewrite length_app, IH, Hn; [lia|left|].
  intros y Hy. apply Hn. by right.
Qed.

Lemma Zsum_bind {A} (f : A → list Z) l : Zsum (l ≫= f) = Zsum ((λ x, Zsum (f x)) <$> l).
Proof. induction l as [|x l IH]; [done|]. cbn [mbind list_bind fmap list_fmap]. by rewrite Zsum_app, Zsum_cons, IH. Qed.

Lemma Zsum_scaled m l : Zsum (Z.mul m <$> l) = m * Zsum l.
Proof. induction l as [|x l IH]; [change (0 = m * 0); lia|]. rewrite fmap_cons, !Zsum_cons, IH. lia. Qed.

Lemma Zsum_scaled_r m l : Zsum ((λ x, x * m) <$> l) = Zsum l * m.
Proof. induction l as [|x l IH]; [done|]. rewrite fmap_cons, !Zsum_cons, IH. lia. Qed.

Lemma Zprod_ones n : Zprod (replicate n 1) = 1.
Proof. induction n as [|n IH]; [done|]. cbn [replicate]. rewrite Zprod_cons, IH. lia. Qed.

(** ** Products of edges *)

(** The products of an edge of each row. *)
Fixpoint cart (Es : list (list Z)) : list Z :=
  match Es with [] => [1] | E :: Es => E ≫= λ e, Z.mul e <$> cart Es end.

Lemma collect_opt_fmap {A B} (f : A → option B) (g : A → B) l r : (∀ x y, f x = Some y → y = g x) → collect_opt (f <$> l) = Some r → r = g <$> l.
Proof.
  intros Hf. revert r. induction l as [|x l IH]; intros r Hr; [by injection Hr as <-|]. cbn [fmap list_fmap collect_opt] in *.
  destruct (f x) as [y|] eqn:Hx; [|done]. cbn [mbind option_bind] in Hr. destruct (collect_opt (f <$> l)) as [k|]; [|done]. injection Hr as <-.
  by rewrite (Hf x y Hx), (IH k eq_refl).
Qed.

Lemma cart_step products E (K : list Z) :
  (products ≫= λ p, Z.mul p <$> E) ≫= (λ q, Z.mul q <$> K) = products ≫= λ p, Z.mul p <$> (E ≫= λ e, Z.mul e <$> K).
Proof.
  induction products as [|p ps IH]; [done|]. cbn [mbind list_bind]. rewrite bind_app, IH. f_equal. clear. rewrite list_fmap_of_bind.
  induction E as [|e E IH]; [done|]. cbn [fmap list_fmap mbind list_bind]. rewrite IH. f_equal. rewrite <-list_fmap_compose.
  apply list_fmap_ext. intros _ x _. simpl. lia.
Qed.

Lemma cartesian_loop_cart products Es r : cartesian_loop products Es = Some r → r = products ≫= λ p, Z.mul p <$> cart Es.
Proof.
  revert products. induction Es as [|E Es IH]; intros products Hr; cbn [cartesian_loop] in Hr.
  { injection Hr as <-. cbn [cart]. induction products as [|p ps IH]; [done|]. cbn [mbind list_bind fmap list_fmap app] in *. rewrite Z.mul_1_r. by f_equal. }
  destruct (checked_mul _ _); [|done]. cbn [mbind option_bind] in Hr.
  destruct (collect_opt (products ≫= λ product, (λ edge, checked_mul product edge) <$> E)) as [next|] eqn:Hc; [|done]. cbn [mbind option_bind] in Hr.
  rewrite (IH next Hr). cbn [cart]. rewrite <-cart_step. f_equal.
  assert ((products ≫= λ product, (λ edge, checked_mul product edge) <$> E) = (λ pe, checked_mul pe.1 pe.2) <$> (products ≫= λ p, pair p <$> E)) as Heq.
  { rewrite list_fmap_of_bind. apply list_bind_ext; [|done]. intros p. by rewrite <-list_fmap_compose. }
  rewrite Heq in Hc. apply (collect_opt_fmap _ (λ pe, pe.1 * pe.2)) in Hc as ->; [|by intros [a b] y [-> _]%checked_mul_Some].
  rewrite list_fmap_of_bind. apply list_bind_ext; [|done]. intros p. by rewrite <-list_fmap_compose.
Qed.

Lemma cartesian_cart Es r : cartesian_product_edge_lengths Es = Some r → r = cart Es.
Proof.
  intros Hr. rewrite (cartesian_loop_cart _ _ _ Hr). cbn [mbind list_bind]. rewrite app_nil_r.
  rewrite <-(list_fmap_id (cart Es)) at 2. apply list_fmap_ext. intros _ x _. cbn [id]. lia.
Qed.

Section cart.
Implicit Types Es : list (list Z).

Lemma cart_pos Es : Forall edges_pos Es → edges_pos (cart Es).
Proof.
  induction 1 as [|E Es HE HEs IH]; [by repeat constructor|]. cbn [cart]. apply Forall_bind. eapply Forall_impl; [exact HE|].
  intros e He. apply Forall_fmap. eapply Forall_impl; [exact IH|]. intros x Hx. cbv beta in *. simpl. nia.
Qed.

Lemma length_cart Es : zlen (cart Es) = Zprod (edge_counts Es).
Proof.
  induction Es as [|E Es IH]; [done|]. cbn [cart]. rewrite fmap_cons, Zprod_cons, <-IH.
  rewrite (length_blocks _ _ (length (cart Es))) by (intros; by rewrite length_fmap). by rewrite Nat2Z.inj_mul.
Qed.

Lemma Zsum_cart Es : Zsum (cart Es) = Zprod (Zsum <$> Es).
Proof.
  induction Es as [|E Es IH]; [done|]. cbn [cart]. rewrite Zsum_bind, fmap_cons, Zprod_cons, <-IH.
  rewrite <-Zsum_scaled_r. f_equal. apply list_fmap_ext. intros _ e _. by rewrite Zsum_scaled.
Qed.

(** The product at the linear index of some intervals is that of their edges. *)
Lemma cart_at Es c : index_in c (edge_counts Es) → zat (cart Es) (lin c (edge_counts Es)) = Zprod (edge_sizes Es c).
Proof.
  revert c. induction Es as [|E Es IH]; intros c Hc; inversion Hc as [|i ? c' ? Hi Hc']; subst; [done|]. cbn [cart lin fmap list_fmap].
  cbv beta in Hi. change (list_fmap _ _ _ Es) with (edge_counts Es) in *. pose proof (lin_bound _ _ Hc') as Hb. rewrite <-length_cart in *. specialize (IH c' Hc'). unfold edge_sizes in *. cbn [zip_with]. rewrite Zprod_cons, <-IH.
  rewrite Z2Nat.inj_add, Z2Nat.inj_mul, Nat2Z.id by (try apply Z.mul_nonneg_nonneg; lia).
  apply list_lookup_total_correct. rewrite (lookup_blocks _ _ (length (cart Es))) by (try (intros; by rewrite length_fmap); lia).
  rewrite (list_lookup_lookup_total_lt E) by lia. cbn [mbind option_bind]. rewrite list_lookup_fmap, list_lookup_lookup_total_lt by lia. done.
Qed.
End cart.

(** ** Refined edges *)

(** The groups are refinements of the edges [E]. *)
Definition refines (E : list Z) (groups : list (list Z)) : Prop := Forall2 (λ e G, edges_pos G ∧ Zsum G = e) E groups.

Lemma refines_sum E groups : refines E groups → Zsum (concat groups) = Zsum E.
Proof. induction 1 as [|e G E groups [_ He] H IH]; [done|]. cbn [concat]. by rewrite Zsum_app, Zsum_cons, He, IH. Qed.

Lemma refines_pos E groups : refines E groups → edges_pos E → edges_pos (concat groups).
Proof.
  intros H _. induction H as [|e G E groups [HG _] H IH]; [constructor|]. cbn [concat]. by apply Forall_app.
Qed.

(** An element of the refined edges is in its group, where it is in its edge. *)
Lemma refines_cell E groups x : refines E groups → edges_pos E → 0 <= x < Zsum E →
  let c := edge_cell E x in
  edge_cell (concat groups) x = zlen (concat (take (Z.to_nat c) groups)) + edge_cell (zat groups c) (x - edge_start E c).
Proof.
  intros H HE. revert x. induction H as [|e G E groups [HG HGe] H IH]; intros x Hx; [change (Zsum []) with 0 in Hx; lia|].
  apply Forall_cons in HE as [He HE]. rewrite Zsum_cons in Hx. cbn [edge_cell concat]. destruct (Z.ltb_spec x e) as [Hlt|Hge]; cbv zeta.
  - rewrite cell_app_l by (done || lia). rewrite edge_start_0. change (Z.to_nat 0) with 0%nat. cbn [take concat length]. rewrite Z.sub_0_r. simpl. lia.
  - rewrite cell_app_r by (done || lia). rewrite HGe, IH by (done || lia). cbv zeta. destruct (cell_spec E (x - e) HE ltac:(lia)) as [Hc _].
    rewrite edge_start_cons by lia. replace (1 + edge_cell E (x - e) - 1) with (edge_cell E (x - e)) by lia.
    replace (Z.to_nat (1 + edge_cell E (x - e))) with (S (Z.to_nat (edge_cell E (x - e)))) by lia. cbn [take concat].
    change ((G :: groups) !!! S ?k) with (groups !!! k). rewrite length_app.
    replace (x - e - edge_start E (edge_cell E (x - e))) with (x - (e + edge_start E (edge_cell E (x - e)))) by lia. lia.
Qed.

(** Elements of one edge are in one refined edge when they are in one of its group. *)
Lemma refines_same E groups x x' : refines E groups → edges_pos E → 0 <= x < Zsum E → 0 <= x' < Zsum E → edge_cell E x = edge_cell E x' →
  let c := edge_cell E x in
  edge_cell (concat groups) x = edge_cell (concat groups) x' ↔
  edge_cell (zat groups c) (x - edge_start E c) = edge_cell (zat groups c) (x' - edge_start E c).
Proof. intros H HE Hx Hx' Hc. cbv zeta. rewrite !(refines_cell E groups) by done. cbv zeta. rewrite Hc. lia. Qed.

Lemma split_group_spec outer sum refined group rest : 0 <= sum → edges_pos refined → Zsum refined + sum < u64_modulus →
  split_group outer sum refined = Some (group, rest) →
  refined = group ++ rest ∧ (sum < outer → sum + Zsum group = outer) ∧ (outer <= sum → group = []).
Proof.
  intros H0 Href. revert sum group rest H0. induction Href as [|e refined He Href IH]; intros sum group rest H0 Hu Hs; cbn [split_group] in Hs.
  - destruct (Z.ltb_spec sum outer); [done|]. injection Hs as <- <-. split_and!; [done|lia|done].
  - rewrite Zsum_cons in Hu. pose proof (edges_pos_sum refined Href). destruct (Z.ltb_spec sum outer).
    + unfold checked_add in Hs. rewrite (proj2 (Z.ltb_lt _ _)) in Hs by lia. cbn [mbind option_bind] in Hs.
      destruct (Z.ltb_spec outer (sum + e)); [done|].
      destruct (split_group outer (sum + e) refined) as [[group' rest']|] eqn:Hg; [|done]. injection Hs as <- <-.
      destruct (IH (sum + e) group' rest' ltac:(lia) ltac:(lia) Hg) as (-> & H3 & H4). split_and!; [done| |lia]. intros _. rewrite Zsum_cons.
      destruct (decide (sum + e < outer)); [rewrite <-H3 by lia; lia|]. rewrite H4 by lia. change (Zsum []) with 0. lia.
    + injection Hs as <- <-. split_and!; [done|lia|done].
Qed.

Lemma split_refines outer refined groups : edges_pos outer → edges_pos refined → Zsum refined < u64_modulus →
  split_edge_refinements outer refined = Some groups → refined = concat groups ∧ refines outer groups.
Proof.
  intros Ho Hr Hu. unfold split_edge_refinements. destruct (split_groups outer refined) as [[gs rest]|] eqn:Hs; [|done]. cbn [mbind option_bind].
  destruct rest; [|done]. intros [= <-].
  assert (∀ rest, split_groups outer refined = Some (gs, rest) → refined = concat gs ++ rest ∧ refines outer gs) as Hall;
    [|destruct (Hall [] Hs) as [H1 H2]; by rewrite app_nil_r in H1].
  clear Hs. revert refined gs Hr Hu. induction Ho as [|o outer Ho Houter IH]; intros refined gs Hr Hu rest Hs; cbn [split_groups] in Hs.
  { injection Hs as <- <-. by split; [|constructor]. }
  destruct (split_group o 0 refined) as [[g refined']|] eqn:Hg; [|done]. cbn [mbind option_bind] in Hs.
  destruct (split_groups outer refined') as [[gs' rest']|] eqn:Hgs; [|done]. injection Hs as <- <-.
  destruct (split_group_spec o 0 refined g refined' ltac:(lia) Hr ltac:(lia) Hg) as (-> & H2 & _). apply Forall_app in Hr as [Hrg Hr]. rewrite Zsum_app in Hu.
  pose proof (edges_pos_sum g Hrg). destruct (IH refined' gs' Hr ltac:(lia) rest' Hgs) as [-> H4]. split; [cbn [concat]; by rewrite <-app_assoc|].
  constructor; [|done]. split; [done|]. specialize (H2 Ho). lia.
Qed.

(** ** Edges that are intervals in row-major order *)

(** Edges of one element before a dimension, and whole ones after it. *)
Inductive pivot_form : list Z → list (list Z) → Prop :=
  | pivot_here d sh E : edges_pos E → Zsum E = d → pivot_form (d :: sh) (E :: ((λ d, [d]) <$> sh))
  | pivot_later d sh Es : pivot_form sh Es → pivot_form (d :: sh) (replicate (Z.to_nat d) 1 :: Es).

Definition copies {A} (n : nat) (l : list A) : list A := concat (replicate n l).

Section copies.
Context {A : Type}.
Implicit Types l : list A.

Lemma copies_seq k n l : (seq k n ≫= λ _, l) = copies n l.
Proof. revert k. induction n as [|n IH]; intros k; [done|]. cbn [seq mbind list_bind]. by rewrite IH. Qed.

Lemma copies_replicate {B} (a : B) n (f : B → list A) : (replicate n a ≫= f) = copies n (f a).
Proof. induction n as [|n IH]; [done|]. cbn [replicate mbind list_bind]. by rewrite IH. Qed.

Lemma copies_add m n l : copies (m + n) l = copies m l ++ copies n l.
Proof. unfold copies. by rewrite replicate_add, concat_app. Qed.

Lemma copies_mul m n l : copies (m * n) l = copies m (copies n l).
Proof. induction m as [|m IH]; [done|]. cbn [Nat.mul]. rewrite copies_add, IH. done. Qed.

Lemma copies_1 l : copies 1 l = l.
Proof. unfold copies. cbn [replicate concat]. by rewrite app_nil_r. Qed.
End copies.

Lemma refines_copies n e G : edges_pos G → Zsum G = e → refines (replicate n e) (replicate n G).
Proof. intros. unfold refines. apply Forall2_replicate. done. Qed.

(** Along a dimension of repeated edges. *)
Lemma copies_cell n d G q i : edges_pos G → Zsum G = d → 0 < d → 0 <= q < Z.of_nat n → 0 <= i < d →
  edge_cell (copies n G) (q * d + i) = q * zlen G + edge_cell G i.
Proof.
  intros HG HGd Hd Hq Hi. unfold copies. rewrite (refines_cell (replicate n d)); [|by apply refines_copies|by apply Forall_replicate|rewrite Zsum_replicate; nia].
  cbv zeta. rewrite cell_replicate by nia. rewrite Z.div_add_l, (Z.div_small i), Z.add_0_r by lia. rewrite take_replicate, Nat.min_l by lia.
  rewrite lookup_total_replicate_2 by lia. unfold edge_start. rewrite take_replicate, Nat.min_l, Zsum_replicate, Z2Nat.id by lia.
  assert (∀ n, zlen (concat (replicate n G)) = Z.of_nat n * zlen G) as Hlen.
  { clear. induction n as [|n IH]; [done|]. cbn [replicate concat]. rewrite length_app. lia. }
  rewrite Hlen. f_equal; [lia|]. f_equal. lia.
Qed.

Lemma cart_whole sh : cart ((λ d, [d]) <$> sh) = [Zprod sh].
Proof. induction sh as [|d sh IH]; [done|]. cbn [fmap list_fmap cart mbind list_bind]. by rewrite IH. Qed.

Lemma whole_cells sh ix : index_in ix sh → edge_cells ((λ d, [d]) <$> sh) ix = replicate (length sh) 0.
Proof.
  induction 1 as [|i d ix sh Hi H IH]; [done|]. unfold edge_cells in *. cbn [fmap list_fmap zip_with edge_cell length replicate].
  rewrite (proj2 (Z.ltb_lt _ _)) by lia. by rewrite IH.
Qed.

Lemma pivot_form_facts sh Es : pivot_form sh Es → Forall (λ d, 0 < d) sh → Forall edges_pos Es ∧ Zsum <$> Es = sh ∧ length Es = length sh.
Proof.
  intros Hp Hsh. induction Hp as [d ds E HE Hd|d ds Fs Hq IH]; apply Forall_cons in Hsh as [Hd0 Hds].
  - split_and!; [|cbn [fmap list_fmap]; f_equal; [done|]|simpl; by rewrite length_fmap].
    + constructor; [done|]. apply Forall_fmap. eapply Forall_impl; [exact Hds|]. intros x Hx. by repeat constructor.
    + rewrite <-list_fmap_compose. rewrite <-(list_fmap_id ds) at 2. apply list_fmap_ext. intros _ x _. simpl. rewrite Zsum_cons. change (Zsum []) with 0. lia.
  - destruct (IH Hds) as (I1 & I2 & I3). split_and!; [constructor; [by apply Forall_replicate|done]| |simpl; lia].
    cbn [fmap list_fmap]. rewrite I2, Zsum_replicate. f_equal. lia.
Qed.

(** The interval that holds an element, in row-major order, is the one of its intervals along the dimensions. *)
Lemma pivot_cell sh Es ix : pivot_form sh Es → Forall (λ d, 0 < d) sh → index_in ix sh → edge_cell (cart Es) (lin ix sh) = lin (edge_cells Es ix) (edge_counts Es).
Proof.
  intros Hp Hsh. revert ix. induction Hp as [d ds E HE Hd|d ds Fs Hq IH]; intros ix Hix; apply Forall_cons in Hsh as [Hd0 Hds];
    inversion Hix as [|i ? jx ? Hi Hjx]; subst; pose proof (lin_bound jx ds Hjx) as Hb; cbn [lin edge_cells cart fmap list_fmap zip_with].
  - change (list_fmap Z (list Z) (λ d, [d]) ds) with ((λ d, [d]) <$> ds). rewrite cart_whole.
    change (zip_with edge_cell ((λ d, [d]) <$> ds) jx) with (edge_cells ((λ d, [d]) <$> ds) jx). rewrite whole_cells by done.
    assert (edge_counts ((λ d, [d]) <$> ds) = replicate (length ds) 1) as Hc.
    { clear. induction ds as [|d ds IH]; [done|]. cbn [fmap list_fmap length replicate]. by f_equal. }
    change (list_fmap _ _ (λ E, zlen E) ((λ d, [d]) <$> ds)) with (edge_counts ((λ d, [d]) <$> ds)). rewrite Hc, Zprod_ones.
    assert (∀ n, lin (replicate n 0) (replicate n 1) = 0) as Hz.
    { clear. induction n as [|n IH]; [done|]. cbn [replicate lin]. rewrite IH. lia. }
    rewrite Hz, Z.mul_1_r, Z.add_0_r.
    assert ((E ≫= λ e, Z.mul e <$> [Zprod ds]) = (λ e, e * Zprod ds) <$> E) as ->.
    { clear. induction E as [|e E IH]; [done|]. cbn [mbind list_bind fmap list_fmap app] in *. by f_equal. }
    set (T := Zprod ds) in *. clear - Hb HE Hi. revert i Hi. induction HE as [|e E He HE IH]; intros i Hi; [done|]. rewrite Zsum_cons in Hi.
    cbn [fmap list_fmap edge_cell]. destruct (Z.ltb_spec i e) as [Hlt|Hge].
    + by rewrite (proj2 (Z.ltb_lt _ _)) by nia.
    + rewrite (proj2 (Z.ltb_ge _ _)) by nia. f_equal. rewrite <-(IH (i - e)) by lia. f_equal. lia.
  - destruct (pivot_form_facts ds Fs) as (I1 & I2 & I3); [done..|]. specialize (IH Hds jx Hjx). unfold edge_cells in IH.
    change (list_fmap (list Z) Z (λ E, zlen E) Fs) with (edge_counts Fs). rewrite <-IH. rewrite copies_replicate.
    assert (Z.mul 1 <$> cart Fs = cart Fs) as ->.
    { rewrite <-(list_fmap_id (cart Fs)) at 2. apply list_fmap_ext. intros _ x _. cbn [id]. lia. }
    assert (Zsum (cart Fs) = Zprod ds) as Hsum by (by rewrite Zsum_cart, I2). pose proof (cart_pos Fs I1) as Hpos.
    rewrite cell_replicate by lia. rewrite Z.div_1_r, <-length_cart. apply copies_cell; lia || done.
Qed.

(** The form that [rectilinear_edge_lengths_from_intervals] returns. *)
Definition pivot_edges_at (sh : list Z) (pivot : nat) (edges : list Z) : list (list Z) :=
  ((λ dim, replicate (Z.to_nat dim) 1) <$> take pivot sh) ++ [edges] ++ ((λ dim, [dim]) <$> drop (S pivot) sh).

Lemma pivot_edges_form sh pivot edges d : Forall (λ d, 0 < d) sh → sh !! pivot = Some d → edges_pos edges → Zsum edges = d →
  pivot_form sh (pivot_edges_at sh pivot edges) ∧
  cart (pivot_edges_at sh pivot edges) = copies (Z.to_nat (Zprod (take pivot sh))) ((λ e, e * Zprod (drop (S pivot) sh)) <$> edges).
Proof.
  intros Hsh. revert pivot. induction Hsh as [|d0 sh Hd0 Hsh IH]; intros pivot Hp He Hs; [done|]. destruct pivot as [|pivot].
  - injection Hp as ->. unfold pivot_edges_at. cbn [take fmap list_fmap app drop]. split; [by constructor|]. change (list_fmap Z (list Z) (λ dim, [dim]) sh) with ((λ d, [d]) <$> sh).
    cbn [cart]. rewrite cart_whole. change (Z.to_nat (Zprod [])) with 1%nat. rewrite copies_1. clear.
    induction edges as [|e E IH]; [done|]. cbn [mbind list_bind fmap list_fmap app] in *. by f_equal.
  - destruct (IH pivot Hp He Hs) as [I1 I2]. change (pivot_edges_at (d0 :: sh) (S pivot) edges) with (replicate (Z.to_nat d0) 1 :: pivot_edges_at sh pivot edges).
    split; [by constructor|]. cbn [cart take drop]. rewrite Zprod_cons, copies_replicate.
    rewrite I2. assert (0 <= Zprod (take pivot sh)) by (apply Zprod_nonneg, Forall_take; eapply Forall_impl; [exact Hsh|]; simpl; lia).
    rewrite Z2Nat.inj_mul, copies_mul by lia. f_equal.
    rewrite <-(list_fmap_id (copies (Z.to_nat (Zprod (take pivot sh))) _)) at 2. apply list_fmap_ext. intros _ x _. cbn [id]. lia.
Qed.

Lemma pivot_loop_spec trailing pivot_shape intervals sum edges sum' : 0 < trailing → edges_pos intervals → 0 <= sum →
  pivot_loop trailing pivot_shape intervals sum = Some (edges, sum') → sum' <= pivot_shape → edges_pos edges ∧ sum' = sum + Zsum edges.
Proof.
  intros Ht Hi. revert sum edges sum'. induction Hi as [|i intervals Hi0 Hi IH]; intros sum edges sum' H0 Hl Hle; cbn [pivot_loop] in Hl.
  { injection Hl as <- <-. split; [constructor|]. change (Zsum []) with 0. lia. }
  destruct (Z.eqb_spec (i mod trailing) 0) as [Hm|]; cbn [negb] in Hl; [|injection Hl as <- <-; split; [constructor|change (Zsum []) with 0; lia]].
  unfold checked_add in Hl. destruct (Z.ltb_spec (sum + i / trailing) u64_modulus); [|done]. cbn [mbind option_bind] in Hl.
  pose proof (Z.div_pos i trailing ltac:(lia) Ht).
  destruct (Z.ltb_spec pivot_shape (sum + i / trailing)); [injection Hl as <- <-; exfalso; lia|].
  destruct (Z.eqb_spec (sum + i / trailing) pivot_shape).
  - destruct (Z.eqb_spec (i / trailing) 0); [done|]. injection Hl as <- <-. split; [repeat constructor; lia|]. rewrite Zsum_cons. change (Zsum []) with 0. lia.
  - destruct (Z.eqb_spec (i / trailing) 0); [done|].
    destruct (pivot_loop trailing pivot_shape intervals (sum + i / trailing)) as [[es s]|] eqn:Hrest; [|done]. injection Hl as <- <-.
    destruct (IH (sum + i / trailing) es s ltac:(lia) Hrest Hle) as [I1 I2]. split; [constructor; [lia|done]|]. rewrite Zsum_cons. lia.
Qed.

Lemma intervals_spec sh intervals Es : Forall (λ d, 0 < d) sh → edges_pos intervals →
  rectilinear_edge_lengths_from_intervals sh intervals = Some Es → pivot_form sh Es ∧ cart Es = intervals.
Proof.
  intros Hsh Hi. unfold rectilinear_edge_lengths_from_intervals. destruct (checked_product sh); [|done]. cbn [mbind option_bind].
  destruct (checked_sum intervals); [|done]. cbn [mbind option_bind]. case_match; [done|]. generalize (seq 0 (length sh)).
  induction l as [|pivot pivots IH]; [done|]. cbn [pivots_loop].
  destruct (checked_product (drop (S pivot) sh)) as [trailing|] eqn:Ht; [|done]. cbn [mbind option_bind].
  destruct (checked_product (take pivot sh)) as [outer|] eqn:Ho; [|done]. cbn [mbind option_bind].
  assert (Forall (λ d, 0 <= d) sh) as Hnn by (eapply Forall_impl; [exact Hsh|]; simpl; lia).
  apply checked_product_Some in Ht as [-> _]; [|by apply Forall_drop]. apply checked_product_Some in Ho as [-> _]; [|by apply Forall_take].
  destruct (sh !! pivot) as [d|] eqn:Hd; [|done]. cbn [mbind option_bind].
  destruct (pivot_loop _ d intervals 0) as [[edges sum]|] eqn:Hl; [|done]. cbn [mbind option_bind].
  destruct (Z.eqb_spec sum d) as [->|]; cbn [negb]; [|done]. destruct (checked_mul _ _); [|done]. cbn [mbind option_bind].
  case_match; [done|]. destruct (collect_opt _) as [expected|] eqn:He; [|done]. cbn [mbind option_bind].
  case_match eqn:Hb; [done|]. apply negb_false_iff, bool_decide_eq_true in Hb as <-. intros [= <-].
  assert (0 < Zprod (drop (S pivot) sh)) as Htr by (by apply Zprod_pos, Forall_drop).
  destruct (pivot_loop_spec _ _ _ _ _ _ Htr Hi (Z.le_refl 0) Hl (Z.le_refl d)) as [E1 E2].
  destruct (pivot_edges_form sh pivot edges d Hsh Hd E1 ltac:(lia)) as [F1 F2]. split; [done|].
  etrans; [exact F2|]. rewrite <-(copies_seq 0). symmetry. revert He. generalize (seq 0 (Z.to_nat (Zprod (take pivot sh)))). intros ks He.
  assert ((ks ≫= λ _, (λ edge, checked_mul edge (Zprod (drop (S pivot) sh))) <$> edges) = (λ e, checked_mul e (Zprod (drop (S pivot) sh))) <$> (ks ≫= λ _, edges)) as Heq.
  { rewrite list_fmap_of_bind. done. }
  rewrite Heq in He. apply (collect_opt_fmap _ (λ e, e * Zprod (drop (S pivot) sh))) in He as ->; [|by intros x y [-> _]%checked_mul_Some].
  by rewrite list_fmap_of_bind.
Qed.

Lemma ones_replicate E : forallb (λ edge, edge =? 1) E = true → E = replicate (Z.to_nat (Zsum E)) 1.
Proof.
  induction E as [|e E IH]; [done|]. cbn [forallb]. intros [->%Z.eqb_eq HE]%andb_prop. rewrite Zsum_cons. rewrite IH at 1 by done.
  assert (0 <= Zsum E). { rewrite (IH HE), Zsum_replicate. lia. }
  replace (Z.to_nat (1 + Zsum E)) with (S (Z.to_nat (Zsum E))) by lia. done.
Qed.

Lemma contiguous_form sh Es pivot : Forall edges_pos Es → Zsum <$> Es = sh → (pivot < length sh)%nat → contiguous_at sh Es pivot = true → pivot_form sh Es.
Proof.
  intros HEs <-. rewrite length_fmap. revert pivot. induction HEs as [|E Es HE HEs IH]; intros pivot Hp; [simpl in Hp; lia|]. unfold contiguous_at in *.
  destruct pivot as [|pivot].
  - cbn [take forallb fmap list_fmap drop]. cbn [andb]. change (list_fmap (list Z) Z Zsum Es) with (Zsum <$> Es). rewrite !drop_0. intros Hz.
    assert (Es = (λ d, [d]) <$> (Zsum <$> Es)) as Heq; [|pose proof (pivot_here (Zsum E) (Zsum <$> Es) E HE eq_refl) as Hf; by rewrite <-Heq in Hf].
    rewrite zip_all_true in Hz by (by rewrite length_fmap). apply list_eq_total; [by rewrite !length_fmap|]. intros j Hj. specialize (Hz j Hj).
    apply bool_decide_eq_true in Hz. rewrite fmap_total by (by rewrite length_fmap). done.
  - cbn [take forallb fmap list_fmap drop]. intros [[H1 H2]%andb_prop H3]%andb_prop. rewrite (ones_replicate E H1). rewrite Zsum_replicate.
    replace (Z.of_nat (Z.to_nat (Zsum E)) * 1) with (Zsum E) by (pose proof (edges_pos_sum E HE); lia). constructor.
    apply (IH pivot); [simpl in Hp; lia|]. by rewrite H2.
Qed.

(** ** Grids of given edges *)

Lemma rectilinear_chunk_grid_mapped ash Es d : rectilinear_chunk_grid ash Es = Ok d →
  (let? cfgs := collect_res (encode_lengths <$> Es) in new_rectilinear ash cfgs) = Ok (MappedArray d).
Proof.
  unfold rectilinear_chunk_grid, new_rectilinear. destruct (collect_res _) as [cfgs|e|]; cbn [obind]; [|done..].
  destruct (RectilinearChunkGrid_new ash cfgs) as [r|e|]; cbn [obind]; [|done..]. by intros [= <-].
Qed.

Lemma exact_cover Es : Forall edges_pos Es → Forall (λ l, 0 < l < u64_modulus) (Zsum <$> Es) →
  edges_cover_shape (Zsum <$> Es) Es ∧ Forall2 edges_tight (Zsum <$> Es) Es ∧ contains_zero (Zsum <$> Es) = false.
Proof.
  intros HEs Hash. unfold edges_cover_shape. split_and!.
  1-2: induction HEs as [|E Es HE HEs IH]; [constructor|]; apply Forall_cons in Hash as [H Hash];
      cbn [fmap list_fmap]; constructor; [|by apply IH]; cbv beta in H.
  - split; [done|lia].
  - intros e He. apply last_Some in He as [E' ->]. apply Forall_app in HE as [_ HE%Forall_cons]. destruct HE as [HE _]. rewrite Zsum_app. lia.
  - unfold contains_zero. rewrite existsb_total_false. intros j Hj. rewrite Forall_total in Hash. specialize (Hash j Hj). apply Z.eqb_neq. lia.
Qed.

(** Edges that sum to the array are kept as they are. *)
Lemma exact_rectilinear ash Es d : Forall edges_pos Es → Zsum <$> Es = ash → Forall (λ l, 0 < l < u64_modulus) ash →
  rectilinear_chunk_grid ash Es = Ok d → grid_wf d ∧ array_shape d = ash ∧ grid_edges d = Es.
Proof.
  intros HEs <- Hash Hd%rectilinear_chunk_grid_mapped. destruct (exact_cover Es HEs Hash) as (Hcov & Htight & Hnz).
  destruct (new_rectilinear_edges _ Es _ Hcov Hnz Hd) as (d' & [= <-] & H1 & H2 & _ & H4). split_and!; [done..|by apply H4].
Qed.

(** Such a grid can be made. *)
Lemma exact_rectilinear_ok ash Es : Forall edges_pos Es → Zsum <$> Es = ash → Forall (λ l, 0 < l < u64_modulus) ash →
  is_Ok (rectilinear_chunk_grid ash Es).
Proof.
  intros HEs <- Hash. destruct (exact_cover Es HEs Hash) as (Hcov & _ & Hnz). destruct (rectilinear_of_edges _ Es Hcov Hnz) as (cfgs & g & H1 & H2 & _).
  unfold rectilinear_chunk_grid. rewrite (encoded_lengths _ _ H1). cbn [obind]. rewrite H2. cbn [obind]. by eexists.
Qed.

(** The grid made of edges that cover its array. *)
Lemma covering_rectilinear (g d : ChunkGrid) Es : grid_wf g → edges_cover_shape (array_shape g) Es →
  rectilinear_chunk_grid (array_shape g) Es = Ok d →
  grid_wf d ∧ array_within g d ∧ ∀ x, index_in x (array_shape g) → edge_cells (grid_edges d) x = edge_cells Es x.
Proof. intros Hg Hc Hd%rectilinear_chunk_grid_mapped. by apply decoded_grid. Qed.

Lemma dims_edge_lengths_spec (g : ChunkGrid) dims : grid_wf g → Forall (λ j, (j < length (grid_edges g))%nat) dims →
  dims_edge_lengths g dims = Ok ((λ j, grid_edges g !!! j) <$> dims).
Proof.
  intros Hg Hd. destruct (wf_edges g Hg) as (_ & _ & _ & He). unfold dims_edge_lengths.
  rewrite <-collect_res_Ok, <-list_fmap_compose. f_equal. apply Forall_fmap_ext. eapply Forall_impl; [exact Hd|]. intros j Hj. by apply He.
Qed.

Lemma all_edge_lengths (g : ChunkGrid) : grid_wf g → dims_edge_lengths g (seq 0 (grid_dimensionality g)) = Ok (grid_edges g).
Proof.
  intros Hg. destruct (wf_edges g Hg) as (_ & Hd & _). rewrite dims_edge_lengths_spec; [|done|apply Forall_forall; intros j [_ Hj]%elem_of_seq; lia].
  f_equal. apply list_eq_total; rewrite length_fmap, length_seq; [done|]. intros j Hj. rewrite fmap_total by (by rewrite length_seq).
  f_equal. by apply list_lookup_total_correct, lookup_seq_lt.
Qed.

(** ** One chunk *)

Lemma pivot_same sh Es l l' : pivot_form sh Es → Forall (λ d, 0 < d) sh → index_in l sh → index_in l' sh →
  edge_cells Es l = edge_cells Es l' ↔ edge_cell (cart Es) (lin l sh) = edge_cell (cart Es) (lin l' sh).
Proof.
  intros Hp Hsh Hl Hl'. rewrite !pivot_cell by done. split; [by intros ->|].
  destruct (pivot_form_facts sh Es Hp Hsh) as (H1 & H2 & H3).
  assert (∀ l, index_in l sh → index_in (edge_cells Es l) (edge_counts Es)) as Hin.
  { clear - H1 H2. subst sh. intros l Hl. revert l Hl. induction H1 as [|E Es HE HEs IH]; intros l Hl; inversion Hl as [|i ? l' ? Hi Hl']; subst; [constructor|].
    constructor; [|by apply IH]. by apply (cell_spec E i). }
  apply lin_inj; by apply Hin.
Qed.

Lemma Zprod_le_eq l k : Forall2 (λ a b, 0 < a <= b) l k → Zprod k = Zprod l → k = l.
Proof.
  induction 1 as [|a b l k Hab H IH]; [done|]. rewrite !Zprod_cons. intros Heq.
  assert (0 < Zprod l ∧ Zprod l <= Zprod k) as [H1 H2].
  { clear - H. induction H as [|a b l k Hab H IH]; [done|]. rewrite !Zprod_cons. nia. }
  assert (a = b) as -> by nia. f_equal. apply IH. nia.
Qed.

Lemma Zprod_bound sh : Forall (λ d, 0 < d) sh → Zprod sh < u64_modulus → Forall (λ d, 0 < d < u64_modulus) sh.
Proof.
  induction 1 as [|d sh Hd Hsh IH]; [constructor|]. rewrite Zprod_cons. intros Hu. pose proof (Zprod_pos sh Hsh). constructor; [nia|]. apply IH. nia.
Qed.

(** Elements are in one chunk of a reshaped grid when they are where they were. *)
Lemma reshaped_grid (source target : list Z) (g d : ChunkGrid) : grid_wf g → Zprod source = Zprod target → Forall (λ d, 0 < d) target →
  reshape_rectilinear_grid source target g = Ok (Some d) →
  grid_wf d ∧ array_shape d = target ∧ Zsum <$> grid_edges d = target ∧ Zsum <$> grid_edges g = source ∧ ∀ l l', index_in l target → index_in l' target →
    same_chunk d l l' ↔ same_chunk g (delin (lin l target) source) (delin (lin l' target) source).
Proof.
  intros Hg Hprod Ht Hd. unfold reshape_rectilinear_grid, rectilinear_grid_to_intervals in Hd.
  destruct (Nat.eqb_spec (grid_dimensionality g) (length source)) as [Hdim|]; [|done]. cbn [negb orb] in Hd.
  destruct (zip_all Z.eqb (array_shape g) source) eqn:Hz; [|done]. cbn [negb] in Hd. rewrite all_edge_lengths in Hd by done. cbn [obind] in Hd.
  destruct (wf_edges g Hg) as (Hcov & Hdg & _). pose proof (length_wf_edges g Hg) as Hlg.
  assert (array_shape g = source) as Hsrc.
  { rewrite zip_all_true in Hz by lia. apply list_eq_total; [lia|]. intros j Hj. by apply Z.eqb_eq, Hz. }
  destruct (existsb _ _) eqn:Hex; [|done]. destruct (cartesian_product_edge_lengths (grid_edges g)) as [intervals|] eqn:Hc; [|done].
  apply cartesian_cart in Hc as ->. cbn [or_none obind] in Hd. unfold rectilinear_grid_from_intervals in Hd.
  destruct (rectilinear_edge_lengths_from_intervals target (cart (grid_edges g))) as [Ts|] eqn:Hi; [|done]. cbn [or_none obind] in Hd.
  destruct (rectilinear_chunk_grid target Ts) as [d'|e|] eqn:Hr; cbn [obind] in Hd; try done. injection Hd as ->.
  assert (Forall edges_pos (grid_edges g)) as Hpos.
  { apply Forall_total. intros j Hj. by destruct (wf_edges_at g j Hg Hj) as [(H & _) _]. }
  assert (Zprod target < u64_modulus ∧ Zsum (cart (grid_edges g)) = Zprod target) as [Htu Hsum].
  { pose proof Hi as Hi'. unfold rectilinear_edge_lengths_from_intervals in Hi'. destruct (checked_product target) as [n|] eqn:Hn; [|done]. cbn [mbind option_bind] in Hi'.
    apply checked_product_Some in Hn as [-> Hn]; [|by eapply Forall_impl; [exact Ht|]; simpl; lia].
    pose proof (cart_pos _ Hpos) as Hcp. rewrite checked_sum_spec in Hi' by (eapply Forall_impl; [exact Hcp|]; simpl; lia).
    destruct (Z.ltb_spec (Zsum (cart (grid_edges g))) u64_modulus); [|done]. cbn [mbind option_bind] in Hi'.
    destruct (Z.eqb_spec (Zsum (cart (grid_edges g))) (Zprod target)); [done|done]. }
  assert (Zsum <$> grid_edges g = source) as Hexact.
  { apply Zprod_le_eq; [|by rewrite <-Zsum_cart, Hsum]. rewrite Forall2_total, length_fmap. split; [by rewrite <-Hsrc|]. intros j Hj.
    rewrite (fmap_total Zsum) by (rewrite <-Hlg; by rewrite Hsrc). rewrite <-Hsrc in *. destruct (wf_edges_at g j Hg ltac:(lia)) as [(_ & H & _) H']. lia. }
  assert (pivot_form source (grid_edges g)) as Hps.
  { apply existsb_exists in Hex as (p & Hp%in_seq & Hcont). eapply contiguous_form; [done..| |done]. lia. }
  assert (Forall (λ d, 0 < d) source) as Hs.
  { rewrite <-Hsrc. apply Forall_total. intros j Hj. by destruct (wf_edges_at g j Hg ltac:(lia)). }
  destruct (intervals_spec target _ Ts Ht (cart_pos _ Hpos) Hi) as [Hpt Hcart]. destruct (pivot_form_facts _ _ Hpt Ht) as (T1 & T2 & T3).
  destruct (exact_rectilinear target Ts d T1 T2 (Zprod_bound _ Ht Htu) Hr) as (D1 & D2 & D3). split_and!; [done|done|by rewrite D3|done|].
  intros l l' Hl Hl'. unfold same_chunk. rewrite D3. rewrite (pivot_same target) by done. rewrite Hcart.
  assert (∀ l, index_in l target → index_in (delin (lin l target) source) source ∧ lin (delin (lin l target) source) source = lin l target) as Hdl.
  { intros k Hk. pose proof (lin_bound k target Hk). split; [apply delin_in|apply lin_delin]; try done; by rewrite Hprod. }
  destruct (Hdl l Hl) as [A1 A2], (Hdl l' Hl') as [B1 B2]. rewrite (pivot_same source) by done. by rewrite A2, B2.
Qed.

(** On a grid over the source, with its edges, the reshape does not fail. *)
Lemma reshaped_total (source target : list Z) (g : ChunkGrid) : grid_wf g → array_shape g = source → Forall (λ d, 0 < d) target →
  is_Ok (reshape_rectilinear_grid source target g).
Proof.
  intros Hg <- Ht. destruct (wf_edges g Hg) as (Hcov & Hdg & _). pose proof (length_wf_edges g Hg) as Hlg.
  unfold reshape_rectilinear_grid, rectilinear_grid_to_intervals. rewrite (proj2 (Nat.eqb_eq _ _)) by lia. cbn [negb orb].
  assert (zip_all Z.eqb (array_shape g) (array_shape g) = true) as -> by (apply zip_all_true; [done|]; intros; by apply Z.eqb_eq). cbn [negb]. rewrite all_edge_lengths by done. cbn [obind].
  assert (Forall edges_pos (grid_edges g)) as Hpos.
  { apply Forall_total. intros j Hj. by destruct (wf_edges_at g j Hg Hj) as [(H & _) _]. }
  destruct (existsb _ _); [|by eexists]. destruct (cartesian_product_edge_lengths (grid_edges g)) as [intervals|] eqn:Hc; [|by eexists].
  apply cartesian_cart in Hc as ->. cbn [or_none obind]. unfold rectilinear_grid_from_intervals.
  destruct (rectilinear_edge_lengths_from_intervals target (cart (grid_edges g))) as [Ts|] eqn:Hi; [|by eexists]. cbn [or_none obind].
  assert (Zprod target < u64_modulus) as Htu.
  { unfold rectilinear_edge_lengths_from_intervals in Hi. destruct (checked_product target) as [n|] eqn:Hn; [|done].
    apply checked_product_Some in Hn as [-> Hn]; [done|]. eapply Forall_impl; [exact Ht|]; simpl; lia. }
  destruct (intervals_spec target _ Ts Ht (cart_pos _ Hpos) Hi) as [Hpt _]. destruct (pivot_form_facts _ _ Hpt Ht) as (T1 & T2 & _).
  destruct (exact_rectilinear_ok target Ts T1 T2 (Zprod_bound _ Ht Htu)) as [d Hd]. rewrite Hd. cbn [obind]. by eexists.
Qed.

(** ** Repeated chunks *)

Lemma repeated_edges (repeats : list Z) (inner d : ChunkGrid) : grid_wf inner → Forall (λ r, 0 <= r) repeats →
  repeat_chunk_grid repeats inner = Ok (Some d) → Zsum <$> grid_edges inner = array_shape inner →
  grid_wf d ∧ array_shape d = zip_with Z.mul (array_shape inner) repeats ∧ length repeats = length (grid_edges inner) ∧
  grid_edges d = zip_with (λ E r, copies (Z.to_nat r) E) (grid_edges inner) repeats.
Proof.
  intros Hi Hnn Hd Hexact. unfold repeat_chunk_grid in Hd. destruct (RepeatChunkGrid_new repeats inner) as [rep|[]|] eqn:Hr; try done. injection Hd as <-.
  pose proof (repeat_new_Ok_inv _ _ _ Hi Hnn Hr) as Hfit. pose proof Hfit as [Hlr Hf].
  destruct (repeat_new_wf _ _ Hi Hnn Hfit) as (rep' & Hrep' & Hwfrep & Hin & Hreps & Harr & _). rewrite Hr in Hrep'. injection Hrep' as <-.
  destruct (wf_edges inner Hi) as (_ & Hdi & _ & Hei). pose proof (length_wf_edges inner Hi) as Hli.
  assert (length repeats = length (grid_edges inner)) as Hl by (rewrite Hlr, <-(grid_dimensionality_law inner Hi); lia).
  assert (grid_wf (ChunkGrid_new rep)) as Hwf.
  { apply chunk_grid_new_wf; [exact Hwfrep| |done]. change (array_shape rep) with (rp_array_shape rep). rewrite Harr. unfold contains_zero.
    rewrite existsb_total_false, length_zip_with. intros j Hj. rewrite zip_with_total by lia. destruct (Hf j ltac:(lia)) as (H0 & _).
    destruct (wf_edges_at inner j Hi ltac:(lia)) as [_ H1]. apply Z.eqb_neq. nia. }
  split_and!; [done|exact Harr|done|]. destruct (wf_edges _ Hwf) as (_ & Hdd & _ & Hed).
  assert (length (grid_edges (ChunkGrid_new rep)) = length (grid_edges inner)) as Hld.
  { rewrite <-Hdd. change (grid_dimensionality (ChunkGrid_new rep)) with (length (rp_shape rep)). rewrite (proj1 (proj2 Hwfrep)), Hin. lia. }
  apply list_eq_total; [rewrite length_zip_with; lia|]. intros j Hj. rewrite zip_with_total by lia. specialize (Hed j Hj).
  change (chunk_edge_lengths (ChunkGrid_new rep) j) with (repeat_chunk_edge_lengths rep j) in Hed. unfold repeat_chunk_edge_lengths, repeat_dimensionality in Hed.
  rewrite (proj1 (proj2 Hwfrep)), Hin, (proj2 (Nat.leb_gt _ _)) in Hed by lia. rewrite Hei in Hed by lia. cbn [obind] in Hed.
  rewrite Hreps, list_lookup_lookup_total_lt in Hed by lia. cbn [expect obind] in Hed. injection Hed as <-. apply copies_seq.
Qed.
