(* ===== verification/ReshapePartitions.v ===== *)
(** Reshapes that flatten groups of dimensions: where the elements go, the grid of the encoded chunks, and grids of
    subchunks back. *)

From S2P Require Import Prelude ArraySubset Linear Iterators ChunkGrid RegularGrid RectilinearGrid RepeatGrid ByteRange StoreKey.
From S2P Require Import Storage ArrayBytes Elements StoreProgram DecodeInto Concurrency Codec ArrayToArray CodecChain Sharding.
From S2P Require Import Transpose ChunkEdges Subchunking SubchunkLaws SubchunkCodecs SubchunkTheorems Reshape ReshapeGrids.

(** ** The input dimensions of a validated shape *)

Definition dim_ok (dim : ReshapeDim) : Prop :=
  match dim with ReshapeSize size => 0 < size < u64_modulus | ReshapeInputDims ds => Forall (λ d, 0 <= d < u64_max) ds | ReshapeAuto => True end.

(** Shapes that the configuration accepts; no array has a dimension [u64::MAX]. *)
Definition reshape_wf (sh : ReshapeShape) : Prop := validate_shape sh = true ∧ Forall dim_ok sh.

Fixpoint increasing (k : Z) (l : list Z) : Prop :=
  match l with [] => True | d :: l => k <= d ∧ increasing (d + 1) l end.

Lemma increasing_bound k l d : increasing k l → d ∈ l → k <= d.
Proof.
  revert k. induction l as [|e l IH]; intros k; [intros _ H; by apply not_elem_of_nil in H|]. intros [H1 H2] [->|Hd]%elem_of_cons; [done|].
  specialize (IH (e + 1) H2 Hd). lia.
Qed.

Lemma increasing_all k n l : increasing k l → (∀ d, d ∈ l → d < n) → (∀ j, k <= j < n → j ∈ l) → k <= n → l = seqZ k (n - k).
Proof.
  revert k. induction l as [|d l IH]; intros k Hi Hn Hall Hk.
  - destruct (decide (k = n)) as [->|]; [by rewrite Z.sub_diag|]. specialize (Hall k ltac:(lia)). by apply not_elem_of_nil in Hall.
  - destruct Hi as [Hkd Hi]. specialize (Hn d ltac:(left)) as Hd. assert (d = k) as ->.
    { specialize (Hall k ltac:(lia)) as [->|Hin]%elem_of_cons; [done|]. pose proof (increasing_bound _ _ _ Hi Hin). lia. }
    rewrite seqZ_cons by lia. f_equal. rewrite (IH (k + 1)); [f_equal; lia|done|intros; apply Hn; by right| |lia].
    intros j Hj. specialize (Hall j ltac:(lia)) as [->|Hin]%elem_of_cons; [lia|done].
Qed.

Lemma validate_input_dims_increasing dims k k' rest : Forall (λ d, 0 <= d < u64_max) dims → validate_input_dims dims k = Some k' →
  increasing k' rest → increasing k (dims ++ rest).
Proof.
  intros H. revert k. induction H as [|d dims Hd H IH]; intros k Hv Hr; cbn [validate_input_dims] in Hv; [by injection Hv as <-|].
  destruct (Z.ltb_spec d k); [done|]. cbn [app increasing]. split; [lia|]. apply IH; [|done]. rewrite <-Hv. f_equal.
  rewrite Z.max_r by lia. symmetry. apply wrap64_small. unfold_u64. lia.
Qed.

Lemma mark_seen_spec seen ds seen' : mark_seen seen ds = Some seen' →
  Forall (λ d, (d < length seen)%nat) ds ∧ ∀ j, seen' !! j = Some true → seen !! j = Some true ∨ j ∈ ds.
Proof.
  revert seen. induction ds as [|d ds IH]; intros seen Hs; cbn [mark_seen] in Hs; [injection Hs as <-; split; [constructor|by left]|].
  destruct (seen !! d) as [[]|] eqn:Hd; try done. cbn [mbind option_bind] in Hs. destruct (IH _ Hs) as [I1 I2]. split.
  - constructor; [by apply lookup_lt_Some in Hd|]. eapply Forall_impl; [exact I1|]. intros j Hj. cbv beta in Hj. by rewrite length_insert in Hj.
  - intros j Hj. destruct (I2 j Hj) as [H|H]; [|by right; right]. destruct (decide (j = d)) as [->|]; [by right; left|].
    rewrite list_lookup_insert_ne in H by done. by left.
Qed.

Lemma mark_seen_app seen a b : mark_seen seen (a ++ b) = mark_seen seen a ≫= λ s, mark_seen s b.
Proof.
  revert seen. induction a as [|d a IH]; intros seen; [done|]. cbn [app mark_seen]. destruct (seen !! d) as [[]|]; cbn [mbind option_bind]; [done| |done]. apply IH.
Qed.

Lemma partitions_loop_spec sh seen ps seen' : partitions_loop sh seen = Some (ps, seen') → ∃ dss,
  sh = ReshapeInputDims <$> dss ∧ ps = fmap Z.to_nat <$> dss ∧ Forall (λ ds, ds ≠ []) dss ∧ mark_seen seen (concat ps) = Some seen'.
Proof.
  revert seen ps. induction sh as [|dim sh IH]; intros seen ps Hp; cbn [partitions_loop] in Hp; [injection Hp as <- <-; by exists []|].
  destruct dim as [|ds|]; try done. assert (ds ≠ []) as Hne by by destruct ds.
  assert ((s ← mark_seen seen (Z.to_nat <$> ds); '(rest, seen) ← partitions_loop sh s; Some ((Z.to_nat <$> ds) :: rest, seen)) = Some (ps, seen')) as Hp'
    by by destruct ds. clear Hp.
  destruct (mark_seen seen (Z.to_nat <$> ds)) as [s|] eqn:Hm; [|done]. cbn [mbind option_bind] in Hp'.
  destruct (partitions_loop sh s) as [[rest s']|] eqn:Hr; [|done]. injection Hp' as <- <-. destruct (IH s rest Hr) as (dss & -> & -> & H3 & H4).
  exists (ds :: dss). split_and!; [done|done|by constructor|]. cbn [concat]. by rewrite mark_seen_app, Hm.
Qed.

(** The partitions are the dimensions in order. *)
Lemma partitions_consecutive sh n ps : reshape_wf sh → input_dim_partitions sh n = Some ps → concat ps = seq 0 n ∧ Forall (λ p, p ≠ []) ps.
Proof.
  intros [Hv Hwf] Hp. unfold input_dim_partitions in Hp. destruct (partitions_loop sh (replicate n false)) as [[ps' seen]|] eqn:Hl; [|done].
  cbn [mbind option_bind] in Hp. destruct (forallb id seen) eqn:Hall; [|done]. injection Hp as ->.
  destruct (partitions_loop_spec _ _ _ _ Hl) as (dss & -> & -> & Hne & Hm). destruct (mark_seen_spec _ _ _ Hm) as [Hlt Hin]. rewrite length_replicate in Hlt.
  assert (Forall (Forall (λ d, 0 <= d < u64_max)) dss) as Hd by by rewrite Forall_fmap in Hwf.
  assert (increasing 0 (concat dss)) as Hinc.
  { unfold validate_shape in Hv. clear - Hv Hd. revert Hv. generalize 0 false. induction Hd as [|ds dss Hds Hd IH]; intros k auto Hv; [done|].
    cbn [fmap list_fmap validate_from concat] in *. destruct (validate_input_dims ds k) as [k'|] eqn:Hk; [|done].
    eapply validate_input_dims_increasing; [done..|]. by eapply IH. }
  assert (length seen = n) as Hls.
  { clear - Hm. assert (∀ s ds s', mark_seen s ds = Some s' → length s' = length s) as H; [|by rewrite (H _ _ _ Hm), length_replicate].
    intros s ds. revert s. induction ds as [|d ds IH]; intros s s' Hs; cbn [mark_seen] in Hs; [by injection Hs as <-|].
    destruct (s !! d) as [[]|]; try done. cbn [mbind option_bind] in Hs. rewrite (IH _ _ Hs). apply length_insert. }
  assert (concat (fmap (M:=list) Z.to_nat <$> dss) = Z.to_nat <$> concat dss) as Hcat.
  { clear. induction dss as [|ds dss IH]; [done|]. cbn [fmap list_fmap concat]. by rewrite fmap_app, <-IH. }
  rewrite Hcat in *.
  assert (concat dss = seqZ 0 (Z.of_nat n - 0)) as Heq.
  { apply increasing_all; [done| | |lia].
    - intros d Hdin. rewrite Forall_fmap, Forall_forall in Hlt. specialize (Hlt d Hdin). simpl in Hlt. lia.
    - intros j Hj. assert (seen !! Z.to_nat j = Some true) as Hs.
      { destruct (lookup_lt_is_Some_2 seen (Z.to_nat j)) as [b Hb]; [lia|]. rewrite forallb_forall in Hall. rewrite Hb. f_equal.
        apply (Hall b). apply list_elem_of_In. by eapply list_elem_of_lookup_2. }
      destruct (Hin _ Hs) as [H|H]; [by apply lookup_replicate in H as [? _]|]. apply list_elem_of_fmap in H as (d & Hd' & Hdin).
      pose proof (increasing_bound _ _ _ Hinc Hdin). by replace j with d by lia. }
  split; [|apply Forall_fmap; eapply Forall_impl; [exact Hne|]; by intros [|]].
  rewrite Heq, Z.sub_0_r. unfold seqZ. rewrite Nat2Z.id, <-list_fmap_compose.
  rewrite <-(list_fmap_id (seq 0 n)) at 2. apply list_fmap_ext. intros _ j _. simpl. lia.
Qed.

(** ** Groups of dimensions *)

(** The entries at some dimensions. *)
Definition pickn {X} `{!Inhabited X} (p : list nat) (l : list X) : list X := (λ j, l !!! j) <$> p.

Section pickn.
Context {X : Type} `{!Inhabited X}.
Implicit Types l : list X.

Lemma pickn_seq l : pickn (seq 0 (length l)) l = l.
Proof.
  apply list_eq_total; unfold pickn; rewrite length_fmap, length_seq; [done|]. intros j Hj. rewrite fmap_total by (by rewrite length_seq).
  f_equal. by apply list_lookup_total_correct, lookup_seq_lt.
Qed.

Lemma pickn_app p q l : pickn (p ++ q) l = pickn p l ++ pickn q l.
Proof. apply fmap_app. Qed.

Lemma pickn_fmap {Y} `{!Inhabited Y} (f : X → Y) p l : Forall (λ j, (j < length l)%nat) p → pickn p (f <$> l) = f <$> pickn p l.
Proof.
  intros Hp. unfold pickn. rewrite <-list_fmap_compose. apply Forall_fmap_ext. eapply Forall_impl; [exact Hp|]. intros j Hj. simpl. by rewrite fmap_total.
Qed.

Lemma Forall2_pickn {Y} `{!Inhabited Y} (R : X → Y → Prop) p l k : Forall2 R l k → Forall (λ j, (j < length l)%nat) p → Forall2 R (pickn p l) (pickn p k).
Proof.
  rewrite Forall2_total. intros [_ H] Hp. unfold pickn. apply Forall2_fmap_2, Forall_Forall2_diag. eapply Forall_impl; [exact Hp|]. intros j Hj. by apply H.
Qed.
End pickn.

Lemma places_pickn p Es x : Forall (λ j, (j < length Es)%nat) p → length Es = length x → places (pickn p Es) (pickn p x) = pickn p (places Es x).
Proof.
  intros Hp Hl. unfold places, pickn. rewrite zip_with_fmap_l, zip_with_fmap_r, zip_with_diag. apply Forall_fmap_ext.
  eapply Forall_impl; [exact Hp|]. intros j Hj. cbv beta in *. by rewrite zip_with_total by lia.
Qed.

(** The linear index in groups of dimensions. *)
Lemma lin_app ix jx sh th : length ix = length sh → lin (ix ++ jx) (sh ++ th) = lin ix sh * Zprod th + lin jx th.
Proof.
  revert sh. induction ix as [|i ix IH]; intros [|d sh] Hl; try done; cbn [app lin]. rewrite IH by (by injection Hl). rewrite Zprod_app. lia.
Qed.

Lemma lin_partition ps l sh :
  lin ((λ p, lin (pickn p l) (pickn p sh)) <$> ps) ((λ p, Zprod (pickn p sh)) <$> ps) = lin (pickn (concat ps) l) (pickn (concat ps) sh).
Proof.
  assert (∀ ps, Zprod ((λ p, Zprod (pickn p sh)) <$> ps) = Zprod (pickn (concat ps) sh)) as Hz.
  { clear. induction ps as [|p ps IH]; [done|]. cbn [fmap list_fmap concat]. by rewrite Zprod_cons, pickn_app, Zprod_app, <-IH. }
  induction ps as [|p ps IH]; [done|]. cbn [fmap list_fmap concat lin]. rewrite !pickn_app, lin_app by (unfold pickn; by rewrite !length_fmap).
  rewrite <-IH, <-Hz. done.
Qed.

(** The place of an element along the dimension made of a group. *)
Definition combine (Es : list (list Z)) (x : list Z) : Z :=
  edge_start (cart Es) (lin (edge_cells Es x) (edge_counts Es)) + lin (locals Es x) (sizes_at Es x).

Lemma sizes_at_cells Es x : sizes_at Es x = edge_sizes Es (edge_cells Es x).
Proof. unfold sizes_at, places, edge_sizes, edge_cells. revert x. induction Es as [|E Es IH]; intros [|i x]; try done. cbn [zip_with fmap list_fmap place snd]. by f_equal. Qed.

Lemma cover_pos ash Es : edges_cover_shape ash Es → Forall edges_pos Es.
Proof. induction 1 as [|len E ash Es [HE _] H IH]; by constructor. Qed.

Lemma combine_place ash Es x : edges_cover_shape ash Es → index_in x ash →
  place (cart Es) (combine Es x) = (lin (edge_cells Es x) (edge_counts Es), lin (locals Es x) (sizes_at Es x), Zprod (sizes_at Es x)) ∧
  0 <= combine Es x < Zsum (cart Es).
Proof.
  intros Hc Hx. pose proof (cover_pos _ _ Hc) as Hpos. pose proof (cart_pos Es Hpos) as Hcp. pose proof (cells_in _ _ _ Hc Hx) as Hcells.
  pose proof (lin_bound _ _ Hcells) as Hb. pose proof (lin_bound _ _ (in_places _ _ _ Hc Hx)) as Hl. rewrite <-length_cart in Hb.
  pose proof (cart_at Es _ Hcells) as Hat. rewrite <-sizes_at_cells in Hat. pose proof (edge_start_bound (cart Es) _ Hcp Hb) as He.
  unfold combine. set (C := lin (edge_cells Es x) (edge_counts Es)) in *.
  assert (edge_cell (cart Es) (edge_start (cart Es) C + lin (locals Es x) (sizes_at Es x)) = C) as Hcell by (apply cell_unique; [done|done|lia]).
  split; [|lia]. unfold place. rewrite Hcell. f_equal; [|done]. f_equal. lia.
Qed.

(** ** The encoded grid *)

Section partition_grid.
Context (g : ChunkGrid) (ps : list (list nat)) (Hg : grid_wf g) (Hps : Forall (λ j, (j < length (grid_edges g))%nat) (concat ps)).

Lemma partition_in p : p ∈ ps → Forall (λ j, (j < length (grid_edges g))%nat) p.
Proof using Hps. intros Hp. rewrite Forall_concat, Forall_forall in Hps. by apply Hps. Qed.

Lemma partition_cover p : p ∈ ps → edges_cover_shape (pickn p (array_shape g)) (pickn p (grid_edges g)).
Proof using Hg Hps.
  intros Hp. apply Forall2_pickn; [by apply wf_edges|]. rewrite length_wf_edges by done. by apply partition_in.
Qed.

Lemma partition_index p x : p ∈ ps → index_in x (array_shape g) → index_in (pickn p x) (pickn p (array_shape g)).
Proof using Hg Hps.
  intros Hp Hx. apply Forall2_pickn; [done|]. rewrite (Forall2_length _ _ _ Hx), length_wf_edges by done. by apply partition_in.
Qed.

Definition partition_cart (p : list nat) : list Z := cart (pickn p (grid_edges g)).

Lemma partition_edges_spec qs dims : qs ⊆ ps → partition_edges g qs = Ok (Some dims) →
  dims = (λ p, (Zsum (partition_cart p), partition_cart p)) <$> qs ∧ Forall (λ p, 0 < Zsum (partition_cart p) < u64_modulus) qs.
Proof using Hg Hps.
  revert dims. induction qs as [|p qs IH]; intros dims Hsub Hd; cbn [partition_edges] in Hd; [by injection Hd as <-|].
  assert (p ∈ ps) as Hp by (apply Hsub; left). rewrite dims_edge_lengths_spec in Hd by (done || by apply partition_in). cbn [obind] in Hd.
  unfold or_none at 1 in Hd. cbn [obind] in Hd. destruct (cartesian_product_edge_lengths _) as [C|] eqn:HC; [|done]. apply cartesian_cart in HC as ->.
  change (cart _) with (partition_cart p) in Hd. unfold or_none at 1 in Hd. cbn [obind] in Hd.
  pose proof (cart_pos _ (cover_pos _ _ (partition_cover p Hp))) as Hpos. change (cart _) with (partition_cart p) in Hpos.
  rewrite checked_sum_spec in Hd by (eapply Forall_impl; [exact Hpos|]; simpl; lia).
  destruct (Z.ltb_spec (Zsum (partition_cart p)) u64_modulus); [|done]. unfold or_none in Hd.
  destruct (partition_edges g qs) as [[rest|]|e|] eqn:Hrest; cbn [obind] in Hd; try done. injection Hd as <-.
  destruct (IH rest) as [-> Hall]; [intros q Hq; apply Hsub; by right|done|]. split; [done|]. constructor; [|done]. split; [|done].
  unfold partition_cart. rewrite Zsum_cart. apply Zprod_pos, Forall_fmap, Forall_fmap. eapply Forall_impl; [by apply partition_in|].
  intros j Hj. cbn [compose]. destruct (wf_edges_at g j Hg Hj) as [(_ & H1 & _) H2]. lia.
Qed.

Lemma partition_grid e : encoded_chunk_grid_for_input_dim_partitions ps g = Ok (Some e) →
  grid_wf e ∧ array_shape e = (λ p, Zsum (partition_cart p)) <$> ps ∧ grid_edges e = partition_cart <$> ps.
Proof using Hg Hps.
  unfold encoded_chunk_grid_for_input_dim_partitions, or_none. destruct (partition_edges g ps) as [[dims|]|err|] eqn:Hd; cbn [obind]; try done.
  destruct (partition_edges_spec ps dims ltac:(done) Hd) as [-> Hall]. rewrite <-!list_fmap_compose.
  destruct (rectilinear_chunk_grid _ _) as [d|err|] eqn:Hr; cbn [obind]; try done. intros [= <-].
  apply (exact_rectilinear ((λ p, Zsum (partition_cart p)) <$> ps) (partition_cart <$> ps)); [| | |exact Hr].
  - apply Forall_fmap, Forall_forall. intros p Hp. apply cart_pos, (cover_pos _ _ (partition_cover p Hp)).
  - by rewrite <-list_fmap_compose.
  - by apply Forall_fmap.
Qed.

(** Where the elements are. *)
Definition partition_image (x : list Z) : list Z := (λ p, combine (pickn p (grid_edges g)) (pickn p x)) <$> ps.

Lemma partition_places x : index_in x (array_shape g) →
  index_in (partition_image x) ((λ p, Zsum (partition_cart p)) <$> ps) ∧
  places (partition_cart <$> ps) (partition_image x) =
    (λ p, (lin (pickn p (edge_cells (grid_edges g) x)) (edge_counts (pickn p (grid_edges g))),
      lin (pickn p (locals (grid_edges g) x)) (pickn p (sizes_at (grid_edges g) x)), Zprod (pickn p (sizes_at (grid_edges g) x)))) <$> ps.
Proof using Hg Hps.
  intros Hx. pose proof (Forall2_length _ _ _ Hx) as Hlx. pose proof (length_wf_edges g Hg) as Hlg.
  assert (∀ p, p ∈ ps → place (partition_cart p) (combine (pickn p (grid_edges g)) (pickn p x)) =
    (lin (pickn p (edge_cells (grid_edges g) x)) (edge_counts (pickn p (grid_edges g))),
      lin (pickn p (locals (grid_edges g) x)) (pickn p (sizes_at (grid_edges g) x)), Zprod (pickn p (sizes_at (grid_edges g) x))) ∧
    0 <= combine (pickn p (grid_edges g)) (pickn p x) < Zsum (partition_cart p)) as Hall.
  { intros p Hp. destruct (combine_place _ _ _ (partition_cover p Hp) (partition_index p x Hp Hx)) as [H1 H2]. split; [|done].
    unfold partition_cart. rewrite H1. unfold locals, sizes_at. rewrite !cells_places, !places_pickn by (try apply partition_in; done || lia).
    rewrite !pickn_fmap; [done|..]; rewrite ?length_fmap, ?length_places by lia; rewrite Hlx, Hlg; by apply partition_in. }
  unfold partition_image. split.
  - apply Forall2_fmap_2, Forall_Forall2_diag, Forall_forall. intros p Hp. by apply Hall.
  - unfold places. rewrite zip_with_fmap_l, zip_with_fmap_r, zip_with_diag. apply list_fmap_ext_in. intros p Hp. by apply Hall.
Qed.
End partition_grid.

(** ** The loops *)

Lemma unravel_digits_spec {E} k sh : Forall (λ d, 0 < d) sh → 0 <= k → unravel_digits (E:=E) k sh = Ok (delin (k mod Zprod sh) sh, k / Zprod sh).
Proof.
  induction 1 as [|d sh Hd Hsh IH]; intros Hk; cbn [unravel_digits delin].
  { change (Zprod []) with 1. by rewrite Z.div_1_r. }
  rewrite IH by done. cbn [obind]. rewrite (proj2 (Z.eqb_neq _ _)) by lia. rewrite Zprod_cons. pose proof (Zprod_pos sh Hsh) as HP. set (P := Zprod sh) in *.
  rewrite (Z.mul_comm d), Z.rem_mul_r by lia. pose proof (Z.mod_pos_bound k P HP).
  assert ((k mod P + P * ((k / P) mod d)) / P = (k / P) mod d) as ->.
  { rewrite (Z.mul_comm P), Z.div_add by lia. rewrite Z.div_small by lia. lia. }
  assert ((k mod P + P * ((k / P) mod d)) mod P = k mod P) as ->.
  { rewrite (Z.mul_comm P), Z.mod_add by lia. apply Z.mod_mod. lia. }
  by rewrite Z.div_div by lia.
Qed.

Lemma unravel_flat_index_spec {E} k sh : Forall (λ d, 0 < d) sh → 0 <= k < Zprod sh → unravel_flat_index (E:=E) k sh = Ok (delin k sh).
Proof. intros Hsh Hk. unfold unravel_flat_index. rewrite unravel_digits_spec by (done || lia). cbn [obind fst]. by rewrite Z.mod_small. Qed.

(** Edges that are found stay as they are. *)
Definition found_at (le : local_edges_map) (j i : nat) (e : list Z) : Prop := ∃ row, le !! j = Some row ∧ row !! i = Some (Some e).

Definition extends (le le' : local_edges_map) : Prop := Forall2 (Forall2 (λ o o', ∀ e : list Z, o = Some e → o' = Some e)) le le'.

Lemma Forall2_chain {X} (P : X → X → Prop) : (∀ x y z, P x y → P y z → P x z) → ∀ l k m, Forall2 P l k → Forall2 P k m → Forall2 P l m.
Proof. intros HP l k m H. revert m. induction H as [|x y l k Hxy H IH]; intros m Hm; inversion Hm; subst; constructor; [by eapply HP|by apply IH]. Qed.

#[export] Instance extends_preorder : PreOrder extends.
Proof.
  unfold extends. split.
  - intros le. apply Forall_Forall2_diag, Forall_true. intros row. by apply Forall_Forall2_diag, Forall_true.
  - intros a b c. apply Forall2_chain. intros r1 r2 r3. apply Forall2_chain. naive_solver.
Qed.

Lemma found_extends le le' j i e : extends le le' → found_at le j i e → found_at le' j i e.
Proof.
  intros Hx (row & H1 & H2). destruct (Forall2_lookup_l _ _ _ _ _ Hx H1) as (row' & H3 & H4).
  destruct (Forall2_lookup_l _ _ _ _ _ H4 H2) as (o & H5 & H6). exists row'. split; [done|]. by rewrite H5, (H6 e eq_refl).
Qed.

Lemma set_local_edges_spec le dims le' : set_local_edges le dims = Ok (Some le') →
  extends le le' ∧ ∀ j i e, (j, i, e) ∈ dims → found_at le' j (Z.to_nat i) e.
Proof.
  revert le. induction dims as [|[[j i] e] dims IH]; intros le Hs; cbn [set_local_edges] in Hs.
  { injection Hs as <-. split; [done|]. intros ??? H. by apply not_elem_of_nil in H. }
  destruct (le !! j) as [row|] eqn:Hrow; [|done]. cbn [expect obind] in Hs. unfold index in Hs.
  destruct (0 <=? i); [|done]. destruct (row !! Z.to_nat i) as [cand|] eqn:Hc; [|done]. cbn [expect obind] in Hs.
  destruct (match cand with Some candidate => negb (bool_decide (candidate = e)) | None => false end) eqn:Hb; [done|].
  destruct (IH _ Hs) as [I1 I2]. assert (extends le (<[j:=<[Z.to_nat i:=Some e]> row]> le)) as Hx.
  { unfold extends. rewrite <-(list_insert_id le j row) at 1 by done. apply Forall2_insert; [by apply Forall_Forall2_diag, Forall_true; intros; apply Forall_Forall2_diag, Forall_true|].
    rewrite <-(list_insert_id row (Z.to_nat i) cand) at 1 by done. apply Forall2_insert; [by apply Forall_Forall2_diag, Forall_true|].
    intros e' ->. apply negb_false_iff, bool_decide_eq_true in Hb. by subst. }
  split; [by etrans|]. intros j' i' e' [[= -> -> ->]|Hin]%elem_of_cons; [|by apply I2].
  eapply found_extends; [exact I1|]. exists (<[Z.to_nat i:=Some e]> row). split; apply list_lookup_insert_eq; by eapply lookup_lt_Some.
Qed.

(** What the chunks of a partition say of the edges found: chunk [i] is cut into the intervals of [groups]. *)
Definition chunk_found (Es : list (list Z)) (p : list nat) (le : local_edges_map) (i : Z) (G : list Z) : Prop :=
  let c := delin i (edge_counts (pickn p Es)) in
  ∃ Ls, rectilinear_edge_lengths_from_intervals (edge_sizes (pickn p Es) c) G = Some Ls ∧
    ∀ t j ci L, p !! t = Some j → c !! t = Some ci → Ls !! t = Some L → found_at le j (Z.to_nat ci) L.

Lemma chunk_found_extends Es p le le' i G : extends le le' → chunk_found Es p le i G → chunk_found Es p le' i G.
Proof. intros Hx (Ls & H1 & H2). exists Ls. split; [done|]. intros. eapply found_extends; [done|]. by eapply H2. Qed.

Section loops.
Context (Es : list (list Z)) (p : list nat) (Hp : Forall (λ j, (j < length Es)%nat) p) (Hne : Forall (λ E, E ≠ []) Es).

Lemma counts_pos : Forall (λ d, 0 < d) (edge_counts (pickn p Es)).
Proof using Hp Hne.
  apply Forall_fmap, Forall_fmap. eapply Forall_impl; [exact Hp|]. intros j Hj. cbn [compose]. rewrite Forall_total in Hne. specialize (Hne j Hj).
  destruct (Es !!! j); [done|simpl; lia].
Qed.

Lemma local_shape_spec c sizes : index_in c (edge_counts (pickn p Es)) →
  collect_res (E:=GridError) (zip_with (λ dim outer_index, let? edges := expect (Es !! dim) in index edges outer_index) p c) = Ok sizes →
  sizes = edge_sizes (pickn p Es) c.
Proof using Hp.
  clear Hne. revert c sizes. induction Hp as [|j q Hj Hq IH]; intros c sizes Hc Hs; [by injection Hs as <-|]. inversion Hc as [|i ? c' ? Hi Hc']; subst.
  cbn [zip_with collect_res] in Hs. rewrite list_lookup_lookup_total_lt in Hs by done. cbn [expect obind] in Hs. unfold index at 1 in Hs.
  rewrite (proj2 (Z.leb_le _ _)) in Hs by lia. cbv beta in Hi. rewrite list_lookup_lookup_total_lt in Hs by lia. cbn [expect obind] in Hs.
  destruct (collect_res _) as [rest|e|] eqn:Hr; cbn [obind] in Hs; try done. injection Hs as <-. unfold edge_sizes. cbn [pickn fmap list_fmap zip_with]. f_equal.
  by apply (IH Hq c').
Qed.

Lemma partition_chunks_spec k groups le le' : 0 <= k → k + zlen groups <= Zprod (edge_counts (pickn p Es)) →
  partition_chunks p Es (edge_counts (pickn p Es)) k groups le = Ok (Some le') →
  extends le le' ∧ ∀ i G, groups !! i = Some G → chunk_found Es p le' (k + Z.of_nat i) G.
Proof using Hp Hne.
  intros Hk Hn. revert k le Hk Hn. induction groups as [|G groups IH]; intros k le Hk Hn Hs; cbn [partition_chunks] in Hs; [by injection Hs as <-|].
  pose proof counts_pos as Hcp. cbn [length] in Hn. rewrite unravel_flat_index_spec in Hs by (done || lia). cbn [obind] in Hs.
  pose proof (delin_in k _ Hcp ltac:(lia)) as Hin.
  destruct (collect_res _) as [sizes|e|] eqn:Hsz; cbn [obind] in Hs; try done. apply local_shape_spec in Hsz as ->; [|done].
  unfold or_none at 1 in Hs. cbn [obind] in Hs. destruct (rectilinear_edge_lengths_from_intervals _ G) as [Ls|] eqn:HL; [|done].
  unfold or_none in Hs. destruct (set_local_edges le _) as [[le1|]|e|] eqn:Hset; cbn [obind] in Hs; try done.
  destruct (set_local_edges_spec _ _ _ Hset) as [S1 S2]. destruct (IH (k + 1) le1 ltac:(lia) ltac:(lia) Hs) as [I1 I2]. split; [by etrans|].
  intros [|i] G' HG.
  - injection HG as <-. rewrite Z.add_0_r. exists Ls. split; [done|]. intros t j ci L H1 H2 H3. eapply found_extends; [exact I1|]. apply S2.
    apply list_elem_of_lookup. exists t. rewrite !lookup_zip_with. rewrite H1, H2, H3. done.
  - replace (k + Z.of_nat (S i)) with (k + 1 + Z.of_nat i) by lia. by apply I2.
Qed.
End loops.

Lemma collect_expect {E X} `{!Inhabited X} (l : list X) p : Forall (λ j, (j < length l)%nat) p → collect_res (E:=E) ((λ dim, expect (l !! dim)) <$> p) = Ok (pickn p l).
Proof.
  intros Hp. rewrite <-collect_res_Ok. unfold pickn. rewrite <-list_fmap_compose. f_equal. apply Forall_fmap_ext. eapply Forall_impl; [exact Hp|].
  intros j Hj. by rewrite list_lookup_lookup_total_lt.
Qed.

Lemma refine_partitions_spec (s : ChunkGrid) Es k0 qs le le' : grid_wf s → Forall (λ E, E ≠ []) Es → Forall edges_pos Es →
  Forall (Forall (λ j, (j < length Es)%nat)) qs → (k0 + length qs)%nat = length (grid_edges s) →
  refine_partitions s Es k0 qs le = Ok (Some le') →
  extends le le' ∧ ∀ k p, qs !! k = Some p → ∃ groups, split_edge_refinements (cart (pickn p Es)) (grid_edges s !!! (k0 + k)%nat) = Some groups ∧
    ∀ i G, groups !! i = Some G → chunk_found Es p le' (Z.of_nat i) G.
Proof.
  intros Hs Hne Hpos Hqs. revert k0 le. induction Hqs as [|p qs Hp Hqs IH]; intros k0 le Hk Hr; cbn [refine_partitions] in Hr; [by injection Hr as <-|].
  cbn [length] in Hk. rewrite collect_expect in Hr by done. cbn [obind] in Hr. unfold or_none at 1 in Hr. cbn [obind] in Hr.
  destruct (cartesian_product_edge_lengths (pickn p Es)) as [C|] eqn:HC; [|done]. apply cartesian_cart in HC as ->.
  destruct (wf_edges s Hs) as (_ & _ & _ & He). rewrite He in Hr by lia. cbn [obind] in Hr. unfold or_none at 1 in Hr. cbn [obind] in Hr.
  destruct (split_edge_refinements _ _) as [groups|] eqn:Hsplit; [|done]. unfold or_none at 1 in Hr.
  destruct (partition_chunks _ _ _ _ _ _) as [[le1|]|e|] eqn:Hpc; cbn [obind] in Hr; try done.
  destruct (wf_edges_at s k0 Hs ltac:(lia)) as [(S1 & _ & S3) _].
  assert (edges_pos (cart (pickn p Es))) as Hcp.
  { apply cart_pos, Forall_fmap. eapply Forall_impl; [exact Hp|]. intros j Hj. rewrite Forall_total in Hpos. by apply Hpos. }
  destruct (split_refines _ _ _ Hcp S1 S3 Hsplit) as [_ Href].
  assert (zlen groups = Zprod (edge_counts (pickn p Es))) as Hlen by (rewrite <-length_cart; f_equal; symmetry; apply (Forall2_length _ _ _ Href)).
  destruct (partition_chunks_spec Es p Hp Hne 0 groups le le1 ltac:(lia) ltac:(lia) Hpc) as [P1 P2].
  destruct (IH (S k0) le1 ltac:(lia) Hr) as [I1 I2]. split; [by etrans|]. intros [|k] q Hq.
  - injection Hq as <-. rewrite Nat.add_0_r. exists groups. split; [done|]. intros i G HG. eapply chunk_found_extends; [exact I1|]. by apply P2.
  - replace (k0 + S k)%nat with (S k0 + k)%nat by lia. by apply I2.
Qed.

Lemma edge_cells_total Es x x' : length x = length Es → length x' = length Es →
  edge_cells Es x = edge_cells Es x' ↔ ∀ t, (t < length Es)%nat → edge_cell (Es !!! t) (x !!! t) = edge_cell (Es !!! t) (x' !!! t).
Proof.
  intros Hx Hx'. unfold edge_cells. split.
  - intros Heq t Ht. assert (zip_with edge_cell Es x !!! t = zip_with edge_cell Es x' !!! t) as H by by rewrite Heq. by rewrite !zip_with_total in H by lia.
  - intros H. apply list_eq_total; rewrite !length_zip_with; [lia|]. intros t Ht. rewrite !zip_with_total by lia. apply H. lia.
Qed.

Lemma locals_total Es x t : (t < length Es)%nat → (t < length x)%nat →
  locals Es x !!! t = x !!! t - edge_start (Es !!! t) (edge_cell (Es !!! t) (x !!! t)).
Proof.
  intros HE Hx. unfold locals. assert (t < length (places Es x))%nat by (unfold places; rewrite length_zip_with; lia).
  rewrite (fmap_total snd) by (by rewrite length_fmap). rewrite (fmap_total fst) by done. by rewrite places_total.
Qed.

Lemma picked_cells Es p x x' : Forall (λ j, (j < length Es)%nat) p → length x = length Es → length x' = length Es → edge_cells Es x = edge_cells Es x' →
  edge_cells (pickn p Es) (pickn p x') = edge_cells (pickn p Es) (pickn p x).
Proof.
  intros Hp Hx Hx' Heq. rewrite !cells_places, !places_pickn by (done || lia). rewrite <-!pickn_fmap by (rewrite ?length_fmap, length_places by lia; by rewrite ?Hx, ?Hx').
  by rewrite <-!cells_places, Heq.
Qed.

Lemma flatten_concat row : flatten_row row = concat (default [] <$> row).
Proof. unfold flatten_row. induction row as [|o row IH]; [done|]. cbn [mbind list_bind fmap list_fmap concat]. by rewrite IH. Qed.

(** ** The decoded grid *)

Lemma edge_sizes_pos sh Es c : edges_cover_shape sh Es → index_in c (edge_counts Es) → Forall (λ d, 0 < d) (edge_sizes Es c).
Proof.
  intros H. revert c. induction H as [|len E sh Es (HE & _) H IH]; intros c Hc; inversion Hc as [|i ? c' ? Hi Hc']; subst; [constructor|].
  unfold edge_sizes in *. cbn [zip_with]. constructor; [by apply zat_pos|by apply IH].
Qed.

Section refine.
Context (g e s d : ChunkGrid) (ps : list (list nat)) (Hg : grid_wf g) (Hps : concat ps = seq 0 (length (grid_edges g))).
Context (He : encoded_chunk_grid_for_input_dim_partitions ps g = Ok (Some e)) (Hs : grid_wf s) (Hw : array_within e s).
Context (Hd : decoded_subchunk_grid_for_input_dim_partitions ps g s = Ok (Some d)).

#[local] Abbreviation Es := (grid_edges g).

Lemma dims_in : Forall (λ j, (j < length (grid_edges g))%nat) (concat ps).
Proof using Hps. rewrite Hps. apply Forall_forall. intros j [_ Hj]%elem_of_seq. lia. Qed.

Lemma found_edges : ∃ le', rectilinear_chunk_grid (array_shape g) (flatten_row <$> le') = Ok d ∧
  extends ((λ E : list Z, replicate (length E) None) <$> Es) le' ∧ length ps = length (grid_edges s) ∧
  ∀ k p, ps !! k = Some p → ∃ groups, split_edge_refinements (partition_cart g p) (grid_edges s !!! k) = Some groups ∧
    ∀ i G, groups !! i = Some G → chunk_found Es p le' (Z.of_nat i) G.
Proof using Hg Hps Hs Hd.
  unfold decoded_subchunk_grid_for_input_dim_partitions in Hd.
  destruct (Nat.eqb_spec (grid_dimensionality s) (length ps)) as [Hdim|]; [|done]. cbn [negb] in Hd. rewrite all_edge_lengths in Hd by done. cbn [obind] in Hd.
  unfold or_none in Hd. destruct (refine_partitions _ _ _ _ _) as [[le'|]|err|] eqn:Hr; cbn [obind] in Hd; try done.
  destruct (rectilinear_chunk_grid _ _) as [d'|err|] eqn:Hrect; cbn [obind] in Hd; try done. injection Hd as ->. exists le'. split; [done|].
  destruct (wf_edges s Hs) as (_ & Hsd & _).
  assert (Forall (λ E, E ≠ []) Es) as Hne.
  { apply Forall_total. intros j Hj Hnil. destruct (wf_edges_at g j Hg Hj) as [H1 H2]. pose proof (edges_nonempty _ _ H1 H2) as H3. rewrite Hnil in H3. simpl in H3. lia. }
  assert (Forall edges_pos Es) as Hpos by (apply Forall_total; intros j Hj; by destruct (wf_edges_at g j Hg Hj) as [(H1 & _) _]).
  destruct (refine_partitions_spec s Es 0 ps _ le' Hs Hne Hpos (proj1 (Forall_concat _ _) dims_in) ltac:(cbn [Nat.add]; lia) Hr) as [R1 R2].
  split_and!; [done|lia|done].
Qed.

(** A partition has a chunk with index [i] along one of its dimensions. *)
Lemma chunk_with p t j i : p ∈ ps → p !! t = Some j → (i < length (Es !!! j))%nat →
  ∃ c, index_in c (edge_counts (pickn p Es)) ∧ c !! t = Some (Z.of_nat i).
Proof using Hg Hps.
  intros Hp Ht Hi. pose proof (partition_in g ps dims_in p Hp) as Hpin. exists (<[t := Z.of_nat i]> (replicate (length p) 0)).
  assert (t < length p)%nat by (by eapply lookup_lt_Some). split; [|by apply list_lookup_insert_eq; rewrite length_replicate].
  unfold index_in. rewrite Forall2_total, length_insert, length_replicate, length_fmap. unfold pickn. rewrite length_fmap. split; [done|]. intros u Hu.
  rewrite (fmap_total (λ E, zlen E)) by (by rewrite length_fmap). rewrite fmap_total by done. rewrite Forall_total in Hpin. specialize (Hpin u Hu).
  destruct (decide (u = t)) as [->|Hne].
  - rewrite list_lookup_total_insert_eq by (by rewrite length_replicate). rewrite (list_lookup_total_correct _ _ _ Ht). lia.
  - rewrite list_lookup_total_insert_ne by done. rewrite lookup_total_replicate_2 by done. destruct (wf_edges_at g _ Hg Hpin) as [H1 H2].
    pose proof (edges_nonempty _ _ H1 H2). lia.
Qed.

(** The edges found for every chunk of every dimension refine its edge. *)
Lemma found_rows le' : extends ((λ E : list Z, replicate (length E) None) <$> Es) le' →
  (∀ k p, ps !! k = Some p → ∃ groups, split_edge_refinements (partition_cart g p) (grid_edges s !!! k) = Some groups ∧
    ∀ i G, groups !! i = Some G → chunk_found Es p le' (Z.of_nat i) G) → length ps = length (grid_edges s) →
  Forall2 (λ E row, refines E (default [] <$> row)) Es le'.
Proof using Hg Hps Hs.
  intros Hx Hall Hlen. assert (length le' = length Es) as Hll by (rewrite <-(Forall2_length _ _ _ Hx), length_fmap; done).
  rewrite Forall2_total. split; [done|]. intros j Hj. unfold extends in Hx. rewrite Forall2_total, length_fmap in Hx. destruct Hx as [_ Hx].
  specialize (Hx j Hj). rewrite (fmap_total (λ E : list Z, replicate (length E) None)) in Hx by done. pose proof (Forall2_length _ _ _ Hx) as Hlr. rewrite length_replicate in Hlr.
  unfold refines. rewrite Forall2_total, length_fmap. split; [done|]. intros i Hi. rewrite fmap_total by lia.
  assert (j ∈ concat ps) as Hin by (rewrite Hps; apply elem_of_seq; lia). apply list_elem_of_In, in_concat in Hin as (p & Hp & Hjp).
  apply list_elem_of_In, list_elem_of_lookup in Hp as [k Hk]. apply list_elem_of_In, list_elem_of_lookup in Hjp as [t Ht].
  destruct (Hall k p Hk) as (groups & Hsplit & Hfound). pose proof (partition_in g ps dims_in p (list_elem_of_lookup_2 _ _ _ Hk)) as Hpin.
  pose proof (partition_cover g ps Hg dims_in p (list_elem_of_lookup_2 _ _ _ Hk)) as Hcov. pose proof (cart_pos _ (cover_pos _ _ Hcov)) as Hcp.
  assert (k < length ps)%nat as Hk' by (by eapply lookup_lt_Some). destruct (wf_edges_at s k Hs ltac:(lia)) as [(S1 & _ & S3) _].
  destruct (split_refines _ _ _ Hcp S1 S3 Hsplit) as [_ Href].
  destruct (chunk_with p t j i (list_elem_of_lookup_2 _ _ _ Hk) Ht Hi) as (c & Hc & Hct).
  pose proof (lin_bound _ _ Hc) as Hb. rewrite <-length_cart in Hb. pose proof (Forall2_length _ _ _ Href) as Hlg. unfold partition_cart in Hlg.
  destruct (lookup_lt_is_Some_2 groups (Z.to_nat (lin c (edge_counts (pickn p Es))))) as [G HG]; [lia|].
  destruct (Hfound _ G HG) as (Ls & HL & HLf). rewrite Z2Nat.id in HL, HLf by lia. rewrite delin_lin in HL, HLf by done.
  pose proof (edge_sizes_pos _ _ _ Hcov Hc) as Hszp.
  assert (edges_pos G) as HGp by (destruct (Forall2_lookup_r _ _ _ _ _ Href HG) as (? & _ & ? & _); done).
  destruct (intervals_spec _ _ _ Hszp HGp HL) as [Hpf Hcart]. destruct (pivot_form_facts _ _ Hpf Hszp) as (F1 & F2 & F3).
  assert (t < length Ls)%nat as HtL.
  { rewrite F3. unfold edge_sizes. rewrite length_zip_with. apply lookup_lt_Some in Hct, Ht. unfold pickn. rewrite length_fmap. lia. }
  destruct (lookup_lt_is_Some_2 Ls t HtL) as [L HLt]. destruct (HLf t j (Z.of_nat i) L Ht Hct HLt) as (row & Hrow & HrowL). rewrite Nat2Z.id in HrowL.
  rewrite (list_lookup_total_correct _ _ _ Hrow). rewrite (list_lookup_total_correct _ _ _ HrowL). cbn [from_option id].
  rewrite Forall_lookup in F1. split; [by eapply F1|]. assert ((Zsum <$> Ls) !! t = edge_sizes (pickn p Es) c !! t) as Hsum by by rewrite F2.
  rewrite list_lookup_fmap, HLt in Hsum. unfold edge_sizes in Hsum. rewrite lookup_zip_with, Hct in Hsum. unfold pickn in Hsum. rewrite list_lookup_fmap, Ht in Hsum.
  cbn [fmap option_fmap option_map mbind option_bind] in Hsum. injection Hsum as ->. by rewrite Nat2Z.id.
Qed.

(** Along one dimension. *)
Lemma found_same le' j x x' L : Forall2 (λ E row, refines E (default [] <$> row)) Es le' → (j < length Es)%nat →
  0 <= x < Zsum (Es !!! j) → 0 <= x' < Zsum (Es !!! j) → edge_cell (Es !!! j) x = edge_cell (Es !!! j) x' →
  found_at le' j (Z.to_nat (edge_cell (Es !!! j) x)) L →
  edge_cell (flatten_row (le' !!! j)) x = edge_cell (flatten_row (le' !!! j)) x' ↔
  edge_cell L (x - edge_start (Es !!! j) (edge_cell (Es !!! j) x)) = edge_cell L (x' - edge_start (Es !!! j) (edge_cell (Es !!! j) x')).
Proof using Hg.
  intros Hrows Hj Hx Hx' Hsame (row & H1 & H2). rewrite Forall2_total in Hrows. destruct Hrows as [_ Hrows]. specialize (Hrows j Hj).
  rewrite (list_lookup_total_correct _ _ _ H1) in *. rewrite flatten_concat. destruct (wf_edges_at g j Hg Hj) as [(E1 & _) _].
  rewrite (refines_same _ _ x x' Hrows E1 Hx Hx' Hsame). cbv zeta. rewrite <-Hsame.
  assert ((default [] <$> row) !!! Z.to_nat (edge_cell (Es !!! j) x) = L) as ->; [|done].
  apply list_lookup_total_correct. by rewrite list_lookup_fmap, H2.
Qed.

(** Along the dimensions of one partition. *)
Lemma partition_same le' k p x x' : Forall2 (λ E row, refines E (default [] <$> row)) Es le' → ps !! k = Some p → (k < length (grid_edges s))%nat →
  (∃ groups, split_edge_refinements (partition_cart g p) (grid_edges s !!! k) = Some groups ∧
    ∀ i G, groups !! i = Some G → chunk_found Es p le' (Z.of_nat i) G) →
  index_in x (array_shape g) → index_in x' (array_shape g) → same_chunk g x x' →
  (∀ j, j ∈ p → edge_cell (flatten_row (le' !!! j)) (x !!! j) = edge_cell (flatten_row (le' !!! j)) (x' !!! j)) ↔
  edge_cell (grid_edges s !!! k) (combine (pickn p Es) (pickn p x)) = edge_cell (grid_edges s !!! k) (combine (pickn p Es) (pickn p x')).
Proof using Hg Hps Hs.
  intros Hrows Hk Hks (groups & Hsplit & Hfound) Hx Hx' Hsame. pose proof (list_elem_of_lookup_2 _ _ _ Hk) as Hp.
  pose proof (partition_in g ps dims_in p Hp) as Hpin. pose proof (partition_cover g ps Hg dims_in p Hp) as Hcov.
  pose proof (partition_index g ps Hg dims_in p x Hp Hx) as Hpx. pose proof (partition_index g ps Hg dims_in p x' Hp Hx') as Hpx'.
  pose proof (cart_pos _ (cover_pos _ _ Hcov)) as Hcp. destruct (wf_edges_at s k Hs Hks) as [(S1 & _ & S3) _].
  destruct (split_refines _ _ _ Hcp S1 S3 Hsplit) as [-> Href].
  destruct (combine_place _ _ _ Hcov Hpx) as [P1 P2]. destruct (combine_place _ _ _ Hcov Hpx') as [P1' P2'].
  pose proof (Forall2_length _ _ _ Hx) as Hlx. pose proof (Forall2_length _ _ _ Hx') as Hlx'. rewrite length_wf_edges in Hlx, Hlx' by done.
  assert (edge_cells (pickn p Es) (pickn p x') = edge_cells (pickn p Es) (pickn p x)) as Hcells by by apply picked_cells.
  pose proof (cells_in _ _ _ Hcov Hpx) as Hc. pose proof (lin_bound _ _ Hc) as Hb. rewrite <-length_cart in Hb. pose proof (Forall2_length _ _ _ Href) as Hlg.
  unfold partition_cart in Hlg, Href, Hcp, P2, P2'. set (c := edge_cells (pickn p Es) (pickn p x)) in *.
  destruct (lookup_lt_is_Some_2 groups (Z.to_nat (lin c (edge_counts (pickn p Es))))) as [G HG]; [lia|].
  destruct (Hfound _ G HG) as (Ls & HL & HLf). rewrite Z2Nat.id in HL, HLf by lia. rewrite delin_lin in HL, HLf by done.
  pose proof (edge_sizes_pos _ _ _ Hcov Hc) as Hszp.
  assert (edges_pos G) as HGp by (destruct (Forall2_lookup_r _ _ _ _ _ Href HG) as (? & _ & ? & _); done).
  destruct (intervals_spec _ _ _ Hszp HGp HL) as [Hpf Hcart]. destruct (pivot_form_facts _ _ Hpf Hszp) as (_ & _ & F3).
  pose proof (in_places _ _ _ Hcov Hpx) as Hl. pose proof (in_places _ _ _ Hcov Hpx') as Hl'. rewrite sizes_at_cells in Hl, Hl'. rewrite Hcells in Hl'. fold c in Hl.
  (* the encoded side *)
  unfold place in P1, P1'. injection P1 as P3 P4 P5. injection P1' as P3' P4' P5'. rewrite sizes_at_cells in P4, P4'. rewrite Hcells in P3', P4'. fold c in P3, P4.
  rewrite (refines_same _ groups _ (combine (pickn p Es) (pickn p x')) Href Hcp P2 P2') by (by rewrite P3, P3'). cbv zeta.
  rewrite P4. rewrite P3 in *. rewrite P3' in P4'. rewrite P4'. rewrite (list_lookup_total_correct _ _ _ HG). rewrite <-Hcart. rewrite <-(pivot_same _ Ls) by done.
  (* the decoded side *)
  assert (length p = length Ls) as Hlp.
  { rewrite F3. unfold edge_sizes, c, edge_cells, pickn. rewrite !length_zip_with, !length_fmap. lia. }
  rewrite edge_cells_total by (rewrite ?(Forall2_length _ _ _ Hl), ?(Forall2_length _ _ _ Hl'); lia).
  assert (∀ t, (t < length p)%nat → edge_cell (flatten_row (le' !!! (p !!! t))) (x !!! (p !!! t)) = edge_cell (flatten_row (le' !!! (p !!! t))) (x' !!! (p !!! t)) ↔
    edge_cell (Ls !!! t) (locals (pickn p Es) (pickn p x) !!! t) = edge_cell (Ls !!! t) (locals (pickn p Es) (pickn p x') !!! t)) as Hat.
  { intros t Ht. rewrite Forall_total in Hpin. pose proof (Hpin t Ht) as Hj. pose proof (list_lookup_lookup_total_lt p t Ht) as Hpt.
    assert (∀ z, length z = length Es → locals (pickn p Es) (pickn p z) !!! t =
      z !!! (p !!! t) - edge_start (Es !!! (p !!! t)) (edge_cell (Es !!! (p !!! t)) (z !!! (p !!! t)))) as Hloc.
    { intros z Hz. rewrite locals_total by (unfold pickn; rewrite !length_fmap; lia). unfold pickn. by rewrite !fmap_total by lia. }
    assert (∀ z, index_in z (array_shape g) → 0 <= z !!! (p !!! t) < Zsum (Es !!! (p !!! t))) as Hin.
    { intros z Hz. unfold index_in in Hz. rewrite Forall2_total in Hz. destruct Hz as [Hz1 Hz2]. rewrite length_wf_edges in Hz1 by done.
      specialize (Hz2 (p !!! t) ltac:(lia)). destruct (wf_edges_at g _ Hg Hj) as [(_ & H & _) _]. lia. }
    rewrite !Hloc by done. apply found_same; [done|done|by apply Hin..| |].
    - unfold same_chunk in Hsame. rewrite edge_cells_total in Hsame by done. by apply Hsame.
    - destruct (lookup_lt_is_Some_2 Ls t ltac:(lia)) as [L HLt]. rewrite (list_lookup_total_correct _ _ _ HLt). apply (HLf t (p !!! t)); [done| |done].
      unfold c, edge_cells, pickn. rewrite lookup_zip_with, !list_lookup_fmap, Hpt. done. }
  split.
  - intros H t Ht. apply Hat; [lia|]. apply H. apply list_elem_of_lookup_2 with t. apply list_lookup_lookup_total_lt. lia.
  - intros H j Hj. apply list_elem_of_lookup in Hj as [t Ht]. rewrite <-(list_lookup_total_correct _ _ _ Ht). apply lookup_lt_Some in Ht. apply Hat; [done|]. apply H. lia.
Qed.

Lemma partition_subchunks : grid_wf d ∧ array_within g d ∧
  ∀ x x', index_in x (array_shape g) → index_in x' (array_shape g) → same_chunk g x x' →
    same_chunk d x x' ↔ same_chunk s (partition_image g ps x) (partition_image g ps x').
Proof using Hg Hps He Hs Hw Hd.
  destruct found_edges as (le' & Hrect & Hx & Hlen & Hall). pose proof (found_rows le' Hx Hall Hlen) as Hrows.
  pose proof (Forall2_length _ _ _ Hrows) as Hll. destruct (wf_edges g Hg) as (Hcov & _).
  assert (edges_cover_shape (array_shape g) (flatten_row <$> le')) as Hcd.
  { unfold edges_cover_shape in *. rewrite Forall2_total in Hcov. rewrite Forall2_total in Hrows. rewrite Forall2_total. destruct Hcov as [Hl Hcov], Hrows as [_ Hrows]. rewrite length_fmap. split; [lia|].
    intros j Hj. rewrite fmap_total by lia. rewrite flatten_concat. destruct (Hcov j Hj) as (E1 & E2 & E3). specialize (Hrows j ltac:(lia)).
    pose proof (refines_pos _ _ Hrows E1). pose proof (refines_sum _ _ Hrows) as Hsum. by rewrite <-Hsum in E2, E3. }
  destruct (covering_rectilinear g d _ Hg Hcd Hrect) as (D1 & D2 & D3). split_and!; [done..|]. intros x x' Hix Hix' Hsame.
  pose proof (Forall2_length _ _ _ Hix) as Hlx. pose proof (Forall2_length _ _ _ Hix') as Hlx'. rewrite length_wf_edges in Hlx, Hlx' by done.
  unfold same_chunk at 1. rewrite !D3 by done. rewrite edge_cells_total by (rewrite length_fmap; lia). rewrite length_fmap.
  unfold same_chunk. rewrite edge_cells_total by (unfold partition_image; by rewrite length_fmap).
  assert (∀ k p, ps !! k = Some p → (∀ j, j ∈ p → edge_cell (flatten_row (le' !!! j)) (x !!! j) = edge_cell (flatten_row (le' !!! j)) (x' !!! j)) ↔
    edge_cell (grid_edges s !!! k) (partition_image g ps x !!! k) = edge_cell (grid_edges s !!! k) (partition_image g ps x' !!! k)) as Hk.
  { intros k p Hk. pose proof (lookup_lt_Some _ _ _ Hk). unfold partition_image. rewrite !fmap_total by done. rewrite (list_lookup_total_correct _ _ _ Hk).
    apply partition_same; try done; [lia|]. by apply Hall. }
  split.
  - intros H k Hlt. rewrite <-Hlen in Hlt. apply (Hk k (ps !!! k)); [by apply list_lookup_lookup_total_lt|]. intros j Hj.
    assert (j ∈ concat ps) as Hjc by (apply list_elem_of_In, in_concat; exists (ps !!! k); split; apply list_elem_of_In; [by eapply list_elem_of_lookup_2, list_lookup_lookup_total_lt|done]).
    rewrite Hps in Hjc. apply elem_of_seq in Hjc as [_ Hjc]. specialize (H j ltac:(lia)). by rewrite !fmap_total in H by lia.
  - intros H j Hj. rewrite !fmap_total by done. assert (j ∈ concat ps) as Hin by (rewrite Hps; apply elem_of_seq; lia).
    apply list_elem_of_In, in_concat in Hin as (p & Hp & Hjp). apply list_elem_of_In, list_elem_of_lookup in Hp as [k Hkp]. apply list_elem_of_In in Hjp.
    apply (proj2 (Hk k p Hkp)); [|done]. apply H. rewrite <-Hlen. by eapply lookup_lt_Some.
Qed.
End refine.
