(* ===== verification/ReshapeTheorems.v ===== *)
(** What reshaping keeps: the codec keeps the promise of subchunk grids, and the elements of chunks, of regions of chunks,
    and of the grids of chunks and subchunks. *)

From S2P Require Import Prelude ArraySubset Linear Iterators ChunkGrid RegularGrid RectilinearGrid RepeatGrid ByteRange StoreKey.
From S2P Require Import Storage ArrayBytes Elements StoreProgram DecodeInto Concurrency Codec ArrayToArray CodecChain Sharding.
From S2P Require Import Transpose TransposeLaws ChunkEdges Subchunking SubchunkLaws SubchunkCodecs SubchunkTheorems.
From S2P Require Import Reshape ReshapeGrids ReshapePartitions.

(** ** The shape of the encoded chunk *)

Lemma input_product_spec sh ds p0 p : Forall (λ d, 0 < d) sh → 0 < p0 → input_product sh ds p0 = Ok p → p = p0 * Zprod (pickn (Z.to_nat <$> ds) sh) ∧ 0 < p.
Proof.
  intros Hsh. revert p0. induction ds as [|d ds IH]; intros p0 H0 Hp; cbn [input_product] in Hp; [injection Hp as <-; split; [change (Zprod _) with 1; lia|done]|].
  destruct (sh !! Z.to_nat d) as [e|] eqn:He; [|done]. cbn [ok_or obind] in Hp. destruct (checked_mul p0 e) as [q|] eqn:Hq; [|done]. cbn [ok_or obind] in Hp.
  apply checked_mul_Some in Hq as [-> _]. rewrite Forall_lookup in Hsh. specialize (Hsh _ _ He) as Hpos. cbv beta in Hpos.
  destruct (IH (p0 * e) ltac:(nia) Hp) as [-> H2]. split; [|done]. cbn [fmap list_fmap pickn]. rewrite Zprod_cons, (list_lookup_total_correct _ _ _ He).
  unfold pickn. lia.
Qed.

(** What a dimension of the shape says of the extent. *)
Definition dim_extent (sh : list Z) (dim : ReshapeDim) (extent : Z) : Prop :=
  0 < extent ∧ match dim with
  | ReshapeSize size => extent = size
  | ReshapeInputDims ds => extent = Zprod (pickn (Z.to_nat <$> ds) sh)
  | ReshapeAuto => True
  end.

Lemma encoded_dims_loop_spec rs sh es0 fill0 es fill : Forall dim_ok rs → Forall (λ d, 0 < d) sh →
  encoded_dims_loop sh rs es0 fill0 = Ok (es, fill) → ∃ tail, es = es0 ++ tail ∧ Forall2 (dim_extent sh) rs tail ∧
  (fill = fill0 ∨ ∃ i, fill = Some i ∧ es !! i = Some 1 ∧ (length es0 <= i)%nat ∧ rs !! (i - length es0)%nat = Some ReshapeAuto).
Proof.
  intros Hrs Hsh. revert es0 fill0. induction Hrs as [|dim rs Hdim Hrs IH]; intros es0 fill0 Hl; cbn [encoded_dims_loop] in Hl.
  { injection Hl as <- <-. exists []. rewrite app_nil_r. split_and!; [done|constructor|by left]. }
  assert (∀ e fill1, dim_extent sh dim e → (fill1 = fill0 ∨ fill1 = Some (length es0) ∧ e = 1 ∧ dim = ReshapeAuto) →
    encoded_dims_loop sh rs (es0 ++ [e]) fill1 = Ok (es, fill) → ∃ tail, es = es0 ++ tail ∧ Forall2 (dim_extent sh) (dim :: rs) tail ∧
    (fill = fill0 ∨ ∃ i, fill = Some i ∧ es !! i = Some 1 ∧ (length es0 <= i)%nat ∧ (dim :: rs) !! (i - length es0)%nat = Some ReshapeAuto)) as Hstep.
  { intros e fill1 He Hf Hloop. destruct (IH _ _ Hloop) as (tail & -> & H2 & H3). exists (e :: tail). rewrite <-app_assoc in *. cbn [app] in *. split_and!; [done|by constructor|].
    destruct H3 as [->|(i & -> & H4 & H5 & H6)].
    - destruct Hf as [->|(-> & -> & ->)]; [by left|]. right. exists (length es0). rewrite list_lookup_middle by done. rewrite Nat.sub_diag. split_and!; [done|done|lia|done].
    - right. exists i. rewrite length_app in H5, H6. simpl in H5, H6. split_and!; [done|done|lia|].
      replace (i - length es0)%nat with (S (i - (length es0 + 1))) by lia. done. }
  destruct dim as [size|ds|]; cbn [dim_ok] in Hdim.
  - apply (Hstep size fill0); [split; [lia|done]|by left|done].
  - destruct (input_product sh ds 1) as [p|e|] eqn:Hp; cbn [obind] in Hl; try done.
    destruct (input_product_spec sh ds 1 p Hsh ltac:(lia) Hp) as [Hpp Hpos]. apply (Hstep p fill0); [split; [done|lia]|by left|done].
  - apply (Hstep 1 (Some (length es0))); [by split|by right|done].
Qed.

Lemma Zprod_insert es i q : es !! i = Some 1 → Zprod (<[i := q]> es) = q * Zprod es.
Proof.
  revert i. induction es as [|e es IH]; intros i Hi; [done|]. destruct i as [|i]; cbn [insert list_insert]; rewrite !Zprod_cons; [injection Hi as ->; lia|].
  change (list_insert i q es) with (<[i := q]> es). rewrite IH by done. lia.
Qed.

Lemma get_encoded_shape_spec rs sh es : Forall dim_ok rs → Forall (λ d, 0 < d) sh → get_encoded_shape rs sh = Ok es →
  Forall2 (dim_extent sh) rs es ∧ Zprod es = Zprod sh ∧ Zprod sh < u64_modulus.
Proof.
  intros Hrs Hsh Hg. unfold get_encoded_shape in Hg. destruct (encoded_dims_loop sh rs [] None) as [[es0 fill]|e|] eqn:Hl; cbn [obind] in Hg; try done.
  destruct (encoded_dims_loop_spec _ _ _ _ _ _ Hrs Hsh Hl) as (tail & -> & Ht & Hf). cbn [app] in *.
  assert (Forall (λ d, 0 <= d) sh) as Hnn by (eapply Forall_impl; [exact Hsh|]; simpl; lia).
  assert (Forall (λ d, 0 < d) tail) as Htp by (clear - Ht; induction Ht as [|dim e rs tail [He _] Ht IH]; by constructor).
  destruct (checked_product sh) as [n|] eqn:Hn; cbn [ok_or obind] in Hg; [|done]. apply checked_product_Some in Hn as [-> Hu]; [|done].
  destruct (checked_product tail) as [m|] eqn:Hm; cbn [ok_or obind] in Hg; [|done].
  apply checked_product_Some in Hm as [-> _]; [|by eapply Forall_impl; [exact Htp|]; simpl; lia].
  destruct fill as [i|].
  - destruct Hf as [?|(i' & [= <-] & Hi & _ & Hauto)]; [done|]. cbn [length] in Hauto. rewrite Nat.sub_0_r in Hauto.
    destruct (Z.eqb_spec (Zprod sh mod Zprod tail) 0) as [Hz|]; [|done]. destruct (Z.eqb_spec (Zprod sh / Zprod tail) 0); [done|]. cbn [expect obind] in Hg. injection Hg as <-.
    pose proof (Zprod_pos tail Htp) as Hpt. apply Z.div_exact in Hz; [|lia]. pose proof (Z.div_pos (Zprod sh) (Zprod tail) ltac:(by apply Zprod_nonneg) Hpt).
    split_and!; [|rewrite Zprod_insert by done; lia|done]. rewrite <-(list_insert_id rs i ReshapeAuto) by done. apply Forall2_insert; [done|]. split; [lia|done].
  - destruct (Z.eqb_spec (Zprod sh) (Zprod tail)) as [Heq|]; [|done]. injection Hg as <-. done.
Qed.

Lemma dim_extents_pos sh rs es : Forall2 (dim_extent sh) rs es → Forall (λ d, 0 < d) es.
Proof. induction 1 as [|dim e rs es [He _] H IH]; by constructor. Qed.

(** The extents of an encoded chunk; they are those of [get_encoded_shape] when it returns, see [reshaped_shape_agrees]. *)
Definition reshaped_shape (rs : ReshapeShape) (sh : list Z) : list Z :=
  match input_dim_partitions rs (length sh) with
  | Some ps => (λ p, Zprod (pickn p sh)) <$> ps
  | None => match get_encoded_shape rs sh with Ok es => es | _ => sh end
  end.

Lemma input_dim_partitions_shape rs n ps : input_dim_partitions rs n = Some ps → ∃ dss, rs = ReshapeInputDims <$> dss ∧ ps = fmap (M:=list) Z.to_nat <$> dss.
Proof.
  unfold input_dim_partitions. destruct (partitions_loop _ _) as [[ps' seen]|] eqn:Hl; [|done]. cbn [mbind option_bind]. destruct (forallb id seen); [|done].
  intros [= ->]. destruct (partitions_loop_spec _ _ _ _ Hl) as (dss & -> & -> & _). by exists dss.
Qed.

Lemma reshaped_shape_agrees rs sh es : Forall dim_ok rs → Forall (λ d, 0 < d) sh → get_encoded_shape rs sh = Ok es → reshaped_shape rs sh = es.
Proof.
  intros Hrs Hsh Hg. unfold reshaped_shape. destruct (input_dim_partitions rs (length sh)) as [ps|] eqn:Hps; [|by rewrite Hg].
  destruct (get_encoded_shape_spec _ _ _ Hrs Hsh Hg) as [H _]. destruct (input_dim_partitions_shape _ _ _ Hps) as (dss & -> & ->). clear Hps Hg Hrs Hsh.
  revert es H. induction dss as [|ds dss IH]; intros es H; inversion H as [|? e ? es' [_ He] H']; subst; [done|]. cbn [fmap list_fmap]. f_equal. by apply IH.
Qed.

(** Chunks of one shape. *)
Lemma regular_chunk_shape_spec (g : ChunkGrid) sh : grid_wf g → regular_chunk_shape g = Ok (Some sh) →
  Forall2 (λ E d, E = replicate (length E) d ∧ 0 < d ∧ (0 < length E)%nat) (grid_edges g) sh.
Proof.
  intros Hg Hr. unfold regular_chunk_shape in Hr. destruct (wf_edges g Hg) as (_ & Hd & _ & He). rewrite Hd in Hr.
  assert (∀ n k sh, (k + n <= length (grid_edges g))%nat → regular_dims g (seq k n) = Ok (Some sh) →
    Forall2 (λ E d, E = replicate (length E) d ∧ 0 < d ∧ (0 < length E)%nat) (take n (drop k (grid_edges g))) sh) as H.
  { clear Hr sh. induction n as [|n IH]; intros k sh Hk Hr; cbn [seq regular_dims] in Hr; [by injection Hr as <-|].
    rewrite He in Hr by lia. cbn [obind] in Hr. rewrite (drop_S _ _ _ (list_lookup_lookup_total_lt (grid_edges g) k ltac:(lia))). cbn [take].
    destruct (wf_edges_at g k Hg ltac:(lia)) as [(E1 & _) _]. set (E := grid_edges g !!! k) in *.
    destruct (head E) as [f|] eqn:Hf; [|done]. destruct (existsb _ E) eqn:Hex; [done|].
    destruct (regular_dims g (seq (S k) n)) as [[rest|]|e|] eqn:Hrest; cbn [obind] in Hr; try done. injection Hr as <-. constructor; [|apply IH; [lia|done]].
    destruct E as [|f' E]; [done|]. injection Hf as ->. rewrite existsb_total_false in Hex. split_and!; [|by apply Forall_cons in E1 as []|simpl; lia].
    apply list_eq_total; [by rewrite length_replicate|]. intros i Hi. specialize (Hex i Hi). apply negb_false_iff, Z.eqb_eq in Hex.
    by rewrite lookup_total_replicate_2 by done. }
  specialize (H (length (grid_edges g)) 0%nat sh ltac:(lia) Hr). by rewrite drop_0, firstn_all in H.
Qed.

Lemma identity_partitions ps sh : input_dim_partitions_are_identity ps = true → length ps = length sh → (λ p, Zprod (pickn p sh)) <$> ps = sh.
Proof.
  intros Hid Hl. unfold input_dim_partitions_are_identity in Hid. rewrite forallb_forall in Hid. apply list_eq_total; rewrite length_fmap; [done|]. intros j Hj.
  rewrite (fmap_total (λ p, Zprod (pickn p sh))) by done. assert (ps !!! j = [j]) as ->.
  { specialize (Hid (j, ps !!! j)). apply bool_decide_eq_true in Hid; [done|]. apply list_elem_of_In. apply list_elem_of_lookup. exists j.
    rewrite list_lookup_imap, list_lookup_lookup_total_lt by done. done. }
  unfold pickn. cbn [fmap list_fmap]. rewrite Zprod_cons. change (Zprod []) with 1. lia.
Qed.

(** ** Repeated chunks *)

(** The place of the elements of the chunk [C]: encoded chunks are in a row along the last dimension. *)
Definition along_last (n : nat) (first last : Z) : list Z := <[(n - 1)%nat := last]> (replicate n first).

Definition repeated_image (es : list Z) (C L : Z) : list Z := zip_with Z.add (zip_with Z.mul (along_last (length es) 0 C) es) (delin L es).

Lemma length_along_last n a b : length (along_last n a b) = n.
Proof. unfold along_last. by rewrite length_insert, length_replicate. Qed.

Lemma along_last_total n a b j : (j < n)%nat → along_last n a b !!! j = if decide (j = (n - 1)%nat) then b else a.
Proof.
  intros Hj. unfold along_last. case_decide as Hd.
  - subst j. apply list_lookup_total_insert_eq. rewrite length_replicate. lia.
  - rewrite list_lookup_total_insert_ne by lia. by apply lookup_total_replicate_2.
Qed.

Lemma repeat_shape_spec gs n r : repeat_shape gs n = Some r → Forall (λ d, 0 <= d) gs → (0 < n)%nat ∧ r = along_last n 1 (Zprod gs).
Proof.
  unfold repeat_shape. intros Hr Hgs. destruct (Nat.eqb_spec n 0); [done|]. destruct (checked_product gs) as [m|] eqn:Hm; [|done].
  apply checked_product_Some in Hm as [-> _]; [|done]. injection Hr as <-. split; [lia|done].
Qed.

Lemma repeated_place es reps C L : Forall (λ d, 0 < d) es → 0 <= C < reps → (0 < length es)%nat → 0 <= L < Zprod es →
  index_in (repeated_image es C L) (zip_with Z.mul es (along_last (length es) 1 reps)) ∧
  places (zip_with (λ E r, copies (Z.to_nat r) E) ((λ d, [d]) <$> es) (along_last (length es) 1 reps)) (repeated_image es C L) =
    zip (zip (along_last (length es) 0 C) (delin L es)) es.
Proof.
  intros Hes HC Hn HL. pose proof (delin_in L es Hes HL) as Hin. unfold index_in in Hin. rewrite Forall2_total in Hin. destruct Hin as [Hl Hin]. rewrite Hl in Hin.
  pose proof (length_along_last (length es) 0 C) as L1. pose proof (length_along_last (length es) 1 reps) as L2. rewrite Forall_total in Hes.
  assert (∀ j, (j < length es)%nat → 0 <= along_last (length es) 0 C !!! j < along_last (length es) 1 reps !!! j) as Hq.
  { intros j Hj. rewrite !along_last_total by done. case_decide; lia. }
  assert (length (repeated_image es C L) = length es) as Hli by (unfold repeated_image; rewrite !length_zip_with; lia).
  assert (∀ j, (j < length es)%nat → repeated_image es C L !!! j = along_last (length es) 0 C !!! j * es !!! j + delin L es !!! j) as Hat.
  { intros j Hj. unfold repeated_image. rewrite !zip_with_total by (rewrite ?length_zip_with; lia). done. }
  split.
  - unfold index_in. rewrite Forall2_total, length_zip_with. split; [lia|]. rewrite Hli. intros j Hj. rewrite Hat by done. rewrite zip_with_total by lia.
    specialize (Hq j Hj). specialize (Hin j Hj). specialize (Hes j Hj). nia.
  - apply list_eq_total; [rewrite length_places; rewrite ?length_zip_with, ?length_fmap; lia|].
    rewrite length_places by (rewrite length_zip_with, length_fmap; lia). rewrite Hli. intros j Hj.
    rewrite places_total by (rewrite ?length_zip_with, ?length_fmap; lia). rewrite !zip_with_total by (rewrite ?length_zip_with, ?length_fmap; lia).
    rewrite (fmap_total (λ d, [d])) by done. rewrite Hat by done. specialize (Hq j Hj). specialize (Hin j Hj). specialize (Hes j Hj). cbv beta in Hes.
    assert (copies (Z.to_nat (along_last (length es) 1 reps !!! j)) [es !!! j] = replicate (Z.to_nat (along_last (length es) 1 reps !!! j)) (es !!! j)) as ->.
    { clear. generalize (Z.to_nat (along_last (length es) 1 reps !!! j)). induction n as [|n IH]; [done|]. cbn [copies replicate concat app] in *. unfold copies in *. cbn [replicate concat app]. by rewrite IH. }
    rewrite place_replicate by nia. rewrite Z.div_add_l, Z.div_small, Z.add_0_r by lia. rewrite Z.add_comm, Z.mod_add, Z.mod_small by lia. done.
Qed.

(** ** The codec *)

Definition reshape_image (rs : ReshapeShape) (g : ChunkGrid) (x : list Z) : list Z :=
  match grid_mapping rs g with
  | Ok (MapInputDimPartitions ps) => partition_image g ps x
  | Ok (MapRepeated sh es _) =>
      repeated_image es (lin (edge_cells (grid_edges g) x) (edge_counts (grid_edges g))) (lin (locals (grid_edges g) x) sh)
  | _ => x
  end.

(** What the mapping of a grid says of it. *)
Lemma grid_mapping_spec rs (g : ChunkGrid) m : grid_wf g → grid_mapping rs g = Ok m →
  match m with
  | MapIdentity =>
      (∃ ps, input_dim_partitions rs (length (grid_edges g)) = Some ps ∧ input_dim_partitions_are_identity ps = true) ∨
      (input_dim_partitions rs (length (grid_edges g)) = None ∧ ∃ sh, regular_chunk_shape g = Ok (Some sh) ∧ get_encoded_shape rs sh = Ok sh)
  | MapInputDimPartitions ps => input_dim_partitions rs (length (grid_edges g)) = Some ps
  | MapRepeated sh es repeats => input_dim_partitions rs (length (grid_edges g)) = None ∧ regular_chunk_shape g = Ok (Some sh) ∧
      get_encoded_shape rs sh = Ok es ∧ repeat_shape (grid_shape g) (length es) = Some repeats
  | _ => True
  end.
Proof.
  intros Hg Hm. destruct (wf_edges g Hg) as (_ & Hd & _). unfold grid_mapping in Hm. rewrite Hd in Hm.
  destruct (input_dim_partitions rs (length (grid_edges g))) as [ps|] eqn:Hps.
  { injection Hm as <-. destruct (input_dim_partitions_are_identity ps) eqn:Hid; [|done]. left. by exists ps. }
  destruct (regular_chunk_shape g) as [[sh|]|e|] eqn:Hr; cbn [obind] in Hm; try done; [|by injection Hm as <-].
  destruct (get_encoded_shape rs sh) as [es|e|] eqn:He; try done; [|by injection Hm as <-]. case_bool_decide as Heq.
  - injection Hm as <-. subst es. right. split; [done|]. by exists sh.
  - destruct (repeat_shape (grid_shape g) (length es)) as [r|] eqn:Hrep; injection Hm as <-; [|done]. done.
Qed.

(** In a grid of chunks of one shape. *)
Lemma regular_places Es sh x ash : Forall2 (λ E d, E = replicate (length E) d ∧ 0 < d ∧ (0 < length E)%nat) Es sh → edges_cover_shape ash Es → index_in x ash →
  sizes_at Es x = sh ∧ ∀ j, (j < length Es)%nat → 
    let n := length (Es !!! j) in let q := x !!! j / sh !!! j in
    edge_cell (Es !!! j) (x !!! j) = q ∧ locals Es x !!! j = x !!! j mod sh !!! j ∧ 0 <= q < Z.of_nat n ∧ x !!! j = q * sh !!! j + x !!! j mod sh !!! j.
Proof.
  intros Hr Hc Hx. unfold edges_cover_shape in Hc. unfold index_in in Hx. rewrite Forall2_total in Hr. rewrite Forall2_total in Hc. rewrite Forall2_total in Hx.
  destruct Hr as [Hl Hr], Hc as [Hlc Hc], Hx as [Hlx Hx].
  assert (∀ j, (j < length Es)%nat → place (Es !!! j) (x !!! j) = (x !!! j / sh !!! j, x !!! j mod sh !!! j, sh !!! j) ∧
    0 <= x !!! j < Z.of_nat (length (Es !!! j)) * sh !!! j ∧ 0 < sh !!! j) as Hp.
  { intros j Hj. destruct (Hr j Hj) as (H1 & H2 & H3). destruct (Hc j ltac:(lia)) as (_ & H4 & _). specialize (Hx j ltac:(lia)).
    assert (Zsum (Es !!! j) = Z.of_nat (length (Es !!! j)) * sh !!! j) as Hsum by (rewrite H1 at 1; apply Zsum_replicate).
    split_and!; [|lia|lia|done]. rewrite H1 at 1. apply place_replicate; [done|lia]. }
  assert (length (places Es x) = length Es) as Hlp by (unfold places; rewrite length_zip_with; lia). split.
  - apply list_eq_total; unfold sizes_at; rewrite length_fmap; [lia|]. intros j Hj. rewrite (fmap_total snd) by done. rewrite places_total by lia.
    destruct (Hp j ltac:(lia)) as [-> _]. done.
  - intros j Hj n q. destruct (Hp j Hj) as (Hpl & Hb & Hd). unfold place in Hpl. injection Hpl as P1 P2 P3. split_and!; [done| |by apply Z.div_pos; lia|by apply Z.div_lt_upper_bound; lia|].
    + rewrite locals_total by lia. done.
    + unfold q. pose proof (Z.div_mod (x !!! j) (sh !!! j)). lia.
Qed.

(** Elements of one copy are in one of its edges when they are where they are in the copied edges. *)
Lemma copies_same Gs ns ds q a a' : Forall2 (λ d G, edges_pos G ∧ Zsum G = d) ds Gs → Forall (λ d, 0 < d) ds → index_in q ns → length ns = length ds →
  index_in a ds → index_in a' ds →
  edge_cells (zip_with (λ G n, copies (Z.to_nat n) G) Gs ns) (zip_with Z.add (zip_with Z.mul q ds) a) =
  edge_cells (zip_with (λ G n, copies (Z.to_nat n) G) Gs ns) (zip_with Z.add (zip_with Z.mul q ds) a') ↔ edge_cells Gs a = edge_cells Gs a'.
Proof.
  intros HG Hd Hq Hl. revert q ns a a' Hq Hl. induction HG as [|d G ds Gs [HG1 HG2] HG IH]; intros q ns a a' Hq Hl Ha Ha'; inversion Ha as [|i ? b ? Hi Hb]; subst;
    inversion Ha' as [|i' ? b' ? Hi' Hb']; subst; [by destruct q|]. destruct ns as [|n ns]; [done|]. inversion Hq as [|c ? q' ? Hc Hq']; subst.
  apply Forall_cons in Hd as [Hd0 Hd]. unfold edge_cells in *. cbn [zip_with]. rewrite !(copies_cell _ (Zsum G) G c) by (done || lia).
  pose proof (IH Hd q' ns b b' Hq' ltac:(simpl in Hl; lia) Hb Hb') as Hiff. split.
  - intros [= H1 H2]. f_equal; [lia|by apply Hiff].
  - intros [= H1 H2]. f_equal; [lia|by apply Hiff].
Qed.

(** An element of chunks of one shape, from its chunk and its place in it. *)
Lemma regular_element Es sh x ash : Forall2 (λ E d, E = replicate (length E) d ∧ 0 < d ∧ (0 < length E)%nat) Es sh → edges_cover_shape ash Es → index_in x ash →
  x = zip_with Z.add (zip_with Z.mul (edge_cells Es x) sh) (locals Es x).
Proof.
  intros Hr Hc Hx. destruct (regular_places _ _ _ _ Hr Hc Hx) as [_ Hp]. pose proof (Forall2_length _ _ _ Hr). pose proof (Forall2_length _ _ _ Hc). pose proof (Forall2_length _ _ _ Hx).
  assert (length (locals Es x) = length Es) as Hll by (unfold locals, places; rewrite !length_fmap, length_zip_with; lia).
  assert (length (edge_cells Es x) = length Es) as Hlc by (unfold edge_cells; rewrite length_zip_with; lia).
  apply list_eq_total; [rewrite !length_zip_with; lia|]. intros j Hj. rewrite !zip_with_total by (rewrite ?length_zip_with; lia).
  destruct (Hp j ltac:(lia)) as (P1 & P2 & _ & P4). unfold edge_cells. rewrite zip_with_total by lia. rewrite P1, P2. exact P4.
Qed.

(** The tiles of a grid of subchunks. *)
Lemma tile_edges_spec (s : ChunkGrid) k dims Ts : grid_wf s → (k + length dims)%nat = length (grid_edges s) →
  Forall (λ d, 0 < d.1 ∧ 0 < d.2) dims → tile_edges s k dims = Ok (Some Ts) →
  Forall2 (λ d T, edges_pos T ∧ Zsum T = d.1) dims Ts ∧ drop k (grid_edges s) = zip_with (λ T r, copies (Z.to_nat r) T) Ts dims.*2.
Proof.
  intros Hs. revert k Ts. induction dims as [|[e r] dims IH]; intros k Ts Hk Hpos Ht; cbn [tile_edges] in Ht.
  { injection Ht as <-. split; [constructor|]. cbn [length] in Hk. apply drop_ge. lia. }
  cbn [length] in Hk. destruct (wf_edges s Hs) as (_ & _ & _ & He). apply Forall_cons in Hpos as [[Hpe Hpr] Hpos]. cbn [fst snd] in Hpe, Hpr.
  rewrite He in Ht by lia. cbn [obind] in Ht. unfold or_none at 1 in Ht. cbn [obind] in Ht.
  destruct (split_edge_refinements _ _) as [groups|] eqn:Hsplit; [|done]. unfold or_none at 1 in Ht. cbn [obind] in Ht.
  destruct (head groups) as [T|] eqn:HT; [|done]. destruct (existsb _ groups) eqn:Hex; [done|]. unfold or_none in Ht.
  destruct (tile_edges s (S k) dims) as [[rest|]|err|] eqn:Hrest; cbn [obind] in Ht; try done. injection Ht as <-.
  destruct (IH (S k) rest ltac:(lia) Hpos Hrest) as [I1 I2]. destruct (wf_edges_at s k Hs ltac:(lia)) as [(S1 & _ & S3) _].
  assert (edges_pos (replicate (Z.to_nat r) e)) as Hep by by apply Forall_replicate.
  destruct (split_refines _ _ _ Hep S1 S3 Hsplit) as [Hcat Href].
  assert (groups = replicate (Z.to_nat r) T) as Hrep.
  { pose proof (Forall2_length _ _ _ Href) as Hl. rewrite length_replicate in Hl. rewrite existsb_total_false in Hex.
    apply list_eq_total; [by rewrite length_replicate|]. intros j Hj. rewrite lookup_total_replicate_2 by lia. specialize (Hex j Hj).
    apply negb_false_iff, bool_decide_eq_true in Hex. done. }
  assert (edges_pos T ∧ Zsum T = e) as HTe.
  { destruct groups as [|G groups]; [done|]. injection HT as ->. destruct (Z.to_nat r) eqn:Hr; [lia|]. cbn [replicate] in Href. by inversion Href. }
  split; [by constructor|]. rewrite (drop_S _ _ _ (list_lookup_lookup_total_lt (grid_edges s) k ltac:(lia))). cbn [fmap list_fmap zip_with snd]. f_equal; [|done].
  rewrite Hcat, Hrep. done.
Qed.

Section laws.
Context (rs : ReshapeShape) (g : ChunkGrid) (Hrs : reshape_wf rs) (Hg : grid_wf g).

Lemma sizes_pos x : index_in x (array_shape g) → Forall (λ d, 0 < d) (sizes_at (grid_edges g) x) ∧ length (sizes_at (grid_edges g) x) = length (grid_edges g).
Proof using Hg.
  intros Hx. destruct (wf_edges g Hg) as (Hc & _). split.
  - rewrite sizes_at_cells. eapply edge_sizes_pos; [exact Hc|]. by eapply cells_in.
  - pose proof (Forall2_length _ _ _ Hx) as Hl. pose proof (length_wf_edges g Hg). unfold sizes_at. rewrite length_fmap, length_places; lia.
Qed.

Lemma reshape_identity_shape m x : grid_mapping rs g = Ok m → m = MapIdentity → index_in x (array_shape g) →
  reshaped_shape rs (sizes_at (grid_edges g) x) = sizes_at (grid_edges g) x.
Proof using Hg Hrs.
  intros Hm -> Hx. destruct (sizes_pos x Hx) as [Hpos Hlen]. unfold reshaped_shape. rewrite Hlen.
  destruct (grid_mapping_spec rs g _ Hg Hm) as [(ps & Hps & Hid)|(Hps & sh & Hr & He)]; rewrite Hps.
  - apply identity_partitions; [done|]. rewrite Hlen. destruct (partitions_consecutive _ _ _ Hrs Hps) as [Hc _].
    unfold input_dim_partitions_are_identity in Hid. rewrite forallb_forall in Hid.
    assert (∀ p, p ∈ ps → length p = 1%nat) as H1.
    { intros p Hp. apply list_elem_of_lookup in Hp as [j Hj]. specialize (Hid (j, p)). apply bool_decide_eq_true in Hid; [cbn [fst snd] in Hid; by rewrite Hid|].
      apply list_elem_of_In, list_elem_of_lookup. exists j. by rewrite list_lookup_imap, Hj. }
    assert (length (concat ps) = length ps) as Hl; [|by rewrite <-Hl, Hc, length_seq].
    clear - H1. induction ps as [|p ps IH]; [done|]. cbn [concat length]. rewrite length_app, IH, H1; [done|left|]. intros q Hq. apply H1. by right.
  - pose proof (regular_chunk_shape_spec g sh Hg Hr) as Hreg. destruct (wf_edges g Hg) as (Hc & _).
    destruct (regular_places _ _ x _ Hreg Hc Hx) as [-> _]. by rewrite He.
Qed.

Lemma partitions_in ps : input_dim_partitions rs (length (grid_edges g)) = Some ps → Forall (λ j, (j < length (grid_edges g))%nat) (concat ps).
Proof using Hrs.
  intros Hps. destruct (partitions_consecutive _ _ _ Hrs Hps) as [-> _]. apply Forall_forall. intros j [_ Hj]%elem_of_seq. lia.
Qed.

(** The encoded grid of a mapping of partitions. *)
Lemma partitions_encoded ps e x : input_dim_partitions rs (length (grid_edges g)) = Some ps →
  encoded_chunk_grid_for_input_dim_partitions ps g = Ok (Some e) → index_in x (array_shape g) →
  let y := partition_image g ps x in let sh := sizes_at (grid_edges g) x in
  index_in y (array_shape e) ∧ sizes_at (grid_edges e) y = reshaped_shape rs sh ∧
  lin (locals (grid_edges e) y) (reshaped_shape rs sh) = lin (locals (grid_edges g) x) sh ∧ Zprod (reshaped_shape rs sh) = Zprod sh ∧
  edge_cells (grid_edges e) y = (λ p, lin (pickn p (edge_cells (grid_edges g) x)) (edge_counts (pickn p (grid_edges g)))) <$> ps.
Proof using Hg Hrs.
  intros Hps He Hx. destruct (partitions_consecutive _ _ _ Hrs Hps) as [Hcat _]. pose proof (partitions_in ps Hps) as Hin.
  destruct (partition_grid g ps Hg Hin e He) as (H1 & H2 & H3). destruct (partition_places g ps Hg Hin x Hx) as [H4 H5]. cbv zeta.
  destruct (sizes_pos x Hx) as [_ Hlen]. assert (length (locals (grid_edges g) x) = length (grid_edges g)) as Hll.
  { unfold locals. rewrite !length_fmap. unfold sizes_at in Hlen. by rewrite length_fmap in Hlen. }
  assert (reshaped_shape rs (sizes_at (grid_edges g) x) = (λ p, Zprod (pickn p (sizes_at (grid_edges g) x))) <$> ps) as Hsh.
  { unfold reshaped_shape. by rewrite Hlen, Hps. }
  rewrite Hsh. split_and!; [by rewrite H2| | | |].
  - unfold sizes_at at 1. rewrite H3, H5, <-list_fmap_compose. done.
  - unfold locals at 1. rewrite H3, H5, <-!list_fmap_compose.
    etrans; [exact (lin_partition ps (locals (grid_edges g) x) (sizes_at (grid_edges g) x))|]. rewrite Hcat.
    rewrite <-Hlen at 2. rewrite <-Hll at 1. by rewrite !pickn_seq.
  - assert (∀ ps, Zprod ((λ p, Zprod (pickn p (sizes_at (grid_edges g) x))) <$> ps) = Zprod (pickn (concat ps) (sizes_at (grid_edges g) x))) as ->.
    { clear. induction ps as [|p ps IH]; [done|]. cbn [fmap list_fmap concat]. by rewrite Zprod_cons, pickn_app, Zprod_app, <-IH. }
    rewrite Hcat. rewrite <-Hlen at 1. by rewrite pickn_seq.
  - rewrite cells_places, H3, H5, <-!list_fmap_compose. done.
Qed.

(** The encoded grid of a mapping of repeated chunks. *)
Lemma repeated_encoded sh es repeats e : input_dim_partitions rs (length (grid_edges g)) = None → regular_chunk_shape g = Ok (Some sh) →
  get_encoded_shape rs sh = Ok es → repeat_shape (grid_shape g) (length es) = Some repeats → repeated_chunk_grid es repeats = Ok (Some e) →
  grid_wf e ∧ (0 < length es)%nat ∧ Forall (λ d, 0 < d < u64_modulus) es ∧ Zprod es = Zprod sh ∧ repeats = along_last (length es) 1 (Zprod (grid_shape g)) ∧
  grid_edges e = zip_with (λ E r, copies (Z.to_nat r) E) ((λ d, [d]) <$> es) repeats ∧ array_shape e = zip_with Z.mul es repeats.
Proof using Hg Hrs.
  intros Hnone Hr He Hrep Hgrid. pose proof (regular_chunk_shape_spec g sh Hg Hr) as Hreg. destruct Hrs as [_ Hok].
  assert (Forall (λ d, 0 < d) sh) as Hsh by (clear - Hreg; induction Hreg as [|E d Es sh (_ & H & _) Hreg IH]; by constructor).
  destruct (get_encoded_shape_spec _ _ _ Hok Hsh He) as (H1 & H2 & H3). pose proof (dim_extents_pos _ _ _ H1) as Hes.
  destruct (wf_edges g Hg) as (Hc & _ & Hnz & _). destruct (lawful_edges g Hg Hnz) as (_ & Hgs & _).
  destruct (repeat_shape_spec _ _ _ Hrep) as [Hn ->]; [rewrite Hgs; apply Forall_fmap, Forall_forall; intros; simpl; lia|].
  assert (Forall (λ d, 0 < d < u64_modulus) es) as Hes' by (apply Zprod_bound; [done|lia]).
  destruct (regular_new_whole es es) as (r & Hr' & _ & Hwfr & Ha & Hrc & Her).
  { apply Forall_Forall2_diag. eapply Forall_impl; [exact Hes'|]. intros d Hd. cbv beta in Hd. split_and!; [lia|lia|lia|by apply Z.mod_same; lia]. }
  unfold repeated_chunk_grid in Hgrid. rewrite Hr' in Hgrid. cbn [obind] in Hgrid.
  assert (grid_edges (ChunkGrid_new r) = (λ d, [d]) <$> es) as Hed.
  { destruct (wf_edges _ Hwfr) as (_ & Hdr & _ & He'). change (grid_dimensionality (ChunkGrid_new r)) with (length (rg_chunk_shape r)) in Hdr. rewrite Hrc in Hdr.
    apply list_eq_total; rewrite ?length_fmap; [done|]. intros j Hj. rewrite (fmap_total (λ d, [d])) by lia. specialize (He' j Hj).
    change (chunk_edge_lengths (ChunkGrid_new r) j) with (chunk_edge_lengths r j) in He'. rewrite Her in He' by lia. injection He' as <-.
    rewrite Forall_total in Hes. specialize (Hes j ltac:(lia)). rewrite Z.div_same by lia. done. }
  assert (array_shape (ChunkGrid_new r) = es) as Hao by exact Ha.
  assert (Forall (λ r, 0 <= r) (along_last (length es) 1 (Zprod (grid_shape g)))) as Hnn.
  { apply Forall_total. intros j Hj. rewrite length_along_last in Hj. rewrite along_last_total by done.
    assert (0 <= Zprod (grid_shape g)) by (apply Zprod_nonneg; rewrite Hgs; apply Forall_fmap, Forall_forall; intros; simpl; lia). case_decide; lia. }
  assert (Zsum <$> grid_edges (ChunkGrid_new r) = array_shape (ChunkGrid_new r)) as Hex.
  { rewrite Hed, Hao, <-list_fmap_compose. rewrite <-(list_fmap_id es) at 2. apply list_fmap_ext. intros _ d _. cbn [compose id]. rewrite Zsum_cons. change (Zsum []) with 0. lia. }
  destruct (repeated_edges _ _ _ Hwfr Hnn Hgrid Hex) as (R1 & R2 & _ & R4). rewrite Hed in R4. rewrite Hao in R2. done.
Qed.

(** Where the elements of repeated chunks are. *)
Lemma repeated_image_places sh es x : regular_chunk_shape g = Ok (Some sh) → Forall (λ d, 0 < d) es → (0 < length es)%nat → Zprod es = Zprod sh → index_in x (array_shape g) →
  let C := lin (edge_cells (grid_edges g) x) (edge_counts (grid_edges g)) in let L := lin (locals (grid_edges g) x) sh in
  let reps := along_last (length es) 1 (Zprod (grid_shape g)) in
  0 <= C < Zprod (grid_shape g) ∧ 0 <= L < Zprod es ∧ sizes_at (grid_edges g) x = sh ∧
  index_in (repeated_image es C L) (zip_with Z.mul es reps) ∧
  places (zip_with (λ E r, copies (Z.to_nat r) E) ((λ d, [d]) <$> es) reps) (repeated_image es C L) = zip (zip (along_last (length es) 0 C) (delin L es)) es.
Proof using Hg.
  intros Hr Hes Hn Hprod Hx C L reps. destruct (wf_edges g Hg) as (Hc & _ & Hnz & _). destruct (lawful_edges g Hg Hnz) as (_ & Hgs & _).
  pose proof (regular_chunk_shape_spec g sh Hg Hr) as Hreg. destruct (regular_places _ _ x _ Hreg Hc Hx) as [Hsz _].
  assert (0 <= C < Zprod (grid_shape g)) as HC by (rewrite Hgs; exact (lin_bound _ _ (cells_in _ _ _ Hc Hx))).
  pose proof (lin_bound _ _ (in_places _ _ _ Hc Hx)) as HL. rewrite Hsz in HL.
  assert (0 <= L < Zprod es) as HL' by (rewrite Hprod; exact HL). destruct (repeated_place es (Zprod (grid_shape g)) C L Hes HC Hn HL') as [P1 P2]. done.
Qed.

(** The decoded grid of a mapping of repeated chunks. *)
Lemma repeated_subchunks sh es repeats e s d : input_dim_partitions rs (length (grid_edges g)) = None → regular_chunk_shape g = Ok (Some sh) →
  get_encoded_shape rs sh = Ok es → repeat_shape (grid_shape g) (length es) = Some repeats → repeated_chunk_grid es repeats = Ok (Some e) →
  grid_wf s → decoded_subchunk_grid_for_repeated_chunks g s sh es repeats = Ok (Some d) →
  let image x := repeated_image es (lin (edge_cells (grid_edges g) x) (edge_counts (grid_edges g))) (lin (locals (grid_edges g) x) sh) in
  grid_wf d ∧ array_within g d ∧ ∀ x x', index_in x (array_shape g) → index_in x' (array_shape g) → same_chunk g x x' →
    same_chunk d x x' ↔ same_chunk s (image x) (image x').
Proof using Hg Hrs.
  intros Hnone Hr He Hrep Hgrid Hs Hd image. pose proof (regular_chunk_shape_spec g sh Hg Hr) as Hreg.
  destruct (repeated_encoded _ _ _ _ Hnone Hr He Hrep Hgrid) as (_ & Hn & Hes & Hprod & Hreps & _).
  assert (Forall (λ d, 0 < d) es) as Hes0 by (eapply Forall_impl; [exact Hes|]; simpl; lia).
  assert (Forall (λ d, 0 < d) sh) as Hsh by (clear - Hreg; induction Hreg as [|E d Es sh (_ & H & _) Hreg IH]; by constructor).
  destruct (wf_edges g Hg) as (Hc & _ & Hnz & _). destruct (lawful_edges g Hg Hnz) as (_ & Hgs & _).
  assert (Forall (λ d, 0 < d) (grid_shape g)) as Hgpos.
  { rewrite Hgs. apply Forall_fmap. clear - Hreg. induction Hreg as [|E d Es sh (_ & _ & H) Hreg IH]; constructor; [simpl; lia|done]. }
  assert (length repeats = length es ∧ Forall (λ r, 0 < r) repeats) as [Hlr Hrpos].
  { subst repeats. split; [apply length_along_last|]. apply Forall_total. intros j Hj. rewrite length_along_last in Hj. rewrite along_last_total by done.
    pose proof (Zprod_pos _ Hgpos). case_decide; lia. }
  unfold decoded_subchunk_grid_for_repeated_chunks in Hd. destruct (wf_edges s Hs) as (_ & Hsd & _).
  destruct (Nat.eqb_spec (grid_dimensionality s) (length es)) as [Hdim|]; [|done]. cbn [negb] in Hd. unfold or_none at 1 in Hd.
  destruct (tile_edges s 0 (zip es repeats)) as [[Ts|]|err|] eqn:Ht; cbn [obind] in Hd; try done.
  assert (length (zip es repeats) = length es) as Hlz by (rewrite length_zip_with; lia).
  assert (Forall (λ d, 0 < d.1 ∧ 0 < d.2) (zip es repeats)) as Hzp.
  { apply Forall_total. intros j Hj. rewrite zip_with_total by lia. rewrite Forall_total in Hes0. rewrite Forall_total in Hrpos. cbn [fst snd].
    split; [apply Hes0|apply Hrpos]; lia. }
  destruct (tile_edges_spec s 0 (zip es repeats) Ts Hs ltac:(lia) Hzp Ht) as [T1 T2]. rewrite drop_0, snd_zip in T2 by lia.
  pose proof (Forall2_length _ _ _ T1) as HlT. rewrite Hlz in HlT.
  assert (Forall edges_pos Ts ∧ Zsum <$> Ts = es) as [HTp HTs].
  { rewrite Forall2_total in T1. destruct T1 as [_ T1]. split.
    - apply Forall_total. intros j Hj. by apply (T1 j ltac:(lia)).
    - apply list_eq_total; rewrite length_fmap; [lia|]. intros j Hj. rewrite (fmap_total Zsum) by done. destruct (T1 j ltac:(lia)) as [_ ->].
      by rewrite zip_with_total by lia. }
  destruct (rectilinear_chunk_grid es Ts) as [lg|err|] eqn:Hlg; cbn [obind] in Hd; try done.
  destruct (exact_rectilinear es Ts lg HTp HTs Hes Hlg) as (G1 & G2 & G3). unfold or_none in Hd.
  destruct (reshape_rectilinear_grid es sh lg) as [[ld|]|err|] eqn:Hld; cbn [obind] in Hd; try done.
  destruct (reshaped_grid es sh lg ld G1 Hprod Hsh Hld) as (L1 & L2 & L3 & _ & L5).
  destruct (repeated_edges _ ld d L1 ltac:(eapply Forall_impl; [exact Hgpos|]; simpl; lia) Hd ltac:(by rewrite L2)) as (D1 & D2 & D3 & D4). rewrite L2 in D2.
  pose proof (Forall2_length _ _ _ Hreg) as Hlsh. pose proof (length_wf_edges g Hg) as Hlg'. pose proof (length_wf_edges ld L1) as Hll. rewrite L2 in Hll.
  assert (length (grid_shape g) = length sh) as Hlgs by (rewrite Hgs, length_fmap; lia). rewrite Forall_total in Hsh.
  assert (∀ j, (j < length sh)%nat → grid_shape g !!! j = zlen (grid_edges g !!! j)) as Hgj by (intros j Hj; rewrite Hgs, (fmap_total (λ E, zlen E)) by lia; done).
  split_and!; [done| |].
  - unfold array_within. rewrite D2, Forall2_total, length_zip_with. split; [lia|]. intros j Hj. rewrite zip_with_total by lia.
    destruct (wf_edges_at g j Hg ltac:(lia)) as [(_ & H & _) _]. rewrite Forall2_total in Hreg. destruct (proj2 Hreg j ltac:(lia)) as (HE & _). rewrite HE, Zsum_replicate in H.
    rewrite Hgj by lia. lia.
  - intros x x' Hx Hx' Hsame. destruct (repeated_image_places sh es x Hr Hes0 Hn Hprod Hx) as (_ & C1 & _ & C3 & _).
    destruct (repeated_image_places sh es x' Hr Hes0 Hn Hprod Hx') as (_ & C1' & _ & _).
    assert (edge_cells (grid_edges g) x' = edge_cells (grid_edges g) x) as Hcells by (unfold same_chunk in Hsame; by rewrite Hsame).
    pose proof (in_places _ _ _ Hc Hx) as Hl. pose proof (in_places _ _ _ Hc Hx') as Hl'.
    destruct (regular_places _ _ x _ Hreg Hc Hx) as [Hsz _]. destruct (regular_places _ _ x' _ Hreg Hc Hx') as [Hsz' _]. rewrite Hsz in Hl. rewrite Hsz' in Hl'.
    pose proof (cells_in _ _ _ Hc Hx) as Hci. rewrite <-Hgs in Hci.
    assert (same_chunk d x x' ↔ same_chunk ld (locals (grid_edges g) x) (locals (grid_edges g) x')) as ->.
    { unfold same_chunk. rewrite D4. rewrite (regular_element _ _ x _ Hreg Hc Hx) at 1. rewrite (regular_element _ _ x' _ Hreg Hc Hx') at 1. rewrite Hcells.
      apply copies_same; try done; [|by apply Forall_total].
      rewrite Forall2_total. split; [lia|]. intros j Hj. destruct (wf_edges_at ld j L1 ltac:(lia)) as [(H & _) _]. split; [done|].
      rewrite <-L3. by rewrite (fmap_total Zsum) by lia. }
    rewrite L5 by done. unfold same_chunk. rewrite G3, T2. unfold image. rewrite Hcells. unfold repeated_image. symmetry.
    apply copies_same; [|done| |lia|by apply delin_in|by apply delin_in].
    + rewrite Forall2_total. split; [lia|]. intros j Hj. rewrite Forall_total in HTp. split; [apply HTp; lia|]. rewrite <-HTs. by rewrite (fmap_total Zsum) by lia.
    + rewrite Hreps. unfold index_in. rewrite Forall2_total, !length_along_last. split; [done|]. intros j Hj. rewrite !along_last_total by done.
      rewrite <-Hgs. pose proof (lin_bound _ _ Hci) as HC. case_decide; lia.
Qed.
End laws.

Lemma encoded_mapping rs (g e : ChunkGrid) : grid_wf g → reshape_encoded_chunk_grid rs (MappedArray g) = Ok (MappedArray e) →
  ∃ m, grid_mapping rs g = Ok m ∧ match m with
  | MapIdentity => e = g
  | MapInputDimPartitions ps => encoded_chunk_grid_for_input_dim_partitions ps g = Ok (Some e)
  | MapRepeated _ es repeats => repeated_chunk_grid es repeats = Ok (Some e)
  | _ => False
  end.
Proof.
  intros Hg He. destruct (wf_edges g Hg) as (_ & _ & Hnz & _). cbn [reshape_encoded_chunk_grid] in He. rewrite Hnz in He.
  destruct (grid_mapping rs g) as [m|err|]; cbn [obind] in He; try done. exists m. split; [done|]. destruct m as [|ps|sh es repeats| |err|]; try done.
  - by injection He as <-.
  - destruct (encoded_chunk_grid_for_input_dim_partitions ps g) as [[e'|]|err|]; cbn [obind mapped_of_option] in He; try done. by injection He as ->.
  - destruct (repeated_chunk_grid es repeats) as [[e'|]|err|]; cbn [obind mapped_of_option] in He; try done. by injection He as ->.
Qed.

#[export] Instance reshape_lawful_subchunking : LawfulSubchunking ReshapeCodecBound.
Proof.
  refine {| sub_wf a := reshape_wf (rs_shape a); sub_shape a := reshaped_shape (rs_shape a); sub_map _ _ V := V; sub_image a := reshape_image (rs_shape a) |}.
  - intros [rs ty fv] g e Hwf Hg He. cbn [rs_shape] in *. destruct (encoded_mapping rs g e Hg He) as (m & Hm & Hme). pose proof (grid_mapping_spec rs g m Hg Hm) as Hspec.
    unfold reshape_image. rewrite Hm. destruct m as [|ps|sh es repeats| |err|]; try done.
    + subst e. split; [done|]. intros x Hx. cbv zeta. pose proof (reshape_identity_shape rs g Hwf Hg _ x Hm eq_refl Hx) as Hsh. rewrite Hsh. by split_and!.
    + split; [by apply (partition_grid g ps Hg (partitions_in rs g Hwf ps Hspec) e Hme)|]. intros x Hx. cbv zeta.
      destruct (partitions_encoded rs g Hwf Hg ps e x Hspec Hme Hx) as (P1 & P2 & P3 & P4 & P5). split_and!; [done|done| |].
      * intros V HV. split; [by rewrite P4|]. by rewrite P3.
      * intros x' Hx' Hs. destruct (partitions_encoded rs g Hwf Hg ps e x' Hspec Hme Hx') as (_ & _ & _ & _ & P5'). unfold same_chunk in *. rewrite P5, P5'. by rewrite Hs.
    + destruct Hspec as (Hnone & Hr & Hes & Hrep). destruct (repeated_encoded rs g Hwf Hg sh es repeats e Hnone Hr Hes Hrep Hme) as (R1 & R2 & R3 & R4 & R5 & R6 & R7).
      split; [done|]. assert (Forall (λ d, 0 < d) es) as Hpos by (eapply Forall_impl; [exact R3|]; simpl; lia). intros x Hx. cbv zeta.
      destruct (repeated_image_places g Hg sh es x Hr Hpos R2 R4 Hx) as (I1 & I2 & I3 & I4 & I5). cbv zeta in I1, I2, I4, I5. rewrite <-R5 in I4, I5. rewrite <-R6 in I5. rewrite <-R7 in I4.
      set (C := lin (edge_cells (grid_edges g) x) (edge_counts (grid_edges g))) in *. set (L := lin (locals (grid_edges g) x) sh) in *.
      pose proof (delin_in L es Hpos I2) as Hdin. pose proof (Forall2_length _ _ _ Hdin) as Hdl.
      assert (reshaped_shape rs sh = es) as Hshape by (eapply reshaped_shape_agrees; [apply Hwf| |done]; clear -I3 Hg Hx; rewrite <-I3; by apply sizes_pos).
      assert (length (zip (along_last (length es) 0 C) (delin L es)) = length es) as Hlz by (rewrite length_zip_with, length_along_last; lia).
      rewrite I3, Hshape. split_and!; [done| | |].
      * unfold sizes_at. rewrite I5. apply snd_zip. lia.
      * intros V HV. split; [by rewrite R4|]. do 2 f_equal. unfold locals at 1. rewrite I5. rewrite fst_zip by lia. rewrite snd_zip by (rewrite length_along_last; lia).
        by apply lin_delin.
      * intros x' Hx' Hs. destruct (repeated_image_places g Hg sh es x' Hr Hpos R2 R4 Hx') as (_ & _ & _ & _ & I5'). cbv zeta in I5'. rewrite <-R5, <-R6 in I5'.
        unfold same_chunk in Hs. rewrite <-Hs in I5'. fold C in I5'. unfold same_chunk. rewrite <-Hs. fold C. rewrite !(cells_places (grid_edges e)). rewrite I5, I5'.
        assert (∀ L', length (delin L' es) = length es → (zip (zip (along_last (length es) 0 C) (delin L' es)) es).*1.*1 = along_last (length es) 0 C) as Hz.
        { intros L' HL'. rewrite fst_zip by (rewrite length_zip_with, length_along_last; lia). apply fst_zip. rewrite length_along_last. lia. }
        by rewrite !Hz by apply length_delin.
  - intros [rs ty fv] g e s d Hwf Hg He Hs Hw Hd. cbn [rs_shape] in *. destruct (encoded_mapping rs g e Hg He) as (m & Hm & Hme). pose proof (grid_mapping_spec rs g m Hg Hm) as Hspec.
    destruct (wf_edges g Hg) as (_ & Hdim & Hnz & _). change (reshape_decoded_subchunk_grid rs (MappedArray g) (MappedArray s) = Ok (MappedArray d)) in Hd.
    cbn [reshape_decoded_subchunk_grid] in Hd. rewrite Hnz, Hm in Hd. cbn [obind] in Hd. unfold reshape_image. rewrite Hm.
    destruct m as [|ps|sh es repeats| |err|]; try done.
    + case_match; [done|]. injection Hd as <-. subst e. done.
    + destruct (decoded_subchunk_grid_for_input_dim_partitions ps g s) as [[d'|]|err|] eqn:Hdec; cbn [obind mapped_of_option] in Hd; try done. injection Hd as ->.
      destruct (partitions_consecutive _ _ _ Hwf Hspec) as [Hcat _]. by apply (partition_subchunks g e s d ps).
    + destruct (decoded_subchunk_grid_for_repeated_chunks g s sh es repeats) as [[d'|]|err|] eqn:Hdec; cbn [obind mapped_of_option] in Hd; try done. injection Hd as ->.
      destruct Hspec as (Hnone & Hr & Hes & Hrep). by apply (repeated_subchunks rs g Hwf Hg sh es repeats e s d).
  - intros [rs ty fv] m s d Hd. cbn in Hd. destruct s, m; done.
Defined.

(** ** Chunks *)

Lemma unravelled ks sh : Forall (λ d, 0 < d) sh → Forall (λ k, 0 <= k < Zprod sh) ks →
  collect_res ((λ k, let? indices := map_err (λ _ : unit, CodecOther) (array_unravel_index k sh) in ok_or CodecOther indices) <$> ks) =
  Ok ((λ k, delin k sh) <$> ks).
Proof.
  intros Hsh Hks. rewrite <-collect_res_Ok, <-list_fmap_compose. f_equal. apply Forall_fmap_ext. eapply Forall_impl; [exact Hks|]. intros k Hk. cbn [compose].
  unfold array_unravel_index. rewrite array_unravel_loop_delin by done. cbn [map_err obind ok_or]. by rewrite app_nil_r.
Qed.

(** C24: The shape that reshaping gives a chunk has the extents that the configuration says (sizes, products of extents
    of the chunk, and one that is left to find) and as many elements as the chunk.  The indices that a region of the
    decoded chunk is read at, in the encoded chunk, are those of the same elements in the same order. *)
Theorem reshape_keeps_elements (rs : ReshapeShape) (sh es : list Z) (Hrs : reshape_wf rs) (Hsh : Forall (λ d, 0 < d) sh)
    (He : get_encoded_shape rs sh = Ok es) :
  Forall2 (λ dim extent, 0 < extent ∧ match dim with
    | ReshapeSize size => extent = size
    | ReshapeInputDims ds => extent = Zprod (pickn (Z.to_nat <$> ds) sh)
    | ReshapeAuto => True end) rs es ∧ Zprod es = Zprod sh ∧
  ∀ region, region_ok region sh → ∃ indices, get_reshaped_indexer region sh es = Ok indices ∧ Forall (λ ix, index_in ix es) indices ∧
    (λ ix, lin ix es) <$> indices = positions region sh.
Proof.
  destruct (get_encoded_shape_spec rs sh es (proj2 Hrs) Hsh He) as (H1 & H2 & H3). pose proof (dim_extents_pos _ _ _ H1) as Hes. split_and!; [done..|].
  intros region Hr. pose proof Hr as (Hw & Ha & _). unfold get_reshaped_indexer. unfold dimensionality. rewrite (proj2 (Nat.eqb_eq _ _)) by (destruct Ha; lia). cbn [negb].
  rewrite linearised_indices_ok by done. cbn [map_err obind]. pose proof (positions_bound region sh Hw Ha) as Hb. rewrite <-H2 in Hb.
  rewrite unravelled by done. eexists. split_and!; [done| |].
  - apply Forall_fmap. eapply Forall_impl; [exact Hb|]. intros k Hk. by apply delin_in.
  - rewrite <-list_fmap_compose. rewrite <-(list_fmap_id (positions region sh)) at 2. apply Forall_fmap_ext. eapply Forall_impl; [exact Hb|]. intros k Hk. by apply lin_delin.
Qed.

Definition demo_reshape : ReshapeShape := [ReshapeInputDims [0; 1]; ReshapeAuto; ReshapeSize 2].

Lemma reshape_keeps_elements_witness : get_encoded_shape demo_reshape [2; 3; 4] = Ok [6; 2; 2] ∧
  get_reshaped_indexer (mk_subset [1; 0; 2] [1; 2; 2]) [2; 3; 4] [6; 2; 2] = Ok [[3; 1; 0]; [3; 1; 1]; [4; 1; 0]; [4; 1; 1]] ∧
  positions (mk_subset [1; 0; 2] [1; 2; 2]) [2; 3; 4] = (λ ix, lin ix [6; 2; 2]) <$> [[3; 1; 0]; [3; 1; 1]; [4; 1; 0]; [4; 1; 1]].
Proof.
  assert (reshape_wf demo_reshape) as Hrs by (split; [done|]; repeat constructor; cbn; unfold_u64; lia).
  assert (get_encoded_shape demo_reshape [2; 3; 4] = Ok [6; 2; 2]) as He by (vm_compute; reflexivity). split; [done|].
  destruct (reshape_keeps_elements demo_reshape [2; 3; 4] [6; 2; 2] Hrs ltac:(by repeat constructor) He) as (_ & _ & Hall).
  destruct (Hall (mk_subset [1; 0; 2] [1; 2; 2])) as (indices & Hi & _ & Hp).
  { apply in_shape_region; [repeat constructor; unfold_u64; lia|split; [repeat constructor; lia|done]]. }
  assert (get_reshaped_indexer (mk_subset [1; 0; 2] [1; 2; 2]) [2; 3; 4] [6; 2; 2] = Ok [[3; 1; 0]; [3; 1; 1]; [4; 1; 0]; [4; 1; 1]]) as Hc by (vm_compute; reflexivity).
  rewrite Hc in Hi. injection Hi as <-. split; [done|]. by symmetry.
Defined.

(** ** Grids *)

(** C23: Where reshaping puts the elements of an array, over the grid of the whole array.  The encoded chunk of an element
    has the shape that [get_encoded_shape] gives its chunk, and the element keeps its place in row-major order.  Elements
    of one chunk stay in one chunk.  A grid of subchunks that comes back for a grid of encoded subchunks has two elements
    of a chunk in one subchunk exactly when they are in one encoded subchunk. *)
Theorem reshape_follows_elements (rs : ReshapeShape) (g e : ChunkGrid) (Hrs : reshape_wf rs) (Hg : grid_wf g)
    (He : reshape_encoded_chunk_grid rs (MappedArray g) = Ok (MappedArray e)) :
  let image := reshape_image rs g in
  grid_wf e ∧
  (∀ x, index_in x (array_shape g) → let sh := sizes_at (grid_edges g) x in let es := sizes_at (grid_edges e) (image x) in
    index_in (image x) (array_shape e) ∧ (∀ es', get_encoded_shape rs sh = Ok es' → es = es') ∧
    Zprod es = Zprod sh ∧ lin (locals (grid_edges e) (image x)) es = lin (locals (grid_edges g) x) sh ∧
    ∀ x', index_in x' (array_shape g) → same_chunk g x x' → same_chunk e (image x) (image x')) ∧
  ∀ s d, grid_wf s → array_within e s → reshape_decoded_subchunk_grid rs (MappedArray g) (MappedArray s) = Ok (MappedArray d) →
    grid_wf d ∧ array_within g d ∧ ∀ x x', index_in x (array_shape g) → index_in x' (array_shape g) → same_chunk g x x' →
      same_chunk d x x' ↔ same_chunk s (image x) (image x').
Proof.
  intros image. pose (a := mk_reshape rs (PlainType (FixedSize 1)) []). assert (sub_wf a) as Hwf by exact Hrs.
  destruct (sub_encoded_law a g e Hwf Hg He) as [H1 H2]. split_and!; [done| |].
  - intros x Hx sh es. destruct (H2 x Hx) as (I1 & I2 & I3 & I4). destruct (sizes_pos g Hg x Hx) as [Hpos _]. change (sizes_at (grid_edges g) x) with sh in I2, I3, Hpos.
    change (sub_image a g x) with (image x) in I1, I2, I3, I4. change (sizes_at (grid_edges e) (image x)) with es in I2. rewrite <-I2 in I3.
    pose proof (Zprod_pos sh Hpos) as Hprod. pose (V := (λ k, Value [k]) <$> seqZ 0 (Zprod sh)).
    assert (zlen V = Zprod sh) as HV by (unfold V; rewrite length_fmap, length_seqZ; lia).
    assert (∀ i, 0 <= i < Zprod sh → V !! Z.to_nat i = Some (Value [i])) as HVi.
    { intros i Hi. unfold V. rewrite list_lookup_fmap, lookup_seqZ_lt by lia. cbn [fmap option_fmap option_map]. do 3 f_equal. lia. }
    destruct (I3 V HV) as [I5 I6]. cbn [sub_map reshape_lawful_subchunking] in I5, I6.
    destruct (wf_edges g Hg) as (Hcg & _). destruct (wf_edges e H1) as (Hce & _).
    pose proof (lin_bound _ _ (in_places _ _ _ Hcg Hx)) as B1. pose proof (lin_bound _ _ (in_places _ _ _ Hce I1)) as B2. change (sizes_at (grid_edges e) (image x)) with es in B2.
    change (sizes_at (grid_edges g) x) with sh in B1. split_and!; [done| |lia| |done].
    + intros es' Hes. rewrite I2. apply reshaped_shape_agrees; [apply Hrs|done|done].
    + rewrite !HVi in I6 by lia. by injection I6.
  - intros s d Hs Hw Hd. exact (sub_decoded_law (A:=ReshapeCodecBound) a g e s d Hwf Hg He Hs Hw Hd).
Qed.

(** Chunks of shape [1; 4], as intervals of four elements. *)
Definition demo_rows : ChunkGrid := ChunkGrid_new (mk_regular [2; 8] [2; 2] [1; 4]).

Lemma demo_rows_wf : grid_wf demo_rows.
Proof.
  assert (grid_wf (mk_regular [2; 8] [2; 2] [1; 4])) as Hw by (split_and!; [done..|]; intros [|[|j]] Hj; [by split_and!|by split_and!|cbn in Hj; lia]).
  apply chunk_grid_new_wf; [done|done|]. intros _. unfold uniform_edges, grid_edges. apply Forall_fmap, Forall_forall. intros j [_ Hj]%elem_of_seq. cbn in Hj. cbn [compose].
  rewrite (grid_edges_regular _ _ _ j Hw) by (cbn; lia || (destruct j as [|[|j]]; cbn; lia)). eexists. by rewrite length_replicate.
Qed.

Lemma reshape_follows_elements_witness : ∃ e, reshape_encoded_chunk_grid [ReshapeInputDims [0; 1]] (MappedArray demo_rows) = Ok (MappedArray e) ∧
  reshape_image [ReshapeInputDims [0; 1]] demo_rows [1; 5] = [13] ∧ sizes_at (grid_edges e) [13] = [4].
Proof.
  assert (reshape_wf [ReshapeInputDims [0; 1]]) as Hrs by (split; [done|]; repeat constructor; cbn; unfold_u64; lia).
  assert (match reshape_encoded_chunk_grid [ReshapeInputDims [0; 1]] (MappedArray demo_rows) with Ok (MappedArray e) => grid_edges e = [[4; 4; 4; 4]] | _ => False end) as Hone
    by (vm_compute; reflexivity).
  destruct (reshape_encoded_chunk_grid [ReshapeInputDims [0; 1]] (MappedArray demo_rows)) as [[|e|]| |] eqn:He; try done. exists e. split; [done|].
  assert (reshape_image [ReshapeInputDims [0; 1]] demo_rows [1; 5] = [13]) as Him by (vm_compute; reflexivity). split; [done|].
  destruct (reshape_follows_elements [ReshapeInputDims [0; 1]] demo_rows e Hrs demo_rows_wf He) as (_ & Hx & _).
  destruct (Hx [1; 5] ltac:(by repeat constructor)) as (_ & Hs & _). rewrite Him in Hs. apply Hs. by vm_compute.
Defined.

(** Mapping the local grid of the subchunks of an encoded chunk, as partial decoders do, does not fail on a grid over the
    encoded chunk.  A grid that it returns is over the decoded chunk; two elements are in one of its subchunks exactly
    when they are in one subchunk of the encoded chunk at their place in row-major order. *)
Theorem reshape_local_subchunks (decoded_shape encoded_shape : list Z) (g : ChunkGrid) (Hg : grid_wf g) (Hdim : array_shape g = encoded_shape)
    (Hprod : Zprod encoded_shape = Zprod decoded_shape) (Hpos : Forall (λ d, 0 < d) decoded_shape) :
  is_Ok (map_local_subchunk_grid decoded_shape encoded_shape g) ∧
  ∀ d, map_local_subchunk_grid decoded_shape encoded_shape g = Ok (Some d) → grid_wf d ∧ array_shape d = decoded_shape ∧
    ∀ l l', index_in l decoded_shape → index_in l' decoded_shape →
      same_chunk d l l' ↔ same_chunk g (delin (lin l decoded_shape) encoded_shape) (delin (lin l' decoded_shape) encoded_shape).
Proof.
  split.
  - destruct (reshaped_total encoded_shape decoded_shape g Hg Hdim Hpos) as [o Ho]. unfold map_local_subchunk_grid. rewrite Ho. by eexists.
  - intros d Hd. unfold map_local_subchunk_grid in Hd. destruct (reshape_rectilinear_grid encoded_shape decoded_shape g) as [o|err|] eqn:Hr; try done.
    injection Hd as ->. by destruct (reshaped_grid _ _ _ _ Hg Hprod Hpos Hr) as (H1 & H2 & _ & _ & H5).
Qed.

(** A chunk of shape [2; 6] in an encoded chunk of shape [12], with subchunks of three elements. *)
Definition demo_thirds : ChunkGrid := ChunkGrid_new (mk_regular [12] [4] [3]).

Lemma demo_thirds_wf : grid_wf demo_thirds.
Proof.
  assert (grid_wf (mk_regular [12] [4] [3])) as Hw by (split_and!; [done..|]; intros [|j] Hj; [by split_and!|cbn in Hj; lia]).
  apply chunk_grid_new_wf; [done|done|]. intros _. unfold uniform_edges, grid_edges. apply Forall_fmap, Forall_forall. intros j [_ Hj]%elem_of_seq. cbn in Hj. cbn [compose].
  rewrite (grid_edges_regular _ _ _ j Hw) by (cbn; lia || (destruct j as [|j]; cbn; lia)). eexists. by rewrite length_replicate.
Qed.

Lemma reshape_local_subchunks_witness : ∃ d, map_local_subchunk_grid [2; 6] [12] demo_thirds = Ok (Some d) ∧
  grid_edges d = [[1; 1]; [3; 3]] ∧ (same_chunk d [1; 3] [1; 5] ↔ same_chunk demo_thirds [9] [11]).
Proof.
  assert (match map_local_subchunk_grid [2; 6] [12] demo_thirds with Ok (Some d) => grid_edges d = [[1; 1]; [3; 3]] | _ => False end) as Hone
    by (vm_compute; reflexivity).
  destruct (map_local_subchunk_grid [2; 6] [12] demo_thirds) as [[d|]| |] eqn:Hd; try done. exists d. split_and!; [done..|].
  destruct (reshape_local_subchunks [2; 6] [12] demo_thirds demo_thirds_wf eq_refl eq_refl ltac:(by repeat constructor)) as [_ Hall].
  destruct (Hall d Hd) as (_ & _ & Hsame). exact (Hsame [1; 3] [1; 5] ltac:(by repeat constructor) ltac:(by repeat constructor)).
Defined.
