(* ===== verification/Bitround.v ===== *)
(** The [bitround] codec: [zarrs_data_type/src/codec_traits/bitround.rs] and
    [zarrs/src/array/codec/array_to_array/bitround.rs] with its [bitround_codec.rs] and [bitround_codec_partial.rs].

    The low bits of the mantissa of a float, or of an integer from its highest bit that is set, are rounded
    away when a chunk is encoded. *)

From S2P Require Import Prelude ArraySubset ByteRange StoreKey Storage ArrayBytes Elements StoreProgram DecodeInto.
From S2P Require Import Concurrency Codec BytesCodec ArrayToArray ChunkEdges Subchunking.

(** ** Rounding the bits of an integer *)

(** The amount of a shift of a [w]-bit integer in a release build. *)
Definition shift_amount (w n : Z) : Z := n mod w.

(** [round_bits8], [round_bits16], [round_bits32] and [round_bits64], on [w] bits. *)
Definition round_bits (w input keepbits maxbits : Z) : Z :=
  if keepbits <? maxbits then
    let maskbits := maxbits - keepbits in
    let all_set := 2 ^ w - 1 in
    let mask := Z.shiftl (Z.shiftr all_set (shift_amount w maskbits)) (shift_amount w maskbits) in
    let half_quantum1 := Z.shiftl 1 (shift_amount w (maskbits - 1)) - 1 in
    Z.land (Z.min (input + (Z.land (Z.shiftr input (shift_amount w maskbits)) 1 + half_quantum1)) all_set) mask
  else input.

(** [leading_zeros] of a [w]-bit integer. *)
Definition leading_zeros (w x : Z) : Z := if x =? 0 then w else w - 1 - Z.log2 x.

Section bytes.
Context `{Target}.

(** [from_ne_bytes] and [to_ne_bytes] of an integer of some bytes. *)
Definition from_ne_bytes (b : bytes) : Z := foldr (λ x acc, x + 256 * acc) 0 (if decide (native = Little) then b else reverse b).

Definition to_ne_bytes (size : nat) (x : Z) : bytes :=
  let le := (λ i, Z.land (Z.shiftr x (8 * i)) 255) <$> seqZ 0 (Z.of_nat size) in if decide (native = Little) then le else reverse le.

(** [as_chunks_mut::<N>().0], with every chunk replaced; the remainder stays. *)
Definition round_chunks (size : nat) (f : Z → Z) (b : bytes) : bytes :=
  concat ((λ chunk, to_ne_bytes size (f (from_ne_bytes chunk))) <$> chunks_exact size b) ++ drop (size * (length b / size)) b.

(** [round_bytes_int8] to [round_bytes_int64]. *)
Definition round_bytes_int (size : nat) (b : bytes) (keepbits : Z) : bytes :=
  let w := 8 * Z.of_nat size in round_chunks size (λ element, round_bits w element keepbits (w - leading_zeros w element)) b.

(** [round_bytes_float16] to [round_bytes_float64]. *)
Definition round_bytes_float (size : nat) (b : bytes) (keepbits mantissa_bits : Z) : bytes :=
  round_chunks size (λ element, round_bits (8 * Z.of_nat size) element keepbits mantissa_bits) b.

(** ** Data types *)

(** The implementations of [BitroundDataTypeTraits] that [impl_bitround_codec!] makes, with the bytes of a component. *)
Inductive BitroundDataType := BitroundInt (size : nat) | BitroundFloat (size : nat) (mantissa_bits : Z).

Definition mantissa_bits (self : BitroundDataType) : option Z :=
  match self with BitroundInt _ => None | BitroundFloat _ mantissa_bits => Some mantissa_bits end.

Definition bitround_round (self : BitroundDataType) (b : bytes) (keepbits : Z) : bytes :=
  match self with
  | BitroundInt size => round_bytes_int size b keepbits
  | BitroundFloat size mantissa_bits => round_bytes_float size b keepbits mantissa_bits
  end.
End bytes.

(** [DataType::codec_bitround], for the data types that support the codec. *)
Class BitroundDataTypes := codec_bitround : DataType → option BitroundDataType.

Section codec.
Context `{Target, !BitroundDataTypes}.

Definition round_bytes (b : bytes) (data_type : DataType) (keepbits : Z) : outcome CodecError bytes :=
  let? bitround := ok_or UnsupportedDataType (codec_bitround data_type) in
  Ok (bitround_round bitround b keepbits).

(** ** The codec *)

Record BitroundCodec := mk_bitround { up_keepbits : Z }.

Record BitroundCodecBound := mk_bitround_bound {
  br_keepbits : Z;
  br_data_type : DataType;
  br_fill_value : FillValue;
  br_encoded_fill_value : FillValue;
}.

Definition encode_fill_value (fill_value : FillValue) (data_type : DataType) (keepbits : Z) : outcome CodecError FillValue :=
  let? fill_value_bytes := new_fill_value data_type 1 fill_value in
  let? fill_value_bytes := into_fixed fill_value_bytes in
  round_bytes fill_value_bytes data_type keepbits.

Definition bitround_with_context (self : BitroundCodec) (data_type : DataType) (fill_value : FillValue) : outcome CodecError BitroundCodecBound :=
  let? _ := ok_or UnsupportedDataType (codec_bitround data_type) in
  let? encoded_fill_value := encode_fill_value fill_value data_type (up_keepbits self) in
  Ok (mk_bitround_bound (up_keepbits self) data_type fill_value encoded_fill_value).

Definition bitround_encode (self : BitroundCodecBound) (b : ArrayBytes) (shape : list Z) (options : CodecOptions) : outcome CodecError ArrayBytes :=
  let? b := into_fixed b in
  let? b := round_bytes b (br_data_type self) (br_keepbits self) in
  Ok (FixedBytes b).

Definition bitround_decode (self : BitroundCodecBound) (b : ArrayBytes) (shape : list Z) (options : CodecOptions) : outcome CodecError ArrayBytes :=
  Ok b.

(** [partial_decode] and [partial_encode] of [BitroundCodecPartial]. *)
Definition bitround_partial_decode (input_output_handle : ArrayHandle) (indexer : ArraySubset) : prog CodecError ArrayBytes :=
  partial_decode input_output_handle indexer.

Definition bitround_partial_encode (self : BitroundCodecBound) (input_output_handle : ArrayEncodeHandle) (indexer : ArraySubset) (b : ArrayBytes)
    : prog CodecError unit :=
  let* bytes_copy := plift (into_fixed b) in
  let* bytes_copy := plift (round_bytes bytes_copy (br_data_type self) (br_keepbits self)) in
  partial_encode input_output_handle indexer (FixedBytes bytes_copy).

Definition bitround_handle (input_output_handle : ArrayHandle) : ArrayHandle := {|
  partial_decode := bitround_partial_decode input_output_handle;
  partial_decode_into := default_partial_decode_into (bitround_partial_decode input_output_handle) |}.

(** [BitroundCodecPartial::new]. *)
Definition bitround_partial_decoder (self : BitroundCodecBound) (input_handle : ArrayHandle) : prog CodecError ArrayHandle :=
  let* _ := plift (ok_or UnsupportedDataType (codec_bitround (br_data_type self))) in
  preturn (bitround_handle input_handle).

Definition bitround_partial_encoder (self : BitroundCodecBound) (input_output_handle : ArrayEncodeHandle) : prog CodecError ArrayEncodeHandle :=
  let* _ := plift (ok_or UnsupportedDataType (codec_bitround (br_data_type self))) in
  preturn {|
    array_decoder := bitround_handle input_output_handle;
    array_erase := array_erase input_output_handle;
    partial_encode := bitround_partial_encode self input_output_handle |}.

#[export] Instance bitround_traits : ArrayToArrayCodecTraits BitroundCodecBound := {|
  a2a_data_type := br_data_type;
  a2a_fill_value := br_fill_value;
  a2a_encoded_data_type := br_data_type;
  a2a_encoded_fill_value := br_encoded_fill_value;
  a2a_encoded_shape _ decoded_shape := Ok decoded_shape;
  a2a_recommended_concurrency _ _ := Ok (new_maximum 1);
  a2a_partial_decoder_capability _ := {| partial_read := true; can_partial_decode := true |};
  a2a_partial_encoder_capability _ := true;
  a2a_encode := bitround_encode;
  a2a_decode := bitround_decode;
  a2a_partial_decoder self h _ _ := bitround_partial_decoder self h;
  a2a_partial_encoder self h _ _ := bitround_partial_encoder self h |}.

#[export] Instance bitround_subchunking : ArrayToArrayCodecSubchunkingTraits BitroundCodecBound := identity_subchunking.
End codec.
