(* ===== verification/BitroundTheorems.v ===== *)
(** What bit rounding does to integers, floats and chunks.

    Rounding is to the nearest multiple of a power of two, and to the even one of two; at the end of the range
    it is downwards.  Rounding a chunk is rounding its elements, so that it may be done region by region. *)

From S2P Require Import Prelude ArraySubset Linear Iterators ByteRange StoreKey Storage ArrayBytes Elements StoreProgram DecodeInto.
From S2P Require Import Concurrency Codec BytesCodec ArrayToArray ChunkEdges Subchunking Bitround.

(** ** Integers *)

(** The nearest integer to [x / q], the even one of two. *)
Definition half_even (x q : Z) : Z :=
  if (2 * (x mod q) <? q) || ((2 * (x mod q) =? q) && Z.even (x / q)) then x / q else x / q + 1.

Lemma land_high w m v : 0 <= v < 2 ^ w → 0 <= m → Z.land v (Z.shiftl (Z.shiftr (2 ^ w - 1) m) m) = 2 ^ m * (v / 2 ^ m).
Proof.
  intros Hv Hm. assert (0 <= w) as Hw by (destruct (Z.lt_ge_cases w 0) as [H|]; [rewrite Z.pow_neg_r in Hv by done; lia|done]).
  rewrite Z.mul_comm, <-Z.shiftl_mul_pow2, <-Z.shiftr_div_pow2 by done.
  replace (2 ^ w - 1) with (Z.ones w) by (rewrite Z.ones_equiv; lia). apply Z.bits_inj'. intros n Hn.
  rewrite Z.land_spec, !Z.shiftl_spec by done. destruct (Z.ltb_spec n m) as [Hlt|Hge].
  - rewrite !(Z.testbit_neg_r _ (n - m)) by lia. by rewrite andb_false_r.
  - rewrite !Z.shiftr_spec by lia. replace (n - m + m) with n by lia. rewrite Z.testbit_ones_nonneg by lia.
    destruct (Z.ltb_spec n w); [by rewrite andb_true_r|]. rewrite andb_false_r. symmetry. destruct (decide (v = 0)) as [->|]; [apply Z.testbit_0_l|].
    apply Z.bits_above_log2; [lia|]. assert (Z.log2 v < w) by (apply (proj1 (Z.log2_lt_pow2 v w ltac:(lia))); apply Hv). lia.
Qed.

Lemma div_between a b d : b * d <= a < b * d + b → a / b = d.
Proof. intros Hd. symmetry. apply Z.div_unique_pos with (r := a - b * d); lia. Qed.

Lemma half_even_floor x h : 0 < h → (x + ((x / (2 * h)) mod 2 + (h - 1))) / (2 * h) = half_even x (2 * h).
Proof.
  intros Hh. pose proof (Z.div_mod x (2 * h) ltac:(lia)) as Hd. pose proof (Z.mod_pos_bound x (2 * h) ltac:(lia)) as Hr.
  unfold half_even. set (d := x / (2 * h)) in *. set (r := x mod (2 * h)) in *. rewrite Zmod_even.
  destruct (Z.ltb_spec (2 * r) (2 * h)), (Z.eqb_spec (2 * r) (2 * h)), (Z.even d); cbn [orb andb]; apply div_between; lia.
Qed.

Lemma half_even_bound x q : 0 < q → x / q <= half_even x q <= x / q + 1.
Proof. unfold half_even. intros Hq. destruct (_ || _); lia. Qed.

Lemma half_even_near x q : 0 < q → 2 * Z.abs (x - q * half_even x q) <= q.
Proof.
  intros Hq. pose proof (Z.div_mod x q ltac:(lia)). pose proof (Z.mod_pos_bound x q Hq). unfold half_even.
  destruct (Z.ltb_spec (2 * (x mod q)) q); simpl; [lia|]. destruct (Z.eqb_spec (2 * (x mod q)) q); simpl; [|lia]. destruct (Z.even _); lia.
Qed.

Lemma half_even_multiple q k : 0 < q → half_even (q * k) q = k.
Proof. intros Hq. unfold half_even. rewrite (Z.mul_comm q k), Z.mod_mul, Z.div_mul by lia. rewrite (proj2 (Z.ltb_lt _ _)) by lia. done. Qed.

Lemma pow2_split w m : 0 <= m <= w → 2 ^ w = 2 ^ m * 2 ^ (w - m).
Proof. intros Hm. rewrite <-Z.pow_add_r by lia. f_equal. lia. Qed.

Lemma round_bits_eq w x keepbits maxbits : 0 <= x < 2 ^ w → keepbits < maxbits → maxbits - keepbits < w →
  let q := 2 ^ (maxbits - keepbits) in round_bits w x keepbits maxbits = Z.min (q * half_even x q) (2 ^ w - q).
Proof.
  intros Hx Hlt Hw q. set (m := maxbits - keepbits) in *. unfold round_bits, shift_amount. rewrite (proj2 (Z.ltb_lt _ _)) by done.
  fold m. rewrite !Z.mod_small by lia. rewrite Z.shiftl_mul_pow2, Z.mul_1_l by lia. rewrite (Z.shiftr_div_pow2 x) by lia. fold q.
  replace (Z.land (x / q) 1) with ((x / q) mod 2) by (change 1 with (Z.ones 1); by rewrite Z.land_ones).
  assert (q = 2 * 2 ^ (m - 1)) as Hq by (unfold q; rewrite <-Z.pow_succ_r by lia; f_equal; lia). set (h := 2 ^ (m - 1)) in *.
  assert (0 < h) as Hh by (by apply Z.pow_pos_nonneg; lia). pose proof (pow2_split w m ltac:(lia)) as Hs. fold q in Hs.
  assert (0 < 2 ^ (w - m)) as Hp by (apply Z.pow_pos_nonneg; lia). pose proof (Z.mod_pos_bound (x / q) 2 ltac:(lia)) as H2.
  pose proof (half_even_floor x h Hh) as Hf. rewrite <-Hq in Hf. rewrite land_high by lia. fold q.
  set (s := x + (x / q mod 2 + (h - 1))) in *. pose proof (Z.div_mod s q ltac:(lia)) as Hd. pose proof (Z.mod_pos_bound s q ltac:(lia)) as Hr.
  rewrite Hf in Hd. destruct (Z.le_gt_cases s (2 ^ w - 1)) as [Hle|Hgt].
  - rewrite (Z.min_l s) by done. rewrite Hf. rewrite Z.min_l; [done|]. assert (half_even x q < 2 ^ (w - m)) by nia. nia.
  - rewrite (Z.min_r s) by lia. rewrite Z.min_r by (assert (2 ^ (w - m) <= half_even x q) by nia; nia).
    rewrite Hs. replace (q * 2 ^ (w - m) - 1) with ((q - 1) + (2 ^ (w - m) - 1) * q) by lia. rewrite Z.div_add, Z.div_small by lia. lia.
Qed.

(** Multiples are kept. *)
Lemma round_bits_multiple w k keepbits maxbits : let q := 2 ^ (maxbits - keepbits) in 0 <= q * k < 2 ^ w → keepbits < maxbits →
  maxbits - keepbits < w → round_bits w (q * k) keepbits maxbits = q * k.
Proof.
  intros q Hk Hlt Hw. rewrite round_bits_eq by done. fold q. assert (0 < q) as Hq by (apply Z.pow_pos_nonneg; lia). rewrite half_even_multiple by done.
  pose proof (pow2_split w (maxbits - keepbits) ltac:(lia)) as Hs. fold q in Hs. apply Z.min_l. assert (k < 2 ^ (w - (maxbits - keepbits))) by nia. nia.
Qed.

Lemma round_bits_keep w x keepbits maxbits : maxbits <= keepbits → round_bits w x keepbits maxbits = x.
Proof. intros Hle. unfold round_bits. by rewrite (proj2 (Z.ltb_ge _ _)). Qed.

(** A rounded integer as a multiple. *)
Lemma round_bits_factor w x keepbits maxbits : 0 <= x < 2 ^ w → keepbits < maxbits → maxbits - keepbits < w →
  let q := 2 ^ (maxbits - keepbits) in
  ∃ k, round_bits w x keepbits maxbits = q * k ∧ k = Z.min (half_even x q) (2 ^ (w - (maxbits - keepbits)) - 1) ∧ 0 <= q * k < 2 ^ w.
Proof.
  intros Hx Hlt Hw q. rewrite round_bits_eq by done. fold q. assert (0 < q) as Hq by (apply Z.pow_pos_nonneg; lia).
  pose proof (pow2_split w (maxbits - keepbits) ltac:(lia)) as Hs. fold q in Hs. pose proof (half_even_bound x q Hq) as Hb.
  assert (0 < 2 ^ (w - (maxbits - keepbits))) as Hp by (apply Z.pow_pos_nonneg; lia).
  assert (0 <= x / q) as Hd by (apply Z.div_pos; lia).
  eexists. split_and!; [|done|nia|nia]. rewrite <-Z.mul_min_distr_nonneg_l by lia. f_equal. lia.
Qed.

Lemma round_bits_bound w x keepbits maxbits : 0 <= x < 2 ^ w → maxbits - keepbits < w → 0 <= round_bits w x keepbits maxbits < 2 ^ w.
Proof.
  intros Hx Hw. destruct (Z.le_gt_cases maxbits keepbits) as [Hle|Hlt]; [by rewrite round_bits_keep|].
  by destruct (round_bits_factor w x keepbits maxbits Hx ltac:(lia) Hw) as (k & -> & _ & Hr).
Qed.

(** C26: Rounding away the low bits of a [w]-bit integer gives a [w]-bit integer: the nearest multiple of the power of two,
    the even one of two that are equally near, and the greatest below [2 ^ w] where that would be [2 ^ w].  No multiple in the range
    is nearer.  Rounding again changes nothing. *)
Theorem round_bits_nearest (w x keepbits maxbits : Z) (Hx : 0 <= x < 2 ^ w) (Hw : maxbits - keepbits < w) :
  let r := round_bits w x keepbits maxbits in let q := 2 ^ (maxbits - keepbits) in
  0 <= r < 2 ^ w ∧ round_bits w r keepbits maxbits = r ∧ (maxbits <= keepbits → r = x) ∧
  (keepbits < maxbits → r = Z.min (q * half_even x q) (2 ^ w - q) ∧ ∀ k, 0 <= q * k < 2 ^ w → Z.abs (x - r) <= Z.abs (x - q * k)).
Proof.
  intros r q. destruct (Z.le_gt_cases maxbits keepbits) as [Hle|Hlt]; [unfold r; rewrite !round_bits_keep by done; split_and!; try done; lia|].
  destruct (round_bits_factor w x keepbits maxbits Hx ltac:(lia) Hw) as (k & Hk & Hkm & Hr). fold r q in Hk, Hr, Hkm.
  rewrite Hk. split_and!; [lia|lia|by apply round_bits_multiple|lia|]. intros _. rewrite <-Hk. unfold r. rewrite round_bits_eq by lia. fold q. split; [done|].
  intros j Hj. assert (0 < q) as Hq by (apply Z.pow_pos_nonneg; lia). pose proof (pow2_split w (maxbits - keepbits) ltac:(lia)) as Hs. fold q in Hs.
  pose proof (half_even_near x q Hq) as Hn. pose proof (half_even_bound x q Hq) as Hb. pose proof (Z.div_mod x q ltac:(lia)). pose proof (Z.mod_pos_bound x q Hq).
  set (P := 2 ^ (w - (maxbits - keepbits))) in *. destruct (Z.le_gt_cases (q * half_even x q) (2 ^ w - q)) as [Hc|Hc]; [rewrite Z.min_l by done|rewrite Z.min_r by lia].
  - destruct (Z.lt_trichotomy j (half_even x q)) as [Hlj|[->|Hgj]]; [|lia|]; [assert (q * j + q <= q * half_even x q) by nia|assert (q * half_even x q + q <= q * j) by nia]; lia.
  - assert (j <= P - 1) by nia. assert (P <= half_even x q) by nia. assert (P - 1 <= x / q) by lia. assert (q * j <= q * (P - 1)) by nia. assert (q * (P - 1) <= x) by nia. lia.
Qed.

Lemma round_bits_nearest_witness : 0 <= 122 < 2 ^ 8 ∧ 7 - 3 < 8 ∧ round_bits 8 122 3 7 = 128 ∧ round_bits 8 128 3 7 = 128 ∧ Z.abs (122 - 128) <= Z.abs (122 - 2 ^ 4 * 7).
Proof.
  destruct (round_bits_nearest 8 122 3 7 ltac:(lia) ltac:(lia)) as (_ & H1 & _ & H2). destruct (H2 ltac:(lia)) as [_ H3].
  split_and!; [lia..|by vm_compute| |apply (H3 7); lia]. exact H1.
Defined.

(** ** Integers and floats *)

Lemma bit_length_spec w x n : 0 < n → 2 ^ (n - 1) <= x < 2 ^ n → w - leading_zeros w x = n.
Proof.
  intros Hn Hx. unfold leading_zeros. assert (0 < 2 ^ (n - 1)) by (apply Z.pow_pos_nonneg; lia). rewrite (proj2 (Z.eqb_neq _ _)) by lia.
  assert (Z.log2 x = n - 1) as ->; [|lia]. apply Z.log2_unique; [lia|]. replace (Z.succ (n - 1)) with n by lia. lia.
Qed.

Lemma bit_length_bounds w x : 0 < x < 2 ^ w → let n := w - leading_zeros w x in 0 < n <= w ∧ 2 ^ (n - 1) <= x < 2 ^ n.
Proof.
  intros Hx n. unfold n, leading_zeros. rewrite (proj2 (Z.eqb_neq _ _)) by lia. pose proof (Z.log2_spec x ltac:(lia)) as Hl. pose proof (Z.log2_nonneg x).
  assert (Z.log2 x < w) by (apply (proj1 (Z.log2_lt_pow2 x w ltac:(lia))); lia). replace (w - (w - 1 - Z.log2 x)) with (Z.succ (Z.log2 x)) by lia.
  replace (Z.succ (Z.log2 x) - 1) with (Z.log2 x) by lia. lia.
Qed.

(** An integer is rounded from its highest bit. *)
Definition round_int (w x keepbits : Z) : Z := round_bits w x keepbits (w - leading_zeros w x).

Lemma round_int_0 w keepbits : 0 <= keepbits → round_int w 0 keepbits = 0.
Proof. intros Hk. unfold round_int, leading_zeros. rewrite Z.eqb_refl. apply round_bits_keep. lia. Qed.

Lemma round_int_bound w x keepbits : 0 <= x < 2 ^ w → 1 <= keepbits → 0 <= round_int w x keepbits < 2 ^ w.
Proof.
  intros Hx Hk. destruct (decide (x = 0)) as [->|Hne]; [by rewrite round_int_0 by lia|].
  pose proof (bit_length_bounds w x ltac:(lia)) as [Hn _]. apply round_bits_bound; [done|lia].
Qed.

Lemma round_int_idempotent w x keepbits : 0 <= x < 2 ^ w → 1 <= keepbits → round_int w (round_int w x keepbits) keepbits = round_int w x keepbits.
Proof.
  intros Hx Hk. destruct (decide (x = 0)) as [->|Hne]; [by rewrite !round_int_0 by lia|].
  destruct (bit_length_bounds w x ltac:(lia)) as [Hn Hxn]. set (n := w - leading_zeros w x) in *.
  destruct (Z.le_gt_cases n keepbits) as [Hle|Hlt]; [unfold round_int; by rewrite !(round_bits_keep w x) by done|].
  destruct (round_bits_factor w x keepbits n Hx ltac:(lia) ltac:(lia)) as (k & Hr & Hkm & Hb). unfold round_int at 2 3. fold n. rewrite Hr.
  set (q := 2 ^ (n - keepbits)) in *. assert (0 < q) as Hq by (apply Z.pow_pos_nonneg; lia). pose proof (half_even_bound x q Hq) as Hh.
  assert (2 ^ n = q * 2 ^ keepbits ∧ 2 ^ (n - 1) = q * 2 ^ (keepbits - 1)) as [Hn1 Hn2] by (unfold q; rewrite <-!Z.pow_add_r by lia; split; f_equal; lia).
  assert (2 ^ (keepbits - 1) <= x / q < 2 ^ keepbits) as Hd by (split; [apply Z.div_le_lower_bound; lia|apply Z.div_lt_upper_bound; lia]).
  assert (2 ^ keepbits = 2 * 2 ^ (keepbits - 1)) as H2 by (rewrite <-Z.pow_succ_r by lia; f_equal; lia). assert (0 < 2 ^ (keepbits - 1)) by (apply Z.pow_pos_nonneg; lia).
  assert (2 ^ keepbits <= 2 ^ (w - (n - keepbits))) by (apply Z.pow_le_mono_r; lia). unfold round_int.
  destruct (decide (k < 2 ^ keepbits)) as [Hsmall|Hbig].
  - rewrite (bit_length_spec w (q * k) n) by nia. by apply round_bits_multiple; lia.
  - assert (k = 2 ^ keepbits) as -> by lia. rewrite <-Hn1 in Hb |- *. assert (n < w) by (apply (Z.pow_lt_mono_r_iff 2); lia).
    rewrite (bit_length_spec w (2 ^ n) (n + 1)) by (replace (n + 1 - 1) with n by lia; rewrite ?Z.pow_add_r by lia; lia).
    rewrite Hn1. replace (q * 2 ^ keepbits) with (2 ^ (n + 1 - keepbits) * 2 ^ (keepbits - 1)) by (unfold q; rewrite <-!Z.pow_add_r by lia; f_equal; lia).
    apply round_bits_multiple; [|lia..]. rewrite <-Z.pow_add_r by lia. replace (n + 1 - keepbits + (keepbits - 1)) with n by lia. lia.
Qed.

(** A whole number of double quanta does not change how the rest is rounded. *)
Lemma half_even_shift x q j : 0 < q → Z.even j = true → half_even (q * j + x) q = j + half_even x q.
Proof.
  intros Hq Hj. unfold half_even. rewrite Z.add_comm, (Z.mul_comm q j), Z.mod_add, Z.div_add by lia.
  assert (Z.even (x / q + j) = Z.even (x / q)) as -> by (rewrite Z.even_add, Hj; by destruct (Z.even (x / q))). destruct (_ || _); lia.
Qed.

(** Rounding the mantissa of a float of [w] bits, [mantissa_bits] of them of the mantissa, keeps its sign and rounds its
    magnitude; the result of a number is a number or infinity, and infinities are kept.  But the NaN with all bits of the mantissa
    set becomes a zero of the other sign. *)
Theorem bitround_floats (w mantissa_bits keepbits : Z) (Hm : 0 < mantissa_bits < w - 1) (Hk : 0 <= keepbits < mantissa_bits) :
  let infinity := 2 ^ (w - 1) - 2 ^ mantissa_bits in
  (∀ x, 0 <= x <= infinity → let r := round_bits w x keepbits mantissa_bits in
    0 <= r <= infinity ∧ r = 2 ^ (mantissa_bits - keepbits) * half_even x (2 ^ (mantissa_bits - keepbits)) ∧
    round_bits w (2 ^ (w - 1) + x) keepbits mantissa_bits = 2 ^ (w - 1) + r ∧ (x = infinity → r = infinity)) ∧
  round_bits w (2 ^ (w - 1) - 1) keepbits mantissa_bits = 2 ^ (w - 1).
Proof.
  intros infinity. assert (infinity = 2 ^ (w - 1) - 2 ^ mantissa_bits) as Hinf by done. clearbody infinity. set (m := mantissa_bits - keepbits) in *. set (q := 2 ^ m). assert (0 < q) as Hq by (apply Z.pow_pos_nonneg; lia).
  set (j := 2 ^ (w - 1 - m)). set (c := 2 ^ keepbits). assert (0 < c) as Hc by (apply Z.pow_pos_nonneg; lia).
  assert (2 ^ (w - 1) = q * j ∧ 2 ^ mantissa_bits = q * c) as [Hj Hmb] by (unfold q, j, c; rewrite <-!Z.pow_add_r by lia; split; f_equal; lia).
  assert (2 ^ w = 2 * 2 ^ (w - 1)) as Hw by (rewrite <-Z.pow_succ_r by lia; f_equal; lia).
  assert (Z.even j = true) as Hej by (unfold j; rewrite Z.even_pow by lia; done).
  assert (c < j) as Hcj by (apply Z.pow_lt_mono_r; lia). rewrite Hmb, Hj in Hinf. rewrite Hj. split.
  - intros x Hx r. assert (half_even x q <= j - c) as Hh.
    { pose proof (Z.div_mod x q ltac:(lia)). pose proof (Z.mod_pos_bound x q Hq). assert (x / q <= j - c) by nia. destruct (decide (x / q = j - c)) as [He|].
      - replace x with (q * (j - c)) by nia. by rewrite half_even_multiple by done.
      - pose proof (half_even_bound x q Hq). lia. }
    pose proof (half_even_bound x q Hq) as Hb. assert (0 <= x / q) by (apply Z.div_pos; lia).
    assert (r = q * half_even x q) as Hr by (unfold r; rewrite round_bits_eq by lia; fold m q; apply Z.min_l; nia).
    split_and!; [nia|nia|done| |].
    + rewrite round_bits_eq by lia. fold m q. rewrite half_even_shift by done. rewrite Z.min_l by nia. rewrite Hr. lia.
    + intros Hxi. rewrite Hr, Hxi, Hinf. replace (q * j - q * c) with (q * (j - c)) by lia. by rewrite half_even_multiple.
  - rewrite round_bits_eq by lia. fold m q. assert (half_even (q * j - 1) q = j) as ->; [|apply Z.min_l; nia].
    assert (2 <= q) by (change 2 with (2 ^ 1); apply Z.pow_le_mono_r; lia). unfold half_even.
    assert ((q * j - 1) / q = j - 1) as -> by (apply div_between; lia). assert ((q * j - 1) mod q = q - 1) as -> by (rewrite Z.mod_eq by lia; rewrite (div_between _ _ (j - 1)) by lia; lia).
    rewrite Z.even_sub, Hej. rewrite (proj2 (Z.ltb_ge _ _)) by lia. rewrite andb_false_r. simpl. lia.
Qed.

(** 32-bit floats to a mantissa of ten bits: the magnitude [0x3F9E0652], which is about 1.2346. *)
Lemma bitround_floats_witness : 0 < 23 < 32 - 1 ∧ 0 <= 10 < 23 ∧
  round_bits 32 0x3F9E0652 10 23 = 0x3F9E0000 ∧ round_bits 32 (2 ^ 31 + 0x3F9E0652) 10 23 = 2 ^ 31 + 0x3F9E0000 ∧
  round_bits 32 0x7FFFFFFF 10 23 = 0x80000000.
Proof.
  destruct (bitround_floats 32 23 10 ltac:(lia) ltac:(lia)) as [H1 H2]. destruct (H1 0x3F9E0652 ltac:(lia)) as (_ & _ & H3 & _).
  split_and!; [lia..|by vm_compute|exact H3|exact H2].
Defined.

(** ** Chunks *)

Section chunks.
Context `{Target}.

Lemma length_to_ne_bytes n x : length (to_ne_bytes n x) = n.
Proof. unfold to_ne_bytes. destruct (decide _); rewrite ?length_reverse, length_fmap, length_seqZ; lia. Qed.

Lemma from_to_le n x : 0 <= x → foldr (λ x acc, x + 256 * acc) 0 ((λ i, Z.land (Z.shiftr x (8 * i)) 255) <$> seqZ 0 (Z.of_nat n)) = x mod 256 ^ Z.of_nat n.
Proof.
  revert x. induction n as [|n IH]; intros x Hx; [by rewrite Z.mod_1_r|]. rewrite seqZ_cons by lia. rewrite fmap_cons. cbn [foldr].
  replace (Z.pred (Z.of_nat (S n))) with (Z.of_nat n) by lia.
  assert ((λ i, Z.land (Z.shiftr x (8 * i)) 255) <$> seqZ (Z.succ 0) (Z.of_nat n) = (λ i, Z.land (Z.shiftr (x / 256) (8 * i)) 255) <$> seqZ 0 (Z.of_nat n)) as ->.
  { change (Z.succ 0) with (1 + 0). rewrite <-fmap_add_seqZ, <-list_fmap_compose. apply list_fmap_ext_in. intros i Hi%elem_of_seqZ. cbn [compose].
    change 256 with (2 ^ 8). rewrite <-Z.shiftr_div_pow2, Z.shiftr_shiftr by lia. do 2 f_equal. lia. }
  rewrite IH by (apply Z.div_pos; lia). rewrite Z.mul_0_r, Z.shiftr_0_r. change 255 with (Z.ones 8). rewrite Z.land_ones by lia. change (2 ^ 8) with 256.
  replace (Z.of_nat (S n)) with (Z.succ (Z.of_nat n)) by lia. rewrite Z.pow_succ_r by lia. rewrite Z.rem_mul_r by lia. done.
Qed.

Lemma from_to_ne n x : 0 <= x < 2 ^ (8 * Z.of_nat n) → from_ne_bytes (to_ne_bytes n x) = x.
Proof.
  intros Hx. assert (2 ^ (8 * Z.of_nat n) = 256 ^ Z.of_nat n) as Hp by (rewrite Z.pow_mul_r by lia; done). rewrite Hp in Hx.
  unfold from_ne_bytes, to_ne_bytes. destruct (decide _); [|rewrite reverse_involutive]; rewrite from_to_le by lia; by apply Z.mod_small.
Qed.

Lemma from_ne_bound b : Forall (λ x, 0 <= x < 256) b → 0 <= from_ne_bytes b < 2 ^ (8 * zlen b).
Proof.
  intros Hb. unfold from_ne_bytes. assert (Forall (λ x, 0 <= x < 256) (if decide (native = Little) then b else reverse b)) as Hb' by (destruct (decide _); [done|by apply Forall_reverse]).
  replace (zlen b) with (zlen (if decide (native = Little) then b else reverse b)) by (destruct (decide _); [done|by rewrite length_reverse]).
  induction Hb' as [|x l Hx Hl IH]; [by vm_compute|]. cbn [foldr length]. replace (8 * Z.of_nat (S (length l))) with (8 + 8 * zlen l) by lia.
  rewrite Z.pow_add_r by lia. change (2 ^ 8) with 256. lia.
Qed.

(** A chunk of whole components is rounded component by component, and so element by element. *)
Lemma round_chunks_concat n f L : (0 < n)%nat → Forall (λ e, length e = n) L →
  round_chunks n f (concat L) = concat ((λ e, to_ne_bytes n (f (from_ne_bytes e))) <$> L).
Proof.
  intros Hn HL. unfold round_chunks. rewrite chunks_exact_concat by done. rewrite (length_concat_const n) by done.
  rewrite Nat.div_mul, Nat.mul_comm by lia. rewrite drop_ge by (by rewrite (length_concat_const n)). by rewrite app_nil_r.
Qed.

Lemma round_chunks_eq n f e : (0 < n)%nat → (length e mod n = 0)%nat →
  round_chunks n f e = concat ((λ e, to_ne_bytes n (f (from_ne_bytes e))) <$> chunks_exact n e).
Proof. intros Hn Hm. destruct (concat_chunks_exact n e Hn Hm) as (Hc & HF & _). rewrite <-Hc at 1. by rewrite round_chunks_concat. Qed.

Lemma round_chunks_elements n d f L : (0 < n)%nat → (d mod n = 0)%nat → Forall (λ e, length e = d) L →
  round_chunks n f (concat L) = concat (round_chunks n f <$> L).
Proof.
  intros Hn Hd HL. rewrite round_chunks_eq; [|done|by rewrite (length_concat_const d), Nat.Div0.mul_mod, Hd, Nat.mul_0_r, Nat.Div0.mod_0_l].
  assert (chunks_exact n (concat L) = concat (chunks_exact n <$> L)) as ->.
  { assert (concat L = concat (concat (chunks_exact n <$> L))) as ->.
    { induction HL as [|e L He HL IH]; [done|]. rewrite fmap_cons. cbn [concat]. rewrite concat_app, <-IH. f_equal. symmetry.
      apply concat_chunks_exact; [done|]. by rewrite He. }
    apply chunks_exact_concat; [done|]. induction HL as [|e L He HL IH]; [constructor|]. rewrite fmap_cons. cbn [concat]. apply Forall_app.
    split; [|done]. apply concat_chunks_exact; [done|]. by rewrite He. }
  induction HL as [|e L He HL IH]; [done|]. rewrite !fmap_cons. cbn [concat]. rewrite fmap_app, concat_app, IH. f_equal.
  symmetry. apply round_chunks_eq; [done|by rewrite He].
Qed.

Lemma length_round_chunks n f e : (0 < n)%nat → (length e mod n = 0)%nat → length (round_chunks n f e) = length e.
Proof.
  intros Hn Hm. rewrite round_chunks_eq by done. destruct (concat_chunks_exact n e Hn Hm) as (_ & HF & Hl).
  rewrite (length_concat_const n); [|apply Forall_fmap, Forall_true; intros x; apply length_to_ne_bytes].
  rewrite length_fmap, Hl. rewrite (Nat.div_mod_eq (length e) n) at 2. lia.
Qed.

Lemma round_chunks_idempotent n f e : (0 < n)%nat → (length e mod n = 0)%nat → Forall (λ x, 0 <= x < 256) e →
  (∀ x, 0 <= x < 2 ^ (8 * Z.of_nat n) → 0 <= f x < 2 ^ (8 * Z.of_nat n) ∧ f (f x) = f x) → round_chunks n f (round_chunks n f e) = round_chunks n f e.
Proof.
  intros Hn Hm Hb Hf. rewrite (round_chunks_eq n f e) by done. destruct (concat_chunks_exact n e Hn Hm) as (Hc & HF & _).
  rewrite round_chunks_concat; [|done|apply Forall_fmap, Forall_true; intros x; apply length_to_ne_bytes].
  f_equal. rewrite list_fmap_fmap. apply list_fmap_ext_in. intros x Hx. rewrite Forall_forall in HF. specialize (HF x Hx).
  assert (0 <= from_ne_bytes x < 2 ^ (8 * Z.of_nat n)) as Hr.
  { rewrite <-HF. apply from_ne_bound. rewrite <-Hc in Hb. rewrite Forall_concat in Hb. rewrite Forall_forall in Hb. by apply Hb. }
  destruct (Hf _ Hr) as [H1 H2]. by rewrite from_to_ne, H2.
Qed.
End chunks.

(** ** The codec *)

Definition component_bytes (bt : BitroundDataType) : nat := match bt with BitroundInt size | BitroundFloat size _ => size end.

Definition round_component (bt : BitroundDataType) (keepbits x : Z) : Z :=
  match bt with
  | BitroundInt size => round_int (8 * Z.of_nat size) x keepbits
  | BitroundFloat size mantissa_bits => round_bits (8 * Z.of_nat size) x keepbits mantissa_bits
  end.

(** The data type of a codec supports rounding, and its elements are whole numbers of components. *)
Record bitround_wf `{!BitroundDataTypes} (c : BitroundCodecBound) (bt : BitroundDataType) (d : Z) : Prop := {
  rw_support : codec_bitround (br_data_type c) = Some bt;
  rw_size : br_data_type c = PlainType (FixedSize d);
  rw_component : (0 < component_bytes bt)%nat ∧ (Z.to_nat d mod component_bytes bt = 0)%nat;
}.

(** Rounding that can be repeated: a bit of an integer is kept, and the mantissa leaves room for the sign. *)
Definition keepbits_ok (bt : BitroundDataType) (keepbits : Z) : Prop :=
  match bt with BitroundInt _ => 1 <= keepbits | BitroundFloat size mantissa_bits => mantissa_bits - keepbits < 8 * Z.of_nat size end.

Definition round_element `{Target} (bt : BitroundDataType) (keepbits : Z) (e : element) : element :=
  match e with Value b => Value (bitround_round bt b keepbits) | _ => e end.

Section laws.
Context `{Target, !BitroundDataTypes} (c : BitroundCodecBound) (bt : BitroundDataType) (d : Z) (Hc : bitround_wf c bt d).
#[local] Abbreviation dt := (br_data_type c).
#[local] Abbreviation kb := (br_keepbits c).

Lemma bitround_round_chunks b : bitround_round bt b kb = round_chunks (component_bytes bt) (round_component bt kb) b.
Proof. by destruct bt. Qed.

Lemma round_component_idempotent x : keepbits_ok bt kb → 0 <= x < 2 ^ (8 * Z.of_nat (component_bytes bt)) →
  0 <= round_component bt kb x < 2 ^ (8 * Z.of_nat (component_bytes bt)) ∧ round_component bt kb (round_component bt kb x) = round_component bt kb x.
Proof.
  destruct bt as [n|n m]; cbn [component_bytes round_component keepbits_ok]; intros Hk Hx.
  - split; [by apply round_int_bound|by apply round_int_idempotent].
  - split; [by apply round_bits_bound|]. destruct (Z.le_gt_cases m kb) as [Hle|Hlt]; [by rewrite !round_bits_keep|].
    destruct (round_bits_factor (8 * Z.of_nat n) x kb m Hx ltac:(lia) Hk) as (k & -> & _ & Hr). by apply round_bits_multiple; [|lia|].
Qed.

Lemma encode_rounds b V sh options : holds b dt V →
  ∃ b', bitround_encode c b sh options = Ok b' ∧ holds b' dt (round_element bt kb <$> V) ∧ array_bytes_size b' = array_bytes_size b.
Proof using Hc.
  rewrite (rw_size c bt d Hc). intros (L & -> & -> & [Hd HL] & Hb)%holds_fixed. unfold bitround_encode, round_bytes. cbn [into_fixed obind].
  rewrite (rw_support c bt d Hc). cbn [ok_or obind]. rewrite bitround_round_chunks. destruct (rw_component c bt d Hc) as [Hn Hm].
  rewrite (round_chunks_elements _ (Z.to_nat d)) by done. eexists. split; [done|].
  assert (fixed_elements d (round_chunks (component_bytes bt) (round_component bt kb) <$> L)) as HF.
  { split; [done|]. apply Forall_fmap. eapply Forall_impl; [exact HL|]. intros e He. cbn [compose]. rewrite length_round_chunks; [done..|by rewrite He]. }
  split.
  - apply holds_fixed. eexists. split_and!; [done| |done|by rewrite length_fmap]. rewrite !list_fmap_fmap. apply list_fmap_ext. intros _ e _. cbn [round_element]. by rewrite bitround_round_chunks.
  - cbn [array_bytes_size]. rewrite (fixed_elements_length d _ HF), length_fmap. by rewrite (fixed_elements_length d L).
Qed.

(** The bytes of the encoded elements are determined. *)
Lemma encode_holds b b' V sh options : holds b dt V → holds b' dt (round_element bt kb <$> V) → bitround_encode c b sh options = Ok b'.
Proof using Hc.
  intros Hb Hb'. destruct (encode_rounds b V sh options Hb) as (b2 & He & Hh & _). rewrite He. f_equal. rewrite (rw_size c bt d Hc) in Hb', Hh. by eapply holds_fixed_inj.
Qed.

Lemma element_idempotent e : keepbits_ok bt kb → length e = Z.to_nat d → Forall (λ x, 0 <= x < 256) e →
  round_element bt kb (round_element bt kb (Value e)) = round_element bt kb (Value e).
Proof using Hc.
  intros Hk He Hb. cbn [round_element]. f_equal. rewrite !bitround_round_chunks. destruct (rw_component c bt d Hc) as [Hn Hm].
  apply round_chunks_idempotent; [done|by rewrite He|done|]. intros x Hx. by apply round_component_idempotent.
Qed.
End laws.

(** C25: A bit rounding codec that is bound to a data type rounds the fill value; encoding a chunk rounds every component of every
    element, so that a chunk of fill values becomes a chunk of encoded fill values.  Decoding changes nothing, and encoding
    what was decoded gives the same chunk again. *)
Theorem bitround_rounds_elements `{Target, !BitroundDataTypes} (keepbits : Z) (bt : BitroundDataType) (d : Z) (fv : FillValue) (dt : DataType)
    (Hdt : dt = PlainType (FixedSize d)) (Hd : 0 < d) (Hbt : codec_bitround dt = Some bt)
    (Hn : (0 < component_bytes bt)%nat ∧ (Z.to_nat d mod component_bytes bt = 0)%nat) (Hfv : zlen fv = d ∧ d < 2 ^ 63) :
  ∃ c, bitround_with_context (mk_bitround keepbits) dt fv = Ok c ∧ bitround_wf c bt d ∧ br_fill_value c = fv ∧
    Value (br_encoded_fill_value c) = round_element bt keepbits (Value fv) ∧
    ∀ b V sh options, holds b dt V → ∃ b', bitround_encode c b sh options = Ok b' ∧ holds b' dt (round_element bt keepbits <$> V) ∧
      bitround_decode c b' sh options = Ok b' ∧
      (keepbits_ok bt keepbits → (∀ e, Value e ∈ V → Forall (λ x, 0 <= x < 256) e) → bitround_encode c b' sh options = Ok b').
Proof.
  pose (c0 := mk_bitround_bound keepbits dt fv fv). assert (bitround_wf c0 bt d) as Hc0 by by split.
  assert (holds (FixedBytes fv) dt [Value fv]) as Hf.
  { rewrite Hdt. apply holds_fixed. exists [fv]. cbn [concat]. rewrite app_nil_r. split_and!; [done..| |simpl; lia]. split; [done|]. constructor; [lia|done]. }
  destruct (encode_rounds c0 bt d Hc0 _ _ [] (CodecOptions_default 1) Hf) as (bf & He & Hhf & _). unfold bitround_encode in He. cbn [into_fixed obind] in He.
  destruct (round_bytes fv dt keepbits) as [fv'|err|] eqn:Hr; cbn [br_data_type br_keepbits c0] in He; rewrite Hr in He; try done. injection He as <-.
  exists (mk_bitround_bound keepbits dt fv fv'). split_and!.
  - unfold bitround_with_context, encode_fill_value. rewrite Hbt. cbn [ok_or obind up_keepbits]. rewrite Hdt. cbn [new_fill_value].
    rewrite (proj2 (Z.eqb_eq _ _)) by lia. cbn [obind]. cbn [into_fixed obind]. assert (repeat_bytes fv 1 = fv) as -> by (unfold repeat_bytes; apply app_nil_r). rewrite <-Hdt. by rewrite Hr.
  - by split.
  - done.
  - unfold round_bytes in Hr. rewrite Hbt in Hr. cbn [ok_or obind] in Hr. injection Hr as <-. done.
  - intros b V sh options Hb. set (c := mk_bitround_bound keepbits dt fv fv'). assert (bitround_wf c bt d) as Hc by by split.
    destruct (encode_rounds c bt d Hc b V sh options Hb) as (b' & He & Hh & _). exists b'. split_and!; [done..|]. intros Hk HV.
    apply (encode_holds c bt d Hc b' b' (round_element bt keepbits <$> V)); [done|].
    rewrite list_fmap_fmap. rewrite (list_fmap_ext_in _ (round_element bt keepbits)); [done|]. intros e He'. rewrite Hdt in Hb. apply holds_fixed in Hb as (L & _ & -> & [_ HL] & _).
    apply list_elem_of_fmap in He' as (e' & -> & Hin). rewrite Forall_forall in HL. apply (element_idempotent c bt d Hc); [done|by apply HL|]. apply HV. by apply list_elem_of_fmap_2.
Qed.

(** C27: Encoding and regions: a region of the encoded chunk is the encoding of the region, which is what the partial decoder
    returns; writing the encoding of a region, as the partial encoder does, gives the encoding of the chunk with the region written. *)
Theorem bitround_regions `{Target, !BitroundDataTypes} (c : BitroundCodecBound) (bt : BitroundDataType) (d : Z) (Hc : bitround_wf c bt d)
    (b u : ArrayBytes) (V U : list element) (s : ArraySubset) (sh : list Z) (options : CodecOptions) (Hs : region_ok s sh)
    (Hb : holds b (br_data_type c) V) (Hu : holds u (br_data_type c) U) (HV : zlen V = Zprod sh) (HU : zlen U = Zprod (shape s))
    (Hsz : array_bytes_size b + array_bytes_size u < 2 ^ 63) :
  ∃ b' u' part part' whole whole', bitround_encode c b sh options = Ok b' ∧ bitround_encode c u (shape s) options = Ok u' ∧
    (extract_array_subset b s sh (br_data_type c) = Ok part ∧ extract_array_subset b' s sh (br_data_type c) = Ok part' ∧
      bitround_encode c part (shape s) options = Ok part') ∧
    (update_array_bytes b sh s u (data_type_size (br_data_type c)) = Ok whole ∧ update_array_bytes b' sh s u' (data_type_size (br_data_type c)) = Ok whole' ∧
      bitround_encode c whole sh options = Ok whole') ∧
    ∀ h, bitround_partial_encode c h s u = partial_encode h s u'.
Proof.
  destruct (encode_rounds c bt d Hc b V sh options Hb) as (b' & Eb & Hb' & Sb), (encode_rounds c bt d Hc u U (shape s) options Hu) as (u' & Eu & Hu' & Su).
  destruct (extract_holds b _ V s sh Hs Hb HV) as (part & Hpart & Hhp & _).
  destruct (extract_holds b' _ _ s sh Hs Hb' ltac:(by rewrite length_fmap)) as (part' & Hpart' & Hhp' & _).
  destruct (update_holds b u _ V U s sh Hs Hb Hu HV HU Hsz) as (whole & Hwhole & Hhw & _).
  destruct (update_holds b' u' _ _ _ s sh Hs Hb' Hu' ltac:(by rewrite length_fmap) ltac:(by rewrite length_fmap) ltac:(lia)) as (whole' & Hwhole' & Hhw' & _).
  exists b', u', part, part', whole, whole'. split_and!; [done..| |done|done| |].
  - apply (encode_holds c bt d Hc part part' (select V (positions s sh))); [done|]. rewrite select_fmap in Hhp'; [done|]. rewrite HV. by apply positions_bound; apply Hs.
  - apply (encode_holds c bt d Hc whole whole' (scatter V (positions s sh) U)); [done|]. by rewrite scatter_fmap in Hhw'.
  - intros h. unfold bitround_encode in Eu. destruct u as [b0|v|b0 m]; try done. cbn [into_fixed obind] in Eu. unfold bitround_partial_encode. cbn [into_fixed plift pbind].
    destruct (round_bytes b0 (br_data_type c) (br_keepbits c)); cbn [obind] in Eu; try done. by injection Eu as <-.
Qed.

(** ** Examples *)

Section examples.
#[local] Instance example_target : Target := Little.
#[local] Instance example_types : BitroundDataTypes := λ dt,
  match dt with PlainType (FixedSize 4) => Some (BitroundFloat 4 23) | PlainType (FixedSize 1) => Some (BitroundInt 1) | _ => None end.

Definition float32 : DataType := PlainType (FixedSize 4).
Definition uint8 : DataType := PlainType (FixedSize 1).

(** The float 1.234_567_9, rounded to three bits of the mantissa: 1.25. *)
Lemma bitround_rounds_elements_witness : ∃ c, bitround_with_context (mk_bitround 3) float32 [0x52; 0x06; 0x9E; 0x3F] = Ok c ∧
  br_encoded_fill_value c = [0; 0; 0xA0; 0x3F] ∧ bitround_encode c (FixedBytes [0x52; 0x06; 0x9E; 0x3F]) [1] (CodecOptions_default 1) = Ok (FixedBytes [0; 0; 0xA0; 0x3F]).
Proof.
  destruct (bitround_rounds_elements 3 (BitroundFloat 4 23) 4 [0x52; 0x06; 0x9E; 0x3F] float32 eq_refl ltac:(lia) eq_refl ltac:(split; [cbn; lia|done]) ltac:(split; [done|lia]))
    as (c & Hc & _ & _ & He & Hall).
  exists c. split; [done|]. assert (br_encoded_fill_value c = [0; 0; 0xA0; 0x3F]) as Hfe by (injection He as ->; by vm_compute). split; [done|].
  destruct (Hall (FixedBytes [0x52; 0x06; 0x9E; 0x3F]) [Value [0x52; 0x06; 0x9E; 0x3F]] [1] (CodecOptions_default 1)) as (b' & Hb & Hh & _).
  { apply holds_fixed. exists [[0x52; 0x06; 0x9E; 0x3F]]. split_and!; [done..|split; [lia|by repeat constructor]|simpl; lia]. }
  rewrite Hb. f_equal. apply (holds_fixed_inj _ _ 4 _ Hh). apply holds_fixed. exists [[0; 0; 0xA0; 0x3F]].
  split_and!; [done|by vm_compute|split; [lia|by repeat constructor]|simpl; lia].
Defined.

Lemma holds_bytes l : zlen l < 2 ^ 63 → holds (FixedBytes l) uint8 ((λ x, Value [x]) <$> l).
Proof.
  intros Hl. apply holds_fixed. exists ((λ x, [x]) <$> l). split_and!.
  - f_equal. induction l as [|x l IH]; [done|]. rewrite fmap_cons. cbn [concat app]. f_equal. apply IH. simpl in Hl. lia.
  - by rewrite list_fmap_fmap.
  - split; [lia|]. apply Forall_fmap, Forall_true. done.
  - rewrite length_fmap. lia.
Qed.

(** The second half of four bytes. *)
Lemma bitround_regions_witness : ∃ u' whole', let c := mk_bitround_bound 3 uint8 [0] [0] in
  bitround_encode c (FixedBytes [54; 89]) [2] (CodecOptions_default 1) = Ok u' ∧ u' = FixedBytes [56; 96] ∧
  update_array_bytes (FixedBytes [16; 16; 128; 224]) [4] (mk_subset [2] [2]) u' (FixedSize 1) = Ok whole' ∧ whole' = FixedBytes [16; 16; 56; 96].
Proof.
  pose (c := mk_bitround_bound 3 uint8 [0] [0]). assert (bitround_wf c (BitroundInt 1) 1) as Hc by (split; [done..|]; split; [cbn; lia|done]).
  destruct (bitround_regions c (BitroundInt 1) 1 Hc (FixedBytes [15; 17; 128; 255]) (FixedBytes [54; 89]) ((λ x, Value [x]) <$> [15; 17; 128; 255]) ((λ x, Value [x]) <$> [54; 89]) (mk_subset [2] [2]) [4] (CodecOptions_default 1))
    as (b' & u' & _ & _ & _ & whole' & Hb & Hu & _ & (_ & Hw & _) & _); [|by apply holds_bytes|by apply holds_bytes|done|done|by vm_compute|].
  { apply in_shape_region; [repeat constructor; unfold_u64; lia|split; [repeat constructor; lia|done]]. }
  assert (bitround_encode c (FixedBytes [54; 89]) [2] (CodecOptions_default 1) = Ok (FixedBytes [56; 96])) as Hu' by (vm_compute; reflexivity).
  assert (bitround_encode c (FixedBytes [15; 17; 128; 255]) [4] (CodecOptions_default 1) = Ok (FixedBytes [16; 16; 128; 224])) as Hb' by (vm_compute; reflexivity).
  rewrite Hb' in Hb. injection Hb as <-. change (shape (mk_subset [2] [2])) with [2] in Hu. rewrite Hu' in Hu. injection Hu as <-.
  exists (FixedBytes [56; 96]), whole'. split_and!; [done|done|exact Hw|].
  assert (update_array_bytes (FixedBytes [16; 16; 128; 224]) [4] (mk_subset [2] [2]) (FixedBytes [56; 96]) (data_type_size (br_data_type c)) = Ok (FixedBytes [16; 16; 56; 96])) as Hw' by (vm_compute; reflexivity).
  rewrite Hw' in Hw. by injection Hw as <-.
Defined.
End examples.
