(* ===== verification/Hierarchy.v ===== *)
(** Nodes, groups and hierarchies: [zarrs/src/node.rs] with [node/node_sync.rs], [zarrs/src/hierarchy.rs] and
    [zarrs/src/group.rs].

    A node is an array or a group with a metadata document in the store.  The documents are values of any types: the class
    [MetadataDocuments] has the fields that the code looks at, and how serde_json reads and writes them.

    The code that descends into groups is recursive; it is run with fuel, and panics without. *)

From stdpp Require Import sorting.
From S2P Require Import Prelude ByteRange StoreKey Storage.

(** ** Metadata documents *)

Class MetadataDocuments := {
  ArrayMetadataV3 : Type;
  GroupMetadataV3 : Type;
  ArrayMetadataV2 : Type;
  GroupMetadataV2 : Type;
  Attributes : Type;
  (** the fields [attributes] of documents *)
  attributes_is_empty : Attributes → bool;
  attributes_default : Attributes;
  set_array_attributes : ArrayMetadataV2 → Attributes → ArrayMetadataV2;
  group_attributes : GroupMetadataV2 → Attributes;
  set_group_attributes : GroupMetadataV2 → Attributes → GroupMetadataV2;
  (** [GroupMetadataV3::new().with_attributes(..)] *)
  group_v3_with_attributes : Attributes → GroupMetadataV3;
}.

Section documents.
Context `{MetadataDocuments}.

Inductive ArrayMetadata := ArrayV3 (metadata : ArrayMetadataV3) | ArrayV2 (metadata : ArrayMetadataV2).
Inductive GroupMetadata := GroupV3 (metadata : GroupMetadataV3) | GroupV2 (metadata : GroupMetadataV2).
Inductive NodeMetadata := NodeArray (metadata : ArrayMetadata) | NodeGroup (metadata : GroupMetadata).

(** The [metadata] of [ConsolidatedMetadata]: a [HashMap] from relative paths, as the list of its entries in the order of iteration. *)
Definition ConsolidatedMetadata : Type := list (str * NodeMetadata).
End documents.

(** [serde_json]: reading and writing documents. *)
Class SerdeJson `{MetadataDocuments} := {
  node_from_slice : bytes → option NodeMetadata;
  group_v3_from_slice : bytes → option GroupMetadataV3;
  array_v2_from_slice : bytes → option ArrayMetadataV2;
  group_v2_from_slice : bytes → option GroupMetadataV2;
  attributes_from_slice : bytes → option Attributes;
  group_v3_to_vec : GroupMetadataV3 → bytes;
  group_v2_to_vec : GroupMetadataV2 → bytes;
  attributes_to_vec : Attributes → bytes;
  (** the field [consolidated_metadata], when it is there and can be read *)
  consolidated_field : GroupMetadataV3 → option ConsolidatedMetadata;
  (** writing it, or removing it *)
  set_consolidated_field : GroupMetadataV3 → option ConsolidatedMetadata → GroupMetadataV3;
  (** the name of the first additional field that must be understood *)
  must_understand_field : GroupMetadataV3 → option str;
}.

(** ** Configuration *)

Inductive MetadataRetrieveVersion := RetrieveDefault | RetrieveV3 | RetrieveV2.
Inductive MetadataConvertVersion := ConvertDefault | ConvertV3.
Inductive MetadataEraseVersion := EraseDefault | EraseAll | EraseV3 | EraseV2.
Inductive UseConsolidatedMetadata := UseAuto | UseMust | UseNever.

Definition retrieves_v3 (version : MetadataRetrieveVersion) : bool := match version with RetrieveV2 => false | _ => true end.
Definition retrieves_v2 (version : MetadataRetrieveVersion) : bool := match version with RetrieveV3 => false | _ => true end.

(** ** Errors and effects *)

Inductive NodeCreateError :=
| NodePathError (path : str)
| NodeStorePrefixError (prefix : str)
| NodeStorageError (e : StorageError)
| MetadataVersionMismatch
| NodeMissingMetadata (path : str).

(** [GroupCreateError]. *)
Inductive GroupCreateError :=
| GroupNodePathError (path : str)
| GroupStorageError (e : StorageError)
| GroupMissingMetadata
| AdditionalFieldUnsupportedError (name : str).

Definition group_error_of_node (value : NodeCreateError) : GroupCreateError :=
  GroupStorageError (match value with NodeStorageError err => err | _ => StorageOther end).

(** Operations on a store, with an error type of their own. *)
Definition eop (E S A : Type) : Type := S → S * outcome E A.
Abbreviation node_op := (eop NodeCreateError).
Abbreviation group_op := (eop GroupCreateError).

Definition nret {E S A} (a : A) : eop E S A := λ s, (s, Ok a).
Definition nlift {E S A} (x : outcome E A) : eop E S A := λ s, (s, x).
Definition estore {E S A} (f : StorageError → E) (m : store_op S A) : eop E S A := λ s, let '(s, x) := m s in (s, map_err f x).
Abbreviation nstore := (estore NodeStorageError).

Definition nbind {E S A B} (m : eop E S A) (f : A → eop E S B) : eop E S B := λ s,
  match m s with
  | (s, Ok a) => f a s
  | (s, Err e) => (s, Err e)
  | (s, Panic) => (s, Panic)
  end.

Notation "'let^' x ':=' m 'in' k" := (nbind m (λ x, k)) (at level 10, x pattern, m at level 100, k at level 200).

(** Going on after an error that is handled: [on_err] says what becomes of it. *)
Definition ncatch {E S A} (m : eop E S A) (on_err : E → outcome E A) : eop E S A := λ s,
  match m s with
  | (s, Err e) => (s, on_err e)
  | r => r
  end.

(** A loop that may skip items. *)
Fixpoint nfilter_map {E S A B} (f : A → eop E S (option B)) (l : list A) : eop E S (list B) :=
  match l with
  | [] => nret []
  | a :: l =>
      let^ b := f a in
      let^ rest := nfilter_map f l in
      nret (match b with Some b => b :: rest | None => rest end)
  end.

(** ** Nodes *)

Inductive Node `{MetadataDocuments} := mk_node (node_path : NodePath) (node_metadata : NodeMetadata) (node_children : list Node).

Section node.
Context `{SerdeJson}.

Definition node_path (self : Node) : NodePath := match self with mk_node path _ _ => path end.
Definition node_metadata (self : Node) : NodeMetadata := match self with mk_node _ metadata _ => metadata end.
Definition node_children (self : Node) : list Node := match self with mk_node _ _ children => children end.

Definition is_group (metadata : NodeMetadata) : bool := match metadata with NodeGroup _ => true | NodeArray _ => false end.

(** The last component of the path. *)
Definition node_name (self : Node) : str := default [] (last (split slash (node_path self))).

Section store.
Context {S : Type} `{ReadableStorageTraits S, ListableStorageTraits S}.

Definition invalid_metadata (key : StoreKey) : NodeCreateError := NodeStorageError (InvalidMetadata key).

(** *** [Node::get_metadata] *)

Definition get_metadata_v3 (path : NodePath) : node_op S (option NodeMetadata) :=
  let key_v3 := meta_key_v3 path in
  let^ metadata := nstore (get key_v3) in
  match metadata with
  | None => nret None
  | Some metadata =>
      let^ metadata := nlift (ok_or (invalid_metadata key_v3) (node_from_slice metadata)) in
      match metadata with
      | NodeArray (ArrayV3 _) | NodeGroup (GroupV3 _) => nret (Some metadata)
      | NodeArray (ArrayV2 _) | NodeGroup (GroupV2 _) => nlift (Err MetadataVersionMismatch)
      end
  end.

(** The attributes of a V2 node, from their own key. *)
Definition get_attributes (path : NodePath) : node_op S (option Attributes) :=
  let attributes_key := meta_key_v2_attributes path in
  let^ attributes := nstore (get attributes_key) in
  match attributes with
  | None => nret None
  | Some attributes =>
      let^ attributes := nlift (ok_or (invalid_metadata attributes_key) (attributes_from_slice attributes)) in
      nret (Some attributes)
  end.

Definition get_metadata_v2 (path : NodePath) : node_op S (option NodeMetadata) :=
  let array_key := meta_key_v2_array path in
  let^ metadata := nstore (get array_key) in
  match metadata with
  | Some metadata =>
      let^ metadata := nlift (ok_or (invalid_metadata array_key) (array_v2_from_slice metadata)) in
      let^ attributes := get_attributes path in
      let metadata := match attributes with Some attributes => set_array_attributes metadata attributes | None => metadata end in
      nret (Some (NodeArray (ArrayV2 metadata)))
  | None =>
      let group_key := meta_key_v2_group path in
      let^ metadata := nstore (get group_key) in
      match metadata with
      | None => nret None
      | Some metadata =>
          let^ metadata := nlift (ok_or (invalid_metadata group_key) (group_v2_from_slice metadata)) in
          let^ attributes := get_attributes path in
          let metadata := match attributes with Some attributes => set_group_attributes metadata attributes | None => metadata end in
          nret (Some (NodeGroup (GroupV2 metadata)))
      end
  end.

Definition get_metadata (path : NodePath) (version : MetadataRetrieveVersion) : node_op S NodeMetadata :=
  let^ found := if retrieves_v3 version then get_metadata_v3 path else nret None in
  match found with
  | Some metadata => nret metadata
  | None =>
      let^ found := if retrieves_v2 version then get_metadata_v2 path else nret None in
      match found with
      | Some metadata => nret metadata
      | None => nlift (Err (NodeMissingMetadata path))
      end
  end.

(** *** Discovering nodes *)

(** The path of a prefix that was listed. *)
Definition path_of_prefix (prefix : StorePrefix) : outcome NodeCreateError NodePath :=
  map_err (λ _ : str, NodeStorageError StorageOther) (NodePath_from_prefix prefix).

(** [get_child_nodes_opt]. *)
Fixpoint get_child_nodes_opt (fuel : nat) (path : NodePath) (recursive : bool) (version : MetadataRetrieveVersion) : node_op S (list Node) :=
  match fuel with
  | O => nlift Panic
  | Datatypes.S fuel =>
      let^ prefix := nlift (map_err NodeStorePrefixError (NodePath_to_prefix path)) in
      let^ prefixes := nstore (discover_children prefix) in
      nfilter_map (λ prefix,
        let^ path := nlift (path_of_prefix prefix) in
        let^ child_metadata := ncatch (let^ metadata := get_metadata path version in nret (Some metadata))
          (λ e, match e with NodeMissingMetadata _ => Ok None | e => Err e end) in
        match child_metadata with
        | None => nret None
        | Some child_metadata =>
            let^ children :=
              if recursive then if is_group child_metadata then get_child_nodes_opt fuel path true version else nret []
              else nret [] in
            nret (Some (mk_node path child_metadata children))
        end) prefixes
  end.

Definition get_child_nodes (fuel : nat) (path : NodePath) (recursive : bool) : node_op S (list Node) :=
  get_child_nodes_opt fuel path recursive RetrieveDefault.

(** The loop of [get_all_nodes_of] over the children: the nodes below a group come before the group. *)
Fixpoint extend_nodes (below : NodePath → node_op S (list (NodePath * NodeMetadata))) (children : list Node)
    : node_op S (list (NodePath * NodeMetadata)) :=
  match children with
  | [] => nret []
  | child :: children =>
      let^ nodes := if is_group (node_metadata child) then below (node_path child) else nret [] in
      let^ rest := extend_nodes below children in
      nret (nodes ++ (node_path child, node_metadata child) :: rest)
  end.

Fixpoint get_all_nodes_of (fuel : nat) (path : NodePath) (version : MetadataRetrieveVersion) : node_op S (list (NodePath * NodeMetadata)) :=
  match fuel with
  | O => nlift Panic
  | Datatypes.S fuel =>
      let^ children := get_child_nodes_opt 1 path false version in
      extend_nodes (λ path, get_all_nodes_of fuel path version) children
  end.

(** [node_exists]; the keys are asked for until one is there. *)
Definition node_exists (path : NodePath) : store_op S bool :=
  let! v3 := get (meta_key_v3 path) in
  if bool_decide (is_Some v3) then op_ret true
  else
    let! v2_array := get (meta_key_v2_array path) in
    if bool_decide (is_Some v2_array) then op_ret true
    else
      let! v2_group := get (meta_key_v2_group path) in
      op_ret (bool_decide (is_Some v2_group)).

Definition node_exists_listable (path : NodePath) : store_op S bool :=
  let! prefix := op_lift (map_err StorePrefixError (NodePath_to_prefix path)) in
  let! keys := list_prefix prefix in
  op_ret (bool_decide (meta_key_v3 path ∈ keys) || bool_decide (meta_key_v2_array path ∈ keys) || bool_decide (meta_key_v2_group path ∈ keys)).
End store.

(** ** Consolidated metadata *)

(** The order of paths: by their components. *)
Fixpoint components_leb (a b : list str) : bool :=
  match a, b with
  | [], _ => true
  | _ :: _, [] => false
  | x :: a, y :: b => if decide (x = y) then components_leb a b else str_leb x y
  end.

Definition path_leb (a b : NodePath) : bool := components_leb (split slash (drop 1 a)) (split slash (drop 1 b)).

(** A [BTreeMap] from paths, and the order in which it is iterated. *)
Definition entry_le {A} (a b : NodePath * A) : Prop := path_leb a.1 b.1 = true.
#[export] Instance entry_le_dec {A} : RelDecision (@entry_le A).
Proof. intros a b. unfold entry_le. apply _. Defined.

Definition btree_iter {A} (m : gmap NodePath A) : list (NodePath * A) := merge_sort entry_le (map_to_list m).

Fixpoint expand_consolidated_metadata (base_path : NodePath) (consolidated : ConsolidatedMetadata)
    : outcome NodeCreateError (list (NodePath * NodeMetadata)) :=
  match consolidated with
  | [] => Ok []
  | (rel, md) :: consolidated =>
      let? path := map_err NodePathError (NodePath_join base_path rel) in
      let? out := expand_consolidated_metadata base_path consolidated in
      Ok (if decide (path = base_path) then out else (path, md) :: out)
  end.

Abbreviation by_parent_map := (gmap NodePath (gmap NodePath NodeMetadata)).

(** The loop of [collect_children_from_map] over the entries of a parent. *)
Fixpoint collect_entries (below : NodePath → by_parent_map → outcome NodeCreateError (list Node * by_parent_map))
    (entries : list (NodePath * NodeMetadata)) (by_parent : by_parent_map) : outcome NodeCreateError (list Node * by_parent_map) :=
  match entries with
  | [] => Ok ([], by_parent)
  | (path, md) :: entries =>
      let? children := if is_group md then below path by_parent else Ok ([], by_parent) in
      let '(children, by_parent) := children in
      let? nodes := collect_entries below entries by_parent in
      let '(nodes, by_parent) := nodes in
      Ok (mk_node path md children :: nodes, by_parent)
  end.

Fixpoint collect_children_from_map (fuel : nat) (parent : NodePath) (by_parent : by_parent_map) : outcome NodeCreateError (list Node * by_parent_map) :=
  match by_parent !! parent with
  | None => Ok ([], by_parent)
  | Some entries =>
      match fuel with
      | O => Panic
      | Datatypes.S fuel => collect_entries (collect_children_from_map fuel) (btree_iter entries) (delete parent by_parent)
      end
  end.

Definition insert_by_parent (by_parent : by_parent_map) (entry : NodePath * NodeMetadata) : by_parent_map :=
  match NodePath_parent entry.1 with
  | Some parent => <[parent := <[entry.1 := entry.2]> (default ∅ (by_parent !! parent))]> by_parent
  | None => by_parent
  end.

Definition build_node_tree (base_path : NodePath) (flat : list (NodePath * NodeMetadata)) : outcome NodeCreateError (list Node) :=
  let by_parent := foldl insert_by_parent ∅ flat in
  let? nodes := collect_children_from_map (size by_parent) base_path by_parent in Ok nodes.1.

Definition direct_children_from_flat (base_path : NodePath) (flat : list (NodePath * NodeMetadata)) : list Node :=
  (λ entry : NodePath * NodeMetadata, mk_node entry.1 entry.2 []) <$>
    merge_sort entry_le (filter (λ entry, NodePath_parent entry.1 = Some base_path) flat).

Definition resolve_consolidated_policy (path : NodePath) (consolidated : option ConsolidatedMetadata) (policy : UseConsolidatedMetadata)
    : outcome NodeCreateError (option ConsolidatedMetadata) :=
  match policy with
  | UseNever => Ok None
  | _ =>
      match consolidated, policy with
      | Some c, _ => Ok (Some c)
      | None, UseMust => Err (NodeMissingMetadata path)
      | None, _ => Ok None
      end
  end.

Definition consolidated_metadata_for_open (path : NodePath) (metadata : NodeMetadata) (policy : UseConsolidatedMetadata)
    : outcome NodeCreateError (option ConsolidatedMetadata) :=
  let consolidated := match metadata with NodeGroup (GroupV3 group_metadata) => consolidated_field group_metadata | _ => None end in
  resolve_consolidated_policy path consolidated policy.

(** The loop of [consolidate_metadata] over the nodes below one node, with the map of relative paths. *)
Fixpoint update_consolidated_metadata (base_path : NodePath) (child : Node) (consolidated_metadata : gmap str NodeMetadata) {struct child}
    : outcome NodeCreateError (gmap str NodeMetadata) :=
  match child with
  | mk_node path metadata children =>
      let? relative_path := expect (strip_prefix path base_path) in
      let relative_path := default relative_path (strip_prefix relative_path [slash]) in
      (fix loop children consolidated_metadata :=
        match children with
        | [] => Ok consolidated_metadata
        | child :: children =>
            let? consolidated_metadata := update_consolidated_metadata base_path child consolidated_metadata in
            loop children consolidated_metadata
        end) children (<[relative_path := metadata]> consolidated_metadata)
  end.

Fixpoint update_consolidated (base_path : NodePath) (children : list Node) (consolidated_metadata : gmap str NodeMetadata)
    : outcome NodeCreateError (gmap str NodeMetadata) :=
  match children with
  | [] => Ok consolidated_metadata
  | child :: children =>
      let? consolidated_metadata := update_consolidated_metadata base_path child consolidated_metadata in
      update_consolidated base_path children consolidated_metadata
  end.

Definition consolidate_metadata (self : Node) : outcome NodeCreateError (option (gmap str NodeMetadata)) :=
  if is_group (node_metadata self) then
    let? consolidated_metadata := update_consolidated (node_path self) (node_children self) ∅ in Ok (Some consolidated_metadata)
  else Ok None.

(** ** Opening nodes and hierarchies *)

(** [Hierarchy], a [BTreeMap]. *)
Definition Hierarchy : Type := gmap NodePath NodeMetadata.

Definition hierarchy_extend (self : Hierarchy) (nodes : list (NodePath * NodeMetadata)) : Hierarchy :=
  foldl (λ h entry, <[entry.1 := entry.2]> h) self nodes.

Section open.
Context {S : Type} `{ReadableStorageTraits S, ListableStorageTraits S}.

Definition node_open_opt (fuel : nat) (path : str) (version : MetadataRetrieveVersion) (policy : UseConsolidatedMetadata) : node_op S Node :=
  let^ path := nlift (map_err NodePathError (NodePath_new path)) in
  let^ metadata := get_metadata path version in
  let^ children :=
    if is_group metadata then
      let^ consolidated := nlift (consolidated_metadata_for_open path metadata policy) in
      match consolidated with
      | Some consolidated => nlift (let? flat := expand_consolidated_metadata path consolidated in build_node_tree path flat)
      | None => get_child_nodes_opt fuel path true version
      end
    else nret [] in
  nret (mk_node path metadata children).

Definition hierarchy_open_opt (fuel : nat) (path : str) (version : MetadataRetrieveVersion) (policy : UseConsolidatedMetadata) : node_op S Hierarchy :=
  let^ node_path := nlift (map_err NodePathError (NodePath_new path)) in
  let^ node_metadata := get_metadata node_path version in
  let^ nodes :=
    if is_group node_metadata then
      let^ consolidated := nlift (consolidated_metadata_for_open node_path node_metadata policy) in
      match consolidated with
      | Some consolidated => nlift (expand_consolidated_metadata node_path consolidated)
      | None => get_all_nodes_of fuel node_path version
      end
    else nret [] in
  nret (hierarchy_extend {[node_path := node_metadata]} nodes).
End open.

(** The nodes that [tree_of] prints, with their depth and name. *)
Definition path_depth (path : NodePath) : nat := if decide (path = [slash]) then 1 else Datatypes.S (length (split slash (drop 1 path))).

Definition tree_of (self : Hierarchy) (path : NodePath) : list (nat * str) :=
  (λ entry : NodePath * NodeMetadata, ((path_depth entry.1 - path_depth path)%nat, node_name (mk_node entry.1 entry.2 []))) <$>
    filter (λ entry, starts_with entry.1 path = true ∧ entry.1 ≠ path) (btree_iter self).

(** ** Groups *)

Record Group := mk_group {
  group_path : NodePath;
  group_metadata : GroupMetadata;
  group_convert_version : MetadataConvertVersion;
  group_erase_version : MetadataEraseVersion;
  group_use_consolidated : UseConsolidatedMetadata;
}.

Definition group_metadata_v2_to_v3 (group_metadata_v2 : GroupMetadataV2) : GroupMetadataV3 := group_v3_with_attributes (group_attributes group_metadata_v2).

(** [metadata_opt]. *)
Definition group_metadata_opt (self : Group) (version : MetadataConvertVersion) : GroupMetadata :=
  match group_metadata self, version with
  | GroupV2 metadata, ConvertV3 => GroupV3 (group_metadata_v2_to_v3 metadata)
  | metadata, _ => metadata
  end.

Definition group_consolidated_metadata (self : Group) : option ConsolidatedMetadata :=
  match group_metadata self with GroupV3 group_metadata => consolidated_field group_metadata | GroupV2 _ => None end.

Definition set_consolidated_metadata (self : Group) (consolidated_metadata : option ConsolidatedMetadata) : Group :=
  match group_metadata self with
  | GroupV3 metadata => mk_group (group_path self) (GroupV3 (set_consolidated_field metadata consolidated_metadata))
      (group_convert_version self) (group_erase_version self) (group_use_consolidated self)
  | GroupV2 _ => self
  end.

Definition group_to_v3 (self : Group) : Group :=
  match group_metadata self with
  | GroupV2 metadata => mk_group (group_path self) (GroupV3 (group_metadata_v2_to_v3 metadata))
      (group_convert_version self) (group_erase_version self) (group_use_consolidated self)
  | GroupV3 _ => self
  end.

Definition validate_metadata (metadata : GroupMetadata) : outcome GroupCreateError unit :=
  match metadata with
  | GroupV2 _ => Ok tt
  | GroupV3 metadata => match must_understand_field metadata with Some name => Err (AdditionalFieldUnsupportedError name) | None => Ok tt end
  end.

Section groups.
Context {S : Type} `{ReadableStorageTraits S, WritableStorageTraits S, ListableStorageTraits S}.

Definition store_metadata_opt (self : Group) (version : MetadataConvertVersion) : store_op S unit :=
  let path := group_path self in
  match group_metadata_opt self version with
  | GroupV3 metadata => set_ (meta_key_v3 path) (group_v3_to_vec metadata)
  | GroupV2 metadata =>
      let! metadata :=
        if negb (attributes_is_empty (group_attributes metadata)) then
          let! _ := set_ (meta_key_v2_attributes path) (attributes_to_vec (group_attributes metadata)) in
          op_ret (set_group_attributes metadata attributes_default)
        else op_ret metadata in
      set_ (meta_key_v2_group path) (group_v2_to_vec metadata)
  end.

Definition store_metadata (self : Group) : store_op S unit := store_metadata_opt self (group_convert_version self).

Definition erase_v2 (path : NodePath) : store_op S unit :=
  let! _ := erase (meta_key_v2_group path) in erase (meta_key_v2_attributes path).

Definition erase_metadata_opt (self : Group) (version : MetadataEraseVersion) : store_op S unit :=
  let path := group_path self in
  match version with
  | EraseDefault => match group_metadata self with GroupV3 _ => erase (meta_key_v3 path) | GroupV2 _ => erase_v2 path end
  | EraseAll => let! _ := erase (meta_key_v3 path) in erase_v2 path
  | EraseV3 => erase (meta_key_v3 path)
  | EraseV2 => erase_v2 path
  end.

Definition erase_metadata (self : Group) : store_op S unit := erase_metadata_opt self (group_erase_version self).

Definition open_metadata (path : str) (version : MetadataRetrieveVersion) : group_op S GroupMetadata :=
  let gstore {A} := estore (S := S) (A := A) GroupStorageError in
  let^ node_path := nlift (map_err GroupNodePathError (NodePath_new path)) in
  let key_v3 := meta_key_v3 node_path in
  let^ found := if retrieves_v3 version then gstore (get key_v3) else nret None in
  match found with
  | Some metadata =>
      let^ metadata := nlift (ok_or (GroupStorageError (InvalidMetadata key_v3)) (group_v3_from_slice metadata)) in
      nret (GroupV3 metadata)
  | None =>
      let key_v2 := meta_key_v2_group node_path in
      let^ found := if retrieves_v2 version then gstore (get key_v2) else nret None in
      match found with
      | Some metadata =>
          let^ metadata := nlift (ok_or (GroupStorageError (InvalidMetadata key_v2)) (group_v2_from_slice metadata)) in
          let attributes_key := meta_key_v2_attributes node_path in
          let^ attributes := gstore (get attributes_key) in
          match attributes with
          | Some attributes =>
              let^ attributes := nlift (ok_or (GroupStorageError (InvalidMetadata attributes_key)) (attributes_from_slice attributes)) in
              nret (GroupV2 (set_group_attributes metadata attributes))
          | None => nret (GroupV2 metadata)
          end
      | None => nlift (Err GroupMissingMetadata)
      end
  end.

Definition group_new_with_metadata_opt (path : str) (metadata : GroupMetadata) (convert : MetadataConvertVersion) (erase : MetadataEraseVersion)
    (use_consolidated : UseConsolidatedMetadata) : outcome GroupCreateError Group :=
  let? path := map_err GroupNodePathError (NodePath_new path) in
  Ok (mk_group path metadata convert erase use_consolidated).

Definition group_open_opt (path : str) (version : MetadataRetrieveVersion) (convert : MetadataConvertVersion) (erase : MetadataEraseVersion)
    (use_consolidated : UseConsolidatedMetadata) : group_op S Group :=
  let^ metadata := open_metadata path version in
  let^ _ := nlift (validate_metadata metadata) in
  nlift (group_new_with_metadata_opt path metadata convert erase use_consolidated).

Definition group_children (fuel : nat) (self : Group) (recursive : bool) : node_op S (list Node) :=
  let^ consolidated := nlift (resolve_consolidated_policy (group_path self) (group_consolidated_metadata self) (group_use_consolidated self)) in
  match consolidated with
  | Some consolidated =>
      nlift (let? flat := expand_consolidated_metadata (group_path self) consolidated in
        if recursive then build_node_tree (group_path self) flat else Ok (direct_children_from_flat (group_path self) flat))
  | None => get_child_nodes fuel (group_path self) recursive
  end.

Definition group_traverse (fuel : nat) (self : Group) : node_op S (list (NodePath * NodeMetadata)) :=
  let^ consolidated := nlift (resolve_consolidated_policy (group_path self) (group_consolidated_metadata self) (group_use_consolidated self)) in
  match consolidated with
  | Some consolidated => nlift (expand_consolidated_metadata (group_path self) consolidated)
  | None => get_all_nodes_of fuel (group_path self) RetrieveDefault
  end.

Definition child_paths (fuel : nat) (self : Group) : node_op S (list NodePath) :=
  let^ children := group_children fuel self false in nret (node_path <$> children).

Definition child_group_paths (fuel : nat) (self : Group) : node_op S (list NodePath) :=
  let^ children := group_children fuel self false in nret (node_path <$> filter (λ node, is_group (node_metadata node) = true) children).

Definition child_array_paths (fuel : nat) (self : Group) : node_op S (list NodePath) :=
  let^ children := group_children fuel self false in nret (node_path <$> filter (λ node, is_group (node_metadata node) = false) children).

(** [child_groups]; the options of the groups are those of the global configuration.  An error of a child is the first one. *)
Definition child_groups (fuel : nat) (self : Group) (convert : MetadataConvertVersion) (erase : MetadataEraseVersion)
    (use_consolidated : UseConsolidatedMetadata) : group_op S (list Group) := λ s,
  let '(s, children) := group_children fuel self false s in
  (s, let? children := map_err group_error_of_node children in
      collect_res (omap (λ node, match node_metadata node with
        | NodeGroup metadata => Some (group_new_with_metadata_opt (node_path node) metadata convert erase use_consolidated)
        | NodeArray _ => None
        end) children)).

(** [Hierarchy::try_from_group]. *)
Definition hierarchy_try_from_group (fuel : nat) (group : Group) : node_op S Hierarchy :=
  let^ nodes := get_all_nodes_of fuel (group_path group) RetrieveDefault in
  nret (hierarchy_extend {[group_path group := NodeGroup (group_metadata group)]} nodes).
End groups.
End node.
