(* ===== verification/HierarchySpec.v ===== *)
(** What the store says of a hierarchy, and that the code finds it.

    A store holds a tree: below a group are the nodes of its directories that have metadata.  Listing and descending gives every
    node below a group once. *)

From stdpp Require Import sorting.
From S2P Require Import Prelude ByteRange StoreKey Storage Hierarchy.

(** ** Reading a store *)

Section reads.
Context {S : Type} (abs : S → gmap str bytes).

(** An operation that leaves the store as it is. *)
Definition reads {E A} (m : eop E S A) (s : S) (x : outcome E A) : Prop := ∃ s', m s = (s', x) ∧ abs s' = abs s.

Lemma reads_ret {E A} (a : A) s : reads (nret (E:=E) a) s (Ok a).
Proof. by exists s. Qed.

Lemma reads_lift {E A} (x : outcome E A) s : reads (nlift x) s x.
Proof. by exists s. Qed.

Lemma reads_bind {E A B} (m : eop E S A) (f : A → eop E S B) s a x :
  reads m s (Ok a) → (∀ s', abs s' = abs s → reads (f a) s' x) → reads (nbind m f) s x.
Proof. intros (s1 & H1 & A1) Hf. destruct (Hf s1 A1) as (s2 & H2 & A2). exists s2. unfold nbind. rewrite H1. split; [done|congruence]. Qed.

(** The code and what it reads, step by step. *)
Lemma reads_obind {E A B} (m : eop E S A) (f : A → eop E S B) s x (F : A → outcome E B) :
  reads m s x → (∀ a s', abs s' = abs s → reads (f a) s' (F a)) → reads (nbind m f) s (let? a := x in F a).
Proof.
  intros (s1 & H1 & A1) Hf. unfold reads, nbind. rewrite H1. destruct x as [a|e|]; [|by exists s1..].
  destruct (Hf a s1 A1) as (s2 & H2 & A2). exists s2. split; [done|congruence].
Qed.

Lemma reads_lift_bind {E A B} (x : outcome E A) (f : A → eop E S B) s (F : A → outcome E B) :
  (∀ a, reads (f a) s (F a)) → reads (nbind (nlift x) f) s (let? a := x in F a).
Proof. intros Hf. destruct x as [a|e|]; [apply Hf|by exists s..]. Qed.

Lemma reads_store {E A} (g : StorageError → E) (m : store_op S A) s a : returns abs m s a (abs s) → reads (estore g m) s (Ok a).
Proof. intros (s' & H1 & A1). exists s'. unfold estore. by rewrite H1. Qed.

(** A loop whose items do not fail. *)
Lemma reads_filter_map {E A B C} (f : A → eop E S (option B)) (h : C → A) (g : C → option B) (l : list C) s :
  (∀ c s', c ∈ l → abs s' = abs s → reads (f (h c)) s' (Ok (g c))) → reads (nfilter_map f (h <$> l)) s (Ok (omap g l)).
Proof.
  revert s. induction l as [|c l IH]; intros s Hf; [apply reads_ret|]. rewrite fmap_cons. cbn [nfilter_map].
  eapply reads_bind; [apply Hf; [apply list_elem_of_here|done]|]. intros s1 A1. eapply reads_bind.
  { apply IH. intros d s' Hd A'. apply Hf; [by apply list_elem_of_further|congruence]. }
  intros s2 A2. cbn [omap list_omap]. destruct (g c); apply reads_ret.
Qed.
End reads.

(** ** The directories of a node *)

(** A prefix that the code leaves out. *)
Definition hidden (prefix : StorePrefix) : Prop := starts_with prefix (lit "__") = true.

(** All directories have names that nodes may have. *)
Definition names_valid (M : gmap str bytes) : Prop := ∀ l r, Forall (λ c, slash ∉ c) l → is_Some (M !! (node_prefix l ++ r)) →
  Forall component_ok l ∨ hidden (node_prefix l).

Definition directory (M : gmap str bytes) (l : list str) : Prop := ∃ r, is_Some (M !! (node_prefix l ++ r)).

Lemma node_prefix_snoc l c : node_prefix (l ++ [c]) = node_prefix l ++ c ++ [slash].
Proof. unfold node_prefix. rewrite map_app, concat_app. simpl. by rewrite app_nil_r. Qed.

Lemma node_prefix_valid l : Forall component_ok l → StorePrefix_validate (node_prefix l) = true.
Proof.
  intros Hl. pose proof (NodePath_to_prefix_path l Hl) as Ht. revert Ht. unfold NodePath_to_prefix, StorePrefix_new.
  destruct (decide _); [by intros [= <-]|]. destruct (StorePrefix_validate _) eqn:E; [by intros [= <-]|done].
Qed.

Lemma component_not_hidden c l : component_ok c → ¬ hidden (node_prefix (c :: l)).
Proof.
  unfold hidden. intros Hc. change (node_prefix (c :: l)) with ((c ++ [slash]) ++ node_prefix l).
  rewrite starts_with_spec. intros [r Hr]. pose proof (component_ok_ne c Hc) as Hne. assert (starts_with c (lit "__") = true) as Hs.
  { destruct c as [|x [|y c]]; [done|injection Hr as _ Hr; discriminate Hr|]. injection Hr as -> -> _. apply starts_with_spec. by exists c. }
  unfold component_ok, NodeName_validate in Hc. rewrite Hs, andb_false_r in Hc. case_bool_decide; done.
Qed.

Lemma components_not_hidden l c : Forall component_ok l → component_ok c ∨ l ≠ [] → ¬ hidden (node_prefix (l ++ [c])).
Proof. intros [|d l' Hd _] Hc; [destruct Hc; [by apply component_not_hidden|done]|by apply component_not_hidden]. Qed.

Lemma fmap_inverse {A B} (f : A → B) (P : A → Prop) (l : list B) : (∀ b, b ∈ l → ∃ a, b = f a ∧ P a) → ∃ k : list A, l = f <$> k ∧ Forall P k.
Proof.
  induction l as [|b l IH]; intros Hl; [by exists []|]. destruct (Hl b) as (a & -> & Ha); [apply list_elem_of_here|].
  destruct IH as (k & -> & Hk); [intros; apply Hl; by apply list_elem_of_further|]. exists (a :: k). by split; [|constructor].
Qed.

(** The names of the directories that are listed. *)
Definition subdirectories (M : gmap str bytes) (l : list str) : list str :=
  omap (λ q, strip_suffix (drop (length (node_prefix l)) q) [slash])
    (filter (λ v, starts_with v (lit "__") = false) (skp_prefixes (spec_list_dir M (node_prefix l)))).

Lemma subdirectories_spec M l : valid_keys M → names_valid M → Forall component_ok l →
  filter (λ v, starts_with v (lit "__") = false) (skp_prefixes (spec_list_dir M (node_prefix l))) = (λ c, node_prefix (l ++ [c])) <$> subdirectories M l ∧
  NoDup (subdirectories M l) ∧ (∀ c, c ∈ subdirectories M l ↔ component_ok c ∧ directory M (l ++ [c])).
Proof.
  intros HM Hn Hl. pose proof (node_prefix_valid l Hl) as Hp. unfold subdirectories. set (Q := filter _ _).
  assert (∀ q, q ∈ Q ↔ ∃ c, component_ok c ∧ directory M (l ++ [c]) ∧ q = node_prefix (l ++ [c])) as HQ.
  { intros q. unfold Q, directory. rewrite list_elem_of_filter, elem_of_dir_prefixes by done. split.
    - intros (Hh & c & r & -> & Hc & Hs & Hr). rewrite <-node_prefix_snoc in Hr, Hh |- *. exists c. split; [|by eauto].
      assert (Forall (λ c, slash ∉ c) (l ++ [c])) as Hsl by (apply Forall_app; split; [by apply components_ok_slash|by constructor]).
      destruct (Hn (l ++ [c]) r Hsl Hr) as [[_ Hok]%Forall_app|Hd]; [by apply (Forall_singleton component_ok)|by apply not_true_iff_false in Hh].
    - intros (c & Hc & [r Hr] & ->). split.
      + apply not_true_iff_false. apply components_not_hidden; [done|by left].
      + exists c, r. rewrite <-node_prefix_snoc. split_and!; [done|by apply component_ok_ne|by apply component_ok_slash|done]. }
  destruct (fmap_inverse (λ c, node_prefix (l ++ [c])) (λ _, True) Q) as (cs & Hcs & _); [intros q (c & _ & _ & ->)%HQ; by exists c|].
  assert (omap (λ q, strip_suffix (drop (length (node_prefix l)) q) [slash]) Q = cs) as ->.
  { rewrite Hcs. clear. induction cs as [|c cs IH]; [done|]. rewrite fmap_cons. cbn [omap list_omap].
    rewrite node_prefix_snoc, drop_app_length, strip_suffix_snoc. by f_equal. }
  split_and!; [done| |].
  - apply (NoDup_fmap_1 (λ c, node_prefix (l ++ [c]))). rewrite <-Hcs. apply NoDup_filter. simpl. apply NoDup_sorted.
  - intros c. assert (∀ d, node_prefix (l ++ [c]) = node_prefix (l ++ [d]) → c = d) as Hinj.
    { intros d. rewrite !node_prefix_snoc. by intros [= ?%app_inv_head]%app_inv_tail%app_inv_head || (intros He%app_inv_head; by apply app_inv_tail in He). }
    split.
    + intros Hc. destruct (proj1 (HQ (node_prefix (l ++ [c])))) as (d & Hd & Hdir & He); [rewrite Hcs; by apply (list_elem_of_fmap_2 (λ c, node_prefix (l ++ [c])))|].
      by apply Hinj in He as ->.
    + intros [Hc Hd]. assert (node_prefix (l ++ [c]) ∈ Q) as Hq by (apply HQ; by exists c). rewrite Hcs in Hq.
      apply list_elem_of_fmap in Hq as (d & He & Hin). by apply Hinj in He as ->.
Qed.

(** ** The metadata of a node *)

Section stored.
Context `{SerdeJson}.

Definition stored_v3 (M : gmap str bytes) (path : NodePath) : outcome NodeCreateError (option NodeMetadata) :=
  match M !! meta_key_v3 path with
  | None => Ok None
  | Some b =>
      let? metadata := ok_or (invalid_metadata (meta_key_v3 path)) (node_from_slice b) in
      match metadata with
      | NodeArray (ArrayV3 _) | NodeGroup (GroupV3 _) => Ok (Some metadata)
      | _ => Err MetadataVersionMismatch
      end
  end.

Definition stored_attributes (M : gmap str bytes) (path : NodePath) : outcome NodeCreateError (option Attributes) :=
  match M !! meta_key_v2_attributes path with
  | None => Ok None
  | Some b => let? attributes := ok_or (invalid_metadata (meta_key_v2_attributes path)) (attributes_from_slice b) in Ok (Some attributes)
  end.

Definition with_attributes {D} (set : D → Attributes → D) (metadata : D) (attributes : option Attributes) : D :=
  match attributes with Some attributes => set metadata attributes | None => metadata end.

Definition stored_v2 (M : gmap str bytes) (path : NodePath) : outcome NodeCreateError (option NodeMetadata) :=
  match M !! meta_key_v2_array path, M !! meta_key_v2_group path with
  | Some b, _ =>
      let? metadata := ok_or (invalid_metadata (meta_key_v2_array path)) (array_v2_from_slice b) in
      let? attributes := stored_attributes M path in
      Ok (Some (NodeArray (ArrayV2 (with_attributes set_array_attributes metadata attributes))))
  | None, Some b =>
      let? metadata := ok_or (invalid_metadata (meta_key_v2_group path)) (group_v2_from_slice b) in
      let? attributes := stored_attributes M path in
      Ok (Some (NodeGroup (GroupV2 (with_attributes set_group_attributes metadata attributes))))
  | None, None => Ok None
  end.

(** The node that a store holds at a path. *)
Definition stored (M : gmap str bytes) (version : MetadataRetrieveVersion) (path : NodePath) : outcome NodeCreateError NodeMetadata :=
  let? found := if retrieves_v3 version then stored_v3 M path else Ok None in
  match found with
  | Some metadata => Ok metadata
  | None =>
      let? found := if retrieves_v2 version then stored_v2 M path else Ok None in
      ok_or (NodeMissingMetadata path) found
  end.

(** A node has a key of its own. *)
Lemma stored_key M version path md : stored M version path = Ok md → ∃ name, is_Some (M !! meta_key_any path name) ∧ name ≠ [] ∧ slash ∉ name.
Proof.
  unfold stored. intros Hs. assert (∀ name, (∃ b, M !! meta_key_any path (lit name) = Some b) → lit name ≠ [] → slash ∉ lit name →
    ∃ name, is_Some (M !! meta_key_any path name) ∧ name ≠ [] ∧ slash ∉ name) as Hin by (intros name [b Hb] ??; exists (lit name); by rewrite Hb).
  destruct (M !! meta_key_v3 path) as [b|] eqn:H3; [apply (Hin "zarr.json"%string); [by exists b|done|by_decision]|].
  assert (stored_v3 M path = Ok None) as Hn3 by (unfold stored_v3; by rewrite H3). rewrite Hn3 in Hs.
  assert ((let? found := if retrieves_v2 version then stored_v2 M path else Ok None in ok_or (NodeMissingMetadata path) found) = Ok md) as Hs2 by (by destruct (retrieves_v3 version)).
  destruct (M !! meta_key_v2_array path) as [b|] eqn:Ha; [apply (Hin ".zarray"%string); [by exists b|done|by_decision]|].
  destruct (M !! meta_key_v2_group path) as [b|] eqn:Hg; [apply (Hin ".zgroup"%string); [by exists b|done|by_decision]|].
  assert (stored_v2 M path = Ok None) as Hn2 by (unfold stored_v2; by rewrite Ha, Hg). rewrite Hn2 in Hs2. by destruct (retrieves_v2 version).
Qed.

(** ** The tree below a node *)

(** The nodes of a tree, a group after the nodes below it. *)
Fixpoint flatten (node : Node) : list (NodePath * NodeMetadata) :=
  match node with mk_node path metadata children => concat (map flatten children) ++ [(path, metadata)] end.

Definition forest (nodes : list Node) : list (NodePath * NodeMetadata) := concat (map flatten nodes).

(** The node of a directory. *)
Definition stored_node (M : gmap str bytes) (version : MetadataRetrieveVersion) (l : list str) : option NodeMetadata :=
  match stored M version (path_of l) with Ok metadata => Some metadata | _ => None end.

(** The tree below the node with components [l], [n] levels of it. *)
Fixpoint tree_below (n : nat) (M : gmap str bytes) (version : MetadataRetrieveVersion) (l : list str) : list Node :=
  match n with
  | O => []
  | S n => omap (λ c, (λ metadata, mk_node (path_of (l ++ [c])) metadata (if is_group metadata then tree_below n M version (l ++ [c]) else [])) <$>
      stored_node M version (l ++ [c])) (subdirectories M l)
  end.

(** The nodes below a node: its children, and those below the children that are groups. *)
Inductive below (M : gmap str bytes) (version : MetadataRetrieveVersion) : list str → list str → NodeMetadata → Prop :=
| below_child l c md : component_ok c → stored M version (path_of (l ++ [c])) = Ok md → below M version l (l ++ [c]) md
| below_group l c group k md : component_ok c → stored M version (path_of (l ++ [c])) = Ok (NodeGroup group) →
    below M version (l ++ [c]) k md → below M version l k md.

(** The keys below [l] have fewer than [n] characters more than its prefix. *)
Definition fits (M : gmap str bytes) (l : list str) (n : nat) : Prop := (0 < n)%nat ∧ ∀ r, is_Some (M !! (node_prefix l ++ r)) → (length r < n)%nat.

(** The documents can be read. *)
Definition readable (M : gmap str bytes) (version : MetadataRetrieveVersion) : Prop := ∀ l, Forall component_ok l → l ≠ [] →
  match stored M version (path_of l) with Ok _ | Err (NodeMissingMetadata _) => True | _ => False end.

Lemma forest_cons node nodes : forest (node :: nodes) = flatten node ++ forest nodes.
Proof. done. Qed.

Lemma fits_down M l c n : fits M l (S n) → component_ok c → directory M (l ++ [c]) → fits M (l ++ [c]) n.
Proof.
  intros [_ Hf] Hc [r Hr]. assert (∀ r, is_Some (M !! (node_prefix (l ++ [c]) ++ r)) → (length r + 1 < S n)%nat) as H1.
  { intros r' Hr'. rewrite node_prefix_snoc, <-!app_assoc in Hr'. apply Hf in Hr'. rewrite !length_app in Hr'. simpl in Hr'. lia. }
  split; [specialize (H1 r Hr); lia|]. intros r' Hr'. specialize (H1 r' Hr'). lia.
Qed.

Lemma stored_directory M version l md : Forall component_ok l → stored M version (path_of l) = Ok md → directory M l.
Proof. intros Hl (name & Hs & _)%stored_key. exists name. by rewrite <-meta_key_any_prefix. Qed.

Lemma Forall_snoc_ok l c : Forall component_ok l → component_ok c → Forall component_ok (l ++ [c]).
Proof. intros. apply Forall_app. split; [done|by constructor]. Qed.

Lemma below_components M version l k md : below M version l k md → Forall component_ok l → ∃ r, r ≠ [] ∧ k = l ++ r ∧ Forall component_ok k.
Proof.
  induction 1 as [l c md Hc|l c group k md Hc _ _ IH]; intros Hl.
  - exists [c]. split_and!; [done..|]. by apply Forall_snoc_ok.
  - destruct IH as (r & Hr & -> & Hk); [by apply Forall_snoc_ok|]. exists (c :: r). by rewrite <-app_assoc in Hk |- *.
Qed.

(** The parent of a node below [l] is [l] or a group below it. *)
Lemma below_parent M version l k md : Forall component_ok l → below M version l k md →
  ∃ r c, k = l ++ r ++ [c] ∧ (r = [] ∨ ∃ g, below M version l (l ++ r) (NodeGroup g)).
Proof.
  intros Hl Hb. revert Hl. induction Hb as [l c md Hc Hs|l c g k md Hc Hs Hb IH]; intros Hl; [exists [], c; by split; [|left]|].
  destruct IH as (r & d & -> & Hr); [by apply Forall_snoc_ok|]. exists (c :: r), d. rewrite <-app_assoc. split; [done|right].
  destruct Hr as [->|[g' Hg]]; [exists g; by constructor|]. exists g'. rewrite <-app_assoc in Hg. by eapply below_group.
Qed.

(** The nodes of one directory and below. *)
Definition node_at (n : nat) (M : gmap str bytes) (version : MetadataRetrieveVersion) (l : list str) (c : str) : list (NodePath * NodeMetadata) :=
  match stored_node M version (l ++ [c]) with
  | Some metadata => (if is_group metadata then forest (tree_below n M version (l ++ [c])) else []) ++ [(path_of (l ++ [c]), metadata)]
  | None => []
  end.

Lemma forest_tree_below n M version l : forest (tree_below (S n) M version l) = subdirectories M l ≫= node_at n M version l.
Proof.
  cbn [tree_below]. induction (subdirectories M l) as [|c cs IH]; [done|]. cbn [omap list_omap mbind list_bind]. rewrite <-IH. unfold node_at.
  destruct (stored_node M version (l ++ [c])) as [md|]; [|done]. cbn [fmap option_fmap option_map]. rewrite forest_cons. f_equal.
  cbn [flatten]. by destruct (is_group md).
Qed.

Lemma node_at_spec n M version l c p md : Forall component_ok l → component_ok c →
  (∀ p md, (p, md) ∈ forest (tree_below n M version (l ++ [c])) ↔ ∃ k, p = path_of k ∧ below M version (l ++ [c]) k md) →
  (p, md) ∈ node_at n M version l c ↔ ∃ k, p = path_of k ∧ below M version l k md ∧ ∃ r, k = l ++ c :: r.
Proof.
  intros Hl Hc Hn. pose proof (Forall_snoc_ok l c Hl Hc) as Hlc. unfold node_at, stored_node. split.
  - destruct (stored M version (path_of (l ++ [c]))) as [m|e|] eqn:Hs; [|by intros ?%elem_of_nil..]. intros [Hp|Hp]%elem_of_app.
    + destruct m as [|g]; [by apply elem_of_nil in Hp|]. apply Hn in Hp as (k & -> & Hk). exists k. split_and!; [done|by eapply below_group|].
      destruct (below_components _ _ _ _ _ Hk Hlc) as (r & _ & -> & _). exists r. by rewrite <-app_assoc.
    + apply list_elem_of_singleton in Hp as [= -> ->]. exists (l ++ [c]). split_and!; [done|by constructor|by exists []].
  - intros (k & -> & Hk & r & ->). revert Hk. inversion 1 as [l0 c0 m Hc0 Hs E1 E2|l0 c0 g k m Hc0 Hs Hb E1 E2 E3]; subst.
    + apply app_inv_head in E2 as [= -> <-]. rewrite Hs. apply elem_of_app. right. apply list_elem_of_here.
    + destruct (below_components _ _ _ _ _ Hb) as (r' & _ & E2 & _); [by apply Forall_snoc_ok|]. rewrite <-app_assoc in E2.
      apply app_inv_head in E2 as [= <- ->]. rewrite Hs. apply elem_of_app. left. apply Hn. by exists (l ++ c :: r').
Qed.

Lemma tree_below_spec n M version l : valid_keys M → names_valid M → Forall component_ok l → fits M l n →
  NoDup (forest (tree_below n M version l)).*1 ∧ ∀ p md, (p, md) ∈ forest (tree_below n M version l) ↔ ∃ k, p = path_of k ∧ below M version l k md.
Proof.
  intros HM Hn. revert l. induction n as [|n IH]; intros l Hl Hf; [destruct Hf; lia|].
  destruct (subdirectories_spec M l HM Hn Hl) as (_ & Hcs & He). rewrite forest_tree_below.
  assert (∀ c, c ∈ subdirectories M l → NoDup (forest (tree_below n M version (l ++ [c]))).*1 ∧
    ∀ p md, (p, md) ∈ node_at n M version l c ↔ ∃ k, p = path_of k ∧ below M version l k md ∧ ∃ r, k = l ++ c :: r) as Hc.
  { intros c [Hc Hd]%He. destruct (IH (l ++ [c])) as [IH1 IH2]; [by apply Forall_snoc_ok|by eapply fits_down|].
    split; [done|]. intros p md. by apply node_at_spec. }
  assert (∀ c p, c ∈ subdirectories M l → p ∈ (node_at n M version l c).*1 → ∃ r, p = path_of (l ++ c :: r) ∧ Forall component_ok (l ++ c :: r)) as Hat.
  { intros c p Hin ([? md] & -> & (k & -> & Hb & r & ->)%(Hc c Hin))%list_elem_of_fmap. exists r. split; [done|].
    by destruct (below_components _ _ _ _ _ Hb Hl) as (? & _ & _ & ?). }
  split.
  - assert ((subdirectories M l ≫= node_at n M version l).*1 = subdirectories M l ≫= (λ c, (node_at n M version l c).*1)) as ->.
    { clear. induction (subdirectories M l) as [|c cs IH]; [done|]. cbn [mbind list_bind]. by rewrite fmap_app, IH. }
    apply NoDup_bind; [| |done].
    + intros c c' p H1 H2 (r & -> & Hr)%Hat (r' & He' & Hr')%Hat; [|done..]. apply path_of_inj in He'; [|done..]. by apply app_inv_head in He' as [= ->].
    + intros c Hin. pose proof (Hc c Hin) as [Hnd _]. apply He in Hin as Hin'. destruct Hin' as [Hok Hdir]. unfold node_at.
      destruct (stored_node M version (l ++ [c])) as [md|]; [|constructor]. rewrite fmap_app. apply NoDup_app. split_and!; [by destruct (is_group md); [|constructor]| |apply NoDup_singleton].
      intros p Hp ->%list_elem_of_singleton. destruct (is_group md); [|by apply elem_of_nil in Hp].
      destruct (IH (l ++ [c])) as [_ IH2]; [by apply Forall_snoc_ok|by eapply fits_down|].
      apply list_elem_of_fmap in Hp as ([p m] & Hpe & (k & -> & Hb)%IH2). simpl in Hpe.
      destruct (below_components _ _ _ _ _ Hb) as (r & Hr & -> & Hk); [by apply Forall_snoc_ok|]. apply path_of_inj in Hpe; [|by apply Forall_snoc_ok|done].
      rewrite <-(app_nil_r (l ++ [c])) in Hpe at 1. by apply app_inv_head in Hpe.
  - intros p md. rewrite list_elem_of_bind. split.
    + intros (c & Hp & Hin). apply (Hc c Hin) in Hp as (k & -> & Hb & _). by exists k.
    + intros (k & -> & Hb). assert (∃ c r, k = l ++ c :: r ∧ component_ok c ∧ directory M (l ++ [c])) as (c & r & -> & Hok & Hd).
      { inversion Hb as [l0 c md0 Hok Hs|l0 c g k0 md0 Hok Hs Hb']; subst.
        - exists c, []. split_and!; [done..|]. eapply stored_directory; [by apply Forall_snoc_ok|done].
        - destruct (below_components _ _ _ _ _ Hb') as (r & _ & -> & _); [by apply Forall_snoc_ok|]. exists c, r. rewrite <-app_assoc.
          split_and!; [done..|]. eapply stored_directory; [by apply Forall_snoc_ok|done]. }
      assert (c ∈ subdirectories M l) as Hin by (by apply He). exists c. split; [|done]. apply (Hc c Hin). by eauto 6.
Qed.

Context {S : Type} (abs : S → gmap str bytes) `{HL : LawfulStorage S abs}.

Lemma reads_get {E A} (g : StorageError → E) key (f : option bytes → eop E S A) s x :
  (∀ s', abs s' = abs s → reads abs (f (abs s !! key)) s' x) → reads abs (nbind (estore g (get key)) f) s x.
Proof using HL. intros Hf. eapply reads_bind; [apply reads_store, (HL.(law_get abs))|done]. Qed.

Lemma get_attributes_reads path s : reads abs (get_attributes path) s (stored_attributes (abs s) path).
Proof using HL.
  unfold get_attributes, stored_attributes. apply reads_get. intros s' Hs'. destruct (abs s !! _); [|apply reads_ret].
  apply reads_lift_bind. intros. apply reads_ret.
Qed.

Lemma get_metadata_v3_reads path s : reads abs (get_metadata_v3 path) s (stored_v3 (abs s) path).
Proof using HL.
  unfold get_metadata_v3, stored_v3. apply reads_get. intros s' Hs'. destruct (abs s !! _); [|apply reads_ret].
  apply reads_lift_bind. intros [[]|[]]; apply reads_lift.
Qed.

Lemma get_metadata_v2_reads path s : reads abs (get_metadata_v2 path) s (stored_v2 (abs s) path).
Proof using HL.
  assert (∀ {D} (set : D → Attributes → D) (wrap : D → NodeMetadata) metadata s1, abs s1 = abs s →
    reads abs (let^ attributes := get_attributes path in
      let metadata := match attributes with Some attributes => set metadata attributes | None => metadata end in nret (Some (wrap metadata))) s1
      (let? attributes := stored_attributes (abs s) path in Ok (Some (wrap (with_attributes set metadata attributes))))) as Ha.
  { intros D set wrap metadata s1 Hs1. rewrite <-Hs1. eapply reads_obind; [apply get_attributes_reads|]. intros. apply reads_ret. }
  unfold get_metadata_v2, stored_v2. apply reads_get. intros s' Hs'. destruct (abs s !! meta_key_v2_array path).
  - apply reads_lift_bind. intros m. by apply (Ha _ set_array_attributes (λ m, NodeArray (ArrayV2 m))).
  - apply reads_get. rewrite Hs'. intros s2 Hs2. destruct (abs s !! meta_key_v2_group path); [|apply reads_ret].
    apply reads_lift_bind. intros m. by apply (Ha _ set_group_attributes (λ m, NodeGroup (GroupV2 m))).
Qed.

Lemma get_metadata_reads path version s : reads abs (get_metadata path version) s (stored (abs s) version path).
Proof using HL.
  unfold get_metadata, stored. eapply reads_obind; [destruct (retrieves_v3 version); [apply get_metadata_v3_reads|apply reads_ret]|].
  intros [m|] s' Hs'; [apply reads_ret|]. rewrite <-Hs'.
  assert (∀ x : outcome NodeCreateError (option NodeMetadata), (let? found := x in ok_or (NodeMissingMetadata path) found) =
    (let? found := x in match found with Some metadata => Ok metadata | None => Err (NodeMissingMetadata path) end)) as -> by (by intros [[]| |]).
  eapply reads_obind; [destruct (retrieves_v2 version); [apply get_metadata_v2_reads|apply reads_ret]|].
  intros [m|] s2 Hs2; [apply reads_ret|apply reads_lift].
Qed.
(** Listing the children of a node. *)
Lemma discover_children_reads l s : valid_keys (abs s) → names_valid (abs s) → Forall component_ok l →
  reads abs (nstore (discover_children (node_prefix l))) s (Ok ((λ c, node_prefix (l ++ [c])) <$> subdirectories (abs s) l)).
Proof using HL.
  intros HM Hn Hl. destruct (subdirectories_spec (abs s) l HM Hn Hl) as (Hf & Hcs & He).
  apply reads_store. destruct (HL.(law_list_dir abs) s (node_prefix l)) as (s1 & L1 & A1); [done|by apply node_prefix_valid|].
  exists s1. unfold discover_children, op_bind. rewrite L1, Hf. split; [|done]. unfold op_lift. f_equal.
  rewrite <-(collect_res_Ok (E:=StorageError) ((λ c, node_prefix (l ++ [c])) <$> _)). f_equal. rewrite <-!list_fmap_compose.
  apply list_fmap_ext. intros i c Hc. unfold compose, StorePrefix_new. rewrite node_prefix_valid; [done|].
  apply Forall_app. split; [done|]. constructor; [|done]. apply He. by eapply list_elem_of_lookup_2.
Qed.
(** Reading a child: a directory without metadata is left out. *)
Lemma child_metadata_reads path version s : (match stored (abs s) version path with Ok _ | Err (NodeMissingMetadata _) => True | _ => False end) →
  reads abs (ncatch (let^ metadata := get_metadata path version in nret (Some metadata)) (λ e, match e with NodeMissingMetadata _ => Ok None | e => Err e end)) s
    (Ok (match stored (abs s) version path with Ok metadata => Some metadata | _ => None end)).
Proof using HL.
  intros Hr. destruct (get_metadata_reads path version s) as (s1 & Hm & A1). exists s1. unfold ncatch, nbind. rewrite Hm.
  by destruct (stored (abs s) version path) as [|[]|].
Qed.

Lemma get_child_nodes_reads n (recursive : bool) l version s : valid_keys (abs s) → names_valid (abs s) → readable (abs s) version → Forall component_ok l →
  (if recursive then fits (abs s) l n else (0 < n)%nat : Prop) →
  reads abs (get_child_nodes_opt n (path_of l) recursive version) s
    (Ok (tree_below (if recursive then n else 1) (abs s) version l)).
Proof using HL.
  intros HM Hn Hr. revert l s HM Hn Hr. induction n as [|n IH]; intros l s HM Hn Hr Hl Hf; [destruct recursive; [destruct Hf|]; lia|].
  destruct (subdirectories_spec (abs s) l HM Hn Hl) as (_ & _ & He).
  cbn [get_child_nodes_opt]. rewrite NodePath_to_prefix_path by done. cbn [map_err].
  eapply reads_bind; [apply reads_ret|]. intros s1 A1. eapply reads_bind; [by apply discover_children_reads; rewrite ?A1|]. intros s2 A2. rewrite A1 in A2 |- *.
  assert (∀ n, tree_below (Datatypes.S n) (abs s) version l = omap (λ c, (λ metadata, mk_node (path_of (l ++ [c])) metadata
    (if is_group metadata then tree_below n (abs s) version (l ++ [c]) else [])) <$> stored_node (abs s) version (l ++ [c])) (subdirectories (abs s) l)) as Ht by done.
  replace (if recursive then Datatypes.S n else 1%nat) with (Datatypes.S (if recursive then n else 0)) by by destruct recursive. rewrite Ht. clear Ht.
  apply reads_filter_map. intros c s3 [Hc Hd]%He A3. pose proof (Forall_snoc_ok l c Hl Hc) as Hlc. unfold path_of_prefix.
  rewrite NodePath_from_prefix_node by (done || by destruct l). cbn [map_err]. eapply reads_bind; [apply reads_ret|]. intros s4 A4.
  assert (abs s4 = abs s) as E4 by congruence. eapply reads_bind.
  { apply child_metadata_reads. rewrite E4. apply Hr; [done|by destruct l]. }
  intros s5 A5. rewrite E4. unfold stored_node. destruct (stored (abs s) version (path_of (l ++ [c]))) as [md|e|]; [|apply reads_ret..].
  assert (abs s5 = abs s) as E5 by congruence. cbn [fmap option_fmap option_map]. eapply reads_bind; [|intros s6 A6; apply reads_ret].
  destruct recursive, (is_group md); [|apply reads_ret..]. rewrite <-E5. apply IH; rewrite ?E5; [done..|]. by eapply fits_down.
Qed.

Lemma get_all_nodes_reads n l version s : valid_keys (abs s) → names_valid (abs s) → readable (abs s) version → Forall component_ok l →
  fits (abs s) l n → reads abs (get_all_nodes_of n (path_of l) version) s (Ok (forest (tree_below n (abs s) version l))).
Proof using HL.
  revert l s. induction n as [|n IH]; intros l s HM Hn Hr Hl Hf; [destruct Hf; lia|].
  destruct (subdirectories_spec (abs s) l HM Hn Hl) as (_ & _ & He). cbn [get_all_nodes_of].
  eapply reads_bind; [by apply (get_child_nodes_reads 1 false); [..|lia]|]. intros s1 A1. rewrite forest_tree_below. cbn [tree_below].
  assert (∀ cs s1, abs s1 = abs s → (∀ c, c ∈ cs → component_ok c ∧ directory (abs s) (l ++ [c])) →
    reads abs (extend_nodes (λ path, get_all_nodes_of n path version) (omap (λ c, (λ metadata, mk_node (path_of (l ++ [c])) metadata
      (if is_group metadata then [] else [])) <$> stored_node (abs s) version (l ++ [c])) cs)) s1 (Ok (cs ≫= node_at n (abs s) version l))) as Hx.
  { clear s1 A1. induction cs as [|c cs IHcs]; intros s1 A1 Hcs; [apply reads_ret|]. cbn [omap list_omap mbind list_bind]. unfold node_at at 1.
    destruct (Hcs c) as [Hc Hd]; [apply list_elem_of_here|]. pose proof (Forall_snoc_ok l c Hl Hc) as Hlc.
    destruct (stored_node (abs s) version (l ++ [c])) as [md|]; [|apply IHcs; [done|intros; apply Hcs; by apply list_elem_of_further]].
    cbn [fmap option_fmap option_map extend_nodes node_path node_metadata]. eapply (reads_bind abs _ _ _ (if is_group md then forest (tree_below n (abs s) version (l ++ [c])) else [])).
    { destruct (is_group md); [|apply reads_ret]. rewrite <-A1. apply IH; rewrite ?A1; [done..|]. by eapply fits_down. }
    intros s2 A2. eapply reads_bind; [apply IHcs; [congruence|intros; apply Hcs; by apply list_elem_of_further]|]. intros s3 A3.
    rewrite <-app_assoc. apply reads_ret. }
  apply Hx; [done|]. intros c. apply He.
Qed.
End stored.
