(* ===== verification/HierarchyTheorems.v ===== *)
(** Hierarchies: what is found below a group, consolidated metadata, and the metadata of groups.

    Consolidated metadata is the list of the nodes below a group, in the metadata of the group.  Listing a group with it is listing
    the store. *)

From stdpp Require Import sorting.
From S2P Require Import Prelude ByteRange StoreKey Storage MemoryStore Hierarchy HierarchySpec.

Section nested.
Context `{MetadataDocuments}.

(** Induction on a node and the nodes below it. *)
Lemma Node_nested_ind (P : Node → Prop) : (∀ path metadata children, Forall P children → P (mk_node path metadata children)) → ∀ node, P node.
Proof.
  intros Hn. fix IH 1. intros [path metadata children]. apply Hn. induction children as [|child children IHc]; [constructor|].
  constructor; [apply IH|exact IHc].
Qed.
End nested.

(** ** From nodes to consolidated metadata *)

Section consolidate.
Context `{SerdeJson}.

(** Nodes as components of their path and metadata. *)
Abbreviation entry := (list str * NodeMetadata)%type.
Definition to_path (e : entry) : NodePath * NodeMetadata := (path_of e.1, e.2).

(** The name of a node below another one. *)
Definition relative_name (base path : NodePath) : str :=
  let relative := default [] (strip_prefix path base) in default relative (strip_prefix relative [slash]).

(** A group before the nodes below it. *)
Fixpoint preorder (node : Node) : list (NodePath * NodeMetadata) :=
  match node with mk_node path metadata children => (path, metadata) :: concat (map preorder children) end.

Lemma preorder_perm node : preorder node ≡ₚ flatten node.
Proof.
  induction node as [path md children IH] using Node_nested_ind. cbn [preorder flatten]. rewrite <-Permutation_cons_append. f_equiv.
  induction IH as [|c children Hc _ IH]; [done|]. simpl. by rewrite Hc, IH.
Qed.

Definition record_entry (base : NodePath) (m : gmap str NodeMetadata) (e : NodePath * NodeMetadata) : gmap str NodeMetadata :=
  <[relative_name base e.1 := e.2]> m.

Lemma update_consolidated_node base node m : (∀ e, e ∈ flatten node → is_Some (strip_prefix e.1 base)) →
  update_consolidated_metadata base node m = Ok (foldl (record_entry base) m (preorder node)).
Proof.
  revert m. induction node as [path md children IH] using Node_nested_ind. intros m Hs. cbn [update_consolidated_metadata preorder foldl].
  destruct (Hs (path, md)) as [rel Hrel]; [simpl; apply elem_of_app; right; apply list_elem_of_here|]. simpl in Hrel. rewrite Hrel. cbn [expect obind].
  assert (∀ e, e ∈ concat (map flatten children) → is_Some (strip_prefix e.1 base)) as Hs' by (intros e He; apply Hs; simpl; apply elem_of_app; by left).
  replace (<[default rel (strip_prefix rel [slash]) := md]> m) with (record_entry base m (path, md)) by (unfold record_entry, relative_name; simpl; by rewrite Hrel).
  clear Hs Hrel. revert Hs'. generalize (record_entry base m (path, md)). induction IH as [|c children Hc _ IHc]; intros m' Hs; [done|]. simpl in *.
  rewrite Hc by (intros e He; apply Hs, elem_of_app; by left). cbn [obind]. rewrite foldl_app. apply IHc. intros e He. apply Hs, elem_of_app. by right.
Qed.

Lemma update_consolidated_nodes base nodes m : (∀ e, e ∈ forest nodes → is_Some (strip_prefix e.1 base)) →
  update_consolidated base nodes m = Ok (foldl (record_entry base) m (concat (map preorder nodes))).
Proof.
  revert m. induction nodes as [|node nodes IH]; intros m Hs; [done|]. cbn [update_consolidated map concat]. rewrite forest_cons in Hs.
  rewrite update_consolidated_node by (intros e He; apply Hs, elem_of_app; by left). cbn [obind]. rewrite foldl_app. apply IH.
  intros e He. apply Hs, elem_of_app. by right.
Qed.

(** Inserting entries with distinct keys. *)
Lemma insert_entries {A K} `{Countable K} {B} (f : A → K) (g : A → B) (l : list A) : NoDup (f <$> l) →
  map_to_list (foldl (λ m a, <[f a := g a]> m) (∅ : gmap K B) l) ≡ₚ (λ a, (f a, g a)) <$> l.
Proof.
  induction l as [|a l IH] using rev_ind; intros Hn; [simpl; by rewrite map_to_list_empty|]. rewrite fmap_app in Hn. apply NoDup_app in Hn as (Hn & Hd & _).
  rewrite foldl_app, fmap_app. simpl. rewrite map_to_list_insert, IH by (done || (
    destruct (foldl _ ∅ l !! f a) as [b|] eqn:E; [|done]; apply elem_of_map_to_list in E; rewrite IH in E by done;
    apply list_elem_of_fmap in E as (a' & [= E _] & Ha'); destruct (Hd (f a')); [by apply list_elem_of_fmap_2|rewrite <-E; apply list_elem_of_here])).
  apply Permutation_cons_append.
Qed.

(** Entries below [l]: their paths without [l]. *)
Definition relative_ok (R : list entry) : Prop := NoDup R.*1 ∧ Forall (λ e, e.1 ≠ [] ∧ Forall component_ok e.1) R.
Definition under (l : list str) (e : entry) : entry := (l ++ e.1, e.2).
Definition named (e : entry) : str * NodeMetadata := (join [slash] e.1, e.2).

Lemma relative_name_under l r : Forall component_ok (l ++ r) → r ≠ [] →
  is_Some (strip_prefix (path_of (l ++ r)) (path_of l)) ∧ relative_name (path_of l) (path_of (l ++ r)) = join [slash] r.
Proof.
  intros [Hl Hr]%Forall_app Hn. unfold relative_name. destruct (decide (l = [])) as [->|Hne].
  - assert (strip_prefix (path_of ([] ++ r)) (path_of []) = Some (join [slash] r)) as -> by (by apply strip_prefix_spec). split; [by eexists|]. cbn [default from_option id].
    by apply strip_slash_join.
  - assert (strip_prefix (path_of (l ++ r)) (path_of l) = Some (slash :: join [slash] r)) as -> by (apply strip_prefix_spec; by rewrite path_of_app).
    split; [by eexists|]. cbn [default from_option id]. by rewrite strip_prefix_cons.
Qed.

Lemma join_components_inj r r' : r ≠ [] → r' ≠ [] → Forall component_ok r → Forall component_ok r' → join [slash] r = join [slash] r' → r = r'.
Proof. intros. apply (join_inj slash); [done..|by apply components_ok_slash|by apply components_ok_slash|done]. Qed.

(** Consolidating the nodes below [l] lists each of them by its name. *)
Lemma update_consolidated_spec l nodes R : Forall component_ok l → relative_ok R → forest nodes ≡ₚ to_path <$> (under l <$> R) →
  ∃ C, update_consolidated (path_of l) nodes ∅ = Ok C ∧ map_to_list C ≡ₚ named <$> R.
Proof.
  intros Hl [Hnd Hok] Hp. rewrite Forall_forall in Hok.
  assert (∀ e, e ∈ R → is_Some (strip_prefix (path_of (l ++ e.1)) (path_of l)) ∧ relative_name (path_of l) (path_of (l ++ e.1)) = join [slash] e.1) as Hrel.
  { intros e He. destruct (Hok e He) as [? ?]. apply relative_name_under; [|done]. by apply Forall_app. }
  assert (concat (map preorder nodes) ≡ₚ to_path <$> (under l <$> R)) as Hpre.
  { rewrite <-Hp. unfold forest. clear. induction nodes as [|node nodes IH]; [done|]. simpl. by rewrite preorder_perm, IH. }
  rewrite update_consolidated_nodes.
  2: { intros e He. rewrite Hp in He. apply list_elem_of_fmap in He as (? & -> & (e' & -> & He')%list_elem_of_fmap). by apply Hrel. }
  eexists. split; [done|]. unfold record_entry. rewrite (insert_entries (λ e, relative_name (path_of l) e.1) snd).
  - rewrite Hpre, <-!list_fmap_compose. apply reflexive_eq, list_fmap_ext. intros i e He%list_elem_of_lookup_2. unfold compose, named. simpl.
    by rewrite (proj2 (Hrel e He)).
  - rewrite Hpre, <-!list_fmap_compose. apply NoDup_fmap_2_strong.
    + intros e e' He He'. unfold compose. simpl. rewrite (proj2 (Hrel e He)), (proj2 (Hrel e' He')). destruct (Hok e He), (Hok e' He').
      intros E%join_components_inj; [|done..]. clear -Hnd E He He'. destruct e as [k md], e' as [k' md']. simpl in E. subst k'. f_equal.
      apply list_elem_of_lookup in He as [i Hi], He' as [j Hj]. assert (i = j) as ->; [|by simplify_eq].
      eapply (NoDup_lookup R.*1); [done|by rewrite list_lookup_fmap, Hi|by rewrite list_lookup_fmap, Hj].
    + by apply (NoDup_fmap_1 fst).
Qed.

(** Expanding gives the nodes back. *)
Lemma expand_consolidated_spec l R : Forall component_ok l → Forall (λ e : entry, e.1 ≠ [] ∧ Forall component_ok e.1) R →
  expand_consolidated_metadata (path_of l) (named <$> R) = Ok (to_path <$> (under l <$> R)).
Proof.
  intros Hl Hok. induction Hok as [|[r md] R [Hr Hc] _ IH]; [done|]. rewrite !fmap_cons. cbn [expand_consolidated_metadata named fst snd].
  rewrite NodePath_join_spec by done. cbv zeta. rewrite strip_slash_join by done. rewrite decide_False by (apply join_ne; [done|by apply components_ok_ne]).
  assert (split slash (join [slash] r) = r) as -> by (apply split_join; [done|by apply components_ok_slash]). simpl in Hr, Hc.
  rewrite decide_True by done. cbn [map_err obind]. rewrite IH. cbn [obind]. unfold to_path, under at 2. cbn [fst snd]. rewrite decide_False; [done|].
  intros E%path_of_inj; [|by apply Forall_app|done]. rewrite <-(app_nil_r l) in E at 2. by apply app_inv_head in E.
Qed.
End consolidate.

(** ** From consolidated metadata to nodes *)

Section build.
Context `{SerdeJson}.
Abbreviation entry := (list str * NodeMetadata)%type.
Implicit Types (F : list entry) (k l : list str) (bp : gmap NodePath (gmap NodePath NodeMetadata)).

Definition strictly l (e : entry) : Prop := l `prefix_of` e.1 ∧ l ≠ e.1.
Definition is_child l (e : entry) : Prop := l `prefix_of` e.1 ∧ length e.1 = S (length l).

(** Entries below [l] with distinct paths, each the child of [l] or of a group among them. *)
Record closed l F : Prop := {
  closed_nodup : NoDup F.*1;
  closed_components k md : (k, md) ∈ F → Forall component_ok k;
  closed_parent k md : (k, md) ∈ F → ∃ r c, k = l ++ r ++ [c] ∧ (r = [] ∨ ∃ g, (l ++ r, NodeGroup g) ∈ F);
}.

Lemma closed_ancestor l F k r c md : closed l F → l `prefix_of` k → l ≠ k → (k ++ r ++ [c], md) ∈ F → ∃ g, (k, NodeGroup g) ∈ F.
Proof.
  intros HF [k' ->] Hne. assert (k' ≠ []) as Hk' by (by intros ->; rewrite app_nil_r in Hne). revert c md.
  induction r as [|d r IH] using rev_ind; intros c md Hin; destruct (closed_parent _ _ HF _ _ Hin) as (r' & c' & E & Hg).
  - rewrite <-app_assoc in E. apply app_inv_head in E. simpl in E. apply app_inj_2 in E as [-> _]; [|done]. by destruct Hg.
  - rewrite <-!(app_assoc l) in E. apply app_inv_head in E. rewrite app_assoc in E. apply app_inj_2 in E as [<- _]; [|done].
    destruct Hg as [Hg|[g Hg]]; [by destruct k'|]. apply (IH d (NodeGroup g)). by rewrite <-!app_assoc.
Qed.

(** Only groups have nodes below them. *)
Lemma strictly_group l F e e' : closed l F → e ∈ F → strictly l e → e' ∈ F → strictly e.1 e' → is_group e.2 = true.
Proof.
  intros HF He [Hp Hne] He' [[r Hr] Hne']. destruct e as [k md], e' as [k' md']. simpl in *. subst k'.
  destruct (exists_last (l:=r)) as (r' & c & ->); [by intros ->; rewrite app_nil_r in Hne'|].
  destruct (closed_ancestor l F k r' c md' HF Hp Hne He') as [g Hg]. pose proof (closed_nodup _ _ HF) as Hn.
  apply list_elem_of_lookup in He as [i Hi], Hg as [j Hj]. assert (i = j) as -> by (eapply (NoDup_lookup F.*1); [done|by rewrite list_lookup_fmap, Hi|by rewrite list_lookup_fmap, Hj]).
  by simplify_eq.
Qed.

(** The nodes below [l] are its children and those below them. *)
Lemma strictly_children l0 l F e : closed l0 F → l0 `prefix_of` l → e ∈ F →
  strictly l e ↔ ∃ d, d ∈ F ∧ is_child l d ∧ (d = e ∨ strictly d.1 e).
Proof.
  intros HF Hl He. destruct e as [k md]. split.
  - intros [[r Hr] Hne]. simpl in Hr, Hne. subst k. destruct r as [|c r]; [by rewrite app_nil_r in Hne|]. destruct r as [|d r].
    + exists (l ++ [c], md). split_and!; [done| |by left]. split; [by exists [c]|]. simpl. rewrite length_app. simpl. lia.
    + destruct (exists_last (l:=d :: r)) as (r' & x & E); [done|]. rewrite E in He |- *.
      destruct (closed_ancestor l0 F (l ++ [c]) r' x md HF) as [g Hg].
      * destruct Hl as [r0 ->]. exists (r0 ++ [c]). by rewrite app_assoc.
      * destruct Hl as [r0 ->]. rewrite <-app_assoc. intros E'. rewrite <-(app_nil_r l0) in E' at 1. apply app_inv_head in E'. by destruct r0.
      * by rewrite <-app_assoc.
      * exists (l ++ [c], NodeGroup g). split_and!; [done| |].
        { split; [by exists [c]|]. simpl. rewrite length_app. simpl. lia. }
        right. split; simpl; [exists (r' ++ [x]); by rewrite <-app_assoc|]. intros E'. apply app_inv_head in E'. by destruct r'.
  - intros (d & Hd & [Hp Hlen] & Hde). assert (strictly l d) as Hs by (split; [done|]; intros E; rewrite <-E in Hlen; lia).
    destruct Hde as [->|[Hp' Hne']]; [done|]. split; [by etrans|]. intros E. simpl in *. apply prefix_length in Hp'. simpl in Hp'. rewrite <-E in Hp'. lia.
Qed.

#[export] Instance strictly_dec l e : Decision (strictly l e).
Proof. unfold strictly. apply _. Defined.
#[export] Instance is_child_dec l e : Decision (is_child l e).
Proof. unfold is_child. apply _. Defined.

(** The map lists the children of [k]. *)
Definition lists F k bp : Prop := map_to_list (default ∅ (bp !! path_of k)) ≡ₚ to_path <$> filter (is_child k) F.

Lemma NoDup_entries F e e' : NoDup F.*1 → e ∈ F → e' ∈ F → e.1 = e'.1 → e = e'.
Proof.
  intros Hn [i Hi]%list_elem_of_lookup [j Hj]%list_elem_of_lookup E.
  assert (i = j) as -> by (eapply (NoDup_lookup F.*1); [done|by rewrite list_lookup_fmap, Hi|by rewrite list_lookup_fmap, Hj; simpl; rewrite E]). by simplify_eq.
Qed.

(** The children and what is below them. *)
Lemma below_children l0 l F : closed l0 F → l0 `prefix_of` l →
  filter (is_child l) F ≫= (λ e, filter (strictly e.1) F ++ [e]) ≡ₚ filter (strictly l) F.
Proof.
  intros HF Hl. pose proof (closed_nodup _ _ HF) as Hn. assert (NoDup F) as HnF by by apply (NoDup_fmap_1 fst).
  apply NoDup_Permutation; [|by apply NoDup_filter|].
  - apply NoDup_bind; [| |by apply NoDup_filter].
    + intros e1 e2 y [[Hp1 H1] E1]%list_elem_of_filter [[Hp2 H2] E2]%list_elem_of_filter Hy1 Hy2.
      assert (∀ e, y ∈ filter (strictly e.1) F ++ [e] → e.1 `prefix_of` y.1) as Hy.
      { intros e [[[? _] _]%list_elem_of_filter| ->%list_elem_of_singleton]%elem_of_app; done. }
      apply Hy in Hy1, Hy2. apply (NoDup_entries F); [done..|]. destruct Hy1 as [r1 R1], Hy2 as [r2 R2]. rewrite R1 in R2.
      apply app_inj_1 in R2 as [? _]; [done|congruence].
    + intros e [_ He]%list_elem_of_filter. apply NoDup_app. split_and!; [by apply NoDup_filter| |apply NoDup_singleton].
      intros x [[_ Hx] _]%list_elem_of_filter ->%list_elem_of_singleton. done.
  - intros e. rewrite list_elem_of_bind, list_elem_of_filter. split.
    + intros (d & Hd & [Hc HdF]%list_elem_of_filter). apply elem_of_app in Hd as [[Hs He]%list_elem_of_filter| ->%list_elem_of_singleton].
      * split; [|done]. apply (strictly_children l0 l F e); [done..|]. exists d. by eauto.
      * split; [|done]. apply (strictly_children l0 l F d); [done..|]. exists d. by eauto.
    + intros [Hs He]. apply (strictly_children l0 l F e) in Hs as (d & Hd & Hc & Hde); [|done..]. exists d. split; [|by apply list_elem_of_filter].
      apply elem_of_app. destruct Hde as [->|Hde]; [right; apply list_elem_of_here|left; by apply list_elem_of_filter].
Qed.

(** A step below [l] keeps what is listed elsewhere. *)
Definition keeps l bp bp' : Prop := (size bp' <= size bp)%nat ∧
  ∀ k, Forall component_ok k → ¬ l `prefix_of` k → bp' !! path_of k = bp !! path_of k.

Definition node_entry (node : Node) : NodePath * NodeMetadata := (node_path node, node_metadata node).

Definition collects (F : list entry) l (x : outcome NodeCreateError (list Node * gmap NodePath (gmap NodePath NodeMetadata))) bp : Prop := ∃ nodes bp',
  x = Ok (nodes, bp') ∧ forest nodes ≡ₚ to_path <$> filter (strictly l) F ∧ keeps l bp bp' ∧
  node_entry <$> nodes ≡ₚ to_path <$> filter (is_child l) F.

Lemma collect_entries_spec l0 F n : closed l0 F →
  (∀ l bp, l0 `prefix_of` l → Forall component_ok l → (size bp <= n)%nat → (∀ k, l `prefix_of` k → Forall component_ok k → lists F k bp) →
    collects F l (collect_children_from_map n (path_of l) bp) bp) →
  ∀ l es bp, l0 `prefix_of` l → Forall component_ok l → (size bp <= n)%nat → NoDup es → (∀ e, e ∈ es → e ∈ F ∧ is_child l e) →
    (∀ e k, e ∈ es → e.1 `prefix_of` k → Forall component_ok k → lists F k bp) →
    ∃ nodes bp', collect_entries (collect_children_from_map n) (to_path <$> es) bp = Ok (nodes, bp') ∧
      forest nodes ≡ₚ to_path <$> (es ≫= λ e, filter (strictly e.1) F ++ [e]) ∧ keeps l bp bp' ∧
      node_entry <$> nodes = to_path <$> es.
Proof.
  intros HF IHn l es bp Hl Hok. revert bp. induction es as [|e es IH]; intros bp Hsz Hnd Hes Hlists.
  { exists [], bp. by split_and!. }
  apply NoDup_cons in Hnd as [Hne Hnd]. destruct (Hes e) as [He [[r Hr] Hlen]]; [apply list_elem_of_here|].
  destruct e as [k md]. simpl in Hr, Hlen. assert (Forall component_ok k) as Hk by by apply (closed_components _ _ HF _ _ He).
  assert (l `prefix_of` k) as Hlk by by exists r. assert (l0 `prefix_of` k) as Hl0 by by etrans.
  assert (strictly l0 (k, md)) as Hst.
  { split; [done|]. intros E. simpl in E. subst k. apply prefix_length in Hl. rewrite E in Hl. lia. }
  assert (∃ children bp1, (if is_group md then collect_children_from_map n (path_of k) bp else Ok ([], bp)) = Ok (children, bp1) ∧
    forest children ≡ₚ to_path <$> filter (strictly k) F ∧ keeps k bp bp1) as (children & bp1 & Hc & Hf & Hsz1 & Hk1).
  { destruct (is_group md) eqn:Eg.
    - destruct (IHn k bp) as (children & bp1 & ? & ? & ? & _); [done..|intros k' Hk' Hok'; apply (Hlists (k, md)); [apply list_elem_of_here|done..]|by exists children, bp1].
    - exists [], bp. split_and!; [done| |by split]. assert (filter (strictly k) F = []) as ->; [|done].
      apply elem_of_nil_inv. intros e' [Hs' He']%list_elem_of_filter.
      pose proof (strictly_group l0 F (k, md) e' HF He Hst He' Hs') as Eg'. simpl in Eg'. congruence. }
  destruct (IH bp1) as (nodes & bp2 & Hn & Hfn & [Hsz2 Hk2] & Htop); [lia|done|intros; apply Hes; by apply list_elem_of_further| |].
  { intros e' k' He' Hk' Hok'. unfold lists. rewrite Hk1; [apply (Hlists e'); [by apply list_elem_of_further|done..]|done|].
    intros Hkk. destruct (Hes e') as [HeF [_ Hlen']]; [by apply list_elem_of_further|]. apply Hne. rewrite (NoDup_entries F (k, md) e'); [done|by apply (closed_nodup _ _ HF)|done..|].
    destruct Hkk as [x ->], Hk' as [y Hy]. simpl. by apply app_inj_1 in Hy as [? _]; [|congruence]. }
  exists (mk_node (path_of k) md children :: nodes), bp2. rewrite fmap_cons. unfold to_path at 1. cbn [fst snd collect_entries]. rewrite Hc. cbn [obind]. rewrite Hn. cbn [obind].
  split_and!; [done| | |].
  - rewrite forest_cons. cbn [flatten]. change (concat (map flatten children)) with (forest children). rewrite Hf, Hfn. cbn [mbind list_bind fst]. by rewrite !fmap_app.
  - split; [lia|]. intros k' Hok' Hnp. rewrite Hk2 by done. apply Hk1; [done|]. intros Hp. apply Hnp. by etrans.
  - rewrite fmap_cons. by f_equal.
Qed.

Lemma collect_children_spec l0 F n : closed l0 F → ∀ l bp, l0 `prefix_of` l → Forall component_ok l → (size bp <= n)%nat →
  (∀ k, l `prefix_of` k → Forall component_ok k → lists F k bp) →
  collects F l (collect_children_from_map n (path_of l) bp) bp.
Proof.
  intros HF. induction n as [|n IHn]; intros l bp Hl Hok Hsz Hlists; pose proof (Hlists l (reflexivity _) Hok) as Hch; unfold lists in Hch;
    cbn [collect_children_from_map]; destruct (bp !! path_of l) as [m|] eqn:Em; cbn [default from_option id] in Hch.
  - assert (bp = ∅) as -> by (apply map_size_empty_inv; lia). by rewrite lookup_empty in Em.
  - rewrite map_to_list_empty in Hch. apply Permutation_nil in Hch as Hnil.
    exists [], bp. split_and!; [done| |by split|by rewrite Hnil]. apply fmap_nil_inv in Hnil. rewrite <-(below_children l0 l F HF Hl), Hnil. done.
  - assert (btree_iter m ≡ₚ to_path <$> filter (is_child l) F) as Hb by (unfold btree_iter; by rewrite merge_sort_Permutation).
    apply Permutation_map_inv in Hb as (es & He & Hes). change (map to_path es) with (to_path <$> es) in He. rewrite He.
    destruct (collect_entries_spec l0 F n HF IHn l es (delete (path_of l) bp)) as (nodes & bp' & -> & Hf & [Hs Hk] & Htop); [done..| | | | |].
    + rewrite map_size_delete, Em. lia.
    + rewrite <-Hes. apply NoDup_filter, (NoDup_fmap_1 fst), (closed_nodup _ _ HF).
    + intros e Hin. rewrite <-Hes in Hin. by apply list_elem_of_filter in Hin as [? ?].
    + intros e k Hin Hp Hkok. rewrite <-Hes in Hin. apply list_elem_of_filter in Hin as [[Hle Hlen] _]. unfold lists. rewrite lookup_delete_ne.
      * apply Hlists; [by etrans|done].
      * intros E%path_of_inj; [|done..]. subst k. apply prefix_length in Hp. lia.
    + exists nodes, bp'. split_and!; [done| | |].
      * rewrite Hf, <-(below_children l0 l F HF Hl). by rewrite Hes.
      * split; [rewrite map_size_delete, Em in Hs; lia|]. intros k Hkok Hnp. rewrite Hk by done. apply lookup_delete_ne.
        intros E%path_of_inj; [|done..]. by subst k.
      * by rewrite Htop, Hes.
  - rewrite map_to_list_empty in Hch. apply Permutation_nil in Hch as Hnil.
    exists [], bp. split_and!; [done| |by split|by rewrite Hnil]. apply fmap_nil_inv in Hnil. rewrite <-(below_children l0 l F HF Hl), Hnil. done.
Qed.

Lemma is_child_snoc k k0 c md : is_child k (k0 ++ [c], md) ↔ k = k0.
Proof.
  unfold is_child. simpl. rewrite length_app. simpl. split; [|intros ->; split; [by exists [c]|lia]].
  intros [[r Hr] Hlen]. apply app_inj_1 in Hr as [? _]; [done|lia].
Qed.

(** Grouping entries by their parents. *)
Lemma insert_by_parent_lists F : NoDup F.*1 → Forall (λ e, e.1 ≠ [] ∧ Forall component_ok e.1) F →
  ∀ k, Forall component_ok k → lists F k (foldl insert_by_parent ∅ (to_path <$> F)).
Proof.
  induction F as [|[k1 md] F IH] using rev_ind; intros Hn Hok k Hk.
  { unfold lists. simpl. by rewrite lookup_empty. }
  rewrite fmap_app in Hn. apply NoDup_app in Hn as (Hn & Hd & _). apply Forall_app in Hok as [Hok [[Hk1 Hk1ok] _]%Forall_cons]. simpl in Hk1, Hk1ok.
  destruct (exists_last Hk1) as (k0 & c & ->). apply Forall_app in Hk1ok as [Hk0 [Hc _]%Forall_cons]. specialize (IH Hn Hok). unfold lists in IH.
  unfold lists. rewrite fmap_app, foldl_app, filter_app, fmap_app. cbn [fmap list_fmap foldl]. unfold insert_by_parent at 1. cbn [to_path fst snd].
  rewrite NodePath_parent_snoc by done. set (bp := foldl _ _ _) in *. destruct (decide (k = k0)) as [->|Hne].
  - rewrite lookup_insert_eq. cbn [default from_option id]. rewrite filter_cons_True, filter_nil by by apply is_child_snoc.
    rewrite map_to_list_insert; [etrans; [by apply perm_skip, (IH k0 Hk0)|apply Permutation_cons_append]|].
    destruct (default ∅ (bp !! path_of k0) !! path_of (k0 ++ [c])) as [md'|] eqn:E; [|done]. apply elem_of_map_to_list in E. rewrite (IH k0 Hk0) in E.
    apply list_elem_of_fmap in E as ([k2 md2] & [= E _] & [_ Hin]%list_elem_of_filter). rewrite Forall_forall in Hok. destruct (Hok _ Hin) as [_ Hk2].
    simpl in E, Hk2. assert (k0 ++ [c] = k2) as <- by (apply path_of_inj; [by apply Forall_snoc_ok|done|unfold path_of; congruence]).
    destruct (Hd (k0 ++ [c])); [|apply list_elem_of_here]. by apply (list_elem_of_fmap_2 fst) in Hin.
  - rewrite lookup_insert_ne by (intros E%path_of_inj; congruence || done). rewrite filter_cons_False, filter_nil by by rewrite is_child_snoc. rewrite app_nil_r. by apply IH.
Qed.

Lemma closed_under l F : Forall component_ok l → closed l F → Forall (strictly l) F ∧ Forall (λ e, e.1 ≠ [] ∧ Forall component_ok e.1) F.
Proof.
  intros Hl HF. rewrite !Forall_forall. assert (∀ e, e ∈ F → strictly l e ∧ e.1 ≠ [] ∧ Forall component_ok e.1) as Hall; [|by split; intros; apply Hall].
  intros [k md] He. destruct (closed_parent _ _ HF _ _ He) as (r & c & E & _). simpl. split_and!.
  - split; simpl; [by exists (r ++ [c])|]. rewrite E. intros E'. rewrite <-(app_nil_r l) in E' at 1. apply app_inv_head in E'. by destruct r.
  - rewrite E. by destruct l, r.
  - by eapply closed_components.
Qed.

Lemma filter_all {A} (P : A → Prop) `{∀ a, Decision (P a)} (l : list A) : Forall P l → filter P l = l.
Proof. induction 1; [done|]. rewrite filter_cons_True by done. by f_equal. Qed.

Lemma filter_map_iff {A B} (f : A → B) (P : B → Prop) (Q : A → Prop) `{∀ b, Decision (P b)} `{∀ a, Decision (Q a)} (l : list A) :
  (∀ a, a ∈ l → P (f a) ↔ Q a) → filter P (f <$> l) = f <$> filter Q l.
Proof.
  induction l as [|a l IH]; intros Hl; [done|]. rewrite fmap_cons. assert (filter P (f <$> l) = f <$> filter Q l) as He by (apply IH; intros; apply Hl; by apply list_elem_of_further).
  pose proof (Hl a (list_elem_of_here _ _)). destruct (decide (Q a)); [rewrite !filter_cons_True, fmap_cons by tauto|rewrite !filter_cons_False by tauto]; congruence.
Qed.

(** Building the tree of entries. *)
Lemma build_node_tree_spec l F : Forall component_ok l → closed l F →
  ∃ nodes, build_node_tree (path_of l) (to_path <$> F) = Ok nodes ∧ forest nodes ≡ₚ to_path <$> F ∧
    node_entry <$> nodes ≡ₚ to_path <$> filter (is_child l) F.
Proof.
  intros Hl HF. destruct (closed_under l F Hl HF) as [Hs Hok]. unfold build_node_tree. set (bp := foldl _ _ _).
  destruct (collect_children_spec l F (size bp) HF l bp) as (nodes & bp' & -> & Hf & _ & Ht); [done..| |].
  { intros k _ Hk. by apply insert_by_parent_lists; [apply (closed_nodup _ _ HF)|..]. }
  exists nodes. split_and!; [done| |done]. rewrite Hf. by rewrite filter_all.
Qed.

Lemma direct_children_spec l F : Forall component_ok l → closed l F →
  node_entry <$> direct_children_from_flat (path_of l) (to_path <$> F) ≡ₚ to_path <$> filter (is_child l) F.
Proof.
  intros Hl HF. destruct (closed_under l F Hl HF) as [_ Hok]. unfold direct_children_from_flat. rewrite merge_sort_Permutation, <-list_fmap_compose.
  rewrite (list_fmap_ext _ id) by (by intros i []). rewrite list_fmap_id. apply reflexive_eq. apply filter_map_iff. intros [k md] He.
  rewrite Forall_forall in Hok. destruct (Hok _ He) as [Hne Hk]. simpl in Hne, Hk. destruct (exists_last Hne) as (k0 & c & ->).
  apply Forall_app in Hk as [Hk0 [Hc _]%Forall_cons]. unfold to_path. cbn [fst snd]. rewrite NodePath_parent_snoc, is_child_snoc by done.
  split; [intros [= E]|by intros ->]. apply path_of_inj; [done..|]. unfold path_of. congruence.
Qed.
End build.

(** ** The tree of a store *)

Section tree.
Context `{SerdeJson} (M : gmap str bytes) (version : MetadataRetrieveVersion).

Lemma tree_closed n l : valid_keys M → names_valid M → Forall component_ok l → fits M l n →
  ∃ F, forest (tree_below n M version l) = to_path <$> F ∧ closed l F ∧ ∀ k md, (k, md) ∈ F ↔ below M version l k md.
Proof.
  intros HM Hn Hl Hf. destruct (tree_below_spec n M version l HM Hn Hl Hf) as [Hnd Hin].
  destruct (fmap_inverse to_path (λ e, below M version l e.1 e.2) (forest (tree_below n M version l))) as (F & HF & Hb).
  { intros [p md] (k & -> & Hk)%Hin. by exists (k, md). }
  rewrite Forall_forall in Hb. rewrite HF in Hnd, Hin. assert (∀ k md, (k, md) ∈ F ↔ below M version l k md) as HinF.
  { intros k md. split; [apply (Hb (k, md))|]. intros Hk. assert (to_path (k, md) ∈ to_path <$> F) as Ht by (apply Hin; by exists k).
    apply list_elem_of_fmap in Ht as ([k' md'] & E & He). unfold to_path in E. simpl in E. injection E as E <-.
    destruct (below_components _ _ _ _ _ Hk Hl) as (_ & _ & _ & Hk1), (below_components _ _ _ _ _ (Hb _ He) Hl) as (_ & _ & _ & Hk2).
    assert (k = k') as ->; [|done]. apply path_of_inj; [done..|]. unfold path_of. congruence. }
  exists F. split_and!; [done| |done]. split.
  - apply (NoDup_fmap_1 path_of). assert ((to_path <$> F).*1 = path_of <$> F.*1) as <- by (by rewrite <-!list_fmap_compose). done.
  - intros k md (_ & _ & _ & ?)%HinF%below_components; done.
  - intros k md (r & c & -> & Hr)%HinF%below_parent; [|done]. exists r, c. split; [done|]. destruct Hr as [|[g Hg%HinF]]; eauto.
Qed.

Lemma tree_children n l F : valid_keys M → names_valid M → Forall component_ok l → closed l F → (∀ k md, (k, md) ∈ F ↔ below M version l k md) →
  node_entry <$> tree_below (S n) M version l ≡ₚ to_path <$> filter (is_child l) F.
Proof.
  intros HM Hn Hl HF Hin. destruct (subdirectories_spec M l HM Hn Hl) as (_ & Hnd & He).
  assert (node_entry <$> tree_below (S n) M version l = to_path <$> omap (λ c, (λ md, (l ++ [c], md)) <$> stored_node M version (l ++ [c])) (subdirectories M l)) as ->.
  { cbn [tree_below]. clear. induction (subdirectories M l) as [|c cs IH]; [done|]. cbn [omap list_omap].
    destruct (stored_node M version (l ++ [c])); [|done]. cbn [fmap option_fmap option_map]. rewrite !fmap_cons. by f_equal. }
  apply fmap_Permutation, NoDup_Permutation; [|apply NoDup_filter, (NoDup_fmap_1 fst), (closed_nodup _ _ HF)|].
  - clear He. induction Hnd as [|c cs Hc Hnd IH]; [constructor|]. cbn [omap list_omap]. destruct (stored_node M version (l ++ [c])); [|done].
    cbn [fmap option_fmap option_map]. apply NoDup_cons. split; [|done]. intros (d & Hd & E)%list_elem_of_omap.
    destruct (stored_node M version (l ++ [d])); [|done]. injection E as E _. by apply app_inv_head in E as [= ->].
  - intros [k md]. rewrite list_elem_of_omap, list_elem_of_filter, Hin. unfold stored_node. split.
    + intros (c & [Hc Hd]%He & E). destruct (stored M version (path_of (l ++ [c]))) eqn:Hs; [|done..]. injection E as <- <-.
      split; [by apply is_child_snoc|by constructor].
    + intros [[_ Hlen] Hb]. inversion Hb as [l0 c m Hc Hs|l0 c g k0 m Hc Hs Hb']; subst.
      * exists c. rewrite Hs. split; [|done]. apply He. split; [done|]. by eapply stored_directory; [apply Forall_snoc_ok|].
      * destruct (below_components _ _ _ _ _ Hb') as (r & Hr & -> & _); [by apply Forall_snoc_ok|]. simpl in Hlen. rewrite !length_app in Hlen. simpl in Hlen.
        by destruct r; [|simpl in Hlen; lia].
Qed.
End tree.

(** ** Reading the metadata of a group *)

(** What documents serde reads back.  The attributes of a version 2 group are written inside the document, so that only a document without
    attributes is sure to be read back; the additional fields of version 3 must not have the names of the other fields. *)
Class LawfulSerdeJson `{SerdeJson} := {
  well_named : GroupMetadataV3 → Prop;
  law_group_v3 m : well_named m → group_v3_from_slice (group_v3_to_vec m) = Some m;
  law_group_v2 m : attributes_is_empty (group_attributes m) = true → group_v2_from_slice (group_v2_to_vec m) = Some m;
  law_attributes a : attributes_from_slice (attributes_to_vec a) = Some a;
  law_size_v3 m : zlen (group_v3_to_vec m) < u64_modulus;
  law_size_v2 m : zlen (group_v2_to_vec m) < u64_modulus;
  law_size_attributes a : zlen (attributes_to_vec a) < u64_modulus;
  law_default_attributes m : attributes_is_empty (group_attributes (set_group_attributes m attributes_default)) = true;
  law_set_attributes m a : set_group_attributes (set_group_attributes m a) (group_attributes m) = m;
}.

Section group.
Context `{SerdeJson}.

(** The metadata of a group that a store holds. *)
Definition opened (M : gmap str bytes) (version : MetadataRetrieveVersion) (path : NodePath) : outcome GroupCreateError GroupMetadata :=
  match (if retrieves_v3 version then M !! meta_key_v3 path else None), (if retrieves_v2 version then M !! meta_key_v2_group path else None) with
  | Some b, _ => let? metadata := ok_or (GroupStorageError (InvalidMetadata (meta_key_v3 path))) (group_v3_from_slice b) in Ok (GroupV3 metadata)
  | None, Some b =>
      let? metadata := ok_or (GroupStorageError (InvalidMetadata (meta_key_v2_group path))) (group_v2_from_slice b) in
      match M !! meta_key_v2_attributes path with
      | Some b => let? attributes := ok_or (GroupStorageError (InvalidMetadata (meta_key_v2_attributes path))) (attributes_from_slice b) in
          Ok (GroupV2 (set_group_attributes metadata attributes))
      | None => Ok (GroupV2 metadata)
      end
  | None, None => Err GroupMissingMetadata
  end.

Definition metadata_keys (path : NodePath) : list StoreKey := [meta_key_v3 path; meta_key_v2_group path; meta_key_v2_attributes path].

Lemma metadata_keys_distinct l : Forall component_ok l → NoDup (metadata_keys (path_of l)).
Proof.
  intros Hl. unfold metadata_keys, meta_key_v3, meta_key_v2_group, meta_key_v2_attributes. rewrite !meta_key_any_prefix by done.
  assert (∀ a b : str, a ≠ b → node_prefix l ++ a ≠ node_prefix l ++ b) as Hne by (by intros a b Hab ?%app_inv_head).
  repeat apply NoDup_cons_2; [..|constructor]; rewrite ?not_elem_of_cons; split_and?; try apply not_elem_of_nil; by apply Hne.
Qed.

Context {S : Type} (abs : S → gmap str bytes) `{HL : LawfulStorage S abs}.

Lemma reads_get_if {E A} (g : StorageError → E) (b : bool) key (f : option bytes → eop E S A) s x :
  (∀ s', abs s' = abs s → reads abs (f (if b then abs s !! key else None)) s' x) →
  reads abs (nbind (if b then estore g (get key) else nret None) f) s x.
Proof using HL. intros Hf. destruct b; [by apply (reads_get abs)|]. eapply reads_bind; [apply reads_ret|done]. Qed.

Lemma open_metadata_reads l version s : Forall component_ok l → reads abs (open_metadata (path_of l) version) s (opened (abs s) version (path_of l)).
Proof using HL.
  intros Hl. unfold open_metadata, opened. rewrite NodePath_new_path by done. eapply reads_bind; [apply reads_ret|]. intros s1 A1. cbv zeta.
  apply reads_get_if. rewrite A1. intros s2 A2. destruct (if retrieves_v3 version then abs s !! meta_key_v3 (path_of l) else None).
  { apply reads_lift_bind. intros. apply reads_ret. }
  apply reads_get_if. rewrite A2. intros s3 A3. destruct (if retrieves_v2 version then abs s !! meta_key_v2_group (path_of l) else None); [|apply reads_lift].
  apply reads_lift_bind. intros m. apply (reads_get abs). rewrite A3. intros s4 A4. destruct (abs s !! meta_key_v2_attributes (path_of l)); [|apply reads_ret].
  apply reads_lift_bind. intros. apply reads_ret.
Qed.

Lemma store_metadata_returns `{!LawfulSerdeJson} group version s : let path := group_path group in
  returns abs (store_metadata_opt group version) s tt
    (match group_metadata_opt group version with
     | GroupV3 m => <[meta_key_v3 path := group_v3_to_vec m]> (abs s)
     | GroupV2 m => if attributes_is_empty (group_attributes m) then <[meta_key_v2_group path := group_v2_to_vec m]> (abs s)
         else <[meta_key_v2_group path := group_v2_to_vec (set_group_attributes m attributes_default)]>
           (<[meta_key_v2_attributes path := attributes_to_vec (group_attributes m)]> (abs s))
     end).
Proof using HL.
  intros path. unfold store_metadata_opt. fold path. destruct (group_metadata_opt group version) as [m|m]; [apply (HL.(law_set abs)), law_size_v3|].
  destruct (attributes_is_empty (group_attributes m)); cbn [negb].
  - eapply returns_bind; [apply returns_ret|]. intros s' A'. rewrite <-A'. apply (HL.(law_set abs)), law_size_v2.
  - eapply (returns_bind abs _ _ s (set_group_attributes m attributes_default) tt (<[meta_key_v2_attributes path := attributes_to_vec (group_attributes m)]> (abs s))).
    { eapply returns_bind; [apply (HL.(law_set abs)), law_size_attributes|]. intros s1 A1. rewrite <-A1. apply returns_ret. }
    intros s' A'.
    rewrite <-A'. apply (HL.(law_set abs)), law_size_v2.
Qed.
End group.

Lemma erase_all_returns `{SerdeJson} {S : Type} (abs : S → gmap str bytes) `{HL : LawfulStorage S abs} group s : let path := group_path group in
  returns abs (erase_metadata_opt group EraseAll) s tt
    (delete (meta_key_v2_attributes path) (delete (meta_key_v2_group path) (delete (meta_key_v3 path) (abs s)))).
Proof.
  intros path. unfold erase_metadata_opt, erase_v2. fold path.
  eapply (returns_bind abs _ _ s tt tt (delete (meta_key_v3 path) (abs s))); [apply (HL.(law_erase abs))|]. intros s1 <-.
  eapply (returns_bind abs _ _ s1 tt tt (delete (meta_key_v2_group path) (abs s1))); [apply (HL.(law_erase abs))|]. intros s2 <-.
  apply (HL.(law_erase abs)).
Qed.

(** A directory of a bad name is no node. *)
Lemma path_of_prefix_bad l c : Forall component_ok l → c ≠ [] → slash ∉ c → ¬ component_ok c →
  path_of_prefix (node_prefix (l ++ [c])) = Err (NodeStorageError StorageOther).
Proof.
  intros Hl Hcn Hs Hc. unfold path_of_prefix, NodePath_from_prefix. pose proof (node_prefix_join (l ++ [c]) [] ltac:(by destruct l)) as Hj. rewrite app_nil_r in Hj.
  rewrite Hj, strip_suffix_snoc. cbn [expect obind]. unfold NodePath_new. change ([slash] ++ join [slash] (l ++ [c])) with (path_of (l ++ [c])).
  destruct (NodePath_validate (path_of (l ++ [c]))) eqn:E; [|done]. apply NodePath_validate_spec in E as (k & Hk & E). unfold path_of in E.
  assert (join [slash] (l ++ [c]) = join [slash] k) as E' by congruence. exfalso. apply Hc. assert (Forall (λ s, slash ∉ s) (l ++ [c])) as Hls.
  { apply Forall_app. split; [by apply components_ok_slash|by constructor]. }
  destruct (decide (k = [])) as [->|Hne].
  - apply join_eq_nil in E' as [E'|E']; [by destruct l|]. destruct l as [|d l]; [|by destruct l].
    by injection E' as ->.
  - apply join_inj in E'; [|by destruct l|done|done|by apply components_ok_slash]. subst k. by apply Forall_app in Hk as [_ [? _]%Forall_cons].
Qed.

Lemma reads_filter_map_err {S E A B : Type} (abs : S → gmap str bytes) (f : A → eop E S (option B)) (l : list A) s e :
  (∀ a s', a ∈ l → abs s' = abs s → (∃ o, reads abs (f a) s' (Ok o)) ∨ reads abs (f a) s' (Err e)) →
  (∃ a, a ∈ l ∧ ∀ s', abs s' = abs s → reads abs (f a) s' (Err e)) → reads abs (nfilter_map f l) s (Err e).
Proof.
  revert s. induction l as [|a l IH]; intros s Hf (b & Hb & Hbad); [by apply elem_of_nil in Hb|]. cbn [nfilter_map].
  destruct (Hf a s) as [[o Ho]|He]; [apply list_elem_of_here|done| |].
  - apply elem_of_cons in Hb as [->|Hb].
    + destruct (Hbad s) as (s1 & H1 & A1); [done|]. exists s1. unfold nbind. by rewrite H1.
    + eapply reads_bind; [exact Ho|]. intros s1 A1. assert (reads abs (nfilter_map f l) s1 (Err e)) as (s2 & H2 & A2).
      { apply IH; [intros a' s' Ha' A'; apply Hf; [by apply list_elem_of_further|congruence]|]. exists b. split; [done|]. intros s' A'. apply Hbad. congruence. }
      exists s2. unfold nbind. rewrite H2. by split.
  - destruct He as (s1 & H1 & A1). exists s1. unfold nbind. by rewrite H1.
Qed.

(** ** Theorems on hierarchies *)

Lemma hierarchy_extend_lookup `{MetadataDocuments} p0 md0 (nodes : list (NodePath * NodeMetadata)) p md : NoDup nodes.*1 → p0 ∉ nodes.*1 →
  hierarchy_extend {[p0 := md0]} nodes !! p = Some md ↔ (p = p0 ∧ md = md0) ∨ (p, md) ∈ nodes.
Proof.
  induction nodes as [|[q m] nodes IH] using rev_ind; intros Hn Hp.
  { unfold hierarchy_extend. cbn [foldl]. etrans; [apply (lookup_singleton_Some (M:=gmap NodePath))|]. split; [intros [-> ->]; by left|intros [[-> ->]|?%elem_of_nil]; done]. }
  rewrite fmap_app in Hn, Hp. apply NoDup_app in Hn as (Hn & Hd & _). unfold hierarchy_extend in *. rewrite foldl_app. cbn [foldl fst snd].
  etrans; [apply (lookup_insert_Some (M:=gmap NodePath))|]. rewrite elem_of_app, list_elem_of_singleton, IH by (done || (intros ?; apply Hp, elem_of_app; by left)). split.
  - intros [[-> ->]|[Hne [?|?]]]; [by right; right|by left|by right; left].
  - intros [[-> ->]|[Hin|[= -> ->]]]; [|right|by left].
    + right. split; [|by left]. intros ->. apply Hp, elem_of_app. right. apply list_elem_of_here.
    + split; [|by right]. intros ->. apply (list_elem_of_fmap_2 fst) in Hin. eapply Hd; [exact Hin|apply list_elem_of_here].
Qed.

Section hierarchies.
Context `{SerdeJson} {S : Type} (abs : S → gmap str bytes) `{HL : LawfulStorage S abs}.

(** C15: Listing and descending finds every node below a group, and nothing else, once: a directory that has metadata is a node, below it
    there are nodes if it is a group.  The keys of the store are valid, every directory name is a node name, but for the reserved names
    in the root, and the documents of nodes can be read.  The recursive listing has the nodes as a tree, and [Hierarchy::open] has them with the node itself.
    The fuel is enough when it is more than the lengths of the keys below the group. *)
Theorem hierarchy_lists_every_node (s : S) (l : list str) (version : MetadataRetrieveVersion) (n : nat)
    (HM : valid_keys (abs s)) (Hn : names_valid (abs s)) (Hr : readable (abs s) version) (Hl : Forall component_ok l) (Hf : fits (abs s) l n) :
  (∃ nodes, reads abs (get_child_nodes_opt n (path_of l) true version) s (Ok nodes) ∧
    reads abs (get_all_nodes_of n (path_of l) version) s (Ok (forest nodes)) ∧ NoDup (forest nodes).*1 ∧
    ∀ p md, (p, md) ∈ forest nodes ↔ ∃ k, p = path_of k ∧ below (abs s) version l k md) ∧
  ∀ md, stored (abs s) version (path_of l) = Ok md →
    ∃ h, reads abs (hierarchy_open_opt n (path_of l) version UseNever) s (Ok h) ∧
      ∀ p m, h !! p = Some m ↔ (p = path_of l ∧ m = md) ∨ (is_group md = true ∧ ∃ k, p = path_of k ∧ below (abs s) version l k m).
Proof using HL.
  destruct (tree_below_spec n (abs s) version l HM Hn Hl Hf) as [Hnd Hin]. split.
  { exists (tree_below n (abs s) version l). split_and!; [by apply (get_child_nodes_reads abs n true)|by apply (get_all_nodes_reads abs)|done|done]. }
  intros md Hmd. exists (hierarchy_extend {[path_of l := md]} (if is_group md then forest (tree_below n (abs s) version l) else [])). split.
  - unfold hierarchy_open_opt. rewrite NodePath_new_path by done. eapply reads_bind; [apply reads_ret|]. intros s1 A1. cbn [map_err].
    eapply reads_bind; [rewrite <-Hmd, <-A1; apply (get_metadata_reads abs)|]. intros s2 A2.
    eapply (reads_bind abs _ _ _ (if is_group md then forest (tree_below n (abs s) version l) else [])); [|intros; apply reads_ret].
    destruct (is_group md); [|apply reads_ret]. assert (abs s2 = abs s) as E by congruence. rewrite <-E.
    eapply reads_bind; [apply reads_ret|]. intros s3 A3. rewrite <-A3. apply (get_all_nodes_reads abs); by rewrite ?A3, ?E.
  - intros p m. assert (path_of l ∉ (if is_group md then forest (tree_below n (abs s) version l) else []).*1) as Hnew.
    { destruct (is_group md); [|apply not_elem_of_nil]. intros ([p' m'] & Hp & (k & -> & Hb)%Hin)%list_elem_of_fmap. simpl in Hp.
      destruct (below_components _ _ _ _ _ Hb Hl) as (r & Hne & -> & Hk). apply path_of_inj in Hp; [|done..].
      rewrite <-(app_nil_r l) in Hp at 1. by apply app_inv_head in Hp. }
    rewrite hierarchy_extend_lookup; [|by destruct (is_group md); [|constructor]|done]. destruct (is_group md).
    + rewrite Hin. naive_solver.
    + rewrite elem_of_nil. naive_solver.
Qed.

(** C16: Consolidated metadata stands for the store: the metadata that [consolidate_metadata] collects from the nodes below a group, in any
    order, gives the same nodes back, to a group that uses it, without a call to the store. *)
Theorem consolidation_keeps_hierarchy (s : S) (l : list str) (n : nat) (metadata : GroupMetadata) (G : GroupMetadataV3) (entries : ConsolidatedMetadata)
    (convert : MetadataConvertVersion) (erase : MetadataEraseVersion) (policy : UseConsolidatedMetadata)
    (HM : valid_keys (abs s)) (Hn : names_valid (abs s)) (Hr : readable (abs s) RetrieveDefault) (Hl : Forall component_ok l) (Hf : fits (abs s) l n)
    (HG : consolidated_field G = Some entries) (Hp : policy ≠ UseNever) :
  let group := mk_group (path_of l) metadata convert erase UseNever in
  let consolidated := mk_group (path_of l) (GroupV3 G) convert erase policy in
  ∃ nodes C, reads abs (group_children n group true) s (Ok nodes) ∧ reads abs (group_traverse n group) s (Ok (forest nodes)) ∧
    consolidate_metadata (mk_node (path_of l) (NodeGroup metadata) nodes) = Ok (Some C) ∧
    (entries ≡ₚ map_to_list C → ∀ m,
      ∃ tree children flat, group_children m consolidated true s = (s, Ok tree) ∧ group_children m consolidated false s = (s, Ok children) ∧
        group_traverse m consolidated s = (s, Ok flat) ∧
        forest tree ≡ₚ forest nodes ∧ flat ≡ₚ forest nodes ∧ node_entry <$> tree ≡ₚ node_entry <$> nodes ∧ node_entry <$> children ≡ₚ node_entry <$> nodes).
Proof using HL.
  intros group consolidated. destruct n as [|n]; [destruct Hf; lia|].
  destruct (tree_closed (abs s) RetrieveDefault (Datatypes.S n) l HM Hn Hl Hf) as (F & HF & HFc & Hin).
  pose proof (tree_children (abs s) RetrieveDefault n l F HM Hn Hl HFc Hin) as Hch.
  set (nodes := tree_below (Datatypes.S n) (abs s) RetrieveDefault l) in *.
  destruct (closed_under l F Hl HFc) as [Hst Hok]. rewrite Forall_forall in Hst, Hok.
  destruct (fmap_inverse (under l) (λ e, e.1 ≠ [] ∧ Forall component_ok e.1) F) as (R & HR & HRok).
  { intros [k md] He. destruct (Hst _ He) as [[r Hk] Hne], (Hok _ He) as [_ Hkok]. simpl in *. subst k. exists (r, md). split; [done|].
    apply Forall_app in Hkok as [_ Hr']. split; [|done]. intros E. simpl in E. subst r. by rewrite app_nil_r in Hne. }
  assert (relative_ok R) as HRel.
  { split; [|done]. pose proof (closed_nodup _ _ HFc) as Hnd. rewrite HR in Hnd. apply (NoDup_fmap_1 (app l)).
    by assert ((under l <$> R).*1 = app l <$> R.*1) as <- by (by rewrite <-!list_fmap_compose). }
  destruct (update_consolidated_spec l nodes R Hl HRel) as (C & HC & HCR); [by rewrite HF, HR|].
  exists nodes, C. split_and!.
  - by apply (get_child_nodes_reads abs (Datatypes.S n) true).
  - by apply (get_all_nodes_reads abs).
  - unfold consolidate_metadata. cbn [is_group node_metadata node_path node_children]. by rewrite HC.
  - intros He m. rewrite HCR in He. apply Permutation_map_inv in He as (R' & -> & HRR). change (map named R') with (named <$> R') in HG.
    assert (expand_consolidated_metadata (path_of l) (named <$> R') = Ok (to_path <$> (under l <$> R'))) as Hexp.
    { apply expand_consolidated_spec; [done|]. by rewrite <-HRR. }
    assert (under l <$> R' ≡ₚ F) as HF' by (by rewrite HR, HRR). assert (closed l (under l <$> R')) as HFc'.
    { destruct HFc as [F1 F2 F3]. split; [by rewrite HF'| |]; intros k md; rewrite HF'; [apply F2|]. intros Hk. destruct (F3 k md Hk) as (r & c & ? & [?|[g Hg]]); exists r, c.
      - by split; [|left].
      - split; [done|right]. exists g. by rewrite HF'. }
    destruct (build_node_tree_spec l _ Hl HFc') as (tree & Ht & Hft & Hct). pose proof (direct_children_spec l _ Hl HFc') as Hd.
    assert (resolve_consolidated_policy (path_of l) (consolidated_field G) policy = Ok (Some (named <$> R'))) as Hpol by (rewrite HG; by destruct policy).
    exists tree, (direct_children_from_flat (path_of l) (to_path <$> (under l <$> R'))), (to_path <$> (under l <$> R')). unfold group_children, group_traverse, group_consolidated_metadata, nbind, nlift. cbn [group_path group_metadata group_use_consolidated consolidated].
    rewrite Hpol, Hexp. cbn [obind]. rewrite Ht.
    split_and!; [done..|by rewrite Hft, HF, HF'|by rewrite HF, HF'|by rewrite Hct, Hch, HF'|by rewrite Hd, Hch, HF'].
Qed.

(** C18: A directory whose name is no name for a node, as the reserved names that start with two underscores, makes listing the group that it is in
    an error, unless it is in the root group, where the reserved names are left out. *)
Theorem bad_directory_stops_listing (s : S) (l : list str) (c : str) (version : MetadataRetrieveVersion) (n : nat)
    (HM : valid_keys (abs s)) (Hr : readable (abs s) version) (Hl : Forall component_ok l) (Hroot : l ≠ [] ∨ starts_with c (lit "__") = false)
    (Hne : c ≠ []) (Hs : slash ∉ c) (Hc : ¬ component_ok c) (Hd : directory (abs s) (l ++ [c])) :
  reads abs (get_child_nodes_opt (Datatypes.S n) (path_of l) false version) s (Err (NodeStorageError StorageOther)) ∧
  reads abs (get_all_nodes_of (Datatypes.S n) (path_of l) version) s (Err (NodeStorageError StorageOther)).
Proof using HL.
  assert (∀ m, reads abs (get_child_nodes_opt (Datatypes.S m) (path_of l) false version) s (Err (NodeStorageError StorageOther))) as Hg.
  2: { split; [done|]. cbn [get_all_nodes_of]. destruct (Hg 0%nat) as (s1 & H1' & A1). exists s1. unfold nbind. by rewrite H1'. }
  intros m. pose proof (node_prefix_valid l Hl) as Hp. cbn [get_child_nodes_opt]. rewrite NodePath_to_prefix_path by done. cbn [map_err].
  eapply reads_bind; [apply reads_ret|]. intros s1 A1. destruct (HL.(law_list_dir abs) s1 (node_prefix l)) as (s2 & Hdir & A2); [by rewrite A1|done|].
  set (Q := filter (λ v, starts_with v (lit "__") = false) (skp_prefixes (spec_list_dir (abs s) (node_prefix l)))).
  assert (∀ q, q ∈ Q → ∃ d, q = node_prefix (l ++ [d]) ∧ d ≠ [] ∧ slash ∉ d) as HQ.
  { intros q [_ Hq]%list_elem_of_filter. apply elem_of_dir_prefixes in Hq as (d & r & -> & Hdn & Hds & _); [|done..]. exists d. by rewrite node_prefix_snoc. }
  assert (reads abs (nstore (discover_children (node_prefix l))) s1 (Ok Q)) as HQr.
  { apply reads_store. exists s2. unfold discover_children, op_bind. rewrite Hdir, A1. fold Q. split; [|congruence]. unfold op_lift. f_equal.
    rewrite <-(collect_res_Ok (E:=StorageError) Q). f_equal. apply list_fmap_ext. intros i q Hq%list_elem_of_lookup_2. unfold StorePrefix_new.
    apply list_elem_of_filter in Hq as [_ (k & Hk & Hcp)%elem_of_dir_children]. rewrite (child_prefix_valid (node_prefix l) k q); [done..|by eapply valid_keys_lookup|done]. }
  eapply reads_bind; [exact HQr|]. intros s3 A3. apply reads_filter_map_err.
  - intros q s4 (d & -> & Hdn & Hds)%HQ A4. destruct (decide (component_ok d)) as [Hok|Hbad]; [left|right; rewrite path_of_prefix_bad by done; by exists s4].
    pose proof (Forall_snoc_ok l d Hl Hok) as Hld. unfold path_of_prefix. rewrite NodePath_from_prefix_node by (done || by destruct l). cbn [map_err].
    exists ((λ md, mk_node (path_of (l ++ [d])) md []) <$> stored_node (abs s) version (l ++ [d])).
    eapply reads_bind; [apply reads_ret|]. intros s5 A5. assert (abs s5 = abs s) as E5 by congruence.
    eapply reads_bind; [apply (child_metadata_reads abs); rewrite E5; apply Hr; [done|by destruct l]|].
    intros s6 A6. rewrite E5. unfold stored_node. by destruct (stored (abs s) version (path_of (l ++ [d]))); apply reads_ret.
  - exists (node_prefix (l ++ [c])). split; [|intros s4 A4; rewrite path_of_prefix_bad by done; by exists s4].
    apply list_elem_of_filter. split.
    + apply not_true_iff_false. destruct Hroot as [Hroot|Hroot]; [apply components_not_hidden; [done|by right]|].
      destruct l as [|d l']; [|inversion Hl; by apply (component_not_hidden d (l' ++ [c]))]. intros Hh%starts_with_spec. apply not_true_iff_false in Hroot. apply Hroot.
      apply starts_with_spec. destruct Hh as [x Hx]. unfold node_prefix in Hx. simpl in Hx. rewrite app_nil_r in Hx.
      destruct c as [|a [|b c]]; [done|injection Hx as _ Hx; discriminate Hx|]. injection Hx as -> -> _. by exists c.
    + apply elem_of_dir_prefixes; [done..|]. destruct Hd as [r Hd]. exists c, r. by rewrite node_prefix_snoc in Hd |- *.
Qed.
End hierarchies.

Section group_metadata.
Context `{HJ : LawfulSerdeJson} {S : Type} (abs : S → gmap str bytes) `{HL : LawfulStorage S abs}.

(** C17: Storing the metadata of a group and opening it gives it back, converted as the options say, when no other document is in its way; no other
    key changes; and erasing the metadata leaves nothing to open. *)
Theorem group_metadata_roundtrip (s : S) (l : list str) (group : Group) (version : MetadataConvertVersion)
    (Hl : Forall component_ok l) (Hp : group_path group = path_of l)
    (Hfree : match group_metadata_opt group version with
      | GroupV3 m => well_named m
      | GroupV2 m => abs s !! meta_key_v3 (path_of l) = None ∧
          (attributes_is_empty (group_attributes m) = false ∨ abs s !! meta_key_v2_attributes (path_of l) = None)
      end) :
  ∃ s1, store_metadata_opt group version s = (s1, Ok tt) ∧
    reads abs (open_metadata (path_of l) RetrieveDefault) s1 (Ok (group_metadata_opt group version)) ∧
    (∀ key, key ∉ metadata_keys (path_of l) → abs s1 !! key = abs s !! key) ∧
    ∃ s2, erase_metadata_opt group EraseAll s1 = (s2, Ok tt) ∧
      (∀ v, reads abs (open_metadata (path_of l) v) s2 (Err GroupMissingMetadata)) ∧
      ∀ key, key ∉ metadata_keys (path_of l) → abs s2 !! key = abs s !! key.
Proof using HJ HL.
  destruct (store_metadata_returns abs group version s) as (s1 & Hstore & A1). rewrite Hp in A1. exists s1.
  pose proof (metadata_keys_distinct l Hl) as Hnd. unfold metadata_keys in Hnd |- *.
  set (v3 := meta_key_v3 (path_of l)) in *. set (zgroup := meta_key_v2_group (path_of l)) in *. set (zattrs := meta_key_v2_attributes (path_of l)) in *.
  assert (v3 ≠ zgroup ∧ v3 ≠ zattrs ∧ zgroup ≠ zattrs) as (Hd1 & Hd2 & Hd3) by (rewrite !NoDup_cons in Hnd; set_solver).
  assert (∀ key, key ∉ [v3; zgroup; zattrs] → abs s1 !! key = abs s !! key) as Hkeep.
  { intros key Hkey. assert (key ≠ v3 ∧ key ≠ zgroup ∧ key ≠ zattrs) as (? & ? & ?) by set_solver. rewrite A1.
    destruct (group_metadata_opt group version) as [m|m]; [|destruct (attributes_is_empty _)]; by rewrite !lookup_insert_ne. }
  split_and!; [done| |done|].
  - assert (opened (abs s1) RetrieveDefault (path_of l) = Ok (group_metadata_opt group version)) as <-; [|by apply (open_metadata_reads abs)].
    unfold opened. cbn [retrieves_v3 retrieves_v2]. fold v3 zgroup zattrs. rewrite A1. destruct (group_metadata_opt group version) as [m|m].
    + rewrite lookup_insert_eq. cbn [ok_or]. by rewrite (law_group_v3 m).
    + destruct Hfree as [Hv3 Hattrs]. destruct (attributes_is_empty (group_attributes m)) eqn:Ee.
      * destruct Hattrs as [|Hattrs]; [done|]. rewrite (lookup_insert_ne _ zgroup v3), Hv3, lookup_insert_eq, (lookup_insert_ne _ zgroup zattrs), Hattrs by done. by rewrite (law_group_v2 m).
      * rewrite (lookup_insert_ne _ zgroup v3), (lookup_insert_ne _ zattrs v3), Hv3, (lookup_insert_eq _ zgroup) by done. rewrite law_group_v2 by apply law_default_attributes. cbn [ok_or obind].
        rewrite lookup_insert_ne, lookup_insert_eq, law_attributes by done. cbn [ok_or obind]. by rewrite law_set_attributes.
  - destruct (erase_all_returns abs group s1) as (s2 & Herase & A2). rewrite Hp in A2. fold v3 zgroup zattrs in A2. exists s2. split_and!; [done| |].
    + intros v. assert (opened (abs s2) v (path_of l) = Err GroupMissingMetadata) as <-; [|by apply (open_metadata_reads abs)].
      unfold opened. fold v3 zgroup zattrs. rewrite A2, !lookup_delete_ne, lookup_delete_eq, lookup_delete_ne, lookup_delete_eq by done.
      by destruct (retrieves_v3 v), (retrieves_v2 v).
    + intros key Hkey. assert (key ≠ v3 ∧ key ≠ zgroup ∧ key ≠ zattrs) as (? & ? & ?) by set_solver. rewrite A2, !lookup_delete_ne by done. by apply Hkeep.
Qed.

(** C19: But storing a group without attributes in the version 2 of the format leaves the attributes that were stored before it: opening the group
    again gives it the old ones. *)
Theorem group_keeps_old_attributes (s : S) (l : list str) (group : Group) (m : GroupMetadataV2) (version : MetadataConvertVersion) (b : bytes) (old : Attributes)
    (Hl : Forall component_ok l) (Hp : group_path group = path_of l) (Hm : group_metadata_opt group version = GroupV2 m)
    (Hempty : attributes_is_empty (group_attributes m) = true) (Hv3 : abs s !! meta_key_v3 (path_of l) = None)
    (Hb : abs s !! meta_key_v2_attributes (path_of l) = Some b) (Hold : attributes_from_slice b = Some old) :
  ∃ s1, store_metadata_opt group version s = (s1, Ok tt) ∧
    reads abs (open_metadata (path_of l) RetrieveDefault) s1 (Ok (GroupV2 (set_group_attributes m old))).
Proof using HJ HL.
  destruct (store_metadata_returns abs group version s) as (s1 & Hstore & A1). rewrite Hp, Hm, Hempty in A1. exists s1. split; [done|].
  pose proof (metadata_keys_distinct l Hl) as Hnd. unfold metadata_keys in Hnd. rewrite !NoDup_cons in Hnd.
  assert (opened (abs s1) RetrieveDefault (path_of l) = Ok (GroupV2 (set_group_attributes m old))) as <-; [|by apply (open_metadata_reads abs)].
  unfold opened. cbn [retrieves_v3 retrieves_v2]. rewrite A1, lookup_insert_ne, Hv3, lookup_insert_eq by set_solver.
  rewrite (law_group_v2 m) by done. cbn [ok_or obind]. rewrite lookup_insert_ne, Hb by set_solver. cbn [ok_or obind]. by rewrite Hold.
Qed.
End group_metadata.

(** ** Small documents, for the witnesses *)

Lemma names_valid_keys (M : gmap str bytes) : map_Forall (λ k _, Forall component_ok (take (length (split slash k) - 1) (split slash k))) M → names_valid M.
Proof.
  intros HM l r Hl [v Hv]. left. specialize (HM _ _ Hv). simpl in HM. rewrite split_node_prefix, length_app in HM by done.
  pose proof (split_ne slash r). destruct (split slash r) as [|x y]; [done|]. simpl in HM.
  rewrite take_app_ge in HM by lia. by apply Forall_app in HM as [? _].
Qed.

Lemma fits_keys (M : gmap str bytes) l n : (0 < n)%nat → map_Forall (λ k _, length k < n)%nat M → fits M l n.
Proof. intros Hn HM. split; [done|]. intros r [v Hv]. specialize (HM _ _ Hv). simpl in HM. rewrite length_app in HM. lia. Qed.

(** Groups have one bit: in version 3 whether there is consolidated metadata, in version 2 the attributes. *)
#[local] Instance small_documents : MetadataDocuments := {|
  ArrayMetadataV3 := unit; GroupMetadataV3 := bool; ArrayMetadataV2 := bool; GroupMetadataV2 := bool; Attributes := bool;
  attributes_is_empty := negb; attributes_default := false; set_array_attributes _ a := a; group_attributes m := m; set_group_attributes _ a := a;
  group_v3_with_attributes a := false
|}.

#[local] Instance small_json : SerdeJson := {|
  node_from_slice b := Some (match b with [0] => NodeGroup (GroupV3 (false : GroupMetadataV3)) | [1] => NodeGroup (GroupV3 (true : GroupMetadataV3)) | _ => NodeArray (ArrayV3 (tt : ArrayMetadataV3)) end);
  group_v3_from_slice b := Some (bool_decide (b = [1]) : GroupMetadataV3);
  array_v2_from_slice b := Some (bool_decide (b = [1]) : ArrayMetadataV2);
  group_v2_from_slice b := Some (bool_decide (b = [1]) : GroupMetadataV2);
  attributes_from_slice b := Some (bool_decide (b = [1]) : Attributes);
  group_v3_to_vec m := [Z.b2z (m : bool)];
  group_v2_to_vec m := [Z.b2z (m : bool)];
  attributes_to_vec m := [Z.b2z (m : bool)];
  consolidated_field m := if (m : bool) then Some [(lit "a/b", NodeArray (ArrayV3 (tt : ArrayMetadataV3))); (lit "a", NodeGroup (GroupV3 (false : GroupMetadataV3)))] else None;
  set_consolidated_field _ c := bool_decide (is_Some c) : GroupMetadataV3;
  must_understand_field _ := None
|}.

#[local] Instance small_json_lawful : LawfulSerdeJson.
Proof. exists (λ _, True); intros; repeat match goal with m : _ |- _ => destruct m end; by_decision || done. Qed.

Lemma small_readable M version : readable M version.
Proof.
  intros l Hl Hn. unfold stored, stored_v3, stored_v2, stored_attributes. destruct version; cbn [retrieves_v3 retrieves_v2];
    repeat (case_match; simplify_eq/=; try done).
Qed.

(** A group [/a] and an array [/a/b] with a chunk. *)
Definition small_store : MemoryStore :=
  <[lit "zarr.json" := [0]]> (<[lit "a/zarr.json" := [0]]> (<[lit "a/b/zarr.json" := [2]]> (<[lit "a/b/c/0" := [7]]> (∅ : MemoryStore)))).

Lemma small_store_ok : valid_keys small_store ∧ names_valid small_store ∧ fits small_store [] 20.
Proof.
  split_and!.
  - apply (bool_decide_unpack (map_Forall (λ k _, StoreKey_validate k = true) small_store)). vm_compute. exact I.
  - apply names_valid_keys. apply (bool_decide_unpack (map_Forall (λ k _, Forall component_ok (take (length (split slash k) - 1) (split slash k))) small_store)). vm_compute. exact I.
  - apply fits_keys; [lia|]. apply (bool_decide_unpack (map_Forall (λ k _, length k < 20)%nat small_store)). vm_compute. exact I.
Qed.

(** The array and the groups of the example. *)
Definition small_array : NodeMetadata := NodeArray (ArrayV3 (H := small_documents) tt).
Definition small_group (consolidated : bool) : GroupMetadata := GroupV3 (H := small_documents) consolidated.

Lemma hierarchy_lists_every_node_witness : ∃ nodes, (get_all_nodes_of 20 (lit "/") RetrieveDefault small_store).2 = Ok nodes ∧
  nodes = [(lit "/a/b", small_array); (lit "/a", NodeGroup (small_group false))] ∧
  below small_store RetrieveDefault [] [lit "a"; lit "b"] small_array.
Proof.
  destruct small_store_ok as (HM & Hn & Hf).
  destruct (hierarchy_lists_every_node memory_abs small_store [] RetrieveDefault 20 HM Hn (small_readable _ _) (Forall_nil_2 _) Hf)
    as [(nodes & _ & (s' & Hrun & _) & _ & Hin) _].
  assert ((get_all_nodes_of 20 (path_of []) RetrieveDefault small_store).2 = Ok [(lit "/a/b", small_array); (lit "/a", NodeGroup (small_group false))]) as Hv by (vm_compute; reflexivity).
  rewrite Hrun in Hv. injection Hv as Hv. exists (forest nodes). split; [by change (lit "/") with (path_of []); rewrite Hrun|]. split; [done|].
  destruct (proj1 (Hin (lit "/a/b") small_array)) as (k & Hk & Hb); [rewrite Hv; apply list_elem_of_here|].
  assert (k = [lit "a"; lit "b"]) as ->; [|exact Hb].
  destruct (below_components _ _ _ _ _ Hb (Forall_nil_2 _)) as (_ & _ & _ & Hok). symmetry. apply path_of_inj; [by repeat constructor|done|by symmetry].
Defined.

(** The nodes of the example as the metadata of its root lists them. *)
Definition small_entries : ConsolidatedMetadata := [(lit "a/b", small_array); (lit "a", NodeGroup (small_group false))].

Lemma consolidation_keeps_hierarchy_witness : ∃ tree,
  group_children 0 (mk_group (lit "/") (small_group true) ConvertDefault EraseDefault UseAuto) true small_store = (small_store, Ok tree) ∧
  node_entry <$> tree = [(lit "/a", NodeGroup (small_group false))] ∧ forest tree ≡ₚ [(lit "/a/b", small_array); (lit "/a", NodeGroup (small_group false))].
Proof.
  destruct small_store_ok as (HM & Hn & Hf).
  destruct (consolidation_keeps_hierarchy memory_abs small_store [] 20 (small_group false) true small_entries ConvertDefault EraseDefault UseAuto
    HM Hn (small_readable _ _) (Forall_nil_2 _) Hf eq_refl) as (nodes & C & (s1 & Hrun & _) & _ & HC & Hall); [done|].
  assert ((group_children 20 (mk_group (path_of []) (small_group false) ConvertDefault EraseDefault UseNever) true small_store).2 =
    Ok [mk_node (lit "/a") (NodeGroup (small_group false)) [mk_node (lit "/a/b") small_array []]]) as Hv by (vm_compute; reflexivity).
  rewrite Hrun in Hv. injection Hv as ->.
  match type of HC with ?x = _ => assert (match x with Ok (Some C) => map_to_list C | _ => [] end = small_entries) as Hv by (vm_compute; reflexivity) end.
  rewrite HC in Hv. assert (small_entries ≡ₚ map_to_list C) as Hperm by by rewrite <-Hv.
  destruct (Hall Hperm 0%nat) as (tree & _ & _ & Ht & _ & _ & Hf' & _ & He & _).
  exists tree. split; [exact Ht|]. split; [|exact Hf']. cbn in He. by apply Permutation_singleton_r in He.
Defined.

Lemma bad_directory_stops_listing_witness :
  let s : MemoryStore := <[lit "a/__b/x" := [0]]> (<[lit "a/zarr.json" := [0]]> (∅ : MemoryStore)) in
  (group_traverse 1 (mk_group (lit "/a") (small_group false) ConvertDefault EraseDefault UseNever) s).2 = Err (NodeStorageError StorageOther).
Proof.
  intros s. destruct (bad_directory_stops_listing memory_abs s [lit "a"] (lit "__b") RetrieveDefault 0) as [_ (s1 & Hrun & _)].
  - apply (bool_decide_unpack (map_Forall (λ k _, StoreKey_validate k = true) s)). vm_compute. exact I.
  - apply small_readable.
  - by repeat constructor.
  - by left.
  - done.
  - by_decision.
  - vm_compute. intros [].
  - exists (lit "x"). by exists [0].
  - change (lit "/a") with (path_of [lit "a"]). unfold group_traverse, nbind, nlift. cbn [resolve_consolidated_policy group_use_consolidated group_path].
    by rewrite Hrun.
Defined.

Lemma group_metadata_roundtrip_witness :
  let group := mk_group (lit "/a") (GroupV2 (H := small_documents) true) ConvertDefault EraseDefault UseAuto in
  ∃ s1, store_metadata_opt group ConvertDefault (∅ : MemoryStore) = (s1, Ok tt) ∧
    (open_metadata (lit "/a") RetrieveDefault s1).2 = Ok (GroupV2 (H := small_documents) true).
Proof.
  intros group. destruct (group_metadata_roundtrip memory_abs (∅ : MemoryStore) [lit "a"] group ConvertDefault) as (s1 & Hs & (s2 & Ho & _) & _).
  - by repeat constructor.
  - done.
  - split; [done|by left].
  - exists s1. split; [done|]. change (lit "/a") with (path_of [lit "a"]). by rewrite Ho.
Defined.

Lemma group_keeps_old_attributes_witness :
  let group := mk_group (lit "/a") (GroupV2 (H := small_documents) false) ConvertDefault EraseDefault UseAuto in
  ∃ s1, store_metadata_opt group ConvertDefault ({[lit "a/.zattrs" := [1]]} : MemoryStore) = (s1, Ok tt) ∧
    (open_metadata (lit "/a") RetrieveDefault s1).2 = Ok (GroupV2 (H := small_documents) true).
Proof.
  intros group. destruct (group_keeps_old_attributes memory_abs ({[lit "a/.zattrs" := [1]]} : MemoryStore) [lit "a"] group false ConvertDefault [1] true) as (s1 & Hs & (s2 & Ho & _)).
  - by repeat constructor.
  - done.
  - done.
  - done.
  - by vm_compute.
  - by vm_compute.
  - done.
  - exists s1. split; [done|]. change (lit "/a") with (path_of [lit "a"]). by rewrite Ho.
Defined.
